(* ===== verification/_CoqProject ===== *)
-Q . S2P
Prelude.v
Dates.v
Validate.v
Ledger.v
Settlement.v
Scheduler.v
Catalog.v
Identifiers.v
Admissions.v
FaucetLedger.v
FaucetPolicy.v
Faucet.v
Toolkit.v
Budget.v
Flights.v
Bootstrap.v
Evidence.v
Contract.v
X402.v
Net.v
Guards.v
Recovery.v
Token.v
Status.v
Gate.v
Policy.v
Oracle.v
Json.v
Redact.v
Codec.v
Errors.v
PaymentClient.v
Runner.v
Seller.v
Paywall.v
PaywallTell.v
Revocation.v
Submitter.v
Submissions.v
Environment.v
Boot.v
Deployer.v
Purchases.v
Calendar.v
Guardians.v
Ranking.v
Teams.v
Season.v
Outings.v
OutingRunner.v
OutingSafety.v
Boards.v
BoardFacts.v
Honors.v
Claims.v
ClaimFacts.v
GuardianBoot.v
Permission.v
OutingPayment.v
