(* ===== verification/Prelude.v ===== *)
(** * Mapae: a verification library for the payment core

    Mapae lets an agent pay for HTTP resources under an on-chain delegation: a seller
    answers 402 with an offer, the agent signs a leaf delegation bound to it, the seller
    sends the payment to a facilitator, and the facilitator redeems it on the chain and
    pays the gas.  The core logic of the repository (TypeScript) is what decides whether
    money moves, once and for the right amount: the tables the services keep, the guards
    in front of the chain, the words the parts exchange about a settlement, and the limits
    an operator or an owner puts on an agent.  This library models that logic, component
    by component, and proves what makes each component correct.

    ** Files, and the sources they model

    - [Prelude]: errors, results, the transaction and method monads, JSON-like values,
      ASCII text, decimal text, reachability, sums, retention lemmas.
    - [Dates]: the proleptic Gregorian calendar behind [toISOString].
    - [Toolkit]: the functions of viem and of the Smart Accounts Kit, as a type class, with
      the documented laws the code relies on and a concrete instance for the witnesses.
    - Store, packages/store/src:
      [Validate] (the checks before every column), [Ledger] (settlement events, daily
      budget series; index.ts), [Settlement] (the settlement journal; settlement.ts),
      [Scheduler] (payment jobs and runs; scheduler.ts), [Catalog] (sellers, items, orders,
      tickets, schema version; index.ts), [Identifiers] (payment identifiers; index.ts),
      [Admissions] (arcade tickets and model calls; arcade.ts), [FaucetLedger] (faucet
      claims; faucet.ts).
    - Faucet: [FaucetPolicy] (packages/delegation/src/faucet-policy.ts), [Faucet]
      (apps/faucet/claims.ts: claims, broadcasts and the reconciler as processes).
    - Sponsors, packages/delegation/src/account-bootstrap.ts: [Budget] (daily budget,
      rate limiter, receipt fees, funded keys), [Bootstrap] (who may have an account
      deployed).
    - Settlement path: [Evidence] (settlement-evidence.ts), [Contract]
      (facilitator-contract.ts: the closed words and the two ladders that read them),
      [X402] (x402.ts: the facilitator's trust boundary), [Net] (shared/src/net.ts: rate
      limit buckets), [Guards] (apps/facilitator-erc7710: guards.ts, settlement.ts,
      routes.ts, health.ts, and rpc.ts), [Recovery] (apps/facilitator-erc7710/recovery.ts
      with the single flight of x402.ts).
    - Agent side, packages/delegation/src: [Token] (shared/src/token.ts), [Status]
      (delegation-status.ts), [Gate] (agent-runtime.ts), [Policy] (policy.ts), [Oracle]
      (oracle.ts), [Redact] and [PaymentClient] (payment-client.ts: the bearer redaction and
      the whole call), [Errors] (shared/src/errors.ts), [Runner] (apps/payment-scheduler:
      the tick and its executor).
    - Seller, packages/seller/src/index.ts: [Seller] (boot checks, the facilitator's kind and
      its cache, the request fingerprint, the manifest; the loopback test of
      shared/src/chain.ts), [Paywall] (the middleware, and every way a request can go),
      [PaywallTell] (the answer read by the buyer's client; every request is answered).
    - Revocation: [Revocation] (packages/delegation/src/revocation.ts and
      revocation-submission.ts: the operation, its wire form, what a submitter admits),
      [Submitter] (apps/revocation-submitter: one submission, and the automaton of what it may
      ask), [Submissions] (the state the submissions share, and POST /revoke).
    - Funded services: [Flights] (requests in flight over one budget), [Environment]
      (shared/src/chain.ts and metrics.ts: how a service reads its environment), [Boot] (how
      account-bootstrap, revocation-submitter, faucet and facilitator start), [Deployer]
      (apps/account-bootstrap/index.ts: the requests that deploy an account).
    - Arcade, packages/arcade/src: [Calendar] and [Ranking] (ranking.ts: Korean days and weeks,
      their seal, ranked seeds, requests, the attendance streak), [Guardians] (guardians.ts,
      and the honor word of contracts/src/MapaeGuardians.sol), [Teams] (team.ts), [Season]
      (season.ts and hall.ts).  [Purchases] (apps/arcade-service/payments.ts: buying a ticket
      for a request).
    - Agent outings, apps/delegated-seller: [Outings] (outings/store.ts, the rows
      guardians/ledger.ts adds, the choice of a game in packages/arcade/src/simulation.ts),
      [OutingRunner] (outings/runner.ts: workers, owners, payments and crashes interleaved),
      [OutingSafety] (what every run of it keeps).
    - Boards, apps/delegated-seller/ranking: [Boards] (board.ts and hall.ts: the queries, the
      reader, the hall of fame), [BoardFacts] (boards are right, sealed ones final), [Honors]
      (honors.ts: the memo of sealed titles and the honor read from it).
    - Guardian claims, apps/delegated-seller/guardians: [Claims] (the rows of ledger.ts that a
      batch reads and marks, and createGuardianClaims of runtime.ts as the tree of its
      questions), [ClaimFacts] (batches interleaved over one ledger and book), [GuardianBoot]
      (readGuardianConfig).
    - Outing requests, apps/delegated-seller/outings: [Permission] (validation.ts: the start
      request and the permission it carries), [OutingPayment] (runtime.ts: the session key, the
      receipt, the payment of one round).
    - Wire: [Json] (JSON.parse, JSON.stringify, UTF-8 and binary64 numbers, as the language
      defines them), [Codec] (shared/src/x402.ts: base64 headers, document builders, the
      payment identifier).

    ** How the parts interact

    [Settlement] writes terminal events through [Ledger] ([on_events]) and charges the
    series of [Ledger]; [Recovery] drives [Settlement.claim] and [Settlement.finish] from
    interleaved requests; [Guards] turns what [Recovery] and [X402] throw into HTTP answers
    and [Contract] reads those answers at the seller's end, so the two theorems about
    /verify and /settle go through both ends.  [Faucet] runs over [FaucetLedger]; [Budget]
    is proved against the interface [BudgetStore]/[StoreLaws], which an in-memory store and
    the series of [Ledger] implement.  [Gate] judges the statuses that [Status] reads.
    [Oracle] consumes the policies that [Policy] admits.  [PaymentClient] signs through
    [Gate]'s verdicts, encodes with [Codec], strips with [Redact], reads the seller with the
    words of [Contract], and presents what [X402] admits; [Runner] runs it over the table of
    [Scheduler].  [Paywall] offers with [Codec], asks the facilitator and reads its answers
    with the ladders of [Contract], binds identifiers with the outcomes of [Identifiers];
    [PaywallTell] composes it with [PaymentClient].  [Submitter] carries what [Revocation]
    admits; [Submissions] interleaves its runs over the budget and the limiter of [Budget].
    [Boot] reads with [Environment] and yields the configurations of [Submitter] and of
    [Deployer], which puts [Bootstrap]'s validation in front of a [Flights] table.
    [Purchases] runs [PaymentClient] against the admissions of [Admissions], the orders of
    [Catalog] and the settlements of [Settlement].  [Ranking], [Teams] and [Season] count the
    days of [Calendar]; [Guardians] packs the titles that the contract keeps.  An outing's
    ranked rounds take the seeds of [Ranking] for the traits of [Guardians]; [Boards] reads
    the rows its ledger keeps, with the points and windows of [Season] and the teams of
    [Teams], and [Honors] the boards of sealed weeks.  A batch of [Claims] reads the ledger of
    [Outings] and the honors of [Honors], and signs what [Guardians] packs; [ClaimFacts] runs
    batches beside workers and reads.  [Permission] checks a signature with the toolkit of
    [Bootstrap] against the caveats of [Policy]; [OutingPayment] runs [PaymentClient] for one
    admission and reads its receipt with [Evidence].

    ** How state and operations correspond

    - An SQL query is its relational meaning on the list of rows: a window function numbers a
      partition by an order ([Boards.ahead_of]).
    - A table keyed by text is a [gmap]; a table with an INTEGER PRIMARY KEY, or whose rowid
      order matters (faucet claims, admissions), is the list of its rows in rowid order.
      CHECK, UNIQUE and foreign-key constraints are explicit guards that throw
      [SQLiteError].
    - [db.transaction(f)] is the monad [tx]: a throw leaves the state as it was.  A method
      that writes fields of an object is the monad [meth]: a throw keeps earlier writes.
    - An error is its class and message ([js_error]); where a handler inspects classes and
      the cause chain, it is [thrown] ([Guards]).
    - A bigint, and a Number the code has checked to be a safe integer, is [Z]; an [unknown]
      value is [jsval].  An amount stored as TEXT is the integer it prints
      ([read_show_Z]).  Quotients that the code floors or takes the ceiling of are exact for
      safe integers.
    - An [async] function is a process whose segments, one per [await], are atomic:
      [Faucet.advance], [Recovery.op_reply], [Gate.wrap_call]/[wrap_resumed], the probe of
      [Guards].  The step relations interleave any number of them; answers from outside
      (RPC, signer, clock, random ids, HTTP bodies) are arguments of the step, so every
      theorem holds whatever the outside answers.
    - Source text the code inspects is ASCII.  A regular expression anchored at both ends
      is the predicate it denotes.  JSON and base64 are modelled ([Json], [Codec]); the URL
      parser and the kit's encoders are arguments.
    - A function over an arbitrary world [W] whose effects are arguments of type [meth W]
      ([PaymentClient], [Runner], [Paywall]) leaves open what fetch, signer, clock or another process
      answer and change; a log of the questions asked ([PaymentClient.logged], [Paywall.logged]) states what
      left the process.
    - Where the order of the questions is the point ([Submitter]), an async function is the
      tree of its questions ([prog]), and the specification an automaton that a question must
      be allowed by; the same trees are the processes of [Submissions].

    ** What the theorems show

    - Money is charged once: an intent is settled by at most one unmarked answer and by one
      transaction, over every history including crashes, and a claimed intent can always be
      resolved later ([Recovery]); the journal's counters equal the sums of its rows, finish
      is final, nonces never repeat ([Settlement]); payment identifiers and orders bind once
      ([Identifiers], [Catalog]); a scheduled job never exceeds its caps ([Scheduler]).
    - Limits hold: the session budget under concurrent signing, pre-flight against the
      chain's own checks, limits read from the environment ([Gate]); every ancestor's period
      and lifetime limits, revocation of a subtree, the window ceiling ([Oracle]); a policy's
      numbers can bind ([Policy]); daily budgets and rate limits ([Budget]); faucet limits
      ([FaucetLedger]); paid tickets ([Admissions]).
    - The parts tell each other the truth: refusals, pending settlements and successes are
      never confused between facilitator and seller ([Guards], [Contract]); an accepted
      payment is pinned to its offer ([X402]); receipts prove credits ([Evidence]) and
      report the amounts that were charged ([Status]).
    - An agent pays what it agreed to: only the first payable offer is signed, at most once,
      after its pre-flight; a result carries an identifier exactly when a payment was
      presented; doubt is never reported as anything else; nothing that comes back holds the
      bearer's secrets ([PaymentClient]); a scheduled run records what happened to the money,
      and a tick closes every run it claims ([Runner]).
    - A seller serves what was paid for: the handler runs only for a payment that was
      verified and settled, or remembered as settled, for this very request; every request is
      answered; the buyer's client reads an answer as doubt exactly when the payment may have
      been charged; a fingerprint is of one request; the advertised kind is never forgotten
      ([Seller], [Paywall], [PaywallTell]).
    - A sponsor pays for the owner's own revocation: what is admitted is the revocation by the
      granting account of the root it names, what the repository builds is admitted
      ([Revocation]); money is reserved after every check, deposited for exactly the shortfall
      and charged once ([Submitter]); a day's deposits stay within its budget over every
      interleaving, and the answers are a closed list ([Submissions]); the same holds of the
      deployments, and only an owner's own deployment is paid ([Deployer]).  Services that
      boot from environments naming the wallets alike do not share one ([Boot], with the
      exception its finding states).
    - A ticket is paid for once: a request that may pay files its row first and never pays
      again; an issued ticket has an order of its own, for its price; a refused one was not
      charged ([Purchases]).  An agent's outing signs one header per admission and at most as
      many as its owner delegated, over every interleaving of workers within their lease,
      owners, crashes and replies; what it spent is what its ledger shows, each admission with
      a transaction of its own; an outing that is over holds no permission ([OutingSafety]).  A
      permission is taken only with exactly the caveats drawn up for the admissions asked for
      ([Permission]); a round's header is filed before it is presented, a filed one is
      presented again, and a round is paid only on the chain's word ([OutingPayment]).
    - A guardian claims what it paid for: a signed batch holds its owner's rows that the chain
      reports unclaimed and paid in full in a safe block, each once; the signed honor is the
      word the contract will store; a batch ends within a bounded number of questions
      ([ClaimFacts]).  The session key and the result signer are nobody else's keys
      ([OutingPayment.session_key_is_separate], [GuardianBoot.result_signer_is_separate]).
    - The boards are fair: the seller and the contract seal a week at one instant, after
      which nothing is late ([Calendar]); a streak turns over daily and ranked seeds are the
      reference hash ([Ranking]); a guardian has at most three ranked rounds of a game a day
      ([OutingSafety]); a day's board has every guardian once with its best attempt, in order,
      and a sealed hall is what it will always be, however late rows settle ([BoardFacts]); the
      memo of titles is a pure cache and an honor never shrinks ([Honors]); team boards add up and are placed right ([Teams]); the closing block
      is the first one and the raffle draws without replacement ([Season]); names are
      distinct, titles round-trip, and the contract keeps the lane-wise maximum of the honors
      ([Guardians]).
    - Broadcasts are recorded first: faucet bytes are in the ledger before they are sent, and
      nonces are exclusive ([Faucet]).
    - Representations: token amounts, the faucet's wire shapes, IPv6 buckets and ticket
      digits round-trip or match their reference definition ([Token], [FaucetPolicy], [Net],
      [Catalog]); documents survive the payment headers ([Json], [Codec]); no long hex literal
      reaches a log ([Errors]).
    - Code that differs from what it means to do: [Admissions.ready_misses_upper_case],
      [Oracle.second_redeemer_denied], [Bootstrap.loopback_prefix],
      [Redact.redaction_throws], [PaymentClient.null_manager_throws],
      [Runner.version_refusal_stops_tick], [Revocation.unreachable_reads_as_invalid],
      [Submissions.restart_forgets_deposit], [Boot.faucet_shares_relayer_key],
      [Deployer.lost_reply_is_free], [Purchases.unbound_ticket_jams],
      [OutingSafety.late_worker_forgets_admission].

    ** Fuel and bounds

    [Oracle.lineage] runs with one more unit than there are delegations; ranks of the
    registration order show that is enough, and the cycle test never fires
    ([lineage_runs]).  [Catalog.drain] runs at most once per pending five bits
    ([drain_spec]).  [Faucet.gap] walks the nonces below the top, one unit each.
    [Net.hex_text] has 64 units,
    one per hexadecimal digit, for groups that are below 2^16.  [Seller.loopback] unwraps a
    mapped address at most once per character ([loopback_fuel]).  The parser of [Json] takes its
    fuel from the length of the text, and more changes nothing ([fuel_enough]).
    [Ranking.streak_loop] takes one unit per day of the streak's window ([streak_is_bounded]);
    [Season.search] reads one block per binary digit of the height
    ([close_block_is_the_first]).  [Boards.streak_fuel], [Boards.week_fuel] and
    [Honors.seal_fuel] count the days or weeks between the ends of their loops, which is enough
    ([BoardFacts.streak_runs], [BoardFacts.champions_run], [Honors.memo_is_a_cache]).

    ** Not modelled

    Process and HTTP wiring (Hono, timers, CORS, health pages, logging), RPC transports,
    the kit's encoders, deployment-record parsing and byte-code verification, the web
    application, the documentation site, operator scripts, Solidity contracts (but for the
    honor word) and generated data.  Of the arcade: the games themselves (the race and the
    stamp run on floating-point numbers, the shop on authored texts), the portraits and
    share cards, and the routes of the demo shop. *)

From Stdlib Require Import ZArith Lia Ascii String DecimalString DecimalZ DecimalN.
From stdpp Require Import base gmap strings list fin_maps sorting.
Open Scope Z_scope.

(** ** Thrown errors and results

    A JavaScript [throw] carries an object of some class with a message.
    [instanceof] tests read the class name, handlers may read the message. *)
Record js_error := JsError { err_name : string; err_message : string }.

#[export] Instance js_error_eq_dec : EqDecision js_error.
Proof. solve_decision. Defined.

Definition Error (m : string) : js_error := JsError "Error" m.
Definition TypeError (m : string) : js_error := JsError "TypeError" m.
Definition RangeError (m : string) : js_error := JsError "RangeError" m.
(** A SQLite constraint that refused a row, by the constraint's name. *)
Definition SQLiteError (m : string) : js_error := JsError "SQLiteError" m.

Inductive result (A : Type) :=
  | Ok (a : A)
  | Throw (e : js_error).
Arguments Ok {A} a.
Arguments Throw {A} e.

#[export] Instance result_eq_dec {A} `{EqDecision A} : EqDecision (result A).
Proof. solve_decision. Defined.

Definition rbind {A B} (r : result A) (k : A → result B) : result B :=
  match r with Ok a => k a | Throw e => Throw e end.
Definition throw_when (c : bool) (e : js_error) : result unit :=
  if c then Throw e else Ok tt.
Definition is_ok {A} (r : result A) : bool :=
  match r with Ok _ => true | Throw _ => false end.

(** ** Transactions

    A statement of a transaction reads and replaces the state, or throws; the
    throw leaves no state behind, which is the rollback [db.transaction] does. *)
Definition tx (S A : Type) : Type := S → result (A * S).

Definition tret {S A} (a : A) : tx S A := λ s, Ok (a, s).
Definition tbind {S A B} (m : tx S A) (k : A → tx S B) : tx S B :=
  λ s, match m s with Ok (a, s') => k a s' | Throw e => Throw e end.
Definition tlift {S A} (r : result A) : tx S A :=
  λ s, match r with Ok a => Ok (a, s) | Throw e => Throw e end.
Definition tget {S} : tx S S := λ s, Ok (s, s).
Definition tput {S} (s : S) : tx S unit := λ _, Ok (tt, s).
Definition tgets {S A} (f : S → A) : tx S A := λ s, Ok (f s, s).
Definition tmodify {S} (f : S → S) : tx S unit := λ s, Ok (tt, f s).
Definition tthrow {S A} (e : js_error) : tx S A := λ _, Throw e.

Arguments tret : simpl never.
Arguments tbind : simpl never.
Arguments tlift : simpl never.
Arguments tget : simpl never.
Arguments tput : simpl never.
Arguments tgets : simpl never.
Arguments tmodify : simpl never.
Arguments tthrow : simpl never.

Declare Scope mapae_scope.
Delimit Scope mapae_scope with mapae.
Notation "'let!' x ':=' m 'in' k" := (tbind m (λ x, k))
  (at level 10, x pattern, m at level 100, k at level 200,
   format "'[v' 'let!'  x  ':='  m  'in' '/' k ']'") : mapae_scope.
Notation "'let?' x ':=' m 'in' k" := (rbind m (λ x, k))
  (at level 10, x pattern, m at level 100, k at level 200,
   format "'[v' 'let?'  x  ':='  m  'in' '/' k ']'") : mapae_scope.
Notation "'throws' c 'with' e ';' k" := (rbind (throw_when c e) (λ _, k))
  (at level 10, c at level 100, e at level 100, k at level 200,
   format "'[v' 'throws'  c  'with'  e ';' '/' k ']'") : mapae_scope.
Notation "'throws!' c 'with' e ';' k" := (tbind (tlift (throw_when c e)) (λ _, k))
  (at level 10, c at level 100, e at level 100, k at level 200,
   format "'[v' 'throws!'  c  'with'  e ';' '/' k ']'") : mapae_scope.
Open Scope mapae_scope.

Lemma NoDup_snoc {A} (l : list A) a : NoDup l → a ∉ l → NoDup (l ++ [a]).
Proof.
  intros Hl Ha. apply NoDup_app. split; [done|]. split; [|apply NoDup_singleton].
  by intros x Hx ->%list_elem_of_singleton.
Qed.

Lemma taken_elem {A} n (l : list A) x : x ∈ take n l → x ∈ l.
Proof. intros Hx. rewrite <- (take_drop n l). apply elem_of_app. by left. Qed.
Lemma fmap_once {A B} (f : A → B) (l : list A) x y : NoDup (f <$> l) → x ∈ l → y ∈ l → f x = f y → x = y.
Proof.
  intros Hn [i Hx]%list_elem_of_lookup [j Hy]%list_elem_of_lookup E. assert (i = j) as ->; [|congruence].
  eapply (NoDup_lookup (f <$> l)); [done|by rewrite list_lookup_fmap, Hx|]. rewrite list_lookup_fmap, Hy. cbn. by rewrite E.
Qed.
Lemma existsb_none {A} (f : A → bool) l x : existsb f l = false → x ∈ l → f x = false.
Proof. intros He Hx. apply list_elem_of_In in Hx. destruct (f x) eqn:E; [|done]. rewrite <- He. symmetry. apply existsb_exists. eauto. Qed.

Lemma rbind_ok {A B} (r : result A) (k : A → result B) b :
  rbind r k = Ok b ↔ ∃ a, r = Ok a ∧ k a = Ok b.
Proof. destruct r; simpl; naive_solver. Qed.

Lemma throw_when_ok c e u : throw_when c e = Ok u ↔ c = false.
Proof. destruct c, u; simpl; naive_solver. Qed.

(** A guard followed by the rest. *)
Lemma throws_ok {A} c e (r : result A) a :
  rbind (throw_when c e) (λ _, r) = Ok a ↔ c = false ∧ r = Ok a.
Proof. destruct c; simpl; naive_solver. Qed.

(** [map] with a callback that may throw. *)
Fixpoint map_result {A B} (f : A → result B) (l : list A) : result (list B) :=
  match l with
  | [] => Ok []
  | x :: l' => let? y := f x in let? ys := map_result f l' in Ok (y :: ys)
  end.

Lemma map_result_ok {A B} (f : A → result B) l bs :
  map_result f l = Ok bs ↔ Forall2 (λ a b, f a = Ok b) l bs.
Proof.
  revert bs. induction l as [|a l IH]; intros bs; cbn [map_result].
  - split; [intros [= <-]; constructor|]. by inversion 1.
  - rewrite rbind_ok. setoid_rewrite rbind_ok. split.
    + intros (b & Hb & bs' & Hbs & [= <-]). constructor; [done|by apply IH].
    + intros Hf. apply Forall2_cons_inv_l in Hf as (b & bs' & Hb & Hbs & ->).
      exists b. split; [done|]. exists bs'. split; [by apply IH|done].
Qed.

Lemma tbind_ok {S A B} (m : tx S A) (k : A → tx S B) s b s'' :
  tbind m k s = Ok (b, s'') ↔ ∃ a s', m s = Ok (a, s') ∧ k a s' = Ok (b, s'').
Proof.
  unfold tbind. destruct (m s) as [[a s']|e]; split; try naive_solver.
Qed.

(** A run known to return, by evaluation. *)
Lemma returns_value {S A} (r : result (A * S)) : is_ok r = true → ∃ a s, r = Ok (a, s).
Proof. destruct r as [[a s]|]; [eauto|done]. Qed.

(** Forward execution: a statement that returns hands its value on. *)
Lemma tbind_run {S A B} (m : tx S A) (k : A → tx S B) s a s' :
  m s = Ok (a, s') → tbind m k s = k a s'.
Proof. unfold tbind. by intros ->. Qed.

Lemma tlift_run {S A B} (r : result A) (k : A → tx S B) s a :
  r = Ok a → tbind (tlift r) k s = k a s.
Proof. by intros ->. Qed.

Lemma tlift_ok {S A} (r : result A) (s : S) a s' :
  tlift r s = Ok (a, s') ↔ r = Ok a ∧ s' = s.
Proof. unfold tlift. destruct r; naive_solver. Qed.

Lemma tret_ok {S A} (a b : A) (s s' : S) : tret a s = Ok (b, s') ↔ b = a ∧ s' = s.
Proof. unfold tret. naive_solver. Qed.

Lemma tgets_ok {S A} (f : S → A) (s : S) a s' :
  tgets f s = Ok (a, s') ↔ a = f s ∧ s' = s.
Proof. unfold tgets. naive_solver. Qed.

Lemma tmodify_ok {S} (f : S → S) (s : S) u s' :
  tmodify f s = Ok (u, s') ↔ s' = f s.
Proof. unfold tmodify. destruct u. naive_solver. Qed.

Lemma tget_ok {S} (s a s' : S) : tget s = Ok (a, s') ↔ a = s ∧ s' = s.
Proof. unfold tget. naive_solver. Qed.

(** Decompose every successful run among the hypotheses into its statements. *)
Ltac inv_tx1 :=
  match goal with
  | H : tbind _ _ _ = Ok _ |- _ =>
      apply tbind_ok in H; destruct H as (? & ? & ? & H)
  | H : rbind _ _ = Ok _ |- _ =>
      apply rbind_ok in H; destruct H as (? & ? & H)
  | H : tlift _ _ = Ok _ |- _ => apply tlift_ok in H; destruct H as [? ?]
  | H : throw_when _ _ = Ok _ |- _ => apply throw_when_ok in H
  | H : tret _ _ = Ok _ |- _ => apply tret_ok in H; destruct H as [? ?]
  | H : tgets _ _ = Ok _ |- _ => apply tgets_ok in H; destruct H as [? ?]
  | H : tmodify _ _ = Ok _ |- _ => apply tmodify_ok in H
  | H : tget _ = Ok _ |- _ => apply tget_ok in H; destruct H as [? ?]
  | H : tthrow _ _ = Ok _ |- _ => discriminate H
  | H : Throw _ = Ok _ |- _ => discriminate H
  | H : Ok _ = Ok _ |- _ => injection H as H
  | H : (_, _) = (_, _) |- _ => injection H as ? ?
  | x : unit |- _ => destruct x
  end.
Ltac inv_tx := repeat (inv_tx1; simplify_eq).

(** ** Methods

    A method of a mutable object: unlike a transaction, a throw keeps the writes
    made before it. *)
Definition meth (S A : Type) : Type := S → result A * S.

Definition meth_ret {S A} (a : A) : meth S A := λ s, (Ok a, s).
Definition meth_bind {S A B} (m : meth S A) (k : A → meth S B) : meth S B :=
  λ s, match m s with (Ok a, s') => k a s' | (Throw e, s') => (Throw e, s') end.
Definition meth_lift {S A} (r : result A) : meth S A := λ s, (r, s).
Definition meth_gets {S A} (f : S → A) : meth S A := λ s, (Ok (f s), s).
Definition meth_modify {S} (f : S → S) : meth S unit := λ s, (Ok tt, f s).
Definition meth_throw {S A} (e : js_error) : meth S A := λ s, (Throw e, s).

Notation "'do!' x ':=' m 'in' k" := (meth_bind m (λ x, k))
  (at level 10, x pattern, m at level 100, k at level 200,
   format "'[v' 'do!'  x  ':='  m  'in' '/' k ']'") : mapae_scope.

Lemma meth_bind_ok {S A B} (m : meth S A) (k : A → meth S B) s b s'' :
  meth_bind m k s = (Ok b, s'') ↔ ∃ a s', m s = (Ok a, s') ∧ k a s' = (Ok b, s'').
Proof. unfold meth_bind. destruct (m s) as [[a|e] s']; naive_solver. Qed.

Lemma meth_bind_run {S A B} (m : meth S A) (k : A → meth S B) s a s' :
  m s = (Ok a, s') → meth_bind m k s = k a s'.
Proof. unfold meth_bind. by intros ->. Qed.

(** Turn boolean guards into propositions. *)
Ltac bools :=
  repeat match goal with
  | H : (_ || _) = false |- _ => apply orb_false_iff in H; destruct H
  | H : (_ && _) = true |- _ => apply andb_true_iff in H; destruct H
  | H : negb _ = false |- _ => apply negb_false_iff in H
  | H : negb _ = true |- _ => apply negb_true_iff in H
  | H : (_ <? _) = true |- _ => apply Z.ltb_lt in H
  | H : (_ <? _) = false |- _ => apply Z.ltb_ge in H
  | H : (_ <=? _) = true |- _ => apply Z.leb_le in H
  | H : (_ <=? _) = false |- _ => apply Z.leb_gt in H
  | H : (_ >? _) = true |- _ => rewrite Z.gtb_ltb in H
  | H : (_ >? _) = false |- _ => rewrite Z.gtb_ltb in H
  | H : (_ >=? _) = true |- _ => rewrite Z.geb_leb in H
  | H : (_ >=? _) = false |- _ => rewrite Z.geb_leb in H
  | H : (_ =? _) = true |- _ => apply Z.eqb_eq in H
  | H : (_ =? _) = false |- _ => apply Z.eqb_neq in H
  | H : bool_decide _ = true |- _ => apply bool_decide_eq_true in H
  | H : bool_decide _ = false |- _ => apply bool_decide_eq_false in H
  | H : String.eqb _ _ = true |- _ => apply String.eqb_eq in H
  | H : String.eqb _ _ = false |- _ => apply String.eqb_neq in H
  end.

(** ** Numbers

    A JavaScript Number that is an integer is a [Z]; a bigint is a [Z]. *)
Definition MAX_SAFE_INTEGER : Z := 9007199254740991.
Definition isSafeInteger (n : Z) : bool := (Z.abs n <=? MAX_SAFE_INTEGER).

(** ** Values of TypeScript type [unknown]

    [JNum z] is a Number that is an integer; [JFloat bits] any other Number (a
    fraction, NaN or an infinity), which the code only ever refuses;
    [JUndefined] also stands for a property that is absent. *)
Inductive jsval :=
  | JUndefined
  | JNull
  | JBool (b : bool)
  | JNum (z : Z)
  | JFloat (bits : Z)
  | JBig (z : Z)
  | JStr (s : string)
  | JArr (l : list jsval)
  | JObj (fields : list (string * jsval)).

(** Property read: the last write of a key wins, an absent key is [undefined]. *)
Fixpoint assoc_last (k : string) (l : list (string * jsval)) : option jsval :=
  match l with
  | [] => None
  | (k', v) :: l' =>
      match assoc_last k l' with
      | Some w => Some w
      | None => if String.eqb k k' then Some v else None
      end
  end.
Definition prop (v : jsval) (k : string) : jsval :=
  match v with JObj l => default JUndefined (assoc_last k l) | _ => JUndefined end.
(** [typeof v === "object" && v !== null] (an array is an object too). *)
Definition is_object (v : jsval) : bool :=
  match v with JObj _ | JArr _ => true | _ => false end.
(** [===] against a string literal. *)
Definition is_str (v : jsval) (s : string) : bool :=
  match v with JStr t => String.eqb t s | _ => false end.
Definition is_true (v : jsval) : bool :=
  match v with JBool true => true | _ => false end.

(** ** Text

    Source text that the code inspects is ASCII; a regular expression anchored
    at both ends over one character class is a length test and a [forallb]. *)
Definition chars (s : string) : list ascii := list_ascii_of_string s.
Definition code (c : ascii) : Z := Z.of_N (N_of_ascii c).
Definition in_range (lo hi : ascii) (c : ascii) : bool :=
  (code lo <=? code c) && (code c <=? code hi).
Definition is_digit (c : ascii) : bool := in_range "0" "9" c.
Definition is_lower (c : ascii) : bool := in_range "a" "z" c.
Definition is_upper (c : ascii) : bool := in_range "A" "Z" c.
Definition is_lower_hex (c : ascii) : bool := is_digit c || in_range "a" "f" c.
Definition is_hex (c : ascii) : bool := is_lower_hex c || in_range "A" "F" c.
Definition slen (s : string) : Z := Z.of_nat (String.length s).
(** [/^[cls]{lo,hi}$/] *)
Definition re_class (cls : ascii → bool) (lo hi : Z) (s : string) : bool :=
  (lo <=? slen s) && (slen s <=? hi) && forallb cls (chars s).
Definition strip_0x (s : string) : option string :=
  match s with
  | String a (String b t) =>
      if Ascii.eqb a "0" && Ascii.eqb b "x" then Some t else None
  | _ => None
  end.
(** [/^0x[cls]{n}$/] *)
Definition re_0x (cls : ascii → bool) (n : Z) (s : string) : bool :=
  match strip_0x s with Some t => re_class cls n n t | None => false end.

Definition lower_char (c : ascii) : ascii :=
  if is_upper c then ascii_of_N (N_of_ascii c + 32) else c.
Definition toLowerCase (s : string) : string :=
  string_of_list_ascii (map lower_char (chars s)).

Lemma lower_char_idem c : lower_char (lower_char c) = lower_char c.
Proof. by destruct c as [[] [] [] [] [] [] [] []]. Qed.

Lemma is_hex_lower c : is_hex c = true → is_hex (lower_char c) = true.
Proof. by destruct c as [[] [] [] [] [] [] [] []]. Qed.

Lemma chars_lower s : chars (toLowerCase s) = map lower_char (chars s).
Proof. apply list_ascii_of_string_of_list_ascii. Qed.

Lemma toLowerCase_idem s : toLowerCase (toLowerCase s) = toLowerCase s.
Proof.
  unfold toLowerCase at 1. rewrite chars_lower, map_map. unfold toLowerCase.
  f_equal. apply map_ext, lower_char_idem.
Qed.

Lemma slen_chars s : slen s = Z.of_nat (length (chars s)).
Proof.
  unfold slen, chars. f_equal. induction s as [|c s IH]; simpl; [done|]. by rewrite IH.
Qed.

Lemma re_class_hex_lower lo hi s :
  re_class is_hex lo hi s = true → re_class is_hex lo hi (toLowerCase s) = true.
Proof.
  unfold re_class. rewrite !slen_chars, chars_lower, length_map.
  rewrite !andb_true_iff, !forallb_forall. intros [? Hall]. split; [done|].
  intros c (d & <- & Hd)%in_map_iff. by apply is_hex_lower, Hall.
Qed.

Lemma toLowerCase_cons c s :
  toLowerCase (String c s) = String (lower_char c) (toLowerCase s).
Proof. done. Qed.

Lemma strip_0x_Some s t : strip_0x s = Some t ↔ s = String "0" (String "x" t).
Proof.
  split; [|by intros ->].
  destruct s as [|c1 [|c2 u]]; simpl; try done.
  destruct (Ascii.eqb_spec c1 "0"), (Ascii.eqb_spec c2 "x"); simpl; try done. by intros [= ->]; subst.
Qed.

Lemma re_0x_hex_lower n s : re_0x is_hex n s = true → re_0x is_hex n (toLowerCase s) = true.
Proof.
  unfold re_0x. destruct (strip_0x s) as [t|] eqn:Hs; [|done].
  apply strip_0x_Some in Hs as ->. rewrite !toLowerCase_cons. simpl.
  apply re_class_hex_lower.
Qed.

(** The byte order of text, as SQLite's BINARY collation and JavaScript's [<]. *)
Lemma compare_cons c1 s1 c2 s2 :
  String.compare (String c1 s1) (String c2 s2)
  = match N.compare (N_of_ascii c1) (N_of_ascii c2) with
    | Eq => String.compare s1 s2 | o => o end.
Proof. done. Qed.

Lemma leb_trans s1 s2 s3 :
  String.leb s1 s2 = true → String.leb s2 s3 = true → String.leb s1 s3 = true.
Proof.
  unfold String.leb. revert s2 s3. induction s1 as [|c1 s1 IH]; intros [|c2 s2] [|c3 s3]; try done.
  rewrite !compare_cons.
  destruct (N.compare_spec (N_of_ascii c1) (N_of_ascii c2)),
    (N.compare_spec (N_of_ascii c2) (N_of_ascii c3)),
    (N.compare_spec (N_of_ascii c1) (N_of_ascii c3)); try done; try lia. apply IH.
Qed.

(** White space that [trim] removes, among ASCII. *)
Definition is_space (c : ascii) : bool :=
  (code c =? 32) || ((9 <=? code c) && (code c <=? 13)).
Fixpoint drop_space (l : list ascii) : list ascii :=
  match l with
  | [] => []
  | c :: l' => if is_space c then drop_space l' else l
  end.
Definition trim (s : string) : string :=
  string_of_list_ascii (rev (drop_space (rev (drop_space (chars s))))).

(** [split(",")] *)
Fixpoint split_comma (l : list ascii) : list (list ascii) :=
  match l with
  | [] => [[]]
  | c :: l' =>
      if Ascii.eqb c "," then [] :: split_comma l'
      else match split_comma l' with
           | w :: ws => (c :: w) :: ws
           | [] => [[c]]
           end
  end.

(** [String(n)] for a bigint or an integer, and [BigInt(text)] on decimal text. *)
Definition show_Z (z : Z) : string := NilZero.string_of_int (Z.to_int z).
Definition read_Z (s : string) : option Z := Z.of_int <$> NilZero.int_of_string s.

Lemma to_uint_not_nil p : Pos.to_uint p ≠ Decimal.Nil.
Proof. apply DecimalPos.Unsigned.to_uint_nonnil. Qed.

Lemma read_show_Z z : read_Z (show_Z z) = Some z.
Proof.
  unfold read_Z, show_Z. rewrite NilZero.isi.
  - simpl. by rewrite DecimalZ.of_to.
  - destruct z; simpl; [done| |done]. intros [= H]. by apply to_uint_not_nil in H.
  - destruct z; simpl; [done|done|]. intros [= H]. by apply to_uint_not_nil in H.
Qed.

Lemma show_Z_inj z1 z2 : show_Z z1 = show_Z z2 → z1 = z2.
Proof.
  intros H. apply (f_equal read_Z) in H. rewrite !read_show_Z in H. by injection H.
Qed.

Definition hex_value (c : ascii) : Z :=
  if is_digit c then code c - 48 else code (lower_char c) - 87.
Definition hex_number (l : list ascii) : Z := foldl (λ acc c, acc * 16 + hex_value c) 0 l.

Lemma hex_value_nonneg c : is_hex c = true → 0 <= hex_value c.
Proof. destruct c as [[][][][][][][][]]; vm_compute; congruence. Qed.

Lemma hex_number_nonneg l acc :
  forallb is_hex l = true → 0 <= acc → 0 <= foldl (λ a c, a * 16 + hex_value c) acc l.
Proof.
  revert acc. induction l as [|c l IH]; intros acc Hl Hacc; [done|]. cbn [forallb foldl] in *.
  apply andb_true_iff in Hl as [Hc Hl]. apply IH; [done|]. pose proof (hex_value_nonneg c Hc). lia.
Qed.

(** [BigInt(text)] on text already known to be [0x] hex or decimal digits. *)
Definition BigInt (s : string) : Z :=
  match strip_0x s with
  | Some t => hex_number (chars t)
  | None => default 0 (read_Z s)
  end.

(** ** Reachability *)
Inductive star {S : Type} (step : S → S → Prop) : S → S → Prop :=
  | star_refl s : star step s s
  | star_step s1 s2 s3 : star step s1 s2 → step s2 s3 → star step s1 s3.

Lemma star_invariant {S} (step : S → S → Prop) (I : S → Prop) s s' :
  (∀ a b, I a → step a b → I b) → I s → star step s s' → I s'.
Proof. intros Hp Hs. induction 1; eauto. Qed.

Lemma star_trans {S} (step : S → S → Prop) a b c :
  star step a b → star step b c → star step a c.
Proof. intros Hab Hbc. induction Hbc; eauto using star. Qed.

(** ** Sums *)
Definition Zsum (l : list Z) : Z := fold_right Z.add 0 l.

Arguments Zsum : simpl never.

Lemma Zsum_cons x l : Zsum (x :: l) = x + Zsum l.
Proof. done. Qed.

Lemma Zsum_app l1 l2 : Zsum (l1 ++ l2) = Zsum l1 + Zsum l2.
Proof. induction l1; simpl; rewrite ?Zsum_cons; [done|lia]. Qed.

Lemma Zsum_nonneg l : Forall (λ x, 0 <= x) l → 0 <= Zsum l.
Proof. induction 1; rewrite ?Zsum_cons; [done|lia]. Qed.

Lemma Zsum_zero l : Forall (λ x, x = 0) l → Zsum l = 0.
Proof. induction 1; rewrite ?Zsum_cons; [done|lia]. Qed.

Lemma Zsum_fmap_insert {A} (f : A → Z) (l : list A) i a b :
  l !! i = Some a → Zsum (f <$> <[i:=b]> l) = Zsum (f <$> l) - f a + f b.
Proof.
  revert i. induction l as [|x l IH]; intros [|i] Hi; cbn [lookup list_lookup] in Hi; [done..| |].
  - injection Hi as ->. change (f b + Zsum (f <$> l) = f a + Zsum (f <$> l) - f a + f b). lia.
  - apply IH in Hi.
    change (f x + Zsum (f <$> <[i:=b]> l) = f x + Zsum (f <$> l) - f a + f b). lia.
Qed.

(** Sum of [f] over a table. *)
Definition map_sum {K A} `{Countable K} (f : A → Z) (m : gmap K A) : Z :=
  map_fold (λ _ a acc, f a + acc) 0 m.

Section map_sum.
Context {K A : Type} `{Countable K}.
Implicit Types (m : gmap K A) (f : A → Z).

Lemma map_sum_empty f : map_sum f (∅ : gmap K A) = 0.
Proof. apply map_fold_empty. Qed.

Lemma map_sum_insert f m k a :
  m !! k = None → map_sum f (<[k:=a]> m) = f a + map_sum f m.
Proof.
  intros Hk. unfold map_sum. rewrite map_fold_insert_L; [done| |done]. intros; lia.
Qed.

Lemma map_sum_split f m k a :
  m !! k = Some a → map_sum f m = f a + map_sum f (delete k m).
Proof.
  intros Hk. rewrite <- (insert_delete_id m k a Hk) at 1.
  apply map_sum_insert, lookup_delete_eq.
Qed.

Lemma map_sum_update f m k a b :
  m !! k = Some a → map_sum f (<[k:=b]> m) = map_sum f m - f a + f b.
Proof.
  intros Hk. rewrite (map_sum_split f m k a Hk).
  rewrite <- (insert_delete_eq m k b), map_sum_insert by apply lookup_delete_eq.
  lia.
Qed.

Lemma map_sum_nonneg f m :
  (∀ k a, m !! k = Some a → 0 <= f a) → 0 <= map_sum f m.
Proof.
  induction m as [|k a m Hk IH] using map_ind; intros Hf.
  - by rewrite map_sum_empty.
  - rewrite map_sum_insert by done.
    assert (0 <= f a) by (apply (Hf k), lookup_insert_eq).
    assert (0 <= map_sum f m); [|lia].
    apply IH. intros k' a' Hk'. apply (Hf k').
    rewrite lookup_insert_ne; [done|]. congruence.
Qed.
End map_sum.

(** ** [List.filter] with stdpp membership *)
Lemma elem_of_lfilter {A} (p : A → bool) (l : list A) x :
  x ∈ List.filter p l ↔ x ∈ l ∧ p x = true.
Proof. rewrite !list_elem_of_In. apply filter_In. Qed.

Lemma lfilter_lfilter {A} (p q : A → bool) (l : list A) :
  List.filter p (List.filter q l) = List.filter (λ x, q x && p x) l.
Proof.
  induction l as [|a l IH]; simpl; [done|].
  destruct (q a); simpl; [|done]. destruct (p a); by rewrite IH.
Qed.

Lemma lfilter_ext {A} (p q : A → bool) (l : list A) :
  (∀ x, x ∈ l → p x = q x) → List.filter p l = List.filter q l.
Proof.
  induction l as [|a l IH]; intros H; simpl; [done|].
  rewrite (H a) by set_solver. rewrite IH by set_solver. done.
Qed.

Lemma lfilter_length {A} (p : A → bool) (l : list A) :
  (length (List.filter p l) <= length l)%nat.
Proof. induction l as [|a l IH]; simpl; [lia|]. destruct (p a); simpl; lia. Qed.

Lemma NoDup_lfilter {A} (p : A → bool) (l : list A) : NoDup l → NoDup (List.filter p l).
Proof.
  induction 1 as [|a l Ha Hl IH]; simpl; [constructor|].
  destruct (p a); [|done]. constructor; [|done]. by rewrite elem_of_lfilter; intros [? _].
Qed.

Lemma NoDup_fmap_lfilter {A B} (f : A → B) (p : A → bool) (l : list A) :
  NoDup (f <$> l) → NoDup (f <$> List.filter p l).
Proof.
  induction l as [|a l IH]; simpl; [done|]. intros [Ha Hnd]%NoDup_cons.
  destruct (p a); [|by apply IH]. constructor; [|by apply IH].
  intros (b & Hb & Hin)%list_elem_of_fmap. apply Ha, list_elem_of_fmap.
  exists b. apply elem_of_lfilter in Hin. naive_solver.
Qed.

(** ** The newest [k] of a list under an order *)
Section newest.
Context {A : Type} (R : relation A) `{!∀ x y, Decision (R x y)}
  `{!Total R} `{!Transitive R}.

Definition newest_k (k : nat) (l : list A) : list A := take k (merge_sort R l).

Lemma newest_k_length k l : length (newest_k k l) = min k (length l).
Proof. unfold newest_k. by rewrite length_take, merge_sort_Permutation. Qed.

Lemma newest_k_elem k l x : x ∈ newest_k k l → x ∈ l.
Proof.
  intros Hx%elem_of_take. destruct Hx as (i & Hi & _).
  apply list_elem_of_lookup_2 in Hi. by rewrite merge_sort_Permutation in Hi.
Qed.

Lemma newest_k_dominates k l x y :
  x ∈ newest_k k l → y ∈ l → y ∉ newest_k k l → R x y.
Proof.
  unfold newest_k. intros Hx Hy Hn.
  pose proof (StronglySorted_merge_sort R l) as Hs.
  rewrite <- (merge_sort_Permutation R l), <- (take_drop k (merge_sort R l)) in Hy.
  rewrite <- (take_drop k (merge_sort R l)) in Hs.
  apply elem_of_app in Hy as [Hy|Hy]; [done|].
  by eapply StronglySorted_app_1_elem_of in Hs.
Qed.

Lemma newest_k_short k l : (length l <= k)%nat → newest_k k l ≡ₚ l.
Proof.
  intros Hl. unfold newest_k. rewrite take_ge; [apply merge_sort_Permutation|].
  by rewrite merge_sort_Permutation.
Qed.
End newest.

Lemma size_list_to_set_le {A} `{Countable A} (l : list A) :
  (size (list_to_set l : gset A) <= length l)%nat.
Proof.
  induction l as [|a l IH]; [by rewrite list_to_set_nil, size_empty|].
  rewrite list_to_set_cons, length_cons, size_union_alt, size_singleton.
  assert (size (list_to_set l ∖ {[a]} : gset A) <= size (list_to_set l : gset A))%nat
    by (apply subseteq_size; set_solver).
  lia.
Qed.
