(* ===== verification/Dates.v ===== *)
(** * UTC calendar days

    The budgets of the store and of the sponsors are keyed by
    [new Date(ms).toISOString().slice(0, 10)].  [Date] is the language's: this
    file writes out the proleptic Gregorian calendar that ECMAScript specifies
    and proves that the day text identifies the day. *)

From Stdlib Require Import ZArith Lia Ascii String.
From stdpp Require Import base strings list.
From S2P Require Import Prelude.
Open Scope Z_scope.

Definition MS_PER_DAY : Z := 86400000.
(** The largest time value a [Date] holds. *)
Definition MAX_TIME : Z := 8640000000000000.

(** Day number since 1970-01-01 to (year, month, day): the 400-year cycle
    starting on 1 March of year 0. *)
Definition civil_from_days (z : Z) : Z * Z * Z :=
  let z := z + 719468 in
  let era := z / 146097 in
  let doe := z mod 146097 in
  let yoe := (doe - doe / 1460 + doe / 36524 - doe / 146096) / 365 in
  let doy := doe - (365 * yoe + yoe / 4 - yoe / 100) in
  let mp := (5 * doy + 2) / 153 in
  let d := doy - (153 * mp + 2) / 5 + 1 in
  let m := if mp <? 10 then mp + 3 else mp - 9 in
  (yoe + era * 400 + (if m <=? 2 then 1 else 0), m, d).

Definition days_from_civil (ymd : Z * Z * Z) : Z :=
  let '(y, m, d) := ymd in
  let y := y - (if m <=? 2 then 1 else 0) in
  let era := y / 400 in
  let yoe := y mod 400 in
  let doy := (153 * (if 2 <? m then m - 3 else m + 9) + 2) / 5 + d - 1 in
  let doe := yoe * 365 + yoe / 4 - yoe / 100 + doy in
  era * 146097 + doe - 719468.

(** Decimal digits of [z], zero-padded on the left to [w] characters. *)
Fixpoint digits (w : nat) (z : Z) : list Ascii.ascii :=
  match w with
  | O => []
  | S w' => digits w' (z / 10) ++ [Ascii.ascii_of_N (Z.to_N (48 + z mod 10))]
  end.

(** [toISOString] up to the [T]. *)
Definition iso_date (ymd : Z * Z * Z) : list Ascii.ascii :=
  let '(y, m, d) := ymd in
  let year := if (0 <=? y) && (y <=? 9999) then digits 4 y
              else (if y <? 0 then "-"%char else "+"%char) :: digits 6 (Z.abs y) in
  year ++ "-"%char :: digits 2 m ++ "-"%char :: digits 2 d.

(** [new Date(ms).toISOString().slice(0, 10)]; a time out of range throws. *)
Definition isoDay (ms : Z) : result string :=
  if Z.abs ms <=? MAX_TIME
  then Ok (String.string_of_list_ascii
             (take 10 (iso_date (civil_from_days (ms / MS_PER_DAY)))))
  else Throw (RangeError "Invalid Date").

Example isoDay_epoch : isoDay 0 = Ok "1970-01-01"%string.
Proof. reflexivity. Qed.
Example isoDay_leap : isoDay 1709164800000 = Ok "2024-02-29"%string.
Proof. vm_compute. reflexivity. Qed.
Example isoDay_far : isoDay MAX_TIME = Ok "+275760-09"%string.
Proof. vm_compute. reflexivity. Qed.

(** ** The calendar is a bijection *)

(** Within a 400-year cycle the year of era is the one whose days hold [doe]. *)
Lemma yoe_bounds doe :
  0 <= doe < 146097 →
  let yoe := (doe - doe / 1460 + doe / 36524 - doe / 146096) / 365 in
  0 <= yoe < 400 ∧ 0 <= doe - (365 * yoe + yoe / 4 - yoe / 100) <= 365.
Proof.
  intros Hd yoe. subst yoe.
  Z.to_euclidean_division_equations. lia.
Qed.

Lemma month_day_inverse doy :
  0 <= doy <= 365 →
  let mp := (5 * doy + 2) / 153 in
  let d := doy - (153 * mp + 2) / 5 + 1 in
  0 <= mp <= 11 ∧ 1 <= d <= 31.
Proof. intros H mp d. subst mp d. Z.to_euclidean_division_equations. lia. Qed.

Lemma days_from_civil_from_days z : days_from_civil (civil_from_days z) = z.
Proof.
  unfold civil_from_days, days_from_civil.
  set (era := (z + 719468) / 146097). set (doe := (z + 719468) mod 146097).
  assert (Hz : z + 719468 = 146097 * era + doe) by (apply Z.div_mod; lia).
  assert (Hdoe : 0 <= doe < 146097) by (apply Z.mod_pos_bound; lia).
  destruct (yoe_bounds doe Hdoe) as [Hy Hdoy].
  set (yoe := (doe - doe / 1460 + doe / 36524 - doe / 146096) / 365) in *.
  set (doy := doe - (365 * yoe + yoe / 4 - yoe / 100)) in *.
  destruct (month_day_inverse doy Hdoy) as [Hmp Hd].
  set (mp := (5 * doy + 2) / 153) in *.
  assert (Hm : ∀ b : Z, yoe + era * 400 + b - b = yoe + era * 400) by lia.
  destruct (mp <? 10) eqn:E; bools.
  - destruct (mp + 3 <=? 2) eqn:E2; bools; [lia|].
    destruct (2 <? mp + 3) eqn:E3; bools; [|lia].
    rewrite Hm, Z.div_add, Z.mod_add, Z.mod_small, Z.div_small by lia.
    replace (mp + 3 - 3) with mp by lia. lia.
  - destruct (mp - 9 <=? 2) eqn:E2; bools; [|lia].
    destruct (2 <? mp - 9) eqn:E3; bools; [lia|].
    rewrite Hm, Z.div_add, Z.mod_add, Z.mod_small, Z.div_small by lia.
    replace (mp - 9 + 9) with mp by lia. lia.
Qed.

(** ** The text of a day determines the day *)

Lemma digits_length w z : length (digits w z) = w.
Proof.
  revert z. induction w as [|w IH]; intros z; simpl; [done|].
  rewrite length_app, IH. simpl. lia.
Qed.

Lemma digits_inj w z1 z2 :
  0 <= z1 < 10 ^ Z.of_nat w → 0 <= z2 < 10 ^ Z.of_nat w →
  digits w z1 = digits w z2 → z1 = z2.
Proof.
  revert z1 z2. induction w as [|w IH]; intros z1 z2 H1 H2.
  - change (10 ^ Z.of_nat 0) with 1 in *. lia.
  - rewrite Nat2Z.inj_succ, Z.pow_succ_r in * by lia. simpl.
    intros [Hd Hc]%app_inj_tail.
    apply IH in Hd; [|Z.to_euclidean_division_equations; nia..].
    apply (f_equal Ascii.N_of_ascii) in Hc.
    rewrite !Ascii.N_ascii_embedding in Hc
      by (Z.to_euclidean_division_equations; lia).
    Z.to_euclidean_division_equations. lia.
Qed.

#[local] Opaque digits.

(** Days whose year has four digits: 0000-01-01 to 9999-12-31. *)
Definition four_digit_year (day : Z) : Prop := -719528 <= day <= 2932896.

Lemma civil_from_days_bounds z :
  four_digit_year z →
  let '(y, m, d) := civil_from_days z in
  0 <= y <= 9999 ∧ 1 <= m <= 12 ∧ 1 <= d <= 31.
Proof.
  intros Hz. unfold four_digit_year, civil_from_days in *.
  set (doe := (z + 719468) mod 146097). set (era := (z + 719468) / 146097).
  assert (Hdoe : 0 <= doe < 146097) by (apply Z.mod_pos_bound; lia).
  assert (Hera : z + 719468 = 146097 * era + doe) by (apply Z.div_mod; lia).
  destruct (yoe_bounds doe Hdoe) as [Hy Hdoy].
  set (yoe := (doe - doe / 1460 + doe / 36524 - doe / 146096) / 365) in *.
  set (doy := doe - (365 * yoe + yoe / 4 - yoe / 100)) in *.
  destruct (month_day_inverse doy Hdoy) as [Hmp Hd].
  set (mp := (5 * doy + 2) / 153) in *.
  assert (Hjan : mp < 10 ↔ doy < 306).
  { subst mp. Z.to_euclidean_division_equations. lia. }
  assert (Hyear : 0 <= yoe + era * 400 + (if mp <? 10 then 0 else 1) <= 9999).
  { clear Hmp Hd. assert (Hdoy' : doy = doe - (365 * yoe + yoe / 4 - yoe / 100)) by done.
    clearbody doy doe yoe era mp. destruct (mp <? 10) eqn:E; bools;
    Z.to_euclidean_division_equations; lia. }
  destruct (mp <? 10) eqn:E; bools.
  - destruct (mp + 3 <=? 2) eqn:E2; bools; lia.
  - destruct (mp - 9 <=? 2) eqn:E2; bools; lia.
Qed.

Lemma iso_date_inj a b :
  four_digit_year a → four_digit_year b →
  take 10 (iso_date (civil_from_days a)) = take 10 (iso_date (civil_from_days b)) →
  a = b.
Proof.
  intros Ha Hb He. rewrite <- (days_from_civil_from_days a), <- (days_from_civil_from_days b).
  apply civil_from_days_bounds in Ha, Hb.
  destruct (civil_from_days a) as [[y1 m1] d1], (civil_from_days b) as [[y2 m2] d2].
  destruct Ha as (? & ? & ?), Hb as (? & ? & ?). unfold iso_date in He.
  rewrite !(proj2 (Z.leb_le _ _)) in He by lia. cbn [andb] in He.
  assert (Hlen : ∀ y m d, length (digits 4 y ++ "-"%char :: digits 2 m ++ "-"%char :: digits 2 d) = 10%nat).
  { intros. rewrite length_app, length_cons, length_app, length_cons, !digits_length. done. }
  rewrite !take_ge in He by (rewrite Hlen; lia).
  apply app_inj_1 in He as [Hy He]; [|by rewrite !digits_length].
  apply (f_equal tail) in He. cbn [tail] in He.
  apply app_inj_1 in He as [Hm Hd]; [|by rewrite !digits_length].
  apply (f_equal tail) in Hd. cbn [tail] in Hd.
  apply digits_inj in Hy; [|simpl; lia..]. apply digits_inj in Hm; [|simpl; lia..].
  apply digits_inj in Hd; [|simpl; lia..]. congruence.
Qed.

Lemma isoDay_same_day ms1 ms2 s :
  isoDay ms1 = Ok s → ms1 / MS_PER_DAY = ms2 / MS_PER_DAY →
  Z.abs ms2 <= MAX_TIME → isoDay ms2 = Ok s.
Proof.
  unfold isoDay. intros H He Hm. rewrite He in H.
  apply Z.leb_le in Hm. rewrite Hm. by destruct (Z.abs ms1 <=? MAX_TIME).
Qed.

Lemma isoDay_inj ms1 ms2 s :
  four_digit_year (ms1 / MS_PER_DAY) → four_digit_year (ms2 / MS_PER_DAY) →
  isoDay ms1 = Ok s → isoDay ms2 = Ok s → ms1 / MS_PER_DAY = ms2 / MS_PER_DAY.
Proof.
  unfold isoDay. intros Hf1 Hf2 H1 H2.
  destruct (Z.abs ms1 <=? MAX_TIME), (Z.abs ms2 <=? MAX_TIME); try discriminate.
  apply iso_date_inj; [done..|].
  rewrite <- H2 in H1. apply (f_equal (λ r, match r with
    | Ok t => String.list_ascii_of_string t | Throw _ => [] end)) in H1.
  by rewrite !String.list_ascii_of_string_of_list_ascii in H1.
Qed.
