(* ===== verification/Validate.v ===== *)
(** * Input checks of the store

    The checks of [packages/store/src/index.ts] and [settlement.ts] that stand
    between a caller's value and a column: each returns the value it accepts or
    throws.  A TEXT amount column holds the decimal text of a bigint, written by
    [String] and read by [BigInt]; [Prelude.read_show_Z] is why the model keeps
    the bigint itself. *)

From Stdlib Require Import ZArith Lia Ascii String.
From stdpp Require Import base strings list.
From S2P Require Import Prelude.
Open Scope string_scope.
Open Scope Z_scope.

Definition amountText (value : jsval) (name : string) : result Z :=
  match value with
  | JBig z => throws z <? 0 with RangeError (name ++ " must not be negative"); Ok z
  | _ => Throw (TypeError (name ++ " must be a bigint"))
  end.

Definition optionalAmountText (value : option Z) (name : string) : result (option Z) :=
  match value with
  | None => Ok None
  | Some z => let? t := amountText (JBig z) name in Ok (Some t)
  end.

Definition millis (value : jsval) (name : string) : result Z :=
  let bad := TypeError (name ++ " must be a non-negative integer of epoch milliseconds") in
  match value with
  | JNum n => throws negb (isSafeInteger n) || (n <? 0) with bad; Ok n
  | _ => Throw bad
  end.

Definition positiveInteger (value : jsval) (name : string) : result Z :=
  let bad := TypeError (name ++ " must be a positive integer") in
  match value with
  | JNum n => throws negb (isSafeInteger n) || (n <? 1) with bad; Ok n
  | _ => Throw bad
  end.

(** A boolean as SQLite stores it. *)
Definition flag (value : jsval) (name : string) : result Z :=
  match value with
  | JBool b => Ok (if b then 1 else 0)
  | _ => Throw (TypeError (name ++ " must be a boolean"))
  end.

(** A string that matches a pattern, or the error. *)
Definition matching (re : string → bool) (e : js_error) (value : jsval) : result string :=
  match value with
  | JStr s => throws negb (re s) with e; Ok s
  | _ => Throw e
  end.

(** [/^\d{4}-\d{2}-\d{2}$/] *)
Definition DAY (s : string) : bool :=
  match chars s with
  | [a; b; c; d; h1; e; f; h2; g; h] =>
      forallb is_digit [a; b; c; d; e; f; g; h]
      && Ascii.eqb h1 "-" && Ascii.eqb h2 "-"
  | _ => false
  end.
Definition dayKey : jsval → result string :=
  matching DAY (TypeError "day must be YYYY-MM-DD").

(** [/^[\x21-\x7e]{1,128}$/] *)
Definition SCOPE (s : string) : bool :=
  re_class (λ c, (33 <=? code c) && (code c <=? 126)) 1 128 s.
Definition scopeKey : jsval → result string :=
  matching SCOPE (TypeError "scope must be 1-128 printable ASCII characters without whitespace").

(** [/^[a-z0-9][a-z0-9-]{0,63}$/] *)
Definition SLUG (s : string) : bool :=
  match chars s with
  | c :: _ => (is_lower c || is_digit c)
              && re_class (λ c, is_lower c || is_digit c || Ascii.eqb c "-") 1 64 s
  | [] => false
  end.
Definition slugKey (value : jsval) (name : string) : result string :=
  matching SLUG (TypeError (name ++ " must be 1-64 lowercase letters, digits or hyphens")) value.

(** [/^[0-9a-f]{64}$/] *)
Definition SHA256_HEX : string → bool := re_class is_lower_hex 64 64.
Definition tokenHash : jsval → result string :=
  matching SHA256_HEX (TypeError "manageTokenHash must be 64 lowercase hex characters (sha256)").
Definition optionalTokenHash (value : option string) : result (option string) :=
  match value with
  | None => Ok None
  | Some h => let? t := tokenHash (JStr h) in Ok (Some t)
  end.

(** *** [settlement.ts] *)

(** [/^0x[0-9a-fA-F]{2n}$/], then lower case. *)
Definition hex (value : jsval) (bytes : Z) : result string :=
  let? s := matching (re_0x is_hex (bytes * 2))
              (TypeError ("expected " ++ show_Z bytes ++ "-byte hex")) value in
  Ok (toLowerCase s).

Definition uint (value : jsval) : result Z :=
  let bad := TypeError "expected safe nonnegative integer" in
  match value with
  | JNum n => throws negb (isSafeInteger n) || (n <? 0) with bad; Ok n
  | _ => Throw bad
  end.

Definition amount (value : jsval) : result Z :=
  let bad := TypeError "expected nonnegative bigint" in
  match value with
  | JBig z => throws z <? 0 with bad; Ok z
  | _ => Throw bad
  end.

(** ** What a passed check says *)

Lemma amountText_ok z name t : amountText (JBig z) name = Ok t ↔ 0 <= z ∧ t = z.
Proof.
  unfold amountText. destruct (z <? 0) eqn:E; simpl; bools; [split; [done|lia]|].
  split; [intros [= ->]|intros [? ->]]; auto.
Qed.

Lemma amount_ok z t : amount (JBig z) = Ok t ↔ 0 <= z ∧ t = z.
Proof.
  unfold amount. destruct (z <? 0) eqn:E; simpl; bools; [split; [done|lia]|].
  split; [intros [= ->]|intros [? ->]]; auto.
Qed.

Lemma uint_ok n t : uint (JNum n) = Ok t ↔ 0 <= n <= MAX_SAFE_INTEGER ∧ t = n.
Proof.
  unfold uint, isSafeInteger.
  destruct (Z.abs n <=? MAX_SAFE_INTEGER) eqn:E, (n <? 0) eqn:E2; simpl; bools;
    split; intros H; simplify_eq; destruct_and?; subst; try split; try lia; done.
Qed.

Lemma millis_ok n name t : millis (JNum n) name = Ok t ↔ 0 <= n <= MAX_SAFE_INTEGER ∧ t = n.
Proof.
  unfold millis, isSafeInteger.
  destruct (Z.abs n <=? MAX_SAFE_INTEGER) eqn:E, (n <? 0) eqn:E2; simpl; bools;
    split; intros H; simplify_eq; destruct_and?; subst; try split; try lia; done.
Qed.

Lemma positiveInteger_ok n name t :
  positiveInteger (JNum n) name = Ok t ↔ 1 <= n <= MAX_SAFE_INTEGER ∧ t = n.
Proof.
  unfold positiveInteger, isSafeInteger.
  destruct (Z.abs n <=? MAX_SAFE_INTEGER) eqn:E, (n <? 1) eqn:E2; simpl; bools;
    split; intros H; simplify_eq; destruct_and?; subst; try split; try lia; done.
Qed.

Lemma matching_ok re e s t : matching re e (JStr s) = Ok t ↔ re s = true ∧ t = s.
Proof. unfold matching. destruct (re s); simpl; naive_solver. Qed.

Lemma hex_ok s n t :
  hex (JStr s) n = Ok t ↔ re_0x is_hex (n * 2) s = true ∧ t = toLowerCase s.
Proof.
  unfold hex. rewrite rbind_ok. setoid_rewrite matching_ok. naive_solver.
Qed.
