(* ===== verification/Ledger.v ===== *)
(** * The settlement ledger and the daily budget series

    [createLedger] and [createBudget] of [packages/store/src/index.ts] over the
    tables [settlement_events] and [budget_days] of [schema.ts].  An INTEGER
    PRIMARY KEY table is the list of its rows in rowid order. *)

From Stdlib Require Import ZArith Lia Ascii String.
From stdpp Require Import base gmap strings list fin_maps sorting.
From S2P Require Import Prelude Validate.
Open Scope string_scope.
Open Scope Z_scope.

Inductive SettlementOutcome := settled | rejected | error.
#[export] Instance SettlementOutcome_eq_dec : EqDecision SettlementOutcome.
Proof. solve_decision. Defined.

Record SettlementEventInput := {
  in_at : Z; in_kind : string; in_payer : string; in_payTo : string;
  in_amountBase : Z; in_outcome : SettlementOutcome;
  in_txHash : option string; in_gasUsed : option Z; in_errorCode : option string;
}.

Record SettlementEvent := {
  ev_id : Z; ev_at : Z; ev_kind : string; ev_payer : string; ev_payTo : string;
  ev_amountBase : Z; ev_outcome : SettlementOutcome;
  ev_txHash : option string; ev_gasUsed : option Z; ev_errorCode : option string;
}.
#[export] Instance SettlementEvent_eq_dec : EqDecision SettlementEvent.
Proof. solve_decision. Defined.

Notation events := (list SettlementEvent).

(** The rowid SQLite gives the next row: one past the largest on file. *)
Definition next_rowid (ids : list Z) : Z := foldr Z.max 0 ids + 1.

(** [record]: every amount is checked, then the row lands. *)
Definition record (event : SettlementEventInput) : tx events SettlementEvent :=
  let! at_ := tlift (millis (JNum (in_at event)) "at") in
  let! amountBase := tlift (amountText (JBig (in_amountBase event)) "amountBase") in
  let! gasUsed := tlift (optionalAmountText (in_gasUsed event) "gasUsed") in
  let! t := tget in
  let row := {| ev_id := next_rowid (ev_id <$> t); ev_at := at_;
                ev_kind := in_kind event; ev_payer := in_payer event;
                ev_payTo := in_payTo event; ev_amountBase := amountBase;
                ev_outcome := in_outcome event; ev_txHash := in_txHash event;
                ev_gasUsed := gasUsed; ev_errorCode := in_errorCode event |} in
  let! _ := tput (t ++ [row])%list in
  tret row.

(** [ORDER BY at DESC, id DESC] *)
Definition newest_first (a b : SettlementEvent) : Prop :=
  ev_at b < ev_at a ∨ (ev_at a = ev_at b ∧ ev_id b <= ev_id a).
#[export] Instance newest_first_dec : RelDecision newest_first.
Proof. unfold newest_first. intros a b. apply _. Defined.
#[export] Instance newest_first_total : Total newest_first.
Proof. intros a b. unfold newest_first. lia. Qed.
#[export] Instance newest_first_trans : Transitive newest_first.
Proof. intros a b c. unfold newest_first. lia. Qed.

Definition list_events (limit : Z) (t : events) : result (list SettlementEvent) :=
  let? limit := positiveInteger (JNum limit) "limit" in
  Ok (newest_k newest_first (Z.to_nat limit) t).

Record LedgerSummary := {
  total : Z; succeeded : Z; failed : Z;
  volumeByPayTo : gmap string Z; uniquePayers : Z;
}.

Definition is_settled (e : SettlementEvent) : bool := bool_decide (ev_outcome e = settled).
Definition is_rejected (e : SettlementEvent) : bool := bool_decide (ev_outcome e = rejected).

(** One step of the loop that sums volumes in JavaScript. *)
Definition add_volume (volumes : gmap string Z) (e : SettlementEvent) : gmap string Z :=
  <[ev_payTo e := default 0 (volumes !! ev_payTo e) + ev_amountBase e]> volumes.

Definition summary (sinceMs : Z) (t : events) : result LedgerSummary :=
  let? since := millis (JNum sinceMs) "sinceMs" in
  let window := List.filter (λ e, since <=? ev_at e) t in
  let done := List.filter is_settled window in
  let total := Z.of_nat (length window) in
  let succeeded := Z.of_nat (length done) in
  Ok {| total := total; succeeded := succeeded; failed := total - succeeded;
        volumeByPayTo := foldl add_volume ∅ done;
        uniquePayers := Z.of_nat (size (list_to_set (ev_payer <$> done) : gset string)) |}.

(** [DELETE ... WHERE outcome = 'rejected' AND at < $before] *)
Definition dropRejectedBefore (before : Z) (t : events) : events :=
  List.filter (λ e, negb (is_rejected e && (ev_at e <? before))) t.

(** [DELETE ... WHERE outcome = 'rejected' AND id NOT IN (the newest $keep)] *)
Definition dropRejectedBeyond (keep : Z) (t : events) : events :=
  let newest := newest_k newest_first (Z.to_nat keep) (List.filter is_rejected t) in
  List.filter (λ e, negb (is_rejected e && bool_decide (ev_id e ∉ (ev_id <$> newest)))) t.

Definition prune_events (rejectedBefore keepRejected : Z) : tx events Z :=
  let! before := tlift (millis (JNum rejectedBefore) "rejectedBefore") in
  let! keep := tlift (positiveInteger (JNum keepRejected) "keepRejected") in
  let! t := tget in
  let t1 := dropRejectedBefore before t in
  let t2 := dropRejectedBeyond keep t1 in
  let! _ := tput t2 in
  tret (Z.of_nat (length t) - Z.of_nat (length t1)
        + (Z.of_nat (length t1) - Z.of_nat (length t2))).

(** ** The daily budget series: [budget_days], primary key (scope, day). *)
Notation budgets := (gmap (string * string) Z).
Definition TOTAL_SCOPE : string := "total".

Definition load_spent (scope day : string) (t : budgets) : Z :=
  default 0 (t !! (scope, day)).
Definition save_spent (scope day : string) (spentWei : Z) (t : budgets) : budgets :=
  <[(scope, day) := spentWei]> t.

(** [series(scope)]: what [store.budget] and [store.budget.scoped(scope)] offer. *)
Definition series_load (scope day : string) (t : budgets) : result Z :=
  let? day := dayKey (JStr day) in Ok (load_spent scope day t).
Definition series_save (scope day : string) (spentWei : Z) : tx budgets unit :=
  let! day := tlift (dayKey (JStr day)) in
  let! spent := tlift (amountText (JBig spentWei) "spentWei") in
  tmodify (save_spent scope day spent).
Definition scoped (scope : string) : result string := scopeKey (JStr scope).

(** ** Row ids *)

Definition ids_ok (t : events) : Prop := NoDup (ev_id <$> t) ∧ Forall (λ e, 0 < ev_id e) t.

Lemma next_rowid_fresh ids : Forall (λ i, i < next_rowid ids) ids ∧ 0 < next_rowid ids.
Proof.
  unfold next_rowid. induction ids as [|i ids [IH1 IH2]]; simpl; [by split|].
  split; [|lia]. constructor; [lia|]. eapply Forall_impl; [done|]. simpl. lia.
Qed.

Lemma next_rowid_notin ids : next_rowid ids ∉ ids.
Proof.
  intros Hin. destruct (next_rowid_fresh ids) as [HF _].
  rewrite Forall_forall in HF. apply HF in Hin. lia.
Qed.

Lemma record_spec event t row t' :
  record event t = Ok (row, t') →
  t' = (t ++ [row])%list ∧ ev_id row = next_rowid (ev_id <$> t)
  ∧ ev_outcome row = in_outcome event ∧ ev_payer row = in_payer event
  ∧ ev_payTo row = in_payTo event ∧ ev_amountBase row = in_amountBase event
  ∧ ev_txHash row = in_txHash event ∧ ev_errorCode row = in_errorCode event
  ∧ ev_gasUsed row = in_gasUsed event ∧ ev_at row = in_at event
  ∧ ev_kind row = in_kind event.
Proof.
  unfold record, optionalAmountText. intros H. inv_tx.
  repeat match goal with
  | H : millis (JNum _) _ = Ok _ |- _ => apply millis_ok in H; destruct H as [? ->]
  | H : amountText (JBig _) _ = Ok _ |- _ => apply amountText_ok in H; destruct H as [? ->]
  end.
  match goal with H : tput _ _ = Ok _ |- _ => unfold tput in H end.
  destruct (in_gasUsed event) eqn:Hg; inv_tx; simpl;
  repeat match goal with
  | H : amountText (JBig _) _ = Ok _ |- _ => apply amountText_ok in H; destruct H as [? ->]
  end; done.
Qed.

Lemma record_returns event t :
  0 <= in_at event <= MAX_SAFE_INTEGER → 0 <= in_amountBase event →
  (∀ g, in_gasUsed event = Some g → 0 <= g) →
  ∃ row, record event t = Ok (row, (t ++ [row])%list).
Proof.
  intros Hat Ham Hg. unfold record, optionalAmountText.
  rewrite (tlift_run _ _ _ (in_at event)) by by apply millis_ok.
  rewrite (tlift_run _ _ _ (in_amountBase event)) by by apply amountText_ok.
  rewrite (tlift_run _ _ _ (in_gasUsed event)); [by eexists|].
  destruct (in_gasUsed event) as [g|]; [|done].
  rewrite (proj2 (amountText_ok g _ g)); [done|]. naive_solver.
Qed.

Lemma record_ids_ok event t row t' :
  ids_ok t → record event t = Ok (row, t') → ids_ok t'.
Proof.
  intros [Hnd Hpos] (-> & Hid & _)%record_spec. split.
  - rewrite fmap_app. simpl. apply NoDup_app. split; [done|]. split.
    + intros x Hx ->%list_elem_of_singleton. rewrite Hid in Hx.
      by apply next_rowid_notin in Hx.
    + apply NoDup_singleton.
  - apply Forall_app. split; [done|]. constructor; [|done].
    rewrite Hid. apply next_rowid_fresh.
Qed.

(** ** Retention *)

Lemma ids_ok_inj t x y : ids_ok t → x ∈ t → y ∈ t → ev_id x = ev_id y → x = y.
Proof.
  intros [Hnd _] (i & Hi)%list_elem_of_lookup (j & Hj)%list_elem_of_lookup He.
  rewrite NoDup_alt in Hnd.
  assert (i = j) as ->; [|congruence].
  apply (Hnd i j (ev_id x)); rewrite list_lookup_fmap; [by rewrite Hi|by rewrite Hj, He].
Qed.

Lemma NoDup_ids_rows t : ids_ok t → NoDup t.
Proof. intros [Hnd _]. by eapply NoDup_fmap_1. Qed.

(** What a row of the table after [dropRejectedBeyond] is. *)
Lemma dropRejectedBeyond_elem keep t e :
  ids_ok t →
  e ∈ dropRejectedBeyond keep t ↔
  e ∈ t ∧ (is_rejected e = true →
           e ∈ newest_k newest_first (Z.to_nat keep) (List.filter is_rejected t)).
Proof.
  intros Hok. unfold dropRejectedBeyond. rewrite elem_of_lfilter.
  split; intros [Hin H]; (split; [done|]).
  - intros Hr. rewrite Hr in H. simpl in H. bools. apply dec_stable in H.
    apply list_elem_of_fmap in H as (f & Hid & Hf).
    rewrite (ids_ok_inj t e f); [done..| |done].
    apply newest_k_elem, elem_of_lfilter in Hf. by destruct Hf.
  - apply negb_true_iff, andb_false_iff. destruct (is_rejected e) eqn:Hr; [right|by left].
    apply bool_decide_eq_false. intros Hn. apply Hn, list_elem_of_fmap. eauto.
Qed.

Lemma rejected_kept keep t :
  ids_ok t →
  List.filter is_rejected (dropRejectedBeyond keep t) ≡ₚ
  newest_k newest_first (Z.to_nat keep) (List.filter is_rejected t).
Proof.
  intros Hok. pose proof (NoDup_ids_rows t Hok) as Hnd.
  apply NoDup_Permutation.
  - by do 2 apply NoDup_lfilter.
  - unfold newest_k. eapply sublist_NoDup; [|apply sublist_take].
    rewrite merge_sort_Permutation. by apply NoDup_lfilter.
  - intros e. rewrite elem_of_lfilter, dropRejectedBeyond_elem by done.
    split; [naive_solver|]. intros Hn. pose proof (newest_k_elem _ _ _ _ Hn) as Hr.
    apply elem_of_lfilter in Hr. naive_solver.
Qed.

Lemma ids_ok_lfilter p t : ids_ok t → ids_ok (List.filter p t).
Proof.
  intros [Hnd Hpos]. split.
  - induction t as [|a t IH]; simpl in *; [constructor|].
    apply NoDup_cons in Hnd as [Ha Hnd]. apply Forall_cons in Hpos as [_ Hpos].
    destruct (p a); simpl; [|auto]. constructor; [|auto].
    intros (f & Hf & Hin)%list_elem_of_fmap. apply Ha, list_elem_of_fmap.
    exists f. rewrite elem_of_lfilter in Hin. naive_solver.
  - rewrite Forall_forall in *. intros e He. apply elem_of_lfilter in He. naive_solver.
Qed.

(** Retention keeps every row that is not a refusal, in order; of the refusals
    it keeps the newest [keepRejected] at or after the cutoff, and the count it
    returns is the number of rows that went. *)
Theorem prune_keeps_money rejectedBefore keepRejected t n t' :
  ids_ok t → prune_events rejectedBefore keepRejected t = Ok (n, t') →
  let live e := is_rejected e && (rejectedBefore <=? ev_at e) in
  List.filter (λ e, negb (is_rejected e)) t' = List.filter (λ e, negb (is_rejected e)) t
  ∧ Z.of_nat (length (List.filter is_rejected t'))
      = Z.min keepRejected (Z.of_nat (length (List.filter live t)))
  ∧ (∀ e, e ∈ t' → is_rejected e = true → e ∈ List.filter live t)
  ∧ (∀ e f, e ∈ t' → is_rejected e = true →
            f ∈ List.filter live t → f ∉ t' → newest_first e f)
  ∧ n = Z.of_nat (length t) - Z.of_nat (length t').
Proof.
  intros Hok H live. unfold prune_events in H. inv_tx.
  repeat match goal with
  | H : millis (JNum _) _ = Ok _ |- _ => apply millis_ok in H; destruct H as [? ->]
  | H : positiveInteger (JNum _) _ = Ok _ |- _ =>
      apply positiveInteger_ok in H; destruct H as [Hkeep ->]
  | H : tput _ _ = Ok _ |- _ => unfold tput in H; inv_tx
  end.
  set (t1 := dropRejectedBefore rejectedBefore t) in *.
  assert (Hok1 : ids_ok t1) by by apply ids_ok_lfilter.
  assert (Hlive : List.filter is_rejected t1 = List.filter live t).
  { unfold t1, dropRejectedBefore. rewrite lfilter_lfilter. apply lfilter_ext.
    intros e _. unfold live. rewrite (Z.leb_antisym (ev_at e)).
    destruct (is_rejected e), (ev_at e <? rejectedBefore); done. }
  assert (Hdom : ∀ e, e ∈ dropRejectedBeyond keepRejected t1 → is_rejected e = true →
            e ∈ newest_k newest_first (Z.to_nat keepRejected) (List.filter live t)).
  { intros e He Hr. apply dropRejectedBeyond_elem in He as [_ He]; [|done].
    rewrite <- Hlive. by apply He. }
  repeat apply conj.
  - unfold dropRejectedBeyond, t1, dropRejectedBefore. rewrite !lfilter_lfilter.
    apply lfilter_ext. intros e _.
    destruct (is_rejected e); simpl; rewrite ?andb_false_r; done.
  - rewrite rejected_kept, newest_k_length, Hlive by done. lia.
  - intros e He Hr. exact (newest_k_elem _ _ _ _ (Hdom e He Hr)).
  - intros e f He Hr Hf Hnf. apply (newest_k_dominates _ _ _ _ _ (Hdom e He Hr) Hf).
    intros Hn. apply Hnf, dropRejectedBeyond_elem; [done|].
    rewrite Hlive. split; [|done]. rewrite <- Hlive in Hf. by apply elem_of_lfilter in Hf as [? _].
  - lia.
Qed.

(** ** The summary *)

Lemma add_volume_sum done : ∀ m,
  map_sum id (foldl add_volume m done) = map_sum id m + Zsum (ev_amountBase <$> done).
Proof.
  induction done as [|e done IH]; intros m; cbn [foldl]; [change (Zsum _) with 0; lia|].
  rewrite IH, fmap_cons, Zsum_cons. unfold add_volume.
  destruct (m !! ev_payTo e) as [v|] eqn:Hm; simpl.
  - rewrite (map_sum_update _ _ _ v) by done. unfold id. lia.
  - rewrite map_sum_insert by done. unfold id. lia.
Qed.

Lemma add_volume_at done payTo : ∀ m,
  default 0 (foldl add_volume m done !! payTo)
  = default 0 (m !! payTo)
    + Zsum (ev_amountBase <$> List.filter (λ e, String.eqb (ev_payTo e) payTo) done).
Proof.
  induction done as [|e done IH]; intros m; cbn [foldl List.filter];
    [change (Zsum _) with 0; lia|].
  rewrite IH. unfold add_volume. rewrite lookup_insert.
  destruct (String.eqb_spec (ev_payTo e) payTo) as [->|Hne].
  - rewrite decide_True, fmap_cons, Zsum_cons by done. simpl. lia.
  - rewrite decide_False by done. lia.
Qed.

(** The summary's volumes are the exact sums of the settled amounts in the
    window, per recipient and in total, and the counts add up. *)
Theorem summary_volume sinceMs t s :
  summary sinceMs t = Ok s →
  let window := List.filter (λ e, is_settled e && (sinceMs <=? ev_at e)) t in
  total s = succeeded s + failed s
  ∧ succeeded s = Z.of_nat (length window)
  ∧ (∀ payTo, default 0 (volumeByPayTo s !! payTo)
       = Zsum (ev_amountBase <$> List.filter (λ e, String.eqb (ev_payTo e) payTo) window))
  ∧ map_sum id (volumeByPayTo s) = Zsum (ev_amountBase <$> window)
  ∧ 0 <= uniquePayers s <= succeeded s.
Proof.
  intros H window. unfold summary in H. inv_tx.
  match goal with H : millis _ _ = Ok _ |- _ => apply millis_ok in H; destruct H as [? ->] end.
  assert (Hw : List.filter is_settled (List.filter (λ e, sinceMs <=? ev_at e) t) = window).
  { rewrite lfilter_lfilter. apply lfilter_ext. intros e _. apply andb_comm. }
  simpl. rewrite Hw. repeat apply conj; try lia.
  - intros payTo. by rewrite add_volume_at, lookup_empty.
  - by rewrite add_volume_sum, map_sum_empty.
  - pose proof (size_list_to_set_le (ev_payer <$> window)) as Hs.
    rewrite length_fmap in Hs. lia.
Qed.

(** ** The two theorems on a small table *)
Definition ex_event (id at_ : Z) (payTo : string) (amount : Z) (o : SettlementOutcome) :=
  {| ev_id := id; ev_at := at_; ev_kind := "settle"; ev_payer := "0xa"; ev_payTo := payTo;
     ev_amountBase := amount; ev_outcome := o; ev_txHash := None; ev_gasUsed := None;
     ev_errorCode := None |}.
Definition ex_events : events :=
  [ex_event 1 10 "x" 5 settled; ex_event 2 20 "x" 1 rejected; ex_event 3 30 "y" 7 settled;
   ex_event 4 40 "y" 2 rejected; ex_event 5 50 "x" 3 error].

Lemma ex_events_ok : ids_ok ex_events.
Proof.
  split; [|repeat constructor].
  apply (bool_decide_unpack (NoDup (ev_id <$> ex_events))). by vm_compute.
Qed.

Lemma prune_keeps_money_witness :
  prune_events 15 1 ex_events = Ok (1, [ex_event 1 10 "x" 5 settled;
    ex_event 3 30 "y" 7 settled; ex_event 4 40 "y" 2 rejected; ex_event 5 50 "x" 3 error])
  ∧ 1 = Z.of_nat 5 - Z.of_nat 4.
Proof.
  pose proof (prune_keeps_money 15 1 ex_events 1 [ex_event 1 10 "x" 5 settled;
    ex_event 3 30 "y" 7 settled; ex_event 4 40 "y" 2 rejected; ex_event 5 50 "x" 3 error]
    ex_events_ok ltac:(vm_compute; reflexivity)) as (_ & _ & _ & _ & Hn).
  split; [vm_compute; reflexivity|exact Hn].
Defined.

Lemma summary_volume_witness : ∃ s, summary 5 ex_events = Ok s ∧ map_sum id (volumeByPayTo s) = 12.
Proof.
  destruct (summary 5 ex_events) as [s|e] eqn:Hs; [|vm_compute in Hs; discriminate Hs].
  exists s. split; [reflexivity|].
  destruct (summary_volume 5 ex_events s Hs) as (_ & _ & _ & Hv & _).
  exact Hv.
Defined.
