(* ===== verification/Settlement.v ===== *)
(** * The settlement journal

    [createSettlementJournal] of [packages/store/src/settlement.ts] over
    [settlement_intents], [settlement_events] and [budget_days].  [claim] and
    [finish] are immediate transactions: each is one atomic step of the model
    and a throw leaves the tables as they were. *)

From Stdlib Require Import ZArith Lia Ascii String.
From stdpp Require Import base gmap strings list fin_maps sorting.
From S2P Require Import Prelude Dates Validate Ledger.
Open Scope string_scope.
Open Scope Z_scope.

(** Enough to re-sign the same transaction. *)
Record TransactionEnvelope := {
  signer : string; chainId : Z; nonce : Z; gas : Z;
  maxFeePerGas : Z; maxPriorityFeePerGas : Z;
}.
#[export] Instance TransactionEnvelope_eq_dec : EqDecision TransactionEnvelope.
Proof. solve_decision. Defined.

Record SettlementInput := {
  envelope : TransactionEnvelope; paymentIntentId : string; txHash : string;
  payer : string; payTo : string; amountBase : Z; createdAt : Z;
}.
#[export] Instance SettlementInput_eq_dec : EqDecision SettlementInput.
Proof. solve_decision. Defined.

(** A row of [settlement_intents]; the first six columns are [row_input]. *)
Record IntentRow := {
  row_input : SettlementInput; budget_day : string; reserved_wei : Z;
  terminal_event_id : option Z; actual_cost : option Z;
}.
#[export] Instance IntentRow_eq_dec : EqDecision IntentRow.
Proof. solve_decision. Defined.

Record SettlementRecord := {
  rec_input : SettlementInput; budgetDay : string; reservedWei : Z;
  actualCost : option Z; terminal : option SettlementEvent;
}.
#[export] Instance SettlementRecord_eq_dec : EqDecision SettlementRecord.
Proof. solve_decision. Defined.

Record SettlementLimits := { lim_total : Z; lim_payer : Z }.

Definition SettlementBudgetExceeded (errorCode : string) : js_error :=
  JsError "SettlementBudgetExceeded" errorCode.

Record JournalDb := {
  settlement_intents : gmap string IntentRow;
  settlement_events : events;
  budget_days : budgets;
}.
Definition set_intents (f : gmap string IntentRow → gmap string IntentRow) (s : JournalDb) :=
  {| settlement_intents := f (settlement_intents s);
     settlement_events := settlement_events s; budget_days := budget_days s |}.
Definition set_budget (f : budgets → budgets) (s : JournalDb) :=
  {| settlement_intents := settlement_intents s;
     settlement_events := settlement_events s; budget_days := f (budget_days s) |}.
(** A statement of the ledger, run on the journal's database. *)
Definition on_events {A} (m : tx events A) : tx JournalDb A := λ s,
  match m (settlement_events s) with
  | Ok (a, t) => Ok (a, {| settlement_intents := settlement_intents s;
                           settlement_events := t; budget_days := budget_days s |})
  | Throw e => Throw e
  end.

(** [event.get(id)] *)
Definition event_by_id (id : Z) (t : events) : option SettlementEvent :=
  List.find (λ e, ev_id e =? id) t.

Definition to_record (s : JournalDb) (r : IntentRow) : SettlementRecord :=
  {| rec_input := row_input r; budgetDay := budget_day r; reservedWei := reserved_wei r;
     actualCost := actual_cost r;
     terminal := id ← terminal_event_id r; event_by_id id (settlement_events s) |}.

(** [read(id)] *)
Definition read_row (id : string) (s : JournalDb) : option SettlementRecord :=
  to_record s <$> settlement_intents s !! id.
Definition read (id : string) : tx JournalDb (option SettlementRecord) :=
  let! id := tlift (hex (JStr id) 32) in tgets (read_row id).

Definition payer_scope (payer : string) : string := "payer:" ++ payer.

(** The UNIQUE constraints of [settlement_intents] an INSERT meets. *)
Definition same_nonce (a b : SettlementInput) : bool :=
  (chainId (envelope a) =? chainId (envelope b))
  && String.eqb (signer (envelope a)) (signer (envelope b))
  && (nonce (envelope a) =? nonce (envelope b)).
Definition row_exists (p : IntentRow → bool) (m : gmap string IntentRow) : bool :=
  existsb (λ kr : string * IntentRow, p kr.2) (map_to_list m).
Definition insert_intent (r : IntentRow) : tx JournalDb unit :=
  let i := row_input r in
  let! s := tget in
  let m := settlement_intents s in
  throws! bool_decide (is_Some (m !! paymentIntentId i))
    with SQLiteError "UNIQUE constraint failed: settlement_intents.payment_intent_id";
  throws! row_exists (λ q, String.eqb (txHash (row_input q)) (txHash i)) m
    with SQLiteError "UNIQUE constraint failed: settlement_intents.tx_hash";
  throws! row_exists (λ q, same_nonce (row_input q) i) m
    with SQLiteError "UNIQUE constraint failed: settlement_nonce";
  tmodify (set_intents <[paymentIntentId i := r]>).

Definition claim (input : SettlementInput) (limits : SettlementLimits) :
    tx JournalDb SettlementRecord :=
  let! id := tlift (hex (JStr (paymentIntentId input)) 32) in
  let! existing := read id in
  match existing with
  | Some r => tret r
  | None =>
    let env := envelope input in
    let! signer_ := tlift (hex (JStr (signer env)) 20) in
    let! payer_ := tlift (hex (JStr (payer input)) 20) in
    let! payTo_ := tlift (hex (JStr (payTo input)) 20) in
    let! created := tlift (uint (JNum (createdAt input))) in
    let! day := tlift (isoDay created) in
    let! gas_ := tlift (amount (JBig (gas env))) in
    let! fee := tlift (amount (JBig (maxFeePerGas env))) in
    let! priority := tlift (amount (JBig (maxPriorityFeePerGas env))) in
    throws! (gas env =? 0) || (maxFeePerGas env <? maxPriorityFeePerGas env)
      with Error "invalid gas envelope";
    let! _ := tlift (amount (JBig (lim_total limits))) in
    let! _ := tlift (amount (JBig (lim_payer limits))) in
    throws! (lim_total limits =? 0) || (lim_payer limits =? 0)
            || (lim_total limits <? lim_payer limits)
      with Error "invalid settlement limits";
    let reserved := gas env * maxFeePerGas env in
    let scope := payer_scope payer_ in
    let! s := tget in
    throws! lim_payer limits <? load_spent scope day (budget_days s) + reserved
      with SettlementBudgetExceeded "payer_budget_exhausted";
    throws! lim_total limits <? load_spent TOTAL_SCOPE day (budget_days s) + reserved
      with SettlementBudgetExceeded "budget_exhausted";
    let! txHash_ := tlift (hex (JStr (txHash input)) 32) in
    let! chainId_ := tlift (uint (JNum (chainId env))) in
    let! nonce_ := tlift (uint (JNum (nonce env))) in
    let! amountBase_ := tlift (amount (JBig (amountBase input))) in
    let! reserved_ := tlift (amount (JBig reserved)) in
    let! _ := insert_intent
      {| row_input := {| envelope := {| signer := signer_; chainId := chainId_;
             nonce := nonce_; gas := gas_; maxFeePerGas := fee;
             maxPriorityFeePerGas := priority |};
           paymentIntentId := id; txHash := txHash_; payer := payer_; payTo := payTo_;
           amountBase := amountBase_; createdAt := createdAt input |};
         budget_day := day; reserved_wei := reserved_;
         terminal_event_id := None; actual_cost := None |} in
    let! s := tget in
    let! v := tlift (amount (JBig (load_spent TOTAL_SCOPE day (budget_days s) + reserved))) in
    let! _ := tmodify (set_budget (save_spent TOTAL_SCOPE day v)) in
    let! s := tget in
    let! v := tlift (amount (JBig (load_spent scope day (budget_days s) + reserved))) in
    let! _ := tmodify (set_budget (save_spent scope day v)) in
    let! saved := read id in
    match saved with
    | Some r => tret r
    | None => tthrow (TypeError "null is not an object")
    end
  end.

Record FinishResult := {
  fin_at : Z; fin_gasUsed : Z; fin_actualCost : Z; fin_errorCode : option string;
}.

(** Truthiness of an optional string. *)
Definition truthy (s : option string) : bool :=
  match s with Some s => negb (String.eqb s "") | None => false end.

(** One turn of [finish]'s loop over the two scopes. *)
Definition settle_scope (r : SettlementRecord) (cost : Z) (scope : string) : tx JournalDb unit :=
  let! s := tget in
  let! v := tlift (amount (JBig (load_spent scope (budgetDay r) (budget_days s)
                                 - reservedWei r + cost))) in
  tmodify (set_budget (save_spent scope (budgetDay r) v)).

Definition finish (id : string) (result : FinishResult) : tx JournalDb SettlementRecord :=
  let! record_ := read id in
  match record_ with
  | None => tthrow (Error "settlement intent not found")
  | Some r =>
    match terminal r with
    | Some _ => tret r
    | None =>
      let i := rec_input r in
      let! cost := tlift (amount (JBig (fin_actualCost result))) in
      let! _ := tlift (amount (JBig (fin_gasUsed result))) in
      let! _ := tlift (uint (JNum (fin_at result))) in
      let! _ := settle_scope r cost TOTAL_SCOPE in
      let! _ := settle_scope r cost (payer_scope (payer i)) in
      let! e := on_events (record
        {| in_at := fin_at result; in_kind := "settle"; in_payer := payer i;
           in_payTo := payTo i; in_amountBase := amountBase i;
           in_outcome := if truthy (fin_errorCode result) then error else settled;
           in_txHash := Some (txHash i); in_gasUsed := Some (fin_gasUsed result);
           in_errorCode := fin_errorCode result |}) in
      let! _ := tmodify (set_intents (alter (λ q,
        {| row_input := row_input q; budget_day := budget_day q;
           reserved_wei := reserved_wei q;
           terminal_event_id := Some (ev_id e); actual_cost := Some cost |})
        (paymentIntentId i))) in
      let! saved := read id in
      match saved with
      | Some r => tret r
      | None => tthrow (TypeError "null is not an object")
      end
    end
  end.

(** [SELECT MAX(nonce) ... WHERE signer = ? AND chain_id = ?] *)
Definition maxNonce (signer_ : string) (chain : Z) (m : gmap string IntentRow) : option Z :=
  foldr (λ n acc, Some (match acc with Some k => Z.max n k | None => n end)) None
    (omap (λ kr : string * IntentRow,
       let e := envelope (row_input kr.2) in
       if String.eqb (signer e) signer_ && (chainId e =? chain) then Some (nonce e) else None)
     (map_to_list m)).

Definition nextNonce (signer_ : string) (chainId_ pendingNonce : Z) (s : JournalDb) : result Z :=
  let? sg := hex (JStr signer_) 20 in
  let? ch := uint (JNum chainId_) in
  let known := maxNonce sg ch (settlement_intents s) in
  let? pending := uint (JNum pendingNonce) in
  uint (JNum (Z.max pending (match known with None => 0 | Some k => k + 1 end))).

(** ** Running the statements *)

Lemma read_ok id s o s' :
  read id s = Ok (o, s') ↔
  re_0x is_hex 64 id = true ∧ o = read_row (toLowerCase id) s ∧ s' = s.
Proof.
  unfold read. rewrite tbind_ok. setoid_rewrite tlift_ok. setoid_rewrite tgets_ok.
  setoid_rewrite hex_ok. change (32 * 2) with 64. naive_solver.
Qed.

Lemma row_exists_false p m :
  row_exists p m = false ↔ ∀ k r, m !! k = Some r → p r = false.
Proof.
  unfold row_exists. split.
  - intros H k r Hk. destruct (p r) eqn:Hp; [|done].
    enough (existsb (λ kr : string * IntentRow, p kr.2) (map_to_list m) = true) by congruence.
    apply existsb_exists. exists (k, r). split; [|done].
    by apply list_elem_of_In, elem_of_map_to_list.
  - intros H. apply not_true_iff_false. intros ([k r] & Hin & Hp)%existsb_exists.
    apply list_elem_of_In, elem_of_map_to_list in Hin. simpl in Hp.
    apply H in Hin. congruence.
Qed.

Lemma insert_intent_ok r s u s' :
  insert_intent r s = Ok (u, s') →
  settlement_intents s !! paymentIntentId (row_input r) = None
  ∧ (∀ k q, settlement_intents s !! k = Some q →
        txHash (row_input q) ≠ txHash (row_input r)
        ∧ same_nonce (row_input q) (row_input r) = false)
  ∧ s' = set_intents <[paymentIntentId (row_input r) := r]> s.
Proof.
  unfold insert_intent. intros H. inv_tx. bools.
  repeat match goal with H : row_exists _ _ = false |- _ => rewrite row_exists_false in H end.
  split_and!; [by apply eq_None_not_Some| |done].
  intros k q Hk. split; [|by eauto].
  match goal with H : ∀ k r, _ → String.eqb _ _ = false |- _ => specialize (H k q Hk) end.
  by apply String.eqb_neq.
Qed.

(** What a claim that returns did: it found the row, or it added one row and
    charged its reservation to the two scopes of its day. *)
Definition claimed_row (input : SettlementInput) (day : string) (r : IntentRow) : Prop :=
  let env := envelope input in
  paymentIntentId (row_input r) = toLowerCase (paymentIntentId input)
  ∧ txHash (row_input r) = toLowerCase (txHash input)
  ∧ payer (row_input r) = toLowerCase (payer input)
  ∧ payTo (row_input r) = toLowerCase (payTo input)
  ∧ amountBase (row_input r) = amountBase input
  ∧ createdAt (row_input r) = createdAt input
  ∧ envelope (row_input r) =
      {| signer := toLowerCase (signer env); chainId := chainId env; nonce := nonce env;
         gas := gas env; maxFeePerGas := maxFeePerGas env;
         maxPriorityFeePerGas := maxPriorityFeePerGas env |}
  ∧ budget_day r = day ∧ reserved_wei r = gas env * maxFeePerGas env
  ∧ terminal_event_id r = None ∧ actual_cost r = None.

Definition charge_claim (r : IntentRow) (s : JournalDb) : JournalDb :=
  let scope := payer_scope (payer (row_input r)) in
  let b := budget_days s in
  let b1 := save_spent TOTAL_SCOPE (budget_day r)
              (load_spent TOTAL_SCOPE (budget_day r) b + reserved_wei r) b in
  {| settlement_intents := <[paymentIntentId (row_input r) := r]> (settlement_intents s);
     settlement_events := settlement_events s;
     budget_days := save_spent scope (budget_day r)
                      (load_spent scope (budget_day r) b1 + reserved_wei r) b1 |}.

Ltac inv_checks :=
  repeat match goal with
  | H : hex (JStr _) _ = Ok _ |- _ => apply hex_ok in H; destruct H as [? ->]
  | H : uint (JNum _) = Ok _ |- _ => apply uint_ok in H; destruct H as [? ->]
  | H : amount (JBig _) = Ok _ |- _ => apply amount_ok in H; destruct H as [? ->]
  | H : millis (JNum _) _ = Ok _ |- _ => apply millis_ok in H; destruct H as [? ->]
  | H : amountText (JBig _) _ = Ok _ |- _ => apply amountText_ok in H; destruct H as [? ->]
  | H : positiveInteger (JNum _) _ = Ok _ |- _ =>
      apply positiveInteger_ok in H; destruct H as [? ->]
  end.

Lemma claim_known input limits s r :
  re_0x is_hex 64 (paymentIntentId input) = true →
  settlement_intents s !! toLowerCase (paymentIntentId input) = Some r →
  claim input limits s = Ok (to_record s r, s).
Proof.
  intros Hre Hr. unfold claim.
  assert (Hid : hex (JStr (paymentIntentId input)) 32
                = Ok (toLowerCase (paymentIntentId input))) by by apply hex_ok.
  assert (Hread : read (toLowerCase (paymentIntentId input)) s
                  = Ok (Some (to_record s r), s)).
  { apply read_ok. unfold read_row. rewrite toLowerCase_idem, Hr.
    split_and!; [|done..]. by apply re_0x_hex_lower. }
  unfold tbind at 1. unfold tlift at 1. rewrite Hid.
  unfold tbind at 1. rewrite Hread. done.
Qed.

Lemma claim_fresh input limits s rec s' :
  settlement_intents s !! toLowerCase (paymentIntentId input) = None →
  claim input limits s = Ok (rec, s') →
  ∃ row day, claimed_row input day row ∧ isoDay (createdAt input) = Ok day
    ∧ rec = to_record s' row
    ∧ 0 < gas (envelope input) ∧ 0 <= maxFeePerGas (envelope input)
    ∧ 0 <= amountBase input
    ∧ load_spent (payer_scope (payer (row_input row))) day (budget_days s) + reserved_wei row
        <= lim_payer limits
    ∧ load_spent TOTAL_SCOPE day (budget_days s) + reserved_wei row <= lim_total limits
    ∧ settlement_intents s !! paymentIntentId (row_input row) = None
    ∧ (∀ k q, settlement_intents s !! k = Some q →
         txHash (row_input q) ≠ txHash (row_input row)
         ∧ same_nonce (row_input q) (row_input row) = false)
    ∧ s' = charge_claim row s.
Proof.
  intros Hnone H. unfold claim in H.
  rewrite tbind_ok in H. destruct H as (id & s1 & H1 & H).
  apply tlift_ok in H1 as [H1 ->]. apply hex_ok in H1 as [Hre ->].
  rewrite tbind_ok in H. destruct H as (o & s1 & H1 & H).
  apply read_ok in H1 as (_ & -> & ->).
  unfold read_row in H. rewrite toLowerCase_idem, Hnone in H. cbn [fmap option_fmap option_map] in H.
  inv_tx. inv_checks. bools.
  match goal with H : insert_intent _ _ = _ |- _ => apply insert_intent_ok in H as (Hn & Hu & ->) end.
  match goal with H : read _ _ = _ |- _ => apply read_ok in H as (_ & -> & ->) end.
  unfold read_row in H. rewrite toLowerCase_idem in H. simpl in H.
  rewrite lookup_insert_eq in H. simpl in H. inv_tx.
  match type of Hn with _ !! paymentIntentId (row_input ?r) = _ => exists r end.
  eexists. split; [unfold claimed_row; simpl; split_and!; reflexivity|].
  simpl. split_and!; try done; try lia.
Qed.

(** What a first [finish] of a row did. *)
Definition finished_event (r : IntentRow) (res : FinishResult) (id : Z) : SettlementEvent :=
  let i := row_input r in
  {| ev_id := id; ev_at := fin_at res; ev_kind := "settle"; ev_payer := payer i;
     ev_payTo := payTo i; ev_amountBase := amountBase i;
     ev_outcome := if truthy (fin_errorCode res) then error else settled;
     ev_txHash := Some (txHash i); ev_gasUsed := Some (fin_gasUsed res);
     ev_errorCode := fin_errorCode res |}.

Definition finished_row (r : IntentRow) (res : FinishResult) (id : Z) : IntentRow :=
  {| row_input := row_input r; budget_day := budget_day r; reserved_wei := reserved_wei r;
     terminal_event_id := Some id; actual_cost := Some (fin_actualCost res) |}.

Definition charge_finish (r : IntentRow) (res : FinishResult) (s : JournalDb) : JournalDb :=
  let id := next_rowid (ev_id <$> settlement_events s) in
  let day := budget_day r in
  let scope := payer_scope (payer (row_input r)) in
  let b := budget_days s in
  let b1 := save_spent TOTAL_SCOPE day
              (load_spent TOTAL_SCOPE day b - reserved_wei r + fin_actualCost res) b in
  {| settlement_intents :=
       <[paymentIntentId (row_input r) := finished_row r res id]> (settlement_intents s);
     settlement_events := (settlement_events s ++ [finished_event r res id])%list;
     budget_days := save_spent scope day
       (load_spent scope day b1 - reserved_wei r + fin_actualCost res) b1 |}.

Lemma settle_scope_ok r cost scope s u s' :
  settle_scope r cost scope s = Ok (u, s') →
  0 <= load_spent scope (budgetDay r) (budget_days s) - reservedWei r + cost
  ∧ s' = set_budget (save_spent scope (budgetDay r)
           (load_spent scope (budgetDay r) (budget_days s) - reservedWei r + cost)) s.
Proof. unfold settle_scope. intros H. inv_tx. by inv_checks. Qed.

Lemma settle_scope_runs r cost scope s :
  0 <= load_spent scope (budgetDay r) (budget_days s) - reservedWei r + cost →
  settle_scope r cost scope s
  = Ok (tt, set_budget (save_spent scope (budgetDay r)
           (load_spent scope (budgetDay r) (budget_days s) - reservedWei r + cost)) s).
Proof.
  intros H. unfold settle_scope. rewrite (tbind_run tget _ s s s) by done.
  by erewrite tlift_run by (apply amount_ok; split; [exact H|done]).
Qed.

Lemma on_events_record i s e s' :
  on_events (record i) s = Ok (e, s') →
  e = {| ev_id := next_rowid (ev_id <$> settlement_events s); ev_at := in_at i;
         ev_kind := in_kind i; ev_payer := in_payer i; ev_payTo := in_payTo i;
         ev_amountBase := in_amountBase i; ev_outcome := in_outcome i;
         ev_txHash := in_txHash i; ev_gasUsed := in_gasUsed i;
         ev_errorCode := in_errorCode i |}
  ∧ s' = {| settlement_intents := settlement_intents s;
            settlement_events := (settlement_events s ++ [e])%list;
            budget_days := budget_days s |}.
Proof.
  unfold on_events. destruct (record i (settlement_events s)) as [[e' t]|] eqn:Hr; [|done].
  intros H. inv_tx. apply record_spec in Hr. destruct_and! Hr. subst t. split; [|done].
  destruct e; simpl in *. congruence.
Qed.

Lemma finish_known id res s r e :
  re_0x is_hex 64 id = true → settlement_intents s !! toLowerCase id = Some r →
  terminal (to_record s r) = Some e →
  finish id res s = Ok (to_record s r, s).
Proof.
  intros Hre Hr He. unfold finish, tbind at 1.
  rewrite (proj2 (read_ok id s _ s)) by (split_and!; done).
  unfold read_row. rewrite Hr. cbn [fmap option_fmap option_map]. by rewrite He.
Qed.

Lemma finish_fresh id res s r rec s' :
  settlement_intents s !! toLowerCase id = Some r →
  paymentIntentId (row_input r) = toLowerCase id →
  terminal (to_record s r) = None →
  finish id res s = Ok (rec, s') →
  s' = charge_finish r res s
  ∧ rec = to_record s' (finished_row r res (next_rowid (ev_id <$> settlement_events s)))
  ∧ 0 <= fin_actualCost res.
Proof.
  intros Hr Hkey He H. unfold finish in H.
  rewrite tbind_ok in H. destruct H as (o & s1 & H1 & H). apply read_ok in H1 as (_ & -> & ->).
  unfold read_row in H. rewrite Hr in H. cbn [fmap option_fmap option_map] in H.
  rewrite He in H. inv_tx. inv_checks.
  repeat match goal with
  | H : settle_scope _ _ _ _ = _ |- _ => apply settle_scope_ok in H as [? ->]
  | H : on_events _ _ = _ |- _ => apply on_events_record in H as [-> ->]
  | H : read _ _ = _ |- _ => apply read_ok in H as (_ & -> & ->)
  end.
  unfold read_row in H. simpl in H. rewrite Hkey, lookup_alter, decide_True, Hr in H by done.
  simpl in H. inv_tx.
  assert (Hs : ∀ f : IntentRow → IntentRow, alter f (toLowerCase id) (settlement_intents s)
               = <[toLowerCase id := f r]> (settlement_intents s)).
  { intros f. apply map_eq. intros k. rewrite lookup_alter, lookup_insert.
    case_decide; [subst; by rewrite Hr|done]. }
  split; [|split; [|done]].
  - unfold charge_finish, set_intents, set_budget. simpl. by rewrite Hkey, Hs.
  - unfold to_record, charge_finish, finished_row. simpl. done.
Qed.

(** ** The invariant of the journal *)

(** What a row holds against the day that admitted it: its reservation until it
    is finished, the receipt's cost from then on. *)
Definition charge (r : IntentRow) : Z := default (reserved_wei r) (actual_cost r).

Definition charged (p : IntentRow → bool) (m : gmap string IntentRow) : Z :=
  map_sum (λ r, if p r then charge r else 0) m.
Definition on_day (day : string) (r : IntentRow) : bool := String.eqb (budget_day r) day.
Definition by_payer (p day : string) (r : IntentRow) : bool :=
  String.eqb (payer (row_input r)) p && on_day day r.

Definition terminal_ok (t : events) (r : IntentRow) : Prop :=
  match terminal_event_id r with
  | None => actual_cost r = None
  | Some e => is_Some (actual_cost r) ∧ ∃ ev, ev ∈ t ∧ ev_id ev = e ∧ is_rejected ev = false
                ∧ ev_txHash ev = Some (txHash (row_input r))
  end.

Record journal_ok (s : JournalDb) : Prop := {
  jok_ids : ids_ok (settlement_events s);
  jok_key : ∀ k r, settlement_intents s !! k = Some r →
    paymentIntentId (row_input r) = k ∧ toLowerCase k = k;
  jok_charge : ∀ k r, settlement_intents s !! k = Some r → 0 <= charge r ∧ 0 <= reserved_wei r
    ∧ 0 <= amountBase (row_input r);
  jok_terminal : ∀ k r, settlement_intents s !! k = Some r → terminal_ok (settlement_events s) r;
  jok_total : ∀ day, load_spent TOTAL_SCOPE day (budget_days s)
    = charged (on_day day) (settlement_intents s);
  jok_payer : ∀ p day, load_spent (payer_scope p) day (budget_days s)
    = charged (by_payer p day) (settlement_intents s);
  jok_tx : ∀ k1 k2 r1 r2, settlement_intents s !! k1 = Some r1 →
    settlement_intents s !! k2 = Some r2 →
    txHash (row_input r1) = txHash (row_input r2) → k1 = k2;
  jok_nonce : ∀ k1 k2 r1 r2, settlement_intents s !! k1 = Some r1 →
    settlement_intents s !! k2 = Some r2 →
    same_nonce (row_input r1) (row_input r2) = true → k1 = k2;
}.

Lemma payer_scope_inj p q : payer_scope p = payer_scope q → p = q.
Proof. unfold payer_scope. by intros [= H]. Qed.
Lemma payer_scope_total p : payer_scope p ≠ TOTAL_SCOPE.
Proof. by intros [=]. Qed.

Lemma load_save scope day v b scope' day' :
  load_spent scope' day' (save_spent scope day v b)
  = if bool_decide ((scope, day) = (scope', day')) then v else load_spent scope' day' b.
Proof.
  unfold load_spent, save_spent. rewrite lookup_insert.
  case_decide as H; [by rewrite bool_decide_true|by rewrite bool_decide_false].
Qed.

Lemma charged_insert p k r m :
  m !! k = None → charged p (<[k:=r]> m) = (if p r then charge r else 0) + charged p m.
Proof. apply map_sum_insert. Qed.

Lemma charged_update p k r r' m :
  m !! k = Some r → p r' = p r →
  charged p (<[k:=r']> m) = charged p m + (if p r then charge r' - charge r else 0).
Proof.
  intros Hk Hp. unfold charged. rewrite (map_sum_update _ _ _ r) by done.
  rewrite Hp. destruct (p r); lia.
Qed.

Lemma same_nonce_sym a b : same_nonce a b = same_nonce b a.
Proof.
  unfold same_nonce. rewrite (Z.eqb_sym (chainId _)), (Z.eqb_sym (nonce _)).
  by rewrite String.eqb_sym.
Qed.

Lemma terminal_ok_app t t' r : terminal_ok t r → terminal_ok (t ++ t')%list r.
Proof.
  unfold terminal_ok. destruct (terminal_event_id r); [|done].
  intros (? & ev & ? & ?). split; [done|]. exists ev. set_solver.
Qed.

(** The two series after both scopes moved by [d] on [day]. *)
Lemma charge_series day p d b q day' :
  let b1 := save_spent TOTAL_SCOPE day (load_spent TOTAL_SCOPE day b + d) b in
  let b2 := save_spent (payer_scope p) day (load_spent (payer_scope p) day b1 + d) b1 in
  load_spent TOTAL_SCOPE day' b2
    = load_spent TOTAL_SCOPE day' b + (if String.eqb day day' then d else 0)
  ∧ load_spent (payer_scope q) day' b2
    = load_spent (payer_scope q) day' b
      + (if String.eqb p q && String.eqb day day' then d else 0).
Proof.
  simpl. rewrite !load_save.
  rewrite !(bool_decide_false ((payer_scope _, _) = (TOTAL_SCOPE, _)))
    by (intros [=]).
  rewrite !(bool_decide_false ((TOTAL_SCOPE, _) = (payer_scope _, _)))
    by (intros [=]).
  split.
  - destruct (String.eqb_spec day day') as [<-|Hne].
    + by rewrite bool_decide_true.
    + rewrite bool_decide_false by congruence. lia.
  - destruct (String.eqb_spec p q) as [<-|Hp], (String.eqb_spec day day') as [<-|Hd]; simpl.
    + by rewrite bool_decide_true.
    + rewrite bool_decide_false by congruence. lia.
    + rewrite bool_decide_false by (intros [= H]; done). lia.
    + rewrite bool_decide_false by (intros [= H]; done). lia.
Qed.

Lemma charge_claim_ok row s :
  journal_ok s →
  settlement_intents s !! paymentIntentId (row_input row) = None →
  toLowerCase (paymentIntentId (row_input row)) = paymentIntentId (row_input row) →
  terminal_event_id row = None → actual_cost row = None → 0 <= reserved_wei row →
  0 <= amountBase (row_input row) →
  (∀ k q, settlement_intents s !! k = Some q →
     txHash (row_input q) ≠ txHash (row_input row)
     ∧ same_nonce (row_input q) (row_input row) = false) →
  journal_ok (charge_claim row s).
Proof.
  intros Hok Hnew Hlow Hterm Hcost Hres Hamt Huniq.
  assert (Hch : charge row = reserved_wei row) by (unfold charge; by rewrite Hcost).
  assert (Hold : ∀ (P : string → IntentRow → Prop),
    (∀ k r, settlement_intents s !! k = Some r → P k r) →
    P (paymentIntentId (row_input row)) row →
    ∀ k r, settlement_intents (charge_claim row s) !! k = Some r → P k r).
  { intros P HP Hnr k r. simpl. rewrite lookup_insert. case_decide; naive_solver. }
  pose proof (charge_series (budget_day row) (payer (row_input row)) (reserved_wei row)
                (budget_days s)) as Hser.
  constructor.
  - apply Hok.
  - apply Hold; [apply Hok|by split].
  - apply Hold; [apply Hok|]. rewrite Hch. by split.
  - apply Hold; [apply Hok|]. unfold terminal_ok. by rewrite Hterm.
  - intros day. etrans; [exact (proj1 (Hser "" day))|]. simpl.
    rewrite charged_insert, (jok_total _ Hok) by done. unfold on_day at 2. rewrite Hch. lia.
  - intros p day. etrans; [exact (proj2 (Hser p day))|]. simpl.
    rewrite charged_insert, (jok_payer _ Hok) by done.
    unfold by_payer at 2, on_day. rewrite Hch. lia.
  - intros k1 k2 r1 r2. simpl. rewrite !lookup_insert.
    do 2 case_decide; intros H1 H2 Hs; simplify_eq; try done.
    + apply Huniq in H2. by destruct H2 as [[] _].
    + apply Huniq in H1. by destruct H1 as [[] _].
    + by eapply (jok_tx _ Hok).
  - intros k1 k2 r1 r2. simpl. rewrite !lookup_insert.
    do 2 case_decide; intros H1 H2 Hs; simplify_eq; try done.
    + rewrite same_nonce_sym in Hs. apply Huniq in H2. destruct H2; congruence.
    + apply Huniq in H1. destruct H1; congruence.
    + by eapply (jok_nonce _ Hok).
Qed.

Lemma claim_ok input limits s rec s' :
  journal_ok s → claim input limits s = Ok (rec, s') → journal_ok s'.
Proof.
  intros Hok H.
  destruct (settlement_intents s !! toLowerCase (paymentIntentId input)) as [r|] eqn:Hr.
  - assert (Hre : re_0x is_hex 64 (paymentIntentId input) = true).
    { unfold claim in H. apply tbind_ok in H as (? & ? & [H1 ->]%tlift_ok & _).
      by apply hex_ok in H1 as [? _]. }
    rewrite (claim_known _ _ _ _ Hre Hr) in H. by simplify_eq.
  - apply claim_fresh in H as (row & day & Hrow & _ & _ & Hg & Hf & Ha & _ & _ & Hnew & Hu & ->);
      [|done].
    unfold claimed_row in Hrow. destruct_and! Hrow.
    apply charge_claim_ok; try done.
    + match goal with H : paymentIntentId (row_input row) = _ |- _ => rewrite H end.
      apply toLowerCase_idem.
    + match goal with H : reserved_wei row = _ |- _ => rewrite H end. nia.
    + by match goal with H : amountBase (row_input row) = _ |- _ => rewrite H end.
Qed.

Lemma charge_finish_ok r res s :
  journal_ok s →
  settlement_intents s !! paymentIntentId (row_input r) = Some r →
  terminal_event_id r = None → 0 <= fin_actualCost res →
  journal_ok (charge_finish r res s).
Proof.
  intros Hok Hr Hterm Hcost.
  set (id := next_rowid (ev_id <$> settlement_events s)).
  set (r' := finished_row r res id).
  assert (Hact : actual_cost r = None).
  { pose proof (jok_terminal _ Hok _ _ Hr) as Ht. unfold terminal_ok in Ht.
    by rewrite Hterm in Ht. }
  assert (Hch : charge r = reserved_wei r) by (unfold charge; by rewrite Hact).
  assert (Hch' : charge r' = fin_actualCost res) by done.
  assert (Hupd : ∀ (P : string → IntentRow → Prop),
    (∀ k q, settlement_intents s !! k = Some q → P k q) →
    (P (paymentIntentId (row_input r)) r → P (paymentIntentId (row_input r)) r') →
    ∀ k q, settlement_intents (charge_finish r res s) !! k = Some q → P k q).
  { intros P HP Hnr k q. simpl. rewrite lookup_insert. case_decide; naive_solver. }
  assert (Hin : ∀ k q, settlement_intents (charge_finish r res s) !! k = Some q →
     ∃ q0, settlement_intents s !! k = Some q0 ∧ row_input q0 = row_input q).
  { apply (Hupd (λ k q, ∃ q0, settlement_intents s !! k = Some q0 ∧ row_input q0 = row_input q));
      naive_solver. }
  pose proof (charge_series (budget_day r) (payer (row_input r))
                (fin_actualCost res - reserved_wei r) (budget_days s)) as Hser.
  assert (Hbud : budget_days (charge_finish r res s) =
    let b := budget_days s in
    let b1 := save_spent TOTAL_SCOPE (budget_day r)
       (load_spent TOTAL_SCOPE (budget_day r) b + (fin_actualCost res - reserved_wei r)) b in
    save_spent (payer_scope (payer (row_input r))) (budget_day r)
      (load_spent (payer_scope (payer (row_input r))) (budget_day r) b1
        + (fin_actualCost res - reserved_wei r)) b1).
  { assert (E : ∀ a, a - reserved_wei r + fin_actualCost res
                       = a + (fin_actualCost res - reserved_wei r)) by (intros; lia).
    unfold charge_finish. simpl. by rewrite !E. }
  constructor.
  - simpl. destruct (jok_ids _ Hok) as [Hnd Hpos]. split.
    + rewrite fmap_app. apply NoDup_app. split; [done|]. split; [|apply NoDup_singleton].
      intros x Hx ->%list_elem_of_singleton. by apply next_rowid_notin in Hx.
    + apply Forall_app. split; [done|]. constructor; [apply next_rowid_fresh|done].
  - apply Hupd; [apply Hok|done].
  - apply Hupd; [apply Hok|]. rewrite Hch'. naive_solver.
  - apply Hupd; [intros k q Hk; simpl; by eapply terminal_ok_app, Hok|].
    intros _. unfold terminal_ok. simpl. split; [eauto|].
    eexists. split; [apply elem_of_app; right; by apply list_elem_of_singleton|].
    simpl. split_and!; try done. unfold is_rejected. simpl.
    apply bool_decide_eq_false. by destruct (truthy _).
  - intros day. rewrite Hbud. etrans; [exact (proj1 (Hser "" day))|]. simpl.
    fold id. fold r'.
    rewrite (charged_update _ _ r), (jok_total _ Hok), Hch, Hch' by done.
    change (on_day day r) with (String.eqb (budget_day r) day).
    destruct (String.eqb _ day); lia.
  - intros p day. rewrite Hbud. etrans; [exact (proj2 (Hser p day))|]. simpl.
    fold id. fold r'.
    rewrite (charged_update _ _ r), (jok_payer _ Hok), Hch, Hch' by done.
    change (by_payer p day r)
      with (String.eqb (payer (row_input r)) p && String.eqb (budget_day r) day).
    destruct (String.eqb _ p && String.eqb _ day); lia.
  - intros k1 k2 r1 r2 (q1 & ? & He1)%Hin (q2 & ? & He2)%Hin. rewrite <- He1, <- He2.
    by eapply (jok_tx _ Hok).
  - intros k1 k2 r1 r2 (q1 & ? & He1)%Hin (q2 & ? & He2)%Hin. rewrite <- He1, <- He2.
    by eapply (jok_nonce _ Hok).
Qed.

(** *** Events of the journal *)

Lemma event_by_id_Some id t e : event_by_id id t = Some e → e ∈ t ∧ ev_id e = id.
Proof.
  intros [Hin He]%find_some. apply list_elem_of_In in Hin. bools. by split.
Qed.

Lemma event_by_id_is_Some e t : e ∈ t → is_Some (event_by_id (ev_id e) t).
Proof.
  intros Hin. unfold event_by_id. destruct (List.find _ t) as [e'|] eqn:H; [by eexists|].
  apply list_elem_of_In in Hin. pose proof (find_none _ _ H _ Hin) as Hn. cbv beta in Hn. bools. done.
Qed.

Lemma terminal_None s k r :
  journal_ok s → settlement_intents s !! k = Some r →
  (terminal (to_record s r) = None ↔ terminal_event_id r = None).
Proof.
  intros Hok Hk. pose proof (jok_terminal _ Hok _ _ Hk) as Ht. unfold terminal_ok in Ht.
  unfold to_record. simpl. destruct (terminal_event_id r) as [e|]; [|done]. simpl.
  destruct Ht as (_ & ev & Hin & <- & _). apply event_by_id_is_Some in Hin as [x ->]. done.
Qed.

(** Changes of the event table that keep the terminal events. *)
Lemma events_ok s t :
  journal_ok s → ids_ok t →
  (∀ e, e ∈ settlement_events s → is_rejected e = false → e ∈ t) →
  journal_ok {| settlement_intents := settlement_intents s; settlement_events := t;
                budget_days := budget_days s |}.
Proof.
  intros Hok Hids Hkeep.
  destruct Hok as [Ho1 Ho2 Ho3 Ho4 Ho5 Ho6 Ho7 Ho8]. constructor; simpl; try done.
  intros k r Hk. apply Ho4 in Hk. unfold terminal_ok in *.
  destruct (terminal_event_id r); [|done].
  destruct Hk as (? & ev & Hin & ? & Hrej & ?). split; [done|]. exists ev. naive_solver.
Qed.

Lemma prune_events_spec before keep t n t' :
  prune_events before keep t = Ok (n, t') →
  t' = dropRejectedBeyond keep (dropRejectedBefore before t).
Proof.
  unfold prune_events. intros H. inv_tx. inv_checks.
  match goal with H : tput _ _ = Ok _ |- _ => unfold tput in H; inv_tx end. done.
Qed.

Lemma prune_keeps e before keep t :
  ids_ok t → e ∈ t → is_rejected e = false →
  e ∈ dropRejectedBeyond keep (dropRejectedBefore before t).
Proof.
  intros Hids Hin Hr. apply dropRejectedBeyond_elem; [by apply ids_ok_lfilter|].
  split; [|congruence]. apply elem_of_lfilter. by rewrite Hr.
Qed.

(** ** The journal's step relation

    The facilitator claims and finishes intents, records refusals and prunes;
    every operation is one immediate transaction. *)
Inductive journal_step (s s' : JournalDb) : Prop :=
  | step_claim input limits rec : claim input limits s = Ok (rec, s') → journal_step s s'
  | step_finish id res rec : finish id res s = Ok (rec, s') → journal_step s s'
  | step_record i e : on_events (record i) s = Ok (e, s') → journal_step s s'
  | step_prune before keep n :
      on_events (prune_events before keep) s = Ok (n, s') → journal_step s s'.

Definition empty_journal : JournalDb :=
  {| settlement_intents := ∅; settlement_events := []; budget_days := ∅ |}.

Lemma empty_journal_ok : journal_ok empty_journal.
Proof.
  constructor; simpl.
  - split; constructor.
  - intros k r. by rewrite lookup_empty.
  - intros k r. by rewrite lookup_empty.
  - intros k r. by rewrite lookup_empty.
  - intros day. unfold load_spent, charged. by rewrite lookup_empty, map_sum_empty.
  - intros p day. unfold load_spent, charged. by rewrite lookup_empty, map_sum_empty.
  - intros k1 k2 r1 r2. by rewrite lookup_empty.
  - intros k1 k2 r1 r2. by rewrite lookup_empty.
Qed.

Lemma finish_id id res s rec s' :
  finish id res s = Ok (rec, s') →
  re_0x is_hex 64 id = true ∧ ∃ r, settlement_intents s !! toLowerCase id = Some r.
Proof.
  unfold finish. intros (o & s1 & H1 & H)%tbind_ok. apply read_ok in H1 as (Hre & -> & ->).
  unfold read_row in H. split; [done|].
  destruct (settlement_intents s !! toLowerCase id) as [r|]; [eauto|done].
Qed.

(** A finish that returns either found the row terminal or finished it. *)
Lemma finish_cases id res s rec s' :
  journal_ok s → finish id res s = Ok (rec, s') →
  ∃ r, settlement_intents s !! toLowerCase id = Some r
    ∧ paymentIntentId (row_input r) = toLowerCase id
    ∧ ((s' = s ∧ rec = to_record s r ∧ is_Some (terminal_event_id r))
       ∨ (terminal_event_id r = None ∧ s' = charge_finish r res s
          ∧ rec = to_record s' (finished_row r res (next_rowid (ev_id <$> settlement_events s)))
          ∧ 0 <= fin_actualCost res)).
Proof.
  intros Hok H. destruct (finish_id _ _ _ _ _ H) as [Hre [r Hr]]. exists r.
  destruct (jok_key _ Hok _ _ Hr) as [Hk _]. split_and!; [done..|].
  pose proof (terminal_None _ _ _ Hok Hr) as Ht.
  destruct (terminal (to_record s r)) as [e|] eqn:He.
  - left. rewrite (finish_known _ _ _ _ _ Hre Hr He) in H. simplify_eq.
    split_and!; [done..|]. destruct (terminal_event_id r); [eauto|].
    by destruct Ht as [_ Ht]; discriminate Ht.
  - right. destruct (finish_fresh _ _ _ _ _ _ Hr Hk He H) as (? & ? & ?).
    split_and!; [by apply Ht|done..].
Qed.

Lemma journal_step_ok s s' : journal_ok s → journal_step s s' → journal_ok s'.
Proof.
  intros Hok [input limits rec H|id res rec H|i e H|before keep n H].
  - by eapply claim_ok.
  - apply finish_cases in H as (r & Hr & Hk & [(-> & _)|(Ht & -> & _ & Hc)]); [done| |done].
    apply charge_finish_ok; [done| |done..]. by rewrite Hk.
  - unfold on_events in H. destruct (record i (settlement_events s)) as [[e' t]|] eqn:Hr; [|done].
    inv_tx. pose proof (record_ids_ok _ _ _ _ (jok_ids _ Hok) Hr) as Hids.
    apply record_spec in Hr as [-> _]. apply events_ok; [done..|]. set_solver.
  - unfold on_events in H.
    destruct (prune_events before keep (settlement_events s)) as [[m t]|] eqn:Hp; [|done].
    inv_tx. apply prune_events_spec in Hp as ->. apply events_ok; [done| |].
    + do 2 apply ids_ok_lfilter. by apply Hok.
    + intros e He Hr. apply prune_keeps; [by apply Hok|done..].
Qed.

Lemma reachable_ok s : star journal_step empty_journal s → journal_ok s.
Proof. apply star_invariant, empty_journal_ok. apply journal_step_ok. Qed.

(** *** Rows and terminal events persist *)

Lemma event_by_id_app id t u e :
  event_by_id id t = Some e → event_by_id id (t ++ u)%list = Some e.
Proof.
  unfold event_by_id. induction t as [|a t IH]; simpl; [done|].
  by destruct (ev_id a =? id).
Qed.

Lemma event_by_id_in t e : ids_ok t → e ∈ t → event_by_id (ev_id e) t = Some e.
Proof.
  intros Hids Hin. destruct (event_by_id_is_Some e t Hin) as [e' He].
  pose proof (event_by_id_Some _ _ _ He) as [Hin' Hid].
  rewrite He. f_equal. by eapply ids_ok_inj.
Qed.

(** The record of a finished intent, as [get] gives it. *)
Definition finished_record (s : JournalDb) (k : string) (rec : SettlementRecord) : Prop :=
  read_row k s = Some rec ∧ is_Some (terminal rec).

Lemma finished_row_stays s s' k rec r :
  settlement_intents s !! k = Some r → settlement_intents s' !! k = Some r →
  (∀ e, e ∈ settlement_events s → is_rejected e = false → e ∈ settlement_events s') →
  journal_ok s → ids_ok (settlement_events s') →
  finished_record s k rec → finished_record s' k rec.
Proof.
  intros Hr Hr' Hkeep Hok Hids [Hread [e He]].
  unfold finished_record, read_row in *. rewrite Hr in Hread. rewrite Hr'.
  cbn [fmap option_fmap option_map] in *. injection Hread as <-.
  enough (E : to_record s' r = to_record s r) by (rewrite E; split; [done|by eexists]).
  unfold to_record in *. cbn [terminal] in He. f_equal.
  destruct (terminal_event_id r) as [i|] eqn:Hi; [|done]. cbn in He |- *.
  pose proof (jok_terminal _ Hok _ _ Hr) as Ht. unfold terminal_ok in Ht. rewrite Hi in Ht.
  destruct Ht as (_ & ev & Hin & <- & Hrej & _).
  rewrite !event_by_id_in; [done|apply Hok|done|done|by apply Hkeep].
Qed.

Lemma finished_step s s' k rec :
  journal_ok s → journal_step s s' → finished_record s k rec → finished_record s' k rec.
Proof.
  intros Hok Hstep Hfin. pose proof (journal_step_ok _ _ Hok Hstep) as Hok'.
  assert (Hr : ∃ r, settlement_intents s !! k = Some r ∧ terminal_event_id r ≠ None).
  { destruct Hfin as [Hread [e He]]. unfold read_row in Hread.
    destruct (settlement_intents s !! k) as [r|]; [|done]. exists r. split; [done|].
    injection Hread as <-. intros Hn. unfold to_record in He.
    cbn [terminal] in He. by rewrite Hn in He. }
  destruct Hr as (r & Hr & Hterm).
  enough (H : settlement_intents s' !! k = Some r ∧
    ∀ e, e ∈ settlement_events s → is_rejected e = false → e ∈ settlement_events s').
  { destruct H as [H1 H2].
    exact (finished_row_stays s s' k rec r Hr H1 H2 Hok (jok_ids _ Hok') Hfin). }
  destruct Hstep as [input limits rc H|id res rc H|i e H|before keep n H].
  - destruct (settlement_intents s !! toLowerCase (paymentIntentId input)) as [q|] eqn:Hq.
    + assert (Hre : re_0x is_hex 64 (paymentIntentId input) = true).
      { unfold claim in H. apply tbind_ok in H as (? & ? & [H1 ->]%tlift_ok & _).
        by apply hex_ok in H1 as [? _]. }
      rewrite (claim_known _ _ _ _ Hre Hq) in H. by simplify_eq.
    + apply claim_fresh in H as (row & day & _ & _ & _ & _ & _ & _ & _ & _ & Hnew & _ & ->); [|done].
      simpl. split; [|done]. rewrite lookup_insert_ne; [done|]. congruence.
  - apply finish_cases in H as (q & Hq & Hk & [(-> & _)|(Ht & -> & _ & Hc)]); [done| |done].
    simpl. split; [|set_solver]. rewrite lookup_insert_ne; [done|]. congruence.
  - unfold on_events in H. destruct (record i (settlement_events s)) as [[e' t]|] eqn:Hp; [|done].
    inv_tx. apply record_spec in Hp as [-> _]. simpl. split; [done|]. set_solver.
  - unfold on_events in H.
    destruct (prune_events before keep (settlement_events s)) as [[m t]|] eqn:Hp; [|done].
    inv_tx. apply prune_events_spec in Hp as ->. simpl. split; [done|].
    intros. apply prune_keeps; [by apply Hok|done..].
Qed.

Lemma charged_nonneg p s : journal_ok s → 0 <= charged p (settlement_intents s).
Proof.
  intros Hok. apply map_sum_nonneg. intros k r Hk. apply (jok_charge _ Hok) in Hk.
  destruct (p r); lia.
Qed.

Lemma charge_le_charged p s k r :
  journal_ok s → settlement_intents s !! k = Some r → p r = true →
  charge r <= charged p (settlement_intents s).
Proof.
  intros Hok Hk Hp. unfold charged. rewrite (map_sum_split _ _ k r) by done. rewrite Hp.
  enough (0 <= map_sum (λ r, if p r then charge r else 0) (delete k (settlement_intents s))) by lia.
  apply map_sum_nonneg. intros k' r' Hk'%lookup_delete_Some. destruct Hk' as [_ Hk'].
  apply (jok_charge _ Hok) in Hk'. destruct (p r'); lia.
Qed.

(** An unfinished intent's reservation is still in both counters of its day. *)
Lemma charge_bounds s k r :
  journal_ok s → settlement_intents s !! k = Some r → terminal (to_record s r) = None →
  reserved_wei r <= load_spent TOTAL_SCOPE (budget_day r) (budget_days s)
  ∧ reserved_wei r
    <= load_spent (payer_scope (payer (row_input r))) (budget_day r) (budget_days s).
Proof.
  intros Hok Hr Ht%(terminal_None _ _ _ Hok Hr).
  assert (Hch : charge r = reserved_wei r).
  { pose proof (jok_terminal _ Hok _ _ Hr) as H. unfold terminal_ok in H. rewrite Ht in H.
    unfold charge. by rewrite H. }
  rewrite (jok_total _ Hok), (jok_payer _ Hok), <- Hch.
  split; apply (charge_le_charged _ _ k); try done; unfold by_payer, on_day;
    by rewrite !String.eqb_refl.
Qed.

(** ** What the journal promises *)

(** C9: Over every history of claims, finishes, recorded refusals and prunes, each
    daily gas counter (the total and each payer's) equals the sum over the intents
    admitted that day of what they hold: the reservation until the intent is
    finished, the receipt's actual cost from then on; no counter is negative. *)
Theorem journal_budget_conserved s day p :
  star journal_step empty_journal s →
  load_spent TOTAL_SCOPE day (budget_days s) = charged (on_day day) (settlement_intents s)
  ∧ load_spent (payer_scope p) day (budget_days s)
    = charged (by_payer p day) (settlement_intents s)
  ∧ 0 <= load_spent (payer_scope p) day (budget_days s)
  ∧ 0 <= load_spent TOTAL_SCOPE day (budget_days s).
Proof.
  intros Hok%reachable_ok. rewrite (jok_total _ Hok), (jok_payer _ Hok).
  split_and!; try done; by apply charged_nonneg.
Qed.

(** A claim that admits a new intent stays within both daily limits: what the
    day's intents hold afterwards, its own reservation of gas times the fee cap
    included, is at most the total limit, and the payer's share at most the
    payer's limit; the events are untouched. *)
Theorem claim_within_limits input limits s rec s' :
  star journal_step empty_journal s →
  settlement_intents s !! toLowerCase (paymentIntentId input) = None →
  claim input limits s = Ok (rec, s') →
  let env := envelope input in
  let day := budgetDay rec in
  let mine := by_payer (toLowerCase (payer input)) day in
  isoDay (createdAt input) = Ok day
  ∧ reservedWei rec = gas env * maxFeePerGas env ∧ 0 <= reservedWei rec
  ∧ charged (on_day day) (settlement_intents s')
    = charged (on_day day) (settlement_intents s) + reservedWei rec
  ∧ charged (on_day day) (settlement_intents s') <= lim_total limits
  ∧ charged mine (settlement_intents s')
    = charged mine (settlement_intents s) + reservedWei rec
  ∧ charged mine (settlement_intents s') <= lim_payer limits
  ∧ settlement_events s' = settlement_events s.
Proof.
  intros Hok%reachable_ok Hnone Hc env day mine.
  pose proof (claim_ok _ _ _ _ _ Hok Hc) as Hok'.
  apply claim_fresh in Hc as
    (row & d & Hrow & Hday & -> & Hg & Hf & _ & Hp & Ht & Hnew & Hu & ->); [|done].
  unfold claimed_row in Hrow. destruct_and! Hrow.
  assert (day = d) as Hdd by done. clearbody day. subst day.
  assert (Hch : charge row = reserved_wei row).
  { unfold charge. by match goal with H : actual_cost row = None |- _ => rewrite H end. }
  assert (Hpay : payer (row_input row) = toLowerCase (payer input)) by done.
  assert (Hon : on_day d row = true) by (apply String.eqb_eq; done).
  assert (Hby : mine row = true).
  { unfold mine, by_payer. by rewrite Hpay, String.eqb_refl. }
  rewrite (jok_total _ Hok) in Ht. rewrite Hpay, (jok_payer _ Hok) in Hp.
  unfold charge_claim. cbn [settlement_intents settlement_events reservedWei to_record].
  rewrite !charged_insert by done. rewrite Hon, Hby, Hch.
  split_and!; try done; try lia; subst mine; try lia.
Qed.

(** Claiming is idempotent in the payment intent: after a claim, every later
    claim of the same intent id, in any letter case and with any other contents
    or limits, returns the same record and changes nothing. *)
Theorem claim_idempotent input limits s rec s' input' limits' :
  star journal_step empty_journal s →
  claim input limits s = Ok (rec, s') →
  re_0x is_hex 64 (paymentIntentId input') = true →
  toLowerCase (paymentIntentId input') = toLowerCase (paymentIntentId input) →
  claim input' limits' s' = Ok (rec, s').
Proof.
  intros Hok%reachable_ok Hc Hre Hid.
  destruct (settlement_intents s !! toLowerCase (paymentIntentId input)) as [r|] eqn:Hr.
  - assert (Hre' : re_0x is_hex 64 (paymentIntentId input) = true).
    { unfold claim in Hc. apply tbind_ok in Hc as (? & ? & [H1 ->]%tlift_ok & _).
      by apply hex_ok in H1 as [? _]. }
    rewrite (claim_known _ _ _ _ Hre' Hr) in Hc. simplify_eq.
    apply claim_known; [done|]. by rewrite Hid.
  - apply claim_fresh in Hc as (row & day & Hrow & _ & -> & _ & _ & _ & _ & _ & _ & _ & ->);
      [|done].
    apply claim_known; [done|]. simpl. unfold claimed_row in Hrow. destruct_and! Hrow.
    match goal with H : paymentIntentId (row_input row) = _ |- _ => rewrite H, Hid end.
    apply lookup_insert_eq.
Qed.

(** C10: A finish lands exactly once. The record it returns is terminal, at most
    one event was appended, and after any later history of the journal the intent
    still reads as that record and another finish returns it unchanged, moving
    neither the events nor the counters. *)
Theorem finish_exactly_once id res s rec s1 s2 id' res' :
  star journal_step empty_journal s →
  finish id res s = Ok (rec, s1) →
  star journal_step s1 s2 →
  re_0x is_hex 64 id' = true → toLowerCase id' = toLowerCase id →
  is_Some (terminal rec)
  ∧ (s1 = s ∨ ∃ e, settlement_events s1 = (settlement_events s ++ [e])%list
                   ∧ terminal rec = Some e)
  ∧ finish id' res' s2 = Ok (rec, s2).
Proof.
  intros Hok%reachable_ok Hf Hstar Hre Hid.
  pose proof (journal_step_ok _ _ Hok (step_finish _ _ _ _ _ Hf)) as Hok1.
  apply finish_cases in Hf as (r & Hr & Hk & Hcase); [|done].
  assert (Hfin : finished_record s1 (toLowerCase id) rec
    ∧ (s1 = s ∨ ∃ e, settlement_events s1 = (settlement_events s ++ [e])%list
                   ∧ terminal rec = Some e)).
  { destruct Hcase as [(-> & -> & Ht)|(Ht & -> & -> & _)].
    - split; [|by left]. split; [unfold read_row; by rewrite Hr|].
      apply not_eq_None_Some. rewrite terminal_None by done. by apply not_eq_None_Some.
    - set (n := next_rowid _).
      assert (He : event_by_id n (settlement_events s ++ [finished_event r res n])
                   = Some (finished_event r res n)).
      { exact (event_by_id_in (settlement_events (charge_finish r res s))
                 (finished_event r res n) (jok_ids _ Hok1) ltac:(set_solver)). }
      split; [split|].
      + unfold read_row. simpl. by rewrite Hk, lookup_insert_eq.
      + unfold to_record. simpl. fold n. rewrite He. by eexists.
      + right. exists (finished_event r res n). split; [done|].
        unfold to_record. simpl. by fold n. }
  destruct Hfin as [Hfin Hev]. split; [apply Hfin|]. split; [done|].
  assert (Hfin2 : journal_ok s2 ∧ finished_record s2 (toLowerCase id) rec).
  { apply (star_invariant journal_step
      (λ x, journal_ok x ∧ finished_record x (toLowerCase id) rec) s1 s2); [|done|done].
    intros a b [Ha1 Ha2] Hst. split; [by eapply journal_step_ok|by eapply finished_step]. }
  destruct Hfin2 as [_ [Hread [e He]]]. unfold read_row in Hread.
  destruct (settlement_intents s2 !! toLowerCase id) as [q|] eqn:Hq; [|done].
  injection Hread as <-. eapply finish_known; [done|by rewrite Hid|done].
Qed.

Lemma finish_runs id res s r :
  journal_ok s → re_0x is_hex 64 id = true → settlement_intents s !! toLowerCase id = Some r →
  0 <= fin_actualCost res → 0 <= fin_gasUsed res → 0 <= fin_at res <= MAX_SAFE_INTEGER →
  ∃ rec s', finish id res s = Ok (rec, s') ∧ is_Some (terminal rec).
Proof.
  intros Hok Hre Hr Hcost Hgas Hat.
  destruct (terminal (to_record s r)) as [e|] eqn:He.
  { exists (to_record s r), s. rewrite He. split; [|by eexists]. by eapply finish_known. }
  destruct (charge_bounds _ _ _ Hok Hr He) as [Htot Hpay].
  pose proof (jok_charge _ Hok _ _ Hr) as (_ & _ & Ham).
  pose proof (jok_key _ Hok _ _ Hr) as [Hk _].
  unfold finish.
  rewrite (tbind_run _ _ _ (Some (to_record s r)) s)
    by (apply read_ok; unfold read_row; by rewrite Hr).
  cbv beta iota. rewrite He.
  rewrite (tlift_run _ _ _ (fin_actualCost res)) by by apply amount_ok.
  rewrite (tlift_run _ _ _ (fin_gasUsed res)) by by apply amount_ok.
  rewrite (tlift_run _ _ _ (fin_at res)) by by apply uint_ok.
  erewrite tbind_run by (apply settle_scope_runs; simpl; lia).
  erewrite tbind_run by (apply settle_scope_runs; simpl; rewrite load_save,
    bool_decide_false by (intros [=]); lia).
  match goal with |- context [on_events (record ?i)] =>
    destruct (record_returns i (settlement_events s)) as [row Hrow]; [done..|naive_solver|] end.
  erewrite tbind_run by (unfold on_events, set_budget;
    cbn [settlement_events]; by rewrite Hrow).
  rewrite (tbind_run (tmodify _) _ _ _ _ eq_refl).
  change (rec_input (to_record s r)) with (row_input r). rewrite Hk.
  erewrite tbind_run by (apply read_ok; split_and!; [exact Hre| |];
    unfold read_row; simpl; rewrite ?toLowerCase_idem, ?lookup_alter_eq, ?Hr; done).
  do 2 eexists. split; [done|]. apply record_spec in Hrow as (_ & _).
  unfold to_record. simpl.
  pose proof (event_by_id_is_Some row (settlement_events s ++ [row]) ltac:(set_solver)) as [x Hx].
  rewrite Hx. by eexists.
Qed.

(** A known intent can always be finished: from every reachable journal, with
    a well-formed receipt, [finish] returns; neither counter can go negative and
    the ledger accepts the terminal event. *)
Theorem finish_succeeds id res s r :
  star journal_step empty_journal s →
  re_0x is_hex 64 id = true →
  settlement_intents s !! toLowerCase id = Some r →
  0 <= fin_actualCost res → 0 <= fin_gasUsed res →
  0 <= fin_at res <= MAX_SAFE_INTEGER →
  ∃ rec s', finish id res s = Ok (rec, s') ∧ is_Some (terminal rec).
Proof. intros Hok%reachable_ok. by apply finish_runs. Qed.

(** *** Nonces *)

Lemma max_list_ge (l : list Z) n :
  n ∈ l → ∃ k, foldr (λ n acc, Some (match acc with Some k => Z.max n k | None => n end)) None l
               = Some k ∧ n <= k.
Proof.
  induction l as [|a l IH]; [by intros ?%not_elem_of_nil|].
  intros [->|Hin]%elem_of_cons; simpl; eexists; (split; [done|]).
  - destruct (foldr _ _ l); lia.
  - destruct (IH Hin) as (k & -> & ?). lia.
Qed.

Lemma maxNonce_ge sg ch m k r :
  m !! k = Some r → signer (envelope (row_input r)) = sg →
  chainId (envelope (row_input r)) = ch →
  ∃ n, maxNonce sg ch m = Some n ∧ nonce (envelope (row_input r)) <= n.
Proof.
  intros Hk Hs Hc. apply max_list_ge. apply list_elem_of_omap. exists (k, r).
  split; [by apply elem_of_map_to_list|]. simpl.
  by rewrite Hs, Hc, String.eqb_refl, Z.eqb_refl.
Qed.

(** A nonce handed out is at least the node's pending nonce, still a safe
    integer, and strictly above every nonce the journal has recorded for that
    signer on that chain, so the (chain, signer, nonce) constraint cannot refuse
    the claim that carries it. *)
Theorem nextNonce_fresh signer_ chain pending s n :
  nextNonce signer_ chain pending s = Ok n →
  pending <= n <= MAX_SAFE_INTEGER
  ∧ (∀ k r, settlement_intents s !! k = Some r →
       signer (envelope (row_input r)) = toLowerCase signer_ →
       chainId (envelope (row_input r)) = chain →
       nonce (envelope (row_input r)) < n)
  ∧ (∀ i, signer (envelope i) = toLowerCase signer_ → chainId (envelope i) = chain →
       nonce (envelope i) = n →
       row_exists (λ q, same_nonce (row_input q) i) (settlement_intents s) = false).
Proof.
  intros H. unfold nextNonce in H. inv_tx. inv_checks.
  match goal with |- _ ∧ ?Q ∧ _ => assert (Hlt : Q) end.
  { intros k r Hk Hs Hc. destruct (maxNonce_ge _ _ _ _ _ Hk Hs Hc) as (m & Hm & ?).
    rewrite Hm in *. lia. }
  split_and!; [clear Hlt; destruct (maxNonce _ _ _); lia..|exact Hlt|].
  intros i Hs Hc Hn. apply row_exists_false. intros k r Hk. unfold same_nonce.
  rewrite Hs, Hc, Hn. destruct (Z.eqb_spec (chainId (envelope (row_input r))) chain); [|done].
  destruct (String.eqb_spec (signer (envelope (row_input r))) (toLowerCase signer_)); [|done].
  apply Z.eqb_neq. pose proof (Hlt k r Hk ltac:(done) ltac:(done)). lia.
Qed.

(** ** Witnesses: one intent claimed, then finished *)

Definition ex_hex (n : nat) (c : ascii) : string :=
  String "0" (String "x" (string_of_list_ascii (replicate n c))).
Definition ex_input (c : ascii) (n : Z) : SettlementInput :=
  {| envelope := {| signer := ex_hex 40 "A"; chainId := 8453; nonce := n; gas := 100000;
       maxFeePerGas := 20; maxPriorityFeePerGas := 2 |};
     paymentIntentId := ex_hex 64 c; txHash := ex_hex 64 c; payer := ex_hex 40 "B";
     payTo := ex_hex 40 "C"; amountBase := 5000000; createdAt := 1709164800000 |}.
Definition ex_limits : SettlementLimits := {| lim_total := 5000000; lim_payer := 4000000 |}.
Definition ex_result : FinishResult :=
  {| fin_at := 1709164900000; fin_gasUsed := 90000; fin_actualCost := 1200000;
     fin_errorCode := None |}.
Definition run_state {S A} (d : S) (r : result (A * S)) : S :=
  match r with Ok (_, s) => s | Throw _ => d end.
Definition run_value {S A} (r : result (A * S)) : option A :=
  match r with Ok (a, _) => Some a | Throw _ => None end.
Definition ex_claimed : JournalDb :=
  run_state empty_journal (claim (ex_input "D" 7) ex_limits empty_journal).
Definition ex_finished : JournalDb :=
  run_state empty_journal (finish (ex_hex 64 "d") ex_result ex_claimed).

Lemma run_value_ok {S A} (d : S) (r : result (A * S)) a :
  run_value r = Some a → r = Ok (a, run_state d r).
Proof. destruct r as [[b s]|e]; simpl; congruence. Qed.

Lemma ex_claimed_reachable : star journal_step empty_journal ex_claimed.
Proof.
  econstructor; [constructor|]. eapply step_claim. apply (run_value_ok empty_journal).
  vm_compute. reflexivity.
Qed.

Example ex_payer_limit :
  claim (ex_input "E" 8) {| lim_total := 5000000; lim_payer := 3000000 |} ex_claimed
  = Throw (SettlementBudgetExceeded "payer_budget_exhausted").
Proof. vm_compute. reflexivity. Qed.
Example ex_same_nonce :
  claim (ex_input "E" 7) ex_limits ex_claimed
  = Throw (SQLiteError "UNIQUE constraint failed: settlement_nonce").
Proof. vm_compute. reflexivity. Qed.

Lemma journal_budget_conserved_witness :
  load_spent TOTAL_SCOPE "2024-02-29" (budget_days ex_claimed) = 2000000
  ∧ charged (on_day "2024-02-29") (settlement_intents ex_claimed) = 2000000.
Proof.
  pose proof (journal_budget_conserved ex_claimed "2024-02-29" "" ex_claimed_reachable) as [H _].
  split; [|rewrite <- H]; vm_compute; reflexivity.
Defined.

Lemma claim_within_limits_witness :
  ∃ rec s', claim (ex_input "E" 8) ex_limits ex_claimed = Ok (rec, s')
    ∧ charged (on_day (budgetDay rec)) (settlement_intents s') <= lim_total ex_limits.
Proof.
  destruct (returns_value (claim (ex_input "E" 8) ex_limits ex_claimed)) as (rec & s' & H);
    [vm_compute; reflexivity|].
  exists rec, s'. split; [exact H|].
  exact (proj1 (proj2 (proj2 (proj2 (proj2 (claim_within_limits (ex_input "E" 8) ex_limits ex_claimed rec s' ex_claimed_reachable
    ltac:(vm_compute; reflexivity) H)))))).
Defined.

Lemma claim_idempotent_witness :
  ∃ rec, claim (ex_input "d" 9) ex_limits ex_claimed = Ok (rec, ex_claimed).
Proof.
  destruct (returns_value (claim (ex_input "D" 7) ex_limits empty_journal)) as (rec & s' & H);
    [vm_compute; reflexivity|].
  assert (Hs : ex_claimed = s') by (unfold ex_claimed; rewrite H; reflexivity).
  exists rec. rewrite Hs.
  exact (claim_idempotent (ex_input "D" 7) ex_limits empty_journal rec s' (ex_input "d" 9) ex_limits (star_refl _ _) H
    ltac:(vm_compute; reflexivity) ltac:(vm_compute; reflexivity)).
Defined.

Lemma finish_exactly_once_witness :
  ∃ rec, finish (ex_hex 64 "D") ex_result ex_finished = Ok (rec, ex_finished).
Proof.
  destruct (returns_value (finish (ex_hex 64 "d") ex_result ex_claimed)) as (rec & s' & H);
    [vm_compute; reflexivity|].
  assert (Hs : ex_finished = s') by (unfold ex_finished; rewrite H; reflexivity).
  exists rec. rewrite Hs.
  exact (proj2 (proj2 (finish_exactly_once (ex_hex 64 "d") ex_result ex_claimed rec s' s' (ex_hex 64 "D") ex_result
    ex_claimed_reachable H (star_refl _ _)
    ltac:(vm_compute; reflexivity) ltac:(vm_compute; reflexivity)))).
Defined.

Lemma finish_succeeds_witness :
  ∃ rec s', finish (ex_hex 64 "D") ex_result ex_claimed = Ok (rec, s')
            ∧ is_Some (terminal rec).
Proof.
  destruct (settlement_intents ex_claimed !! toLowerCase (ex_hex 64 "D")) as [r|] eqn:H;
    [|vm_compute in H; discriminate H].
  refine (finish_succeeds (ex_hex 64 "D") ex_result ex_claimed r ex_claimed_reachable _ H _ _ _);
    try (vm_compute; reflexivity); try (simpl; unfold MAX_SAFE_INTEGER; lia).
Defined.

Lemma nextNonce_fresh_witness :
  nextNonce (ex_hex 40 "a") 8453 3 ex_claimed = Ok 8 ∧ 3 <= 8 <= MAX_SAFE_INTEGER.
Proof.
  assert (H : nextNonce (ex_hex 40 "a") 8453 3 ex_claimed = Ok 8) by (vm_compute; reflexivity).
  split; [exact H|]. exact (proj1 (nextNonce_fresh _ _ _ _ _ H)).
Defined.
