(* ===== verification/Scheduler.v ===== *)
(** * The payment scheduler

    [createScheduleStore] of [packages/store/src/scheduler.ts] over the tables
    [payment_jobs] (by id) and [payment_runs] (rows in rowid order).  [claim] and
    [finish] are immediate transactions; [add] and [cancel] are one write each. *)

From Stdlib Require Import ZArith Lia Ascii String.
From stdpp Require Import base gmap strings list fin_maps sorting.
From S2P Require Import Prelude Dates Validate Ledger.
Open Scope string_scope.
Open Scope Z_scope.

Record PaymentSchedule := {
  id : string; resourcePath : string; payTo : string; maxAmountBase : Z;
  maxTotalBase : Z; maxRuns : Z; startsAt : Z; endsAt : Z; intervalMs : Z;
  maxAttempts : Z; retryDelayMs : Z;
}.

Inductive JobStatus := active | paused | cancelled | completed.
#[export] Instance JobStatus_eq_dec : EqDecision JobStatus.
Proof. solve_decision. Defined.

Record ScheduledJob := {
  sched : PaymentSchedule; status : JobStatus; nextAt : Z; runCount : Z;
  attempts : Z; committedBase : Z;
}.

Inductive RunOutcome := unknown | paid | unpaid.
#[export] Instance RunOutcome_eq_dec : EqDecision RunOutcome.
Proof. solve_decision. Defined.

(** A row of [payment_runs]: a [ScheduledRun] and the [finished] flag. *)
Record ScheduledRun := {
  run_id : Z; jobId : string; at_ : Z; attempt : Z; outcome : RunOutcome;
  amountBase : Z; run_code : string; transaction : option string; finished : bool;
}.

Inductive ScheduledResult :=
  | Paid (amount : Z) (tx_ : option string)
  | Unpaid (code : string) (retry : bool)
  | Unknown (code : string).

Record ScheduleDb := {
  payment_jobs : gmap string ScheduledJob;
  payment_runs : list ScheduledRun;
}.
Definition set_jobs (f : gmap string ScheduledJob → gmap string ScheduledJob) (s : ScheduleDb) :=
  {| payment_jobs := f (payment_jobs s); payment_runs := payment_runs s |}.
Definition set_runs (f : list ScheduledRun → list ScheduledRun) (s : ScheduleDb) :=
  {| payment_jobs := payment_jobs s; payment_runs := f (payment_runs s) |}.

Definition safeTime (n : Z) : result unit :=
  throw_when (negb (isSafeInteger n) || (n <? 0) || (8640000000000000 <? n))
    (Error "invalid schedule time").

(** [UPDATE payment_jobs SET ... WHERE id = ?] *)
Definition set_status (st : JobStatus) (j : ScheduledJob) : ScheduledJob :=
  {| sched := sched j; status := st; nextAt := nextAt j; runCount := runCount j;
     attempts := attempts j; committedBase := committedBase j |}.
Definition reserve_slot (j : ScheduledJob) : ScheduledJob :=
  {| sched := sched j; status := paused; nextAt := nextAt j;
     runCount := runCount j + (if attempts j =? 0 then 1 else 0);
     attempts := attempts j + 1;
     committedBase := committedBase j + maxAmountBase (sched j) |}.
Definition settle_job (st : JobStatus) (committed next attempts_ : Z) (j : ScheduledJob) :=
  {| sched := sched j; status := st; nextAt := next; runCount := runCount j;
     attempts := attempts_; committedBase := committed |}.

(** [INSERT INTO payment_runs ... RETURNING *] *)
Definition new_run (t : list ScheduledRun) (id : string) (now attempt_ amount : Z) : ScheduledRun :=
  {| run_id := next_rowid (run_id <$> t); jobId := id; at_ := now; attempt := attempt_;
     outcome := unknown; amountBase := amount; run_code := "IN_PROGRESS_OR_INTERRUPTED";
     transaction := None; finished := false |}.

(** No further run fits the job's window, slots or total. *)
Definition exhausted (j : ScheduledJob) (next attempts_ committed : Z) : bool :=
  (endsAt (sched j) <=? next)
  || ((attempts_ =? 0) && (maxRuns (sched j) <=? runCount j))
  || (maxTotalBase (sched j) <? committed + maxAmountBase (sched j)).

Definition claim (id : string) (now : Z) : tx ScheduleDb (option (ScheduledJob * ScheduledRun)) :=
  let! _ := tlift (safeTime now) in
  let! s := tget in
  match payment_jobs s !! id with
  | None => tret None
  | Some j =>
    if negb (bool_decide (status j = active)) || (now <? nextAt j) || (now <? startsAt (sched j))
    then tret None
    else if exhausted j now (attempts j) (committedBase j) then
      let! _ := tmodify (set_jobs (alter (set_status completed) id)) in tret None
    else
      let! _ := tmodify (set_jobs (alter reserve_slot id)) in
      let row := new_run (payment_runs s) id now (attempts j + 1) (maxAmountBase (sched j)) in
      let! _ := tmodify (set_runs (λ t, t ++ [row])%list) in
      let! s' := tget in
      match payment_jobs s' !! id with
      | Some j' => tret (Some (j', row))
      | None => tthrow (TypeError "null is not an object")
      end
  end.

(** [UPDATE payment_runs SET ... WHERE id = ?] *)
Definition update_run (id : Z) (f : ScheduledRun → ScheduledRun) (t : list ScheduledRun) :=
  (λ r, if run_id r =? id then f r else r) <$> t.
Definition close_run (o : RunOutcome) (amount : Z) (code : string) (txh : option string)
    (r : ScheduledRun) : ScheduledRun :=
  {| run_id := run_id r; jobId := jobId r; at_ := at_ r; attempt := attempt r; outcome := o;
     amountBase := amount; run_code := code; transaction := txh; finished := true |}.

(** [/^[A-Z_]{1,64}$/] *)
Definition CODE (s : string) : bool := re_class (λ c, is_upper c || Ascii.eqb c "_") 1 64 s.

Definition code_of (r : ScheduledResult) : string :=
  match r with Paid _ _ => "PAID" | Unpaid c _ => c | Unknown c => c end.
Definition outcome_of (r : ScheduledResult) : RunOutcome :=
  match r with Paid _ _ => paid | Unpaid _ _ => unpaid | Unknown _ => unknown end.

(** The first slot of the job's grid strictly after [now]. *)
Definition next_slot (j : ScheduledJob) (now : Z) : Z :=
  startsAt (sched j) + ((now - startsAt (sched j)) / intervalMs (sched j) + 1) * intervalMs (sched j).

(** The three-way branch of [finish]: (committed, status, next, attempts, amount). *)
Definition settle_result (j : ScheduledJob) (r : ScheduledRun) (res : ScheduledResult) (now : Z)
    : result (Z * JobStatus * Z * Z * Z) :=
  match res with
  | Paid amount txh =>
      throws (amount <=? 0) || (maxAmountBase (sched j) <? amount)
        with Error "paid amount outside reservation";
      throws (match txh with
              | Some h => negb (String.eqb h "") && negb (re_0x is_hex 64 h)
              | None => false
              end)
        with Error "invalid transaction";
      Ok (committedBase j + (amount - amountBase r), active, next_slot j now, 0, amount)
  | Unpaid _ retry =>
      let committed := committedBase j - amountBase r in
      if retry && (attempts j <? maxAttempts (sched j))
      then Ok (committed, active, now + retryDelayMs (sched j), attempts j, 0)
      else Ok (committed, paused, nextAt j, attempts j, 0)
  | Unknown _ => Ok (committedBase j, paused, nextAt j, attempts j, amountBase r)
  end.

Definition finish (runId : Z) (res : ScheduledResult) (now : Z) : tx ScheduleDb unit :=
  let! _ := tlift (safeTime now) in
  let! s := tget in
  match List.find (λ r, run_id r =? runId) (payment_runs s) with
  | None => tthrow (Error "run not found")
  | Some r =>
    if finished r then tret tt else
    match payment_jobs s !! jobId r with
    | None => tthrow (TypeError "null is not an object")
    | Some j =>
      throws! negb (CODE (code_of res)) with Error "invalid outcome code";
      let! x := tlift (settle_result j r res now) in
      let '(committed, st, next, att, amount) := x in
      let st := if bool_decide (st = active) && exhausted j next att committed
                then completed else st in
      let st := if bool_decide (status j = cancelled) then cancelled else st in
      let! _ := tmodify (set_jobs (alter (settle_job st committed next att) (id (sched j)))) in
      tmodify (set_runs (update_run runId
        (close_run (outcome_of res) amount (code_of res)
           (match res with Paid _ txh => txh | _ => None end))))
    end
  end.

(** [/^[a-zA-Z0-9_-]{1,64}$/] *)
Definition JOB_ID (s : string) : bool :=
  re_class (λ c, is_lower c || is_upper c || is_digit c || Ascii.eqb c "_" || Ascii.eqb c "-")
    1 64 s.
(** [/^\/(?!\/)[a-zA-Z0-9/_-]*$/] *)
Definition PATH (s : string) : bool :=
  match chars s with
  | c :: rest =>
      Ascii.eqb c "/"
      && negb (match rest with d :: _ => Ascii.eqb d "/" | [] => false end)
      && forallb (λ c, is_lower c || is_upper c || is_digit c || Ascii.eqb c "/"
                       || Ascii.eqb c "_" || Ascii.eqb c "-") rest
  | [] => false
  end.

Definition check_schedule (j : PaymentSchedule) : result unit :=
  throws negb (JOB_ID (id j)) || negb (re_0x is_hex 40 (payTo j))
         || re_0x (λ c, Ascii.eqb c "0") 40 (payTo j)
    with Error "invalid schedule identity";
  throws negb (PATH (resourcePath j)) || (512 <? slen (resourcePath j))
    with Error "resource must be a plain seller path without credentials or query";
  let? _ := safeTime (startsAt j) in
  let? _ := safeTime (endsAt j) in
  let? _ := safeTime (intervalMs j) in
  let? _ := safeTime (retryDelayMs j) in
  throws (endsAt j <=? startsAt j) || (intervalMs j <? 1000) || (retryDelayMs j <? 1000)
         || negb (isSafeInteger (maxRuns j)) || (maxRuns j <? 1) || (100000 <? maxRuns j)
         || (maxAttempts j <? 1) || (10 <? maxAttempts j)
    with Error "invalid schedule bounds";
  throws (maxAmountBase j <=? 0) || (maxTotalBase j <? maxAmountBase j)
    with Error "invalid payment caps";
  Ok tt.

Definition stored_schedule (j : PaymentSchedule) : PaymentSchedule :=
  {| id := id j; resourcePath := resourcePath j; payTo := toLowerCase (payTo j);
     maxAmountBase := maxAmountBase j; maxTotalBase := maxTotalBase j; maxRuns := maxRuns j;
     startsAt := startsAt j; endsAt := endsAt j; intervalMs := intervalMs j;
     maxAttempts := maxAttempts j; retryDelayMs := retryDelayMs j |}.

Definition add (j : PaymentSchedule) : tx ScheduleDb ScheduledJob :=
  let! _ := tlift (check_schedule j) in
  let! s := tget in
  throws! bool_decide (is_Some (payment_jobs s !! id j))
    with SQLiteError "UNIQUE constraint failed: payment_jobs.id";
  let row := {| sched := stored_schedule j; status := active; nextAt := startsAt j;
                runCount := 0; attempts := 0; committedBase := 0 |} in
  let! _ := tmodify (set_jobs <[id j := row]>) in
  tret row.

Definition cancel (id : string) : tx ScheduleDb unit :=
  let! s := tget in
  throws! negb (bool_decide (is_Some (payment_jobs s !! id))) with Error "job not found";
  tmodify (set_jobs (alter (set_status cancelled) id)).

(** [ORDER BY next_at, id] *)
Definition due_first (a b : ScheduledJob) : Prop :=
  nextAt a < nextAt b
  ∨ (nextAt a = nextAt b ∧ String.leb (id (sched a)) (id (sched b)) = true).
#[export] Instance due_first_dec : RelDecision due_first.
Proof. unfold due_first. intros a b. apply _. Defined.
Definition list_jobs (s : ScheduleDb) : list ScheduledJob :=
  merge_sort due_first ((map_to_list (payment_jobs s)).*2).

(** [WHERE job_id = ? ORDER BY id] *)
Definition older_run (a b : ScheduledRun) : Prop := run_id a <= run_id b.
#[export] Instance older_run_dec : RelDecision older_run.
Proof. unfold older_run. intros a b. apply _. Defined.
Definition runs (id : string) (s : ScheduleDb) : list ScheduledRun :=
  merge_sort older_run
    (List.filter (λ r, String.eqb (jobId r) id) (payment_runs s)).

(** ** Sums over the runs *)

Definition tally (f : ScheduledRun → Z) (t : list ScheduledRun) : Z := Zsum (f <$> t).

Lemma tally_app f t r : tally f (t ++ [r])%list = tally f t + f r.
Proof. unfold tally. rewrite fmap_app, Zsum_app. simpl. rewrite Zsum_cons. change (Zsum []) with 0. lia. Qed.

Lemma update_run_ids i f t :
  (∀ r, run_id (f r) = run_id r) → run_id <$> update_run i f t = run_id <$> t.
Proof.
  intros Hf. unfold update_run. rewrite <- list_fmap_compose. apply list_fmap_ext.
  intros _ r _. simpl. destruct (run_id r =? i); auto.
Qed.

Lemma update_run_notin i f t : i ∉ (run_id <$> t) → update_run i f t = t.
Proof.
  unfold update_run. induction t as [|a t IH]; [done|].
  rewrite !fmap_cons, not_elem_of_cons. intros [Hne Hn]. rewrite IH by done.
  destruct (Z.eqb_spec (run_id a) i); congruence.
Qed.

Lemma tally_update g i f t r :
  NoDup (run_id <$> t) → r ∈ t → run_id r = i →
  tally g (update_run i f t) = tally g t - g r + g (f r).
Proof.
  unfold tally. induction t as [|a t IH]; [by intros _ ?%not_elem_of_nil|].
  rewrite fmap_cons. intros [Hn Hnd]%NoDup_cons Hin Hi.
  unfold update_run. rewrite !fmap_cons, !Zsum_cons.
  change ((λ r, if run_id r =? i then f r else r) <$> t) with (update_run i f t).
  apply elem_of_cons in Hin as [->|Hin].
  - rewrite Hi, Z.eqb_refl, update_run_notin by congruence. lia.
  - destruct (Z.eqb_spec (run_id a) i) as [He|He].
    + exfalso. apply Hn. rewrite He, <- Hi. by apply list_elem_of_fmap_2.
    + rewrite IH by done. lia.
Qed.

Lemma tally_zero f t : (∀ r, r ∈ t → f r = 0) → tally f t = 0.
Proof.
  unfold tally. induction t as [|a t IH]; intros H; [done|].
  rewrite fmap_cons, Zsum_cons, H, IH by set_solver. done.
Qed.

Lemma tally_le f g t : (∀ r, r ∈ t → f r <= g r) → tally f t <= tally g t.
Proof.
  unfold tally. induction t as [|a t IH]; intros H; [done|].
  rewrite !fmap_cons, !Zsum_cons. pose proof (H a ltac:(set_solver)).
  pose proof (IH ltac:(set_solver)). lia.
Qed.

Lemma tally_nonneg f t : (∀ r, r ∈ t → 0 <= f r) → 0 <= tally f t.
Proof. intros H. rewrite <- (tally_zero (λ _, 0) t) by done. by apply tally_le. Qed.

Lemma tally_ge_elem f t r : (∀ r, r ∈ t → 0 <= f r) → r ∈ t → f r <= tally f t.
Proof.
  unfold tally. induction t as [|a t IH]; intros H Hin; [by apply not_elem_of_nil in Hin|].
  rewrite fmap_cons, Zsum_cons. pose proof (H a ltac:(set_solver)).
  pose proof (tally_nonneg f t ltac:(set_solver)) as Hn. unfold tally in Hn.
  apply elem_of_cons in Hin as [->|Hin]; [lia|].
  pose proof (IH ltac:(set_solver) Hin). lia.
Qed.

(** What a job's runs hold, how many were paid, how many are in flight. *)
Definition of_job (id : string) (r : ScheduledRun) : bool := String.eqb (jobId r) id.
Definition held (id : string) (r : ScheduledRun) : Z := if of_job id r then amountBase r else 0.
Definition is_paid (r : ScheduledRun) : bool := finished r && bool_decide (outcome r = paid).
Definition paid_amount (id : string) (r : ScheduledRun) : Z :=
  if of_job id r && is_paid r then amountBase r else 0.
Definition paid_one (id : string) (r : ScheduledRun) : Z :=
  if of_job id r && is_paid r then 1 else 0.
Definition in_flight (id : string) (r : ScheduledRun) : Z :=
  if of_job id r && negb (finished r) then 1 else 0.

Lemma in_flight_nonneg k t : 0 <= tally (in_flight k) t.
Proof. apply tally_nonneg. intros r _. unfold in_flight. by destruct (_ && _). Qed.

Lemma paid_one_nonneg k t : 0 <= tally (paid_one k) t.
Proof. apply tally_nonneg. intros r _. unfold paid_one. by destruct (_ && _). Qed.

(** ** The invariant *)

Record sched_valid (j : PaymentSchedule) : Prop := {
  sv_amount : 0 < maxAmountBase j <= maxTotalBase j;
  sv_runs : 1 <= maxRuns j;
  sv_interval : 1000 <= intervalMs j;
  sv_retry : 1000 <= retryDelayMs j;
  sv_attempts : 1 <= maxAttempts j;
  sv_window : 0 <= startsAt j < endsAt j;
}.

Record job_ok (t : list ScheduledRun) (k : string) (j : ScheduledJob) : Prop := {
  jo_key : id (sched j) = k;
  jo_sched : sched_valid (sched j);
  jo_committed : committedBase j = tally (held k) t;
  jo_total : committedBase j <= maxTotalBase (sched j);
  jo_slots : tally (paid_one k) t + (if attempts j =? 0 then 0 else 1) <= runCount j;
  jo_runs : runCount j <= maxRuns (sched j);
  jo_attempts : 0 <= attempts j <= maxAttempts (sched j);
  jo_active : status j = active → attempts j < maxAttempts (sched j);
  jo_flight : tally (in_flight k) t <= 1;
  jo_busy : 0 < tally (in_flight k) t →
            (status j = paused ∨ status j = cancelled) ∧ 0 < attempts j;
}.

Record run_ok (jobs : gmap string ScheduledJob) (r : ScheduledRun) : Prop := {
  ro_job : ∃ j, jobs !! jobId r = Some j
    ∧ 0 <= amountBase r <= maxAmountBase (sched j)
    ∧ (finished r = false → amountBase r = maxAmountBase (sched j));
}.

Record schedule_ok (s : ScheduleDb) : Prop := {
  so_ids : NoDup (run_id <$> payment_runs s);
  so_runs : ∀ r, r ∈ payment_runs s → run_ok (payment_jobs s) r;
  so_jobs : ∀ k j, payment_jobs s !! k = Some j → job_ok (payment_runs s) k j;
}.

Lemma job_ok_ext t t' k j :
  tally (held k) t' = tally (held k) t → tally (paid_one k) t' = tally (paid_one k) t →
  tally (in_flight k) t' = tally (in_flight k) t → job_ok t k j → job_ok t' k j.
Proof. intros Hh Hp Hf []. by constructor; rewrite ?Hh, ?Hp, ?Hf. Qed.

Lemma job_ok_status t k j st :
  st ≠ active → (0 < tally (in_flight k) t → st = paused ∨ st = cancelled) →
  job_ok t k j → job_ok t k (set_status st j).
Proof.
  intros Hst Hb []. constructor; simpl; try done. intros H. split; [by apply Hb|naive_solver].
Qed.

Lemma other_job k k' : k ≠ k' → String.eqb k k' = false.
Proof. apply String.eqb_neq. Qed.

Lemma tallies_append t k r :
  jobId r ≠ k →
  tally (held k) (t ++ [r])%list = tally (held k) t
  ∧ tally (paid_one k) (t ++ [r])%list = tally (paid_one k) t
  ∧ tally (in_flight k) (t ++ [r])%list = tally (in_flight k) t.
Proof.
  intros Hne. rewrite !tally_app. unfold held, paid_one, in_flight, of_job.
  rewrite other_job by done. simpl. lia.
Qed.

Lemma tallies_update t k i f r :
  NoDup (run_id <$> t) → r ∈ t → run_id r = i → jobId r ≠ k → jobId (f r) = jobId r →
  tally (held k) (update_run i f t) = tally (held k) t
  ∧ tally (paid_one k) (update_run i f t) = tally (paid_one k) t
  ∧ tally (in_flight k) (update_run i f t) = tally (in_flight k) t.
Proof.
  intros Hnd Hin Hi Hne Hf. rewrite !(tally_update _ _ _ _ r) by done.
  unfold held, paid_one, in_flight, of_job. rewrite Hf, other_job by done. simpl. lia.
Qed.

Lemma no_runs_tally f s k :
  schedule_ok s → payment_jobs s !! k = None →
  (∀ r, of_job k r = false → f r = 0) → tally f (payment_runs s) = 0.
Proof.
  intros Hok Hk Hf. apply tally_zero. intros r Hr. apply Hf.
  destruct (ro_job _ _ (so_runs _ Hok _ Hr)) as (j & Hj & _).
  unfold of_job. apply other_job. congruence.
Qed.

Lemma safeTime_ok n u : safeTime n = Ok u → 0 <= n <= 8640000000000000.
Proof. unfold safeTime. intros H. inv_tx. bools. lia. Qed.

Lemma check_schedule_ok j u : check_schedule j = Ok u → sched_valid (stored_schedule j).
Proof.
  unfold check_schedule. intros H. inv_tx. bools.
  repeat match goal with H : safeTime _ = Ok _ |- _ => apply safeTime_ok in H end.
  constructor; simpl; lia.
Qed.

Lemma add_ok j row s s' : schedule_ok s → add j s = Ok (row, s') → schedule_ok s'.
Proof.
  intros Hok H. unfold add in H. inv_tx. bools.
  match goal with H : check_schedule _ = _ |- _ => apply check_schedule_ok in H end.
  match goal with H : ¬ is_Some _ |- _ => rewrite <- eq_None_not_Some in H end.
  constructor; simpl.
  - apply Hok.
  - intros r Hr. destruct (ro_job _ _ (so_runs _ Hok _ Hr)) as (q & Hq & Ha).
    constructor. exists q. split; [|done]. rewrite lookup_insert_ne; [done|]. congruence.
  - intros k q. rewrite lookup_insert. case_decide as Hk; [subst k; intros [= <-]|apply Hok].
    assert (Hz : ∀ f, (∀ r, of_job (id j) r = false → f r = 0) → tally f (payment_runs s) = 0).
    { intros f. by apply no_runs_tally. }
    assert (Hh : tally (held (id j)) (payment_runs s) = 0)
      by (apply Hz; unfold held; by intros r ->).
    assert (Hp : tally (paid_one (id j)) (payment_runs s) = 0)
      by (apply Hz; unfold paid_one; by intros r ->).
    assert (Hf : tally (in_flight (id j)) (payment_runs s) = 0)
      by (apply Hz; unfold in_flight; by intros r ->).
    match goal with H : sched_valid _ |- _ => pose proof H as []; simpl in * end.
    constructor; simpl; rewrite ?Hh, ?Hp, ?Hf; first [done|lia].
Qed.

Lemma run_ok_alter jobs f k r :
  (∀ j, sched (f j) = sched j) → run_ok jobs r → run_ok (alter f k jobs) r.
Proof.
  intros Hf [(q & Hq & Ha)]. constructor. rewrite lookup_alter.
  case_decide as Hk; [subst k; rewrite Hq|rewrite Hq; by exists q].
  exists (f q). by rewrite Hf.
Qed.

Lemma status_ok k st s :
  schedule_ok s → st ≠ active →
  (0 < tally (in_flight k) (payment_runs s) → st = paused ∨ st = cancelled) →
  schedule_ok (set_jobs (alter (set_status st) k) s).
Proof.
  intros Hok Hst Hb. constructor; simpl.
  - apply Hok.
  - intros r Hr. by apply run_ok_alter, Hok.
  - intros k' q. rewrite lookup_alter. case_decide as Hk; [subst k'|apply Hok].
    destruct (payment_jobs s !! k) as [j|] eqn:Hj; [|done]. simpl. intros [= <-].
    apply job_ok_status; [done..|]. by apply Hok.
Qed.

Lemma reserve_slot_ok k j now s :
  schedule_ok s → payment_jobs s !! k = Some j → status j = active →
  exhausted j now (attempts j) (committedBase j) = false →
  schedule_ok {| payment_jobs := alter reserve_slot k (payment_jobs s);
    payment_runs := (payment_runs s ++
      [new_run (payment_runs s) k now (attempts j + 1) (maxAmountBase (sched j))])%list |}.
Proof.
  intros Hok Hj Hst Hex. set (row := new_run _ _ _ _ _).
  pose proof (so_jobs _ Hok _ _ Hj) as Hjo.
  constructor; simpl.
  - rewrite fmap_app. apply NoDup_app. split; [apply Hok|]. split; [|apply NoDup_singleton].
    intros x Hx ->%list_elem_of_singleton. by apply next_rowid_notin in Hx.
  - intros r [Hr| ->%list_elem_of_singleton]%elem_of_app.
    + by apply run_ok_alter, Hok.
    + constructor. exists (reserve_slot j). simpl. rewrite lookup_alter_eq, Hj.
      split; [done|]. destruct (jo_sched _ _ _ Hjo) as [[? _] _ _ _ _ _]. split; [lia|done].
  - intros k' q. rewrite lookup_alter. case_decide as Hk.
    + subst k'. rewrite Hj. intros [= <-]. destruct Hjo.
      unfold exhausted in Hex. bools.
      assert (Hz : tally (in_flight k) (payment_runs s) = 0).
      { pose proof (in_flight_nonneg k (payment_runs s)).
        destruct (decide (0 < tally (in_flight k) (payment_runs s))) as [Hpos|]; [|lia].
        destruct (jo_busy0 Hpos) as [[?|?] _]; congruence. }
      assert (Hself : of_job k row = true) by apply String.eqb_refl.
      constructor; simpl; rewrite ?tally_app, ?Hz;
        unfold held, paid_one, in_flight; rewrite ?Hself; simpl; try done; try lia.
      * fold (held k). lia.
      * fold (paid_one k). destruct (attempts j =? 0) eqn:E; bools;
          [rewrite E; simpl; lia|]. rewrite (proj2 (Z.eqb_neq (attempts j + 1) 0)) by lia. lia.
      * destruct (attempts j =? 0) eqn:E; [|lia].
        match goal with H : _ && _ = false |- _ => simpl in H; bools end. lia.
      * specialize (jo_active0 Hst). lia.
      * intros _. split; [by left|lia].
    + intros Hq. destruct (tallies_append (payment_runs s) k' row) as (? & ? & ?); [done|].
      eapply job_ok_ext; [done..|]. by apply Hok.
Qed.

Lemma find_run i t r : List.find (λ r, run_id r =? i) t = Some r → r ∈ t ∧ run_id r = i.
Proof. intros [Hin He]%find_some. apply list_elem_of_In in Hin. by bools. Qed.

(** A run in flight is its job's only one, and the job waits for it. *)
Lemma busy_job s r j :
  schedule_ok s → r ∈ payment_runs s → finished r = false →
  payment_jobs s !! jobId r = Some j →
  tally (in_flight (jobId r)) (payment_runs s) = 1
  ∧ (status j = paused ∨ status j = cancelled) ∧ 0 < attempts j
  ∧ amountBase r = maxAmountBase (sched j).
Proof.
  intros Hok Hr Hf Hj. pose proof (so_jobs _ Hok _ _ Hj) as Hjo.
  assert (1 <= tally (in_flight (jobId r)) (payment_runs s)).
  { replace 1 with (in_flight (jobId r) r)
      by (unfold in_flight, of_job; by rewrite String.eqb_refl, Hf).
    apply tally_ge_elem; [|done]. intros q _. unfold in_flight. by destruct (_ && _). }
  pose proof (jo_flight _ _ _ Hjo). destruct (jo_busy _ _ _ Hjo ltac:(lia)).
  destruct (ro_job _ _ (so_runs _ Hok _ Hr)) as (q & Hq & _ & Ham).
  simplify_eq. split_and!; [lia|done..|by apply Ham].
Qed.

Lemma settle_ok s r j st next att o amount code txh :
  schedule_ok s → r ∈ payment_runs s → finished r = false →
  payment_jobs s !! jobId r = Some j → 0 <= amount <= maxAmountBase (sched j) →
  (att = 0 ∧ o = paid ∨ att = attempts j ∧ o ≠ paid) →
  (st = active → att < maxAttempts (sched j)) →
  schedule_ok {| payment_jobs :=
      alter (settle_job st (committedBase j + (amount - amountBase r)) next att)
        (id (sched j)) (payment_jobs s);
    payment_runs := update_run (run_id r) (close_run o amount code txh) (payment_runs s) |}.
Proof.
  intros Hok Hr Hfin Hj Ham Hatt Hact.
  pose proof (so_jobs _ Hok _ _ Hj) as Hjo. pose proof (so_ids _ Hok) as Hnd.
  destruct (busy_job s r j) as (Hfl & Hst & Hpos & Hres); [done..|].
  rewrite (jo_key _ _ _ Hjo). set (f := close_run _ _ _ _).
  constructor; simpl.
  - by rewrite update_run_ids.
  - intros q (q0 & -> & Hq)%list_elem_of_fmap. apply run_ok_alter; [done|].
    destruct (ro_job _ _ (so_runs _ Hok _ Hq)) as (j0 & Hj0 & Ha).
    destruct (Z.eqb_spec (run_id q0) (run_id r)) as [He|He]; [|by apply Hok].
    assert (q0 = r) as ->.
    { apply list_elem_of_lookup in Hq as [a Hq], Hr as [b Hr].
      assert (a = b) as ->; [|congruence]. rewrite NoDup_alt in Hnd.
      apply (Hnd a b (run_id r)); rewrite list_lookup_fmap; [by rewrite Hq, <- He|by rewrite Hr]. }
    constructor. exists j. simpl. split_and!; [done|lia|lia|done].
  - intros k q. rewrite lookup_alter. case_decide as Hk.
    + subst k. rewrite Hj. intros [= <-].
      assert (Hself : ∀ x, of_job (jobId r) x = String.eqb (jobId x) (jobId r)) by done.
      assert (Hself2 : of_job (jobId r) (f r) = true) by (unfold of_job; apply String.eqb_refl).
      destruct Hjo.
      assert (Hheld : tally (held (jobId r)) (update_run (run_id r) f (payment_runs s))
                = committedBase j + (amount - amountBase r)).
      { rewrite (tally_update _ _ _ _ r), <- jo_committed0 by done. unfold held.
        rewrite Hself2, Hself, String.eqb_refl. simpl. lia. }
      assert (Hfl' : tally (in_flight (jobId r)) (update_run (run_id r) f (payment_runs s)) = 0).
      { rewrite (tally_update _ _ _ _ r), Hfl by done. unfold in_flight.
        rewrite Hself2, Hself, String.eqb_refl, Hfin. done. }
      assert (Hpaid : tally (paid_one (jobId r)) (update_run (run_id r) f (payment_runs s))
                = tally (paid_one (jobId r)) (payment_runs s)
                  + (if bool_decide (o = paid) then 1 else 0)).
      { rewrite (tally_update _ _ _ _ r) by done. unfold paid_one, is_paid.
        rewrite Hself2, Hself, String.eqb_refl, Hfin. simpl. lia. }
      rewrite (proj2 (Z.eqb_neq (attempts j) 0)) in jo_slots0 by lia.
      constructor; simpl; rewrite ?Hheld, ?Hfl', ?Hpaid; try done; try lia.
      * destruct Hatt as [[-> ->]|[-> Ho]]; simpl.
        -- lia.
        -- rewrite bool_decide_false by done.
           rewrite (proj2 (Z.eqb_neq (attempts j) 0)) by lia. lia.
    + intros Hq. destruct (tallies_update (payment_runs s) k (run_id r) f r)
        as (? & ? & ?); [done..|].
      eapply job_ok_ext; [done..|]. by apply Hok.
Qed.

(** What a finish of an open run did. *)
Lemma finish_open runId res now s s' r :
  schedule_ok s →
  List.find (λ r, run_id r =? runId) (payment_runs s) = Some r → finished r = false →
  finish runId res now s = Ok (tt, s') →
  ∃ j st0 next att amount st,
    payment_jobs s !! jobId r = Some j ∧ 0 <= now <= 8640000000000000
    ∧ settle_result j r res now
      = Ok (committedBase j + (amount - amountBase r), st0, next, att, amount)
    ∧ 0 <= amount <= maxAmountBase (sched j)
    ∧ (att = 0 ∧ outcome_of res = paid ∨ att = attempts j ∧ outcome_of res ≠ paid)
    ∧ (st0 = active → att < maxAttempts (sched j))
    ∧ st = (if bool_decide (status j = cancelled) then cancelled
            else if bool_decide (st0 = active)
                    && exhausted j next att (committedBase j + (amount - amountBase r))
                 then completed else st0)
    ∧ s' = {| payment_jobs :=
          alter (settle_job st (committedBase j + (amount - amountBase r)) next att)
            (id (sched j)) (payment_jobs s);
        payment_runs := update_run runId (close_run (outcome_of res) amount (code_of res)
           (match res with Paid _ txh => txh | _ => None end)) (payment_runs s) |}.
Proof.
  intros Hok Hfind Hopen H. unfold finish in H. inv_tx. rewrite Hfind, Hopen in H.
  match goal with H : safeTime _ = _ |- _ => apply safeTime_ok in H end.
  destruct (payment_jobs s !! jobId r) as [j|] eqn:Hj; [|inv_tx]. inv_tx.
  destruct (find_run _ _ _ Hfind) as [Hr _].
  destruct (busy_job s r j) as (_ & _ & Hpos & Hres); [done..|].
  destruct (so_jobs _ Hok _ _ Hj) as [_ [] _ _ _ _ [? ?] _ _ _].
  match goal with H : settle_result _ _ _ _ = Ok ?x |- _ => destruct x as [[[[c st0] n] a] m];
    rename H into Hset end.
  inv_tx. exists j, st0, n, a, m. eexists.
  assert (Hc : c = committedBase j + (m - amountBase r) ∧ 0 <= m <= maxAmountBase (sched j)
    ∧ (a = 0 ∧ outcome_of res = paid ∨ a = attempts j ∧ outcome_of res ≠ paid)
    ∧ (st0 = active → a < maxAttempts (sched j))).
  { destruct res as [am txh|code rt|code]; unfold settle_result in Hset.
    - inv_tx. bools. split_and!; try done; try lia. by left.
    - destruct (rt && (attempts j <? maxAttempts (sched j))) eqn:E; inv_tx; bools;
        (split_and!; [lia|lia|lia|by right|]); [intros _; lia|done].
    - inv_tx. split_and!; [lia|lia|lia|by right|done]. }
  destruct Hc as (-> & Hm & Ha & Hst). split_and!; try done; lia.
Qed.

(** ** The scheduler's step relation *)
Inductive schedule_step (s s' : ScheduleDb) : Prop :=
  | step_add input row : add input s = Ok (row, s') → schedule_step s s'
  | step_cancel id : cancel id s = Ok (tt, s') → schedule_step s s'
  | step_claim id now o : claim id now s = Ok (o, s') → schedule_step s s'
  | step_finish runId res now : finish runId res now s = Ok (tt, s') → schedule_step s s'.

Definition empty_schedule : ScheduleDb := {| payment_jobs := ∅; payment_runs := [] |}.

(** What a claim that returns did. *)
Lemma claim_cases id now s o s' :
  claim id now s = Ok (o, s') →
  (o = None ∧ s' = s)
  ∨ ∃ j, payment_jobs s !! id = Some j ∧ status j = active ∧ nextAt j <= now
      ∧ startsAt (sched j) <= now
      ∧ ((o = None ∧ exhausted j now (attempts j) (committedBase j) = true
          ∧ s' = set_jobs (alter (set_status completed) id) s)
         ∨ (exhausted j now (attempts j) (committedBase j) = false
            ∧ let row := new_run (payment_runs s) id now (attempts j + 1)
                           (maxAmountBase (sched j)) in
              o = Some (reserve_slot j, row)
              ∧ s' = {| payment_jobs := alter reserve_slot id (payment_jobs s);
                        payment_runs := (payment_runs s ++ [row])%list |})).
Proof.
  intros H. unfold claim in H. inv_tx.
  destruct (payment_jobs s !! id) as [j|] eqn:Hj; [|inv_tx; by left].
  match goal with H : (if ?c then _ else _) _ = _ |- _ => destruct c eqn:Hc end;
    [inv_tx; by left|].
  right. exists j. bools. split_and!; [done..|].
  destruct (exhausted _ _ _ _) eqn:Hex; inv_tx; [by left|right].
  simpl in H. rewrite lookup_alter_eq, Hj in H. simpl in H. inv_tx. done.
Qed.

Lemma schedule_step_ok s s' : schedule_ok s → schedule_step s s' → schedule_ok s'.
Proof.
  intros Hok [input row H|k H|k now o H|i res now H].
  - by eapply add_ok.
  - unfold cancel in H. inv_tx. apply status_ok; [done..|]. by right.
  - apply claim_cases in H as [[_ ->]|(j & Hj & Hst & _ & _ & [(_ & _ & ->)|(Hex & _ & ->)])].
    + done.
    + apply status_ok; [done..|]. intros Hf.
      destruct (jo_busy _ _ _ (so_jobs _ Hok _ _ Hj) Hf) as [[?|?] _]; congruence.
    + by eapply reserve_slot_ok.
  - destruct (List.find (λ r, run_id r =? i) (payment_runs s)) as [r|] eqn:Hf.
    + destruct (finished r) eqn:Hfin.
      * unfold finish in H. inv_tx. rewrite Hf, Hfin in H. by inv_tx.
      * destruct (find_run _ _ _ Hf) as [Hr <-].
        destruct (finish_open _ _ _ _ _ _ Hok Hf Hfin H)
          as (j & st0 & n & a & m & st & Hj & _ & _ & Hm & Ha & Hact & Hst & ->).
        eapply settle_ok; try done.
        intros ->. apply Hact. repeat case_match; congruence.
    + unfold finish in H. inv_tx. rewrite Hf in H. by inv_tx.
Qed.

Lemma empty_schedule_ok : schedule_ok empty_schedule.
Proof.
  constructor; simpl; [constructor| |].
  - by intros r ?%not_elem_of_nil.
  - intros k j. by rewrite lookup_empty.
Qed.

Lemma schedule_reachable s : star schedule_step empty_schedule s → schedule_ok s.
Proof. apply star_invariant, empty_schedule_ok. apply schedule_step_ok. Qed.

(** ** What a client of the table relies on *)

Lemma safeTime_total n : 0 <= n <= 8640000000000000 → safeTime n = Ok tt.
Proof.
  intros. unfold safeTime, isSafeInteger, MAX_SAFE_INTEGER.
  rewrite (proj2 (Z.leb_le _ _)), !(proj2 (Z.ltb_ge _ _)) by lia. done.
Qed.

Lemma claim_total id now s :
  0 <= now <= 8640000000000000 → ∃ o s', claim id now s = Ok (o, s').
Proof.
  intros Hnow. unfold claim. rewrite (tlift_run _ _ _ tt) by by apply safeTime_total.
  rewrite (tbind_run tget _ s s s) by done.
  destruct (payment_jobs s !! id) as [j|] eqn:Hj; [|by do 2 eexists].
  destruct (_ || _); [by do 2 eexists|]. destruct (exhausted _ _ _ _); [by do 2 eexists|].
  unfold tbind, tmodify, tget. cbn [payment_jobs set_runs set_jobs].
  rewrite lookup_alter_eq, Hj. by do 2 eexists.
Qed.

(** A result [finish] accepts for a run of this job. *)
Record recordable (j : PaymentSchedule) (res : ScheduledResult) : Prop := {
  rc_code : CODE (code_of res) = true;
  rc_paid : ∀ a txh, res = Paid a txh → 0 < a <= maxAmountBase j
    ∧ ∀ h, txh = Some h → h = "" ∨ re_0x is_hex 64 h = true;
}.

(** The row a finished run leaves. *)
Definition closed (res : ScheduledResult) (r : ScheduledRun) : ScheduledRun :=
  close_run (outcome_of res)
    (match res with Paid a _ => a | Unpaid _ _ => 0 | Unknown _ => amountBase r end)
    (code_of res) (match res with Paid _ txh => txh | _ => None end) r.

Lemma recordable_settles j r res now :
  recordable (sched j) res → ∃ x, settle_result j r res now = Ok x.
Proof.
  intros [_ Hp]. destruct res as [a txh|code retry|code]; cbn [settle_result]; [| |by eexists].
  - destruct (Hp _ _ eq_refl) as [Ha Htx].
    rewrite (proj2 (Z.leb_gt a 0)), (proj2 (Z.ltb_ge _ a)) by lia. cbn [orb throw_when rbind].
    destruct txh as [h|]; [|by eexists]. destruct (Htx _ eq_refl) as [->| ->]; [by eexists|].
    rewrite andb_false_r. by eexists.
  - cbv zeta. destruct (_ && _); by eexists.
Qed.

Lemma settle_amount j r res now x :
  settle_result j r res now = Ok x →
  x.2 = match res with Paid a _ => a | Unpaid _ _ => 0 | Unknown _ => amountBase r end.
Proof.
  destruct res as [a txh|code retry|code]; cbn [settle_result]; [|case_match|]; intros Heq; by inv_tx.
Qed.

Lemma update_run_at i f t r : r ∈ t → run_id r = i → f r ∈ update_run i f t.
Proof.
  intros Hr Hi. unfold update_run. apply list_elem_of_fmap. exists r. by rewrite Hi, Z.eqb_refl.
Qed.

Lemma find_run_unique t r : NoDup (run_id <$> t) → r ∈ t → List.find (λ q, run_id q =? run_id r) t = Some r.
Proof.
  induction t as [|q t IH]; [by intros _ ?%not_elem_of_nil|]. rewrite fmap_cons.
  intros [Hn Hnd]%NoDup_cons [->|Hin]%elem_of_cons; cbn [List.find]; [by rewrite Z.eqb_refl|].
  destruct (Z.eqb_spec (run_id q) (run_id r)) as [He|]; [|by apply IH].
  exfalso. apply Hn. rewrite He. by apply list_elem_of_fmap_2.
Qed.

(** An open run can be finished with any recordable result, and holds it then. *)
Lemma finish_records s r j res now :
  schedule_ok s → r ∈ payment_runs s → finished r = false →
  payment_jobs s !! jobId r = Some j → recordable (sched j) res → 0 <= now <= 8640000000000000 →
  ∃ s', finish (run_id r) res now s = Ok (tt, s') ∧ closed res r ∈ payment_runs s'.
Proof.
  intros Hok Hr Hopen Hj Hrec Hnow. unfold finish.
  rewrite (tlift_run _ _ _ tt) by by apply safeTime_total. rewrite (tbind_run tget _ s s s) by done.
  rewrite (find_run_unique _ _ (so_ids _ Hok) Hr), Hopen, Hj, (rc_code _ _ Hrec). cbn [negb].
  destruct (recordable_settles j r res now Hrec) as [x Hx]. pose proof (settle_amount _ _ _ _ _ Hx) as Ham.
  destruct x as [[[[c st] n] a] m]. cbn [snd] in Ham.
  unfold tbind, throw_when, tlift. rewrite Hx. unfold tmodify.
  eexists. split; [reflexivity|]. cbn. subst m. unfold closed. by apply (update_run_at (run_id r) (close_run _ _ _ _)).
Qed.

(** Jobs keep their terms and finished runs their rows, whoever works on the table. *)
Lemma step_keeps s s' : schedule_ok s → schedule_step s s' →
  (∀ k j, payment_jobs s !! k = Some j → ∃ j', payment_jobs s' !! k = Some j' ∧ sched j' = sched j)
  ∧ (∀ r, r ∈ payment_runs s → finished r = true → r ∈ payment_runs s').
Proof.
  intros Hok Hstep.
  assert (Halter : ∀ f q k j, (∀ j, sched (f j) = sched j) → payment_jobs s !! k = Some j →
    ∃ j', alter f q (payment_jobs s) !! k = Some j' ∧ sched j' = sched j).
  { intros f q k j Hf Hj. destruct (decide (q = k)) as [->|]; [rewrite lookup_alter_eq, Hj|rewrite lookup_alter_ne by done]; cbn; eauto. }
  destruct Hstep as [input row H|k H|k now o H|i res now H].
  - unfold add in H. inv_tx. bools. split; [|done]. intros k j Hj. cbn.
    destruct (decide (k = id input)) as [->|Hne]; [|rewrite lookup_insert_ne by done; eauto].
    exfalso. naive_solver.
  - unfold cancel in H. inv_tx. split; [|done]. intros q j. by apply Halter.
  - apply claim_cases in H as [[_ ->]|(j & Hj & _ & _ & _ & [(_ & _ & ->)|(_ & _ & ->)])].
    + split; eauto.
    + split; [|done]. intros q j'. by apply Halter.
    + cbn. split; [intros q j'; by apply Halter|]. intros r Hr _. set_solver.
  - destruct (List.find (λ r, run_id r =? i) (payment_runs s)) as [r|] eqn:Hf.
    + destruct (finished r) eqn:Hfin.
      * unfold finish in H. inv_tx. rewrite Hf, Hfin in H. inv_tx. split; eauto.
      * destruct (find_run _ _ _ Hf) as [Hr <-].
        destruct (finish_open _ _ _ _ _ _ Hok Hf Hfin H)
          as (j & st0 & n & a & m & st & _ & _ & _ & _ & _ & _ & _ & ->). cbn.
        split; [intros q j'; by apply Halter|]. intros q Hq Hqf. unfold update_run.
        apply list_elem_of_fmap. exists q. destruct (Z.eqb_spec (run_id q) (run_id r)) as [He|]; [|done].
        exfalso. pose proof (find_run_unique _ _ (so_ids _ Hok) Hq) as Hu. rewrite He, Hf in Hu. congruence.
    + unfold finish in H. inv_tx. rewrite Hf in H. by inv_tx.
Qed.

Lemma steps_keep s s' : schedule_ok s → star schedule_step s s' →
  schedule_ok s'
  ∧ (∀ k j, payment_jobs s !! k = Some j → ∃ j', payment_jobs s' !! k = Some j' ∧ sched j' = sched j)
  ∧ (∀ r, r ∈ payment_runs s → finished r = true → r ∈ payment_runs s').
Proof.
  intros Hok. induction 1 as [s|s1 s2 s3 _ IH Hstep]; [by eauto|].
  destruct (IH Hok) as (Hok2 & Hj & Hr). destruct (step_keeps _ _ Hok2 Hstep) as [Hj' Hr'].
  split_and!; [by eapply schedule_step_ok| |by auto]. intros k j Hk. destruct (Hj _ _ Hk) as (j2 & Hk2 & <-). eauto.
Qed.

(** ** What the scheduler promises *)

(** C11: Over every history of adds, claims, finishes and cancels, what a job has
    committed is the sum over its runs and stays within its total cap; the amounts
    actually paid never exceed that; each slot is paid at most once and there are
    never more paid runs than slots nor more slots than [maxRuns]; the attempts of
    a slot never pass [maxAttempts]; and at most one run is in flight. *)
Theorem schedule_caps s k j :
  star schedule_step empty_schedule s →
  payment_jobs s !! k = Some j →
  committedBase j = tally (held k) (payment_runs s)
  ∧ 0 <= tally (paid_amount k) (payment_runs s) <= committedBase j
  ∧ committedBase j <= maxTotalBase (sched j)
  ∧ tally (paid_one k) (payment_runs s) <= runCount j <= maxRuns (sched j)
  ∧ 0 <= attempts j <= maxAttempts (sched j)
  ∧ 0 <= tally (in_flight k) (payment_runs s) <= 1.
Proof.
  intros Hok%schedule_reachable Hj. pose proof (so_jobs _ Hok _ _ Hj) as Hjo.
  destruct Hjo. pose proof (in_flight_nonneg k (payment_runs s)).
  assert (Hamt : ∀ r, r ∈ payment_runs s → 0 <= amountBase r).
  { intros r Hr. destruct (ro_job _ _ (so_runs _ Hok _ Hr)) as (? & _ & ? & _). lia. }
  assert (0 <= tally (paid_amount k) (payment_runs s)).
  { apply tally_nonneg. intros r Hr. unfold paid_amount. apply Hamt in Hr. by destruct (_ && _). }
  assert (tally (paid_amount k) (payment_runs s) <= tally (held k) (payment_runs s)).
  { apply tally_le. intros r Hr. unfold paid_amount, held. apply Hamt in Hr.
    destruct (of_job k r), (is_paid r); simpl; lia. }
  destruct (attempts j =? 0); lia.
Qed.

(** No slot is claimed twice. A claim that returns a run leaves that run on
    disk, unfinished, with the full cap reserved; and while a job has an unfinished
    run, from any reachable state, a claim of the job at any valid time returns
    nothing and changes nothing, so a crash or a second worker cannot mint a second
    payment. *)
Theorem no_double_claim s :
  star schedule_step empty_schedule s →
  (∀ id now j r s', claim id now s = Ok (Some (j, r), s') →
     payment_runs s' = (payment_runs s ++ [r])%list ∧ jobId r = id ∧ finished r = false
     ∧ outcome r = unknown ∧ amountBase r = maxAmountBase (sched j)
     ∧ status j = paused ∧ payment_jobs s' !! id = Some j)
  ∧ (∀ r now, r ∈ payment_runs s → finished r = false → 0 <= now <= 8640000000000000 →
       claim (jobId r) now s = Ok (None, s)).
Proof.
  intros Hok%schedule_reachable. split.
  - intros id now j r s' H.
    apply claim_cases in H as [[? _]|(j0 & Hj & _ & _ & _ & [(? & _)|(_ & He & ->)])];
      try done. simplify_eq. simpl. rewrite lookup_alter_eq, Hj. split_and!; done.
  - intros r now Hr Hfin Hnow.
    destruct (ro_job _ _ (so_runs _ Hok _ Hr)) as (j & Hj & _).
    destruct (busy_job s r j Hok Hr Hfin Hj) as (_ & Hst & _).
    unfold claim. rewrite (tlift_run _ _ _ tt).
    + rewrite (tbind_run tget _ s s s) by done. rewrite Hj.
      rewrite bool_decide_false by (destruct Hst; congruence). done.
    + unfold safeTime, isSafeInteger, MAX_SAFE_INTEGER.
      rewrite (proj2 (Z.leb_le _ _)), !(proj2 (Z.ltb_ge _ _)) by lia. done.
Qed.

(** After a paid run the next slot is the first one of the job's grid strictly
    after now: missed slots are skipped, never caught up in a burst; the slot's
    attempts are reset and the commitment is corrected from the reserved cap to the
    amount paid. *)
Theorem paid_skips_missed s runId r j amount txh now s' :
  star schedule_step empty_schedule s →
  List.find (λ r, run_id r =? runId) (payment_runs s) = Some r → finished r = false →
  payment_jobs s !! jobId r = Some j →
  finish runId (Paid amount txh) now s = Ok (tt, s') →
  ∃ j', payment_jobs s' !! jobId r = Some j'
  ∧ now < nextAt j' <= now + intervalMs (sched j)
  ∧ (nextAt j' - startsAt (sched j)) mod intervalMs (sched j) = 0
  ∧ attempts j' = 0 ∧ 0 < amount <= maxAmountBase (sched j)
  ∧ committedBase j' = committedBase j - (maxAmountBase (sched j) - amount)
  ∧ (status j = cancelled → status j' = cancelled)
  ∧ (status j' = active → nextAt j' < endsAt (sched j) ∧ runCount j' < maxRuns (sched j)).
Proof.
  intros Hok%schedule_reachable Hf Hfin Hj H.
  destruct (find_run _ _ _ Hf) as [Hr Hid].
  destruct (finish_open _ _ _ _ _ _ Hok Hf Hfin H)
    as (j0 & st0 & n & a & m & st & Hj0 & _ & Hset & Hm & _ & _ & Hst & ->). simplify_eq.
  destruct (busy_job s r j) as (_ & Hst' & _ & Hres); [done..|].
  destruct (so_jobs _ Hok _ _ Hj) as [Hkey [] _ _ _ _ _ _ _ _].
  simpl. rewrite Hkey, lookup_alter_eq, Hj. eexists. split; [done|]. simpl.
  unfold settle_result in Hset. inv_tx. bools. unfold next_slot.
  set (d := now - startsAt (sched j)) in *. set (i := intervalMs (sched j)) in *.
  pose proof (Z.div_mod d i ltac:(lia)). pose proof (Z.mod_pos_bound d i ltac:(lia)).
  split_and!; try lia; try done.
  - replace (startsAt (sched j) + (d / i + 1) * i - startsAt (sched j))
      with ((d / i + 1) * i) by lia. apply Z.mod_mul. lia.
  - intros Hc. by rewrite bool_decide_true by done.
  - case_bool_decide; [done|]. unfold exhausted. simpl.
    destruct (_ || _) eqn:Hex; [done|]. intros _. bools. simpl in *. bools. unfold next_slot in *.
    lia.
Qed.

(** Finishing is idempotent: once a finish of a run has returned, any later
    finish of the same run, with any valid time and any result, changes nothing. *)
Theorem finish_idempotent s runId res now s' res' now' :
  star schedule_step empty_schedule s →
  finish runId res now s = Ok (tt, s') →
  0 <= now' <= 8640000000000000 →
  finish runId res' now' s' = Ok (tt, s').
Proof.
  intros Hok%schedule_reachable H Hnow.
  enough (Hf : ∃ r, List.find (λ r, run_id r =? runId) (payment_runs s') = Some r
                    ∧ finished r = true).
  { destruct Hf as (r & Hf & Hfin). unfold finish. rewrite (tlift_run _ _ _ tt).
    - rewrite (tbind_run tget _ s' s' s') by done. by rewrite Hf, Hfin.
    - by apply safeTime_total. }
  destruct (List.find (λ r, run_id r =? runId) (payment_runs s)) as [r|] eqn:Hf.
  - destruct (finished r) eqn:Hfin.
    + unfold finish in H. inv_tx. rewrite Hf, Hfin in H. inv_tx. eauto.
    + destruct (finish_open _ _ _ _ _ _ Hok Hf Hfin H)
        as (j & st0 & n & a & m & st & _ & _ & _ & _ & _ & _ & _ & ->). simpl.
      set (f := close_run _ _ _ _). exists (f r). split; [|done].
      clear -Hf. induction (payment_runs s) as [|q t IH]; [done|].
      simpl in *. destruct (run_id q =? runId) eqn:E; simpl; rewrite E; [by simplify_eq|auto].
  - unfold finish in H. inv_tx. rewrite Hf in H. by inv_tx.
Qed.

(** ** Witnesses: a job claimed at its second slot and paid late *)

Definition ex_schedule : PaymentSchedule :=
  {| id := "daily-coffee"; resourcePath := "/shop/latte";
     payTo := "0xAAAAAAAAAAAAAAAAAAAAAAAAAAAAAAAAAAAAAAAA"; maxAmountBase := 5000;
     maxTotalBase := 12000; maxRuns := 3; startsAt := 1000000; endsAt := 9000000;
     intervalMs := 60000; maxAttempts := 2; retryDelayMs := 5000 |}.
Definition run_state_of {A} (r : result (A * ScheduleDb)) : ScheduleDb :=
  match r with Ok (_, s) => s | Throw _ => empty_schedule end.
Definition ex_added := run_state_of (add ex_schedule empty_schedule).
Definition ex_claimed := run_state_of (claim "daily-coffee" 1070000 ex_added).
Definition ex_finished := run_state_of (finish 1 (Paid 4200 None) 1250000 ex_claimed).

Lemma ex_reachable : star schedule_step empty_schedule ex_claimed.
Proof.
  eapply star_step; [eapply star_step; [apply star_refl|]|].
  - eapply (step_add _ ex_added ex_schedule). vm_compute. reflexivity.
  - eapply (step_claim _ _ "daily-coffee" 1070000). vm_compute. reflexivity.
Qed.

Example ex_grid : nextAt <$> payment_jobs ex_finished !! "daily-coffee" = Some 1300000.
Proof. vm_compute. reflexivity. Qed.
Example ex_second : claim "daily-coffee" 1080000 ex_claimed = Ok (None, ex_claimed).
Proof. vm_compute. reflexivity. Qed.
Example ex_bad_amount :
  finish 1 (Paid 6000 None) 1250000 ex_claimed = Throw (Error "paid amount outside reservation").
Proof. vm_compute. reflexivity. Qed.

Lemma schedule_caps_witness :
  ∃ j, payment_jobs ex_claimed !! "daily-coffee" = Some j ∧ committedBase j = 5000
       ∧ committedBase j <= maxTotalBase (sched j).
Proof.
  destruct (payment_jobs ex_claimed !! "daily-coffee") as [j|] eqn:H;
    [|vm_compute in H; discriminate H].
  exists j. split; [reflexivity|]. split; [vm_compute in H; injection H as <-; reflexivity|].
  exact (proj1 (proj2 (proj2 (schedule_caps ex_claimed "daily-coffee" j ex_reachable H)))).
Defined.

Lemma no_double_claim_witness :
  ∃ r, r ∈ payment_runs ex_claimed ∧ claim (jobId r) 1090000 ex_claimed = Ok (None, ex_claimed).
Proof.
  eexists. split; [vm_compute; left|].
  apply (no_double_claim ex_claimed ex_reachable); [vm_compute; left|reflexivity|lia].
Defined.

Lemma paid_skips_missed_witness :
  ∃ j', payment_jobs ex_finished !! "daily-coffee" = Some j'
        ∧ 1250000 < nextAt j' <= 1250000 + 60000.
Proof.
  destruct (List.find (λ r, run_id r =? 1) (payment_runs ex_claimed)) as [r|] eqn:Hr;
    [|vm_compute in Hr; discriminate Hr].
  destruct (payment_jobs ex_claimed !! jobId r) as [j|] eqn:Hj;
    [|vm_compute in Hr; injection Hr as <-; vm_compute in Hj; discriminate Hj].
  assert (Hf : finished r = false) by (vm_compute in Hr; injection Hr as <-; reflexivity).
  assert (Hi : jobId r = "daily-coffee") by (vm_compute in Hr; injection Hr as <-; reflexivity).
  assert (Hs : intervalMs (sched j) = 60000)
    by (rewrite Hi in Hj; vm_compute in Hj; injection Hj as <-; reflexivity).
  destruct (paid_skips_missed ex_claimed 1 r j 4200 None 1250000 ex_finished ex_reachable Hr Hf Hj)
    as (j' & Hj' & Hn & _); [vm_compute; reflexivity|].
  exists j'. rewrite Hi in Hj'. rewrite Hs in Hn. split; [exact Hj'|exact Hn].
Defined.

Lemma finish_idempotent_witness :
  finish 1 (Unpaid "LATE" true) 1300000 ex_finished = Ok (tt, ex_finished).
Proof.
  apply (finish_idempotent ex_claimed 1 (Paid 4200 None) 1250000);
    [exact ex_reachable|vm_compute; reflexivity|lia].
Defined.
