(* ===== verification/Catalog.v ===== *)
(** * Sellers, items and orders

    [createSellers], [createItems], [createOrders], [mintTicket] and [migrate] of
    [packages/store/src/index.ts] over the tables of [schema.ts].  [sellers] is
    keyed by slug; [items] and [orders] have integer ids and are the lists of
    their rows in rowid order.  SQLite checks a row's CHECK constraints, then its
    UNIQUE ones, then its foreign keys. *)

From Stdlib Require Import ZArith Lia Ascii String.
From stdpp Require Import base gmap strings list fin_maps sorting.
From S2P Require Import Prelude Validate Ledger.
Open Scope string_scope.
Open Scope Z_scope.

Inductive SellerKind := hosted | external.
#[export] Instance SellerKind_eq_dec : EqDecision SellerKind.
Proof. solve_decision. Defined.

Record SellerInput := {
  si_slug : string; si_kind : SellerKind; si_name : string; si_payTo : string;
  si_baseUrl : option string; si_manageTokenHash : option string;
  si_contact : option string; si_internal : bool; si_createdAt : Z;
}.
Record SellerRow := {
  sr_slug : string; sr_kind : SellerKind; sr_name : string; sr_pay_to : string;
  sr_base_url : option string; sr_manage_token_hash : option string;
  sr_contact : option string; sr_internal : Z; sr_created_at : Z;
}.
Record Seller := {
  slug : string; kind : SellerKind; name : string; payTo : string;
  baseUrl : option string; manageTokenHash : option string; contact : option string;
  internal : bool; createdAt : Z;
}.
Record ItemInput := {
  ii_sellerSlug : string; ii_key : string; ii_name : string; ii_description : string;
  ii_priceBase : Z; ii_resourceUrl : option string; ii_createdAt : Z;
}.
Record Item := {
  item_id : Z; item_seller : string; item_key : string; item_name : string;
  item_description : string; item_priceBase : Z; item_resourceUrl : option string;
  item_createdAt : Z;
}.
Record OrderInput := {
  oi_sellerSlug : string; oi_itemKey : string; oi_paymentIntentId : string;
  oi_payer : string; oi_amountBase : Z; oi_txHash : option string;
  oi_status : string; oi_createdAt : Z;
}.
Record Order := {
  order_id : Z; order_seller : string; order_item : string; order_intent : string;
  order_ticket : string; order_payer : string; order_amountBase : Z;
  order_txHash : option string; order_status : string; order_createdAt : Z;
}.

Record CatalogDb := {
  sellers : gmap string SellerRow; items : list Item; orders : list Order;
}.
Definition set_sellers f (s : CatalogDb) :=
  {| sellers := f (sellers s); items := items s; orders := orders s |}.
Definition set_items f (s : CatalogDb) :=
  {| sellers := sellers s; items := f (items s); orders := orders s |}.
Definition set_orders f (s : CatalogDb) :=
  {| sellers := sellers s; items := items s; orders := f (orders s) |}.

(** ** Sellers *)

Definition toSeller (r : SellerRow) : Seller :=
  {| slug := sr_slug r; kind := sr_kind r; name := sr_name r; payTo := sr_pay_to r;
     baseUrl := sr_base_url r; manageTokenHash := sr_manage_token_hash r;
     contact := sr_contact r; internal := sr_internal r =? 1; createdAt := sr_created_at r |}.

(** [CHECK ((kind = 'external') = (base_url IS NOT NULL))] *)
Definition sellers_base_url (k : SellerKind) (url : option string) : bool :=
  Bool.eqb (bool_decide (k = external)) (bool_decide (is_Some url)).
(** Another seller already has the token. *)
Definition token_taken (s : string) (h : option string) (m : gmap string SellerRow) : bool :=
  match h with
  | None => false
  | Some h => existsb (λ kr : string * SellerRow,
      negb (String.eqb kr.1 s) && bool_decide (sr_manage_token_hash kr.2 = Some h)) (map_to_list m)
  end.

Definition upsert_seller (i : SellerInput) : tx CatalogDb Seller :=
  let! slug_ := tlift (slugKey (JStr (si_slug i)) "slug") in
  let! token := tlift (optionalTokenHash (si_manageTokenHash i)) in
  let! internal_ := tlift (flag (JBool (si_internal i)) "internal") in
  let! created := tlift (millis (JNum (si_createdAt i)) "createdAt") in
  throws! negb (sellers_base_url (si_kind i) (si_baseUrl i))
    with SQLiteError "CHECK constraint failed: sellers_base_url";
  let! s := tget in
  throws! token_taken slug_ token (sellers s)
    with SQLiteError "UNIQUE constraint failed: sellers.manage_token_hash";
  let row := {| sr_slug := slug_; sr_kind := si_kind i; sr_name := si_name i;
    sr_pay_to := si_payTo i; sr_base_url := si_baseUrl i; sr_manage_token_hash := token;
    sr_contact := si_contact i; sr_internal := internal_;
    sr_created_at := match sellers s !! slug_ with
                     | Some old => sr_created_at old
                     | None => created
                     end |} in
  let! _ := tmodify (set_sellers <[slug_ := row]>) in
  tret (toSeller row).

Definition get_seller (s : string) (db : CatalogDb) : result (option Seller) :=
  let? s := slugKey (JStr s) "slug" in Ok (toSeller <$> sellers db !! s).
Definition getByManageTokenHash (h : string) (db : CatalogDb) : result (option Seller) :=
  let? h := tokenHash (JStr h) in
  Ok (toSeller <$> List.find (λ r, bool_decide (sr_manage_token_hash r = Some h))
                     ((map_to_list (sellers db)).*2)).

(** [ORDER BY created_at, slug] *)
Definition oldest_seller (a b : SellerRow) : Prop :=
  sr_created_at a < sr_created_at b
  ∨ (sr_created_at a = sr_created_at b ∧ String.leb (sr_slug a) (sr_slug b) = true).
#[export] Instance oldest_seller_dec : RelDecision oldest_seller.
Proof. unfold oldest_seller. intros a b. apply _. Defined.
Definition list_sellers (includeInternal : bool) (db : CatalogDb) : list Seller :=
  toSeller <$> merge_sort oldest_seller
    (List.filter (λ r, includeInternal || (sr_internal r =? 0)) ((map_to_list (sellers db)).*2)).

(** ** Items *)

Definition is_item (s k : string) (i : Item) : bool :=
  String.eqb (item_seller i) s && String.eqb (item_key i) k.

Definition upsert_item (i : ItemInput) : tx CatalogDb Item :=
  let! s_ := tlift (slugKey (JStr (ii_sellerSlug i)) "sellerSlug") in
  let! k_ := tlift (slugKey (JStr (ii_key i)) "key") in
  let! price := tlift (amountText (JBig (ii_priceBase i)) "priceBase") in
  let! created := tlift (millis (JNum (ii_createdAt i)) "createdAt") in
  let! s := tget in
  match List.find (is_item s_ k_) (items s) with
  | Some old =>
      let row := {| item_id := item_id old; item_seller := s_; item_key := k_;
        item_name := ii_name i; item_description := ii_description i;
        item_priceBase := price; item_resourceUrl := ii_resourceUrl i;
        item_createdAt := item_createdAt old |} in
      let! _ := tmodify (set_items (fmap (λ q, if is_item s_ k_ q then row else q))) in
      tret row
  | None =>
      throws! negb (bool_decide (is_Some (sellers s !! s_)))
        with SQLiteError "FOREIGN KEY constraint failed";
      let row := {| item_id := next_rowid (item_id <$> items s); item_seller := s_;
        item_key := k_; item_name := ii_name i; item_description := ii_description i;
        item_priceBase := price; item_resourceUrl := ii_resourceUrl i;
        item_createdAt := created |} in
      let! _ := tmodify (set_items (λ t, t ++ [row])%list) in
      tret row
  end.

Definition get_item (s k : string) (db : CatalogDb) : result (option Item) :=
  let? s := slugKey (JStr s) "sellerSlug" in
  let? k := slugKey (JStr k) "key" in
  Ok (List.find (is_item s k) (items db)).
(** The list is in rowid order, which is [ORDER BY id]. *)
Definition items_of (s : string) (db : CatalogDb) : result (list Item) :=
  let? s := slugKey (JStr s) "slug" in
  Ok (List.filter (λ i, String.eqb (item_seller i) s) (items db)).

(** ** Tickets *)

Definition TICKET_ALPHABET : string := "0123456789abcdefghjkmnpqrstvwxyz".
Definition TICKET_BYTES : nat := 10.

(** JavaScript's signed 32-bit result of a bit operation. *)
Definition int32 (z : Z) : Z := (z + 2147483648) mod 4294967296 - 2147483648.

Definition alphabet_at (i : Z) : ascii :=
  default zero (chars TICKET_ALPHABET !! Z.to_nat i).

(** The inner [while (bits >= 5)], which runs at most [fuel] times. *)
Fixpoint drain (fuel : nat) (buffered bits : Z) (out : list ascii) : Z * list ascii :=
  match fuel with
  | O => (bits, out)
  | S fuel' =>
      if 5 <=? bits then
        let bits := bits - 5 in
        drain fuel' buffered bits
          (out ++ [alphabet_at (Z.land (Z.shiftr buffered bits) 31)])%list
      else (bits, out)
  end.
(** One turn of the loop over the bytes: (bits, buffered, out). *)
Definition mint_byte (st : Z * Z * list ascii) (byte : Z) : Z * Z * list ascii :=
  let '(bits, buffered, out) := st in
  let buffered := int32 (Z.lor (int32 (Z.shiftl buffered 8)) byte) in
  let '(bits, out) := drain 3 buffered (bits + 8) out in
  (bits, buffered, out).
(** [mintTicket], of the random bytes it drew. *)
Definition mintTicket (bytes : list Z) : string :=
  string_of_list_ascii (foldl mint_byte (0, 0, []) bytes).2.

(** [[0-9a-hjkmnp-tv-z]] *)
Definition ticket_char (c : ascii) : bool :=
  is_digit c || in_range "a" "h" c || Ascii.eqb c "j" || Ascii.eqb c "k"
  || Ascii.eqb c "m" || Ascii.eqb c "n" || in_range "p" "t" c || in_range "v" "z" c.
Definition TICKET : string → bool := re_class ticket_char 16 16.
Definition ticketKey : jsval → result string :=
  matching TICKET (TypeError "ticket must be 16 lowercase Crockford base32 characters").

(** ** Orders *)

Definition by_intent (i : string) (t : list Order) : option Order :=
  List.find (λ o, String.eqb (order_intent o) i) t.

(** [createOnce]; [bytes] is what [randomBytes] returned to [mintTicket]. *)
Definition createOnce (o : OrderInput) (bytes : list Z) : tx CatalogDb Order :=
  let! s_ := tlift (slugKey (JStr (oi_sellerSlug o)) "sellerSlug") in
  let! k_ := tlift (slugKey (JStr (oi_itemKey o)) "itemKey") in
  let ticket := mintTicket bytes in
  let! amount_ := tlift (amountText (JBig (oi_amountBase o)) "amountBase") in
  let! created := tlift (millis (JNum (oi_createdAt o)) "createdAt") in
  let! s := tget in
  match by_intent (oi_paymentIntentId o) (orders s) with
  | Some existing => tret existing
  | None =>
      throws! existsb (λ q, String.eqb (order_ticket q) ticket) (orders s)
        with SQLiteError "UNIQUE constraint failed: orders.ticket";
      throws! negb (existsb (is_item s_ k_) (items s))
        with SQLiteError "FOREIGN KEY constraint failed";
      let row := {| order_id := next_rowid (order_id <$> orders s); order_seller := s_;
        order_item := k_; order_intent := oi_paymentIntentId o; order_ticket := ticket;
        order_payer := oi_payer o; order_amountBase := amount_; order_txHash := oi_txHash o;
        order_status := oi_status o; order_createdAt := created |} in
      let! _ := tmodify (set_orders (λ t, t ++ [row])%list) in
      tret row
  end.

Definition getByIntent (i : string) (db : CatalogDb) : option Order := by_intent i (orders db).
Definition getByTicket (s ticket : string) (db : CatalogDb) : result (option Order) :=
  let? s := slugKey (JStr s) "sellerSlug" in
  let? t := ticketKey (JStr ticket) in
  Ok (List.find (λ o, String.eqb (order_seller o) s && String.eqb (order_ticket o) t) (orders db)).

(** [ORDER BY created_at DESC, id DESC] *)
Definition newest_order (a b : Order) : Prop :=
  order_createdAt b < order_createdAt a
  ∨ (order_createdAt a = order_createdAt b ∧ order_id b <= order_id a).
#[export] Instance newest_order_dec : RelDecision newest_order.
Proof. unfold newest_order. intros a b. apply _. Defined.
Definition orders_of (s : string) (limit : Z) (db : CatalogDb) : result (list Order) :=
  let? s := slugKey (JStr s) "slug" in
  let? n := positiveInteger (JNum limit) "limit" in
  Ok (newest_k newest_order (Z.to_nat n)
        (List.filter (λ o, String.eqb (order_seller o) s) (orders db))).

(** [GROUP BY seller_slug], then the loop that adds the groups up. *)
Definition order_counts (since : Z) (t : list Order) : gmap string Z :=
  foldl (λ m o, <[order_seller o := default 0 (m !! order_seller o) + 1]> m) ∅
    (List.filter (λ o, since <=? order_createdAt o) t).
Definition order_summary (sinceMs : Z) (db : CatalogDb) : result (Z * gmap string Z) :=
  let? since := millis (JNum sinceMs) "sinceMs" in
  let bySeller := order_counts since (orders db) in
  Ok (foldl (λ total sn, total + sn.2) 0 (map_to_list bySeller), bySeller).

(** ** Opening a file *)

Definition SCHEMA_VERSION : Z := 7.
Inductive Migration := keep_schema | create_schema.
(** [migrate]: what is done to a file of the given [user_version]. *)
Definition migrate (user_version : option Z) (path : string) : result Migration :=
  let current := default 0 user_version in
  if current =? SCHEMA_VERSION then Ok keep_schema else
  throws SCHEMA_VERSION <? current
    with Error ("store " ++ path ++ " is schema version " ++ show_Z current
                ++ "; this build supports up to " ++ show_Z SCHEMA_VERSION);
  throws negb (current =? 0)
    with Error ("store " ++ path ++ " is schema version " ++ show_Z current
                ++ "; this build creates version " ++ show_Z SCHEMA_VERSION
                ++ " and does not migrate - move the file aside");
  Ok create_schema.

(** ** Tickets are the base-32 digits of the 80 bits *)

Definition is_byte (b : Z) : Prop := 0 <= b < 256.
Definition big_endian (bytes : list Z) : Z := foldl (λ n b, 256 * n + b) 0 bytes.

(** The [w] lowest base-32 digits of [n], most significant first. *)
Fixpoint digits32 (w : nat) (n : Z) : list ascii :=
  match w with
  | O => []
  | S w' => (digits32 w' (n / 32) ++ [alphabet_at (n mod 32)])%list
  end.

Lemma int32_quot z : ∃ k, int32 z = z + k * 4294967296.
Proof.
  exists (- ((z + 2147483648) / 4294967296)). unfold int32.
  pose proof (Z.div_mod (z + 2147483648) 4294967296). lia.
Qed.

Lemma int32_shift z k : int32 (z + k * 4294967296) = int32 z.
Proof.
  unfold int32. replace (z + k * 4294967296 + 2147483648)
    with (z + 2147483648 + k * 4294967296) by lia.
  by rewrite Z.mod_add by lia.
Qed.

Lemma extract_bits n b :
  0 <= b <= 12 → Z.land (Z.shiftr (int32 n) b) 31 = (n / 2 ^ b) mod 32.
Proof.
  intros Hb. destruct (int32_quot n) as [k ->].
  change 31 with (Z.ones 5). rewrite Z.land_ones, Z.shiftr_div_pow2 by lia.
  change (2 ^ 5) with 32.
  replace (k * 4294967296) with (k * 2 ^ (27 - b) * 32 * 2 ^ b).
  - rewrite Z.div_add by (apply Z.pow_nonzero; lia). by rewrite Z.mod_add by lia.
  - rewrite <- !Z.mul_assoc. f_equal. change 32 with (2 ^ 5).
    rewrite <- !Z.pow_add_r by lia. replace (27 - b + (5 + b)) with 32 by lia. done.
Qed.

Lemma land_shifted q byte : is_byte byte → Z.land (q * 256) byte = 0.
Proof.
  intros Hb. change 256 with (2 ^ 8). rewrite <- Z.shiftl_mul_pow2 by lia.
  apply Z.bits_inj'. intros i Hi. rewrite Z.land_spec, Z.bits_0.
  destruct (decide (i < 8)).
  - rewrite Z.shiftl_spec_low by lia. done.
  - destruct (decide (byte = 0)) as [->|]; [by rewrite Z.bits_0, andb_false_r|].
    rewrite (Z.bits_above_log2 byte); [apply andb_false_r|unfold is_byte in Hb; lia|].
    apply Z.log2_lt_pow2; unfold is_byte in Hb; [lia|].
    assert (2 ^ 8 <= 2 ^ i) by (apply Z.pow_le_mono_r; lia). lia.
Qed.

Lemma buffer_step n byte :
  is_byte byte →
  int32 (Z.lor (int32 (Z.shiftl (int32 n) 8)) byte) = int32 (256 * n + byte).
Proof.
  intros Hb. rewrite Z.shiftl_mul_pow2 by lia. change (2 ^ 8) with 256.
  destruct (int32_quot n) as [k ->].
  replace ((n + k * 4294967296) * 256) with (n * 256 + (k * 256) * 4294967296) by lia.
  rewrite int32_shift. destruct (int32_quot (n * 256)) as [j ->].
  replace (n * 256 + j * 4294967296) with ((n + j * 16777216) * 256) by lia.
  pose proof (Z.add_lor_land ((n + j * 16777216) * 256) byte) as H.
  rewrite land_shifted in H by done.
  replace (Z.lor ((n + j * 16777216) * 256) byte) with ((n + j * 16777216) * 256 + byte) by lia.
  replace ((n + j * 16777216) * 256 + byte) with (256 * n + byte + j * 4294967296) by lia.
  apply int32_shift.
Qed.

Lemma drain_spec fuel n b w :
  0 <= b <= 12 → b < 5 * Z.of_nat fuel + 5 →
  drain fuel (int32 n) b (digits32 w (n / 2 ^ b))
  = (b mod 5, digits32 (w + Z.to_nat (b / 5)) (n / 2 ^ (b mod 5))).
Proof.
  revert b w. induction fuel as [|fuel IH]; intros b w Hb Hf; simpl.
  - rewrite (Z.mod_small b 5), (Z.div_small b 5) by lia. by rewrite Nat.add_0_r.
  - destruct (5 <=? b) eqn:E; bools.
    + rewrite extract_bits by lia.
      assert (Hd : (digits32 w (n / 2 ^ b) ++ [alphabet_at ((n / 2 ^ (b - 5)) mod 32)])%list
                   = digits32 (S w) (n / 2 ^ (b - 5))).
      { simpl. do 2 f_equal. rewrite Z.div_div by (try apply Z.pow_nonzero; lia).
        change 32 with (2 ^ 5). rewrite <- Z.pow_add_r by lia. do 2 f_equal. lia. }
      assert (Hm : (b - 5) mod 5 = b mod 5 ∧ (b - 5) / 5 = b / 5 - 1 ∧ 1 <= b / 5)
        by (Z.to_euclidean_division_equations; lia).
      destruct Hm as (Hm & Hq & Hp). rewrite Hd, IH, Hm, Hq by lia. do 2 f_equal. lia.
    + rewrite (Z.mod_small b 5), (Z.div_small b 5) by lia. by rewrite Nat.add_0_r.
Qed.

Lemma mint_byte_spec n b w byte :
  is_byte byte → 0 <= b < 5 →
  mint_byte (b, int32 n, digits32 w (n / 2 ^ b)) byte
  = ((b + 8) mod 5, int32 (256 * n + byte),
     digits32 (w + Z.to_nat ((b + 8) / 5)) ((256 * n + byte) / 2 ^ ((b + 8) mod 5))).
Proof.
  intros Hb Hbits. unfold mint_byte. rewrite buffer_step by done.
  assert (Hn : n / 2 ^ b = (256 * n + byte) / 2 ^ (b + 8)).
  { rewrite (Z.add_comm b 8), Z.pow_add_r, <- Z.div_div by lia.
    change (2 ^ 8) with 256. f_equal. unfold is_byte in Hb.
    replace (256 * n + byte) with (byte + n * 256) by lia.
    rewrite Z.div_add, Z.div_small by lia. lia. }
  rewrite Hn, drain_spec by lia. done.
Qed.

Lemma mint_fold l : ∀ n b w,
  Forall is_byte l → 0 <= b < 5 →
  foldl mint_byte (b, int32 n, digits32 w (n / 2 ^ b)) l
  = let bits := b + 8 * Z.of_nat (length l) in
    let N := foldl (λ n b, 256 * n + b) n l in
    (bits mod 5, int32 N, digits32 (w + Z.to_nat (bits / 5)) (N / 2 ^ (bits mod 5))).
Proof.
  induction l as [|byte l IH]; intros n b w Hl Hb.
  - simpl. rewrite Z.add_0_r, (Z.mod_small b 5), (Z.div_small b 5) by lia. by rewrite Nat.add_0_r.
  - apply Forall_cons in Hl as [Hbyte Hl]. cbn [foldl].
    rewrite mint_byte_spec by done.
    rewrite IH by (try done; apply Z.mod_pos_bound; lia). cbv zeta.
    set (N := foldl _ _ _).
    assert (Hbits : ((b + 8) mod 5 + 8 * Z.of_nat (length l)) mod 5
                    = (b + 8 * Z.of_nat (length (byte :: l))) mod 5).
    { rewrite Z.add_mod_idemp_l by lia. f_equal. simpl. lia. }
    rewrite Hbits. f_equal. f_equal. simpl length. Z.to_euclidean_division_equations. lia.
Qed.

Lemma mintTicket_digits bytes :
  length bytes = TICKET_BYTES → Forall is_byte bytes →
  mintTicket bytes = string_of_list_ascii (digits32 16 (big_endian bytes)).
Proof.
  intros Hlen Hb. unfold mintTicket.
  change (0, 0, []) with (0, int32 0, digits32 0 (0 / 2 ^ 0)).
  rewrite mint_fold, Hlen by (done || lia). cbv zeta. simpl snd.
  change (TICKET_BYTES) with 10%nat. simpl. rewrite Z.div_1_r. done.
Qed.

Lemma alphabet_ok i :
  0 <= i < 32 → ticket_char (alphabet_at i) = true.
Proof.
  intros Hi. assert (Hz : i = Z.of_nat (Z.to_nat i)) by lia.
  assert (Hn : (Z.to_nat i < 32)%nat) by lia. rewrite Hz. revert Hn. generalize (Z.to_nat i).
  intros n Hn. do 32 (destruct n as [|n]; [vm_compute; done|]). lia.
Qed.

Lemma alphabet_inj i j :
  0 <= i < 32 → 0 <= j < 32 → alphabet_at i = alphabet_at j → i = j.
Proof.
  intros Hi Hj H. unfold alphabet_at in H.
  assert (Hnd : NoDup (chars TICKET_ALPHABET)) by (apply (bool_decide_unpack _); vm_compute; exact I).
  destruct (lookup_lt_is_Some_2 (chars TICKET_ALPHABET) (Z.to_nat i)) as [a Ha];
    [change (length _) with 32%nat; lia|].
  destruct (lookup_lt_is_Some_2 (chars TICKET_ALPHABET) (Z.to_nat j)) as [c Hc];
    [change (length _) with 32%nat; lia|].
  rewrite Ha, Hc in H. simpl in H. subst c.
  pose proof (NoDup_lookup _ _ _ _ Hnd Ha Hc). lia.
Qed.

Lemma digits32_length w n : length (digits32 w n) = w.
Proof.
  revert n. induction w as [|w IH]; intros n; simpl; [done|].
  rewrite length_app, IH. simpl. lia.
Qed.

Lemma digits32_inj w n m :
  0 <= n < 32 ^ Z.of_nat w → 0 <= m < 32 ^ Z.of_nat w → digits32 w n = digits32 w m → n = m.
Proof.
  revert n m. induction w as [|w IH]; intros n m Hn Hm.
  - change (32 ^ Z.of_nat 0) with 1 in *. lia.
  - rewrite Nat2Z.inj_succ, Z.pow_succ_r in * by lia. simpl.
    intros [Hd Hc]%app_inj_tail.
    apply IH in Hd; [|Z.to_euclidean_division_equations; nia..].
    apply alphabet_inj in Hc; [|apply Z.mod_pos_bound; lia..].
    pose proof (Z.div_mod n 32). pose proof (Z.div_mod m 32). lia.
Qed.

Lemma big_endian_bound l : ∀ n,
  Forall is_byte l → 0 <= n →
  0 <= foldl (λ n b, 256 * n + b) n l < 256 ^ Z.of_nat (length l) * (n + 1).
Proof.
  induction l as [|b l IH]; intros n Hl Hn; [simpl; lia|].
  apply Forall_cons in Hl as [Hb Hl]. unfold is_byte in Hb. cbn [foldl length].
  specialize (IH (256 * n + b) Hl ltac:(lia)).
  rewrite Nat2Z.inj_succ, Z.pow_succ_r by lia. nia.
Qed.

Lemma big_endian_80 l :
  length l = TICKET_BYTES → Forall is_byte l → 0 <= big_endian l < 32 ^ Z.of_nat 16.
Proof.
  intros Hlen Hl. pose proof (big_endian_bound l 0 Hl ltac:(lia)) as H. rewrite Hlen in H.
  change (256 ^ Z.of_nat TICKET_BYTES * (0 + 1)) with (32 ^ Z.of_nat 16) in H. exact H.
Qed.

Lemma big_endian_inj l1 : ∀ l2 n1 n2,
  length l1 = length l2 → Forall is_byte l1 → Forall is_byte l2 →
  foldl (λ n b, 256 * n + b) n1 l1 = foldl (λ n b, 256 * n + b) n2 l2 → n1 = n2 ∧ l1 = l2.
Proof.
  induction l1 as [|b1 l1 IH]; intros [|b2 l2] n1 n2 Hlen H1 H2 He; try done.
  apply Forall_cons in H1 as [Hb1 H1], H2 as [Hb2 H2]. unfold is_byte in *.
  cbn [foldl] in He. apply IH in He as [He ->]; [|simpl in Hlen; lia|done..].
  assert (n1 = n2) by lia. split; [done|]. f_equal. lia.
Qed.

Lemma digits32_ticket w n :
  Forall (λ c, ticket_char c = true) (digits32 w n).
Proof.
  revert n. induction w as [|w IH]; intros n; simpl; [constructor|].
  apply Forall_app. split; [apply IH|]. constructor; [|constructor].
  apply alphabet_ok, Z.mod_pos_bound. lia.
Qed.

(** A ticket is exactly the 16 base-32 digits of the ten random bytes, in the
    store's alphabet, although the loop keeps only a signed 32-bit buffer; it
    matches the pattern a lookup demands, and different bytes give different
    tickets, so no randomness is lost. *)
Theorem ticket_digits bytes :
  length bytes = TICKET_BYTES → Forall is_byte bytes →
  mintTicket bytes = string_of_list_ascii (digits32 16 (big_endian bytes))
  ∧ TICKET (mintTicket bytes) = true
  ∧ ∀ bytes', length bytes' = TICKET_BYTES → Forall is_byte bytes' →
      mintTicket bytes' = mintTicket bytes → bytes' = bytes.
Proof.
  intros Hlen Hb. rewrite mintTicket_digits by done. split; [done|]. split.
  - pose proof (digits32_ticket 16 (big_endian bytes)) as Hall.
    unfold TICKET, re_class. rewrite slen_chars. unfold chars.
    rewrite list_ascii_of_string_of_list_ascii, digits32_length.
    apply andb_true_iff. split; [done|]. apply forallb_forall.
    intros c Hc. rewrite Forall_forall in Hall. by apply Hall, list_elem_of_In.
  - intros bytes' Hlen' Hb' He. rewrite mintTicket_digits in He by done.
    apply (f_equal list_ascii_of_string) in He.
    rewrite !list_ascii_of_string_of_list_ascii in He.
    apply digits32_inj in He.
    + exact (proj2 (big_endian_inj bytes' bytes 0 0 (eq_trans Hlen' (eq_sym Hlen)) Hb' Hb He)).
    + by apply big_endian_80.
    + by apply big_endian_80.
Qed.

(** ** The catalogue's invariant *)

Record catalog_ok (s : CatalogDb) : Prop := {
  co_slug : ∀ k r, sellers s !! k = Some r → sr_slug r = k
    ∧ sellers_base_url (sr_kind r) (sr_base_url r) = true;
  co_token : ∀ k1 k2 r1 r2 h, sellers s !! k1 = Some r1 → sellers s !! k2 = Some r2 →
    sr_manage_token_hash r1 = Some h → sr_manage_token_hash r2 = Some h → k1 = k2;
  co_items : NoDup ((λ i, (item_seller i, item_key i)) <$> items s);
  co_sold : ∀ i, i ∈ items s → is_Some (sellers s !! item_seller i);
  co_intents : NoDup (order_intent <$> orders s);
  co_tickets : NoDup (order_ticket <$> orders s);
  co_orders : ∀ o, o ∈ orders s →
    existsb (is_item (order_seller o) (order_item o)) (items s) = true
    ∧ slugKey (JStr (order_seller o)) "sellerSlug" = Ok (order_seller o);
}.

Lemma slugKey_ok s n t : slugKey (JStr s) n = Ok t ↔ SLUG s = true ∧ t = s.
Proof. apply matching_ok. Qed.

Lemma token_taken_false s h m :
  token_taken s (Some h) m = false →
  ∀ k r, m !! k = Some r → sr_manage_token_hash r = Some h → k = s.
Proof.
  unfold token_taken. intros H k r Hk Hr. destruct (decide (k = s)) as [|Hne]; [done|].
  exfalso. apply not_true_iff_false in H. apply H, existsb_exists. exists (k, r).
  split; [by apply list_elem_of_In, elem_of_map_to_list|]. simpl.
  apply andb_true_iff. split; [by apply negb_true_iff, String.eqb_neq|].
  by apply bool_decide_eq_true.
Qed.

(** What an upsert of a seller that returns did. *)
Lemma upsert_seller_spec i s sel s' :
  upsert_seller i s = Ok (sel, s') →
  ∃ row, s' = set_sellers <[si_slug i := row]> s ∧ sel = toSeller row
    ∧ sr_slug row = si_slug i ∧ SLUG (si_slug i) = true
    ∧ sr_manage_token_hash row = si_manageTokenHash i
    ∧ (∀ h, si_manageTokenHash i = Some h → SHA256_HEX h = true)
    ∧ sr_kind row = si_kind i ∧ sr_base_url row = si_baseUrl i
    ∧ sellers_base_url (si_kind i) (si_baseUrl i) = true
    ∧ token_taken (si_slug i) (si_manageTokenHash i) (sellers s) = false
    ∧ sr_internal row = (if si_internal i then 1 else 0)
    ∧ sr_created_at row = match sellers s !! si_slug i with
                          | Some old => sr_created_at old | None => si_createdAt i end.
Proof.
  unfold upsert_seller, flag. intros H. inv_tx. bools.
  match goal with H : slugKey _ _ = _ |- _ => apply slugKey_ok in H as [? ->] end.
  match goal with H : millis _ _ = _ |- _ => apply millis_ok in H as [? ->] end.
  assert (Ht : x1 = si_manageTokenHash i
               ∧ ∀ h, si_manageTokenHash i = Some h → SHA256_HEX h = true).
  { unfold optionalTokenHash, tokenHash in *.
    destruct (si_manageTokenHash i); inv_tx; [|done].
    match goal with H : matching _ _ _ = _ |- _ => apply matching_ok in H as [? ->] end.
    naive_solver. }
  destruct Ht as [-> Hhex].
  eexists. split; [reflexivity|]. simpl. split_and!; done.
Qed.

Lemma upsert_seller_ok i s sel s' :
  catalog_ok s → upsert_seller i s = Ok (sel, s') → catalog_ok s'.
Proof.
  intros Hok (row & -> & _ & Hslug & _ & Htok & _ & Hk & Hu & Hurl & Hfree & _)%upsert_seller_spec.
  assert (Hnew : ∀ h, sr_manage_token_hash row = Some h → ∀ k r,
    sellers s !! k = Some r → sr_manage_token_hash r = Some h → k = si_slug i).
  { intros h Hh. rewrite Htok in Hh. rewrite Hh in Hfree. by apply token_taken_false. }
  constructor; simpl; try apply Hok.
  - intros k r. rewrite lookup_insert. case_decide; [intros [= <-]; subst|apply Hok].
    by rewrite Hk, Hu.
  - intros k1 k2 r1 r2 h. rewrite !lookup_insert.
    do 2 case_decide; intros H1 H2 Ht1 Ht2; simplify_eq; try done.
    + symmetry. by eapply Hnew.
    + by eapply Hnew.
    + by eapply (co_token _ Hok).
  - intros o Ho. rewrite lookup_insert. case_decide; [by eexists|]. by apply (co_sold _ Hok).
Qed.

Lemma is_item_true s k i : is_item s k i = true ↔ item_seller i = s ∧ item_key i = k.
Proof. unfold is_item. by rewrite andb_true_iff, !String.eqb_eq. Qed.

Lemma existsb_fmap_item s k (f : Item → Item) t :
  (∀ q, item_seller (f q) = item_seller q ∧ item_key (f q) = item_key q) →
  existsb (is_item s k) (f <$> t) = existsb (is_item s k) t.
Proof.
  intros Hf. induction t as [|a t IH]; [done|]. rewrite fmap_cons. simpl. rewrite IH.
  unfold is_item at 1 3. by destruct (Hf a) as [-> ->].
Qed.

Lemma upsert_item_ok i s row s' :
  catalog_ok s → upsert_item i s = Ok (row, s') → catalog_ok s'.
Proof.
  intros Hok H. unfold upsert_item in H. inv_tx.
  repeat match goal with H : slugKey _ _ = _ |- _ => apply slugKey_ok in H as [? ->] end.
  destruct (List.find (is_item (ii_sellerSlug i) (ii_key i)) (items s)) as [old|] eqn:Hf.
  - inv_tx. set (f := λ q : Item, if is_item _ _ q then _ else q).
    assert (Hsame : ∀ q, item_seller (f q) = item_seller q ∧ item_key (f q) = item_key q).
    { intros q. unfold f. destruct (is_item _ _ q) eqn:E; [|done].
      apply is_item_true in E as [-> ->]. done. }
    destruct Hok as [Ho1 Ho2 Ho3 Ho4 Ho5 Ho6 Ho7]. constructor; simpl; try done.
    + rewrite <- list_fmap_compose. erewrite list_fmap_ext; [exact Ho3|].
      intros _ q _. simpl. by destruct (Hsame q) as [-> ->].
    + intros q' (q & -> & Hq)%list_elem_of_fmap. destruct (Hsame q) as [-> _]. by apply Ho4.
    + intros o Ho. rewrite existsb_fmap_item by done. by apply Ho7.
  - inv_tx. bools. destruct Hok as [Ho1 Ho2 Ho3 Ho4 Ho5 Ho6 Ho7].
    constructor; simpl; try done.
    + rewrite fmap_app. apply NoDup_app. split; [done|]. split; [|apply NoDup_singleton].
      intros p (q & -> & Hq)%list_elem_of_fmap Hp. apply list_elem_of_singleton in Hp.
      simpl in Hp. injection Hp as Hs Hk. apply list_elem_of_In in Hq.
      pose proof (find_none _ _ Hf _ Hq) as Hn.
      rewrite (proj2 (is_item_true _ _ _)) in Hn; [done|by split].
    + intros q [Hq| ->%list_elem_of_singleton]%elem_of_app; [by apply Ho4|done].
    + intros o Ho. rewrite existsb_app. by destruct (Ho7 o Ho) as [-> ?].
Qed.

(** What [createOnce] did: it found the intent's order, or added one. *)
Lemma createOnce_spec o bytes s row s' :
  createOnce o bytes s = Ok (row, s') →
  SLUG (oi_sellerSlug o) = true ∧ SLUG (oi_itemKey o) = true
  ∧ 0 <= oi_amountBase o ∧ 0 <= oi_createdAt o <= MAX_SAFE_INTEGER
  ∧ ((by_intent (oi_paymentIntentId o) (orders s) = Some row ∧ s' = s)
     ∨ (by_intent (oi_paymentIntentId o) (orders s) = None
        ∧ s' = set_orders (λ t, t ++ [row])%list s
        ∧ order_ticket row ∉ (order_ticket <$> orders s)
        ∧ existsb (is_item (oi_sellerSlug o) (oi_itemKey o)) (items s) = true
        ∧ order_intent row = oi_paymentIntentId o ∧ order_ticket row = mintTicket bytes
        ∧ order_seller row = oi_sellerSlug o ∧ order_item row = oi_itemKey o
        ∧ order_payer row = oi_payer o ∧ order_amountBase row = oi_amountBase o)).
Proof.
  unfold createOnce. intros H. inv_tx.
  repeat match goal with H : slugKey _ _ = _ |- _ => apply slugKey_ok in H as [? ->] end.
  match goal with H : millis _ _ = _ |- _ => apply millis_ok in H as [? ->] end.
  match goal with H : amountText _ _ = _ |- _ => apply amountText_ok in H as [? ->] end.
  split_and!; try done; try lia.
  destruct (by_intent _ _) as [e|] eqn:He; [inv_tx; by left|]. inv_tx. bools. right.
  split_and!; try done. simpl. intros (q & Hq & Hin)%list_elem_of_fmap.
  match goal with H : existsb _ _ = false |- _ => apply not_true_iff_false in H; apply H end.
  apply existsb_exists. exists q. split; [by apply list_elem_of_In|]. by apply String.eqb_eq.
Qed.

Lemma by_intent_Some i t o : by_intent i t = Some o → o ∈ t ∧ order_intent o = i.
Proof. intros [Hin He]%find_some. apply list_elem_of_In in Hin. by bools. Qed.

Lemma by_intent_None i t : by_intent i t = None → i ∉ (order_intent <$> t).
Proof.
  intros H (o & -> & Hin)%list_elem_of_fmap. apply list_elem_of_In in Hin.
  pose proof (find_none _ _ H _ Hin) as Hn. cbv beta in Hn. by rewrite String.eqb_refl in Hn.
Qed.

Lemma createOnce_ok o bytes s row s' :
  catalog_ok s → createOnce o bytes s = Ok (row, s') → catalog_ok s'.
Proof.
  intros Hok (Hs & Hk & _ & _ & [[_ ->]|(Hnone & -> & Ht & Hi & Hint & _ & Hse & Hit & _)])%createOnce_spec;
    [done|].
  destruct Hok as [Ho1 Ho2 Ho3 Ho4 Ho5 Ho6 Ho7]. constructor; simpl; try done.
  - rewrite fmap_app. apply NoDup_snoc; [done|]. simpl. rewrite Hint. by apply by_intent_None.
  - rewrite fmap_app. by apply NoDup_snoc.
  - intros q [Hq| ->%list_elem_of_singleton]%elem_of_app; [by apply Ho7|].
    rewrite Hse, Hit. split; [done|]. by apply slugKey_ok.
Qed.

Inductive catalog_step (s s' : CatalogDb) : Prop :=
  | step_seller i sel : upsert_seller i s = Ok (sel, s') → catalog_step s s'
  | step_item i row : upsert_item i s = Ok (row, s') → catalog_step s s'
  | step_order o bytes row : createOnce o bytes s = Ok (row, s') → catalog_step s s'.

Definition empty_catalog : CatalogDb := {| sellers := ∅; items := []; orders := [] |}.

Lemma catalog_step_ok s s' : catalog_ok s → catalog_step s s' → catalog_ok s'.
Proof.
  intros Hok []; [by eapply upsert_seller_ok|by eapply upsert_item_ok|by eapply createOnce_ok].
Qed.

Lemma catalog_reachable s : star catalog_step empty_catalog s → catalog_ok s.
Proof.
  apply star_invariant; [apply catalog_step_ok|].
  constructor; simpl.
  - intros k r. by rewrite lookup_empty.
  - intros k1 k2 r1 r2 h. by rewrite lookup_empty.
  - constructor.
  - by intros i ?%not_elem_of_nil.
  - constructor.
  - constructor.
  - by intros o ?%not_elem_of_nil.
Qed.

Lemma orders_grow s s' o : catalog_step s s' → o ∈ orders s → o ∈ orders s'.
Proof.
  intros [i sel H|i row H|oi bytes row H] Ho.
  - by apply upsert_seller_spec in H as (? & -> & _).
  - unfold upsert_item in H. inv_tx. destruct (List.find _ _); inv_tx; done.
  - apply createOnce_spec in H as (_ & _ & _ & _ & [[_ ->]|(_ & -> & _)]); [done|].
    simpl. set_solver.
Qed.

Lemma find_unique {A B} `{EqDecision B} (key : A → B) (p : A → bool) (t : list A) o :
  NoDup (key <$> t) → o ∈ t → p o = true → (∀ q, p q = true → key q = key o) →
  List.find p t = Some o.
Proof.
  induction t as [|a t IH]; [by intros _ ?%not_elem_of_nil|].
  rewrite fmap_cons. intros [Ha Hnd]%NoDup_cons Hin Hp Huniq. simpl.
  destruct (p a) eqn:Hpa.
  - apply elem_of_cons in Hin as [->|Hin]; [done|]. exfalso. apply Ha.
    rewrite (Huniq a Hpa). by apply list_elem_of_fmap_2.
  - apply elem_of_cons in Hin as [->|Hin]; [congruence|]. by apply IH.
Qed.

(** One payment intent buys one order. Once [createOnce] has returned an order,
    after any later history of the catalogue every well-formed [createOnce] of the
    same intent returns that same order and changes nothing, [getByIntent] finds it,
    and its ticket finds it, and only it, at the shop that issued it. *)
Theorem order_once o bytes s row s1 s2 o' bytes' :
  star catalog_step empty_catalog s →
  createOnce o bytes s = Ok (row, s1) →
  star catalog_step s1 s2 →
  oi_paymentIntentId o' = oi_paymentIntentId o →
  SLUG (oi_sellerSlug o') = true → SLUG (oi_itemKey o') = true →
  0 <= oi_amountBase o' → 0 <= oi_createdAt o' <= MAX_SAFE_INTEGER →
  createOnce o' bytes' s2 = Ok (row, s2)
  ∧ getByIntent (oi_paymentIntentId o) s2 = Some row
  ∧ (TICKET (order_ticket row) = true →
       getByTicket (order_seller row) (order_ticket row) s2 = Ok (Some row)).
Proof.
  intros Hok%catalog_reachable Hc Hstar Hid Hs Hk Ha Ht.
  pose proof (catalog_step_ok _ _ Hok (step_order _ _ _ _ _ Hc)) as Hok1.
  assert (Hin1 : row ∈ orders s1 ∧ order_intent row = oi_paymentIntentId o).
  { apply createOnce_spec in Hc as (_ & _ & _ & _ & [[Hb ->]|(_ & -> & _ & _ & Hi & _)]).
    - by apply by_intent_Some.
    - split; [|done]. simpl. set_solver. }
  destruct Hin1 as [Hin1 Hint].
  assert (H2 : catalog_ok s2 ∧ row ∈ orders s2).
  { apply (star_invariant catalog_step (λ x, catalog_ok x ∧ row ∈ orders x) s1 s2);
      [|done|done].
    intros a b [? ?] Hst. split; [by eapply catalog_step_ok|by eapply orders_grow]. }
  destruct H2 as [Hok2 Hin2].
  assert (Hby : by_intent (oi_paymentIntentId o) (orders s2) = Some row).
  { apply (find_unique order_intent); [apply Hok2|done| |].
    - by apply String.eqb_eq.
    - intros q Hq. bools. congruence. }
  split_and!; [|done|].
  - unfold createOnce.
    erewrite tlift_run by (apply slugKey_ok; done). erewrite tlift_run by (apply slugKey_ok; done).
    erewrite tlift_run by (apply amountText_ok; done). erewrite tlift_run by (apply millis_ok; done).
    rewrite (tbind_run tget _ s2 s2 s2) by done. by rewrite Hid, Hby.
  - intros Htk. unfold getByTicket.
    destruct (co_orders _ Hok2 _ Hin2) as [_ Hslug]. rewrite Hslug. simpl.
    unfold ticketKey, matching. rewrite Htk. simpl. f_equal.
    apply (find_unique order_ticket); [apply Hok2|done| |].
    + by rewrite !String.eqb_refl.
    + intros q Hq. by bools.
Qed.

(** A manage token identifies at most one seller, and an upsert that carries one
    makes it identify that seller: the upsert keeps the original creation time, a
    token another seller holds is refused, and the lookup by the token's hash
    returns the seller just written. *)
Theorem token_identifies_seller i s sel s' h :
  star catalog_step empty_catalog s →
  upsert_seller i s = Ok (sel, s') →
  si_manageTokenHash i = Some h →
  getByManageTokenHash h s' = Ok (Some sel)
  ∧ get_seller (si_slug i) s' = Ok (Some sel)
  ∧ internal sel = si_internal i
  ∧ (∀ old, get_seller (si_slug i) s = Ok (Some old) → createdAt sel = createdAt old)
  ∧ (∀ k r, sellers s !! k = Some r → sr_manage_token_hash r = Some h → k = si_slug i).
Proof.
  intros Hok%catalog_reachable Hu Hh.
  pose proof (upsert_seller_ok _ _ _ _ Hok Hu) as Hok'.
  apply upsert_seller_spec in Hu as
    (row & -> & -> & Hslug & Hsl & Htok & Hhex & _ & _ & _ & Hfree & Hint & Hcr).
  rewrite Hh in Htok, Hfree. pose proof (token_taken_false _ _ _ Hfree) as Hown.
  assert (Hsk : slugKey (JStr (si_slug i)) "slug" = Ok (si_slug i)) by by apply slugKey_ok.
  split_and!; try done.
  - unfold getByManageTokenHash, tokenHash, matching. rewrite (Hhex h Hh).
    cbn [negb throw_when rbind]. do 2 f_equal.
    destruct (List.find _ _) as [r|] eqn:Hf.
    + apply find_some in Hf as [Hin Ht]. bools. apply list_elem_of_In in Hin.
      apply list_elem_of_fmap in Hin as ([k r'] & -> & Hk). simpl in *.
      apply elem_of_map_to_list in Hk. cbn [fmap option_fmap option_map]. do 2 f_equal.
      assert (k = si_slug i) as ->.
      { eapply (co_token _ Hok' k (si_slug i) r' row h); simpl; try done.
        apply lookup_insert_eq. }
      rewrite lookup_insert_eq in Hk. congruence.
    + exfalso. eapply find_none in Hf.
      * rewrite bool_decide_true in Hf; [done|exact Htok].
      * apply list_elem_of_In, list_elem_of_fmap. exists (si_slug i, row). split; [done|].
        apply elem_of_map_to_list, lookup_insert_eq.
  - unfold get_seller. rewrite Hsk. simpl. by rewrite lookup_insert_eq.
  - simpl. rewrite Hint. by destruct (si_internal i).
  - intros old. unfold get_seller. rewrite Hsk. simpl. rewrite Hcr.
    destruct (sellers s !! si_slug i) as [r|]; [|done]. by intros [= <-].
Qed.

(** ** Witnesses: a hosted shop with one item and one paid order *)

Definition ex_hash : string := string_of_list_ascii (replicate 64 "a"%char).
Definition ex_shop : SellerInput :=
  {| si_slug := "corner-cafe"; si_kind := hosted; si_name := "Corner Cafe";
     si_payTo := "0xcafe"; si_baseUrl := None; si_manageTokenHash := Some ex_hash;
     si_contact := None; si_internal := false; si_createdAt := 1000 |}.
Definition ex_latte : ItemInput :=
  {| ii_sellerSlug := "corner-cafe"; ii_key := "latte"; ii_name := "Latte";
     ii_description := "Hot"; ii_priceBase := 4000; ii_resourceUrl := None;
     ii_createdAt := 1001 |}.
Definition ex_order : OrderInput :=
  {| oi_sellerSlug := "corner-cafe"; oi_itemKey := "latte"; oi_paymentIntentId := "0x01";
     oi_payer := "0xbuyer"; oi_amountBase := 4000; oi_txHash := None;
     oi_status := "delivered"; oi_createdAt := 1002 |}.
Definition ex_bytes : list Z := [255; 0; 17; 128; 200; 3; 99; 64; 1; 254].
Definition catalog_of {A} (r : result (A * CatalogDb)) : CatalogDb :=
  match r with Ok (_, s) => s | Throw _ => empty_catalog end.
Definition ex_open := catalog_of (upsert_seller ex_shop empty_catalog).
Definition ex_stocked := catalog_of (upsert_item ex_latte ex_open).
Definition ex_sold := catalog_of (createOnce ex_order ex_bytes ex_stocked).

Lemma ex_stocked_reachable : star catalog_step empty_catalog ex_stocked.
Proof.
  eapply star_step; [eapply star_step; [apply star_refl|]|].
  - eapply (step_seller _ ex_open ex_shop). vm_compute. reflexivity.
  - eapply (step_item _ _ ex_latte). vm_compute. reflexivity.
Qed.

Example ex_ticket : mintTicket ex_bytes = "zw0130680dhm00fy".
Proof. vm_compute. reflexivity. Qed.
Example ex_no_item :
  createOnce {| oi_sellerSlug := "corner-cafe"; oi_itemKey := "tea"; oi_paymentIntentId := "0x02";
     oi_payer := "0xbuyer"; oi_amountBase := 1; oi_txHash := None; oi_status := "x";
     oi_createdAt := 0 |} (rev ex_bytes) ex_sold
  = Throw (SQLiteError "FOREIGN KEY constraint failed").
Proof. vm_compute. reflexivity. Qed.

Lemma ticket_digits_witness :
  length ex_bytes = TICKET_BYTES ∧ TICKET (mintTicket ex_bytes) = true.
Proof.
  split; [reflexivity|]. apply (ticket_digits ex_bytes); [reflexivity|].
  unfold ex_bytes, is_byte. repeat constructor; discriminate.
Defined.

Lemma order_once_witness :
  ∃ row, createOnce ex_order (rev ex_bytes) ex_sold = Ok (row, ex_sold).
Proof.
  destruct (returns_value (createOnce ex_order ex_bytes ex_stocked)) as (row & s' & H);
    [vm_compute; reflexivity|].
  assert (Hs : ex_sold = s') by (unfold ex_sold; rewrite H; reflexivity).
  exists row. rewrite Hs.
  apply (order_once ex_order ex_bytes ex_stocked row s' s' ex_order (rev ex_bytes)
    ex_stocked_reachable H (star_refl _ _)); vm_compute; try reflexivity;
    try split; discriminate.
Defined.

Lemma token_identifies_seller_witness :
  ∃ sel, getByManageTokenHash ex_hash (catalog_of (upsert_seller ex_shop ex_stocked))
         = Ok (Some sel).
Proof.
  destruct (returns_value (upsert_seller ex_shop ex_stocked)) as (sel & s' & H);
    [vm_compute; reflexivity|].
  exists sel. rewrite H.
  exact (proj1 (token_identifies_seller ex_shop ex_stocked sel s' ex_hash
    ex_stocked_reachable H eq_refl)).
Defined.
