(* ===== verification/Identifiers.v ===== *)
(** * Payment identifiers

    [createPaymentIdentifiers] of [packages/store/src/index.ts] over the table
    [payment_identifiers], keyed by the identifier: bind before a facilitator is
    asked, record after the transfer is confirmed, prune what never settled. *)

From Stdlib Require Import ZArith Lia Ascii String.
From stdpp Require Import base gmap strings list fin_maps sorting.
From S2P Require Import Prelude Validate.
Open Scope string_scope.
Open Scope Z_scope.

Record RecordedPayment := { rp_payer : string; rp_txHash : option string }.
#[export] Instance RecordedPayment_eq_dec : EqDecision RecordedPayment.
Proof. solve_decision. Defined.

Inductive PaymentIdentifierConflict := conflict_fingerprint | conflict_payment_intent.
Inductive BindResult :=
  | bind_new
  | bind_settled (settled : RecordedPayment)
  | bind_conflict (reason : PaymentIdentifierConflict) (settled : option RecordedPayment).

(** A row; [payer] and [settled_at] are both null or both set, by the table's CHECK. *)
Record IdentifierRow := {
  row_id : string; fingerprint : string; payment_intent_id : string; bound_at : Z;
  row_payer : option string; row_tx_hash : option string; settled_at : option Z;
}.
#[export] Instance IdentifierRow_eq_dec : EqDecision IdentifierRow.
Proof. solve_decision. Defined.
Notation identifiers := (gmap string IdentifierRow).

(** [/^[A-Za-z0-9_-]{16,128}$/] *)
Definition PAYMENT_IDENTIFIER : string → bool :=
  re_class (λ c, is_upper c || is_lower c || is_digit c || Ascii.eqb c "_" || Ascii.eqb c "-")
    16 128.
Definition identifierKey : jsval → result string :=
  matching PAYMENT_IDENTIFIER (TypeError "id must be 16-128 characters of [A-Za-z0-9_-]").
Definition fingerprintHex : jsval → result string :=
  matching SHA256_HEX (TypeError "fingerprint must be 64 lowercase hex characters (sha256)").

Definition settledHalf (r : IdentifierRow) : option RecordedPayment :=
  match settled_at r with
  | None => None
  | Some _ => Some {| rp_payer := default "" (row_payer r); rp_txHash := row_tx_hash r |}
  end.

Definition bind (id print intent : string) (at_ : Z) : tx identifiers BindResult :=
  let! key := tlift (identifierKey (JStr id)) in
  let! print := tlift (fingerprintHex (JStr print)) in
  let! at_ := tlift (millis (JNum at_) "at") in
  let! t := tget in
  match t !! key with
  | None =>
      let! _ := tmodify <[key := {| row_id := key; fingerprint := print;
        payment_intent_id := intent; bound_at := at_; row_payer := None;
        row_tx_hash := None; settled_at := None |}]> in
      tret bind_new
  | Some existing =>
      let settled := settledHalf existing in
      if negb (String.eqb (fingerprint existing) print)
      then tret (bind_conflict conflict_fingerprint settled)
      else if negb (String.eqb (payment_intent_id existing) intent)
      then tret (bind_conflict conflict_payment_intent settled)
      else tret (match settled with None => bind_new | Some p => bind_settled p end)
  end.

(** [UPDATE ... SET payer, tx_hash, settled_at WHERE id = $id AND settled_at IS NULL] *)
Definition settle_row (payer : string) (txHash : option string) (at_ : Z) (r : IdentifierRow) :=
  {| row_id := row_id r; fingerprint := fingerprint r;
     payment_intent_id := payment_intent_id r; bound_at := bound_at r;
     row_payer := Some payer; row_tx_hash := txHash; settled_at := Some at_ |}.
Definition record (id payer : string) (txHash : option string) (at_ : Z) : tx identifiers unit :=
  let! key := tlift (identifierKey (JStr id)) in
  let! at_ := tlift (millis (JNum at_) "at") in
  let! t := tget in
  let changes := match t !! key with
                 | Some r => bool_decide (settled_at r = None)
                 | None => false
                 end in
  throws! negb changes
    with Error ("payment_identifiers: " ++ id ++ " is not bound, or is already settled");
  tmodify (alter (settle_row payer txHash at_) key).

Definition unsettled (r : IdentifierRow) : bool := bool_decide (settled_at r = None).
(** [ORDER BY bound_at DESC, id DESC] *)
Definition newest_bound (a b : IdentifierRow) : Prop :=
  bound_at b < bound_at a
  ∨ (bound_at a = bound_at b ∧ String.leb (row_id b) (row_id a) = true).
#[export] Instance newest_bound_dec : RelDecision newest_bound.
Proof. unfold newest_bound. intros a b. apply _. Defined.

Definition rows (t : identifiers) : list IdentifierRow := (map_to_list t).*2.
Definition dropUnsettledBefore (before : Z) (t : identifiers) : identifiers :=
  filter (λ kr, negb (unsettled kr.2 && (bound_at kr.2 <? before)) = true) t.
Definition dropUnsettledBeyond (keep : Z) (t : identifiers) : identifiers :=
  let newest := newest_k newest_bound (Z.to_nat keep) (List.filter unsettled (rows t)) in
  filter (λ kr, negb (unsettled kr.2 && bool_decide (kr.1 ∉ (row_id <$> newest))) = true) t.
Definition prune (unsettledBefore keepUnsettled : Z) : tx identifiers Z :=
  let! before := tlift (millis (JNum unsettledBefore) "unsettledBefore") in
  let! keep := tlift (positiveInteger (JNum keepUnsettled) "keepUnsettled") in
  let! t := tget in
  let t1 := dropUnsettledBefore before t in
  let t2 := dropUnsettledBeyond keep t1 in
  let! _ := tput t2 in
  tret (Z.of_nat (size t) - Z.of_nat (size t1) + (Z.of_nat (size t1) - Z.of_nat (size t2))).

#[export] Instance newest_bound_total : Total newest_bound.
Proof.
  intros a b. unfold newest_bound. destruct (Z.lt_trichotomy (bound_at a) (bound_at b)) as [|[]].
  - right. by left.
  - destruct (String.leb_total (row_id a) (row_id b)); [right; right|left; right]; by split.
  - left. by left.
Qed.
#[export] Instance newest_bound_trans : Transitive newest_bound.
Proof.
  intros a b c. unfold newest_bound. intros [|[? ?]] [|[? ?]]; [left; lia..|right].
  split; [lia|]. by eapply leb_trans.
Qed.

(** ** The table's invariant and steps *)

Record identifiers_ok (t : identifiers) : Prop := {
  io_key : ∀ k r, t !! k = Some r → row_id r = k ∧ PAYMENT_IDENTIFIER k = true
    ∧ SHA256_HEX (fingerprint r) = true;
  io_half : ∀ k r, t !! k = Some r → (settled_at r = None ↔ row_payer r = None);
}.

Inductive identifier_step (t t' : identifiers) : Prop :=
  | step_bind id print intent at_ b : bind id print intent at_ t = Ok (b, t') → identifier_step t t'
  | step_record id payer txh at_ : record id payer txh at_ t = Ok (tt, t') → identifier_step t t'
  | step_prune before keep n : prune before keep t = Ok (n, t') → identifier_step t t'.

(** What a [bind] that returns did. *)
Lemma bind_spec id print intent at_ t b t' :
  bind id print intent at_ t = Ok (b, t') →
  PAYMENT_IDENTIFIER id = true ∧ SHA256_HEX print = true
  ∧ match t !! id with
    | None => b = bind_new ∧ t' = <[id := {| row_id := id; fingerprint := print;
        payment_intent_id := intent; bound_at := at_; row_payer := None;
        row_tx_hash := None; settled_at := None |}]> t
    | Some r => t' = t ∧ b =
        (if bool_decide (fingerprint r = print) then
           if bool_decide (payment_intent_id r = intent) then
             match settledHalf r with None => bind_new | Some p => bind_settled p end
           else bind_conflict conflict_payment_intent (settledHalf r)
         else bind_conflict conflict_fingerprint (settledHalf r))
    end.
Proof.
  unfold bind. intros H. inv_tx.
  match goal with H : identifierKey _ = _ |- _ => apply matching_ok in H as [? ->] end.
  match goal with H : fingerprintHex _ = _ |- _ => apply matching_ok in H as [? ->] end.
  match goal with H : millis _ _ = _ |- _ => apply millis_ok in H as [? ->] end.
  split_and!; [done..|].
  destruct (t !! id) as [r|]; [|by inv_tx].
  destruct (String.eqb_spec (fingerprint r) print);
    [|simpl in H; inv_tx; by rewrite bool_decide_false by done].
  destruct (String.eqb_spec (payment_intent_id r) intent); simpl in H; inv_tx.
  - by rewrite !bool_decide_true by done.
  - by rewrite bool_decide_true, bool_decide_false by done.
Qed.

Lemma record_settled_spec id payer txh at_ t t' :
  record id payer txh at_ t = Ok (tt, t') →
  ∃ r, t !! id = Some r ∧ settled_at r = None ∧ t' = <[id := settle_row payer txh at_ r]> t.
Proof.
  unfold record. intros H. inv_tx. bools.
  match goal with H : identifierKey _ = _ |- _ => apply matching_ok in H as [? ->] end.
  match goal with H : millis _ _ = _ |- _ => apply millis_ok in H as [? ->] end.
  destruct (t !! id) as [r|] eqn:Hr; [|done]. bools. exists r. split_and!; [done..|].
  apply map_eq. intros k. rewrite lookup_alter, lookup_insert. case_decide; [subst|done].
  by rewrite Hr.
Qed.

Lemma lookup_drop_before before t k r :
  dropUnsettledBefore before t !! k = Some r ↔
  t !! k = Some r ∧ (settled_at r = None → before <= bound_at r).
Proof.
  unfold dropUnsettledBefore. rewrite map_lookup_filter_Some. simpl.
  rewrite negb_true_iff, andb_false_iff. unfold unsettled.
  rewrite bool_decide_eq_false, Z.ltb_ge. destruct (decide (settled_at r = None)); naive_solver.
Qed.

Lemma rows_elem t r : identifiers_ok t → r ∈ rows t ↔ t !! row_id r = Some r.
Proof.
  intros Hok. unfold rows. rewrite list_elem_of_fmap. split.
  - intros ([k r'] & -> & Hk%elem_of_map_to_list). simpl.
    destruct (io_key _ Hok _ _ Hk) as [-> _]. done.
  - intros Hr. exists (row_id r, r). split; [done|]. by apply elem_of_map_to_list.
Qed.

Lemma lookup_drop_beyond keep t k r :
  identifiers_ok t →
  dropUnsettledBeyond keep t !! k = Some r ↔
  t !! k = Some r ∧ (settled_at r = None →
    r ∈ newest_k newest_bound (Z.to_nat keep) (List.filter unsettled (rows t))).
Proof.
  intros Hok. unfold dropUnsettledBeyond. rewrite map_lookup_filter_Some. simpl.
  rewrite negb_true_iff, andb_false_iff. unfold unsettled at 1.
  rewrite !bool_decide_eq_false. split; intros [Hk H]; (split; [done|]).
  - intros Hs. destruct H as [H|H]; [done|]. apply dec_stable in H.
    apply list_elem_of_fmap in H as (q & Hq & Hin).
    assert (q = r) as ->; [|done].
    pose proof (newest_k_elem _ _ _ _ Hin) as Hf. apply elem_of_lfilter in Hf as [Hf _].
    apply rows_elem in Hf; [|done]. congruence.
  - destruct (decide (settled_at r = None)) as [Hs|]; [right|by left].
    intros Hn. apply Hn, list_elem_of_fmap. exists r.
    destruct (io_key _ Hok _ _ Hk) as [-> _]. auto.
Qed.

Lemma identifiers_ok_sub t t' :
  identifiers_ok t → (∀ k r, t' !! k = Some r → t !! k = Some r) → identifiers_ok t'.
Proof. intros [H1 H2] Hsub. constructor; intros k r Hk%Hsub; eauto. Qed.

Lemma prune_identifiers_spec before keep t n t' :
  prune before keep t = Ok (n, t') →
  1 <= keep ∧ t' = dropUnsettledBeyond keep (dropUnsettledBefore before t)
  ∧ n = Z.of_nat (size t) - Z.of_nat (size t').
Proof.
  unfold prune. intros H. inv_tx.
  match goal with H : millis _ _ = _ |- _ => apply millis_ok in H as [? ->] end.
  match goal with H : positiveInteger _ _ = _ |- _ => apply positiveInteger_ok in H as [? ->] end.
  match goal with H : tput _ _ = Ok _ |- _ => unfold tput in H; inv_tx end.
  split_and!; [lia|done|lia].
Qed.

Lemma drop_before_ok before t : identifiers_ok t → identifiers_ok (dropUnsettledBefore before t).
Proof. intros H. apply (identifiers_ok_sub t); [done|]. by intros k r [? _]%lookup_drop_before. Qed.

Lemma identifier_step_ok t t' : identifiers_ok t → identifier_step t t' → identifiers_ok t'.
Proof.
  intros Hok [id print intent at_ b H|id payer txh at_ H|before keep n H].
  - apply bind_spec in H as (Hid & Hpr & H).
    destruct (t !! id) as [r|] eqn:Hr; destruct H as [H1 H2]; subst; [done|].
    constructor; intros k q; rewrite lookup_insert; case_decide; try apply Hok.
    all: intros [= <-]; subst; done.
  - apply record_settled_spec in H as (r & Hr & Hs & ->).
    destruct (io_key _ Hok _ _ Hr) as (? & ? & ?).
    constructor; intros k q; rewrite lookup_insert; case_decide; try apply Hok;
      intros [= <-]; subst; done.
  - apply prune_identifiers_spec in H as (_ & -> & _). apply (identifiers_ok_sub t); [done|].
    intros k r [H _]%lookup_drop_beyond; [|by apply drop_before_ok].
    by apply lookup_drop_before in H as [? _].
Qed.

Lemma identifiers_reachable t : star identifier_step ∅ t → identifiers_ok t.
Proof.
  apply star_invariant; [apply identifier_step_ok|].
  constructor; intros k r; by rewrite lookup_empty.
Qed.

Lemma settled_step t t' k r :
  identifiers_ok t → identifier_step t t' → t !! k = Some r → settled_at r ≠ None →
  t' !! k = Some r.
Proof.
  intros Hok [id print intent at_ b H|id payer txh at_ H|before keep n H] Hk Hs.
  - apply bind_spec in H as (_ & _ & H).
    destruct (t !! id) as [q|] eqn:Hq; destruct H as [H1 H2]; subst; [done|].
    rewrite lookup_insert_ne; [done|congruence].
  - apply record_settled_spec in H as (q & Hq & Hn & ->).
    rewrite lookup_insert_ne; [done|congruence].
  - apply prune_identifiers_spec in H as (_ & -> & _).
    apply lookup_drop_beyond; [by apply drop_before_ok|].
    split; [|done]. by apply lookup_drop_before.
Qed.

(** A payment identifier that settled is settled for good. After any later
    history of binds, records and prunes its row is exactly what [record] wrote: a
    bind of the same request and intent replays that payment, a bind that changed
    the request or the intent is refused with it, and a second [record] throws. *)
Theorem settled_identifier_final id payer txh at_ t t1 t2 :
  star identifier_step ∅ t →
  record id payer txh at_ t = Ok (tt, t1) →
  star identifier_step t1 t2 →
  let paid := {| rp_payer := payer; rp_txHash := txh |} in
  ∃ r, t2 !! id = Some r ∧ settledHalf r = Some paid
  ∧ (∀ print intent at' b t3, bind id print intent at' t2 = Ok (b, t3) →
       t3 = t2
       ∧ (fingerprint r = print → payment_intent_id r = intent → b = bind_settled paid)
       ∧ (fingerprint r ≠ print → b = bind_conflict conflict_fingerprint (Some paid))
       ∧ (fingerprint r = print → payment_intent_id r ≠ intent →
            b = bind_conflict conflict_payment_intent (Some paid)))
  ∧ (∀ payer' txh' at' t3, record id payer' txh' at' t2 ≠ Ok (tt, t3)).
Proof.
  intros Hok%identifiers_reachable Hrec Hstar paid.
  pose proof (identifier_step_ok _ _ Hok (step_record _ _ _ _ _ _ Hrec)) as Hok1.
  apply record_settled_spec in Hrec as (r0 & Hr0 & Hs0 & ->).
  set (r := settle_row payer txh at_ r0) in *. exists r.
  assert (H2 : identifiers_ok t2 ∧ t2 !! id = Some r).
  { apply (star_invariant identifier_step (λ x, identifiers_ok x ∧ x !! id = Some r)
      (<[id := r]> t) t2); [|split; [done|apply lookup_insert_eq]|done].
    intros a b [? ?] Hst. split; [by eapply identifier_step_ok|by eapply settled_step]. }
  destruct H2 as [Hok2 Hr]. split_and!; [done..| |].
  - intros print intent at' b t3 (_ & _ & H)%bind_spec. rewrite Hr in H.
    destruct H as [-> ->]. split_and!; [done|..].
    + intros <- <-. by rewrite !bool_decide_true by done.
    + intros Hne. by rewrite bool_decide_false by done.
    + intros <- Hne. by rewrite bool_decide_true, bool_decide_false by done.
  - intros payer' txh' at' t3 (q & Hq & Hn & _)%record_settled_spec. rewrite Hr in Hq.
    by injection Hq as <-.
Qed.

(** A bind claims an identifier exactly once and tells the truth about it: it
    answers "new" only for an identifier that is unclaimed, which it then claims for
    this request and intent, or claimed by this very request and intent and not yet
    settled; in no other case does it write. *)
Theorem bind_claims_once id print intent at_ t b t' :
  bind id print intent at_ t = Ok (b, t') →
  (t !! id = None ∧ b = bind_new ∧
     ∃ r, t' = <[id := r]> t ∧ fingerprint r = print ∧ payment_intent_id r = intent
          ∧ settledHalf r = None ∧ bound_at r = at_)
  ∨ (∃ r, t !! id = Some r ∧ t' = t
     ∧ (b = bind_new ↔ fingerprint r = print ∧ payment_intent_id r = intent ∧ settledHalf r = None)
     ∧ (∀ p, b = bind_settled p ↔
          fingerprint r = print ∧ payment_intent_id r = intent ∧ settledHalf r = Some p)).
Proof.
  intros (_ & _ & H)%bind_spec. destruct (t !! id) as [r|].
  - right. exists r. destruct H as [-> ->]. do 2 (split; [done|]).
    repeat case_bool_decide; destruct (settledHalf r); naive_solver.
  - left. destruct H as [-> ->]. split_and!; [done..|]. by eexists.
Qed.

Lemma NoDup_rows t : identifiers_ok t → NoDup (rows t).
Proof.
  intros Hok. apply NoDup_fmap_2_strong; [|apply NoDup_map_to_list].
  intros [k1 r1] [k2 r2] H1%elem_of_map_to_list H2%elem_of_map_to_list. simpl. intros <-.
  destruct (io_key _ Hok _ _ H1) as [<- _], (io_key _ Hok _ _ H2) as [<- _]. done.
Qed.

Lemma unsettled_kept keep t :
  identifiers_ok t →
  List.filter unsettled (rows (dropUnsettledBeyond keep t)) ≡ₚ
  newest_k newest_bound (Z.to_nat keep) (List.filter unsettled (rows t)).
Proof.
  intros Hok. assert (Hok' : identifiers_ok (dropUnsettledBeyond keep t)).
  { apply (identifiers_ok_sub t); [done|]. by intros k r [? _]%lookup_drop_beyond. }
  apply NoDup_Permutation.
  - by apply NoDup_lfilter, NoDup_rows.
  - unfold newest_k. eapply sublist_NoDup; [|apply sublist_take].
    rewrite merge_sort_Permutation. by apply NoDup_lfilter, NoDup_rows.
  - intros r. rewrite elem_of_lfilter, rows_elem, lookup_drop_beyond by done.
    assert (Hu : unsettled r = true ↔ settled_at r = None) by apply bool_decide_eq_true.
    rewrite Hu. split; [naive_solver|]. intros Hn. pose proof (newest_k_elem _ _ _ _ Hn) as Hr.
    apply elem_of_lfilter in Hr as [Hr Hs]. apply rows_elem in Hr; [|done].
    unfold unsettled in Hs. bools. done.
Qed.

Lemma unsettled_live before t :
  identifiers_ok t →
  List.filter unsettled (rows (dropUnsettledBefore before t)) ≡ₚ
  List.filter (λ r, unsettled r && (before <=? bound_at r)) (rows t).
Proof.
  intros Hok. pose proof (drop_before_ok before t Hok) as Hok1.
  apply NoDup_Permutation; [by apply NoDup_lfilter, NoDup_rows..|].
  intros r. rewrite !elem_of_lfilter, !rows_elem, lookup_drop_before by done.
  unfold unsettled. rewrite andb_true_iff, bool_decide_eq_true, Z.leb_le. naive_solver.
Qed.

(** Pruning deletes no settled identifier, keeps the newest [keepUnsettled]
    unsettled ones bound at or after the cutoff, rewrites none of what it keeps, and
    returns the number of rows it deleted. *)
Theorem prune_keeps_settled before keep t n t' :
  star identifier_step ∅ t →
  prune before keep t = Ok (n, t') →
  let live := List.filter (λ r, unsettled r && (before <=? bound_at r)) (rows t) in
  (∀ k r, t !! k = Some r → settled_at r ≠ None → t' !! k = Some r)
  ∧ (∀ k r, t' !! k = Some r → t !! k = Some r ∧ (settled_at r = None → before <= bound_at r))
  ∧ (∀ r s, r ∈ live → s ∈ live → t' !! row_id r = Some r → t' !! row_id s = None →
       newest_bound r s)
  ∧ Z.of_nat (length (List.filter unsettled (rows t'))) = Z.min keep (Z.of_nat (length live))
  ∧ n = Z.of_nat (size t) - Z.of_nat (size t').
Proof.
  intros Hok%identifiers_reachable H live.
  pose proof (prune_identifiers_spec _ _ _ _ _ H) as (Hk & Ht & ->).
  pose proof (drop_before_ok before t Hok) as Hok1. split_and!; [..|done].
  - intros k r Hr Hs. eapply (settled_step t t'); [done|by eapply step_prune|done..].
  - intros k r Hr. rewrite Ht in Hr. apply lookup_drop_beyond in Hr as [Hr _]; [|done].
    by apply lookup_drop_before.
  - intros r s Hr Hs Hin Hout. rewrite Ht in Hin, Hout.
    unfold live in Hr, Hs. apply elem_of_lfilter in Hr as [Hr1 Hr2], Hs as [Hs1 Hs2]. bools.
    unfold unsettled in *. bools. apply rows_elem in Hr1, Hs1; [|done..].
    apply lookup_drop_beyond in Hin as [Hin Hnew]; [|done].
    assert (Hs3 : dropUnsettledBefore before t !! row_id s = Some s)
      by (by apply lookup_drop_before).
    apply (newest_k_dominates _ (Z.to_nat keep)
      (List.filter unsettled (rows (dropUnsettledBefore before t)))); [by apply Hnew| |].
    + apply elem_of_lfilter. unfold unsettled. rewrite rows_elem by done.
      split; [done|]. by apply bool_decide_eq_true.
    + intros Hn. apply eq_None_not_Some in Hout. apply Hout. exists s.
      by apply lookup_drop_beyond.
  - rewrite Ht, unsettled_kept, newest_k_length, unsettled_live by done. fold live. lia.
Qed.

(** ** Witnesses *)

Definition ex_id : string := "pay_0123456789abcdef".
Definition ex_print : string := string_of_list_ascii (replicate 64 "7"%char).
Definition table_of {A} (r : result (A * identifiers)) : identifiers :=
  match r with Ok (_, t) => t | Throw _ => ∅ end.
Definition ex_bound := table_of (bind ex_id ex_print "0x01" 1000 ∅).
Definition ex_paid := table_of (record ex_id "0xbuyer" (Some "0xfeed") 1100 ex_bound).

Lemma ex_bound_reachable : star identifier_step ∅ ex_bound.
Proof.
  eapply star_step; [apply star_refl|].
  eapply (step_bind _ _ ex_id ex_print "0x01" 1000). vm_compute. reflexivity.
Qed.

Example ex_conflict :
  is_ok (bind ex_id ex_print "0x02" 1200 ex_paid) = true.
Proof. vm_compute. reflexivity. Qed.

Lemma settled_identifier_final_witness :
  ∃ r, ex_paid !! ex_id = Some r
       ∧ settledHalf r = Some {| rp_payer := "0xbuyer"; rp_txHash := Some "0xfeed" |}.
Proof.
  destruct (settled_identifier_final ex_id "0xbuyer" (Some "0xfeed") 1100 ex_bound ex_paid ex_paid
    ex_bound_reachable) as (r & H1 & H2 & _); [vm_compute; reflexivity|apply star_refl|].
  exists r. split; [exact H1|exact H2].
Defined.

Lemma bind_claims_once_witness :
  bind ex_id ex_print "0x01" 1000 ∅ = Ok (bind_new, ex_bound) ∧ is_Some (ex_bound !! ex_id).
Proof.
  assert (H : bind ex_id ex_print "0x01" 1000 ∅ = Ok (bind_new, ex_bound))
    by (vm_compute; reflexivity).
  split; [exact H|].
  destruct (bind_claims_once _ _ _ _ _ _ _ H) as [(_ & _ & r & -> & _)|(r & H' & _)].
  - rewrite lookup_insert_eq. eexists. reflexivity.
  - rewrite lookup_empty in H'. discriminate H'.
Defined.

Lemma prune_keeps_settled_witness :
  ∃ t', prune 2000 5 ex_bound = Ok (1, t') ∧ 1 = Z.of_nat (size ex_bound) - Z.of_nat (size t').
Proof.
  destruct (returns_value (prune 2000 5 ex_bound)) as (n & t' & H); [vm_compute; reflexivity|].
  assert (Hn : n = 1) by (vm_compute in H; injection H as <- _; reflexivity).
  exists t'. rewrite <- Hn. split; [exact H|].
  exact (proj2 (proj2 (proj2 (proj2 (prune_keeps_settled 2000 5 ex_bound n t'
    ex_bound_reachable H))))).
Defined.
