(* ===== verification/Admissions.v ===== *)
(** * Arcade admissions

    [openArcadeStore] of [packages/store/src/arcade.ts]: the tickets a paid game
    play goes through (reserve, bindIntent, ready or fail, consume) and the daily
    counter of model calls.  [arcade_admissions] is the list of its rows in rowid
    order; [crypto.randomUUID] and [Date.now] are arguments. *)

From Stdlib Require Import ZArith Lia Ascii String.
From stdpp Require Import base gmap strings list fin_maps.
From S2P Require Import Prelude Validate.
Open Scope string_scope.
Open Scope Z_scope.

Inductive ArcadeGame := stamp | race | shop.
#[export] Instance ArcadeGame_eq_dec : EqDecision ArcadeGame.
Proof. solve_decision. Defined.

Inductive AdmissionStatus := pending | unknown | rejected | ready_ | consumed.
#[export] Instance AdmissionStatus_eq_dec : EqDecision AdmissionStatus.
Proof. solve_decision. Defined.

Record Admission := {
  adm_id : string; requestId : string; game : ArcadeGame; status : AdmissionStatus;
  intent : option string; runId : option string; adm_error : option string; createdAt : Z;
}.
#[export] Instance Admission_eq_dec : EqDecision Admission.
Proof. solve_decision. Defined.

Definition AdmissionError (code : string) : js_error := JsError "AdmissionError" code.

Record ArcadeDb := { admissions : list Admission; model_calls : gmap string Z }.
Definition set_admissions f (s : ArcadeDb) :=
  {| admissions := f (admissions s); model_calls := model_calls s |}.

(** The groups of a UUID: [/^[0-9a-f]{8}-[0-9a-f]{4}-4[0-9a-f]{3}-[89ab][0-9a-f]{3}-[0-9a-f]{12}$/i] *)
Fixpoint re_seq (l : list (ascii → bool)) (s : list ascii) : bool :=
  match l, s with
  | [], [] => true
  | p :: l, c :: s => p c && re_seq l s
  | _, _ => false
  end.
Definition UUID (s : string) : bool :=
  let h := is_hex in
  let dash := λ c, Ascii.eqb c "-" in
  let variant := λ c, in_range "8" "9" c || in_range "a" "b" c || in_range "A" "B" c in
  re_seq ([h;h;h;h;h;h;h;h;dash;h;h;h;h;dash;(λ c, Ascii.eqb c "4");h;h;h;dash;
           variant;h;h;h;dash;h;h;h;h;h;h;h;h;h;h;h;h])%list (chars s).

Definition uuid (value : string) : result string :=
  throws negb (UUID value) with AdmissionError "invalid_id"; Ok (toLowerCase value).
Definition hash (value : string) : result string :=
  throws negb (re_0x is_hex 64 value) with AdmissionError "invalid_intent";
  Ok (toLowerCase value).

Definition byRequest (r : string) (t : list Admission) : option Admission :=
  List.find (λ a, String.eqb (requestId a) r) t.
Definition byId (i : string) (t : list Admission) : option Admission :=
  List.find (λ a, String.eqb (adm_id a) i) t.
Definition unresolved (a : Admission) : bool :=
  match status a with pending | unknown => true | _ => false end.

(** [game] is one of the three by its type, so the check of the list never fires. *)
Definition reserve (requestId_ : string) (game_ : ArcadeGame) (newId : string) (now : Z) :
    tx ArcadeDb (Admission * bool) :=
  let! request := tlift (uuid requestId_) in
  let! s := tget in
  match byRequest request (admissions s) with
  | Some existing =>
      throws! negb (bool_decide (game existing = game_)) with AdmissionError "request_conflict";
      tret (existing, false)
  | None =>
      throws! existsb unresolved (admissions s) with AdmissionError "unresolved_payment";
      throws! bool_decide (is_Some (byId newId (admissions s)))
        with SQLiteError "UNIQUE constraint failed: arcade_admissions.id";
      let row := {| adm_id := newId; requestId := request; game := game_; status := pending;
                    intent := None; runId := None; adm_error := None; createdAt := now |} in
      let! _ := tmodify (set_admissions (λ t, t ++ [row])%list) in
      tret (row, true)
  end.

(** [UPDATE arcade_admissions SET ... WHERE id = ? AND guard] *)
Definition update_where (i : string) (guard : Admission → bool) (f : Admission → Admission)
    (t : list Admission) : list Admission :=
  (λ a, if String.eqb (adm_id a) i && guard a then f a else a) <$> t.
Definition matches (i : string) (guard : Admission → bool) (t : list Admission) : bool :=
  existsb (λ a, String.eqb (adm_id a) i && guard a) t.

Definition with_intent (i : string) (a : Admission) :=
  {| adm_id := adm_id a; requestId := requestId a; game := game a; status := status a;
     intent := Some i; runId := runId a; adm_error := adm_error a; createdAt := createdAt a |}.
Definition with_status (st : AdmissionStatus) (err : option string) (a : Admission) :=
  {| adm_id := adm_id a; requestId := requestId a; game := game a; status := st;
     intent := intent a; runId := runId a; adm_error := err; createdAt := createdAt a |}.
Definition with_run (r : string) (a : Admission) :=
  {| adm_id := adm_id a; requestId := requestId a; game := game a; status := consumed;
     intent := intent a; runId := Some r; adm_error := adm_error a; createdAt := createdAt a |}.

Definition bindable (i : string) (a : Admission) : bool :=
  bool_decide (status a = pending)
  && (bool_decide (intent a = None) || bool_decide (intent a = Some i)).

Definition bindIntent (id intent_ : string) : tx ArcadeDb unit :=
  let! h := tlift (hash intent_) in
  let! id := tlift (uuid id) in
  let! s := tget in
  throws! matches id (bindable h) (admissions s)
          && existsb (λ a, negb (String.eqb (adm_id a) id)
                           && bool_decide (intent a = Some h)) (admissions s)
    with SQLiteError "UNIQUE constraint failed: arcade_admissions.intent";
  throws! negb (matches id (bindable h) (admissions s)) with AdmissionError "intent_conflict";
  tmodify (set_admissions (update_where id (bindable h) (with_intent h))).

(** [ready]: the UPDATE and the read back use [id] as it was passed. *)
Definition ready (id intent_ : string) : tx ArcadeDb (option Admission) :=
  let! lower := tlift (uuid id) in
  let! s := tget in
  match byId lower (admissions s) with
  | None => tthrow (AdmissionError "intent_conflict")
  | Some ticket =>
      let! h := tlift (hash intent_) in
      throws! negb (bool_decide (intent ticket = Some h)) with AdmissionError "intent_conflict";
      match status ticket with
      | ready_ | consumed => tret (Some ticket)
      | rejected => tthrow (AdmissionError "ticket_not_ready")
      | pending | unknown =>
          let! _ := tmodify (set_admissions
                      (update_where id (λ _, true) (with_status ready_ None))) in
          tgets (λ s, byId id (admissions s))
      end
  end.

(** [/^[A-Z_]{1,64}$/] *)
Definition ERROR_CODE : string → bool := re_class (λ c, is_upper c || Ascii.eqb c "_") 1 64.

(** [status] is "unknown" or "rejected" by its type. *)
Definition fail_ (id : string) (rejected_ : bool) (code : string) : tx ArcadeDb unit :=
  throws! negb (ERROR_CODE code) with AdmissionError "invalid_error_code";
  let! id := tlift (uuid id) in
  tmodify (set_admissions (update_where id unresolved
    (with_status (if rejected_ then rejected else unknown) (Some code)))).

Definition consume (id runId_ : string) : tx ArcadeDb Admission :=
  let! id := tlift (uuid id) in
  let! run := tlift (uuid runId_) in
  let! s := tget in
  match byId id (admissions s) with
  | None => tthrow (AdmissionError "ticket_not_found")
  | Some ticket =>
      if bool_decide (status ticket = consumed) then
        throws! negb (bool_decide (runId ticket = Some run))
          with AdmissionError "ticket_already_consumed";
        tret ticket
      else
        throws! negb (bool_decide (status ticket = ready_)) with AdmissionError "ticket_not_ready";
        throws! existsb (λ a, bool_decide (runId a = Some run)) (admissions s)
          with AdmissionError "run_conflict";
        let! _ := tmodify (set_admissions (update_where id (λ _, true) (with_run run))) in
        let! s := tget in
        match byId id (admissions s) with
        | Some t => tret t
        | None => tthrow (TypeError "null is not an object")
        end
  end.

Definition modelCalls (day : string) (s : ArcadeDb) : Z := default 0 (model_calls s !! day).
Definition reserveModelCall (day : string) (limit : Z) : tx ArcadeDb bool :=
  throws! negb (DAY day) || (limit <? 1) || (1000 <? limit)
    with TypeError "invalid call budget";
  let! s := tget in
  match model_calls s !! day with
  | None =>
      let! _ := tput {| admissions := admissions s; model_calls := <[day := 1]> (model_calls s) |} in
      tret true
  | Some calls =>
      if calls <? limit then
        let! _ := tput {| admissions := admissions s;
                          model_calls := <[day := calls + 1]> (model_calls s) |} in
        tret true
      else tret false
  end.

(** ** Rows only move forward *)

Definition rank (st : AdmissionStatus) : Z :=
  match st with pending => 0 | unknown => 1 | ready_ => 2 | rejected => 3 | consumed => 3 end.
Definition final (a : Admission) : Prop := status a = rejected ∨ status a = consumed.

Record evolves (a b : Admission) : Prop := {
  ev_same : adm_id b = adm_id a ∧ requestId b = requestId a ∧ game b = game a
            ∧ createdAt b = createdAt a;
  ev_intent : ∀ i, intent a = Some i → intent b = Some i;
  ev_rank : rank (status a) <= rank (status b);
  ev_final : final a → b = a;
}.

Lemma evolves_refl a : evolves a a.
Proof. by constructor. Qed.
Lemma evolves_trans a b c : evolves a b → evolves b c → evolves a c.
Proof.
  intros [(?&?&?&?) Hi Hr Hf] [(?&?&?&?) Hi' Hr' Hf']. constructor.
  - split_and!; congruence.
  - auto.
  - lia.
  - intros Ha. rewrite <- (Hf Ha) in Ha |- *. by apply Hf'.
Qed.

Definition rows_evolve (t t' : list Admission) : Prop :=
  ∃ u v, t' = (u ++ v)%list ∧ Forall2 evolves t u.

Lemma rows_evolve_update t i g f :
  (∀ a, a ∈ t → adm_id a = i → g a = true → evolves a (f a)) →
  rows_evolve t (update_where i g f t).
Proof.
  intros Hf. exists (update_where i g f t), []. split; [by rewrite app_nil_r|].
  unfold update_where. induction t as [|a t IH]; [constructor|]. rewrite fmap_cons.
  constructor; [|apply IH; set_solver].
  destruct (String.eqb_spec (adm_id a) i); [|apply evolves_refl].
  simpl. destruct (g a) eqn:E; [apply Hf; set_solver|apply evolves_refl].
Qed.

Lemma Forall2_evolves_refl t : Forall2 evolves t t.
Proof. induction t; constructor; [apply evolves_refl|done]. Qed.

Lemma Forall2_evolves_trans t u v :
  Forall2 evolves t u → Forall2 evolves u v → Forall2 evolves t v.
Proof.
  intros H. revert v. induction H as [|a b t u Hab _ IH]; intros v Hv.
  - by apply Forall2_nil_inv_l in Hv as ->.
  - apply Forall2_cons_inv_l in Hv as (c & w & Hbc & Hw & ->).
    constructor; [by eapply evolves_trans|by apply IH].
Qed.

Lemma rows_evolve_refl t : rows_evolve t t.
Proof. exists t, []. split; [by rewrite app_nil_r|apply Forall2_evolves_refl]. Qed.
Lemma rows_evolve_app t v : rows_evolve t (t ++ v)%list.
Proof. exists t, v. split; [done|apply Forall2_evolves_refl]. Qed.
Lemma rows_evolve_trans t1 t2 t3 : rows_evolve t1 t2 → rows_evolve t2 t3 → rows_evolve t1 t3.
Proof.
  intros (u & v & -> & H1) (u' & v' & -> & H2).
  apply Forall2_app_inv_l in H2 as (w1 & w2 & Hw1 & Hw2 & ->).
  exists w1, (w2 ++ v')%list. split; [by rewrite app_assoc|].
  by eapply Forall2_evolves_trans.
Qed.

Inductive arcade_step (s s' : ArcadeDb) : Prop :=
  | step_reserve r g i now a : UUID i = true → toLowerCase i = i →
      reserve r g i now s = Ok (a, s') → arcade_step s s'
  | step_bind i h : bindIntent i h s = Ok (tt, s') → arcade_step s s'
  | step_ready i h o : ready i h s = Ok (o, s') → arcade_step s s'
  | step_fail i b c : fail_ i b c s = Ok (tt, s') → arcade_step s s'
  | step_consume i r a : consume i r s = Ok (a, s') → arcade_step s s'
  | step_call d l b : reserveModelCall d l s = Ok (b, s') → arcade_step s s'.

Definition empty_arcade : ArcadeDb := {| admissions := []; model_calls := ∅ |}.

Record arcade_ok (s : ArcadeDb) : Prop := {
  ao_ids : NoDup (adm_id <$> admissions s);
  ao_requests : NoDup (requestId <$> admissions s);
  ao_lower : ∀ a, a ∈ admissions s → UUID (adm_id a) = true ∧ toLowerCase (adm_id a) = adm_id a;
  ao_one : (length (List.filter unresolved (admissions s)) <= 1)%nat;
  ao_run : ∀ a, a ∈ admissions s → (status a = consumed ↔ is_Some (runId a));
  ao_runs : ∀ a b, a ∈ admissions s → b ∈ admissions s → is_Some (runId a) →
    runId a = runId b → a = b;
}.

(** An update in place: the same ids and requests, no new unresolved row. *)
Lemma update_ids i g f t :
  (∀ a, adm_id (f a) = adm_id a ∧ requestId (f a) = requestId a) →
  adm_id <$> update_where i g f t = adm_id <$> t
  ∧ requestId <$> update_where i g f t = requestId <$> t.
Proof.
  intros Hf. unfold update_where. rewrite <- !list_fmap_compose.
  split; apply list_fmap_ext; intros _ a _; simpl; destruct (_ && _); try done; apply Hf.
Qed.

Lemma update_unresolved i g f t :
  (∀ a, unresolved (f a) = true → g a = true → unresolved a = true) →
  (length (List.filter unresolved (update_where i g f t))
   <= length (List.filter unresolved t))%nat.
Proof.
  intros Hf. unfold update_where. induction t as [|a t IH]; [done|]. rewrite fmap_cons. simpl.
  destruct (String.eqb (adm_id a) i); simpl; [|destruct (unresolved a); simpl; lia].
  destruct (g a) eqn:Hg; simpl; [|destruct (unresolved a); simpl; lia].
  destruct (unresolved (f a)) eqn:E; [rewrite (Hf a) by done|]; destruct (unresolved a);
    simpl; lia.
Qed.

Lemma byId_Some i t a : byId i t = Some a → a ∈ t ∧ adm_id a = i.
Proof. intros [Hin He]%find_some. apply list_elem_of_In in Hin. by bools. Qed.

Lemma find_none_eqb {A} (key : A → string) i (t : list A) :
  List.find (λ a, String.eqb (key a) i) t = None → i ∉ (key <$> t).
Proof.
  intros H (o & -> & Hin)%list_elem_of_fmap. apply list_elem_of_In in Hin.
  pose proof (find_none _ _ H _ Hin) as Hn. cbv beta in Hn. by rewrite String.eqb_refl in Hn.
Qed.

Lemma find_key {A} (key : A → string) (t : list A) a :
  NoDup (key <$> t) → a ∈ t → List.find (λ x, String.eqb (key x) (key a)) t = Some a.
Proof.
  induction t as [|b t IH]; [by intros _ ?%not_elem_of_nil|].
  rewrite fmap_cons. intros [Hb Hnd]%NoDup_cons Hin. simpl.
  destruct (String.eqb_spec (key b) (key a)) as [He|He].
  - apply elem_of_cons in Hin as [->|Hin]; [done|]. exfalso. apply Hb. rewrite He.
    by apply list_elem_of_fmap_2.
  - apply elem_of_cons in Hin as [->|Hin]; [done|]. by apply IH.
Qed.

Lemma id_inj s a b :
  arcade_ok s → a ∈ admissions s → b ∈ admissions s → adm_id a = adm_id b → a = b.
Proof.
  intros Hok Ha Hb He. pose proof (find_key adm_id _ a (ao_ids _ Hok) Ha) as H1.
  rewrite He, (find_key adm_id _ b (ao_ids _ Hok) Hb) in H1. congruence.
Qed.

Lemma update_elem i g f t b :
  b ∈ update_where i g f t →
  ∃ a, a ∈ t ∧ b = (if String.eqb (adm_id a) i && g a then f a else a).
Proof. by intros (a & -> & Ha)%list_elem_of_fmap; exists a. Qed.

(** Updates that do not touch the run. *)
Lemma update_ok s i g f :
  arcade_ok s →
  (∀ a, adm_id (f a) = adm_id a ∧ requestId (f a) = requestId a ∧ runId (f a) = runId a) →
  (∀ a, unresolved (f a) = true → g a = true → unresolved a = true) →
  (∀ a, a ∈ admissions s → adm_id a = i → g a = true →
     (status (f a) = consumed ↔ status a = consumed)) →
  arcade_ok (set_admissions (update_where i g f) s).
Proof.
  intros Hok Hf Hu Hc. destruct (update_ids i g f (admissions s)) as [H1 H2];
    [intros a; by destruct (Hf a) as (-> & -> & _)|].
  constructor; simpl.
  - rewrite H1. apply Hok.
  - rewrite H2. apply Hok.
  - intros b (a & Ha & ->)%update_elem. destruct (_ && _); [|by apply Hok].
    destruct (Hf a) as (-> & _). by apply Hok.
  - etrans; [by apply update_unresolved|apply Hok].
  - intros b (a & Ha & ->)%update_elem. destruct (_ && _) eqn:E; [|by apply Hok].
    bools. destruct (Hf a) as (_ & _ & ->). rewrite Hc by done. by apply Hok.
  - assert (Hr : ∀ a, runId (if String.eqb (adm_id a) i && g a then f a else a) = runId a)
      by (intros a; destruct (_ && _); [apply Hf|done]).
    intros b b' (a & Ha & ->)%update_elem (a' & Ha' & ->)%update_elem. rewrite !Hr.
    intros Hs He. by rewrite (ao_runs _ Hok a a').
Qed.

(** What each operation that returns did. *)
Lemma uuid_ok i j : uuid i = Ok j ↔ UUID i = true ∧ j = toLowerCase i.
Proof. unfold uuid. destruct (UUID i); simpl; naive_solver. Qed.
Lemma hash_ok h j : hash h = Ok j ↔ re_0x is_hex 64 h = true ∧ j = toLowerCase h.
Proof. unfold hash. destruct (re_0x _ _ h); simpl; naive_solver. Qed.

Ltac inv_ids :=
  repeat match goal with
  | H : uuid _ = Ok _ |- _ => apply uuid_ok in H as [? ->]
  | H : hash _ = Ok _ |- _ => apply hash_ok in H as [? ->]
  end.

Lemma byId_lower s i a : arcade_ok s → byId i (admissions s) = Some a → toLowerCase i = i.
Proof. intros Hok (Ha & <-)%byId_Some. by apply (ao_lower _ Hok). Qed.

Lemma ready_spec i h s o s' :
  ready i h s = Ok (o, s') →
  UUID i = true ∧ re_0x is_hex 64 h = true
  ∧ ∃ t, byId (toLowerCase i) (admissions s) = Some t ∧ intent t = Some (toLowerCase h)
    ∧ (((status t = ready_ ∨ status t = consumed) ∧ o = Some t ∧ s' = s)
       ∨ (unresolved t = true
          ∧ s' = set_admissions (update_where i (λ _, true) (with_status ready_ None)) s
          ∧ o = byId i (admissions s'))).
Proof.
  unfold ready. intros H. inv_tx. inv_ids. destruct (byId _ _) as [t|] eqn:Ht; [|inv_tx].
  inv_tx. inv_ids. bools. split_and!; [done..|]. exists t. split_and!; [done..|].
  unfold unresolved. destruct (status t) eqn:E; inv_tx; naive_solver.
Qed.

Lemma consume_spec i r s a s' :
  arcade_ok s → consume i r s = Ok (a, s') →
  ∃ t, byId (toLowerCase i) (admissions s) = Some t
  ∧ ((status t = consumed ∧ runId t = Some (toLowerCase r) ∧ a = t ∧ s' = s)
     ∨ (status t = ready_ ∧ a = with_run (toLowerCase r) t
        ∧ (∀ b, b ∈ admissions s → runId b ≠ Some (toLowerCase r))
        ∧ s' = set_admissions (update_where (toLowerCase i) (λ _, true)
                                 (with_run (toLowerCase r))) s)).
Proof.
  intros Hok H. unfold consume in H. inv_tx. inv_ids.
  destruct (byId _ _) as [t|] eqn:Ht; [|inv_tx]. exists t. split; [done|].
  destruct (bool_decide (status t = consumed)) eqn:Ec; bools; inv_tx; bools; [by left|right].
  simpl in H. destruct (byId_Some _ _ _ Ht) as [Hin Hid].
  destruct (update_ids (toLowerCase i) (λ _, true) (with_run (toLowerCase r)) (admissions s))
    as [Hids _]; [done|].
  assert (Hb : byId (toLowerCase i) (update_where (toLowerCase i) (λ _, true)
                (with_run (toLowerCase r)) (admissions s)) = Some (with_run (toLowerCase r) t)).
  { replace (toLowerCase i) with (adm_id (with_run (toLowerCase r) t)) at 1 by done.
    apply (find_key adm_id); [rewrite Hids; apply Hok|].
    apply list_elem_of_fmap. exists t. split; [|done]. by rewrite Hid, String.eqb_refl. }
  rewrite Hb in H. inv_tx. split_and!; try done.
  intros b Hb' Hr. match goal with H : existsb _ _ = false |- _ =>
    apply not_true_iff_false in H; apply H end.
  apply existsb_exists. exists b. split; [by apply list_elem_of_In|]. by apply bool_decide_eq_true.
Qed.

Lemma consume_ok i r s a s' :
  arcade_ok s → consume i r s = Ok (a, s') → arcade_ok s'.
Proof.
  intros Hok H. destruct (consume_spec _ _ _ _ _ Hok H) as
    (t & Ht & [(_ & _ & _ & ->)|(Hst & _ & Hfree & ->)]); [done|].
  set (i' := toLowerCase i) in *. set (r' := toLowerCase r) in *.
  destruct (byId_Some _ _ _ Ht) as [Hin Hid].
  destruct (update_ids i' (λ _, true) (with_run r') (admissions s)) as [H1 H2]; [done|].
  assert (Hcase : ∀ b, b ∈ update_where i' (λ _, true) (with_run r') (admissions s) →
     b = with_run r' t ∨ (b ∈ admissions s ∧ adm_id b ≠ i')).
  { intros b (a' & Ha & ->)%update_elem. rewrite andb_true_r.
    destruct (String.eqb_spec (adm_id a') i'); [left|by right].
    f_equal. eapply id_inj; [done..|congruence]. }
  constructor; simpl.
  - rewrite H1. apply Hok.
  - rewrite H2. apply Hok.
  - intros b [->|[Hb _]]%Hcase; [|by apply Hok]. by apply (ao_lower _ Hok t).
  - etrans; [by apply update_unresolved|apply Hok].
  - intros b [->|[Hb _]]%Hcase; [|by apply Hok]. simpl. split; [by eexists|done].
  - intros b b' [->|[Hb Hne]]%Hcase [->|[Hb' Hne']]%Hcase Hs He; try done; simpl in *.
    + exfalso. by apply (Hfree b').
    + exfalso. by apply (Hfree b).
    + by apply (ao_runs _ Hok).
Qed.

Lemma reserve_ok r g i now a s s' :
  arcade_ok s → UUID i = true → toLowerCase i = i →
  reserve r g i now s = Ok (a, s') → arcade_ok s'.
Proof.
  intros Hok Hi Hl H. unfold reserve in H. inv_tx. inv_ids.
  destruct (byRequest _ _) as [e|] eqn:He; [by inv_tx|]. inv_tx. bools.
  apply (find_none_eqb requestId) in He.
  match goal with H : ¬ is_Some _ |- _ => rewrite <- eq_None_not_Some in H;
    apply (find_none_eqb adm_id) in H; rename H into Hnew end.
  match goal with H : existsb _ _ = false |- _ => rename H into Hun end.
  assert (Hz : List.filter unresolved (admissions s) = []).
  { clear -Hun. induction (admissions s) as [|b t IH]; [done|]. simpl in *. bools.
    match goal with H : unresolved b = false |- _ => rewrite H end. auto. }
  assert (Hno : ∀ b, b ∈ admissions s → runId b = None → status b ≠ consumed).
  { intros b Hb Hr Hc. apply (ao_run _ Hok b Hb) in Hc. rewrite Hr in Hc. by destruct Hc. }
  constructor; simpl.
  - rewrite fmap_app. apply NoDup_app. split; [apply Hok|]. split; [|apply NoDup_singleton].
    by intros x Hx ->%list_elem_of_singleton.
  - rewrite fmap_app. apply NoDup_app. split; [apply Hok|]. split; [|apply NoDup_singleton].
    by intros x Hx ->%list_elem_of_singleton.
  - intros b [Hb| ->%list_elem_of_singleton]%elem_of_app; [by apply Hok|done].
  - rewrite List.filter_app, length_app, Hz. simpl. lia.
  - intros b [Hb| ->%list_elem_of_singleton]%elem_of_app; [by apply Hok|].
    simpl. split; [done|by intros [? ?]].
  - intros b b' [Hb| ->%list_elem_of_singleton]%elem_of_app
      [Hb'| ->%list_elem_of_singleton]%elem_of_app Hs Heq; try done.
    + by apply (ao_runs _ Hok).
    + simpl in Heq. rewrite Heq in Hs. by destruct Hs.
    + by destruct Hs.
Qed.

Lemma arcade_step_ok s s' : arcade_ok s → arcade_step s s' → arcade_ok s'.
Proof.
  intros Hok [r g i now a Hi Hl H|i h H|i h o H|i b c H|i r a H|d l b H].
  - by eapply reserve_ok.
  - unfold bindIntent in H. inv_tx. apply update_ok; try done.
  - apply ready_spec in H as (_ & _ & t & Ht & _ & [(_ & _ & ->)|(Hu & -> & _)]); [done|].
    apply update_ok; try done.
    intros a Ha Hid _. simpl. split; [done|]. intros Hc. exfalso.
    assert (toLowerCase i = i) as Hlow by (rewrite <- Hid; by apply (ao_lower _ Hok)).
    rewrite Hlow in Ht. destruct (byId_Some _ _ _ Ht) as [Hin Hid'].
    assert (a = t) as -> by (apply (id_inj s); [done..|congruence]).
    unfold unresolved in Hu. by rewrite Hc in Hu.
  - unfold fail_ in H. inv_tx. apply update_ok; try done.
    intros a _ _ Hu. simpl. unfold unresolved in Hu. split; intros E; destruct b, (status a); discriminate.
  - by eapply consume_ok.
  - unfold reserveModelCall in H. inv_tx.
    destruct Hok. destruct (model_calls s !! d) as [z|]; [destruct (z <? l)|];
    inv_tx; repeat match goal with H : tput _ _ = Ok _ |- _ => unfold tput in H; inv_tx end; by constructor.
Qed.

Lemma empty_arcade_ok : arcade_ok empty_arcade.
Proof.
  constructor; simpl; [constructor|constructor| |lia| |].
  - by intros a ?%not_elem_of_nil.
  - by intros a ?%not_elem_of_nil.
  - by intros a b ?%not_elem_of_nil.
Qed.

Lemma arcade_reachable s : star arcade_step empty_arcade s → arcade_ok s.
Proof. apply star_invariant, empty_arcade_ok. apply arcade_step_ok. Qed.

(** *** Every step only moves rows forward *)

Lemma step_evolves s s' :
  arcade_ok s → arcade_step s s' → rows_evolve (admissions s) (admissions s').
Proof.
  intros Hok [r g i now a Hi Hl H|i h H|i h o H|i b c H|i r a H|d l b H].
  - unfold reserve in H. inv_tx. destruct (byRequest _ _); inv_tx;
      [apply rows_evolve_refl|apply rows_evolve_app].
  - unfold bindIntent in H. inv_tx. apply rows_evolve_update. intros a _ _ Hg.
    unfold bindable in Hg. bools. constructor; try done; simpl.
    + intros j Hj. match goal with H : _ || _ = true |- _ => apply orb_true_iff in H as [H|H] end;
        bools; congruence.
    + intros [Hf|Hf]; congruence.
  - apply ready_spec in H as (_ & _ & t & Ht & _ & [(_ & _ & ->)|(Hu & -> & _)]);
      [apply rows_evolve_refl|].
    apply rows_evolve_update. intros a Ha Hid _.
    assert (toLowerCase i = i) as Hlow by (rewrite <- Hid; by apply (ao_lower _ Hok)).
    rewrite Hlow in Ht. destruct (byId_Some _ _ _ Ht) as [Hin Hid'].
    assert (a = t) as -> by (eapply id_inj; [done..|congruence]).
    unfold unresolved in Hu. constructor; simpl; try done.
    + by destruct (status t).
    + intros [Hf|Hf]; by rewrite Hf in Hu.
  - unfold fail_ in H. inv_tx. apply rows_evolve_update. intros a _ _ Hu.
    unfold unresolved in Hu. constructor; simpl; try done.
    + by destruct (status a), b.
    + intros [Hf|Hf]; by rewrite Hf in Hu.
  - destruct (consume_spec _ _ _ _ _ Hok H) as
      (t & Ht & [(_ & _ & _ & ->)|(Hst & _ & _ & ->)]); [apply rows_evolve_refl|].
    apply rows_evolve_update. intros x Ha Hid _.
    destruct (byId_Some _ _ _ Ht) as [Hin Hid'].
    assert (x = t) as -> by (apply (id_inj s); [done..|congruence]).
    constructor; simpl; [done|done|by rewrite Hst|].
    intros [Hf|Hf]; congruence.
  - unfold reserveModelCall in H. inv_tx.
    destruct (model_calls s !! d) as [z|]; [destruct (z <? l)|]; inv_tx;
    repeat match goal with H : tput _ _ = Ok _ |- _ => unfold tput in H; inv_tx end;
    apply rows_evolve_refl.
Qed.

Lemma star_evolves s s' :
  arcade_ok s → star arcade_step s s' →
  arcade_ok s' ∧ rows_evolve (admissions s) (admissions s').
Proof.
  intros Hok Hst. induction Hst as [s|s1 s2 s3 _ IH Hstep]; [split; [done|apply rows_evolve_refl]|].
  destruct (IH Hok) as [Hok2 Hev]. split; [by eapply arcade_step_ok|].
  eapply rows_evolve_trans; [done|by apply step_evolves].
Qed.

Lemma evolved_row s s' a :
  arcade_ok s' → rows_evolve (admissions s) (admissions s') → a ∈ admissions s →
  ∃ b, byId (adm_id a) (admissions s') = Some b ∧ evolves a b.
Proof.
  intros Hok (u & v & Hu & HF) (n & Hn)%list_elem_of_lookup.
  destruct (Forall2_lookup_l _ _ _ _ _ HF Hn) as (b & Hb & Hab).
  exists b. split; [|done]. destruct (ev_same _ _ Hab) as [<- _].
  apply (find_key adm_id); [apply Hok|]. rewrite Hu. apply elem_of_app. left.
  by apply list_elem_of_lookup_2 in Hb.
Qed.

(** A game ticket is spent on one run only. Over every history at most one
    payment is unresolved; every ticket keeps its request, game and, once bound, its
    payment intent, and only moves forward; and once [consume] has returned a
    ticket, that ticket stays as it is: consuming it again for the same run
    returns it unchanged and for any other run throws, and no other ticket is ever
    spent on that run. *)
Theorem ticket_spent_once i r a s s1 s2 :
  star arcade_step empty_arcade s →
  consume i r s = Ok (a, s1) →
  star arcade_step s1 s2 →
  (length (List.filter unresolved (admissions s2)) <= 1)%nat
  ∧ (∀ b, b ∈ admissions s → ∃ b', byId (adm_id b) (admissions s2) = Some b' ∧ evolves b b')
  ∧ consume i r s2 = Ok (a, s2)
  ∧ (∀ r', UUID r' = true → toLowerCase r' ≠ toLowerCase r →
       consume i r' s2 = Throw (AdmissionError "ticket_already_consumed"))
  ∧ (∀ b, b ∈ admissions s2 → runId b = Some (toLowerCase r) → b = a).
Proof.
  intros Hok%arcade_reachable Hc Hst.
  pose proof (arcade_step_ok _ _ Hok (step_consume _ _ _ _ _ Hc)) as Hok1.
  pose proof (step_evolves _ _ Hok (step_consume _ _ _ _ _ Hc)) as Hev1.
  destruct (star_evolves _ _ Hok1 Hst) as [Hok2 Hev2].
  assert (Hre : UUID i = true ∧ UUID r = true).
  { unfold consume in Hc. inv_tx. inv_ids. done. }
  destruct Hre as [Hi Hr].
  assert (Ha : a ∈ admissions s1 ∧ adm_id a = toLowerCase i ∧ status a = consumed
               ∧ runId a = Some (toLowerCase r)).
  { destruct (consume_spec _ _ _ _ _ Hok Hc) as
      (t & Ht & [(Hs & Hrun & -> & ->)|(Hs & -> & _ & ->)]);
      destruct (byId_Some _ _ _ Ht) as [Hin Hid]; [done|].
    split_and!; try done. apply list_elem_of_fmap. exists t. split; [|done].
    by rewrite Hid, String.eqb_refl. }
  destruct Ha as (Ha & Hid & Hs & Hrun).
  destruct (evolved_row _ _ a Hok2 Hev2 Ha) as (a' & Ha' & Hfin).
  assert (a' = a) as -> by (apply (ev_final _ _ Hfin); by right).
  rewrite Hid in Ha'. destruct (byId_Some _ _ _ Ha') as [Hin2 _].
  assert (Hcons : ∀ r', UUID r' = true → consume i r' s2
    = if bool_decide (runId a = Some (toLowerCase r')) then Ok (a, s2)
      else Throw (AdmissionError "ticket_already_consumed")).
  { intros r' Hr'. unfold consume. rewrite (tlift_run _ _ _ (toLowerCase i)) by (by apply uuid_ok).
    rewrite (tlift_run _ _ _ (toLowerCase r')) by (by apply uuid_ok).
    rewrite (tbind_run tget _ s2 s2 s2) by done. cbv beta. rewrite Ha', bool_decide_true by done.
    by destruct (bool_decide (runId a = _)). }
  split_and!.
  - apply Hok2.
  - intros b Hb. apply (evolved_row s); [done|by eapply rows_evolve_trans|done].
  - rewrite Hcons by done. by rewrite bool_decide_true.
  - intros r' Hr' Hne. rewrite Hcons by done. rewrite bool_decide_false; [done|congruence].
  - intros b Hb Hrb. apply (ao_runs _ Hok2); [done..| |congruence]. rewrite Hrb. by eexists.
Qed.

(** The daily model-call budget holds: a reservation is granted exactly while
    the day's count is below the limit, it adds one to that day and touches no other,
    so no day's count ever passes the limit it was granted under. *)
Theorem model_call_budget day limit s b s' :
  reserveModelCall day limit s = Ok (b, s') →
  1 <= limit <= 1000 ∧ DAY day = true
  ∧ (b = true → modelCalls day s' = modelCalls day s + 1
                ∧ modelCalls day s' <= limit)
  ∧ (b = false → s' = s ∧ limit <= modelCalls day s)
  ∧ (∀ d, d ≠ day → modelCalls d s' = modelCalls d s)
  ∧ admissions s' = admissions s.
Proof.
  unfold reserveModelCall, modelCalls. intros H. inv_tx. bools.
  destruct (model_calls s !! day) as [n|] eqn:Hd; [destruct (n <? limit) eqn:E|]; inv_tx; bools;
  repeat match goal with H : tput _ _ = Ok _ |- _ => unfold tput in H; inv_tx end; simpl;
  rewrite ?lookup_insert_eq, ?Hd; simpl; split_and!; try done; try lia;
  try (intros; split_and!; (done || lia));
  intros d Hne; by rewrite lookup_insert_ne.
Qed.

(** ** Witnesses *)

Definition ex_uuid (c : ascii) : string :=
  string_of_list_ascii (list_ascii_of_string "aaaaaaaa-bbbb-4ccc-8ddd-eeeeeeeeeee" ++ [c])%list.
Definition ex_intent : string :=
  String "0" (String "x" (string_of_list_ascii (replicate 64 "C"%char))).
Definition arcade_of {A} (r : result (A * ArcadeDb)) : ArcadeDb :=
  match r with Ok (_, s) => s | Throw _ => empty_arcade end.
Definition ex_reserved := arcade_of (reserve (ex_uuid "1") race (ex_uuid "2") 5 empty_arcade).
Definition ex_intended := arcade_of (bindIntent (ex_uuid "2") ex_intent ex_reserved).
Definition ex_ready := arcade_of (ready (ex_uuid "2") ex_intent ex_intended).

Lemma ex_ready_reachable : star arcade_step empty_arcade ex_ready.
Proof.
  eapply star_step; [eapply star_step; [eapply star_step; [apply star_refl|]|]|].
  - eapply (step_reserve _ ex_reserved (ex_uuid "1") race (ex_uuid "2") 5);
      vm_compute; reflexivity.
  - eapply (step_bind _ ex_intended (ex_uuid "2") ex_intent). vm_compute. reflexivity.
  - eapply (step_ready _ _ (ex_uuid "2") ex_intent). vm_compute. reflexivity.
Qed.

Lemma ticket_spent_once_witness :
  ∃ a s1, consume (ex_uuid "2") (ex_uuid "3") ex_ready = Ok (a, s1)
    ∧ consume (ex_uuid "2") (ex_uuid "4") s1
      = Throw (AdmissionError "ticket_already_consumed").
Proof.
  destruct (returns_value (consume (ex_uuid "2") (ex_uuid "3") ex_ready)) as (a & s1 & H);
    [vm_compute; reflexivity|].
  exists a, s1. split; [exact H|].
  apply (ticket_spent_once (ex_uuid "2") (ex_uuid "3") a ex_ready s1 s1 ex_ready_reachable H
    (star_refl _ _)); [vm_compute; reflexivity|vm_compute; discriminate].
Defined.

Lemma model_call_budget_witness :
  reserveModelCall "2026-01-02" 0 ex_ready = Throw (TypeError "invalid call budget")
  ∧ ∃ s', reserveModelCall "2026-01-02" 1 ex_ready = Ok (true, s')
          ∧ modelCalls "2026-01-02" s' = modelCalls "2026-01-02" ex_ready + 1.
Proof.
  split; [vm_compute; reflexivity|].
  destruct (returns_value (reserveModelCall "2026-01-02" 1 ex_ready)) as (b & s' & H);
    [vm_compute; reflexivity|].
  assert (Hb : b = true) by (vm_compute in H; injection H as <- _; reflexivity).
  subst b. exists s'. split; [exact H|].
  exact (proj1 (proj1 (proj2 (proj2 (model_call_budget _ _ _ _ _ H))) eq_refl)).
Defined.

(** [ready] with the ticket's id in upper case finds the ticket, updates no row and
    returns null: the UPDATE and the read back use the id as it was passed. *)
Definition ex_upper : string := "AAAAAAAA-BBBB-4CCC-8DDD-EEEEEEEEEEE2".
Lemma ready_misses_upper_case :
  toLowerCase ex_upper = ex_uuid "2"
  ∧ ready ex_upper ex_intent ex_intended = Ok (None, ex_intended).
Proof. split; vm_compute; reflexivity. Qed.
