(* ===== verification/FaucetLedger.v ===== *)
(** * The faucet's claim ledger

    [openFaucetStore] of [packages/store/src/faucet.ts]: one row per claim, from
    its reservation through the signed bytes to an outcome, and the daily counts
    of refusals.  [faucet_claims] is the list of its rows in rowid order; the id
    [crypto.randomUUID] draws is an argument of [reserve]. *)

From Stdlib Require Import ZArith Lia Ascii String.
From stdpp Require Import base gmap strings list fin_maps sorting.
From S2P Require Import Prelude Dates.
Open Scope string_scope.
Open Scope Z_scope.

Inductive FaucetClaimKind := musdc | eth.
#[export] Instance FaucetClaimKind_eq_dec : EqDecision FaucetClaimKind.
Proof. solve_decision. Defined.
#[export] Instance FaucetClaimKind_countable : Countable FaucetClaimKind.
Proof.
  apply (inj_countable' (λ k, match k with musdc => true | eth => false end)
    (λ b : bool, if b then musdc else eth)). by intros [].
Defined.
Inductive FaucetClaimState := reserved | signed | sent | confirmed | failed | skipped.
#[export] Instance FaucetClaimState_eq_dec : EqDecision FaucetClaimState.
Proof. solve_decision. Defined.

Record FaucetClaimRow := {
  id : string; kind : FaucetClaimKind; owner : string; recipient : string;
  ip_key : string; subnet_key : string; amount : Z; state : FaucetClaimState;
  nonce : option Z; tx_hash : option string; raw_tx : option string;
  created_at : Z; updated_at : Z;
}.
#[export] Instance FaucetClaimRow_eq_dec : EqDecision FaucetClaimRow.
Proof. solve_decision. Defined.

Record FaucetReserveInput := {
  in_kind : FaucetClaimKind; in_owner : string; in_recipient : string;
  in_ipKey : string; in_subnetKey : string; in_amount : Z;
}.
Record FaucetReserveLimits := {
  windowMs : Z; dayMs : Z; perIp : Z; perSubnet : Z;
  perDay : option Z; dailyAmount : option Z;
}.
Inductive FaucetAdmission :=
  | adm_inflight (claim : FaucetClaimRow)
  | adm_cooldown (nextAt : Z)
  | adm_rate_limited
  | adm_budget_exhausted.
Inductive FaucetReservation :=
  | reserve_ok (claim : FaucetClaimRow) (created : bool)
  | reserve_refused (refusal : FaucetAdmission).

Record FaucetDb := {
  faucet_claims : list FaucetClaimRow;
  faucet_refusals : gmap (Z * FaucetClaimKind * string) Z;
}.
Definition set_claims f (s : FaucetDb) :=
  {| faucet_claims := f (faucet_claims s); faucet_refusals := faucet_refusals s |}.

(** [ACTIVE] and [INFLIGHT] *)
Definition ACTIVE (st : FaucetClaimState) : bool :=
  match st with reserved | signed | sent | confirmed => true | _ => false end.
Definition INFLIGHT (st : FaucetClaimState) : bool :=
  match st with reserved | signed | sent => true | _ => false end.

Definition DAY_MS : Z := 86400000.
Definition REASON : string → bool := re_class (λ c, is_lower c || Ascii.eqb c "_") 1 40.
Definition ADDRESS : string → bool := re_0x is_lower_hex 40.
Definition KEY : string → bool := re_class is_lower_hex 64 64.

(** [kind] is one of the two by its type. *)
Definition assertReserveInput (input : FaucetReserveInput) (now : Z) : result unit :=
  throws negb (ADDRESS (in_owner input)) || negb (ADDRESS (in_recipient input))
    with TypeError "owner and recipient must be lowercase addresses";
  throws negb (KEY (in_ipKey input)) || negb (KEY (in_subnetKey input))
    with TypeError "network keys must be 32-byte lowercase hex digests";
  throws in_amount input <? 0 with TypeError "amount must be non-negative";
  throws negb (isSafeInteger now) || (now <? 0)
    with TypeError "now must be a non-negative integer";
  Ok tt.

Definition of_kind (k : FaucetClaimKind) (r : FaucetClaimRow) : bool := bool_decide (kind r = k).
Definition mine (k : FaucetClaimKind) (o : string) (r : FaucetClaimRow) : bool :=
  of_kind k r && String.eqb (owner r) o.
Definition counted (k : FaucetClaimKind) (since : Z) (r : FaucetClaimRow) : bool :=
  of_kind k r && (since <? created_at r) && ACTIVE (state r).

Definition byId (i : string) (t : list FaucetClaimRow) : option FaucetClaimRow :=
  List.find (λ r, String.eqb (id r) i) t.
Definition inflight_of (k : FaucetClaimKind) (o : string) (t : list FaucetClaimRow) :=
  List.find (λ r, mine k o r && INFLIGHT (state r)) t.
(** The newest active claim's [created_at]: [ORDER BY created_at DESC LIMIT 1]. *)
Definition lastActive (k : FaucetClaimKind) (o : string) (after : Z) (t : list FaucetClaimRow) :
    option Z :=
  foldr (λ n acc, Some (match acc with Some m => Z.max n m | None => n end)) None
    (created_at <$> List.filter (λ r, String.eqb (owner r) o && counted k after r) t).
Definition countIp (ip : string) (k : FaucetClaimKind) (since : Z) (t : list FaucetClaimRow) : Z :=
  Z.of_nat (length (List.filter (λ r, String.eqb (ip_key r) ip && counted k since r) t)).
Definition countSubnet (sn : string) (k : FaucetClaimKind) (since : Z) (t : list FaucetClaimRow) :=
  Z.of_nat (length (List.filter (λ r, String.eqb (subnet_key r) sn && counted k since r) t)).
Definition dayRows (k : FaucetClaimKind) (since : Z) (t : list FaucetClaimRow) : list Z :=
  amount <$> List.filter (counted k since) t.

Definition admission_ (input : FaucetReserveInput) (now : Z) (limits : FaucetReserveLimits)
    (t : list FaucetClaimRow) : option FaucetAdmission :=
  let k := in_kind input in
  match inflight_of k (in_owner input) t with
  | Some existing => Some (adm_inflight existing)
  | None =>
  match lastActive k (in_owner input) (now - windowMs limits) t with
  | Some last => Some (adm_cooldown (last + windowMs limits))
  | None =>
      let since := now - dayMs limits in
      if perIp limits <=? countIp (in_ipKey input) k since t then Some adm_rate_limited else
      if perSubnet limits <=? countSubnet (in_subnetKey input) k since t
      then Some adm_rate_limited else
      let rows := dayRows k since t in
      if match perDay limits with
         | Some n => n <=? Z.of_nat (length rows) | None => false end
      then Some adm_budget_exhausted else
      if match dailyAmount limits with
         | Some cap => cap <? Zsum rows + in_amount input | None => false end
      then Some adm_budget_exhausted else None
  end end.

(** The public [admission].  The index [faucet_claims_one_inflight] refuses a second
    in-flight row of an owner; the first branch of [admission_] answers before it. *)
Definition admission (input : FaucetReserveInput) (now : Z) (limits : FaucetReserveLimits)
    (s : FaucetDb) : result (option FaucetAdmission) :=
  let? _ := assertReserveInput input now in Ok (admission_ input now limits (faucet_claims s)).

Definition new_claim (i : string) (input : FaucetReserveInput) (now : Z) : FaucetClaimRow :=
  {| id := i; kind := in_kind input; owner := in_owner input; recipient := in_recipient input;
     ip_key := in_ipKey input; subnet_key := in_subnetKey input; amount := in_amount input;
     state := reserved; nonce := None; tx_hash := None; raw_tx := None;
     created_at := now; updated_at := now |}.

Definition reserve (input : FaucetReserveInput) (now : Z) (limits : FaucetReserveLimits)
    (newId : string) : tx FaucetDb FaucetReservation :=
  let! _ := tlift (assertReserveInput input now) in
  let! s := tget in
  match admission_ input now limits (faucet_claims s) with
  | Some (adm_inflight c) => tret (reserve_ok c false)
  | Some refusal => tret (reserve_refused refusal)
  | None =>
      throws! bool_decide (is_Some (byId newId (faucet_claims s)))
        with SQLiteError "UNIQUE constraint failed: faucet_claims.id";
      let row := new_claim newId input now in
      let! _ := tmodify (set_claims (λ t, t ++ [row])%list) in
      tret (reserve_ok row true)
  end.

(** [UPDATE faucet_claims SET state, updated_at, ... WHERE id = ? AND state IN (from)] *)
Definition move (to_ : FaucetClaimState) (now : Z) (r : FaucetClaimRow) : FaucetClaimRow :=
  {| id := id r; kind := kind r; owner := owner r; recipient := recipient r;
     ip_key := ip_key r; subnet_key := subnet_key r; amount := amount r; state := to_;
     nonce := nonce r; tx_hash := tx_hash r; raw_tx := raw_tx r;
     created_at := created_at r; updated_at := now |}.
Definition with_amount (a : Z) (r : FaucetClaimRow) : FaucetClaimRow :=
  {| id := id r; kind := kind r; owner := owner r; recipient := recipient r;
     ip_key := ip_key r; subnet_key := subnet_key r; amount := a; state := state r;
     nonce := nonce r; tx_hash := tx_hash r; raw_tx := raw_tx r;
     created_at := created_at r; updated_at := updated_at r |}.
Definition with_bytes (n : Z) (h raw : string) (r : FaucetClaimRow) : FaucetClaimRow :=
  {| id := id r; kind := kind r; owner := owner r; recipient := recipient r;
     ip_key := ip_key r; subnet_key := subnet_key r; amount := amount r; state := state r;
     nonce := Some n; tx_hash := Some h; raw_tx := Some raw;
     created_at := created_at r; updated_at := updated_at r |}.
Definition in_states (l : list FaucetClaimState) (r : FaucetClaimRow) : bool :=
  bool_decide (state r ∈ l).

(** The table's last CHECK: a row past [reserved] that may have been broadcast has its bytes. *)
Definition has_bytes (r : FaucetClaimRow) : bool :=
  match state r with
  | reserved | skipped | failed => true
  | _ => bool_decide (is_Some (nonce r)) && bool_decide (is_Some (tx_hash r))
         && bool_decide (is_Some (raw_tx r))
  end.

Definition transition (i : string) (from : list FaucetClaimState) (to_ : FaucetClaimState)
    (now : Z) (set_ : FaucetClaimRow → FaucetClaimRow) : tx FaucetDb bool :=
  let! s := tget in
  let hit r := String.eqb (id r) i && in_states from r in
  let f r := if hit r then set_ (move to_ now r) else r in
  throws! existsb (λ r, hit r && negb (has_bytes (f r))) (faucet_claims s)
    with SQLiteError "CHECK constraint failed: faucet_claims";
  let! _ := tmodify (set_claims (fmap f)) in
  tret (existsb hit (faucet_claims s)).

Definition markSigned (i : string) (amount_ nonce_ : Z) (txHash rawTx : string) (now : Z) :
    tx FaucetDb bool :=
  throws! (amount_ <=? 0) || negb (isSafeInteger nonce_) || (nonce_ <? 0)
    with TypeError "a signed claim needs a positive amount and a nonce";
  throws! negb (re_0x is_lower_hex 64 txHash)
          || negb (match strip_0x rawTx with
                   | Some t => (1 <=? slen t) && forallb is_lower_hex (chars t)
                   | None => false end)
    with TypeError "a signed claim needs its lowercase hash and raw bytes";
  transition i [reserved] signed now (λ r, with_bytes nonce_ txHash rawTx (with_amount amount_ r)).
Definition markSent (i : string) (now : Z) := transition i [signed; sent] sent now (λ r, r).
Definition markConfirmed (i : string) (now : Z) :=
  transition i [signed; sent] confirmed now (λ r, r).
Definition markFailed (i : string) (now : Z) :=
  transition i [reserved; signed; sent] failed now (λ r, r).
Definition markSkipped (i : string) (now : Z) :=
  transition i [reserved] skipped now (with_amount 0).

(** [ORDER BY created_at DESC, rowid DESC LIMIT 1] *)
Definition latest (k : FaucetClaimKind) (o : string) (s : FaucetDb) : option FaucetClaimRow :=
  foldl (λ best r, match best with
                   | Some b => if created_at b <=? created_at r then Some r else best
                   | None => Some r end) None
    (List.filter (mine k o) (faucet_claims s)).

(** Wei and number of the claims signed but not finished. *)
Definition inflight (s : FaucetDb) : Z * Z :=
  let rows := List.filter (in_states [signed; sent]) (faucet_claims s) in
  (Zsum ((λ r, if of_kind eth r then amount r else 0) <$> rows), Z.of_nat (length rows)).

(** [ORDER BY nonce, created_at], a null nonce first. *)
Definition by_nonce (a b : FaucetClaimRow) : Prop :=
  let n r := default (-1) (nonce r) in
  n a < n b ∨ (n a = n b ∧ created_at a <= created_at b).
#[export] Instance by_nonce_dec : RelDecision by_nonce.
Proof. unfold by_nonce. intros a b. apply _. Defined.
Definition unsettled (s : FaucetDb) : list FaucetClaimRow :=
  merge_sort by_nonce (List.filter (λ r, INFLIGHT (state r)) (faucet_claims s)).

Definition holds_nonce (r : FaucetClaimRow) : bool := in_states [signed; sent; confirmed] r.
Definition nextNonce (s : FaucetDb) : Z :=
  foldr (λ n acc, Z.max (n + 1) acc) 0
    (omap nonce (List.filter holds_nonce (faucet_claims s))).

Definition countRefusal (k : FaucetClaimKind) (reason : string) (now : Z) : tx FaucetDb unit :=
  throws! negb (REASON reason) with TypeError "reason must be a lowercase refusal code";
  throws! negb (isSafeInteger now) || (now <? 0)
    with TypeError "now must be a non-negative integer";
  let key := (now / DAY_MS, k, reason) in
  tmodify (λ s, {| faucet_claims := faucet_claims s;
    faucet_refusals := <[key := default 0 (faucet_refusals s !! key) + 1]> (faucet_refusals s) |}).

(** The groups of [outcomes], kinds and states in text order. *)
Definition all_states : list FaucetClaimState := [confirmed; failed; reserved; sent; signed; skipped].
Definition outcome_claims (since : Z) (s : FaucetDb) : list (FaucetClaimKind * FaucetClaimState * Z) :=
  List.filter (λ g, 0 <? g.2)
    (k ← [eth; musdc]; st ← all_states;
     [(k, st, Z.of_nat (length (List.filter (λ r, (since <=? created_at r) && of_kind k r
                                  && bool_decide (state r = st)) (faucet_claims s))))]).
Definition outcome_refusals (since : Z) (s : FaucetDb) :
    list (result string * FaucetClaimKind * string * Z) :=
  let rows := List.filter (λ kv : (Z * FaucetClaimKind * string) * Z, since / DAY_MS <=? kv.1.1.1)
                (map_to_list (faucet_refusals s)) in
  (λ kv, (isoDay (kv.1.1.1 * DAY_MS), kv.1.1.2, kv.1.2, kv.2)) <$> rows.

Definition finished (r : FaucetClaimRow) : bool := in_states [confirmed; failed; skipped] r.
Definition prune (before : Z) : tx FaucetDb Z := λ s,
  let claims := List.filter (λ r, negb ((created_at r <? before) && finished r)) (faucet_claims s) in
  let refusals := filter (λ kv : (Z * FaucetClaimKind * string) * Z,
                            before / DAY_MS <= kv.1.1.1) (faucet_refusals s) in
  Ok (Z.of_nat (length (faucet_claims s)) - Z.of_nat (length claims)
      + (Z.of_nat (size (faucet_refusals s)) - Z.of_nat (size refusals)),
      {| faucet_claims := claims; faucet_refusals := refusals |}).

(** ** Lengths and sums of appended tables *)

Lemma filter_snoc {A} (p : A → bool) t r :
  List.filter p (t ++ [r])%list = (List.filter p t ++ if p r then [r] else [])%list.
Proof. rewrite List.filter_app. simpl. by destruct (p r). Qed.

Lemma lastActive_None k o after t :
  lastActive k o after t = None →
  ∀ r, r ∈ t → owner r = o → counted k after r = false.
Proof.
  unfold lastActive. intros H r Hr Ho. apply not_true_iff_false. intros Hc.
  assert (Hin : r ∈ List.filter (λ r, String.eqb (owner r) o && counted k after r) t).
  { apply elem_of_lfilter. split; [done|]. by rewrite Ho, String.eqb_refl, Hc. }
  destruct (List.filter _ t) as [|a l]; [by apply not_elem_of_nil in Hin|].
  rewrite fmap_cons in H. simpl in H. done.
Qed.

Lemma find_None_all {A} (p : A → bool) t : List.find p t = None → ∀ r, r ∈ t → p r = false.
Proof. intros H r Hr%list_elem_of_In. by eapply find_none. Qed.

Lemma filter_none {A} (p : A → bool) t : (∀ r, r ∈ t → p r = false) → List.filter p t = [].
Proof.
  induction t as [|a t IH]; intros H; [done|]. simpl. rewrite (H a), IH by set_solver. done.
Qed.

(** ** Invariant: unique ids, one claim in flight per owner and kind, bytes on file *)

Record faucet_ok (s : FaucetDb) : Prop := {
  fo_ids : NoDup (id <$> faucet_claims s);
  fo_one : ∀ k o, (length (List.filter (λ r, mine k o r && INFLIGHT (state r))
                             (faucet_claims s)) <= 1)%nat;
  fo_bytes : ∀ r, r ∈ faucet_claims s → has_bytes r = true;
  fo_amount : ∀ r, r ∈ faucet_claims s → 0 <= amount r;
}.

(** What each kind of write does to one row. *)
Definition rank (st : FaucetClaimState) : Z :=
  match st with reserved => 0 | signed => 1 | sent => 2 | _ => 3 end.
Record life (r r' : FaucetClaimRow) : Prop := {
  li_same : id r' = id r ∧ kind r' = kind r ∧ owner r' = owner r ∧ recipient r' = recipient r
            ∧ ip_key r' = ip_key r ∧ subnet_key r' = subnet_key r
            ∧ created_at r' = created_at r;
  li_rank : rank (state r) <= rank (state r');
  li_finished : finished r = true → r' = r;
  li_bytes : state r ≠ reserved → raw_tx r' = raw_tx r ∧ tx_hash r' = tx_hash r
             ∧ nonce r' = nonce r ∧ amount r' = amount r;
  li_amount : 0 <= amount r → 0 <= amount r';
}.

Lemma life_refl r : life r r.
Proof. by constructor. Qed.

(** A transition updates in place: every row lives on, and none becomes in flight. *)
Definition moves (f : FaucetClaimRow → FaucetClaimRow) : Prop :=
  ∀ r, life r (f r) ∧ (INFLIGHT (state (f r)) = true → INFLIGHT (state r) = true).

Lemma fmap_ok s f :
  faucet_ok s → moves f → (∀ r, r ∈ faucet_claims s → has_bytes (f r) = true) →
  faucet_ok (set_claims (fmap f) s).
Proof.
  intros Hok Hf Hb. constructor; simpl.
  - assert (E : id <$> (f <$> faucet_claims s) = id <$> faucet_claims s).
    { rewrite <- list_fmap_compose. apply list_fmap_ext. intros _ r _. simpl.
      by destruct (li_same _ _ (proj1 (Hf r))) as [-> _]. }
    rewrite E. apply Hok.
  - intros k o. etrans; [|apply (fo_one _ Hok k o)].
    clear Hb. induction (faucet_claims s) as [|a t IH]; [done|]. rewrite fmap_cons. simpl.
    destruct (Hf a) as [Hl Hi]. destruct (li_same _ _ Hl) as (_ & Hk & Ho & _).
    assert (Hm : mine k o (f a) = mine k o a) by (unfold mine, of_kind; by rewrite Hk, Ho).
    rewrite Hm. destruct (mine k o a); cbn [andb]; [|exact IH].
    destruct (INFLIGHT (state (f a))) eqn:E.
    + rewrite Hi by done. cbn [length]. by apply le_n_S.
    + destruct (INFLIGHT (state a)); [cbn [length]; by apply le_S|exact IH].
  - intros r (q & -> & Hq)%list_elem_of_fmap. by apply Hb.
  - intros r (q & -> & Hq)%list_elem_of_fmap. apply (li_amount _ _ (proj1 (Hf q))).
    by apply (fo_amount _ Hok).
Qed.

Lemma transition_spec i from to_ now set_ s b s' :
  transition i from to_ now set_ s = Ok (b, s') →
  let hit r := String.eqb (id r) i && in_states from r in
  let f r := if hit r then set_ (move to_ now r) else r in
  s' = set_claims (fmap f) s ∧ b = existsb hit (faucet_claims s)
  ∧ ∀ r, r ∈ faucet_claims s → has_bytes r = true → has_bytes (f r) = true.
Proof.
  intros H hit f. unfold transition in H. inv_tx. split_and!; [done|done|].
  intros r Hr Hb. destruct (hit r) eqn:Hh; [|by unfold f; rewrite Hh].
  destruct (has_bytes (f r)) eqn:E; [done|]. exfalso.
  match goal with H : existsb _ _ = false |- _ => apply not_true_iff_false in H; apply H end.
  apply existsb_exists. exists r. split; [by apply list_elem_of_In|].
  change (hit r && negb (has_bytes (f r)) = true). by rewrite Hh, E.
Qed.

Lemma transition_ok i from to_ now set_ s b s' :
  faucet_ok s → transition i from to_ now set_ s = Ok (b, s') →
  (∀ r, state r ∈ from → life r (set_ (move to_ now r))
        ∧ (INFLIGHT (state (set_ (move to_ now r))) = true → INFLIGHT (state r) = true)) →
  faucet_ok s' ∧ ∃ f, s' = set_claims (fmap f) s ∧ moves f.
Proof.
  intros Hok H Hset. apply transition_spec in H as (-> & -> & Hb).
  match goal with |- faucet_ok (set_claims (fmap ?g) _) ∧ _ => set (f := g) end.
  assert (Hf : moves f).
  { intros r. unfold f. destruct (_ && _) eqn:E; [|split; [apply life_refl|done]].
    bools. unfold in_states in *. bools. by apply Hset. }
  split; [apply fmap_ok; [done..|]|by exists f].
  intros r Hr. apply Hb; [done|by apply Hok].
Qed.

Lemma mark_life (from : list FaucetClaimState) to_ now set_ r :
  state r ∈ from → (∀ st, st ∈ from → INFLIGHT st = true) →
  (∀ st, st ∈ from → rank st <= rank to_) →
  (∀ q, id (set_ q) = id q ∧ kind (set_ q) = kind q ∧ owner (set_ q) = owner q
        ∧ recipient (set_ q) = recipient q ∧ ip_key (set_ q) = ip_key q
        ∧ subnet_key (set_ q) = subnet_key q ∧ created_at (set_ q) = created_at q
        ∧ state (set_ q) = state q ∧ (0 <= amount q → 0 <= amount (set_ q))) →
  (state r ≠ reserved → ∀ q, set_ q = q) →
  life r (set_ (move to_ now r))
  ∧ (INFLIGHT (state (set_ (move to_ now r))) = true → INFLIGHT (state r) = true).
Proof.
  intros Hr Hin Hrank Hset Hres.
  destruct (Hset (move to_ now r)) as (H1 & H2 & H3 & H4 & H5 & H6 & H7 & H8 & H9).
  pose proof (Hin _ Hr) as Hinf. split; [|done]. constructor.
  - rewrite H1, H2, H3, H4, H5, H6, H7. done.
  - rewrite H8. by apply Hrank.
  - unfold finished, in_states. intros Hf. bools. exfalso.
    rewrite !elem_of_cons in Hf.
    destruct Hf as [Hf|[Hf|[Hf|Hf]]]; try (by rewrite Hf in Hinf).
    by apply not_elem_of_nil in Hf.
  - intros Hne. rewrite Hres by done. done.
  - apply H9.
Qed.

Inductive faucet_step (s s' : FaucetDb) : Prop :=
  | step_reserve input now limits i o : reserve input now limits i s = Ok (o, s') → faucet_step s s'
  | step_signed i a n h raw now b : markSigned i a n h raw now s = Ok (b, s') → faucet_step s s'
  | step_sent i now b : markSent i now s = Ok (b, s') → faucet_step s s'
  | step_confirmed i now b : markConfirmed i now s = Ok (b, s') → faucet_step s s'
  | step_failed i now b : markFailed i now s = Ok (b, s') → faucet_step s s'
  | step_skipped i now b : markSkipped i now s = Ok (b, s') → faucet_step s s'
  | step_refusal k reason now : countRefusal k reason now s = Ok (tt, s') → faucet_step s s'
  | step_prune before n : prune before s = Ok (n, s') → faucet_step s s'.

(** What a reservation that returns did. *)
Lemma reserve_spec input now limits i s o s' :
  reserve input now limits i s = Ok (o, s') →
  assertReserveInput input now = Ok tt
  ∧ ((∃ c, admission_ input now limits (faucet_claims s) = Some (adm_inflight c)
           ∧ o = reserve_ok c false ∧ s' = s)
     ∨ (∃ a, admission_ input now limits (faucet_claims s) = Some a
             ∧ o = reserve_refused a ∧ s' = s)
     ∨ (admission_ input now limits (faucet_claims s) = None
        ∧ i ∉ (id <$> faucet_claims s)
        ∧ o = reserve_ok (new_claim i input now) true
        ∧ s' = set_claims (λ t, t ++ [new_claim i input now])%list s)).
Proof.
  unfold reserve. intros H. inv_tx. split; [done|].
  destruct (admission_ _ _ _ _) as [[]|]; inv_tx; [naive_solver..|].
  bools. right; right. split_and!; try done.
  match goal with H : ¬ is_Some _ |- _ => rewrite <- eq_None_not_Some in H; rename H into Hn end.
  intros (r & -> & Hr)%list_elem_of_fmap. eapply find_None_all in Hn; [|done].
  cbv beta in Hn. by rewrite String.eqb_refl in Hn.
Qed.

Lemma reserve_preserves input now limits i s o s' :
  faucet_ok s → reserve input now limits i s = Ok (o, s') → faucet_ok s'.
Proof.
  intros Hok (Hin & [(c & _ & _ & ->)|[(a & _ & _ & ->)|(Hadm & Hi & _ & ->)]])%reserve_spec;
    [done..|].
  assert (Ham : 0 <= in_amount input).
  { unfold assertReserveInput in Hin. inv_tx. bools. lia. }
  unfold admission_ in Hadm.
  destruct (inflight_of _ _ _) eqn:Hfl; [done|].
  constructor; simpl.
  - rewrite fmap_app. apply NoDup_app. split; [apply Hok|]. split; [|apply NoDup_singleton].
    by intros x Hx ->%list_elem_of_singleton.
  - intros k o'. rewrite filter_snoc. unfold mine at 2, of_kind. simpl.
    destruct (bool_decide_reflect (in_kind input = k)) as [<-|]; simpl;
      [|rewrite app_nil_r; apply Hok].
    destruct (String.eqb_spec (in_owner input) o') as [<-|]; simpl;
      [|rewrite app_nil_r; apply Hok].
    rewrite filter_none; [simpl; lia|]. by apply find_None_all.
  - intros r [Hr| ->%list_elem_of_singleton]%elem_of_app; [by apply Hok|done].
  - intros r [Hr| ->%list_elem_of_singleton]%elem_of_app; [by apply Hok|done].
Qed.

Lemma filter_one {A} (p q : A → bool) t :
  (length (List.filter q t) <= 1)%nat → (length (List.filter q (List.filter p t)) <= 1)%nat.
Proof.
  intros H. etrans; [|exact H]. rewrite lfilter_lfilter.
  induction t as [|a t IH]; [done|]. simpl in *.
  destruct (p a), (q a); simpl in *; lia.
Qed.

Lemma prune_claims_spec before s n s' :
  prune before s = Ok (n, s') →
  faucet_claims s' = List.filter (λ r, negb ((created_at r <? before) && finished r))
                       (faucet_claims s).
Proof. unfold prune. by intros [= _ <-]. Qed.

Lemma prune_preserves before s n s' : faucet_ok s → prune before s = Ok (n, s') → faucet_ok s'.
Proof.
  intros Hok H. apply prune_claims_spec in H. constructor; rewrite H.
  - apply NoDup_fmap_lfilter, Hok.
  - intros k o. apply filter_one, Hok.
  - intros r [Hr _]%elem_of_lfilter. by apply Hok.
  - intros r [Hr _]%elem_of_lfilter. by apply Hok.
Qed.

Lemma mark_states (l : list FaucetClaimState) to_ :
  forallb (λ st, INFLIGHT st && (rank st <=? rank to_)) l = true →
  (∀ st, st ∈ l → INFLIGHT st = true) ∧ (∀ st, st ∈ l → rank st <= rank to_).
Proof.
  intros H. rewrite forallb_forall in H.
  split; intros st Hst%list_elem_of_In%H; by bools.
Qed.

(** Every write of the ledger is a reservation, a transition, a count or a prune. *)
Lemma step_ok s s' :
  faucet_ok s → faucet_step s s' →
  faucet_ok s'
  ∧ ((∃ f, s' = set_claims (fmap f) s ∧ moves f)
     ∨ (∃ u, faucet_claims s' = (faucet_claims s ++ u)%list)
     ∨ ∃ before, faucet_claims s' =
         List.filter (λ r, negb ((created_at r <? before) && finished r)) (faucet_claims s)).
Proof.
  intros Hok H.
  assert (Htr : ∀ i from to_ now set_ b, transition i from to_ now set_ s = Ok (b, s') →
    forallb (λ st, INFLIGHT st && (rank st <=? rank to_)) from = true →
    (∀ q, id (set_ q) = id q ∧ kind (set_ q) = kind q ∧ owner (set_ q) = owner q
        ∧ recipient (set_ q) = recipient q ∧ ip_key (set_ q) = ip_key q
        ∧ subnet_key (set_ q) = subnet_key q ∧ created_at (set_ q) = created_at q
        ∧ state (set_ q) = state q ∧ (0 <= amount q → 0 <= amount (set_ q))) →
    ((∀ q, set_ q = q) ∨ from = [reserved]) →
    faucet_ok s' ∧ ∃ f, s' = set_claims (fmap f) s ∧ moves f).
  { intros i from to_ now set_ b Ht Hl Hset Hid. destruct (mark_states _ _ Hl) as [H1 H2].
    eapply transition_ok; [done..|]. intros r Hr. apply (mark_life from); try done.
    intros Hne. destruct Hid as [Hid| ->]; [done|]. exfalso.
    by apply list_elem_of_singleton in Hr. }
  destruct H as [input now limits i o H|i a n h raw now b H|i now b H|i now b H|i now b H
                |i now b H|k reason now H|before n H].
  - split; [by eapply reserve_preserves|]. right; left.
    apply reserve_spec in H as (_ & [(c & _ & _ & ->)|[(a & _ & _ & ->)|(_ & _ & _ & ->)]]);
      [exists []; by rewrite app_nil_r..|by eexists].
  - unfold markSigned in H. inv_tx. bools.
    edestruct Htr as [? ?]; [exact H|done| |by right|split; [done|by left]].
    intros q. simpl. split_and!; try done; lia.
  - edestruct Htr as [? ?]; [exact H|done| |by left|split; [done|by left]]. done.
  - edestruct Htr as [? ?]; [exact H|done| |by left|split; [done|by left]]. done.
  - edestruct Htr as [? ?]; [exact H|done| |by left|split; [done|by left]]. done.
  - edestruct Htr as [? ?]; [exact H|done| |by right|split; [done|by left]].
    intros q. simpl. split_and!; try done; lia.
  - unfold countRefusal in H. inv_tx. split; [by destruct Hok; constructor|].
    right; left. exists []. simpl. by rewrite app_nil_r.
  - split; [by eapply prune_preserves|]. right; right. exists before. by eapply prune_claims_spec.
Qed.

Definition empty_faucet : FaucetDb := {| faucet_claims := []; faucet_refusals := ∅ |}.

Lemma faucet_reachable s : star faucet_step empty_faucet s → faucet_ok s.
Proof.
  apply star_invariant; [intros a b Ha Hst; by apply (step_ok a)|].
  constructor; simpl; [constructor|intros; lia| |]; by intros r ?%not_elem_of_nil.
Qed.

(** ** What the ledger promises *)

(** A reservation is admitted only inside every limit. When [reserve] creates a
    claim, the table after it holds, for that kind: at most [perIp] counted claims
    of the address bucket and [perSubnet] of the subnet in the rolling day, at most
    [perDay] in all, at most [dailyAmount] wei in all with this claim's included,
    exactly one claim of the owner in flight, and no other counted claim of the
    owner within the window. *)
Theorem reserve_within_limits input now limits i s row s' :
  star faucet_step empty_faucet s →
  reserve input now limits i s = Ok (reserve_ok row true, s') →
  let k := in_kind input in
  let since := now - dayMs limits in
  let t := faucet_claims s' in
  t = (faucet_claims s ++ [row])%list
  ∧ countIp (in_ipKey input) k since t <= perIp limits
  ∧ countSubnet (in_subnetKey input) k since t <= perSubnet limits
  ∧ (∀ n, perDay limits = Some n → Z.of_nat (length (dayRows k since t)) <= n)
  ∧ (∀ cap, dailyAmount limits = Some cap → Zsum (dayRows k since t) <= cap)
  ∧ length (List.filter (λ r, mine k (in_owner input) r && INFLIGHT (state r)) t) = 1%nat
  ∧ (∀ r, r ∈ faucet_claims s → owner r = in_owner input →
       counted k (now - windowMs limits) r = false).
Proof.
  intros Hok%faucet_reachable H k since t.
  apply reserve_spec in H as (Hin & [(c & _ & ? & _)|[(a & _ & ? & _)|(Hadm & Hi & Ho & ->)]]);
    try done. injection Ho as ->. subst t.
  assert (Ham : 0 <= in_amount input).
  { unfold assertReserveInput in Hin. inv_tx. bools. lia. }
  unfold admission_ in Hadm. cbv zeta in Hadm. fold k in Hadm. fold since in Hadm.
  destruct (inflight_of _ _ _) eqn:Hfl; [done|].
  destruct (lastActive _ _ _ _) eqn:Hla; [done|].
  repeat match type of Hadm with (if ?c then _ else _) = _ => destruct c eqn:?; [done|] end.
  bools.
  set (row := new_claim i input now). set (old := faucet_claims s) in *.
  assert (Hlen : ∀ p, Z.of_nat (length (List.filter p (old ++ [row])%list))
                      <= Z.of_nat (length (List.filter p old)) + 1).
  { intros p. rewrite filter_snoc, length_app. destruct (p row); simpl; lia. }
  simpl. fold old. split_and!; try done.
  - unfold countIp. pose proof (Hlen (λ r, String.eqb (ip_key r) (in_ipKey input) && counted k since r)).
    unfold countIp in *. lia.
  - unfold countSubnet in *.
    pose proof (Hlen (λ r, String.eqb (subnet_key r) (in_subnetKey input) && counted k since r)). lia.
  - intros n Hn. rewrite Hn in *. bools. unfold dayRows in *. rewrite length_fmap in *.
    pose proof (Hlen (counted k since)). lia.
  - intros cap Hcap. rewrite Hcap in *. bools. unfold dayRows in *.
    rewrite filter_snoc, fmap_app, Zsum_app.
    destruct (counted k since row); simpl; rewrite ?Zsum_cons; change (Zsum []) with 0; simpl; lia.
  - rewrite filter_snoc, filter_none by (by apply find_None_all).
    unfold mine, of_kind. simpl. by rewrite bool_decide_true, String.eqb_refl by done.
  - intros r Hr Hr2. by eapply lastActive_None.
Qed.

(** A claim's life is one way. From any reachable ledger every step of any
    operation leaves each claim where it was or further along, with the same owner,
    recipient and creation time; a finished claim never changes again; once signed,
    its amount, nonce, hash and raw bytes never change; a claim that may have been
    broadcast always has its bytes on file; a claim in flight is never deleted, and
    no owner ever has two claims of one kind in flight. *)
Theorem claim_life_one_way s s' r :
  star faucet_step empty_faucet s → faucet_step s s' → r ∈ faucet_claims s →
  ((∃ r', byId (id r) (faucet_claims s') = Some r' ∧ life r r')
   ∨ (finished r = true ∧ r ∉ faucet_claims s'))
  ∧ (∀ q, q ∈ faucet_claims s' → has_bytes q = true)
  ∧ (∀ k o, (length (List.filter (λ q, mine k o q && INFLIGHT (state q))
                       (faucet_claims s')) <= 1)%nat).
Proof.
  intros Hok%faucet_reachable Hst Hr.
  destruct (step_ok _ _ Hok Hst) as [Hok' Hcase].
  split; [|split; [apply Hok'|apply Hok']].
  assert (Hby : ∀ q, q ∈ faucet_claims s' → byId (id q) (faucet_claims s') = Some q).
  { intros q Hq. destruct (byId (id q) (faucet_claims s')) as [x|] eqn:Hx.
    - apply find_some in Hx as [Hx He]. bools. apply list_elem_of_In in Hx. f_equal.
      apply list_elem_of_lookup in Hx as [a Ha], Hq as [b Hb].
      pose proof (fo_ids _ Hok') as Hnd. rewrite NoDup_alt in Hnd.
      assert (a = b) as ->; [|congruence].
      apply (Hnd a b (id q)); rewrite list_lookup_fmap; [by rewrite Ha, <- He|by rewrite Hb].
    - eapply find_None_all in Hx; [|done]. cbv beta in Hx. by rewrite String.eqb_refl in Hx. }
  destruct Hcase as [(f & -> & Hf)|[(u & Hu)|(before & Hb)]].
  - left. exists (f r). destruct (Hf r) as [Hl _]. split; [|done].
    destruct (li_same _ _ Hl) as [<- _]. apply Hby. simpl. by apply list_elem_of_fmap_2.
  - left. exists r. split; [|apply life_refl]. apply Hby. rewrite Hu. set_solver.
  - destruct (decide (r ∈ faucet_claims s')) as [Hin|Hin].
    + left. exists r. split; [by apply Hby|apply life_refl].
    + right. split; [|done]. destruct (finished r) eqn:E; [done|]. exfalso. apply Hin.
      rewrite Hb. apply elem_of_lfilter. by rewrite E, andb_false_r.
Qed.

Lemma nextNonce_above s r n :
  r ∈ faucet_claims s → holds_nonce r = true → nonce r = Some n → n < nextNonce s.
Proof.
  intros Hr Hh Hn. unfold nextNonce.
  assert (Hin : n ∈ omap nonce (List.filter holds_nonce (faucet_claims s))).
  { apply list_elem_of_omap. exists r. split; [|done]. by apply elem_of_lfilter. }
  induction (omap _ _) as [|a l IH]; [by apply not_elem_of_nil in Hin|].
  simpl. apply elem_of_cons in Hin as [->|Hin]; [lia|]. specialize (IH Hin). lia.
Qed.

(** ** Witnesses *)

Definition ex_addr (c : ascii) : string :=
  String "0" (String "x" (string_of_list_ascii (replicate 40 c))).
Definition ex_key (c : ascii) : string := string_of_list_ascii (replicate 64 c).
Definition ex_input (c : ascii) : FaucetReserveInput :=
  {| in_kind := eth; in_owner := ex_addr c; in_recipient := ex_addr c; in_ipKey := ex_key c;
     in_subnetKey := ex_key "f"; in_amount := 500 |}.
Definition ex_limits : FaucetReserveLimits :=
  {| windowMs := 7000; dayMs := 1000; perIp := 1; perSubnet := 3; perDay := None;
     dailyAmount := Some 900 |}.
Definition faucet_of {A} (r : result (A * FaucetDb)) : FaucetDb :=
  match r with Ok (_, s) => s | Throw _ => empty_faucet end.
Definition ex_hash : string := String "0" (String "x" (ex_key "a")).
Definition ex_reserved := faucet_of (reserve (ex_input "1") 5000 ex_limits "id-1" empty_faucet).
Definition ex_signed := faucet_of (markSigned "id-1" 500 3 ex_hash "0xbeef" 5001 ex_reserved).

Lemma ex_reserved_reachable : star faucet_step empty_faucet ex_reserved.
Proof.
  eapply star_step; [apply star_refl|].
  eapply (step_reserve _ _ (ex_input "1") 5000 ex_limits "id-1"). vm_compute. reflexivity.
Qed.

Example ex_capped :
  reserve (ex_input "2") 5100 ex_limits "id-2" ex_signed
  = Ok (reserve_refused adm_budget_exhausted, ex_signed).
Proof. vm_compute. reflexivity. Qed.
Example ex_cooldown :
  admission (ex_input "1") 6500 ex_limits
    (faucet_of (markConfirmed "id-1" 5200 (faucet_of (markSent "id-1" 5100 ex_signed))))
  = Ok (Some (adm_cooldown 12000)).
Proof. vm_compute. reflexivity. Qed.

Lemma reserve_within_limits_witness :
  ∃ row, reserve (ex_input "1") 5000 ex_limits "id-1" empty_faucet
         = Ok (reserve_ok row true, ex_reserved)
    ∧ Zsum (dayRows eth 4000 (faucet_claims ex_reserved)) <= 900.
Proof.
  assert (H : reserve (ex_input "1") 5000 ex_limits "id-1" empty_faucet
    = Ok (reserve_ok (new_claim "id-1" (ex_input "1") 5000) true, ex_reserved))
    by (vm_compute; reflexivity).
  eexists. split; [exact H|].
  destruct (reserve_within_limits _ _ _ _ _ _ _ (star_refl _ _) H) as (_ & _ & _ & _ & Hc & _).
  exact (Hc 900 eq_refl).
Defined.

Lemma claim_life_one_way_witness :
  length (faucet_claims ex_signed) = 1%nat
  ∧ forallb has_bytes (faucet_claims ex_signed) = true.
Proof.
  split; [vm_compute; reflexivity|].
  apply forallb_forall. intros q Hq%list_elem_of_In. revert q Hq.
  refine (proj1 (proj2 (claim_life_one_way ex_reserved ex_signed
    (new_claim "id-1" (ex_input "1") 5000) ex_reserved_reachable _ _))).
  - eapply (step_signed _ _ "id-1" 500 3 ex_hash "0xbeef" 5001). vm_compute. reflexivity.
  - vm_compute. left.
Defined.
