(* ===== verification/FaucetPolicy.v ===== *)
(** * The faucet's policy and wire shapes

    [packages/delegation/src/faucet-policy.ts]: the amounts and limits, the top-up
    plan, the mission registry, and the parsers that validate what the page and
    the Worker receive.  [FaucetKind] is the ledger's kind. *)

From Stdlib Require Import ZArith Lia Ascii String.
From stdpp Require Import base gmap strings list.
From S2P Require Import Prelude FaucetLedger.
Open Scope string_scope.
Open Scope Z_scope.

Definition FAUCET_TARGET_BASE : Z := 1000000000.
Definition FAUCET_WINDOW_MS : Z := 86400000.

Definition planTopUp (balance target : Z) : result Z :=
  throws (balance <? 0) || (target <? 0)
    with Error "balance and target must be non-negative base amounts";
  Ok (if balance <? target then target - balance else 0).

Definition FAUCET_KINDS : list string := ["musdc"; "eth"].
Definition FAUCET_ETH_AMOUNT_WEI : Z := 500000000000000.
Definition FAUCET_ETH_WINDOW_MS : Z := 7 * FAUCET_WINDOW_MS.
(** [FAUCET_LIMITS]: (perIp, perSubnet, perDay). *)
Definition FAUCET_LIMITS (k : FaucetClaimKind) : Z * Z * option Z :=
  match k with musdc => (5, 20, Some 1000) | eth => (1, 3, None) end.
Definition FAUCET_LIMIT_WINDOW_MS : Z := FAUCET_WINDOW_MS.

Inductive MissionKind := honour | verified.
#[export] Instance MissionKind_eq_dec : EqDecision MissionKind.
Proof. solve_decision. Defined.
(** [FAUCET_MISSIONS]: id to (kind, href). *)
Definition FAUCET_MISSIONS : list (string * (MissionKind * string)) :=
  [("x_follow_mapae", (honour, "https://x.com/intent/follow?screen_name=mapae_io"))].
Definition FAUCET_MUSDC_MISSIONS : list string := ["x_follow_mapae"].

Definition is_mission (s : string) : bool := existsb (λ m, String.eqb m.1 s) FAUCET_MISSIONS.
Definition isFaucetMissionId (value : jsval) : bool :=
  match value with JStr s => is_mission s | _ => false end.

(** [[...new Set(l)]]: first occurrences, in order. *)
Fixpoint unique (l : list string) : list string :=
  match l with
  | [] => []
  | x :: l' => x :: List.filter (λ y, negb (String.eqb x y)) (unique l')
  end.
Definition parseFaucetMissionList (raw : option string) : result (list string) :=
  let ids := List.filter (λ s, negb (String.eqb s ""))
               ((λ w, trim (string_of_list_ascii w)) <$> split_comma (chars (default "" raw))) in
  match List.find (λ s, negb (is_mission s)) ids with
  | Some bad => Throw (Error ("unknown faucet mission: " ++ bad))
  | None => Ok (unique ids)
  end.

Definition FAUCET_REFUSALS : list string :=
  ["faucet_off"; "login_required"; "mission_incomplete"; "turnstile_failed"; "rate_limited";
   "cooldown"; "not_eligible"; "eligibility_unavailable"; "budget_exhausted"; "faucet_empty";
   "fee_too_high"; "malformed_request"; "unavailable"].

Record TabStatus := {
  enabled : bool; tab_amount : string; tab_windowMs : Z; missions : list string;
}.
Record FaucetStatus := { st_musdc : TabStatus; st_eth : TabStatus }.

(** [view.kind] and [view.state] are kept as the text on the wire. *)
Record FaucetClaimView := {
  v_kind : string; v_state : string; v_amount : string; v_recipient : string;
  v_transaction : option string; v_nextAt : option Z;
}.
#[export] Instance FaucetClaimView_eq_dec : EqDecision FaucetClaimView.
Proof. solve_decision. Defined.
Record FaucetAccount := {
  a_owner : string; a_musdc_to : string; a_eth_to : string;
  a_musdc : option FaucetClaimView; a_eth : option FaucetClaimView;
}.
Record FaucetRefusalBody := { reason : string; r_nextAt : option Z }.

Definition record (value : jsval) : bool := match value with JObj _ => true | _ => false end.
(** [/^(0|[1-9]\d{0,77})$/] *)
Definition DECIMAL (s : string) : bool :=
  String.eqb s "0"
  || match chars s with
     | c :: _ => in_range "1" "9" c && re_class is_digit 1 78 s
     | [] => false
     end.
Definition decimal (value : jsval) : bool :=
  match value with JStr s => DECIMAL s | _ => false end.
Definition INSTANT (n : Z) : bool := isSafeInteger n && (0 <? n) && (n <=? 8640000000000000).
Definition instant (value : jsval) : bool := match value with JNum n => INSTANT n | _ => false end.
Definition windowLength (value : jsval) : bool :=
  match value with JNum n => isSafeInteger n && (0 <? n) | _ => false end.
Definition address (value : jsval) : bool :=
  match value with JStr s => re_0x is_hex 40 s | _ => false end.
Definition txHash (value : jsval) : bool :=
  match value with JStr s => re_0x is_hex 64 s | _ => false end.

Definition missionList (value : jsval) : result (list string) :=
  let bad := Error "faucet missions must be known mission ids" in
  match value with
  | JArr l =>
      throws (16 <? Z.of_nat (length l)) || negb (forallb isFaucetMissionId l) with bad;
      Ok (omap (λ v, match v with JStr s => Some s | _ => None end) l)
  | _ => Throw bad
  end.

Definition is_bool (value : jsval) : bool := match value with JBool _ => true | _ => false end.
(** The text and the number inside a value that passed its check. *)
Definition str_of (value : jsval) : string := match value with JStr s => s | _ => "" end.
Definition num_of (value : jsval) : Z := match value with JNum n => n | _ => 0 end.
Definition is_undefined (value : jsval) : bool :=
  match value with JUndefined => true | _ => false end.

Definition parse_tab (tab : jsval) (amountKey : string) : result TabStatus :=
  let? l := missionList (prop tab "missions") in
  Ok {| enabled := is_true (prop tab "enabled"); tab_amount := str_of (prop tab amountKey);
        tab_windowMs := num_of (prop tab "windowMs"); missions := l |}.
Definition parseFaucetStatus (input : jsval) : result FaucetStatus :=
  let bad := Error "faucet status is malformed" in
  throws negb (record input) || negb (record (prop input "musdc"))
         || negb (record (prop input "eth")) with bad;
  let m := prop input "musdc" in
  let e := prop input "eth" in
  throws negb (is_bool (prop m "enabled")) || negb (decimal (prop m "targetBase"))
         || negb (windowLength (prop m "windowMs")) with bad;
  throws negb (is_bool (prop e "enabled")) || negb (decimal (prop e "amountWei"))
         || negb (windowLength (prop e "windowMs")) with bad;
  let? tm := parse_tab m "targetBase" in
  let? te := parse_tab e "amountWei" in
  Ok {| st_musdc := tm; st_eth := te |}.

Definition CLAIM_STATES : list string := ["pending"; "confirmed"; "failed"; "already_enough"].
Definition includes (l : list string) (value : jsval) : bool :=
  match value with JStr s => existsb (String.eqb s) l | _ => false end.

Definition parseFaucetClaimView (input : jsval) (kind : option string) : result FaucetClaimView :=
  throws negb (record input) || negb (includes FAUCET_KINDS (prop input "kind"))
         || match kind with Some k => negb (is_str (prop input "kind") k) | None => false end
         || negb (includes CLAIM_STATES (prop input "state"))
         || negb (decimal (prop input "amount")) || negb (address (prop input "recipient"))
         || (negb (is_undefined (prop input "transaction"))
             && negb (txHash (prop input "transaction")))
         || (negb (is_undefined (prop input "nextAt")) && negb (instant (prop input "nextAt")))
    with Error "faucet claim is malformed";
  Ok {| v_kind := str_of (prop input "kind"); v_state := str_of (prop input "state");
        v_amount := str_of (prop input "amount"); v_recipient := str_of (prop input "recipient");
        v_transaction := match prop input "transaction" with
                         | JUndefined => None | v => Some (str_of v) end;
        v_nextAt := match prop input "nextAt" with JUndefined => None | v => Some (num_of v) end |}.

Definition parse_slot (v : jsval) (k : string) : result (option FaucetClaimView) :=
  match v with
  | JNull => Ok None
  | _ => let? c := parseFaucetClaimView v (Some k) in Ok (Some c)
  end.
Definition parseFaucetAccount (input : jsval) : result FaucetAccount :=
  let bad := Error "faucet account is malformed" in
  throws negb (record input) || negb (address (prop input "owner"))
         || negb (record (prop input "recipients")) with bad;
  let m := prop (prop input "recipients") "musdc" in
  let e := prop (prop input "recipients") "eth" in
  throws negb (address m) || negb (address e)
         || negb (String.eqb (toLowerCase (str_of e)) (toLowerCase (str_of (prop input "owner"))))
    with bad;
  let? vm := parse_slot (prop input "musdc") "musdc" in
  let? ve := parse_slot (prop input "eth") "eth" in
  Ok {| a_owner := str_of (prop input "owner"); a_musdc_to := str_of m; a_eth_to := str_of e;
        a_musdc := vm; a_eth := ve |}.

Definition parseFaucetRefusal (input : jsval) : option FaucetRefusalBody :=
  if negb (record input) || negb (includes FAUCET_REFUSALS (prop input "reason")) then None
  else if negb (is_undefined (prop input "nextAt")) && negb (instant (prop input "nextAt"))
  then None
  else Some {| reason := str_of (prop input "reason");
               r_nextAt := match prop input "nextAt" with
                           | JUndefined => None | v => Some (num_of v) end |}.

(** ** The plan and the round trip *)

(** A top-up brings a payer to the target and no further: the plan is never
    negative, a balance at or above the target gets nothing, and below it the sum of
    balance and plan is exactly the target. *)
Theorem planTopUp_reaches_target balance target :
  (0 <= balance ∧ 0 <= target →
   ∃ n, planTopUp balance target = Ok n ∧ 0 <= n
        ∧ balance + n = Z.max balance target ∧ (n = 0 ↔ target <= balance))
  ∧ ((balance < 0 ∨ target < 0) → is_ok (planTopUp balance target) = false).
Proof.
  unfold planTopUp. split.
  - intros [Hb Ht]. rewrite !(proj2 (Z.ltb_ge _ 0)) by lia. simpl. eexists. split; [done|].
    destruct (Z.ltb_spec balance target); lia.
  - intros [H|H]; apply Z.ltb_lt in H; rewrite H; simpl; [done|]. by rewrite orb_true_r.
Qed.

(** The JSON a service sends for a view: the optional fields are left out when unset. *)
Definition view_json (v : FaucetClaimView) : jsval :=
  JObj ([("kind", JStr (v_kind v)); ("state", JStr (v_state v)); ("amount", JStr (v_amount v));
         ("recipient", JStr (v_recipient v))]
        ++ match v_transaction v with Some h => [("transaction", JStr h)] | None => [] end
        ++ match v_nextAt v with Some n => [("nextAt", JNum n)] | None => [] end)%list.

Definition view_ok (v : FaucetClaimView) : bool :=
  existsb (String.eqb (v_kind v)) FAUCET_KINDS && existsb (String.eqb (v_state v)) CLAIM_STATES
  && DECIMAL (v_amount v) && re_0x is_hex 40 (v_recipient v)
  && match v_transaction v with Some h => re_0x is_hex 64 h | None => true end
  && match v_nextAt v with Some n => INSTANT n | None => true end.

(** The claim view survives the wire: whatever the parser accepts is a
    well-formed view, of the kind that was asked for, and a well-formed view parses
    back to itself from its JSON. *)
Theorem claim_view_roundtrip :
  (∀ input kind v, parseFaucetClaimView input kind = Ok v →
     view_ok v = true ∧ (∀ k, kind = Some k → v_kind v = k)
     ∧ parseFaucetClaimView (view_json v) kind = Ok v)
  ∧ (∀ v, view_ok v = true → parseFaucetClaimView (view_json v) None = Ok v).
Proof.
  assert (Hback : ∀ v kind, view_ok v = true → (∀ k, kind = Some k → v_kind v = k) →
    parseFaucetClaimView (view_json v) kind = Ok v).
  { intros [k st am rc th na] kind Hv Hk. unfold view_ok in Hv. simpl in *. bools.
    unfold parseFaucetClaimView, view_json, FAUCET_KINDS, CLAIM_STATES in *. simpl.
    destruct th as [h|], na as [n|]; simpl in *;
    repeat match goal with H : _ = true |- _ => rewrite H; clear H end; simpl;
    destruct kind as [k'|]; simpl; try (rewrite (Hk k' eq_refl), String.eqb_refl); done. }
  split; [|intros v Hv; by apply Hback].
  intros input kind v H. unfold parseFaucetClaimView in H. inv_tx. bools.
  match goal with |- view_ok ?v = true ∧ ?P ∧ _ =>
    assert (Hv : view_ok v = true); [|assert (Hk : P)] end.
  - unfold view_ok. simpl.
    destruct (prop input "kind"); try done. destruct (prop input "state"); try done.
    destruct (prop input "amount"); try done. destruct (prop input "recipient"); try done.
    simpl in *.
    repeat match goal with H : existsb _ _ = true |- _ => rewrite H; clear H
      | H : DECIMAL _ = true |- _ => rewrite H; clear H
      | H : re_0x _ 40 _ = true |- _ => rewrite H; clear H end. simpl.
    destruct (prop input "transaction"); simpl in *; try done; bools;
    destruct (prop input "nextAt"); simpl in *; try done; bools; 
    repeat match goal with H : ?x = true |- context [?x] => rewrite H end; done.
  - intros k ->. destruct (prop input "kind"); try done. simpl in *. by bools.
  - split_and!; [done|done|]. by apply Hback.
Qed.

Definition ex_view : FaucetClaimView :=
  {| v_kind := "eth"; v_state := "pending"; v_amount := "500"; v_recipient := ex_addr "A";
     v_transaction := Some ex_hash; v_nextAt := Some 12 |}.
Example ex_view_back : parseFaucetClaimView (view_json ex_view) (Some "eth") = Ok ex_view.
Proof. vm_compute. reflexivity. Qed.
Example ex_view_kind :
  is_ok (parseFaucetClaimView (view_json ex_view) (Some "musdc")) = false.
Proof. vm_compute. reflexivity. Qed.
Example ex_mission_list :
  parseFaucetMissionList (Some " x_follow_mapae, ,x_follow_mapae") = Ok ["x_follow_mapae"].
Proof. vm_compute. reflexivity. Qed.
