(* ===== verification/Faucet.v ===== *)
(** * The faucet's claims, broadcasts and reconciler

    [createFaucet] of [apps/faucet/claims.ts].  An [async] function runs from one
    [await] to the next without interruption, so a claim and a reconcile run are
    processes whose segments are the transitions here: [advance] takes one process
    across one [await], given what the world answered.  Any number of processes
    interleave; [serial] is a lock.  The answers of the chain, the clock and the
    random id are the [Answer]; [getAddress], [keccak256], [payer] and the signer are
    code outside the repository and parameters. *)

From Stdlib Require Import ZArith Lia Ascii String.
From stdpp Require Import base gmap strings list fin_maps sorting.
From S2P Require Import Prelude Dates FaucetLedger FaucetPolicy.
Open Scope string_scope.
Open Scope Z_scope.

Definition MINT_GAS : Z := 100000.
Definition TRANSFER_GAS : Z := 50000.
Definition FILL_GAS : Z := 21000.
Definition MAX_FEE_PER_GAS : Z := 50000000.
Definition PRIORITY_FEE_PER_GAS : Z := 1000000.
Definition STALE_RESERVATION_MS : Z := 120000.
Definition REBROADCAST_AFTER_MS : Z := 120000.
Definition LEDGER_RETENTION_MS : Z := 30 * 24 * 60 * 60 * 1000.

Record FaucetTransaction := {
  ft_to : string; ft_data : option string; ft_value : Z; ft_gas : Z; ft_nonce : Z;
  ft_maxFee : Z; ft_priority : Z;
}.

Record FaucetConfig := {
  cf_enabled : bool; ethMissions : list string; ethDailyWei : Z; minBalanceWei : Z;
  verifiers : list string;
}.
Record ClaimRequest := {
  req_kind : FaucetClaimKind; req_owner : string; req_ipKey : string; req_subnetKey : string;
  req_missions : list string;
}.
Inductive ClaimOutcome :=
  | claim_ok (view : FaucetClaimView)
  | claim_refused (refusal : string) (status : Z) (nextAt : option Z)
  | claim_threw.

Definition STATUS (refusal : string) : Z :=
  if existsb (String.eqb refusal)
       ["login_required"; "mission_incomplete"; "turnstile_failed"; "not_eligible"] then 403
  else if existsb (String.eqb refusal) ["rate_limited"; "cooldown"] then 429
  else if String.eqb refusal "malformed_request" then 400 else 503.
Definition refuse (refusal : string) (nextAt : option Z) : ClaimOutcome :=
  claim_refused refusal (STATUS refusal) nextAt.

(** [/^0xef0100[0-9a-fA-F]{40}$/] *)
Definition DELEGATED_EOA (s : string) : bool :=
  match chars s with
  | a :: b :: c :: d :: e :: f :: g :: h :: rest =>
      bool_decide ([a; b; c; d; e; f; g; h] = chars "0xef0100")
      && re_class is_hex 40 40 (string_of_list_ascii rest)
  | _ => false
  end.

Definition mission_kind (m : string) : MissionKind :=
  match List.find (λ e, String.eqb e.1 m) FAUCET_MISSIONS with
  | Some (_, (k, _)) => k | None => honour end.

(** The check [createFaucet] makes before it returns. *)
Definition check_config (cfg : FaucetConfig) : result unit :=
  match List.find (λ m, bool_decide (mission_kind m = verified)
                        && negb (existsb (String.eqb m) (verifiers cfg)))
          (FAUCET_MUSDC_MISSIONS ++ ethMissions cfg)%list with
  | Some m => Throw (Error ("mission " ++ m ++ " is verified but has no verifier"))
  | None => Ok tt
  end.

Definition kindOn (cfg : FaucetConfig) (k : FaucetClaimKind) : bool :=
  cf_enabled cfg
  && match k with musdc => true | eth => 0 <? Z.of_nat (length (ethMissions cfg)) end.
Definition missionsOf (cfg : FaucetConfig) (k : FaucetClaimKind) : list string :=
  match k with musdc => FAUCET_MUSDC_MISSIONS | eth => ethMissions cfg end.
Definition windowOf (k : FaucetClaimKind) : Z :=
  match k with musdc => FAUCET_WINDOW_MS | eth => FAUCET_ETH_WINDOW_MS end.
Definition limitsOf (cfg : FaucetConfig) (k : FaucetClaimKind) : FaucetReserveLimits :=
  let '(ip, sn, day) := FAUCET_LIMITS k in
  {| windowMs := windowOf k; dayMs := FAUCET_LIMIT_WINDOW_MS; perIp := ip; perSubnet := sn;
     perDay := day;
     dailyAmount := match k with musdc => None | eth => Some (ethDailyWei cfg) end |}.
Definition need (cfg : FaucetConfig) (k : FaucetClaimKind) : Z :=
  match k with
  | musdc => MINT_GAS * MAX_FEE_PER_GAS
  | eth => minBalanceWei cfg + FAUCET_ETH_AMOUNT_WEI + TRANSFER_GAS * MAX_FEE_PER_GAS
  end.

Definition kind_name (k : FaucetClaimKind) : string :=
  match k with musdc => "musdc" | eth => "eth" end.
Definition view_state (st : FaucetClaimState) : string :=
  match st with
  | confirmed => "confirmed" | failed => "failed" | skipped => "already_enough"
  | _ => "pending"
  end.

(** [eligibility], of the verifiers' answers and of the wallet's code. *)
Fixpoint verify_missions (answers : string → result bool) (l : list string) :
    option ClaimOutcome :=
  match l with
  | [] => None
  | m :: l' =>
      match mission_kind m with
      | honour => verify_missions answers l'
      | verified =>
          match answers m with
          | Ok true => verify_missions answers l'
          | Ok false => Some (refuse "mission_incomplete" None)
          | Throw _ => Some (refuse "eligibility_unavailable" None)
          end
      end
  end.
Definition eligibility (cfg : FaucetConfig) (k : FaucetClaimKind)
    (answers : string → result bool) (code : result (option string)) : option ClaimOutcome :=
  match verify_missions answers (missionsOf cfg k) with
  | Some o => Some o
  | None =>
      match k with
      | musdc => None
      | eth =>
          match code with
          | Throw _ => Some (refuse "eligibility_unavailable" None)
          | Ok None => None
          | Ok (Some c) =>
              if String.eqb c "" || String.eqb c "0x" || DELEGATED_EOA c then None
              else Some (refuse "not_eligible" None)
          end
      end
  end.

Definition admissionRefusal (a : FaucetAdmission) : ClaimOutcome :=
  match a with
  | adm_cooldown at_ => refuse "cooldown" (Some at_)
  | adm_rate_limited => refuse "rate_limited" None
  | adm_budget_exhausted => refuse "budget_exhausted" None
  | adm_inflight _ => claim_threw
  end.

Definition plan (k : FaucetClaimKind) (balance : Z) : result Z :=
  match k with
  | musdc => planTopUp balance FAUCET_TARGET_BASE
  | eth => Ok (if FAUCET_ETH_AMOUNT_WEI <=? balance then 0 else FAUCET_ETH_AMOUNT_WEI)
  end.

(** [affordable], of the faucet's balance and the base fee. *)
Definition affordable (cfg : FaucetConfig) (k : FaucetClaimKind) (balance : Z)
    (baseFee : option Z) (s : FaucetDb) : option ClaimOutcome :=
  match baseFee with
  | None => Some (refuse "unavailable" None)
  | Some fee =>
      if MAX_FEE_PER_GAS <? fee then Some (refuse "fee_too_high" None) else
      let '(wei, count) := inflight s in
      if balance - wei - count * MINT_GAS * MAX_FEE_PER_GAS <? need cfg k
      then Some (refuse "faucet_empty" None) else None
  end.

(** ** Processes *)

(** What one [await] may answer, and the clock and the id drawn after it. *)
Record Answer := {
  an_now : Z; an_uuid : string;
  an_payer : result string;
  an_verified : string → result bool; an_code : result (option string);
  an_balance : result Z; an_baseFee : result (option Z); an_nonce : result Z;
  an_signed : result string;              (** the raw bytes the signer returned *)
  an_sent : result bool;                  (** accepted, rejected, or no answer *)
  an_receipt : result (option bool);      (** success, reverted, or not mined *)
}.

Inductive Proc :=
  | PPayer (req : ClaimRequest)
  | PEligible (req : ClaimRequest) (input : FaucetReserveInput)
  | PPlan (id : string) (k : FaucetClaimKind) (recipient : string)
  | PQueued (id : string) (k : FaucetClaimKind) (recipient : string) (amount : Z)
  | PFunds (id : string) (k : FaucetClaimKind) (recipient : string) (amount : Z)
  | PNonce (id : string) (k : FaucetClaimKind) (recipient : string) (amount : Z)
  | PSigning (id : string) (k : FaucetClaimKind) (amount nonce : Z)
  | PSending (id : string)
  | PReceipt (id : string)
  | PDone (o : ClaimOutcome)
  | RReceipt (row : FaucetClaimRow) (rest : list FaucetClaimRow) (mined : option Z) (at_ : Z)
  | RMined (row : FaucetClaimRow) (rest : list FaucetClaimRow) (at_ : Z)
  | RLanded (row : FaucetClaimRow) (rest : list FaucetClaimRow) (mined : Z) (at_ : Z)
  | RResend (row : FaucetClaimRow) (rest : list FaucetClaimRow) (mined : Z) (at_ : Z)
  | RLate (row : FaucetClaimRow) (rest : list FaucetClaimRow) (mined : Z) (at_ : Z)
  | RFillQueued
  | RFillNonce (taken : list Z) (top : Z)
  | RFillSign (taken : list Z) (top nonce : Z)
  | RFillSend (taken : list Z) (top nonce : Z)
  | RDone.

(** The ledger, the lock's holder, the processes; and two histories: what was put
    on the wire, and the bytes [markSigned] had written. *)
Inductive Sent :=
  | sent_claim (id : string) (nonce : Z) (raw : string)
  | sent_fill (nonce : Z) (raw : string).
Record World := {
  db : FaucetDb; lock : option nat; procs : gmap nat Proc;
  wire : list Sent; persisted : list (string * Z * string);
}.

Section Faucet.
Context (getAddress : string → string) (keccak256 : string → string)
        (mintData : string → Z → string) (tokenAddress : string)
        (cfg : FaucetConfig) (self : string).

Definition view (row : FaucetClaimRow) (now : Z) : FaucetClaimView :=
  let st := view_state (state row) in
  let nextAt := created_at row + windowOf (kind row) in
  {| v_kind := kind_name (kind row); v_state := st; v_amount := show_Z (amount row);
     v_recipient := getAddress (recipient row);
     v_transaction := match tx_hash row with
                      | Some h => if String.eqb h "" then None else Some h
                      | None => None end;
     v_nextAt := if (String.eqb st "pending" || String.eqb st "confirmed") && (now <? nextAt)
                 then Some nextAt else None |}.

(** The transaction a claim signs, and the one that fills a gap. *)
Definition claim_tx (k : FaucetClaimKind) (recipient : string) (amount n : Z) : FaucetTransaction :=
  match k with
  | musdc => {| ft_to := tokenAddress; ft_data := Some (mintData recipient amount);
                ft_value := 0; ft_gas := MINT_GAS; ft_nonce := n;
                ft_maxFee := MAX_FEE_PER_GAS; ft_priority := PRIORITY_FEE_PER_GAS |}
  | eth => {| ft_to := recipient; ft_data := None; ft_value := amount; ft_gas := TRANSFER_GAS;
              ft_nonce := n; ft_maxFee := MAX_FEE_PER_GAS; ft_priority := PRIORITY_FEE_PER_GAS |}
  end.
Definition fill_tx (n : Z) : FaucetTransaction :=
  {| ft_to := self; ft_data := None; ft_value := 0; ft_gas := FILL_GAS; ft_nonce := n;
     ft_maxFee := MAX_FEE_PER_GAS; ft_priority := PRIORITY_FEE_PER_GAS |}.

(** A write of the ledger whose failure the caller swallows. *)
Definition mark {A} (m : tx FaucetDb A) (s : FaucetDb) : FaucetDb :=
  match m s with Ok (_, s') => s' | Throw _ => s end.

(** The end of [claim]: a refusal is counted; failing to count changes nothing. *)
Definition finish (k : FaucetClaimKind) (o : ClaimOutcome) (now : Z) (s : FaucetDb) : Proc * FaucetDb :=
  (PDone o, match o with
            | claim_refused r _ _ => mark (countRefusal k r now) s
            | _ => s end).
(** [{ok: true, view: view(store.get(id)!)}] *)
Definition view_of (i : string) (now : Z) (s : FaucetDb) : ClaimOutcome :=
  match byId i (faucet_claims s) with Some r => claim_ok (view r now) | None => claim_threw end.
Definition kind_of (i : string) (s : FaucetDb) : FaucetClaimKind :=
  match byId i (faucet_claims s) with Some r => kind r | None => musdc end.

(** [decide] up to the payer's address. *)
Definition decide_start (req : ClaimRequest) (now : Z) (s : FaucetDb) : Proc * FaucetDb :=
  let k := req_kind req in
  if negb (kindOn cfg k) then finish k (refuse "faucet_off" None) now s else
  if negb (forallb (λ m, existsb (String.eqb m) (req_missions req)) (missionsOf cfg k))
  then finish k (refuse "mission_incomplete" None) now s
  else (PPayer req, s).

(** ... up to the eligibility reads: the ledger's admission. *)
Definition after_payer (req : ClaimRequest) (payer : string) (now : Z) (s : FaucetDb) :
    Proc * FaucetDb :=
  let k := req_kind req in
  let owner_ := getAddress (req_owner req) in
  let to_ := match k with musdc => payer | eth => owner_ end in
  let input := {| in_kind := k; in_owner := toLowerCase owner_; in_recipient := toLowerCase to_;
    in_ipKey := req_ipKey req; in_subnetKey := req_subnetKey req;
    in_amount := match k with eth => FAUCET_ETH_AMOUNT_WEI | musdc => 0 end |} in
  match admission input now (limitsOf cfg k) s with
  | Throw _ => (PDone claim_threw, s)
  | Ok (Some (adm_inflight c)) => (PDone (claim_ok (view c now)), s)
  | Ok (Some a) => finish k (admissionRefusal a) now s
  | Ok None => (PEligible req input, s)
  end.

(** ... up to the balance read: the same checks again, with the insert. *)
Definition after_eligibility (req : ClaimRequest) (input : FaucetReserveInput) (an : Answer)
    (s : FaucetDb) : Proc * FaucetDb :=
  let k := req_kind req in
  match eligibility cfg k (an_verified an) (an_code an) with
  | Some o => finish k o (an_now an) s
  | None =>
      match reserve input (an_now an) (limitsOf cfg k) (an_uuid an) s with
      | Throw _ => (PDone claim_threw, s)
      | Ok (reserve_refused a, s') => finish k (admissionRefusal a) (an_now an) s'
      | Ok (reserve_ok c false, s') => (PDone (claim_ok (view c (an_now an))), s')
      | Ok (reserve_ok c true, s') => (PPlan (id c) k (in_recipient input), s')
      end
  end.

(** The [catch] around plan and broadcast. *)
Definition caught (i : string) (now : Z) (s : FaucetDb) : Proc * FaucetDb :=
  let s := match byId i (faucet_claims s) with
           | Some r => if bool_decide (state r = reserved) then mark (markFailed i now) s else s
           | None => s end in
  match byId i (faucet_claims s) with
  | Some r => if bool_decide (state r = failed)
              then finish (kind r) (refuse "unavailable" None) now s
              else (PDone (claim_ok (view r now)), s)
  | None => (PDone claim_threw, s)
  end.

Definition after_plan (i : string) (k : FaucetClaimKind) (to_ : string) (balance : result Z)
    (now : Z) (s : FaucetDb) : Proc * FaucetDb :=
  match rbind balance (plan k) with
  | Throw _ => caught i now s
  | Ok amount_ =>
      if amount_ =? 0 then
        let s := mark (markSkipped i now) s in (PDone (view_of i now s), s)
      else (PQueued i k to_ amount_, s)
  end.

(** *** The reconciler's loop over the rows it read *)

(** The rows up to the next one that needs the chain. *)
Fixpoint next_row (rows : list FaucetClaimRow) (mined : option Z) (at_ : Z) (s : FaucetDb) :
    Proc * FaucetDb :=
  match rows with
  | [] => (RFillQueued, s)
  | r :: rest =>
      if bool_decide (state r = reserved) then
        next_row rest mined at_
          (if STALE_RESERVATION_MS <? at_ - created_at r then mark (markFailed (id r) at_) s else s)
      else (RReceipt r rest mined at_, s)
  end.
Definition reconcile_start (at_ : Z) (s : FaucetDb) : Proc * FaucetDb :=
  let s := mark (prune (at_ - LEDGER_RETENTION_MS)) s in
  match unsettled s with [] => (RDone, s) | rows => next_row rows None at_ s end.

Definition record_receipt (i : string) (success : bool) (now : Z) (s : FaucetDb) : FaucetDb :=
  if success then mark (markConfirmed i now) s else mark (markFailed i now) s.

Definition sent_of (r : FaucetClaimRow) : Sent :=
  sent_claim (id r) (default 0 (nonce r)) (default "" (raw_tx r)).

(** With the mined nonce known: ours was passed, is too young, or is sent again. *)
Definition with_mined (r : FaucetClaimRow) (rest : list FaucetClaimRow) (mined at_ : Z)
    (s : FaucetDb) : Proc * FaucetDb * list Sent :=
  if default 0 (nonce r) <? mined then (RLanded r rest mined at_, s, [])
  else if at_ - updated_at r <? REBROADCAST_AFTER_MS
  then (next_row rest (Some mined) at_ s, [])
  else (RResend r rest mined at_, s, [sent_of r]).

(** *** Filling gaps *)
Definition held (s : FaucetDb) : list Z :=
  omap (λ r, if bool_decide (state r = reserved) then None else nonce r) (unsettled s).
(** The first nonce from [n] below [top] that no in-flight claim holds. *)
Fixpoint gap (fuel : nat) (n top : Z) (taken : list Z) : option Z :=
  match fuel with
  | O => None
  | S fuel' =>
      if n <? top then if bool_decide (n ∈ taken) then gap fuel' (n + 1) top taken else Some n
      else None
  end.
Definition next_gap (n top : Z) (taken : list Z) : option Z :=
  gap (Z.to_nat (top - n)) n top taken.

(** *** One segment of a process: (process, ledger, lock, wire, persisted) *)
Definition advance (pid : nat) (p : Proc) (an : Answer) (lk : option nat) (s : FaucetDb) :
    option (Proc * FaucetDb * option nat * list Sent * list (string * Z * string)) :=
  let now := an_now an in
  let quiet (ps : Proc * FaucetDb) := Some (ps, lk, [], []) in
  let release (ps : Proc * FaucetDb) := Some (ps, None, [], []) in
  match p with
  | PPayer req =>
      match req_kind req, an_payer an with
      | musdc, Throw _ => quiet (PDone claim_threw, s)
      | musdc, Ok a => quiet (after_payer req a now s)
      | eth, _ => quiet (after_payer req "" now s)
      end
  | PEligible req input => quiet (after_eligibility req input an s)
  | PPlan i k to_ => quiet (after_plan i k to_ (an_balance an) now s)
  | PQueued i k to_ a =>
      match lk with
      | Some _ => None
      | None => Some (PFunds i k to_ a, s, Some pid, [], [])
      end
  | PFunds i k to_ a =>
      match an_balance an, an_baseFee an with
      | Ok balance, Ok fee =>
          match affordable cfg k balance fee s with
          | Some o => release (finish k o now (mark (markFailed i now) s))
          | None => quiet (PNonce i k to_ a, s)
          end
      | _, _ => release (caught i now s)
      end
  | PNonce i k to_ a =>
      match an_nonce an with
      | Throw _ => release (caught i now s)
      | Ok n => quiet (PSigning i k a (Z.max n (nextNonce s)), s)
      end
  | PSigning i k a n =>
      match an_signed an with
      | Throw _ => release (caught i now s)
      | Ok raw =>
          match markSigned i a n (toLowerCase (keccak256 raw)) (toLowerCase raw) now s with
          | Throw _ => release (caught i now s)
          | Ok (false, s') => release (finish k (refuse "unavailable" None) now s')
          | Ok (true, s') =>
              Some (PSending i, s', lk, [sent_claim i n (toLowerCase raw)],
                    [(i, n, toLowerCase raw)])
          end
      end
  | PSending i =>
      match an_sent an with
      | Throw _ => release (PReceipt i, s)
      | Ok true => release (PReceipt i, mark (markSent i now) s)
      | Ok false => release (caught i now (mark (markFailed i now) s))
      end
  | PReceipt i =>
      let s := match an_receipt an with
               | Ok (Some ok_) => record_receipt i ok_ now s
               | _ => s end in
      quiet (PDone (view_of i now s), s)
  | PDone _ => None
  | RReceipt r rest mined at_ =>
      match an_receipt an with
      | Throw _ => quiet (next_row rest mined at_ s)
      | Ok (Some ok_) => quiet (next_row rest mined at_ (record_receipt (id r) ok_ now s))
      | Ok None =>
          match mined with
          | Some m => let '(p', s', w) := with_mined r rest m at_ s in Some (p', s', lk, w, [])
          | None => quiet (RMined r rest at_, s)
          end
      end
  | RMined r rest at_ =>
      match an_nonce an with
      | Throw _ => quiet (next_row rest None at_ s)
      | Ok m => let '(p', s', w) := with_mined r rest m at_ s in Some (p', s', lk, w, [])
      end
  | RLanded r rest m at_ | RLate r rest m at_ =>
      match an_receipt an with
      | Throw _ => quiet (next_row rest (Some m) at_ s)
      | Ok landed => quiet (next_row rest (Some m) at_
          (record_receipt (id r) (bool_decide (landed = Some true)) now s))
      end
  | RResend r rest m at_ =>
      match an_sent an with
      | Throw _ => quiet (next_row rest (Some m) at_ s)
      | Ok true => quiet (next_row rest (Some m) at_ (mark (markSent (id r) now) s))
      | Ok false => quiet (RLate r rest m at_, s)
      end
  | RFillQueued =>
      match lk with
      | Some _ => None
      | None =>
          match held s with
          | [] => Some (RDone, s, None, [], [])
          | taken => Some (RFillNonce taken (foldr Z.max 0 taken), s, Some pid, [], [])
          end
      end
  | RFillNonce taken top =>
      match an_nonce an with
      | Throw _ => release (RDone, s)
      | Ok n => match next_gap n top taken with
                | Some g => quiet (RFillSign taken top g, s)
                | None => release (RDone, s) end
      end
  | RFillSign taken top n =>
      match an_signed an with
      | Throw _ => release (RDone, s)
      | Ok raw => Some (RFillSend taken top n, s, lk, [sent_fill n raw], [])
      end
  | RFillSend taken top n =>
      match an_sent an with
      | Throw _ | Ok false => release (RDone, s)
      | Ok true => match next_gap (n + 1) top taken with
                   | Some g => quiet (RFillSign taken top g, s)
                   | None => release (RDone, s) end
      end
  | RDone => None
  end.

(** One step of the service: a request or a reconcile run starts, or a process
    goes on. *)
Inductive world_step (w w' : World) : Prop :=
  | w_claim pid req now :
      procs w !! pid = None →
      let ps := decide_start req now (db w) in
      w' = {| db := ps.2; lock := lock w; procs := <[pid := ps.1]> (procs w);
              wire := wire w; persisted := persisted w |} →
      world_step w w'
  | w_reconcile pid now :
      procs w !! pid = None →
      let ps := reconcile_start now (db w) in
      w' = {| db := ps.2; lock := lock w; procs := <[pid := ps.1]> (procs w);
              wire := wire w; persisted := persisted w |} →
      world_step w w'
  | w_advance pid p an p' s' lk sent_ kept :
      procs w !! pid = Some p →
      advance pid p an (lock w) (db w) = Some (p', s', lk, sent_, kept) →
      w' = {| db := s'; lock := lk; procs := <[pid := p']> (procs w);
              wire := (wire w ++ sent_)%list; persisted := (persisted w ++ kept)%list |} →
      world_step w w'.

Definition start_world : World :=
  {| db := empty_faucet; lock := None; procs := ∅; wire := []; persisted := [] |}.
End Faucet.

(** ** Status, account and the request boundary *)

Definition STATUS_TTL_MS : Z := 15000.
(** [statusCache]: when it was read, and the balance if it could be. *)
Notation status_cache := (option (Z * option Z)).
Definition faucetBalance (cache : status_cache) (at_ : Z) (read : result Z) :
    option Z * status_cache :=
  let fresh := match read with Ok b => Some b | Throw _ => None end in
  match cache with
  | Some (t, b) => if at_ - t <? STATUS_TTL_MS then (b, cache) else (fresh, Some (at_, fresh))
  | None => (fresh, Some (at_, fresh))
  end.
Definition status (cfg : FaucetConfig) (balance : option Z) : FaucetStatus :=
  let funded k := match balance with None => true | Some b => need cfg k <=? b end in
  {| st_musdc := {| enabled := kindOn cfg musdc && funded musdc;
                    tab_amount := show_Z FAUCET_TARGET_BASE; tab_windowMs := FAUCET_WINDOW_MS;
                    missions := FAUCET_MUSDC_MISSIONS |};
     st_eth := {| enabled := kindOn cfg eth && funded eth;
                  tab_amount := show_Z FAUCET_ETH_AMOUNT_WEI;
                  tab_windowMs := FAUCET_ETH_WINDOW_MS; missions := ethMissions cfg |} |}.
Definition account (getAddress : string → string) (owner_ payer_ : string) (now : Z) (s : FaucetDb) :
    FaucetAccount :=
  let k := toLowerCase owner_ in
  {| a_owner := getAddress owner_; a_musdc_to := payer_; a_eth_to := getAddress owner_;
     a_musdc := (λ r, view getAddress r now) <$> latest musdc k s;
     a_eth := (λ r, view getAddress r now) <$> latest eth k s |}.

(** [/^[a-z0-9_]{1,64}$/] *)
Definition MISSION : string → bool :=
  re_class (λ c, is_lower c || is_digit c || Ascii.eqb c "_") 1 64.
Definition parse_kind (v : jsval) : option FaucetClaimKind :=
  if is_str v "musdc" then Some musdc else if is_str v "eth" then Some eth else None.
Definition parseClaimRequest (getAddress : string → string) (input : jsval) : option ClaimRequest :=
  if negb (record input) then None else
  match parse_kind (prop input "kind"), prop input "owner", prop input "ipKey",
        prop input "subnetKey", prop input "missions" with
  | Some k, JStr o, JStr ip, JStr sn, JArr l =>
      if re_0x is_hex 40 o && KEY ip && KEY sn && (Z.of_nat (length l) <=? 16)
         && forallb (λ m, match m with JStr t => MISSION t | _ => false end) l
      then Some {| req_kind := k; req_owner := getAddress o; req_ipKey := ip; req_subnetKey := sn;
                   req_missions := omap (λ m, match m with JStr t => Some t | _ => None end) l |}
      else None
  | _, _, _, _, _ => None
  end.

(** [bearerMatches]: the loop ORs the XOR of each byte pair of the two digests. *)
Definition strip_bearer (header : string) : option string :=
  if String.prefix "Bearer " header
  then Some (String.substring 7 (String.length header - 7) header) else None.
Fixpoint difference (given expected : list Z) (acc : Z) : Z :=
  match given, expected with
  | g :: given', e :: expected' => difference given' expected' (Z.lor acc (Z.lxor g e))
  | _, _ => acc
  end.
Definition bearerMatches (sha256 : string → list Z) (header : option string) (token : string) : bool :=
  match header with
  | None => false
  | Some h => match strip_bearer h with
              | None => false
              | Some given => difference (sha256 given) (sha256 token) 0 =? 0
              end
  end.

Lemma difference_zero g : ∀ e acc,
  length g = length e → (difference g e acc = 0 ↔ acc = 0 ∧ g = e).
Proof.
  induction g as [|x g IH]; intros [|y e] acc Hl; simpl in *; try done; [naive_solver|].
  rewrite IH by lia. rewrite Z.lor_eq_0_iff, Z.lxor_eq_0_iff. naive_solver.
Qed.

(** The bearer check that runs in constant time decides equality: it accepts a
    header exactly when it is "Bearer " followed by a token whose digest is the
    digest of the expected one, for any digest function of a fixed length. *)
Theorem bearer_decides sha256 header token :
  (∀ a b, length (sha256 a) = length (sha256 b)) →
  bearerMatches sha256 header token = true ↔
  ∃ h given, header = Some h ∧ strip_bearer h = Some given ∧ sha256 given = sha256 token.
Proof.
  intros Hlen. unfold bearerMatches. destruct header as [h|]; [|naive_solver].
  destruct (strip_bearer h) as [given|] eqn:Hs; [|naive_solver].
  rewrite Z.eqb_eq, difference_zero by apply Hlen. naive_solver.
Qed.

(** ** What the segments keep *)

(** A change of the ledger that signs nothing: every row comes from one with the same
    id and bytes that held its nonce if it does, or is fresh and unsigned. *)
Definition from_row (s : FaucetDb) (r' : FaucetClaimRow) : Prop :=
  (∃ r, r ∈ faucet_claims s ∧ id r = id r' ∧ nonce r = nonce r' ∧ raw_tx r = raw_tx r'
        ∧ (holds_nonce r' = true → holds_nonce r = true)
        ∧ (in_states [signed; sent] r' = true → in_states [signed; sent] r = true))
  ∨ (nonce r' = None ∧ raw_tx r' = None ∧ holds_nonce r' = false).
Record calm (s s' : FaucetDb) : Prop := {
  calm_ok : faucet_ok s → faucet_ok s';
  calm_rows : ∀ r', r' ∈ faucet_claims s' → from_row s r';
}.

Lemma from_row_refl s r : r ∈ faucet_claims s → from_row s r.
Proof. intros Hr. left. by exists r. Qed.

Lemma calm_refl s : calm s s.
Proof. constructor; [done|]. intros r. apply from_row_refl. Qed.

Lemma calm_trans s1 s2 s3 : calm s1 s2 → calm s2 s3 → calm s1 s3.
Proof.
  intros [Ho1 Hr1] [Ho2 Hr2]. constructor; [auto|].
  intros r3 Hr3. destruct (Hr2 _ Hr3) as [(r2 & Hin & He & Hn & Hw & Hh & Hs)|Hfresh]; [|by right].
  destruct (Hr1 _ Hin) as [(r1 & Hin1 & He1 & Hn1 & Hw1 & Hh1 & Hs1)|(Hn1 & Hw1 & Hst1)].
  - left. exists r1. split_and!; [done|congruence|congruence|congruence|auto|auto].
  - right. split_and!; [congruence..|]. apply not_true_iff_false. intros Ht.
    apply Hh in Ht. congruence.
Qed.

Lemma holds_of_sent r : in_states [signed; sent] r = true → holds_nonce r = true.
Proof.
  unfold holds_nonce, in_states. intros H. bools. apply bool_decide_eq_true. set_solver.
Qed.

Lemma mark_calm {A} (m : tx FaucetDb A) s :
  (∀ a s', m s = Ok (a, s') → calm s s') → calm s (mark m s).
Proof. unfold mark. intros H. destruct (m s) as [[a s']|e]; [by eapply H|apply calm_refl]. Qed.

Lemma transition_calm i from to_ now set_ s b s' :
  transition i from to_ now set_ s = Ok (b, s') →
  (faucet_ok s → faucet_ok s') →
  (∀ q, id (set_ q) = id q ∧ nonce (set_ q) = nonce q ∧ raw_tx (set_ q) = raw_tx q
        ∧ state (set_ q) = state q) →
  (∀ r, state r ∈ from → (holds_nonce (move to_ now r) = true → holds_nonce r = true)
        ∧ (in_states [signed; sent] (move to_ now r) = true → in_states [signed; sent] r = true)) →
  calm s s'.
Proof.
  intros H Hok Hset Hst. apply transition_spec in H as (-> & _ & _). constructor; [done|].
  intros r' (r & -> & Hr)%list_elem_of_fmap. left. exists r.
  destruct (_ && _) eqn:E; [|done]. bools.
  match goal with H : in_states from r = true |- _ => unfold in_states in H; bools;
    destruct (Hst r H) as [Hh Hs] end.
  destruct (Hset (move to_ now r)) as (Hi & Hn & Hw & Hstate).
  assert (Hin : ∀ l, in_states l (set_ (move to_ now r)) = in_states l (move to_ now r))
    by (intros l; unfold in_states; by rewrite Hstate).
  unfold holds_nonce in *. rewrite Hi, Hn, Hw, !Hin. done.
Qed.

Lemma step_faucet_ok s s' : faucet_step s s' → faucet_ok s → faucet_ok s'.
Proof. intros Hs Hok. by apply (step_ok s). Qed.

Ltac mark_cases :=
  let r := fresh "r" in let Hr := fresh "Hr" in
  intros r Hr; unfold holds_nonce, in_states in *; simpl;
  rewrite ?elem_of_cons in Hr;
  repeat match type of Hr with _ ∨ _ => destruct Hr as [Hr|Hr] end; try (by apply not_elem_of_nil in Hr); rewrite Hr; done.

Lemma markSent_calm i now s b s' : markSent i now s = Ok (b, s') → calm s s'.
Proof.
  intros H. eapply transition_calm; [exact H| |done|mark_cases].
  apply step_faucet_ok. by eapply step_sent.
Qed.
Lemma markConfirmed_calm i now s b s' : markConfirmed i now s = Ok (b, s') → calm s s'.
Proof.
  intros H. eapply transition_calm; [exact H| |done|mark_cases].
  apply step_faucet_ok. by eapply step_confirmed.
Qed.
Lemma markFailed_calm i now s b s' : markFailed i now s = Ok (b, s') → calm s s'.
Proof.
  intros H. eapply transition_calm; [exact H| |done|mark_cases].
  apply step_faucet_ok. by eapply step_failed.
Qed.
Lemma markSkipped_calm i now s b s' : markSkipped i now s = Ok (b, s') → calm s s'.
Proof.
  intros H. eapply transition_calm; [exact H| |done|mark_cases].
  apply step_faucet_ok. by eapply step_skipped.
Qed.
Lemma countRefusal_calm k r now s u s' : countRefusal k r now s = Ok (u, s') → calm s s'.
Proof.
  intros H. destruct u. constructor.
  - apply step_faucet_ok. by eapply step_refusal.
  - unfold countRefusal in H. inv_tx. simpl. intros r'. apply from_row_refl.
Qed.
Lemma prune_calm before s n s' : prune before s = Ok (n, s') → calm s s'.
Proof.
  intros H. constructor.
  - apply step_faucet_ok. by eapply step_prune.
  - apply prune_claims_spec in H. intros r'. rewrite H. intros [Hr _]%elem_of_lfilter.
    by apply from_row_refl.
Qed.
Lemma reserve_calm input now limits i s o s' :
  reserve input now limits i s = Ok (o, s') → calm s s'.
Proof.
  intros H. constructor.
  - apply step_faucet_ok. by eapply step_reserve.
  - apply reserve_spec in H as (_ & [(c & _ & _ & ->)|[(a & _ & _ & ->)|(_ & _ & _ & ->)]]);
      simpl; intros r'; [apply from_row_refl..|].
    intros [Hr| ->%list_elem_of_singleton]%elem_of_app; [by apply from_row_refl|by right].
Qed.

#[export] Hint Resolve calm_refl mark_calm markSent_calm markConfirmed_calm markFailed_calm
  markSkipped_calm countRefusal_calm prune_calm reserve_calm : faucet.

(** ** What a process may rely on *)

Definition locked (p : Proc) : bool :=
  match p with
  | PFunds _ _ _ _ | PNonce _ _ _ _ | PSigning _ _ _ _ | PSending _
  | RFillNonce _ _ | RFillSign _ _ _ | RFillSend _ _ _ => true
  | _ => false
  end.
Definition covers (taken : list Z) (s : FaucetDb) : Prop :=
  ∀ r n, r ∈ faucet_claims s → in_states [signed; sent] r = true → nonce r = Some n → n ∈ taken.
Definition above (n : Z) (s : FaucetDb) : Prop :=
  ∀ r m, r ∈ faucet_claims s → holds_nonce r = true → nonce r = Some m → m < n.
Definition on_file (kept : list (string * Z * string)) (r : FaucetClaimRow) : Prop :=
  state r = reserved
  ∨ ∃ n raw, nonce r = Some n ∧ raw_tx r = Some raw ∧ (id r, n, raw) ∈ kept.
Definition proc_ok (lk : option nat) (s : FaucetDb) (kept : list (string * Z * string))
    (pid : nat) (p : Proc) : Prop :=
  (locked p = true → lk = Some pid)
  ∧ match p with
    | PSigning _ _ _ n => above n s
    | RFillNonce taken _ | RFillSend taken _ _ => covers taken s
    | RFillSign taken _ n => covers taken s ∧ n ∉ taken
    | RReceipt r rest _ _ | RMined r rest _ | RLanded r rest _ _ | RResend r rest _ _
    | RLate r rest _ _ => Forall (on_file kept) (r :: rest) ∧ state r ≠ reserved
    | _ => True
    end.

Definition unique_nonces (s : FaucetDb) : Prop :=
  ∀ r1 r2 n, r1 ∈ faucet_claims s → r2 ∈ faucet_claims s →
    holds_nonce r1 = true → holds_nonce r2 = true →
    nonce r1 = Some n → nonce r2 = Some n → r1 = r2.
Definition bytes_kept (kept : list (string * Z * string)) (s : FaucetDb) : Prop :=
  ∀ r raw, r ∈ faucet_claims s → raw_tx r = Some raw →
    ∃ n, nonce r = Some n ∧ (id r, n, raw) ∈ kept.
Definition wire_kept (kept : list (string * Z * string)) (w : list Sent) : Prop :=
  ∀ i n raw, sent_claim i n raw ∈ w → (i, n, raw) ∈ kept.

Record world_ok (w : World) : Prop := {
  wo_db : faucet_ok (db w);
  wo_nonces : unique_nonces (db w);
  wo_bytes : bytes_kept (persisted w) (db w);
  wo_wire : wire_kept (persisted w) (wire w);
  wo_procs : ∀ pid p, procs w !! pid = Some p → proc_ok (lock w) (db w) (persisted w) pid p;
}.

Lemma row_by_id s a b :
  faucet_ok s → a ∈ faucet_claims s → b ∈ faucet_claims s → id a = id b → a = b.
Proof.
  intros Hok [i Hi]%list_elem_of_lookup [j Hj]%list_elem_of_lookup He.
  pose proof (fo_ids _ Hok) as Hnd. rewrite NoDup_alt in Hnd.
  assert (i = j) as ->; [|congruence].
  apply (Hnd i j (id a)); rewrite list_lookup_fmap; [by rewrite Hi|by rewrite Hj, He].
Qed.

Section calm.
Context (s s' : FaucetDb) (Hc : calm s s') (Hok : faucet_ok s).

Lemma calm_above n : above n s → above n s'.
Proof.
  intros Ha r m Hr Hh Hn.
  destruct (calm_rows _ _ Hc _ Hr) as [(q & Hq & _ & He & _ & Hhq & _)|(Hf & _)]; [|congruence].
  apply (Ha q); [done|auto|congruence].
Qed.
Lemma calm_covers taken : covers taken s → covers taken s'.
Proof.
  intros Ha r m Hr Hh Hn.
  destruct (calm_rows _ _ Hc _ Hr) as [(q & Hq & _ & He & _ & _ & Hs)|(Hf & _)]; [|congruence].
  apply (Ha q); [done|auto|congruence].
Qed.
Lemma calm_unique : unique_nonces s → unique_nonces s'.
Proof.
  intros Hu r1 r2 n H1 H2 Hh1 Hh2 Hn1 Hn2. apply (row_by_id s'); [by apply Hc|done..|].
  destruct (calm_rows _ _ Hc _ H1) as [(q1 & Hq1 & <- & E1 & _ & Hf1 & _)|(Hf & _)]; [|congruence].
  destruct (calm_rows _ _ Hc _ H2) as [(q2 & Hq2 & <- & E2 & _ & Hf2 & _)|(Hf & _)]; [|congruence].
  f_equal. apply (Hu q1 q2 n); [done|done|auto|auto|congruence|congruence].
Qed.
Lemma calm_bytes kept : bytes_kept kept s → bytes_kept kept s'.
Proof.
  intros Hb r raw Hr Hw.
  destruct (calm_rows _ _ Hc _ Hr) as [(q & Hq & Hi & Hn & Hwq & _)|(_ & Hf & _)]; [|congruence].
  destruct (Hb q raw Hq ltac:(congruence)) as (n & Hn' & Hin). exists n.
  split; [congruence|]. by rewrite <- Hi.
Qed.
End calm.

Lemma on_file_grow kept kept' r : on_file kept r → on_file (kept ++ kept')%list r.
Proof. intros [H|(n & raw & H1 & H2 & H3)]; [by left|right; exists n, raw; set_solver]. Qed.

(** Another process goes on relying on what it did: if it holds the lock the lock has
    not moved, and nothing was signed. *)
Lemma proc_ok_other lk lk' s s' kept kept' pid p :
  proc_ok lk s kept pid p →
  (locked p = true → lk' = lk ∧ calm s s') →
  proc_ok lk' s' (kept ++ kept')%list pid p.
Proof.
  intros [Hl Hp] Hs. split; [intros H; destruct (Hs H) as [-> _]; auto|].
  destruct p; try done; simpl in Hs;
    try (destruct (Hs eq_refl) as [_ Hc]);
    try (by eapply calm_above); try (by eapply calm_covers);
    try (destruct Hp; split; [by eapply calm_covers|done]);
    try (destruct Hp as [HF ?]; split; [|done]; eapply Forall_impl; [exact HF|];
         intros; by apply on_file_grow).
Qed.

(** ** Each segment *)

(** Processes that rely on nothing. *)
Definition simple (p : Proc) : bool :=
  match p with
  | PPayer _ | PEligible _ _ | PPlan _ _ _ | PQueued _ _ _ _ | PReceipt _ | PDone _
  | RFillQueued | RDone => true
  | _ => false
  end.
Lemma simple_ok lk s kept pid p : simple p = true → proc_ok lk s kept pid p.
Proof. by destruct p. Qed.
Lemma simple_unlocked p : simple p = true → locked p = false.
Proof. by destruct p. Qed.

Definition seg_simple (s : FaucetDb) (ps : Proc * FaucetDb) : Prop :=
  calm s ps.2 ∧ simple ps.1 = true.

Section segments.
Context (getAddress keccak256 : string → string) (cfg : FaucetConfig).

Lemma finish_simple k o now s : seg_simple s (finish k o now s).
Proof. split; [|done]. simpl. destruct o; eauto with faucet. Qed.

Lemma simple_trans s1 s2 ps : calm s1 s2 → seg_simple s2 ps → seg_simple s1 ps.
Proof. intros H [H1 H2]. split; [by eapply calm_trans|done]. Qed.

Lemma caught_simple i now s : seg_simple s (caught getAddress i now s).
Proof.
  unfold caught.
  assert (Hc : calm s match byId i (faucet_claims s) with
           | Some r => if bool_decide (state r = reserved) then mark (markFailed i now) s else s
           | None => s end).
  { destruct (byId i _); [|eauto with faucet]. case_bool_decide; eauto with faucet. }
  revert Hc. generalize (match byId i (faucet_claims s) with
           | Some r => if bool_decide (state r = reserved) then mark (markFailed i now) s else s
           | None => s end). intros s' Hc.
  eapply simple_trans; [exact Hc|]. destruct (byId i _); [|split; [apply calm_refl|done]].
  case_bool_decide; [apply finish_simple|split; [apply calm_refl|done]].
Qed.

Lemma start_simple req now s : seg_simple s (decide_start cfg req now s).
Proof.
  unfold decide_start. destruct (negb _); [apply finish_simple|].
  destruct (negb _); [apply finish_simple|]. split; [apply calm_refl|done].
Qed.

Lemma after_payer_simple req a now s : seg_simple s (after_payer getAddress cfg req a now s).
Proof.
  unfold after_payer. destruct (admission _ _ _ _) as [[[]|]|];
    try apply finish_simple; split; try apply calm_refl; done.
Qed.

Lemma after_eligibility_simple req input an s :
  seg_simple s (after_eligibility getAddress cfg req input an s).
Proof.
  unfold after_eligibility. destruct (eligibility _ _ _ _); [apply finish_simple|].
  destruct (reserve _ _ _ _ _) as [[[c []|a] s']|] eqn:H;
    try apply reserve_calm in H; try (eapply simple_trans; [exact H|apply finish_simple]);
    split; try apply calm_refl; done.
Qed.

Lemma after_plan_simple i k to_ b now s : seg_simple s (after_plan getAddress i k to_ b now s).
Proof.
  unfold after_plan. destruct (rbind _ _) as [a|]; [|apply caught_simple].
  destruct (a =? 0); [|split; [apply calm_refl|done]]. split; [|done]. simpl.
  eauto with faucet.
Qed.

Lemma record_receipt_calm i b now s : calm s (record_receipt i b now s).
Proof. unfold record_receipt. destruct b; eauto with faucet. Qed.

(** A reconciler on its next row. *)
Definition seg_row (kept : list (string * Z * string)) (s : FaucetDb) (ps : Proc * FaucetDb) : Prop :=
  calm s ps.2 ∧ (simple ps.1 = true
    ∨ ∃ r rest m at_, ps.1 = RReceipt r rest m at_ ∧ Forall (on_file kept) (r :: rest)
                      ∧ state r ≠ reserved).

Lemma next_row_ok kept rows : ∀ m at_ s,
  Forall (on_file kept) rows → seg_row kept s (next_row rows m at_ s).
Proof.
  induction rows as [|r rest IH]; intros m at_ s Hf; simpl.
  - split; [apply calm_refl|by left].
  - apply Forall_cons in Hf as [Hr Hrest]. case_bool_decide as Hst.
    + destruct (_ <? _).
      * destruct (IH m at_ (mark (markFailed (id r) at_) s) Hrest) as [H1 H2].
        split; [|done]. eapply calm_trans; [|exact H1]. eauto with faucet.
      * by apply IH.
    + split; [apply calm_refl|]. right. exists r, rest, m, at_.
      split; [done|]. split; [by constructor|done].
Qed.

Lemma seg_row_trans kept s1 s2 ps : calm s1 s2 → seg_row kept s2 ps → seg_row kept s1 ps.
Proof. intros H [H1 H2]. split; [by eapply calm_trans|done]. Qed.

Lemma seg_row_proc kept s ps lk pid s' :
  seg_row kept s ps → proc_ok lk s' kept pid ps.1 ∧ locked ps.1 = false.
Proof.
  intros [_ [H|(r & rest & m & at_ & -> & Hf & Hr)]].
  - split; [by apply simple_ok|by apply simple_unlocked].
  - split; [|done]. split; [done|]. by split.
Qed.

Lemma unsettled_on_file kept s :
  faucet_ok s → bytes_kept kept s → Forall (on_file kept) (unsettled s).
Proof.
  intros Hok Hb. apply Forall_forall. intros r Hr. unfold unsettled in Hr.
  rewrite merge_sort_Permutation in Hr. apply elem_of_lfilter in Hr as [Hr Hi].
  destruct (decide (state r = reserved)) as [|Hne]; [by left|right].
  pose proof (fo_bytes _ Hok _ Hr) as Hbytes. unfold has_bytes in Hbytes.
  destruct (state r) eqn:E; try done; bools;
    destruct (raw_tx r) as [raw|] eqn:Hraw; try (by match goal with H : is_Some None |- _ => destruct H end);
    destruct (Hb r raw Hr Hraw) as (n & Hn & Hin); by exists n, raw.
Qed.

Lemma reconcile_start_ok kept at_ s :
  faucet_ok s → bytes_kept kept s → seg_row kept s (reconcile_start at_ s).
Proof.
  intros Hok Hb. unfold reconcile_start. set (s1 := mark _ s).
  assert (Hc : calm s s1) by (unfold s1; eauto with faucet).
  eapply seg_row_trans; [exact Hc|].
  pose proof (unsettled_on_file kept s1 (calm_ok _ _ Hc Hok) (calm_bytes _ _ Hc kept Hb)) as Hf.
  destruct (unsettled s1) as [|r rest]; [split; [apply calm_refl|by left]|].
  by apply next_row_ok.
Qed.

Lemma sent_of_kept kept r : on_file kept r → state r ≠ reserved →
  wire_kept kept [sent_of r].
Proof.
  intros [?|(n & raw & Hn & Hw & Hin)] Hne; [done|].
  intros i m raw' Hs%list_elem_of_singleton. unfold sent_of in Hs. rewrite Hn, Hw in Hs.
  by injection Hs as -> -> ->.
Qed.
End segments.

(** What one segment may do: leave the ledger calm, or sign the nonce it holds the
    lock for; take, keep or release the lock; and send only bytes on file or fill a
    nonce no claim in flight holds. *)
Record seg_ok (lk : option nat) (s : FaucetDb) (kept : list (string * Z * string)) (pid : nat)
    (p p' : Proc) (s' : FaucetDb) (lk' : option nat) (sent_ : list Sent)
    (kept_ : list (string * Z * string)) : Prop := {
  sg_db : faucet_ok s' ∧ unique_nonces s' ∧ bytes_kept (kept ++ kept_)%list s';
  sg_calm : calm s s' ∨ lk = Some pid;
  sg_lock : lk' = lk ∨ (lk = None ∧ lk' = Some pid) ∨ lk = Some pid;
  sg_wire : wire_kept (kept ++ kept_)%list sent_;
  sg_fill : ∀ n raw r, sent_fill n raw ∈ sent_ → r ∈ faucet_claims s' →
    in_states [signed; sent] r = true → nonce r ≠ Some n;
  sg_proc : proc_ok lk' s' (kept ++ kept_)%list pid p';
}.

Lemma wire_nil kept : wire_kept kept [].
Proof. by intros i n raw ?%not_elem_of_nil. Qed.

(** Segments that send and sign nothing. *)
Lemma seg_quiet lk lk' s kept pid p p' s' :
  faucet_ok s → unique_nonces s → bytes_kept kept s → calm s s' →
  (lk' = lk ∨ (lk = None ∧ lk' = Some pid) ∨ lk = Some pid) →
  proc_ok lk' s' kept pid p' → seg_ok lk s kept pid p p' s' lk' [] [].
Proof.
  intros Hok Hu Hb Hc Hl Hp. constructor; rewrite ?app_nil_r; try done.
  - split_and!; [by apply Hc|by eapply calm_unique|by eapply calm_bytes].
  - by left.
  - apply wire_nil.
  - by intros n raw r ?%not_elem_of_nil.
Qed.

Lemma markSigned_seg i a n h raw now s b s' kept :
  faucet_ok s → unique_nonces s → bytes_kept kept s → above n s →
  markSigned i a n h raw now s = Ok (b, s') →
  faucet_ok s' ∧ unique_nonces s' ∧ bytes_kept (kept ++ [(i, n, raw)])%list s'.
Proof.
  intros Hok Hu Hb Ha H.
  assert (Hok' : faucet_ok s') by (eapply step_faucet_ok; [by eapply step_signed|done]).
  unfold markSigned in H. inv_tx. apply transition_spec in H as (-> & _ & _).
  match goal with |- context [set_claims (fmap ?g) s] => set (f := g) in * end.
  assert (Hf : ∀ r, f r = r ∨ (id r = i ∧ id (f r) = i ∧ nonce (f r) = Some n
                                ∧ raw_tx (f r) = Some raw)).
  { intros r. unfold f. destruct (_ && _) eqn:E; [|by left]. bools. by right. }
  split_and!; [done| |].
  - intros r1 r2 m Hr1 Hr2 Hh1 Hh2 Hn1 Hn2. apply (row_by_id _ _ _ Hok'); [done..|].
    simpl in Hr1, Hr2.
    apply list_elem_of_fmap in Hr1 as (q1 & -> & Hq1), Hr2 as (q2 & -> & Hq2).
    destruct (Hf q1) as [E1|(Hi1 & Hi1' & En1 & _)], (Hf q2) as [E2|(Hi2 & Hi2' & En2 & _)].
    + rewrite E1, E2 in *. by rewrite (Hu q1 q2 m).
    + rewrite E1 in *. assert (m = n) as -> by congruence.
      specialize (Ha q1 n Hq1 Hh1 Hn1). lia.
    + rewrite E2 in *. assert (m = n) as -> by congruence.
      specialize (Ha q2 n Hq2 Hh2 Hn2). lia.
    + congruence.
  - intros r raw' Hr Hw. simpl in Hr. apply list_elem_of_fmap in Hr as (q & -> & Hq).
    destruct (Hf q) as [E|(_ & Hi & Hn & Hraw)].
    + rewrite E in *. destruct (Hb q raw' Hq Hw) as (m & Hm & Hin). exists m.
      split; [done|]. set_solver.
    + exists n. split; [done|]. rewrite Hi. assert (raw' = raw) as -> by congruence. set_solver.
Qed.

(** A row the reconciler already failed: nothing is signed. *)
Lemma markSigned_false i a n h raw now s s' :
  markSigned i a n h raw now s = Ok (false, s') → calm s s'.
Proof.
  intros H. constructor.
  - apply step_faucet_ok. by eapply step_signed.
  - unfold markSigned in H. inv_tx. apply transition_spec in H as (-> & Hb & _).
    intros r' (r & -> & Hr)%list_elem_of_fmap.
    destruct (_ && _) eqn:E; [|by apply from_row_refl]. exfalso.
    symmetry in Hb. apply not_true_iff_false in Hb. apply Hb, existsb_exists.
    exists r. split; [by apply list_elem_of_In|exact E].
Qed.

Lemma held_covers s : covers (held s) s.
Proof.
  intros r n Hr Hs Hn. unfold held. apply list_elem_of_omap. exists r.
  assert (Hne : state r ≠ reserved ∧ INFLIGHT (state r) = true).
  { unfold in_states in Hs. bools. rewrite !elem_of_cons in Hs.
    destruct Hs as [Hs|[Hs|Hs]]; [..|by apply not_elem_of_nil in Hs]; by rewrite Hs. }
  destruct Hne as [Hne Hi]. split; [|by rewrite bool_decide_false].
  unfold unsettled. rewrite merge_sort_Permutation. by apply elem_of_lfilter.
Qed.

Lemma gap_notin fuel n top (taken : list Z) g : gap fuel n top taken = Some g → g ∉ taken ∧ n <= g < top.
Proof.
  revert n. induction fuel as [|fuel IH]; intros n; simpl; [done|].
  destruct (n <? top) eqn:E; [|done]. bools. case_bool_decide as Hin.
  - intros H. apply IH in H as [? ?]. split; [done|lia].
  - intros [= <-]. split; [done|lia].
Qed.

Lemma nextNonce_is_above s n : above (Z.max n (nextNonce s)) s.
Proof. intros r m Hr Hh Hn. pose proof (nextNonce_above s r m Hr Hh Hn). lia. Qed.

Section advance.
Context (getAddress keccak256 : string → string) (cfg : FaucetConfig).

Lemma with_mined_ok kept r rest m at_ s p' s' (w : list Sent) lk pid :
  Forall (on_file kept) (r :: rest) → state r ≠ reserved →
  with_mined r rest m at_ s = (p', s', w) →
  calm s s' ∧ proc_ok lk s' kept pid p' ∧ wire_kept kept w
  ∧ (∀ n raw, sent_fill n raw ∉ w).
Proof.
  intros Hf Hr H. pose proof Hf as [Hr1 Hrest]%Forall_cons. unfold with_mined in H.
  destruct (_ <? _).
  - injection H as <- <- <-. split_and!; [apply calm_refl|done|apply wire_nil|].
    by intros n raw ?%not_elem_of_nil.
  - destruct (_ <? _).
    + pose proof (next_row_ok kept rest (Some m) at_ s Hrest) as Hn.
      destruct (next_row rest (Some m) at_ s) as [p'' s''] eqn:E. injection H as <- <- <-.
      split_and!; [apply Hn|by eapply (seg_row_proc kept s (p'', s''))|apply wire_nil|].
      by intros n raw ?%not_elem_of_nil.
    + injection H as <- <- <-.
      split_and!; [apply calm_refl|done|by apply sent_of_kept|].
      by intros n raw ?%list_elem_of_singleton.
Qed.

Lemma advance_ok pid p an lk s kept p' s' lk' sent_ kept_ :
  faucet_ok s → unique_nonces s → bytes_kept kept s → proc_ok lk s kept pid p →
  advance getAddress keccak256 cfg pid p an lk s = Some (p', s', lk', sent_, kept_) →
  seg_ok lk s kept pid p p' s' lk' sent_ kept_.
Proof.
  intros Hok Hu Hb [Hlk Hp] H.
  assert (Hsimple : ∀ (ps : Proc * FaucetDb) (l : option nat),
    seg_simple s ps → (l = lk ∨ lk = Some pid) →
    Some (ps, l, [], []) = Some (p', s', lk', sent_, kept_) →
    seg_ok lk s kept pid p p' s' lk' sent_ kept_).
  { intros [q t] l [Hc Hs] Hl [= <- <- <- <- <-]. apply seg_quiet; try done.
    - destruct Hl; tauto.
    - by apply simple_ok. }
  assert (Hrow : ∀ ps : Proc * FaucetDb, seg_row kept s ps →
    Some (ps, lk, [], []) = Some (p', s', lk', sent_, kept_) →
    seg_ok lk s kept pid p p' s' lk' sent_ kept_).
  { intros [q t] Hs [= <- <- <- <- <-]. apply seg_quiet; try done; [apply Hs|by left|].
    by eapply (seg_row_proc kept s (q, t)). }
  assert (Hdone : lk = Some pid → Some (RDone, s, None, [], []) = Some (p', s', lk', sent_, kept_) →
    seg_ok lk s kept pid p p' s' lk' sent_ kept_).
  { intros Hl. apply (Hsimple (RDone, s) None); [|by right].
    split; [apply calm_refl|done]. }
  destruct p as [req|req input|i k to_|i k to_ a|i k to_ a|i k to_ a|i k a n|i|i|o
    |row rest mined at_|row rest at_|row rest mined at_|row rest mined at_|row rest mined at_
    | |taken top|taken top n|taken top n|]; simpl in Hlk, Hp, H; try done.
  - destruct (req_kind req), (an_payer an); (eapply Hsimple; [|by left|exact H]);
      try apply after_payer_simple. split; [apply calm_refl|done].
  - eapply Hsimple; [apply after_eligibility_simple|by left|exact H].
  - eapply Hsimple; [apply after_plan_simple|by left|exact H].
  - destruct lk; [done|]. injection H as <- <- <- <- <-.
    apply seg_quiet; try done; [apply calm_refl|by right; left].
  - specialize (Hlk eq_refl).
    destruct (an_balance an) as [bal|], (an_baseFee an) as [fee|];
      try (eapply Hsimple; [apply caught_simple|by right|exact H]).
    destruct (affordable _ _ _ _ _) as [o|].
    + eapply Hsimple; [|by right|exact H]. eapply simple_trans; [|apply finish_simple].
      eauto with faucet.
    + injection H as <- <- <- <- <-. apply seg_quiet; try done; [apply calm_refl|by left].
  - specialize (Hlk eq_refl). destruct (an_nonce an) as [m|].
    + injection H as <- <- <- <- <-. apply seg_quiet; try done; [apply calm_refl|by left|].
      split; [done|]. apply nextNonce_is_above.
    + eapply Hsimple; [apply caught_simple|by right|exact H].
  - specialize (Hlk eq_refl). destruct (an_signed an) as [raw|];
      [|eapply Hsimple; [apply caught_simple|by right|exact H]].
    destruct (markSigned _ _ _ _ _ _ _) as [[b t]|] eqn:Hm;
      [|eapply Hsimple; [apply caught_simple|by right|exact H]].
    pose proof (markSigned_seg _ _ _ _ _ _ _ _ _ kept Hok Hu Hb Hp Hm) as (Hok' & Hu' & Hb').
    destruct b.
    + injection H as <- <- <- <- <-. constructor; try done; [by right|by left| |].
      * intros i' n' raw' Hin%list_elem_of_singleton. injection Hin as -> -> ->. set_solver.
      * by intros n' raw' r Hin%list_elem_of_singleton.
    + eapply Hsimple; [|by right|exact H]. eapply simple_trans; [|apply finish_simple].
      by eapply markSigned_false.
  - specialize (Hlk eq_refl). destruct (an_sent an) as [[]|].
    + injection H as <- <- <- <- <-. apply seg_quiet; try done; [eauto with faucet|tauto].
    + eapply Hsimple; [|by right|exact H]. eapply simple_trans; [|apply caught_simple].
      eauto with faucet.
    + injection H as <- <- <- <- <-. apply seg_quiet; try done; [apply calm_refl|tauto].
  - injection H as <- <- <- <- <-. apply seg_quiet; try done; [|by left].
    destruct (an_receipt an) as [[b|]|]; try apply calm_refl. apply record_receipt_calm.
  - destruct Hp as [Hf Hr]. pose proof Hf as [_ Hrest]%Forall_cons.
    destruct (an_receipt an) as [[b|]|].
    + eapply Hrow; [|exact H]. eapply seg_row_trans; [apply record_receipt_calm|].
      by apply next_row_ok.
    + destruct mined as [m|].
      * destruct (with_mined row rest m at_ s) as [[q t] w] eqn:E.
        injection H as <- <- <- <- <-.
        destruct (with_mined_ok kept _ _ _ _ _ _ _ _ lk pid Hf Hr E) as (Hc & Hp' & Hw & Hnf).
        constructor; rewrite ?app_nil_r; try done; [|by left|by left|].
        -- split_and!; [by apply Hc|by eapply calm_unique|by eapply calm_bytes].
        -- intros n raw r Hin. by apply Hnf in Hin.
      * injection H as <- <- <- <- <-. apply seg_quiet; try done; [apply calm_refl|by left].
    + eapply Hrow; [|exact H]. by apply next_row_ok.
  - destruct Hp as [Hf Hr]. pose proof Hf as [_ Hrest]%Forall_cons.
    destruct (an_nonce an) as [m|]; [|eapply Hrow; [|exact H]; by apply next_row_ok].
    destruct (with_mined row rest m at_ s) as [[q t] w] eqn:E.
    injection H as <- <- <- <- <-.
    destruct (with_mined_ok kept _ _ _ _ _ _ _ _ lk pid Hf Hr E) as (Hc & Hp' & Hw & Hnf).
    constructor; rewrite ?app_nil_r; try done; [|by left|by left|].
    + split_and!; [by apply Hc|by eapply calm_unique|by eapply calm_bytes].
    + intros n raw r Hin. by apply Hnf in Hin.
  - destruct Hp as [[_ Hrest]%Forall_cons _].
    destruct (an_receipt an); (eapply Hrow; [|exact H]); [|by apply next_row_ok].
    eapply seg_row_trans; [apply record_receipt_calm|]. by apply next_row_ok.
  - destruct Hp as [Hf Hr]. pose proof Hf as [_ Hrest]%Forall_cons.
    destruct (an_sent an) as [[]|].
    + eapply Hrow; [|exact H]. eapply seg_row_trans; [|by apply next_row_ok].
      eauto with faucet.
    + injection H as <- <- <- <- <-. apply seg_quiet; try done; [apply calm_refl|by left].
    + eapply Hrow; [|exact H]. by apply next_row_ok.
  - destruct Hp as [[_ Hrest]%Forall_cons _].
    destruct (an_receipt an); (eapply Hrow; [|exact H]); [|by apply next_row_ok].
    eapply seg_row_trans; [apply record_receipt_calm|]. by apply next_row_ok.
  - destruct lk; [done|]. pose proof (held_covers s) as Hc. destruct (held s) as [|x l];
      injection H as <- <- <- <- <-; apply seg_quiet; try done; try apply calm_refl;
      [by left|by right; left].
  - specialize (Hlk eq_refl). destruct (an_nonce an) as [m|];
      [|by apply Hdone].
    destruct (next_gap m top taken) as [g|] eqn:Hg;
      [|by apply Hdone].
    injection H as <- <- <- <- <-. apply seg_quiet; try done; [apply calm_refl|by left|].
    split; [done|]. by apply gap_notin in Hg as [? _].
  - specialize (Hlk eq_refl). destruct Hp as [Hc Hn]. destruct (an_signed an) as [raw|];
      [|by apply Hdone].
    injection H as <- <- <- <- <-. constructor; rewrite ?app_nil_r; try done.
    + left. apply calm_refl.
    + by left.
    + by intros i' n' raw' ?%list_elem_of_singleton.
    + intros n' raw' r Hin%list_elem_of_singleton Hr Hs Hrn.
      injection Hin as -> ->. by apply Hn, (Hc r).
  - specialize (Hlk eq_refl). destruct (an_sent an) as [[]|];
      [|by apply Hdone..].
    destruct (next_gap (n + 1) top taken) as [g|] eqn:Hg;
      [|by apply Hdone].
    injection H as <- <- <- <- <-. apply seg_quiet; try done; [apply calm_refl|by left|].
    split; [done|]. by apply gap_notin in Hg as [? _].
Qed.
End advance.

(** ** The service's invariant *)

Section service.
Context (getAddress keccak256 : string → string) (cfg : FaucetConfig).
Notation step := (world_step getAddress keccak256 cfg).

Lemma start_ok (w : World) pid ps :
  world_ok w → procs w !! pid = None → calm (db w) ps.2 →
  (∀ lk s, proc_ok lk s (persisted w) pid ps.1) →
  world_ok {| db := ps.2; lock := lock w; procs := <[pid := ps.1]> (procs w);
              wire := wire w; persisted := persisted w |}.
Proof.
  intros [Hok Hu Hb Hw Hp] Hnew Hc Hps. constructor; simpl; try done.
  - by apply Hc.
  - by eapply calm_unique.
  - by eapply calm_bytes.
  - intros pid' p. rewrite lookup_insert. case_decide as He; [intros [= <-]; subst; apply Hps|].
    intros Hq. rewrite <- (app_nil_r (persisted w)).
    eapply proc_ok_other; [by apply Hp|by intros _].
Qed.

Lemma world_step_ok w w' : world_ok w → step w w' → world_ok w'.
Proof.
  intros Hok [pid req now Hnew ps ->|pid now Hnew ps ->|pid p an p' s' lk sent_ kept Hp H ->].
  - apply start_ok; try done.
    + apply start_simple.
    + intros lk s. apply simple_ok, start_simple.
  - destruct (reconcile_start_ok (persisted w) now (db w)) as [Hc Hp];
      [apply Hok|apply Hok|].
    apply start_ok; try done. intros lk s.
    by apply (seg_row_proc (persisted w) (db w)).
  - destruct Hok as [Hok Hu Hb Hw Hps].
    assert (Hseg : seg_ok (lock w) (db w) (persisted w) pid p p' s' lk sent_ kept)
      by (eapply advance_ok; eauto).
    destruct Hseg as [(Hok' & Hu' & Hb') Hc Hl Hsent _ Hproc].
    constructor; simpl; try done.
    + intros i n raw [Hin|Hin]%elem_of_app; [|by apply Hsent].
      apply elem_of_app. left. by apply Hw.
    + intros pid' q. rewrite lookup_insert. case_decide as He; [intros [= <-]; by subst|].
      intros Hq. pose proof (Hps _ _ Hq) as Hqok. eapply proc_ok_other; [exact Hqok|].
      intros Hlq. destruct Hqok as [Hlq' _]. specialize (Hlq' Hlq).
      destruct Hc as [Hc|Hc]; [|congruence]. split; [|done].
      destruct Hl as [Hl|[[Hl _]|Hl]]; congruence.
Qed.

Lemma start_world_ok : world_ok start_world.
Proof.
  constructor; simpl.
  - constructor; simpl; [constructor|intros; lia| |]; by intros r ?%not_elem_of_nil.
  - by intros r1 r2 n ?%not_elem_of_nil.
  - by intros r raw ?%not_elem_of_nil.
  - apply wire_nil.
  - intros pid p. by rewrite lookup_empty.
Qed.

Lemma service_reachable w : star step start_world w → world_ok w.
Proof. apply star_invariant, start_world_ok. apply world_step_ok. Qed.

(** No two transactions of the faucet compete for a nonce. Over every
    interleaving of claims and reconcile runs, at most one process is inside the
    broadcast mutex, no two claims that are signed, sent or confirmed hold the same
    nonce, and a gap-filling transaction is only ever sent at a nonce that no claim
    in flight holds. *)
Theorem nonces_exclusive w :
  star step start_world w →
  unique_nonces (db w)
  ∧ (∀ pid1 pid2 p1 p2, procs w !! pid1 = Some p1 → procs w !! pid2 = Some p2 →
       locked p1 = true → locked p2 = true → pid1 = pid2)
  ∧ (∀ pid p an p' s' lk sent_ kept n raw r,
       procs w !! pid = Some p →
       advance getAddress keccak256 cfg pid p an (lock w) (db w)
         = Some (p', s', lk, sent_, kept) →
       sent_fill n raw ∈ sent_ → r ∈ faucet_claims s' →
       in_states [signed; sent] r = true → nonce r ≠ Some n).
Proof.
  intros [Hok Hu Hb Hw Hp]%service_reachable. split_and!; [done| |].
  - intros pid1 pid2 p1 p2 H1 H2 Hl1 Hl2.
    destruct (Hp _ _ H1) as [E1 _], (Hp _ _ H2) as [E2 _].
    specialize (E1 Hl1). specialize (E2 Hl2). congruence.
  - intros pid p an p' s' lk sent_ kept n raw r Hproc Hadv.
    assert (Hseg : seg_ok (lock w) (db w) (persisted w) pid p p' s' lk sent_ kept)
      by (eapply advance_ok; eauto).
    apply Hseg.
Qed.

(** C12: The bytes are written before they are sent. Over every interleaving, a claim
    transaction goes on the wire only if the ledger already holds those very bytes:
    either this segment has just moved the claim from reserved to signed with this
    nonce and these bytes, or the same bytes were recorded earlier and are being
    sent again; a claim with bytes always has its nonce. *)
Theorem signed_before_sent w pid p an p' s' lk sent_ kept i n raw :
  star step start_world w →
  procs w !! pid = Some p →
  advance getAddress keccak256 cfg pid p an (lock w) (db w) = Some (p', s', lk, sent_, kept) →
  sent_claim i n raw ∈ sent_ →
  (i, n, raw) ∈ persisted w
  ∨ ((∃ r, r ∈ faucet_claims (db w) ∧ id r = i ∧ state r = reserved)
     ∧ ∃ r', r' ∈ faucet_claims s' ∧ id r' = i ∧ state r' = signed ∧ nonce r' = Some n
             ∧ raw_tx r' = Some raw).
Proof.
  intros Hok%service_reachable Hp H Hin.
  assert (Hseg : seg_ok (lock w) (db w) (persisted w) pid p p' s' lk sent_ kept)
    by (destruct Hok; eapply advance_ok; eauto).
  destruct (decide (kept = [])) as [->|Hne].
  { left. pose proof (sg_wire _ _ _ _ _ _ _ _ _ _ Hseg) as Hw. rewrite app_nil_r in Hw.
    by apply Hw. }
  right.
  assert (Hsig : ∃ k a m, p = PSigning i k a m ∧ ∃ h now,
    markSigned i a n h raw now (db w) = Ok (true, s')).
  { destruct p; simpl in H; repeat case_match; simplify_eq;
      try (by exfalso; apply Hne); try (by apply not_elem_of_nil in Hin).
    apply list_elem_of_singleton in Hin. injection Hin as -> -> ->. do 4 eexists; eauto. }
  destruct Hsig as (k & a & m & -> & h & now & Hm).
  unfold markSigned in Hm. inv_tx. apply transition_spec in Hm as (-> & Hhit & _).
  symmetry in Hhit. apply existsb_exists in Hhit as (r & Hr & Hhit). apply list_elem_of_In in Hr.
  destruct (andb_prop _ _ Hhit) as [Hi Hst]. apply String.eqb_eq in Hi.
  apply bool_decide_eq_true, list_elem_of_singleton in Hst.
  split; [by exists r|]. eexists. split; [apply list_elem_of_fmap; exists r; split; [done|done]|].
  cbv beta. rewrite Hhit. simpl. done.
Qed.
End service.

(** ** Witnesses: an executable scheduler *)

Inductive Command :=
  | cmd_claim (req : ClaimRequest) (now : Z)
  | cmd_reconcile (now : Z)
  | cmd_answer (an : Answer).
Section exec.
Context (getAddress keccak256 : string → string) (cfg : FaucetConfig).
Definition exec (w : World) (c : nat * Command) : World :=
  let pid := c.1 in
  let start (ps : Proc * FaucetDb) :=
    {| db := ps.2; lock := lock w; procs := <[pid := ps.1]> (procs w); wire := wire w;
       persisted := persisted w |} in
  match c.2, procs w !! pid with
  | cmd_claim req now, None => start (decide_start cfg req now (db w))
  | cmd_reconcile now, None => start (reconcile_start now (db w))
  | cmd_answer an, Some p =>
      match advance getAddress keccak256 cfg pid p an (lock w) (db w) with
      | Some (p', s', lk, sent_, kept) =>
          {| db := s'; lock := lk; procs := <[pid := p']> (procs w);
             wire := (wire w ++ sent_)%list; persisted := (persisted w ++ kept)%list |}
      | None => w
      end
  | _, _ => w
  end.

Lemma exec_reachable cmds : ∀ w,
  star (world_step getAddress keccak256 cfg) start_world w →
  star (world_step getAddress keccak256 cfg) start_world (foldl exec w cmds).
Proof.
  induction cmds as [|[pid c] cmds IH]; intros w Hw; [done|]. simpl. apply IH.
  unfold exec. simpl. destruct c as [req now|now|an], (procs w !! pid) as [p|] eqn:Hp; try done.
  - eapply star_step; [done|]. by eapply (w_claim _ _ _ _ _ pid req now).
  - eapply star_step; [done|]. by eapply (w_reconcile _ _ _ _ _ pid now).
  - destruct (advance _ _ _ _ _ _ _ _) as [[[[[p' s'] lk] sent_] kept]|] eqn:Ha; [|done].
    eapply star_step; [done|]. by eapply (w_advance _ _ _ _ _ pid p an).
Qed.
End exec.

Definition ex_config : FaucetConfig :=
  {| cf_enabled := true; ethMissions := ["x_follow_mapae"];
     ethDailyWei := 10 * FAUCET_ETH_AMOUNT_WEI; minBalanceWei := 0; verifiers := [] |}.
Definition ex_request (c : ascii) : ClaimRequest :=
  {| req_kind := eth; req_owner := ex_addr c; req_ipKey := ex_key c; req_subnetKey := ex_key "f";
     req_missions := ["x_follow_mapae"] |}.
Definition ex_answer (i : string) (now : Z) : Answer :=
  {| an_now := now; an_uuid := i; an_payer := Ok ""; an_verified := λ _, Ok true;
     an_code := Ok None; an_balance := Ok 0; an_baseFee := Ok (Some 1000000); an_nonce := Ok 4;
     an_signed := Ok "0xBEEF"; an_sent := Ok true; an_receipt := Ok (Some true) |}.
Definition ex_funds (now : Z) : Answer :=
  {| an_now := now; an_uuid := ""; an_payer := Ok ""; an_verified := λ _, Ok true;
     an_code := Ok None; an_balance := Ok (FAUCET_ETH_AMOUNT_WEI * 100);
     an_baseFee := Ok (Some 1000000); an_nonce := Ok 4; an_signed := Ok "0xBEEF";
     an_sent := Ok true; an_receipt := Ok (Some true) |}.
Definition ex_signing : World :=
  foldl (exec (λ a, a) (λ _, ex_hash) ex_config) start_world
    [(0%nat, cmd_claim (ex_request "1") 5000); (1%nat, cmd_claim (ex_request "2") 5001);
     (0%nat, cmd_answer (ex_answer "A" 5002)); (0%nat, cmd_answer (ex_answer "A" 5003));
     (0%nat, cmd_answer (ex_answer "A" 5004)); (0%nat, cmd_answer (ex_answer "A" 5005));
     (1%nat, cmd_answer (ex_answer "B" 5006)); (1%nat, cmd_answer (ex_answer "B" 5007));
     (0%nat, cmd_answer (ex_funds 5008)); (1%nat, cmd_answer (ex_answer "B" 5009));
     (1%nat, cmd_answer (ex_answer "B" 5009)); (0%nat, cmd_answer (ex_answer "A" 5010))].

Lemma ex_signing_reachable :
  star (world_step (λ a, a) (λ _, ex_hash) ex_config) start_world ex_signing.
Proof. apply exec_reachable. constructor. Qed.

Example ex_signing_procs :
  procs ex_signing !! 0%nat = Some (PSigning "A" eth FAUCET_ETH_AMOUNT_WEI 4)
  ∧ procs ex_signing !! 1%nat = Some (PQueued "B" eth (ex_addr "2") FAUCET_ETH_AMOUNT_WEI).
Proof. split; vm_compute; reflexivity. Qed.

Lemma nonces_exclusive_witness :
  procs ex_signing !! 0%nat = Some (PSigning "A" eth FAUCET_ETH_AMOUNT_WEI 4)
  ∧ unique_nonces (db ex_signing).
Proof.
  split; [vm_compute; reflexivity|].
  exact (proj1 (nonces_exclusive _ _ ex_config ex_signing ex_signing_reachable)).
Defined.

Lemma signed_before_sent_witness :
  (∃ r, r ∈ faucet_claims (db ex_signing) ∧ id r = "A" ∧ state r = reserved)
  ∨ ("A", 4, "0xbeef") ∈ persisted ex_signing.
Proof.
  destruct (advance (λ a, a) (λ _, ex_hash) ex_config 0 (PSigning "A" eth FAUCET_ETH_AMOUNT_WEI 4)
    (ex_answer "A" 5011) (lock ex_signing) (db ex_signing))
    as [[[[[p' s'] lk] sent_] kept]|] eqn:H; [|vm_compute in H; discriminate H].
  assert (Hin : sent_claim "A" 4 "0xbeef" ∈ sent_)
    by (vm_compute in H; injection H as _ _ _ <- _; left).
  destruct (signed_before_sent _ _ ex_config ex_signing 0 _ _ p' s' lk sent_ kept "A" 4 "0xbeef"
    ex_signing_reachable (proj1 ex_signing_procs) H Hin) as [H'|[H' _]];
    [right; exact H'|left; exact H'].
Defined.

Lemma bearer_decides_witness :
  bearerMatches (λ s, [slen s mod 256]) (Some "Bearer token") "token" = true.
Proof.
  apply (bearer_decides (λ s, [slen s mod 256])); [reflexivity|].
  exists "Bearer token", "token". vm_compute. auto.
Defined.
Example ex_no_bearer : bearerMatches (λ s, [slen s]) (Some "Basic token") "token" = false.
Proof. vm_compute. reflexivity. Qed.
