(* ===== verification/Toolkit.v ===== *)
(** * The libraries the payment core calls

    [viem] and the MetaMask Smart Accounts Kit are not in the repository: their
    functions are the fields of [Toolkit], an argument of every definition that
    calls them.  [ToolkitLaws] states what the code relies on, which is documented
    behaviour: [getAddress] is a canonical form of an address, [keccak256] of a
    text is lower-case hex.  [test_toolkit] is a concrete instance, for the
    examples. *)

From Stdlib Require Import ZArith Lia Ascii String.
From stdpp Require Import base strings list.
From S2P Require Import Prelude.
Open Scope string_scope.
Open Scope Z_scope.

Record Caveat := { enforcer : string; terms : string; args : string }.
Record Delegation := {
  delegate : string; delegator : string; authority : string;
  caveats : list Caveat; salt : string; signature : string;
}.

(** viem's constant. *)
Definition zeroAddress : string := "0x0000000000000000000000000000000000000000".

Class Toolkit := {
  isAddress : string → bool;
  (** The checksummed form; the code calls it on text [isAddress] accepts. *)
  getAddress : string → string;
  isHex : string → bool;
  (** Bytes of a hex string, and the value of bytes [lo, hi) of it. *)
  size : string → Z;
  hexToBigInt_slice : string → Z → Z → Z;
  keccak256 : string → string;
  toBytes : string → string;
  (** [encodeAbiParameters] on the seven words of a payment intent: domain, network,
      asset, amount, payTo, delegationManager, hash of the context.  It throws on a
      word that does not fit its type. *)
  encodeIntent : string → string → string → Z → string → string → string → result string;
  decodeDelegations : string → result (list Delegation);
  (** [recoverTypedDataAddress] of a delegation's typed data for a manager. *)
  recoverDelegator : string → Delegation → result string;
  (** [getCounterfactualAccountData] of the Hybrid account that one owner key
      controls: its address and the factory call that deploys it. *)
  counterfactual : string → string * string;
}.

Class ToolkitLaws (T : Toolkit) := {
  getAddress_address a : isAddress a = true → isAddress (getAddress a) = true;
  getAddress_lower a : isAddress a = true → toLowerCase (getAddress a) = toLowerCase a;
  getAddress_canonical a b :
    isAddress a = true → isAddress b = true → toLowerCase a = toLowerCase b →
    getAddress a = getAddress b;
  isAddress_shape a : isAddress a = true → re_0x is_hex 40 a = true;
  keccak256_shape s : re_0x is_lower_hex 64 (keccak256 s) = true;
  (** An address is encoded as its twenty bytes. *)
  encodeIntent_bytes d n a a' v p p' m m' c :
    toLowerCase a = toLowerCase a' → toLowerCase p = toLowerCase p' →
    toLowerCase m = toLowerCase m' →
    encodeIntent d n a v p m c = encodeIntent d n a' v p' m' c;
  encodeIntent_fits d n a v p m c :
    isAddress a = true → isAddress p = true → isAddress m = true → 0 <= v < 2 ^ 256 →
    is_ok (encodeIntent (keccak256 d) n a v p m (keccak256 c)) = true;
}.

Section laws.
Context `{ToolkitLaws}.

Lemma getAddress_idem a : isAddress a = true → getAddress (getAddress a) = getAddress a.
Proof.
  intros Ha. apply getAddress_canonical; [by apply getAddress_address|done|].
  by apply getAddress_lower.
Qed.

(** Two addresses have one canonical form exactly when they differ only in case. *)
Lemma getAddress_eq a b :
  isAddress a = true → isAddress b = true →
  getAddress a = getAddress b ↔ toLowerCase a = toLowerCase b.
Proof.
  intros Ha Hb. split; [|by apply getAddress_canonical].
  intros He. by rewrite <- (getAddress_lower a Ha), <- (getAddress_lower b Hb), He.
Qed.
End laws.

(** ** A concrete instance

    The canonical form is the lower case, except for one known address; the hash is a checksum written in hex;
    a permission context decodes to one root delegation when it ends in a known
    byte. *)
Fixpoint checksum (l : list ascii) (acc : Z) : Z :=
  match l with [] => acc | c :: l' => checksum l' ((acc * 131 + code c) mod 2 ^ 64) end.
Fixpoint hex_digits (w : nat) (z : Z) : string :=
  match w with
  | O => ""
  | S w' => String (nth (Z.to_nat (z mod 16)) (chars "0123456789abcdef") "0"%char)
              (hex_digits w' (z / 16))
  end.
Definition test_hash (s : string) : string := ("0x" ++ hex_digits 64 (checksum (chars s) 0))%string.

Definition test_root (payer signature_ : string) : Delegation :=
  {| delegate := "0x00000000000000000000000000000000000000d1"; delegator := payer;
     authority := "0xroot"; caveats := []; salt := "0x0"; signature := signature_ |}.

(** An address with a mixed-case checksum, kept as it is. *)
Definition test_checksummed : string := "0xcfeb694719A09caeb80798e2011298F29CDa4e92".
Definition test_getAddress (a : string) : string :=
  if String.eqb (toLowerCase a) (toLowerCase test_checksummed) then test_checksummed
  else toLowerCase a.

Lemma test_getAddress_lower a : toLowerCase (test_getAddress a) = toLowerCase a.
Proof.
  unfold test_getAddress.
  destruct (String.eqb_spec (toLowerCase a) (toLowerCase test_checksummed)) as [->|]; [done|].
  apply toLowerCase_idem.
Qed.

#[export] Instance test_toolkit : Toolkit := {
  isAddress := re_0x is_hex 40;
  getAddress := test_getAddress;
  isHex s := match strip_0x s with Some t => forallb is_hex (chars t) | None => false end;
  size s := (slen s - 1) / 2;
  hexToBigInt_slice s lo hi :=
    hex_number (take (Z.to_nat (2 * (hi - lo))) (drop (Z.to_nat (2 + 2 * lo)) (chars s)));
  keccak256 := test_hash;
  toBytes s := s;
  encodeIntent d n a v p m c :=
    if (0 <=? v) && (v <? 2 ^ 256)
    then Ok (d ++ n ++ toLowerCase a ++ show_Z v ++ toLowerCase p ++ toLowerCase m ++ c)%string
    else Throw (JsError "IntegerOutOfRangeError" "uint256");
  decodeDelegations s :=
    if String.eqb s "0x01"
    then Ok [test_root "0x00000000000000000000000000000000000000AB" "0x"]
    else Throw (Error "decode failed");
  recoverDelegator _ _ := Throw (Error "no signature");
  counterfactual o := (o, "0x");
}.

Lemma hex_digit_lower n : (n < 16)%nat →
  is_lower_hex (nth n (chars "0123456789abcdef") "0"%char) = true.
Proof. intros Hn. do 16 (destruct n as [|n]; [done|]). lia. Qed.

Lemma hex_digits_class w : ∀ z,
  slen (hex_digits w z) = Z.of_nat w ∧ forallb is_lower_hex (chars (hex_digits w z)) = true.
Proof.
  induction w as [|w IH]; intros z; [done|].
  destruct (IH (z / 16)) as [Hl Hc]. rewrite slen_chars in *. unfold chars in *.
  cbn [hex_digits list_ascii_of_string length forallb].
  rewrite Hc, andb_true_r, Hl || rewrite Hc, andb_true_r.
  split; [lia|]. apply hex_digit_lower. pose proof (Z.mod_pos_bound z 16). lia.
Qed.

#[export] Instance test_toolkit_laws : ToolkitLaws test_toolkit.
Proof.
  split; cbn [isAddress getAddress keccak256 encodeIntent test_toolkit].
  - intros a Ha. unfold test_getAddress. destruct (String.eqb _ _); [done|].
    by apply re_0x_hex_lower.
  - intros a _. apply test_getAddress_lower.
  - intros a b _ _ Hab. unfold test_getAddress. by rewrite Hab.
  - done.
  - intros s. unfold test_hash. generalize (checksum (chars s) 0). intros z.
    change (re_class is_lower_hex 64 64 (hex_digits 64 z) = true).
    destruct (hex_digits_class 64 z) as [Hl Hc]. unfold re_class. rewrite Hl, Hc. done.
  - intros d n a a' v p p' m m' c Ha Hp Hm. cbn [encodeIntent]. by rewrite Ha, Hp, Hm.
  - intros d n a v p m c _ _ _ [H1 H2]. cbn [encodeIntent].
    by rewrite (proj2 (Z.leb_le _ _) H1), (proj2 (Z.ltb_lt _ _) H2).
Qed.
