(* ===== verification/Budget.v ===== *)
(** * Spending bounds of the sponsored services

    [packages/delegation/src/account-bootstrap.ts]: the daily budget a sponsor
    spends under, the fixed-window limiter in front of it, the fee of a receipt,
    and the separation of funded keys. *)

From Stdlib Require Import ZArith Lia Ascii String DecimalString.
From stdpp Require Import base gmap strings list fin_maps.
From S2P Require Import Prelude Dates Validate Ledger Toolkit.
Open Scope string_scope.
Open Scope Z_scope.

(** ** What a mined transaction cost *)

(** [/^(0x[0-9a-fA-F]+|[0-9]+)$/] *)
Definition FEE (s : string) : bool :=
  match strip_0x s with
  | Some t => negb (String.eqb t "") && forallb is_hex (chars t)
  | None => negb (String.eqb s "") && forallb is_digit (chars s)
  end.

(** [show] is [String(n)] of a Number that is not an integer. *)
Definition readReceiptFeeField (show : Z → string) (value : jsval) : result Z :=
  let unreadable t := Throw (Error ("unreadable l1Fee: " ++ t)) in
  match value with
  | JUndefined | JNull => Ok 0
  | JBig z => if z <? 0 then unreadable (show_Z z) else Ok z
  | JNum z => if negb (isSafeInteger z) || (z <? 0) then unreadable (show_Z z) else Ok z
  | JFloat f => unreadable (show f)
  | JStr s => if FEE (trim s) then Ok (BigInt (trim s)) else unreadable "string"
  | JBool _ => unreadable "boolean"
  | JArr _ | JObj _ => unreadable "object"
  end.

Definition costOfReceipt (show : Z → string) (gasUsed effectiveGasPrice : Z) (l1Fee : jsval)
    (fallback : Z) : Z :=
  match readReceiptFeeField show l1Fee with
  | Ok fee => gasUsed * effectiveGasPrice + fee
  | Throw _ => fallback
  end.

(** ** The daily budget *)

(** Where a day's charged total lives: [load] and [save] of [BudgetStore]; a throw
    leaves the store as it was. *)
Class BudgetStore (S : Type) := {
  store_load : string → S → result Z;
  store_save : string → Z → tx S unit;
}.

Record BudgetHold := { hold_day : string; hold_amount : Z }.

Definition budgetDay (now : Z) : result string := isoDay now.

Record SpendBudget (S : Type) := {
  dailyLimitWei : Z; spent : Z; reserved : Z; day : string; store : option S;
}.
Arguments dailyLimitWei {S}. Arguments spent {S}. Arguments reserved {S}.
Arguments day {S}. Arguments store {S}.

Section SpendBudget.
Context {S : Type} `{BudgetStore S}.
Implicit Types b : SpendBudget S.

Definition with_spent (z : Z) b :=
  {| dailyLimitWei := dailyLimitWei b; spent := z; reserved := reserved b;
     day := day b; store := store b |}.
Definition with_reserved (z : Z) b :=
  {| dailyLimitWei := dailyLimitWei b; spent := spent b; reserved := z;
     day := day b; store := store b |}.
Definition with_day (d : string) b :=
  {| dailyLimitWei := dailyLimitWei b; spent := spent b; reserved := reserved b;
     day := d; store := store b |}.
Definition with_store (s : option S) b :=
  {| dailyLimitWei := dailyLimitWei b; spent := spent b; reserved := reserved b;
     day := day b; store := s |}.

(** [store?.load(day) ?? 0n] *)
Definition load_day (d : string) (st : option S) : result Z :=
  match st with Some s => store_load d s | None => Ok 0 end.
(** [store?.save(day, wei)] *)
Definition save_day (d : string) (wei : Z) : meth (SpendBudget S) unit := λ b,
  match store b with
  | None => (Ok tt, b)
  | Some s => match store_save d wei s with
              | Ok (_, s') => (Ok tt, with_store (Some s') b)
              | Throw e => (Throw e, b)
              end
  end.

Definition new_budget (limit now : Z) (st : option S) : result (SpendBudget S) :=
  throws limit <=? 0 with Error "dailyLimitWei must be positive";
  let? d := budgetDay now in
  let? z := load_day d st in
  Ok {| dailyLimitWei := limit; spent := z; reserved := 0; day := d; store := st |}.

Definition roll (now : Z) : meth (SpendBudget S) unit :=
  do! b := meth_gets id in
  do! d := meth_lift (budgetDay now) in
  if String.eqb d (day b) then meth_ret tt
  else
    do! _ := meth_modify (with_day d) in
    do! z := meth_lift (load_day d (store b)) in
    meth_modify (with_spent z).

Definition persist : meth (SpendBudget S) unit := λ b, save_day (day b) (spent b) b.

Definition reserve (amount now : Z) : meth (SpendBudget S) (option BudgetHold) :=
  do! _ := roll now in
  do! b := meth_gets id in
  if spent b + reserved b + amount >? dailyLimitWei b then meth_ret None
  else
    do! _ := meth_modify (with_reserved (reserved b + amount)) in
    meth_ret (Some {| hold_day := day b; hold_amount := amount |}).

Definition release (amount : Z) : meth (SpendBudget S) unit :=
  do! _ := meth_modify (λ b, with_reserved (reserved b - amount) b) in
  meth_modify (λ b, if reserved b <? 0 then with_reserved 0 b else b).

Definition charge (d : string) (amount now : Z) : meth (SpendBudget S) unit :=
  do! _ := roll now in
  do! b := meth_gets id in
  if String.eqb d (day b) then
    do! _ := meth_modify (with_spent (spent b + amount)) in
    persist
  else
    match store b with
    | None => meth_ret tt
    | Some s => do! z := meth_lift (store_load d s) in save_day d (z + amount)
    end.

Definition settle (hold : BudgetHold) (actual : jsval) (now : Z) : meth (SpendBudget S) unit :=
  match actual with
  | JBig z =>
      do! _ := release (hold_amount hold) in
      charge (hold_day hold) z now
  | _ =>
      do! _ := release (hold_amount hold) in
      do! _ := charge (hold_day hold) (hold_amount hold) now in
      meth_throw (Error "settle requires a bigint charge")
  end.

Definition spentToday (now : Z) : meth (SpendBudget S) Z :=
  do! _ := roll now in meth_gets spent.

Definition remaining (now : Z) : meth (SpendBudget S) Z :=
  do! _ := roll now in
  meth_gets (λ b, let left := dailyLimitWei b - spent b - reserved b in
                  if left >? 0 then left else 0).
End SpendBudget.

(** *** What the budget needs of a store *)
Class StoreLaws (S : Type) `{BudgetStore S} := {
  store_ok : S → Prop;
  load_total s d : store_ok s → DAY d = true → ∃ v, store_load d s = Ok v ∧ 0 <= v;
  save_total s d v : store_ok s → DAY d = true → 0 <= v →
    ∃ s', store_save d v s = Ok (tt, s') ∧ store_ok s'
          ∧ ∀ d', DAY d' = true →
              store_load d' s' = if String.eqb d' d then Ok v else store_load d' s;
}.

(** A clock whose calendar year has four digits, as the day keys require. *)
Definition clock (now : Z) : Prop := four_digit_year (now / MS_PER_DAY).

(** *** Receipt fees are never negative *)
Lemma read_Z_nonneg s : forallb is_digit (chars s) = true → 0 <= default 0 (read_Z s).
Proof.
  intros Hd. unfold read_Z.
  assert (Hpos : ∀ o, 0 <= default 0 (Z.of_int <$> option_map Decimal.Pos o)).
  { intros [d|]; simpl; [|done]. unfold Z.of_uint. lia. }
  destruct s as [|c s]; [done|]. cbn [NilZero.int_of_string].
  destruct (Ascii.eqb_spec c "-") as [->|]; [|apply Hpos].
  by apply andb_true_iff in Hd as [? _].
Qed.

Lemma BigInt_nonneg s : FEE s = true → 0 <= BigInt s.
Proof.
  unfold FEE, BigInt. destruct (strip_0x s) as [t|]; intros [_ Hs]%andb_true_iff.
  - apply hex_number_nonneg; [done|lia].
  - by apply read_Z_nonneg.
Qed.

Lemma fee_nonneg show v f : readReceiptFeeField show v = Ok f → 0 <= f.
Proof.
  unfold readReceiptFeeField. destruct v; try (intros [= <-]; done); try done.
  - destruct (negb _ || (z <? 0)) eqn:Hz; [done|]. intros [= <-].
    apply orb_false_iff in Hz as [_ ?]. lia.
  - destruct (z <? 0) eqn:Hz; [done|]. intros [= <-]. lia.
  - destruct (FEE (trim s)) eqn:Hf; [|done]. intros [= <-]. by apply BigInt_nonneg.
Qed.

Lemma digit_char z : is_digit (ascii_of_N (Z.to_N (48 + z mod 10))) = true.
Proof.
  pose proof (Z.mod_pos_bound z 10 ltac:(lia)) as Hz.
  remember (z mod 10) as d eqn:Hd. clear Hd.
  assert (d = 0 ∨ d = 1 ∨ d = 2 ∨ d = 3 ∨ d = 4 ∨ d = 5 ∨ d = 6 ∨ d = 7 ∨ d = 8 ∨ d = 9)
    as Hc by lia.
  by repeat destruct Hc as [->|Hc]; [..|subst d].
Qed.

Lemma digits_digits w : ∀ z, forallb is_digit (digits w z) = true.
Proof.
  induction w as [|w IH]; intros z; cbn [digits]; [done|].
  rewrite forallb_app, IH. simpl. by rewrite digit_char.
Qed.

Lemma DAY_of_parts y m d :
  DAY (string_of_list_ascii (digits 4 y ++ "-"%char :: digits 2 m ++ "-"%char :: digits 2 d)) = true.
Proof.
  unfold DAY, chars. rewrite list_ascii_of_string_of_list_ascii.
  pose proof (digits_digits 4 y) as Hy. pose proof (digits_digits 2 m) as Hm.
  pose proof (digits_digits 2 d) as Hd.
  pose proof (digits_length 4 y) as Ly. pose proof (digits_length 2 m) as Lm.
  pose proof (digits_length 2 d) as Ld.
  destruct (digits 4 y) as [|y1 [|y2 [|y3 [|y4 [|]]]]]; try done.
  destruct (digits 2 m) as [|m1 [|m2 [|]]]; try done.
  destruct (digits 2 d) as [|d1 [|d2 [|]]]; try done.
  cbn [app forallb] in *. bools.
  repeat match goal with H : is_digit _ = true |- _ => rewrite H; clear H end. done.
Qed.

Lemma budgetDay_day now : clock now → ∃ d, budgetDay now = Ok d ∧ DAY d = true.
Proof.
  intros Hc. unfold budgetDay, isoDay.
  assert (Hm : Z.abs now <= MAX_TIME).
  { unfold clock, four_digit_year, MS_PER_DAY, MAX_TIME in *.
    Z.to_euclidean_division_equations. lia. }
  rewrite (proj2 (Z.leb_le _ _) Hm). eexists. split; [done|].
  apply civil_from_days_bounds in Hc.
  destruct (civil_from_days (now / MS_PER_DAY)) as [[y m] d]. destruct Hc as (Hy & _ & _).
  unfold iso_date. rewrite (proj2 (Z.leb_le 0 y)), (proj2 (Z.leb_le y 9999)) by lia.
  cbn [andb]. rewrite take_ge; [apply DAY_of_parts|].
  rewrite !length_app, !length_cons, length_app, !length_cons, !digits_length. lia.
Qed.

(** *** Histories of one budget

    [holds] are the reservations not yet settled, [overrun d] is what the callers
    charged to day [d] beyond the holds they settled. *)
Record Run (S : Type) := {
  bud : SpendBudget S; holds : list BudgetHold; overrun : gmap string Z;
}.
Arguments bud {S}. Arguments holds {S}. Arguments overrun {S}.

Definition held_on (d : string) (l : list BudgetHold) : Z :=
  Zsum (hold_amount <$> List.filter (λ h, String.eqb (hold_day h) d) l).
Definition at_day (m : gmap string Z) (d : string) : Z := default 0 (m !! d).

Section histories.
Context {S : Type} `{StoreLaws S}.

Definition total_of (d : string) (s : S) : Z :=
  match store_load d s with Ok v => v | Throw _ => 0 end.

Inductive budget_step : Run S → Run S → Prop :=
  | step_reserved r amount now h b' :
      0 <= amount → clock now → reserve amount now (bud r) = (Ok (Some h), b') →
      budget_step r {| bud := b'; holds := h :: holds r; overrun := overrun r |}
  | step_refused r amount now b' :
      0 <= amount → clock now → reserve amount now (bud r) = (Ok None, b') →
      budget_step r {| bud := b'; holds := holds r; overrun := overrun r |}
  | step_settled r l1 h l2 actual now b' :
      clock now → holds r = (l1 ++ h :: l2)%list → 0 <= actual →
      settle h (JBig actual) now (bud r) = (Ok tt, b') →
      budget_step r {| bud := b'; holds := (l1 ++ l2)%list;
        overrun := <[hold_day h := at_day (overrun r) (hold_day h)
                                   + Z.max 0 (actual - hold_amount h)]> (overrun r) |}
  | step_unreadable r l1 h l2 actual now e b' :
      clock now → holds r = (l1 ++ h :: l2)%list → (∀ z, actual ≠ JBig z) →
      settle h actual now (bud r) = (Throw e, b') →
      budget_step r {| bud := b'; holds := (l1 ++ l2)%list; overrun := overrun r |}
  | step_read r now z b' :
      clock now → (spentToday now (bud r) = (Ok z, b') ∨ remaining now (bud r) = (Ok z, b')) →
      budget_step r {| bud := b'; holds := holds r; overrun := overrun r |}
  | step_restart r now b' :
      clock now → new_budget (dailyLimitWei (bud r)) now (store (bud r)) = Ok b' →
      budget_step r {| bud := b'; holds := []; overrun := overrun r |}.

(** The object agrees with its store about the day it holds. *)
Definition live (b : SpendBudget S) (s : S) : Prop :=
  store b = Some s ∧ store_ok s ∧ DAY (day b) = true ∧ store_load (day b) s = Ok (spent b).

Lemma total_nonneg s d : store_ok s → DAY d = true → 0 <= total_of d s.
Proof. intros Hs Hd. unfold total_of. by destruct (load_total s d Hs Hd) as (v & -> & ?). Qed.

Lemma live_spent b s : live b s → total_of (day b) s = spent b ∧ 0 <= spent b.
Proof.
  intros (_ & Hok & Hd & Hl). pose proof (total_nonneg s (day b) Hok Hd) as Hn.
  unfold total_of in *. rewrite Hl in *. done.
Qed.

Lemma roll_ok b s now :
  live b s → clock now →
  ∃ b', roll now b = (Ok tt, b') ∧ live b' s ∧ reserved b' = reserved b
        ∧ dailyLimitWei b' = dailyLimitWei b ∧ budgetDay now = Ok (day b').
Proof.
  intros (Hst & Hok & Hd & Hl) (d & Hnow & HD)%budgetDay_day.
  unfold roll, meth_bind, meth_gets, meth_lift, meth_ret, id. rewrite Hnow.
  destruct (String.eqb_spec d (day b)) as [->|Hne].
  - exists b. by split_and!.
  - unfold meth_modify. cbn. rewrite Hst. cbn [load_day].
    destruct (load_total s d Hok HD) as (v & Hv & _). rewrite Hv.
    eexists. split; [done|]. by split_and!.
Qed.

Lemma save_day_ok b s d v :
  store b = Some s → store_ok s → DAY d = true → 0 <= v →
  ∃ s', save_day d v b = (Ok tt, with_store (Some s') b) ∧ store_ok s'
        ∧ ∀ d', DAY d' = true →
            store_load d' s' = if String.eqb d' d then Ok v else store_load d' s.
Proof.
  intros Hst Hok Hd Hv. destruct (save_total s d v Hok Hd Hv) as (s' & Hs & Hok' & Hl).
  exists s'. unfold save_day. by rewrite Hst, Hs.
Qed.

Lemma charge_ok b s d z now :
  live b s → DAY d = true → 0 <= z → clock now →
  ∃ b' s', charge d z now b = (Ok tt, b') ∧ live b' s' ∧ reserved b' = reserved b
    ∧ dailyLimitWei b' = dailyLimitWei b
    ∧ ∀ d', DAY d' = true →
        total_of d' s' = total_of d' s + (if String.eqb d' d then z else 0).
Proof.
  intros Hlive Hd Hz Hc. destruct (roll_ok b s now Hlive Hc) as (b1 & Hr & Hl1 & Hres & Hlim & _).
  unfold charge. rewrite (meth_bind_run _ _ _ _ _ Hr).
  destruct (live_spent b1 s Hl1) as [Hts Hsp]. destruct Hl1 as (Hst & Hok & Hd1 & Hload).
  unfold meth_bind at 1, meth_gets, id.
  destruct (String.eqb_spec d (day b1)) as [->|Hne].
  - unfold meth_bind, meth_modify, persist.
    destruct (save_day_ok (with_spent (spent b1 + z) b1) s (day b1) (spent b1 + z))
      as (s' & Hs & Hok' & Hl'); [done..|lia|].
    simpl. rewrite Hs. eexists _, s'. split; [done|]. split_and!; try done.
    + split_and!; try done. cbn. by rewrite Hl', String.eqb_refl.
    + intros d' HD'. unfold total_of at 1. rewrite (Hl' _ HD').
      destruct (String.eqb_spec d' (day b1)) as [->|]; [lia|]. unfold total_of. lia.
  - rewrite Hst. unfold meth_bind, meth_lift.
    destruct (load_total s d Hok Hd) as (v & Hv & Hv0). rewrite Hv.
    destruct (save_day_ok b1 s d (v + z)) as (s' & Hs & Hok' & Hl'); [done..|lia|].
    rewrite Hs. eexists _, s'. split; [done|]. split_and!; try done.
    + split_and!; try done. cbn. rewrite (Hl' _ Hd1). by destruct (String.eqb_spec (day b1) d); [congruence|].
    + intros d' HD'. unfold total_of at 1. rewrite (Hl' _ HD').
      destruct (String.eqb_spec d' d) as [->|].
      * unfold total_of. rewrite Hv. lia.
      * unfold total_of. lia.
Qed.

Lemma release_run amount (b : SpendBudget S) :
  release amount b = (Ok tt, with_reserved (Z.max 0 (reserved b - amount)) b).
Proof.
  unfold release, meth_bind, meth_modify. simpl.
  destruct (Z.ltb_spec (reserved b - amount) 0); unfold with_reserved; simpl; repeat f_equal; lia.
Qed.

Lemma settle_restores b s h actual now :
  live b s → DAY (hold_day h) = true → clock now →
  0 <= (match actual with JBig z => z | _ => hold_amount h end) →
  ∃ b' s', (settle h actual now b).2 = b' ∧ live b' s'
    ∧ reserved b' = Z.max 0 (reserved b - hold_amount h)
    ∧ dailyLimitWei b' = dailyLimitWei b
    ∧ (∀ d, DAY d = true → total_of d s' = total_of d s
        + (if String.eqb d (hold_day h)
           then match actual with JBig z => z | _ => hold_amount h end else 0))
    ∧ ((settle h actual now b).1 = Ok tt ↔ ∃ z, actual = JBig z).
Proof.
  intros Hl Hd Hc Hz.
  destruct (charge_ok (with_reserved (Z.max 0 (reserved b - hold_amount h)) b) s (hold_day h)
    (match actual with JBig z => z | _ => hold_amount h end) now) as (b' & s' & Hch & Hl' & Hr & Hlim & Ht);
    [done..|].
  exists b', s'.
  assert (Hrun : settle h actual now b
    = (match actual with JBig _ => Ok tt | _ => Throw (Error "settle requires a bigint charge") end, b')).
  { unfold settle. destruct actual; rewrite (meth_bind_run _ _ _ _ _ (release_run _ _));
      try (rewrite (meth_bind_run _ _ _ _ _ Hch)); done. }
  rewrite Hrun. split_and!; try done. destruct actual; simpl; naive_solver.
Qed.
(** What every history keeps: no day's total, with the holds still open on it,
    passes the limit, the total the day opened with, or the callers' overruns. *)
Definition ceiling (limit : Z) (init : S) (m : gmap string Z) (d : string) : Z :=
  Z.max limit (total_of d init) + at_day m d.
Definition run_ok (limit : Z) (init : S) (r : Run S) : Prop :=
  dailyLimitWei (bud r) = limit
  ∧ Forall (λ h, 0 <= hold_amount h ∧ DAY (hold_day h) = true) (holds r)
  ∧ Zsum (hold_amount <$> holds r) <= reserved (bud r)
  ∧ (∀ d, 0 <= at_day (overrun r) d)
  ∧ ∃ s, live (bud r) s
      ∧ ∀ d, DAY d = true →
          total_of d s + held_on d (holds r) <= ceiling limit init (overrun r) d.

Lemma held_on_le d l :
  Forall (λ h, 0 <= hold_amount h ∧ DAY (hold_day h) = true) l →
  0 <= held_on d l <= Zsum (hold_amount <$> l).
Proof.
  induction 1 as [|h l [Hh _] Hl IH]; unfold held_on in *; cbn [List.filter]; [done|].
  rewrite fmap_cons, Zsum_cons. destruct (String.eqb (hold_day h) d); [|lia].
  rewrite fmap_cons, Zsum_cons. lia.
Qed.

Lemma held_on_cons d h l :
  held_on d (h :: l) = (if String.eqb (hold_day h) d then hold_amount h else 0) + held_on d l.
Proof. unfold held_on. cbn [List.filter]. by destruct (String.eqb (hold_day h) d). Qed.

Lemma held_on_app d l1 l2 : held_on d (l1 ++ l2)%list = held_on d l1 + held_on d l2.
Proof.
  induction l1 as [|h l1 IH]; [done|]. simpl app. rewrite !held_on_cons, IH. lia.
Qed.

Lemma holds_remove (l1 : list BudgetHold) h l2 :
  Forall (λ h, 0 <= hold_amount h ∧ DAY (hold_day h) = true) (l1 ++ h :: l2)%list →
  Forall (λ h, 0 <= hold_amount h ∧ DAY (hold_day h) = true) (l1 ++ l2)%list
  ∧ 0 <= hold_amount h ∧ DAY (hold_day h) = true
  ∧ Zsum (hold_amount <$> (l1 ++ h :: l2)%list) = hold_amount h + Zsum (hold_amount <$> (l1 ++ l2)%list)
  ∧ ∀ d, held_on d (l1 ++ h :: l2)%list
         = (if String.eqb (hold_day h) d then hold_amount h else 0) + held_on d (l1 ++ l2)%list.
Proof.
  intros Hl. apply Forall_app in Hl as [H1 [Hh H2]%Forall_cons].
  rewrite !fmap_app, !Zsum_app, fmap_cons, Zsum_cons.
  split_and!; try naive_solver; [by apply Forall_app|lia|].
  intros d. rewrite !held_on_app, held_on_cons. lia.
Qed.

Lemma at_day_insert m d z d' :
  at_day (<[d := z]> m) d' = if String.eqb d' d then z else at_day m d'.
Proof.
  unfold at_day. destruct (String.eqb_spec d' d) as [->|]; [by rewrite lookup_insert_eq|].
  by rewrite lookup_insert_ne.
Qed.

(** The three ways a step answers. *)
Lemma reserve_run amount now b s :
  live b s → clock now →
  ∃ b1, roll now b = (Ok tt, b1) ∧ live b1 s ∧ reserved b1 = reserved b
    ∧ dailyLimitWei b1 = dailyLimitWei b
    ∧ reserve amount now b
      = if total_of (day b1) s + reserved b + amount >? dailyLimitWei b then (Ok None, b1)
        else (Ok (Some {| hold_day := day b1; hold_amount := amount |}),
              with_reserved (reserved b + amount) b1).
Proof.
  intros Hl Hc. destruct (roll_ok b s now Hl Hc) as (b1 & Hr & Hl1 & Hres & Hlim & _).
  exists b1. split_and!; try done. unfold reserve. rewrite (meth_bind_run _ _ _ _ _ Hr).
  destruct (live_spent b1 s Hl1) as [Ht _].
  unfold meth_bind, meth_gets, meth_ret, meth_modify, id. rewrite Ht, <- Hres, <- Hlim.
  by destruct (_ >? _).
Qed.

Lemma reserve_run_ok limit init r amount now h b' :
  run_ok limit init r → 0 <= amount → clock now →
  reserve amount now (bud r) = (Ok h, b') →
  run_ok limit init {| bud := b'; overrun := overrun r;
    holds := match h with Some h => h :: holds r | None => holds r end |}.
Proof.
  intros (Hlim & Hh & Hres & Hov & s & Hl & Ht) Ha Hc Hrun.
  destruct (reserve_run amount now (bud r) s Hl Hc) as (b1 & _ & Hl1 & Hr1 & Hlim1 & Hb).
  rewrite Hrun in Hb.
  destruct (Z.gtb_spec (total_of (day b1) s + reserved (bud r) + amount) (dailyLimitWei (bud r)))
    as [Hgt|Hle]; injection Hb as -> ->; unfold run_ok; simpl;
    (split; [congruence|]).
  - rewrite Hr1. split_and!; try done. by exists s.
  - split; [by constructor; [split; [done|apply Hl1]|]|].
    split; [change (amount + Zsum (hold_amount <$> holds r) <= reserved (bud r) + amount); lia|]. split; [done|]. exists s. split; [done|].
    intros d Hd. specialize (Ht d Hd). rewrite held_on_cons. simpl.
    destruct (String.eqb_spec (day b1) d) as [<-|]; [|lia].
    pose proof (held_on_le (day b1) _ Hh). pose proof (Hov (day b1)).
    unfold ceiling in *. lia.
Qed.

Lemma settle_run_ok limit init r l1 h l2 actual now :
  run_ok limit init r → clock now → holds r = (l1 ++ h :: l2)%list →
  let z := match actual with JBig z => z | _ => hold_amount h end in
  0 <= z →
  run_ok limit init {| bud := (settle h actual now (bud r)).2; holds := (l1 ++ l2)%list;
    overrun := <[hold_day h := at_day (overrun r) (hold_day h) + Z.max 0 (z - hold_amount h)]>
                 (overrun r) |}.
Proof.
  intros (Hlim & Hh & Hres & Hov & s & Hl & Ht) Hc Heq z Hz. rewrite Heq in *.
  destruct (holds_remove _ _ _ Hh) as (Hh' & Ha & HD & Hsum & Hheld).
  destruct (settle_restores (bud r) s h actual now Hl HD Hc Hz)
    as (b' & s' & <- & Hl' & Hr' & Hlim' & Ht' & _).
  unfold run_ok. simpl. split; [congruence|]. split; [done|]. split; [lia|].
  split; [intros d; rewrite at_day_insert; specialize (Hov d);
          destruct (String.eqb_spec d (hold_day h)) as [->|]; lia|].
  exists s'. split; [done|]. intros d Hd. rewrite (Ht' d Hd). specialize (Ht d Hd).
  rewrite Hheld in Ht. unfold ceiling in *. rewrite at_day_insert.
  destruct (String.eqb_spec d (hold_day h)) as [->|Hne].
  - rewrite String.eqb_refl in Ht. fold z. lia.
  - destruct (String.eqb_spec (hold_day h) d); [congruence|]. lia.
Qed.

Lemma run_ok_overrun limit init b l m m' :
  (∀ d, at_day m' d = at_day m d) →
  run_ok limit init {| bud := b; holds := l; overrun := m |} →
  run_ok limit init {| bud := b; holds := l; overrun := m' |}.
Proof.
  intros Hm (Hlim & Hh & Hres & Hov & s & Hl & Ht). unfold run_ok, ceiling in *. simpl in *.
  split_and!; try done; [intros d; by rewrite Hm|].
  exists s. split; [done|]. intros d Hd. rewrite Hm. by apply Ht.
Qed.

Lemma budget_step_ok limit init r r' :
  0 < limit → run_ok limit init r → budget_step r r' → run_ok limit init r'.
Proof.
  intros Hpos Hok Hstep. destruct Hstep as
    [r amount now h b' Ha Hc H1|r amount now b' Ha Hc H1|r l1 h l2 actual now b' Hc Hh Ha H1
    |r l1 h l2 actual now e b' Hc Hh Ha H1|r now z b' Hc H1|r now b' Hc H1].
  - by apply (reserve_run_ok _ _ _ _ _ _ _ Hok Ha Hc) in H1.
  - by apply (reserve_run_ok _ _ _ _ _ _ _ Hok Ha Hc) in H1.
  - pose proof (settle_run_ok _ _ _ _ _ _ (JBig actual) now Hok Hc Hh Ha) as Hs.
    by rewrite H1 in Hs.
  - assert (Hz : 0 <= match actual with JBig z => z | _ => hold_amount h end).
    { destruct actual; try (exfalso; naive_solver);
      destruct Hok as (_ & Hall & _); rewrite Hh in Hall;
      apply holds_remove in Hall as (_ & ? & _); done. }
    pose proof (settle_run_ok _ _ _ _ _ _ actual now Hok Hc Hh Hz) as Hs.
    rewrite H1 in Hs. eapply run_ok_overrun; [|exact Hs]. intros d. simpl.
    rewrite at_day_insert. destruct (String.eqb_spec d (hold_day h)) as [->|]; [|done].
    destruct actual; try lia. exfalso. naive_solver.
  - destruct Hok as (Hlim & Hh & Hres & Hov & s & Hl & Ht).
    destruct (roll_ok (bud r) s now Hl Hc) as (b1 & Hr & Hl1 & Hr1 & Hlim1 & _).
    assert (b' = b1) as ->.
    { unfold spentToday, remaining in H1. rewrite !(meth_bind_run _ _ _ _ _ Hr) in H1.
      unfold meth_gets in H1. naive_solver. }
    unfold run_ok. simpl. rewrite Hlim1, Hr1. split_and!; try done. by exists s.
  - destruct Hok as (Hlim & Hh & Hres & Hov & s & Hl & Ht). unfold new_budget in H1.
    destruct (budgetDay_day now Hc) as (d & Hd & HD). destruct Hl as (Hst & Hok & _).
    destruct (load_total s d Hok HD) as (v & Hv & _).
    rewrite Hst in H1. simpl in H1. rewrite Hd in H1. simpl in H1. rewrite Hv in H1. inv_tx.
    unfold run_ok. simpl. split_and!; try done. exists s. split; [by split_and!|].
    intros d' Hd'. specialize (Ht d' Hd'). pose proof (held_on_le d' _ Hh).
    unfold held_on at 1. change (Zsum (hold_amount <$> [])) with 0 in *. simpl. unfold Zsum. simpl.
    lia.
Qed.

Lemma new_budget_ok limit now0 s0 b0 :
  store_ok s0 → clock now0 → new_budget limit now0 (Some s0) = Ok b0 →
  0 < limit ∧ run_ok limit s0 {| bud := b0; holds := []; overrun := ∅ |}.
Proof.
  intros Hok Hc Hnew. unfold new_budget in Hnew. inv_tx. bools.
  destruct (budgetDay_day now0 Hc) as (d & Hd & HD).
  match goal with H : budgetDay now0 = Ok ?x |- _ =>
    assert (x = d) as -> by congruence end. simpl in *.
  split; [done|]. unfold run_ok, ceiling, at_day. simpl.
  split_and!; try done.
  exists s0. split; [by split_and!|]. intros d' _. rewrite lookup_empty.
  unfold held_on. change (Zsum (hold_amount <$> [])) with 0. unfold Zsum. simpl. lia.
Qed.

(** The daily ceiling is a guarantee. Over every history of reservations,
    settlements (readable or not), readings and restarts, at any clock: what the store
    holds for a day, plus the reservations still open on that day, never passes the
    daily limit or the total that day opened with, beyond what callers charged above
    their own holds; and the object always agrees with its store. *)
Theorem daily_ceiling limit now0 s0 b0 r :
  store_ok s0 → clock now0 → new_budget limit now0 (Some s0) = Ok b0 →
  star budget_step {| bud := b0; holds := []; overrun := ∅ |} r →
  ∃ s, store (bud r) = Some s
    ∧ (∀ d, DAY d = true →
         total_of d s + held_on d (holds r)
         <= Z.max limit (total_of d s0) + at_day (overrun r) d)
    ∧ store_load (day (bud r)) s = Ok (spent (bud r))
    ∧ Zsum (hold_amount <$> holds r) <= reserved (bud r).
Proof.
  intros Hok Hc Hnew Hstar. destruct (new_budget_ok _ _ _ _ Hok Hc Hnew) as [Hpos Hinit].
  assert (Hr : run_ok limit s0 r).
  { revert Hinit Hstar. apply star_invariant. intros a b. by apply budget_step_ok. }
  destruct Hr as (_ & _ & Hres & _ & s & (Hst & _ & _ & Hl) & Ht). eauto.
Qed.

Lemma roll_today b now : budgetDay now = Ok (day b) → roll now b = (Ok tt, b).
Proof.
  intros Hd. unfold roll, meth_bind, meth_gets, meth_lift, meth_ret, id.
  by rewrite Hd, String.eqb_refl.
Qed.

Lemma remaining_run b s now :
  live b s → clock now →
  ∃ b1, remaining now b
    = (Ok (Z.max 0 (dailyLimitWei b - total_of (day b1) s - reserved b)), b1)
    ∧ live b1 s ∧ reserved b1 = reserved b ∧ dailyLimitWei b1 = dailyLimitWei b
    ∧ budgetDay now = Ok (day b1) ∧ (budgetDay now = Ok (day b) → b1 = b).
Proof.
  intros Hl Hc. destruct (roll_ok b s now Hl Hc) as (b1 & Hroll & Hl1 & Hr & Hlim & Hd).
  exists b1. unfold remaining. rewrite (meth_bind_run _ _ _ _ _ Hroll).
  destruct (live_spent b1 s Hl1) as [Ht _]. unfold meth_gets. split_and!; try done.
  - rewrite Ht, Hr, Hlim. do 2 f_equal.
    destruct (Z.gtb_spec (dailyLimitWei b - spent b1 - reserved b) 0); lia.
  - intros Hd'%roll_today. congruence.
Qed.

(** The answers of one object agree: a positive amount is reserved exactly when it
    is within [remaining], the hold carries today's key and the amount, a refusal
    changes nothing, and settling the hold at once gives the headroom back less the
    charge. *)
Theorem reserve_agrees_with_remaining b s now amount :
  live b s → clock now → 0 < amount → 0 <= reserved b →
  ∃ left b1, remaining now b = (Ok left, b1)
    ∧ if amount <=? left
      then ∃ h b2, reserve amount now b1 = (Ok (Some h), b2) ∧ hold_amount h = amount
           ∧ budgetDay now = Ok (hold_day h)
           ∧ remaining now b2 = (Ok (left - amount), b2)
           ∧ ∀ z, 0 <= z <= amount → ∃ b3 b4,
               settle h (JBig z) now b2 = (Ok tt, b3)
               ∧ remaining now b3 = (Ok (left - z), b4)
      else reserve amount now b1 = (Ok None, b1).
Proof.
  intros Hl Hc Ha Hr0.
  destruct (remaining_run b s now Hl Hc) as (b1 & Hb1 & Hl1 & Hr1 & Hlim1 & Hd1 & _). do 2 eexists.
  split; [exact Hb1|].
  destruct (reserve_run amount now b1 s Hl1 Hc) as (b1' & Hroll & Hl1' & Hr1' & Hlim1' & Hres).
  assert (b1' = b1) as -> by (apply roll_today in Hd1; congruence).
  rewrite Hr1, Hlim1 in Hres.
  set (T := total_of (day b1) s) in *.
  destruct (Z.leb_spec amount (Z.max 0 (dailyLimitWei b - T - reserved b))) as [Hle|Hgt].
  - destruct (Z.gtb_spec (T + reserved b + amount) (dailyLimitWei b)); [lia|].
    do 2 eexists. split; [exact Hres|]. simpl. split_and!; try done.
    + destruct (remaining_run (with_reserved (reserved b + amount) b1) s now Hl1 Hc)
        as (b2 & Hb2 & _ & _ & _ & _ & Hsame).
      rewrite (Hsame Hd1) in Hb2. rewrite Hb2. simpl. fold T. rewrite Hlim1. do 2 f_equal. lia.
    + intros z Hz.
      set (h := {| hold_day := day b1; hold_amount := amount |}).
      destruct (settle_restores (with_reserved (reserved b + amount) b1) s h (JBig z) now Hl1)
        as (b3 & s3 & Hb3 & Hl3 & Hr3 & Hlim3 & Ht3 & Hok3); [apply Hl1|done|lia|].
      destruct (remaining_run b3 s3 now Hl3 Hc) as (b4 & Hb4 & _ & _ & _ & Hd4 & _).
      exists b3, b4. split.
      * change (settle h (JBig z) now (with_reserved (reserved b + amount) b1) = (Ok tt, b3)).
        rewrite <- Hb3, <- (proj2 Hok3 (ex_intro _ z eq_refl)). by destruct (settle _ _ _ _).
      * rewrite Hb4. simpl in *. assert (day b4 = day b1) as -> by congruence.
        rewrite Ht3 by apply Hl1. rewrite String.eqb_refl, Hr3, Hlim3, Hlim1. fold T.
        do 2 f_equal. lia.
  - destruct (Z.gtb_spec (T + reserved b + amount) (dailyLimitWei b)); [done|lia].
Qed.
End histories.

(** *** The store's series is such a store *)
Definition series_store (scope : string) : BudgetStore budgets := {|
  store_load d t := series_load scope d t;
  store_save d v := series_save scope d v;
|}.

Definition series_laws (scope : string) : @StoreLaws budgets (series_store scope).
Proof.
  refine {| store_ok := λ t : budgets, ∀ k v, t !! k = Some v → 0 <= v |}.
  - intros t d Hok Hd. unfold store_load, series_store, series_load, dayKey, matching, load_spent.
    rewrite Hd. simpl. eexists. split; [done|].
    destruct (t !! (scope, d)) as [v|] eqn:Hv; simpl; [by eapply Hok|lia].
  - intros t d v Hok Hd Hv. exists (save_spent scope d v t).
    unfold store_save, store_load, series_store, series_load, series_save, dayKey, matching.
    rewrite Hd. simpl.
    unfold tbind, tlift. simpl. rewrite (proj2 (Z.ltb_ge v 0) Hv). simpl. split_and!; [done| |].
    + intros k w. unfold save_spent. rewrite lookup_insert_Some. naive_solver.
    + intros d' Hd'. rewrite Hd'. simpl. unfold load_spent, save_spent.
      destruct (String.eqb_spec d' d) as [->|Hne]; [by rewrite lookup_insert_eq|].
      rewrite lookup_insert_ne; [done|congruence].
Defined.

(** ** The fixed-window limiter *)
Record Window := { count : Z; resetAt : Z }.
Record FixedWindowLimiter := { limit : Z; windowMs : Z; hits : gmap string Window }.

(** [Number.isInteger(v) && v >= 1] *)
Definition positive_integer (v : jsval) : option Z :=
  match v with JNum z => if z <? 1 then None else Some z | _ => None end.

Definition new_limiter (limit windowMs : jsval) : result FixedWindowLimiter :=
  match positive_integer limit with
  | None => Throw (Error "limit must be a positive integer")
  | Some l =>
      match positive_integer windowMs with
      | None => Throw (Error "windowMs must be a positive integer")
      | Some w => Ok {| limit := l; windowMs := w; hits := ∅ |}
      end
  end.

Definition with_hits (f : gmap string Window → gmap string Window) (l : FixedWindowLimiter) :=
  {| limit := limit l; windowMs := windowMs l; hits := f (hits l) |}.

Definition tryConsume (key : string) (now : Z) (l : FixedWindowLimiter) : bool * FixedWindowLimiter :=
  let fresh := (true, with_hits <[key := {| count := 1; resetAt := now + windowMs l |}]> l) in
  match hits l !! key with
  | None => fresh
  | Some entry =>
      if resetAt entry <=? now then fresh
      else if limit l <=? count entry then (false, l)
      else (true, with_hits <[key := {| count := count entry + 1; resetAt := resetAt entry |}]> l)
  end.

Definition sweep (now : Z) (l : FixedWindowLimiter) : FixedWindowLimiter :=
  with_hits (filter (λ kv : string * Window, now < resetAt kv.2)) l.

Definition limiter_size (l : FixedWindowLimiter) : Z := Z.of_nat (base.size (hits l)).

(** A history: the calls a service makes, in the order of its clock, with the grants
    each key was given. *)
Record Calls := { lim : FixedWindowLimiter; grants : list (string * Z); at_time : Z }.

Inductive limiter_step : Calls → Calls → Prop :=
  | limiter_consume c key now ok l' :
      at_time c <= now → tryConsume key now (lim c) = (ok, l') →
      limiter_step c {| lim := l'; at_time := now;
                        grants := if ok : bool then (key, now) :: grants c else grants c |}
  | limiter_sweep c now :
      at_time c <= now →
      limiter_step c {| lim := sweep now (lim c); at_time := now; grants := grants c |}.

(** How many grants a key was given at the times [p] accepts. *)
Definition granted (key : string) (p : Z → bool) (l : list (string * Z)) : Z :=
  Z.of_nat (length (List.filter (λ g, String.eqb g.1 key && p g.2) l)).
Definition within (lo hi t : Z) : bool := (lo <=? t) && (t <? hi).

Lemma granted_cons key p k t l :
  granted key p ((k, t) :: l) = (if String.eqb k key && p t then 1 else 0) + granted key p l.
Proof. unfold granted. cbn [List.filter fst snd]. destruct (_ && _); simpl; lia. Qed.

Lemma granted_nonneg key p l : 0 <= granted key p l.
Proof. unfold granted. lia. Qed.

Lemma granted_le key p q r l :
  (∀ t, (key, t) ∈ l → p t = true → q t = true ∨ r t = true) →
  granted key p l <= granted key q l + granted key r l.
Proof.
  induction l as [|[k t] l IH]; intros Hp; [done|]. rewrite !granted_cons.
  assert (granted key p l <= granted key q l + granted key r l)
    by (apply IH; intros; apply Hp; set_solver).
  destruct (String.eqb_spec k key) as [->|]; simpl; [|lia].
  destruct (p t) eqn:Hpt; [|destruct (q t), (r t); lia].
  destruct (Hp t ltac:(set_solver) Hpt) as [-> | ->]; [destruct (r t)|destruct (q t)]; lia.
Qed.

Lemma granted_sub key p q l :
  (∀ t, (key, t) ∈ l → p t = true → q t = true) → granted key p l <= granted key q l.
Proof.
  intros Hp. pose proof (granted_le key p q (λ _, false) l) as H.
  assert (granted key (λ _, false) l = 0) as H0.
  { clear. induction l as [|[k t] l IH]; [done|]. rewrite granted_cons, IH.
    by destruct (String.eqb k key). }
  rewrite H0 in H. rewrite Z.add_0_r in H. apply H. intros t Ht Hpt. left. by apply Hp.
Qed.

Lemma granted_zero key p l : (∀ t, (key, t) ∈ l → p t = false) → granted key p l = 0.
Proof.
  intros Hp. assert (granted key p l <= granted key (λ _, false) l).
  { apply granted_sub. intros t Ht. by rewrite Hp. }
  pose proof (granted_nonneg key p l).
  assert (granted key (λ _, false) l = 0); [|lia].
  clear. induction l as [|[k t] l IH]; [done|]. rewrite granted_cons, IH.
  by destruct (String.eqb k key).
Qed.

(** What the history keeps of a key: its last window began at [s] with [c] grants. *)
Definition key_ok (L w : Z) (c : Calls) (key : string) : Prop :=
  ∃ s n,
    match hits (lim c) !! key with
    | Some e => count e = n ∧ resetAt e = s + w
    | None => s + w <= at_time c
    end
    ∧ s <= at_time c ∧ n <= L
    ∧ granted key (λ t, s <=? t) (grants c) = n
    ∧ (∀ t, (key, t) ∈ grants c → t < s + w)
    ∧ (∀ a, s < a + w → granted key (within a s) (grants c) <= L)
    ∧ (∀ a, granted key (within a (a + w)) (grants c) <= 2 * L).
Definition calls_ok (L w : Z) (c : Calls) : Prop :=
  limit (lim c) = L ∧ windowMs (lim c) = w ∧ ∀ key, key_ok L w c key.

Lemma key_ok_later L w c c' key :
  key_ok L w c key → at_time c <= at_time c' →
  (∀ p, granted key p (grants c') = granted key p (grants c)) →
  (∀ t, (key, t) ∈ grants c' → (key, t) ∈ grants c) →
  (hits (lim c') !! key = hits (lim c) !! key
   ∨ (hits (lim c') !! key = None
      ∧ ∀ e, hits (lim c) !! key = Some e → resetAt e <= at_time c')) →
  key_ok L w c' key.
Proof.
  intros (s & n & He & Hs & Hn & Hc & Ht & Ha & H2) Hle Hg Hin Hh.
  exists s, n. rewrite Hg. split_and!; try done; try (intros; rewrite Hg; auto); [|lia|auto].
  destruct Hh as [->|[-> Hh]].
  - destruct (hits (lim c) !! key); [done|lia].
  - destruct (hits (lim c) !! key) as [e|]; [|lia]. specialize (Hh e eq_refl). lia.
Qed.

Lemma key_ok_new L w c key now l' :
  1 <= L → 0 < w → key_ok L w c key → at_time c <= now →
  (∀ e, hits (lim c) !! key = Some e → resetAt e <= now) →
  hits l' !! key = Some {| count := 1; resetAt := now + w |} →
  key_ok L w {| lim := l'; grants := (key, now) :: grants c; at_time := now |} key.
Proof.
  intros HL Hw (s & n & He & Hs & Hn & Hc & Ht & Ha & H2) Hle Hexp Hh.
  assert (Hsw : s + w <= now).
  { destruct (hits (lim c) !! key) as [e|]; [specialize (Hexp e eq_refl)|]; lia. }
  assert (Hold : ∀ a, now < a + w → granted key (within a (a + w)) (grants c) <= L).
  { intros a Haw. etransitivity; [|exact Hn]. rewrite <- Hc. apply granted_sub.
    unfold within. intros t _ Hb. bools. apply Z.leb_le. lia. }
  exists now, 1. simpl. rewrite Hh. split_and!; simpl; try done; try lia.
  - rewrite granted_cons, String.eqb_refl, Z.leb_refl. simpl.
    rewrite granted_zero; [done|]. intros t Hin%Ht. apply Z.leb_gt. lia.
  - intros t [[= ->]|Hin%Ht]%elem_of_cons; lia.
  - intros a Haw. rewrite granted_cons, String.eqb_refl. unfold within at 1.
    rewrite Z.ltb_irrefl, andb_false_r. simpl.
    etransitivity; [|apply (Hold a Haw)]. apply granted_sub. unfold within.
    intros t _ Hb. bools. apply andb_true_iff. split; [by apply Z.leb_le|apply Z.ltb_lt; lia].
  - intros a. rewrite granted_cons, String.eqb_refl. simpl. specialize (H2 a).
    destruct (within a (a + w) now) eqn:Hb; [|lia]. unfold within in Hb. bools.
    specialize (Hold a). lia.
Qed.

Lemma key_ok_more L w c key now l' e :
  key_ok L w c key → at_time c <= now →
  hits (lim c) !! key = Some e → now < resetAt e → count e < L →
  hits l' !! key = Some {| count := count e + 1; resetAt := resetAt e |} →
  key_ok L w {| lim := l'; grants := (key, now) :: grants c; at_time := now |} key.
Proof.
  intros (s & n & He & Hs & Hn & Hc & Ht & Ha & H2) Hle Hk Hlt Hcnt Hh.
  rewrite Hk in He. destruct He as [<- Hr].
  exists s, (count e + 1). simpl. rewrite Hh. split_and!; simpl; try done; try lia.
  - rewrite granted_cons, String.eqb_refl. rewrite (proj2 (Z.leb_le s now)) by lia. simpl. lia.
  - intros t [[= ->]|Hin%Ht]%elem_of_cons; lia.
  - intros a Haw. rewrite granted_cons, String.eqb_refl. unfold within at 1.
    rewrite (proj2 (Z.ltb_ge now s)) by lia. rewrite andb_false_r. simpl. by apply Ha.
  - intros a. rewrite granted_cons, String.eqb_refl. simpl. specialize (H2 a).
    destruct (within a (a + w) now) eqn:Hb; [|lia]. unfold within in Hb. bools.
    specialize (Ha a ltac:(lia)).
    assert (granted key (within a (a + w)) (grants c)
            <= granted key (within a s) (grants c) + granted key (λ t, s <=? t) (grants c)); [|lia].
    apply granted_le. intros t _ Hb. unfold within in *. bools.
    destruct (Z.leb_spec s t); [by right|left]. apply andb_true_iff.
    split; [by apply Z.leb_le|by apply Z.ltb_lt].
Qed.

Lemma limiter_step_ok L w c c' :
  1 <= L → 0 < w → calls_ok L w c → limiter_step c c' → calls_ok L w c'.
Proof.
  intros HL Hw (Hlim & Hwin & Hk) Hstep.
  destruct Hstep as [c key now ok l' Hle Htry|c now Hle].
  - assert (Hother : ∀ key', key' ≠ key → hits l' !! key' = hits (lim c) !! key').
    { unfold tryConsume in Htry. intros key' Hne.
      repeat case_match; injection Htry as <- <-; simpl; rewrite ?lookup_insert_ne; done. }
    assert (Hcfg : limit l' = limit (lim c) ∧ windowMs l' = windowMs (lim c)).
    { unfold tryConsume in Htry. repeat case_match; by injection Htry as <- <-. }
    unfold calls_ok. simpl. destruct Hcfg as [-> ->]. split_and!; try done. intros key'.
    destruct (decide (key' = key)) as [->|Hne].
    + unfold tryConsume in Htry. destruct (hits (lim c) !! key) as [e|] eqn:He.
      * destruct (resetAt e <=? now) eqn:Hr; [|destruct (limit (lim c) <=? count e) eqn:Hc];
          injection Htry as <- <-; bools.
        -- apply key_ok_new; simpl; [done..| |by rewrite lookup_insert_eq, Hwin].
           intros e' He'. congruence.
        -- eapply key_ok_later; [by apply Hk|done..|by left].
        -- eapply key_ok_more; [by apply Hk|done..|lia|]. simpl. by rewrite lookup_insert_eq.
      * injection Htry as <- <-. apply key_ok_new; simpl; [done..| |by rewrite lookup_insert_eq, Hwin].
        intros e' He'. congruence.
    + eapply key_ok_later; [by apply Hk|done|..]; simpl; [| |left; by apply Hother].
      * intros p. destruct ok; [|done]. rewrite granted_cons.
        destruct (String.eqb_spec key key'); [congruence|done].
      * intros t. destruct ok; [|done]. intros [[= -> ->]|?]%elem_of_cons; done.
  - unfold calls_ok. simpl. split_and!; try done. intros key.
    eapply key_ok_later; [by apply Hk|done..|]. simpl.
    destruct (hits (lim c) !! key) as [e|] eqn:He.
    + destruct (decide (now < resetAt e)).
      * left. by apply map_lookup_filter_Some.
      * right. split; [|naive_solver lia]. apply map_lookup_filter_None. right. naive_solver.
    + left. apply map_lookup_filter_None. by left.
Qed.

Lemma new_limiter_ok (lv wv : jsval) l t0 :
  new_limiter lv wv = Ok l →
  ∃ L w, lv = JNum L ∧ wv = JNum w ∧ 1 <= L ∧ 0 < w
    ∧ calls_ok L w {| lim := l; grants := []; at_time := t0 |}.
Proof.
  unfold new_limiter, positive_integer. intros H.
  destruct lv as [| | |L| | | | |]; try done. destruct (Z.ltb_spec L 1); [done|].
  destruct wv as [| | |w| | | | |]; try done. destruct (Z.ltb_spec w 1); [done|].
  injection H as <-. exists L, w. do 4 (split; [done || lia|]). split; [done|]. split; [done|].
  intros key. exists (t0 - w), 0. simpl. rewrite lookup_empty.
  split_and!; try done; try lia. all: intros; unfold granted; simpl; lia || set_solver.
Qed.

(** A burst is bounded. However calls and sweeps interleave along a clock that does
    not run backwards, no key is granted more than twice the limit in any interval one
    window long, and a call is refused only when the key has had the whole limit within
    the last window: forgetting expired windows never costs or grants a request. *)
Theorem limiter_burst lv wv l t0 c :
  new_limiter lv wv = Ok l →
  star limiter_step {| lim := l; grants := []; at_time := t0 |} c →
  (∀ key a, granted key (within a (a + windowMs l)) (grants c) <= 2 * limit l)
  ∧ (∀ key now, at_time c <= now → fst (tryConsume key now (lim c)) = false →
       limit l <= granted key (λ t, now - windowMs l <? t) (grants c))
  ∧ (∀ key now, at_time c <= now →
       fst (tryConsume key now (sweep now (lim c))) = fst (tryConsume key now (lim c))).
Proof.
  intros Hnew Hstar.
  destruct (new_limiter_ok lv wv l t0 Hnew) as (L & w & -> & -> & HL & Hw & Hinit).
  assert (limit l = L ∧ windowMs l = w) as [-> ->] by (destruct Hinit as (? & ? & _); done).
  assert (Hc : calls_ok L w c).
  { revert Hinit Hstar. apply star_invariant. intros a b Ha Hab. by eapply limiter_step_ok. }
  destruct Hc as (Hlim & Hwin & Hk). split_and!.
  - intros key a. by destruct (Hk key) as (s & n & _ & _ & _ & _ & _ & _ & H2).
  - intros key now Hle. destruct (Hk key) as (s & n & He & Hs & Hn & Hc & Ht & _).
    unfold tryConsume. destruct (hits (lim c) !! key) as [e|]; [|done]. destruct He as [<- Hr].
    destruct (Z.leb_spec (resetAt e) now); [done|].
    destruct (Z.leb_spec (limit (lim c)) (count e)); [|done]. intros _.
    rewrite Hlim in *. transitivity (count e); [done|]. rewrite <- Hc.
    apply granted_sub. intros t _ Hst. bools. apply Z.ltb_lt. lia.
  - intros key now Hle. unfold tryConsume, sweep. simpl.
    destruct (hits (lim c) !! key) as [e|] eqn:He.
    + destruct (Z.leb_spec (resetAt e) now).
      * rewrite (proj2 (map_lookup_filter_None _ _ _)); [done|]. right. intros. simplify_eq. simpl. lia.
      * rewrite (proj2 (map_lookup_filter_Some _ _ _ e)) by (split; [done|simpl; lia]).
        destruct (Z.leb_spec (resetAt e) now); [lia|]. by destruct (_ <=? _).
    + by rewrite (proj2 (map_lookup_filter_None _ _ _)) by (by left).
Qed.

(** ** Funded keys *)
Fixpoint assert_separate (roles : list (string * option string)) (seen : gmap string string)
    : result unit :=
  match roles with
  | [] => Ok tt
  | (name, None) :: rest => assert_separate rest seen
  | (name, Some address) :: rest =>
      let key := toLowerCase address in
      match seen !! key with
      | Some earlier =>
          Throw (Error (earlier ++ " and " ++ name ++ " are the same account (" ++ address
                        ++ "); each funded role needs its own key"))
      | None => assert_separate rest (<[key := name]> seen)
      end
  end.
Definition assertFundedKeySeparation (roles : list (string * option string)) : result unit :=
  assert_separate roles ∅.

Definition role_keys (roles : list (string * option string)) : list string :=
  toLowerCase <$> omap snd roles.

Lemma assert_separate_ok roles : ∀ seen,
  assert_separate roles seen = Ok tt ↔
  NoDup (role_keys roles) ∧ ∀ k, k ∈ role_keys roles → seen !! k = None.
Proof.
  induction roles as [|[name [a|]] roles IH]; intros seen.
  - split; [|done]. intros _. split; [constructor|]. by intros k ?%elem_of_nil.
  - cbn [assert_separate]. change (role_keys _) with (toLowerCase a :: role_keys roles).
    rewrite NoDup_cons. destruct (seen !! toLowerCase a) as [e|] eqn:Hs.
    + split; [done|]. intros [_ Hk]. by rewrite (Hk (toLowerCase a)) in Hs by set_solver.
    + rewrite IH. split.
      * intros [Hnd Hk]. split_and!; [|done|].
        -- intros Hin%Hk. by rewrite lookup_insert_eq in Hin.
        -- intros k [->|Hin]%elem_of_cons; [done|]. apply Hk in Hin.
           by apply lookup_insert_None in Hin as [? _].
      * intros [[Hn Hnd] Hk]. split; [done|]. intros k Hin.
        rewrite lookup_insert_ne by (intros <-; done). apply Hk. set_solver.
  - apply IH.
Qed.

(** The service boots exactly when no two configured roles are one account, whatever
    the case their addresses are written in; unset roles do not count. *)
Theorem funded_keys_separate roles :
  assertFundedKeySeparation roles = Ok tt ↔ NoDup (role_keys roles).
Proof.
  unfold assertFundedKeySeparation. rewrite assert_separate_ok.
  split; [by intros [? _]|]. intros Hn. split; [done|]. intros. apply lookup_empty.
Qed.

(** ** The theorems at small inputs *)
#[local] Instance ex_series : BudgetStore budgets := series_store "sponsor".
#[local] Instance ex_series_laws : StoreLaws budgets := series_laws "sponsor".

Definition ex_now : Z := 1709164800000.
Definition ex_budget : SpendBudget budgets :=
  {| dailyLimitWei := 1000; spent := 0; reserved := 0; day := "2024-02-29"; store := Some ∅ |}.
Definition ex_hold : BudgetHold := {| hold_day := "2024-02-29"; hold_amount := 600 |}.
Definition ex_held : SpendBudget budgets := with_reserved 600 ex_budget.
(** The hold is settled the next day, for 50 more than it held. *)
Definition ex_settled : SpendBudget budgets :=
  {| dailyLimitWei := 1000; spent := 0; reserved := 0; day := "2024-03-01";
     store := Some {[("sponsor", "2024-02-29") := 650]} |}.

Lemma ex_clock : clock ex_now ∧ clock (ex_now + MS_PER_DAY).
Proof. split; vm_compute; split; discriminate. Qed.

Lemma daily_ceiling_witness :
  ∃ s, store ex_settled = Some s ∧ total_of "2024-02-29" s = 650 ∧ 650 <= 1000 + 50.
Proof.
  destruct (daily_ceiling (S := budgets) 1000 ex_now ∅ ex_budget
    {| bud := ex_settled; holds := []; overrun := {["2024-02-29" := 50]} |})
    as (s & Hs & Ht & _).
  - intros k v Hk. by rewrite lookup_empty in Hk.
  - apply ex_clock.
  - vm_compute. reflexivity.
  - eapply star_step; [eapply star_step; [apply star_refl|]|].
    + eapply (step_reserved _ 600 ex_now ex_hold ex_held); [done|apply ex_clock|].
      vm_compute. reflexivity.
    + refine (step_settled {| bud := ex_held; holds := [ex_hold]; overrun := ∅ |}
        [] ex_hold [] 650 (ex_now + MS_PER_DAY) ex_settled _ _ _ _);
        [apply ex_clock|done|done|]. vm_compute. reflexivity.
  - exists s. split; [exact Hs|]. injection Hs as <-.
    split; [vm_compute; reflexivity|]. exact (Ht "2024-02-29" eq_refl).
Defined.

Lemma reserve_agrees_with_remaining_witness :
  ∃ h b, reserve 600 ex_now ex_budget = (Ok (Some h), b) ∧ remaining ex_now b = (Ok 400, b).
Proof.
  destruct (reserve_agrees_with_remaining (S := budgets) ex_budget ∅ ex_now 600)
    as (left & b1 & Hrem & Hres).
  - split_and!; [done| |done|vm_compute; reflexivity].
    intros k v Hk. by rewrite lookup_empty in Hk.
  - apply ex_clock.
  - done.
  - done.
  - assert (Hl : remaining ex_now ex_budget = (Ok 1000, ex_budget)) by (vm_compute; reflexivity).
    rewrite Hl in Hrem. injection Hrem as <- <-.
    destruct Hres as (h & b2 & Hr & _ & _ & Hleft & _). exists h, b2. split; [exact Hr|exact Hleft].
Defined.

Definition ex_limiter : FixedWindowLimiter := {| limit := 1; windowMs := 10; hits := ∅ |}.
Definition ex_limiter' : FixedWindowLimiter := (tryConsume "k" 3 ex_limiter).2.

Lemma limiter_burst_witness :
  fst (tryConsume "k" 12 ex_limiter') = false ∧ granted "k" (within 3 13) [("k", 3)] <= 2.
Proof.
  pose proof (limiter_burst (JNum 1) (JNum 10) ex_limiter 0
    {| lim := ex_limiter'; grants := [("k", 3)]; at_time := 3 |} eq_refl) as H.
  split; [vm_compute; reflexivity|]. refine (proj1 (H _) "k" 3).
  refine (star_step _ _ _ _ (star_refl _ _) (limiter_consume
    {| lim := ex_limiter; grants := []; at_time := 0 |} "k" 3 true ex_limiter' _ _));
    [done|vm_compute; reflexivity].
Defined.
