(* ===== verification/Flights.v ===== *)
(** * Requests in flight over one daily budget

    What the sponsored services share: a table of the requests in flight, each holding at
    most one reservation of a budget, the reservations being exactly the budget's open holds.
    The lemmas follow a sum or a list over such a table through a step, and one reservation
    or one charge through the invariant [run_ok] of [Budget]. *)

From Stdlib Require Import ZArith Lia Ascii String.
From stdpp Require Import base gmap strings list fin_maps.
From S2P Require Import Prelude Validate Ledger Budget.
Open Scope Z_scope.

Lemma Zsum_perm l l' : l ≡ₚ l' → Zsum l = Zsum l'.
Proof. induction 1; rewrite ?Zsum_cons; lia. Qed.
Lemma held_on_perm d l l' : l ≡ₚ l' → held_on d l = held_on d l'.
Proof. induction 1; rewrite ?held_on_cons; lia. Qed.

(** ** A table of requests *)
Section table.
Context {F : Type}.
Implicit Types m : gmap string F.

(** The reservations of the requests in flight. *)
Section opens.
Variable hold_of : F → option BudgetHold.
Definition opens m : list BudgetHold := omap (λ kf, hold_of kf.2) (map_to_list m).
Lemma opens_new m k f : m !! k = None → opens (<[k := f]> m) ≡ₚ (option_list (hold_of f) ++ opens m)%list.
Proof.
  intros Hk. unfold opens. rewrite (map_to_list_insert m k f Hk). cbn [omap list_omap snd]. by destruct (hold_of f).
Qed.
Lemma opens_at m k f : m !! k = Some f → opens m ≡ₚ (option_list (hold_of f) ++ opens (delete k m))%list.
Proof.
  intros Hk. rewrite <- (insert_delete_id m k f Hk) at 1. apply opens_new. by rewrite lookup_delete_eq.
Qed.
Lemma opens_moved m k f' : opens (<[k := f']> m) ≡ₚ (option_list (hold_of f') ++ opens (delete k m))%list.
Proof. rewrite <- insert_delete_eq. apply opens_new. by rewrite lookup_delete_eq. Qed.
End opens.

(** What they weigh together. *)
Section weight.
Variable weigh : F → Z.
Definition weight m : Z := Zsum ((λ kf, weigh kf.2) <$> map_to_list m).
Lemma weight_new m k f : m !! k = None → weight (<[k := f]> m) = weigh f + weight m.
Proof.
  intros Hk. unfold weight.
  rewrite (Zsum_perm _ _ (fmap_Permutation (λ kf, weigh kf.2) _ _ (map_to_list_insert m k f Hk))).
  by rewrite fmap_cons, Zsum_cons.
Qed.
Lemma weight_at m k f : m !! k = Some f → weight m = weigh f + weight (delete k m).
Proof.
  intros Hk. rewrite <- (insert_delete_id m k f Hk) at 1. apply weight_new. by rewrite lookup_delete_eq.
Qed.
Lemma weight_moved m k f' : weight (<[k := f']> m) = weigh f' + weight (delete k m).
Proof. rewrite <- insert_delete_eq. apply weight_new. by rewrite lookup_delete_eq. Qed.
End weight.

(** A weight that each request's reservation covers is covered by the reservations. *)
Lemma weight_held hold_of weigh d m :
  (∀ k f, m !! k = Some f →
     weigh f <= match hold_of f with Some h => if String.eqb (hold_day h) d then hold_amount h else 0 | None => 0 end) →
  weight weigh m <= held_on d (opens hold_of m).
Proof.
  intros Hm. unfold weight, opens.
  assert (Hall : Forall (λ kf : string * F, weigh kf.2 <= match hold_of kf.2 with
      Some h => if String.eqb (hold_day h) d then hold_amount h else 0 | None => 0 end) (map_to_list m)).
  { apply Forall_forall. intros [k f] Hin%elem_of_map_to_list. by eapply Hm. }
  induction Hall as [|[k f] l Hf _ IH]; [done|]. cbn [fmap list_fmap omap list_omap snd] in *. rewrite Zsum_cons.
  change (list_fmap _ _ (λ kf : string * F, weigh kf.2) l) with ((λ kf : string * F, weigh kf.2) <$> l).
  destruct (hold_of f) as [h|]; [|lia]. rewrite held_on_cons. lia.
Qed.
End table.

(** ** One reservation, one charge *)

(** One occurrence of a hold, taken off the list of open ones. *)
#[export] Instance BudgetHold_eq_dec : EqDecision BudgetHold.
Proof. solve_decision. Defined.
Fixpoint take_off (h : BudgetHold) (l : list BudgetHold) : list BudgetHold :=
  match l with [] => [] | x :: l' => if decide (x = h) then l' else x :: take_off h l' end.
Lemma take_off_at h l1 l2 : ∃ m1 m2, (l1 ++ h :: l2)%list = (m1 ++ h :: m2)%list ∧ take_off h (l1 ++ h :: l2) = (m1 ++ m2)%list.
Proof.
  induction l1 as [|x l1 IH]; cbn [app take_off].
  - exists [], l2. by rewrite decide_True.
  - destruct (decide (x = h)) as [->|Hne]; [by exists [], (l1 ++ h :: l2)%list|].
    destruct IH as (m1 & m2 & H3 & H4). exists (x :: m1), m2. cbn. by rewrite H3, <- H3, H4.
Qed.

(** What callers charged above their holds, by day. *)
Definition overran (m : gmap string Z) (h : BudgetHold) (charged : Z) : gmap string Z :=
  <[hold_day h := at_day m (hold_day h) + Z.max 0 (charged - hold_amount h)]> m.

Section run.
Context {S : Type} `{StoreLaws S}.
Implicit Types r : Run S.

Definition reserved_in r (b : SpendBudget S) (h : option BudgetHold) : Run S :=
  {| bud := b; overrun := overrun r; holds := match h with Some h => h :: holds r | None => holds r end |}.
Definition settled_in r (b : SpendBudget S) (h : BudgetHold) (charged : Z) : Run S :=
  {| bud := b; holds := take_off h (holds r); overrun := overran (overrun r) h charged |}.

Definition run_live r : Prop := ∃ st, live (bud r) st.
Lemma run_ok_live lim s0 r : run_ok lim s0 r → run_live r.
Proof. intros (_ & _ & _ & _ & st & ? & _). by exists st. Qed.

Lemma reserve_live r amount t o b : run_live r → clock t → reserve amount t (bud r) = (o, b) →
  ∃ h, o = Ok h ∧ store b = store (bud r) ∧ ∀ x, h = Some x → hold_amount x = amount.
Proof.
  intros [st Hl] Hc Hres. destruct (reserve_run amount t _ _ Hl Hc) as (b1 & _ & Hl1 & _ & _ & Heq).
  rewrite Hres in Heq. destruct Hl1 as [E1 _], Hl as [E _].
  destruct (_ >? _); injection Heq as -> ->; eexists; (split; [done|]); cbn; (split; [congruence|]);
    [done|by intros x [= <-]].
Qed.
Lemma reserve_taken lim s0 r amount t o b :
  run_ok lim s0 r → 0 <= amount → clock t → reserve amount t (bud r) = (o, b) →
  ∃ h, o = Ok h ∧ run_ok lim s0 (reserved_in r b h) ∧ store b = store (bud r) ∧ ∀ x, h = Some x → hold_amount x = amount.
Proof.
  intros Hr Ha Hc Hres. destruct (reserve_live _ _ _ _ _ (run_ok_live _ _ _ Hr) Hc Hres) as (h & -> & Hst & Hx).
  exists h. split_and!; try done. by eapply reserve_run_ok.
Qed.

Lemma settle_taken lim s0 r h charged t o b st :
  run_ok lim s0 r → clock t → h ∈ holds r → 0 <= charged → store (bud r) = Some st →
  Budget.settle h (JBig charged) t (bud r) = (o, b) →
  o = Ok tt ∧ run_ok lim s0 (settled_in r b h charged) ∧ holds r ≡ₚ h :: take_off h (holds r)
  ∧ ∃ st', store b = Some st'
      ∧ ∀ d, DAY d = true → total_of d st' = total_of d st + (if String.eqb d (hold_day h) then charged else 0).
Proof.
  intros Hr Hc Hin Hch Hst Hset. apply list_elem_of_split in Hin as (l1 & l2 & Hl12).
  destruct (take_off_at h l1 l2) as (m1 & m2 & Hm12 & Htake). rewrite <- Hl12 in Hm12, Htake.
  assert (Hrun := settle_run_ok _ _ _ _ _ _ (JBig charged) t Hr Hc Hm12 Hch). rewrite Hset in Hrun. cbn [snd] in Hrun.
  destruct Hr as (_ & Hall & _ & _ & s1 & Hl & _). assert (s1 = st) as -> by (destruct Hl; congruence).
  assert (HDh : DAY (hold_day h) = true) by (rewrite Hm12 in Hall; by apply holds_remove in Hall as (_ & _ & ? & _)).
  destruct (settle_restores _ _ h (JBig charged) t Hl HDh Hc Hch) as (b' & s2 & Hb' & Hl2 & _ & _ & Htot & Hok).
  rewrite Hset in Hb', Hok. cbn [fst snd] in Hb', Hok. subst b'.
  split; [by apply Hok; eexists|]. unfold settled_in. rewrite Htake. split; [exact Hrun|].
  split; [rewrite Hm12; by rewrite Permutation_middle|]. exists s2. by destruct Hl2.
Qed.
End run.
