(* ===== verification/Bootstrap.v ===== *)
(** * Sponsored bootstrap: who may have an account deployed

    [packages/delegation/src/account-bootstrap.ts]: the canonical-signature test,
    the reading of a permission context, the browser origins of a sponsored
    service, and [validateAccountBootstrap], which accepts a request only when the
    signature in it recovers to the owner of the account it names. *)

From Stdlib Require Import ZArith Lia Ascii String.
From stdpp Require Import base strings list.
From S2P Require Import Prelude Toolkit.
Open Scope string_scope.
Open Scope Z_scope.

Definition MAX_PERMISSION_CONTEXT_HEX_LENGTH : Z := 131074.
Definition OWNER_ACCOUNT_SALT : string :=
  "0x0000000000000000000000000000000000000000000000000000000000000000".

Definition SECP256K1N_HALF : Z :=
  0x7fffffffffffffffffffffffffffffff5d576e7357a4501ddfe92f46681b20a0.

(** [/^0x([0-9a-fA-F]{2})*$/] *)
Definition WHOLE_BYTES (s : string) : bool :=
  match strip_0x s with
  | Some t => forallb is_hex (chars t) && Z.even (slen t)
  | None => false
  end.

Definition readPermissionContext (value : jsval) : result string :=
  match value with
  | JStr s =>
      throws negb (WHOLE_BYTES s) with Error "permissionContext must be 0x-prefixed hex of whole bytes";
      throws slen s <=? 2 with Error "permissionContext must not be empty";
      throws slen s >? MAX_PERMISSION_CONTEXT_HEX_LENGTH with Error "permissionContext is too large";
      Ok s
  | _ => Throw (Error "permissionContext must be 0x-prefixed hex of whole bytes")
  end.

(** ** Browser origins *)
Definition startsWith (p s : string) : bool := String.prefix p s.

(** [/^(127\.|localhost$|\[?::1\]?$)/] *)
Definition LOOPBACK (host : string) : bool :=
  startsWith "127." host
  || existsb (String.eqb host) ["localhost"; "::1"; "[::1"; "::1]"; "[::1]"].

(** What [new URL(entry)] gives: protocol, hostname, origin; [None] when it throws. *)
Definition parse_origin (URL : string → option (string * string * string)) (varName entry : string)
    : result string :=
  throws String.eqb entry "*" with
    Error (varName ++ " must not be '*' — this service fronts a funded key");
  match URL entry with
  | None => Throw (Error (varName ++ " entry is not a URL: " ++ entry))
  | Some (protocol, hostname, origin) =>
      throws negb (existsb (String.eqb protocol) ["http:"; "https:"]) with
        Error (varName ++ " entry must be HTTP(S): " ++ entry);
      throws String.eqb protocol "http:" && negb (LOOPBACK hostname) with
        Error (varName ++ " entry must be HTTPS unless loopback: " ++ entry);
      Ok origin
  end.

Definition parseBootstrapOrigins (URL : string → option (string * string * string))
    (value : option string) (fallback : list string) (varName : string) : result (list string) :=
  let raw := trim (default "" value) in
  if String.eqb raw "" then Ok fallback
  else
    let entries := List.filter (λ s, negb (String.eqb s ""))
                     ((λ w, trim (string_of_list_ascii w)) <$> split_comma (chars raw)) in
    match entries with
    | [] => Ok fallback
    | _ => map_result (parse_origin URL varName) entries
    end.

Definition SPONSORED_BROWSER_ORIGINS : list string :=
  ["https://mapae.io"; "https://app.mapae.io"; "http://127.0.0.1:5173";
   "http://localhost:5173"; "http://127.0.0.1:4173"; "http://localhost:4173"].

(** ** The request *)
Record SmartAccountsEnvironment := {
  DelegationManager : string; SimpleFactory : string; caveatEnforcers : list string;
}.
Record AccountBootstrapPolicy := { environment : SmartAccountsEnvironment; approval : string }.

Record ValidatedAccountBootstrap := {
  account : string; owner : string; va_salt : string; factoryTarget : string;
  factoryData : string; delegation : Delegation;
}.

Section bootstrap.
Context `{Toolkit}.

Definition isCanonicalSignature (sig : string) : bool :=
  if negb (size sig =? 65) then false
  else
    let s := hexToBigInt_slice sig 32 64 in
    if (s =? 0) || (s >? SECP256K1N_HALF) then false
    else
      let v := hexToBigInt_slice sig 64 65 in
      (v =? 27) || (v =? 28).

Definition ownerPayerAccount (owner : string) : string * string :=
  let derived := counterfactual (getAddress owner) in
  (getAddress derived.1, derived.2).

(** The caveat loop: the first enforcer outside the deployment is named. *)
Fixpoint check_caveats (known : list string) (l : list Caveat) : result unit :=
  match l with
  | [] => Ok tt
  | c :: l' =>
      throws negb (isAddress (enforcer c))
             || negb (existsb (String.eqb (getAddress (enforcer c))) known) with
        Error ("caveat enforcer " ++ enforcer c ++ " is not part of this deployment");
      check_caveats known l'
  end.

Definition only_delegation (chain : list Delegation) : result Delegation :=
  match chain with
  | [d] => Ok d
  | _ => Throw (Error "permissionContext must contain exactly one delegation (the root)")
  end.

(** A throw of a library call, replaced by the error the code raises instead. *)
Definition catch_as {A} (r : result A) (f : js_error → js_error) : result A :=
  match r with Ok a => Ok a | Throw e => Throw (f e) end.

Definition validateAccountBootstrap (input : jsval) (policy : AccountBootstrapPolicy)
    : result ValidatedAccountBootstrap :=
  throws negb (is_object input) with Error "request must be an object";
  let? permissionContext := readPermissionContext (prop input "permissionContext") in
  let? chain := catch_as (decodeDelegations permissionContext)
    (λ e, Error ("permissionContext is not a delegation chain: " ++ err_message e)) in
  let? d := only_delegation chain in
  throws negb (isAddress (delegate d)) || String.eqb (getAddress (delegate d)) zeroAddress with
    Error "delegation delegate must be a non-zero address";
  throws negb (isAddress (delegator d)) with Error "delegation delegator must be an address";
  throws negb (size (signature d) =? 65) with
    Error "root signature must be a 65-byte ECDSA signature; this account has no authorized P256 keys";
  throws negb (isCanonicalSignature (signature d)) with
    Error "root signature is not canonical (low-s, v in {27,28}); the account would reject it on chain";
  let? _ := check_caveats (getAddress <$> caveatEnforcers (environment policy)) (caveats d) in
  let? o := catch_as (recoverDelegator (DelegationManager (environment policy)) d)
    (λ _, Error "root signature does not recover to any address") in
  let derived := ownerPayerAccount o in
  throws negb (String.eqb derived.1 (getAddress (delegator d))) with
    Error "the root signer does not own the account named as delegator; refusing to sponsor";
  Ok {| account := derived.1; owner := getAddress o; va_salt := OWNER_ACCOUNT_SALT;
        factoryTarget := getAddress (SimpleFactory (environment policy));
        factoryData := derived.2; delegation := d |}.

(** ** What an accepted request proves *)

Lemma catch_as_ok {A} (r : result A) f a : catch_as r f = Ok a ↔ r = Ok a.
Proof. destruct r; simpl; naive_solver. Qed.

Lemma only_delegation_ok l d : only_delegation l = Ok d ↔ l = [d].
Proof. destruct l as [|x [|y l]]; simpl; naive_solver. Qed.

Lemma check_caveats_ok known l :
  check_caveats known l = Ok tt ↔
  Forall (λ c, isAddress (enforcer c) = true ∧ getAddress (enforcer c) ∈ known) l.
Proof.
  induction l as [|c l IH]; cbn [check_caveats]; [by split|].
  rewrite rbind_ok, Forall_cons, <- IH. split.
  - intros ([] & Hc & Hl). apply throw_when_ok in Hc. bools. split_and!; try done.
    match goal with H : existsb _ _ = true |- _ =>
      apply existsb_exists in H as (x & Hx & ->%String.eqb_eq) end.
    by apply list_elem_of_In.
  - intros [[Ha Hk] Hl]. exists tt. split; [|done]. rewrite Ha. simpl.
    apply throw_when_ok, negb_false_iff, existsb_exists. exists (getAddress (enforcer c)).
    rewrite String.eqb_refl. by split; [apply list_elem_of_In|].
Qed.

(** The request proves its account: what [validateAccountBootstrap] requires. *)
Definition proves (policy : AccountBootstrapPolicy) (ctx : string) (d : Delegation) (o : string) : Prop :=
  WHOLE_BYTES ctx = true ∧ 2 < slen ctx <= MAX_PERMISSION_CONTEXT_HEX_LENGTH
  ∧ decodeDelegations ctx = Ok [d]
  ∧ isAddress (delegate d) = true ∧ getAddress (delegate d) ≠ zeroAddress
  ∧ isAddress (delegator d) = true
  ∧ isCanonicalSignature (signature d) = true
  ∧ Forall (λ c, isAddress (enforcer c) = true
      ∧ getAddress (enforcer c) ∈ (getAddress <$> caveatEnforcers (environment policy))) (caveats d)
  ∧ recoverDelegator (DelegationManager (environment policy)) d = Ok o
  ∧ (ownerPayerAccount o).1 = getAddress (delegator d).

Lemma readPermissionContext_ok v s :
  readPermissionContext v = Ok s ↔
  v = JStr s ∧ WHOLE_BYTES s = true ∧ 2 < slen s <= MAX_PERMISSION_CONTEXT_HEX_LENGTH.
Proof.
  split.
  - destruct v; simpl; try done. intros H0. inv_tx. bools. done.
  - intros (-> & Hw & Hl). simpl. rewrite Hw. simpl.
    rewrite (proj2 (Z.leb_gt _ _)), Z.gtb_ltb, (proj2 (Z.ltb_ge _ _)) by lia. done.
Qed.

Lemma canonical_size sig : isCanonicalSignature sig = true → size sig = 65.
Proof. unfold isCanonicalSignature. destruct (Z.eqb_spec (size sig) 65); done. Qed.

(** The sponsor deploys only for the account's owner. A request is accepted exactly
    when its context is one well-formed root delegation, canonically signed, whose
    caveats all belong to the deployment and whose signature recovers to an owner whose
    counterfactual account is the delegator the signed message names; every field of
    the answer is then derived from that owner and the pinned deployment, none taken
    from the request. *)
Theorem bootstrap_only_for_owner input policy v :
  validateAccountBootstrap input policy = Ok v ↔
  ∃ ctx o, is_object input = true ∧ prop input "permissionContext" = JStr ctx
    ∧ proves policy ctx (delegation v) o
    ∧ v = {| account := getAddress (delegator (delegation v)); owner := getAddress o;
             va_salt := OWNER_ACCOUNT_SALT;
             factoryTarget := getAddress (SimpleFactory (environment policy));
             factoryData := (counterfactual (getAddress o)).2; delegation := delegation v |}.
Proof.
  split.
  - intros Hv. unfold validateAccountBootstrap in Hv. inv_tx. bools.
    repeat match goal with
    | H : catch_as _ _ = Ok _ |- _ => apply catch_as_ok in H
    | H : readPermissionContext _ = Ok _ |- _ =>
        apply readPermissionContext_ok in H; destruct H as (? & ? & ?)
    | H : only_delegation _ = Ok _ |- _ => apply only_delegation_ok in H; subst
    | H : check_caveats _ _ = Ok _ |- _ => apply check_caveats_ok in H
    end. simpl.
    match goal with
    | Hc : prop input _ = JStr ?c, Hr : recoverDelegator _ ?d = Ok ?o,
      Ho : (ownerPayerAccount ?o).1 = _ |- _ =>
        exists c, o; rename Ho into Hown
    end.
    split; [done|]. split; [done|]. split; [unfold proves; split_and!; first [done|lia]|].
    unfold ownerPayerAccount in Hown. simpl in Hown. by rewrite Hown.
  - intros (ctx & o & Hobj & Hctx & Hp & Hv). revert Hp Hv. generalize (delegation v).
    intros d (Hw & Hl & Hdec & Hd & Hz & Ha & Hc & Hcav & Hrec & Hown) ->.
    unfold validateAccountBootstrap. rewrite Hobj, Hctx. cbn [negb throw_when rbind].
    rewrite (proj2 (readPermissionContext_ok _ ctx)) by done. cbn [rbind].
    rewrite Hdec. cbn [catch_as rbind only_delegation]. rewrite Hd, Ha, Hc, (canonical_size _ Hc).
    rewrite (proj2 (String.eqb_neq _ _) Hz). cbn [negb orb throw_when rbind Z.eqb Pos.eqb].
    rewrite (proj2 (check_caveats_ok _ _) Hcav), Hrec. cbn [rbind catch_as].
    rewrite Hown, String.eqb_refl. done.
Qed.
End bootstrap.

(** ** Small inputs *)
Definition ex_owner : string := "0x00000000000000000000000000000000000000aa".
Definition ex_payer : string := "0x00000000000000000000000000000000000000bb".
Definition ex_signature (s v : string) : string :=
  "0x00000000000000000000000000000000000000000000000000000000000000010000000000000000000000000000000000000000000000000000000000000"
  ++ s ++ v.
(** A chain of one root, signed by [ex_owner], whose account is [ex_payer]. *)
Definition ex_toolkit (sig : string) : Toolkit := {|
  isAddress := @isAddress test_toolkit; getAddress := @getAddress test_toolkit;
  isHex := @isHex test_toolkit; size := @size test_toolkit;
  hexToBigInt_slice := @hexToBigInt_slice test_toolkit;
  keccak256 := @keccak256 test_toolkit; toBytes := @toBytes test_toolkit;
  encodeIntent := @encodeIntent test_toolkit;
  decodeDelegations _ := Ok [test_root ex_payer sig];
  recoverDelegator _ _ := Ok ex_owner;
  counterfactual o := (if String.eqb o ex_owner then ex_payer else o, "0xfac");
|}.
Definition ex_policy : AccountBootstrapPolicy :=
  {| environment := {| DelegationManager := "0x01"; SimpleFactory := ex_payer;
                       caveatEnforcers := [] |}; approval := "" |}.
Definition ex_request : jsval := JObj [("permissionContext", JStr "0x01")].

Example ex_sponsored :
  is_ok (@validateAccountBootstrap (ex_toolkit (ex_signature "005" "1b")) ex_request ex_policy) = true.
Proof. vm_compute. reflexivity. Qed.

Example ex_zero_s :
  is_ok (@validateAccountBootstrap (ex_toolkit (ex_signature "000" "1b")) ex_request ex_policy) = false.
Proof. vm_compute. reflexivity. Qed.

(** A host whose name merely starts with [127.] passes for loopback over plain HTTP. *)
Lemma loopback_prefix :
  parse_origin (λ _, Some ("http:", "127.example.com", "http://127.example.com"))
    "BOOTSTRAP_ALLOWED_ORIGINS" "http://127.example.com"
  = Ok "http://127.example.com".
Proof. vm_compute. reflexivity. Qed.
