(* ===== verification/Evidence.v ===== *)
(** * Evidence that a settlement happened

    [packages/delegation/src/settlement-evidence.ts]: a settlement is judged from
    two snapshots of the chain, or from the logs of its own receipt, never from
    its status. *)

From Stdlib Require Import ZArith Lia Ascii String.
From stdpp Require Import base strings list sets.
From S2P Require Import Prelude Toolkit.
Open Scope string_scope.
Open Scope Z_scope.

Record SettlementSnapshot := {
  payerToken : Z; payerNative : Z; vendorToken : Z; relayerNonce : Z;
}.

Inductive SettlementDiscrepancyCode :=
  | PAYER_DEBIT | VENDOR_CREDIT | PAYER_PAID_GAS | RELAYER_NONCE.
#[export] Instance SettlementDiscrepancyCode_eq_dec : EqDecision SettlementDiscrepancyCode.
Proof. solve_decision. Defined.

Record SettlementDiscrepancy := { code : SettlementDiscrepancyCode; detail : string }.

Definition problem_when (c : bool) (k : SettlementDiscrepancyCode) (text : string)
    : list SettlementDiscrepancy :=
  if c then [{| code := k; detail := text |}] else [].

(** [params.payer && params.vendor]: both given, neither the empty text. *)
Definition same_party (payer vendor : option string) : bool :=
  match payer, vendor with
  | Some p, Some v => negb (String.eqb p "") && negb (String.eqb v "")
                      && String.eqb (toLowerCase p) (toLowerCase v)
  | _, _ => false
  end.

Definition reconcileSettlement (before after : SettlementSnapshot) (amount : Z)
    (payer vendor : option string) : result (list SettlementDiscrepancy) :=
  throws amount <=? 0 with Error "reconcileSettlement needs a positive amount";
  throws same_party payer vendor with
    Error "payer and vendor are the same address — this settlement cannot be reconciled";
  let payerDelta := payerToken after - payerToken before in
  let vendorDelta := vendorToken after - vendorToken before in
  let moved := payerNative after - payerNative before in
  let nonceDelta := relayerNonce after - relayerNonce before in
  Ok (problem_when (negb (payerDelta =? - amount)) PAYER_DEBIT
        ("payer token balance moved " ++ show_Z payerDelta ++ ", expected " ++ show_Z (- amount))
      ++ problem_when (negb (vendorDelta =? amount)) VENDOR_CREDIT
        ("vendor token balance moved " ++ show_Z vendorDelta ++ ", expected " ++ show_Z amount)
      ++ problem_when (negb (payerNative after =? payerNative before)) PAYER_PAID_GAS
        ("payer native balance moved " ++ show_Z moved
         ++ ", expected 0 — the payer must never fund gas")
      ++ problem_when (negb (nonceDelta =? 1)) RELAYER_NONCE
        ("relayer nonce moved " ++ show_Z nonceDelta ++ ", expected 1"
         ++ if nonceDelta >? 1 then " — another transaction shared this window" else ""))%list.

(** ** The receipt *)
Record ReceiptLog := { address : string; topics : list string; data : string }.

Section receipt.
Context `{Toolkit}.

Definition TRANSFER_EVENT_TOPIC : string := keccak256 (toBytes "Transfer(address,address,uint256)").

Definition padTopicAddress (a : string) : string :=
  "0x000000000000000000000000" ++ toLowerCase (string_of_list_ascii (drop 2 (chars a))).

Definition is_transfer (asset payer payTo : string) (log : ReceiptLog) : bool :=
  String.eqb (toLowerCase (address log)) (toLowerCase asset)
  && match topics log with
     | [t0; t1; t2] =>
         String.eqb (toLowerCase t0) TRANSFER_EVENT_TOPIC
         && String.eqb (toLowerCase t1) (padTopicAddress payer)
         && String.eqb (toLowerCase t2) (padTopicAddress payTo)
     | _ => false
     end
  && re_0x is_hex 64 (data log).

Definition reconcileSettlementReceipt (logs : list ReceiptLog) (asset payer payTo : string) (amount : Z)
    : list SettlementDiscrepancy :=
  match List.filter (is_transfer asset payer payTo) logs with
  | [log] =>
      let moved := BigInt (data log) in
      problem_when (negb (moved =? amount)) VENDOR_CREDIT
        ("receipt Transfer moved " ++ show_Z moved ++ ", the 402 charged " ++ show_Z amount)
  | l =>
      [{| code := VENDOR_CREDIT;
          detail := "receipt carries " ++ show_Z (Z.of_nat (length l))
            ++ " Transfer(payer → payTo) events on the asset, expected exactly 1"
            ++ match l with
               | [] => " — a token returning false instead of reverting leaves exactly this trace"
               | _ => "" end |}]
  end.
End receipt.

(** ** What the judgements mean *)
Lemma problem_when_nil c k t : problem_when c k t = [] ↔ c = false.
Proof. destruct c; simpl; naive_solver. Qed.

Lemma problem_when_code c k t k' : k' ∈ code <$> problem_when c k t ↔ c = true ∧ k' = k.
Proof. destruct c; simpl; set_solver. Qed.

(** The exact movement a settlement claims. *)
Definition moved_exactly (before after : SettlementSnapshot) (amount : Z) : Prop :=
  payerToken after = payerToken before - amount
  ∧ vendorToken after = vendorToken before + amount
  ∧ payerNative after = payerNative before
  ∧ relayerNonce after = relayerNonce before + 1.

(** Two snapshots prove a settlement only when exactly the charged amount left the
    payer and reached the vendor, the payer's native balance did not move in either
    direction, and the relayer sent exactly one transaction; each failed check is
    reported under its own code, and an amount or a pair of parties that could not be
    told apart is refused rather than judged. *)
Theorem snapshots_prove_settlement before after amount payer vendor :
  (reconcileSettlement before after amount payer vendor = Ok [] ↔
     0 < amount ∧ same_party payer vendor = false ∧ moved_exactly before after amount)
  ∧ (is_ok (reconcileSettlement before after amount payer vendor) = true ↔
     0 < amount ∧ same_party payer vendor = false)
  ∧ ∀ ps, reconcileSettlement before after amount payer vendor = Ok ps →
      (PAYER_DEBIT ∈ code <$> ps ↔ payerToken after ≠ payerToken before - amount)
      ∧ (VENDOR_CREDIT ∈ code <$> ps ↔ vendorToken after ≠ vendorToken before + amount)
      ∧ (PAYER_PAID_GAS ∈ code <$> ps ↔ payerNative after ≠ payerNative before)
      ∧ (RELAYER_NONCE ∈ code <$> ps ↔ relayerNonce after ≠ relayerNonce before + 1).
Proof.
  unfold reconcileSettlement, moved_exactly. split_and!.
  - split.
    + intros H. inv_tx.
      match goal with H : app _ _ = [] |- _ => rename H into Hps end.
      repeat apply app_nil in Hps as [?%problem_when_nil Hps].
      apply problem_when_nil in Hps. bools. split_and!; try done; lia.
    + intros (Ha & Hs & H1 & H2 & H3 & H4). rewrite (proj2 (Z.leb_gt _ _) Ha), Hs. simpl.
      rewrite H1, H2, H3, H4. rewrite !(proj2 (Z.eqb_eq _ _)) by lia. done.
  - destruct (Z.leb_spec amount 0); simpl; [split; [done|lia]|].
    destruct (same_party payer vendor); simpl; naive_solver.
  - intros ps H. inv_tx. rewrite !fmap_app. repeat setoid_rewrite elem_of_app.
    repeat setoid_rewrite problem_when_code. rewrite !negb_true_iff, !Z.eqb_neq.
    split_and!; split; intros Hc; naive_solver lia.
Qed.

Lemma lfilter_nil {A} (p : A → bool) l : List.filter p l = [] ↔ ∀ x, x ∈ l → p x = false.
Proof.
  induction l as [|x l IH]; simpl; [split; [set_solver|done]|].
  destruct (p x) eqn:Hx; [split; [done|intros Hl; rewrite Hl in Hx by set_solver; done]|].
  rewrite IH. set_solver.
Qed.

Lemma lfilter_one {A} (p : A → bool) l a :
  List.filter p l = [a] ↔
  ∃ l1 l2, l = (l1 ++ a :: l2)%list ∧ p a = true ∧ ∀ x, x ∈ (l1 ++ l2)%list → p x = false.
Proof.
  induction l as [|x l IH]; simpl.
  - split; [done|]. by intros ([|] & ? & ? & _).
  - destruct (p x) eqn:Hx; split.
    + intros [= -> Hl]. exists [], l. split_and!; [done..|]. by apply lfilter_nil.
    + intros ([|y l1] & l2 & [= -> ->] & Hp & Ho); simpl in *; [by rewrite (proj2 (lfilter_nil _ _) Ho)|].
      rewrite Ho in Hx by set_solver. done.
    + intros (l1 & l2 & -> & Hp & Ho)%IH. exists (x :: l1), l2. set_solver.
    + intros ([|y l1] & l2 & [= -> ->] & Hp & Ho); simpl in *; [congruence|].
      apply IH. exists l1, l2. set_solver.
Qed.

(** A receipt proves the payment exactly when, among its logs, one and only one is
    the asset's Transfer from the payer to the payee with a whole word of data, and
    that word is the charged amount; every other receipt is one VENDOR_CREDIT. *)
Theorem receipt_proves_credit `{Toolkit} logs asset payer payTo amount :
  (reconcileSettlementReceipt logs asset payer payTo amount = [] ↔
     ∃ l1 log l2, logs = (l1 ++ log :: l2)%list
       ∧ is_transfer asset payer payTo log = true ∧ BigInt (data log) = amount
       ∧ ∀ log', log' ∈ (l1 ++ l2)%list → is_transfer asset payer payTo log' = false)
  ∧ (reconcileSettlementReceipt logs asset payer payTo amount ≠ [] →
     code <$> reconcileSettlementReceipt logs asset payer payTo amount = [VENDOR_CREDIT]).
Proof.
  unfold reconcileSettlementReceipt. set (p := is_transfer asset payer payTo).
  destruct (List.filter p logs) as [|log [|log' rest]] eqn:Hf; split; try done.
  - split; [done|]. intros (l1 & log & l2 & Hl & Hp & _ & Ho).
    assert (List.filter p logs = [log]) by (apply lfilter_one; eauto). congruence.
  - rewrite problem_when_nil, negb_false_iff, Z.eqb_eq. apply lfilter_one in Hf as (l1 & l2 & Hl & Hp & Ho).
    split; [naive_solver|]. intros (m1 & log' & m2 & Hl' & Hp' & Ha & Ho').
    assert (List.filter p logs = [log']) by (apply lfilter_one; eauto).
    assert (List.filter p logs = [log]) by (apply lfilter_one; eauto). congruence.
  - by destruct (BigInt (data log) =? amount).
  - split; [done|]. intros (l1 & log0 & l2 & Hl & Hp & _ & Ho).
    assert (List.filter p logs = [log0]) by (apply lfilter_one; eauto). congruence.
Qed.
