(* ===== verification/Contract.v ===== *)
(** * The seller-facilitator contract

    [packages/delegation/src/facilitator-contract.ts]: the words of the wire, the
    two ladders that read a facilitator's answer, and the payment intent key both
    ends derive.  A body is the JSON value the seller parsed. *)

From Stdlib Require Import ZArith Lia Ascii String.
From stdpp Require Import base strings list sets.
From S2P Require Import Prelude Toolkit.
Open Scope string_scope.
Open Scope Z_scope.

Definition SETTLEMENT_PENDING : string := "settlement_pending".
Definition CLIENT_IP_HEADER : string := "x-mapae-client-ip".
Definition RATE_LIMITED : string := "rate_limited".
Definition FACILITATOR_NOT_READY : string := "facilitator_not_ready".
Definition INVALID_PAYLOAD : string := "invalid_payload".
Definition DELEGATION_REJECTED : string := "delegation_rejected".
Definition VENDOR_NOT_CREDITED : string := "vendor_not_credited".
Definition SETTLEMENT_REVERTED : string := "settlement_reverted".
Definition UNEXPECTED_VERIFY_ERROR : string := "unexpected_verify_error".
Definition UNEXPECTED_SETTLE_ERROR : string := "unexpected_settle_error".

Definition KNOWN_REFUSAL_REASONS : list string :=
  ["insufficient_funds"; "invalid_scheme"; "unsupported_scheme"; "invalid_network";
   INVALID_PAYLOAD; "invalid_payment_requirements"; "invalid_x402_version";
   "invalid_transaction_state"; DELEGATION_REJECTED; "payer_budget_exhausted";
   "budget_exhausted"; SETTLEMENT_REVERTED; VENDOR_NOT_CREDITED].
Definition MINED_REFUSAL_REASONS : list string := [SETTLEMENT_REVERTED; VENDOR_NOT_CREDITED].

Definition has (words : list string) (w : string) : bool := existsb (String.eqb w) words.

Definition foldRefusalReason (value : jsval) : string :=
  match value with
  | JStr s => if has KNOWN_REFUSAL_REASONS s then s else DELEGATION_REJECTED
  | _ => DELEGATION_REJECTED
  end.

Definition TRANSACTION_HASH : string → bool := re_0x is_hex 64.
Definition readTransaction (value : jsval) : option string :=
  match value with
  | JStr s => if TRANSACTION_HASH s then Some s else None
  | _ => None
  end.

Inductive SettlementOutcome :=
  | unavailable (errorReason : string)
  | unknown (transaction : option string)
  | failed (errorReason : string) (transaction : option string)
  | settled (transaction : option string) (replayed : bool).

Inductive VerificationOutcome :=
  | v_unavailable (errorReason : string)
  | v_rejected (errorReason : string)
  | v_accepted (payer : string).

(** [{reachable, body}] *)
Record Response := { reachable : bool; body : jsval }.

Section contract.
Context `{Toolkit}.

(** [typeof p === "string" && isAddress(p) && getAddress(p) === expectedPayer] *)
Definition names_payer (p : jsval) (expectedPayer : string) : bool :=
  match p with
  | JStr s => isAddress s && String.eqb (getAddress s) expectedPayer
  | _ => false
  end.

Definition isVerificationAccepted (b : jsval) (expectedPayer : string) : bool :=
  if negb (is_object b) then false
  else if negb (is_true (prop b "isValid")) then false
  else names_payer (prop b "payer") expectedPayer.

Definition decideVerification (r : Response) (expectedPayer : string) : VerificationOutcome :=
  if negb (reachable r) || negb (is_object (body r)) then v_unavailable FACILITATOR_NOT_READY
  else
    let invalidReason := prop (body r) "invalidReason" in
    if is_str invalidReason RATE_LIMITED then v_unavailable RATE_LIMITED
    else if is_str invalidReason FACILITATOR_NOT_READY
            || is_str invalidReason UNEXPECTED_VERIFY_ERROR
    then v_unavailable FACILITATOR_NOT_READY
    else if negb (isVerificationAccepted (body r) expectedPayer)
    then v_rejected (foldRefusalReason invalidReason)
    else v_accepted expectedPayer.

Definition decideSettlement (r : Response) (expectedPayer : string) : SettlementOutcome :=
  if negb (reachable r) || negb (is_object (body r)) then unknown None
  else
    let b := body r in
    let reason := prop b "errorReason" in
    let transaction := readTransaction (prop b "transaction") in
    if is_str reason RATE_LIMITED then unavailable RATE_LIMITED
    else if is_str reason FACILITATOR_NOT_READY then unavailable FACILITATOR_NOT_READY
    else if is_str reason SETTLEMENT_PENDING || is_str reason UNEXPECTED_SETTLE_ERROR
    then unknown transaction
    else if negb (is_true (prop b "success")) then
      let errorReason := foldRefusalReason reason in
      match transaction with
      | Some t => if has MINED_REFUSAL_REASONS errorReason then failed errorReason (Some t)
                  else unknown (Some t)
      | None => failed errorReason None
      end
    else if negb (names_payer (prop b "payer") expectedPayer) then unknown transaction
    else settled transaction (is_true (prop b "replayed")).

Record PaymentIntent := {
  network : string; asset : string; amount : Z; payTo : string;
  delegationManager : string; permissionContext : string;
}.

Definition PAYMENT_INTENT_DOMAIN : string := keccak256 (toBytes "mapae.erc7710.payment-intent.v1").

Definition derivePaymentIntentId (i : PaymentIntent) : result string :=
  let? words := encodeIntent PAYMENT_INTENT_DOMAIN (network i) (asset i) (amount i) (payTo i)
                  (delegationManager i) (keccak256 (permissionContext i)) in
  Ok (keccak256 words).
End contract.

(** ** What a reading claims *)

Lemma fold_known v : foldRefusalReason v ∈ KNOWN_REFUSAL_REASONS.
Proof.
  assert (Hd : DELEGATION_REJECTED ∈ KNOWN_REFUSAL_REASONS).
  { apply list_elem_of_In. simpl. tauto. }
  destruct v; try done. cbn [foldRefusalReason]. destruct (has KNOWN_REFUSAL_REASONS s) eqn:Hs; [|done].
  apply existsb_exists in Hs as (w & Hw & ->%String.eqb_eq). by apply list_elem_of_In.
Qed.

Lemma readTransaction_hash v t : readTransaction v = Some t → v = JStr t ∧ TRANSACTION_HASH t = true.
Proof. destruct v; simpl; try done. destruct (TRANSACTION_HASH s) eqn:Hs; naive_solver. Qed.

(** The words that end the ladder before the body's verdict is read. *)
Definition no_verdict : list string :=
  [RATE_LIMITED; FACILITATOR_NOT_READY; SETTLEMENT_PENDING; UNEXPECTED_SETTLE_ERROR].

Lemma is_str_true v w : is_str v w = true ↔ v = JStr w.
Proof.
  destruct v; simpl; split; intros H; try done.
  - by apply String.eqb_eq in H as ->.
  - injection H as ->. apply String.eqb_refl.
Qed.

Lemma is_true_true v : is_true v = true ↔ v = JBool true.
Proof. destruct v as [| |[] | | | | | |]; simpl; naive_solver. Qed.

Lemma is_str_false v w : is_str v w = false ↔ v ≠ JStr w.
Proof.
  destruct v; simpl; split; try done. all: try (intros; congruence).
  - intros Hs [= ->]. by rewrite String.eqb_refl in Hs.
  - intros Hs. apply String.eqb_neq. congruence.
Qed.

Lemma mined_word w : has MINED_REFUSAL_REASONS w = true → w ∈ MINED_REFUSAL_REASONS.
Proof.
  intros (x & Hx & ->%String.eqb_eq)%existsb_exists. by apply list_elem_of_In.
Qed.

(** A mined word survives the fold only when the facilitator wrote it. *)
Lemma fold_mined v :
  has MINED_REFUSAL_REASONS (foldRefusalReason v) = true → v = JStr (foldRefusalReason v).
Proof.
  destruct v as [| | | | | |s| |]; try (intros H; vm_compute in H; discriminate H).
  cbn [foldRefusalReason]. destruct (has KNOWN_REFUSAL_REASONS s); [done|].
  intros H. vm_compute in H. discriminate H.
Qed.

(** Whatever body a facilitator answers with, the seller's reading of it is safe.
    "Nobody was charged, pay again" ([failed]) is said only of a body the seller could
    read, that does not claim success and names no sentinel, with a word of the closed
    vocabulary, and never beside a transaction hash unless the word is one of the two
    that a mined transaction earns. "Settled" is said only of a body that claims success
    for the payer the seller derived, and "unavailable" only under the two words that
    mean the request was never examined. An answer that cannot be read is [unknown]. *)
Theorem settlement_reading_safe `{Toolkit} r payer :
  match decideSettlement r payer with
  | failed w t =>
      reachable r = true ∧ is_object (body r) = true
      ∧ prop (body r) "success" ≠ JBool true
      ∧ (∀ s, s ∈ no_verdict → prop (body r) "errorReason" ≠ JStr s)
      ∧ w ∈ KNOWN_REFUSAL_REASONS
      ∧ t = readTransaction (prop (body r) "transaction")
      ∧ (is_Some t → w ∈ MINED_REFUSAL_REASONS ∧ prop (body r) "errorReason" = JStr w)
  | settled t replayed =>
      reachable r = true ∧ prop (body r) "success" = JBool true
      ∧ names_payer (prop (body r) "payer") payer = true
      ∧ t = readTransaction (prop (body r) "transaction")
      ∧ (replayed = true ↔ prop (body r) "replayed" = JBool true)
  | unavailable w =>
      w ∈ [RATE_LIMITED; FACILITATOR_NOT_READY] ∧ prop (body r) "errorReason" = JStr w
  | unknown t =>
      (reachable r && is_object (body r) = false ∧ t = None)
      ∨ t = readTransaction (prop (body r) "transaction")
  end.
Proof.
  unfold decideSettlement.
  destruct (reachable r) eqn:Hr, (is_object (body r)) eqn:Ho; cbn [negb orb andb]; try by left.
  destruct (is_str _ RATE_LIMITED) eqn:H1; [apply is_str_true in H1; split; [left|done]|].
  destruct (is_str _ FACILITATOR_NOT_READY) eqn:H2;
    [apply is_str_true in H2; split; [right; left|done]|].
  destruct (is_str _ SETTLEMENT_PENDING) eqn:H3; [by right|].
  destruct (is_str _ UNEXPECTED_SETTLE_ERROR) eqn:H4; [by right|]. cbn [orb].
  apply is_str_false in H1, H2, H3, H4.
  assert (Hno : ∀ s, s ∈ no_verdict → prop (body r) "errorReason" ≠ JStr s).
  { unfold no_verdict. set_solver. }
  destruct (is_true (prop (body r) "success")) eqn:Hs; cbn [negb].
  - apply is_true_true in Hs. destruct (names_payer _ _) eqn:Hp; cbn [negb]; [|by right].
    split_and!; try done. apply is_true_true.
  - assert (prop (body r) "success" ≠ JBool true).
    { intros Ht. by rewrite Ht in Hs. }
    destruct (readTransaction _) as [t|] eqn:Ht.
    + destruct (has MINED_REFUSAL_REASONS (foldRefusalReason (prop (body r) "errorReason"))) eqn:Hm; [|by right].
      split_and!; try done; [apply fold_known|]. intros _.
      split; [by apply mined_word|]. by apply fold_mined.
    + split_and!; try done. apply fold_known.
Qed.
