(* ===== verification/X402.v ===== *)
(** * The facilitator's trust boundary

    [packages/delegation/src/x402.ts]: the exact comparison of the echoed offer
    with the seller's, and [validateDelegatedPayment], which reads a request the
    caller controls.  A refusal is a [PaymentValidationError]: its reason is the
    name of the error here, its log-only message the message. *)

From Stdlib Require Import ZArith Lia Ascii String.
From stdpp Require Import base strings list sets.
From S2P Require Import Prelude Toolkit Bootstrap Contract.
Open Scope string_scope.
Open Scope Z_scope.

Definition X402_VERSION : Z := 2.
Definition GIWA_SEPOLIA_CAIP2 : string := "eip155:91342".
Definition MOCK_USDC_address : string := "0xcfeb694719A09caeb80798e2011298F29CDa4e92".

Definition PaymentValidationReason : list string :=
  ["invalid_x402_version"; "invalid_payload"; "invalid_payment_requirements";
   "unsupported_scheme"; "invalid_network"; "invalid_transaction_state"].
Definition PaymentValidationError (reason message : string) : js_error := JsError reason message.

(** [===] of two parsed values: distinct objects are never equal. *)
Definition strict_eq (a b : jsval) : bool :=
  match a, b with
  | JUndefined, JUndefined | JNull, JNull => true
  | JBool x, JBool y => Bool.eqb x y
  | JNum x, JNum y | JBig x, JBig y => x =? y
  | JStr x, JStr y => String.eqb x y
  | _, _ => false
  end.
Definition text_of (v : jsval) : string := match v with JStr s => s | _ => "" end.
(** [v ?? []] *)
Definition or_empty (v : jsval) : jsval :=
  match v with JUndefined | JNull => JArr [] | _ => v end.

(** Zero, or a nonzero digit and digits. *)
Definition UINT_STRING (s : string) : bool :=
  String.eqb s "0"
  || match chars s with
     | c :: _ => is_digit c && negb (Ascii.eqb c "0") && forallb is_digit (chars s)
     | [] => false
     end.

Record Options := { o_manager : string; o_facilitator : string; maxAmount : option Z }.

Record ValidatedDelegatedPayment := {
  paymentPayload : jsval; paymentRequirements : jsval; v_amount : Z;
  payer : string; paymentIntentId : string;
}.

Section x402.
Context `{Toolkit}.

Definition is_addr (v : jsval) : bool := match v with JStr s => isAddress s | _ => false end.

Definition sameAddress (a b : jsval) : bool :=
  is_addr a && is_addr b && String.eqb (getAddress (text_of a)) (getAddress (text_of b)).

Definition sameOptionalManager (a b : jsval) : bool :=
  match a, b with JUndefined, JUndefined => true | _, _ => sameAddress a b end.

Fixpoint every2 (l r : list jsval) : bool :=
  match l, r with
  | a :: l', b :: r' => sameAddress a b && every2 l' r'
  | _, _ => true
  end.
Definition sameAddressList (a b : jsval) : bool :=
  match or_empty a, or_empty b with
  | JArr ls, JArr rs =>
      if negb (Nat.eqb (length ls) (length rs)) then false else every2 ls rs
  | _, _ => false
  end.

Definition sameRequirement (a b : jsval) : bool :=
  strict_eq (prop a "scheme") (prop b "scheme")
  && strict_eq (prop a "network") (prop b "network")
  && strict_eq (prop a "amount") (prop b "amount")
  && strict_eq (prop a "maxTimeoutSeconds") (prop b "maxTimeoutSeconds")
  && sameAddress (prop a "payTo") (prop b "payTo")
  && sameAddress (prop a "asset") (prop b "asset")
  && strict_eq (prop (prop a "extra") "assetTransferMethod") (prop (prop b "extra") "assetTransferMethod")
  && strict_eq (prop (prop a "extra") "paymentFlow") (prop (prop b "extra") "paymentFlow")
  && sameOptionalManager (prop (prop a "extra") "delegationManager") (prop (prop b "extra") "delegationManager")
  && sameAddressList (prop (prop a "extra") "facilitatorAddresses") (prop (prop b "extra") "facilitatorAddresses").

Definition bad_timeout (v : jsval) : bool :=
  match v with JNum z => (z <? 1) || (300 <? z) | _ => true end.
Definition bad_flow (v : jsval) : bool :=
  match v with
  | JUndefined | JNull => false
  | _ => negb (is_str v "upfront") && negb (is_str v "authorization")
  end.
Definition bad_context (v : jsval) : bool :=
  match v with
  | JStr s => negb (isHex s) || (slen s <=? 2) || (slen s >? MAX_PERMISSION_CONTEXT_HEX_LENGTH)
  | _ => true
  end.
(** [facilitators && !facilitators.some(...)]: after [sameRequirement] it is absent or
    a list. *)
Definition not_advertised (facilitators : jsval) (self : string) : bool :=
  match facilitators with
  | JArr l => negb (existsb (λ a, is_addr a && String.eqb (getAddress (text_of a)) (getAddress self)) l)
  | _ => false
  end.

(** [chain.at(-1)] with an address for delegator. *)
Definition root_of (chain : list Delegation) : result Delegation :=
  let bad := PaymentValidationError "invalid_payload"
               "permissionContext must contain a root delegator" in
  match last chain with
  | Some d => throws negb (isAddress (delegator d)) with bad; Ok d
  | None => Throw bad
  end.

Definition validateDelegatedPayment (input : jsval) (options : Options)
    : result ValidatedDelegatedPayment :=
  let refuse := PaymentValidationError in
  throws negb (is_object input) with refuse "invalid_payload" "request must be an object";
  throws negb (strict_eq (prop input "x402Version") (JNum X402_VERSION)) with
    refuse "invalid_x402_version" "unsupported x402Version";
  let requirements := prop input "paymentRequirements" in
  let payment := prop input "paymentPayload" in
  throws negb (is_object requirements) || negb (is_object payment) with
    refuse "invalid_payload" "paymentPayload and paymentRequirements are required";
  throws negb (strict_eq (prop payment "x402Version") (JNum X402_VERSION)) with
    refuse "invalid_x402_version" "paymentPayload.x402Version is unsupported";
  let accepted := prop payment "accepted" in
  let payload := prop payment "payload" in
  throws negb (is_object accepted) || negb (is_object payload) with
    refuse "invalid_payload" "paymentPayload.accepted and paymentPayload.payload are required";
  let extra := prop requirements "extra" in
  throws negb (is_str (prop requirements "scheme") "exact")
         || negb (is_str (prop extra "assetTransferMethod") "erc7710") with
    refuse "unsupported_scheme" "unsupported scheme or asset transfer method";
  throws negb (is_str (prop requirements "network") GIWA_SEPOLIA_CAIP2) with
    refuse "invalid_network" "unsupported network";
  throws negb (is_addr (prop requirements "asset"))
         || negb (String.eqb (getAddress (text_of (prop requirements "asset"))) MOCK_USDC_address) with
    refuse "invalid_payment_requirements" "unsupported asset";
  throws negb (is_addr (prop requirements "payTo")) with
    refuse "invalid_payment_requirements" "payTo must be an address";
  throws bad_timeout (prop requirements "maxTimeoutSeconds") with
    refuse "invalid_payment_requirements" "maxTimeoutSeconds must be between 1 and 300";
  throws negb (UINT_STRING (text_of (prop requirements "amount"))) with
    refuse "invalid_payment_requirements" "amount must be an integer string";
  throws bad_flow (prop extra "paymentFlow") with
    refuse "invalid_payment_requirements" "unsupported payment flow";
  let amount := BigInt (text_of (prop requirements "amount")) in
  throws amount <=? 0 with refuse "invalid_payment_requirements" "amount must be positive";
  throws match maxAmount options with Some m => amount >? m | None => false end with
    refuse "invalid_payment_requirements" "amount exceeds facilitator safety cap";
  throws negb (sameRequirement accepted requirements) with
    refuse "invalid_payload" "accepted requirements do not exactly match the seller offer";
  let manager := prop payload "delegationManager" in
  throws negb (is_addr manager)
         || negb (String.eqb (getAddress (text_of manager)) (getAddress (o_manager options))) with
    refuse "invalid_payload" "delegationManager is not allowlisted";
  throws negb (is_addr (prop payload "delegator")) with
    refuse "invalid_payload" "delegator must be an address";
  let context := prop payload "permissionContext" in
  throws bad_context context with
    refuse "invalid_payload" "permissionContext is malformed or too large";
  let? chain := catch_as (decodeDelegations (text_of context))
    (λ _, refuse "invalid_payload" "permissionContext is not a valid delegation chain") in
  let? root := root_of chain in
  let payer := getAddress (delegator root) in
  throws negb (String.eqb payer (getAddress (text_of (prop payload "delegator")))) with
    refuse "invalid_payload" "claimed delegator does not match the signed root payer";
  throws not_advertised (prop extra "facilitatorAddresses") (o_facilitator options) with
    refuse "invalid_payment_requirements" "this facilitator is not advertised as a redeemer";
  let? id := derivePaymentIntentId
    {| network := text_of (prop requirements "network");
       asset := getAddress (text_of (prop requirements "asset")); amount := amount;
       payTo := getAddress (text_of (prop requirements "payTo"));
       delegationManager := getAddress (text_of manager);
       permissionContext := text_of context |} in
  Ok {| paymentPayload := payment; paymentRequirements := requirements; v_amount := amount;
        payer := payer; paymentIntentId := id |}.

(** ** What the boundary lets through *)

Lemma is_addr_str v : is_addr v = true → v = JStr (text_of v) ∧ isAddress (text_of v) = true.
Proof. by destruct v. Qed.

Lemma strict_eq_str a b s : strict_eq a b = true → b = JStr s → a = JStr s.
Proof. intros Hs ->. destruct a; try done. by apply String.eqb_eq in Hs as ->. Qed.

Lemma strict_eq_num a z : strict_eq a (JNum z) = true → a = JNum z.
Proof. destruct a; try done. simpl. by intros ->%Z.eqb_eq. Qed.

Lemma sameAddress_ok a b :
  sameAddress a b = true →
  is_addr a = true ∧ is_addr b = true ∧ getAddress (text_of a) = getAddress (text_of b).
Proof. unfold sameAddress. intros Hs. by bools. Qed.

Lemma amount_text v : UINT_STRING (text_of v) = true → v = JStr (text_of v).
Proof. by destruct v. Qed.

Lemma context_text v : bad_context v = false →
  v = JStr (text_of v) ∧ isHex (text_of v) = true
  ∧ 2 < slen (text_of v) <= MAX_PERMISSION_CONTEXT_HEX_LENGTH.
Proof. destruct v; simpl; try done. intros Hb. by bools. Qed.

Lemma same_offer a b :
  sameRequirement a b = true → UINT_STRING (text_of (prop b "amount")) = true →
  prop a "amount" = prop b "amount"
  ∧ getAddress (text_of (prop a "payTo")) = getAddress (text_of (prop b "payTo"))
  ∧ getAddress (text_of (prop a "asset")) = getAddress (text_of (prop b "asset"))
  ∧ sameAddressList (prop (prop a "extra") "facilitatorAddresses")
      (prop (prop b "extra") "facilitatorAddresses") = true.
Proof.
  unfold sameRequirement. intros Hs Hu%amount_text. bools.
  repeat match goal with H : sameAddress _ _ = true |- _ => apply sameAddress_ok in H end.
  destruct_and?. split_and!; try done.
  match goal with H : strict_eq (prop a "amount") _ = true |- _ =>
    rewrite (strict_eq_str _ _ _ H Hu) end. done.
Qed.

(** One validation step that refuses names a word of the vocabulary. *)
Lemma refused_word (c : bool) w m {A} (k : unit → result A) e :
  w ∈ PaymentValidationReason →
  rbind (throw_when c (PaymentValidationError w m)) k = Throw e →
  err_name e ∈ PaymentValidationReason ∨ (c = false ∧ k tt = Throw e).
Proof. destruct c; simpl; intros Hw Hk; [injection Hk as <-; by left|by right]. Qed.

Lemma intent_total `{!ToolkitLaws _} i :
  isAddress (asset i) = true → isAddress (payTo i) = true →
  isAddress (delegationManager i) = true → 0 <= amount i < 2 ^ 256 →
  is_ok (derivePaymentIntentId i) = true.
Proof.
  intros Ha Hp Hm Hv. unfold derivePaymentIntentId, PAYMENT_INTENT_DOMAIN.
  pose proof (encodeIntent_fits (toBytes "mapae.erc7710.payment-intent.v1") (network i) (asset i)
    (amount i) (payTo i) (delegationManager i) (permissionContext i) Ha Hp Hm Hv) as Hf.
  by destruct (encodeIntent _ _ _ _ _ _ _).
Qed.
End x402.

Section boundary.
Context `{T : Toolkit} `{!ToolkitLaws T}.

Lemma root_of_ok chain d : root_of chain = Ok d → last chain = Some d ∧ isAddress (delegator d) = true.
Proof.
  unfold root_of. destruct (last chain) as [r|]; [|done]. intros H. inv_tx. by bools.
Qed.

Lemma advertised l self :
  not_advertised (JArr l) self = false →
  ∃ a, a ∈ l ∧ getAddress (text_of a) = getAddress self.
Proof.
  simpl. intros (a & Ha & Hs)%negb_false_iff%existsb_exists. bools.
  exists a. by split; [apply list_elem_of_In|].
Qed.

(** The key does not depend on how the header spells its addresses. *)
Lemma intent_spelling n a v p m c :
  isAddress a = true → isAddress p = true → isAddress m = true →
  derivePaymentIntentId {| network := n; asset := getAddress a; amount := v;
    payTo := getAddress p; delegationManager := getAddress m; permissionContext := c |}
  = derivePaymentIntentId {| network := n; asset := a; amount := v; payTo := p;
    delegationManager := m; permissionContext := c |}.
Proof.
  intros Ha Hp Hm. unfold derivePaymentIntentId. cbn [network asset amount payTo delegationManager permissionContext].
  erewrite encodeIntent_bytes; [done|..]; by apply getAddress_lower.
Qed.

(** C13: No field of an accepted payment is an unsigned claim. The amount is the offer's
    decimal text, positive and within the facilitator's cap, and the echoed offer repeats
    it for the same payee and asset; the payer is the delegator of the last delegation of
    the signed context, and the claimed delegator is that account; the manager is the
    configured one, the asset the one token, and this facilitator is among the
    redeemers whenever any list was given. The idempotency key is the one that anyone
    derives from the header's own spelling of those fields. *)
Theorem accepted_payment input options v :
  validateDelegatedPayment input options = Ok v →
  let req := paymentRequirements v in
  let payload := prop (paymentPayload v) "payload" in
  let context := text_of (prop payload "permissionContext") in
  (0 < v_amount v ∧ (∀ m, maxAmount options = Some m → v_amount v <= m)
   ∧ (∃ s, prop req "amount" = JStr s ∧ UINT_STRING s = true ∧ v_amount v = BigInt s)
   ∧ prop (prop (paymentPayload v) "accepted") "amount" = prop req "amount"
   ∧ getAddress (text_of (prop (prop (paymentPayload v) "accepted") "payTo"))
     = getAddress (text_of (prop req "payTo")))
  ∧ (∃ chain root, decodeDelegations context = Ok chain ∧ last chain = Some root
       ∧ payer v = getAddress (delegator root)
       ∧ getAddress (text_of (prop payload "delegator")) = payer v)
  ∧ getAddress (text_of (prop payload "delegationManager")) = getAddress (o_manager options)
  ∧ getAddress (text_of (prop req "asset")) = MOCK_USDC_address
  ∧ (∀ l, prop (prop req "extra") "facilitatorAddresses" = JArr l →
       ∃ a, a ∈ l ∧ getAddress (text_of a) = getAddress (o_facilitator options))
  ∧ derivePaymentIntentId
      {| network := GIWA_SEPOLIA_CAIP2; asset := text_of (prop req "asset");
         amount := v_amount v; payTo := text_of (prop req "payTo");
         delegationManager := text_of (prop payload "delegationManager");
         permissionContext := context |} = Ok (paymentIntentId v).
Proof.
  intros Hv. unfold validateDelegatedPayment in Hv. inv_tx. bools. simpl.
  repeat match goal with
  | H : is_str _ _ = true |- _ => apply is_str_true in H
  | H : is_addr _ = true |- _ => apply is_addr_str in H; destruct H
  | H : catch_as _ _ = Ok _ |- _ => apply catch_as_ok in H
  end.
  match goal with H : sameRequirement _ _ = true |- _ => apply same_offer in H; [|done] end.
  destruct_and?. split_and!; try done.
  - intros m Hm. rewrite Hm in *. by bools.
  - eexists. by split; [apply amount_text|].
  - match goal with H : root_of _ = Ok _ |- _ => apply root_of_ok in H; destruct H end.
    by do 2 eexists.
  - intros l Hl. match goal with H : not_advertised _ _ = false |- _ => rewrite Hl in H end.
    by apply advertised.
  - match goal with H : derivePaymentIntentId _ = Ok _, Hn : prop _ "network" = JStr _ |- _ =>
      rewrite Hn, intent_spelling in H by done; exact H end.
Qed.

(** Every refusal speaks the vocabulary. With a safety cap that fits a token
    amount, as the facilitator configures, no input makes the boundary throw anything
    but a validation error whose reason is one of the six words. *)
Theorem refusals_have_words input options m e :
  maxAmount options = Some m → m < 2 ^ 256 →
  validateDelegatedPayment input options = Throw e → err_name e ∈ PaymentValidationReason.
Proof.
  intros Hm Hlt Hv. unfold validateDelegatedPayment in Hv.
  repeat match goal with
  | H : rbind (throw_when _ (PaymentValidationError _ _)) _ = Throw _ |- _ =>
      apply refused_word in H; [|set_solver]; destruct H as [?|[? H]]; [done|]
  end.
  bools. rewrite Hm in *.
  destruct (decodeDelegations _) as [chain|]; simpl in Hv; [|injection Hv as <-; set_solver].
  destruct (root_of chain) as [root|e'] eqn:Hroot; simpl in Hv.
  - repeat match goal with
    | H : rbind (throw_when _ (PaymentValidationError _ _)) _ = Throw _ |- _ =>
        apply refused_word in H; [|set_solver]; destruct H as [?|[? H]]; [done|]
    end.
    bools. exfalso.
    repeat match goal with H : is_addr _ = true |- _ => apply is_addr_str in H; destruct H end.
    match type of Hv with rbind (derivePaymentIntentId ?i) _ = _ =>
      pose proof (intent_total i) as Ht; destruct (derivePaymentIntentId i); [done|] end.
    cbn [asset payTo delegationManager amount] in Ht. discriminate Ht;
      [by apply getAddress_address..|lia].
  - injection Hv as <-. unfold root_of in Hroot. destruct (last chain) as [d|].
    + destruct (isAddress (delegator d)); simpl in Hroot; [done|]. injection Hroot as <-. set_solver.
    + injection Hroot as <-. set_solver.
Qed.
End boundary.

(** ** A request *)
Definition ex_manager : string := "0x00000000000000000000000000000000000000cc".
Definition ex_offer (payTo : string) : jsval := JObj
  [("scheme", JStr "exact"); ("network", JStr GIWA_SEPOLIA_CAIP2); ("amount", JStr "1500000");
   ("asset", JStr MOCK_USDC_address); ("payTo", JStr payTo); ("maxTimeoutSeconds", JNum 60);
   ("extra", JObj [("assetTransferMethod", JStr "erc7710"); ("paymentFlow", JStr "upfront");
                   ("facilitatorAddresses", JArr [JStr "0x00000000000000000000000000000000000000ff"])])].
(** The buyer echoes the payee in another case. *)
Definition ex_request (delegator : string) : jsval := JObj
  [("x402Version", JNum 2); ("paymentRequirements", ex_offer "0x00000000000000000000000000000000000000de");
   ("paymentPayload", JObj
     [("x402Version", JNum 2); ("accepted", ex_offer "0x00000000000000000000000000000000000000DE");
      ("payload", JObj [("delegationManager", JStr ex_manager);
                        ("delegator", JStr delegator);
                        ("permissionContext", JStr "0x01")])])].
Definition ex_options : Options :=
  {| o_manager := ex_manager; o_facilitator := "0x00000000000000000000000000000000000000FF";
     maxAmount := Some 2000000 |}.
Definition ex_delegator : string := "0x00000000000000000000000000000000000000ab".

Lemma accepted_payment_witness :
  ∃ v, validateDelegatedPayment (ex_request ex_delegator) ex_options = Ok v
       ∧ v_amount v = 1500000 ∧ payer v = ex_delegator ∧ 1500000 <= 2000000.
Proof.
  destruct (validateDelegatedPayment (ex_request ex_delegator) ex_options) as [v|e] eqn:Hv;
    [|vm_compute in Hv; discriminate Hv].
  exists v. pose proof (accepted_payment (ex_request ex_delegator) ex_options v Hv) as H.
  assert (Ha : v_amount v = 1500000) by (vm_compute in Hv; injection Hv as <-; reflexivity).
  assert (Hp : payer v = ex_delegator) by (vm_compute in Hv; injection Hv as <-; reflexivity).
  split; [reflexivity|]. split; [exact Ha|]. split; [exact Hp|].
  rewrite <- Ha. exact (proj1 (proj2 (proj1 H)) 2000000 eq_refl).
Defined.

Lemma refusals_have_words_witness :
  ∃ e, validateDelegatedPayment (ex_request ex_manager) ex_options = Throw e
       ∧ err_name e ∈ PaymentValidationReason.
Proof.
  destruct (validateDelegatedPayment (ex_request ex_manager) ex_options) as [v|e] eqn:Hv;
    [vm_compute in Hv; discriminate Hv|].
  exists e. split; [reflexivity|].
  refine (refusals_have_words (ex_request ex_manager) ex_options 2000000 e eq_refl _ Hv).
  reflexivity.
Defined.
