(* ===== verification/Net.v ===== *)
(** * Client network buckets

    [packages/shared/src/net.ts]: the key a client address is rate-limited under.
    An IPv6 bucket does not depend on how the address is spelled. *)

From Stdlib Require Import ZArith Lia Ascii String.
From stdpp Require Import base strings list sets.
From S2P Require Import Prelude.
Open Scope string_scope.
Open Scope Z_scope.

Notation text := (list ascii).

(** [s.split(sep)] on one character. *)
Fixpoint split_on (sep : ascii) (l : text) : list text :=
  match l with
  | [] => [[]]
  | c :: l' =>
      if Ascii.eqb c sep then [] :: split_on sep l'
      else match split_on sep l' with
           | w :: ws => (c :: w) :: ws
           | [] => [[c]]
           end
  end.

(** The text before the first [::], and the text after it. *)
Fixpoint cut_double (l : text) : option (text * text) :=
  match l with
  | c :: l' =>
      match l' with
      | d :: l'' =>
          if Ascii.eqb c ":" && Ascii.eqb d ":" then Some ([], l'')
          else match cut_double l' with Some (a, b) => Some (c :: a, b) | None => None end
      | [] => None
      end
  | [] => None
  end.
(** [s.split("::", 2)] as head and optional tail. *)
Definition split_double (l : text) : text * option text :=
  match cut_double l with
  | None => (l, None)
  | Some (a, b) => (a, Some (match cut_double b with Some (c, _) => c | None => b end))
  end.

Fixpoint join (sep : text) (l : list text) : text :=
  match l with
  | [] => []
  | [w] => w
  | w :: l' => (w ++ sep ++ join sep l')%list
  end.

(** The leading hex digits of a text. *)
Fixpoint hex_prefix (l : text) : text :=
  match l with c :: l' => if is_hex c then c :: hex_prefix l' else [] | [] => [] end.
(** [Number.parseInt(s, 16)]: spaces, a sign, [0x], then digits; [None] is NaN. *)
Definition parseInt16 (l : text) : option Z :=
  let l := drop_space l in
  let '(neg, l) := match l with
                   | c :: l' => if Ascii.eqb c "-" then (true, l')
                                else if Ascii.eqb c "+" then (false, l') else (false, l)
                   | [] => (false, []) end in
  let l := match l with
           | a :: b :: l' => if Ascii.eqb a "0" && Ascii.eqb (lower_char b) "x" then l' else l
           | _ => l end in
  match hex_prefix l with
  | [] => None
  | ds => Some (if neg : bool then - hex_number ds else hex_number ds)
  end.

(** [n.toString(16)]: the digits of a nonnegative number, most significant first;
    sixty-four are more than a safe integer has. *)
Definition hex_char (d : Z) : ascii := nth (Z.to_nat d) (chars "0123456789abcdef") "0"%char.
Fixpoint hex_text (fuel : nat) (n : Z) : text :=
  match fuel with
  | O => []
  | S f => if n <? 16 then [hex_char n]
           else (hex_text f (n / 16) ++ [hex_char (n mod 16)])%list
  end.
Definition toString16 (n : option Z) : text :=
  match n with
  | None => chars "NaN"
  | Some z => if z <? 0 then "-"%char :: hex_text 64 (- z) else hex_text 64 z
  end.

Definition groups_of (l : text) : list text :=
  match l with [] => [] | _ => split_on ":" l end.

Definition v6Prefix (address : text) (groupCount : nat) : text :=
  let '(head, tail) := split_double address in
  let headGroups := groups_of head in
  let tailGroups := match tail with Some t => groups_of t | None => [] end in
  let elided := match tail with
                | None => O
                | Some _ => (8 - length headGroups - length tailGroups)%nat end in
  let groups := (headGroups ++ replicate elided (chars "0") ++ tailGroups)%list in
  join [":"%char] ((λ g, toString16 (parseInt16 g)) <$> take groupCount groups).

Definition v4Prefix (address : text) : text :=
  join ["."%char] (take 3 (split_on "." address)).

Definition has_char (c : ascii) (l : text) : bool := existsb (Ascii.eqb c) l.
(** The text after the last [:]. *)
Definition after_last_colon (l : text) : text := List.last (split_on ":" l) [].

Definition ip_bucket (address : text) : text :=
  if negb (has_char ":" address) || has_char "." address then address
  else (v6Prefix address 4 ++ chars "::/64")%list.
Definition ipBucket (address : string) : string :=
  string_of_list_ascii (ip_bucket (chars address)).

Definition subnet_bucket (address : text) : text :=
  if negb (has_char ":" address) then (v4Prefix address ++ chars ".0/24")%list
  else if has_char "." address
  then (chars "::ffff:" ++ v4Prefix (after_last_colon address) ++ chars ".0/24")%list
  else (v6Prefix address 3 ++ chars "::/48")%list.
Definition subnetBucket (address : string) : string :=
  string_of_list_ascii (subnet_bucket (chars address)).

Example ex_v6 : ipBucket "2001:DB8::1" = "2001:db8:0:0::/64".
Proof. vm_compute. reflexivity. Qed.
Example ex_v6_long : ipBucket "2001:0db8:0000:0000:0000:0000:0000:0001" = "2001:db8:0:0::/64".
Proof. vm_compute. reflexivity. Qed.
Example ex_mapped : ipBucket "::ffff:203.0.113.9" = "::ffff:203.0.113.9".
Proof. vm_compute. reflexivity. Qed.
Example ex_subnet : subnetBucket "::ffff:203.0.113.9" = "::ffff:203.0.113.0/24".
Proof. vm_compute. reflexivity. Qed.
Example ex_loopback : subnetBucket "::1" = "0:0:0::/48".
Proof. vm_compute. reflexivity. Qed.

(** ** Spellings of an IPv6 address

    A group is spelled by hex digits of any case with any leading zeros; an address by
    eight groups, or by fewer with one [::] for the zero groups left out. *)
Definition spells (g : text) (v : Z) : Prop :=
  g ≠ [] ∧ forallb is_hex g = true ∧ hex_number g = v ∧ v < 65536.
Inductive spelled_as : text → list Z → Prop :=
  | spelled_full gs vs :
      Forall2 spells gs vs → length gs = 8%nat → spelled_as (join [":"%char] gs) vs
  | spelled_short h t vh vt :
      Forall2 spells h vh → Forall2 spells t vt → (length h + length t < 8)%nat →
      spelled_as (join [":"%char] h ++ chars "::" ++ join [":"%char] t)%list
        (vh ++ replicate (8 - length h - length t) 0 ++ vt)%list.

Lemma hex_char_free c : is_hex c = true →
  Ascii.eqb c ":" = false ∧ Ascii.eqb c "." = false ∧ Ascii.eqb c "-" = false
  ∧ Ascii.eqb c "+" = false ∧ is_space c = false ∧ Ascii.eqb (lower_char c) "x" = false.
Proof. destruct c as [[] [] [] [] [] [] [] []]; vm_compute; intuition congruence. Qed.

Lemma hex_free g : forallb is_hex g = true → has_char ":" g = false ∧ has_char "." g = false.
Proof.
  unfold has_char. induction g as [|c g IH]; cbn [existsb forallb]; [done|]. intros Hg. bools.
  destruct (hex_char_free c) as (H1 & H2 & _); [done|].
  rewrite !(Ascii.eqb_sym _ c), H1, H2. by apply IH.
Qed.

Lemma hex_prefix_all g : forallb is_hex g = true → hex_prefix g = g.
Proof. induction g as [|c g IH]; simpl; [done|]. intros Hg. bools. by rewrite H, IH. Qed.

Lemma parse_group g v : spells g v → parseInt16 g = Some v.
Proof.
  intros (Hne & Hg & <- & _). destruct g as [|c g]; [done|].
  assert (Hc : is_hex c = true) by (simpl in Hg; by bools).
  destruct (hex_char_free c Hc) as (_ & _ & Hm & Hp & Hs & _).
  unfold parseInt16. cbn [drop_space]. rewrite Hs, Hm, Hp.
  assert (Hx : match c :: g with
    | a :: b :: l' => if Ascii.eqb a "0" && Ascii.eqb (lower_char b) "x" then l' else c :: g
    | _ => c :: g end = c :: g).
  { destruct g as [|b g]; [done|]. simpl in Hg. bools.
    destruct (hex_char_free b) as (_ & _ & _ & _ & _ & ->); [done|]. by rewrite andb_false_r. }
  rewrite Hx, hex_prefix_all by done. done.
Qed.

Lemma split_on_free sep w : has_char sep w = false → split_on sep w = [w].
Proof.
  unfold has_char. induction w as [|c w IH]; cbn [existsb split_on app]; [done|]. intros Hw. bools.
  rewrite Ascii.eqb_sym, H. by rewrite IH.
Qed.

Lemma split_on_app sep w l :
  has_char sep w = false → split_on sep (w ++ sep :: l)%list = w :: split_on sep l.
Proof.
  unfold has_char.
  induction w as [|c w IH]; cbn [existsb split_on app]; [by rewrite Ascii.eqb_refl|].
  intros Hw. bools. rewrite Ascii.eqb_sym, H. by rewrite IH.
Qed.

Lemma split_on_join sep gs :
  gs ≠ [] → Forall (λ g, has_char sep g = false) gs → split_on sep (join [sep] gs) = gs.
Proof.
  induction gs as [|g gs IH]; intros Hne Hgs; [done|]. apply Forall_cons in Hgs as [Hg Hgs].
  destruct gs as [|g' gs]; [by apply split_on_free|].
  cbn [join]. cbn [app]. rewrite split_on_app by done. f_equal. by apply IH.
Qed.

Lemma join_nonempty gs : Forall (λ g : text, g ≠ []) gs → join [":"%char] gs = [] → gs = [].
Proof.
  destruct gs as [|g gs]; [done|]. intros [Hg _]%Forall_cons Hj.
  destruct g as [|c g]; [done|]. by destruct gs.
Qed.

Lemma cut_free w l :
  has_char ":" w = false →
  cut_double (w ++ l)%list = (λ p : text * text, ((w ++ p.1)%list, p.2)) <$> cut_double l.
Proof.
  unfold has_char. induction w as [|c w IH]; intros Hw;
    [cbn [app]; by destruct (cut_double l) as [[]|]|].
  cbn [existsb] in Hw. bools. specialize (IH ltac:(done)).
  rewrite Ascii.eqb_sym in H. cbn [app].
  destruct (w ++ l)%list as [|d r] eqn:Hd.
  - apply app_nil in Hd as [-> ->]. done.
  - cbn [cut_double]. cbn [cut_double] in IH. rewrite H. cbn [andb].
    rewrite IH. by destruct (cut_double l) as [[]|].
Qed.

Lemma cut_colon c q :
  Ascii.eqb c ":" = false →
  cut_double (":"%char :: c :: q) = (λ p : text * text, (":"%char :: p.1, p.2)) <$> cut_double (c :: q).
Proof.
  intros H.
  transitivity (if Ascii.eqb ":" ":" && Ascii.eqb c ":" then Some ([], q)
    else match cut_double (c :: q) with Some (a, b) => Some (":"%char :: a, b) | None => None end);
    [reflexivity|].
  rewrite H, andb_false_r. by destruct (cut_double (c :: q)) as [[]|].
Qed.

Lemma cut_join gs r :
  Forall (λ g, g ≠ [] ∧ has_char ":" g = false) gs →
  cut_double (join [":"%char] gs) = None
  ∧ cut_double (join [":"%char] gs ++ chars "::" ++ r)%list = Some (join [":"%char] gs, r).
Proof.
  induction gs as [|g gs IH]; intros Hgs; [done|].
  apply Forall_cons in Hgs as [[Hg Hf] Hgs]. destruct gs as [|g' gs].
  - cbn [join]. pose proof (cut_free g [] Hf) as H1. rewrite app_nil_r in H1.
    rewrite H1, cut_free by done. cbn. by rewrite app_nil_r.
  - destruct (IH Hgs) as [H1 H2]. apply Forall_cons in Hgs as [[Hg' Hf'] _].
    assert (Hcolon : ∀ l, cut_double (":"%char :: join [":"%char] (g' :: gs) ++ l)%list
      = (λ p : text * text, (":"%char :: p.1, p.2)) <$> cut_double (join [":"%char] (g' :: gs) ++ l)%list).
    { intros l. destruct g' as [|c g']; [done|].
      assert (Hhd : ∃ q, (join [":"%char] ((c :: g') :: gs) ++ l)%list = c :: q).
      { destruct gs; cbn [join app]; eauto. }
      destruct Hhd as [q ->]. unfold has_char in Hf'. cbn [existsb] in Hf'. bools.
      rewrite Ascii.eqb_sym in H. by apply cut_colon. }
    pose proof (Hcolon []) as Hc0. rewrite app_nil_r, H1 in Hc0.
    change (join [":"%char] (g :: g' :: gs)) with (g ++ [":"%char] ++ join [":"%char] (g' :: gs))%list.
    split.
    + rewrite cut_free by done. change ([":"%char] ++ ?x)%list with (":"%char :: x). by rewrite Hc0.
    + rewrite <- !app_assoc, cut_free by done.
      change ([":"%char] ++ ?x)%list with (":"%char :: x). by rewrite Hcolon, H2.
Qed.

(** ** The bucket of the values *)
Definition bucket_of (vs : list Z) : text :=
  (join [":"%char] (hex_text 64 <$> take 4 vs) ++ chars "::/64")%list.

Lemma hex_number_snoc l c : hex_number (l ++ [c])%list = hex_number l * 16 + hex_value c.
Proof. unfold hex_number. by rewrite foldl_app. Qed.

Lemma spells_range g v : spells g v → 0 <= v < 65536.
Proof.
  intros (_ & Hg & <- & Hlt). split; [by apply hex_number_nonneg|done].
Qed.

Lemma hex_char_value d : 0 <= d < 16 → hex_value (hex_char d) = d ∧ is_hex (hex_char d) = true.
Proof.
  intros Hd. rewrite <- (Z2Nat.id d) by lia. assert (Hn : (Z.to_nat d < 16)%nat) by lia.
  unfold hex_char. rewrite Nat2Z.id. revert Hn. generalize (Z.to_nat d). intros n Hn.
  do 16 (destruct n as [|n]; [done|]). lia.
Qed.

Lemma hex_text_ok f : ∀ n, 0 <= n < 16 ^ Z.of_nat f →
  (f ≠ 0)%nat → hex_number (hex_text f n) = n ∧ forallb is_hex (hex_text f n) = true ∧ hex_text f n ≠ [].
Proof.
  induction f as [|f IH]; intros n Hn Hf; [done|]. cbn [hex_text].
  destruct (Z.ltb_spec n 16) as [Hlt|Hge].
  - destruct (hex_char_value n) as [Hv Hh]; [lia|]. cbn [forallb]. by rewrite Hh.
  - rewrite Nat2Z.inj_succ, Z.pow_succ_r in Hn by lia.
    destruct f as [|f]; [simpl in Hn; lia|].
    destruct (IH (n / 16)) as (Hv & Hh & _); [Z.to_euclidean_division_equations; lia|done|].
    destruct (hex_char_value (n mod 16)) as [Hv' Hh']; [apply Z.mod_pos_bound; lia|].
    rewrite hex_number_snoc, Hv, Hv', forallb_app, Hh. cbn [forallb]. rewrite Hh'.
    split_and!; [Z.to_euclidean_division_equations; lia|done|by destruct (hex_text (S f) (n / 16))].
Qed.

Lemma hex_text_16 n : 0 <= n < 65536 →
  hex_number (hex_text 64 n) = n ∧ forallb is_hex (hex_text 64 n) = true ∧ hex_text 64 n ≠ [].
Proof. intros Hn. apply hex_text_ok; [|done]. change (16 ^ Z.of_nat 64) with (2 ^ 256). lia. Qed.

Lemma spells_groups h vh :
  Forall2 spells h vh →
  Forall (λ g, g ≠ [] ∧ has_char ":" g = false) h
  ∧ Forall (λ g, has_char "." g = false) h
  ∧ (λ g, toString16 (parseInt16 g)) <$> h = hex_text 64 <$> vh
  ∧ Forall (λ v, 0 <= v < 65536) vh.
Proof.
  induction 1 as [|g v h vh Hg Hh IH]; [by split_and!|].
  destruct IH as (IH1 & IH2 & IH3 & IH4). pose proof (spells_range g v Hg) as Hr.
  pose proof Hg as (Hne & Hx & _). destruct (hex_free g Hx) as [H1 H2].
  split_and!; [by constructor..| |by constructor].
  rewrite !fmap_cons, IH3. f_equal. rewrite (parse_group g v Hg). unfold toString16.
  by rewrite (proj2 (Z.ltb_ge v 0)) by lia.
Qed.

Lemma groups_join gs :
  Forall (λ g, g ≠ [] ∧ has_char ":" g = false) gs → groups_of (join [":"%char] gs) = gs.
Proof.
  intros Hgs. unfold groups_of. destruct (join [":"%char] gs) as [|c l] eqn:Hj.
  - symmetry. apply join_nonempty; [|done]. eapply Forall_impl; [exact Hgs|]. by intros g [? _].
  - rewrite <- Hj. apply split_on_join; [by intros ->|].
    eapply Forall_impl; [exact Hgs|]. by intros g [_ ?].
Qed.

Lemma has_char_app c l1 l2 : has_char c (l1 ++ l2)%list = has_char c l1 || has_char c l2.
Proof. apply existsb_app. Qed.

Lemma has_char_join c gs :
  Forall (λ g, has_char c g = false) gs → Ascii.eqb c ":" = false →
  has_char c (join [":"%char] gs) = false.
Proof.
  intros Hgs Hc. induction Hgs as [|g gs Hg Hgs IH]; [done|].
  destruct gs as [|g' gs]; [done|].
  change (join [":"%char] (g :: g' :: gs)) with (g ++ [":"%char] ++ join [":"%char] (g' :: gs))%list.
  rewrite !has_char_app, Hg, IH. unfold has_char. cbn [existsb]. by rewrite Hc.
Qed.

Lemma bucket_of_spelling l vs :
  spelled_as l vs → ip_bucket l = bucket_of vs ∧ Forall (λ v, 0 <= v < 65536) vs.
Proof.
  intros [gs vs' Hgs Hlen|h t vh vt Hh Ht Hlen].
  - destruct (spells_groups _ _ Hgs) as (H1 & H2 & H3 & H4). split; [|done].
    destruct gs as [|g [|g' gs]]; [done..|].
    assert (Hcolon : has_char ":" (join [":"%char] (g :: g' :: gs)) = true).
    { change (join [":"%char] (g :: g' :: gs)) with (g ++ [":"%char] ++ join [":"%char] (g' :: gs))%list.
      rewrite !has_char_app. by rewrite orb_true_r. }
    unfold ip_bucket. rewrite Hcolon, has_char_join by done. cbn [negb orb].
    unfold bucket_of, v6Prefix, split_double. destruct (cut_join _ [] H1) as [-> _].
    rewrite groups_join by done. cbn [replicate]. rewrite app_nil_r.
    by rewrite fmap_take, H3, fmap_take.
  - destruct (spells_groups _ _ Hh) as (H1 & H2 & H3 & H4).
    destruct (spells_groups _ _ Ht) as (T1 & T2 & T3 & T4). split.
    + assert (Hdot : has_char "." (join [":"%char] h ++ chars "::" ++ join [":"%char] t)%list = false).
      { rewrite !has_char_app, !has_char_join by done. done. }
      assert (Hcolon : has_char ":" (join [":"%char] h ++ chars "::" ++ join [":"%char] t)%list = true).
      { rewrite !has_char_app. by rewrite orb_true_r. }
      unfold ip_bucket. rewrite Hcolon, Hdot. cbn [negb orb].
      unfold bucket_of, v6Prefix, split_double.
      destruct (cut_join h (join [":"%char] t) H1) as [_ ->].
      destruct (cut_join t [] T1) as [-> _]. rewrite !groups_join by done.
      rewrite !fmap_take, !fmap_app, !fmap_replicate, H3, T3. done.
    + rewrite !Forall_app. split_and!; [done| |done].
      apply Forall_replicate. lia.
Qed.

(** The IPv6 rate-limit key is the client's /64 and nothing else: two addresses,
    however each is spelled (letter case, leading zeros, one run of zeros elided), share
    a bucket exactly when their first four groups are equal. *)
Theorem ipv6_bucket_is_the_64 l1 vs1 l2 vs2 :
  spelled_as l1 vs1 → spelled_as l2 vs2 →
  ip_bucket l1 = ip_bucket l2 ↔ take 4 vs1 = take 4 vs2.
Proof.
  intros H1 H2. destruct (bucket_of_spelling _ _ H1) as [-> R1].
  destruct (bucket_of_spelling _ _ H2) as [-> R2]. unfold bucket_of.
  split; [|by intros ->]. intros He. apply app_inj_2 in He as [He _]; [|done].
  apply (Forall_take _ 4%nat) in R1, R2.
  assert (Hback : ∀ vs, Forall (λ v, 0 <= v < 65536) vs →
    hex_number <$> groups_of (join [":"%char] (hex_text 64 <$> vs)) = vs).
  { intros vs Hvs. rewrite groups_join.
    - rewrite <- list_fmap_compose. rewrite <- (list_fmap_id vs) at 2. apply list_fmap_ext.
      intros i v Hv. apply hex_text_16. by eapply Forall_lookup_1 in Hvs.
    - apply Forall_fmap. eapply Forall_impl; [exact Hvs|]. intros v Hv.
      destruct (hex_text_16 v Hv) as (_ & Hx & Hne). split; [done|by apply hex_free]. }
  by rewrite <- (Hback _ R1), <- (Hback _ R2), He.
Qed.

Lemma ipv6_bucket_is_the_64_witness :
  spelled_as (chars "2001:DB8::1") [8193; 3512; 0; 0; 0; 0; 0; 1]
  ∧ ip_bucket (chars "2001:DB8::1") = ip_bucket (chars "2001:0db8:0:0:a:b:c:d").
Proof.
  assert (S1 : spelled_as (chars "2001:DB8::1") [8193; 3512; 0; 0; 0; 0; 0; 1]).
  { refine (spelled_short [chars "2001"; chars "DB8"] [chars "1"] [8193; 3512] [1] _ _ _).
    all: try (repeat constructor; try discriminate). }
  assert (S2 : spelled_as (chars "2001:0db8:0:0:a:b:c:d") [8193; 3512; 0; 0; 10; 11; 12; 13]).
  { refine (spelled_full [chars "2001"; chars "0db8"; chars "0"; chars "0"; chars "a"; chars "b";
      chars "c"; chars "d"] [8193; 3512; 0; 0; 10; 11; 12; 13] _ _).
    all: try (repeat constructor; try discriminate). }
  split; [exact S1|]. exact (proj2 (ipv6_bucket_is_the_64 _ _ _ _ S1 S2) eq_refl).
Defined.
