(* ===== verification/Guards.v ===== *)
(** * The facilitator's guards and routes

    [apps/facilitator-erc7710/guards.ts], [settlement.ts], [routes.ts], [health.ts]
    and the rate-limit test of [packages/delegation/src/rpc.ts]: what is decided
    before the chain is touched, how a failure is classified, and what goes out on
    the wire, which is then read back by the seller's ladder of [Contract]. *)

From Stdlib Require Import ZArith Lia Ascii String.
From stdpp Require Import base gmap strings list sets.
From S2P Require Import Prelude Ledger Settlement Toolkit Budget Bootstrap Evidence Contract X402 Net.
Open Scope string_scope.
Open Scope Z_scope.

(** ** Thrown values

    An [Error] has a class, with the fields a handler reads, a message, an optional
    [details] text and a [cause]; anything else that is thrown is [NotAnError]. *)
Inductive error_class :=
  | PlainError
  | RpcUnreachableBeforeBroadcast
  | SettlementStorageUnavailable
  | SettlementPending (transaction : string)
  | ValidationError (reason : string)
  | BudgetExceeded (errorCode : string)
  | RedemptionRejected
  | ContractFunctionRevertedError
  | ExecutionRevertedError
  | HttpRequestError
  | TimeoutError
  | LimitExceededRpcError
  | ContractFunctionExecutionError.

Inductive thrown :=
  | NotAnError
  | AnError (cls : error_class) (message : string) (details : option string) (cause : thrown).

(** The chain of causes, at most [depth] links. *)
Fixpoint causeChain (depth : nat) (e : thrown) : list (error_class * string * option string) :=
  match depth, e with
  | S d, AnError cls m det cause => (cls, m, det) :: causeChain d cause
  | _, _ => []
  end.

Definition is_revert (c : error_class) : bool :=
  match c with ContractFunctionRevertedError | ExecutionRevertedError => true | _ => false end.
Definition is_transport (c : error_class) : bool :=
  match c with HttpRequestError | TimeoutError => true | _ => false end.

Definition isRedemptionRevert (e : thrown) : bool :=
  existsb (λ l, is_revert l.1.1) (causeChain 8 e).

(** *** [/rate.?limit|too many requests|\b(?:http|status|code)\s*:?\s*429\b/i] *)
Fixpoint starts (p l : text) : bool :=
  match p, l with
  | [], _ => true
  | a :: p', b :: l' => Ascii.eqb a b && starts p' l'
  | _, [] => false
  end.
Definition is_word (c : ascii) : bool := is_digit c || is_lower c || is_upper c || Ascii.eqb c "_".
Definition ends_word (l : text) : bool := match l with c :: _ => negb (is_word c) | [] => true end.

Definition rate_limit_at (l : text) : bool :=
  starts (chars "ratelimit") l
  || (starts (chars "rate") l
      && match drop 4 l with
         | c :: l' => negb ((Prelude.code c =? 10) || (Prelude.code c =? 13)) && starts (chars "limit") l'
         | [] => false end).
Definition status_429_at (l : text) : bool :=
  existsb (λ w, starts (chars w) l
    && (let r := drop_space (drop (String.length w) l) in
        let r := match r with c :: r' => if Ascii.eqb c ":" then drop_space r' else r | [] => r end in
        starts (chars "429") r && ends_word (drop 3 r)))
    ["http"; "status"; "code"].
(** The suffixes of the text, [boundary] telling whether a word may begin here. *)
Fixpoint rate_limit_search (boundary : bool) (l : text) : bool :=
  rate_limit_at l || starts (chars "too many requests") l || (boundary && status_429_at l)
  || match l with c :: l' => rate_limit_search (negb (is_word c)) l' | [] => false end.
Definition RATE_LIMIT_PATTERN (s : string) : bool :=
  rate_limit_search true (chars (toLowerCase s)).

Fixpoint parts_of (l : list (error_class * string * option string)) : list string :=
  match l with
  | [] => []
  | (_, m, Some d) :: l' => m :: d :: parts_of l'
  | (_, m, None) :: l' => m :: parts_of l'
  end.
Definition isRateLimitError (e : thrown) : bool :=
  RATE_LIMIT_PATTERN (String.concat " " (parts_of (causeChain 8 e))).

Fixpoint transport_verdict (l : list (error_class * string * option string)) : option bool :=
  match l with
  | [] => None
  | (cls, _, _) :: l' =>
      if is_revert cls then Some false
      else if is_transport cls then Some true else transport_verdict l'
  end.
Definition isRpcUnreachable (e : thrown) : bool :=
  default (isRateLimitError e) (transport_verdict (causeChain 8 e)).

(** [beforeBroadcast]: what a throw of the stage before the broadcast becomes. *)
Definition beforeBroadcast (e : thrown) : thrown :=
  if isRpcUnreachable e
  then AnError RpcUnreachableBeforeBroadcast "RPC stopped answering before the redemption was broadcast" None e
  else e.

(** ** [describeFailure] *)
Inductive SettlementFailure :=
  | not_ready
  | refused (errorCode : string)
  | in_doubt (transaction : string).
Inductive route := verify | settle.

Definition unexpected_error (r : route) : string :=
  match r with verify => UNEXPECTED_VERIFY_ERROR | settle => UNEXPECTED_SETTLE_ERROR end.
Definition rejected_or_unexpected (e : thrown) (r : route) : SettlementFailure :=
  if isRedemptionRevert e then refused DELEGATION_REJECTED else refused (unexpected_error r).
Definition describeFailure (e : thrown) (r : route) : SettlementFailure :=
  match e with
  | AnError cls _ _ _ =>
      match cls with
      | RpcUnreachableBeforeBroadcast | SettlementStorageUnavailable => not_ready
      | SettlementPending tx => in_doubt tx
      | ValidationError reason => refused reason
      | BudgetExceeded errorCode => refused errorCode
      | RedemptionRejected => refused DELEGATION_REJECTED
      | _ => rejected_or_unexpected e r
      end
  | NotAnError => rejected_or_unexpected e r
  end.

(** ** [/health] *)
Definition contains (p s : string) : bool :=
  (fix go (l : text) : bool :=
     starts (chars p) l || match l with _ :: l' => go l' | [] => false end) (chars s).
(** [/\bpaused\b/] *)
Definition says_paused (s : string) : bool :=
  (fix go (boundary : bool) (l : text) : bool :=
     (boundary && starts (chars "paused") l && ends_word (drop 6 l))
     || match l with c :: l' => go (negb (is_word c)) l' | [] => false end) true (chars s).

Inductive FrameworkHealthError :=
  framework_paused | owner_mismatch | rpc_unreachable | verification_failed.
Definition message_of (e : thrown) : string :=
  match e with AnError _ m _ _ => m | NotAnError => "" end.
Definition classifyFrameworkError (e : thrown) : FrameworkHealthError :=
  if isRpcUnreachable e then rpc_unreachable
  else if says_paused (message_of e) then framework_paused
  else if contains "owner mismatch" (message_of e) || contains "admin identity mismatch" (message_of e)
  then owner_mismatch
  else verification_failed.
Definition frameworkPausedFrom (e : option FrameworkHealthError) : option bool :=
  match e with
  | None => Some false
  | Some framework_paused => Some true
  | Some _ => None
  end.
Definition paymentReady (framework database : bool) (balance : option Z) (remaining : Z) : bool :=
  framework && database && match balance with Some b => b >? 0 | None => false end && (remaining >? 0).

(** ** [settlement.ts] *)
Section settlement.
Context `{Toolkit}.

(** [status] is the receipt's. *)
Definition receiptFailure (status : string) (logs : list ReceiptLog) (p : ValidatedDelegatedPayment)
    : option string :=
  if negb (String.eqb status "success") then Some SETTLEMENT_REVERTED
  else
    match reconcileSettlementReceipt logs (text_of (prop (paymentRequirements p) "asset"))
            (X402.payer p) (text_of (prop (paymentRequirements p) "payTo")) (v_amount p) with
    | [] => None
    | _ => Some VENDOR_NOT_CREDITED
    end.
End settlement.

(** A code that is set and not the empty text. *)
Definition truthy_code (e : SettlementEvent) : option string :=
  match ev_errorCode e with
  | Some c => if String.eqb c "" then None else Some c
  | None => None
  end.

Definition validation_error (reason message : string) : thrown :=
  AnError (ValidationError reason) message None NotAnError.

Definition verifyKnownSettlement (r : SettlementRecord) : option thrown :=
  match terminal r with
  | Some e =>
      match truthy_code e with
      | Some c => Some (validation_error "invalid_transaction_state"
                    ("settlement " ++ txHash (rec_input r) ++ " already ended as " ++ c))
      | None => None
      end
  | None => None
  end.

Record SettleResponse := {
  sr_success : bool; sr_payer : string; sr_transaction : string;
  sr_errorReason : option string; sr_replayed : bool;
}.

Definition settlementResponse (r : SettlementRecord) (replayed : bool) : SettleResponse + thrown :=
  match terminal r with
  | None => inr (AnError PlainError "settlement is not terminal" None NotAnError)
  | Some e =>
      inl {| sr_success := bool_decide (ev_outcome e = Ledger.settled);
             sr_payer := Settlement.payer (rec_input r); sr_transaction := txHash (rec_input r);
             sr_errorReason := truthy_code e; sr_replayed := replayed |}
  end.

(** ** The bodies on the wire *)
Definition network_field : string * jsval := ("network", JStr GIWA_SEPOLIA_CAIP2).

Definition settle_body (r : SettleResponse) : jsval :=
  JObj ([("success", JBool (sr_success r)); network_field; ("payer", JStr (sr_payer r));
         ("transaction", JStr (sr_transaction r))]
        ++ match sr_errorReason r with Some c => [("errorReason", JStr c)] | None => [] end
        ++ if sr_replayed r then [("replayed", JBool true)] else [])%list.

Definition VERIFY_RATE_LIMITED : jsval :=
  JObj [("isValid", JBool false); ("invalidReason", JStr RATE_LIMITED)].
Definition SETTLE_RATE_LIMITED : jsval :=
  JObj [("success", JBool false); ("transaction", JStr ""); network_field;
        ("errorReason", JStr RATE_LIMITED)].

Record HttpAnswer := { status : Z; json : jsval }.

Definition VERIFY_NOT_READY : HttpAnswer :=
  {| status := 503; json := JObj [("isValid", JBool false);
       ("invalidReason", JStr FACILITATOR_NOT_READY)] |}.
Definition SETTLE_NOT_READY : HttpAnswer :=
  {| status := 200; json := JObj [("success", JBool false); ("transaction", JStr "");
       network_field; ("errorReason", JStr FACILITATOR_NOT_READY)] |}.

(** ** The request body

    [req_length] is [Number] of the content-length header when that is finite (0 when
    the header is absent); [JSON_parse] is the language's. *)
Record HttpRequest := {
  req_ip : option string; req_forwarded_ip : option string;
  content_type : option string; req_length : option Z; req_text : string;
}.

Definition MAX_TEXT : Z := 150000.

Definition readJson (JSON_parse : string → option jsval) (r : HttpRequest) : jsval + thrown :=
  let invalid m := inr (validation_error "invalid_payload" m) in
  if negb (match content_type r with
           | Some t => startsWith "application/json" (toLowerCase t) | None => false end)
  then invalid "content-type must be JSON"
  else if match req_length r with Some n => n >? MAX_TEXT | None => false end
  then invalid "request body too large"
  else if String.eqb (req_text r) "" || (slen (req_text r) >? MAX_TEXT)
  then invalid "request body empty or too large"
  else match JSON_parse (req_text r) with
       | Some v => inl v
       | None => invalid "request body is not JSON"
       end.

(** ** The routes *)
Section routes.
Context {P : Type} (payer_of : P → string) (JSON_parse : string → option jsval)
  (validate : jsval → P + thrown) (simulate : P → option thrown)
  (settle_payment : P → SettleResponse + thrown).

(** [service.validate(await readJson(c))] *)
Definition read_payment (r : HttpRequest) : P + thrown :=
  match readJson JSON_parse r with inl b => validate b | inr e => inr e end.

Definition verify_failed (e : thrown) : HttpAnswer :=
  match describeFailure e verify with
  | refused code => {| status := 200; json := JObj [("isValid", JBool false);
                                                    ("invalidReason", JStr code)] |}
  | _ => VERIFY_NOT_READY
  end.
Definition verify_route (r : HttpRequest) : HttpAnswer :=
  match read_payment r with
  | inr e => verify_failed e
  | inl p =>
      match simulate p with
      | Some e => verify_failed e
      | None => {| status := 200; json := JObj [("isValid", JBool true);
                                                ("payer", JStr (payer_of p))] |}
      end
  end.

Definition settle_failed (e : thrown) : HttpAnswer :=
  let answer tx code := {| status := 200;
    json := JObj [("success", JBool false); network_field; ("transaction", JStr tx);
                  ("errorReason", JStr code)] |} in
  match describeFailure e settle with
  | not_ready => SETTLE_NOT_READY
  | refused code => answer "" code
  | in_doubt tx => answer tx SETTLEMENT_PENDING
  end.
Definition settle_route (r : HttpRequest) : HttpAnswer :=
  match read_payment r with
  | inr e => settle_failed e
  | inl p =>
      match settle_payment p with
      | inl response => {| status := 200; json := settle_body response |}
      | inr e => settle_failed e
      end
  end.

(** ** The middleware: the limiter, then the readiness probe, then the route *)
Definition RATE_WINDOW_MS : Z := 3600000.
Definition SWEEP_EVERY : Z := 256.

Record LimitState := { limiter : FixedWindowLimiter; counted : Z }.

Definition rateLimitByIp (refusal : jsval) (now : Z) (r : HttpRequest) (s : LimitState)
    : option HttpAnswer * LimitState :=
  match match req_ip r with Some ip => Some ip | None => req_forwarded_ip r end with
  | None => (None, s)
  | Some ip =>
      let n := counted s + 1 in
      let l := if n mod SWEEP_EVERY =? 0 then sweep now (limiter s) else limiter s in
      let '(ok, l') := tryConsume ("ip:" ++ ipBucket ip) now l in
      (if ok : bool then None else Some {| status := 200; json := refusal |},
       {| limiter := l'; counted := n |})
  end.
(** [ready] tells whether the shared probe gave a reading. *)
Definition requireReadiness (ready : bool) (refusal : HttpAnswer) : option HttpAnswer :=
  if ready then None else Some refusal.

Definition serve (refusal : jsval) (not_ready_answer : HttpAnswer) (handler : HttpRequest → HttpAnswer)
    (now : Z) (ready : bool) (r : HttpRequest) (s : LimitState) : HttpAnswer * LimitState :=
  let '(limited, s') := rateLimitByIp refusal now r s in
  (match limited with
   | Some a => a
   | None => match requireReadiness ready not_ready_answer with
             | Some a => a
             | None => handler r
             end
   end, s').

Definition serve_verify := serve VERIFY_RATE_LIMITED VERIFY_NOT_READY verify_route.
Definition serve_settle := serve SETTLE_RATE_LIMITED SETTLE_NOT_READY settle_route.
End routes.

(** ** The seller's end of the wire

    [#call] of [packages/seller/src/index.ts]: a non-2xx answer carries no body. *)
Definition received (a : HttpAnswer) : Response :=
  if (200 <=? status a) && (status a <? 300)
  then {| reachable := true; body := json a |}
  else {| reachable := false; body := JUndefined |}.

(** What a failure truthfully says to a buyer. *)
Definition settle_meaning (e : thrown) : SettlementOutcome :=
  match describeFailure e settle with
  | not_ready => unavailable FACILITATOR_NOT_READY
  | in_doubt tx => unknown (Some tx)
  | refused code => if String.eqb code UNEXPECTED_SETTLE_ERROR then unknown None else failed code None
  end.
Definition verify_meaning (e : thrown) : VerificationOutcome :=
  match describeFailure e verify with
  | refused code => if String.eqb code UNEXPECTED_VERIFY_ERROR
                    then v_unavailable FACILITATOR_NOT_READY else v_rejected code
  | _ => v_unavailable FACILITATOR_NOT_READY
  end.

(** The codes thrown errors carry in this program: the six validation words, the two
    budget words, and a hash for a pending settlement. *)
Definition speaks (e : thrown) : Prop :=
  match e with
  | AnError (ValidationError w) _ _ _ => w ∈ PaymentValidationReason
  | AnError (BudgetExceeded w) _ _ _ => w ∈ ["payer_budget_exhausted"; "budget_exhausted"]
  | AnError (SettlementPending tx) _ _ _ => TRANSACTION_HASH tx = true
  | _ => True
  end.

(** A resolved row, as the journal writes it: settled without a code, or a mined failure. *)
Definition resolved (r : SettleResponse) : Prop :=
  TRANSACTION_HASH (sr_transaction r) = true
  ∧ ((sr_success r = true ∧ sr_errorReason r = None)
     ∨ (sr_success r = false ∧ ∃ w, sr_errorReason r = Some w ∧ w ∈ MINED_REFUSAL_REASONS)).
Definition response_meaning (r : SettleResponse) : SettlementOutcome :=
  match sr_errorReason r with
  | None => settled (Some (sr_transaction r)) (sr_replayed r)
  | Some w => failed w (Some (sr_transaction r))
  end.

(** The words a refusal can carry out of [describeFailure]. *)
Definition refusal_words : list string :=
  [DELEGATION_REJECTED; "payer_budget_exhausted"; "budget_exhausted"] ++ PaymentValidationReason.

Lemma describe_words e r code :
  speaks e → describeFailure e r = refused code →
  code ∈ refusal_words ∨ code = unexpected_error r.
Proof.
  unfold refusal_words, describeFailure, rejected_or_unexpected. intros Hs Hd.
  destruct e as [|cls m det c]; [destruct (isRedemptionRevert _); injection Hd as <-; set_solver|].
  destruct cls; simpl in Hs; try done;
    try (injection Hd as <-; set_solver);
    destruct (isRedemptionRevert _); injection Hd as <-; set_solver.
Qed.

Lemma describe_hash e r tx :
  speaks e → describeFailure e r = in_doubt tx → TRANSACTION_HASH tx = true.
Proof.
  unfold describeFailure, rejected_or_unexpected. intros Hs Hd.
  destruct e as [|cls m det c]; [by destruct (isRedemptionRevert _)|].
  destruct cls; simpl in Hs; try done; try (by destruct (isRedemptionRevert _)). by injection Hd as <-.
Qed.

(** A refusal without a transaction is read back as the word it carries. *)
Lemma read_refusal `{Toolkit} code expected :
  code ∈ refusal_words ∨ code = UNEXPECTED_SETTLE_ERROR →
  decideSettlement {| reachable := true; body := JObj [("success", JBool false); network_field;
    ("transaction", JStr ""); ("errorReason", JStr code)] |} expected
  = if String.eqb code UNEXPECTED_SETTLE_ERROR then unknown None else failed code None.
Proof.
  unfold refusal_words, PaymentValidationReason. intros Hc.
  repeat (rewrite elem_of_app in Hc || rewrite elem_of_cons in Hc).
  destruct_or!; try (by apply not_elem_of_nil in Hc); subst code; vm_compute; reflexivity.
Qed.

Lemma read_verify_refusal `{Toolkit} code expected :
  code ∈ refusal_words ∨ code = UNEXPECTED_VERIFY_ERROR →
  decideVerification {| reachable := true; body := JObj [("isValid", JBool false);
    ("invalidReason", JStr code)] |} expected
  = if String.eqb code UNEXPECTED_VERIFY_ERROR then v_unavailable FACILITATOR_NOT_READY
    else v_rejected code.
Proof.
  unfold refusal_words, PaymentValidationReason. intros Hc.
  repeat (rewrite elem_of_app in Hc || rewrite elem_of_cons in Hc).
  destruct_or!; try (by apply not_elem_of_nil in Hc); subst code; vm_compute; reflexivity.
Qed.

Lemma read_pending `{Toolkit} tx expected :
  TRANSACTION_HASH tx = true →
  decideSettlement {| reachable := true; body := JObj [("success", JBool false); network_field;
    ("transaction", JStr tx); ("errorReason", JStr SETTLEMENT_PENDING)] |} expected
  = unknown (Some tx).
Proof. intros Ht. unfold decideSettlement. simpl. by rewrite Ht. Qed.

Lemma read_resolved `{Toolkit} r expected :
  resolved r → names_payer (JStr (sr_payer r)) expected = true →
  decideSettlement {| reachable := true; body := settle_body r |} expected = response_meaning r.
Proof.
  intros [Ht Hcase] Hp. unfold decideSettlement, settle_body, response_meaning.
  destruct Hcase as [[Hs He]|[Hs (w & He & Hw)]]; rewrite Hs, He.
  - simpl in Hp. destruct (sr_replayed r); simpl; rewrite Ht, Hp; done.
  - unfold MINED_REFUSAL_REASONS in Hw.
    apply elem_of_cons in Hw as [->|[->|Hw%not_elem_of_nil]%elem_of_cons]; [..|done];
      destruct (sr_replayed r); simpl; rewrite Ht; reflexivity.
Qed.

Lemma readJson_speaks parse r e : readJson parse r = inr e → speaks e.
Proof.
  unfold readJson. intros H. repeat case_match; simplify_eq; simpl; set_solver.
Qed.

Lemma read_payment_speaks {P} parse (validate : jsval → P + thrown) r e :
  (∀ b e, validate b = inr e → speaks e) →
  read_payment parse validate r = inr e → speaks e.
Proof.
  unfold read_payment. intros Hv. destruct (readJson parse r) as [b|e'] eqn:Hb; [apply Hv|].
  intros [= <-]. by eapply readJson_speaks.
Qed.

Lemma settle_failed_heard `{Toolkit} e expected :
  speaks e → decideSettlement (received (settle_failed e)) expected = settle_meaning e.
Proof.
  intros Hs. unfold settle_failed, settle_meaning.
  destruct (describeFailure e settle) as [|code|tx] eqn:Hd; [done|..].
  - apply read_refusal. apply (describe_words _ _ _ Hs Hd).
  - apply read_pending. by eapply describe_hash.
Qed.

Lemma verify_failed_heard `{Toolkit} e expected :
  speaks e → decideVerification (received (verify_failed e)) expected = verify_meaning e.
Proof.
  intros Hs. unfold verify_failed, verify_meaning.
  destruct (describeFailure e verify) as [|code|tx] eqn:Hd; [done| |done].
  apply read_verify_refusal. apply (describe_words _ _ _ Hs Hd).
Qed.

(** What the seller reads off [/settle] is what happened. Behind the limiter and the
    readiness gate, with errors that carry this program's words and resolved rows as the
    journal writes them: a limited or unready request is read as unavailable, a
    settlement or a mined failure with its hash and its replay mark, a broadcast whose
    result is not known as unknown with its hash, and every refusal formed before the
    broadcast as a failure without a transaction, never the reverse. *)
Theorem settle_read_truthfully `{Toolkit} {P} parse (validate : jsval → P + thrown)
    (settle_payment : P → SettleResponse + thrown) now ready r s expected :
  (∀ b e, validate b = inr e → speaks e) →
  (∀ p e, settle_payment p = inr e → speaks e) →
  (∀ p resp, settle_payment p = inl resp →
     resolved resp ∧ names_payer (JStr (sr_payer resp)) expected = true) →
  decideSettlement (received (serve_settle parse validate settle_payment now ready r s).1) expected
  = match (rateLimitByIp SETTLE_RATE_LIMITED now r s).1, ready, read_payment parse validate r with
    | Some _, _, _ => unavailable RATE_LIMITED
    | None, false, _ => unavailable FACILITATOR_NOT_READY
    | None, true, inr e => settle_meaning e
    | None, true, inl p => match settle_payment p with
                           | inl resp => response_meaning resp
                           | inr e => settle_meaning e end
    end.
Proof.
  intros Hv Hs Hr. unfold serve_settle, serve.
  destruct (rateLimitByIp SETTLE_RATE_LIMITED now r s) as [limited s'] eqn:Hl. cbn [fst].
  destruct limited as [a|].
  { unfold rateLimitByIp in Hl. repeat case_match; simplify_eq; reflexivity. }
  destruct ready; [|reflexivity]. cbn [requireReadiness]. unfold settle_route.
  destruct (read_payment parse validate r) as [p|e] eqn:Hp.
  - destruct (settle_payment p) as [resp|e] eqn:Hsp.
    + destruct (Hr p resp Hsp) as [Hres Hname]. by apply read_resolved.
    + apply settle_failed_heard. by eapply Hs.
  - apply settle_failed_heard. by eapply read_payment_speaks.
Qed.

(** What the seller reads off [/verify] is the verdict that was formed. The payment is
    accepted exactly when it was validated and simulated for the payer the seller
    expects; a refusal keeps its word; a limited, unready or interrupted request, or an
    unexpected error, is unavailable and never a refused delegation. *)
Theorem verify_read_truthfully `{Toolkit} {P} (payer_of : P → string) parse
    (validate : jsval → P + thrown) (simulate : P → option thrown) now ready r s expected :
  (∀ b e, validate b = inr e → speaks e) →
  (∀ p e, simulate p = Some e → speaks e) →
  decideVerification (received (serve_verify payer_of parse validate simulate now ready r s).1) expected
  = match (rateLimitByIp VERIFY_RATE_LIMITED now r s).1, ready, read_payment parse validate r with
    | Some _, _, _ => v_unavailable RATE_LIMITED
    | None, false, _ => v_unavailable FACILITATOR_NOT_READY
    | None, true, inr e => verify_meaning e
    | None, true, inl p => match simulate p with
        | Some e => verify_meaning e
        | None => if names_payer (JStr (payer_of p)) expected then v_accepted expected
                  else v_rejected DELEGATION_REJECTED end
    end.
Proof.
  intros Hv Hs. unfold serve_verify, serve.
  destruct (rateLimitByIp VERIFY_RATE_LIMITED now r s) as [limited s'] eqn:Hl. cbn [fst].
  destruct limited as [a|].
  { unfold rateLimitByIp in Hl. repeat case_match; simplify_eq; reflexivity. }
  destruct ready; [|reflexivity]. cbn [requireReadiness]. unfold verify_route.
  destruct (read_payment parse validate r) as [p|e] eqn:Hp.
  - destruct (simulate p) as [e|] eqn:Hsp.
    + apply verify_failed_heard. by eapply Hs.
    + unfold decideVerification, isVerificationAccepted. simpl.
      by destruct (isAddress (payer_of p) && _).
  - apply verify_failed_heard. by eapply read_payment_speaks.
Qed.

(** ** [CachedProbe]: one reading per window

    [running] stands for the pending promise; the segments of [read] and [#run] are the
    steps, and the log keeps, newest first, when probes started and finished. *)
Record Probe (A : Type) := {
  ttlMs : Z; cacheFailures : bool; settled_reading : option (Z * (A + thrown)); running : bool;
}.
Arguments ttlMs {A}. Arguments cacheFailures {A}. Arguments settled_reading {A}. Arguments running {A}.

Inductive ReadAnswer (A : Type) := fresh (o : A + thrown) | joins | starts_probe.
Arguments fresh {A}. Arguments joins {A}. Arguments starts_probe {A}.

Definition new_probe {A} (ttl : jsval) (cache : bool) : result (Probe A) :=
  match positive_integer ttl with
  | None => Throw (Error "ttlMs must be a positive integer")
  | Some t => Ok {| ttlMs := t; cacheFailures := cache; settled_reading := None; running := false |}
  end.
Definition keep_reading {A} (o : A + thrown) (now : Z) (p : Probe A) : Probe A :=
  {| ttlMs := ttlMs p; cacheFailures := cacheFailures p;
     settled_reading := Some (now + ttlMs p, o); running := running p |}.
Definition set_running {A} (b : bool) (p : Probe A) : Probe A :=
  {| ttlMs := ttlMs p; cacheFailures := cacheFailures p;
     settled_reading := settled_reading p; running := b |}.
Definition prime {A} (value : A) (now : Z) (p : Probe A) : Probe A := keep_reading (inl value) now p.

Definition read_probe {A} (now : Z) (p : Probe A) : ReadAnswer A * Probe A :=
  let share := if running p then (joins, p) else (starts_probe, set_running true p) in
  match settled_reading p with
  | Some (until, o) => if now <? until then (fresh o, p) else share
  | None => share
  end.
(** The rest of [#run], once the probe answered. *)
Definition finish_probe {A} (o : A + thrown) (now : Z) (p : Probe A) : Probe A :=
  set_running false
    (match o with
     | inl _ => keep_reading o now p
     | inr _ => if cacheFailures p then keep_reading o now p else p
     end).

Inductive probe_event := Started (t : Z) | Finished (t : Z) (kept : bool).
Definition is_inl {A B} (o : A + B) : bool := match o with inl _ => true | inr _ => false end.
Inductive probe_step {A} : Probe A * list probe_event * Z → Probe A * list probe_event * Z → Prop :=
  | probe_read p log t now a p' :
      t <= now → read_probe now p = (a, p') →
      probe_step (p, log, t)
        (p', match a with starts_probe => Started now :: log | _ => log end, now)
  | probe_finish p log t now o :
      t <= now → running p = true →
      probe_step (p, log, t)
        (finish_probe o now p, Finished now (is_inl o || cacheFailures p) :: log, now).

(** Starts and finishes alternate, and no start falls within a kept reading's window. *)
Fixpoint well_spaced (ttl : Z) (l : list probe_event) : Prop :=
  match l with
  | Started t' :: l' =>
      match l' with
      | Finished t kept :: _ => (kept = true → t + ttl <= t') ∧ well_spaced ttl l'
      | [] => True
      | Started _ :: _ => False
      end
  | Finished _ _ :: l' => match l' with Started _ :: _ => well_spaced ttl l' | _ => False end
  | [] => True
  end.
Definition in_flight (l : list probe_event) : bool :=
  match l with Started _ :: _ => true | _ => false end.

Definition probe_ok {A} (ttl : Z) (s : Probe A * list probe_event * Z) : Prop :=
  let '(p, log, t) := s in
  ttlMs p = ttl ∧ well_spaced ttl log ∧ running p = in_flight log
  ∧ match log with
    | Finished t' true :: _ => ∃ o, settled_reading p = Some (t' + ttl, o)
    | _ => True
    end.

(** However reads interleave with a slow probe, at most one probe is in flight, and none
    starts while the last kept reading is fresh. *)
Theorem probe_one_in_flight {A} ttl cache (p0 : Probe A) t0 p log t :
  new_probe (JNum ttl) cache = Ok p0 →
  star probe_step (p0, [], t0) (p, log, t) →
  well_spaced ttl log ∧ running p = in_flight log.
Proof.
  intros Hnew Hstar.
  assert (Hinit : probe_ok ttl (p0, [], t0)).
  { unfold new_probe, positive_integer in Hnew. destruct (ttl <? 1); [done|].
    injection Hnew as <-. by split_and!. }
  assert (Hok : probe_ok ttl (p, log, t)); [|by destruct Hok as (_ & ? & ? & _)].
  revert Hinit Hstar. apply star_invariant. clear.
  intros [[p log] t] [[p' log'] t'] (Ht & Hw & Hr & Hk) Hstep.
  inversion Hstep as [? ? ? ? a ? Hle Hread|? ? ? ? o Hle Hrun]; subst.
  - unfold read_probe in Hread.
    assert (Hstart : running p = false →
      match settled_reading p with Some (until, _) => until <= t' | None => True end →
      probe_ok (ttlMs p) (set_running true p, Started t' :: log, t')).
    { intros Hnr Hexp. rewrite Hnr in Hr. split_and!; try done.
      destruct log as [|[s|s k] log]; [done|done|]. split; [|done]. intros ->.
      destruct Hk as [o Hs]. by rewrite Hs in Hexp. }
    destruct (settled_reading p) as [[until o]|] eqn:Hs.
    + destruct (Z.ltb_spec t' until); [|destruct (running p) eqn:Hrun]; injection Hread as <- <-.
      1,2: split_and!; try done; congruence || by rewrite Hs.
      apply Hstart; [done|lia].
    + destruct (running p) eqn:Hrun; injection Hread as <- <-.
      * split_and!; try done; congruence || by rewrite Hs.
      * by apply Hstart.
  - rewrite Hrun in Hr. destruct log as [|[s|s k] log]; try done.
    unfold finish_probe. destruct o as [v|e]; simpl; [split_and!; eauto|].
    destruct (cacheFailures p); split_and!; eauto.
Qed.

(** ** A request, from the header to the seller's reading *)

(** [service.validate], with the class of what it throws. *)
Definition boundary `{Toolkit} (options : Options) (b : jsval) : ValidatedDelegatedPayment + thrown :=
  match validateDelegatedPayment b options with
  | Ok v => inl v
  | Throw e => inr (if bool_decide (err_name e ∈ PaymentValidationReason)
                    then validation_error (err_name e) (err_message e)
                    else AnError PlainError (err_message e) None NotAnError)
  end.

Lemma boundary_speaks `{Toolkit} options b e : boundary options b = inr e → speaks e.
Proof.
  unfold boundary. destruct (validateDelegatedPayment b options); [done|]. intros [= <-].
  by destruct (bool_decide_reflect (err_name e0 ∈ PaymentValidationReason)).
Qed.

Definition ex_http : HttpRequest :=
  {| req_ip := Some "2001:DB8::1"; req_forwarded_ip := None;
     content_type := Some "application/json"; req_length := None; req_text := "{}" |}.
Definition ex_parse (s : string) : option jsval := Some (ex_request ex_delegator).
Definition ex_limit_state : LimitState :=
  {| limiter := {| limit := 1; windowMs := RATE_WINDOW_MS; hits := ∅ |}; counted := 0 |}.
Definition ex_tx : string := test_hash "tx".
Definition ex_lost (p : ValidatedDelegatedPayment) : SettleResponse + thrown :=
  inr (AnError (SettlementPending ex_tx) "redemption broadcast but not confirmed" None NotAnError).

Lemma settle_read_truthfully_witness :
  decideSettlement (received (serve_settle ex_parse (boundary ex_options) ex_lost 5 true ex_http
    ex_limit_state).1) ex_delegator = unknown (Some ex_tx).
Proof.
  rewrite (settle_read_truthfully ex_parse (boundary ex_options) ex_lost 5 true ex_http ex_limit_state
    ex_delegator).
  - vm_compute. reflexivity.
  - exact (boundary_speaks ex_options).
  - intros p e [= <-]. vm_compute. reflexivity.
  - intros p resp H. discriminate H.
Defined.

Lemma verify_read_truthfully_witness :
  decideVerification (received (serve_verify X402.payer ex_parse (boundary ex_options) (λ _, None)
    5 true ex_http ex_limit_state).1) ex_delegator = v_accepted ex_delegator.
Proof.
  rewrite (verify_read_truthfully X402.payer ex_parse (boundary ex_options) (λ _, None) 5 true ex_http
    ex_limit_state ex_delegator).
  - vm_compute. reflexivity.
  - exact (boundary_speaks ex_options).
  - intros p e H. discriminate H.
Defined.

(** A revert whose text says "rate limit exceeded" is the chain's answer, not an outage. *)
Example ex_revert_text :
  describeFailure (beforeBroadcast (AnError PlainError "call failed" None
    (AnError ContractFunctionRevertedError "rate limit exceeded" None NotAnError))) settle
  = refused DELEGATION_REJECTED.
Proof. vm_compute. reflexivity. Qed.
Example ex_rate_limited :
  describeFailure (beforeBroadcast (AnError PlainError "status: 429" None NotAnError)) verify = not_ready.
Proof. vm_compute. reflexivity. Qed.
Example ex_not_429 :
  isRateLimitError (AnError PlainError "have 429000000000000000" None NotAnError) = false.
Proof. vm_compute. reflexivity. Qed.
