(* ===== verification/Recovery.v ===== *)
(** * Settlement recovery

    [SettlementRecovery] of [apps/facilitator-erc7710/recovery.ts] and
    [PaymentIntentSingleFlight] of [packages/delegation/src/x402.ts], over the journal
    of [Settlement].  Requests interleave at every [await]: an operation is a state
    machine whose steps are the code between two awaits, the world holds the
    single-flight map, the preparation queue, the journal and what was handed to the
    network.  The RPC, the signer and the receipts are the replies of [reply]; a crash
    loses everything but the journal. *)

From Stdlib Require Import ZArith Lia Ascii String.
From stdpp Require Import base gmap strings list sets.
From S2P Require Import Prelude Toolkit Budget Guards Ledger Settlement.
Open Scope string_scope.
Open Scope Z_scope.

Record RecoveryPayment := { p_id : string; p_payer : string; p_payTo : string; p_amount : Z }.

Record RecoveryReceipt := {
  transactionHash : string; r_gasUsed : jsval; r_price : jsval; r_l1Fee : jsval;
}.

(** What [parseTransaction] reads off serialized bytes. *)
Record ParsedTransaction := {
  tx_type : string; tx_chainId : option Z; tx_nonce : option Z; tx_gas : option Z;
  tx_maxFee : option Z; tx_priority : option Z;
}.

Inductive Outcome :=
  | Returned (record : SettlementRecord) (replayed : bool)
  | Failed (e : thrown).

(** Where the second half of an operation, which owns a claim, is waiting. *)
Inductive Stage := Prepared | AskReceipt | AskRestore | AskSend | AskWait.

Inductive OpState :=
  | Registered
  | Queued
  | AskNonce
  | AskPrepare (nonce : Z)
  | Held (stage : Stage) (record : SettlementRecord) (replayed : bool)
  | OpDone (o : Outcome)
  | Dead.

(** An operation, whether the call that owns it still waits, and how many coalesced
    calls do. *)
Record Op := { payment : RecoveryPayment; state : OpState; owner_waits : bool; joined : nat }.
Definition with_state (st : OpState) (o : Op) : Op :=
  {| payment := payment o; state := st; owner_waits := owner_waits o; joined := joined o |}.
Definition with_owner (b : bool) (o : Op) : Op :=
  {| payment := payment o; state := state o; owner_waits := b; joined := joined o |}.
Definition with_joined (n : nat) (o : Op) : Op :=
  {| payment := payment o; state := state o; owner_waits := owner_waits o; joined := n |}.
Definition kill (o : Op) : Op :=
  {| payment := payment o; state := Dead; owner_waits := false; joined := O |}.

Record World := {
  journal : JournalDb;
  inflight : gmap string nat;
  preparing : list nat;
  ops : list Op;
  wire : list (nat * string);
  answers : list (string * Outcome);
}.

(** The reply to the pending [await] of an operation. *)
Inductive Reply :=
  | Continue
  | GotNonce (pending : Z)
  | GotTransaction (serialized : string)
  | GotReceipt (r : option RecoveryReceipt)
  | GotHash
  | Threw (e : thrown).

Section recovery.
Context `{Toolkit} (parseTransaction : string → result ParsedTransaction)
  (failure : RecoveryReceipt → result (option string)) (show : Z → string)
  (signer_ : string) (chain : Z) (limits : SettlementLimits).

(** A [js_error] of the journal as the object a handler tests. *)
Definition raised (e : js_error) : thrown :=
  AnError (if String.eqb (err_name e) "SettlementBudgetExceeded" then BudgetExceeded (err_message e)
           else PlainError) (err_message e) None NotAnError.
Definition storage_unavailable (e : js_error) : thrown :=
  AnError SettlementStorageUnavailable "settlement storage unavailable" None (raised e).
Definition settlement_pending (hash : string) : Outcome :=
  Failed (AnError (SettlementPending hash) "redemption broadcast but not confirmed" None NotAnError).

(** [known]: the row of an intent; an unreadable journal is not a verdict. *)
Definition known (intent : string) (j : JournalDb) : option SettlementRecord + thrown :=
  match read intent j with Ok (r, _) => inl r | Throw e => inr (storage_unavailable e) end.

(** The preparation, up to its first await. *)
Definition prep_start (p : RecoveryPayment) (j : JournalDb) : OpState :=
  match known (p_id p) j with
  | inr e => OpDone (Failed e)
  | inl (Some existing) => Held Prepared existing true
  | inl None => AskNonce
  end.

(** The bytes must be the envelope that was allocated. *)
Definition matches_envelope (t : ParsedTransaction) (n : Z) : option (Z * Z * Z) :=
  if String.eqb (tx_type t) "eip1559" && bool_decide (tx_chainId t = Some chain)
     && bool_decide (tx_nonce t = Some n)
  then match tx_gas t, tx_maxFee t, tx_priority t with
       | Some g, Some f, Some pr => Some (g, f, pr)
       | _, _, _ => None
       end
  else None.

Definition claim_input (p : RecoveryPayment) (n : Z) (fees : Z * Z * Z) (ser : string) (now : Z)
    : SettlementInput :=
  let '(g, f, pr) := fees in
  {| envelope := {| signer := signer_; chainId := chain; nonce := n; gas := g;
                    maxFeePerGas := f; maxPriorityFeePerGas := pr |};
     paymentIntentId := p_id p; txHash := keccak256 ser; Settlement.payer := p_payer p;
     Settlement.payTo := p_payTo p; amountBase := p_amount p; createdAt := now |}.

(** [journal.claim], with its two ways to fail. *)
Definition claim_or_fail (i : SettlementInput) (j : JournalDb) : OpState * JournalDb :=
  match claim i limits j with
  | Ok (record, j') => (Held Prepared record false, j')
  | Throw e => (OpDone (Failed (if String.eqb (err_name e) "SettlementBudgetExceeded"
                                then raised e else storage_unavailable e)), j)
  end.

(** The accounting of a receipt; every throw leaves the claim pending. *)
Definition positive_bigint (v : jsval) : bool := match v with JBig z => 0 <? z | _ => false end.
Definition is_bigint (v : jsval) : bool := match v with JBig _ => true | _ => false end.
Definition receipt_cost (r : RecoveryReceipt) : result Z :=
  throws negb (positive_bigint (r_gasUsed r)) || negb (is_bigint (r_price r)) with
    Error "missing receipt fees";
  let? g := readReceiptFeeField show (r_gasUsed r) in
  let? f := readReceiptFeeField show (r_price r) in
  let? l := readReceiptFeeField show (r_l1Fee r) in
  Ok (g * f + l).
Definition gas_used (r : RecoveryReceipt) : Z := match r_gasUsed r with JBig z => z | _ => 0 end.

Definition finish_receipt (record : SettlementRecord) (replayed : bool) (r : RecoveryReceipt)
    (now : Z) (j : JournalDb) : OpState * JournalDb :=
  let pending := (OpDone (settlement_pending (txHash (rec_input record))), j) in
  if negb (String.eqb (toLowerCase (transactionHash r)) (txHash (rec_input record))) then pending
  else
    match receipt_cost r with
    | Throw _ => pending
    | Ok cost =>
        match failure r with
        | Throw _ => pending
        | Ok code =>
            match finish (paymentIntentId (rec_input record))
                    {| fin_at := now; fin_gasUsed := gas_used r; fin_actualCost := cost;
                       fin_errorCode := code |} j with
            | Ok (finished, j') => (OpDone (Returned finished replayed), j')
            | Throw _ => pending
            end
        end
    end.

(** One segment of an operation: its next state, the journal after it, and the bytes it
    handed to the network. [None] when the reply is not the one awaited. *)
Definition op_reply (p : RecoveryPayment) (st : OpState) (r : Reply) (now : Z) (j : JournalDb)
    : option (OpState * JournalDb * option string) :=
  match st, r with
  | AskNonce, GotNonce pending =>
      Some (match nextNonce signer_ chain pending j with
            | Ok n => AskPrepare n
            | Throw e => OpDone (Failed (storage_unavailable e))
            end, j, None)
  | AskNonce, Threw e | AskPrepare _, Threw e => Some (OpDone (Failed e), j, None)
  | AskPrepare n, GotTransaction ser =>
      match parseTransaction ser with
      | Throw e => Some (OpDone (Failed (raised e)), j, None)
      | Ok t =>
          match matches_envelope t n with
          | None => Some (OpDone (Failed (raised (Error
                      "prepared transaction does not match the allocated envelope"))), j, None)
          | Some fees => Some (claim_or_fail (claim_input p n fees ser now) j, None)
          end
      end
  | Held Prepared record replayed, Continue =>
      Some (match terminal record with
            | Some _ => OpDone (Returned record replayed)
            | None => Held AskReceipt record replayed
            end, j, None)
  | Held AskReceipt record replayed, GotReceipt (Some receipt)
  | Held AskWait record replayed, GotReceipt (Some receipt) =>
      Some (finish_receipt record replayed receipt now j, None)
  | Held AskReceipt record replayed, GotReceipt None => Some (Held AskRestore record replayed, j, None)
  | Held AskRestore record replayed, GotTransaction ser =>
      if String.eqb (keccak256 ser) (txHash (rec_input record))
      then Some (Held AskSend record replayed, j, Some ser)
      else Some (OpDone (settlement_pending (txHash (rec_input record))), j, None)
  | Held AskSend record replayed, (GotHash | Threw _) => Some (Held AskWait record replayed, j, None)
  | Held (AskReceipt | AskRestore | AskWait) record replayed, Threw _ =>
      Some (OpDone (settlement_pending (txHash (rec_input record))), j, None)
  | _, _ => None
  end.

(** The states an operation has while it holds the head of the preparation queue. *)
Definition asking (st : OpState) : bool :=
  match st with AskNonce | AskPrepare _ => true | _ => false end.

(** [{...result, replayed: true}] for a coalesced call. *)
Definition mark (o : Outcome) : Outcome :=
  match o with Returned r _ => Returned r true | Failed e => Failed e end.

Definition put_op (i : nat) (o : Op) (w : World) : list Op := <[i := o]> (ops w).
Definition leave_queue (was_asking : bool) (st : OpState) (q : list nat) : list nat :=
  if was_asking && negb (asking st) then tail q else q.

Inductive world_step (w : World) : World → Prop :=
  (** [run] finds an operation for the intent and joins it. *)
  | step_join p i o :
      inflight w !! p_id p = Some i → ops w !! i = Some o →
      world_step w {| journal := journal w; inflight := inflight w; preparing := preparing w;
        ops := put_op i (with_joined (S (joined o)) o) w; wire := wire w; answers := answers w |}
  (** [run] registers a new operation before anything of it executes. *)
  | step_register p :
      inflight w !! p_id p = None →
      world_step w {| journal := journal w;
        inflight := <[p_id p := length (ops w)]> (inflight w); preparing := preparing w;
        ops := (ops w ++ [{| payment := p; state := Registered; owner_waits := true;
                             joined := O |}])%list;
        wire := wire w; answers := answers w |}
  (** The operation executes: it takes its place in the preparation queue. *)
  | step_execute i o :
      ops w !! i = Some o → state o = Registered →
      world_step w {| journal := journal w; inflight := inflight w;
        preparing := (preparing w ++ [i])%list; ops := put_op i (with_state Queued o) w;
        wire := wire w; answers := answers w |}
  (** Its turn to prepare. *)
  | step_prepare i o rest :
      ops w !! i = Some o → state o = Queued → preparing w = i :: rest →
      let st := prep_start (payment o) (journal w) in
      world_step w {| journal := journal w; inflight := inflight w;
        preparing := leave_queue true st (preparing w); ops := put_op i (with_state st o) w;
        wire := wire w; answers := answers w |}
  (** A reply resumes it. *)
  | step_reply i o r now st j sent :
      ops w !! i = Some o → op_reply (payment o) (state o) r now (journal w) = Some (st, j, sent) →
      world_step w {| journal := j; inflight := inflight w;
        preparing := leave_queue (asking (state o)) st (preparing w);
        ops := put_op i (with_state st o) w;
        wire := (wire w ++ match sent with Some ser => [(i, ser)] | None => [] end)%list;
        answers := answers w |}
  (** The owner's call returns, and forgets the operation. *)
  | step_owner i o out :
      ops w !! i = Some o → state o = OpDone out → owner_waits o = true →
      world_step w {| journal := journal w;
        inflight := if bool_decide (inflight w !! p_id (payment o) = Some i)
                    then delete (p_id (payment o)) (inflight w) else inflight w;
        preparing := preparing w; ops := put_op i (with_owner false o) w; wire := wire w;
        answers := (answers w ++ [(p_id (payment o), out)])%list |}
  (** A coalesced call returns. *)
  | step_joined i o out n :
      ops w !! i = Some o → state o = OpDone out → joined o = S n →
      world_step w {| journal := journal w; inflight := inflight w; preparing := preparing w;
        ops := put_op i (with_joined n o) w; wire := wire w;
        answers := (answers w ++ [(p_id (payment o), mark out)])%list |}
  (** The ledger's other writers: refusals are recorded and pruned. *)
  | step_record i e j :
      on_events (record i) (journal w) = Ok (e, j) →
      world_step w {| journal := j; inflight := inflight w; preparing := preparing w;
        ops := ops w; wire := wire w; answers := answers w |}
  | step_prune before keep n j :
      on_events (prune_events before keep) (journal w) = Ok (n, j) →
      world_step w {| journal := j; inflight := inflight w; preparing := preparing w;
        ops := ops w; wire := wire w; answers := answers w |}
  (** The process dies and starts again. *)
  | step_crash :
      world_step w {| journal := journal w; inflight := ∅; preparing := [];
        ops := kill <$> ops w; wire := wire w; answers := answers w |}.

Definition boot (j : JournalDb) : World :=
  {| journal := j; inflight := ∅; preparing := []; ops := []; wire := []; answers := [] |}.
End recovery.

(** ** What the journal promises this component *)

Definition same_rows (j j' : JournalDb) : Prop :=
  (∀ k row, settlement_intents j !! k = Some row →
     ∃ row', settlement_intents j' !! k = Some row' ∧ row_input row' = row_input row)
  ∧ (∀ k, settlement_intents j !! k = None → settlement_intents j' !! k = None).

Lemma same_rows_refl j : same_rows j j.
Proof. split; eauto. Qed.

Lemma on_events_rows {A} (m : tx events A) j a j' :
  on_events m j = Ok (a, j') → same_rows j j'.
Proof.
  unfold on_events. destruct (m (settlement_events j)) as [[x t]|]; [|done].
  intros [= _ <-]. split; simpl; eauto.
Qed.

Lemma finish_rows id res j rec j' :
  journal_ok j → finish id res j = Ok (rec, j') →
  same_rows j j'
  ∧ ∃ row', settlement_intents j' !! toLowerCase id = Some row' ∧ rec_input rec = row_input row'
            ∧ rec = to_record j' row' ∧ is_Some (terminal_event_id row').
Proof.
  intros Hok Hf.
  destruct (finish_cases _ _ _ _ _ Hok Hf) as (r & Hr & Hk & [(-> & -> & Ht)|(Ht & -> & -> & _)]).
  - split; [apply same_rows_refl|]. eauto.
  - set (row' := finished_row r res (next_rowid (ev_id <$> settlement_events j))).
    assert (Hi : settlement_intents (charge_finish r res j)
      = <[toLowerCase id := row']> (settlement_intents j)) by (by rewrite <- Hk).
    split; [split; intros k; rewrite Hi|].
    + intros row Hrow. destruct (decide (k = toLowerCase id)) as [->|Hne].
      * exists row'. rewrite lookup_insert_eq. split; [done|]. simpl. congruence.
      * exists row. by rewrite lookup_insert_ne.
    + intros Hnone. rewrite lookup_insert_ne; [done|congruence].
    + exists row'. rewrite Hi, lookup_insert_eq. split_and!; [done..|by eexists].
Qed.

Lemma claim_row input limits j rec j' :
  settlement_intents j !! toLowerCase (paymentIntentId input) = None →
  claim input limits j = Ok (rec, j') →
  ∃ row, settlement_intents j' = <[toLowerCase (paymentIntentId input) := row]> (settlement_intents j)
    ∧ rec_input rec = row_input row ∧ txHash (row_input row) = toLowerCase (txHash input)
    ∧ rec = to_record j' row ∧ terminal_event_id row = None.
Proof.
  intros Hnone Hc. destruct (claim_fresh _ _ _ _ _ Hnone Hc)
    as (row & day & Hrow & _ & -> & _ & _ & _ & _ & _ & _ & _ & ->).
  destruct Hrow as (Hid & Htx & _ & _ & _ & _ & _ & _ & _ & Ht & _).
  exists row. unfold charge_claim. cbn [settlement_intents]. by rewrite Hid.
Qed.

(** ** Reading the states *)
Definition key (o : Op) : string := toLowerCase (p_id (payment o)).

(** The record an operation holds, and whether the row predates it. *)
Definition held (st : OpState) : option (SettlementRecord * bool) :=
  match st with
  | Held _ r b => Some (r, b)
  | OpDone (Returned r b) => Some (r, b)
  | _ => None
  end.
(** It has handed the bytes of [hash] to the network, or may have. *)
Definition after_send (hash : string) (st : OpState) : Prop :=
  match st with
  | Held AskSend _ _ | Held AskWait _ _ | OpDone (Returned _ _) | Dead => True
  | OpDone o => o = settlement_pending hash
  | _ => False
  end.

Definition is_unmarked (o : Outcome) : bool := match o with Returned _ b => negb b | Failed _ => false end.
Definition unmarked (k : string) (l : list (string * Outcome)) : Z :=
  Z.of_nat (length (List.filter (λ a, String.eqb (toLowerCase a.1) k && is_unmarked a.2) l)).
Definition unmarked_state (st : OpState) : bool :=
  match held st with Some (_, b) => negb b | None => false end.
(** The unmarked answer an operation may still give its owner. *)
Definition token (k : string) (o : Op) : Z :=
  if String.eqb (key o) k && unmarked_state (state o) && owner_waits o then 1 else 0.
Definition tokens (k : string) (w : World) : Z :=
  unmarked k (answers w) + Zsum (token k <$> ops w).

Lemma token_range k o : 0 <= token k o <= 1.
Proof. unfold token. destruct (_ && _); lia. Qed.

Lemma tokens_nonneg k l : 0 <= Zsum (token k <$> l).
Proof.
  apply Zsum_nonneg, Forall_fmap, Forall_forall. intros o _. apply token_range.
Qed.

Lemma unmarked_snoc k l i o :
  unmarked k (l ++ [(i, o)])%list
  = unmarked k l + (if String.eqb (toLowerCase i) k && is_unmarked o then 1 else 0).
Proof.
  unfold unmarked. rewrite List.filter_app, length_app. cbn [List.filter fst snd].
  destruct (_ && is_unmarked o); simpl; lia.
Qed.

Section proofs.
Context `{Toolkit} `{!ToolkitLaws _} (parseTransaction : string → result ParsedTransaction)
  (failure : RecoveryReceipt → result (option string)) (show : Z → string)
  (signer_ : string) (chain : Z) (limits : SettlementLimits).
Notation reply_of := (op_reply parseTransaction failure show signer_ chain limits).
Notation step := (world_step parseTransaction failure show signer_ chain limits).

(** *** One reply *)

(** Before a record is held: the journal only changes by this operation's claim. *)
Definition asked (p : RecoveryPayment) (j : JournalDb) (st' : OpState) (j' : JournalDb) : Prop :=
  (held st' = None ∧ j' = j)
  ∨ (∃ input rec, st' = Held Prepared rec false ∧ paymentIntentId input = p_id p
       ∧ claim input limits j = Ok (rec, j')).

Lemma reply_asking p st r now j st' j' sent :
  asking st = true → reply_of p st r now j = Some (st', j', sent) →
  asked p j st' j' ∧ sent = None.
Proof.
  intros Ha Hr. unfold asked.
  destruct st as [| | |n| | |]; try done; destruct r as [|pending|ser|rc| |e]; try discriminate Hr;
    cbn [op_reply] in Hr.
  - injection Hr as <- <- <-. split; [left|done]. by destruct (nextNonce _ _ _ _).
  - injection Hr as <- <- <-. split; [by left|done].
  - destruct (parseTransaction ser) as [t|e]; [|injection Hr as <- <- <-; split; [by left|done]].
    destruct (matches_envelope chain t n) as [[[g f] pr]|];
      [|injection Hr as <- <- <-; split; [by left|done]].
    injection Hr as Hc <-. split; [|done]. unfold claim_or_fail in Hc.
    match type of Hc with context [claim ?i limits j] =>
      destruct (claim i limits j) as [[rec j1]|e] eqn:Hcl; injection Hc as <- <-; [right|by left] end.
    do 2 eexists. split_and!; [done| |exact Hcl]. done.
  - injection Hr as <- <- <-. split; [by left|done].
Qed.

(** While a record is held: the row stays, and what happens next is about it. *)
Definition carried (k : string) (rec : SettlementRecord) (b : bool) (st st' : OpState)
    (j j' : JournalDb) (sent : option string) : Prop :=
  same_rows j j' ∧ asking st' = false
  ∧ (∀ rec' b', st' = OpDone (Returned rec' b') → is_Some (terminal rec'))
  ∧ ((∃ rec' row', held st' = Some (rec', b) ∧ settlement_intents j' !! k = Some row'
        ∧ rec_input rec' = row_input row')
     ∨ st' = OpDone (settlement_pending (txHash (rec_input rec))))
  ∧ (after_send (txHash (rec_input rec)) st → after_send (txHash (rec_input rec)) st')
  ∧ (∀ ser, sent = Some ser → keccak256 ser = txHash (rec_input rec)
        ∧ after_send (txHash (rec_input rec)) st').

Lemma carried_pending k rec b st j :
  carried k rec b st (OpDone (settlement_pending (txHash (rec_input rec)))) j j None.
Proof. split_and!; try done; [apply same_rows_refl|by right]. Qed.

Lemma carried_held k rec b st stage j row sent :
  settlement_intents j !! k = Some row → rec_input rec = row_input row →
  (after_send (txHash (rec_input rec)) st → after_send (txHash (rec_input rec)) (Held stage rec b)) →
  (∀ ser, sent = Some ser → keccak256 ser = txHash (rec_input rec) ∧ stage = AskSend) →
  carried k rec b st (Held stage rec b) j j sent.
Proof.
  intros Hk Hrow Hafter Hsent. split_and!; try done; [apply same_rows_refl| |].
  - left. exists rec, row. done.
  - intros ser Hs. destruct (Hsent ser Hs) as [? ->]. done.
Qed.

Lemma finish_carried k rec b st receipt now j st' j' row :
  journal_ok j → settlement_intents j !! k = Some row → rec_input rec = row_input row →
  finish_receipt failure show rec b receipt now j = (st', j') →
  carried k rec b st st' j j' None.
Proof.
  intros Hok Hk Hrow Hf. unfold finish_receipt in Hf.
  destruct (negb _); [injection Hf as <- <-; apply carried_pending|].
  destruct (receipt_cost show receipt) as [cost|]; [|injection Hf as <- <-; apply carried_pending].
  destruct (failure receipt) as [code|]; [|injection Hf as <- <-; apply carried_pending].
  match type of Hf with context [finish ?i ?res j] =>
    destruct (finish i res j) as [[fin j1]|e] eqn:Hfin end; injection Hf as <- <-;
    [|apply carried_pending].
  destruct (finish_rows _ _ _ _ _ Hok Hfin) as (Hsame & row' & Hr' & Hin & Hfrec & Hterm).
  destruct (jok_key _ Hok _ _ Hk) as [Hid Hlow].
  pose proof (journal_step_ok _ _ Hok (step_finish _ _ _ _ _ Hfin)) as Hok1.
  assert (Ht : is_Some (terminal fin)).
  { rewrite Hfrec. destruct (terminal (to_record j1 row')) as [ev|] eqn:He; [by eexists|].
    apply (terminal_None _ _ _ Hok1 Hr') in He. destruct Hterm. congruence. }
  rewrite Hrow, Hid, Hlow in Hr'.
  split_and!; try done; [by intros ? ? [= <- _]|]. left. exists fin, row'. done.
Qed.

Lemma reply_held p st r now j st' j' sent k rec b row :
  journal_ok j → held st = Some (rec, b) →
  settlement_intents j !! k = Some row → rec_input rec = row_input row →
  reply_of p st r now j = Some (st', j', sent) →
  carried k rec b st st' j j' sent.
Proof.
  intros Hok Hh Hk Hrow Hr.
  destruct st as [| | | |stage rc bb|o|]; try done.
  injection Hh as -> ->.
  destruct stage, r as [| |ser|[receipt|]| |e]; try discriminate Hr; cbn [op_reply] in Hr.
  all: try (injection Hr as <- <- <-;
    first [apply carried_pending | eapply carried_held; [done..|by intros ?]]).
  - injection Hr as <- <- <-. destruct (terminal rec) eqn:Ht; [|by eapply carried_held].
    split_and!; [apply same_rows_refl|done| |left; exists rec, row; done|done|done].
    intros ? ? [= <- _]. by rewrite Ht.
  - injection Hr as Hf <-. by eapply finish_carried.
  - destruct (String.eqb_spec (keccak256 ser) (txHash (rec_input rec))) as [He|];
      injection Hr as <- <- <-; [|apply carried_pending].
    eapply carried_held; [done..|]. by intros ? [= <-].
  - injection Hr as Hf <-. by eapply finish_carried.
Qed.

(** *** Every history *)
Record recovery_ok (w : World) : Prop := {
  rok_journal : journal_ok (journal w);
  rok_asking : ∀ i o, ops w !! i = Some o → asking (state o) = true →
    head (preparing w) = Some i ∧ settlement_intents (journal w) !! key o = None;
  rok_held : ∀ i o rec b, ops w !! i = Some o → held (state o) = Some (rec, b) →
    ∃ row, settlement_intents (journal w) !! key o = Some row ∧ rec_input rec = row_input row;
  rok_done : ∀ i o rec b, ops w !! i = Some o → state o = OpDone (Returned rec b) →
    is_Some (terminal rec);
  rok_token : ∀ k, 0 < tokens k w → is_Some (settlement_intents (journal w) !! k);
  rok_one : ∀ k, tokens k w <= 1;
  rok_wire : ∀ i ser, (i, ser) ∈ wire w → ∃ o row,
    ops w !! i = Some o ∧ settlement_intents (journal w) !! key o = Some row
    ∧ keccak256 ser = txHash (row_input row) ∧ after_send (txHash (row_input row)) (state o);
  rok_answers : ∀ k rec b, (k, Returned rec b) ∈ answers w →
    is_Some (terminal rec) ∧ ∃ row, settlement_intents (journal w) !! toLowerCase k = Some row
      ∧ rec_input rec = row_input row;
}.

(** What a change of the journal and of one operation's state must satisfy. *)
Lemma recovery_ok_update w i o o' j' q wire' answers' :
  recovery_ok w → ops w !! i = Some o → payment o' = payment o →
  journal_ok j' →
  (∀ k row, settlement_intents (journal w) !! k = Some row →
     ∃ row', settlement_intents j' !! k = Some row' ∧ row_input row' = row_input row) →
  (∀ i' o', ops w !! i' = Some o' → i' ≠ i → asking (state o') = true →
     head q = Some i' ∧ settlement_intents j' !! key o' = None) →
  (asking (state o') = true → head q = Some i ∧ settlement_intents j' !! key o = None) →
  (∀ rec b, held (state o') = Some (rec, b) →
     ∃ row, settlement_intents j' !! key o = Some row ∧ rec_input rec = row_input row) →
  (∀ rec b, state o' = OpDone (Returned rec b) → is_Some (terminal rec)) →
  (∀ k, unmarked k answers' + token k o' <= unmarked k (answers w) + token k o
        ∨ (k = key o ∧ tokens k w = 0 ∧ unmarked k answers' = unmarked k (answers w)
           ∧ is_Some (settlement_intents j' !! k))) →
  (∀ row, settlement_intents (journal w) !! key o = Some row →
     after_send (txHash (row_input row)) (state o) → after_send (txHash (row_input row)) (state o')) →
  (∀ i' ser, (i', ser) ∈ wire' → (i', ser) ∈ wire w ∨
     (i' = i ∧ ∃ row, settlement_intents j' !! key o = Some row
        ∧ keccak256 ser = txHash (row_input row)
        ∧ after_send (txHash (row_input row)) (state o'))) →
  (∀ k rec b, (k, Returned rec b) ∈ answers' → (k, Returned rec b) ∈ answers w ∨
     (is_Some (terminal rec) ∧ ∃ row, settlement_intents j' !! toLowerCase k = Some row
        ∧ rec_input rec = row_input row)) →
  ∀ inflight', recovery_ok {| journal := j'; inflight := inflight'; preparing := q;
    ops := <[i := o']> (ops w); wire := wire'; answers := answers' |}.
Proof.
  intros Hok Hi Hpay Hj Hrows Hothers Hask Hheld Hdone Htok Hafter Hwire Hans inflight'.
  assert (Hkey : key o' = key o) by (unfold key; by rewrite Hpay).
  assert (Hlook : ∀ i' o'', <[i := o']> (ops w) !! i' = Some o'' →
    (i' = i ∧ o'' = o') ∨ (i' ≠ i ∧ ops w !! i' = Some o'')).
  { intros i' o'' Hl. apply list_lookup_insert_Some in Hl as [(-> & -> & _)|[? ?]]; auto. }
  assert (Htokens : ∀ k, unmarked k answers' + Zsum (token k <$> <[i := o']> (ops w)) <= tokens k w
    ∨ (unmarked k answers' + Zsum (token k <$> <[i := o']> (ops w)) <= 1
       ∧ is_Some (settlement_intents j' !! k))).
  { intros k. rewrite (Zsum_fmap_insert _ _ _ _ _ Hi). unfold tokens in *.
    destruct (Htok k) as [Hle|(-> & H0 & Heq & Hs)]; [left; lia|right].
    split; [|done]. pose proof (token_range (key o) o'). pose proof (token_range (key o) o). lia. }
  constructor; cbn [journal inflight preparing ops wire answers].
  - done.
  - intros i' o'' [[-> ->]|[Hne Hl]]%Hlook Ha; [rewrite Hkey; auto|by eapply Hothers].
  - intros i' o'' rec b [[-> ->]|[Hne Hl]]%Hlook Hh; [rewrite Hkey; eauto|].
    destruct (rok_held _ Hok _ _ _ _ Hl Hh) as (row & Hr & Hin).
    destruct (Hrows _ _ Hr) as (row' & Hr' & Hin'). exists row'. split; [done|congruence].
  - intros i' o'' rec b [[-> ->]|[Hne Hl]]%Hlook Hs; [eauto|by eapply rok_done].
  - intros k. unfold tokens. cbn [answers ops]. intros Hpos.
    destruct (Htokens k) as [Hle|[_ Hs]]; [|done].
    destruct (rok_token _ Hok k) as [row Hr]; [lia|].
    destruct (Hrows _ _ Hr) as (row' & -> & _). by eexists.
  - intros k. unfold tokens. cbn [answers ops]. pose proof (rok_one _ Hok k).
    destruct (Htokens k) as [Hle|[Hle _]]; lia.
  - intros i' ser [Hw|(-> & row & Hr & Hhash & Ha)]%Hwire.
    + destruct (rok_wire _ Hok _ _ Hw) as (o0 & row & Hl & Hr & Hhash & Ha).
      destruct (Hrows _ _ Hr) as (row' & Hr' & Hin).
      destruct (decide (i' = i)) as [->|Hne].
      * rewrite Hi in Hl. injection Hl as <-. exists o', row'.
        rewrite list_lookup_insert_eq by (by eapply lookup_lt_Some). rewrite Hkey, Hin.
        split_and!; eauto.
      * exists o0, row'. rewrite list_lookup_insert_ne by done. rewrite Hin. done.
    + exists o', row. rewrite list_lookup_insert_eq by (by eapply lookup_lt_Some).
      by rewrite Hkey.
  - intros k rec b [Ha|?]%Hans; [|done].
    destruct (rok_answers _ Hok _ _ _ Ha) as (Ht & row & Hr & Hin). split; [done|].
    destruct (Hrows _ _ Hr) as (row' & Hr' & Hin'). exists row'. split; [done|congruence].
Qed.

Lemma unmarked_nonneg k l : 0 <= unmarked k l.
Proof. unfold unmarked. lia. Qed.

Lemma read_lookup id j r :
  read id j = Ok (r, j) →
  (r = None ∧ settlement_intents j !! toLowerCase id = None)
  ∨ (∃ row, r = Some (to_record j row) ∧ settlement_intents j !! toLowerCase id = Some row).
Proof.
  intros (_ & -> & _)%read_ok. unfold read_row.
  destruct (settlement_intents j !! toLowerCase id) as [row|]; simpl; eauto.
Qed.

(** A step that leaves the journal and an operation's state alone. *)
Lemma same_state_ok w i o o' q answers' :
  recovery_ok w → ops w !! i = Some o → payment o' = payment o → state o' = state o →
  (∀ i' o', ops w !! i' = Some o' → asking (state o') = true → head q = Some i') →
  (∀ k, unmarked k answers' + token k o' <= unmarked k (answers w) + token k o) →
  (∀ k rec b, (k, Returned rec b) ∈ answers' → (k, Returned rec b) ∈ answers w ∨
     (toLowerCase k = key o ∧ ∃ b', state o = OpDone (Returned rec b'))) →
  ∀ inflight', recovery_ok {| journal := journal w; inflight := inflight'; preparing := q;
    ops := <[i := o']> (ops w); wire := wire w; answers := answers' |}.
Proof.
  intros Hok Hi Hpay Hst Hq Htok Hans inflight'.
  eapply (recovery_ok_update w i o o'); rewrite ?Hst; eauto using rok_journal.
  - intros i' o1 Hi' _ Ha. split; [eauto|]. by eapply rok_asking.
  - intros Ha. split; [eauto|]. by eapply rok_asking.
  - intros rec b Hh. by eapply rok_held.
  - intros rec b Hd. by eapply rok_done.
  - intros k rec b [?|(Hk & b' & Hd)]%Hans; [by left|right].
    split; [by eapply rok_done|]. rewrite Hk. eapply rok_held; eauto. by rewrite Hd.
Qed.

Lemma token_of k o :
  token k o = if String.eqb (key o) k && unmarked_state (state o) && owner_waits o then 1 else 0.
Proof. done. Qed.

Lemma unmarked_done out : unmarked_state (OpDone out) = is_unmarked out.
Proof. by destruct out. Qed.

Lemma join_ok w i o n q' :
  recovery_ok w → ops w !! i = Some o →
  recovery_ok {| journal := journal w; inflight := q'; preparing := preparing w;
    ops := put_op i (with_joined n o) w; wire := wire w; answers := answers w |}.
Proof.
  intros Hok Hi. eapply same_state_ok; eauto; [|done].
  intros i' o' Hi' Ha. by eapply rok_asking.
Qed.

Lemma owner_ok w i o out q' :
  recovery_ok w → ops w !! i = Some o → state o = OpDone out → owner_waits o = true →
  recovery_ok {| journal := journal w; inflight := q'; preparing := preparing w;
    ops := put_op i (with_owner false o) w; wire := wire w;
    answers := (answers w ++ [(p_id (payment o), out)])%list |}.
Proof.
  intros Hok Hi Hs Hw. eapply same_state_ok; eauto.
  - intros i' o' Hi' Ha. by eapply rok_asking.
  - intros k. rewrite unmarked_snoc, !token_of. simpl. rewrite Hs, Hw, unmarked_done.
    unfold key. simpl. rewrite andb_true_r, andb_false_r. simpl. lia.
  - intros k rec b [?|[= -> Hb]%list_elem_of_singleton]%elem_of_app; [by left|right].
    split; [done|]. exists b. by rewrite Hs, <- Hb.
Qed.

Lemma joined_ok w i o out n q' :
  recovery_ok w → ops w !! i = Some o → state o = OpDone out →
  recovery_ok {| journal := journal w; inflight := q'; preparing := preparing w;
    ops := put_op i (with_joined n o) w; wire := wire w;
    answers := (answers w ++ [(p_id (payment o), mark out)])%list |}.
Proof.
  intros Hok Hi Hs. eapply same_state_ok; eauto.
  - intros i' o' Hi' Ha. by eapply rok_asking.
  - intros k. rewrite unmarked_snoc.
    replace (is_unmarked (mark out)) with false by (by destruct out).
    rewrite andb_false_r. change (token k (with_joined n o)) with (token k o). lia.
  - intros k rec b [?|[= -> Hb]%list_elem_of_singleton]%elem_of_app; [by left|right].
    split; [done|]. destruct out as [r' b'|]; [|discriminate Hb].
    injection Hb as -> ->. eauto.
Qed.

Lemma execute_ok w i o :
  recovery_ok w → ops w !! i = Some o → state o = Registered →
  recovery_ok {| journal := journal w; inflight := inflight w;
    preparing := (preparing w ++ [i])%list; ops := put_op i (with_state Queued o) w;
    wire := wire w; answers := answers w |}.
Proof.
  intros Hok Hi Hs.
  eapply (recovery_ok_update w i o (with_state Queued o)); try done; try by left.
  - by apply rok_journal.
  - eauto.
  - intros i' o' Hi' _ Ha. destruct (rok_asking _ Hok _ _ Hi' Ha) as [Hh ?].
    split; [|done]. by destruct (preparing w).
  - intros k. left. rewrite !token_of. simpl. rewrite Hs. simpl. by rewrite !andb_false_r.
  - intros row _. by rewrite Hs.
Qed.

Lemma register_ok w p q' :
  recovery_ok w →
  recovery_ok {| journal := journal w; inflight := q'; preparing := preparing w;
    ops := (ops w ++ [{| payment := p; state := Registered; owner_waits := true; joined := O |}])%list;
    wire := wire w; answers := answers w |}.
Proof.
  intros Hok. set (new := {| payment := p; state := _; owner_waits := _; joined := _ |}).
  assert (Hlook : ∀ i o, (ops w ++ [new])%list !! i = Some o → state o ≠ Registered →
    ops w !! i = Some o).
  { intros i o [?|[_ Hn]]%lookup_app_Some Hs; [done|].
    apply list_lookup_singleton_Some in Hn as [_ <-]. by destruct Hs. }
  assert (Htok : ∀ k, unmarked k (answers w) + Zsum (token k <$> (ops w ++ [new])%list) = tokens k w).
  { intros k. rewrite fmap_app, Zsum_app.
    change (Zsum (token k <$> [new])) with (token k new + 0).
    rewrite (token_of k new). subst new. cbn [state unmarked_state held].
    rewrite andb_false_r. unfold tokens. simpl. lia. }
  constructor; unfold tokens; cbn [journal inflight preparing ops wire answers].
  - apply (rok_journal _ Hok).
  - intros i o Hi Ha. eapply rok_asking; eauto. apply Hlook; [done|]. intros Hs. by rewrite Hs in Ha.
  - intros i o rec b Hi Hh. eapply rok_held; eauto. apply Hlook; [done|]. intros Hs. by rewrite Hs in Hh.
  - intros i o rec b Hi Hh. eapply rok_done; eauto. apply Hlook; [done|]. intros Hs. by rewrite Hs in Hh.
  - intros k. rewrite Htok. apply (rok_token _ Hok).
  - intros k. rewrite Htok. apply (rok_one _ Hok).
  - intros i ser Hw. destruct (rok_wire _ Hok _ _ Hw) as (o & row & Hi & ?). exists o, row.
    split; [by apply lookup_app_l_Some|done].
  - apply (rok_answers _ Hok).
Qed.

Lemma journal_change_ok w j' :
  recovery_ok w → journal_ok j' → same_rows (journal w) j' →
  recovery_ok {| journal := j'; inflight := inflight w; preparing := preparing w; ops := ops w;
    wire := wire w; answers := answers w |}.
Proof.
  intros Hok Hj [Hrows Hnone].
  constructor; unfold tokens; cbn [journal inflight preparing ops wire answers].
  - done.
  - intros i o Hi Ha. destruct (rok_asking _ Hok _ _ Hi Ha). eauto.
  - intros i o rec b Hi Hh. destruct (rok_held _ Hok _ _ _ _ Hi Hh) as (row & Hr & Hin).
    destruct (Hrows _ _ Hr) as (row' & ? & ?). exists row'. split; congruence.
  - apply (rok_done _ Hok).
  - intros k Hk. destruct (rok_token _ Hok k Hk) as [row Hr].
    destruct (Hrows _ _ Hr) as (row' & -> & _). by eexists.
  - apply (rok_one _ Hok).
  - intros i ser Hw. destruct (rok_wire _ Hok _ _ Hw) as (o & row & Hi & Hr & Hh & Ha).
    destruct (Hrows _ _ Hr) as (row' & ? & Heq). exists o, row'. by rewrite Heq.
  - intros k rec b Ha. destruct (rok_answers _ Hok _ _ _ Ha) as (Ht & row & Hr & Hin).
    destruct (Hrows _ _ Hr) as (row' & ? & ?). split; [done|]. exists row'. split; congruence.
Qed.

Lemma crash_ok w :
  recovery_ok w →
  recovery_ok {| journal := journal w; inflight := ∅; preparing := []; ops := kill <$> ops w;
    wire := wire w; answers := answers w |}.
Proof.
  intros Hok.
  assert (Hdead : ∀ i o, (kill <$> ops w) !! i = Some o → state o = Dead).
  { intros i o (o' & -> & _)%list_lookup_fmap_Some_1. done. }
  assert (Htok : ∀ k, Zsum (token k <$> (kill <$> ops w)) = 0).
  { intros k. rewrite <- list_fmap_compose. apply Zsum_zero, Forall_fmap, Forall_forall.
    intros o _. cbn [compose]. rewrite token_of. cbn [kill state owner_waits]. by rewrite andb_false_r. }
  constructor; unfold tokens; cbn [journal inflight preparing ops wire answers].
  - apply (rok_journal _ Hok).
  - intros i o Hi Ha. by rewrite (Hdead _ _ Hi) in Ha.
  - intros i o rec b Hi Ha. by rewrite (Hdead _ _ Hi) in Ha.
  - intros i o rec b Hi Ha. by rewrite (Hdead _ _ Hi) in Ha.
  - intros k. rewrite Htok. intros Hk. apply (rok_token _ Hok). unfold tokens.
    pose proof (tokens_nonneg k (ops w)). lia.
  - intros k. rewrite Htok. pose proof (rok_one _ Hok k). unfold tokens in *.
    pose proof (tokens_nonneg k (ops w)). lia.
  - intros i ser Hw. destruct (rok_wire _ Hok _ _ Hw) as (o & row & Hi & Hr & Hh & _).
    exists (kill o), row. by rewrite list_lookup_fmap, Hi.
  - apply (rok_answers _ Hok).
Qed.

(** The head of the queue runs alone. *)
Lemma head_alone w q i i' o' :
  recovery_ok w → (preparing w = i :: q) → ops w !! i' = Some o' → asking (state o') = true → i' = i.
Proof.
  intros Hok Hq Hi' Ha. destruct (rok_asking _ Hok _ _ Hi' Ha) as [Hh _]. rewrite Hq in Hh.
  by injection Hh.
Qed.

Lemma prep_start_cases p j :
  (∃ e, prep_start p j = OpDone (Failed e))
  ∨ (prep_start p j = AskNonce ∧ settlement_intents j !! toLowerCase (p_id p) = None)
  ∨ (∃ row, prep_start p j = Held Prepared (to_record j row) true
       ∧ settlement_intents j !! toLowerCase (p_id p) = Some row).
Proof.
  unfold prep_start, known. destruct (read (p_id p) j) as [[r j']|e] eqn:Hr; [|by left; eauto].
  pose proof Hr as (_ & _ & ->)%read_ok.
  destruct (read_lookup _ _ _ Hr) as [[-> ?]|(row & -> & ?)]; [right; left|right; right]; eauto.
Qed.

Lemma prepare_ok w i o rest :
  recovery_ok w → ops w !! i = Some o → state o = Queued → preparing w = i :: rest →
  let st := prep_start (payment o) (journal w) in
  recovery_ok {| journal := journal w; inflight := inflight w;
    preparing := leave_queue true st (preparing w); ops := put_op i (with_state st o) w;
    wire := wire w; answers := answers w |}.
Proof.
  intros Hok Hi Hs Hq st.
  assert (Hcases := prep_start_cases (payment o) (journal w)). fold st in Hcases.
  eapply (recovery_ok_update w i o (with_state st o)); eauto using rok_journal;
    cbn [with_state state].
  - intros i' o' Hi' Hne Ha. destruct Hne. by eapply head_alone.
  - intros Ha. unfold leave_queue. rewrite Ha, Hq. split; [done|].
    destruct Hcases as [[e ->]|[[_ ?]|(row & -> & _)]]; done.
  - intros rec b Hh. destruct Hcases as [[e ->]|[[-> _]|(row & -> & Hrow)]]; try discriminate Hh.
    injection Hh as <- _. by exists row.
  - intros rec b Hd. by destruct Hcases as [[e He]|[[He _]|(row & He & _)]]; rewrite He in Hd.
  - intros k. left. rewrite !token_of. cbn [with_state state]. rewrite Hs.
    replace (unmarked_state st) with false;
      [cbn [unmarked_state held]; by rewrite !andb_false_r|].
    by destruct Hcases as [[e ->]|[[-> _]|(row & -> & _)]].
  - intros row _. by rewrite Hs.
Qed.

Lemma reply_asking_ok w i o r now st j sent :
  recovery_ok w → ops w !! i = Some o → asking (state o) = true →
  reply_of (payment o) (state o) r now (journal w) = Some (st, j, sent) →
  recovery_ok {| journal := j; inflight := inflight w;
    preparing := leave_queue (asking (state o)) st (preparing w);
    ops := put_op i (with_state st o) w;
    wire := (wire w ++ match sent with Some ser => [(i, ser)] | None => [] end)%list;
    answers := answers w |}.
Proof.
  intros Hok Hi Ha Hr. destruct (rok_asking _ Hok _ _ Hi Ha) as [Hq Hnone].
  destruct (preparing w) as [|i' q] eqn:Hprep; [done|]. injection Hq as ->.
  destruct (reply_asking _ _ _ _ _ _ _ _ Ha Hr) as [Hasked ->]. rewrite app_nil_r.
  assert (Hst : after_send "" (state o) → False) by (by destruct (state o)).
  assert (Hnot : ∀ hash, ¬ after_send hash (state o)) by (by destruct (state o)).
  assert (Hno : unmarked_state (state o) = false) by (by destruct (state o)).
  destruct Hasked as [[Hheld ->]|(input & rec & -> & Hid & Hclaim)].
  - eapply (recovery_ok_update w i o (with_state st o)); eauto using rok_journal;
      cbn [with_state state].
    + intros i' o' Hi' Hne Ha'. destruct Hne. by eapply head_alone.
    + intros Ha'. unfold leave_queue. by rewrite Ha, Ha'.
    + intros rec b Hh. congruence.
    + intros rec b Hd. by rewrite Hd in Hheld.
    + intros k. left. rewrite !token_of. cbn [with_state state]. rewrite Hno.
      replace (unmarked_state st) with false by (unfold unmarked_state; by rewrite Hheld).
      cbn [with_state owner_waits]. by rewrite !andb_false_r.
    + intros row _ Hx. by destruct (Hnot _ Hx).
  - pose proof (rok_journal _ Hok) as Hj.
    pose proof (journal_step_ok _ _ Hj (step_claim _ _ _ _ _ Hclaim)) as Hj'.
    assert (Hn : settlement_intents (journal w) !! toLowerCase (paymentIntentId input) = None)
      by (by rewrite Hid).
    destruct (claim_row _ _ _ _ _ Hn Hclaim) as (row & Hrows & Hin & _ & _ & _).
    rewrite Hid in Hrows. change (toLowerCase (p_id (payment o))) with (key o) in Hrows.
    assert (Hkey : settlement_intents j !! key o = Some row) by (by rewrite Hrows, lookup_insert_eq).
    eapply (recovery_ok_update w i o (with_state (Held Prepared rec false) o)); eauto;
      cbn [with_state state].
    + intros k row' Hk. exists row'. rewrite Hrows, lookup_insert_ne; [done|congruence].
    + intros i' o' Hi' Hne Ha'. destruct Hne. by eapply head_alone.
    + done.
    + intros ? ? [= <- _]. eauto.
    + done.
    + intros k. rewrite !token_of. cbn [with_state state]. destruct (decide (k = key o)) as [->|Hk].
      * right. split_and!; [done| |done|by rewrite Hkey; eexists].
        pose proof (tokens_nonneg (key o) (ops w)). pose proof (unmarked_nonneg (key o) (answers w)).
        destruct (decide (0 < tokens (key o) w)) as [Hpos|]; [|unfold tokens in *; lia].
        destruct (rok_token _ Hok _ Hpos). congruence.
      * left. rewrite Hno, andb_false_r.
        replace (String.eqb (key (with_state (Held Prepared rec false) o)) k) with false; [simpl; lia|].
        symmetry. apply String.eqb_neq. intros He. by apply Hk.
    + intros row' _ Hx. by destruct (Hnot _ Hx).
Qed.

(** A reply changes the journal through [claim] and [finish] alone. *)
Lemma reply_journal p st r now j st' j' sent :
  reply_of p st r now j = Some (st', j', sent) → j' = j ∨ journal_step j j'.
Proof.
  intros Hr. destruct (asking st) eqn:Ha.
  - destruct (reply_asking _ _ _ _ _ _ _ _ Ha Hr) as [[[_ ->]|(i & rec & _ & _ & Hc)] _]; [by left|].
    right. by eapply step_claim.
  - assert (Hf : ∀ rec b receipt, finish_receipt failure show rec b receipt now j = (st', j') →
      j' = j ∨ journal_step j j').
    { intros rec b receipt. unfold finish_receipt. repeat case_match; intros [= _ <-];
        first [by left|right; by eapply step_finish]. }
    destruct st as [| | | |stage rc bb| |], r as [| | |[receipt|]| |]; try discriminate;
      try destruct stage; try discriminate; cbn [op_reply] in Hr;
      repeat case_match; try discriminate Hr; try (injection Hr as _ <- _; by left);
      injection Hr as Hf' _; eauto.
Qed.

Lemma unmarked_of st : unmarked_state st = match held st with Some (_, b) => negb b | None => false end.
Proof. done. Qed.

Lemma reply_held_ok w i o r now st j sent rec b :
  recovery_ok w → ops w !! i = Some o → held (state o) = Some (rec, b) → journal_ok j →
  reply_of (payment o) (state o) r now (journal w) = Some (st, j, sent) →
  recovery_ok {| journal := j; inflight := inflight w;
    preparing := leave_queue (asking (state o)) st (preparing w);
    ops := put_op i (with_state st o) w;
    wire := (wire w ++ match sent with Some ser => [(i, ser)] | None => [] end)%list;
    answers := answers w |}.
Proof.
  intros Hok Hi Hh Hj Hr. destruct (rok_held _ Hok _ _ _ _ Hi Hh) as (row & Hk & Hrow).
  destruct (reply_held _ _ _ _ _ _ _ _ _ _ _ _ (rok_journal _ Hok) Hh Hk Hrow Hr)
    as ([Hrows Hnone] & Hna & Hdone & Hnext & Hafter & Hsent).
  destruct (Hrows _ _ Hk) as (row' & Hk' & Hin').
  replace (asking (state o)) with false by (by destruct (state o)).
  eapply (recovery_ok_update w i o (with_state st o)); eauto; cbn [with_state state].
  - intros i' o' Hi' _ Ha'. cbn [leave_queue andb]. destruct (rok_asking _ Hok _ _ Hi' Ha'). eauto.
  - intros Ha'. congruence.
  - intros rec' b' Hst. destruct Hnext as [(rec2 & row2 & Hst2 & ? & ?)|Hp]; [|rewrite Hp in Hst; discriminate Hst].
    rewrite Hst2 in Hst. injection Hst as <- _. eauto.
  - intros k. left. rewrite !token_of, !unmarked_of. cbn [with_state state owner_waits]. rewrite Hh.
    destruct Hnext as [(rec2 & row2 & -> & _)| ->]; [done|]. cbn [held].
    rewrite !andb_false_r. simpl. destruct (_ && _); lia.
  - intros row1 Hk1. rewrite Hk in Hk1. injection Hk1 as <-. by rewrite <- Hrow.
  - intros i' ser [Hw|Hw]%elem_of_app; [by left|right]. destruct sent as [ser'|]; [|by apply not_elem_of_nil in Hw].
    apply list_elem_of_singleton in Hw. injection Hw as -> ->. destruct (Hsent _ eq_refl).
    split; [done|]. exists row'. by rewrite Hin', <- Hrow.
Qed.

Lemma reply_ok w i o r now st j sent :
  recovery_ok w → ops w !! i = Some o →
  reply_of (payment o) (state o) r now (journal w) = Some (st, j, sent) →
  recovery_ok {| journal := j; inflight := inflight w;
    preparing := leave_queue (asking (state o)) st (preparing w);
    ops := put_op i (with_state st o) w;
    wire := (wire w ++ match sent with Some ser => [(i, ser)] | None => [] end)%list;
    answers := answers w |}.
Proof.
  intros Hok Hi Hr. destruct (asking (state o)) eqn:Ha.
  { rewrite <- Ha. by eapply reply_asking_ok. }
  destruct (held (state o)) as [[rec b]|] eqn:Hh.
  - rewrite <- Ha. eapply reply_held_ok; eauto.
    assert (Hj := rok_journal _ Hok).
    by destruct (reply_journal _ _ _ _ _ _ _ _ Hr) as [->|Hs]; [|eapply journal_step_ok].
  - by destruct (state o) as [| | | |? ? ?|[]|].
Qed.

Theorem recovery_step_ok w w' : recovery_ok w → step w w' → recovery_ok w'.
Proof.
  intros Hok Hs. pose proof (rok_journal _ Hok) as Hj.
  destruct Hs; eauto using join_ok, owner_ok, joined_ok, execute_ok, register_ok, crash_ok,
    prepare_ok, reply_ok.
  - apply journal_change_ok; [done| |by eapply on_events_rows].
    eapply journal_step_ok; [done|]. by eapply Settlement.step_record.
  - apply journal_change_ok; [done| |by eapply on_events_rows].
    eapply journal_step_ok; [done|]. by eapply Settlement.step_prune.
Qed.

Lemma boot_ok j : journal_ok j → recovery_ok (boot j).
Proof.
  intros Hj. constructor; try done.
  - intros i ser Hw. by apply not_elem_of_nil in Hw.
  - intros k rec b Hw. by apply not_elem_of_nil in Hw.
Qed.

Lemma reachable_recovery j w :
  star journal_step empty_journal j → star step (boot j) w → recovery_ok w.
Proof.
  intros Hj%reachable_ok Hs. eapply star_invariant; [exact recovery_step_ok|by apply boot_ok|done].
Qed.

(** *** What the history promises *)

(** C1: [SettlementRecovery] settles an intent once.  In every history of calls, coalesced
    calls, replies, foreign ledger writes and crashes, at most one answer for an intent is
    not marked as a replay, and every answer is a resolved row: the terminal record of the
    very intent the call named. *)
Theorem settled_once j w :
  star journal_step empty_journal j → star step (boot j) w →
  (∀ k, unmarked k (answers w) <= 1)
  ∧ ∀ id rec b, (id, Returned rec b) ∈ answers w →
      is_Some (terminal rec)
      ∧ ∃ row, settlement_intents (journal w) !! toLowerCase id = Some row
          ∧ rec_input rec = row_input row.
Proof.
  intros Hj Hs. pose proof (reachable_recovery _ _ Hj Hs) as Hok. split.
  - intros k. pose proof (rok_one _ Hok k). unfold tokens in *.
    pose proof (tokens_nonneg k (ops w)). lia.
  - apply (rok_answers _ Hok).
Qed.

(** C2: The claim comes before the broadcast, and binds it.  Whatever was handed to the
    network, in any history, is the transaction whose hash the journal holds for that
    intent, so no two different hashes are ever sent for one intent; and an operation that
    sent something never ends in an answer that says it did not: it returns a record, or
    says the hash is pending. *)
Theorem sent_is_claimed j w :
  star journal_step empty_journal j → star step (boot j) w →
  ∀ i ser, (i, ser) ∈ wire w → ∃ o row,
    ops w !! i = Some o
    ∧ settlement_intents (journal w) !! toLowerCase (p_id (payment o)) = Some row
    ∧ keccak256 ser = txHash (row_input row)
    ∧ (∀ e, state o = OpDone (Failed e) → Failed e = settlement_pending (txHash (row_input row)))
    ∧ ∀ i' ser' o', (i', ser') ∈ wire w → ops w !! i' = Some o' →
        toLowerCase (p_id (payment o')) = toLowerCase (p_id (payment o)) →
        keccak256 ser' = keccak256 ser.
Proof.
  intros Hj Hs i ser Hw. pose proof (reachable_recovery _ _ Hj Hs) as Hok.
  destruct (rok_wire _ Hok _ _ Hw) as (o & row & Hi & Hr & Hh & Ha).
  exists o, row. split_and!; [done..| |].
  - intros e He. rewrite He in Ha. exact Ha.
  - intros i' ser' o' Hw' Hi' Hk.
    destruct (rok_wire _ Hok _ _ Hw') as (o2 & row2 & Hi2 & Hr2 & -> & _).
    unfold key in *. congruence.
Qed.

Lemma receipt_cost_ok r cost :
  receipt_cost show r = Ok cost → 0 <= cost ∧ 0 <= gas_used r.
Proof.
  unfold receipt_cost, gas_used. destruct (_ || _) eqn:Hc; [discriminate|].
  apply orb_false_iff in Hc as [Hg _]. apply negb_false_iff in Hg.
  destruct (r_gasUsed r) as [| | | | |g| | |]; try discriminate Hg.
  destruct (readReceiptFeeField show (JBig g)) as [x|] eqn:Hx; [|discriminate].
  destruct (readReceiptFeeField show (r_price r)) as [y|] eqn:Hy; [|discriminate].
  destruct (readReceiptFeeField show (r_l1Fee r)) as [z|] eqn:Hz; [|discriminate].
  intros [= <-]. apply fee_nonneg in Hx, Hy, Hz. simpl in Hg. split; nia.
Qed.

Lemma known_row id row j :
  re_0x is_hex 64 id = true → settlement_intents j !! toLowerCase id = Some row →
  known id j = inl (Some (to_record j row)).
Proof.
  intros Hid Hr. unfold known.
  assert (Hread : read id j = Ok (Some (to_record j row), j))
    by (apply read_ok; unfold read_row; by rewrite Hr).
  by rewrite Hread.
Qed.

(** What a good receipt does to an unresolved row. *)
Lemma finish_receipt_returns j row r b cost code now :
  journal_ok j → re_0x is_hex 64 (paymentIntentId (row_input row)) = true →
  settlement_intents j !! paymentIntentId (row_input row) = Some row →
  toLowerCase (transactionHash r) = txHash (row_input row) →
  receipt_cost show r = Ok cost → failure r = Ok code → 0 <= now <= MAX_SAFE_INTEGER →
  ∃ rec j', finish_receipt failure show (to_record j row) b r now j = (OpDone (Returned rec b), j')
            ∧ is_Some (terminal rec).
Proof.
  intros Hj Hid Hr Hhash Hcost Hcode Hnow. destruct (receipt_cost_ok _ _ Hcost).
  destruct (jok_key _ Hj _ _ Hr) as [_ Hlow].
  destruct (finish_runs (paymentIntentId (row_input row))
    {| fin_at := now; fin_gasUsed := gas_used r; fin_actualCost := cost; fin_errorCode := code |}
    j row) as (rec & j' & Hf & Ht); rewrite ?Hlow; try done.
  exists rec, j'. split; [|done].
  unfold finish_receipt. change (rec_input (to_record j row)) with (row_input row).
  by rewrite Hhash, String.eqb_refl, Hcost, Hcode, Hf.
Qed.

(** A run of one fresh call after a restart, up to the row it finds. *)
Lemma fresh_call w p row :
  settlement_intents (journal w) !! toLowerCase (p_id p) = Some row →
  re_0x is_hex 64 (p_id p) = true →
  star step w {| journal := journal w; inflight := <[p_id p := length (ops w)]> ∅; preparing := [];
    ops := ((kill <$> ops w) ++ [{| payment := p;
      state := Held Prepared (to_record (journal w) row) true; owner_waits := true;
      joined := O |}])%list;
    wire := wire w; answers := answers w |}.
Proof.
  intros Hr Hid. set (n := length (ops w)).
  assert (Hn : length (kill <$> ops w) = n) by apply length_fmap.
  set (op st := {| payment := p; state := st; owner_waits := true; joined := O |}).
  assert (Hlast : ∀ st, ((kill <$> ops w) ++ [op st])%list !! n = Some (op st)).
  { intros st. rewrite lookup_app_r, Hn, Nat.sub_diag; [done|lia]. }
  assert (Hput : ∀ st st', <[n := op st']> ((kill <$> ops w) ++ [op st])%list
    = ((kill <$> ops w) ++ [op st'])%list).
  { intros st st'. rewrite insert_app_r_alt, Hn, Nat.sub_diag; [done|lia]. }
  set (wd q st := {| journal := journal w; inflight := <[p_id p := n]> ∅; preparing := q;
    ops := ((kill <$> ops w) ++ [op st])%list; wire := wire w; answers := answers w |}).
  set (w0 := {| journal := journal w; inflight := ∅; preparing := []; ops := kill <$> ops w;
      wire := wire w; answers := answers w |}).
  assert (H1 : step w0 (wd [] Registered)).
  { unfold wd. rewrite <- Hn.
    by apply (step_register parseTransaction failure show signer_ chain limits w0 p). }
  assert (H2 : step (wd [] Registered) (wd [n] Queued)).
  { pose proof (step_execute parseTransaction failure show signer_ chain limits (wd [] Registered)
      n (op Registered) (Hlast Registered) eq_refl) as Hs.
    unfold put_op in Hs. cbn [wd ops preparing app] in Hs.
    change (with_state ?st (op Registered)) with (op st) in Hs. rewrite Hput in Hs. exact Hs. }
  assert (H3 : step (wd [n] Queued) (wd [] (Held Prepared (to_record (journal w) row) true))).
  { pose proof (step_prepare parseTransaction failure show signer_ chain limits (wd [n] Queued) n
      (op Queued) [] (Hlast Queued) eq_refl eq_refl) as Hs.
    cbn zeta in Hs. unfold prep_start in Hs. cbn [op payment wd journal] in Hs.
    rewrite (known_row _ _ _ Hid Hr) in Hs. cbn [wd preparing ops leave_queue asking] in Hs.
    unfold put_op in Hs. cbn [ops wd] in Hs.
    change (with_state ?st (op Queued)) with (op st) in Hs. rewrite Hput in Hs. exact Hs. }
  eauto using star_refl, star_step, step_crash.
Qed.

Lemma last_reply w l o r now st j :
  ops w = (l ++ [o])%list → asking (state o) = false →
  reply_of (payment o) (state o) r now (journal w) = Some (st, j, None) →
  step w {| journal := j; inflight := inflight w; preparing := preparing w;
    ops := (l ++ [with_state st o])%list; wire := wire w; answers := answers w |}.
Proof.
  intros Hops Ha Hr.
  assert (Hl : ops w !! length l = Some o).
  { rewrite Hops, lookup_app_r, Nat.sub_diag by done. done. }
  pose proof (step_reply parseTransaction failure show signer_ chain limits w _ _ _ _ _ _ _ Hl Hr) as Hs.
  rewrite Ha, app_nil_r in Hs. cbn [leave_queue andb] in Hs. unfold put_op in Hs.
  rewrite Hops, insert_app_r_alt, Nat.sub_diag in Hs by done. exact Hs.
Qed.

(** The two replies a claimed row needs, and the answer. *)
Lemma claimed_row_answered w l p row r cost code now :
  journal_ok (journal w) → settlement_intents (journal w) !! toLowerCase (p_id p) = Some row →
  re_0x is_hex 64 (p_id p) = true → toLowerCase (transactionHash r) = txHash (row_input row) →
  receipt_cost show r = Ok cost → failure r = Ok code → 0 <= now <= MAX_SAFE_INTEGER →
  ops w = (l ++ [{| payment := p; state := Held Prepared (to_record (journal w) row) true;
                    owner_waits := true; joined := O |}])%list →
  ∃ w' rec, star step w w' ∧ wire w' = wire w
    ∧ answers w' = (answers w ++ [(p_id p, Returned rec true)])%list ∧ is_Some (terminal rec).
Proof.
  intros Hj Hr Hid Hhash Hcost Hcode Hnow Hops.
  set (op st := {| payment := p; state := st; owner_waits := true; joined := O |}) in *.
  assert (Hanswer : ∀ w1 rec, star step w w1 → wire w1 = wire w → answers w1 = answers w →
    ops w1 = (l ++ [op (OpDone (Returned rec true))])%list → is_Some (terminal rec) →
    ∃ w' rec, star step w w' ∧ wire w' = wire w
      ∧ answers w' = (answers w ++ [(p_id p, Returned rec true)])%list ∧ is_Some (terminal rec)).
  { intros w1 rec Hs Hw Hans Hops1 Ht.
    assert (Hl : ops w1 !! length l = Some (op (OpDone (Returned rec true)))).
    { rewrite Hops1, lookup_app_r, Nat.sub_diag by done. done. }
    eexists _, rec. split; [eapply star_step; [exact Hs|by eapply step_owner]|].
    cbn [wire answers]. by rewrite Hw, Hans. }
  destruct (terminal (to_record (journal w) row)) as [e|] eqn:Ht.
  - eapply Hanswer; [eapply star_step; [apply star_refl|]|..];
      [eapply (last_reply w l (op _) Continue 0); [exact Hops|done|cbn [op_reply op state payment]; by rewrite Ht]|done..|].
    rewrite Ht. by eexists.
  - destruct (jok_key _ Hj _ _ Hr) as [Hk Hlow].
    destruct (finish_receipt_returns (journal w) row r true cost code now)
      as (rec & j' & Hf & Hrec); rewrite ?Hk; try done; [by apply re_0x_hex_lower|].
    eapply (Hanswer _ rec); [eapply star_step; [eapply star_step; [apply star_refl|]|]|..];
      [eapply (last_reply w l (op _) Continue 0 (Held AskReceipt (to_record (journal w) row) true));
         [exact Hops|done|cbn [op_reply op state payment]; by rewrite Ht]
      |eapply (last_reply _ l (op _) (GotReceipt (Some r)) now); [done|done|cbn [op_reply op with_state state journal payment]; by rewrite Hf]
      |done..].
Qed.

End proofs.

(** ** Histories that can be run *)
Inductive Event :=
  | DoCall (p : RecoveryPayment) | DoExecute (i : nat) | DoPrepare (i : nat)
  | DoReply (i : nat) (r : Reply) (now : Z) | DoOwner (i : nat) | DoJoined (i : nat) | DoCrash.

Section histories.
Context `{Toolkit} (parseTransaction : string → result ParsedTransaction)
  (failure : RecoveryReceipt → result (option string)) (show : Z → string)
  (signer_ : string) (chain : Z) (limits : SettlementLimits).
Notation step := (world_step parseTransaction failure show signer_ chain limits).

Definition run_event (e : Event) (w : World) : option World :=
  match e with
  | DoCall p =>
      match inflight w !! p_id p with
      | Some i =>
          o ← ops w !! i;
          Some {| journal := journal w; inflight := inflight w; preparing := preparing w;
            ops := put_op i (with_joined (S (joined o)) o) w; wire := wire w; answers := answers w |}
      | None =>
          Some {| journal := journal w; inflight := <[p_id p := length (ops w)]> (inflight w);
            preparing := preparing w;
            ops := (ops w ++ [{| payment := p; state := Registered; owner_waits := true;
                                 joined := O |}])%list;
            wire := wire w; answers := answers w |}
      end
  | DoExecute i =>
      o ← ops w !! i;
      match state o with
      | Registered =>
          Some {| journal := journal w; inflight := inflight w; preparing := (preparing w ++ [i])%list;
            ops := put_op i (with_state Queued o) w; wire := wire w; answers := answers w |}
      | _ => None
      end
  | DoPrepare i =>
      o ← ops w !! i;
      match state o, preparing w with
      | Queued, i' :: _ =>
          if bool_decide (i' = i) then
            let st := prep_start (payment o) (journal w) in
            Some {| journal := journal w; inflight := inflight w;
              preparing := leave_queue true st (preparing w); ops := put_op i (with_state st o) w;
              wire := wire w; answers := answers w |}
          else None
      | _, _ => None
      end
  | DoReply i r now =>
      o ← ops w !! i;
      '(st, j, sent) ← op_reply parseTransaction failure show signer_ chain limits
                         (payment o) (state o) r now (journal w);
      Some {| journal := j; inflight := inflight w;
        preparing := leave_queue (asking (state o)) st (preparing w);
        ops := put_op i (with_state st o) w;
        wire := (wire w ++ match sent with Some ser => [(i, ser)] | None => [] end)%list;
        answers := answers w |}
  | DoOwner i =>
      o ← ops w !! i;
      match state o, owner_waits o with
      | OpDone out, true =>
          Some {| journal := journal w;
            inflight := if bool_decide (inflight w !! p_id (payment o) = Some i)
                        then delete (p_id (payment o)) (inflight w) else inflight w;
            preparing := preparing w; ops := put_op i (with_owner false o) w; wire := wire w;
            answers := (answers w ++ [(p_id (payment o), out)])%list |}
      | _, _ => None
      end
  | DoJoined i =>
      o ← ops w !! i;
      match state o, joined o with
      | OpDone out, S n =>
          Some {| journal := journal w; inflight := inflight w; preparing := preparing w;
            ops := put_op i (with_joined n o) w; wire := wire w;
            answers := (answers w ++ [(p_id (payment o), mark out)])%list |}
      | _, _ => None
      end
  | DoCrash =>
      Some {| journal := journal w; inflight := ∅; preparing := []; ops := kill <$> ops w;
        wire := wire w; answers := answers w |}
  end.

Fixpoint run_events (l : list Event) (w : World) : option World :=
  match l with [] => Some w | e :: l' => w' ← run_event e w; run_events l' w' end.

Lemma run_event_step e w w' : run_event e w = Some w' → step w w'.
Proof.
  destruct e as [p|i|i|i r now|i|i|]; cbn [run_event]; intros Hr;
    try (destruct (ops w !! i) as [o|] eqn:Hi; [|discriminate Hr]; cbn [mbind option_bind] in Hr).
  - destruct (inflight w !! p_id p) as [i|] eqn:Hp; [|injection Hr as <-; by apply step_register].
    destruct (ops w !! i) as [o|] eqn:Hi; [|discriminate Hr].
    injection Hr as <-. by eapply step_join.
  - destruct (state o) eqn:Hs; try discriminate Hr. injection Hr as <-. by apply step_execute.
  - destruct (state o) eqn:Hs; try discriminate Hr.
    destruct (preparing w) as [|i' q] eqn:Hq; [discriminate Hr|].
    case_bool_decide as He; [|discriminate Hr]. subst i'. injection Hr as <-. rewrite <- Hq.
    by eapply step_prepare.
  - destruct (op_reply _ _ _ _ _ _ _ _ _ _ _) as [[[st j] sent]|] eqn:Hst; [|discriminate Hr].
    injection Hr as <-. by eapply step_reply.
  - destruct (state o) eqn:Hs; try discriminate Hr.
    destruct (owner_waits o) eqn:Ho; [|discriminate Hr]. injection Hr as <-. by eapply step_owner.
  - destruct (state o) eqn:Hs; try discriminate Hr.
    destruct (joined o) eqn:Ho; [discriminate Hr|]. injection Hr as <-. by eapply step_joined.
  - injection Hr as <-. apply step_crash.
Qed.

Lemma run_events_star l : ∀ w w', run_events l w = Some w' → star step w w'.
Proof.
  induction l as [|e l IH]; intros w w' Hr; cbn [run_events] in Hr.
  - injection Hr as <-. apply star_refl.
  - destruct (run_event e w) as [w1|] eqn:He; [|discriminate Hr]. cbn in Hr.
    eapply star_trans; [eapply star_step; [apply star_refl|by eapply run_event_step]|by apply IH].
Qed.
End histories.

(** ** Witnesses: a call, a coalesced call, a broadcast, a crash, a later call *)
Definition ex_payment : RecoveryPayment :=
  {| p_id := ex_hex 64 "D"; p_payer := ex_hex 40 "B"; p_payTo := ex_hex 40 "C";
     p_amount := 5000000 |}.
Definition ex_parse (s : string) : result ParsedTransaction :=
  Ok {| tx_type := "eip1559"; tx_chainId := Some 8453; tx_nonce := Some 7; tx_gas := Some 100000;
        tx_maxFee := Some 20; tx_priority := Some 2 |}.
Definition ex_failure (r : RecoveryReceipt) : result (option string) := Ok None.
Definition ex_receipt : RecoveryReceipt :=
  {| transactionHash := test_hash "bytes"; r_gasUsed := JBig 90000; r_price := JBig 12;
     r_l1Fee := JUndefined |}.
Definition ex_run : list Event → World → option World :=
  run_events ex_parse ex_failure show_Z (ex_hex 40 "A") 8453 ex_limits.
Definition ex_boot : World := boot empty_journal.

(** The claim is written and the bytes are handed over. *)
Definition ex_sending : list Event :=
  [DoCall ex_payment; DoExecute 0; DoPrepare 0; DoReply 0 (GotNonce 7) 0;
   DoReply 0 (GotTransaction "bytes") 1709164800000; DoReply 0 Continue 0;
   DoReply 0 (GotReceipt None) 0; DoCall ex_payment; DoReply 0 (GotTransaction "bytes") 0].
(** The receipt is awaited, both calls return. *)
Definition ex_settling : list Event :=
  (ex_sending ++ [DoReply 0 GotHash 0; DoReply 0 (GotReceipt (Some ex_receipt)) 1709164900000;
   DoJoined 0; DoOwner 0])%list.
Definition ex_world (l : list Event) : World := default ex_boot (ex_run l ex_boot).

Lemma ex_run_world l : is_Some (ex_run l ex_boot) → ex_run l ex_boot = Some (ex_world l).
Proof. intros [w Hw]. unfold ex_world. by rewrite Hw. Qed.

Lemma ex_world_reachable l :
  is_Some (ex_run l ex_boot) →
  star (world_step ex_parse ex_failure show_Z (ex_hex 40 "A") 8453 ex_limits) ex_boot (ex_world l).
Proof. intros Hl%ex_run_world. by eapply run_events_star. Qed.

Example ex_settling_answers :
  (λ a, is_unmarked a.2) <$> answers (ex_world ex_settling) = [false; true].
Proof. vm_compute. reflexivity. Qed.

Lemma settled_once_witness :
  unmarked (ex_hex 64 "d") (answers (ex_world ex_settling)) = 1
  ∧ unmarked (ex_hex 64 "d") (answers (ex_world ex_settling)) <= 1.
Proof.
  split; [vm_compute; reflexivity|].
  exact (proj1 (settled_once ex_parse ex_failure show_Z (ex_hex 40 "A") 8453 ex_limits
    empty_journal (ex_world ex_settling) (star_refl _ _)
    (ex_world_reachable ex_settling ltac:(vm_compute; by eexists))) (ex_hex 64 "d")).
Defined.

Lemma sent_is_claimed_witness :
  (0%nat, "bytes") ∈ wire (ex_world ex_sending)
  ∧ ∃ row, settlement_intents (journal (ex_world ex_sending)) !! ex_hex 64 "d" = Some row
      ∧ keccak256 "bytes" = txHash (row_input row).
Proof.
  assert (Hw : (0%nat, "bytes") ∈ wire (ex_world ex_sending)) by (vm_compute; left).
  split; [exact Hw|].
  destruct (sent_is_claimed ex_parse ex_failure show_Z (ex_hex 40 "A") 8453 ex_limits
    empty_journal (ex_world ex_sending) (star_refl _ _)
    (ex_world_reachable ex_sending ltac:(vm_compute; by eexists)) 0%nat "bytes" Hw)
    as (o & row & Ho & Hrow & Hh & _).
  exists row. split; [|exact Hh].
  assert (Hp : payment <$> ops (ex_world ex_sending) !! 0%nat = Some ex_payment)
    by (vm_compute; reflexivity).
  rewrite Ho in Hp. injection Hp as Hp. rewrite Hp in Hrow. exact Hrow.
Defined.

