(* ===== verification/Token.v ===== *)
(** * Token amounts

    [toTokenAmount] and [fromTokenAmount] of [packages/shared/src/token.ts]: the mUSDC
    amounts an operator writes, and the base units the code counts in.  Also the decimal
    reading of printed integers, which the proofs share. *)

From Stdlib Require Import ZArith Lia Ascii String DecimalString DecimalFacts DecimalPos DecimalN DecimalZ.
From stdpp Require Import base gmap strings list.
From S2P Require Import Prelude.
Open Scope string_scope.
Open Scope Z_scope.

Definition MOCK_USDC_symbol : string := "mUSDC".
Definition MOCK_USDC_decimals : nat := 6.

(** Text up to the first point, and after it when there is one. *)
Fixpoint split_point (l : list ascii) : list ascii * option (list ascii) :=
  match l with
  | [] => ([], None)
  | c :: l' =>
      if Ascii.eqb c "." then ([], Some l')
      else let '(w, f) := split_point l' in (c :: w, f)
  end.
(** [0|[1-9]\d*] *)
Definition whole_part (l : list ascii) : bool :=
  match l with
  | [c] => is_digit c
  | c :: l' => in_range "1" "9" c && forallb is_digit l'
  | [] => false
  end.
(** [\d{1,6}] *)
Definition fraction_part (l : list ascii) : bool :=
  Nat.leb 1 (length l) && Nat.leb (length l) MOCK_USDC_decimals && forallb is_digit l.
Definition amount_match (s : string) : option (list ascii * list ascii) :=
  match split_point (chars s) with
  | (w, None) => if whole_part w then Some (w, []) else None
  | (w, Some f) => if whole_part w && fraction_part f then Some (w, f) else None
  end.

Definition padEnd (n : nat) (c : ascii) (l : list ascii) : list ascii :=
  (l ++ replicate (n - length l) c)%list.
Definition padStart (n : nat) (c : ascii) (l : list ascii) : list ascii :=
  (replicate (n - length l) c ++ l)%list.

(** The character of code 34. *)
Definition dquote : string := String (ascii_of_nat 34) EmptyString.
Definition toTokenAmount (human : string) : result Z :=
  match amount_match (trim human) with
  | None => Throw (Error ("invalid " ++ MOCK_USDC_symbol ++ " amount " ++ dquote ++ human ++ dquote
      ++ " — expected a non-negative decimal with at most "
      ++ show_Z (Z.of_nat MOCK_USDC_decimals) ++ " fractional digits"))
  | Some (whole, frac) =>
      let padded := take MOCK_USDC_decimals (padEnd MOCK_USDC_decimals "0" frac) in
      Ok (BigInt (string_of_list_ascii (whole ++ padded)%list))
  end.

(** [replace(/0+$/, "")] *)
Fixpoint drop_zeros (l : list ascii) : list ascii :=
  match l with
  | c :: l' => if Ascii.eqb c "0" then drop_zeros l' else l
  | [] => []
  end.
Definition strip_trailing_zeros (l : list ascii) : list ascii := rev (drop_zeros (rev l)).

Definition fromTokenAmount (raw : Z) : string :=
  let base := 10 ^ Z.of_nat MOCK_USDC_decimals in
  let whole := Z.quot raw base in
  let frac := padStart MOCK_USDC_decimals "0" (chars (show_Z (Z.rem raw base))) in
  let kept := string_of_list_ascii (strip_trailing_zeros frac) in
  show_Z whole ++ "." ++ (if String.eqb kept "" then "0" else kept).

(** ** Decimal text *)
Lemma chars_append s t : chars (s ++ t) = (chars s ++ chars t)%list.
Proof. induction s as [|c s IH]; [done|]. change (chars (String c s ++ t)) with (c :: chars (s ++ t)). by rewrite IH. Qed.

Definition dec_number (l : list ascii) : Z := foldl (λ acc c, acc * 10 + (code c - 48)) 0 l.

Lemma dec_fold l : ∀ acc,
  foldl (λ acc c, acc * 10 + (code c - 48)) acc l = acc * 10 ^ Z.of_nat (length l) + dec_number l.
Proof.
  unfold dec_number. induction l as [|c l IH]; intros acc; cbn [foldl length]; [lia|].
  rewrite IH, (IH (0 * 10 + _)), Nat2Z.inj_succ, Z.pow_succ_r by lia. ring.
Qed.

Lemma dec_number_app l l' :
  dec_number (l ++ l') = dec_number l * 10 ^ Z.of_nat (length l') + dec_number l'.
Proof. unfold dec_number at 1. by rewrite foldl_app, dec_fold. Qed.

Lemma dec_number_zeros n : dec_number (replicate n "0"%char) = 0.
Proof.
  induction n as [|n IH]; [done|]. unfold dec_number in *. cbn [replicate foldl].
  exact IH.
Qed.

Lemma digit_range c : is_digit c = true → 0 <= code c - 48 <= 9.
Proof. destruct c as [[][][][][][][][]]; vm_compute; intros; try discriminate; split; congruence. Qed.

Lemma dec_number_bounds l :
  forallb is_digit l = true → 0 <= dec_number l < 10 ^ Z.of_nat (length l).
Proof.
  induction l as [|c l IH] using rev_ind; [done|].
  rewrite forallb_app, dec_number_app, length_app. intros [Hl Hc]%andb_true_iff.
  simpl in Hc. rewrite andb_true_r in Hc. specialize (IH Hl). pose proof (digit_range c Hc).
  rewrite Nat2Z.inj_add, Z.pow_add_r by lia. unfold dec_number at 2 4. simpl. lia.
Qed.

Lemma acc_number d : ∀ acc,
  Z.pos (Pos.of_uint_acc d acc)
  = Z.pos acc * 10 ^ Z.of_nat (length (chars (NilEmpty.string_of_uint d)))
    + dec_number (chars (NilEmpty.string_of_uint d)).
Proof.
  assert (Hstep : ∀ c l a x, x = a * 10 + (code c - 48) →
    x * 10 ^ Z.of_nat (length l) + dec_number l
    = a * 10 ^ Z.of_nat (length (c :: l)) + dec_number (c :: l)).
  { intros c l a x ->. change (c :: l) with ([c] ++ l)%list. rewrite dec_number_app.
    unfold dec_number at 2. cbn [foldl app length].
    rewrite Nat2Z.inj_succ, Z.pow_succ_r by lia. ring. }
  induction d; intros acc; [simpl; unfold dec_number; simpl; lia|..];
    cbn [NilEmpty.string_of_uint]; unfold chars in *; cbn [list_ascii_of_string];
    rewrite <- (Hstep _ _ _ _ eq_refl); cbn [Pos.of_uint_acc]; rewrite IHd; f_equal; f_equal;
    match goal with |- context [code ?c] =>
      let v := eval vm_compute in (code c) in change (code c) with v end; rewrite ?Pos2Z.inj_add, ?Pos2Z.inj_mul; lia.
Qed.

Lemma uint_number d :
  Z.of_uint d = dec_number (chars (NilEmpty.string_of_uint d)).
Proof.
  unfold Z.of_uint, N.of_uint. induction d; [done|exact IHd|..];
    cbn [Pos.of_uint NilEmpty.string_of_uint]; unfold chars; cbn [list_ascii_of_string Z.of_N];
    rewrite acc_number;
    match goal with |- _ = dec_number (?c :: ?l) =>
      change (c :: l) with ([c] ++ l)%list; rewrite dec_number_app end;
    unfold dec_number at 2; cbn [foldl];
    match goal with |- context [code ?c] =>
      let v := eval vm_compute in (code c) in change (code c) with v end; unfold chars; lia.
Qed.

Lemma digits_uint s : forallb is_digit (chars s) = true →
  ∃ d, NilEmpty.uint_of_string s = Some d ∧ NilEmpty.string_of_uint d = s.
Proof.
  intros Hs.
  assert (Hd : is_Some (NilEmpty.uint_of_string s)).
  { induction s as [|c s IH]; [by eexists|]. unfold chars in Hs. cbn in Hs.
    apply andb_true_iff in Hs as [Hc Hs]. destruct (IH Hs) as [d Hd]. cbn. rewrite Hd.
    clear - Hc. destruct c as [[][][][][][][][]]; first [discriminate Hc|by eexists]. }
  destruct Hd as [d Hd]. exists d. split; [done|]. by apply NilEmpty.sus.
Qed.

(** [BigInt] of decimal digits is their value. *)
Lemma BigInt_digits l :
  l ≠ [] → forallb is_digit l = true → BigInt (string_of_list_ascii l) = dec_number l.
Proof.
  intros Hne Hl. unfold BigInt.
  destruct l as [|c l]; [done|].
  assert (Hc : chars (string_of_list_ascii (c :: l)) = c :: l) by apply list_ascii_of_string_of_list_ascii.
  destruct (strip_0x _) as [t|] eqn:Hx.
  { apply strip_0x_Some in Hx. rewrite Hx in Hc. unfold chars in Hc. cbn in Hc.
    injection Hc as <- <-. cbn in Hl. discriminate Hl. }
  destruct (digits_uint (string_of_list_ascii (c :: l))) as (d & Hd & Hs); [by rewrite Hc|].
  cbn [string_of_list_ascii] in Hd, Hs |- *. unfold read_Z. cbn [NilZero.int_of_string].
  destruct (Ascii.eqb_spec c "-") as [->|_]; [done|]. cbn [NilZero.uint_of_string].
  rewrite Hd. cbn [option_map fmap option_fmap default Z.of_int]. rewrite uint_number, Hs.
  change (String c (string_of_list_ascii l)) with (string_of_list_ascii (c :: l)). by rewrite Hc.
Qed.

Lemma uint_digits d : forallb is_digit (chars (NilEmpty.string_of_uint d)) = true.
Proof. induction d; [done|..]; unfold chars in *; cbn; exact IHd. Qed.

Lemma unorm_D0_nil d : Decimal.unorm (Decimal.D0 d) = Decimal.D0 d → d = Decimal.Nil.
Proof.
  intros Hd. destruct (Decimal.uint_eq_dec (Decimal.nzhead (Decimal.D0 d)) Decimal.Nil) as [Hz|Hz].
  - apply unorm_0 in Hz. congruence.
  - rewrite unorm_nzhead in Hd by done. by apply nzhead_nonzero in Hd.
Qed.

Lemma uint_whole d : Decimal.unorm d = d → whole_part (chars (NilEmpty.string_of_uint d)) = true.
Proof.
  intros Hd. pose proof (uint_digits d) as Hall. unfold chars in *.
  destruct d; [by apply unorm_nonnil in Hd|by apply unorm_D0_nil in Hd as ->|..];
    cbn [NilEmpty.string_of_uint list_ascii_of_string] in *;
    destruct (list_ascii_of_string (NilEmpty.string_of_uint d)); [done| |done| |done| |done| |done|
      |done| |done| |done| |done|];
    cbn [whole_part]; cbn [forallb] in Hall |- *; by apply andb_true_iff in Hall as [_ ->].
Qed.

(** A non-negative integer prints as a canonical decimal, and reads back. *)
Lemma show_nonneg n : 0 <= n →
  forallb is_digit (chars (show_Z n)) = true ∧ whole_part (chars (show_Z n)) = true
  ∧ dec_number (chars (show_Z n)) = n.
Proof.
  intros Hn.
  assert (Hd : ∃ d, show_Z n = NilEmpty.string_of_uint d ∧ Z.of_uint d = n ∧ Decimal.unorm d = d).
  { assert (Ht : Z.to_int n = Decimal.Pos (N.to_uint (Z.to_N n))) by (by destruct n).
    exists (N.to_uint (Z.to_N n)).
    assert (Hu : Z.of_uint (N.to_uint (Z.to_N n)) = n).
    { unfold Z.of_uint. rewrite DecimalN.Unsigned.of_to. lia. }
    assert (Hnorm : Decimal.unorm (N.to_uint (Z.to_N n)) = N.to_uint (Z.to_N n)).
    { rewrite <- DecimalN.Unsigned.to_of. by rewrite DecimalN.Unsigned.of_to. }
    split_and!; [|done|done]. unfold show_Z. rewrite Ht. cbn [NilZero.string_of_int].
    destruct (N.to_uint (Z.to_N n)) eqn:He; [|done..]. exfalso. by apply unorm_nonnil in Hnorm. }
  destruct Hd as (d & -> & Hv & Hnorm).
  split_and!; [apply uint_digits|by apply uint_whole|]. by rewrite <- uint_number.
Qed.

Lemma whole_digits w : whole_part w = true → w ≠ [] ∧ forallb is_digit w = true.
Proof.
  destruct w as [|c [|c' w]]; cbn [whole_part forallb]; [done| |].
  - intros ->. done.
  - intros [Hc ->]%andb_true_iff. split; [done|]. rewrite andb_true_r.
    clear - Hc. by destruct c as [[][][][][][][][]].
Qed.

Lemma split_point_digits w l :
  forallb is_digit w = true → split_point (w ++ "."%char :: l)%list = (w, Some l).
Proof.
  induction w as [|c w IH]; [done|]. cbn [forallb app split_point].
  intros [Hc Hw]%andb_true_iff. rewrite (IH Hw).
  destruct (Ascii.eqb_spec c ".") as [->|]; [discriminate Hc|done].
Qed.

(** ** What is read *)

Lemma drop_space_digit c l : is_digit c = true → drop_space (c :: l) = c :: l.
Proof. intros Hc. cbn. by destruct c as [[][][][][][][][]]. Qed.

Lemma trim_digits s w l c : chars s = (w ++ l ++ [c])%list → whole_part w = true → is_digit c = true →
  trim s = s.
Proof.
  intros Hs Hw Hc. destruct (whole_digits w Hw) as [Hne Hd].
  assert (H1 : drop_space (chars s) = chars s).
  { rewrite Hs. destruct w as [|c0 w]; [done|]. cbn [forallb] in Hd.
    apply andb_true_iff in Hd as [Hc0 _]. by apply drop_space_digit. }
  assert (H2 : drop_space (rev (chars s)) = rev (chars s)).
  { rewrite Hs, !app_assoc, rev_app_distr. by apply drop_space_digit. }
  unfold trim. rewrite H1, H2, rev_involutive. apply string_of_list_ascii_of_string.
Qed.

Lemma zeros_digits n : forallb is_digit (replicate n "0"%char) = true.
Proof. induction n as [|n IH]; [done|exact IH]. Qed.

Definition FRACTION : Z := 10 ^ Z.of_nat MOCK_USDC_decimals.

(** The value of an amount that matches. *)
Lemma read_amount human w f :
  amount_match (trim human) = Some (w, f) → whole_part w = true → forallb is_digit f = true →
  (length f <= MOCK_USDC_decimals)%nat →
  toTokenAmount human
  = Ok (dec_number w * FRACTION + dec_number f * 10 ^ Z.of_nat (MOCK_USDC_decimals - length f)).
Proof.
  intros Hm Hw Hf Hlen. unfold toTokenAmount. rewrite Hm. destruct (whole_digits w Hw) as [Hne Hd].
  assert (Hpad : take MOCK_USDC_decimals (padEnd MOCK_USDC_decimals "0" f)
    = (f ++ replicate (MOCK_USDC_decimals - length f) "0"%char)%list).
  { apply take_ge. unfold padEnd. rewrite length_app, length_replicate. lia. }
  rewrite Hpad, BigInt_digits.
  - f_equal. rewrite !dec_number_app, dec_number_zeros, length_app, length_replicate.
    replace (length f + (MOCK_USDC_decimals - length f))%nat with MOCK_USDC_decimals by lia.
    unfold FRACTION. lia.
  - by destruct w.
  - rewrite !forallb_app, Hd, Hf. apply zeros_digits.
Qed.

Lemma split_point_app l : ∀ w f, split_point l = (w, Some f) → l = (w ++ "."%char :: f)%list.
Proof.
  induction l as [|c l IH]; intros w f; cbn [split_point]; [done|].
  destruct (Ascii.eqb_spec c ".") as [->|]; [by intros [= <- <-]|].
  destruct (split_point l) as [w' [f'|]]; intros [= <- <-]. by rewrite (IH _ _ eq_refl).
Qed.

Lemma split_point_none l : ∀ w, split_point l = (w, None) → l = w.
Proof.
  induction l as [|c l IH]; intros w; cbn [split_point]; [by intros [= <-]|].
  destruct (Ascii.eqb c "."); [done|].
  destruct (split_point l) as [w' [f'|]]; intros [= <-]. by rewrite (IH _ eq_refl).
Qed.

Lemma amount_match_parts s w f :
  amount_match s = Some (w, f) →
  whole_part w = true ∧ forallb is_digit f = true ∧ (length f <= MOCK_USDC_decimals)%nat
  ∧ (chars s = w ∧ f = [] ∨ chars s = (w ++ "."%char :: f)%list ∧ (1 <= length f)%nat).
Proof.
  unfold amount_match. destruct (split_point (chars s)) as [w' [f'|]] eqn:Hs.
  - destruct (whole_part w' && fraction_part f') eqn:Hp; [|done]. intros [= <- <-].
    unfold fraction_part in Hp. rewrite !andb_true_iff, !Nat.leb_le in Hp.
    apply split_point_app in Hs. naive_solver.
  - destruct (whole_part w') eqn:Hp; [|done]. intros [= <- <-]. apply split_point_none in Hs.
    split_and!; [done..|unfold MOCK_USDC_decimals; simpl; lia|by left].
Qed.

(** ** What is printed *)

Lemma drop_zeros_split l : ∃ n, l = (replicate n "0"%char ++ drop_zeros l)%list.
Proof.
  induction l as [|c l [n IH]]; [by exists 0%nat|]. cbn [drop_zeros].
  destruct (Ascii.eqb_spec c "0") as [->|]; [|by exists 0%nat].
  exists (S n). cbn [replicate app]. by rewrite <- IH.
Qed.

Lemma rev_replicate {A} n (c : A) : rev (replicate n c) = replicate n c.
Proof. induction n as [|n IH]; [done|]. cbn [replicate rev]. by rewrite IH, <- replicate_S_end. Qed.

Lemma strip_zeros_split l :
  ∃ n, l = (strip_trailing_zeros l ++ replicate n "0"%char)%list.
Proof.
  destruct (drop_zeros_split (rev l)) as [n Hn]. exists n. unfold strip_trailing_zeros.
  rewrite <- (rev_involutive l) at 1. rewrite Hn at 1. rewrite rev_app_distr. f_equal.
  apply rev_replicate.
Qed.

Lemma padStart_number n l : dec_number (padStart n "0" l) = dec_number l.
Proof. unfold padStart. rewrite dec_number_app, dec_number_zeros. lia. Qed.

Lemma digits_short n k : 0 <= n < 10 ^ Z.of_nat k → (1 <= k)%nat → (length (chars (show_Z n)) <= k)%nat.
Proof.
  intros Hn Hk. destruct (show_nonneg n) as (_ & Hw & Hv); [lia|].
  destruct (chars (show_Z n)) as [|c [|c' l]] eqn:Hl; [done|simpl; lia|].
  cbn [whole_part] in Hw. apply andb_true_iff in Hw as [Hc _].
  assert (1 <= code c - 48) by (clear - Hc; destruct c as [[][][][][][][][]]; vm_compute in *; congruence).
  destruct (decide (length (c :: c' :: l) <= k)%nat) as [|Hgt]; [done|exfalso].
  change (c :: c' :: l) with ([c] ++ c' :: l)%list in Hv. rewrite dec_number_app in Hv.
  assert (Hd : forallb is_digit (c' :: l) = true).
  { destruct (show_nonneg n) as (Hd & _ & _); [lia|]. rewrite Hl in Hd.
    cbn [forallb] in Hd |- *. by apply andb_true_iff in Hd as [_ ?]. }
  pose proof (dec_number_bounds (c' :: l) Hd).
  assert (10 ^ Z.of_nat k <= 10 ^ Z.of_nat (length (c' :: l)))
    by (apply Z.pow_le_mono_r; simpl in *; lia).
  unfold dec_number at 1 in Hv. cbn [foldl] in Hv. nia.
Qed.

(** The fraction that is printed: its digits, and what it stands for. *)
Lemma printed_fraction r : 0 <= r < FRACTION →
  ∃ f c, (if String.eqb (string_of_list_ascii (strip_trailing_zeros
            (padStart MOCK_USDC_decimals "0" (chars (show_Z r))))) "" then "0"
          else string_of_list_ascii (strip_trailing_zeros
            (padStart MOCK_USDC_decimals "0" (chars (show_Z r)))))
        = string_of_list_ascii (f ++ [c])%list
    ∧ forallb is_digit (f ++ [c])%list = true
    ∧ (length (f ++ [c])%list <= MOCK_USDC_decimals)%nat
    ∧ dec_number (f ++ [c])%list * 10 ^ Z.of_nat (MOCK_USDC_decimals - length (f ++ [c])%list) = r.
Proof.
  intros Hr. set (frac := padStart MOCK_USDC_decimals "0" (chars (show_Z r))).
  destruct (show_nonneg r) as (Hd & _ & Hv); [lia|].
  assert (Hlen : length frac = MOCK_USDC_decimals).
  { unfold frac, padStart. rewrite length_app, length_replicate.
    pose proof (digits_short r MOCK_USDC_decimals Hr ltac:(unfold MOCK_USDC_decimals; lia)). lia. }
  assert (Hnum : dec_number frac = r) by (unfold frac; by rewrite padStart_number).
  assert (Hdig : forallb is_digit frac = true)
    by (unfold frac, padStart; by rewrite forallb_app, zeros_digits, Hd).
  destruct (strip_zeros_split frac) as [n Hn]. set (kept := strip_trailing_zeros frac) in *.
  destruct kept as [|c l _] eqn:Hk using rev_ind.
  - exists [], "0"%char. split_and!; [done|done|cbn; unfold MOCK_USDC_decimals; lia|].
    rewrite <- Hnum, Hn. cbn [app]. by rewrite dec_number_zeros.
  - exists l, c. destruct (String.eqb_spec (string_of_list_ascii (l ++ [c])%list) "") as [He|_].
    { apply (f_equal chars) in He. unfold chars in He at 1.
      rewrite list_ascii_of_string_of_list_ascii in He. by destruct l. }
    rewrite Hn, forallb_app in Hdig. apply andb_true_iff in Hdig as [Hdig _].
    rewrite Hn, length_app, length_replicate in Hlen.
    split_and!; [done|done|lia|].
    rewrite <- Hnum, Hn, (dec_number_app (l ++ [c])%list), dec_number_zeros, length_replicate.
    replace (MOCK_USDC_decimals - length (l ++ [c])%list)%nat with n by lia. lia.
Qed.

(** ** Theorems *)

(** Printing and reading a token amount are inverse: every amount of base units prints
    as text that reads back to it, so no displayed limit differs from the enforced one. *)
Theorem token_amount_roundtrip n : 0 <= n → toTokenAmount (fromTokenAmount n) = Ok n.
Proof.
  intros Hn. assert (Hb : 0 < FRACTION) by done.
  destruct (printed_fraction (Z.rem n FRACTION)) as (f & c & Hf & Hd & Hl & Hv);
    [by apply Z.rem_bound_pos|].
  destruct (show_nonneg (Z.quot n FRACTION)) as (_ & Hw & Hq); [by apply Z.quot_pos|].
  set (w := chars (show_Z (Z.quot n FRACTION))) in *.
  assert (Hc : chars (fromTokenAmount n) = (w ++ "."%char :: f ++ [c])%list).
  { unfold fromTokenAmount. cbv zeta. fold FRACTION. rewrite Hf. unfold w.
    rewrite !chars_append. unfold chars at 3. by rewrite list_ascii_of_string_of_list_ascii. }
  assert (Hdc : is_digit c = true).
  { rewrite forallb_app in Hd. apply andb_true_iff in Hd as [_ Hd]. cbn in Hd.
    by rewrite andb_true_r in Hd. }
  assert (Hm : amount_match (trim (fromTokenAmount n)) = Some (w, (f ++ [c])%list)).
  { rewrite (trim_digits _ w ("."%char :: f) c) by done. unfold amount_match.
    rewrite Hc, split_point_digits by (by apply whole_digits).
    unfold fraction_part. rewrite Hw, Hd, (proj2 (Nat.leb_le _ _) Hl).
    by rewrite (proj2 (Nat.leb_le _ _)) by (rewrite length_app; simpl; lia). }
  rewrite (read_amount _ _ _ Hm Hw Hd Hl), Hq, Hv. f_equal.
  pose proof (Z.quot_rem' n FRACTION). lia.
Qed.

(** Reading is exact and never truncates.  A text is read exactly when it is a whole
    part without leading zeros and at most six fractional digits; the amount is then that
    decimal number times a million, and anything else, excess precision included, is
    refused with an error. *)
Theorem token_amount_exact human :
  (∀ n, toTokenAmount human = Ok n →
     ∃ w f, (chars (trim human) = w ∧ f = [] ∨ chars (trim human) = (w ++ "."%char :: f)%list)
       ∧ whole_part w = true ∧ forallb is_digit f = true ∧ (length f <= 6)%nat
       ∧ n * 10 ^ Z.of_nat (length f) = dec_number (w ++ f)%list * 10 ^ 6 ∧ 0 <= n)
  ∧ (∀ e, toTokenAmount human = Throw e → amount_match (trim human) = None ∧ err_name e = "Error").
Proof.
  destruct (amount_match (trim human)) as [[w f]|] eqn:Hm.
  - destruct (amount_match_parts _ _ _ Hm) as (Hw & Hf & Hl & Hs).
    rewrite (read_amount _ _ _ Hm Hw Hf Hl). split; [|done]. intros n [= <-].
    exists w, f. destruct (whole_digits w Hw) as [_ Hd].
    pose proof (dec_number_bounds w Hd). pose proof (dec_number_bounds f Hf).
    assert (Hp : FRACTION = 10 ^ Z.of_nat (MOCK_USDC_decimals - length f) * 10 ^ Z.of_nat (length f))
      by (rewrite <- Z.pow_add_r by lia; unfold FRACTION; f_equal; lia).
    assert (0 < 10 ^ Z.of_nat (MOCK_USDC_decimals - length f)) by (apply Z.pow_pos_nonneg; lia).
    split_and!; [naive_solver|done|done|done| |].
    + rewrite dec_number_app. change (10 ^ 6) with FRACTION. rewrite Hp. ring.
    + apply Z.add_nonneg_nonneg; apply Z.mul_nonneg_nonneg; lia.
  - unfold toTokenAmount. rewrite Hm. split; [done|]. by intros e [= <-].
Qed.

Lemma token_amount_roundtrip_witness :
  fromTokenAmount 1500000 = "1.5" ∧ toTokenAmount (fromTokenAmount 1500000) = Ok 1500000.
Proof.
  split; [vm_compute; reflexivity|]. apply (token_amount_roundtrip 1500000). lia.
Defined.
Example token_excess : is_ok (toTokenAmount "1.0000009") = false.
Proof. vm_compute. reflexivity. Qed.
Example token_spaces : toTokenAmount " 3 " = Ok 3000000.
Proof. vm_compute. reflexivity. Qed.
