(* ===== verification/Status.v ===== *)
(** * What a delegation allows now, and what it has paid

    [packages/delegation/src/delegation-status.ts]: the terms of the caveats, the status
    of a link read from the chain, the settlement receipts rebuilt from the enforcer's
    events, and the roots among redeemed links.  The RPC reads are an argument
    ([ChainReads]); [hashDelegation] and [slice] are the library's. *)

From Stdlib Require Import ZArith Lia Ascii String.
From stdpp Require Import base gmap strings list sorting.
From S2P Require Import Prelude Toolkit.
Open Scope string_scope.
Open Scope Z_scope.

Record PeriodLimit := {
  pl_token : string; pl_periodAmount : Z; pl_periodDuration : Z; pl_startDate : Z;
}.
Record LifetimeTotal := { lt_token : string; maxAmount : Z }.
Record ValidityWindow := { notBefore : Z; notAfter : Z }.

(** [getAvailableAmount] of the period enforcer. *)
Record Available := { availableAmount : Z; av_isNewPeriod : bool; av_currentPeriod : Z }.

Record DelegationStatus := {
  delegationHash : string; st_delegator : string; st_delegate : string;
  limit : option PeriodLimit; validity : option ValidityWindow;
  lifetimeTotal : option LifetimeTotal; remaining : option Z; lifetimeRemaining : option Z;
  isNewPeriod : option bool; currentPeriod : option Z;
  revoked : bool; expired : bool; notYetActive : bool;
}.

Record Environment := {
  DelegationManager : string; ERC20PeriodTransferEnforcer : option string;
  ERC20TransferAmountEnforcer : option string; TimestampEnforcer : option string;
}.

(** The contract reads, and the head block when the node serves one. *)
Record ChainReads := {
  disabledDelegations : string → string → result bool;
  getAvailableAmount : string → string → string → string → result Available;
  getSpentAmount : string → string → string → result Z;
  getBlock : option Z;
}.

(** A [TransferredInPeriod] log. *)
Record TransferLog := {
  l_blockNumber : Z; l_logIndex : option Z; l_transactionHash : string;
  l_delegationHash : string; l_redeemer : string; l_token : string;
  l_periodDuration : Z; l_startDate : Z;
  l_transferredInCurrentPeriod : Z; l_transferTimestamp : Z;
}.
Record SettlementReceipt := {
  sr_delegationHash : string; sr_redeemer : string; sr_token : string;
  transferredInCurrentPeriod : Z; sr_amount : option Z; period : Z;
  transferTimestamp : Z; sr_transactionHash : string; blockNumber : Z;
}.

Section status.
Context `{Toolkit} (hashDelegation : Delegation → string) (slice : string → Z → Z → string).

Definition decodePeriodTransferTerms (t : string) : result PeriodLimit :=
  throws negb (size t =? 116) with
    Error ("erc20PeriodTransfer terms must be 116 bytes, got " ++ show_Z (size t));
  Ok {| pl_token := getAddress (slice t 0 20); pl_periodAmount := hexToBigInt_slice t 20 52;
        pl_periodDuration := hexToBigInt_slice t 52 84; pl_startDate := hexToBigInt_slice t 84 116 |}.
Definition decodeTransferAmountTerms (t : string) : result LifetimeTotal :=
  throws negb (size t =? 52) with
    Error ("erc20TransferAmount terms must be 52 bytes, got " ++ show_Z (size t));
  Ok {| lt_token := getAddress (slice t 0 20); maxAmount := hexToBigInt_slice t 20 52 |}.
Definition decodeTimestampTerms (t : string) : result ValidityWindow :=
  throws negb (size t =? 32) with
    Error ("timestamp terms must be 32 bytes, got " ++ show_Z (size t));
  Ok {| notBefore := hexToBigInt_slice t 0 16; notAfter := hexToBigInt_slice t 16 32 |}.

Definition findCaveatTerms (d : Delegation) (enforcer_ : string) : option string :=
  terms <$> List.find (λ c, String.eqb (getAddress (enforcer c)) (getAddress enforcer_)) (caveats d).

Definition resolveChainTime (override head : option Z) (now : Z) : Z :=
  match override with
  | Some t => t
  | None => default (now / 1000) head
  end.

Definition judgeValidity (v : option ValidityWindow) (now : Z) : bool * bool :=
  match v with
  | None => (false, false)
  | Some v => ((0 <? notAfter v) && (notAfter v <=? now), (0 <? notBefore v) && (now <=? notBefore v))
  end.

(** The terms of the first caveat of an enforcer the environment names. *)
Definition terms_of (d : Delegation) (e : option string) : option (string * string) :=
  e' ← e; t ← findCaveatTerms d (getAddress e'); Some (getAddress e', t).
Definition traverse {A B} (f : A → result B) (o : option A) : result (option B) :=
  match o with None => Ok None | Some a => let? b := f a in Ok (Some b) end.

Definition readDelegationStatus (chain : ChainReads) (env : Environment) (d : Delegation)
    (override : option Z) (clock : Z) : result DelegationStatus :=
  let h := hashDelegation d in
  let manager := getAddress (DelegationManager env) in
  let period_ := terms_of d (ERC20PeriodTransferEnforcer env) in
  let total := terms_of d (ERC20TransferAmountEnforcer env) in
  let window := terms_of d (TimestampEnforcer env) in
  let? rev := disabledDelegations chain manager h in
  let? available := traverse (λ '(e, t), getAvailableAmount chain e h manager t) period_ in
  let? spent := traverse (λ '(e, _), getSpentAmount chain e h manager) total in
  let now := resolveChainTime override (getBlock chain) clock in
  let? v := traverse (λ '(_, t), decodeTimestampTerms t) window in
  let '(exp, early) := judgeValidity v now in
  let? lt := traverse (λ '(_, t), decodeTransferAmountTerms t) total in
  let? lim := traverse (λ '(_, t), decodePeriodTransferTerms t) period_ in
  Ok {| delegationHash := h; st_delegator := getAddress (delegator d);
        st_delegate := getAddress (delegate d); limit := lim; validity := v;
        lifetimeTotal := lt; remaining := availableAmount <$> available;
        lifetimeRemaining := match lt, spent with
          | Some t, Some s => Some (if s <? maxAmount t then maxAmount t - s else 0)
          | _, _ => None
          end;
        isNewPeriod := av_isNewPeriod <$> available;
        currentPeriod := av_currentPeriod <$> available;
        revoked := rev; expired := exp; notYetActive := early |}.

(** *** Receipts *)
Definition periodIndexOf (l : TransferLog) : Z :=
  if (l_periodDuration l <=? 0) || (l_transferTimestamp l <? l_startDate l) then 0
  else Z.quot (l_transferTimestamp l - l_startDate l) (l_periodDuration l).

(** Chain order. *)
Definition log_key (l : TransferLog) : Z * Z := (l_blockNumber l, default 0 (l_logIndex l)).
Definition log_le (a b : TransferLog) : Prop :=
  l_blockNumber a < l_blockNumber b
  ∨ l_blockNumber a = l_blockNumber b ∧ default 0 (l_logIndex a) <= default 0 (l_logIndex b).
#[export] Instance log_le_dec a b : Decision (log_le a b).
Proof. unfold log_le. solve_decision. Defined.

Definition receipt (l : TransferLog) (amount : option Z) : SettlementReceipt :=
  {| sr_delegationHash := l_delegationHash l; sr_redeemer := getAddress (l_redeemer l);
     sr_token := getAddress (l_token l);
     transferredInCurrentPeriod := l_transferredInCurrentPeriod l; sr_amount := amount;
     period := periodIndexOf l; transferTimestamp := l_transferTimestamp l;
     sr_transactionHash := l_transactionHash l; blockNumber := l_blockNumber l |}.
Definition amount_after (opens : bool) (previous : option (Z * Z)) (l : TransferLog) : option Z :=
  let cumulative := l_transferredInCurrentPeriod l in
  match previous with
  | None => if opens then Some cumulative else None
  | Some (p, c) =>
      if negb (p =? periodIndexOf l) then Some cumulative
      else if c <=? cumulative then Some (cumulative - c) else None
  end.
Fixpoint receipts_from (opens : bool) (previous : option (Z * Z)) (ls : list TransferLog)
    : list SettlementReceipt :=
  match ls with
  | [] => []
  | l :: ls' =>
      receipt l (amount_after opens previous l)
      :: receipts_from opens (Some (periodIndexOf l, l_transferredInCurrentPeriod l)) ls'
  end.
(** [from_time] is the timestamp of [fromBlock], when the node serves that block. *)
Definition readSettlementReceipts (env : Environment) (logs : list TransferLog)
    (from_time : option Z) : list SettlementReceipt :=
  match ERC20PeriodTransferEnforcer env, merge_sort log_le logs with
  | None, _ | _, [] => []
  | Some _, first :: rest =>
      let start := l_startDate first + periodIndexOf first * l_periodDuration first in
      let opens := match from_time with Some t => t <=? start | None => false end in
      receipts_from opens None (first :: rest)
  end.

(** *** Roots *)
Definition ROOT_AUTHORITY : string := "0x" ++ string_of_list_ascii (replicate 64 "f"%char).
Fixpoint select_roots (seen : list string) (links : list Delegation) : list Delegation :=
  match links with
  | [] => []
  | l :: links' =>
      if negb (String.eqb (toLowerCase (authority l)) ROOT_AUTHORITY)
         || existsb (String.eqb (hashDelegation l)) seen
      then select_roots seen links'
      else l :: select_roots (hashDelegation l :: seen) links'
  end.
Definition selectRootDelegations : list Delegation → list Delegation := select_roots [].
Definition readGrantsFromChain (logs : list (option Delegation)) : list Delegation :=
  selectRootDelegations (omap id logs).
End status.

(** ** Receipts report what was paid *)

(** What the enforcer does: the counter of a period starts at zero and grows by each
    payment; chain time and log order agree. *)
Definition counter_adds (prev : option TransferLog) (l : TransferLog) (paid : Z) : Prop :=
  l_transferredInCurrentPeriod l
  = paid + match prev with
           | Some p => if periodIndexOf p =? periodIndexOf l
                       then l_transferredInCurrentPeriod p else 0
           | None => 0
           end.
Fixpoint enforced (prev : option TransferLog) (h : list (TransferLog * Z)) : Prop :=
  match h with
  | [] => True
  | (l, paid) :: h' => 0 <= paid ∧ counter_adds prev l paid ∧ enforced (Some l) h'
  end.
Definition log_lt (a b : TransferLog) : Prop := log_le a b ∧ log_key a ≠ log_key b.

#[export] Instance log_le_trans : Transitive log_le.
Proof. intros a b c. unfold log_le. lia. Qed.
#[export] Instance log_le_total : Total log_le.
Proof. intros a b. unfold log_le. lia. Qed.

Lemma sorted_logs (l l' : list TransferLog) :
  l' ≡ₚ l → StronglySorted log_lt l → merge_sort log_le l' = l.
Proof.
  intros Hp Hs.
  assert (Hweak : ∀ k, StronglySorted log_lt k → StronglySorted log_le k).
  { induction 1 as [|x k Hk IH Hx]; constructor; [done|]. eapply Forall_impl; [exact Hx|]. by intros ? [? _]. }
  eapply StronglySorted_unique_strong with (R := log_le).
  - intros x y Hx Hy Hxy Hyx. rewrite merge_sort_Permutation, Hp in Hx.
    assert (Hk : log_key x = log_key y).
    { unfold log_le, log_key in *. f_equal; lia. }
    clear - Hs Hx Hy Hk. induction Hs as [|z k Hsk IH Hz]; [by apply not_elem_of_nil in Hx|].
    rewrite Forall_forall in Hz.
    apply elem_of_cons in Hx as [->|Hx], Hy as [->|Hy]; [done| | |by apply IH].
    + by destruct (Hz _ Hy).
    + by destruct (Hz _ Hx).
  - by apply (StronglySorted_merge_sort log_le); apply _.
  - by apply Hweak.
  - by rewrite merge_sort_Permutation.
Qed.

(** The history of one delegation: the logs carry its terms, the counters are the
    enforcer's, and log order is chain order. *)
Record enforcer_history (start duration : Z) (h : list (TransferLog * Z)) : Prop := {
  eh_duration : 0 < duration;
  eh_terms : Forall (λ '(l, _), l_startDate l = start ∧ l_periodDuration l = duration
                                ∧ start <= l_transferTimestamp l) h;
  eh_counts : enforced None h;
  eh_order : StronglySorted log_lt h.*1;
}.

Lemma enforced_app h1 h2 : ∀ prev,
  enforced prev (h1 ++ h2) →
  enforced (match last h1.*1 with Some p => Some p | None => prev end) h2.
Proof.
  induction h1 as [|[l p] h1 IH]; intros prev; cbn [app enforced fmap list_fmap]; [done|].
  intros (_ & _ & Hh). specialize (IH _ Hh). rewrite last_cons.
  by destruct (last h1.*1).
Qed.

Lemma counted_amount prev l paid :
  0 <= paid → counter_adds (Some prev) l paid →
  ∀ opens, amount_after opens (Some (periodIndexOf prev, l_transferredInCurrentPeriod prev)) l = Some paid.
Proof.
  unfold counter_adds, amount_after. intros Hp Hc opens.
  destruct (periodIndexOf prev =? periodIndexOf l); cbn [negb].
  - rewrite (proj2 (Z.leb_le _ _)) by lia. f_equal. lia.
  - f_equal. lia.
Qed.

Section receipts.
Context `{Toolkit}.

Lemma receipts_from_counted h : ∀ prev opens,
  enforced (Some prev) h →
  receipts_from opens (Some (periodIndexOf prev, l_transferredInCurrentPeriod prev)) h.*1
  = (λ '(l, p), receipt l (Some p)) <$> h.
Proof.
  induction h as [|[l p] h IH]; intros prev opens; [done|]. cbn [enforced].
  intros (Hp & Hc & Hh). cbn [fmap list_fmap fst receipts_from]. f_equal.
  - f_equal. by apply counted_amount.
  - by apply IH.
Qed.

Lemma period_start start duration l :
  0 < duration → l_startDate l = start → l_periodDuration l = duration →
  start <= l_transferTimestamp l →
  ∀ t, t <= start + periodIndexOf l * duration → ∀ p,
    l_startDate p = start → l_periodDuration p = duration → start <= l_transferTimestamp p →
    l_transferTimestamp p < t → periodIndexOf p ≠ periodIndexOf l.
Proof.
  intros Hd Hs Hl Ht t Hle p Hps Hpd Hpt Hlt.
  assert (Hq : periodIndexOf p * duration <= l_transferTimestamp p - start
    < periodIndexOf p * duration + duration).
  { unfold periodIndexOf. rewrite Hps, Hpd.
    rewrite (proj2 (Z.leb_gt _ _)), (proj2 (Z.ltb_ge _ _)) by lia. cbn [orb].
    pose proof (Z.quot_rem' (l_transferTimestamp p - start) duration).
    pose proof (Z.rem_bound_pos (l_transferTimestamp p - start) duration). lia. }
  intros He. rewrite He in Hq. lia.
Qed.

(** A settlement receipt never invents a payment.  Whatever order the node returns the
    logs of a block range in, the receipts are the settlements of that range in chain
    order, each with the amount the enforcer charged; the first one alone may be left
    without an amount, and has it as soon as the range provably opens before its period. *)
Theorem receipts_report_payments start duration before window logs env e from_time :
  enforcer_history start duration (before ++ window) →
  logs ≡ₚ window.*1 → ERC20PeriodTransferEnforcer env = Some e →
  (∀ t, from_time = Some t → Forall (λ '(l, _), l_transferTimestamp l < t) before) →
  match window with
  | [] => readSettlementReceipts env logs from_time = []
  | (l, paid) :: rest => ∃ first,
      readSettlementReceipts env logs from_time
      = receipt l first :: ((λ '(l, p), receipt l (Some p)) <$> rest)
      ∧ (first = Some paid ∨ first = None)
      ∧ ∀ t, from_time = Some t → t <= start + periodIndexOf l * duration → first = Some paid
  end.
Proof.
  intros [Hd Hterms Hcounts Horder] Hperm Henv Hbefore.
  assert (Hsort : merge_sort log_le logs = window.*1).
  { apply sorted_logs; [done|]. rewrite fmap_app in Horder. by apply StronglySorted_app_1_r in Horder. }
  unfold readSettlementReceipts. rewrite Henv, Hsort.
  destruct window as [|[l paid] rest]; [done|]. cbn [fmap list_fmap fst].
  apply enforced_app in Hcounts. cbn [enforced] in Hcounts. destruct Hcounts as (Hp & Hc & Hrest).
  apply Forall_app in Hterms as [Hterms (Hl & _)%Forall_cons].
  destruct Hl as (Hls & Hld & Hlt). rewrite Hls, Hld.
  eexists. split; [cbn [receipts_from]; f_equal; by apply receipts_from_counted|].
  assert (Hfirst : ∀ t, from_time = Some t → t <= start + periodIndexOf l * duration →
    l_transferredInCurrentPeriod l = paid).
  { intros t Ht Hle. unfold counter_adds in Hc. specialize (Hbefore t Ht).
    destruct (last before.*1) as [p|] eqn:Hlast; [|lia].
    apply last_Some_elem_of in Hlast. apply list_elem_of_fmap in Hlast as ([p' x] & -> & Hin).
    rewrite Forall_forall in Hterms, Hbefore. specialize (Hterms _ Hin). specialize (Hbefore _ Hin).
    destruct Hterms as (? & ? & ?). cbn [fst] in Hc.
    rewrite (proj2 (Z.eqb_neq _ _)) in Hc by (by eapply period_start).
    lia. }
  unfold amount_after. split.
  - destruct from_time as [t|]; [|by right]. destruct (Z.leb_spec t (start + periodIndexOf l * duration));
      [left; f_equal; eauto|by right].
  - intros t Ht Hle. rewrite Ht, (proj2 (Z.leb_le _ _) Hle). f_equal. eauto.
Qed.
End receipts.

(** ** Roots are restored once *)
Section roots.
Context (hashDelegation : Delegation → string).
Notation is_root l := (toLowerCase (authority l) = ROOT_AUTHORITY).

Lemma seen_spec h seen : existsb (String.eqb h) seen = true ↔ h ∈ seen.
Proof.
  rewrite existsb_exists. setoid_rewrite String.eqb_eq. setoid_rewrite <- list_elem_of_In.
  naive_solver.
Qed.

Lemma select_roots_spec links : ∀ seen,
  let rs := select_roots hashDelegation seen links in
  NoDup (hashDelegation <$> rs)
  ∧ (∀ r, r ∈ rs → r ∈ links ∧ is_root r ∧ hashDelegation r ∉ seen)
  ∧ (∀ l, l ∈ links → is_root l → hashDelegation l ∉ seen →
       ∃ r, r ∈ rs ∧ hashDelegation r = hashDelegation l).
Proof.
  induction links as [|l links IH]; intros seen; cbn [select_roots].
  { split_and!; [constructor|..]; intros ? ?%not_elem_of_nil; done. }
  destruct (negb _ || _) eqn:Hskip.
  - destruct (IH seen) as (Hn & Hr & Hl). cbn zeta. split_and!; [done| |].
    + intros r Hin. destruct (Hr r Hin) as (? & ? & ?). split_and!; [by right|done..].
    + intros l' [->|Hin]%elem_of_cons Hroot Hseen; [|by apply Hl].
      apply orb_true_iff in Hskip as [Hne|Hs]; [|by apply seen_spec in Hs].
      apply negb_true_iff, String.eqb_neq in Hne. done.
  - apply orb_false_iff in Hskip as [Hroot%negb_false_iff%String.eqb_eq Hseen].
    assert (Hns : hashDelegation l ∉ seen).
    { intros Hs%seen_spec. congruence. }
    destruct (IH (hashDelegation l :: seen)) as (Hn & Hr & Hl). cbn zeta. split_and!.
    + cbn [fmap list_fmap]. constructor; [|done].
      intros (r & Hh & Hin)%list_elem_of_fmap. destruct (Hr r Hin) as (_ & _ & Hout). set_solver.
    + intros r [->|Hin]%elem_of_cons; [by split_and!; [left|..]|].
      destruct (Hr r Hin) as (? & ? & Hout). split_and!; [by right|done|set_solver].
    + intros l' [->|Hin]%elem_of_cons Hroot' Hseen'; [exists l; split; [left|done]|].
      destruct (decide (hashDelegation l' = hashDelegation l)) as [He|He];
        [exists l; split; [left|done]|].
      destruct (Hl l' Hin Hroot') as (r & Hr' & Hh); [set_solver|].
      exists r. split; [by right|done].
Qed.

(** The grants restored from the chain are the redeemed roots, once each: no payment
    leaf is listed as an agent, no busy root twice, and none that settled is missing. *)
Theorem grants_are_distinct_roots logs :
  let grants := readGrantsFromChain hashDelegation logs in
  NoDup (hashDelegation <$> grants)
  ∧ (∀ g, g ∈ grants → Some g ∈ logs ∧ is_root g)
  ∧ (∀ l, Some l ∈ logs → is_root l → ∃ g, g ∈ grants ∧ hashDelegation g = hashDelegation l).
Proof.
  unfold readGrantsFromChain, selectRootDelegations.
  destruct (select_roots_spec (omap id logs) []) as (Hn & Hr & Hl). cbn zeta. split_and!; [done| |].
  - intros g Hg. destruct (Hr g Hg) as (Hin & Hroot & _). split; [|done].
    apply list_elem_of_omap in Hin as (o & Ho & Hid). unfold id in Hid. by subst o.
  - intros l Hin Hroot. apply Hl; [|done|by apply not_elem_of_nil].
    apply list_elem_of_omap. by exists (Some l).
Qed.
End roots.

(** ** Witness: two payments of a period behind one that the range leaves out *)
Definition ex_log (block ts cumulative : Z) : TransferLog :=
  {| l_blockNumber := block; l_logIndex := None; l_transactionHash := "0x01";
     l_delegationHash := "0x02"; l_redeemer := "0x00000000000000000000000000000000000000aa";
     l_token := "0x00000000000000000000000000000000000000bb"; l_periodDuration := 60;
     l_startDate := 1000; l_transferredInCurrentPeriod := cumulative; l_transferTimestamp := ts |}.
Definition ex_env : Environment :=
  {| DelegationManager := ""; ERC20PeriodTransferEnforcer := Some "0x03";
     ERC20TransferAmountEnforcer := None; TimestampEnforcer := None |}.

Lemma ex_history :
  enforcer_history 1000 60
    ([(ex_log 5 1010 7, 7)] ++ [(ex_log 8 1070 4, 4); (ex_log 9 1075 9, 5)])%list.
Proof.
  assert (Hlt : ∀ a b t t' c c', a < b → log_lt (ex_log a t c) (ex_log b t' c')).
  { intros a b t t' c c' Hab. split; [left; exact Hab|]. unfold log_key. cbn. intros [= He]. lia. }
  split; [lia| |cbn; unfold counter_adds; vm_compute; intuition congruence|].
  - cbn [app]. repeat (constructor; [cbn; lia|]). constructor.
  - cbn [app fmap list_fmap fst]. repeat constructor; apply Hlt; lia.
Qed.

Lemma receipts_report_payments_witness :
  ∃ first, readSettlementReceipts ex_env [ex_log 9 1075 9; ex_log 8 1070 4] (Some 1050)
    = [receipt (ex_log 8 1070 4) first; receipt (ex_log 9 1075 9) (Some 5)] ∧ first = Some 4.
Proof.
  destruct (receipts_report_payments 1000 60 [(ex_log 5 1010 7, 7)]
    [(ex_log 8 1070 4, 4); (ex_log 9 1075 9, 5)] [ex_log 9 1075 9; ex_log 8 1070 4] ex_env "0x03"
    (Some 1050) ex_history ltac:(apply Permutation_swap) eq_refl
    ltac:(intros t Ht; injection Ht as <-; repeat (constructor; [cbn; lia|]); constructor))
    as (first & Hr & _ & Ht).
  exists first. split; [exact Hr|]. apply (Ht 1050 eq_refl). vm_compute. discriminate.
Defined.
