(* ===== verification/Gate.v ===== *)
(** * The agent's spending gate

    [packages/delegation/src/agent-runtime.ts]: the operator's spend policy as it is read
    from the environment, the gate that enforces it around the signer, and the pre-flight
    judgement over the status of every link.  A call of the wrapped provider is two steps,
    what runs before its one [await] and what runs after it, so calls interleave. *)

From Stdlib Require Import ZArith Lia Ascii String.
From stdpp Require Import base gmap strings list.
From S2P Require Import Prelude Toolkit Token Status.
Open Scope string_scope.
Open Scope Z_scope.

Record AgentSpendPolicy := {
  maxPerPaymentBase : option Z; maxSessionTotalBase : option Z; allowedPayTo : option (list string);
}.

(** The two fields of an offer that the gate reads. *)
Record Offer := { of_amount : string; of_payTo : string }.

Inductive PreflightVerdict :=
  | Clear
  | Stop (code : string) (detail : string).

Inductive Source := Period | Lifetime.
Record RemainingAllowance := { ra_amount : Z; ra_source : Source }.

Section gate.
Context `{Toolkit}.
Definition env := string → option string.

(** *** The policy *)
Definition readSpendCap (e : env) (name : string) : result (option Z) :=
  match trim <$> e name with
  | None => Ok None
  | Some raw =>
      if String.eqb raw "" then Ok None
      else match toTokenAmount raw with
           | Throw _ => Throw (Error (name ++ " must be a decimal " ++ MOCK_USDC_symbol
               ++ " amount with at most " ++ show_Z (Z.of_nat MOCK_USDC_decimals)
               ++ " fractional digits"))
           | Ok base =>
               throws base <=? 0 with
                 Error (name ++ " must be positive — unset the variable to remove the limit");
               Ok (Some base)
           end
  end.

Definition read_entry (name entry : string) : result string :=
  throws negb (isAddress entry) with Error (name ++ " entry is not an address: " ++ entry);
  throws String.eqb (getAddress entry) zeroAddress with
    Error (name ++ " must not list the zero address");
  Ok (getAddress entry).
Definition readPayToAllowlist (e : env) (name : string) : result (option (list string)) :=
  match trim <$> e name with
  | None => Ok None
  | Some raw =>
      if String.eqb raw "" then Ok None
      else
        let entries := List.filter (λ s, negb (String.eqb s ""))
                         (map (λ w, trim (string_of_list_ascii w)) (split_comma (chars raw))) in
        match entries with
        | [] => Throw (Error (name ++ " is set but lists no address — unset it to allow any payTo"))
        | _ => let? l := map_result (read_entry name) entries in Ok (Some l)
        end
  end.
Definition parseAgentSpendPolicy (e : env) : result AgentSpendPolicy :=
  let? cap := readSpendCap e "AGENT_MAX_PAYMENT_MUSDC" in
  let? budget := readSpendCap e "AGENT_SESSION_BUDGET_MUSDC" in
  let? allowed := readPayToAllowlist e "AGENT_ALLOWED_PAY_TO" in
  Ok {| maxPerPaymentBase := cap; maxSessionTotalBase := budget; allowedPayTo := allowed |}.

(** *** The gate *)
Definition exceeds (amount : Z) (cap : option Z) : bool :=
  match cap with Some c => c <? amount | None => false end.
Definition judge (policy : AgentSpendPolicy) (signedBase : Z) (o : Offer) : PreflightVerdict :=
  let amount := BigInt (of_amount o) in
  let payTo := getAddress (of_payTo o) in
  if match allowedPayTo policy with
     | Some l => negb (existsb (String.eqb payTo) l)
     | None => false
     end
  then Stop "SPEND_POLICY_REFUSED" ("payTo " ++ payTo ++ " is not in AGENT_ALLOWED_PAY_TO")
  else if exceeds amount (maxPerPaymentBase policy)
  then Stop "SPEND_POLICY_REFUSED" ("payment of " ++ show_Z amount
    ++ " exceeds the AGENT_MAX_PAYMENT_MUSDC cap of "
    ++ show_Z (default 0 (maxPerPaymentBase policy)))
  else if exceeds (signedBase + amount) (maxSessionTotalBase policy)
  then Stop "SPEND_POLICY_REFUSED" ("payment of " ++ show_Z amount
    ++ " would take this session to " ++ show_Z (signedBase + amount)
    ++ ", over the AGENT_SESSION_BUDGET_MUSDC of "
    ++ show_Z (default 0 (maxSessionTotalBase policy)))
  else Clear.

(** A call of the wrapped provider. *)
Inductive Call :=
  | Signing (o : Offer)
  | Signed (o : Offer)
  | Refused (o : Offer) (e : js_error)
  | Threw (o : Offer) (e : js_error).
Record GateState := { signedBase : Z; calls : list Call }.
Definition new_gate : GateState := {| signedBase := 0; calls := [] |}.

(** The synchronous part: the verdict and the reservation. *)
Definition wrap_call (policy : AgentSpendPolicy) (o : Offer) (g : GateState) : GateState :=
  match judge policy (signedBase g) o with
  | Stop _ detail =>
      {| signedBase := signedBase g;
         calls := (calls g ++ [Refused o (Error ("spend policy refused: " ++ detail))])%list |}
  | Clear =>
      {| signedBase := signedBase g + BigInt (of_amount o); calls := (calls g ++ [Signing o])%list |}
  end.
(** The inner provider answers, or throws. *)
Definition wrap_resumed (i : nat) (answer : result unit) (g : GateState) : GateState :=
  match calls g !! i with
  | Some (Signing o) =>
      match answer with
      | Ok _ => {| signedBase := signedBase g; calls := <[i := Signed o]> (calls g) |}
      | Throw e =>
          {| signedBase := signedBase g - BigInt (of_amount o); calls := <[i := Threw o e]> (calls g) |}
      end
  | _ => g
  end.

(** Offers reach the gate validated: a positive amount. *)
Inductive gate_step (policy : AgentSpendPolicy) (g : GateState) : GateState → Prop :=
  | gate_call o : 0 < BigInt (of_amount o) → gate_step policy g (wrap_call policy o g)
  | gate_resumed i answer : gate_step policy g (wrap_resumed i answer g).

(** *** The pre-flight judgement *)
Definition consider (tightest : option RemainingAllowance) (c : RemainingAllowance)
    : option RemainingAllowance :=
  match tightest with
  | None => Some c
  | Some t =>
      if ra_amount c <? ra_amount t then Some c
      else match ra_source c with
           | Lifetime => if ra_amount c =? ra_amount t then Some c else Some t
           | Period => Some t
           end
  end.
Definition candidates (s : DelegationStatus) : list RemainingAllowance :=
  (match remaining s with Some a => [{| ra_amount := a; ra_source := Period |}] | None => [] end
   ++ match lifetimeRemaining s with
      | Some a => [{| ra_amount := a; ra_source := Lifetime |}]
      | None => []
      end)%list.
Definition tightestRemaining (ss : list DelegationStatus) : option RemainingAllowance :=
  foldl consider None (concat (map candidates ss)).

Fixpoint inactive (ss : list DelegationStatus) : option string :=
  match ss with
  | [] => None
  | s :: ss' =>
      if revoked s then Some "permission was revoked"
      else if expired s then Some "permission has expired"
      else if notYetActive s then Some "permission is not active yet"
      else inactive ss'
  end.
Definition judgePreflight (ss : list DelegationStatus) (amount : Z) : PreflightVerdict :=
  match ss with
  | [] => Stop "PERMISSION_EMPTY"
            "permission context decodes to no delegations — nothing to spend under"
  | _ =>
      match inactive ss with
      | Some why => Stop "PERMISSION_INACTIVE" why
      | None =>
          match tightestRemaining ss with
          | Some t =>
              if ra_amount t <? amount
              then Stop "LIMIT_EXCEEDED"
                (match ra_source t with
                 | Period => "payment of " ++ show_Z amount ++ " exceeds " ++ show_Z (ra_amount t)
                     ++ " left in this period"
                 | Lifetime => "payment of " ++ show_Z amount ++ " exceeds "
                     ++ show_Z (ra_amount t) ++ " left in this permission's lifetime total — the total does not refresh with the period, so a new grant has to be signed"
                 end)
              else Clear
          | None => Clear
          end
      end
  end.

(** [preflight] of the runtime: the policy first, then the chain. *)
Definition preflight (policy : AgentSpendPolicy) (g : GateState)
    (read_status : Delegation → result DelegationStatus) (chain : list Delegation) (o : Offer)
    : result PreflightVerdict :=
  match judge policy (signedBase g) o with
  | Stop c d => Ok (Stop c d)
  | Clear =>
      let? ss := map_result read_status chain in
      Ok (judgePreflight ss (BigInt (of_amount o)))
  end.

(** ** The session budget *)
Definition committed_by (c : Call) : Z :=
  match c with Signing o | Signed o => BigInt (of_amount o) | _ => 0 end.
Definition committed (g : GateState) : Z := Zsum (committed_by <$> calls g).
Definition within_cap (policy : AgentSpendPolicy) (o : Offer) : Prop :=
  0 < BigInt (of_amount o)
  ∧ (∀ c, maxPerPaymentBase policy = Some c → BigInt (of_amount o) <= c)
  ∧ ∀ l, allowedPayTo policy = Some l → getAddress (of_payTo o) ∈ l.

Lemma existsb_elem_of x (l : list string) : existsb (String.eqb x) l = true ↔ x ∈ l.
Proof.
  rewrite existsb_exists. setoid_rewrite String.eqb_eq. setoid_rewrite <- list_elem_of_In. naive_solver.
Qed.

Lemma exceeds_false a cap : exceeds a cap = false ↔ ∀ c, cap = Some c → a <= c.
Proof. destruct cap as [c|]; simpl; [|naive_solver]. rewrite Z.ltb_ge. naive_solver. Qed.

(** When the gate lets a payment through. *)
Lemma judge_clear policy s o :
  judge policy s o = Clear ↔
    (∀ l, allowedPayTo policy = Some l → getAddress (of_payTo o) ∈ l)
    ∧ (∀ c, maxPerPaymentBase policy = Some c → BigInt (of_amount o) <= c)
    ∧ (∀ m, maxSessionTotalBase policy = Some m → s + BigInt (of_amount o) <= m).
Proof.
  unfold judge. rewrite <- !exceeds_false.
  assert (Hl : (∀ l, allowedPayTo policy = Some l → getAddress (of_payTo o) ∈ l)
    ↔ match allowedPayTo policy with
      | Some l => negb (existsb (String.eqb (getAddress (of_payTo o))) l) | None => false end = false).
  { destruct (allowedPayTo policy) as [l|]; [|naive_solver].
    rewrite negb_false_iff, existsb_elem_of. naive_solver. }
  rewrite Hl. repeat case_match; naive_solver congruence.
Qed.

Record gate_ok (policy : AgentSpendPolicy) (g : GateState) : Prop := {
  gok_sum : signedBase g = committed g;
  gok_budget : ∀ m, maxSessionTotalBase policy = Some m → 0 <= m → committed g <= m;
  gok_calls : ∀ c o, c ∈ calls g → c = Signing o ∨ c = Signed o → within_cap policy o;
}.

Lemma committed_app g c s :
  committed {| signedBase := s; calls := (calls g ++ [c])%list |} = committed g + committed_by c.
Proof.
  unfold committed. cbn [calls]. rewrite fmap_app, Zsum_app. cbn [fmap list_fmap].
  rewrite Zsum_cons. unfold Zsum at 2. simpl. lia.
Qed.

Lemma gate_step_ok policy g g' : gate_ok policy g → gate_step policy g g' → gate_ok policy g'.
Proof.
  intros [Hsum Hbud Hcalls] Hs. destruct Hs as [o Ho|i answer].
  - unfold wrap_call. destruct (judge policy (signedBase g) o) as [|c d] eqn:Hj.
    + apply judge_clear in Hj as (Hl & Hc & Hm). split.
      * rewrite committed_app. cbn [signedBase committed_by]. lia.
      * intros m Hmax Hpos. rewrite committed_app. cbn [committed_by]. specialize (Hm m Hmax). lia.
      * intros c o' [Hin| ->%list_elem_of_singleton]%elem_of_app Hco; [by eapply Hcalls|].
        assert (o' = o) as -> by naive_solver. by split_and!.
    + split.
      * rewrite committed_app. cbn [signedBase committed_by]. lia.
      * intros m Hmax Hpos. rewrite committed_app. cbn [committed_by]. specialize (Hbud m Hmax Hpos). lia.
      * intros c' o' [Hin| ->%list_elem_of_singleton]%elem_of_app Hco; [by eapply Hcalls|naive_solver].
  - unfold wrap_resumed. destruct (calls g !! i) as [[o| | |]|] eqn:Hi; try done.
    assert (Ho : within_cap policy o)
      by (eapply Hcalls; [by eapply list_elem_of_lookup_2|by left]).
    assert (Hput : ∀ c s, committed {| signedBase := s; calls := <[i:=c]> (calls g) |}
      = committed g - BigInt (of_amount o) + committed_by c).
    { intros c s. unfold committed. cbn [calls]. by rewrite (Zsum_fmap_insert _ _ _ _ _ Hi). }
    assert (Hkeep : ∀ new c o', (new = Signing o' ∨ new = Signed o' → o' = o) →
      c ∈ <[i:=new]> (calls g) → c = Signing o' ∨ c = Signed o' → within_cap policy o').
    { intros new c o' Hnew [j Hj]%list_elem_of_lookup Hco.
      apply list_lookup_insert_Some in Hj as [(-> & -> & _)|[_ Hj]].
      - rewrite Hnew by done. done.
      - eapply Hcalls; [by eapply list_elem_of_lookup_2|done]. }
    pose proof Ho as (Hpos & _).
    destruct answer as [u|e]; (split; [rewrite Hput; cbn [signedBase committed_by]; lia| |]);
      try (intros m Hmax Hm; rewrite Hput; cbn [committed_by]; specialize (Hbud m Hmax Hm); lia);
      intros c o' Hin Hco; (eapply Hkeep; [|exact Hin|exact Hco]); naive_solver.
Qed.

(** C4: The session budget holds under concurrency.  In every interleaving of wrapped calls,
    everything signed plus everything being signed stays within the operator's budget; each
    such payment is within the per-payment cap and goes to a listed payee; and the counter
    is exactly their sum, so a signing that threw has given its amount back and nothing
    else ever does. *)
Theorem session_budget_holds policy g :
  star (gate_step policy) new_gate g →
  signedBase g = committed g
  ∧ (∀ m, maxSessionTotalBase policy = Some m → 0 <= m → committed g <= m)
  ∧ (∀ o, Signed o ∈ calls g ∨ Signing o ∈ calls g →
       0 < BigInt (of_amount o)
       ∧ (∀ c, maxPerPaymentBase policy = Some c → BigInt (of_amount o) <= c)
       ∧ ∀ l, allowedPayTo policy = Some l → getAddress (of_payTo o) ∈ l).
Proof.
  intros Hs.
  assert (Hok : gate_ok policy g).
  { eapply star_invariant; [exact (gate_step_ok policy)| |exact Hs].
    split; [done|intros m _ Hm; exact Hm|]. by intros c o Hc%not_elem_of_nil. }
  destruct Hok as [Hsum Hbud Hcalls]. split_and!; [done|done|].
  intros o [Hin|Hin]; (eapply Hcalls; [exact Hin|auto]).
Qed.

(** ** What the environment means *)
Definition unset (e : env) (name : string) : Prop :=
  e name = None ∨ ∃ raw, e name = Some raw ∧ trim raw = "".

Lemma readSpendCap_ok e name c :
  readSpendCap e name = Ok c →
  match c with
  | None => unset e name
  | Some base => 0 < base ∧ ∃ raw, e name = Some raw ∧ toTokenAmount (trim raw) = Ok base
  end.
Proof.
  unfold readSpendCap, unset. destruct (e name) as [raw|]; cbn [fmap option_fmap option_map];
    [|intros [= <-]; by left].
  destruct (String.eqb_spec (trim raw) "") as [He|_]; [intros [= <-]; right; eauto|].
  destruct (toTokenAmount (trim raw)) as [base|] eqn:Ht; [|done].
  destruct (Z.leb_spec base 0); [done|]. intros [= <-]. eauto.
Qed.

Lemma read_entries_ok name l bs :
  map_result (read_entry name) l = Ok bs →
  length bs = length l
  ∧ Forall (λ b, ∃ a, a ∈ l ∧ isAddress a = true ∧ b = getAddress a ∧ b ≠ zeroAddress) bs.
Proof.
  revert bs. induction l as [|a l IH]; intros bs; cbn [map_result]; [by intros [= <-]|].
  rewrite rbind_ok. intros (b & Hb & Hbs). apply rbind_ok in Hbs as (bs' & Hbs & [= <-]).
  destruct (IH _ Hbs) as [Hlen Hall]. split; [simpl; lia|]. unfold read_entry in Hb.
  destruct (isAddress a) eqn:Ha; [|done].
  destruct (String.eqb_spec (getAddress a) zeroAddress); [done|]. injection Hb as <-.
  constructor; [exists a; split_and!; [left|done..]|].
  eapply Forall_impl; [exact Hall|]. intros b (a' & ? & ? & ? & ?). exists a'.
  split_and!; [by right|done..].
Qed.

Lemma readPayToAllowlist_ok e name l :
  readPayToAllowlist e name = Ok l →
  match l with
  | None => unset e name
  | Some bs => bs ≠ [] ∧ Forall (λ b, ∃ a, isAddress a = true ∧ b = getAddress a ∧ b ≠ zeroAddress) bs
  end.
Proof.
  unfold readPayToAllowlist, unset. destruct (e name) as [raw|]; cbn [fmap option_fmap option_map];
    [|intros [= <-]; by left].
  destruct (String.eqb_spec (trim raw) "") as [He|_]; [intros [= <-]; right; eauto|].
  cbv zeta. destruct (List.filter _ _) as [|x xs] eqn:Hf; [done|].
  rewrite rbind_ok. intros (bs & Hbs & [= <-]). apply read_entries_ok in Hbs as [Hlen Hall].
  split; [by destruct bs|]. eapply Forall_impl; [exact Hall|]. naive_solver.
Qed.

(** A limit the operator wrote is never lost.  If the runtime boots, a variable left
    unset or blank is the only way to have no limit; a cap that was written is exactly the
    positive amount its text names, and an allow list that was written is non-empty and
    holds canonical non-zero addresses.  Everything else stops the boot. *)
Theorem spend_policy_or_no_boot e p :
  parseAgentSpendPolicy e = Ok p →
  (∀ name cap, (name, cap) ∈ [("AGENT_MAX_PAYMENT_MUSDC", maxPerPaymentBase p);
                              ("AGENT_SESSION_BUDGET_MUSDC", maxSessionTotalBase p)] →
     match cap with
     | None => unset e name
     | Some base => 0 < base ∧ ∃ raw, e name = Some raw ∧ toTokenAmount (trim raw) = Ok base
     end)
  ∧ match allowedPayTo p with
    | None => unset e "AGENT_ALLOWED_PAY_TO"
    | Some l => l ≠ [] ∧ Forall (λ b, ∃ a, isAddress a = true ∧ b = getAddress a ∧ b ≠ zeroAddress) l
    end.
Proof.
  unfold parseAgentSpendPolicy. rewrite rbind_ok. intros (c & Hc & Hp).
  apply rbind_ok in Hp as (b & Hb & Hp). apply rbind_ok in Hp as (l & Hl & [= <-]).
  apply readSpendCap_ok in Hc, Hb. apply readPayToAllowlist_ok in Hl. split; [|exact Hl].
  cbn [maxPerPaymentBase maxSessionTotalBase].
  intros name cap [[= -> ->]|[[= -> ->]|[]%not_elem_of_nil]%elem_of_cons]%elem_of_cons; done.
Qed.

(** ** What pre-flight promises *)

Lemma inactive_none ss :
  inactive ss = None ↔ ∀ s, s ∈ ss → revoked s = false ∧ expired s = false ∧ notYetActive s = false.
Proof.
  induction ss as [|s ss IH]; cbn [inactive].
  { split; [|done]. by intros _ s ?%not_elem_of_nil. }
  setoid_rewrite elem_of_cons.
  destruct (revoked s) eqn:Hr, (expired s) eqn:He, (notYetActive s) eqn:Hn;
    try (split; [done|intros Hall; destruct (Hall s (or_introl eq_refl)) as (? & ? & ?); congruence]).
  rewrite IH. split; intros Hall s' Hs'; [destruct Hs' as [->|]; auto|auto].
Qed.

Definition beats (t c : RemainingAllowance) : Prop :=
  ra_amount t <= ra_amount c
  ∧ (ra_amount t = ra_amount c → ra_source c = Lifetime → ra_source t = Lifetime).

Lemma consider_beats t c :
  ∃ t', consider t c = Some t' ∧ (t' = c ∨ t = Some t') ∧ beats t' c
        ∧ ∀ t0, t = Some t0 → ∀ c', beats t0 c' → beats t' c'.
Proof.
  unfold consider, beats. destruct t as [t|]; [|exists c; naive_solver lia].
  destruct (Z.ltb_spec (ra_amount c) (ra_amount t)) as [Hlt|Hge].
  { exists c. split_and!; [done|by left|lia|done|]. intros t0 [= ->] c' [Hle _]. split; lia. }
  destruct (ra_source c) eqn:Hc; [exists t; naive_solver lia|].
  destruct (Z.eqb_spec (ra_amount c) (ra_amount t)) as [He|Hne]; [|exists t; naive_solver lia].
  exists c. split_and!; [done|by left|lia|done|]. intros t0 [= ->] c' [Hle Hs]. split; [lia|]. done.
Qed.

Lemma fold_consider l : ∀ t,
  match foldl consider t l with
  | None => t = None ∧ l = []
  | Some r => (r ∈ l ∨ t = Some r) ∧ (∀ c, c ∈ l → beats r c)
              ∧ ∀ t0, t = Some t0 → ∀ c', beats t0 c' → beats r c'
  end.
Proof.
  induction l as [|c l IH]; intros t; cbn [foldl].
  { destruct t as [t|]; [|done]. split_and!; [by right|by intros c ?%not_elem_of_nil|naive_solver]. }
  destruct (consider_beats t c) as (t' & Ht & Hor & Hc & Hkeep). rewrite Ht.
  specialize (IH (Some t')). destruct (foldl consider (Some t') l) as [r|]; [|by destruct IH].
  destruct IH as (Hr & Hl & Ht'). split_and!.
  - destruct Hr as [Hr|[= ->]]; [left; by right|]. destruct Hor as [->|?]; [left; by left|by right].
  - intros c' [->|Hin]%elem_of_cons; [by eapply Ht'|auto].
  - intros t0 H0 c' Hb. eapply Ht'; [done|]. by eapply Hkeep.
Qed.

Lemma tightest_min ss :
  match tightestRemaining ss with
  | None => ∀ s, s ∈ ss → remaining s = None ∧ lifetimeRemaining s = None
  | Some t => (∃ s, s ∈ ss ∧ t ∈ candidates s)
              ∧ ∀ s c, s ∈ ss → c ∈ candidates s → beats t c
  end.
Proof.
  unfold tightestRemaining. pose proof (fold_consider (concat (map candidates ss)) None) as Hf.
  assert (Hin : ∀ c, c ∈ concat (map candidates ss) ↔ ∃ s, s ∈ ss ∧ c ∈ candidates s).
  { intros c. rewrite !list_elem_of_In, in_concat. setoid_rewrite in_map_iff.
    setoid_rewrite list_elem_of_In. naive_solver. }
  destruct (foldl _ _ _) as [t|].
  - destruct Hf as ([Ht|] & Hb & _); [|done]. split; [by apply Hin|].
    intros s c Hs Hc. apply Hb, Hin. by exists s.
  - destruct Hf as [_ Hnil]. intros s Hs.
    assert (Hempty : ∀ c, c ∉ candidates s).
    { intros c Hc. assert (Hc' : c ∈ concat (map candidates ss)) by (apply Hin; by exists s).
      rewrite Hnil in Hc'. by apply not_elem_of_nil in Hc'. }
    unfold candidates in Hempty. destruct (remaining s) as [r|].
    { destruct (Hempty {| ra_amount := r; ra_source := Period |}). set_solver. }
    destruct (lifetimeRemaining s) as [r|]; [|done].
    destruct (Hempty {| ra_amount := r; ra_source := Lifetime |}). set_solver.
Qed.

Lemma candidates_fit s amount :
  (∀ c, c ∈ candidates s → amount <= ra_amount c)
  ↔ (∀ r, remaining s = Some r → amount <= r) ∧ (∀ r, lifetimeRemaining s = Some r → amount <= r).
Proof.
  rewrite <- Forall_forall. unfold candidates.
  destruct (remaining s) as [r|], (lifetimeRemaining s) as [r'|]; cbn [app];
    rewrite ?Forall_cons, ?Forall_nil; cbn [ra_amount]; naive_solver.
Qed.

(** The verdict over the statuses that were read. *)
Lemma judgePreflight_clear ss amount :
  judgePreflight ss amount = Clear ↔
    ss ≠ [] ∧ ∀ s, s ∈ ss →
      revoked s = false ∧ expired s = false ∧ notYetActive s = false
      ∧ (∀ r, remaining s = Some r → amount <= r)
      ∧ (∀ r, lifetimeRemaining s = Some r → amount <= r).
Proof.
  unfold judgePreflight. destruct ss as [|s0 ss0]; [naive_solver|].
  set (ss := s0 :: ss0). assert (Hne : ss ≠ []) by done. clearbody ss. clear s0 ss0.
  destruct (inactive ss) as [why|] eqn:Hi.
  { split; [done|]. intros [_ Hall]. exfalso.
    assert (Hn : inactive ss = None) by (apply inactive_none; naive_solver). congruence. }
  pose proof (proj1 (inactive_none ss) Hi) as Hact.
  assert (Hfit : (∀ s, s ∈ ss → ∀ c, c ∈ candidates s → amount <= ra_amount c)
    ↔ (∀ s, s ∈ ss → (∀ r, remaining s = Some r → amount <= r)
         ∧ (∀ r, lifetimeRemaining s = Some r → amount <= r))).
  { setoid_rewrite candidates_fit. done. }
  pose proof (tightest_min ss) as Ht. destruct (tightestRemaining ss) as [t|].
  - destruct Ht as ((s & Hs & Hc) & Hb). destruct (Z.ltb_spec (ra_amount t) amount) as [Hlt|Hge].
    + split; [done|]. intros [_ Hall]. exfalso.
      assert (Hle : amount <= ra_amount t) by (eapply Hfit; [naive_solver|exact Hs|exact Hc]). lia.
    + split; [|done]. intros _. split; [done|]. intros s' Hs'.
      destruct (Hact s' Hs') as (? & ? & ?).
      assert (Hf : ∀ c, c ∈ candidates s' → amount <= ra_amount c).
      { intros c Hc'. destruct (Hb s' c Hs' Hc') as [Hle _]. lia. }
      apply candidates_fit in Hf. naive_solver.
  - split; [|done]. intros _. split; [done|]. intros s Hs.
    destruct (Hact s Hs) as (? & ? & ?), (Ht s Hs) as [-> ->]. naive_solver.
Qed.

(** *** Against the chain *)
Context (hashDelegation : Delegation → string) (slice : string → Z → Z → string).

(** What the contracts check of one link when it is redeemed for an amount: not disabled,
    the timestamp thresholds (a zero threshold is none), the period's room, the total. *)
Definition link_allows (chain : ChainReads) (env : Environment) (now amount : Z) (d : Delegation)
    : Prop :=
  let manager := getAddress (DelegationManager env) in
  let h := hashDelegation d in
  disabledDelegations chain manager h = Ok false
  ∧ (∀ e t, terms_of d (TimestampEnforcer env) = Some (e, t) →
       (0 < hexToBigInt_slice t 0 16 → hexToBigInt_slice t 0 16 < now)
       ∧ (0 < hexToBigInt_slice t 16 32 → now < hexToBigInt_slice t 16 32))
  ∧ (∀ e t, terms_of d (ERC20PeriodTransferEnforcer env) = Some (e, t) →
       ∃ a, getAvailableAmount chain e h manager t = Ok a ∧ amount <= availableAmount a)
  ∧ (∀ e t, terms_of d (ERC20TransferAmountEnforcer env) = Some (e, t) →
       ∃ s, getSpentAmount chain e h manager = Ok s ∧ s + amount <= hexToBigInt_slice t 20 52).

Lemma traverse_ok {A B} (f : A → result B) o r :
  traverse f o = Ok r ↔ match o with None => r = None | Some a => ∃ b, f a = Ok b ∧ r = Some b end.
Proof.
  destruct o as [a|]; cbn [traverse]; [|naive_solver]. rewrite rbind_ok. naive_solver.
Qed.

Lemma timestamp_ok t v :
  decodeTimestampTerms t = Ok v → notBefore v = hexToBigInt_slice t 0 16 ∧ notAfter v = hexToBigInt_slice t 16 32.
Proof. unfold decodeTimestampTerms. destruct (negb _); [done|]. by intros [= <-]. Qed.
Lemma total_ok t v : decodeTransferAmountTerms slice t = Ok v → maxAmount v = hexToBigInt_slice t 20 52.
Proof. unfold decodeTransferAmountTerms. destruct (negb _); [done|]. by intros [= <-]. Qed.

(** The status of a link says what its contracts would. *)
Lemma status_allows chain env d override clock st amount :
  0 < amount → readDelegationStatus hashDelegation slice chain env d override clock = Ok st →
  (revoked st = false ∧ expired st = false ∧ notYetActive st = false
   ∧ (∀ r, remaining st = Some r → amount <= r)
   ∧ (∀ r, lifetimeRemaining st = Some r → amount <= r))
  ↔ link_allows chain env (resolveChainTime override (getBlock chain) clock) amount d.
Proof.
  intros Hpos. unfold readDelegationStatus, link_allows.
  set (now := resolveChainTime override (getBlock chain) clock).
  rewrite rbind_ok. intros (rev & Hrev & Hr). apply rbind_ok in Hr as (av & Hav & Hr).
  apply rbind_ok in Hr as (sp & Hsp & Hr). cbn zeta in Hr. apply rbind_ok in Hr as (v & Hv & Hr).
  destruct (judgeValidity v now) as [exp early] eqn:Hj.
  apply rbind_ok in Hr as (lt & Hlt & Hr). apply rbind_ok in Hr as (lim & _ & [= <-]).
  cbn [revoked expired notYetActive remaining lifetimeRemaining].
  apply traverse_ok in Hav, Hsp, Hv, Hlt. rewrite Hrev.
  assert (H1 : rev = false ↔ Ok rev = Ok (A := bool) false) by (split; congruence).
  assert (H2 : (exp = false ∧ early = false)
    ↔ (∀ e t, terms_of d (TimestampEnforcer env) = Some (e, t) →
         (0 < hexToBigInt_slice t 0 16 → hexToBigInt_slice t 0 16 < now)
         ∧ (0 < hexToBigInt_slice t 16 32 → now < hexToBigInt_slice t 16 32))).
  { destruct (terms_of d (TimestampEnforcer env)) as [[e t]|].
    - destruct Hv as (v' & Hd & ->). apply timestamp_ok in Hd as [Hb Ha].
      cbn [judgeValidity] in Hj. rewrite Hb, Ha in Hj. injection Hj as <- <-.
      rewrite !andb_false_iff, !Z.ltb_ge, !Z.leb_gt. split.
      + intros [H3 H4] e' t' [= <- <-]. lia.
      + intros Hall. specialize (Hall e t eq_refl). lia.
    - rewrite Hv in Hj. injection Hj as <- <-. naive_solver. }
  assert (H3 : (∀ r, availableAmount <$> av = Some r → amount <= r)
    ↔ (∀ e t, terms_of d (ERC20PeriodTransferEnforcer env) = Some (e, t) →
         ∃ a, getAvailableAmount chain e (hashDelegation d) (getAddress (DelegationManager env)) t = Ok a
              ∧ amount <= availableAmount a)).
  { destruct (terms_of d (ERC20PeriodTransferEnforcer env)) as [[e t]|].
    - destruct Hav as (a & Ha & ->). split.
      + intros Hr e' t' [= <- <-]. exists a. split; [done|]. by apply Hr.
      + intros Hall r [= <-]. destruct (Hall e t eq_refl) as (a' & Ha' & ?). congruence.
    - rewrite Hav. naive_solver. }
  assert (H4 : (∀ r, match lt, sp with
      | Some t, Some s => Some (if s <? maxAmount t then maxAmount t - s else 0)
      | _, _ => None end = Some r → amount <= r)
    ↔ (∀ e t, terms_of d (ERC20TransferAmountEnforcer env) = Some (e, t) →
         ∃ s, getSpentAmount chain e (hashDelegation d) (getAddress (DelegationManager env)) = Ok s
              ∧ s + amount <= hexToBigInt_slice t 20 52)).
  { destruct (terms_of d (ERC20TransferAmountEnforcer env)) as [[e t]|].
    - destruct Hsp as (s & Hs & ->), Hlt as (l & Hl & ->). apply total_ok in Hl. rewrite Hl. split.
      + intros Hr e' t' [= <- <-]. exists s. split; [done|]. specialize (Hr _ eq_refl).
        destruct (Z.ltb_spec s (hexToBigInt_slice t 20 52)); lia.
      + intros Hall r [= <-]. destruct (Hall e t eq_refl) as (s' & Hs' & ?).
        assert (s' = s) as -> by congruence. destruct (Z.ltb_spec s (hexToBigInt_slice t 20 52)); lia.
    - rewrite Hlt. naive_solver. }
  rewrite H3, H4, <- H1, <- H2. tauto.
Qed.

End gate.

(** ** Witnesses *)
Definition ex_policy : AgentSpendPolicy :=
  {| maxPerPaymentBase := Some 3000000; maxSessionTotalBase := Some 5000000; allowedPayTo := None |}.
Definition ex_offer : Offer :=
  {| of_amount := "2000000"; of_payTo := "0x00000000000000000000000000000000000000cc" |}.
(** Three concurrent calls against a budget of two and a half, one signing throws. *)
Definition ex_gate : GateState :=
  wrap_resumed 0 (Throw (Error "key locked"))
    (wrap_resumed 1 (Ok tt) (wrap_call ex_policy ex_offer (wrap_call ex_policy ex_offer
      (wrap_call ex_policy ex_offer new_gate)))).

Example ex_gate_state :
  signedBase ex_gate = 2000000
  ∧ (match calls ex_gate with
     | [Threw _ _; Signed _; Refused _ _] => true
     | _ => false
     end) = true.
Proof. vm_compute. split; reflexivity. Qed.

Lemma session_budget_holds_witness :
  signedBase ex_gate = committed ex_gate ∧ committed ex_gate <= 5000000.
Proof.
  assert (Hr : star (gate_step ex_policy) new_gate ex_gate).
  { repeat (eapply star_step; [|first [apply gate_resumed|apply gate_call; vm_compute; reflexivity]]).
    apply star_refl. }
  destruct (session_budget_holds ex_policy ex_gate Hr) as (Hs & Hm & _).
  split; [exact Hs|]. apply (Hm 5000000 eq_refl). lia.
Defined.

Definition ex_chain : ChainReads :=
  {| disabledDelegations _ _ := Ok false;
     getAvailableAmount _ _ _ _ :=
       Ok {| availableAmount := 10; av_isNewPeriod := false; av_currentPeriod := 1 |};
     getSpentAmount _ _ _ := Ok 0; getBlock := Some 100 |}.
Definition ex_link : Delegation :=
  {| delegate := "0x00000000000000000000000000000000000000d1";
     delegator := "0x00000000000000000000000000000000000000d2"; authority := "0x"; caveats := [];
     salt := "0x0"; signature := "0x" |}.
Definition ex_statuses : list DelegationStatus :=
  match map_result (λ d, readDelegationStatus authority (λ s _ _, s) ex_chain ex_env d None 0) [ex_link] with
  | Ok l => l | Throw _ => [] end.


Definition ex_environment (name : string) : option string :=
  if String.eqb name "AGENT_MAX_PAYMENT_MUSDC" then Some " 1.5 "
  else if String.eqb name "AGENT_ALLOWED_PAY_TO"
  then Some "0x00000000000000000000000000000000000000cc, " else None.
Definition ex_read : AgentSpendPolicy :=
  match parseAgentSpendPolicy ex_environment with
  | Ok p => p
  | Throw _ => {| maxPerPaymentBase := None; maxSessionTotalBase := None; allowedPayTo := None |}
  end.
Lemma spend_policy_or_no_boot_witness :
  maxPerPaymentBase ex_read = Some 1500000 ∧ (0 < 1500000 ∧ allowedPayTo ex_read ≠ None).
Proof.
  assert (Hp : parseAgentSpendPolicy ex_environment = Ok ex_read) by (vm_compute; reflexivity).
  destruct (spend_policy_or_no_boot ex_environment ex_read Hp) as [Hcap _].
  split; [vm_compute; reflexivity|]. split; [|vm_compute; discriminate].
  exact (proj1 (Hcap "AGENT_MAX_PAYMENT_MUSDC" (Some 1500000)
    ltac:(apply elem_of_cons; left; vm_compute; reflexivity))).
Defined.
