(* ===== verification/Policy.v ===== *)
(** * Delegation policies

    [packages/delegation/src/policy.ts]: the period policies of the five roles, the check
    that stands before every delegation, and the request the delegation is built from.
    The caveat builder and [createDelegation] belong to the Smart Accounts Kit: what is
    handed to them is [KitRequest], and [createDelegation] is an argument. *)

From Stdlib Require Import ZArith Lia Ascii String.
From stdpp Require Import base gmap strings list.
From S2P Require Import Prelude Toolkit X402 Token.
Open Scope string_scope.
Open Scope Z_scope.

Inductive D3Role := open_agent | vendor_agent | team_manager | child_a | child_b.
#[export] Instance D3Role_eq_dec : EqDecision D3Role.
Proof. solve_decision. Defined.

Record PeriodPolicy := {
  role : D3Role; token : string; periodAmount : Z; lifetimeTotalAmount : option Z;
  periodDurationSeconds : Z; expiresAfterSeconds : Z; recipient : option string;
}.

Definition LIFETIME_PERIODS : Z := 4.

(** [...BASE_POLICY] with the fields a role sets. *)
Definition base_policy (r : D3Role) (amount : Z) (total : option Z) (to : option string)
    : PeriodPolicy :=
  {| role := r; token := MOCK_USDC_address; periodAmount := amount; lifetimeTotalAmount := total;
     periodDurationSeconds := 60; expiresAfterSeconds := 30 * 60; recipient := to |}.

Section policy.
Context `{Toolkit}.

Definition buildD3Policies (fixedVendor : string) : result (D3Role → PeriodPolicy) :=
  let? openAgentPeriod := toTokenAmount "3" in
  let? vendorAgentPeriod := toTokenAmount "5" in
  let? teamManagerPeriod := toTokenAmount "6" in
  throws negb (isAddress fixedVendor) with
    JsError "InvalidAddressError" ("Address " ++ fixedVendor ++ " is invalid.");
  let? childA := toTokenAmount "4" in
  let? childB := toTokenAmount "4" in
  Ok (λ r, match r with
     | open_agent =>
         base_policy open_agent openAgentPeriod (Some (openAgentPeriod * LIFETIME_PERIODS)) None
     | vendor_agent =>
         base_policy vendor_agent vendorAgentPeriod (Some (vendorAgentPeriod * LIFETIME_PERIODS))
           (Some (getAddress fixedVendor))
     | team_manager =>
         base_policy team_manager teamManagerPeriod (Some (teamManagerPeriod * LIFETIME_PERIODS)) None
     | child_a => base_policy child_a childA None None
     | child_b => base_policy child_b childB None None
     end).

(** [Math.ceil(expiresAfterSeconds / periodDurationSeconds)] *)
Definition windowPeriods (p : PeriodPolicy) : Z :=
  - (- expiresAfterSeconds p / periodDurationSeconds p).
Definition positiveSafe (n : Z) : bool := isSafeInteger n && (0 <? n).

Definition assertPolicy (p : PeriodPolicy) (startDate : Z) : result unit :=
  throws periodAmount p <=? 0 with Error "periodAmount must be positive";
  throws negb (positiveSafe (periodDurationSeconds p)) with
    Error "periodDurationSeconds must be a positive safe integer";
  throws negb (positiveSafe (expiresAfterSeconds p)) with
    Error "expiresAfterSeconds must be a positive safe integer";
  throws negb (isSafeInteger startDate) || (startDate <? 0) with
    Error "startDate must be a non-negative Unix timestamp";
  match lifetimeTotalAmount p with
  | None => Ok tt
  | Some total =>
      throws total <=? 0 with Error "lifetimeTotalAmount must be positive";
      throws total <? periodAmount p with
        Error "lifetimeTotalAmount must not be smaller than periodAmount; lower periodAmount instead of hiding it behind a smaller total";
      let windowCeiling := periodAmount p * windowPeriods p in
      throws windowCeiling <=? total with
        Error ("lifetimeTotalAmount " ++ show_Z total ++ " can never bind: this validity window holds at most "
          ++ show_Z (windowPeriods p) ++ " periods × " ++ show_Z (periodAmount p) ++ " = "
          ++ show_Z windowCeiling
          ++ "; lower the total, or widen expiresAfterSeconds if the grant is meant to live that long");
      Ok tt
  end.

Inductive CaveatRequest :=
  | TimestampCaveat (afterThreshold beforeThreshold : Z)
  | Erc20TransferAmount (tokenAddress : string) (max : Z)
  | AllowedCalldata (startIndex : Z) (value : string).
Record PeriodScope := {
  sc_tokenAddress : string; sc_periodAmount : Z; sc_periodDuration : Z; sc_startDate : Z;
}.
Record KitRequest := {
  kr_from : string; kr_to : string; kr_salt : option string; kr_caveats : list CaveatRequest;
  kr_scope : PeriodScope; kr_parent : option string;
}.
Record PrepareParams := {
  pp_delegator : string; pp_delegate : string; pp_policy : PeriodPolicy; pp_startDate : Z;
  pp_salt : option string; pp_parent : option string;
}.

Context (pad32 : string → string) (createDelegation : KitRequest → result Delegation).

(** The request [preparePeriodDelegation] makes. *)
Definition period_request (x : PrepareParams) : KitRequest :=
  let p := pp_policy x in
  {| kr_from := pp_delegator x; kr_to := pp_delegate x; kr_salt := pp_salt x;
     kr_caveats :=
       ([TimestampCaveat (pp_startDate x) (pp_startDate x + expiresAfterSeconds p)]
        ++ match lifetimeTotalAmount p with
           | Some total => [Erc20TransferAmount (token p) total]
           | None => []
           end
        ++ match recipient p with
           | Some to => [AllowedCalldata 4 (pad32 to)]
           | None => []
           end)%list;
     kr_scope := {| sc_tokenAddress := token p; sc_periodAmount := periodAmount p;
                    sc_periodDuration := periodDurationSeconds p; sc_startDate := pp_startDate x |};
     kr_parent := pp_parent x |}.
Definition preparePeriodDelegation (x : PrepareParams) : result Delegation :=
  let? _ := assertPolicy (pp_policy x) (pp_startDate x) in
  createDelegation (period_request x).

Definition withDelegationSignature (d : Delegation) (sig : string) : result Delegation :=
  throws String.eqb sig "0x" with Error "delegation signature must not be empty";
  Ok {| delegate := delegate d; delegator := delegator d; authority := authority d;
        caveats := caveats d; salt := salt d; signature := sig |}.
End policy.

(** ** What the check admits *)
Record policy_ok (p : PeriodPolicy) (startDate : Z) : Prop := {
  po_amount : 0 < periodAmount p;
  po_duration : 0 < periodDurationSeconds p <= MAX_SAFE_INTEGER;
  po_expires : 0 < expiresAfterSeconds p <= MAX_SAFE_INTEGER;
  po_start : 0 <= startDate <= MAX_SAFE_INTEGER;
  po_total : ∀ total, lifetimeTotalAmount p = Some total →
    periodAmount p <= total < periodAmount p * windowPeriods p;
}.

Lemma positiveSafe_ok n : positiveSafe n = true ↔ 0 < n <= MAX_SAFE_INTEGER.
Proof.
  unfold positiveSafe, isSafeInteger. rewrite andb_true_iff, Z.leb_le, Z.ltb_lt. lia.
Qed.

Lemma assertPolicy_ok p startDate :
  assertPolicy p startDate = Ok tt ↔ policy_ok p startDate.
Proof.
  unfold assertPolicy. rewrite !throws_ok, !negb_false_iff, orb_false_iff, negb_false_iff.
  rewrite !positiveSafe_ok, Z.leb_gt, Z.ltb_ge. unfold isSafeInteger. rewrite Z.leb_le.
  assert (Htotal : match lifetimeTotalAmount p with
      | None => Ok tt
      | Some total =>
          throws total <=? 0 with Error "lifetimeTotalAmount must be positive";
          throws total <? periodAmount p with
            Error "lifetimeTotalAmount must not be smaller than periodAmount; lower periodAmount instead of hiding it behind a smaller total";
          let windowCeiling := periodAmount p * windowPeriods p in
          throws windowCeiling <=? total with
            Error ("lifetimeTotalAmount " ++ show_Z total ++ " can never bind: this validity window holds at most "
              ++ show_Z (windowPeriods p) ++ " periods × " ++ show_Z (periodAmount p) ++ " = "
              ++ show_Z windowCeiling
              ++ "; lower the total, or widen expiresAfterSeconds if the grant is meant to live that long");
          Ok tt
      end = Ok tt ↔ ∀ total, lifetimeTotalAmount p = Some total →
        0 < total ∧ periodAmount p <= total < periodAmount p * windowPeriods p).
  { destruct (lifetimeTotalAmount p) as [total|]; [|naive_solver]. cbv zeta.
    rewrite !throws_ok, !Z.leb_gt, Z.ltb_ge. naive_solver. }
  rewrite Htotal. split.
  - intros (H1 & H2 & H3 & (H4 & H5) & H6). split; [done..|lia|]. intros total Ht. by apply H6.
  - intros [H1 H2 H3 H4 H6]. split_and!; try lia. intros total Ht.
    specialize (H6 total Ht). split; [lia|done].
Qed.

(** The number of periods a validity window holds. *)
Lemma window_holds p t :
  0 < periodDurationSeconds p → 0 <= t < expiresAfterSeconds p →
  0 <= t / periodDurationSeconds p < windowPeriods p.
Proof.
  intros Hd Ht. split; [apply Z.div_pos; lia|]. unfold windowPeriods.
  pose proof (Z.div_mod (- expiresAfterSeconds p) (periodDurationSeconds p) ltac:(lia)).
  pose proof (Z.mod_pos_bound (- expiresAfterSeconds p) (periodDurationSeconds p) Hd).
  apply Z.div_lt_upper_bound; [done|]. nia.
Qed.

(** Every delegation that is built carries the limits its policy shows.  A delegation is
    prepared exactly for a policy whose period amount, period and window are positive and
    whose lifetime total, if any, is at least one period and strictly below what the
    window could ever move, so each number the owner signs can be the one that binds;
    both spending caveats count the same token, and the window is the timestamp caveat. *)
Theorem prepared_delegation_binds `{Toolkit} pad32 createDelegation x d :
  preparePeriodDelegation pad32 createDelegation x = Ok d ↔
    policy_ok (pp_policy x) (pp_startDate x)
    ∧ createDelegation (period_request pad32 x) = Ok d
    ∧ kr_caveats (period_request pad32 x) !! 0%nat
      = Some (TimestampCaveat (pp_startDate x)
                (pp_startDate x + expiresAfterSeconds (pp_policy x)))
    ∧ sc_periodAmount (kr_scope (period_request pad32 x)) = periodAmount (pp_policy x)
    ∧ (∀ t m, Erc20TransferAmount t m ∈ kr_caveats (period_request pad32 x) ↔
         lifetimeTotalAmount (pp_policy x) = Some m
         ∧ t = sc_tokenAddress (kr_scope (period_request pad32 x)))
    ∧ (∀ i v, AllowedCalldata i v ∈ kr_caveats (period_request pad32 x) ↔
         i = 4 ∧ ∃ to, recipient (pp_policy x) = Some to ∧ v = pad32 to).
Proof.
  unfold preparePeriodDelegation. rewrite rbind_ok. split.
  - intros ([] & Hp%assertPolicy_ok & Hd). split_and!; try done; intros;
      unfold period_request; cbn [kr_caveats kr_scope sc_tokenAddress];
      destruct (lifetimeTotalAmount (pp_policy x)), (recipient (pp_policy x)); cbn [app];
      rewrite ?elem_of_cons, elem_of_nil; naive_solver.
  - intros (Hp & Hd & _). exists tt. split; [by apply assertPolicy_ok|done].
Qed.

(** The five shipped policies pass their own check from any start date, and only the
    vendor's names a payee: the canonical form of the address it was built for. *)
Theorem d3_policies_ok `{Toolkit} vendor ps :
  buildD3Policies vendor = Ok ps →
  ∀ r, role (ps r) = r
    ∧ (∀ start, 0 <= start <= MAX_SAFE_INTEGER → assertPolicy (ps r) start = Ok tt)
    ∧ recipient (ps r) = (if decide (r = vendor_agent) then Some (getAddress vendor) else None)
    ∧ (lifetimeTotalAmount (ps r) = None ↔ r = child_a ∨ r = child_b).
Proof.
  unfold buildD3Policies.
  change (toTokenAmount "3") with (Ok (A := Z) 3000000). change (toTokenAmount "4") with (Ok (A := Z) 4000000).
  change (toTokenAmount "5") with (Ok (A := Z) 5000000). change (toTokenAmount "6") with (Ok (A := Z) 6000000).
  cbn [rbind]. rewrite throws_ok. intros [_ [= <-]] r.
  split_and!; [by destruct r| |by destruct r|destruct r; naive_solver].
  intros start Hs. apply assertPolicy_ok.
  destruct r; (split; [done|done|done|done|by intros ? [= <-]]).
Qed.

(** ** Witnesses *)
Definition ex_vendor : string := "0x00000000000000000000000000000000000000cc".
Lemma d3_policies_ok_witness :
  match buildD3Policies ex_vendor with
  | Ok ps => recipient (ps vendor_agent) = Some ex_vendor ∧ assertPolicy (ps open_agent) 7 = Ok tt
  | Throw _ => False
  end.
Proof.
  destruct (buildD3Policies ex_vendor) as [ps|e] eqn:Hb; [|vm_compute in Hb; discriminate Hb].
  destruct (d3_policies_ok ex_vendor ps Hb vendor_agent) as (_ & _ & Hv & _).
  destruct (d3_policies_ok ex_vendor ps Hb open_agent) as (_ & Ha & _).
  split; [exact Hv|]. apply Ha. unfold MAX_SAFE_INTEGER. lia.
Defined.
