(* ===== verification/Oracle.v ===== *)
(** * The policy oracle

    [DelegationPolicyOracle] of [packages/delegation/src/oracle.ts]: the conjunction
    semantics of a delegation chain.  Every ancestor and the leaf must permit a
    settlement, and each of them is charged, in its period and for its lifetime. *)

From Stdlib Require Import ZArith Lia Ascii String DecimalString.
From stdpp Require Import base gmap strings list sets.
From S2P Require Import Prelude Toolkit Token Policy.
Open Scope string_scope.
Open Scope Z_scope.

Definition PolicyViolation (code message : string) : js_error := JsError ("PolicyViolation " ++ code) message.

Record OracleDelegation := {
  od_id : string; od_policy : PeriodPolicy; od_delegate : string; od_startDate : Z;
  od_parentId : option string; od_redeemers : option (list string);
}.
Record StoredDelegation := { sd_input : OracleDelegation; sd_revoked : bool }.
Record OracleSettlement := {
  os_settlementId : string; os_delegationId : string; os_amount : Z; os_payTo : string;
  os_redeemer : string; os_at : Z;
}.

Record Oracle := {
  delegations : gmap string StoredDelegation;
  spent : gmap string Z;
  lifetimeSpent : gmap string Z;
  settled : gset string;
}.
Definition new_oracle : Oracle :=
  {| delegations := ∅; spent := ∅; lifetimeSpent := ∅; settled := ∅ |}.
Definition set_delegations (m : gmap string StoredDelegation) (o : Oracle) : Oracle :=
  {| delegations := m; spent := spent o; lifetimeSpent := lifetimeSpent o; settled := settled o |}.

(** An identifier that is present and not the empty text, as [if (parentId)] reads it. *)
Definition parent_of (d : OracleDelegation) : option string :=
  match od_parentId d with
  | Some p => if String.eqb p "" then None else Some p
  | None => None
  end.

(** [Math.floor(elapsed / duration)] as text. *)
Definition period_text (d : OracleDelegation) (at_ : Z) : string :=
  let elapsed := Z.max 0 (at_ - od_startDate d) in
  let duration := periodDurationSeconds (od_policy d) in
  if duration =? 0 then (if elapsed =? 0 then "NaN" else "Infinity")
  else show_Z (elapsed / duration).
Definition bucketKey (d : OracleDelegation) (at_ : Z) : string :=
  od_id d ++ ":" ++ period_text d at_.

Definition require (id : string) (o : Oracle) : result StoredDelegation :=
  match delegations o !! id with
  | Some d => Ok d
  | None => Throw (PolicyViolation "UNKNOWN_DELEGATION" ("unknown delegation " ++ id))
  end.

Section oracle.
(** [getAddress_on n] is [getAddress] with a chain id. *)
Context `{Toolkit} (getAddress_on : Z → string → string).

Definition canonical (a : string) : result string :=
  throws negb (isAddress a) with JsError "InvalidAddressError" ("Address " ++ a ++ " is invalid.");
  Ok (getAddress a).
(** [redeemers?.map(getAddress)]: [map] passes the index on, as the chain id; zero is none. *)
Fixpoint canonical_list (index : Z) (l : list string) : result (list string) :=
  match l with
  | [] => Ok []
  | a :: l' =>
      let? b := canonical a in
      let? bs := canonical_list (index + 1) l' in
      Ok ((if index =? 0 then b else getAddress_on index a) :: bs)
  end.
Definition canonical_redeemers (l : option (list string)) : result (option (list string)) :=
  match l with None => Ok None | Some l => let? bs := canonical_list 0 l in Ok (Some bs) end.

Definition register (input : OracleDelegation) : tx Oracle unit := λ o,
  throws String.eqb (trim (od_id input)) "" with Error "delegation id is required";
  throws bool_decide (is_Some (delegations o !! od_id input)) with
    Error ("duplicate delegation " ++ od_id input);
  throws match parent_of input with
         | Some p => bool_decide (delegations o !! p = None)
         | None => false
         end with Error ("unknown parent delegation " ++ default "" (od_parentId input));
  throws negb (isSafeInteger (od_startDate input)) || (od_startDate input <? 0) with
    Error "startDate must be a non-negative Unix timestamp";
  let? delegate_ := canonical (od_delegate input) in
  let? redeemers := canonical_redeemers (od_redeemers input) in
  let stored := {| sd_input := {| od_id := od_id input; od_policy := od_policy input;
                     od_delegate := delegate_; od_startDate := od_startDate input;
                     od_parentId := od_parentId input; od_redeemers := redeemers |};
                   sd_revoked := false |} in
  Ok (tt, set_delegations (<[od_id input := stored]> (delegations o)) o).

Definition revoke (id : string) : tx Oracle unit := λ o,
  let? d := require id o in
  Ok (tt, set_delegations
            (<[id := {| sd_input := sd_input d; sd_revoked := true |}]> (delegations o)) o).

(** [rotate] revokes first: when the replacement is refused, the old one stays revoked. *)
Definition rotate (oldId : string) (replacement : OracleDelegation) : meth Oracle unit := λ o,
  match revoke oldId o with
  | Throw e => (Throw e, o)
  | Ok (_, o1) =>
      match register replacement o1 with
      | Throw e => (Throw e, o1)
      | Ok (_, o2) => (Ok tt, o2)
      end
  end.

(** What one delegation still allows. *)
Definition remaining_of (d : OracleDelegation) (at_ : Z) (o : Oracle) : Z :=
  let s := default 0 (spent o !! bucketKey d at_) in
  let periodRemaining := if s <? periodAmount (od_policy d) then periodAmount (od_policy d) - s else 0 in
  match lifetimeTotalAmount (od_policy d) with
  | None => periodRemaining
  | Some total =>
      let l := default 0 (lifetimeSpent o !! od_id d) in
      let lifetimeRemaining := if l <? total then total - l else 0 in
      if lifetimeRemaining <? periodRemaining then lifetimeRemaining else periodRemaining
  end.
Definition remaining (id : string) (at_ : Z) (o : Oracle) : result Z :=
  let? d := require id o in Ok (remaining_of (sd_input d) at_ o).

(** The chain of a delegation, leaf first. *)
Fixpoint lineage_loop (fuel : nat) (visited : list string) (id : string) (o : Oracle)
    : result (list StoredDelegation) :=
  match fuel with
  | O => Throw (Error "out of fuel")
  | S fuel' =>
      let? d := require id o in
      throws existsb (String.eqb (od_id (sd_input d))) visited with
        Error "delegation hierarchy contains a cycle";
      match parent_of (sd_input d) with
      | None => Ok [d]
      | Some p =>
          let? rest := lineage_loop fuel' (od_id (sd_input d) :: visited) p o in Ok (d :: rest)
      end
  end.
Definition lineage (id : string) (o : Oracle) : result (list StoredDelegation) :=
  lineage_loop (S (base.size (delegations o))) [] id o.

(** The checks of one link. *)
Definition permit (input : OracleSettlement) (payTo redeemer : string) (o : Oracle)
    (s : StoredDelegation) : result unit :=
  let d := sd_input s in
  throws sd_revoked s with PolicyViolation "REVOKED" ("delegation " ++ od_id d ++ " is revoked");
  throws os_at input <? od_startDate d with
    PolicyViolation "NOT_STARTED" ("delegation " ++ od_id d ++ " is not active");
  throws od_startDate d + expiresAfterSeconds (od_policy d) <=? os_at input with
    PolicyViolation "EXPIRED" ("delegation " ++ od_id d ++ " expired");
  let? denied := match recipient (od_policy d) with
                 | Some r =>
                     if String.eqb r "" then Ok false
                     else let? r' := canonical r in Ok (negb (String.eqb r' payTo))
                 | None => Ok false
                 end in
  throws denied with
    PolicyViolation "RECIPIENT_DENIED" ("delegation " ++ od_id d ++ " forbids recipient " ++ payTo);
  throws match od_redeemers d with
         | Some l => negb (existsb (String.eqb redeemer) l)
         | None => false
         end with
    PolicyViolation "REDEEMER_DENIED" ("delegation " ++ od_id d ++ " forbids redeemer " ++ redeemer);
  let? available := remaining (od_id d) (os_at input) o in
  throws available <? os_amount input with
    PolicyViolation "LIMIT_EXCEEDED"
      ("delegation " ++ od_id d ++ " has " ++ show_Z available ++ " remaining");
  Ok tt.
Fixpoint permit_all (input : OracleSettlement) (payTo redeemer : string) (o : Oracle)
    (l : list StoredDelegation) : result unit :=
  match l with
  | [] => Ok tt
  | s :: l' => let? _ := permit input payTo redeemer o s in permit_all input payTo redeemer o l'
  end.

Definition charge_map (k : string) (amount : Z) (m : gmap string Z) : gmap string Z :=
  <[k := default 0 (m !! k) + amount]> m.
Definition charge (input : OracleSettlement) (o : Oracle) (s : StoredDelegation) : Oracle :=
  {| delegations := delegations o;
     spent := charge_map (bucketKey (sd_input s) (os_at input)) (os_amount input) (spent o);
     lifetimeSpent := charge_map (od_id (sd_input s)) (os_amount input) (lifetimeSpent o);
     settled := settled o |}.

Definition settle (input : OracleSettlement) : tx Oracle unit := λ o,
  throws os_amount input <=? 0 with PolicyViolation "INVALID_AMOUNT" "amount must be positive";
  throws bool_decide (os_settlementId input ∈ settled o) with
    PolicyViolation "REPLAY" ("settlement " ++ os_settlementId input ++ " already consumed");
  let? l := lineage (os_delegationId input) o in
  let? payTo := canonical (os_payTo input) in
  let? redeemer := canonical (os_redeemer input) in
  let? _ := permit_all input payTo redeemer o l in
  let o' := foldl (charge input) o l in
  Ok (tt, {| delegations := delegations o'; spent := spent o'; lifetimeSpent := lifetimeSpent o';
             settled := {[os_settlementId input]} ∪ settled o' |}).

(** A history, with the settlements it accepted and the chains they were charged to. *)
Definition History := list (OracleSettlement * list StoredDelegation).
Inductive oracle_step : Oracle * History → Oracle * History → Prop :=
  | step_register i o o' a : register i o = Ok (tt, o') → oracle_step (o, a) (o', a)
  | step_revoke id o o' a : revoke id o = Ok (tt, o') → oracle_step (o, a) (o', a)
  | step_rotate id i o r o' a : rotate id i o = (r, o') → oracle_step (o, a) (o', a)
  | step_settle i l o o' a :
      settle i o = Ok (tt, o') → lineage (os_delegationId i) o = Ok l →
      oracle_step (o, a) (o', (i, l) :: a).
End oracle.

(** ** Keys and chains *)
Definition sid (s : StoredDelegation) : string := od_id (sd_input s).

Lemma append_colon_inj s1 s2 t1 t2 :
  ":"%char ∉ chars t1 → ":"%char ∉ chars t2 →
  s1 ++ ":" ++ t1 = s2 ++ ":" ++ t2 → s1 = s2 ∧ t1 = t2.
Proof.
  intros H1 H2 He. apply (f_equal chars) in He. rewrite !chars_append in He.
  change (chars ":") with [":"%char] in He.
  assert (Hinj : ∀ a b : string, chars a = chars b → a = b).
  { intros a b Hab%(f_equal string_of_list_ascii). unfold chars in Hab.
    by rewrite !string_of_list_ascii_of_string in Hab. }
  assert (Hl : ∀ l1 l2 k1 k2 : list ascii, ":"%char ∉ k1 → ":"%char ∉ k2 →
    (l1 ++ [":"%char] ++ k1)%list = (l2 ++ [":"%char] ++ k2)%list → l1 = l2 ∧ k1 = k2).
  { clear. induction l1 as [|c l1 IH]; intros [|c2 l2] k1 k2 H1 H2 He; cbn in He.
    - by injection He.
    - injection He as <- ->. set_solver.
    - injection He as -> <-. set_solver.
    - injection He as -> He. destruct (IH _ _ _ H1 H2 He) as [-> ->]. done. }
  apply Hl in He as [Ha Hb]; auto.
Qed.

Lemma uint_no_colon d : ":"%char ∉ chars (NilEmpty.string_of_uint d).
Proof. induction d; unfold chars in *; cbn; set_solver. Qed.

Lemma show_no_colon z : ":"%char ∉ chars (show_Z z).
Proof.
  unfold show_Z. destruct (Z.to_int z) as [d|d]; cbn [NilZero.string_of_int];
    (assert (Hd : ":"%char ∉ chars (NilZero.string_of_uint d));
     [destruct d; cbn [NilZero.string_of_uint]; try apply uint_no_colon; vm_compute; set_solver|]);
    [done|]. change (chars (String "-" ?s)) with ("-"%char :: chars s). set_solver.
Qed.

Lemma period_no_colon d at_ : ":"%char ∉ chars (period_text d at_).
Proof.
  unfold period_text. destruct (_ =? 0); [|apply show_no_colon].
  destruct (_ =? 0); vm_compute; set_solver.
Qed.

Lemma bucketKey_inj d1 d2 t1 t2 :
  bucketKey d1 t1 = bucketKey d2 t2 → od_id d1 = od_id d2 ∧ period_text d1 t1 = period_text d2 t2.
Proof. apply append_colon_inj; apply period_no_colon. Qed.

(** A chain: known links, each naming the next as its parent, the last naming none. *)
Fixpoint is_chain (o : Oracle) (id : string) (l : list StoredDelegation) : Prop :=
  match l with
  | [] => False
  | d :: l' =>
      delegations o !! id = Some d
      ∧ match parent_of (sd_input d) with
        | Some p => is_chain o p l'
        | None => l' = []
        end
  end.

(** Parents are registered first. *)
Record forest (o : Oracle) : Prop := {
  fo_id : ∀ id d, delegations o !! id = Some d → sid d = id;
  fo_rank : ∃ rank : string → nat, ∀ id d, delegations o !! id = Some d →
    (rank id < base.size (delegations o))%nat
    ∧ ∀ p, parent_of (sd_input d) = Some p → is_Some (delegations o !! p) ∧ (rank p < rank id)%nat;
}.

Lemma lineage_loop_ok o (Hid : ∀ id d, delegations o !! id = Some d → sid d = id) fuel :
  ∀ visited id l, lineage_loop fuel visited id o = Ok l →
    is_chain o id l ∧ NoDup (sid <$> l) ∧ Forall (λ d, sid d ∉ visited) l.
Proof.
  induction fuel as [|fuel IH]; intros visited id l; cbn [lineage_loop]; [done|].
  rewrite rbind_ok. intros (d & Hd & Hl). unfold require in Hd.
  destruct (delegations o !! id) as [d'|] eqn:Hlook; [injection Hd as ->|done].
  apply throws_ok in Hl as [Hv Hl]. pose proof (Hid _ _ Hlook) as Hs. fold (sid d) in Hl, Hv.
  assert (Hnv : sid d ∉ visited).
  { intros Hin. apply not_true_iff_false in Hv. apply Hv. apply existsb_exists.
    exists (sid d). rewrite <- list_elem_of_In. split; [done|by apply String.eqb_eq]. }
  destruct (parent_of (sd_input d)) as [p|] eqn:Hp.
  - apply rbind_ok in Hl as (rest & Hrest & [= <-]).
    destruct (IH _ _ _ Hrest) as (Hc & Hn & Hf). cbn [is_chain fmap list_fmap]. rewrite Hp.
    split_and!; [done|done| |].
    + constructor; [|done]. intros Hin. apply list_elem_of_fmap in Hin as (d2 & He & Hin).
      rewrite Forall_forall in Hf. apply (Hf d2 Hin). rewrite <- He. left.
    + constructor; [done|]. eapply Forall_impl; [exact Hf|]. set_solver.
  - injection Hl as <-. cbn [is_chain fmap list_fmap]. rewrite Hp.
    split_and!; [done|done|apply NoDup_singleton|by constructor].
Qed.

Lemma lineage_loop_runs o rank
  (Hid : ∀ id d, delegations o !! id = Some d → sid d = id)
  (Hrank : ∀ id d, delegations o !! id = Some d → ∀ p, parent_of (sd_input d) = Some p →
     is_Some (delegations o !! p) ∧ (rank p < rank id)%nat) fuel :
  ∀ visited id, is_Some (delegations o !! id) → (rank id < fuel)%nat →
    Forall (λ v, (rank id < rank v)%nat) visited →
    ∃ l, lineage_loop fuel visited id o = Ok l.
Proof.
  induction fuel as [|fuel IH]; intros visited id [d Hd] Hlt Hv; [lia|].
  cbn [lineage_loop]. unfold require. rewrite Hd. cbn [rbind]. fold (sid d).
  rewrite (Hid _ _ Hd).
  destruct (existsb (String.eqb id) visited) eqn:He.
  { apply existsb_exists in He as (v & Hin & ->%String.eqb_eq). rewrite Forall_forall in Hv.
    apply list_elem_of_In, Hv in Hin. lia. }
  cbn [throw_when rbind]. destruct (parent_of (sd_input d)) as [p|] eqn:Hp; [|eauto].
  destruct (Hrank _ _ Hd p Hp) as [Hsome Hr].
  destruct (IH (id :: visited) p Hsome) as [l ->]; [lia| |eauto].
  constructor; [done|]. eapply Forall_impl; [exact Hv|]. simpl. intros v. lia.
Qed.

Lemma lineage_ok o id l :
  forest o → lineage id o = Ok l → is_chain o id l ∧ NoDup (sid <$> l).
Proof.
  intros [Hid _] Hl. apply lineage_loop_ok in Hl as (? & ? & _); [done|exact Hid].
Qed.

Lemma lineage_runs o id : forest o → is_Some (delegations o !! id) → ∃ l, lineage id o = Ok l.
Proof.
  intros [Hid [rank Hrank]] [d Hd]. eapply (lineage_loop_runs o rank); [exact Hid| |by eexists| |constructor].
  - intros id' d' Hd'. by apply Hrank.
  - destruct (Hrank _ _ Hd). lia.
Qed.

Lemma chain_known o l : ∀ id d, is_chain o id l → d ∈ l → ∃ k, delegations o !! k = Some d.
Proof.
  induction l as [|x l IH]; intros id d; cbn [is_chain]; [done|].
  intros [Hx Hp] [->|Hin]%elem_of_cons; [eauto|].
  destruct (parent_of (sd_input x)) as [p|]; [eauto|]. subst l. by apply not_elem_of_nil in Hin.
Qed.

(** ** Charges *)
Definition charges (k : string) (ks : list string) (amount : Z) : Z :=
  if decide (k ∈ ks) then amount else 0.

Lemma charge_map_lookup k k' x m :
  default 0 (charge_map k x m !! k') = default 0 (m !! k') + (if decide (k' = k) then x else 0).
Proof.
  unfold charge_map. destruct (decide (k' = k)) as [->|Hne].
  - by rewrite lookup_insert_eq.
  - rewrite lookup_insert_ne by done. lia.
Qed.

Lemma charges_cons k k0 ks x :
  k0 ∉ ks → charges k (k0 :: ks) x = (if decide (k = k0) then x else 0) + charges k ks x.
Proof.
  intros Hn. unfold charges. destruct (decide (k = k0)) as [->|Hne].
  - rewrite decide_True by left. rewrite decide_False by done. lia.
  - destruct (decide (k ∈ ks)); [rewrite decide_True by (by right)|rewrite decide_False by set_solver]; lia.
Qed.

Definition link_keys (s : OracleSettlement) (l : list StoredDelegation) : list string :=
  (λ d, bucketKey (sd_input d) (os_at s)) <$> l.

Lemma charge_spec i l : ∀ o,
  NoDup (sid <$> l) →
  let o' := foldl (charge i) o l in
  delegations o' = delegations o ∧ settled o' = settled o
  ∧ (∀ k, default 0 (lifetimeSpent o' !! k)
          = default 0 (lifetimeSpent o !! k) + charges k (sid <$> l) (os_amount i))
  ∧ (∀ k, default 0 (spent o' !! k)
          = default 0 (spent o !! k) + charges k (link_keys i l) (os_amount i)).
Proof.
  induction l as [|d l IH]; intros o Hn; cbn [foldl].
  { unfold charges. cbn. split_and!; [done..| |]; intros k;
      rewrite decide_False by (by apply not_elem_of_nil); lia. }
  cbn [fmap list_fmap] in Hn. apply NoDup_cons in Hn as [Hd Hn].
  destruct (IH (charge i o d) Hn) as (H1 & H2 & H3 & H4). cbn zeta.
  assert (Hk : bucketKey (sd_input d) (os_at i) ∉ link_keys i l).
  { intros (d2 & He & Hin)%list_elem_of_fmap. apply bucketKey_inj in He as [He _].
    apply Hd, list_elem_of_fmap. exists d2. split; [exact He|done]. }
  split_and!; [done|done| |]; intros k.
  - rewrite H3. cbn [fmap list_fmap]. rewrite charges_cons by done. unfold charge.
    cbn [lifetimeSpent]. rewrite charge_map_lookup. change (od_id (sd_input d)) with (sid d). lia.
  - rewrite H4. unfold link_keys. cbn [fmap list_fmap]. rewrite charges_cons by done. unfold charge.
    cbn [spent]. rewrite charge_map_lookup. lia.
Qed.

(** What a history charged to a delegation, and to a bucket. *)
Definition through (id : string) (h : History) : Z :=
  Zsum ((λ e, charges id (sid <$> e.2) (os_amount e.1)) <$> h).
Definition through_bucket (k : string) (h : History) : Z :=
  Zsum ((λ e, charges k (link_keys e.1 e.2) (os_amount e.1)) <$> h).

Lemma through_cons id s l h :
  through id ((s, l) :: h) = charges id (sid <$> l) (os_amount s) + through id h.
Proof. done. Qed.
Lemma through_bucket_cons k s l h :
  through_bucket k ((s, l) :: h) = charges k (link_keys s l) (os_amount s) + through_bucket k h.
Proof. done. Qed.

Lemma charges_zero k ks x : k ∉ ks → charges k ks x = 0.
Proof. intros Hk. unfold charges. by rewrite decide_False. Qed.

(** ** Every history *)
Record entry_ok (o : Oracle) (s : OracleSettlement) (l : list StoredDelegation) : Prop := {
  eo_amount : 0 < os_amount s;
  eo_settled : os_settlementId s ∈ settled o;
  eo_nodup : NoDup (sid <$> l);
  eo_links : ∀ d, d ∈ l →
    (∃ b, delegations o !! sid d = Some {| sd_input := sd_input d; sd_revoked := b |})
    ∧ od_startDate (sd_input d) <= os_at s
      < od_startDate (sd_input d) + expiresAfterSeconds (od_policy (sd_input d));
}.
Record oracle_ok (w : Oracle * History) : Prop := {
  ook_forest : forest w.1;
  ook_entries : ∀ s l, (s, l) ∈ w.2 → entry_ok w.1 s l;
  ook_ids : NoDup ((λ e, os_settlementId e.1) <$> w.2);
  ook_life : ∀ k, default 0 (lifetimeSpent w.1 !! k) = through k w.2;
  ook_spent : ∀ k, default 0 (spent w.1 !! k) = through_bucket k w.2;
  ook_total : ∀ id d total, delegations w.1 !! id = Some d →
    lifetimeTotalAmount (od_policy (sd_input d)) = Some total → through id w.2 <= Z.max 0 total;
  ook_period : ∀ id d at_, delegations w.1 !! id = Some d →
    through_bucket (bucketKey (sd_input d) at_) w.2 <= Z.max 0 (periodAmount (od_policy (sd_input d)));
}.

(** A delegation nothing was charged to. *)
Lemma fresh_through w id : oracle_ok w → delegations w.1 !! id = None → through id w.2 = 0.
Proof.
  intros Hok Hn. apply Zsum_zero, Forall_fmap, Forall_forall. intros [s l] Hin. cbn.
  apply charges_zero. intros (d & -> & Hd)%list_elem_of_fmap.
  destruct (eo_links _ _ _ (ook_entries _ Hok _ _ Hin) d Hd) as [[b Hb] _]. congruence.
Qed.

Lemma fresh_bucket w d at_ :
  oracle_ok w → delegations w.1 !! od_id d = None → through_bucket (bucketKey d at_) w.2 = 0.
Proof.
  intros Hok Hn. apply Zsum_zero, Forall_fmap, Forall_forall. intros [s l] Hin. cbn.
  apply charges_zero. intros (d2 & [He _]%bucketKey_inj & Hd)%list_elem_of_fmap.
  destruct (eo_links _ _ _ (ook_entries _ Hok _ _ Hin) d2 Hd) as [[b Hb] _].
  unfold sid in Hb. congruence.
Qed.

(** *** Changes of the registry *)
Lemma forest_insert_new o d :
  forest o → delegations o !! sid d = None →
  (∀ p, parent_of (sd_input d) = Some p → is_Some (delegations o !! p)) →
  forest (set_delegations (<[sid d := d]> (delegations o)) o).
Proof.
  intros [Hid [rank Hrank]] Hn Hp. split; cbn [delegations set_delegations].
  - intros id d' [[<- <-]|[_ ?]]%lookup_insert_Some; [done|by apply Hid].
  - exists (λ x, if decide (x = sid d) then base.size (delegations o) else rank x).
    rewrite map_size_insert_None by done.
    intros id d' [[<- <-]|[Hne Hd']]%lookup_insert_Some.
    + rewrite decide_True by done. split; [lia|]. intros p Hpar. destruct (Hp p Hpar) as [x Hx].
      assert (p ≠ sid d) by congruence. rewrite lookup_insert_ne, decide_False by done.
      split; [by eexists|]. by destruct (Hrank _ _ Hx).
    + rewrite (decide_False (P := id = sid d)) by done. destruct (Hrank _ _ Hd') as [Hlt Hpar].
      split; [lia|]. intros p Hpp. destruct (Hpar p Hpp) as [[x Hx] Hr].
      assert (p ≠ sid d) by congruence. rewrite lookup_insert_ne, decide_False by done.
      split; [by eexists|done].
Qed.

Lemma forest_same o d d' :
  forest o → delegations o !! sid d = Some d → sd_input d' = sd_input d →
  forest (set_delegations (<[sid d := d']> (delegations o)) o).
Proof.
  intros [Hid [rank Hrank]] Hd Hin. split; cbn [delegations set_delegations].
  - intros id x [[<- <-]|[_ ?]]%lookup_insert_Some; [unfold sid; by rewrite Hin|by apply Hid].
  - exists rank. rewrite map_size_insert_Some by (by eexists).
    assert (Hsome : ∀ p, is_Some (delegations o !! p) → is_Some (<[sid d := d']> (delegations o) !! p)).
    { intros p Hp. destruct (decide (p = sid d)) as [->|]; [rewrite lookup_insert_eq; by eexists|].
      by rewrite lookup_insert_ne. }
    intros id x [[<- <-]|[Hne Hx]]%lookup_insert_Some.
    + destruct (Hrank _ _ Hd) as [? Hp]. rewrite Hin. split; [done|]. intros p Hpp.
      destruct (Hp p Hpp). auto.
    + destruct (Hrank _ _ Hx) as [? Hp]. split; [done|]. intros p Hpp. destruct (Hp p Hpp). auto.
Qed.

(** The registry may grow or change a flag; the limits stay. *)
Lemma registry_change_ok o h m :
  oracle_ok (o, h) → forest (set_delegations m o) →
  (∀ id d, delegations o !! id = Some d → ∃ b, m !! id = Some {| sd_input := sd_input d; sd_revoked := b |}) →
  (∀ id d, m !! id = Some d →
     (∃ b, delegations o !! id = Some {| sd_input := sd_input d; sd_revoked := b |})
     ∨ delegations o !! id = None ∧ od_id (sd_input d) = id) →
  oracle_ok (set_delegations m o, h).
Proof.
  intros Hok Hf Hkeep Hnew. split; cbn [fst snd].
  - done.
  - intros s l Hin. destruct (ook_entries _ Hok _ _ Hin) as [H1 H2 H3 H4]. split; [done..|].
    intros d Hd. destruct (H4 d Hd) as [[b Hb] Ht]. split; [|done].
    destruct (Hkeep _ _ Hb) as [b' Hb']. by exists b'.
  - apply (ook_ids _ Hok).
  - apply (ook_life _ Hok).
  - apply (ook_spent _ Hok).
  - intros id d total Hd Ht. destruct (Hnew _ _ Hd) as [[b Hb]|[Hn _]].
    + by apply (ook_total _ Hok id _ total Hb).
    + pose proof (fresh_through _ _ Hok Hn) as H0. cbn [snd] in H0. lia.
  - intros id d at_ Hd. destruct (Hnew _ _ Hd) as [[b Hb]|[Hn Hid]].
    + by apply (ook_period _ Hok id _ at_ Hb).
    + rewrite <- Hid in Hn. pose proof (fresh_bucket _ (sd_input d) at_ Hok Hn) as H0.
      cbn [snd] in H0. lia.
Qed.

Section proofs.
Context `{Toolkit} (getAddress_on : Z → string → string).

Lemma delegation_register_ok i o h o' :
  oracle_ok (o, h) → register getAddress_on i o = Ok (tt, o') → oracle_ok (o', h).
Proof.
  intros Hok. unfold register. rewrite !throws_ok. intros (_ & Hdup & Hpar & _ & Hr).
  apply bool_decide_eq_false, eq_None_not_Some in Hdup.
  apply rbind_ok in Hr as (dl & _ & Hr). apply rbind_ok in Hr as (rd & _ & Hr). cbv zeta in Hr.
  injection Hr as <-. set (stored := {| sd_input := _; sd_revoked := false |}).
  apply registry_change_ok; [done| | |].
  - apply (forest_insert_new o stored); [by apply ook_forest in Hok|done|].
    intros p Hp. change (parent_of (sd_input stored)) with (parent_of i) in Hp. rewrite Hp in Hpar.
    apply bool_decide_eq_false in Hpar. by apply not_eq_None_Some.
  - intros id d Hd. exists (sd_revoked d). rewrite lookup_insert_ne by congruence.
    rewrite Hd. by destruct d.
  - intros id d [[<- <-]|[_ Hd]]%lookup_insert_Some; [by right|left].
    exists (sd_revoked d). rewrite Hd. by destruct d.
Qed.

Lemma revoke_ok id o h o' :
  oracle_ok (o, h) → revoke id o = Ok (tt, o') → oracle_ok (o', h).
Proof.
  intros Hok. unfold revoke, require. destruct (delegations o !! id) as [d|] eqn:Hd; [|done].
  cbn [rbind]. intros [= <-]. pose proof (fo_id _ (ook_forest _ Hok) _ _ Hd) as Hs. cbn [fst] in Hs.
  rewrite <- Hs in Hd |- *. apply registry_change_ok; [done| | |].
  - apply forest_same; [by apply ook_forest in Hok|done|done].
  - intros id' d' Hd'. destruct (decide (id' = sid d)) as [->|Hne].
    + rewrite lookup_insert_eq. assert (d' = d) as -> by congruence. by exists true.
    + rewrite lookup_insert_ne, Hd' by done. exists (sd_revoked d'). by destruct d'.
  - intros id' d' [[<- <-]|[_ Hd']]%lookup_insert_Some; left; cbn [sd_input].
    + exists (sd_revoked d). rewrite Hd. by destruct d.
    + exists (sd_revoked d'). rewrite Hd'. by destruct d'.
Qed.

Lemma rotate_ok id i o h r o' :
  oracle_ok (o, h) → rotate getAddress_on id i o = (r, o') → oracle_ok (o', h).
Proof.
  intros Hok. unfold rotate. destruct (revoke id o) as [[[] o1]|e] eqn:Hr; [|by intros [= _ <-]].
  pose proof (revoke_ok _ _ _ _ Hok Hr) as Hok1.
  destruct (register getAddress_on i o1) as [[[] o2]|e] eqn:Hg; intros [= _ <-]; [|done].
  by eapply delegation_register_ok.
Qed.

(** *** A settlement *)
Lemma remaining_room d at_ o amount :
  0 < amount → amount <= remaining_of d at_ o →
  default 0 (spent o !! bucketKey d at_) + amount <= periodAmount (od_policy d)
  ∧ ∀ total, lifetimeTotalAmount (od_policy d) = Some total →
      default 0 (lifetimeSpent o !! od_id d) + amount <= total.
Proof.
  intros Hpos Hle. unfold remaining_of in Hle.
  destruct (lifetimeTotalAmount (od_policy d)) as [total|];
    repeat match goal with H : context [?a <? ?b] |- _ => destruct (Z.ltb_spec a b) end;
    (split; [lia|]); intros ? [= <-]; lia.
Qed.

Lemma permit_all_ok i payTo redeemer o l :
  permit_all i payTo redeemer o l = Ok tt → ∀ d, d ∈ l → permit i payTo redeemer o d = Ok tt.
Proof.
  induction l as [|x l IH]; cbn [permit_all]; [by intros _ d ?%not_elem_of_nil|].
  rewrite rbind_ok. intros ([] & Hx & Hl) d [->|Hin]%elem_of_cons; [done|by apply IH].
Qed.

(** What a permitted link gives. *)
Lemma permit_ok i payTo redeemer o d :
  delegations o !! sid d = Some d → permit i payTo redeemer o d = Ok tt →
  sd_revoked d = false
  ∧ od_startDate (sd_input d) <= os_at i
      < od_startDate (sd_input d) + expiresAfterSeconds (od_policy (sd_input d))
  ∧ (∀ r, recipient (od_policy (sd_input d)) = Some r → r ≠ "" → canonical r = Ok payTo)
  ∧ (∀ rs, od_redeemers (sd_input d) = Some rs → redeemer ∈ rs)
  ∧ os_amount i <= remaining_of (sd_input d) (os_at i) o.
Proof.
  intros Hd. unfold permit. rewrite !throws_ok. intros (Hrev & Hstart & Hend & Hp).
  apply rbind_ok in Hp as (denied & Hden & Hp). apply throws_ok in Hp as [-> Hp].
  apply throws_ok in Hp as [Hred Hp]. unfold remaining, require in Hp.
  fold (sid d) in Hp. rewrite Hd in Hp. cbn [rbind] in Hp. apply throws_ok in Hp as [Hav _].
  split_and!; [done|lia|lia| | |lia].
  - intros r Hr Hne. rewrite Hr in Hden. destruct (String.eqb_spec r "") as [He|_]; [congruence|].
    apply rbind_ok in Hden as (r' & Hr' & Heq). injection Heq as Heq%negb_false_iff%String.eqb_eq.
    by rewrite Hr', Heq.
  - intros rs Hrs. rewrite Hrs in Hred. apply negb_false_iff, existsb_exists in Hred as (x & Hx & ->%String.eqb_eq).
    by apply list_elem_of_In.
Qed.

Lemma settle_facts i o o' l :
  forest o → settle i o = Ok (tt, o') → lineage (os_delegationId i) o = Ok l →
  0 < os_amount i ∧ os_settlementId i ∉ settled o
  ∧ is_chain o (os_delegationId i) l ∧ NoDup (sid <$> l)
  ∧ (∃ payTo redeemer, canonical (os_payTo i) = Ok payTo ∧ canonical (os_redeemer i) = Ok redeemer
       ∧ ∀ d, d ∈ l → delegations o !! sid d = Some d ∧ permit i payTo redeemer o d = Ok tt)
  ∧ delegations o' = delegations o ∧ settled o' = {[os_settlementId i]} ∪ settled o
  ∧ (∀ k, default 0 (lifetimeSpent o' !! k)
          = default 0 (lifetimeSpent o !! k) + charges k (sid <$> l) (os_amount i))
  ∧ (∀ k, default 0 (spent o' !! k)
          = default 0 (spent o !! k) + charges k (link_keys i l) (os_amount i)).
Proof.
  intros Hf Hs Hl. unfold settle in Hs. rewrite !throws_ok in Hs. destruct Hs as (Ham & Hrep & Hs).
  rewrite Hl in Hs. cbn [rbind] in Hs. apply rbind_ok in Hs as (payTo & Hpay & Hs).
  apply rbind_ok in Hs as (redeemer & Hred & Hs). apply rbind_ok in Hs as ([] & Hperm & Hs).
  cbv zeta in Hs. injection Hs as <-.
  destruct (lineage_ok _ _ _ Hf Hl) as [Hchain Hnd].
  destruct (charge_spec i l o Hnd) as (H1 & H2 & H3 & H4).
  cbn [delegations settled lifetimeSpent spent]. apply bool_decide_eq_false in Hrep.
  split_and!; try done; [lia| |by rewrite H2].
  exists payTo, redeemer. split_and!; [done..|]. intros d Hd. split; [|by eapply permit_all_ok].
  destruct (chain_known _ _ _ _ Hchain Hd) as [k Hk]. by rewrite (fo_id _ Hf _ _ Hk).
Qed.

Lemma settle_ok_step i l o h o' :
  oracle_ok (o, h) → settle i o = Ok (tt, o') → lineage (os_delegationId i) o = Ok l →
  oracle_ok (o', (i, l) :: h).
Proof.
  intros Hok Hs Hl. pose proof (ook_forest _ Hok) as Hf. cbn [fst] in Hf.
  destruct (settle_facts _ _ _ _ Hf Hs Hl)
    as (Ham & Hnew & Hchain & Hnd & (pt & rd & _ & _ & Hperm) & Hdel & Hset & Hlife & Hsp).
  assert (Hroom : ∀ d, d ∈ l →
    through_bucket (bucketKey (sd_input d) (os_at i)) h + os_amount i
      <= periodAmount (od_policy (sd_input d))
    ∧ ∀ total, lifetimeTotalAmount (od_policy (sd_input d)) = Some total →
        through (sid d) h + os_amount i <= total).
  { intros d Hd. destruct (Hperm d Hd) as [Hk Hp].
    destruct (permit_ok _ _ _ _ _ Hk Hp) as (_ & _ & _ & _ & Hrem).
    rewrite <- (ook_spent _ Hok). setoid_rewrite <- (ook_life _ Hok). by apply remaining_room. }
  split; cbn [fst snd].
  - destruct Hf as [Hid Hrank]. split; rewrite Hdel; done.
  - intros s l' [[= -> ->]|Hin]%elem_of_cons.
    + split; [done|rewrite Hset; set_solver|done|]. intros d Hd. destruct (Hperm d Hd) as [Hk Hp].
      destruct (permit_ok _ _ _ _ _ Hk Hp) as (_ & Ht & _). split; [|done].
      exists (sd_revoked d). rewrite Hdel, Hk. by destruct d.
    + destruct (ook_entries _ Hok _ _ Hin) as [H1 H2 H3 H4].
      split; [done|rewrite Hset; set_solver|done|]. by rewrite Hdel.
  - cbn [fmap list_fmap fst]. constructor; [|apply (ook_ids _ Hok)].
    intros ([s l'] & He & Hin)%list_elem_of_fmap. cbn [fst] in He.
    apply Hnew. rewrite He. apply (eo_settled _ _ _ (ook_entries _ Hok _ _ Hin)).
  - intros k. rewrite Hlife, through_cons. pose proof (ook_life _ Hok k) as H0. cbn [fst snd] in H0. lia.
  - intros k. rewrite Hsp, through_bucket_cons. pose proof (ook_spent _ Hok k) as H0. cbn [fst snd] in H0. lia.
  - intros id d total Hd Ht. rewrite Hdel in Hd. rewrite through_cons.
    pose proof (ook_total _ Hok id d total Hd Ht) as Hold. cbn [snd] in Hold.
    unfold charges. destruct (decide (id ∈ sid <$> l)) as [(d2 & -> & Hin)%list_elem_of_fmap|]; [|lia].
    destruct (Hperm d2 Hin) as [Hk _]. assert (d2 = d) as -> by congruence.
    destruct (Hroom d Hin) as [_ Htot]. specialize (Htot total Ht). lia.
  - intros id d at_ Hd. rewrite Hdel in Hd. rewrite through_bucket_cons.
    pose proof (ook_period _ Hok id d at_ Hd) as Hold. cbn [snd] in Hold.
    unfold charges. destruct (decide _) as [Hin|]; [|lia]. unfold link_keys in Hin.
    apply list_elem_of_fmap in Hin as (d2 & He & Hin). destruct (Hperm d2 Hin) as [Hk _].
    destruct (bucketKey_inj _ _ _ _ He) as [Hid _].
    assert (d2 = d) as ->.
    { pose proof (fo_id _ Hf _ _ Hd) as Hsd. unfold sid in Hsd, Hk. rewrite <- Hid, Hsd in Hk. congruence. }
    rewrite He. destruct (Hroom d Hin) as [Hper _]. lia.
Qed.

Lemma oracle_step_ok w w' : oracle_ok w → oracle_step getAddress_on w w' → oracle_ok w'.
Proof.
  intros Hok Hs. destruct Hs; eauto using delegation_register_ok, revoke_ok, rotate_ok, settle_ok_step.
Qed.

Lemma new_oracle_ok : oracle_ok (new_oracle, []).
Proof.
  split; cbn; try done.
  - split; [done|]. exists (λ _, O). done.
  - by intros s l ?%not_elem_of_nil.
  - constructor.
Qed.

Lemma reachable_oracle w : star (oracle_step getAddress_on) (new_oracle, []) w → oracle_ok w.
Proof. intros Hs. eapply star_invariant; [exact oracle_step_ok|exact new_oracle_ok|exact Hs]. Qed.

(** *** The conjunction *)
Definition link_permits (i : OracleSettlement) (payTo redeemer : string) (o : Oracle)
    (d : StoredDelegation) : Prop :=
  sd_revoked d = false
  ∧ od_startDate (sd_input d) <= os_at i
      < od_startDate (sd_input d) + expiresAfterSeconds (od_policy (sd_input d))
  ∧ (∀ r, recipient (od_policy (sd_input d)) = Some r → r ≠ "" → canonical r = Ok payTo)
  ∧ (∀ rs, od_redeemers (sd_input d) = Some rs → redeemer ∈ rs)
  ∧ os_amount i <= remaining_of (sd_input d) (os_at i) o.

Lemma permit_runs i payTo redeemer o d :
  delegations o !! sid d = Some d → link_permits i payTo redeemer o d →
  permit i payTo redeemer o d = Ok tt.
Proof.
  intros Hd (Hrev & [Hs He] & Hrec & Hred & Hle). unfold permit. rewrite throws_ok. split; [done|].
  rewrite throws_ok. split; [lia|]. rewrite throws_ok. split; [lia|].
  apply rbind_ok. exists false. split.
  { destruct (recipient (od_policy (sd_input d))) as [r|]; [|done].
    destruct (String.eqb_spec r "") as [|Hne]; [done|]. rewrite (Hrec r eq_refl Hne). cbn [rbind].
    by rewrite String.eqb_refl. }
  rewrite throws_ok. split; [done|]. rewrite throws_ok. split.
  { destruct (od_redeemers (sd_input d)) as [rs|]; [|done]. apply negb_false_iff, existsb_exists.
    exists redeemer. rewrite <- list_elem_of_In. split; [by apply Hred|apply String.eqb_refl]. }
  unfold remaining, require. fold (sid d). rewrite Hd. cbn [rbind]. rewrite throws_ok.
  split; [lia|done].
Qed.

Lemma permit_all_runs i payTo redeemer o l :
  (∀ d, d ∈ l → permit i payTo redeemer o d = Ok tt) → permit_all i payTo redeemer o l = Ok tt.
Proof.
  induction l as [|d l IH]; intros Hall; [done|]. cbn [permit_all].
  rewrite (Hall d) by left. cbn [rbind]. apply IH. intros d' Hd'. apply Hall. by right.
Qed.

Lemma chain_unique o l : ∀ id l', is_chain o id l → is_chain o id l' → l = l'.
Proof.
  induction l as [|d l IH]; intros id [|d' l']; cbn [is_chain]; [done..|].
  intros [Hd Hp] [Hd' Hp']. assert (d' = d) as -> by congruence. f_equal.
  destruct (parent_of (sd_input d)) as [p|]; [by eapply IH|congruence].
Qed.

(** The oracle decides by conjunction.  In every reachable state a settlement is accepted
    exactly when its amount is positive, its id is new, its parties are addresses, and
    every link from the delegation to its root permits it: not revoked, inside its window,
    its payee and redeemer, and the amount within what is left of its period and lifetime.
    The walk up the chain always ends. *)
Theorem settle_is_conjunction o h i :
  star (oracle_step getAddress_on) (new_oracle, []) (o, h) →
  (∃ o', settle i o = Ok (tt, o')) ↔
    0 < os_amount i ∧ os_settlementId i ∉ settled o
    ∧ ∃ l payTo redeemer, is_chain o (os_delegationId i) l
        ∧ canonical (os_payTo i) = Ok payTo ∧ canonical (os_redeemer i) = Ok redeemer
        ∧ ∀ d, d ∈ l → link_permits i payTo redeemer o d.
Proof.
  intros Hs. pose proof (ook_forest _ (reachable_oracle _ Hs)) as Hf. cbn [fst] in Hf. split.
  - intros [o' Hset]. assert (Hl : ∃ l, lineage (os_delegationId i) o = Ok l).
    { unfold settle in Hset. rewrite !throws_ok in Hset. destruct Hset as (_ & _ & Hset).
      apply rbind_ok in Hset as (l & Hl & _). eauto. }
    destruct Hl as [l Hl]. destruct (settle_facts _ _ _ _ Hf Hset Hl)
      as (Ham & Hnew & Hchain & _ & (pt & rd & Hp & Hr & Hperm) & _).
    split_and!; [done..|]. exists l, pt, rd. split_and!; [done..|]. intros d Hd.
    destruct (Hperm d Hd) as [Hk Hpd]. exact (permit_ok _ _ _ _ _ Hk Hpd).
  - intros (Ham & Hnew & l & pt & rd & Hchain & Hp & Hr & Hperm).
    assert (Hknown : is_Some (delegations o !! os_delegationId i)).
    { destruct l as [|d l]; [done|]. destruct Hchain as [-> _]. by eexists. }
    destruct (lineage_runs _ _ Hf Hknown) as [l' Hl].
    destruct (lineage_ok _ _ _ Hf Hl) as [Hchain' _].
    assert (l' = l) as -> by (by eapply chain_unique).
    assert (Hall : permit_all i pt rd o l = Ok tt).
    { apply permit_all_runs. intros d Hd. apply permit_runs; [|by apply Hperm].
      destruct (chain_known _ _ _ _ Hchain Hd) as [k Hk]. by rewrite (fo_id _ Hf _ _ Hk). }
    eexists. unfold settle. rewrite !throws_ok. split_and!; [lia|by apply bool_decide_eq_false|].
    rewrite Hl. cbn [rbind]. rewrite Hp. cbn [rbind]. rewrite Hr. cbn [rbind]. rewrite Hall.
    cbn [rbind]. reflexivity.
Qed.

(** *** The limits *)
Definition in_period (d : StoredDelegation) (t : Z) (h : History) : Z :=
  Zsum ((λ e : OracleSettlement * list StoredDelegation, if decide (sid d ∈ sid <$> e.2
                         ∧ period_text (sd_input d) (os_at e.1) = period_text (sd_input d) t)
              then os_amount e.1 else 0) <$> h).

Lemma bucket_is_period w id d t :
  oracle_ok w → delegations w.1 !! id = Some d →
  through_bucket (bucketKey (sd_input d) t) w.2 = in_period d t w.2.
Proof.
  intros Hok Hd. unfold through_bucket, in_period. f_equal. apply list_fmap_ext.
  intros j [s l] Hin%list_elem_of_lookup_2. cbn [fst snd].
  pose proof (ook_entries _ Hok _ _ Hin) as He.
  pose proof (fo_id _ (ook_forest _ Hok) _ _ Hd) as Hs.
  assert (Hsame : ∀ d2, d2 ∈ l → sid d2 = sid d → sd_input d2 = sd_input d).
  { intros d2 Hd2 Heq. destruct (eo_links _ _ _ He d2 Hd2) as [[b Hb] _].
    rewrite Heq, Hs, Hd in Hb. injection Hb as ->. done. }
  unfold charges, link_keys. apply decide_ext. split.
  - intros (d2 & Hk & Hin2)%list_elem_of_fmap. apply bucketKey_inj in Hk as [Hid Hper].
    assert (Heq : sid d2 = sid d) by (unfold sid; congruence).
    rewrite (Hsame d2 Hin2 Heq) in Hper. split; [|done]. apply list_elem_of_fmap. by exists d2.
  - intros [(d2 & Heq & Hin2)%list_elem_of_fmap Hper]. apply list_elem_of_fmap. exists d2.
    split; [|done]. rewrite (Hsame d2 Hin2 (eq_sym Heq)). unfold bucketKey. by rewrite Hper.
Qed.

(** C6: Every limit of every ancestor holds, over every history of registrations,
    revocations, rotations and settlements.  A settlement id is accepted once; what the
    oracle counts for a delegation is exactly what the settlements through it moved, in
    each of its periods and over its life; and neither ever passes the policy's number. *)
Theorem oracle_limits o h :
  star (oracle_step getAddress_on) (new_oracle, []) (o, h) →
  NoDup ((λ e, os_settlementId e.1) <$> h)
  ∧ ∀ id d, delegations o !! id = Some d →
      default 0 (lifetimeSpent o !! id) = through id h
      ∧ (∀ total, lifetimeTotalAmount (od_policy (sd_input d)) = Some total →
           through id h <= Z.max 0 total)
      ∧ ∀ t, default 0 (spent o !! bucketKey (sd_input d) t) = in_period d t h
             ∧ in_period d t h <= Z.max 0 (periodAmount (od_policy (sd_input d))).
Proof.
  intros Hs. pose proof (reachable_oracle _ Hs) as Hok. split; [apply (ook_ids _ Hok)|].
  intros id d Hd. split_and!.
  - apply (ook_life _ Hok).
  - intros total. exact (ook_total _ Hok id d total Hd).
  - intros t. pose proof (bucket_is_period (o, h) id d t Hok Hd) as Hb. cbn [snd] in Hb.
    rewrite <- Hb. split.
    + apply (ook_spent _ Hok).
    + exact (ook_period _ Hok id d t Hd).
Qed.

(** A sum split by an index below a bound. *)
Fixpoint below (n : nat) (f : Z → Z) : Z :=
  match n with O => 0 | S m => below m f + f (Z.of_nat m) end.

Lemma below_add n f g : below n (λ k, f k + g k) = below n f + below n g.
Proof. induction n as [|n IH]; cbn [below]; [done|]. rewrite IH. lia. Qed.

Lemma below_ext n f g : (∀ k, 0 <= k < Z.of_nat n → f k = g k) → below n f = below n g.
Proof. induction n as [|n IH]; intros Hfg; cbn [below]; [done|]. rewrite IH, Hfg; auto with lia. Qed.

Lemma below_point n j x : 0 <= j < Z.of_nat n → below n (λ k, if decide (j = k) then x else 0) = x.
Proof.
  assert (Hzero : ∀ m, Z.of_nat m <= j → below m (λ k, if decide (j = k) then x else 0) = 0).
  { induction m as [|m IH]; intros Hm; cbn [below]; [done|]. rewrite IH, decide_False; lia. }
  induction n as [|n IH]; intros Hj; cbn [below]; [lia|].
  destruct (decide (j = Z.of_nat n)) as [He|He].
  - rewrite Hzero by lia. lia.
  - rewrite IH by lia. lia.
Qed.

Lemma below_bound n f c : (∀ k, 0 <= k < Z.of_nat n → f k <= c) → below n f <= c * Z.of_nat n.
Proof.
  induction n as [|n IH]; intros Hf; cbn [below]; [lia|].
  assert (Hn : below n f <= c * Z.of_nat n) by (apply IH; intros k Hk; apply Hf; lia).
  assert (Hk : f (Z.of_nat n) <= c) by (apply Hf; lia). lia.
Qed.

(** The window bounds the life.  Whatever a policy's lifetime total says, a delegation
    with a positive period and window never moves more than its period amount times the
    number of periods its window holds: the number [assertPolicy] compares a total with,
    so a total that reaches it can refuse nothing. *)
Theorem window_ceiling o h id d :
  star (oracle_step getAddress_on) (new_oracle, []) (o, h) →
  delegations o !! id = Some d →
  0 < periodDurationSeconds (od_policy (sd_input d)) →
  0 < expiresAfterSeconds (od_policy (sd_input d)) →
  0 <= periodAmount (od_policy (sd_input d)) →
  through id h <= periodAmount (od_policy (sd_input d)) * windowPeriods (od_policy (sd_input d)).
Proof.
  intros Hs Hd Hdur Hexp Hper. pose proof (reachable_oracle _ Hs) as Hok.
  pose proof (fo_id _ (ook_forest _ Hok) _ _ Hd) as Hid. cbn [fst] in Hid.
  set (p := od_policy (sd_input d)) in *. set (n := Z.to_nat (windowPeriods p)).
  assert (Hn : Z.of_nat n = windowPeriods p).
  { pose proof (window_holds p 0 Hdur ltac:(lia)). lia. }
  set (start := od_startDate (sd_input d)). set (dur := periodDurationSeconds p) in *.
  assert (Htext : ∀ t, start <= t → period_text (sd_input d) t = show_Z ((t - start) / dur)).
  { intros t Ht. unfold period_text. fold p start dur. rewrite (proj2 (Z.eqb_neq _ _)) by lia.
    by rewrite Z.max_r by lia. }
  assert (Hsplit : through id h = below n (λ k, in_period d (start + k * dur) h)).
  { assert (He : ∀ s l, (s, l) ∈ h → entry_ok o s l) by apply (ook_entries _ Hok).
    clear Hs Hok. induction h as [|[s l] h IH].
    { unfold through, in_period. cbn. clear. induction n as [|n IH]; [done|]. cbn [below].
      rewrite <- IH. done. }
    assert (Hin : ∀ k, in_period d (start + k * dur) ((s, l) :: h)
      = (if decide (sid d ∈ sid <$> l
             ∧ period_text (sd_input d) (os_at s) = period_text (sd_input d) (start + k * dur))
         then os_amount s else 0) + in_period d (start + k * dur) h) by done.
    rewrite (below_ext _ _ _ (λ k _, Hin k)), below_add, <- IH by (intros; apply He; by right).
    rewrite through_cons. f_equal. unfold charges. rewrite <- Hid.
    destruct (decide (sid d ∈ sid <$> l)) as [Hl|Hl].
    - pose proof Hl as (d2 & Heq & Hd2)%list_elem_of_fmap.
      destruct (eo_links _ _ _ (He s l ltac:(left)) d2 Hd2) as [[b Hb] Ht].
      rewrite <- Heq, Hid, Hd in Hb. injection Hb as Hb.
      assert (Hinput : sd_input d2 = sd_input d) by (by rewrite Hb).
      rewrite Hinput in Ht. fold p start in Ht.
      pose proof (window_holds p (os_at s - start) Hdur ltac:(lia)) as Hw. fold dur in Hw.
      rewrite (below_ext n _ (λ k, if decide ((os_at s - start) / dur = k) then os_amount s else 0)).
      + symmetry. apply below_point. lia.
      + intros k Hk. apply decide_ext. rewrite (Htext (os_at s)), (Htext (start + k * dur)) by nia.
        rewrite Z.add_simpl_l, Z.div_mul by lia.
        split; [by intros [_ ?%show_Z_inj]|by intros ->].
    - rewrite (below_ext n _ (λ _, 0)).
      + clear. induction n as [|n IH]; [done|]. cbn [below]. lia.
      + intros k _. rewrite decide_False; [done|naive_solver]. }
  rewrite Hsplit, <- Hn. apply below_bound. intros k Hk.
  pose proof (bucket_is_period (o, h) id d (start + k * dur) Hok Hd) as Hb. cbn [snd] in Hb.
  rewrite <- Hb. pose proof (ook_period _ Hok id d (start + k * dur) Hd) as Hbound. cbn [snd] in Hbound. fold p in Hbound. lia.
Qed.

(** *** Revocation *)
Definition is_revoked (id : string) (o : Oracle) : Prop :=
  ∃ d, delegations o !! id = Some d ∧ sd_revoked d = true.

Lemma register_revoked i o o' id :
  register getAddress_on i o = Ok (tt, o') → is_revoked id o → is_revoked id o'.
Proof.
  unfold register. rewrite !throws_ok. intros (_ & Hdup & _ & _ & Hr) (d & Hd & Hrev).
  apply bool_decide_eq_false, eq_None_not_Some in Hdup.
  apply rbind_ok in Hr as (dl & _ & Hr). apply rbind_ok in Hr as (rd & _ & Hr). cbv zeta in Hr.
  injection Hr as <-. exists d. cbn [delegations set_delegations].
  rewrite lookup_insert_ne by congruence. done.
Qed.

Lemma revoke_revoked id' o o' id : revoke id' o = Ok (tt, o') → is_revoked id o → is_revoked id o'.
Proof.
  unfold revoke, require. destruct (delegations o !! id') as [d'|] eqn:Hd'; [|done].
  intros [= <-] (d & Hd & Hrev). unfold is_revoked. cbn [delegations set_delegations].
  destruct (decide (id = id')) as [->|Hne].
  - rewrite lookup_insert_eq. by eexists.
  - rewrite lookup_insert_ne by done. by exists d.
Qed.

Lemma step_revoked id w w' :
  oracle_ok w → oracle_step getAddress_on w w' → is_revoked id w.1 →
  is_revoked id w'.1 ∧ ∃ new, w'.2 = (new ++ w.2)%list ∧ ∀ s l, (s, l) ∈ new → id ∉ sid <$> l.
Proof.
  intros Hok Hs Hr.
  assert (Hnone : ∀ h : History, ∃ new, h = (new ++ h)%list ∧ ∀ s l, (s, l) ∈ new → id ∉ sid <$> l).
  { intros h. exists []. split; [done|]. by intros s l ?%not_elem_of_nil. }
  destruct Hs as [i o o' a Hs|id' o o' a Hs|id' i o r o' a Hs|i l o o' a Hs Hl]; cbn [fst snd] in *.
  - split; [by eapply register_revoked|done].
  - split; [by eapply revoke_revoked|done].
  - split; [|done]. unfold rotate in Hs. destruct (revoke id' o) as [[[] o1]|e] eqn:Hv;
      [|injection Hs as _ <-; done].
    pose proof (revoke_revoked _ _ _ _ Hv Hr) as Hr1.
    destruct (register getAddress_on i o1) as [[[] o2]|e] eqn:Hg; injection Hs as _ <-; [|done].
    by eapply register_revoked.
  - pose proof (ook_forest _ Hok) as Hf. cbn [fst] in Hf.
    destruct (settle_facts _ _ _ _ Hf Hs Hl)
      as (_ & _ & _ & _ & (pt & rd & _ & _ & Hperm) & Hdel & _).
    destruct Hr as (d & Hd & Hrev). split; [exists d; by rewrite Hdel|].
    exists [(i, l)]. split; [done|]. intros s l' [= -> ->]%list_elem_of_singleton.
    intros (d2 & -> & Hin)%list_elem_of_fmap. destruct (Hperm d2 Hin) as [Hk Hp].
    destruct (permit_ok _ _ _ _ _ Hk Hp) as [Hnr _]. congruence.
Qed.

(** Revocation is final, and takes the subtree with it.  Once a delegation is revoked, no
    history of registrations, rotations and settlements ever accepts another settlement
    whose chain passes through it. *)
Theorem revoked_subtree_frozen o h id d o' h' :
  star (oracle_step getAddress_on) (new_oracle, []) (o, h) →
  delegations o !! id = Some d → sd_revoked d = true →
  star (oracle_step getAddress_on) (o, h) (o', h') →
  ∃ new, h' = (new ++ h)%list ∧ ∀ s l, (s, l) ∈ new → id ∉ sid <$> l.
Proof.
  intros H0 Hd Hrev Hs. pose proof (reachable_oracle _ H0) as Hok.
  assert (Hinv : oracle_ok (o', h') ∧ is_revoked id (o', h').1
    ∧ ∃ new, (o', h').2 = (new ++ h)%list ∧ ∀ s l, (s, l) ∈ new → id ∉ sid <$> l).
  { eapply (star_invariant (oracle_step getAddress_on)
      (λ w, oracle_ok w ∧ is_revoked id w.1
        ∧ ∃ new, w.2 = (new ++ h)%list ∧ ∀ s l, (s, l) ∈ new → id ∉ sid <$> l)); [| |exact Hs].
    - intros w1 w2 (Hok1 & Hr1 & new & Hw1 & Hnew) Hstep.
      destruct (step_revoked id _ _ Hok1 Hstep Hr1) as (Hr2 & new2 & Hw2 & Hnew2).
      split_and!; [by eapply oracle_step_ok|done|]. exists (new2 ++ new)%list.
      split; [by rewrite Hw2, Hw1, app_assoc|]. intros s l [?|?]%elem_of_app; eauto.
    - split_and!; [done|by exists d|]. exists []. split; [done|]. by intros s l ?%not_elem_of_nil. }
  by destruct Hinv as (_ & _ & Hnew).
Qed.

(** Of a list of allowed redeemers only the first is compared in its canonical form: the
    second is stored with the checksum of chain 1, because [map] hands its index to
    [getAddress] as a chain id.  Where the two checksums differ, a settlement by the second
    listed redeemer is refused, although the policy allows it. *)
Theorem second_redeemer_denied o h i a b o' s :
  star (oracle_step getAddress_on) (new_oracle, []) (o, h) →
  od_redeemers i = Some [a; b] → register getAddress_on i o = Ok (tt, o') →
  getAddress_on 1 b ≠ getAddress b → getAddress a ≠ getAddress b →
  os_delegationId s = od_id i → os_redeemer s = b →
  ∃ e, settle s o' = Throw e.
Proof.
  intros H0 Hred Hreg Hne Hab Hid Hb. pose proof (reachable_oracle _ H0) as Hok.
  pose proof (delegation_register_ok _ _ _ _ Hok Hreg) as Hok'. pose proof (ook_forest _ Hok') as Hf. cbn [fst] in Hf.
  destruct (settle s o') as [[[] o2]|e] eqn:Hs; [|by exists e]. exfalso.
  assert (Hl : ∃ l, lineage (os_delegationId s) o' = Ok l).
  { unfold settle in Hs. rewrite !throws_ok in Hs. destruct Hs as (_ & _ & Hs).
    apply rbind_ok in Hs as (l & Hl & _). eauto. }
  destruct Hl as [l Hl]. destruct (settle_facts _ _ _ _ Hf Hs Hl)
    as (_ & _ & Hchain & _ & (pt & rd & _ & Hrd & Hperm) & _).
  unfold register in Hreg. rewrite !throws_ok in Hreg. destruct Hreg as (_ & _ & _ & _ & Hr).
  apply rbind_ok in Hr as (dl & _ & Hr). apply rbind_ok in Hr as (rs & Hrs & Hr). cbv zeta in Hr.
  injection Hr as <-. destruct l as [|d l]; [done|]. destruct Hchain as [Hd _].
  rewrite Hid in Hd. cbn [delegations set_delegations] in Hd. rewrite lookup_insert_eq in Hd.
  destruct (Hperm d ltac:(left)) as [Hk Hp]. destruct (permit_ok _ _ _ _ _ Hk Hp) as (_ & _ & _ & Hin & _).
  injection Hd as <-. cbn [sd_input od_redeemers] in Hin. unfold canonical_redeemers in Hrs.
  rewrite Hred in Hrs. apply rbind_ok in Hrs as (bs & Hbs & [= <-]). specialize (Hin bs eq_refl).
  cbn [canonical_list] in Hbs. apply rbind_ok in Hbs as (a' & Ha & Hbs).
  apply rbind_ok in Hbs as (bs' & Hbs' & [= <-]). apply rbind_ok in Hbs' as (b' & Hb' & Hbs').
  cbn in Hbs'. injection Hbs' as <-. rewrite Hb, Hb' in Hrd. injection Hrd as <-.
  unfold canonical in Ha, Hb'. apply throws_ok in Ha as [_ [= <-]], Hb' as [_ [= <-]]. set_solver.
Qed.
End proofs.

(** ** Witnesses: a manager, its child, a settlement, a revocation *)
Definition ex_addr (c : ascii) : string := "0x" ++ string_of_list_ascii (replicate 40 c).
Definition ex_delegation (id : string) (amount : Z) (total : option Z) (parent : option string)
    : OracleDelegation :=
  {| od_id := id;
     od_policy := {| role := team_manager; token := ex_addr "a"; periodAmount := amount;
       lifetimeTotalAmount := total; periodDurationSeconds := 60; expiresAfterSeconds := 150;
       recipient := None |};
     od_delegate := ex_addr "d"; od_startDate := 1000; od_parentId := parent;
     od_redeemers := Some [ex_addr "e"; ex_addr "f"] |}.
Definition ex_settlement (n : string) (id : string) (at_ : Z) (redeemer : string) : OracleSettlement :=
  {| os_settlementId := n; os_delegationId := id; os_amount := 4; os_payTo := ex_addr "b";
     os_redeemer := redeemer; os_at := at_ |}.
(** A chain-1 checksum that differs from the plain one. *)
Definition ex_getAddress_on (n : Z) (a : string) : string := "0x!" ++ a.
Definition ok_state {A} (d : Oracle) (r : result (A * Oracle)) : Oracle :=
  match r with Ok (_, o) => o | Throw _ => d end.
Definition ex_registered : Oracle :=
  let o := ok_state new_oracle (register ex_getAddress_on (ex_delegation "team" 6 (Some 10) None) new_oracle) in
  ok_state o (register ex_getAddress_on (ex_delegation "child" 4 None (Some "team")) o).
Definition ex_s : OracleSettlement := ex_settlement "s1" "child" 1010 (ex_addr "e").
Definition ex_chain_of (o : Oracle) : list StoredDelegation :=
  match lineage "child" o with Ok l => l | Throw _ => [] end.
Definition ex_settled : Oracle := ok_state ex_registered (settle ex_s ex_registered).
Definition ex_revoked : Oracle := ok_state ex_settled (revoke "team" ex_settled).

Example ex_sid : sid <$> ex_chain_of ex_registered = ["child"; "team"].
Proof. vm_compute. reflexivity. Qed.
Example ex_over : settle (ex_settlement "s2" "child" 1020 (ex_addr "e")) ex_settled
  = Throw (PolicyViolation "LIMIT_EXCEEDED" "delegation child has 0 remaining").
Proof. vm_compute. reflexivity. Qed.
Example ex_replayed : settle (ex_settlement "s1" "child" 1070 (ex_addr "e")) ex_settled
  = Throw (PolicyViolation "REPLAY" "settlement s1 already consumed").
Proof. vm_compute. reflexivity. Qed.

Lemma ex_registered_reachable :
  star (oracle_step ex_getAddress_on) (new_oracle, []) (ex_registered, []).
Proof.
  eapply star_step; [eapply star_step; [apply star_refl|]|].
  - apply (step_register _ (ex_delegation "team" 6 (Some 10) None)). vm_compute. reflexivity.
  - apply (step_register _ (ex_delegation "child" 4 None (Some "team"))). vm_compute. reflexivity.
Qed.
Lemma ex_settled_reachable :
  star (oracle_step ex_getAddress_on) (new_oracle, [])
    (ex_settled, [(ex_s, ex_chain_of ex_registered)]).
Proof.
  eapply star_step; [apply ex_registered_reachable|].
  apply step_settle; vm_compute; reflexivity.
Qed.
Lemma ex_revoked_reachable :
  star (oracle_step ex_getAddress_on) (new_oracle, [])
    (ex_revoked, [(ex_s, ex_chain_of ex_registered)]).
Proof.
  eapply star_step; [apply ex_settled_reachable|]. apply (step_revoke _ "team"). vm_compute. reflexivity.
Qed.

Definition ex_team (o : Oracle) : StoredDelegation :=
  match delegations o !! "team" with
  | Some d => d
  | None => {| sd_input := ex_delegation "" 0 None None; sd_revoked := false |}
  end.

Lemma settle_is_conjunction_witness :
  (∃ o', settle ex_s ex_registered = Ok (tt, o')) ∧
  ∃ l, is_chain ex_registered "child" l ∧ ∀ d, d ∈ l → sd_revoked d = false.
Proof.
  assert (Hs : ∃ o', settle ex_s ex_registered = Ok (tt, o'))
    by (exists ex_settled; vm_compute; reflexivity).
  split; [exact Hs|].
  destruct (proj1 (settle_is_conjunction ex_getAddress_on ex_registered [] ex_s ex_registered_reachable) Hs)
    as (_ & _ & l & pt & rd & Hc & _ & _ & Hall).
  exists l. split; [exact Hc|]. intros d Hd. exact (proj1 (Hall d Hd)).
Defined.

Lemma oracle_limits_witness :
  through "team" [(ex_s, ex_chain_of ex_registered)] = 4
  ∧ through "team" [(ex_s, ex_chain_of ex_registered)] <= 10.
Proof.
  split; [vm_compute; reflexivity|].
  destruct (oracle_limits ex_getAddress_on ex_settled _ ex_settled_reachable) as [_ Hall].
  destruct (Hall "team" (ex_team ex_settled) ltac:(vm_compute; reflexivity)) as (_ & Ht & _).
  exact (Ht 10 ltac:(vm_compute; reflexivity)).
Defined.

Lemma window_ceiling_witness :
  through "team" [(ex_s, ex_chain_of ex_registered)] <= 18.
Proof.
  exact (window_ceiling ex_getAddress_on ex_settled _ "team" (ex_team ex_settled) ex_settled_reachable
    ltac:(vm_compute; reflexivity) ltac:(vm_compute; reflexivity) ltac:(vm_compute; reflexivity)
    ltac:(vm_compute; discriminate)).
Defined.

Lemma revoked_subtree_frozen_witness :
  ∃ new, [(ex_s, ex_chain_of ex_registered)] = (new ++ [(ex_s, ex_chain_of ex_registered)])%list
    ∧ ∀ s l, (s, l) ∈ new → "team" ∉ sid <$> l.
Proof.
  exact (revoked_subtree_frozen ex_getAddress_on ex_revoked _ "team" (ex_team ex_revoked) ex_revoked _
    ex_revoked_reachable ltac:(vm_compute; reflexivity) ltac:(vm_compute; reflexivity) (star_refl _ _)).
Defined.

Lemma second_redeemer_denied_witness :
  ∃ e, settle (ex_settlement "s3" "solo" 1010 (ex_addr "f"))
         (ok_state ex_registered (register ex_getAddress_on (ex_delegation "solo" 6 None None) ex_registered))
       = Throw e.
Proof.
  exact (second_redeemer_denied ex_getAddress_on ex_registered [] (ex_delegation "solo" 6 None None)
    (ex_addr "e") (ex_addr "f") _ (ex_settlement "s3" "solo" 1010 (ex_addr "f"))
    ex_registered_reachable eq_refl ltac:(vm_compute; reflexivity)
    ltac:(vm_compute; discriminate) ltac:(vm_compute; discriminate) eq_refl eq_refl).
Defined.
