(* ===== verification/Json.v ===== *)
(** * JSON text

    [JSON.stringify], [JSON.parse] and the UTF-8 coders of the language, on the values
    [jsval]: what the header codec ([Codec]) and the payment client's redaction
    ([Redact]) go through.  A string is the list of its UTF-8 bytes; a lone surrogate is
    its three bytes.  Numbers are binary64: an integer is [JNum], anything else
    [JFloat] of its bit pattern.

    The theorems: a document that prints parses back to itself ([parse_stringify]), the
    parser has enough fuel, and a text that only escapes some characters denotes strings
    whose other characters stand in the text ([parsed_strings]). *)

From Stdlib Require Import ZArith Lia Ascii String.
From stdpp Require Import base gmap strings list.
From S2P Require Import Prelude Token.
Open Scope Z_scope.

Notation text := (list ascii).

Definition byte_of (z : Z) : ascii := ascii_of_N (Z.to_N z).
Definition between (lo hi z : Z) : bool := (lo <=? z) && (z <=? hi).
Definition quote_char : ascii := ascii_of_nat 34.
Definition backslash : ascii := ascii_of_nat 92.

(** ** UTF-8

    The byte ranges that may follow a leading byte (no overlong form, no surrogate,
    nothing above U+10FFFF). *)
Definition follow (lo hi : Z) (n : nat) : list (Z * Z) := (lo, hi) :: replicate n (128, 191).
Definition utf8_lead (c : ascii) : option (list (Z * Z)) :=
  let z := code c in
  if z <? 128 then Some []
  else if between 194 223 z then Some (follow 128 191 0)
  else if z =? 224 then Some (follow 160 191 1)
  else if z =? 237 then Some (follow 128 159 1)
  else if between 225 239 z then Some (follow 128 191 1)
  else if z =? 240 then Some (follow 144 191 2)
  else if between 241 243 z then Some (follow 128 191 2)
  else if z =? 244 then Some (follow 128 143 2)
  else None.
Fixpoint utf8_from (need : list (Z * Z)) (l : text) : bool :=
  match need, l with
  | [], [] => true
  | [], c :: l' => match utf8_lead c with Some need' => utf8_from need' l' | None => false end
  | (lo, hi) :: need', c :: l' => between lo hi (code c) && utf8_from need' l'
  | _ :: _, [] => false
  end.
Definition utf8_valid (l : text) : bool := utf8_from [] l.

(** The bytes of a code point (of a surrogate, too). *)
Definition utf8_bytes (u : Z) : text :=
  if u <? 128 then [byte_of u]
  else if u <? 2048 then [byte_of (192 + u / 64); byte_of (128 + u mod 64)]
  else if u <? 65536 then
    [byte_of (224 + u / 4096); byte_of (128 + u / 64 mod 64); byte_of (128 + u mod 64)]
  else [byte_of (240 + u / 262144); byte_of (128 + u / 4096 mod 64);
        byte_of (128 + u / 64 mod 64); byte_of (128 + u mod 64)].

(** ** Numbers *)
Definition round_half_even (num den : Z) : Z :=
  let n := num / den in
  match 2 * (num mod den) ?= den with Lt => n | Eq => n + n mod 2 | Gt => n + 1 end.

(** The binary64 nearest to [p / q] (both positive): [n] and [k] of [n * 2 ^ k]. *)
Definition double (p q : Z) : Z * Z :=
  let k0 := Z.log2 p - Z.log2 q in
  let e := if p * 2 ^ Z.max 0 (- k0) <? q * 2 ^ Z.max 0 k0 then k0 - 1 else k0 in
  let k := Z.max (e - 52) (-1074) in
  (round_half_even (p * 2 ^ Z.max 0 (- k)) (q * 2 ^ Z.max 0 k), k).

Definition sign_bit (neg : bool) : Z := if neg then 2 ^ 63 else 0.
Definition infinity_bits (neg : bool) : Z := sign_bit neg + 2047 * 2 ^ 52.
(** The Number of [n * 2 ^ k] for a rounded [n]. *)
Definition number (neg : bool) (nk : Z * Z) : jsval :=
  let '(n, k) := nk in
  let sign := if neg then -1 else 1 in
  if n =? 0 then JNum 0
  else if 971 <? k + (if n =? 2 ^ 53 then 1 else 0) then JFloat (infinity_bits neg)
  else if 0 <=? k then JNum (sign * n * 2 ^ k)
  else if n mod 2 ^ (- k) =? 0 then JNum (sign * (n / 2 ^ (- k)))
  else if n =? 2 ^ 53 then JFloat (sign_bit neg + (k + 1076) * 2 ^ 52)
  else if n <? 2 ^ 52 then JFloat (sign_bit neg + n)
  else JFloat (sign_bit neg + (k + 1075) * 2 ^ 52 + (n - 2 ^ 52)).

(** The value of [m * 10 ^ e]; a literal far outside the range of binary64 is not expanded. *)
Definition decimal (neg : bool) (m e : Z) : jsval :=
  let digits := slen (show_Z m) in
  if m =? 0 then JNum 0
  else if (e =? 0) && (m <=? MAX_SAFE_INTEGER) then JNum (if neg then - m else m)
  else if 310 <? digits + e then JFloat (infinity_bits neg)
  else if digits + e <? -330 then JNum 0
  else number neg (double (m * 10 ^ Z.max 0 e) (10 ^ Z.max 0 (- e))).

(** [Number::toString]: the least count [k] of digits [s] with [s * 10 ^ (n - k)] rounding
    to the number [p / q], where [10 ^ (n - 1) <= p / q < 10 ^ n]. *)
Fixpoint leading_zeros (fuel : nat) (p q : Z) : Z :=
  match fuel with
  | O => 0
  | S f => if p * 10 <? q then 1 + leading_zeros f (p * 10) q else 0
  end.
Definition point_of (p q : Z) : Z :=
  if q <=? p then slen (show_Z (p / q)) else - leading_zeros 400 p q.
Definition same_number (a b : Z * Z) : bool :=
  let '(n, k) := a in let '(n', k') := b in
  let low := Z.min k k' in n * 2 ^ (k - low) =? n' * 2 ^ (k' - low).
Fixpoint shortest (fuel : nat) (k p q n : Z) : Z * Z * Z :=
  let s := round_half_even (p * 10 ^ Z.max 0 (k - n)) (q * 10 ^ Z.max 0 (n - k)) in
  let found := if s =? 10 ^ k then (10 ^ (k - 1), k, n + 1) else (s, k, n) in
  match fuel with
  | O => found
  | S f =>
      if same_number (double (s * 10 ^ Z.max 0 (n - k)) (10 ^ Z.max 0 (k - n))) (double p q)
      then found else shortest f (k + 1) p q n
  end.
Definition zeros (n : Z) : text := replicate (Z.to_nat n) "0"%char.
Definition show_positive (p q : Z) : text :=
  let '(s, k, n) := shortest 17 1 p q (point_of p q) in
  let ds := chars (show_Z s) in
  let exponent := ("e"%char :: (if 0 <=? n - 1 then "+"%char else "-"%char)
                   :: chars (show_Z (Z.abs (n - 1))))%list in
  if (k <=? n) && (n <=? 21) then (ds ++ zeros (n - k))%list
  else if (0 <? n) && (n <=? 21) then
    (take (Z.to_nat n) ds ++ "."%char :: drop (Z.to_nat n) ds)%list
  else if (-6 <? n) && (n <=? 0) then ("0"%char :: "."%char :: zeros (- n) ++ ds)%list
  else match ds with
       | [d] => (d :: exponent)%list
       | d :: rest => (d :: "."%char :: rest ++ exponent)%list
       | [] => []
       end.
Definition show_signed (neg : bool) (l : text) : text := if neg then "-"%char :: l else l.
(** A finite [JFloat] in JSON; NaN and the infinities print as [null]. *)
Definition show_float (bits : Z) : text :=
  let neg := 2 ^ 63 <=? bits in
  let e := bits / 2 ^ 52 mod 2048 in
  let m := bits mod 2 ^ 52 in
  let n := if e =? 0 then m else m + 2 ^ 52 in
  let k := if e =? 0 then -1074 else e - 1075 in
  if e =? 2047 then chars "null"
  else if n =? 0 then chars "0"
  else show_signed neg (show_positive (n * 2 ^ Z.max 0 k) (2 ^ Z.max 0 (- k))).
Definition show_integer (z : Z) : text :=
  if Z.abs z <=? MAX_SAFE_INTEGER then chars (show_Z z)
  else show_signed (z <? 0) (show_positive (Z.abs z) 1).

(** ** Printing *)
Definition hex_char (n : Z) : ascii := nth (Z.to_nat (n mod 16)) (chars "0123456789abcdef") "0"%char.
Definition u_escape (u : Z) : text :=
  [backslash; "u"%char; hex_char (u / 4096); hex_char (u / 256); hex_char (u / 16); hex_char u].
(** The escape of one byte, when it has one. *)
Definition short_escape (c : ascii) : option ascii :=
  if Ascii.eqb c quote_char then Some quote_char
  else if Ascii.eqb c backslash then Some backslash
  else if code c =? 8 then Some "b"%char
  else if code c =? 12 then Some "f"%char
  else if code c =? 10 then Some "n"%char
  else if code c =? 13 then Some "r"%char
  else if code c =? 9 then Some "t"%char
  else None.
Definition escape (c : ascii) : text :=
  match short_escape c with
  | Some e => [backslash; e]
  | None => if code c <? 32 then u_escape (code c) else [c]
  end.
(** The code unit of the three bytes of a lone surrogate. *)
Definition surrogate (a b c : ascii) : option Z :=
  if (code a =? 237) && between 160 191 (code b) && between 128 191 (code c)
  then Some (53248 + (code b - 128) * 64 + (code c - 128)) else None.
Fixpoint escape_all (l : text) : text :=
  match l with
  | a :: ((b :: (c :: l3)) as l1) =>
      match surrogate a b c with
      | Some u => (u_escape u ++ escape_all l3)%list
      | None => (escape a ++ escape_all l1)%list
      end
  | a :: l1 => (escape a ++ escape_all l1)%list
  | [] => []
  end.
Definition quote (s : string) : text := (quote_char :: escape_all (chars s) ++ [quote_char])%list.

(** Own properties: a second write of a key keeps its place, and array-index keys come
    first in ascending order. *)
Fixpoint set_field {A} (k : string) (v : A) (l : list (string * A)) : list (string * A) :=
  match l with
  | [] => [(k, v)]
  | (k', v') :: l' => if String.eqb k k' then (k, v) :: l' else (k', v') :: set_field k v l'
  end.
Definition index_key (k : string) : option Z :=
  match read_Z k with
  | Some z => if between 0 4294967294 z && String.eqb (show_Z z) k then Some z else None
  | None => None
  end.
Fixpoint insert_index {A} (z : Z) (e : string * A) (l : list (string * A)) : list (string * A) :=
  match l with
  | [] => [e]
  | (k, v) :: l' =>
      match index_key k with
      | Some z' => if z <? z' then e :: l else (k, v) :: insert_index z e l'
      | None => e :: l
      end
  end.
Fixpoint order_keys {A} (l : list (string * A)) : list (string * A) :=
  match l with
  | [] => []
  | e :: l' => match index_key e.1 with
               | Some z => insert_index z e (order_keys l')
               | None => (List.filter (λ x, match index_key x.1 with Some _ => true | None => false end)
                            (order_keys l')
                          ++ e :: List.filter (λ x, match index_key x.1 with Some _ => false | None => true end)
                                    (order_keys l'))%list
               end
  end.
Definition own_entries {A} (l : list (string * A)) : list (string * A) :=
  order_keys (foldl (λ acc e, set_field e.1 e.2 acc) [] l).

Definition comma : ascii := ","%char.
Fixpoint join_text (l : list text) : text :=
  match l with
  | [] => []
  | [x] => x
  | x :: l' => (x ++ comma :: join_text l')%list
  end.
Definition stringify_error : js_error := TypeError "JSON.stringify cannot serialize BigInt.".

(** [JSON.stringify]: [None] is [undefined]; a property that is [undefined] is left out,
    an element that is prints as [null]; a bigint throws. *)
Fixpoint stringify (v : jsval) : result (option text) :=
  match v with
  | JUndefined => Ok None
  | JNull => Ok (Some (chars "null"))
  | JBool b => Ok (Some (chars (if b then "true" else "false")))
  | JNum z => Ok (Some (show_integer z))
  | JFloat bits => Ok (Some (show_float bits))
  | JBig _ => Throw stringify_error
  | JStr s => Ok (Some (quote s))
  | JArr l =>
      let? parts := map_result (λ x, let? t := stringify x in Ok (default (chars "null") t)) l in
      Ok (Some ("["%char :: join_text parts ++ ["]"%char])%list)
  | JObj fields =>
      let? parts := map_result (λ e, let? t := e.2 in
                                     Ok (option_map (λ t, quote e.1 ++ ":"%char :: t)%list t))
                      (own_entries (map (λ e, (e.1, stringify e.2)) fields)) in
      Ok (Some ("{"%char :: join_text (omap id parts) ++ ["}"%char])%list)
  end.

(** ** Parsing *)
Definition json_space (c : ascii) : bool :=
  (code c =? 32) || (code c =? 9) || (code c =? 10) || (code c =? 13).
Fixpoint skip_space (l : text) : text :=
  match l with c :: l' => if json_space c then skip_space l' else l | [] => [] end.

Definition hex4 (a b c d : ascii) : option Z :=
  if is_hex a && is_hex b && is_hex c && is_hex d then Some (hex_number [a; b; c; d]) else None.
Definition unescape (c : ascii) : option ascii :=
  if Ascii.eqb c quote_char then Some quote_char
  else if Ascii.eqb c backslash then Some backslash
  else if Ascii.eqb c "/" then Some "/"%char
  else if Ascii.eqb c "b" then Some (byte_of 8)
  else if Ascii.eqb c "f" then Some (byte_of 12)
  else if Ascii.eqb c "n" then Some (byte_of 10)
  else if Ascii.eqb c "r" then Some (byte_of 13)
  else if Ascii.eqb c "t" then Some (byte_of 9)
  else None.
Definition push (l : text) (r : option (text * text)) : option (text * text) :=
  match r with Some (s, rest) => Some ((l ++ s)%list, rest) | None => None end.
Definition low_surrogate (x y d1 d2 d3 d4 : ascii) : option Z :=
  if Ascii.eqb x backslash && Ascii.eqb y "u" then
    match hex4 d1 d2 d3 d4 with
    | Some w => if between 56320 57343 w then Some w else None
    | None => None
    end
  else None.

(** The rest of a string, after its opening quote.  A surrogate pair of escapes is one
    code point. *)
Fixpoint string_body (l : text) : option (text * text) :=
  match l with
  | [] => None
  | c :: l1 =>
      if Ascii.eqb c quote_char then Some ([], l1)
      else if Ascii.eqb c backslash then
        match l1 with
        | [] => None
        | e :: l2 =>
            if Ascii.eqb e "u" then
              match l2 with
              | d1 :: d2 :: d3 :: d4 :: l6 =>
                  match hex4 d1 d2 d3 d4 with
                  | None => None
                  | Some u =>
                      if between 55296 56319 u then
                        match l6 with
                        | x :: y :: e1 :: e2 :: e3 :: e4 :: l12 =>
                            match low_surrogate x y e1 e2 e3 e4 with
                            | Some w => push (utf8_bytes (65536 + (u - 55296) * 1024 + (w - 56320)))
                                          (string_body l12)
                            | None => push (utf8_bytes u) (string_body l6)
                            end
                        | _ => push (utf8_bytes u) (string_body l6)
                        end
                      else push (utf8_bytes u) (string_body l6)
                  end
              | _ => None
              end
            else match unescape e with
                 | Some x => push [x] (string_body l2)
                 | None => None
                 end
        end
      else if code c <? 32 then None
      else push [c] (string_body l1)
  end.

Fixpoint take_digits (l : text) : text * text :=
  match l with
  | c :: l' => if is_digit c then let '(ds, r) := take_digits l' in (c :: ds, r) else ([], l)
  | [] => ([], [])
  end.
Definition take_fraction (l : text) : option (text * text) :=
  match l with
  | c :: l' =>
      if Ascii.eqb c "." then
        match take_digits l' with ([], _) => None | (ds, r) => Some (ds, r) end
      else Some ([], l)
  | [] => Some ([], [])
  end.
Definition take_sign (l : text) : bool * text :=
  match l with
  | c :: l' => if Ascii.eqb c "-" then (true, l') else if Ascii.eqb c "+" then (false, l') else (false, l)
  | [] => (false, [])
  end.
Definition take_exponent (l : text) : option (Z * text) :=
  match l with
  | c :: l' =>
      if Ascii.eqb c "e" || Ascii.eqb c "E" then
        let '(neg, l1) := take_sign l' in
        match take_digits l1 with
        | ([], _) => None
        | (ds, r) => Some (if neg then - dec_number ds else dec_number ds, r)
        end
      else Some (0, l)
  | [] => Some (0, [])
  end.
Definition take_number (l : text) : option (jsval * text) :=
  let '(neg, l0) := match l with
                    | c :: l' => if Ascii.eqb c "-" then (true, l') else (false, l)
                    | [] => (false, [])
                    end in
  let '(whole, l1) := take_digits l0 in
  if negb (whole_part whole) then None else
  match take_fraction l1 with
  | None => None
  | Some (frac, l2) =>
      match take_exponent l2 with
      | None => None
      | Some (e, l3) =>
          Some (decimal neg (dec_number (whole ++ frac)) (e - Z.of_nat (length frac)), l3)
      end
  end.
Fixpoint strip_word (w l : text) : option text :=
  match w, l with
  | [], _ => Some l
  | a :: w', b :: l' => if Ascii.eqb a b then strip_word w' l' else None
  | _, [] => None
  end.
Definition take_word (w : string) (v : jsval) (l : text) : option (jsval * text) :=
  match strip_word (chars w) l with Some rest => Some (v, rest) | None => None end.

(** A value; the elements of an array and the members of an object after the first
    token of one.  The fuel counts characters. *)
Fixpoint value (fuel : nat) (l : text) : option (jsval * text) :=
  match fuel with
  | O => None
  | S f =>
      match skip_space l with
      | [] => None
      | c :: l' =>
          if Ascii.eqb c quote_char then
            match string_body l' with
            | Some (s, rest) => Some (JStr (string_of_list_ascii s), rest)
            | None => None
            end
          else if Ascii.eqb c "[" then
            match skip_space l' with
            | [] => None
            | c1 :: l1 =>
                if Ascii.eqb c1 "]" then Some (JArr [], l1)
                else match elements f (c1 :: l1) with
                     | Some (vs, rest) => Some (JArr vs, rest)
                     | None => None
                     end
            end
          else if Ascii.eqb c "{" then
            match skip_space l' with
            | [] => None
            | c1 :: l1 =>
                if Ascii.eqb c1 "}" then Some (JObj [], l1)
                else match members f (c1 :: l1) with
                     | Some (fields, rest) => Some (JObj (own_entries fields), rest)
                     | None => None
                     end
            end
          else if Ascii.eqb c "t" then take_word "true" (JBool true) (c :: l')
          else if Ascii.eqb c "f" then take_word "false" (JBool false) (c :: l')
          else if Ascii.eqb c "n" then take_word "null" JNull (c :: l')
          else take_number (c :: l')
      end
  end
with elements (fuel : nat) (l : text) : option (list jsval * text) :=
  match fuel with
  | O => None
  | S f =>
      match value f l with
      | None => None
      | Some (v, rest) =>
          match skip_space rest with
          | [] => None
          | c :: l1 =>
              if Ascii.eqb c "]" then Some ([v], l1)
              else if Ascii.eqb c comma then
                match elements f l1 with
                | Some (vs, rest') => Some (v :: vs, rest')
                | None => None
                end
              else None
          end
      end
  end
with members (fuel : nat) (l : text) : option (list (string * jsval) * text) :=
  match fuel with
  | O => None
  | S f =>
      match skip_space l with
      | [] => None
      | c :: l1 =>
          if Ascii.eqb c quote_char then
            match string_body l1 with
            | None => None
            | Some (k, rest) =>
                match skip_space rest with
                | [] => None
                | c2 :: l2 =>
                    if Ascii.eqb c2 ":" then
                      match value f l2 with
                      | None => None
                      | Some (v, rest2) =>
                          match skip_space rest2 with
                          | [] => None
                          | c3 :: l3 =>
                              if Ascii.eqb c3 "}" then Some ([(string_of_list_ascii k, v)], l3)
                              else if Ascii.eqb c3 comma then
                                match members f l3 with
                                | Some (fields, rest') =>
                                    Some ((string_of_list_ascii k, v) :: fields, rest')
                                | None => None
                                end
                              else None
                          end
                      end
                    else None
                end
            end
          else None
      end
  end.

Definition syntax_error : js_error := JsError "SyntaxError" "JSON Parse error".
(** [JSON.parse] *)
Definition parse (l : text) : result jsval :=
  match value (S (2 * length l)) l with
  | Some (v, rest) => match skip_space rest with [] => Ok v | _ => Throw syntax_error end
  | None => Throw syntax_error
  end.

(** ** Documents that print as they are

    Integers within the safe range, valid UTF-8, and objects whose keys are distinct and
    are not array indices. *)
Definition plain_key (k : string) : bool := match index_key k with Some _ => false | None => true end.
Definition keys_ok (ks : list string) : bool :=
  bool_decide (NoDup ks) && forallb plain_key ks && forallb (λ k, utf8_valid (chars k)) ks.
Fixpoint json_ok (v : jsval) : bool :=
  match v with
  | JNull | JBool _ => true
  | JNum z => Z.abs z <=? MAX_SAFE_INTEGER
  | JStr s => utf8_valid (chars s)
  | JArr l => forallb json_ok l
  | JObj fields => keys_ok (map fst fields) && forallb (λ e, json_ok e.2) fields
  | JUndefined | JFloat _ | JBig _ => false
  end.
Fixpoint print (v : jsval) : text :=
  match v with
  | JNull => chars "null"
  | JBool b => chars (if b then "true" else "false")
  | JNum z => chars (show_Z z)
  | JStr s => quote s
  | JArr l => ("["%char :: join_text (map print l) ++ ["]"%char])%list
  | JObj fields =>
      ("{"%char :: join_text (map (λ e, quote e.1 ++ ":"%char :: print e.2) fields) ++ ["}"%char])%list
  | JUndefined | JFloat _ | JBig _ => []
  end.

Section nested.
Variable P : jsval → Prop.
Hypothesis flat : ∀ v, match v with JArr _ | JObj _ => False | _ => True end → P v.
Hypothesis arr : ∀ l, Forall P l → P (JArr l).
Hypothesis obj : ∀ fields, Forall (λ e, P e.2) fields → P (JObj fields).

(** Induction through the elements of arrays and the members of objects. *)
Lemma jsval_nested (v : jsval) : P v.
Proof.
  revert v. fix IH 1. intros [| | | | | | |l|fields]; try by apply flat.
  - apply arr. induction l as [|x l IHl]; constructor; [apply IH|exact IHl].
  - apply obj. induction fields as [|[k x] l IHl]; constructor; [apply IH|exact IHl].
Qed.
End nested.

(** *** Own properties of such an object are its fields *)
Lemma set_field_new {A} k (v : A) l : k ∉ map fst l → set_field k v l = (l ++ [(k, v)])%list.
Proof.
  induction l as [|[k' v'] l IH]; simpl; [done|]. intros Hk.
  apply not_elem_of_cons in Hk as [Hne Hk].
  destruct (String.eqb_spec k k') as [->|]; [done|]. by rewrite IH.
Qed.

Lemma fields_kept {A} (l : list (string * A)) : ∀ acc,
  NoDup (map fst (acc ++ l)%list) →
  foldl (λ acc e, set_field e.1 e.2 acc) acc l = (acc ++ l)%list.
Proof.
  induction l as [|[k v] l IH]; intros acc Hnd; simpl; [by rewrite app_nil_r|].
  rewrite set_field_new.
  - rewrite IH; rewrite <- app_assoc; done.
  - rewrite map_app in Hnd. apply NoDup_app in Hnd as (_ & Hd & _). intros Hk.
    apply (Hd k Hk). left.
Qed.

Lemma order_kept {A} (l : list (string * A)) :
  forallb plain_key (map fst l) = true → order_keys l = l.
Proof.
  induction l as [|[k v] l IH]; simpl; [done|]. intros [Hk Hl]%andb_true_iff.
  rewrite (IH Hl). unfold plain_key in Hk. destruct (index_key k); [done|].
  assert (Hf : List.filter (λ x : string * A, match index_key x.1 with Some _ => true | None => false end) l = []
             ∧ List.filter (λ x : string * A, match index_key x.1 with Some _ => false | None => true end) l = l).
  { clear IH. induction l as [|[k' v'] l IH]; [done|]. simpl in Hl |- *.
    apply andb_true_iff in Hl as [Hk' Hl]. unfold plain_key in Hk'.
    destruct (index_key k'); [done|]. destruct (IH Hl) as [-> ->]. done. }
  destruct Hf as [-> ->]. done.
Qed.

Lemma own_entries_ok {A} (l : list (string * A)) : keys_ok (map fst l) = true → own_entries l = l.
Proof.
  unfold keys_ok. rewrite !andb_true_iff, bool_decide_eq_true. intros [[Hn Hp] _].
  unfold own_entries. rewrite fields_kept by done. by apply order_kept.
Qed.

Lemma map_result_const {A B} (f : A → result B) g l :
  Forall (λ a, f a = Ok (g a)) l → map_result f l = Ok (map g l).
Proof. induction 1 as [|a l Ha _ IH]; [done|]. simpl. by rewrite Ha, IH. Qed.

Lemma omap_some {A B} (f : A → B) l : omap id (map (λ a, Some (f a)) l) = map f l.
Proof.
  induction l as [|a l IH]; [done|].
  change (f a :: omap id (map (λ a, Some (f a)) l) = f a :: map f l). by rewrite IH.
Qed.

Lemma stringify_print v : json_ok v = true → stringify v = Ok (Some (print v)).
Proof.
  induction v as [v Hv|l IH|fields IH] using jsval_nested; intros Hok.
  - destruct v; try done. simpl in *. unfold show_integer. by rewrite Hok.
  - cbn [stringify print json_ok] in *.
    rewrite (map_result_const _ print); [done|]. rewrite forallb_forall in Hok.
    rewrite Forall_forall in IH |- *. intros x Hx. by rewrite IH by (try apply Hok, list_elem_of_In; done).
  - cbn [stringify print json_ok] in *. apply andb_true_iff in Hok as [Hk Hok].
    rewrite own_entries_ok by (rewrite map_map; done).
    rewrite (map_result_const _ (λ e, Some (quote e.1 ++ ":"%char :: match e.2 with Ok (Some t) => t | _ => [] end)%list)).
    + cbn [rbind]. rewrite map_map, omap_some. do 5 f_equal.
      apply map_ext_in. intros e He. rewrite Forall_forall in IH.
      rewrite (IH e); [done|by apply list_elem_of_In|]. rewrite forallb_forall in Hok. by apply Hok.
    + apply Forall_forall. intros x Hx. rewrite Forall_forall in IH.
      apply list_elem_of_In, in_map_iff in Hx as (e & <- & He).
      simpl. rewrite (IH e); [done|by apply list_elem_of_In|]. rewrite forallb_forall in Hok. by apply Hok.
Qed.

(** *** Strings *)
Lemma body_escape c l : string_body (escape c ++ l) = push [c] (string_body l).
Proof. by destruct c as [[][][][][][][][]]. Qed.

Lemma between_iff lo hi z : between lo hi z = true ↔ lo <= z <= hi.
Proof. unfold between. rewrite andb_true_iff, !Z.leb_le. done. Qed.

Lemma utf8_lead_surrogate c need :
  utf8_lead c = Some need → Forall (λ r, r.2 <= 191) need
  ∧ (code c = 237 → ∃ n, need = (128, 159) :: n).
Proof.
  unfold utf8_lead, follow.
  repeat match goal with |- context [if ?b then _ else _] => destruct b eqn:? end;
    intros [= <-]; (split; [repeat constructor; simpl; lia|intros Hc; rewrite Hc in *; eauto; try discriminate]).
Qed.

(** Valid UTF-8 holds no surrogate. *)
Lemma escape_all_utf8 l : ∀ need,
  Forall (λ r : Z * Z, r.2 <= 191) need → utf8_from need l = true → escape_all l = flat_map escape l.
Proof.
  induction l as [|a l IH]; intros need Hneed Hl; [done|].
  assert (Hsplit : ∃ need', Forall (λ r : Z * Z, r.2 <= 191) need' ∧ utf8_from need' l = true
    ∧ (code a = 237 → ∃ n, need' = (128, 159) :: n)).
  { destruct need as [|[lo hi] need]; cbn [utf8_from] in Hl.
    - destruct (utf8_lead a) as [need'|] eqn:Ha; [|done].
      apply utf8_lead_surrogate in Ha as [Hf Hs]. eauto.
    - apply andb_true_iff in Hl as [Hb Hl]. apply between_iff in Hb.
      apply Forall_cons in Hneed as [Hhi Hneed]. exists need. split_and!; [done..|].
      simpl in Hhi. lia. }
  destruct Hsplit as (need' & Hn' & Hl' & Hs). specialize (IH need' Hn' Hl').
  destruct l as [|b [|c l]]; cbn [flat_map] in *; [done|by rewrite <- IH|].
  change (escape_all (a :: b :: c :: l)) with
    (match surrogate a b c with Some u => (u_escape u ++ escape_all l)%list
                              | None => (escape a ++ escape_all (b :: c :: l))%list end).
  unfold surrogate. destruct (code a =? 237) eqn:Ha; cbn [andb]; [|by rewrite IH].
  apply Z.eqb_eq in Ha. destruct (Hs Ha) as [n ->]. cbn [utf8_from] in Hl'.
  apply andb_true_iff in Hl' as [Hb _]. apply between_iff in Hb.
  destruct (between 160 191 (code b)) eqn:Hb'; [apply between_iff in Hb'; lia|].
  cbn [andb]. by rewrite IH.
Qed.

Lemma body_escapes l rest :
  string_body (flat_map escape l ++ quote_char :: rest) = Some (l, rest).
Proof.
  induction l as [|c l IH]; [done|]. cbn [flat_map]. by rewrite <- app_assoc, body_escape, IH.
Qed.

Lemma body_quote s rest :
  utf8_valid (chars s) = true →
  ∃ body, quote s = quote_char :: body ∧ string_body (body ++ rest) = Some (chars s, rest).
Proof.
  intros Hs. eexists. split; [done|].
  rewrite (escape_all_utf8 _ []) by (try done; constructor).
  rewrite <- app_assoc. apply body_escapes.
Qed.

Lemma string_chars s : string_of_list_ascii (chars s) = s.
Proof. apply string_of_list_ascii_of_string. Qed.

(** *** Numbers *)
Definition ends (rest : text) : Prop :=
  match rest with c :: _ => is_digit c = false ∧ c ∉ ["."; "e"; "E"]%char | [] => True end.

Lemma take_digits_app ds rest :
  forallb is_digit ds = true → ends rest → take_digits (ds ++ rest) = (ds, rest).
Proof.
  intros Hd Hr. induction ds as [|c ds IH]; cbn [app take_digits].
  - destruct rest as [|c rest]; [done|]. destruct Hr as [Hc _]. cbn. by rewrite Hc.
  - simpl in Hd. apply andb_true_iff in Hd as [-> Hd]. by rewrite IH.
Qed.

Lemma not_in_chars (c : ascii) (l : text) x : c ∉ l → x ∈ l → Ascii.eqb c x = false.
Proof. intros Hc Hx. apply Ascii.eqb_neq. intros ->. done. Qed.

Lemma ends_fraction rest : ends rest → take_fraction rest = Some ([], rest).
Proof.
  destruct rest as [|c rest]; [done|]. intros [_ Hc]. cbn.
  by rewrite (not_in_chars _ _ "."%char Hc) by set_solver.
Qed.
Lemma ends_exponent rest : ends rest → take_exponent rest = Some (0, rest).
Proof.
  destruct rest as [|c rest]; [done|]. intros [_ Hc]. cbn.
  rewrite (not_in_chars _ _ "e"%char Hc), (not_in_chars _ _ "E"%char Hc) by set_solver. done.
Qed.

Lemma decimal_safe neg m : 0 <= m <= MAX_SAFE_INTEGER → decimal neg m 0 = JNum (if neg then - m else m).
Proof.
  intros Hm. unfold decimal. destruct (Z.eqb_spec m 0) as [->|]; [by destruct neg|].
  by rewrite Z.eqb_refl, (proj2 (Z.leb_le _ _) (proj2 Hm)).
Qed.

Lemma show_neg z : z < 0 → chars (show_Z z) = "-"%char :: chars (show_Z (- z)).
Proof.
  intros Hz. destruct z as [|p|p]; [lia|lia|]. unfold show_Z. change (Z.to_int (Z.neg p)) with (Decimal.Neg (Pos.to_uint p)).
  change (- Z.neg p) with (Z.pos p). change (Z.to_int (Z.pos p)) with (Decimal.Pos (Pos.to_uint p)).
  destruct (Pos.to_uint p) eqn:He; [by apply to_uint_not_nil in He|reflexivity..].
Qed.

Lemma take_number_show z rest :
  Z.abs z <= MAX_SAFE_INTEGER → ends rest →
  take_number (chars (show_Z z) ++ rest) = Some (JNum z, rest).
Proof.
  intros Hz Hr. unfold take_number.
  destruct (decide (z < 0)) as [Hneg|Hpos].
  - rewrite show_neg by done. cbn [app].
    destruct (show_nonneg (- z)) as (Hd & Hw & Hv); [lia|].
    change (Ascii.eqb "-" "-") with true. cbv iota beta.
    rewrite take_digits_app, Hw by done. cbn [negb].
    rewrite ends_fraction, ends_exponent by done. rewrite app_nil_r, Hv.
    cbn [length]. rewrite Z.sub_0_r, decimal_safe by lia. by rewrite Z.opp_involutive.
  - destruct (show_nonneg z) as (Hd & Hw & Hv); [lia|].
    destruct (chars (show_Z z)) as [|c ds] eqn:Hs; [done|]. cbn [app].
    assert (Hc : Ascii.eqb c "-" = false).
    { apply Ascii.eqb_neq. intros ->. done. }
    rewrite Hc. change (c :: ds ++ rest)%list with ((c :: ds) ++ rest)%list.
    rewrite take_digits_app, Hw by done. cbn [negb].
    rewrite ends_fraction, ends_exponent by done. rewrite app_nil_r, Hv.
    cbn [length]. by rewrite Z.sub_0_r, decimal_safe by lia.
Qed.

(** *** Values *)
Definition starts (l : text) : Prop :=
  match l with c :: _ => json_space c = false ∧ Ascii.eqb c "]" = false | [] => False end.

Lemma show_starts z : ∃ c l, chars (show_Z z) = c :: l ∧ (c = "-"%char ∨ is_digit c = true).
Proof.
  destruct (decide (z < 0)) as [Hneg|Hpos]; [rewrite show_neg by done; eauto|].
  destruct (show_nonneg z) as (Hd & Hw & _); [lia|].
  destruct (chars (show_Z z)) as [|c l]; [done|]. do 2 eexists. split; [done|right].
  cbn in Hd. by apply andb_true_iff in Hd as [-> _].
Qed.

Lemma print_starts v : json_ok v = true → starts (print v).
Proof.
  destruct v as [| |[]|z| | |s|l|fields]; cbn [json_ok print]; intros Hok; try done.
  destruct (show_starts z) as (c & l & -> & [->|Hc]); cbn; [done|].
  clear - Hc. by destruct c as [[][][][][][][][]].
Qed.

Lemma starts_app l rest : starts l → ∃ c l', (l ++ rest)%list = c :: l'
  ∧ skip_space (l ++ rest) = (l ++ rest)%list ∧ Ascii.eqb c "]" = false.
Proof.
  destruct l as [|c l]; [done|]. intros [Hs Hb]. cbn. exists c, (l ++ rest)%list.
  by rewrite Hs.
Qed.

Lemma value_number f c l :
  c = "-"%char ∨ is_digit c = true → value (S f) (c :: l) = take_number (c :: l).
Proof. intros [->|Hc]; [done|]. by destruct c as [[][][][][][][][]]. Qed.

Lemma comma_ends l : ends (comma :: l).
Proof. split; [done|set_solver]. Qed.
Lemma bracket_ends l : ends ("]"%char :: l).
Proof. split; [done|set_solver]. Qed.
Lemma brace_ends l : ends ("}"%char :: l).
Proof. split; [done|set_solver]. Qed.
#[local] Hint Resolve comma_ends bracket_ends brace_ends : core.

Definition reads (v : jsval) : Prop := ∀ f rest,
  (2 * length (print v) <= f)%nat → ends rest → value f (print v ++ rest) = Some (v, rest).

Lemma skip_space_at c l : json_space c = false → skip_space (c :: l) = c :: l.
Proof. cbn. by intros ->. Qed.

(** Decide the comparisons with a known character. *)
Ltac tokens :=
  repeat (rewrite skip_space_at by done);
  repeat match goal with
  | |- context [Ascii.eqb ?a ?b] =>
      let v := eval vm_compute in (Ascii.eqb a b) in
      match v with true => idtac | false => idtac end; change (Ascii.eqb a b) with v
  end; cbv iota.

Lemma elements_print l : ∀ f rest,
  l ≠ [] → Forall (λ v, json_ok v = true ∧ reads v) l →
  (2 * length (join_text (map print l)) < f)%nat →
  elements f (join_text (map print l) ++ "]"%char :: rest) = Some (l, rest).
Proof.
  induction l as [|v l IH]; intros f rest Hne Hl Hf; [done|].
  apply Forall_cons in Hl as [[Hok Hv] Hl]. destruct f as [|f]; [lia|].
  assert (Hlen : starts (print v)) by (by apply print_starts).
  assert (1 <= length (print v))%nat by (destruct (print v); [done|simpl; lia]).
  destruct l as [|w l]; cbn [map join_text elements] in *.
  - rewrite Hv by (try done; lia). done.
  - rewrite <- app_assoc. cbn [app]. rewrite length_app in Hf. cbn [length] in Hf.
    rewrite Hv by (try done; lia). tokens.
    rewrite IH by (try done; lia). done.
Qed.

Definition member_text (e : string * jsval) : text := (quote e.1 ++ ":"%char :: print e.2)%list.

Lemma members_print l : ∀ f rest,
  l ≠ [] → Forall (λ e, utf8_valid (chars e.1) = true ∧ json_ok e.2 = true ∧ reads e.2) l →
  (2 * length (join_text (map member_text l)) < f)%nat →
  members f (join_text (map member_text l) ++ "}"%char :: rest) = Some (l, rest).
Proof.
  induction l as [|[k v] l IH]; intros f rest Hne Hl Hf; [done|].
  apply Forall_cons in Hl as [(Hk & Hok & Hv) Hl]. cbn [fst snd] in *.
  destruct f as [|f]; [lia|].
  assert (Hmem : ∀ tail, ∃ body, (member_text (k, v) ++ tail = quote_char :: body)%list
    ∧ string_body body = Some (chars k, ":"%char :: print v ++ tail)%list).
  { intros tail. unfold member_text. cbn [fst snd].
    destruct (body_quote k (":"%char :: print v ++ tail) Hk) as (body & Hq & Hb).
    exists (body ++ ":"%char :: print v ++ tail)%list. rewrite Hq, <- app_assoc. by split. }
  assert (Hlen : (2 + length (print v) <= length (member_text (k, v)))%nat).
  { unfold member_text, quote. cbn [fst snd]. rewrite !length_app. simpl. rewrite length_app. simpl. lia. }
  destruct l as [|e l].
  - cbn [map join_text] in *. destruct (Hmem ("}"%char :: rest)) as (body & -> & Hb). cbn [members]. tokens. rewrite Hb. tokens.
    rewrite Hv by (try done; lia). tokens. by rewrite string_chars.
  - change (join_text (map member_text ((k, v) :: e :: l)))
      with (member_text (k, v) ++ comma :: join_text (map member_text (e :: l)))%list in *.
    set (j := join_text (map member_text (e :: l))) in *.
    rewrite length_app in Hf. cbn [length] in Hf. rewrite <- app_assoc.
    destruct (Hmem ((comma :: j) ++ "}"%char :: rest)%list) as (body & -> & Hb).
    cbn [members]. tokens. rewrite Hb. tokens.
    rewrite Hv by (try done; cbn [app]; try done; lia). cbn [app]. tokens.
    rewrite IH by (try done; lia). by rewrite string_chars.
Qed.

Lemma reads_print v : json_ok v = true → reads v.
Proof.
  induction v as [v Hv|l IH|fields IH] using jsval_nested; intros Hok f rest Hf Hr.
  - assert (1 <= length (print v))%nat
      by (pose proof (print_starts v Hok); destruct (print v); [done|simpl; lia]).
    destruct f as [|f]; [lia|]. destruct v as [| |b|z| | |s| |]; try done; cbn [print] in *.
    + by destruct b.
    + destruct (show_starts z) as (c & l & Hs & Hc). rewrite <- (take_number_show z rest); [|cbn in Hok; lia|done].
      rewrite Hs. cbn [app]. by apply value_number.
    + destruct (body_quote s rest Hok) as (body & -> & Hb). cbn [app value]. tokens. rewrite Hb. tokens.
      by rewrite string_chars.
  - cbn [print] in *. cbn [length app] in Hf. rewrite length_app in Hf. cbn [length] in Hf.
    destruct f as [|f]; [lia|]. destruct f as [|f]; [lia|].
    destruct l as [|v l]; [done|]. cbn [json_ok] in Hok.
    assert (Hall : Forall (λ v, json_ok v = true ∧ reads v) (v :: l)).
    { rewrite forallb_forall in Hok. rewrite Forall_forall in IH |- *. intros x Hx.
      assert (json_ok x = true) by (by apply Hok, list_elem_of_In). split; [done|by apply IH]. }
    assert (Hst : starts (join_text (map print (v :: l)))).
    { apply Forall_cons in Hall as [[Hv _] _]. pose proof (print_starts v Hv) as Hst.
      cbn [map join_text]. destruct (map print l); [done|]. by destruct (print v). }
    pose proof (elements_print (v :: l) (S f) rest) as He.
    cbn [app]. rewrite <- app_assoc. cbn [app].
    destruct (starts_app _ ("]"%char :: rest) Hst) as (c & l' & Heq & Hskip & Hc).
    rewrite Heq in *. cbn [value]. tokens.
    rewrite Hskip, Hc.
    rewrite He by (try done; lia). done.
  - cbn [print] in *. cbn [length app] in Hf. rewrite length_app in Hf. cbn [length] in Hf.
    destruct f as [|f]; [lia|]. destruct f as [|f]; [lia|].
    destruct fields as [|[k v] l]; [done|]. cbn [json_ok] in Hok. apply andb_true_iff in Hok as [Hk Hok].
    assert (Hall : Forall (λ e, utf8_valid (chars e.1) = true ∧ json_ok e.2 = true ∧ reads e.2) ((k, v) :: l)).
    { unfold keys_ok in Hk. rewrite !andb_true_iff in Hk. destruct Hk as [_ Hk].
      rewrite forallb_forall in Hok, Hk. rewrite Forall_forall in IH |- *. intros x Hx.
      assert (json_ok x.2 = true) by (by apply Hok, list_elem_of_In).
      split_and!; [|done|by apply IH]. apply Hk, in_map. by apply list_elem_of_In. }
    pose proof (members_print ((k, v) :: l) (S f) rest) as He.
    cbn [app]. rewrite <- app_assoc. cbn [app].
    change (map (λ e : string * jsval, (quote e.1 ++ ":"%char :: print e.2)%list) ((k, v) :: l))
      with (map member_text ((k, v) :: l)) in *.
    assert (Heq : ∃ l', (join_text (map member_text ((k, v) :: l)) ++ "}"%char :: rest = quote_char :: l')%list).
    { cbn [map join_text]. destruct (map member_text l); by eexists. }
    destruct Heq as (l' & Heq). rewrite Heq in *. cbn [value]. tokens.
    rewrite He by (try done; lia). by rewrite own_entries_ok.
Qed.

(** A document parses back to itself. *)
Lemma parse_stringify v : json_ok v = true →
  ∃ t, stringify v = Ok (Some t) ∧ parse t = Ok v.
Proof.
  intros Hok. exists (print v). split; [by apply stringify_print|].
  unfold parse. rewrite <- (app_nil_r (print v)) at 2. rewrite reads_print by (try done; lia). done.
Qed.

(** ** Fuel

    The parser's fuel is never the reason for a refusal: more of it changes nothing. *)
Lemma skip_space_length l : (length (skip_space l) <= length l)%nat.
Proof. induction l as [|c l IH]; simpl; [lia|]. destruct (json_space c); simpl; lia. Qed.

Lemma push_some x r s rest : push x r = Some (s, rest) → ∃ s', r = Some (s', rest) ∧ s = (x ++ s')%list.
Proof. destruct r as [[s' rest']|]; [|done]. intros [= <- <-]. eauto. Qed.

Lemma string_body_length l : ∀ s rest, string_body l = Some (s, rest) → (length rest < length l)%nat.
Proof.
  induction l as [l IH] using (induction_ltof1 _ (@length ascii)). unfold ltof in IH.
  intros s rest. destruct l as [|c l1]; cbn [string_body]; [done|].
  repeat first
    [ match goal with
      | H : push _ _ = Some _ |- _ => apply push_some in H as (? & H & _); apply IH in H; simpl in *; lia
      | |- push _ _ = Some _ → _ => intros H
      | |- Some ([], _) = Some _ → _ => intros [= <- <-]; simpl; lia
      | |- None = Some _ → _ => done
      | |- match ?x with _ => _ end = _ → _ => destruct x eqn:?
      end ].
Qed.

Lemma take_digits_split l : ∀ ds r, take_digits l = (ds, r) → l = (ds ++ r)%list ∧ forallb is_digit ds = true.
Proof.
  induction l as [|c l IH]; intros ds r; cbn [take_digits]; [by intros [= <- <-]|].
  destruct (is_digit c) eqn:Hc; [|by intros [= <- <-]].
  destruct (take_digits l) as [ds' r'] eqn:Hl. intros [= <- <-]. destruct (IH _ _ eq_refl) as [-> Hd].
  simpl. by rewrite Hc.
Qed.

(** What a number is written with. *)
Definition number_char (c : ascii) : bool :=
  is_digit c || existsb (Ascii.eqb c) ["-"; "+"; "."; "e"; "E"]%char.
Lemma number_digits ds : forallb is_digit ds = true → forallb number_char ds = true.
Proof.
  rewrite !forallb_forall. intros Hd c Hc. unfold number_char. by rewrite (Hd c Hc).
Qed.

Lemma take_number_split l v rest :
  take_number l = Some (v, rest) →
  ∃ used, l = (used ++ rest)%list ∧ used ≠ [] ∧ forallb number_char used = true
          ∧ match v with JArr _ | JObj _ | JStr _ => False | _ => True end.
Proof.
  unfold take_number. intros Hl.
  assert (Hsign : ∃ sign l0 neg, l = (sign ++ l0)%list ∧ forallb number_char sign = true
    ∧ match l with
      | c :: l' => if Ascii.eqb c "-" then (true, l') else (false, l)
      | [] => (false, [])
      end = (neg, l0)).
  { destruct l as [|c l']; [by exists [], [], false|].
    destruct (Ascii.eqb_spec c "-") as [->|]; [exists ["-"%char]|exists []]; by eauto. }
  destruct Hsign as (sign & l0 & neg & -> & Hs & Heq). rewrite Heq in Hl. clear Heq.
  destruct (take_digits l0) as [whole l1] eqn:Hd. apply take_digits_split in Hd as [-> Hd].
  destruct (whole_part whole) eqn:Hw; [|done]. cbn [negb] in Hl.
  destruct (take_fraction l1) as [[frac l2]|] eqn:Hf; [|done].
  destruct (take_exponent l2) as [[e l3]|] eqn:He; [|done]. injection Hl as <- <-.
  assert (Hf' : ∃ u, l1 = (u ++ l2)%list ∧ forallb number_char u = true).
  { destruct l1 as [|c l1]; cbn in Hf; [injection Hf as <- <-; by exists []|].
    destruct (Ascii.eqb_spec c ".") as [->|]; [|injection Hf as <- <-; by exists []].
    destruct (take_digits l1) as [ds r] eqn:Hd1. apply take_digits_split in Hd1 as [-> Hd1].
    destruct ds as [|d ds]; [done|]. injection Hf as <- <-. exists ("."%char :: d :: ds).
    split; [done|]. exact (number_digits _ Hd1). }
  assert (He' : ∃ u, l2 = (u ++ l3)%list ∧ forallb number_char u = true).
  { destruct l2 as [|c l2]; cbn in He; [injection He as <- <-; by exists []|].
    destruct (Ascii.eqb c "e" || Ascii.eqb c "E") eqn:Hc; [|injection He as <- <-; by exists []].
    assert (Hc' : number_char c = true).
    { apply orb_true_iff in Hc as [->%Ascii.eqb_eq| ->%Ascii.eqb_eq]; done. }
    assert (Hsg : ∃ u l4 ng, l2 = (u ++ l4)%list ∧ forallb number_char u = true ∧ take_sign l2 = (ng, l4)).
    { destruct l2 as [|c2 l2]; [by exists [], [], false|]. cbn.
      destruct (Ascii.eqb_spec c2 "-") as [->|]; [exists ["-"%char]; by eauto|].
      destruct (Ascii.eqb_spec c2 "+") as [->|]; [exists ["+"%char]; by eauto|].
      exists []. by eauto. }
    destruct Hsg as (u & l4 & ng & -> & Hu & Hts). rewrite Hts in He.
    destruct (take_digits l4) as [ds r] eqn:Hd1. apply take_digits_split in Hd1 as [-> Hd1].
    destruct ds as [|d ds]; [done|]. injection He as <- <-. exists (c :: u ++ d :: ds)%list.
    split; [simpl; by rewrite <- app_assoc|].
    cbn [forallb]. by rewrite Hc', forallb_app, Hu, (number_digits _ Hd1). }
  destruct Hf' as (u1 & -> & Hu1), He' as (u2 & -> & Hu2).
  exists (sign ++ whole ++ u1 ++ u2)%list. split_and!.
  - by rewrite <- !app_assoc.
  - destruct (whole_digits _ Hw) as [Hne _]. by destruct sign, whole.
  - by rewrite !forallb_app, Hs, (number_digits _ Hd), Hu1, Hu2.
  - unfold decimal, number. destruct (double _ _). by repeat case_match; simplify_eq.
Qed.

Lemma strip_word_split w : ∀ l rest, strip_word w l = Some rest → l = (w ++ rest)%list.
Proof.
  induction w as [|a w IH]; intros l rest; cbn [strip_word]; [by intros [= <-]|].
  destruct l as [|b l]; [done|]. destruct (Ascii.eqb_spec a b) as [->|]; [|done].
  intros H%IH. by subst.
Qed.

Lemma take_word_split w v l v' rest :
  take_word w v l = Some (v', rest) → v' = v ∧ l = (chars w ++ rest)%list.
Proof.
  unfold take_word. destruct (strip_word _ _) as [r|] eqn:Hs; [|done]. intros [= <- <-].
  by apply strip_word_split in Hs.
Qed.

(** Every successful step leaves less text. *)
Lemma value_length f :
  (∀ l v rest, value f l = Some (v, rest) → (length rest < length l)%nat)
  ∧ (∀ l vs rest, elements f l = Some (vs, rest) → (length rest + 1 < length l)%nat)
  ∧ (∀ l fs rest, members f l = Some (fs, rest) → (length rest + 1 < length l)%nat).
Proof.
  induction f as [|f (IHv & IHe & IHm)]; [by split_and!|].
  assert (Hskip : ∀ l c l', skip_space l = c :: l' → (length l' < length l)%nat).
  { intros l c l' H. pose proof (skip_space_length l) as Hl. rewrite H in Hl. simpl in Hl. lia. }
  split_and!; intros l x rest; cbn [value elements members].
  - destruct (skip_space l) as [|c l'] eqn:Hl; [done|]. pose proof (Hskip _ _ _ Hl).
    repeat match goal with |- (if ?b then _ else _) = _ → _ => destruct b end.
    + destruct (string_body l') as [[s r]|] eqn:Hs; [|done]. apply string_body_length in Hs.
      intros [= <- <-]. lia.
    + destruct (skip_space l') as [|c1 l1] eqn:Hl'; [done|]. apply Hskip in Hl' as ?.
      destruct (Ascii.eqb c1 "]"); [intros [= <- <-]; lia|].
      destruct (elements f (c1 :: l1)) as [[vs r]|] eqn:He; [|done]. apply IHe in He.
      intros [= <- <-]. simpl in He. lia.
    + destruct (skip_space l') as [|c1 l1] eqn:Hl'; [done|]. apply Hskip in Hl' as ?.
      destruct (Ascii.eqb c1 "}"); [intros [= <- <-]; lia|].
      destruct (members f (c1 :: l1)) as [[vs r]|] eqn:He; [|done]. apply IHm in He.
      intros [= <- <-]. simpl in He. lia.
    + intros [_ Hw]%take_word_split. apply (f_equal length) in Hw. rewrite length_app in Hw. simpl in Hw. lia.
    + intros [_ Hw]%take_word_split. apply (f_equal length) in Hw. rewrite length_app in Hw. simpl in Hw. lia.
    + intros [_ Hw]%take_word_split. apply (f_equal length) in Hw. rewrite length_app in Hw. simpl in Hw. lia.
    + intros (used & Hu & Hne & _)%take_number_split. apply (f_equal length) in Hu.
      rewrite length_app in Hu. destruct used; [done|]. simpl in Hu. lia.
  - destruct (value f l) as [[v r]|] eqn:Hv; [|done]. apply IHv in Hv.
    destruct (skip_space r) as [|c l1] eqn:Hl; [done|]. apply Hskip in Hl.
    destruct (Ascii.eqb c "]"); [intros [= <- <-]; lia|].
    destruct (Ascii.eqb c comma); [|done].
    destruct (elements f l1) as [[vs r']|] eqn:He; [|done]. apply IHe in He. intros [= <- <-]. lia.
  - destruct (skip_space l) as [|c l1] eqn:Hl; [done|]. apply Hskip in Hl.
    destruct (Ascii.eqb c quote_char); [|done].
    destruct (string_body l1) as [[k r]|] eqn:Hs; [|done]. apply string_body_length in Hs.
    destruct (skip_space r) as [|c2 l2] eqn:Hl2; [done|]. apply Hskip in Hl2.
    destruct (Ascii.eqb c2 ":"); [|done].
    destruct (value f l2) as [[v r2]|] eqn:Hv; [|done]. apply IHv in Hv.
    destruct (skip_space r2) as [|c3 l3] eqn:Hl3; [done|]. apply Hskip in Hl3.
    destruct (Ascii.eqb c3 "}"); [intros [= <- <-]; lia|].
    destruct (Ascii.eqb c3 comma); [|done].
    destruct (members f l3) as [[fs r']|] eqn:He; [|done]. apply IHm in He. intros [= <- <-]. lia.
Qed.

Lemma fuel_enough f : ∀ f', (f <= f')%nat →
  (∀ l, (2 * length l < f)%nat → value f' l = value f l)
  ∧ (∀ l, (2 * length l + 1 < f)%nat → elements f' l = elements f l)
  ∧ (∀ l, (2 * length l + 1 < f)%nat → members f' l = members f l).
Proof.
  induction f as [|f IH]; intros [|f'] Hf; try (split_and!; intros; lia).
  destruct (IH f') as (IHv & IHe & IHm); [lia|].
  assert (Hskip : ∀ l c l', skip_space l = c :: l' → (length l' < length l)%nat).
  { intros l c l' H. pose proof (skip_space_length l) as Hl. rewrite H in Hl. simpl in Hl. lia. }
  destruct (value_length f) as (Lv & Le & Lm).
  split_and!; intros l Hlen; cbn [value elements members].
  - destruct (skip_space l) as [|c l'] eqn:Hl; [done|]. pose proof (Hskip _ _ _ Hl).
    destruct (Ascii.eqb c quote_char); [done|]. destruct (Ascii.eqb c "[").
    { destruct (skip_space l') as [|c1 l1] eqn:Hl'; [done|]. apply Hskip in Hl' as ?.
      destruct (Ascii.eqb c1 "]"); [done|]. rewrite IHe; [done|simpl; lia]. }
    destruct (Ascii.eqb c "{"); [|done].
    destruct (skip_space l') as [|c1 l1] eqn:Hl'; [done|]. apply Hskip in Hl' as ?.
    destruct (Ascii.eqb c1 "}"); [done|]. rewrite IHm; [done|simpl; lia].
  - rewrite IHv by lia. destruct (value f l) as [[v r]|] eqn:Hv; [|done]. apply Lv in Hv.
    destruct (skip_space r) as [|c l1] eqn:Hl; [done|]. apply Hskip in Hl.
    destruct (Ascii.eqb c "]"); [done|]. destruct (Ascii.eqb c comma); [|done].
    by rewrite IHe by lia.
  - destruct (skip_space l) as [|c l1] eqn:Hl; [done|]. apply Hskip in Hl.
    destruct (Ascii.eqb c quote_char); [|done].
    destruct (string_body l1) as [[k r]|] eqn:Hs; [|done]. apply string_body_length in Hs.
    destruct (skip_space r) as [|c2 l2] eqn:Hl2; [done|]. apply Hskip in Hl2.
    destruct (Ascii.eqb c2 ":"); [|done]. rewrite IHv by lia.
    destruct (value f l2) as [[v r2]|] eqn:Hv; [|done]. apply Lv in Hv.
    destruct (skip_space r2) as [|c3 l3] eqn:Hl3; [done|]. apply Hskip in Hl3.
    destruct (Ascii.eqb c3 "}"); [done|]. destruct (Ascii.eqb c3 comma); [|done].
    by rewrite IHm by lia.
Qed.

(** ** Where the characters of a parsed string stand

    [scan] follows the escapes of a text from left to right and refuses one that denotes
    a printable character (the printer writes none); an escape no parser accepts leads to
    [Broken].  In a text that passes, the printable characters of a parsed string can only
    come from the same characters of the text. *)
Inductive escaping := Outside | Slash | Hex (k : nat) (acc : Z) | Broken.
Definition scan_step (q : escaping) (c : ascii) : option escaping :=
  match q with
  | Outside => Some (if Ascii.eqb c backslash then Slash else Outside)
  | Slash =>
      if Ascii.eqb c "u" then Some (Hex 0 0)
      else match unescape c with
           | Some x => if Ascii.eqb x "/" then None else Some Outside
           | None => Some Broken
           end
  | Hex k acc =>
      if is_hex c then
        let acc' := acc * 16 + hex_value c in
        if Nat.eqb k 3 then (if (acc' <? 32) || (128 <=? acc') then Some Outside else None)
        else Some (Hex (S k) acc')
      else Some Broken
  | Broken => Some Broken
  end.
Fixpoint scan (q : escaping) (l : text) : option escaping :=
  match l with
  | [] => Some q
  | c :: l' => match scan_step q c with Some q' => scan q' l' | None => None end
  end.

Lemma scan_app l l' : ∀ q, scan q (l ++ l') = match scan q l with Some q' => scan q' l' | None => None end.
Proof.
  induction l as [|c l IH]; intros q; [done|]. cbn [app scan]. destruct (scan_step q c); [|done]. apply IH.
Qed.

(** Text without a backslash. *)
Definition no_backslash (l : text) : bool := forallb (λ c, negb (Ascii.eqb c backslash)) l.
Lemma scan_plain l : no_backslash l = true → scan Outside l = Some Outside.
Proof.
  induction l as [|c l IH]; [done|]. unfold no_backslash. cbn [forallb scan scan_step].
  intros [Hc Hl]%andb_true_iff. apply negb_true_iff in Hc. rewrite Hc. by apply IH.
Qed.

Lemma scan_escape c : scan Outside (escape c) = Some Outside.
Proof. by destruct c as [[][][][][][][][]]. Qed.

Lemma scan_surrogate a b c u : surrogate a b c = Some u → scan Outside (u_escape u) = Some Outside.
Proof.
  unfold surrogate. destruct (_ && _) eqn:Hb; [|done]. intros [= <-].
  rewrite !andb_true_iff, !between_iff in Hb. destruct Hb as [[_ Hb] Hc].
  assert (Hall : forallb (λ x, forallb (λ y,
      match scan Outside (u_escape (53248 + (32 + Z.of_nat x) * 64 + Z.of_nat y)) with
      | Some Outside => true | _ => false end) (seq 0 64)) (seq 0 32) = true) by (vm_compute; reflexivity).
  rewrite forallb_forall in Hall.
  specialize (Hall (Z.to_nat (code b - 160)) ltac:(apply in_seq; lia)).
  rewrite forallb_forall in Hall. specialize (Hall (Z.to_nat (code c - 128)) ltac:(apply in_seq; lia)).
  replace (53248 + (32 + Z.of_nat (Z.to_nat (code b - 160))) * 64 + Z.of_nat (Z.to_nat (code c - 128)))
    with (53248 + (code b - 128) * 64 + (code c - 128)) in Hall by lia.
  by destruct (scan Outside _) as [[]|].
Qed.

Lemma scan_escape_all l : scan Outside (escape_all l) = Some Outside.
Proof.
  induction l as [l IH] using (induction_ltof1 _ (@length ascii)). unfold ltof in IH.
  destruct l as [|a [|b [|c l]]]; [done|by rewrite <- (scan_escape a), <- (app_nil_r (escape a))|..].
  - change (escape_all [a; b]) with (escape a ++ escape b ++ [])%list.
    by rewrite scan_app, scan_escape, scan_app, scan_escape.
  - change (escape_all (a :: b :: c :: l)) with
      (match surrogate a b c with Some u => (u_escape u ++ escape_all l)%list
                                | None => (escape a ++ escape_all (b :: c :: l))%list end).
    destruct (surrogate a b c) as [u|] eqn:Hu; rewrite scan_app.
    + rewrite (scan_surrogate _ _ _ _ Hu). apply IH. simpl. lia.
    + rewrite scan_escape. apply IH. simpl. lia.
Qed.

Lemma scan_quote s : scan Outside (quote s) = Some Outside.
Proof.
  change (scan Outside (escape_all (chars s) ++ [quote_char]) = Some Outside).
  by rewrite scan_app, scan_escape_all.
Qed.

Lemma show_no_backslash z : no_backslash (chars (show_Z z)) = true.
Proof.
  assert (Hn : ∀ n, 0 <= n → no_backslash (chars (show_Z n)) = true).
  { intros n Hn. destruct (show_nonneg n Hn) as (Hd & _ & _). unfold no_backslash.
    rewrite forallb_forall in Hd |- *. intros c Hc. specialize (Hd c Hc).
    by destruct c as [[][][][][][][][]]. }
  destruct (decide (z < 0)) as [Hz|Hz]; [|apply Hn; lia]. rewrite show_neg by done.
  unfold no_backslash. cbn [forallb]. apply Hn. lia.
Qed.

Lemma no_backslash_app l l' : no_backslash (l ++ l') = no_backslash l && no_backslash l'.
Proof. apply forallb_app. Qed.
Lemma no_backslash_cons c l : no_backslash (c :: l) = negb (Ascii.eqb c backslash) && no_backslash l.
Proof. done. Qed.
Lemma no_backslash_zeros n : no_backslash (zeros n) = true.
Proof. unfold zeros. by induction (Z.to_nat n). Qed.

Lemma positive_no_backslash p q : no_backslash (show_positive p q) = true.
Proof.
  unfold show_positive. destruct (shortest 17 1 p q (point_of p q)) as [[s k] n].
  pose proof (show_no_backslash s) as Hs. pose proof (show_no_backslash (Z.abs (n - 1))) as He.
  assert (Hsplit : ∀ m, no_backslash (take m (chars (show_Z s))) = true
                      ∧ no_backslash (drop m (chars (show_Z s))) = true).
  { intros m. apply andb_true_iff. by rewrite <- no_backslash_app, take_drop. }
  repeat match goal with |- context [if ?b then _ else _] => destruct b end;
    rewrite ?no_backslash_app, ?no_backslash_cons, ?no_backslash_app, ?no_backslash_zeros, ?Hs; try done.
  1: by rewrite (proj1 (Hsplit _)), (proj2 (Hsplit _)).
  all: destruct (chars (show_Z s)) as [|d [|d' ds]]; [done|..]; rewrite !no_backslash_cons in *;
    rewrite ?no_backslash_app, ?no_backslash_cons, He; apply andb_true_iff in Hs as [-> Hs];
    rewrite ?andb_true_r, ?Hs in *; try done; by apply andb_true_iff in Hs as [-> ->].
Qed.

Lemma float_no_backslash bits : no_backslash (show_float bits) = true.
Proof.
  unfold show_float, show_signed.
  repeat match goal with |- context [if ?b then _ else _] => destruct b end;
    rewrite ?no_backslash_cons, ?positive_no_backslash; done.
Qed.
Lemma integer_no_backslash z : no_backslash (show_integer z) = true.
Proof.
  unfold show_integer, show_signed.
  repeat match goal with |- context [if ?b then _ else _] => destruct b end;
    rewrite ?no_backslash_cons, ?positive_no_backslash, ?show_no_backslash; done.
Qed.

(** *** Entries of an object *)
Lemma set_field_incl {A} k (v : A) l e : e ∈ set_field k v l → e = (k, v) ∨ e ∈ l.
Proof.
  induction l as [|[k' v'] l IH]; cbn [set_field]; [intros ->%list_elem_of_singleton; by left|].
  destruct (String.eqb k k'); rewrite !elem_of_cons; [tauto|]. intros [->|He%IH]; tauto.
Qed.
Lemma insert_index_incl {A} z (e : string * A) l x : x ∈ insert_index z e l → x = e ∨ x ∈ l.
Proof.
  induction l as [|[k v] l IH]; cbn [insert_index]; [intros ->%list_elem_of_singleton; by left|].
  destruct (index_key k) as [z'|]; [destruct (z <? z')|]; rewrite !elem_of_cons; tauto.
Qed.
Lemma order_keys_incl {A} (l : list (string * A)) x : x ∈ order_keys l → x ∈ l.
Proof.
  induction l as [|e l IH]; cbn [order_keys]; [done|]. rewrite elem_of_cons.
  destruct (index_key e.1).
  - intros [->|Hx]%insert_index_incl; tauto.
  - rewrite elem_of_app, elem_of_cons. intros [[Hx _]%elem_of_lfilter|[->|[Hx _]%elem_of_lfilter]]; tauto.
Qed.
Lemma own_entries_incl {A} (l : list (string * A)) e : e ∈ own_entries l → e ∈ l.
Proof.
  unfold own_entries. intros He%order_keys_incl. revert He.
  assert (Hg : ∀ acc, e ∈ foldl (λ acc e, set_field e.1 e.2 acc) acc l → e ∈ acc ∨ e ∈ l).
  { induction l as [|x l IH]; intros acc; cbn [foldl]; [tauto|].
    intros [Ha|Hl]%IH; rewrite elem_of_cons; [|tauto].
    apply set_field_incl in Ha as [->|Ha]; [|tauto]. right. left. by destruct x. }
  intros He%Hg. destruct He as [He|He]; [by apply elem_of_nil in He|done].
Qed.

Lemma scan_joined l : Forall (λ t, scan Outside t = Some Outside) l → scan Outside (join_text l) = Some Outside.
Proof.
  induction 1 as [|t l Ht Hl IH]; [done|]. cbn [join_text].
  destruct l as [|t' l]; [done|]. by rewrite scan_app, Ht.
Qed.

Lemma scan_between a l b :
  Ascii.eqb a backslash = false → Ascii.eqb b backslash = false →
  scan Outside l = Some Outside → scan Outside (a :: l ++ [b]) = Some Outside.
Proof.
  intros Ha Hb Hl. cbn [scan scan_step]. rewrite Ha, scan_app, Hl. cbn. by rewrite Hb.
Qed.

Lemma scan_stringify v : ∀ t, stringify v = Ok (Some t) → scan Outside t = Some Outside.
Proof.
  induction v as [v Hv|l IH|fields IH] using jsval_nested; intros t Ht.
  - destruct v; try done; injection Ht as <-;
      first [apply scan_plain, integer_no_backslash|apply scan_plain, float_no_backslash
            |apply scan_quote|by destruct b|done].
  - cbn [stringify] in Ht. apply rbind_ok in Ht as (parts & Hp & [= <-]).
    apply map_result_ok in Hp. apply scan_between; [done|done|]. apply scan_joined.
    revert IH. induction Hp as [|x y l parts Hx _ IHp]; intros IH; constructor.
    + apply Forall_cons in IH as [IH _]. apply rbind_ok in Hx as ([t'|] & Ht & [= <-]); [|done].
      simpl. by apply IH.
    + apply Forall_cons in IH as [_ IH]. by apply IHp.
  - cbn [stringify] in Ht. apply rbind_ok in Ht as (parts & Hp & [= <-]).
    apply map_result_ok in Hp. apply scan_between; [done|done|]. apply scan_joined.
    assert (Hent : Forall (λ e : string * result (option text), ∀ t, e.2 = Ok (Some t) → scan Outside t = Some Outside)
      (own_entries (map (λ e, (e.1, stringify e.2)) fields))).
    { apply Forall_forall. intros e He%own_entries_incl. apply list_elem_of_In, in_map_iff in He as (x & <- & Hx).
      rewrite Forall_forall in IH. apply IH. by apply list_elem_of_In. }
    revert Hent. generalize (own_entries (map (λ e, (e.1, stringify e.2)) fields)) as es, Hp.
    clear. intros es Hp. induction Hp as [|[k r] y l parts Hx _ IHp]; intros Hent; [constructor|].
    apply Forall_cons in Hent as [Hr Hent]. cbn [fst snd] in *.
    apply rbind_ok in Hx as (o & -> & [= <-]). destruct o as [t|]; [|by apply IHp].
    change (Forall (λ t, scan Outside t = Some Outside) ((quote k ++ ":"%char :: t)%list :: omap id parts)).
    constructor; [|by apply IHp]. rewrite scan_app, scan_quote. 
    change (scan Outside t = Some Outside). by apply Hr.
Qed.

(** *** Denotation of a string by its literal *)
Definition printable (c : ascii) : bool := between 33 126 (code c) && negb (Ascii.eqb c quote_char).
Inductive denotes : text → text → Prop :=
  | denotes_nil : denotes [] []
  | denotes_char c t s : denotes t s → denotes (c :: t) (c :: s)
  | denotes_escape e x t s :
      x ≠ [] → Forall (λ c, printable c = false ∨ c = backslash) x → denotes t s →
      denotes (e ++ t) (x ++ s).

Definition infix (w l : text) : Prop := ∃ x y, l = (x ++ w ++ y)%list.
(** Text in which nothing needs an escape. *)
Definition bare (w : text) : Prop := Forall (λ c, printable c = true ∧ c ≠ backslash) w.

Lemma denotes_prefix t s w y : denotes t s → bare w → s = (w ++ y)%list → ∃ t', t = (w ++ t')%list.
Proof.
  intros Hd. revert w y. induction Hd as [|c t s _ IH|e x t s Hne Hx _ IH]; intros w y Hw Hs.
  - destruct w; [by exists []|done].
  - destruct w as [|c' w]; [by eexists|]. injection Hs as <- Hs.
    apply Forall_cons in Hw as [_ Hw]. destruct (IH w y Hw Hs) as [t' ->]. by exists t'.
  - destruct w as [|c' w]; [by eexists|]. exfalso. destruct x as [|c x]; [done|].
    injection Hs as -> _. apply Forall_cons in Hx as [Hc _]. apply Forall_cons in Hw as [Hw _]. destruct Hw, Hc; congruence.
Qed.

Lemma denotes_infix t s w : denotes t s → bare w → infix w s → infix w t.
Proof.
  intros Hd Hw (x & y & Hs). revert x y Hs.
  induction Hd as [|c t s Hd IH|e x' t s Hne Hx Hd IH]; intros x y Hs.
  - destruct x, w; try done. by exists [], [].
  - destruct x as [|c' x].
    + destruct (denotes_prefix (c :: t) (c :: s) w y) as [t' ->]; [by constructor|done..|].
      by exists [], t'.
    + injection Hs as <- Hs. destruct (IH x y Hs) as (x1 & y1 & ->). by exists (c :: x1), y1.
  - destruct w as [|a w]; [by exists [], (e ++ t)%list|].
    assert (Hx' : ∃ x2, x = (x' ++ x2)%list ∧ s = (x2 ++ (a :: w) ++ y)%list).
    { apply app_eq_app in Hs as (k & [[-> Hk]|[-> Hk]]); [|by exists k].
      destruct k as [|a' k]; [exists []; by rewrite !app_nil_r in *|]. exfalso.
      injection Hk as <- _. apply Forall_app in Hx as [_ Hx]. apply Forall_cons in Hx as [Hc _].
      apply Forall_cons in Hw as [Hw _]. destruct Hw, Hc; congruence. }
    destruct Hx' as (x2 & -> & Hs2). destruct (IH x2 y Hs2) as (x1 & y1 & ->).
    exists (e ++ x1)%list, y1. by rewrite <- app_assoc.
Qed.

Lemma scan_hex k acc c l :
  is_hex c = true →
  scan (Hex k acc) (c :: l)
  = let acc' := acc * 16 + hex_value c in
    if Nat.eqb k 3 then (if (acc' <? 32) || (128 <=? acc') then scan Outside l else None)
    else scan (Hex (S k) acc') l.
Proof. intros Hc. cbn [scan scan_step]. rewrite Hc. cbv zeta.
  destruct (Nat.eqb k 3); [|done]. by destruct (_ || _). Qed.

Lemma scan_u d1 d2 d3 d4 u l :
  hex4 d1 d2 d3 d4 = Some u →
  scan Outside (backslash :: "u"%char :: d1 :: d2 :: d3 :: d4 :: l)
  = if (u <? 32) || (128 <=? u) then scan Outside l else None.
Proof.
  unfold hex4. destruct (is_hex d1 && is_hex d2 && is_hex d3 && is_hex d4) eqn:Hh; [|done].
  intros [= <-]. rewrite !andb_true_iff in Hh. destruct Hh as [[[H1 H2] H3] H4].
  change (scan (Hex 0 0) (d1 :: d2 :: d3 :: d4 :: l) =
    if (hex_number [d1; d2; d3; d4] <? 32) || (128 <=? hex_number [d1; d2; d3; d4])
    then scan Outside l else None).
  by do 4 (rewrite scan_hex by done; cbv zeta; cbn [Nat.eqb]).
Qed.

Lemma hex4_bounds d1 d2 d3 d4 u : hex4 d1 d2 d3 d4 = Some u → 0 <= u < 65536.
Proof.
  unfold hex4. destruct (is_hex d1 && is_hex d2 && is_hex d3 && is_hex d4) eqn:Hh; [|done].
  intros [= <-]. rewrite !andb_true_iff in Hh. destruct Hh as [[[H1 H2] H3] H4].
  assert (Hb : ∀ c, is_hex c = true → 0 <= hex_value c < 16).
  { intros c. destruct c as [[][][][][][][][]]; vm_compute; try congruence; split; congruence. }
  apply Hb in H1, H2, H3, H4. unfold hex_number. cbn [foldl]. lia.
Qed.

Lemma code_byte_of z : 0 <= z < 256 → code (byte_of z) = z.
Proof. intros Hz. unfold code, byte_of. rewrite N_ascii_embedding by lia. lia. Qed.

Lemma byte_unprintable z : 0 <= z < 33 ∨ 127 <= z < 256 → printable (byte_of z) = false.
Proof.
  intros Hz. unfold printable. rewrite code_byte_of by lia.
  destruct (between 33 126 z) eqn:Hb; [apply between_iff in Hb; lia|done].
Qed.

Lemma utf8_unprintable u : 0 <= u < 32 ∨ 128 <= u < 1114112 →
  utf8_bytes u ≠ [] ∧ Forall (λ c, printable c = false ∨ c = backslash) (utf8_bytes u).
Proof.
  intros Hu. unfold utf8_bytes.
  assert (Hr : ∀ n, 0 <= n mod 64 < 64) by (intros; apply Z.mod_pos_bound; lia).
  pose proof (Hr u). pose proof (Hr (u / 64)). pose proof (Hr (u / 4096)).
  assert (Hq : ∀ m, 0 < m → 0 <= u / m) by (intros; apply Z.div_pos; lia).
  repeat match goal with |- context [?a <? ?b] => destruct (Z.ltb_spec a b) end;
    (split; [done|]); repeat (apply Forall_cons_2; [left; apply byte_unprintable|]); try apply Forall_nil_2.
  all: try lia.
  1: assert (u / 64 < 32) by (apply Z.div_lt_upper_bound; lia); pose proof (Hq 64); lia.
  1: assert (u / 4096 < 16) by (apply Z.div_lt_upper_bound; lia); pose proof (Hq 4096); lia.
  1: assert (u / 262144 < 5) by (apply Z.div_lt_upper_bound; lia); pose proof (Hq 262144); lia.
Qed.

Lemma unescape_unprintable e x : unescape e = Some x → x ≠ "/"%char → printable x = false ∨ x = backslash.
Proof.
  unfold unescape. repeat match goal with |- context [if ?b then _ else _] => destruct b end;
    intros [= <-] Hx; first [by left|by right|done].
Qed.

(** A literal denotes its string, and the scan comes out of it where it went in. *)
Definition literal (l s rest : text) : Prop :=
  ∃ lit, l = (lit ++ quote_char :: rest)%list ∧ denotes lit s ∧ scan Outside lit = Some Outside.

Lemma literal_escape e x l s rest :
  x ≠ [] → Forall (λ c, printable c = false ∨ c = backslash) x → scan Outside e = Some Outside →
  literal l s rest → literal (e ++ l) (x ++ s) rest.
Proof.
  intros Hne Hx He (lit & -> & Hd & Hs). exists (e ++ lit)%list. split_and!.
  - by rewrite <- app_assoc.
  - by apply denotes_escape.
  - by rewrite scan_app, He.
Qed.

Lemma body_denotes l : ∀ s rest,
  string_body l = Some (s, rest) → scan Outside l ≠ None → literal l s rest.
Proof.
  induction l as [l IH] using (induction_ltof1 _ (@length ascii)). unfold ltof in IH.
  intros s rest. destruct l as [|c l1]; cbn [string_body]; [done|].
  destruct (Ascii.eqb_spec c quote_char) as [->|Hq].
  { intros [= <- <-] _. exists []. split_and!; [done|constructor|done]. }
  destruct (Ascii.eqb_spec c backslash) as [->|Hb].
  - destruct l1 as [|e l2]; [done|]. destruct (Ascii.eqb_spec e "u") as [->|Hu].
    + destruct l2 as [|d1 [|d2 [|d3 [|d4 l6]]]]; try done.
      destruct (hex4 d1 d2 d3 d4) as [u|] eqn:Hu; [|done]. intros Hs Hscan.
      rewrite (scan_u _ _ _ _ _ _ Hu) in Hscan. pose proof (hex4_bounds _ _ _ _ _ Hu) as Hb.
      destruct ((u <? 32) || (128 <=? u)) eqn:Hlim; [|done].
      assert (Hu' : scan Outside [backslash; "u"%char; d1; d2; d3; d4] = Some Outside).
      { by rewrite (scan_u _ _ _ _ _ _ Hu), Hlim. }
      apply orb_true_iff in Hlim. rewrite Z.ltb_lt, Z.leb_le in Hlim.
      destruct (utf8_unprintable u) as [Hne Hx]; [lia|].
      assert (Hone : ∀ s', string_body l6 = Some (s', rest) → s = (utf8_bytes u ++ s')%list →
        literal ([backslash; "u"%char; d1; d2; d3; d4] ++ l6) s rest).
      { intros s' Hs' ->. apply literal_escape; [done..|]. apply IH; [simpl; lia|done|done]. }
      destruct (between 55296 56319 u) eqn:Hhigh;
        [|apply push_some in Hs as (s' & Hs & ->); by eapply Hone].
      apply between_iff in Hhigh.
      destruct l6 as [|x [|y [|e1 [|e2 [|e3 [|e4 l12]]]]]];
        try (apply push_some in Hs as (s' & Hs & ->); by eapply Hone).
      destruct (low_surrogate x y e1 e2 e3 e4) as [w|] eqn:Hw;
        [|apply push_some in Hs as (s' & Hs & ->); by eapply Hone].
      unfold low_surrogate in Hw. destruct (_ && _) eqn:Hxy; [|done].
      apply andb_true_iff in Hxy as [->%Ascii.eqb_eq ->%Ascii.eqb_eq].
      destruct (hex4 e1 e2 e3 e4) as [w'|] eqn:Hw'; [|done].
      destruct (between 56320 57343 w') eqn:Hlow; [|done]. injection Hw as <-. apply between_iff in Hlow.
      rewrite (scan_u _ _ _ _ _ _ Hw') in Hscan.
      assert (Hl : (w' <? 32) || (128 <=? w') = true) by (apply orb_true_iff; rewrite Z.leb_le; lia).
      rewrite Hl in Hscan. apply push_some in Hs as (s' & Hs & ->).
      destruct (utf8_unprintable (65536 + (u - 55296) * 1024 + (w' - 56320))) as [Hne2 Hx2]; [lia|].
      apply (literal_escape ([backslash; "u"%char; d1; d2; d3; d4] ++ [backslash; "u"%char; e1; e2; e3; e4]));
        [done|done| |apply IH; [simpl; lia|done|done]].
      by rewrite scan_app, Hu', (scan_u _ _ _ _ _ _ Hw'), Hl.
    + destruct (unescape e) as [x|] eqn:Hx; [|done]. intros Hs Hscan.
      apply push_some in Hs as (s' & Hs & ->). cbn [scan scan_step] in Hscan.
      rewrite Ascii.eqb_refl in Hscan. cbn [scan_step] in Hscan.
      rewrite (proj2 (Ascii.eqb_neq _ _) Hu), Hx in Hscan.
      destruct (Ascii.eqb_spec x "/") as [->|Hslash]; [done|].
      apply (literal_escape [backslash; e] [x]); [done| |
        |apply IH; [simpl; lia|done|done]].
      * constructor; [by eapply unescape_unprintable|constructor].
      * cbn [scan scan_step]. rewrite Ascii.eqb_refl. cbn [scan_step].
        rewrite (proj2 (Ascii.eqb_neq _ _) Hu), Hx. by rewrite (proj2 (Ascii.eqb_neq _ _) Hslash).
  - destruct (code c <? 32); [done|]. intros Hs Hscan. apply push_some in Hs as (s' & Hs & ->).
    cbn [scan scan_step] in Hscan. rewrite (proj2 (Ascii.eqb_neq _ _) Hb) in Hscan.
    destruct (IH l1 ltac:(simpl; lia) s' rest Hs Hscan) as (lit & -> & Hd & Hl).
    exists (c :: lit). split_and!; [done|by constructor|].
    cbn [scan scan_step]. by rewrite (proj2 (Ascii.eqb_neq _ _) Hb).
Qed.

(** Every string of a value: its texts and the keys of its objects. *)
Fixpoint strings_of (v : jsval) : list string :=
  match v with
  | JStr s => [s]
  | JArr l => flat_map strings_of l
  | JObj fields => flat_map (λ e, e.1 :: strings_of e.2) fields
  | _ => []
  end.

(** Printable text of [s] stands in [l]. *)
Definition stands (l : text) (s : string) : Prop := ∀ w, bare w → infix w (chars s) → infix w l.
(** Reading up to [rest] leaves the scan outside of an escape. *)
Definition consumes (l rest : text) : Prop := ∃ used, l = (used ++ rest)%list ∧ scan Outside used = Some Outside.

Lemma infix_app_r w l l' : infix w l' → infix w (l ++ l').
Proof. intros (x & y & ->). exists (l ++ x)%list, y. by rewrite <- app_assoc. Qed.
Lemma infix_app_l w l l' : infix w l → infix w (l ++ l').
Proof. intros (x & y & ->). exists x, (y ++ l')%list. by rewrite <- !app_assoc. Qed.

Lemma consumes_refl l : consumes l l.
Proof. by exists []. Qed.
Lemma consumes_trans a b c : consumes a b → consumes b c → consumes a c.
Proof.
  intros (x & -> & Hx) (y & -> & Hy). exists (x ++ y)%list. by rewrite <- app_assoc, scan_app, Hx.
Qed.
Lemma consumes_char c l : c ≠ backslash → consumes (c :: l) l.
Proof.
  intros Hc. exists [c]. split; [done|]. cbn. by rewrite (proj2 (Ascii.eqb_neq _ _) Hc).
Qed.
Lemma consumes_skip l : consumes l (skip_space l).
Proof.
  induction l as [|c l IH]; [apply consumes_refl|]. cbn [skip_space].
  destruct (json_space c) eqn:Hc; [|apply consumes_refl].
  eapply consumes_trans; [apply consumes_char|done]. by intros ->.
Qed.
Lemma consumes_next l c l' : skip_space l = c :: l' → c ≠ backslash → consumes l l'.
Proof.
  intros Hl Hc. eapply consumes_trans; [apply consumes_skip|]. rewrite Hl. by apply consumes_char.
Qed.
Lemma consumes_scan l rest : consumes l rest → scan Outside l ≠ None → scan Outside rest ≠ None.
Proof. intros (u & -> & Hu). by rewrite scan_app, Hu. Qed.
Lemma consumes_stands l rest s : consumes l rest → stands rest s → stands l s.
Proof. intros (u & -> & _) Hs w Hw Hi. apply infix_app_r. by apply Hs. Qed.
Lemma consumes_all l rest ss : consumes l rest → Forall (stands rest) ss → Forall (stands l) ss.
Proof. intros Hc Hf. eapply Forall_impl; [exact Hf|]. intros s. by apply consumes_stands. Qed.

Lemma literal_consumes l s rest : literal l s rest → consumes l rest ∧ stands l (string_of_list_ascii s).
Proof.
  intros (lit & -> & Hd & Hs). split.
  - exists (lit ++ [quote_char])%list. rewrite <- app_assoc. split; [done|]. by rewrite scan_app, Hs.
  - intros w Hw Hi. apply infix_app_l. unfold chars in Hi.
    rewrite list_ascii_of_string_of_list_ascii in Hi. by eapply denotes_infix.
Qed.

(** What one step of the parser establishes. *)
Definition read_from (l : text) (ss : list string) (rest : text) : Prop :=
  consumes l rest ∧ Forall (stands l) ss.
Lemma read_skip l c l' ss rest :
  skip_space l = c :: l' → c ≠ backslash → read_from l' ss rest → read_from l ss rest.
Proof.
  intros Hl Hc [Hr Hs]. pose proof (consumes_next _ _ _ Hl Hc) as Hn.
  split; [by eapply consumes_trans|by eapply consumes_all].
Qed.
Lemma read_then l ss mid ss' rest :
  read_from l ss mid → read_from mid ss' rest → read_from l (ss ++ ss') rest.
Proof.
  intros [Hm Hs] [Hr Hs']. split; [by eapply consumes_trans|].
  apply Forall_app. split; [done|by eapply consumes_all].
Qed.
Lemma read_next l ss mid c rest :
  read_from l ss mid → skip_space mid = c :: rest → c ≠ backslash → read_from l ss rest.
Proof.
  intros Hl Hm Hc. rewrite <- (app_nil_r ss). eapply read_then; [done|].
  split; [by eapply consumes_next|constructor].
Qed.
Lemma read_scan l ss rest : read_from l ss rest → scan Outside l ≠ None → scan Outside rest ≠ None.
Proof. intros [Hc _]. by apply consumes_scan. Qed.

Lemma body_reads l s rest :
  string_body l = Some (s, rest) → scan Outside l ≠ None →
  read_from l [string_of_list_ascii s] rest.
Proof.
  intros Hb Hs. destruct (literal_consumes _ _ _ (body_denotes _ _ _ Hb Hs)) as [Hc Hst].
  split; [done|]. by repeat constructor.
Qed.

Lemma own_entries_strings fields :
  (∀ s, s ∈ strings_of (JObj (own_entries fields)) → s ∈ strings_of (JObj fields)).
Proof.
  intros s. cbn [strings_of]. rewrite !list_elem_of_In, !in_flat_map.
  intros (e & He & Hs). exists e. split; [|done].
  apply list_elem_of_In, own_entries_incl, list_elem_of_In in He. done.
Qed.

Lemma eqb_true_not_backslash a c : Ascii.eqb c a = true → Ascii.eqb a backslash = false → c ≠ backslash.
Proof. intros ->%Ascii.eqb_eq Ha ->. done. Qed.

Lemma plain_used l used rest : l = (used ++ rest)%list → no_backslash used = true → read_from l [] rest.
Proof. intros -> Hu. split; [|constructor]. exists used. split; [done|]. by apply scan_plain. Qed.

Lemma number_no_backslash l : forallb number_char l = true → no_backslash l = true.
Proof.
  unfold no_backslash. rewrite !forallb_forall. intros Hl c Hc. specialize (Hl c Hc).
  by destruct c as [[][][][][][][][]].
Qed.

Lemma word_reads w v l v' rest :
  take_word w v l = Some (v', rest) → no_backslash (chars w) = true → strings_of v = [] →
  read_from l (strings_of v') rest.
Proof. intros [-> ->]%take_word_split Hw ->. by eapply plain_used. Qed.

Lemma parser_reads f :
  (∀ l v rest, value f l = Some (v, rest) → scan Outside l ≠ None → read_from l (strings_of v) rest)
  ∧ (∀ l vs rest, elements f l = Some (vs, rest) → scan Outside l ≠ None →
       read_from l (flat_map strings_of vs) rest)
  ∧ (∀ l fs rest, members f l = Some (fs, rest) → scan Outside l ≠ None →
       read_from l (strings_of (JObj fs)) rest).
Proof.
  induction f as [|f (IHv & IHe & IHm)]; [by split_and!|].
  assert (Hat : ∀ l c l', skip_space l = c :: l' → c ≠ backslash →
    scan Outside l ≠ None → scan Outside l' ≠ None).
  { intros l c l' Hl Hc. apply consumes_scan. by eapply consumes_next. }
  split_and!; intros l x rest; cbn [value elements members].
  - destruct (skip_space l) as [|c l'] eqn:Hl; [done|].
    destruct (Ascii.eqb_spec c quote_char) as [->|_].
    { destruct (string_body l') as [[s r]|] eqn:Hs; [|done]. intros [= <- <-] Hscan.
      eapply read_skip; [done|done|]. apply body_reads; [done|by eapply Hat]. }
    destruct (Ascii.eqb_spec c "[") as [->|_].
    { destruct (skip_space l') as [|c1 l1] eqn:Hl'; [done|].
      destruct (Ascii.eqb_spec c1 "]") as [->|_].
      { intros [= <- <-] _. eapply read_skip; [done|done|]. eapply read_skip; [done|done|].
        split; [apply consumes_refl|constructor]. }
      destruct (elements f (c1 :: l1)) as [[vs r]|] eqn:He; [|done]. intros [= <- <-] Hscan.
      eapply read_skip; [done|done|]. rewrite <- Hl' in He.
      eapply (read_then _ []); [split; [apply consumes_skip|constructor]|]. apply IHe; [done|].
      eapply consumes_scan; [apply consumes_skip|by eapply Hat]. }
    destruct (Ascii.eqb_spec c "{") as [->|_].
    { destruct (skip_space l') as [|c1 l1] eqn:Hl'; [done|].
      destruct (Ascii.eqb_spec c1 "}") as [->|_].
      { intros [= <- <-] _. eapply read_skip; [done|done|]. eapply read_skip; [done|done|].
        split; [apply consumes_refl|constructor]. }
      destruct (members f (c1 :: l1)) as [[fs r]|] eqn:He; [|done]. intros [= <- <-] Hscan.
      eapply read_skip; [done|done|]. rewrite <- Hl' in He.
      eapply (read_then _ []); [split; [apply consumes_skip|constructor]|].
      destruct (IHm _ _ _ He) as [Hc Hst].
      { eapply consumes_scan; [apply consumes_skip|by eapply Hat]. }
      split; [done|]. rewrite Forall_forall in Hst |- *. intros s Hs. by apply Hst, own_entries_strings. }
    intros Hv Hscan. rewrite <- Hl in Hv.
    apply (read_then l [] (skip_space l) (strings_of x) rest); [split; [apply consumes_skip|constructor]|].
    repeat match type of Hv with (if ?b then _ else _) = _ => destruct b;
      [by eapply word_reads|] end.
    apply take_number_split in Hv as (used & Hu & _ & Hn & Hshape).
    assert (Hnil : strings_of x = []) by (by destruct x). rewrite Hnil.
    eapply plain_used; [done|by apply number_no_backslash].
  - destruct (value f l) as [[v r]|] eqn:Hv; [|done].
    destruct (skip_space r) as [|c l1] eqn:Hl; [done|].
    destruct (Ascii.eqb_spec c "]") as [->|_].
    { intros [= <- <-] Hscan. cbn [flat_map]. rewrite app_nil_r.
      eapply read_next; [by apply IHv|done|done]. }
    destruct (Ascii.eqb_spec c comma) as [->|_]; [|done].
    destruct (elements f l1) as [[vs r']|] eqn:He; [|done]. intros [= <- <-] Hscan.
    assert (Hr : read_from l (strings_of v) l1) by (eapply read_next; [by apply IHv|done|done]).
    cbn [flat_map]. eapply read_then; [done|]. apply IHe; [done|by eapply read_scan].
  - destruct (skip_space l) as [|c l1] eqn:Hl; [done|].
    destruct (Ascii.eqb_spec c quote_char) as [->|_]; [|done].
    destruct (string_body l1) as [[k r]|] eqn:Hs; [|done].
    destruct (skip_space r) as [|c2 l2] eqn:Hl2; [done|].
    destruct (Ascii.eqb_spec c2 ":") as [->|_]; [|done].
    destruct (value f l2) as [[v r2]|] eqn:Hv; [|done].
    destruct (skip_space r2) as [|c3 l3] eqn:Hl3; [done|]. intros Hx Hscan.
    assert (Hk : read_from l [string_of_list_ascii k] l2).
    { eapply read_skip; [done|done|]. eapply read_next; [|done|done].
      apply body_reads; [done|by eapply Hat]. }
    assert (Hv' : read_from l2 (strings_of v) r2) by (apply IHv; [done|by eapply read_scan]).
    pose proof (read_then _ _ _ _ _ Hk Hv') as Hkv. simpl in Hkv.
    destruct (Ascii.eqb_spec c3 "}") as [->|_].
    { injection Hx as <- <-. cbn [strings_of flat_map fst snd]. rewrite app_nil_r.
      by eapply read_next. }
    destruct (Ascii.eqb_spec c3 comma) as [->|_]; [|done].
    destruct (members f l3) as [[fs r']|] eqn:He; [|done]. injection Hx as <- <-.
    assert (Hn : read_from l (string_of_list_ascii k :: strings_of v) l3) by (by eapply read_next).
    change (strings_of (JObj ((string_of_list_ascii k, v) :: fs)))
      with ((string_of_list_ascii k :: strings_of v) ++ strings_of (JObj fs))%list.
    eapply read_then; [done|]. apply IHm; [done|by eapply read_scan].
Qed.

(** The printable text of a parsed string stands in a text that passes the scan. *)
Lemma parsed_strings l v s :
  parse l = Ok v → scan Outside l ≠ None → s ∈ strings_of v → stands l s.
Proof.
  unfold parse. destruct (value _ l) as [[v' rest]|] eqn:Hv; [|done].
  destruct (skip_space rest); [|done]. intros [= <-] Hscan Hs.
  destruct (parser_reads (S (2 * length l))) as (Hr & _ & _). destruct (Hr _ _ _ Hv Hscan) as [_ Hst].
  rewrite Forall_forall in Hst. by apply Hst.
Qed.
