(* ===== verification/Redact.v ===== *)
(** * Stripping bearer values from what a seller sends back

    [redactBearerSecrets] of [packages/delegation/src/payment-client.ts]: a seller's
    answer passes through it before it reaches the caller, because the seller has just
    been sent a signed permission context and may echo it.  The value is printed as JSON,
    the secrets are replaced in the text, and the text is parsed again. *)

From Stdlib Require Import ZArith Lia Ascii String.
From stdpp Require Import base gmap strings list.
From S2P Require Import Prelude Token Json.
Open Scope string_scope.
Open Scope Z_scope.

Definition BEARER_REDACTION : string := "[redacted: bearer payment authorization]".

(** The length of the match that starts here, zero when there is none. *)
Definition matcher := text → nat.
Definition match_literal (w : text) : matcher := λ l,
  match strip_word w l with Some _ => length w | None => O end.
(** [new RegExp(`(?:0x)?${body}`, "i")] for hex digits *)
Definition match_hex (body : text) : matcher := λ l,
  let lowered := map lower_char l in
  match strip_word ("0"%char :: "x"%char :: map lower_char body) lowered with
  | Some _ => S (S (length body))
  | None => match_literal (map lower_char body) lowered
  end.

(** [replace] with the global flag, and [split(w).join(r)]: the leftmost match, then on
    after it.  [skip] counts the characters of a match still to pass. *)
Fixpoint replace_all (m : matcher) (r : text) (skip : nat) (l : text) : text :=
  match l with
  | [] => []
  | c :: l' =>
      match skip with
      | S k => replace_all m r k l'
      | O => match m l with
             | O => c :: replace_all m r 0 l'
             | S k => (r ++ replace_all m r k l')%list
             end
      end
  end.

(** [/^0x[0-9a-fA-F]+$/.test(secret) ? secret.slice(2) : undefined] *)
Definition hex_body (secret : string) : option text :=
  match strip_0x secret with
  | Some t => match chars t with
              | [] => None
              | l => if forallb is_hex l then Some l else None
              end
  | None => None
  end.

Definition secret_matcher (secret : string) : matcher :=
  match hex_body secret with
  | Some body => if Nat.leb 32 (length body) then match_hex body else match_literal (chars secret)
  | None => match_literal (chars secret)
  end.
Definition redact_one (cleaned : text) (secret : string) : text :=
  if slen secret <? 32 then cleaned
  else replace_all (secret_matcher secret) (chars BEARER_REDACTION) 0 cleaned.

Definition redactBearerSecrets (v : jsval) (secrets : list string) : result jsval :=
  let? serialized := stringify v in
  match serialized with
  | None => Ok v
  | Some serialized =>
      let cleaned := foldl redact_one serialized secrets in
      if bool_decide (cleaned = serialized) then Ok v else parse cleaned
  end.

(** ** Replacement *)

(** The alphabet of hex and of base64. *)
Definition secret_char (c : ascii) : bool :=
  is_digit c || is_lower c || is_upper c || existsb (Ascii.eqb c) ["+"; "/"; "="]%char.
Definition is_secret (w : text) : Prop := (32 <= length w)%nat ∧ Forall (λ c, secret_char c = true) w.

Lemma secret_bare w : is_secret w → bare w.
Proof.
  intros [_ Hw]. eapply Forall_impl; [exact Hw|]. intros c Hc. simpl in Hc.
  split; [by destruct c as [[][][][][][][][]]|]. by intros ->.
Qed.

(** Every stretch of the replacement is broken by a character no secret has. *)
Fixpoint breaks (r : text) : bool :=
  match r with
  | [] => true
  | _ :: r' => existsb (λ c, negb (secret_char c)) (take 32 r) && breaks r'
  end.
Lemma redaction_breaks : breaks (chars BEARER_REDACTION) = true.
Proof. vm_compute. reflexivity. Qed.

Lemma infix_cons w c l : infix w (c :: l) → (∃ y, c :: l = (w ++ y)%list) ∨ infix w l.
Proof. intros ([|x xs] & y & Hl); [left; by exists y|right]. injection Hl as -> ->. by exists xs, y. Qed.

Lemma break_prefix r w o y :
  is_secret w → existsb (λ c, negb (secret_char c)) (take 32 r) = true → (r ++ o)%list = (w ++ y)%list → False.
Proof.
  intros [Hlen Hw] (c & Hc & Hn)%existsb_exists Heq. apply negb_true_iff in Hn.
  apply list_elem_of_In, list_elem_of_lookup in Hc as [i Hi].
  apply lookup_take_Some in Hi as [Hi Hlt].
  assert (Ho : (r ++ o)%list !! i = Some c) by (by apply lookup_app_l_Some).
  rewrite Heq, lookup_app_l in Ho by lia.
  rewrite Forall_lookup in Hw. by rewrite (Hw _ _ Ho) in Hn.
Qed.

Lemma infix_past_break r w o : is_secret w → breaks r = true → infix w (r ++ o) → infix w o.
Proof.
  intros Hw. induction r as [|c r IH]; [done|]. cbn [breaks]. intros [Hb Hr]%andb_true_iff.
  intros [[y Hy]|Hi]%infix_cons; [exfalso; by eapply (break_prefix (c :: r))|by apply IH].
Qed.

Section replacement.
Variables (m : matcher) (r : text).
Hypothesis Hr : breaks r = true.
Hypothesis Hr0 : ∃ c r', r = c :: r' ∧ secret_char c = false.

Lemma replace_prefix w l : ∀ y,
  Forall (λ c, secret_char c = true) w → replace_all m r 0 l = (w ++ y)%list → ∃ y', l = (w ++ y')%list.
Proof.
  revert l. induction w as [|a w IH]; intros l y Hw Hl; [by exists l|].
  destruct l as [|c l]; [done|]. cbn [replace_all] in Hl. apply Forall_cons in Hw as [Ha Hw].
  destruct (m (c :: l)) as [|k].
  - injection Hl as -> Hl. destruct (IH l y Hw Hl) as [y' ->]. by exists y'.
  - destruct Hr0 as (c' & r' & -> & Hc'). injection Hl as -> _. congruence.
Qed.

(** Replacing creates no secret. *)
Lemma replace_infix w l : ∀ k, is_secret w → infix w (replace_all m r k l) → infix w l.
Proof.
  induction l as [|c l IH]; intros k Hw Hi; [done|]. cbn [replace_all] in Hi.
  destruct k as [|k]; [|apply (infix_app_r w [c] l); by eapply IH].
  destruct (m (c :: l)) as [|k] eqn:Hm.
  - apply infix_cons in Hi as [[y Hy]|Hi]; [|apply (infix_app_r w [c] l); by eapply IH].
    destruct (replace_prefix w (c :: l) y) as [y' Hy']; [apply Hw|by cbn [replace_all]; rewrite Hm|].
    rewrite Hy'. by exists [], y'.
  - apply (infix_app_r w [c] l). eapply IH, infix_past_break; [exact Hw|exact Hw|exact Hr|exact Hi].
Qed.

(** What the matcher finds is gone. *)
Lemma replace_gone w l : ∀ k,
  is_secret w → (∀ y, m (w ++ y)%list ≠ O) → ¬ infix w (replace_all m r k l).
Proof.
  induction l as [|c l IH]; intros k Hw Hm Hi.
  - destruct k; destruct Hi as (x & y & Hxy); cbn in Hxy; destruct x, w; try done;
      destruct Hw as [Hlen _]; simpl in Hlen; lia.
  - cbn [replace_all] in Hi. destruct k as [|k]; [|by eapply IH].
    destruct (m (c :: l)) as [|k] eqn:Hmc.
    + apply infix_cons in Hi as [[y Hy]|Hi]; [|by eapply IH].
      destruct (replace_prefix w (c :: l) y) as [y' Hy']; [apply Hw|by cbn [replace_all]; rewrite Hmc|].
      rewrite Hy' in Hmc. by eapply Hm.
    + eapply IH; [exact Hw|exact Hm|]. eapply infix_past_break; [exact Hw|exact Hr|exact Hi].
Qed.

(** A match is text without a backslash. *)
Hypothesis Hmatch : ∀ l, (m l <= length l)%nat ∧ no_backslash (take (m l) l) = true.
Hypothesis Hr_plain : no_backslash r = true.
Hypothesis Hr_first : ∃ r', r = "["%char :: r'.

Lemma scan_broken l : scan Broken l = Some Broken.
Proof. induction l as [|c l IH]; [done|exact IH]. Qed.

Lemma replace_drop l : ∀ k, replace_all m r k l = replace_all m r 0 (drop k l).
Proof. induction l as [|c l IH]; intros [|k]; [done..|]. cbn [drop]. by rewrite <- IH. Qed.

Lemma scan_replace l : ∀ q, scan q l ≠ None → scan q (replace_all m r 0 l) ≠ None.
Proof.
  induction l as [l IH] using (induction_ltof1 _ (@length ascii)). unfold ltof in IH.
  intros q Hq. destruct l as [|c l]; [done|]. cbn [replace_all].
  destruct (m (c :: l)) as [|k] eqn:Hm.
  - cbn [scan] in *. destruct (scan_step q c) as [q'|]; [|done]. apply IH; [simpl; lia|done].
  - rewrite replace_drop, scan_app. destruct q as [| |n acc|].
    + rewrite (scan_plain r Hr_plain). apply IH; [rewrite length_drop; simpl; lia|].
      destruct (Hmatch (c :: l)) as [_ Hb]. rewrite Hm in Hb.
      rewrite <- (take_drop (S k) (c :: l)), scan_app, (scan_plain _ Hb) in Hq. exact Hq.
    + destruct Hr_first as [r' ->]. change (scan Slash ("["%char :: r')) with (scan Broken r').
      by rewrite !scan_broken.
    + destruct Hr_first as [r' ->]. change (scan (Hex n acc) ("["%char :: r')) with (scan Broken r').
      by rewrite !scan_broken.
    + by rewrite !scan_broken.
Qed.
End replacement.

(** *** The matchers *)
Lemma strip_word_app w l : strip_word w (w ++ l) = Some l.
Proof. induction w as [|a w IH]; [done|]. cbn. by rewrite Ascii.eqb_refl. Qed.
Lemma secret_char_lower c : secret_char (lower_char c) = secret_char c.
Proof. by destruct c as [[][][][][][][][]]. Qed.
Lemma secret_hex c : is_hex c = true → secret_char c = true.
Proof. by destruct c as [[][][][][][][][]]. Qed.
Lemma no_backslash_lower l : no_backslash (map lower_char l) = no_backslash l.
Proof.
  induction l as [|c l IH]; [done|]. cbn [map]. rewrite !no_backslash_cons, IH. f_equal.
  by destruct c as [[][][][][][][][]].
Qed.
Lemma secret_no_backslash w : Forall (λ c, secret_char c = true) w → no_backslash w = true.
Proof.
  induction 1 as [|c w Hc _ IH]; [done|]. rewrite no_backslash_cons, IH, andb_true_r.
  by destruct c as [[][][][][][][][]].
Qed.

Definition plain_match (m : matcher) : Prop :=
  ∀ l, (m l <= length l)%nat ∧ no_backslash (take (m l) l) = true.

Lemma literal_plain w : no_backslash w = true → plain_match (match_literal w).
Proof.
  intros Hw l. unfold match_literal. destruct (strip_word w l) as [rest|] eqn:Hs; [|split; [lia|done]].
  apply strip_word_split in Hs as ->. rewrite take_app_length, length_app. split; [lia|done].
Qed.
Lemma hex_plain body : no_backslash body = true → plain_match (match_hex body).
Proof.
  intros Hb l. unfold match_hex.
  destruct (strip_word ("0"%char :: "x"%char :: map lower_char body) (map lower_char l)) as [rest|] eqn:Hs.
  - apply strip_word_split in Hs. pose proof (f_equal length Hs) as Hlen.
    rewrite length_app, !length_map in Hlen. cbn [length] in Hlen. rewrite length_map in Hlen.
    split; [lia|]. rewrite <- no_backslash_lower, <- firstn_map, Hs.
    change (S (S (length body))) with (length ("0"%char :: "x"%char :: body)).
    replace (length ("0"%char :: "x"%char :: body))
      with (length ("0"%char :: "x"%char :: map lower_char body)) by (simpl; by rewrite length_map).
    rewrite take_app_length, !no_backslash_cons, no_backslash_lower. by rewrite Hb.
  - destruct (literal_plain (map lower_char body)) with (l := map lower_char l) as [Hle Hp];
      [by rewrite no_backslash_lower|].
    rewrite length_map in Hle. split; [done|]. by rewrite <- no_backslash_lower, <- firstn_map.
Qed.

(** The spellings of the authorization a secret stands for: its hex digits in any case,
    whether or not the prefix stands before them; the exact text of anything else. *)
Definition spelling (secret : string) (w : text) : Prop :=
  match hex_body secret with
  | Some body => if Nat.leb 32 (length body) then map lower_char w = map lower_char body
                 else w = chars secret
  | None => w = chars secret
  end.

Lemma hex_body_ok secret body :
  hex_body secret = Some body → chars secret = "0"%char :: "x"%char :: body ∧ forallb is_hex body = true.
Proof.
  unfold hex_body. destruct (strip_0x secret) as [t|] eqn:Hx; [|done].
  apply strip_0x_Some in Hx as ->.
  destruct (chars t) as [|c l] eqn:Ht; [done|]. destruct (forallb is_hex (c :: l)) eqn:Hh; [|done].
  intros [= <-]. split; [|done]. unfold chars in *. cbn. by rewrite Ht.
Qed.

Lemma spelling_secret secret w :
  32 <= slen secret → forallb secret_char (chars secret) = true → spelling secret w → is_secret w.
Proof.
  intros Hlen Hsec. rewrite slen_chars in Hlen.
  assert (Hall : Forall (λ c, secret_char c = true) (chars secret)).
  { apply Forall_forall. intros c Hc. rewrite forallb_forall in Hsec. by apply Hsec, list_elem_of_In. }
  assert (Hlit : w = chars secret → is_secret w) by (intros ->; split; [lia|done]).
  unfold spelling. destruct (hex_body secret) as [body|] eqn:Hb; [|done].
  destruct (Nat.leb_spec 32 (length body)) as [Hlb|]; [|done]. intros Hw.
  pose proof (f_equal length Hw) as Hl. rewrite !length_map in Hl. split; [lia|].
  apply hex_body_ok in Hb as [_ Hb].
  assert (Hm : Forall (λ c, secret_char c = true) (map lower_char w)).
  { rewrite Hw. apply Forall_forall. intros c Hc. apply list_elem_of_In, in_map_iff in Hc as (a & <- & Ha).
    rewrite secret_char_lower. apply secret_hex. rewrite forallb_forall in Hb. by apply Hb. }
  rewrite Forall_forall in Hm |- *. intros c Hc. rewrite <- secret_char_lower. apply Hm.
  apply list_elem_of_In, in_map. by apply list_elem_of_In.
Qed.

Lemma spelling_found secret w y :
  is_secret w → spelling secret w → secret_matcher secret (w ++ y)%list ≠ O.
Proof.
  intros [Hlen _]. unfold spelling, secret_matcher.
  assert (Hlit : w = chars secret → match_literal (chars secret) (w ++ y)%list ≠ O).
  { intros <-. unfold match_literal. rewrite strip_word_app. lia. }
  destruct (hex_body secret) as [body|]; [|done].
  destruct (Nat.leb 32 (length body)); [|done]. intros Hw. unfold match_hex.
  destruct (strip_word _ _); [done|]. unfold match_literal. rewrite map_app, Hw, strip_word_app.
  rewrite length_map. apply (f_equal length) in Hw. rewrite !length_map in Hw. lia.
Qed.

Lemma secret_matcher_plain secret :
  forallb secret_char (chars secret) = true → plain_match (secret_matcher secret).
Proof.
  intros Hs. assert (Hp : no_backslash (chars secret) = true).
  { apply secret_no_backslash, Forall_forall. intros c Hc. rewrite forallb_forall in Hs.
    by apply Hs, list_elem_of_In. }
  unfold secret_matcher. destruct (hex_body secret) as [body|] eqn:Hb; [|by apply literal_plain].
  destruct (Nat.leb 32 (length body)); [|by apply literal_plain].
  apply hex_plain. apply hex_body_ok in Hb as [Hb _]. rewrite Hb in Hp. exact Hp.
Qed.

Lemma spelling_of secret : ∃ w, spelling secret w ∧ infix w (chars secret).
Proof.
  unfold spelling. destruct (hex_body secret) as [body|] eqn:Hb.
  - destruct (Nat.leb 32 (length body)); [|exists (chars secret); split; [done|by exists [], []; rewrite app_nil_r]].
    exists body. split; [done|]. apply hex_body_ok in Hb as [-> _].
    by exists ["0"; "x"]%char, []; rewrite app_nil_r.
  - exists (chars secret). split; [done|]. by exists [], []; rewrite app_nil_r.
Qed.

(** *** All the secrets *)
Lemma redaction_first : ∃ c r', chars BEARER_REDACTION = c :: r' ∧ secret_char c = false.
Proof. by do 2 eexists. Qed.

Lemma fold_infix w secrets : ∀ l,
  is_secret w → infix w (foldl redact_one l secrets) → infix w l.
Proof.
  induction secrets as [|secret secrets IH]; intros l Hw Hi; [done|]. cbn [foldl] in Hi.
  apply IH in Hi; [|done]. unfold redact_one in Hi. destruct (slen secret <? 32); [done|].
  eapply replace_infix; [exact redaction_breaks|exact redaction_first|exact Hw|exact Hi].
Qed.

Lemma fold_gone secret w secrets : ∀ l,
  secret ∈ secrets → 32 <= slen secret → is_secret w → spelling secret w →
  ¬ infix w (foldl redact_one l secrets).
Proof.
  induction secrets as [|s secrets IH]; intros l Hin Hlen Hw Hsp; [by apply elem_of_nil in Hin|].
  cbn [foldl]. apply elem_of_cons in Hin as [->|Hin]; [|by apply IH].
  intros Hi%fold_infix; [|done]. unfold redact_one in Hi.
  destruct (Z.ltb_spec (slen s) 32); [lia|]. revert Hi.
  apply replace_gone; [exact redaction_breaks|exact redaction_first|exact Hw|].
  intros y. by apply spelling_found.
Qed.

Lemma fold_scan secrets : ∀ l,
  Forall (λ s, forallb secret_char (chars s) = true) secrets →
  scan Outside l ≠ None → scan Outside (foldl redact_one l secrets) ≠ None.
Proof.
  induction secrets as [|s secrets IH]; intros l Hs Hl; [done|]. cbn [foldl].
  apply Forall_cons in Hs as [Hs Hss]. apply IH; [done|]. unfold redact_one.
  destruct (slen s <? 32); [done|].
  apply scan_replace;
    first [exact redaction_breaks|exact redaction_first|by apply secret_matcher_plain|by eexists|done].
Qed.

(** *** Documents *)
Lemma escape_denotes c : ∀ t s, denotes t s → denotes (escape c ++ t) (c :: s).
Proof.
  intros t s Hd. destruct (decide (escape c = [c])) as [->|Hne]; [by constructor|].
  apply (denotes_escape _ [c]); [done| |done]. constructor; [|constructor].
  clear - Hne. destruct c as [[][][][][][][][]]; first [by left|by right|by destruct Hne].
Qed.
Lemma denotes_text l : denotes (escape_all l) l.
Proof.
  induction l as [l IH] using (induction_ltof1 _ (@length ascii)). unfold ltof in IH.
  destruct l as [|a [|b [|c l]]]; [constructor|..].
  - change (escape_all [a]) with (escape a ++ [])%list. apply escape_denotes. constructor.
  - change (escape_all [a; b]) with (escape a ++ escape b ++ [])%list.
    apply escape_denotes, escape_denotes. constructor.
  - change (escape_all (a :: b :: c :: l)) with
      (match surrogate a b c with Some u => (u_escape u ++ escape_all l)%list
                                | None => (escape a ++ escape_all (b :: c :: l))%list end).
    destruct (surrogate a b c) as [u|] eqn:Hu.
    + apply (denotes_escape _ [a; b; c]); [done| |apply IH; simpl; lia].
      unfold surrogate in Hu. destruct (_ && _) eqn:Hr; [|done].
      rewrite !andb_true_iff, !between_iff in Hr.
      assert (Hp : ∀ x, 128 <= code x → printable x = false).
      { intros x Hx. unfold printable. destruct (between 33 126 (code x)) eqn:Hb; [|done].
        apply between_iff in Hb. lia. }
      repeat (apply Forall_cons_2; [left; apply Hp; lia|]). apply Forall_nil_2.
    + apply escape_denotes, IH. simpl. lia.
Qed.

Lemma quote_stands s : stands (quote s) s.
Proof.
  intros w Hw Hi. apply (infix_app_r w [quote_char]), infix_app_l.
  eapply denotes_infix; [apply denotes_text|done|done].
Qed.

(** What [JSON.parse] returns: objects whose keys are distinct. *)
Fixpoint own_document (v : jsval) : Prop :=
  match v with
  | JUndefined | JBig _ => False
  | JArr l => foldr (λ x P, own_document x ∧ P) True l
  | JObj fields => NoDup (map fst fields) ∧ foldr (λ e P, own_document e.2 ∧ P) True fields
  | _ => True
  end.

Lemma own_list l : own_document (JArr l) ↔ Forall own_document l.
Proof.
  cbn [own_document]. induction l as [|x l IH]; cbn [foldr]; [by split|]. by rewrite IH, Forall_cons.
Qed.
Lemma own_fields fields :
  own_document (JObj fields) ↔ NoDup (map fst fields) ∧ Forall (λ e, own_document e.2) fields.
Proof.
  cbn [own_document]. f_equiv.
  induction fields as [|x l IH]; cbn [foldr]; [by split|]. by rewrite IH, Forall_cons.
Qed.

Lemma insert_index_elem {A} z (e : string * A) l x : x = e ∨ x ∈ l → x ∈ insert_index z e l.
Proof.
  induction l as [|[k v] l IH]; cbn [insert_index]; [intros [->|Hx]; [by left|by apply elem_of_nil in Hx]|].
  destruct (index_key k) as [z'|]; [destruct (z <? z')|]; rewrite !elem_of_cons in *; tauto.
Qed.
Lemma order_keys_elem {A} (l : list (string * A)) x : x ∈ l → x ∈ order_keys l.
Proof.
  induction l as [|e l IH]; [done|]. rewrite elem_of_cons. cbn [order_keys].
  destruct (index_key e.1) eqn:He; [intros [->|Hx]; apply insert_index_elem; tauto|].
  rewrite elem_of_app, elem_of_cons, !elem_of_lfilter.
  intros [->|Hx%IH]; [tauto|]. destruct (index_key x.1); tauto.
Qed.
Lemma own_entries_elem {A} (l : list (string * A)) x : NoDup (map fst l) → x ∈ l → x ∈ own_entries l.
Proof. intros Hn Hx. unfold own_entries. rewrite fields_kept by done. by apply order_keys_elem. Qed.

Lemma join_infix w l t : t ∈ l → infix w t → infix w (join_text l).
Proof.
  intros Ht Hi. induction l as [|t' l IH]; [by apply elem_of_nil in Ht|].
  apply elem_of_cons in Ht as [->|Ht]; cbn [join_text].
  - destruct l; [done|by apply infix_app_l].
  - destruct l as [|t2 l]; [by apply elem_of_nil in Ht|].
    apply infix_app_r, (infix_app_r w [comma]). by apply IH.
Qed.

Lemma inner_infix w l (a b : ascii) : infix w l → infix w (a :: l ++ [b]).
Proof. intros Hi. apply (infix_app_r w [a]). by apply infix_app_l. Qed.

Lemma omap_id_elem {A} (l : list (option A)) x : Some x ∈ l → x ∈ omap id l.
Proof. intros Hx. apply list_elem_of_omap. by exists (Some x). Qed.

Lemma document_prints v : own_document v → stringify v ≠ Ok None.
Proof. destruct v; cbn [stringify]; try done; by destruct (map_result _ _). Qed.

(** Every string of a document stands in its JSON text. *)
Lemma stringify_stands v : ∀ t,
  own_document v → stringify v = Ok (Some t) → Forall (stands t) (strings_of v).
Proof.
  induction v as [v Hv|l IH|fields IH] using jsval_nested; intros t Hown Ht.
  - destruct v; try done; cbn [strings_of]; try constructor; [|constructor].
    injection Ht as <-. apply quote_stands.
  - apply own_list in Hown. cbn [stringify strings_of] in *. apply rbind_ok in Ht as (parts & Hp & [= <-]).
    apply map_result_ok in Hp. apply Forall_forall. intros s Hs w Hw Hi.
    apply list_elem_of_In, in_flat_map in Hs as (x & Hx%list_elem_of_In & Hs%list_elem_of_In).
    apply inner_infix. apply list_elem_of_lookup in Hx as [i Hx].
    destruct (Forall2_lookup_l _ _ _ _ _ Hp Hx) as (y & Hy & Hxy).
    apply rbind_ok in Hxy as (o & Ho & [= <-]).
    rewrite Forall_lookup in IH, Hown. specialize (IH _ _ Hx). specialize (Hown _ _ Hx).
    apply (join_infix _ _ (default (chars "null") o)); [by eapply list_elem_of_lookup_2|].
    destruct o as [t|]; [|by apply document_prints in Hown].
    specialize (IH t Hown Ho). rewrite Forall_forall in IH. by apply (IH s).
  - apply own_fields in Hown as [Hnd Hown]. cbn [stringify strings_of] in *.
    apply rbind_ok in Ht as (parts & Hp & [= <-]).
    apply map_result_ok in Hp. apply Forall_forall. intros s Hs w Hw Hi.
    apply list_elem_of_In, in_flat_map in Hs as ([k x] & Hx & Hs%list_elem_of_In). cbn [fst snd] in Hs.
    apply inner_infix.
    assert (He : (k, stringify x) ∈ own_entries (map (λ e, (e.1, stringify e.2)) fields)).
    { apply own_entries_elem; [by rewrite map_map|]. apply list_elem_of_In.
      by apply (in_map (λ e, (e.1, stringify e.2)) fields (k, x)). }
    apply list_elem_of_In in Hx. apply list_elem_of_lookup in He as [i He].
    destruct (Forall2_lookup_l _ _ _ _ _ Hp He) as (y & Hy & Hxy). cbn [fst snd] in Hxy.
    apply rbind_ok in Hxy as (o & Ho & [= <-]).
    rewrite Forall_forall in IH, Hown. specialize (IH _ Hx). specialize (Hown _ Hx). cbn [snd] in *.
    destruct o as [t|]; cbn [option_map] in Hy; [|by apply document_prints in Hown].
    apply (join_infix _ _ (quote k ++ ":"%char :: t)%list);
      [by apply omap_id_elem; eapply list_elem_of_lookup_2|].
    apply elem_of_cons in Hs as [->|Hs].
    + apply infix_app_l. by apply quote_stands.
    + apply infix_app_r, (infix_app_r w [":"%char]). specialize (IH t Hown Ho).
      rewrite Forall_forall in IH. by apply (IH s).
Qed.

(** ** What the caller sees

    No bearer value survives in an answer. Whatever a seller's document says, if the
    redaction returns, no text and no key anywhere in the result contains any of the
    secrets of the length the code looks at, in any spelling of a hex authorization: any
    case of its digits, with its prefix or without. This holds for every number of
    secrets drawn from the hex and base64 alphabets. *)
Lemma no_bearer_in_result v secrets v' secret w s :
  own_document v →
  Forall (λ x, forallb secret_char (chars x) = true) secrets →
  redactBearerSecrets v secrets = Ok v' →
  secret ∈ secrets → 32 <= slen secret → spelling secret w →
  s ∈ strings_of v' → ¬ infix w (chars s).
Proof.
  intros Hown Hsec Hv Hin Hlen Hsp Hs Hi.
  assert (Hw : is_secret w).
  { apply (spelling_secret secret); [done| |done]. rewrite Forall_forall in Hsec. by apply Hsec. }
  unfold redactBearerSecrets in Hv. apply rbind_ok in Hv as ([t|] & Ht & Hv);
    [|by apply document_prints in Hown].
  assert (Hgone : ¬ infix w (foldl redact_one t secrets)) by (by eapply fold_gone).
  case_bool_decide as Heq.
  - injection Hv as <-. rewrite Heq in Hgone. apply Hgone.
    pose proof (stringify_stands v t Hown Ht) as Hst. rewrite Forall_forall in Hst.
    by apply (Hst s Hs); [apply secret_bare|].
  - apply Hgone. eapply (parsed_strings _ _ s Hv); [|done|by apply secret_bare|done].
    apply fold_scan; [done|]. by rewrite (scan_stringify v t Ht).
Qed.

(** A document without secrets comes back as it was. *)
Lemma unrelated_untouched v t secrets :
  stringify v = Ok (Some t) →
  Forall (λ secret, slen secret < 32 ∨ ∀ l, (∃ x, t = (x ++ l)%list) → secret_matcher secret l = O) secrets →
  redactBearerSecrets v secrets = Ok v.
Proof.
  intros Ht Hs. unfold redactBearerSecrets. rewrite Ht. cbn [rbind].
  assert (Hf : foldl redact_one t secrets = t); [|by rewrite Hf, bool_decide_true].
  induction Hs as [|secret secrets Hsec _ IH]; [done|]. cbn [foldl].
  assert (Ho : redact_one t secret = t); [|by rewrite Ho].
  unfold redact_one. destruct (Z.ltb_spec (slen secret) 32) as [|Hlen]; [done|].
  destruct Hsec as [?|Hm]; [lia|]. clear - Hm.
  assert (Hg : ∀ l, (∃ x, t = (x ++ l)%list) → replace_all (secret_matcher secret) (chars BEARER_REDACTION) 0 l = l).
  { induction l as [|c l IH]; intros Hl; [done|]. cbn [replace_all]. rewrite (Hm _ Hl), IH; [done|].
    destruct Hl as [x ->]. exists (x ++ [c])%list. by rewrite <- app_assoc. }
  apply Hg. by exists [].
Qed.

(** The head of an encoded permission context: the offset word of the array. *)
Definition ex_digits : string := "0000000000000000000000000000000000000000000000000000000000000020".
Definition ex_context : string := "0x" ++ ex_digits.
Definition ex_echo : jsval := JObj [("note", JStr ("sent 0X" ++ ex_digits ++ "!"))].

Example redacted_echo :
  ∃ v', redactBearerSecrets ex_echo [ex_context] = Ok v'
    ∧ strings_of v' = ["note"; "sent " ++ BEARER_REDACTION ++ "!"]
    ∧ ¬ infix (chars ex_digits) (chars ("sent " ++ BEARER_REDACTION ++ "!")).
Proof.
  destruct (redactBearerSecrets ex_echo [ex_context]) as [v'|e] eqn:Hv; [|vm_compute in Hv; discriminate Hv].
  exists v'. split; [reflexivity|].
  assert (Hs : strings_of v' = ["note"; "sent " ++ BEARER_REDACTION ++ "!"])
    by (vm_compute in Hv; injection Hv as <-; reflexivity).
  split; [exact Hs|].
  apply (no_bearer_in_result ex_echo [ex_context] v' ex_context (chars ex_digits)); [| |exact Hv| | | |].
  - cbn. split; [apply NoDup_singleton|split; constructor].
  - repeat constructor.
  - by left.
  - vm_compute. discriminate.
  - vm_compute. reflexivity.
  - rewrite Hs. right. left.
Defined.

(** The redaction can break the document it prints. A control character before an echo
    of the context is printed as the escape of a zero code; when the seller leaves out
    as many of the context's leading zeros, the digits of the escape complete the match,
    the replacement cuts the escape, and parsing the text throws: the caller is told of
    a syntax error about a resource it has paid for. *)
Theorem redaction_throws :
  redactBearerSecrets
    (JStr (String (ascii_of_nat 0) "000000000000000000000000000000000000000000000000000000000020"))
    [ex_context]
  = Throw syntax_error.
Proof. vm_compute. reflexivity. Qed.
