(* ===== verification/Codec.v ===== *)
(** * The x402 wire

    [packages/shared/src/x402.ts]: the documents the parts exchange, the header codec
    (base64 over UTF-8 JSON) and the [payment-identifier] extension, with
    [newPaymentIdentifier] of [packages/delegation/src/payment-client.ts]. *)

From Stdlib Require Import ZArith Lia Ascii String.
From stdpp Require Import base gmap strings list.
From S2P Require Import Prelude Token Json Toolkit Bootstrap Contract X402.
Open Scope string_scope.
Open Scope Z_scope.

(** ** Base64: [btoa] and the forgiving [atob] of the language's runtime *)
Definition base64_alphabet : text :=
  chars "ABCDEFGHIJKLMNOPQRSTUVWXYZabcdefghijklmnopqrstuvwxyz0123456789+/".
Definition sextet_char (z : Z) : ascii := nth (Z.to_nat z) base64_alphabet "A"%char.
Definition sextet_value (c : ascii) : option Z :=
  let z := code c in
  if between 65 90 z then Some (z - 65)
  else if between 97 122 z then Some (z - 71)
  else if between 48 57 z then Some (z + 4)
  else if z =? 43 then Some 62
  else if z =? 47 then Some 63
  else None.

Fixpoint sextets (l : text) : list Z :=
  match l with
  | a :: b :: c :: l' =>
      code a / 4 :: code a mod 4 * 16 + code b / 16 :: code b mod 16 * 4 + code c / 64
      :: code c mod 64 :: sextets l'
  | [a; b] => [code a / 4; code a mod 4 * 16 + code b / 16; code b mod 16 * 4]
  | [a] => [code a / 4; code a mod 4 * 16]
  | [] => []
  end.
Definition padding (l : text) : text := replicate ((3 - length l mod 3) mod 3) "="%char.
Definition btoa (l : text) : text := (map sextet_char (sextets l) ++ padding l)%list.

Fixpoint octets (l : list Z) : text :=
  match l with
  | a :: b :: c :: d :: l' =>
      byte_of (a * 4 + b / 16) :: byte_of (b mod 16 * 16 + c / 4) :: byte_of (c mod 4 * 64 + d) :: octets l'
  | [a; b; c] => [byte_of (a * 4 + b / 16); byte_of (b mod 16 * 16 + c / 4)]
  | [a; b] => [byte_of (a * 4 + b / 16)]
  | _ => []
  end.
Definition ascii_space (c : ascii) : bool := is_space c && negb (code c =? 11).
Definition strip_padding (l : text) : text :=
  match rev l with
  | c :: r =>
      if Ascii.eqb c "=" then
        match r with
        | c' :: r' => if Ascii.eqb c' "=" then rev r' else rev r
        | [] => []
        end
      else l
  | [] => []
  end.
Fixpoint values (l : text) : option (list Z) :=
  match l with
  | [] => Some []
  | c :: l' => match sextet_value c, values l' with Some z, Some zs => Some (z :: zs) | _, _ => None end
  end.
Definition atob (l : text) : option text :=
  let l := List.filter (λ c, negb (ascii_space c)) l in
  let l := if Nat.eqb (length l mod 4) 0 then strip_padding l else l in
  if Nat.eqb (length l mod 4) 1 then None else octets <$> values l.

(** ** The header codec *)
Definition encodeBase64Json (v : jsval) : result string :=
  let? t := stringify v in
  Ok (string_of_list_ascii (btoa (default [] t))).

(** [new TextDecoder("utf-8", {fatal: true}).decode]: a byte-order mark is dropped. *)
Definition decode_utf8 (l : text) : result text :=
  throws negb (utf8_valid l) with TypeError "Invalid byte sequence";
  match l with
  | a :: b :: c :: l' =>
      if (code a =? 239) && (code b =? 187) && (code c =? 191) then Ok l' else Ok l
  | _ => Ok l
  end.
Definition decodeBase64Json (header : string) : result jsval :=
  match atob (chars header) with
  | None => Throw (JsError "InvalidCharacterError" "The string contains invalid characters.")
  | Some bytes => let? t := decode_utf8 bytes in parse t
  end.

Definition encodePaymentRequiredHeader (body : jsval) : result string := encodeBase64Json body.
Definition decodePaymentRequiredHeader (header : string) : result jsval := decodeBase64Json header.
Definition encodePaymentHeader (payload : jsval) : result string := encodeBase64Json payload.
Definition decodePaymentHeader (header : string) : result jsval := decodeBase64Json header.
Definition encodePaymentResponseHeader (receipt : jsval) : result string := encodeBase64Json receipt.
Definition decodePaymentResponseHeader (header : string) : result jsval := decodeBase64Json header.

(** ** The documents

    A spread of a field that is not given adds no key. *)
Definition optional (k : string) (v : option jsval) : list (string * jsval) :=
  match v with Some v => [(k, v)] | None => [] end.
Definition strings (l : list string) : jsval := JArr (map JStr l).

Definition MOCK_USDC_name : string := "Mock USDC".
Definition MOCK_USDC_version : string := "2".

Definition buildPaymentRequirements (payTo : string) (amount : Z) (maxTimeoutSeconds : option Z) : jsval :=
  JObj [("scheme", JStr "exact"); ("network", JStr GIWA_SEPOLIA_CAIP2); ("amount", JStr (show_Z amount));
        ("payTo", JStr payTo); ("maxTimeoutSeconds", JNum (default 60 maxTimeoutSeconds));
        ("asset", JStr MOCK_USDC_address);
        ("extra", JObj [("name", JStr MOCK_USDC_name); ("version", JStr MOCK_USDC_version)])].

Definition buildErc7710PaymentRequirements (payTo : string) (amount : Z)
    (facilitatorAddresses : option (list string)) (delegationManager : option string)
    (maxTimeoutSeconds : option Z) : jsval :=
  JObj [("scheme", JStr "exact"); ("network", JStr GIWA_SEPOLIA_CAIP2); ("amount", JStr (show_Z amount));
        ("payTo", JStr payTo); ("maxTimeoutSeconds", JNum (default 60 maxTimeoutSeconds));
        ("asset", JStr MOCK_USDC_address);
        ("extra", JObj ([("assetTransferMethod", JStr "erc7710"); ("paymentFlow", JStr "upfront")]
                        ++ optional "facilitatorAddresses" (strings <$> facilitatorAddresses)
                        ++ optional "delegationManager" (JStr <$> delegationManager)))].

Definition buildErc7710SupportedPayload (facilitatorAddresses : list string)
    (delegationManager : option string) : jsval :=
  JObj [("kinds", JArr [JObj
          [("x402Version", JNum X402_VERSION); ("scheme", JStr "exact"); ("network", JStr GIWA_SEPOLIA_CAIP2);
           ("extra", JObj ([("assetTransferMethod", JStr "erc7710"); ("paymentFlow", JStr "upfront");
                            ("facilitatorAddresses", strings facilitatorAddresses)]
                           ++ optional "delegationManager" (JStr <$> delegationManager)))]]);
        ("extensions", JArr []);
        ("signers", JObj [(GIWA_SEPOLIA_CAIP2, strings facilitatorAddresses)])].

Definition buildErc7710PaymentPayload (accepted : jsval)
    (delegationManager permissionContext delegator : string) (extensions : option jsval) : jsval :=
  JObj ([("x402Version", JNum X402_VERSION); ("accepted", accepted);
         ("payload", JObj [("delegationManager", JStr delegationManager);
                           ("permissionContext", JStr permissionContext);
                           ("delegator", JStr delegator)])]
        ++ optional "extensions" extensions).

Record TransferAuthorization := {
  from : string; to : string; ta_value : Z; validAfter : Z; validBefore : Z; nonce : string;
}.
Definition toWireAuthorization (auth : TransferAuthorization) : jsval :=
  JObj [("from", JStr (from auth)); ("to", JStr (to auth)); ("value", JStr (show_Z (ta_value auth)));
        ("validAfter", JStr (show_Z (validAfter auth))); ("validBefore", JStr (show_Z (validBefore auth)));
        ("nonce", JStr (nonce auth))].
Definition buildPaymentPayload (accepted : jsval) (signature : string) (auth : TransferAuthorization) : jsval :=
  JObj [("x402Version", JNum X402_VERSION); ("accepted", accepted);
        ("payload", JObj [("signature", JStr signature); ("authorization", toWireAuthorization auth)])].

(** ** The [payment-identifier] extension *)
Definition PAYMENT_IDENTIFIER_EXTENSION : string := "payment-identifier".
Definition PAYMENT_IDENTIFIER : string → bool :=
  re_class (λ c, is_digit c || is_lower c || is_upper c || Ascii.eqb c "_" || Ascii.eqb c "-") 16 128.
Definition PAYMENT_IDENTIFIER_SCHEMA : jsval :=
  JObj [("$schema", JStr "https://json-schema.org/draft/2020-12/schema"); ("type", JStr "object");
        ("properties", JObj
          [("required", JObj [("type", JStr "boolean")]);
           ("id", JObj [("type", JStr "string"); ("minLength", JNum 16); ("maxLength", JNum 128)])]);
        ("required", JArr [JStr "required"])].
Definition buildPaymentIdentifierOffer : jsval :=
  JObj [("info", JObj [("required", JBool false)]); ("schema", PAYMENT_IDENTIFIER_SCHEMA)].
Definition buildPaymentIdentifierEcho (id : string) : jsval :=
  JObj [("info", JObj [("required", JBool false); ("id", JStr id)]); ("schema", PAYMENT_IDENTIFIER_SCHEMA)].

Inductive PaymentIdentifierRead := absent | malformed | present (id : string).

Definition has_key (v : jsval) (k : string) : bool :=
  match v with JObj l => existsb (λ e, String.eqb k e.1) l | _ => false end.
Definition readPaymentIdentifier (payload : jsval) : PaymentIdentifierRead :=
  let extensions := prop payload "extensions" in
  if negb (is_object extensions) || negb (has_key extensions PAYMENT_IDENTIFIER_EXTENSION) then absent
  else
    let info := prop (prop extensions PAYMENT_IDENTIFIER_EXTENSION) "info" in
    if negb (is_object info) then malformed
    else match prop info "id" with
         | JUndefined => absent
         | JStr id => if PAYMENT_IDENTIFIER id then present id else malformed
         | _ => malformed
         end.

(** Sixteen random bytes, in hex. *)
Definition hex_byte (z : Z) : text := padStart 2 "0" (if z <? 16 then [hex_char z] else [hex_char (z / 16); hex_char z]).
Definition newPaymentIdentifier (bytes : list Z) : string :=
  "pay_" ++ string_of_list_ascii (flat_map hex_byte bytes).

(** ** Base64 round trip *)
Lemma code_bounds c : 0 <= code c < 256.
Proof. unfold code. pose proof (N_ascii_bounded c). lia. Qed.
Lemma byte_of_code c : byte_of (code c) = c.
Proof. unfold byte_of, code. rewrite N2Z.id. apply ascii_N_embedding. Qed.

Lemma sextet_known z : 0 <= z < 64 →
  sextet_value (sextet_char z) = Some z ∧ ascii_space (sextet_char z) = false
  ∧ Ascii.eqb (sextet_char z) "=" = false.
Proof.
  intros Hz.
  assert (Hall : forallb (λ n, bool_decide (sextet_value (sextet_char (Z.of_nat n)) = Some (Z.of_nat n))
    && negb (ascii_space (sextet_char (Z.of_nat n))) && negb (Ascii.eqb (sextet_char (Z.of_nat n)) "="))
    (seq 0 64) = true) by (vm_compute; reflexivity).
  rewrite forallb_forall in Hall. specialize (Hall (Z.to_nat z) ltac:(apply in_seq; lia)).
  rewrite Z2Nat.id, !andb_true_iff, bool_decide_eq_true, !negb_true_iff in Hall by lia. naive_solver.
Qed.

(** Induction by groups of three bytes. *)
Lemma triples (P : text → Prop) :
  P [] → (∀ a, P [a]) → (∀ a b, P [a; b]) → (∀ a b c l, P l → P (a :: b :: c :: l)) → ∀ l, P l.
Proof.
  intros H0 H1 H2 H3 l. induction l as [l IH] using (induction_ltof1 _ (@length ascii)). unfold ltof in IH.
  destruct l as [|a [|b [|c l]]]; [done..|]. apply H3, IH. simpl. lia.
Qed.

Lemma sextets_small l : Forall (λ z, 0 <= z < 64) (sextets l).
Proof.
  induction l as [|a|a b|a b c l IH] using triples; cbn [sextets]; repeat constructor; try done;
    pose proof (code_bounds a); try pose proof (code_bounds b); try pose proof (code_bounds c);
    Z.div_mod_to_equations; lia.
Qed.

Lemma octets_sextets l : octets (sextets l) = l.
Proof.
  assert (H1 : ∀ a x, 0 <= x < 16 → code a / 4 * 4 + (code a mod 4 * 16 + x) / 16 = code a).
  { intros a x Hx. pose proof (code_bounds a). Z.div_mod_to_equations. lia. }
  assert (H2 : ∀ a b x, 0 <= x < 4 →
    (code a mod 4 * 16 + code b / 16) mod 16 * 16 + (code b mod 16 * 4 + x) / 4 = code b).
  { intros a b x Hx. pose proof (code_bounds b). Z.div_mod_to_equations. lia. }
  assert (H3 : ∀ b c, (code b mod 16 * 4 + code c / 64) mod 4 * 64 + code c mod 64 = code c).
  { intros b c. pose proof (code_bounds c). Z.div_mod_to_equations. lia. }
  induction l as [|a|a b|a b c l IH] using triples; cbn [sextets octets]; [done|..].
  - replace (code a mod 4 * 16) with (code a mod 4 * 16 + 0) by lia. by rewrite H1, byte_of_code by lia.
  - rewrite H1, byte_of_code by (pose proof (code_bounds b); Z.div_mod_to_equations; lia).
    pose proof (H2 a b 0 ltac:(lia)) as Hb. rewrite Z.add_0_r in Hb. by rewrite Hb, byte_of_code.
  - rewrite H1, byte_of_code by (pose proof (code_bounds b); Z.div_mod_to_equations; lia).
    rewrite H2, byte_of_code by (pose proof (code_bounds c); Z.div_mod_to_equations; lia).
    by rewrite H3, byte_of_code, IH.
Qed.

Lemma values_chars zs : Forall (λ z, 0 <= z < 64) zs → values (map sextet_char zs) = Some zs.
Proof.
  induction 1 as [|z zs Hz _ IH]; [done|]. cbn [map values].
  destruct (sextet_known z Hz) as (-> & _). by rewrite IH.
Qed.

Lemma sextets_length l :
  ((length (sextets l) + length (padding l)) mod 4 = 0)%nat
  ∧ (length (sextets l) mod 4 ≠ 1)%nat.
Proof.
  induction l as [|a|a b|a b c l [IH1 IH2]] using triples; [done..|].
  cbn [sextets length]. assert (Hp : padding (a :: b :: c :: l) = padding l).
  { unfold padding. cbn [length].
    replace (S (S (S (length l)))) with (length l + 1 * 3)%nat by lia. by rewrite Nat.Div0.mod_add. }
  rewrite Hp. split.
  - replace (S (S (S (S (length (sextets l))))) + length (padding l))%nat
      with (length (sextets l) + length (padding l) + 1 * 4)%nat by lia.
    by rewrite Nat.Div0.mod_add.
  - replace (S (S (S (S (length (sextets l)))))) with (length (sextets l) + 1 * 4)%nat by lia.
    by rewrite Nat.Div0.mod_add.
Qed.

Lemma strip_body zs n :
  Forall (λ z, 0 <= z < 64) zs → (n <= 2)%nat → (zs = [] → n = 0%nat) →
  strip_padding (map sextet_char zs ++ replicate n "="%char) = map sextet_char zs.
Proof.
  intros Hz Hn Hnil. unfold strip_padding. rewrite rev_app_distr, rev_replicate.
  destruct zs as [|z zs _] using rev_ind; [by rewrite (Hnil eq_refl)|].
  apply Forall_app in Hz as [Hz Hlast]. apply Forall_cons in Hlast as [Hlast _].
  rewrite map_app, rev_app_distr. cbn [map rev app].
  destruct (sextet_known z Hlast) as (_ & _ & He).
  assert (Hrev : rev (sextet_char z :: rev (map sextet_char zs)) = (map sextet_char zs ++ [sextet_char z])%list).
  { cbn [rev]. by rewrite rev_involutive. }
  destruct n as [|[|[|n]]]; [| | |lia]; cbn [replicate app]; rewrite ?Ascii.eqb_refl, ?He, ?Hrev; try done.
  by rewrite app_nil_r.
Qed.

Lemma padding_cases l : ∃ n, padding l = replicate n "="%char ∧ (n <= 2)%nat ∧ (sextets l = [] → n = 0%nat).
Proof.
  eexists. split; [done|]. split.
  - pose proof (Nat.mod_upper_bound (3 - length l mod 3) 3). lia.
  - by destruct l as [|a [|b [|c l]]].
Qed.

Lemma atob_btoa l : atob (btoa l) = Some l.
Proof.
  unfold atob, btoa. pose proof (sextets_small l) as Hs. pose proof (sextets_length l) as [Hlen Hone].
  destruct (padding_cases l) as (n & Hn & Hle & Hnil). rewrite Hn in *.
  assert (Hf : List.filter (λ c, negb (ascii_space c)) (map sextet_char (sextets l) ++ replicate n "="%char)%list
             = (map sextet_char (sextets l) ++ replicate n "="%char)%list).
  { rewrite List.filter_app. f_equal.
    - clear - Hs. induction Hs as [|z zs Hz _ IH]; [done|]. cbn [map List.filter].
      destruct (sextet_known z Hz) as (_ & -> & _). cbn [negb]. by rewrite IH.
    - clear. induction n as [|n IH]; [done|]. cbn [replicate List.filter].
      change (negb (ascii_space "=")) with true. cbv iota. by rewrite IH. }
  rewrite Hf, !length_app, length_map. rewrite Hlen. cbn [Nat.eqb].
  rewrite strip_body by done. rewrite length_map.
  destruct (Nat.eqb_spec (length (sextets l) mod 4) 1) as [|_]; [done|].
  rewrite values_chars by done. cbn. by rewrite octets_sextets.
Qed.

(** ** Header round trip *)
Lemma utf8_complete a b need : utf8_from need a = true → utf8_from need (a ++ b) = utf8_from [] b.
Proof.
  revert need. induction a as [|c a IH]; intros [|[lo hi] need]; cbn [app utf8_from]; try done.
  - destruct (utf8_lead c) as [need'|]; [|done]. apply IH.
  - intros [-> Ha]%andb_true_iff. by apply IH.
Qed.

Definition is_ascii (l : text) : bool := forallb (λ c, code c <? 128) l.
Lemma ascii_utf8 l : is_ascii l = true → utf8_valid l = true.
Proof.
  unfold is_ascii, utf8_valid. induction l as [|c l IH]; [done|]. cbn [forallb utf8_from].
  intros [Hc Hl]%andb_true_iff. unfold utf8_lead. rewrite Hc. by apply IH.
Qed.
Lemma hex_ascii l : forallb is_hex l = true → is_ascii l = true.
Proof.
  unfold is_ascii. rewrite !forallb_forall. intros Hl c Hc. specialize (Hl c Hc).
  by destruct c as [[][][][][][][][]].
Qed.
Lemma digits_ascii l : forallb is_digit l = true → is_ascii l = true.
Proof.
  unfold is_ascii. rewrite !forallb_forall. intros Hl c Hc. specialize (Hl c Hc).
  by destruct c as [[][][][][][][][]].
Qed.

Lemma escape_utf8 l : ∀ need,
  Forall (λ r : Z * Z, 128 <= r.1) need → utf8_from need l = true → utf8_from need (flat_map escape l) = true.
Proof.
  assert (Hhigh : ∀ c, 128 <= code c → escape c = [c]).
  { intros c. destruct c as [[][][][][][][][]]; vm_compute; congruence. }
  assert (Hlow : ∀ c, code c < 128 → is_ascii (escape c) = true).
  { intros c. destruct c as [[][][][][][][][]]; vm_compute; congruence. }
  induction l as [|c l IH]; intros need Hneed; [done|]. cbn [flat_map].
  destruct need as [|[lo hi] need]; cbn [utf8_from].
  - destruct (utf8_lead c) as [need'|] eqn:Hc; [|done]. intros Hl.
    assert (Hn : Forall (λ r : Z * Z, 128 <= r.1) need').
    { clear - Hc. unfold utf8_lead, follow in Hc.
      repeat match type of Hc with (if ?b then _ else _) = _ => destruct b end;
        first [discriminate Hc|injection Hc as <-; repeat constructor; simpl; lia]. }
    destruct (Z.ltb_spec (code c) 128) as [Hlt|Hge].
    + unfold utf8_lead in Hc. rewrite (proj2 (Z.ltb_lt _ _) Hlt) in Hc. injection Hc as <-.
      rewrite utf8_complete by (by apply ascii_utf8, Hlow). by apply IH.
    + rewrite Hhigh by done. cbn [app utf8_from]. rewrite Hc. by apply IH.
  - intros [Hb Hl]%andb_true_iff. apply Forall_cons in Hneed as [Hlo Hneed]. simpl in Hlo.
    apply between_iff in Hb as Hb'. rewrite Hhigh by lia. cbn [app utf8_from]. rewrite Hb. by apply IH.
Qed.

Lemma utf8_app a b : utf8_valid a = true → utf8_valid b = true → utf8_valid (a ++ b) = true.
Proof. unfold utf8_valid. intros Ha Hb. by rewrite utf8_complete. Qed.
Lemma utf8_cons c l : code c < 128 → utf8_valid l = true → utf8_valid (c :: l) = true.
Proof. intros Hc. apply (utf8_app [c]). apply ascii_utf8. cbn. by rewrite (proj2 (Z.ltb_lt _ _) Hc). Qed.

Lemma utf8_quote s : utf8_valid (chars s) = true → utf8_valid (quote s) = true.
Proof.
  intros Hs. unfold quote. apply utf8_cons; [done|]. apply utf8_app; [|done].
  rewrite (escape_all_utf8 _ []) by (try done; constructor). apply escape_utf8; [constructor|done].
Qed.

Lemma utf8_join l : Forall (λ t, utf8_valid t = true) l → utf8_valid (join_text l) = true.
Proof.
  induction 1 as [|t l Ht Hl IH]; [done|]. cbn [join_text]. destruct l; [done|].
  apply utf8_app; [done|]. by apply utf8_cons.
Qed.

Lemma show_ascii z : is_ascii (chars (show_Z z)) = true.
Proof.
  assert (Hn : ∀ n, 0 <= n → is_ascii (chars (show_Z n)) = true).
  { intros n Hn. destruct (show_nonneg n Hn) as (Hd & _ & _). unfold is_ascii.
    rewrite forallb_forall in Hd |- *. intros c Hc. specialize (Hd c Hc).
    by destruct c as [[][][][][][][][]]. }
  destruct (decide (z < 0)) as [Hz|Hz]; [|apply Hn; lia]. rewrite show_neg by done.
  apply (Hn (- z)). lia.
Qed.

Lemma utf8_print v : json_ok v = true → utf8_valid (print v) = true.
Proof.
  induction v as [v Hv|l IH|fields IH] using jsval_nested; intros Hok.
  - destruct v as [| |[]|z| | |s| |]; try done; cbn [print]; [apply ascii_utf8, show_ascii|by apply utf8_quote].
  - cbn [print json_ok] in *. apply utf8_cons; [done|]. apply utf8_app; [|done]. apply utf8_join.
    rewrite forallb_forall in Hok. rewrite Forall_forall in IH. apply Forall_forall. intros t Ht.
    apply list_elem_of_In, in_map_iff in Ht as (x & <- & Hx). apply IH; [by apply list_elem_of_In|by apply Hok].
  - cbn [print json_ok] in *. apply andb_true_iff in Hok as [Hk Hok]. unfold keys_ok in Hk.
    apply andb_true_iff in Hk as [_ Hk].
    apply utf8_cons; [done|]. apply utf8_app; [|done]. apply utf8_join.
    rewrite forallb_forall in Hok, Hk. rewrite Forall_forall in IH. apply Forall_forall. intros t Ht.
    apply list_elem_of_In, in_map_iff in Ht as (x & <- & Hx).
    apply utf8_app; [apply utf8_quote, Hk, in_map; done|]. apply utf8_cons; [done|].
    apply IH; [by apply list_elem_of_In|by apply Hok].
Qed.

Lemma decode_print v : json_ok v = true → decode_utf8 (print v) = Ok (print v).
Proof.
  intros Hok. unfold decode_utf8. rewrite utf8_print by done. cbn [negb throw_when rbind].
  assert (Hfirst : ∀ a l, print v = a :: l → code a ≠ 239).
  { pose proof (print_starts v Hok). intros a l Ha.
    destruct v as [| |[]|z| | |s| |]; try done; cbn [print] in Ha; try (by injection Ha as <- _).
    destruct (show_starts z) as (c & l' & Hs & Hc). rewrite Hs in Ha. injection Ha as <- <-.
    destruct Hc as [->|Hc]; [done|]. by destruct c as [[][][][][][][][]]. }
  destruct (print v) as [|a [|b [|c l]]]; try done.
  specialize (Hfirst _ _ eq_refl). by rewrite (proj2 (Z.eqb_neq _ _) Hfirst).
Qed.

Lemma header_text l : chars (string_of_list_ascii l) = l.
Proof. apply list_ascii_of_string_of_list_ascii. Qed.

Lemma header_decodes v : json_ok v = true →
  ∃ h, encodeBase64Json v = Ok h ∧ decodeBase64Json h = Ok v.
Proof.
  intros Hok. destruct (parse_stringify v Hok) as (t & Ht & Hp).
  rewrite stringify_print in Ht by done. injection Ht as <-.
  eexists. unfold encodeBase64Json, decodeBase64Json. rewrite stringify_print by done. cbn [rbind].
  change (default [] (Some (print v))) with (print v). split; [done|]. rewrite header_text, atob_btoa, decode_print by done. exact Hp.
Qed.

(** What a header is made of: it needs no quoting on the wire. *)
Definition base64_char (c : ascii) : bool :=
  is_digit c || is_lower c || is_upper c || existsb (Ascii.eqb c) ["+"; "/"; "="]%char.
Lemma header_chars v h : encodeBase64Json v = Ok h → forallb base64_char (chars h) = true.
Proof.
  unfold encodeBase64Json. intros (t & _ & [= <-])%rbind_ok. rewrite header_text. unfold btoa.
  rewrite forallb_app. apply andb_true_iff. split.
  - generalize (sextets_small (default [] t)). generalize (sextets (default [] t)).
    induction 1 as [|z zs Hz _ IH]; [done|]. cbn [map forallb]. rewrite IH, andb_true_r.
    assert (Hall : forallb (λ n, base64_char (sextet_char (Z.of_nat n))) (seq 0 64) = true)
      by (vm_compute; reflexivity).
    rewrite forallb_forall in Hall. specialize (Hall (Z.to_nat z) ltac:(apply in_seq; lia)).
    by rewrite Z2Nat.id in Hall by lia.
  - unfold padding. by induction ((3 - length (default [] t) mod 3) mod 3)%nat.
Qed.

(** ** The identifier a client mints is the identifier a seller reads *)
Lemma hex_byte_class z : 0 <= z < 256 →
  length (hex_byte z) = 2%nat ∧ forallb is_lower_hex (hex_byte z) = true ∧ hex_number (hex_byte z) = z.
Proof.
  intros Hz.
  assert (Hall : forallb (λ n, Nat.eqb (length (hex_byte (Z.of_nat n))) 2
    && forallb is_lower_hex (hex_byte (Z.of_nat n)) && (hex_number (hex_byte (Z.of_nat n)) =? Z.of_nat n))
    (seq 0 256) = true) by (vm_compute; reflexivity).
  rewrite forallb_forall in Hall. specialize (Hall (Z.to_nat z) ltac:(apply in_seq; lia)).
  rewrite Z2Nat.id, !andb_true_iff, Nat.eqb_eq, Z.eqb_eq in Hall by lia. naive_solver.
Qed.

Lemma hex_bytes_class bytes : Forall (λ z, 0 <= z < 256) bytes →
  length (flat_map hex_byte bytes) = (2 * length bytes)%nat
  ∧ forallb is_lower_hex (flat_map hex_byte bytes) = true.
Proof.
  induction 1 as [|z bytes Hz _ [IH1 IH2]]; [done|]. destruct (hex_byte_class z Hz) as (Hl & Hc & _).
  cbn [flat_map]. rewrite length_app, forallb_app, Hl, Hc, IH1, IH2. cbn [length]. split; [lia|done].
Qed.

Lemma minted_matches bytes :
  length bytes = 16%nat → Forall (λ z, 0 <= z < 256) bytes →
  PAYMENT_IDENTIFIER (newPaymentIdentifier bytes) = true ∧ is_ascii (chars (newPaymentIdentifier bytes)) = true.
Proof.
  intros Hlen Hb. destruct (hex_bytes_class bytes Hb) as [Hl Hc]. rewrite Hlen in Hl.
  unfold PAYMENT_IDENTIFIER, newPaymentIdentifier, re_class, is_ascii.
  rewrite slen_chars, chars_append, header_text. change (chars "pay_") with ["p"; "a"; "y"; "_"]%char.
  rewrite length_app, Hl, !forallb_app.
  assert (Hsub : ∀ p : ascii → bool, (∀ c, is_lower_hex c = true → p c = true) →
    forallb p (flat_map hex_byte bytes) = true).
  { intros p Hp. rewrite forallb_forall in Hc |- *. intros c Hin. by apply Hp, Hc. }
  rewrite !Hsub by (intros c; destruct c as [[][][][][][][][]]; vm_compute; congruence). done.
Qed.

(** An identifier is ASCII, whatever the numbers. *)
Lemma hex_char_lower z : is_lower_hex (hex_char z) = true.
Proof. apply hex_digit_lower. pose proof (Z.mod_pos_bound z 16). lia. Qed.
Lemma minted_utf8 bytes : utf8_valid (chars (newPaymentIdentifier bytes)) = true.
Proof.
  apply ascii_utf8. unfold newPaymentIdentifier. rewrite chars_append, header_text. unfold is_ascii.
  rewrite forallb_app. apply andb_true_iff. split; [done|].
  assert (Hlow : ∀ c, is_lower_hex c = true → (code c <? 128) = true).
  { intros c. destruct c as [[][][][][][][][]]; vm_compute; congruence. }
  induction bytes as [|z bytes IH]; [done|]. cbn [flat_map]. rewrite forallb_app, IH, andb_true_r.
  unfold hex_byte, padStart. destruct (z <? 16); cbn; by rewrite !Hlow by (done || apply hex_char_lower).
Qed.

(** Different draws give different identifiers. *)
Lemma hex_bytes_inj a b :
  Forall (λ z, 0 <= z < 256) a → Forall (λ z, 0 <= z < 256) b →
  flat_map hex_byte a = flat_map hex_byte b → a = b.
Proof.
  intros Ha. revert b. induction Ha as [|x a Hx _ IH]; intros b Hb; cbn [flat_map].
  - destruct Hb as [|y b Hy Hb]; [done|]. destruct (hex_byte_class y Hy) as (Hl & _). cbn [flat_map].
    by destruct (hex_byte y).
  - destruct (hex_byte_class x Hx) as (Hlx & _ & Hvx).
    destruct Hb as [|y b Hy Hb]; cbn [flat_map]; [by destruct (hex_byte x)|].
    destruct (hex_byte_class y Hy) as (Hly & _ & Hvy). intros He.
    apply app_inj_1 in He as [He Ht]; [|congruence]. f_equal; [congruence|by apply IH].
Qed.
Lemma minted_inj a b :
  Forall (λ z, 0 <= z < 256) a → Forall (λ z, 0 <= z < 256) b →
  newPaymentIdentifier a = newPaymentIdentifier b → a = b.
Proof.
  intros Ha Hb Heq. apply hex_bytes_inj; [done..|]. unfold newPaymentIdentifier in Heq.
  apply (f_equal chars) in Heq. rewrite !chars_append, !header_text in Heq.
  by apply app_inv_head in Heq.
Qed.

(** The payload of one payment, with the echo of its identifier. *)
Definition identified_payload (accepted : jsval) (manager context delegator id : string) : jsval :=
  buildErc7710PaymentPayload accepted manager context delegator
    (Some (JObj [(PAYMENT_IDENTIFIER_EXTENSION, buildPaymentIdentifierEcho id)])).

Lemma identified_ok accepted manager context delegator id :
  json_ok accepted = true → utf8_valid (chars manager) = true → utf8_valid (chars context) = true →
  utf8_valid (chars delegator) = true → utf8_valid (chars id) = true →
  json_ok (identified_payload accepted manager context delegator id) = true.
Proof.
  intros Ha Hm Hc Hd Hi. unfold identified_payload, buildErc7710PaymentPayload, buildPaymentIdentifierEcho.
  cbn [json_ok optional app map fst snd forallb]. rewrite Ha, Hm, Hc, Hd, Hi.
  rewrite !andb_true_r. repeat (apply andb_true_iff; split); vm_compute; reflexivity.
Qed.

Lemma reads_minted accepted manager context delegator id :
  PAYMENT_IDENTIFIER id = true →
  readPaymentIdentifier (identified_payload accepted manager context delegator id) = present id.
Proof. intros Hid. unfold readPaymentIdentifier. cbn -[PAYMENT_IDENTIFIER]. by rewrite Hid. Qed.

(** What a reader accepts as an identifier is the text at its place, in the format. *)
Lemma read_present payload id :
  readPaymentIdentifier payload = present id →
  prop (prop (prop (prop payload "extensions") PAYMENT_IDENTIFIER_EXTENSION) "info") "id" = JStr id
  ∧ PAYMENT_IDENTIFIER id = true.
Proof.
  unfold readPaymentIdentifier. destruct (_ || _); [done|]. destruct (negb _); [done|].
  destruct (prop _ "id"); try done. destruct (PAYMENT_IDENTIFIER s) eqn:Hs; [|done]. by intros [= <-].
Qed.

(** What a client puts in [Payment-Signature] is what the seller takes out. For an
    offer that is a canonical document and a leaf of UTF-8 texts, the payload with a
    freshly minted identifier encodes to a header of base64 characters; the header decodes
    to the same payload, field for field, and the reader of the extension finds the same
    identifier, which two different draws of random bytes never share. *)
Theorem payment_header_roundtrip accepted manager context delegator bytes :
  json_ok accepted = true → utf8_valid (chars manager) = true → utf8_valid (chars context) = true →
  utf8_valid (chars delegator) = true →
  length bytes = 16%nat → Forall (λ z, 0 <= z < 256) bytes →
  let id := newPaymentIdentifier bytes in
  let payload := identified_payload accepted manager context delegator id in
  ∃ h, encodePaymentHeader payload = Ok h
    ∧ forallb base64_char (chars h) = true
    ∧ decodePaymentHeader h = Ok payload
    ∧ readPaymentIdentifier payload = present id
    ∧ ∀ bytes', Forall (λ z, 0 <= z < 256) bytes' → newPaymentIdentifier bytes' = id → bytes' = bytes.
Proof.
  intros Ha Hm Hc Hd Hlen Hb id payload. destruct (minted_matches bytes Hlen Hb) as [Hid Hascii].
  destruct (header_decodes payload) as (h & Hh & Hdec).
  { apply identified_ok; [done..|]. by apply ascii_utf8. }
  exists h. split_and!; [done| |done|by apply reads_minted|].
  - by eapply header_chars.
  - intros bytes' Hb' Heq. by apply minted_inj.
Qed.

Definition ex_wire_offer : jsval :=
  buildErc7710PaymentRequirements "0x00000000000000000000000000000000000000de" 1500000
    (Some ["0x00000000000000000000000000000000000000ff"]) None None.
Definition ex_bytes : list Z := map Z.of_nat (seq 0 16).

Lemma payment_header_roundtrip_witness :
  newPaymentIdentifier ex_bytes = "pay_000102030405060708090a0b0c0d0e0f"
  ∧ ∃ h, encodePaymentHeader (identified_payload ex_wire_offer ex_manager "0x01" ex_delegator
                                (newPaymentIdentifier ex_bytes)) = Ok h
      ∧ decodePaymentHeader h = Ok (identified_payload ex_wire_offer ex_manager "0x01" ex_delegator
                                      (newPaymentIdentifier ex_bytes)).
Proof.
  split; [reflexivity|].
  destruct (payment_header_roundtrip ex_wire_offer ex_manager "0x01" ex_delegator ex_bytes)
    as (h & Hh & _ & Hd & _);
    [reflexivity|reflexivity|reflexivity|reflexivity|reflexivity| |exists h; split; [exact Hh|exact Hd]].
  unfold ex_bytes. cbn. repeat constructor; vm_compute; discriminate.
Defined.
