(* ===== verification/Errors.v ===== *)
(** * Settlement errors and log redaction

    [packages/shared/src/errors.ts]: the error model with its HTTP statuses and
    descriptions, and the two redactions that stand between an error message and a log
    or a caller: a URL is cut to its origin ([redactUrls]) and long hex is replaced by
    its size ([redactForLog]).  The URL parser of the runtime is the argument
    [url_origin]: the origin of a text that parses as a URL. *)

From Stdlib Require Import ZArith Lia Ascii String.
From stdpp Require Import base gmap strings list.
From S2P Require Import Prelude Token Json.
Open Scope string_scope.
Open Scope Z_scope.

Inductive SettlementError :=
  | InvalidSignature (expectedSigner : string)
  | AuthorizationExpired (validBefore now : Z)
  | AuthorizationNotYetValid (validAfter now : Z)
  | NonceAlreadyUsed (authorizer nonce : string)
  | InsufficientBalance (available required : Z)
  | LimitExceeded (available requested : Z) (periodEndsAt : option Z)
  | DelegationRevoked (delegationHash : string)
  | RelayerOutOfGas (signer : string) (balance : Z)
  | RpcUnavailable (url : string)
  | RpcRateLimited (url : string) (retryAfterMs : option Z)
  | TxReverted (hash reason : option string)
  | SettlementUnknown (transaction : option string)
  | DomainMismatch (expected received : string)
  | MalformedPayload (field : string) (detail : option string).

Definition isOperational (e : SettlementError) : bool :=
  match e with RelayerOutOfGas _ _ | RpcUnavailable _ | RpcRateLimited _ _ => true | _ => false end.

Definition httpStatusFor (e : SettlementError) : Z :=
  if isOperational e then 503
  else match e with
       | MalformedPayload _ _ | DomainMismatch _ _ => 400
       | InvalidSignature _ => 401
       | DelegationRevoked _ | LimitExceeded _ _ _ => 403
       | NonceAlreadyUsed _ _ => 409
       | SettlementUnknown _ => 504
       | _ => 422
       end.

(** ** Redaction *)
Definition is_word (c : ascii) : bool := is_digit c || is_lower c || is_upper c || Ascii.eqb c "_".

(** [replace] with a global regular expression and a callback: [m prev l] is the length of
    the match that starts here, after a word character or not; [skip] counts what is left
    of a match. *)
Fixpoint gsub (m : bool → text → nat) (f : text → text) (prev : bool) (skip : nat) (l : text) : text :=
  match l with
  | [] => []
  | c :: l' =>
      match skip with
      | S k => gsub m f (is_word c) k l'
      | O => match m prev l with
             | O => c :: gsub m f (is_word c) 0 l'
             | S k => (f (take (S k) l) ++ gsub m f (is_word c) k l')%list
             end
      end
  end.
Fixpoint span_length (p : ascii → bool) (l : text) : nat :=
  match l with c :: l' => if p c then S (span_length p l') else O | [] => O end.

(** The scheme of a URL at a word boundary, in any case, and then every character but
    white space, quotes, angle brackets and closing brackets. *)
Definition url_char (c : ascii) : bool :=
  negb (is_space c || Ascii.eqb c quote_char
        || existsb (Ascii.eqb c) ["'"; "<"; ">"; ")"; "]"; "}"]%char).
Definition url_scheme (l : text) : option (nat * text) :=
  let lowered := map lower_char l in
  match strip_word (chars "https://") lowered with
  | Some _ => Some (8%nat, drop 8 l)
  | None => match strip_word (chars "http://") lowered with
            | Some _ => Some (7%nat, drop 7 l)
            | None => None
            end
  end.
Definition url_match (prev : bool) (l : text) : nat :=
  if prev then O
  else match url_scheme l with
       | Some (n, rest) => match span_length url_char rest with O => O | k => (n + k)%nat end
       | None => O
       end.

Section redaction.
Variable url_origin : string → option string.

Definition redact_url (m : text) : text :=
  let s := string_of_list_ascii m in
  match url_origin s with
  | Some origin =>
      let tail := drop (length (chars origin)) m in
      if bool_decide (tail ≠ [] ∧ tail ≠ ["/"%char]) then chars (origin ++ "/<redacted>") else chars origin
  | None => m
  end.
Definition redactUrls (t : string) : string :=
  string_of_list_ascii (gsub url_match redact_url false 0 (chars t)).

(** [/0x[0-9a-fA-F]{65,}/g] *)
Definition long_hex (prev : bool) (l : text) : nat :=
  match strip_word (chars "0x") l with
  | Some rest => let n := span_length is_hex rest in if Nat.leb 65 n then (2 + n)%nat else O
  | None => O
  end.
(** The size in bytes, which is a fraction for an odd count of digits. *)
Definition hex_size (m : text) : text :=
  let n := (length m - 2)%nat in
  chars ("0x<" ++ show_Z (Z.of_nat n / 2) ++ (if Nat.odd n then ".5" else "") ++ " bytes redacted>").
Fixpoint collapse (in_space : bool) (l : text) : text :=
  match l with
  | [] => []
  | c :: l' =>
      if is_space c then (if in_space then collapse true l' else " "%char :: collapse true l')
      else c :: collapse false l'
  end.
(** The three bytes of the ellipsis. *)
Definition ellipsis : string := string_of_list_ascii (utf8_bytes 8230).

Definition redactForLog (raw : string) (maxLength : nat) : string :=
  let scrubbed := gsub long_hex hex_size false 0 (chars (redactUrls raw)) in
  let scrubbed := chars (trim (string_of_list_ascii (collapse false scrubbed))) in
  if Nat.ltb maxLength (length scrubbed)
  then string_of_list_ascii (take maxLength scrubbed) ++ ellipsis
  else string_of_list_ascii scrubbed.

(** [`${value.name}: ${value.message}`] and the default length *)
Definition errorMessage (e : js_error) : string :=
  redactForLog (err_name e ++ ": " ++ err_message e) 300.

Definition describe (e : SettlementError) : string :=
  match e with
  | InvalidSignature s => "signature does not recover to " ++ s
  | AuthorizationExpired b n =>
      "authorization expired at " ++ show_Z b ++ " (now " ++ show_Z n ++ ")"
  | AuthorizationNotYetValid a n =>
      "authorization not valid until " ++ show_Z a ++ " (now " ++ show_Z n ++ ")"
  | NonceAlreadyUsed a n => "nonce " ++ n ++ " already consumed by " ++ a
  | InsufficientBalance a r => "balance " ++ show_Z a ++ " < required " ++ show_Z r
  | LimitExceeded a r _ => "period allowance " ++ show_Z a ++ " < requested " ++ show_Z r
  | DelegationRevoked h => "delegation " ++ h ++ " was revoked"
  | RelayerOutOfGas s b => "relayer " ++ s ++ " has " ++ show_Z b ++ " wei — top up"
  | RpcUnavailable u => "RPC " ++ redactUrls u ++ " unreachable"
  | RpcRateLimited u _ => "RPC " ++ redactUrls u ++ " rate limited"
  | TxReverted _ r => "tx reverted" ++ match r with Some r => if String.eqb r "" then "" else ": " ++ r | None => "" end
  | SettlementUnknown t =>
      "settlement outcome unknown — the payment may have settled; do not re-sign"
      ++ match t with Some t => if String.eqb t "" then "" else " (tx " ++ t ++ ")" | None => "" end
  | DomainMismatch e r => "EIP-712 domain mismatch: expected " ++ e ++ ", got " ++ r
  | MalformedPayload f d =>
      "malformed field " ++ dquote ++ f ++ dquote
      ++ match d with Some d => if String.eqb d "" then "" else ": " ++ d | None => "" end
  end.
End redaction.

(** ** No long hex reaches a log *)
Lemma infix_cons_cases w c l : infix w (c :: l) → (∃ y, c :: l = (w ++ y)%list) ∨ infix w l.
Proof. intros ([|x xs] & y & Hl); [left; by exists y|right]. injection Hl as -> ->. by exists xs, y. Qed.

Lemma hex_size_shape m : ∃ t,
  hex_size m = ("0"%char :: "x"%char :: "<"%char :: t ++ [">"%char])%list
  ∧ forallb (λ c, negb (Ascii.eqb c "x")) t = true.
Proof.
  unfold hex_size. set (n := (length m - 2)%nat).
  assert (Hd : forallb (λ c, negb (Ascii.eqb c "x")) (chars (show_Z (Z.of_nat n / 2))) = true).
  { destruct (show_nonneg (Z.of_nat n / 2)) as (Hd & _ & _); [apply Z.div_pos; lia|].
    rewrite forallb_forall in Hd |- *. intros c Hc. specialize (Hd c Hc). by destruct c as [[][][][][][][][]]. }
  exists (chars (show_Z (Z.of_nat n / 2)) ++ chars (if Nat.odd n then ".5" else "") ++ chars " bytes redacted")%list.
  rewrite !chars_append. split.
  - cbn [chars app]. by rewrite <- !app_assoc.
  - rewrite !forallb_app, Hd. by destruct (Nat.odd n).
Qed.

(** A hex literal of [w] digits. *)
Definition literal_of (w : text) : text := ("0"%char :: "x"%char :: w)%list.

Lemma infix_past_size w t out :
  forallb (λ c, negb (Ascii.eqb c "x")) t = true →
  infix (literal_of w) (t ++ ">"%char :: out) → infix (literal_of w) out.
Proof.
  intros Ht. induction t as [|c t IH]; cbn [app].
  - intros [[y Hy]|Hi]%infix_cons_cases; [done|done].
  - simpl in Ht. apply andb_true_iff in Ht as [Hc Ht].
    intros [[y Hy]|Hi]%infix_cons_cases; [|by apply IH]. exfalso.
    injection Hy as _ Hy. destruct t as [|c' t]; [done|]. injection Hy as -> _. done.
Qed.

Lemma gsub_skip m f l : ∀ p k, ∃ p', gsub m f p k l = gsub m f p' 0 (drop k l).
Proof.
  induction l as [|c l IH]; intros p [|k]; try by exists p. cbn [gsub drop]. apply IH.
Qed.

Notation strip_hex := (gsub long_hex hex_size).

Lemma long_hex_match p l : long_hex p l ≠ O → ∃ l', l = ("0"%char :: "x"%char :: l')%list.
Proof.
  unfold long_hex. destruct (strip_word _ l) as [rest|] eqn:Hs; [|done]. intros _.
  apply strip_word_split in Hs. by exists rest.
Qed.

Lemma strip_hex_prefix w : ∀ p l y,
  forallb is_hex w = true → strip_hex p 0 l = (w ++ y)%list → ∃ y', l = (w ++ y')%list.
Proof.
  induction w as [|a w IH]; intros p l y Hw Hl; [by exists l|].
  simpl in Hw. apply andb_true_iff in Hw as [Ha Hw]. destruct l as [|c l]; [done|]. cbn [gsub] in Hl.
  destruct (long_hex p (c :: l)) as [|k] eqn:Hm.
  - injection Hl as -> Hl. destruct (IH _ _ _ Hw Hl) as [y' ->]. by exists y'.
  - destruct (hex_size_shape (take (S k) (c :: l))) as (t & Hsz & _). rewrite Hsz in Hl. injection Hl as <- Hl.
    destruct w as [|b w]; [|simpl in Hl; injection Hl as <- _; done].
    destruct (long_hex_match p (c :: l)) as [l' Hl']; [by rewrite Hm|]. rewrite Hl'. by eexists.
Qed.

Lemma span_length_app w l : forallb is_hex w = true → (length w <= span_length is_hex (w ++ l))%nat.
Proof.
  induction w as [|c w IH]; cbn [forallb app span_length length]; [lia|].
  intros [-> Hw]%andb_true_iff. specialize (IH Hw). lia.
Qed.

Lemma strip_hex_gone w l : ∀ p,
  forallb is_hex w = true → length w = 65%nat → ¬ infix (literal_of w) (strip_hex p 0 l).
Proof.
  induction l as [l IH] using (induction_ltof1 _ (@length ascii)). unfold ltof in IH.
  intros p Hw Hlen Hi. destruct l as [|c l].
  { destruct Hi as (x & y & Hxy). cbn in Hxy. by destruct x. }
  cbn [gsub] in Hi. destruct (long_hex p (c :: l)) as [|k] eqn:Hm.
  - apply infix_cons_cases in Hi as [[y Hy]|Hi]; [|exact (IH l ltac:(unfold ltof; simpl; lia) _ Hw Hlen Hi)].
    injection Hy as -> Hy. destruct l as [|c' l]; [done|]. cbn [gsub] in Hy.
    destruct (long_hex (is_word "0") (c' :: l)) as [|k].
    + injection Hy as -> Hy. apply strip_hex_prefix in Hy as [y' ->]; [|done].
      change (long_hex p ("0"%char :: "x"%char :: w ++ y')%list) with
        (let n := span_length is_hex (w ++ y') in if Nat.leb 65 n then (2 + n)%nat else O) in Hm.
      cbv zeta in Hm. pose proof (span_length_app w y' Hw).
      destruct (Nat.leb_spec 65 (span_length is_hex (w ++ y'))); lia.
    + destruct (hex_size_shape (take (S k) (c' :: l))) as (t & Hsz & _). by rewrite Hsz in Hy.
  - destruct (gsub_skip long_hex hex_size l (is_word c) k) as [p' Hp'].
    rewrite Hp' in Hi. destruct (hex_size_shape (take (S k) (c :: l))) as (t & Hsz & Ht).
    rewrite Hsz in Hi. cbn [app] in Hi. rewrite <- app_assoc in Hi. cbn [app] in Hi.
    apply infix_cons_cases in Hi as [[y Hy]|Hi].
    { destruct w as [|a w]; [done|]. injection Hy as <- _. done. }
    apply infix_cons_cases in Hi as [[y Hy]|Hi]; [done|].
    apply (infix_past_size w ("<"%char :: t)) in Hi; [|done].
    eapply IH; [|exact Hw|exact Hlen|exact Hi]. rewrite length_drop. simpl. lia.
Qed.

(** Text without white space survives the rest of the clean-up only where it stood. *)
Definition solid (w : text) : Prop := w ≠ [] ∧ forallb (λ c, negb (is_space c)) w = true.

Lemma collapse_prefix w : ∀ b l y,
  forallb (λ c, negb (is_space c)) w = true → collapse b l = (w ++ y)%list →
  ∃ x y', l = (x ++ w ++ y')%list ∧ (b = false → x = []).
Proof.
  induction w as [|a w IH]; intros b l y Hw Hl; [by exists [], l|].
  simpl in Hw. apply andb_true_iff in Hw as [Ha Hw]. apply negb_true_iff in Ha.
  induction l as [|c l IHl] in b, Hl |- *; [done|]. cbn [collapse] in Hl.
  destruct (is_space c) eqn:Hc.
  - destruct b; [|injection Hl as <- _; done].
    destruct (IHl _ Hl) as (x & y' & -> & _). by exists (c :: x), y'.
  - injection Hl as -> Hl. destruct (IH _ _ _ Hw Hl) as (x & y' & -> & Hx).
    rewrite (Hx eq_refl). by exists [], y'.
Qed.

Lemma collapse_infix w l : ∀ b, solid w → infix w (collapse b l) → infix w l.
Proof.
  induction l as [|c l IH]; intros b [Hne Hw] Hi; [done|].
  assert (Hrec : ∀ b', infix w (collapse b' l) → infix w (c :: l)).
  { intros b' Hi'. apply (infix_app_r w [c] l). by eapply IH. }
  cbn [collapse] in Hi. destruct (is_space c) eqn:Hc; [destruct b; [by eapply Hrec|]|].
  - apply infix_cons_cases in Hi as [[y Hy]|Hi]; [|by eapply Hrec].
    destruct w as [|a w]; [done|]. by injection Hy as <- _.
  - apply infix_cons_cases in Hi as [[y Hy]|Hi]; [|by eapply Hrec].
    destruct (collapse_prefix w false (c :: l) y) as (x & y' & Heq & _); [done|by cbn [collapse]; rewrite Hc|].
    exists x, y'. exact Heq.
Qed.

Lemma drop_space_suffix l : ∃ x, l = (x ++ drop_space l)%list.
Proof.
  induction l as [|c l [x Hx]]; [by exists []|]. cbn [drop_space].
  destruct (is_space c); [exists (c :: x); simpl; by rewrite <- Hx|by exists []].
Qed.
Lemma trim_infix w s : infix w (chars (trim s)) → infix w (chars s).
Proof.
  unfold trim, chars at 1. rewrite list_ascii_of_string_of_list_ascii. intros Hi.
  destruct (drop_space_suffix (chars s)) as [x Hx]. rewrite Hx. apply infix_app_r.
  destruct (drop_space_suffix (rev (drop_space (chars s)))) as [y Hy].
  rewrite <- (rev_involutive (drop_space (chars s))), Hy, rev_app_distr. by apply infix_app_l.
Qed.

Lemma infix_trans w v l : infix w v → infix v l → infix w l.
Proof. intros (x & y & ->) (x' & y' & ->). exists (x' ++ x)%list, (y ++ y')%list. by rewrite <- !app_assoc. Qed.

(** Text of another class cannot end in an appended suffix. *)
Lemma infix_suffix w l e :
  Forall (λ c, c ∉ w) e → infix w (l ++ e) → w ≠ [] → infix w l.
Proof.
  intros He (x & y & Hxy) Hne. revert l x y He Hxy.
  induction e as [|c e IH] using rev_ind; intros l x y He Hxy; [rewrite app_nil_r in Hxy; by exists x, y|].
  apply Forall_app in He as [He Hc]. apply Forall_cons in Hc as [Hc _].
  destruct y as [|d y _] using rev_ind.
  - exfalso. apply Hc. rewrite app_nil_r in Hxy. destruct w as [|d w _] using rev_ind; [done|].
    rewrite !app_assoc in Hxy. apply app_inj_tail in Hxy as [_ ->]. set_solver.
  - rewrite !app_assoc in Hxy. apply app_inj_tail in Hxy as [Hxy _]. rewrite <- app_assoc in Hxy.
    by eapply IH.
Qed.

(** No long hex reaches a log. Whatever an error says, the text that leaves holds no
    run of more than 64 hexadecimal digits after a prefix (a bearer authorization is far
    longer, a hash is exactly that), although white space is collapsed and the text is cut
    after the replacement; and it is no longer than the bound and an ellipsis. *)
Theorem no_long_hex_in_log url_origin raw maxLength w :
  forallb is_hex w = true →
  (infix (literal_of w) (chars (redactForLog url_origin raw maxLength)) → (length w <= 64)%nat)
  ∧ (length (chars (redactForLog url_origin raw maxLength)) <= maxLength + 3)%nat.
Proof.
  intros Hw. set (out := redactForLog url_origin raw maxLength).
  assert (Hshape : ∃ scrubbed e, chars out = (take (length scrubbed) scrubbed ++ e)%list
    ∧ (length scrubbed + length e <= maxLength + 3)%nat ∧ Forall (λ c, 128 <= code c) e
    ∧ ∀ v, solid v → infix v scrubbed → infix v (strip_hex false 0 (chars (redactUrls url_origin raw)))).
  { unfold out, redactForLog. set (s := strip_hex false 0 (chars (redactUrls url_origin raw))).
    set (t := chars (trim (string_of_list_ascii (collapse false s)))).
    assert (Ht : ∀ v, solid v → infix v t → infix v s).
    { intros v Hv Hi. apply trim_infix in Hi. unfold chars in Hi.
      rewrite list_ascii_of_string_of_list_ascii in Hi. by eapply collapse_infix. }
    destruct (Nat.ltb_spec maxLength (length t)).
    - exists (take maxLength t), (chars ellipsis).
      rewrite chars_append, firstn_all, length_take. unfold chars at 1.
      rewrite list_ascii_of_string_of_list_ascii. split_and!; [done|simpl; lia| |].
      + vm_compute. repeat constructor; discriminate.
      + intros v Hv Hi. apply Ht; [done|]. eapply infix_trans; [done|].
        exists [], (drop maxLength t). by rewrite app_nil_l, take_drop.
    - exists t, []. rewrite firstn_all, app_nil_r. unfold chars at 1.
      rewrite list_ascii_of_string_of_list_ascii. split_and!; [done|simpl; lia|constructor|done]. }
  destruct Hshape as (scrubbed & e & Hout & Hlen & He & Hin). rewrite Hout, firstn_all, length_app.
  split; [|lia]. intros Hi.
  destruct (decide (length w <= 64)%nat) as [|Hlong]; [done|exfalso].
  assert (Htake : infix (literal_of (take 65 w)) (literal_of w)).
  { exists [], (drop 65 w). by rewrite <- (take_drop 65 w) at 1. }
  assert (Hw65 : forallb is_hex (take 65 w) = true).
  { rewrite forallb_forall in Hw |- *. intros c Hc. apply Hw. rewrite <- (take_drop 65 w).
    apply in_or_app. by left. }
  assert (Hlow : ∀ c, c ∈ literal_of (take 65 w) → code c < 128 ∧ is_space c = false).
  { intros c. unfold literal_of. rewrite !elem_of_cons. intros [->|[->|Hc]]; [done|done|].
    rewrite forallb_forall in Hw65. apply list_elem_of_In, Hw65 in Hc. clear - Hc.
    by destruct c as [[][][][][][][][]]. }
  apply (infix_trans _ _ _ Htake) in Hi.
  apply infix_suffix in Hi; [|eapply Forall_impl; [exact He|]|done].
  - apply Hin in Hi.
    + apply (strip_hex_gone (take 65 w) _ false Hw65) in Hi; [done|]. rewrite length_take. lia.
    + split; [done|]. apply forallb_forall. intros c Hc%list_elem_of_In.
      destruct (Hlow c Hc) as [_ ->]. done.
  - intros c Hc Hcw. destruct (Hlow c Hcw) as [Hlt _]. simpl in Hc. lia.
Qed.

Definition ex_leak : string :=
  "Error: revert  data 0x" ++ string_of_list_ascii (replicate 130 "a"%char) ++ " at https://rpc.example/v3/key".
Definition ex_origin (s : string) : option string :=
  if String.prefix "https://rpc.example" s then Some "https://rpc.example" else None.

Lemma no_long_hex_in_log_witness :
  redactForLog ex_origin ex_leak 300
    = "Error: revert data 0x<65 bytes redacted> at https://rpc.example/<redacted>"
  ∧ (length (chars (redactForLog ex_origin ex_leak 20)) <= 23)%nat.
Proof.
  split; [vm_compute; reflexivity|].
  exact (proj2 (no_long_hex_in_log ex_origin ex_leak 20 [] eq_refl)).
Defined.
