(* ===== verification/PaymentClient.v ===== *)
(** * The payment client

    [packages/delegation/src/payment-client.ts]: an agent asks for a resource, is answered
    402 with offers, selects one, checks it, has a leaf signed and asks again with the
    payment.  The world the client runs in is any state [W]: fetch, pre-flight, signer and
    random source are operations [meth W] of it, so nothing is assumed about what they
    answer or change.  [payForDelegatedResource] is the whole call; what it throws, it
    throws. *)

From Stdlib Require Import ZArith Lia Ascii String.
From stdpp Require Import base gmap strings list.
From S2P Require Import Prelude Token Json Toolkit Bootstrap Contract X402 Status Gate Codec Redact Errors.
Open Scope string_scope.
Open Scope Z_scope.

Definition AGENT_REQUEST_TIMEOUT_MS : Z := 50000.
Definition PAYMENT_REQUIRED_HEADER : string := "Payment-Required".
Definition PAYMENT_SIGNATURE_HEADER : string := "Payment-Signature".
Definition PAYMENT_RESPONSE_HEADER : string := "Payment-Response".
Definition PAYMENT_IDENTIFIER_CONFLICT : string := "payment_identifier_conflict".
Definition PAYMENT_IDENTIFIER_SETTLED : string := "payment_identifier_settled".

Inductive DelegatedPaymentFailureCode :=
  | NOT_PAYMENT_REQUIRED | UNSUPPORTED_X402_VERSION | SELLER_OFFER_INVALID
  | FACILITATOR_UNTRUSTED | MANAGER_MISMATCH | LIMIT_EXCEEDED | SPEND_POLICY_REFUSED
  | PERMISSION_INACTIVE | PERMISSION_EMPTY | SIGNING_FAILED | PAYMENT_REJECTED
  | SELLER_UNAVAILABLE | SETTLEMENT_UNKNOWN | MALFORMED_RESOURCE | TRANSPORT_ERROR.
#[export] Instance failure_code_eq_dec : EqDecision DelegatedPaymentFailureCode.
Proof. solve_decision. Defined.

Definition SETTLEMENT_UNKNOWN_STATUSES : list Z := [408; 425; 504; 502; 520; 521; 522; 523; 524].
Definition SELLER_UNAVAILABLE_STATUSES : list Z := [429; 503].

Definition X402_REFUSAL_WORDS : list string :=
  ["insufficient_funds"; "invalid_scheme"; "unsupported_scheme"; "invalid_network";
   INVALID_PAYLOAD; "invalid_payment_requirements"; "invalid_x402_version";
   "invalid_transaction_state"].

Inductive SellerRefusalCode := R_SETTLEMENT_UNKNOWN | R_SELLER_UNAVAILABLE | R_PAYMENT_REJECTED.
#[export] Instance refusal_code_eq_dec : EqDecision SellerRefusalCode.
Proof. solve_decision. Defined.
Definition failure_code (c : SellerRefusalCode) : DelegatedPaymentFailureCode :=
  match c with
  | R_SETTLEMENT_UNKNOWN => SETTLEMENT_UNKNOWN
  | R_SELLER_UNAVAILABLE => SELLER_UNAVAILABLE
  | R_PAYMENT_REJECTED => PAYMENT_REJECTED
  end.

(** The entries of the Map; their keys are distinct. *)
Definition refusal_entries : list (string * SellerRefusalCode) :=
  ([(SETTLEMENT_PENDING, R_SETTLEMENT_UNKNOWN);
    (UNEXPECTED_SETTLE_ERROR, R_SETTLEMENT_UNKNOWN);
    (RATE_LIMITED, R_SELLER_UNAVAILABLE);
    (FACILITATOR_NOT_READY, R_SELLER_UNAVAILABLE);
    (UNEXPECTED_VERIFY_ERROR, R_SELLER_UNAVAILABLE);
    (DELEGATION_REJECTED, R_PAYMENT_REJECTED);
    (PAYMENT_IDENTIFIER_CONFLICT, R_PAYMENT_REJECTED);
    (PAYMENT_IDENTIFIER_SETTLED, R_SETTLEMENT_UNKNOWN)]
   ++ map (λ word, (word, R_PAYMENT_REJECTED)) X402_REFUSAL_WORDS)%list.
Definition SELLER_REFUSAL_CODES : gmap string SellerRefusalCode := list_to_map refusal_entries.

Definition REFUSAL_NOTE (c : SellerRefusalCode) : string :=
  match c with
  | R_SETTLEMENT_UNKNOWN => "the payer may already be charged"
  | R_SELLER_UNAVAILABLE => "nothing charged, retry later"
  | R_PAYMENT_REJECTED => "no settlement was attempted"
  end.

(** What the signer returns. *)
Record Leaf := { lf_manager : string; lf_context : string; lf_delegator : string }.

(** A [Response]: what [headers.get] finds, and what reading the body as JSON or as text
    answers. *)
Record HttpResponse := {
  http_status : Z; header : string → option string;
  json_body : result jsval; text_body : result string;
}.
Definition http_ok (r : HttpResponse) : bool := between 200 299 (http_status r).

Inductive DelegatedPaymentResult :=
  | Delivered (amount : jsval) (payTo : string) (transaction : option string)
      (contentType : option string) (resource : jsval) (paymentIdentifier : string)
  | Refused (code : DelegatedPaymentFailureCode) (status : option Z) (detail : string)
      (paymentIdentifier : option string) (transaction : option string).
Definition failure (code : DelegatedPaymentFailureCode) (detail : string) (status : option Z)
    : DelegatedPaymentResult := Refused code status detail None None.

(** [fetchImpl]'s argument beside the target: the payment header, on the second call. *)
Record DelegatedPaymentConfig (W : Type) := {
  provider : jsval → meth W Leaf;
  cf_manager : string;
  trustedFacilitators : list string;
  cf_preflight : option (jsval → meth W PreflightVerdict);
  fetchImpl : option string → meth W HttpResponse;
  getRandomValues : W → list Z * W;
}.
Arguments provider {W}. Arguments cf_manager {W}. Arguments trustedFacilitators {W}.
Arguments cf_preflight {W}. Arguments fetchImpl {W}. Arguments getRandomValues {W}.

(** ** Reading an offer *)
Definition isExactErc7710OnGiwa (v : jsval) : bool :=
  is_object v && is_str (prop v "scheme") "exact" && is_str (prop v "network") GIWA_SEPOLIA_CAIP2
  && is_str (prop (prop v "extra") "assetTransferMethod") "erc7710".

(** [String(v)], which a regular expression tests. *)
Fixpoint to_text (v : jsval) : string :=
  match v with
  | JUndefined => "undefined"
  | JNull => "null"
  | JBool b => if b then "true" else "false"
  | JNum z => string_of_list_ascii (show_integer z)
  | JFloat bits => if bits / 2 ^ 52 mod 2048 =? 2047 then "NaN" else string_of_list_ascii (show_float bits)
  | JBig z => show_Z z
  | JStr s => s
  | JArr l => String.concat ","
                (map (λ x, match x with JUndefined | JNull => "" | _ => to_text x end) l)
  | JObj _ => "[object Object]"
  end.
(** [/^[1-9]\d*$/] *)
Definition positive_text (s : string) : bool :=
  match chars s with c :: l => in_range "1" "9" c && forallb is_digit l | [] => false end.
Definition nullish (v : jsval) : bool := match v with JUndefined | JNull => true | _ => false end.
Definition is_list (v : jsval) : bool := match v with JArr _ => true | _ => false end.

Inductive OfferSelection :=
  | Accepted (offer : jsval)
  | NoOffer (code : DelegatedPaymentFailureCode) (detail : string).

Section client.
Context `{Toolkit}.
Variable url_origin : string → option string.

Definition assertErc7710Offer (v : jsval) : result jsval :=
  throws negb (isExactErc7710OnGiwa v) with Error "seller did not offer exact ERC-7710 on GIWA";
  throws negb (is_addr (prop v "asset"))
         || negb (String.eqb (getAddress (text_of (prop v "asset"))) MOCK_USDC_address) with
    Error (if is_addr (prop v "asset")
           then "unexpected asset " ++ getAddress (text_of (prop v "asset"))
           else "seller asset is not an address");
  throws negb (is_addr (prop v "payTo")) with Error "seller payTo is malformed";
  throws String.eqb (getAddress (text_of (prop v "payTo"))) zeroAddress with
    Error "seller payTo is the zero address";
  throws negb (positive_text (to_text (prop v "amount"))) with Error "seller amount is malformed";
  throws bad_flow (prop (prop v "extra") "paymentFlow") with
    Error "seller declares an unsupported payment flow";
  throws bad_timeout (prop v "maxTimeoutSeconds") with Error "seller timeout is unsafe";
  let facilitators := prop (prop v "extra") "facilitatorAddresses" in
  throws negb (nullish facilitators) && negb (is_list facilitators) with
    Error "seller facilitatorAddresses is not a list";
  let advertisedManager := prop (prop v "extra") "delegationManager" in
  throws negb (nullish advertisedManager) && negb (is_addr advertisedManager) with
    Error "seller delegationManager is malformed";
  Ok v.

(** viem's [getAddress] on a value of any type. *)
Definition checked_getAddress (v : jsval) : result string :=
  throws negb (is_addr v) with JsError "InvalidAddressError" "Address is invalid.";
  Ok (getAddress (text_of v)).

Definition elements_of (v : jsval) : list jsval := match v with JArr l => l | _ => [] end.
(** Some trusted address is the canonical form of some advertised one. *)
Definition overlap (trusted : list string) (advertised : list jsval) : bool :=
  existsb (λ t, existsb (λ f, is_addr f && String.eqb (getAddress (text_of f)) t) advertised) trusted.

(** The advertised manager is read outside of the [try]. *)
Definition judgeOffer (trusted : list string) (manager : string) (candidate : jsval)
    : result OfferSelection :=
  match assertErc7710Offer candidate with
  | Throw e => Ok (NoOffer SELLER_OFFER_INVALID (errorMessage url_origin e))
  | Ok accepted =>
      let extra := prop accepted "extra" in
      if negb (overlap trusted (elements_of (or_empty (prop extra "facilitatorAddresses")))) then
        Ok (NoOffer FACILITATOR_UNTRUSTED "seller and trusted facilitator signer lists do not overlap")
      else match prop extra "delegationManager" with
           | JUndefined => Ok (Accepted accepted)
           | advertised =>
               let? a := checked_getAddress advertised in
               if negb (String.eqb a (getAddress manager)) then
                 Ok (NoOffer MANAGER_MISMATCH
                       "seller advertises a different DelegationManager than the verified deployment")
               else Ok (Accepted accepted)
           end
  end.

Fixpoint select_from (trusted : list string) (manager : string) (onRail : option OfferSelection)
    (l : list jsval) : result (jsval + option OfferSelection) :=
  match l with
  | [] => Ok (inr onRail)
  | candidate :: l' =>
      let? verdict := judgeOffer trusted manager candidate in
      match verdict with
      | Accepted a => Ok (inl a)
      | NoOffer _ _ =>
          let onRail := match onRail with
                        | Some _ => onRail
                        | None => if isExactErc7710OnGiwa candidate then Some verdict else None
                        end in
          select_from trusted manager onRail l'
      end
  end.
Definition selectOffer (trusted : list string) (manager : string) (accepts : jsval)
    : result OfferSelection :=
  match accepts with
  | JArr ((_ :: _) as l) =>
      let? s := select_from trusted manager None l in
      Ok (match s with
          | inl a => Accepted a
          | inr (Some v) => v
          | inr None => NoOffer SELLER_OFFER_INVALID
                          ("no exact ERC-7710 offer on GIWA among " ++ show_Z (Z.of_nat (length l)) ++ " accepts")
          end)
  | _ => Ok (NoOffer SELLER_OFFER_INVALID "402 body has no accepts")
  end.

(** ** Reading an answer *)

(** [contentType.split(";")[0].trim().toLowerCase()] *)
Fixpoint until_semicolon (l : text) : text :=
  match l with
  | c :: l' => if Ascii.eqb c ";" then [] else c :: until_semicolon l'
  | [] => []
  end.
Definition mediaType (contentType : string) : string :=
  toLowerCase (trim (string_of_list_ascii (until_semicolon (chars contentType)))).
Definition endsWith (suffix s : string) : bool :=
  let n := (length (chars s) - length (chars suffix))%nat in bool_decide (drop n (chars s) = chars suffix).
Definition isJsonMediaType (type : string) : bool :=
  String.eqb type "application/json" || endsWith "+json" type.

Definition extractTransaction (resource : jsval) : option string :=
  readTransaction (prop (prop resource "receipt") "transaction").

Definition decoded (h : option string) : option jsval :=
  match h with
  | None => None
  | Some h => match decodePaymentResponseHeader h with Ok v => Some v | Throw _ => None end
  end.

(** [None] is [undefined]; [Some None] a receipt that names no transaction. *)
Definition readSettlementReceipt (h : option string) (delegator : string) : option (option string) :=
  match decoded h with
  | None => None
  | Some receipt =>
      if negb (is_object receipt) || negb (is_true (prop receipt "success"))
         || negb (is_str (prop receipt "network") GIWA_SEPOLIA_CAIP2)
         || negb (is_addr (prop receipt "payer"))
         || negb (String.eqb (getAddress (text_of (prop receipt "payer"))) (getAddress delegator))
      then None
      else match prop receipt "transaction" with
           | JUndefined | JNull | JStr "" => Some None
           | JStr t => if TRANSACTION_HASH t then Some (Some t) else None
           | _ => None
           end
  end.

Record DeclaredRefusal := {
  dr_code : option SellerRefusalCode; dr_reason : option string; dr_transaction : option string;
}.
Definition readSellerRefusal (h : option string) : DeclaredRefusal :=
  match decoded h with
  | None => {| dr_code := None; dr_reason := None; dr_transaction := None |}
  | Some receipt =>
      let code := match prop receipt "errorReason" with
                  | JStr r => SELLER_REFUSAL_CODES !! r
                  | _ => None
                  end in
      {| dr_code := code;
         dr_reason := match code with Some _ => Some (text_of (prop receipt "errorReason")) | None => None end;
         dr_transaction := readTransaction (prop receipt "transaction") |}
  end.

Definition in_statuses (l : list Z) (s : Z) : bool := existsb (Z.eqb s) l.
Definition byStatus (s : Z) : SellerRefusalCode :=
  if in_statuses SETTLEMENT_UNKNOWN_STATUSES s then R_SETTLEMENT_UNKNOWN
  else if in_statuses SELLER_UNAVAILABLE_STATUSES s then R_SELLER_UNAVAILABLE
  else R_PAYMENT_REJECTED.
Definition classify (s : Z) (r : DeclaredRefusal) : SellerRefusalCode :=
  if bool_decide (byStatus s = R_SETTLEMENT_UNKNOWN) || bool_decide (is_Some (dr_transaction r))
  then R_SETTLEMENT_UNKNOWN
  else default (byStatus s) (dr_code r).

(** The result for an answer that is not a success. *)
Definition refusal_result (second : HttpResponse) (paymentIdentifier : string) : DelegatedPaymentResult :=
  let refusal := readSellerRefusal (header second PAYMENT_RESPONSE_HEADER) in
  let s := http_status second in
  let code := classify s refusal in
  let status := " (" ++ show_Z s ++ ")" in
  let what := match dr_reason refusal with
              | Some r => "seller reported " ++ r ++ status
              | None => match code with
                        | R_SETTLEMENT_UNKNOWN => "seller could not confirm settlement" ++ status
                        | R_SELLER_UNAVAILABLE => "seller could not take the payment" ++ status
                        | R_PAYMENT_REJECTED => "seller rejected the payment" ++ status
                        end
              end in
  let found := match dr_transaction refusal with Some t => " — transaction " ++ t | None => "" end in
  Refused (failure_code code) (Some s) (what ++ " — " ++ REFUSAL_NOTE code ++ found)
    (Some paymentIdentifier)
    (match code with R_SETTLEMENT_UNKNOWN => dr_transaction refusal | _ => None end).

(** The result for a success: the body, stripped of what was sent. *)
Definition delivered_result (second : HttpResponse) (accepted : jsval) (secrets : list string)
    (delegator paymentIdentifier : string) : result DelegatedPaymentResult :=
  let? contentType := match header second "content-type" with
                      | None => Ok None
                      | Some declared =>
                          let? clean := redactBearerSecrets (JStr declared) secrets in
                          Ok (Some (mediaType (text_of clean)))
                      end in
  let body := match contentType with
              | Some t => if isJsonMediaType t then json_body second
                          else (let? s := text_body second in Ok (JStr s))
              | None => let? s := text_body second in Ok (JStr s)
              end in
  match body with
  | Throw e => Ok (Refused MALFORMED_RESOURCE None
                     ("resource could not be read: " ++ errorMessage url_origin e)
                     (Some paymentIdentifier) None)
  | Ok resource =>
      let? resource := redactBearerSecrets resource secrets in
      let receipt := readSettlementReceipt (header second PAYMENT_RESPONSE_HEADER) delegator in
      Ok (Delivered (prop accepted "amount") (getAddress (text_of (prop accepted "payTo")))
            (match receipt with Some t => t | None => extractTransaction resource end)
            contentType resource paymentIdentifier)
  end.

(** The offer of a 402: the header first, the body when the header is unusable. *)
Definition offer_body (first : HttpResponse) : result jsval :=
  let by_header := match header first PAYMENT_REQUIRED_HEADER with
                   | None => None
                   | Some h => match decodePaymentRequiredHeader h with Ok v => Some v | Throw _ => None end
                   end in
  match by_header with Some v => Ok v | None => json_body first end.

(** The [code] of a pre-flight verdict. *)
Definition preflight_code (code : string) : DelegatedPaymentFailureCode :=
  if String.eqb code "LIMIT_EXCEEDED" then LIMIT_EXCEEDED
  else if String.eqb code "PERMISSION_INACTIVE" then PERMISSION_INACTIVE
  else if String.eqb code "PERMISSION_EMPTY" then PERMISSION_EMPTY
  else SPEND_POLICY_REFUSED.

(** What the client reads of the first answer before it calls anything else. *)
Definition select_offer_of (trusted : list string) (manager : string) (first : HttpResponse)
    : result (jsval + DelegatedPaymentResult) :=
  if negb (http_status first =? 402) then
    Ok (inr (failure NOT_PAYMENT_REQUIRED ("expected 402, received " ++ show_Z (http_status first))
               (Some (http_status first))))
  else match offer_body first with
  | Throw e => Ok (inr (failure SELLER_OFFER_INVALID
      ("402 offer is neither a Payment-Required header nor a JSON body: " ++ errorMessage url_origin e) None))
  | Ok body =>
      if negb (is_object body) then Ok (inr (failure SELLER_OFFER_INVALID "402 body is not an object" None))
      else if negb (strict_eq (prop body "x402Version") (JNum X402_VERSION)) then
        Ok (inr (failure UNSUPPORTED_X402_VERSION
                   ("unsupported x402 version " ++ to_text (prop body "x402Version")) None))
      else
        let? selected := selectOffer trusted manager (prop body "accepts") in
        match selected with
        | NoOffer code detail => Ok (inr (failure code detail None))
        | Accepted accepted => Ok (inl accepted)
        end
  end.

Definition leaf_ok (manager : string) (leaf : Leaf) : bool :=
  isAddress (lf_manager leaf) && isAddress (lf_delegator leaf)
  && String.eqb (getAddress (lf_manager leaf)) (getAddress manager).

Section call.
Context {W : Type}.
Variable c : DelegatedPaymentConfig W.

(** From the signed leaf on: mint the identifier, present the payment, read the answer. *)
Definition present_payment (accepted : jsval) (leaf : Leaf) : meth W DelegatedPaymentResult := λ w,
  let '(bytes, w) := getRandomValues c w in
  let paymentIdentifier := newPaymentIdentifier bytes in
  let delegator := getAddress (lf_delegator leaf) in
  let payload := identified_payload accepted (getAddress (lf_manager leaf)) (lf_context leaf)
                   delegator paymentIdentifier in
  match encodePaymentHeader payload with
  | Throw e => (Throw e, w)
  | Ok paymentHeader =>
      match fetchImpl c (Some paymentHeader) w with
      | (Throw e, w) =>
          (Ok (Refused SETTLEMENT_UNKNOWN None
                 ("no answer after the payment was sent: " ++ errorMessage url_origin e)
                 (Some paymentIdentifier) None), w)
      | (Ok second, w) =>
          if negb (http_ok second) then (Ok (refusal_result second paymentIdentifier), w)
          else (delivered_result second accepted [lf_context leaf; paymentHeader] delegator paymentIdentifier, w)
      end
  end.

Definition sign_and_present (accepted : jsval) : meth W DelegatedPaymentResult := λ w,
  match provider c accepted w with
  | (Throw e, w) => (Ok (failure SIGNING_FAILED ("leaf signing failed: " ++ errorMessage url_origin e) None), w)
  | (Ok leaf, w) =>
      if negb (leaf_ok (cf_manager c) leaf) then
        (Ok (failure MANAGER_MISMATCH "provider returned an unexpected DelegationManager" None), w)
      else present_payment accepted leaf w
  end.

Definition check_and_sign (accepted : jsval) : meth W DelegatedPaymentResult := λ w,
  match cf_preflight c with
  | None => sign_and_present accepted w
  | Some preflight =>
      match preflight accepted w with
      | (Throw e, w) => (Ok (failure TRANSPORT_ERROR ("preflight read failed: " ++ errorMessage url_origin e) None), w)
      | (Ok (Stop code detail), w) => (Ok (failure (preflight_code code) detail None), w)
      | (Ok Clear, w) => sign_and_present accepted w
      end
  end.

Definition payForDelegatedResource : meth W DelegatedPaymentResult := λ w,
  match fetchImpl c None w with
  | (Throw e, w) => (Ok (failure TRANSPORT_ERROR (errorMessage url_origin e) None), w)
  | (Ok first, w) =>
      match select_offer_of (trustedFacilitators c) (cf_manager c) first with
      | Throw e => (Throw e, w)
      | Ok (inr result) => (Ok result, w)
      | Ok (inl accepted) => check_and_sign accepted w
      end
  end.
End call.

(** ** What the client did

    [logged] records every question to the outside with its answer. *)
Inductive Event :=
  | Asked (payment : option string) (answer : result HttpResponse)
  | Checked (offer : jsval) (answer : result PreflightVerdict)
  | Signed (offer : jsval) (answer : result Leaf)
  | Drawn (bytes : list Z).

Definition record {W A} (m : meth W A) (e : result A → Event) : meth (W * list Event) A := λ s,
  let '(r, w) := m s.1 in (r, (w, (s.2 ++ [e r])%list)).
Definition logged {W} (c : DelegatedPaymentConfig W) : DelegatedPaymentConfig (W * list Event) :=
  {| provider := λ o, record (provider c o) (Signed o);
     cf_manager := cf_manager c; trustedFacilitators := trustedFacilitators c;
     cf_preflight := match cf_preflight c with
                     | Some p => Some (λ o, record (p o) (Checked o))
                     | None => None
                     end;
     fetchImpl := λ h, record (fetchImpl c h) (Asked h);
     getRandomValues := λ s, let '(b, w) := getRandomValues c s.1 in (b, (w, (s.2 ++ [Drawn b])%list)) |}.

(** The answer of a call that reached the second request. *)
Definition answer_result (second : result HttpResponse) (accepted : jsval) (leaf : Leaf) (h id : string)
    : result DelegatedPaymentResult :=
  match second with
  | Throw e => Ok (Refused SETTLEMENT_UNKNOWN None
                 ("no answer after the payment was sent: " ++ errorMessage url_origin e) (Some id) None)
  | Ok second =>
      if negb (http_ok second) then Ok (refusal_result second id)
      else delivered_result second accepted [lf_context leaf; h] (getAddress (lf_delegator leaf)) id
  end.

(** The payload of a leaf for an offer. *)
Definition payload_of (accepted : jsval) (leaf : Leaf) (id : string) : jsval :=
  identified_payload accepted (getAddress (lf_manager leaf)) (lf_context leaf)
    (getAddress (lf_delegator leaf)) id.

(** Every history of a call: where it stopped, and with what answer. *)
Inductive history {W} (c : DelegatedPaymentConfig W) : list Event → result DelegatedPaymentResult → Prop :=
  | h_unreachable e :
      history c [Asked None (Throw e)] (Ok (failure TRANSPORT_ERROR (errorMessage url_origin e) None))
  | h_offer_throws first e :
      select_offer_of (trustedFacilitators c) (cf_manager c) first = Throw e →
      history c [Asked None (Ok first)] (Throw e)
  | h_no_offer first r :
      select_offer_of (trustedFacilitators c) (cf_manager c) first = Ok (inr r) →
      history c [Asked None (Ok first)] (Ok r)
  | h_selected first accepted log r :
      select_offer_of (trustedFacilitators c) (cf_manager c) first = Ok (inl accepted) →
      checked_history c accepted log r →
      history c (Asked None (Ok first) :: log) r
with checked_history {W} (c : DelegatedPaymentConfig W)
    : jsval → list Event → result DelegatedPaymentResult → Prop :=
  | h_unchecked accepted log r :
      cf_preflight c = None → signed_history c accepted log r → checked_history c accepted log r
  | h_check_failed accepted e :
      checked_history c accepted [Checked accepted (Throw e)]
        (Ok (failure TRANSPORT_ERROR ("preflight read failed: " ++ errorMessage url_origin e) None))
  | h_stopped accepted code detail :
      checked_history c accepted [Checked accepted (Ok (Stop code detail))]
        (Ok (failure (preflight_code code) detail None))
  | h_clear accepted log r :
      signed_history c accepted log r →
      checked_history c accepted (Checked accepted (Ok Clear) :: log) r
with signed_history {W} (c : DelegatedPaymentConfig W)
    : jsval → list Event → result DelegatedPaymentResult → Prop :=
  | h_sign_failed accepted e :
      signed_history c accepted [Signed accepted (Throw e)]
        (Ok (failure SIGNING_FAILED ("leaf signing failed: " ++ errorMessage url_origin e) None))
  | h_bad_leaf accepted leaf :
      leaf_ok (cf_manager c) leaf = false →
      signed_history c accepted [Signed accepted (Ok leaf)]
        (Ok (failure MANAGER_MISMATCH "provider returned an unexpected DelegationManager" None))
  | h_unencodable accepted leaf bytes e :
      leaf_ok (cf_manager c) leaf = true →
      encodePaymentHeader (payload_of accepted leaf (newPaymentIdentifier bytes)) = Throw e →
      signed_history c accepted [Signed accepted (Ok leaf); Drawn bytes] (Throw e)
  | h_presented accepted leaf bytes h second :
      leaf_ok (cf_manager c) leaf = true →
      encodePaymentHeader (payload_of accepted leaf (newPaymentIdentifier bytes)) = Ok h →
      signed_history c accepted [Signed accepted (Ok leaf); Drawn bytes; Asked (Some h) second]
        (answer_result second accepted leaf h (newPaymentIdentifier bytes)).

Lemma sign_history {W} (c : DelegatedPaymentConfig W) accepted s :
  ∃ log, (sign_and_present (logged c) accepted s).2.2 = (s.2 ++ log)%list
    ∧ signed_history c accepted log (sign_and_present (logged c) accepted s).1.
Proof.
  destruct s as [w l]. unfold sign_and_present. cbn [provider logged]. unfold record. cbn [fst snd].
  destruct (provider c accepted w) as [[leaf|e] w1]; [|by eexists; split; [|constructor]].
  cbn [cf_manager logged]. destruct (leaf_ok (cf_manager c) leaf) eqn:Hleaf;
    [|by eexists; split; [|by constructor]].
  cbn [negb]. unfold present_payment. cbn [getRandomValues logged fst snd].
  destruct (getRandomValues c w1) as [bytes w2]. fold (payload_of accepted leaf (newPaymentIdentifier bytes)).
  destruct (encodePaymentHeader _) as [h|e] eqn:Hh.
  - cbn [fetchImpl logged]. unfold record. cbn [fst snd].
    pose proof (h_presented c accepted leaf bytes h (fetchImpl c (Some h) w2).1 Hleaf Hh) as Hp.
    destruct (fetchImpl c (Some h) w2) as [[second|e] w3]; cbn [fst snd answer_result] in *;
      [destruct (http_ok second)|]; cbn [negb snd fst] in *; eexists; (split; [by rewrite <- !app_assoc|exact Hp]).
  - eexists. split; [cbn [snd]; by rewrite <- app_assoc|]. by econstructor.
Qed.

Lemma pay_history {W} (c : DelegatedPaymentConfig W) w :
  history c (payForDelegatedResource (logged c) (w, [])).2.2 (payForDelegatedResource (logged c) (w, [])).1.
Proof.
  unfold payForDelegatedResource. cbn [fetchImpl logged]. unfold record. cbn [fst snd app].
  destruct (fetchImpl c None w) as [[first|e] w1]; [|constructor].
  cbn [trustedFacilitators cf_manager logged].
  destruct (select_offer_of _ _ first) as [[accepted|r]|e] eqn:Hs; [|by constructor..].
  unfold check_and_sign. cbn [cf_preflight logged].
  destruct (cf_preflight c) as [p|] eqn:Hp.
  - unfold record. cbn [fst snd]. destruct (p accepted w1) as [[[|code detail]|e] w2].
    + destruct (sign_history c accepted (w2, ([Asked None (Ok first)] ++ [Checked accepted (Ok Clear)])%list))
        as (log & -> & Hl). eapply h_selected; [done|]. by apply h_clear.
    + eapply h_selected; [done|]. apply h_stopped.
    + eapply h_selected; [done|]. apply h_check_failed.
  - destruct (sign_history c accepted (w1, [Asked None (Ok first)])) as (log & -> & Hl).
    eapply h_selected; [done|]. by apply h_unchecked.
Qed.

(** Watching changes nothing. *)
Lemma sign_logged {W} (c : DelegatedPaymentConfig W) accepted w l :
  let '(r, (w', _)) := sign_and_present (logged c) accepted (w, l) in
  sign_and_present c accepted w = (r, w').
Proof.
  unfold sign_and_present. cbn [provider logged]. unfold record. cbn [fst snd].
  destruct (provider c accepted w) as [[leaf|e] w1]; [|done]. cbn [cf_manager logged].
  destruct (leaf_ok (cf_manager c) leaf); [|done]. cbn [negb]. unfold present_payment.
  cbn [getRandomValues logged fst snd]. destruct (getRandomValues c w1) as [bytes w2].
  destruct (encodePaymentHeader _); [|done]. cbn [fetchImpl logged]. unfold record. cbn [fst snd].
  destruct (fetchImpl c _ w2) as [[second|e] w3]; [|done]. by destruct (http_ok second).
Qed.

Lemma pay_logged {W} (c : DelegatedPaymentConfig W) w :
  let '(r, (w', _)) := payForDelegatedResource (logged c) (w, []) in
  payForDelegatedResource c w = (r, w').
Proof.
  unfold payForDelegatedResource. cbn [fetchImpl logged]. unfold record. cbn [fst snd].
  destruct (fetchImpl c None w) as [[first|e] w1]; [|done]. cbn [trustedFacilitators cf_manager logged].
  destruct (select_offer_of _ _ first) as [[accepted|r]|e]; [|done..].
  unfold check_and_sign. cbn [cf_preflight logged].
  destruct (cf_preflight c) as [p|]; [|apply sign_logged].
  unfold record. cbn [fst snd]. destruct (p accepted w1) as [[[|code detail]|e] w2]; [apply sign_logged|done..].
Qed.

Definition log_of {W} (c : DelegatedPaymentConfig W) (w : W) : list Event :=
  (payForDelegatedResource (logged c) (w, [])).2.2.
Definition outcome_of {W} (c : DelegatedPaymentConfig W) (w : W) : result DelegatedPaymentResult :=
  (payForDelegatedResource c w).1.

Lemma call_history {W} (c : DelegatedPaymentConfig W) w : history c (log_of c w) (outcome_of c w).
Proof.
  pose proof (pay_history c w) as Hh. pose proof (pay_logged c w) as Hl. unfold log_of, outcome_of.
  destruct (payForDelegatedResource (logged c) (w, [])) as [r [w' log]]. rewrite Hl. exact Hh.
Qed.

(** *** What was presented *)
Definition header_of (e : Event) : option string := match e with Asked p _ => p | _ => None end.
Definition presented (log : list Event) : list string := omap header_of log.
Definition identifier_of (r : DelegatedPaymentResult) : option string :=
  match r with
  | Delivered _ _ _ _ _ id => Some id
  | Refused _ _ _ id _ => id
  end.
(** Failures of a payment that was never presented, and of one that was. *)
Definition before_header : list DelegatedPaymentFailureCode :=
  [NOT_PAYMENT_REQUIRED; UNSUPPORTED_X402_VERSION; SELLER_OFFER_INVALID; FACILITATOR_UNTRUSTED;
   MANAGER_MISMATCH; LIMIT_EXCEEDED; SPEND_POLICY_REFUSED; PERMISSION_INACTIVE; PERMISSION_EMPTY;
   SIGNING_FAILED; TRANSPORT_ERROR].
Definition after_header : list DelegatedPaymentFailureCode :=
  [SETTLEMENT_UNKNOWN; SELLER_UNAVAILABLE; PAYMENT_REJECTED; MALFORMED_RESOURCE].
Definition fails_with (codes : list DelegatedPaymentFailureCode) (r : DelegatedPaymentResult) : Prop :=
  match r with Delivered _ _ _ _ _ _ => True | Refused code _ _ _ _ => code ∈ codes end.
Definition refused (r : DelegatedPaymentResult) : Prop :=
  match r with Delivered _ _ _ _ _ _ => False | Refused _ _ _ _ _ => True end.

Lemma selection_code trusted manager l : ∀ rail code detail,
  (∀ v, rail = Some v → ∃ code d, v = NoOffer code d ∧ code ∈ before_header) →
  select_from trusted manager rail l = Ok (inr (Some (NoOffer code detail))) → code ∈ before_header.
Proof.
  induction l as [|x l IH]; intros rail code detail Hrail; cbn [select_from].
  - intros [= Hr]. destruct (Hrail _ Hr) as (? & ? & [= -> ->] & Hin). done.
  - intros (v & Hv & Hk)%rbind_ok. destruct v as [a|code' d]; [done|]. eapply IH; [|exact Hk].
    intros v Hsome. destruct rail as [v'|]; [by apply Hrail|].
    destruct (isExactErc7710OnGiwa x); [|done]. injection Hsome as <-. do 2 eexists. split; [done|].
    unfold judgeOffer in Hv. destruct (assertErc7710Offer x) as [o|e]; [|injection Hv as <- _; set_solver].
    destruct (overlap _ _); cbn [negb] in Hv; [|injection Hv as <- _; set_solver].
    destruct (prop _ "delegationManager"); try done; apply rbind_ok in Hv as (a & _ & Ha);
      (destruct (negb _); [injection Ha as <- _; set_solver|done]).
Qed.

Lemma no_offer_result trusted manager first r :
  select_offer_of trusted manager first = Ok (inr r) →
  refused r ∧ identifier_of r = None ∧ fails_with before_header r.
Proof.
  unfold select_offer_of. destruct (http_status first =? 402); cbn [negb]; [|intros [= <-]; by repeat split; set_solver].
  destruct (offer_body first) as [body|e]; [|intros [= <-]; by repeat split; set_solver].
  destruct (is_object body); cbn [negb]; [|intros [= <-]; by repeat split; set_solver].
  destruct (strict_eq _ _); cbn [negb]; [|intros [= <-]; by repeat split; set_solver].
  intros (v & Hv & Hk)%rbind_ok. destruct v as [a|code detail]; [done|]. injection Hk as <-.
  split_and!; [done..|]. unfold selectOffer in Hv. cbn [fails_with].
  destruct (prop body "accepts") as [| | | | | | |[|x l]|]; try (injection Hv as <- _; set_solver).
  apply rbind_ok in Hv as ([a|[v|]] & Hs & Hv); [done| |injection Hv as <- _; set_solver].
  injection Hv as ->. by eapply selection_code; [|exact Hs].
Qed.

Lemma preflight_code_before code : preflight_code code ∈ before_header.
Proof. unfold preflight_code. repeat case_match; set_solver. Qed.

Lemma answer_identified second accepted leaf h id r :
  answer_result second accepted leaf h id = Ok r →
  identifier_of r = Some id ∧ fails_with after_header r.
Proof.
  unfold answer_result. destruct second as [second|e]; [|intros [= <-]; split; [done|set_solver]].
  destruct (http_ok second); cbn [negb].
  - unfold delivered_result. intros (ct & _ & Hk)%rbind_ok.
    match type of Hk with match ?b with _ => _ end = _ => destruct b as [resource|e] end;
      [|injection Hk as <-; split; [done|set_solver]].
    apply rbind_ok in Hk as (clean & _ & [= <-]). done.
  - intros [= <-]. split; [done|]. unfold refusal_result. cbn [fails_with].
    destruct (classify _ _); set_solver.
Qed.

(** What a history that signed for [offer] says about its result. *)
Definition identified {W} (c : DelegatedPaymentConfig W) (offer : jsval) (log : list Event)
    (o : result DelegatedPaymentResult) : Prop :=
  match o with
  | Ok r =>
      match identifier_of r with
      | None => presented log = [] ∧ refused r ∧ fails_with before_header r
      | Some id =>
          fails_with after_header r
          ∧ ∃ leaf bytes h,
              presented log = [h] ∧ Signed offer (Ok leaf) ∈ log ∧ Drawn bytes ∈ log
              ∧ id = newPaymentIdentifier bytes ∧ leaf_ok (cf_manager c) leaf = true
              ∧ encodePaymentHeader (payload_of offer leaf id) = Ok h
      end
  | Throw _ => (length (presented log) <= 1)%nat
  end.

Lemma signed_identified {W} (c : DelegatedPaymentConfig W) offer log o :
  signed_history c offer log o → identified c offer log o.
Proof.
  intros [a e|a leaf Hleaf|a leaf bytes e Hleaf He|a leaf bytes h second Hleaf Hh'];
    [by repeat split; set_solver|by repeat split; set_solver|cbn; lia|].
  unfold identified. destruct (answer_result _ _ _ _ _) as [r|e] eqn:Hr; [|cbn; lia].
  destruct (answer_identified _ _ _ _ _ _ Hr) as [-> Hf]. split; [done|].
  exists leaf, bytes, h. split_and!; [done|set_solver|set_solver|done..].
Qed.

(** Every history is identified for the offer it signed. *)
Lemma history_identified {W} (c : DelegatedPaymentConfig W) log o :
  history c log o → ∃ offer, identified c offer log o.
Proof.
  intros [e|first e Hs|first r Hs|first accepted log' r Hs Hc].
  - exists JNull. by repeat split; set_solver.
  - exists JNull. cbn. lia.
  - exists JNull. destruct (no_offer_result _ _ _ _ Hs) as (Hr & Hi & Hf).
    unfold identified. rewrite Hi. by split_and!.
  - exists accepted. assert (Hsg : ∀ pre log'' o, presented pre = [] → signed_history c accepted log'' o →
      identified c accepted (pre ++ log'')%list o).
    { intros pre log'' q Hpre Hq%signed_identified. unfold identified, presented in *.
      rewrite omap_app, Hpre. destruct q as [q|e]; [|exact Hq].
      destruct (identifier_of q); [|exact Hq].
      destruct Hq as (Hf & leaf & bytes & h & Hp & Hl & Hb & Hrest). split; [done|].
      exists leaf, bytes, h. split_and!; [exact Hp|set_solver|set_solver|apply Hrest..]. }
    destruct Hc as [a log' r _ Hq|a e|a code detail|a log' r Hq].
    + by apply (Hsg [Asked None (Ok first)]).
    + by repeat split; set_solver.
    + by repeat split; apply preflight_code_before.
    + by apply (Hsg [Asked None (Ok first); Checked a (Ok Clear)]).
Qed.

(** A payment identifier in a result means that this payment was presented, and only
    that. When the call returns, either no payment header left the process, the result
    carries no identifier and is a failure of the codes that come before the header; or
    exactly one header left, it encodes the payload of a leaf that was signed for the
    selected offer with the identifier of the result, freshly drawn, and a failure is one
    of the codes that come after. When the call throws, at most one header left. *)
Theorem presented_iff_identified {W} (c : DelegatedPaymentConfig W) w :
  match outcome_of c w with
  | Ok r =>
      match identifier_of r with
      | None => presented (log_of c w) = [] ∧ refused r ∧ fails_with before_header r
      | Some id =>
          fails_with after_header r
          ∧ ∃ offer leaf bytes h,
              presented (log_of c w) = [h] ∧ Signed offer (Ok leaf) ∈ log_of c w
              ∧ Drawn bytes ∈ log_of c w ∧ id = newPaymentIdentifier bytes
              ∧ leaf_ok (cf_manager c) leaf = true
              ∧ encodePaymentHeader (payload_of offer leaf id) = Ok h
      end
  | Throw _ => (length (presented (log_of c w)) <= 1)%nat
  end.
Proof.
  destruct (history_identified _ _ _ (call_history c w)) as [offer Hid]. unfold identified in Hid.
  destruct (outcome_of c w) as [r|e]; [|exact Hid]. destruct (identifier_of r) as [id|]; [|exact Hid].
  destruct Hid as (Hf & leaf & bytes & h & Hid). split; [done|]. by exists offer, leaf, bytes, h.
Qed.

(** *** What was signed *)

(** An offer this agent pays, field by field. *)
Record payable (trusted : list string) (manager : string) (offer : jsval) : Prop := {
  on_rail : isExactErc7710OnGiwa offer = true;
  right_asset : is_addr (prop offer "asset") = true
                ∧ getAddress (text_of (prop offer "asset")) = MOCK_USDC_address;
  real_payee : is_addr (prop offer "payTo") = true
               ∧ getAddress (text_of (prop offer "payTo")) ≠ zeroAddress;
  positive_amount : positive_text (to_text (prop offer "amount")) = true;
  payable_flow : bad_flow (prop (prop offer "extra") "paymentFlow") = false;
  bounded_timeout : ∃ z, prop offer "maxTimeoutSeconds" = JNum z ∧ 1 <= z <= 300;
  trusted_redeemer : ∃ l f, prop (prop offer "extra") "facilitatorAddresses" = JArr l ∧ f ∈ l
                     ∧ is_addr f = true ∧ getAddress (text_of f) ∈ trusted;
  same_manager : prop (prop offer "extra") "delegationManager" = JUndefined
                 ∨ is_addr (prop (prop offer "extra") "delegationManager") = true
                   ∧ getAddress (text_of (prop (prop offer "extra") "delegationManager")) = getAddress manager;
}.

Lemma overlap_ok trusted facilitators :
  overlap trusted (elements_of (or_empty facilitators)) = true ↔
  ∃ l f, facilitators = JArr l ∧ f ∈ l ∧ is_addr f = true ∧ getAddress (text_of f) ∈ trusted.
Proof.
  unfold overlap. rewrite existsb_exists. split.
  - intros (t & Ht & (f & Hf & Hft)%existsb_exists).
    apply andb_true_iff in Hft as [Ha <-%String.eqb_eq].
    destruct facilitators as [| | | | | | |l|]; try done. exists l, f. rewrite !list_elem_of_In. naive_solver.
  - intros (l & f & -> & Hf & Ha & Ht). exists (getAddress (text_of f)). rewrite <- list_elem_of_In.
    split; [done|]. apply existsb_exists. exists f. rewrite <- list_elem_of_In. split; [done|].
    by rewrite Ha, String.eqb_refl.
Qed.

Lemma assert_offer_ok v o : assertErc7710Offer v = Ok o ↔
  o = v ∧ isExactErc7710OnGiwa v = true
  ∧ (is_addr (prop v "asset") = true ∧ getAddress (text_of (prop v "asset")) = MOCK_USDC_address)
  ∧ (is_addr (prop v "payTo") = true ∧ getAddress (text_of (prop v "payTo")) ≠ zeroAddress)
  ∧ positive_text (to_text (prop v "amount")) = true
  ∧ bad_flow (prop (prop v "extra") "paymentFlow") = false
  ∧ bad_timeout (prop v "maxTimeoutSeconds") = false
  ∧ (nullish (prop (prop v "extra") "facilitatorAddresses") = true
     ∨ is_list (prop (prop v "extra") "facilitatorAddresses") = true)
  ∧ (nullish (prop (prop v "extra") "delegationManager") = true
     ∨ is_addr (prop (prop v "extra") "delegationManager") = true).
Proof.
  unfold assertErc7710Offer. rewrite !throws_ok.
  rewrite !orb_false_iff, !andb_false_iff, !negb_false_iff, String.eqb_eq, String.eqb_neq.
  split; [intros; destruct_and?; simplify_eq; by split_and!|naive_solver].
Qed.

(** The judgement accepts exactly the payable offers. *)
Lemma judge_accepts trusted manager v a :
  judgeOffer trusted manager v = Ok (Accepted a) ↔ a = v ∧ payable trusted manager v.
Proof.
  unfold judgeOffer. destruct (assertErc7710Offer v) as [o|e] eqn:Ho.
  - apply assert_offer_ok in Ho as (-> & Hrail & Hasset & Hpay & Ham & Hflow & Htime & Hfac & Hman).
    assert (Htime' : ∃ z, prop v "maxTimeoutSeconds" = JNum z ∧ 1 <= z <= 300).
    { destruct (prop v "maxTimeoutSeconds"); try done. eexists. split; [done|].
      simpl in Htime. apply orb_false_iff in Htime. lia. }
    destruct (overlap _ _) eqn:Hov; cbn [negb].
    + apply overlap_ok in Hov.
      assert (Hpayable : (prop (prop v "extra") "delegationManager" = JUndefined
                 ∨ is_addr (prop (prop v "extra") "delegationManager") = true
                   ∧ getAddress (text_of (prop (prop v "extra") "delegationManager")) = getAddress manager)
        ↔ payable trusted manager v).
      { split; [intros Hm; by constructor|by intros [? ? ? ? ? ? ? Hm]]. }
      rewrite <- Hpayable. unfold checked_getAddress.
      destruct (prop (prop v "extra") "delegationManager") as [| |b|z|b|z|s|l|l];
        cbn [is_addr throw_when negb rbind]; [naive_solver| | | | | | | |];
        try (split; [done|]; intros (_ & [?|[? ?]]); done).
      cbn [text_of]. destruct (isAddress s) eqn:Hs; cbn [negb throw_when rbind];
        [|split; [done|]; intros (_ & [?|[? ?]]); done].
      destruct (String.eqb_spec (getAddress s) (getAddress manager)); cbn [negb]; naive_solver.
    + split; [done|]. intros (_ & [? ? ? ? ? ? Hred ?]). apply overlap_ok in Hred. congruence.
  - split; [done|]. intros (_ & [? ? ? ? ? (z & Hz & Hb) (l & f & Hl & _) Hm]). exfalso.
    assert (Hok : assertErc7710Offer v = Ok v); [|congruence].
    apply assert_offer_ok. split; [done|]. split; [done|]. do 2 (split; [done|]). do 2 (split; [done|]).
    split_and!.
    + rewrite Hz. simpl. apply orb_false_iff. lia.
    + rewrite Hl. by right.
    + destruct Hm as [->|[? _]]; [by left|by right].
Qed.

Lemma select_first trusted manager l : ∀ rail a,
  select_from trusted manager rail l = Ok (inl a) →
  ∃ pre post, l = (pre ++ a :: post)%list ∧ payable trusted manager a
    ∧ Forall (λ x, ¬ payable trusted manager x) pre.
Proof.
  induction l as [|x l IH]; intros rail a; cbn [select_from]; [done|].
  intros (v & Hv & Hk)%rbind_ok. destruct v as [o|code detail].
  - injection Hk as ->. apply judge_accepts in Hv as [-> Hp]. exists [], l. by split_and!.
  - destruct (IH _ _ Hk) as (pre & post & -> & Hp & Hpre). exists (x :: pre), post.
    split_and!; [done|done|]. constructor; [|done]. intros Hx.
    assert (Hacc : judgeOffer trusted manager x = Ok (Accepted x)) by (by apply judge_accepts). congruence.
Qed.

Lemma rail_refuses trusted manager a l : ∀ rail,
  rail ≠ Some (Accepted a) → select_from trusted manager rail l ≠ Ok (inr (Some (Accepted a))).
Proof.
  induction l as [|x l IH]; intros rail Hrail; cbn [select_from]; [congruence|].
  destruct (judgeOffer trusted manager x) as [[o'|code d]|e]; cbn [rbind]; [done| |done].
  apply IH. destruct rail; [done|]. by destruct (isExactErc7710OnGiwa x).
Qed.

Lemma selected_offer trusted manager first a :
  select_offer_of trusted manager first = Ok (inl a) →
  http_status first = 402 ∧ ∃ body pre post, offer_body first = Ok body
    ∧ prop body "x402Version" = JNum X402_VERSION
    ∧ prop body "accepts" = JArr (pre ++ a :: post) ∧ payable trusted manager a
    ∧ Forall (λ x, ¬ payable trusted manager x) pre.
Proof.
  unfold select_offer_of. destruct (Z.eqb_spec (http_status first) 402) as [H402|]; cbn [negb]; [|done].
  destruct (offer_body first) as [body|e]; [|done].
  destruct (is_object body); cbn [negb]; [|done].
  destruct (strict_eq _ _) eqn:Hver; cbn [negb]; [|done]. apply strict_eq_num in Hver.
  intros (v & Hv & Hk)%rbind_ok. destruct v as [o|code detail]; [|done]. injection Hk as ->.
  split; [done|]. unfold selectOffer in Hv.
  destruct (prop body "accepts") as [| | | | | | |l|] eqn:Hacc; try done.
  destruct l as [|x l]; [done|]. apply rbind_ok in Hv as (s & Hs & Hv).
  destruct s as [o|[v|]]; [injection Hv as ->| |done].
  - destruct (select_first _ _ _ _ _ Hs) as (pre & post & Heq & Hp & Hpre).
    exists body, pre, post. by rewrite <- Heq.
  - exfalso. injection Hv as ->. by apply rail_refuses in Hs.
Qed.

(** C8: An agent signs only what it can pay, and at most once. The only offer ever handed to
    the signer is the first payable candidate of the seller's list, in the seller's order,
    read from a 402 answer of this protocol version: on the rail, for the one token, to a
    payee that is not the zero address, for a positive amount, through a facilitator the
    agent trusts and under the verified manager when one is named; and if the agent has a
    pre-flight check, that check was asked about this very offer and cleared it before. *)
Theorem signs_only_payable {W} (c : DelegatedPaymentConfig W) w offer answer :
  Signed offer answer ∈ log_of c w →
  payable (trustedFacilitators c) (cf_manager c) offer
  ∧ (∃ first body pre post, Asked None (Ok first) ∈ log_of c w ∧ http_status first = 402
       ∧ offer_body first = Ok body ∧ prop body "x402Version" = JNum X402_VERSION
       ∧ prop body "accepts" = JArr (pre ++ offer :: post)
       ∧ Forall (λ x, ¬ payable (trustedFacilitators c) (cf_manager c) x) pre)
  ∧ (∃ before after, log_of c w = (before ++ Signed offer answer :: after)%list
       ∧ (∀ o a, Signed o a ∉ before ∧ Signed o a ∉ after)
       ∧ (is_Some (cf_preflight c) → Checked offer (Ok Clear) ∈ before)).
Proof.
  intros Hin. destruct (call_history c w) as [e|first e Hs|first r Hs|first accepted log r Hs Hc];
    try (exfalso; set_solver).
  assert (Hsg : ∃ pre log', log = (pre ++ Signed accepted answer :: log')%list
    ∧ offer = accepted ∧ (∀ o a, Signed o a ∉ pre ∧ Signed o a ∉ log')
    ∧ (is_Some (cf_preflight c) → Checked accepted (Ok Clear) ∈ pre)).
  { assert (Htail : ∀ log r, signed_history c accepted log r → Signed offer answer ∈ log →
      offer = accepted ∧ ∃ log', log = (Signed accepted answer :: log')%list ∧ ∀ o a, Signed o a ∉ log').
    { clear. intros log r [a e|a leaf Hleaf|a leaf bytes e Hleaf He|a leaf bytes h second Hleaf Hh'] Hin;
        (apply elem_of_cons in Hin as [[= -> ->]|Hin]; [|exfalso; set_solver]);
        (split; [done|]; eexists; split; [done|]; intros; set_solver). }
    apply elem_of_cons in Hin as [?|Hin]; [done|].
    destruct Hc as [a log r Hnone Hsg|a e|a code detail|a log r Hsg]; try (exfalso; set_solver).
    - destruct (Htail _ _ Hsg Hin) as (-> & log' & -> & Hn). exists [], log'.
      split_and!; [done|done| |intros Hsome; rewrite Hnone in Hsome; by destruct Hsome].
      intros o a0. split; [set_solver|apply Hn].
    - apply elem_of_cons in Hin as [?|Hin]; [done|].
      destruct (Htail _ _ Hsg Hin) as (-> & log' & -> & Hn). exists [Checked a (Ok Clear)], log'.
      split_and!; [done|done| |intros _; set_solver]. intros o a0. split; [set_solver|apply Hn]. }
  destruct Hsg as (pre & log' & -> & -> & Hone & Hclear).
  destruct (selected_offer _ _ _ _ Hs) as (H402 & body & xs & ys & Hb & Hver & Hacc & Hpay & Hpre).
  split_and!; [done| |].
  - exists first, body, xs, ys. split_and!; [set_solver|done..].
  - exists (Asked None (Ok first) :: pre), log'. split_and!; [done| |set_solver].
    intros o a. destruct (Hone o a). split; set_solver.
Qed.

(** *** What a failing answer means *)
Definition named_word (second : HttpResponse) : option string :=
  match decoded (header second PAYMENT_RESPONSE_HEADER) with
  | Some receipt => match prop receipt "errorReason" with JStr s => Some s | _ => None end
  | None => None
  end.
Definition named_hash (second : HttpResponse) : option string :=
  match decoded (header second PAYMENT_RESPONSE_HEADER) with
  | Some receipt => readTransaction (prop receipt "transaction")
  | None => None
  end.
Definition doubt_words : list string :=
  [SETTLEMENT_PENDING; UNEXPECTED_SETTLE_ERROR; PAYMENT_IDENTIFIER_SETTLED].
(** The answer leaves open whether money moved. *)
Definition in_doubt (second : result HttpResponse) : Prop :=
  match second with
  | Throw _ => True
  | Ok s => http_ok s = false
            ∧ (http_status s ∈ SETTLEMENT_UNKNOWN_STATUSES ∨ is_Some (named_hash s)
               ∨ ∃ word, named_word s = Some word ∧ word ∈ doubt_words)
  end.
Definition code_of (r : DelegatedPaymentResult) : option DelegatedPaymentFailureCode :=
  match r with Delivered _ _ _ _ _ _ => None | Refused code _ _ _ _ => Some code end.
Definition hash_of (r : DelegatedPaymentResult) : option string :=
  match r with Delivered _ _ t _ _ _ => t | Refused _ _ _ _ t => t end.

Lemma in_statuses_iff l s : in_statuses l s = true ↔ s ∈ l.
Proof.
  unfold in_statuses. rewrite existsb_exists. setoid_rewrite Z.eqb_eq. setoid_rewrite <- list_elem_of_In. naive_solver.
Qed.

Lemma refusal_words_distinct : NoDup (refusal_entries.*1).
Proof. by apply (bool_decide_unpack _). Qed.

Lemma doubt_word w : SELLER_REFUSAL_CODES !! w = Some R_SETTLEMENT_UNKNOWN ↔ w ∈ doubt_words.
Proof.
  unfold SELLER_REFUSAL_CODES. rewrite <- elem_of_list_to_map by apply refusal_words_distinct.
  unfold doubt_words, refusal_entries. cbn [map X402_REFUSAL_WORDS app]. rewrite !elem_of_cons, !elem_of_nil.
  naive_solver.
Qed.

Lemma refusal_fields s :
  let r := readSellerRefusal (header s PAYMENT_RESPONSE_HEADER) in
  dr_transaction r = named_hash s
  ∧ dr_code r = match named_word s with Some w => SELLER_REFUSAL_CODES !! w | None => None end.
Proof.
  unfold readSellerRefusal, named_hash, named_word. destruct (decoded _) as [receipt|]; [|done].
  cbn [dr_transaction dr_code]. split; [done|]. by destruct (prop receipt "errorReason").
Qed.

Lemma classify_unknown s r :
  classify s r = R_SETTLEMENT_UNKNOWN ↔
  s ∈ SETTLEMENT_UNKNOWN_STATUSES ∨ is_Some (dr_transaction r) ∨ dr_code r = Some R_SETTLEMENT_UNKNOWN.
Proof.
  assert (Hs : byStatus s = R_SETTLEMENT_UNKNOWN ↔ s ∈ SETTLEMENT_UNKNOWN_STATUSES).
  { rewrite <- in_statuses_iff. unfold byStatus. by repeat case_match. }
  unfold classify. rewrite <- Hs. case_bool_decide as H1; cbn [orb]; [tauto|].
  case_bool_decide as H2; [tauto|]. destruct (dr_code r) as [code|]; cbn [default from_option id]; naive_solver.
Qed.

Lemma refusal_code second id :
  http_ok second = false →
  (code_of (refusal_result second id) = Some SETTLEMENT_UNKNOWN ↔ in_doubt (Ok second))
  ∧ hash_of (refusal_result second id) = named_hash second.
Proof.
  intros Hok. destruct (refusal_fields second) as [Ht Hc]. unfold refusal_result. cbn [code_of hash_of].
  set (r := readSellerRefusal _) in *.
  assert (Hin : classify (http_status second) r = R_SETTLEMENT_UNKNOWN ↔ in_doubt (Ok second)).
  { rewrite classify_unknown, Ht, Hc. cbn [in_doubt].
    assert (Hw : match named_word second with Some w => SELLER_REFUSAL_CODES !! w | None => None end
        = Some R_SETTLEMENT_UNKNOWN ↔ ∃ w, named_word second = Some w ∧ w ∈ doubt_words).
    { destruct (named_word second) as [w|]; [rewrite doubt_word|]; naive_solver. }
    rewrite Hw. tauto. }
  split.
  - rewrite <- Hin. destruct (classify _ _); cbn [failure_code]; split; congruence.
  - destruct (classify _ _) eqn:Hk; [done| |]; symmetry; rewrite <- Ht;
      apply eq_None_not_Some; intros Hs;
      (assert (Hu : classify (http_status second) r = R_SETTLEMENT_UNKNOWN)
        by (apply classify_unknown; tauto)); congruence.
Qed.

Lemma presented_outcome {W} (c : DelegatedPaymentConfig W) w h second :
  Asked (Some h) second ∈ log_of c w →
  ∃ offer leaf id, outcome_of c w = answer_result second offer leaf h id
    ∧ utf8_valid (chars id) = true
    ∧ encodePaymentHeader (payload_of offer leaf id) = Ok h
    ∧ leaf_ok (cf_manager c) leaf = true ∧ payable (trustedFacilitators c) (cf_manager c) offer
    ∧ Signed offer (Ok leaf) ∈ log_of c w.
Proof.
  intros Hin. destruct (call_history c w) as [e|first e Hs|first r Hs|first accepted log r Hs Hc];
    try (exfalso; set_solver).
  destruct (selected_offer _ _ _ _ Hs) as (_ & body & xs & ys & _ & _ & _ & Hpay & _).
  assert (Hsg : ∀ log r, signed_history c accepted log r → Asked (Some h) second ∈ log →
    ∃ leaf id, r = answer_result second accepted leaf h id
      ∧ utf8_valid (chars id) = true
      ∧ encodePaymentHeader (payload_of accepted leaf id) = Ok h
      ∧ leaf_ok (cf_manager c) leaf = true ∧ Signed accepted (Ok leaf) ∈ log).
  { clear. intros log r [a e|a leaf Hleaf|a leaf bytes e Hleaf He|a leaf bytes h' second' Hleaf Hh'] Hin;
      try (exfalso; set_solver).
    assert (Heq : h' = h ∧ second' = second) by set_solver. destruct Heq as [-> ->].
    exists leaf, (newPaymentIdentifier bytes). split_and!; [done|apply minted_utf8|done|done|set_solver]. }
  apply elem_of_cons in Hin as [?|Hin]; [done|].
  destruct Hc as [a log r _ Hsig|a e|a code detail|a log r Hsig]; try (exfalso; set_solver).
  - destruct (Hsg _ _ Hsig Hin) as (leaf & id & ? & ? & ? & ? & ?). exists a, leaf, id. set_solver.
  - apply elem_of_cons in Hin as [?|Hin]; [done|].
    destruct (Hsg _ _ Hsig Hin) as (leaf & id & ? & ? & ? & ? & ?). exists a, leaf, id. set_solver.
Qed.

Lemma answer_doubt second offer leaf h id r :
  answer_result second offer leaf h id = Ok r →
  (code_of r = Some SETTLEMENT_UNKNOWN ↔ in_doubt second)
  ∧ (∀ s, second = Ok s → http_ok s = false → hash_of r = named_hash s).
Proof.
  unfold answer_result. intros Hr. destruct second as [s|e].
  - destruct (http_ok s) eqn:Hok; cbn [negb] in Hr.
    + split; [|intros s' [= <-]; congruence]. split; [|intros [? _]; congruence]. intros Hc. exfalso.
      unfold delivered_result in Hr. apply rbind_ok in Hr as (ct & _ & Hk).
      match type of Hk with match ?b with _ => _ end = _ => destruct b as [resource|e] end;
        [apply rbind_ok in Hk as (clean & _ & [= <-])|injection Hk as <-]; done.
    + injection Hr as <-. destruct (refusal_code s id Hok) as [H1 H2]. split; [done|].
      by intros s' [= <-] _.
  - injection Hr as <-. split; [done|]. by intros s.
Qed.


(** *** What comes back *)
Fixpoint total_length (l : list text) : nat :=
  match l with [] => O | t :: l' => (length t + total_length l')%nat end.
Lemma join_length l : (total_length l <= length (join_text l))%nat.
Proof.
  induction l as [|t l IH]; [done|]. cbn [total_length join_text].
  destruct l as [|t' l]; [cbn; lia|]. rewrite length_app. cbn [length]. lia.
Qed.

Lemma member_length k t (parts : list (option text)) :
  option_map (λ t, quote k ++ ":"%char :: t)%list (Some t) ∈ parts →
  (length (quote k) + length t < length (join_text (omap id parts)))%nat.
Proof.
  intros Hin%omap_id_elem. pose proof (join_length (omap id parts)) as Hj.
  enough (length (quote k ++ ":"%char :: t) <= total_length (omap id parts))%nat
    by (rewrite length_app in *; simpl in *; lia).
  clear Hj. induction (omap id parts) as [|x l IH]; [by apply elem_of_nil in Hin|].
  cbn [total_length]. apply elem_of_cons in Hin as [->|Hin]; [lia|]. specialize (IH Hin). lia.
Qed.

Lemma object_length fields t :
  stringify (JObj fields) = Ok (Some t) → keys_ok (map fst fields) = true →
  ∀ k v tv, (k, v) ∈ fields → stringify v = Ok (Some tv) → (length (quote k) + length tv + 2 < length t)%nat.
Proof.
  intros Ht Hk k v tv Hin Htv. cbn [stringify] in Ht. apply rbind_ok in Ht as (parts & Hp & [= <-]).
  rewrite own_entries_ok in Hp by (by rewrite map_map). apply map_result_ok in Hp.
  assert (He : (k, stringify v) ∈ map (λ e, (e.1, stringify e.2)) fields).
  { apply list_elem_of_In. by apply (in_map (λ e, (e.1, stringify e.2)) fields (k, v)), list_elem_of_In. }
  apply list_elem_of_lookup in He as [i He].
  destruct (Forall2_lookup_l _ _ _ _ _ Hp He) as (y & Hy & Hxy). cbn [fst snd] in Hxy.
  rewrite Htv in Hxy. cbn [rbind] in Hxy. injection Hxy as <-.
  apply list_elem_of_lookup_2, member_length in Hy. cbn [length]. rewrite length_app. cbn [length]. lia.
Qed.

Lemma btoa_length l : (length l <= length (btoa l))%nat.
Proof.
  unfold btoa. rewrite length_app, length_map.
  enough (length l <= length (sextets l))%nat by lia.
  induction l as [|a|a b|a b c l IH] using triples; cbn [sextets length]; lia.
Qed.

(** A payment header is long enough to be looked for. *)
Lemma header_long offer leaf pid h :
  utf8_valid (chars pid) = true → encodePaymentHeader (payload_of offer leaf pid) = Ok h → 32 <= slen h.
Proof.
  intros Hid. unfold encodePaymentHeader, encodeBase64Json. intros (o & Ho & [= <-])%rbind_ok.
  rewrite slen_chars, header_text.
  destruct o as [t|]; [|cbn [payload_of identified_payload buildErc7710PaymentPayload stringify] in Ho;
    by apply rbind_ok in Ho as (? & _ & ?)].
  pose proof (btoa_length t). change (default [] (Some t)) with t.
  enough (32 < length t)%nat by lia.
  set (echo := JObj [(PAYMENT_IDENTIFIER_EXTENSION, buildPaymentIdentifierEcho pid)]).
  assert (Hecho : json_ok echo = true).
  { unfold echo, buildPaymentIdentifierEcho. cbn [json_ok map fst snd forallb]. rewrite Hid.
    vm_compute. reflexivity. }
  assert (Hlen : (34 < length (quote "extensions") + length (print echo) + 2)%nat).
  { unfold echo. simpl. rewrite !length_app. simpl. lia. }
  pose proof (object_length _ t Ho eq_refl "extensions" echo (print echo)) as Hobj.
  assert (Hin : ("extensions", echo) ∈ [("x402Version", JNum X402_VERSION); ("accepted", offer);
         ("payload", JObj [("delegationManager", JStr (getAddress (lf_manager leaf)));
                           ("permissionContext", JStr (lf_context leaf));
                           ("delegator", JStr (getAddress (lf_delegator leaf)))]); ("extensions", echo)]) by set_solver.
  specialize (Hobj Hin (stringify_print _ Hecho)). lia.
Qed.

(** No bearer value comes back with a paid resource. When the call delivers a resource,
    a leaf was signed for it, and no text and no key in the resource contains the payment
    header that was sent, nor the permission context of the leaf in any case of its
    digits, however the seller's document hides them: for every seller, and for a context
    written in the hex or base64 alphabet. *)
Theorem resource_holds_no_bearer {W} (c : DelegatedPaymentConfig W) w
    h second amount payTo transaction contentType resource pid :
  outcome_of c w = Ok (Delivered amount payTo transaction contentType resource pid) →
  Asked (Some h) (Ok second) ∈ log_of c w →
  (∀ v, json_body second = Ok v → own_document v) →
  (∀ offer leaf, Signed offer (Ok leaf) ∈ log_of c w → forallb secret_char (chars (lf_context leaf)) = true) →
  ∃ offer leaf, Signed offer (Ok leaf) ∈ log_of c w ∧
    ∀ s, s ∈ strings_of resource →
      ¬ infix (chars h) (chars s)
      ∧ (32 <= slen (lf_context leaf) → ∀ v, spelling (lf_context leaf) v → ¬ infix v (chars s)).
Proof.
  intros Ho Hin Hown Hctx.
  destruct (presented_outcome _ _ _ _ Hin) as (offer & leaf & id & Hout & Hid & Henc & _ & _ & Hsig).
  exists offer, leaf. split; [done|]. specialize (Hctx _ _ Hsig).
  pose proof (header_long _ _ _ _ Hid Henc) as Hlong. pose proof (header_chars _ _ Henc) as Hchars.
  rewrite Hout in Ho. cbn [answer_result] in Ho. destruct (http_ok second); cbn [negb] in Ho; [|done].
  unfold delivered_result in Ho. apply rbind_ok in Ho as (ct & _ & Hk).
  match type of Hk with match ?b with _ => _ end = _ => destruct b as [body|e] eqn:Hbody end; [|done].
  apply rbind_ok in Hk as (clean & Hclean & Hk). injection Hk as _ _ _ _ <- _.
  assert (Hdoc : own_document body).
  { destruct ct as [t|]; [destruct (isJsonMediaType t); [by apply Hown|]|];
      by apply rbind_ok in Hbody as (s & _ & [= <-]). }
  assert (Hgone : ∀ secret v s, secret ∈ [lf_context leaf; h] → 32 <= slen secret → spelling secret v →
    s ∈ strings_of clean → ¬ infix v (chars s)).
  { intros secret v s Hsec Hlen Hsp Hs. eapply no_bearer_in_result; [exact Hdoc| |exact Hclean|done..].
    repeat (apply Forall_cons_2; [done|]). apply Forall_nil_2. }
  intros s Hs. split.
  - intros Hi. destruct (spelling_of h) as (v & Hv & Hvh).
    apply (Hgone h v s); [set_solver|done..|]. by eapply infix_trans.
  - intros Hlen v Hv. apply (Hgone (lf_context leaf)); [set_solver|done..].
Qed.

(** *** Where the call throws *)

(** An advertised manager of [null] makes the call throw. The check of an offer lets a
    [null] manager pass, as it does a missing one, but the judgement then reads it with
    [getAddress] outside of its [try]: with such an offer first in the list, on the rail
    and through a trusted facilitator, the whole call throws an address error to its
    caller instead of returning a reason, before any payment. *)
Theorem null_manager_throws {W} (c : DelegatedPaymentConfig W) w w1 first body offer rest :
  fetchImpl c None w = (Ok first, w1) → http_status first = 402 → offer_body first = Ok body →
  prop body "x402Version" = JNum X402_VERSION → prop body "accepts" = JArr (offer :: rest) →
  assertErc7710Offer offer = Ok offer →
  overlap (trustedFacilitators c)
    (elements_of (or_empty (prop (prop offer "extra") "facilitatorAddresses"))) = true →
  prop (prop offer "extra") "delegationManager" = JNull →
  outcome_of c w = Throw (JsError "InvalidAddressError" "Address is invalid.")
  ∧ presented (log_of c w) = [].
Proof.
  intros Hf H402 Hb Hver Hacc Ha Hov Hnull.
  assert (Hsel : select_offer_of (trustedFacilitators c) (cf_manager c) first
    = Throw (JsError "InvalidAddressError" "Address is invalid.")).
  { unfold select_offer_of. rewrite H402, Hb. cbn [Z.eqb Pos.eqb negb].
    assert (Hobj : is_object body = true) by (by destruct body). rewrite Hobj, Hver, Hacc. cbn [negb].
    unfold selectOffer. cbn [select_from]. unfold judgeOffer. rewrite Ha, Hov, Hnull. done. }
  split.
  - unfold outcome_of, payForDelegatedResource. by rewrite Hf, Hsel.
  - unfold log_of, payForDelegatedResource. cbn [fetchImpl logged]. unfold record. cbn [fst snd].
    rewrite Hf. cbn [trustedFacilitators cf_manager logged]. by rewrite Hsel.
Qed.
End client.

(** ** The two ends of a payment agree *)
Section agreement.
Context `{T : Toolkit} `{!ToolkitLaws T}.

(** The body a seller posts to the facilitator for a payment of its own offer. *)
Definition facilitator_request (offer payload : jsval) : jsval :=
  JObj [("x402Version", JNum X402_VERSION); ("paymentPayload", payload); ("paymentRequirements", offer)].

Lemma sameAddress_refl v : is_addr v = true → sameAddress v v = true.
Proof. intros Hv. unfold sameAddress. by rewrite Hv, String.eqb_refl. Qed.

Lemma same_offer_refl trusted manager v :
  payable trusted manager v → (∃ s, prop v "amount" = JStr s) →
  (∀ l f, prop (prop v "extra") "facilitatorAddresses" = JArr l → f ∈ l → is_addr f = true) →
  sameRequirement v v = true.
Proof.
  intros [Hrail [Ha _] [Hp _] _ Hflow (z & Hz & _) (l & f & Hl & _) Hm] (s & Hs) Hall.
  unfold isExactErc7710OnGiwa in Hrail. rewrite !andb_true_iff in Hrail.
  destruct Hrail as [[[_ Hsch%is_str_true] Hnet%is_str_true] Htr%is_str_true].
  unfold sameRequirement. rewrite Hsch, Hnet, Htr, Hs, Hz, !sameAddress_refl by done.
  cbn [strict_eq]. rewrite !String.eqb_refl, Z.eqb_refl. cbn [andb].
  assert (Hf : strict_eq (prop (prop v "extra") "paymentFlow") (prop (prop v "extra") "paymentFlow") = true).
  { destruct (prop (prop v "extra") "paymentFlow"); try done. simpl. apply String.eqb_refl. }
  assert (Hman : sameOptionalManager (prop (prop v "extra") "delegationManager")
                   (prop (prop v "extra") "delegationManager") = true).
  { destruct Hm as [->|[Hm _]]; [done|]. unfold sameOptionalManager.
    destruct (prop (prop v "extra") "delegationManager"); try done; by apply sameAddress_refl. }
  rewrite Hf, Hman, Hl. cbn [andb]. unfold sameAddressList. cbn [or_empty].
  rewrite Nat.eqb_refl. cbn [negb]. specialize (Hall l). rewrite Hl in Hall.
  assert (Hl' : ∀ f, f ∈ l → is_addr f = true) by (intros; by apply Hall). clear - Hl' ToolkitLaws0.
  induction l as [|x l IH]; [done|]. cbn [every2]. rewrite sameAddress_refl by (apply Hl'; by left).
  apply IH. intros y Hy. apply Hl'. by right.
Qed.

Lemma positive_amount_text s : positive_text s = true →
  UINT_STRING s = true ∧ 0 < BigInt s.
Proof.
  unfold positive_text, UINT_STRING. destruct (chars s) as [|c l] eqn:Hs; [done|].
  intros [Hc Hl]%andb_true_iff.
  assert (Hd : is_digit c = true ∧ Ascii.eqb c "0" = false ∧ 1 <= code c - 48).
  { clear - Hc. destruct c as [[][][][][][][][]]; try discriminate Hc; repeat split; vm_compute; congruence. }
  destruct Hd as (Hd & Hz & H1). split.
  - cbn [forallb]. rewrite Hd, Hz, Hl. apply orb_true_r.
  - rewrite <- (string_chars s), Hs, BigInt_digits by (try done; cbn [forallb]; by rewrite Hd).
    change (c :: l) with ([c] ++ l)%list. rewrite dec_number_app.
    pose proof (dec_number_bounds l Hl). unfold dec_number at 1. cbn [foldl].
    assert (0 < 10 ^ Z.of_nat (length l)) by (apply Z.pow_pos_nonneg; lia). nia.
Qed.

End agreement.

(** ** A purchase *)
Definition ex_seller_body (offers : list jsval) : jsval :=
  JObj [("x402Version", JNum 2); ("accepts", JArr offers)].
Definition ex_eip3009 : jsval :=
  buildPaymentRequirements "0x00000000000000000000000000000000000000de" 1500000 None.
Definition ok_or {A} (d : A) (r : result A) : A := match r with Ok a => a | Throw _ => d end.
Definition ex_first (offers : list jsval) : HttpResponse :=
  {| http_status := 402;
     header := λ k, if String.eqb k PAYMENT_REQUIRED_HEADER
                    then Some (ok_or "" (encodePaymentRequiredHeader (ex_seller_body offers))) else None;
     json_body := Throw syntax_error; text_body := Ok "" |}.
(** A seller that answers the payment with a status, a receipt and an echo of its header. *)
Definition ex_second (status : Z) (receipt : list (string * jsval)) (h : string) : HttpResponse :=
  {| http_status := status;
     header := λ k, if String.eqb k PAYMENT_RESPONSE_HEADER
                    then Some (ok_or "" (encodePaymentResponseHeader (JObj receipt)))
                    else if String.eqb k "content-type" then Some "application/json; charset=utf-8"
                    else None;
     json_body := Ok (JObj [("echo", JStr h)]); text_body := Ok h |}.
Definition ex_leaf : Leaf :=
  {| lf_manager := ex_manager; lf_context := ex_context; lf_delegator := ex_delegator |}.
Definition ex_client (offers : list jsval) (second : string → HttpResponse) : DelegatedPaymentConfig unit :=
  {| provider := λ _ w, (Ok ex_leaf, w); cf_manager := ex_manager;
     trustedFacilitators := ["0x00000000000000000000000000000000000000ff"];
     cf_preflight := Some (λ _ w, (Ok Clear, w));
     fetchImpl := λ h w, (Ok (match h with None => ex_first offers | Some h => second h end), w);
     getRandomValues := λ w, (ex_bytes, w) |}.

Definition ex_no_origin (s : string) : option string := None.
Definition ex_shop : list jsval := [ex_eip3009; ex_wire_offer].
Definition ex_payment_header : string :=
  ok_or "" (encodePaymentHeader (payload_of ex_wire_offer ex_leaf (newPaymentIdentifier ex_bytes))).
Definition ex_paid := ex_client ex_shop (ex_second 200 []).
(** A seller that calls it a refused delegation but names a transaction. *)
Definition ex_hash : string := test_hash "settled".
Definition ex_refusing := ex_client ex_shop
  (ex_second 402 [("success", JBool false); ("errorReason", JStr DELEGATION_REJECTED); ("transaction", JStr ex_hash)]).
Definition ex_null_offer : jsval := JObj
  [("scheme", JStr "exact"); ("network", JStr GIWA_SEPOLIA_CAIP2); ("amount", JStr "1500000");
   ("asset", JStr MOCK_USDC_address); ("payTo", JStr "0x00000000000000000000000000000000000000de");
   ("maxTimeoutSeconds", JNum 60);
   ("extra", JObj [("assetTransferMethod", JStr "erc7710"); ("delegationManager", JNull);
                   ("facilitatorAddresses", JArr [JStr "0x00000000000000000000000000000000000000ff"])])].
Definition ex_null := ex_client [ex_null_offer] (ex_second 200 []).

Lemma ex_paid_log : log_of ex_no_origin ex_paid tt =
  [Asked None (Ok (ex_first ex_shop)); Checked ex_wire_offer (Ok Clear); Signed ex_wire_offer (Ok ex_leaf);
   Drawn ex_bytes; Asked (Some ex_payment_header) (Ok (ex_second 200 [] ex_payment_header))].
Proof. vm_compute. reflexivity. Qed.

Lemma signs_only_payable_witness :
  Signed ex_wire_offer (Ok ex_leaf) ∈ log_of ex_no_origin ex_paid tt
  ∧ payable (trustedFacilitators ex_paid) ex_manager ex_wire_offer.
Proof.
  assert (Hin : Signed ex_wire_offer (Ok ex_leaf) ∈ log_of ex_no_origin ex_paid tt)
    by (rewrite ex_paid_log; right; right; left).
  split; [exact Hin|]. exact (proj1 (signs_only_payable ex_no_origin ex_paid tt _ _ Hin)).
Defined.


Lemma resource_holds_no_bearer_witness :
  ∃ resource, outcome_of ex_no_origin ex_paid tt
      = Ok (Delivered (JStr "1500000") "0x00000000000000000000000000000000000000de" None
              (Some "application/json") resource (newPaymentIdentifier ex_bytes))
    ∧ strings_of resource = ["echo"; BEARER_REDACTION]
    ∧ ¬ infix (chars ex_payment_header) (chars BEARER_REDACTION).
Proof.
  exists (JObj [("echo", JStr BEARER_REDACTION)]).
  assert (Ho : outcome_of ex_no_origin ex_paid tt
      = Ok (Delivered (JStr "1500000") "0x00000000000000000000000000000000000000de" None
              (Some "application/json") (JObj [("echo", JStr BEARER_REDACTION)]) (newPaymentIdentifier ex_bytes)))
    by (vm_compute; reflexivity).
  split; [exact Ho|]. split; [reflexivity|].
  assert (Hin : Asked (Some ex_payment_header) (Ok (ex_second 200 [] ex_payment_header))
    ∈ log_of ex_no_origin ex_paid tt)
    by (rewrite ex_paid_log; right; right; right; right; left).
  destruct (resource_holds_no_bearer ex_no_origin ex_paid tt ex_payment_header
    (ex_second 200 [] ex_payment_header) _ _ _ _ _ _ Ho Hin) as (offer & leaf & _ & Hall).
  - intros v Hv. injection Hv as <-. cbn. split; [apply NoDup_singleton|split; constructor].
  - intros offer leaf Hsig. assert (Hleaf : leaf = ex_leaf).
    { rewrite ex_paid_log in Hsig.
      apply elem_of_cons in Hsig as [Hsig|Hsig]; [discriminate Hsig|].
      apply elem_of_cons in Hsig as [Hsig|Hsig]; [discriminate Hsig|].
      apply elem_of_cons in Hsig as [Hsig|Hsig].
      { exact (f_equal (λ e, match e with Signed _ (Ok l) => l | _ => leaf end) Hsig). }
      apply elem_of_cons in Hsig as [Hsig|Hsig]; [discriminate Hsig|].
      apply elem_of_cons in Hsig as [Hsig|Hsig]; [discriminate Hsig|].
      apply elem_of_nil in Hsig. destruct Hsig. }
    rewrite Hleaf. vm_compute. reflexivity.
  - exact (proj1 (Hall BEARER_REDACTION ltac:(right; left))).
Defined.

Lemma null_manager_throws_witness :
  assertErc7710Offer ex_null_offer = Ok ex_null_offer
  ∧ outcome_of ex_no_origin ex_null tt = Throw (JsError "InvalidAddressError" "Address is invalid.").
Proof.
  split; [vm_compute; reflexivity|].
  exact (proj1 (null_manager_throws ex_no_origin ex_null tt tt (ex_first [ex_null_offer])
    (ex_seller_body [ex_null_offer]) ex_null_offer [] eq_refl eq_refl ltac:(vm_compute; reflexivity)
    eq_refl eq_refl ltac:(vm_compute; reflexivity) ltac:(vm_compute; reflexivity) eq_refl)).
Defined.

Definition ex_small_leaf : Leaf :=
  {| lf_manager := ex_manager; lf_context := "0x01"; lf_delegator := ex_delegator |}.
