(* ===== verification/Runner.v ===== *)
(** * The payment scheduler service

    [apps/payment-scheduler/scheduler.ts] and the tick of [index.ts]: [tick] claims every
    due job of the table ([Scheduler]), executes it and records the outcome;
    [paymentExecutor] pays with the payment client ([PaymentClient]) under the job's own
    conditions.  The machine around them is any world [W] that holds the table, a clock, a
    network and a random source; other processes may change the table at any of these
    steps. *)

From Stdlib Require Import ZArith Lia Ascii String.
From stdpp Require Import base gmap strings list.
From S2P Require Import Prelude Token Json Toolkit Bootstrap Contract X402 Status Gate Codec.
From S2P Require Import Redact Errors PaymentClient Scheduler.
Open Scope string_scope.
Open Scope Z_scope.

(** ** What the service runs on *)
Record Machine (W URL : Type) := {
  db : W → ScheduleDb; set_db : ScheduleDb → W → W;
  clock : W → Z * W;
  fetch : URL → option string → meth W HttpResponse;
  random : W → list Z * W;
  new_URL : string → URL → result URL;
  url_origin_of : URL → string;
}.
Arguments db {W URL}. Arguments set_db {W URL}. Arguments clock {W URL}. Arguments fetch {W URL}.
Arguments random {W URL}. Arguments new_URL {W URL}. Arguments url_origin_of {W URL}.

(** The part of [DelegatedAgentRuntime] the executor uses. *)
Record Runtime (W URL : Type) := {
  sellerUrl : URL; rt_manager : string; rt_trusted : list string;
  rt_preflight : option (jsval → meth W PreflightVerdict);
  rt_provider : jsval → meth W Leaf;
}.
Arguments sellerUrl {W URL}. Arguments rt_manager {W URL}. Arguments rt_trusted {W URL}.
Arguments rt_preflight {W URL}. Arguments rt_provider {W URL}.

(** ** The executor *)

(** The code as the union spells it. *)
Definition failure_name (c : DelegatedPaymentFailureCode) : string :=
  match c with
  | NOT_PAYMENT_REQUIRED => "NOT_PAYMENT_REQUIRED"
  | UNSUPPORTED_X402_VERSION => "UNSUPPORTED_X402_VERSION"
  | SELLER_OFFER_INVALID => "SELLER_OFFER_INVALID"
  | FACILITATOR_UNTRUSTED => "FACILITATOR_UNTRUSTED"
  | MANAGER_MISMATCH => "MANAGER_MISMATCH"
  | LIMIT_EXCEEDED => "LIMIT_EXCEEDED"
  | SPEND_POLICY_REFUSED => "SPEND_POLICY_REFUSED"
  | PERMISSION_INACTIVE => "PERMISSION_INACTIVE"
  | PERMISSION_EMPTY => "PERMISSION_EMPTY"
  | SIGNING_FAILED => "SIGNING_FAILED"
  | PAYMENT_REJECTED => "PAYMENT_REJECTED"
  | SELLER_UNAVAILABLE => "SELLER_UNAVAILABLE"
  | SETTLEMENT_UNKNOWN => "SETTLEMENT_UNKNOWN"
  | MALFORMED_RESOURCE => "MALFORMED_RESOURCE"
  | TRANSPORT_ERROR => "TRANSPORT_ERROR"
  end.

Definition PRE_HEADER_FAILURES : list DelegatedPaymentFailureCode :=
  [NOT_PAYMENT_REQUIRED; UNSUPPORTED_X402_VERSION; SELLER_OFFER_INVALID; FACILITATOR_UNTRUSTED;
   MANAGER_MISMATCH; SPEND_POLICY_REFUSED; LIMIT_EXCEEDED; PERMISSION_INACTIVE; PERMISSION_EMPTY;
   SIGNING_FAILED].

(** [BigInt(v)]: a whole Number as it is, a boolean as 0 or 1, anything else through its
    text: digits with an optional sign, or digits of radix 16, 8 or 2 behind their prefix. *)
Definition digit_value (c : ascii) : Z :=
  if is_digit c then code c - 48
  else if in_range "a" "f" c then code c - 87
  else if in_range "A" "F" c then code c - 55 else 99.
Definition radix_value (radix : Z) (l : text) : option Z :=
  match l with
  | [] => None
  | _ => if forallb (λ c, digit_value c <? radix) l
         then Some (fold_left (λ n c, n * radix + digit_value c) l 0) else None
  end.
Definition StringToBigInt (s : string) : option Z :=
  match chars (trim s) with
  | [] => Some 0
  | "0"%char :: c :: l =>
      if Ascii.eqb (lower_char c) "x" then radix_value 16 l
      else if Ascii.eqb (lower_char c) "o" then radix_value 8 l
      else if Ascii.eqb (lower_char c) "b" then radix_value 2 l
      else radix_value 10 (c :: l)
  | "-"%char :: l => Z.opp <$> radix_value 10 l
  | "+"%char :: l => radix_value 10 l
  | l => radix_value 10 l
  end.
Definition to_bigint (v : jsval) : result Z :=
  match v with
  | JNum z | JBig z => Ok z
  | JBool b => Ok (if b then 1 else 0)
  | JFloat _ => Throw (JsError "RangeError" "Not an integer")
  | JUndefined | JNull => Throw (TypeError "Invalid argument type in ToBigInt operation")
  | _ => match StringToBigInt (to_text v) with
         | Some z => Ok z
         | None => Throw (JsError "SyntaxError" "Failed to parse String to BigInt")
         end
  end.

Section service.
Context `{Toolkit} {W URL : Type}.
Variable url_origin : string → option string.
Variable machine : Machine W URL.
Variable runtime : Runtime W URL.

(** [agent-runtime.ts]: a path that stays on the seller's origin. *)
Definition resolveResourceTarget (seller : URL) (path : string) : result URL :=
  throws negb (String.prefix "/" path) || String.prefix "//" path
         || existsb (Ascii.eqb "\") (chars path)
    with Error "resource must be an absolute path on the seller origin";
  let? target := new_URL machine path seller in
  throws negb (String.eqb (url_origin_of machine target) (url_origin_of machine seller))
    with Error "resource escaped the seller origin";
  Ok target.

(** [store.get(job.id)?.status !== "cancelled" && now() < job.endsAt]; the clock is not
    read for a cancelled job. *)
Definition allowed (job : ScheduledJob) : W → bool * W := λ w,
  if match payment_jobs (db machine w) !! id (sched job) with
     | Some j => bool_decide (status j = cancelled)
     | None => false
     end
  then (false, w)
  else let '(t, w) := clock machine w in (t <? endsAt (sched job), w).

(** The two conditions on the offer, in the order they are tried. *)
Definition offer_refused (job : ScheduledJob) (offer : jsval) : result bool :=
  match prop offer "payTo" with
  | JStr p =>
      if negb (String.eqb (toLowerCase p) (toLowerCase (payTo (sched job)))) then Ok true
      else let? amount := to_bigint (prop offer "amount") in
           Ok (maxAmountBase (sched job) <? amount)
  | _ => Throw (TypeError "offer.payTo.toLowerCase is not a function")
  end.

(** The signer behind the job's conditions; the flag is [policyDenied]. *)
Definition job_provider (job : ScheduledJob) (offer : jsval) : meth (W * bool) Leaf := λ s,
  let '(w, denied) := s in
  let '(ok, w) := allowed job w in
  if negb ok then (Throw (Error "schedule condition refused"), (w, true))
  else match offer_refused job offer with
  | Throw e => (Throw e, (w, denied))
  | Ok true => (Throw (Error "schedule condition refused"), (w, true))
  | Ok false =>
      match rt_provider runtime offer w with
      | (Throw e, w) => (Throw e, (w, denied))
      | (Ok signed, w) =>
          let '(ok, w) := allowed job w in
          if ok then (Ok signed, (w, denied))
          else (Throw (Error "schedule cancelled or expired while signing"), (w, true))
      end
  end.

Definition lifted {A} (m : meth W A) : meth (W * bool) A := λ s,
  let '(r, w) := m s.1 in (r, (w, s.2)).

Definition executor_config (target : URL) (job : ScheduledJob) : DelegatedPaymentConfig (W * bool) :=
  {| provider := job_provider job;
     cf_manager := rt_manager runtime; trustedFacilitators := rt_trusted runtime;
     cf_preflight := match rt_preflight runtime with
                     | Some p => Some (λ offer, lifted (p offer))
                     | None => None
                     end;
     fetchImpl := λ header, lifted (fetch machine target header);
     getRandomValues := λ s, let '(b, w) := random machine s.1 in (b, (w, s.2)) |}.

(** The payment's result as an outcome of the run. *)
Definition scheduled_result (r : DelegatedPaymentResult) (policyDenied : bool) : result ScheduledResult :=
  match r with
  | Delivered amount _ transaction _ _ _ => let? a := to_bigint amount in Ok (Paid a transaction)
  | Refused code _ _ _ _ =>
      Ok (if policyDenied then Unpaid "POLICY_DENIED" false
          else if bool_decide (code = TRANSPORT_ERROR) || bool_decide (code = SELLER_UNAVAILABLE)
          then Unpaid (failure_name code) true
          else if bool_decide (code ∈ PRE_HEADER_FAILURES) then Unpaid (failure_name code) false
          else Unknown (failure_name code))
  end.

Definition paymentExecutor (job : ScheduledJob) : meth W ScheduledResult := λ w,
  match resolveResourceTarget (sellerUrl runtime) (resourcePath (sched job)) with
  | Throw e => (Throw e, w)
  | Ok target =>
      let '(r, (w, policyDenied)) :=
        payForDelegatedResource url_origin (executor_config target job) (w, false) in
      (let? result := r in scheduled_result result policyDenied, w)
  end.

(** [index.ts]: once a signal came, the jobs of the tick are not executed any more. *)
Definition until_stopped (running : W → bool) (execute : ScheduledJob → meth W ScheduledResult)
    (job : ScheduledJob) : meth W ScheduledResult := λ w,
  if running w then execute job w else (Ok (Unpaid "STOPPED" false), w).

(** ** The tick *)
Definition on_store {A} (t : tx ScheduleDb A) : meth W A := λ w,
  match t (db machine w) with
  | Ok (a, s) => (Ok a, set_db machine s w)
  | Throw e => (Throw e, w)
  end.
Definition now : meth W Z := λ w, let '(t, w) := clock machine w in (Ok t, w).
(** [try {result = await execute(job);} catch {...}] *)
Definition or_interrupted (m : meth W ScheduledResult) : meth W ScheduledResult := λ w,
  match m w with (Ok r, w) => (Ok r, w) | (Throw _, w) => (Ok (Unknown "EXECUTION_INTERRUPTED"), w) end.

Definition run_job (execute : ScheduledJob → meth W ScheduledResult) (job : ScheduledJob) : meth W Z :=
  do! t := now in
  do! claimed := on_store (claim (id (sched job)) t) in
  match claimed with
  | None => meth_ret 0
  | Some (job, run) =>
      do! result := or_interrupted (execute job) in
      do! t := now in
      do! _ := on_store (finish (run_id run) result t) in
      meth_ret 1
  end.
Fixpoint run_jobs (execute : ScheduledJob → meth W ScheduledResult) (count : Z) (jobs : list ScheduledJob)
    : meth W Z :=
  match jobs with
  | [] => meth_ret count
  | job :: jobs => do! k := run_job execute job in run_jobs execute (count + k) jobs
  end.
Definition tick (execute : ScheduledJob → meth W ScheduledResult) : meth W Z := λ w,
  run_jobs execute 0 (list_jobs (db machine w)) w.
(** ** What a payment does to the world *)

(** Whatever every effect of the client keeps, the call keeps. *)
Lemma pay_keeps {V} (c : DelegatedPaymentConfig V) (R : V → V → Prop) `{!PreOrder R} :
  (∀ h v, R v (fetchImpl c h v).2) → (∀ o v, R v (provider c o v).2) →
  (∀ p o v, cf_preflight c = Some p → R v (p o v).2) → (∀ v, R v (getRandomValues c v).2) →
  ∀ v, R v (payForDelegatedResource url_origin c v).2.
Proof.
  intros Hf Hs Hp Hr v.
  assert (Hsign : ∀ a v, R v (sign_and_present url_origin c a v).2).
  { clear v. intros a v. unfold sign_and_present. pose proof (Hs a v) as H1.
    destruct (provider c a v) as [[leaf|e] v1]; [|done]. destruct (leaf_ok _ _); [|done].
    cbn [negb snd] in *. unfold present_payment. pose proof (Hr v1) as H2.
    destruct (getRandomValues c v1) as [bytes v2]. destruct (encodePaymentHeader _) as [h|e]; cbn [snd] in *;
      [|by etrans]. pose proof (Hf (Some h) v2) as H3.
    destruct (fetchImpl c (Some h) v2) as [[second|e] v3]; cbn [snd] in *; [|by do 2 etrans].
    destruct (http_ok second); by do 2 etrans. }
  unfold payForDelegatedResource. pose proof (Hf None v) as H1.
  destruct (fetchImpl c None v) as [[first|e] v1]; [|done]. cbn [snd] in *.
  destruct (select_offer_of _ _ _ _) as [[a|r]|e]; [|done..].
  unfold check_and_sign. destruct (cf_preflight c) as [p|] eqn:Hc; [|by etrans].
  pose proof (Hp p a v1 eq_refl) as H2. destruct (p a v1) as [[[|code d]|e] v2]; cbn [snd] in *; by do 2 etrans.
Qed.

(** A leaf in the log is one the signer returned. *)
Lemma signed_from {V} (c : DelegatedPaymentConfig V) o a v :
  Signed o a ∈ log_of url_origin c v → ∃ v1, (provider c o v1).1 = a.
Proof.
  set (grounded := λ s : V * list Event, ∀ o a, Signed o a ∈ s.2 → ∃ v1, (provider c o v1).1 = a).
  assert (Hkeep : grounded (payForDelegatedResource url_origin (logged c) (v, [])).2).
  { assert (PreOrder (λ s s', grounded s → grounded s')) by (split; [by intros s|by intros ???; auto]).
    refine (pay_keeps (logged c) (λ s s', grounded s → grounded s') _ _ _ _ (v, []) _); cbn [fetchImpl provider cf_preflight getRandomValues logged].
    - intros h [w l] Hg o' a'. unfold record. destruct (fetchImpl c h _) as [r w']. cbn. set_solver.
    - intros q [w l] Hg o' a'. unfold record. cbn. destruct (provider c q w) as [r w'] eqn:Hq. cbn.
      rewrite elem_of_app, list_elem_of_singleton. intros [Hin|[= -> ->]]; [by apply Hg|].
      exists w. by rewrite Hq.
    - intros p q [w l]. destruct (cf_preflight c) as [p'|]; [|done]. intros [= <-] Hg o' a'.
      unfold record. destruct (p' q _) as [r w']. cbn. set_solver.
    - intros [w l] Hg o' a'. cbn. destruct (getRandomValues c w) as [b w']. cbn. set_solver.
    - intros o' a' ?%not_elem_of_nil. done. }
  apply Hkeep.
Qed.

Lemma failed_signature {V} (c : DelegatedPaymentConfig V) log r o e :
  history url_origin c log r → Signed o (Throw e) ∈ log → presented log = [].
Proof.
  assert (Hs : ∀ a log r, signed_history url_origin c a log r → Signed o (Throw e) ∈ log → presented log = []).
  { intros a log' r' [] Hin; try done. exfalso. set_solver. }
  intros [e'|first e' H1|first r' H1|first a log' r' H1 [a' log'' r'' _ Hq|a' e'|a' code d|a' log'' r'' Hq]] Hin;
    try done; apply (Hs _ _ _ Hq); set_solver.
Qed.
(** An amount whose text is a positive decimal is a positive amount. *)
Lemma radix_positive l n : forallb is_digit l = true → 0 < n →
  0 < fold_left (λ n c, n * 10 + digit_value c) l n.
Proof.
  revert n. induction l as [|c l IH]; intros n; [done|]. cbn [forallb fold_left].
  intros [Hc Hl]%andb_true_iff Hn. apply IH; [done|]. unfold digit_value. rewrite Hc.
  unfold is_digit, in_range in Hc. apply andb_true_iff in Hc as [Hc _]. apply Z.leb_le in Hc.
  change (code "0"%char) with 48 in Hc. lia.
Qed.

Lemma trim_all_digits s : chars s ≠ [] → forallb is_digit (chars s) = true → trim s = s.
Proof.
  intros Hne Hd.
  assert (H2 : drop_space (rev (chars s)) = rev (chars s)).
  { destruct (rev (chars s)) as [|c l] eqn:Hr; [done|]. apply drop_space_digit.
    rewrite forallb_forall in Hd. apply Hd, in_rev. rewrite Hr. by left. }
  assert (H1 : drop_space (chars s) = chars s).
  { destruct (chars s) as [|c l]; [done|]. apply andb_true_iff in Hd as [Hc _]. by apply drop_space_digit. }
  unfold trim. rewrite H1, H2, rev_involutive. apply string_of_list_ascii_of_string.
Qed.

Lemma positive_StringToBigInt s a :
  positive_text s = true → StringToBigInt s = Some a → 0 < a.
Proof.
  unfold positive_text, StringToBigInt. intros Hp.
  destruct (chars s) as [|c l] eqn:Hs; [done|]. apply andb_true_iff in Hp as [Hc Hl].
  assert (Hcd : is_digit c = true) by (by destruct c as [[][][][][][][][]]).
  assert (Hv : 0 < digit_value c) by (by destruct c as [[][][][][][][][]]).
  rewrite trim_all_digits, Hs by (rewrite Hs; cbn [forallb]; by rewrite ?Hcd).
  assert (Hr : radix_value 10 (c :: l) = Some a → 0 < a).
  { unfold radix_value. case_match; [|done]. intros [= <-]. cbn [fold_left]. by apply radix_positive. }
  destruct c as [[] [] [] [] [] [] [] []]; try discriminate Hc; exact Hr.
Qed.

Lemma positive_show_Z z : positive_text (show_Z z) = true → 0 < z.
Proof. destruct z; [done|done|]. done. Qed.

Lemma positive_bigint v a : positive_text (to_text v) = true → to_bigint v = Ok a → 0 < a.
Proof.
  destruct v as [| |b|z|bits|z|s|l|l]; try done.
  - by destruct b.
  - intros Hp [= <-]. revert Hp. cbn [to_text]. unfold show_integer.
    destruct (Z.abs z <=? MAX_SAFE_INTEGER) eqn:Hz.
    + unfold chars. rewrite string_of_list_ascii_of_string. apply positive_show_Z.
    + apply Z.leb_gt in Hz. destruct (z <? 0) eqn:Hn; [done|]. unfold MAX_SAFE_INTEGER in Hz. lia.
  - intros Hp [= <-]. by apply positive_show_Z.
  - cbn [to_bigint to_text]. intros Hp. destruct (StringToBigInt s) as [z|] eqn:Hz; [|done]. intros [= <-].
    by eapply positive_StringToBigInt.
  - unfold to_bigint. intros Hp. destruct (StringToBigInt (to_text (JArr l))) as [z|] eqn:Hz; [|done].
    intros [= <-]. by eapply positive_StringToBigInt.
Qed.

(** *** The conditions of a job *)

(** The leaf was signed for the job's payee and at most its amount, while the job was
    neither cancelled nor over, before the signature and after it. *)
Record agreed (job : ScheduledJob) (offer : jsval) (leaf : Leaf) : Prop := {
  ag_payee : ∃ p, prop offer "payTo" = JStr p ∧ toLowerCase p = toLowerCase (payTo (sched job));
  ag_amount : ∃ a, to_bigint (prop offer "amount") = Ok a ∧ 0 < a <= maxAmountBase (sched job);
  ag_time : ∃ w0 w1 w2 w3, allowed job w0 = (true, w1)
    ∧ rt_provider runtime offer w1 = (Ok leaf, w2) ∧ allowed job w2 = (true, w3);
}.

Lemma provider_agreed job offer leaf s :
  payable (rt_trusted runtime) (rt_manager runtime) offer →
  (job_provider job offer s).1 = Ok leaf → agreed job offer leaf.
Proof.
  intros Hpay. destruct s as [w0 d]. unfold job_provider.
  destruct (allowed job w0) as [[|] w1] eqn:H0; [|done]. cbn [negb].
  destruct (offer_refused job offer) as [[|]|e] eqn:Hr; [done| |done].
  destruct (rt_provider runtime offer w1) as [[leaf'|e] w2] eqn:Hs; [|done].
  destruct (allowed job w2) as [[|] w3] eqn:H2; [|done]. intros [= ->].
  unfold offer_refused in Hr. destruct (prop offer "payTo") as [| | | | | |p| |] eqn:Hp; try done.
  destruct (String.eqb_spec (toLowerCase p) (toLowerCase (payTo (sched job)))) as [He|]; [|done].
  cbn [negb] in Hr. apply rbind_ok in Hr as (a & Ha & [= Hle%Z.ltb_ge]). split.
  - by exists p.
  - exists a. split; [done|]. split; [|done]. eapply positive_bigint; [|exact Ha]. apply Hpay.
  - by exists w0, w1, w2, w3.
Qed.

Lemma provider_denies job offer w d :
  (job_provider job offer (w, d)).2.2 = true →
  d = true ∨ ∃ e, (job_provider job offer (w, d)).1 = Throw e.
Proof.
  unfold job_provider. destruct (allowed job w) as [[] w1]; cbn [negb]; [|naive_solver].
  destruct (offer_refused job offer) as [[]|e]; [naive_solver| |naive_solver].
  destruct (rt_provider runtime offer w1) as [[leaf|e] w2]; [|naive_solver].
  destruct (allowed job w2) as [[] w3]; naive_solver.
Qed.

(** [policyDenied] is only ever set by a signature that failed. *)
Lemma denied_unsigned target job w :
  (payForDelegatedResource url_origin (executor_config target job) (w, false)).2.2 = true →
  presented (log_of url_origin (executor_config target job) (w, false)) = [].
Proof.
  set (c := executor_config target job).
  set (I := λ s : (W * bool) * list Event, s.1.2 = true → ∃ o e, Signed o (Throw e) ∈ s.2).
  assert (Hkeep : I (payForDelegatedResource url_origin (logged c) ((w, false), [])).2).
  { assert (PreOrder (λ s s', I s → I s')) by (split; [by intros s|by intros ???; auto]).
    refine (pay_keeps (logged c) (λ s s', I s → I s') _ _ _ _ ((w, false), []) _);
      cbn [fetchImpl provider cf_preflight getRandomValues logged].
    - intros h [[w1 d] l] Hg. unfold record, I in *. cbn in *. unfold lifted. cbn.
      destruct (fetch machine target h w1) as [r w']. cbn in *. intros Hd. destruct (Hg Hd) as (o & e & ?). set_solver.
    - intros q [[w1 d] l] Hg. unfold record, I in *. cbn [fst snd] in *.
      pose proof (provider_denies job q w1 d) as Hden. change (provider c q (w1, d)) with (job_provider job q (w1, d)).
      destruct (job_provider job q (w1, d)) as [r [w' d']]. cbn [fst snd] in *. intros Hd.
      destruct (Hden Hd) as [Ht|[e ->]]; [destruct (Hg Ht) as (o & e & ?); exists o, e|exists q, e]; set_solver.
    - intros p q [[w1 d] l]. subst c. cbn. destruct (rt_preflight runtime) as [p'|]; [|done]. intros [= <-] Hg.
      unfold record, I in *. cbn in *. unfold lifted. cbn.
      destruct (p' q w1) as [r w']. cbn in *. intros Hd. destruct (Hg Hd) as (o & e & ?). set_solver.
    - intros [[w1 d] l] Hg. unfold I in *. cbn in *. destruct (random machine w1) as [b w']. cbn in *.
      intros Hd. destruct (Hg Hd) as (o & e & ?). set_solver.
    - done. }
  intros Hd. pose proof (pay_logged url_origin c (w, false)) as Hl. unfold log_of.
  pose proof (call_history url_origin c (w, false)) as Hh. unfold log_of in Hh.
  destruct (payForDelegatedResource url_origin (logged c) ((w, false), [])) as [r [w' log]].
  rewrite Hl in Hd. destruct (Hkeep Hd) as (o & e & Hin). by eapply failed_signature.
Qed.
(** *** What the outcome of a run says *)
Lemma presented_asked log h : presented log = [h] → ∃ second, Asked (Some h) second ∈ log.
Proof.
  intros Hp. assert (Hin : h ∈ presented log) by (rewrite Hp; set_solver).
  unfold presented in Hin. apply list_elem_of_omap in Hin as ([q second| | |] & Hin & Hq); try done.
  cbn in Hq. subst q. by exists second.
Qed.

Lemma delivered_fields second accepted secrets delegator id amount payTo tx ct resource id' :
  delivered_result url_origin second accepted secrets delegator id
    = Ok (Delivered amount payTo tx ct resource id') → amount = prop accepted "amount".
Proof.
  unfold delivered_result. intros (ct' & _ & Hk)%rbind_ok.
  match type of Hk with match ?b with _ => _ end = _ => destruct b as [r|e] end; [|done].
  by apply rbind_ok in Hk as (clean & _ & [= <- _ _ _ _ _]).
Qed.

(** A call that presented a payment, in terms of the job. *)
Lemma presented_agreed target job w h :
  let c := executor_config target job in
  presented (log_of url_origin c (w, false)) = [h] →
  ∃ second offer leaf id, Asked (Some h) second ∈ log_of url_origin c (w, false)
    ∧ Signed offer (Ok leaf) ∈ log_of url_origin c (w, false) ∧ agreed job offer leaf
    ∧ encodePaymentHeader (payload_of offer leaf id) = Ok h
    ∧ PaymentClient.outcome_of url_origin c (w, false) = answer_result url_origin second offer leaf h id.
Proof.
  intros c Hp. destruct (presented_asked _ _ Hp) as [second Hin].
  destruct (presented_outcome _ _ _ _ _ Hin) as (offer & leaf & id & Ho & _ & Henc & _ & Hpay & Hsg).
  exists second, offer, leaf, id. split; [done|]. split; [done|]. split; [|by split].
  destruct (signed_from _ _ _ _ Hsg) as [v Hv]. eapply provider_agreed; [exact Hpay|exact Hv].
Qed.

Lemma delivered_hash second accepted secrets delegator id amount payTo h ct resource id' :
  delivered_result url_origin second accepted secrets delegator id
    = Ok (Delivered amount payTo (Some h) ct resource id') → re_0x is_hex 64 h = true.
Proof.
  unfold delivered_result. intros (ct' & _ & Hk)%rbind_ok.
  match type of Hk with match ?b with _ => _ end = _ => destruct b as [r|e] end; [|done].
  apply rbind_ok in Hk as (clean & _ & Hk). injection Hk as _ _ Htx _ _ _. revert Htx.
  unfold readSettlementReceipt, extractTransaction, readTransaction. intros Htx.
  repeat case_match; simplify_eq; done.
Qed.

Lemma delivered_agreed target job w amount payTo tx ct resource id :
  let c := executor_config target job in
  let log := log_of url_origin c (w, false) in
  PaymentClient.outcome_of url_origin c (w, false) = Ok (Delivered amount payTo tx ct resource id) →
  (∃ h s offer leaf, presented log = [h] ∧ Asked (Some h) (Ok s) ∈ log ∧ http_ok s = true
     ∧ Signed offer (Ok leaf) ∈ log ∧ agreed job offer leaf ∧ amount = prop offer "amount")
  ∧ ∀ h, tx = Some h → re_0x is_hex 64 h = true.
Proof.
  intros c log Ho. destruct (history_identified _ _ _ _ (call_history url_origin c (w, false))) as [offer0 Hid].
  unfold identified in Hid. rewrite Ho in Hid. cbn [identifier_of] in Hid. fold log in Hid.
  destruct Hid as (_ & _ & _ & h & Hp & _). destruct (presented_agreed _ _ _ _ Hp) as (second & offer & leaf & id' & Hin & Hsg & Hag & _ & Hans).
  fold c in Hans. rewrite Ho in Hans. unfold answer_result in Hans. symmetry in Hans.
  destruct second as [s|e]; [|done]. destruct (http_ok s) eqn:Hok; [|done]. cbn [negb] in Hans. split.
  - apply delivered_fields in Hans. by exists h, s, offer, leaf.
  - intros q ->. by eapply delivered_hash.
Qed.

(** What the scheduler records of a run is what happened to the money. When an execution
    returns, its outcome is unpaid exactly when nothing was presented to the seller, or the
    seller answered the payment with an unavailability that leaves no doubt; it is paid only
    when a payment was presented and answered with a success, and then the amount recorded is
    the amount of the signed offer, which goes to the job's payee and fits its cap; and in
    every other case a payment was presented and the outcome is unknown. Whatever was
    presented was signed under the job's conditions, while the job was neither cancelled nor
    over, before the signature and after it. *)
Theorem outcome_is_what_happened job w target res :
  resolveResourceTarget (sellerUrl runtime) (resourcePath (sched job)) = Ok target →
  (paymentExecutor job w).1 = Ok res →
  let log := log_of url_origin (executor_config target job) (w, false) in
  (∀ h, presented log = [h] → ∃ offer leaf id, Signed offer (Ok leaf) ∈ log ∧ agreed job offer leaf
     ∧ encodePaymentHeader (payload_of offer leaf id) = Ok h)
  ∧ match res with
    | Unpaid code retry =>
        presented log = []
        ∨ code = "SELLER_UNAVAILABLE" ∧ retry = true
          ∧ ∃ h second, presented log = [h] ∧ Asked (Some h) second ∈ log ∧ ¬ in_doubt second
    | Paid amount _ =>
        ∃ h s offer leaf, presented log = [h] ∧ Asked (Some h) (Ok s) ∈ log ∧ http_ok s = true
          ∧ Signed offer (Ok leaf) ∈ log ∧ agreed job offer leaf
          ∧ to_bigint (prop offer "amount") = Ok amount
    | Unknown _ => ∃ h, presented log = [h]
    end.
Proof.
  intros Htarget Hr log. split.
  { intros h Hp. destruct (presented_agreed _ _ _ _ Hp) as (second & offer & leaf & id & ? & ? & ? & ? & _).
    by exists offer, leaf, id. }
  unfold paymentExecutor in Hr. rewrite Htarget in Hr.
  pose proof (denied_unsigned target job w) as Hden.
  destruct (history_identified _ _ _ _ (call_history url_origin (executor_config target job) (w, false)))
    as [offer0 Hid]. fold log in Hid, Hden.
  assert (Hpres := presented_agreed target job w). assert (Hdel := delivered_agreed target job w).
  cbv zeta in Hpres, Hdel. fold log in Hpres, Hdel. unfold PaymentClient.outcome_of in Hid, Hpres, Hdel.
  destruct (payForDelegatedResource _ _ _) as [o [w' denied]]. cbn [fst snd] in *.
  apply rbind_ok in Hr as (r & -> & Hs). unfold identified in Hid.
  destruct (identifier_of r) as [id|] eqn:Hi.
  - destruct Hid as (Hf & leaf0 & bytes & h & Hp & _).
    assert (denied = false) as -> by (destruct denied; [rewrite Hden in Hp; done|done]).
    destruct (Hpres _ Hp) as (second & offer & leaf & id' & Hin & Hsg & Hag & _ & Ho). symmetry in Ho.
    destruct r as [amount payTo' tx ct resource i|code st detail i tx]; cbn [scheduled_result] in Hs.
    + apply rbind_ok in Hs as (a & Ha & [= <-]).
      destruct (Hdel _ _ _ _ _ _ eq_refl) as [(h' & s & o & l & ? & ? & ? & ? & ? & ->) _].
      by exists h', s, o, l.
    + injection Hs as <-. apply answer_doubt in Ho as [Ho _]. cbn [PaymentClient.code_of] in Ho.
      unfold fails_with, after_header in Hf. rewrite !elem_of_cons, elem_of_nil in Hf.
      destruct Hf as [->|[->|[->|[->|[]]]]]; cbn; try by exists h.
      right. split_and!; [done|done|]. exists h, second. split_and!; [done|done|]. intros Hd%Ho. done.
  - destruct Hid as (Hp & Href & Hf). destruct r as [|code st detail i tx]; [done|].
    cbn [scheduled_result] in Hs. injection Hs as <-. destruct denied; [by left|].
    unfold fails_with, before_header in Hf. rewrite !elem_of_cons, elem_of_nil in Hf.
    destruct_or! Hf; try done; subst code; by left.
Qed.
(** ** What a tick records *)

(** What other processes may do to the table meanwhile: anything, except close a run of
    the job at hand. *)
Definition others (k : string) (s s' : ScheduleDb) : Prop :=
  star schedule_step s s'
  ∧ ∀ r, r ∈ payment_runs s → jobId r = k → finished r = false → r ∈ payment_runs s'.
#[global] Instance others_preorder k : PreOrder (others k).
Proof.
  split; [by intros s; split; [apply star_refl|]|].
  intros s1 s2 s3 [H1 R1] [H2 R2]. split; [by eapply star_trans|auto].
Qed.

(** The table is one, the clock tells a time, and neither closes our runs. *)
Record sound_machine : Prop := {
  sm_set : ∀ s w, db machine (set_db machine s w) = s;
  sm_range : ∀ w, 0 <= (clock machine w).1 <= 8640000000000000;
  sm_clock : ∀ k w, others k (db machine w) (db machine (clock machine w).2);
  sm_fetch : ∀ k u h w, others k (db machine w) (db machine (fetch machine u h w).2);
  sm_random : ∀ k w, others k (db machine w) (db machine (random machine w).2);
  sm_preflight : ∀ k p o w, rt_preflight runtime = Some p → others k (db machine w) (db machine (p o w).2);
  sm_provider : ∀ k o w, others k (db machine w) (db machine (rt_provider runtime o w).2);
}.

Definition interrupted (r : result ScheduledResult) : ScheduledResult :=
  match r with Ok r => r | Throw _ => Unknown "EXECUTION_INTERRUPTED" end.

(** The one outcome of the executor that the table refuses: its code has digits. *)
Definition version_refused : ScheduledResult := Unpaid (failure_name UNSUPPORTED_X402_VERSION) false.

(** A job as the tick found it: the run it was given, if any, and how it ended. *)
Definition Visit : Type := option (ScheduledJob * ScheduledRun * ScheduledResult).
Definition recorded (o : Visit) : bool :=
  match o with Some (_, _, res) => CODE (code_of res) | None => true end.
Definition row_after (res : ScheduledResult) (run : ScheduledRun) : ScheduledRun :=
  if CODE (code_of res) then closed res run else run.

(** What a tick did with a job it found at [w], seen in a later table: nothing, for no run
    was to be claimed; or a run was claimed, executed and closed with the outcome. *)
Definition visited (execute : ScheduledJob → meth W ScheduledResult) (job : ScheduledJob) (w : W)
    (o : Visit) (later : ScheduleDb) : Prop :=
  let '(t, w1) := clock machine w in
  match o with
  | None => ∃ s, claim (id (sched job)) t (db machine w1) = Ok (None, s)
  | Some (job', run, res) =>
      ∃ s, claim (id (sched job)) t (db machine w1) = Ok (Some (job', run), s)
        ∧ res = interrupted (execute job' (set_db machine s w1)).1
        ∧ row_after res run ∈ payment_runs later
  end.

Lemma visited_later execute job w o s s' :
  schedule_ok s → star schedule_step s s' → recorded o = true →
  visited execute job w o s → visited execute job w o s'.
Proof.
  intros Hok Hs Hrec. unfold visited. destruct (clock machine w) as [t w1].
  destruct o as [[[job' run] res]|]; [|done]. intros (s1 & Hc & Hres & Hin). exists s1.
  split_and!; [done|done|]. revert Hin. unfold row_after. cbn [recorded] in Hrec. rewrite Hrec.
  intros Hin. by apply (steps_keep _ _ Hok Hs).
Qed.

(** An execution fit for a tick. *)
Record fit (execute : ScheduledJob → meth W ScheduledResult) : Prop := {
  fit_others : ∀ job w, others (id (sched job)) (db machine w) (db machine (execute job w).2);
  fit_outcome : ∀ job w res, (execute job w).1 = Ok res → recordable (sched job) res ∨ res = version_refused;
}.

Lemma finish_refuses s r j res now :
  schedule_ok s → r ∈ payment_runs s → finished r = false → payment_jobs s !! jobId r = Some j →
  CODE (code_of res) = false → 0 <= now <= 8640000000000000 →
  finish (run_id r) res now s = Throw (Error "invalid outcome code").
Proof.
  intros Hok Hr Hopen Hj Hcode Hnow. unfold finish.
  rewrite (tlift_run _ _ _ tt) by by apply safeTime_total. rewrite (tbind_run tget _ s s s) by done.
  by rewrite (find_run_unique _ _ (so_ids _ Hok) Hr), Hopen, Hj, Hcode.
Qed.

Definition visit_result (o : Visit) : result Z :=
  if recorded o then Ok (if o is Some _ then 1 else 0) else Throw (Error "invalid outcome code").

Lemma run_job_visits execute job w :
  sound_machine → fit execute → schedule_ok (db machine w) →
  ∃ o w', run_job execute job w = (visit_result o, w')
    ∧ star schedule_step (db machine w) (db machine w')
    ∧ visited execute job w o (db machine w')
    ∧ (recorded o = false → ∃ job' run, o = Some (job', run, version_refused) ∧ finished run = false).
Proof.
  intros Hm Hfit Hok. unfold run_job, visited, now, meth_bind.
  pose proof (sm_range Hm w) as Ht. pose proof (sm_clock Hm (id (sched job)) w) as [Hc1 _].
  destruct (clock machine w) as [t w1]. cbn [fst snd] in *.
  destruct (steps_keep _ _ Hok Hc1) as (Hok1 & _ & _).
  destruct (claim_total (id (sched job)) t (db machine w1) Ht) as (o & s & Hclaim).
  unfold on_store at 1. rewrite Hclaim.
  assert (Hs : star schedule_step (db machine w) s)
    by (eapply star_step; [exact Hc1|by eapply step_claim]).
  assert (Hoks : schedule_ok s) by (eapply schedule_step_ok; [exact Hok1|by eapply step_claim]).
  destruct o as [[job' run]|].
  2:{ exists None. eexists. split; [reflexivity|]. rewrite (sm_set Hm). split_and!; [done|by exists s|done]. }
  pose proof Hclaim as Hcl. apply claim_cases in Hcl as [[? _]|(j & Hj & _ & _ & _ & [(? & _)|(_ & Heq & Hs')])];
    [done..|]. injection Heq as -> ->.
  set (row := new_run _ _ _ _ _) in *.
  assert (Hkey : id (sched (reserve_slot j)) = id (sched job)) by apply (jo_key _ _ _ (so_jobs _ Hok1 _ _ Hj)).
  assert (Hrow : row ∈ payment_runs s) by (subst s; cbn; set_solver).
  assert (Hjob : payment_jobs s !! id (sched job) = Some (reserve_slot j))
    by (subst s; cbn; by rewrite lookup_alter_eq, Hj).
  unfold or_interrupted. set (w2 := set_db machine s w1).
  assert (Hw2 : db machine w2 = s) by apply Hm.
  pose proof (fit_others _ Hfit (reserve_slot j) w2) as Hex. rewrite Hkey, Hw2 in Hex.
  pose proof (fit_outcome _ Hfit (reserve_slot j) w2) as Hout.
  destruct (execute (reserve_slot j) w2) as [r w3] eqn:Hexec. cbn [fst snd] in *.
  pose proof (sm_range Hm w3) as Ht3. pose proof (sm_clock Hm (id (sched job)) w3) as Hc3.
  destruct (clock machine w3) as [t3 w4] eqn:Hc. cbn [fst snd] in *.
  assert (H4 : others (id (sched job)) s (db machine w4)) by (by etrans).
  destruct H4 as [H4 R4]. specialize (R4 _ Hrow eq_refl eq_refl).
  destruct (steps_keep _ _ Hoks H4) as (Hok4 & Hj4 & _). destruct (Hj4 _ _ Hjob) as (j4 & Hj4' & Hsched).
  assert (Hrec : recordable (sched j4) (interrupted r) ∨ interrupted r = version_refused).
  { rewrite Hsched. destruct r as [res|e]; [by apply Hout|left; by split]. }
  assert (Hrun : ∀ q, (match r with Ok r => (Ok r, w3) | Throw _ => (Ok (Unknown "EXECUTION_INTERRUPTED"), w3) end)
    = (Ok q, w3) ↔ q = interrupted r) by (intros q; destruct r; cbn; naive_solver).
  exists (Some (reserve_slot j, row, interrupted r)). unfold visit_result. cbn [recorded].
  destruct Hrec as [Hrec|Href].
  - destruct (finish_records _ row j4 _ t3 Hok4 R4 eq_refl Hj4' Hrec Ht3) as (s5 & Hfin & Hin).
    exists (set_db machine s5 w4). rewrite (rc_code _ _ Hrec), (sm_set Hm). split_and!; [| | |done].
    + rewrite (proj2 (Hrun _) eq_refl), Hc. unfold on_store. by rewrite Hfin.
    + eapply star_step; [by eapply star_trans|by eapply step_finish].
    + exists s. fold w2. rewrite Hexec. split_and!; [done|done|]. unfold row_after. by rewrite (rc_code _ _ Hrec).
  - exists w4. rewrite Href. split_and!; [|by eapply star_trans| |intros _; by eexists _, _].
    + rewrite (proj2 (Hrun _) eq_refl), Hc, Href. unfold on_store.
      by rewrite (finish_refuses _ row j4 version_refused t3 Hok4 R4 eq_refl Hj4' eq_refl Ht3).
    + exists s. fold w2. rewrite Hexec. by split_and!.
Qed.

Definition visits (trace : list Visit) : Z := Z.of_nat (length (omap (λ o, o) trace)).

(** How a pass over the jobs ended: it went through all of them and counted its runs, or
    it threw at a run whose outcome the table refuses. *)
Definition pass_result (jobs : list ScheduledJob) (n : Z) (trace : list Visit) (r : result Z) : Prop :=
  (r = Ok (n + visits trace) ∧ length trace = length jobs ∧ Forall (λ o, recorded o = true) trace)
  ∨ (r = Throw (Error "invalid outcome code")
     ∧ ∃ before job' run, trace = (before ++ [Some (job', run, version_refused)])%list
         ∧ finished run = false ∧ Forall (λ o, recorded o = true) before).

Lemma pass_result_cons job jobs n o trace r :
  recorded o = true →
  pass_result jobs (n + (if o is Some _ then 1 else 0)) trace r → pass_result (job :: jobs) n (o :: trace) r.
Proof.
  intros Ho [(-> & Hl & Hf)|(-> & before & job' & run & -> & Hrun & Hf)].
  - left. split_and!; [|cbn; by rewrite Hl|by constructor]. f_equal. unfold visits.
    destruct o; cbn [omap list_omap length]; lia.
  - right. split; [done|]. exists (o :: before), job', run. split_and!; [done|done|by constructor].
Qed.

Lemma run_jobs_visit execute jobs : ∀ n w,
  sound_machine → fit execute → schedule_ok (db machine w) →
  ∃ trace r w', run_jobs execute n jobs w = (r, w')
    ∧ star schedule_step (db machine w) (db machine w')
    ∧ pass_result jobs n trace r
    ∧ Forall2 (λ job o, ∃ w0, star schedule_step (db machine w) (db machine w0)
                 ∧ visited execute job w0 o (db machine w')) (take (length trace) jobs) trace.
Proof.
  induction jobs as [|job jobs IH]; intros n w Hm Hfit Hok; cbn [run_jobs].
  - exists [], (Ok n), w. split_and!; [done|apply star_refl| |constructor].
    left. split_and!; [|done..]. f_equal. unfold visits. cbn. lia.
  - destruct (run_job_visits execute job w Hm Hfit Hok) as (o & w1 & Hrun & Hs & Hv & Hbad).
    destruct (steps_keep _ _ Hok Hs) as (Hok1 & _ & _). unfold meth_bind. rewrite Hrun. unfold visit_result.
    destruct (recorded o) eqn:Ho.
    + destruct (IH (n + (if o is Some _ then 1 else 0)) w1 Hm Hfit Hok1) as (trace & r & w2 & Hruns & Hs2 & Hr & Hvs).
      exists (o :: trace), r, w2. rewrite Hruns. split_and!; [done|by eapply star_trans|by apply pass_result_cons|].
      cbn [length take]. constructor.
      * exists w. split; [apply star_refl|]. by eapply visited_later.
      * eapply Forall2_impl; [exact Hvs|]. intros job' o' (w0 & Hw0 & Hv'). exists w0.
        split; [by eapply star_trans|done].
    + destruct (Hbad eq_refl) as (job' & run & -> & Hrunf).
      exists [Some (job', run, version_refused)]. do 2 eexists. split_and!; [reflexivity|done| |].
      * right. split; [done|]. by exists [], job', run.
      * cbn [length take]. constructor; [|constructor]. exists w. split; [apply star_refl|done].
Qed.

(** The executor is fit for the tick. *)
Lemma executor_others job w :
  sound_machine → others (id (sched job)) (db machine w) (db machine (paymentExecutor job w).2).
Proof.
  intros Hm. unfold paymentExecutor. destruct (resolveResourceTarget _ _) as [target|e]; [|done].
  set (k := id (sched job)). set (R := λ s s' : W * bool, others k (db machine s.1) (db machine s'.1)).
  assert (HR : PreOrder R) by (split; [by intros s; red|by intros s1 s2 s3 H1 H2; red; etrans]).
  assert (Hlift : ∀ A (m : meth W A) s, others k (db machine s.1) (db machine (m s.1).2) → R s (lifted m s).2).
  { intros A m [v d] H1. unfold lifted, R. by destruct (m _) as [r v']. }
  assert (Hallowed : ∀ v, others k (db machine v) (db machine (allowed job v).2)).
  { intros v. unfold allowed. case_match; [done|]. pose proof (sm_clock Hm k v) as H1.
    by destruct (clock machine v). }
  assert (Hkeep : R (w, false) (payForDelegatedResource url_origin (executor_config target job) (w, false)).2).
  { apply pay_keeps; cbn [fetchImpl provider cf_preflight getRandomValues executor_config].
    - exact HR.
    - intros h s. apply Hlift, Hm.
    - intros o [v d]. unfold job_provider, R. cbn [fst]. pose proof (Hallowed v) as H1.
      destruct (allowed job v) as [[] v1]; cbn [negb snd fst] in *; [|done].
      destruct (offer_refused job o) as [[]|e]; cbn [snd fst]; [done| |done].
      pose proof (sm_provider Hm k o v1) as H2. destruct (rt_provider runtime o v1) as [[leaf|e] v2];
        cbn [snd fst] in *; [|by etrans]. pose proof (Hallowed v2) as H3.
      destruct (allowed job v2) as [[] v3]; cbn [snd fst] in *; (etrans; [exact H1|]; by etrans).
    - intros p o s. destruct (rt_preflight runtime) as [p'|] eqn:Hp; [|done]. intros [= <-].
      apply Hlift. by apply Hm.
    - intros [v d]. unfold R. pose proof (sm_random Hm k v) as H1. cbn [fst]. by destruct (random machine v). }
  by destruct (payForDelegatedResource _ _ _) as [r [w' d]].
Qed.

Lemma executor_outcome job w res :
  (paymentExecutor job w).1 = Ok res → recordable (sched job) res ∨ res = version_refused.
Proof.
  unfold paymentExecutor. destruct (resolveResourceTarget _ _) as [target|e]; [|done].
  pose proof (delivered_agreed target job w) as Hdel. cbv zeta in Hdel. unfold PaymentClient.outcome_of in Hdel.
  destruct (payForDelegatedResource _ _ _) as [o [w' denied]]. cbn [fst].
  intros (r & -> & Hs)%rbind_ok. destruct r as [amount payTo' tx ct resource i|code st detail i tx]; cbn [scheduled_result] in Hs.
  - left. apply rbind_ok in Hs as (a & Ha & [= <-]).
    destruct (Hdel _ _ _ _ _ _ eq_refl) as [(h & s & offer & leaf & _ & _ & _ & _ & Hag & ->) Htx].
    split; [done|]. intros a' txh [= <- <-]. destruct (ag_amount _ _ _ Hag) as (a' & Ha' & Hb).
    split; [|intros q Hq; right; by apply Htx]. congruence.
  - injection Hs as <-. destruct denied; [left; by split|].
    destruct code; first [right; reflexivity|left; split; [vm_compute; reflexivity|by intros ??]].
Qed.

Lemma stopping_fit running :
  sound_machine → fit (until_stopped running paymentExecutor).
Proof.
  intros Hm. split; intros job w; unfold until_stopped; destruct (running w).
  - by apply executor_others.
  - done.
  - apply executor_outcome.
  - intros res [= <-]. left. by split.
Qed.

(** A tick leaves nothing open but what the table refuses. On a table that any history of
    schedule operations has produced, and however other processes work on it meanwhile, a
    tick asks once for a run of each job of the list, in order; every run it is given is
    executed once, with the job as claimed, and is closed at the end with exactly the outcome
    of the execution, or as interrupted when the execution threw; the count returned is the
    number of these runs; everything the tick did to the table is a sequence of schedule
    operations. Of all the outcomes of the payment executor one alone is not recorded, the
    refusal of a seller's protocol version: there the tick throws. *)
Theorem tick_records_every_run running w :
  sound_machine → star schedule_step empty_schedule (db machine w) →
  let execute := until_stopped running paymentExecutor in
  let jobs := list_jobs (db machine w) in
  ∃ trace r w', tick execute w = (r, w')
    ∧ star schedule_step (db machine w) (db machine w')
    ∧ pass_result jobs 0 trace r
    ∧ Forall2 (λ job o, ∃ w0, star schedule_step (db machine w) (db machine w0)
                 ∧ visited execute job w0 o (db machine w')) (take (length trace) jobs) trace.
Proof.
  intros Hm Hok%schedule_reachable execute.
  exact (run_jobs_visit execute (list_jobs (db machine w)) 0 w Hm (stopping_fit running Hm) Hok).
Qed.

(** A seller that offers another protocol version stops the scheduler. When the first due
    job is answered so, the execution returns an ordinary unpaid outcome, nothing having been
    presented, but the table refuses its code, which has digits: the tick throws before the
    other jobs are looked at, and the run stays open with its whole amount committed. *)
Theorem version_refusal_stops_tick running w t w1 job jobs job' run s :
  sound_machine → star schedule_step empty_schedule (db machine w) →
  list_jobs (db machine w) = job :: jobs → clock machine w = (t, w1) →
  claim (id (sched job)) t (db machine w1) = Ok (Some (job', run), s) →
  (until_stopped running paymentExecutor job' (set_db machine s w1)).1 = Ok version_refused →
  ∃ w', tick (until_stopped running paymentExecutor) w = (Throw (Error "invalid outcome code"), w')
    ∧ run ∈ payment_runs (db machine w') ∧ finished run = false
    ∧ outcome run = unknown ∧ amountBase run = maxAmountBase (sched job').
Proof.
  intros Hm Hok%schedule_reachable Hl Hc Hcl Hex. set (execute := until_stopped _ _) in *.
  destruct (run_job_visits execute job w Hm (stopping_fit running Hm) Hok) as (o & w' & Hrun & _ & Hv & _).
  unfold visited in Hv. rewrite Hc in Hv. destruct o as [[[j2 run2] res]|];
    [|destruct Hv as (s2 & Hv); congruence].
  destruct Hv as (s2 & Hv & -> & Hin). rewrite Hcl in Hv. injection Hv as <- <- <-. rewrite Hex in Hin, Hrun.
  exists w'. split; [|split; [exact Hin|]].
  - unfold tick. rewrite Hl. cbn [run_jobs]. unfold meth_bind. by rewrite Hrun.
  - apply claim_cases in Hcl as [[? _]|(j & Hj & _ & _ & _ & [(? & _)|(_ & Heq & _)])]; [done..|].
    by injection Heq as -> ->.
Qed.
End service.

(** ** Witnesses: a due job, a seller that is paid and one of another version *)
Definition ex_machine (first : HttpResponse) (second : string → HttpResponse) : Machine ScheduleDb string :=
  {| db := λ s, s; set_db := λ s _, s; clock := λ s, (1070000, s);
     fetch := λ _ h s, (Ok (match h with None => first | Some h => second h end), s);
     random := λ s, (ex_bytes, s);
     new_URL := λ path base, Ok (base ++ path); url_origin_of := λ _, "https://shop.example" |}.
Definition ex_runtime : Runtime ScheduleDb string :=
  {| sellerUrl := "https://shop.example"; rt_manager := ex_manager;
     rt_trusted := ["0x00000000000000000000000000000000000000ff"];
     rt_preflight := Some (λ _ s, (Ok Clear, s)); rt_provider := λ _ s, (Ok ex_leaf, s) |}.
Definition ex_terms : PaymentSchedule :=
  {| id := "daily-coffee"; resourcePath := "/shop/latte";
     payTo := "0x00000000000000000000000000000000000000DE"; maxAmountBase := 2000000;
     maxTotalBase := 9000000; maxRuns := 3; startsAt := 1000000; endsAt := 9000000;
     intervalMs := 60000; maxAttempts := 2; retryDelayMs := 5000 |}.
Definition ex_table := run_state_of (add ex_terms empty_schedule).
Definition ex_run_claim := claim "daily-coffee" 1070000 ex_table.
Definition ex_job : ScheduledJob :=
  match ex_run_claim with Ok (Some (j, _), _) => j
  | _ => {| sched := ex_terms; status := active; nextAt := 0; runCount := 0; attempts := 0; committedBase := 0 |} end.
Definition ex_paying := ex_machine (ex_first ex_shop) (PaymentClient.ex_second 200 []).
Definition ex_old_offer : HttpResponse :=
  {| http_status := 402; header := λ _, None;
     json_body := Ok (JObj [("x402Version", JNum 1); ("accepts", JArr ex_shop)]); text_body := Ok "" |}.
Definition ex_old := ex_machine ex_old_offer (PaymentClient.ex_second 200 []).

Lemma ex_sound first second : sound_machine (ex_machine first second) ex_runtime.
Proof.
  split; cbn [db set_db clock fetch random ex_machine snd fst]; intros; try reflexivity; [lia|].
  match goal with H : rt_preflight _ = _ |- _ => injection H as <- end. reflexivity.
Qed.

Lemma ex_table_reachable : star schedule_step empty_schedule ex_table.
Proof.
  eapply star_step; [apply star_refl|]. eapply (step_add _ ex_table ex_terms). vm_compute. reflexivity.
Qed.

Lemma outcome_is_what_happened_witness :
  (paymentExecutor ex_no_origin ex_paying ex_runtime ex_job ex_table).1 = Ok (Paid 1500000 None)
  ∧ ∃ h s offer leaf,
      presented (log_of ex_no_origin (executor_config ex_paying ex_runtime "https://shop.example/shop/latte" ex_job)
                   (ex_table, false)) = [h]
      ∧ http_ok s = true ∧ agreed ex_paying ex_runtime ex_job offer leaf
      ∧ to_bigint (prop offer "amount") = Ok 1500000.
Proof.
  assert (Hr : (paymentExecutor ex_no_origin ex_paying ex_runtime ex_job ex_table).1 = Ok (Paid 1500000 None))
    by (vm_compute; reflexivity).
  split; [exact Hr|].
  destruct (outcome_is_what_happened ex_no_origin ex_paying ex_runtime ex_job ex_table
    "https://shop.example/shop/latte" (Paid 1500000 None) ltac:(vm_compute; reflexivity) Hr)
    as (_ & h & s & offer & leaf & Hp & _ & Hok & _ & Hag & Ha).
  exists h, s, offer, leaf. split; [exact Hp|]. split; [exact Hok|]. split; [exact Hag|exact Ha].
Defined.

Lemma tick_records_every_run_witness :
  (tick ex_paying (until_stopped (λ _, true) (paymentExecutor ex_no_origin ex_paying ex_runtime)) ex_table).1 = Ok 1
  ∧ ∃ trace r w', pass_result (list_jobs ex_table) 0 trace r
      ∧ tick ex_paying (until_stopped (λ _, true) (paymentExecutor ex_no_origin ex_paying ex_runtime)) ex_table
        = (r, w').
Proof.
  split; [vm_compute; reflexivity|].
  destruct (tick_records_every_run ex_no_origin ex_paying ex_runtime (λ _, true) ex_table
    (ex_sound _ _) ex_table_reachable) as (trace & r & w' & Ht & _ & Hr & _).
  exists trace, r, w'. split; [exact Hr|exact Ht].
Defined.

Lemma version_refusal_stops_tick_witness :
  ∃ w' run, tick ex_old (until_stopped (λ _, true) (paymentExecutor ex_no_origin ex_old ex_runtime)) ex_table
      = (Throw (Error "invalid outcome code"), w')
    ∧ run ∈ payment_runs w' ∧ finished run = false ∧ amountBase run = 2000000.
Proof.
  destruct ex_run_claim as [[[[job' run]|] s]|e] eqn:Hc; try (vm_compute in Hc; discriminate Hc).
  vm_compute in Hc. injection Hc as Hj Hrun Hs.
  destruct (version_refusal_stops_tick ex_no_origin ex_old ex_runtime (λ _, true) ex_table 1070000 ex_table
    (default ex_job (head (list_jobs ex_table))) [] job' run s) as (w' & Ht & Hin & Hopen & _ & Ham);
    [apply ex_sound|apply ex_table_reachable|vm_compute; reflexivity|reflexivity
    |subst; vm_compute; reflexivity|subst; vm_compute; reflexivity|].
  exists w', run. split; [exact Ht|]. split; [exact Hin|]. split; [exact Hopen|].
  rewrite Ham. subst. reflexivity.
Defined.
