(* ===== verification/Seller.v ===== *)
(** * The seller's configuration

    What [packages/seller/src/index.ts] decides before a buyer is served: the parsers of
    its options, the offer a facilitator advertises and the cache that keeps it, the
    fingerprint a payment identifier is bound to, and the manifest of the mounted paywalls.
    [isLoopbackHost] is [packages/shared/src/chain.ts].  The URL parser and the hash are
    arguments. *)

From Stdlib Require Import ZArith Lia Ascii String.
From stdpp Require Import base gmap strings list sorting.
From S2P Require Import Prelude Token Json Toolkit Contract X402 Net Codec PaymentClient.
Open Scope string_scope.
Open Scope Z_scope.

Definition DEFAULT_FACILITATOR_URL : string := "https://facilitator.mapae.io".
Definition MAX_PAYMENT_HEADER_LENGTH : Z := 150000.
Definition VERIFY_TIMEOUT_MS : Z := 15000.
Definition SETTLE_TIMEOUT_MS : Z := 35000.
Definition SUPPORTED_TTL_MS : Z := 5 * 60000.
Definition SUPPORTED_RETRY_MS : Z := 30000.

(** ** Loopback *)

(** [/^(\d{1,3})\.(\d{1,3})\.(\d{1,3})\.(\d{1,3})$/] and the four numbers. *)
Definition octets (l : text) : option (list Z) :=
  let parts := split_on "." l in
  if (length parts =? 4)%nat
     && forallb (λ p, (1 <=? length p)%nat && (length p <=? 3)%nat && forallb is_digit p) parts
  then Some (map (λ p, BigInt (string_of_list_ascii p)) parts) else None.

(** [^::ffff:(.+)$] *)
Definition mapped_part (l : text) : option text :=
  match strip_word (chars "::ffff:") l with
  | Some (c :: l') => if existsb (Ascii.eqb "010") (c :: l') then None else Some (c :: l')
  | _ => None
  end.
Definition unbracket (l : text) : text :=
  match l with
  | "["%char :: l' => match rev l' with "]"%char :: r => rev r | _ => l end
  | _ => l
  end.

(** Each level drops seven characters, so the length is fuel enough. *)
Fixpoint loopback (fuel : nat) (host : text) : bool :=
  match fuel with
  | O => false
  | S fuel =>
      let host := map lower_char host in
      let s := string_of_list_ascii host in
      if String.eqb s "localhost" || endsWith ".localhost" s then true
      else
        let bare := unbracket host in
        if bool_decide (bare = chars "::1") then true
        else match mapped_part bare with
        | Some m => loopback fuel m
        | None =>
            match octets bare with
            | None => false
            | Some parts =>
                if existsb (λ p, 255 <? p) parts then false
                else bool_decide (head parts = Some 127) || bool_decide (bare = chars "0.0.0.0")
            end
        end
  end.
Definition isLoopbackHost (hostname : string) : bool :=
  loopback (S (length (chars hostname))) (chars hostname).

(** ** Options *)

(** What [new URL(value)] answers. *)
Record Url := {
  protocol : string; username : string; password : string; hostname : string;
  pathname : string; search : string; hash : string; origin : string; href : string;
}.

Definition drop_last_slash (s : string) : string :=
  match rev (chars s) with "/"%char :: r => string_of_list_ascii (rev r) | _ => s end.

Section seller.
Context `{Toolkit}.
Variable new_URL : string → result Url.

Definition parsePayTo (value : string) : result string :=
  let trimmed := trim value in
  throws negb (isAddress trimmed) with
    Error "payTo must be the public receiving address, never a private key";
  throws String.eqb (getAddress trimmed) zeroAddress with Error "payTo must not be the zero address";
  Ok (getAddress trimmed).

Definition parsePrice (value : string) : result Z :=
  let? amount := toTokenAmount value in
  throws amount <=? 0 with Error ("price must be positive, got " ++ dquote ++ value ++ dquote);
  Ok amount.

Definition is_web (u : Url) : bool := existsb (String.eqb (protocol u)) ["http:"; "https:"].
Definition has_credentials (u : Url) : bool :=
  negb (String.eqb (username u) "") || negb (String.eqb (password u) "").

Definition parseFacilitatorUrl (value : string) : result string :=
  let? url := new_URL value in
  throws negb (is_web url) || has_credentials url with
    Error "facilitator must be an absolute HTTP(S) URL without credentials";
  throws negb (String.eqb (protocol url) "https:") && negb (isLoopbackHost (hostname url)) with
    Error "facilitator must use HTTPS unless it is loopback";
  throws negb (String.eqb (search url) "") || negb (String.eqb (hash url) "") with
    Error "facilitator must be a base URL without query or fragment";
  Ok (drop_last_slash (href url)).

Definition parseBaseUrl (value : string) : result string :=
  let? url := new_URL value in
  throws negb (is_web url) || has_credentials url with
    Error "baseUrl must be an absolute HTTP(S) origin without credentials";
  throws negb (String.eqb (pathname url) "/") || negb (String.eqb (search url) "")
         || negb (String.eqb (hash url) "") with
    Error "baseUrl must be an origin - scheme://host[:port] - with no path, query or fragment";
  Ok (origin url).

(** ** What a facilitator advertises *)
Record FacilitatorKind := { facilitatorAddresses : list string; fk_manager : option string }.

Definition addresses_ok (l : list jsval) : bool :=
  match l with [] => false | _ => forallb is_addr l end.

(** The kind of one entry: [None] when the entry is of another rail, [Some None] when it is
    ours and unusable. *)
Definition read_kind (kind : jsval) : option (option FacilitatorKind) :=
  let extra := prop kind "extra" in
  if negb (is_str (prop kind "scheme") "exact") || negb (is_str (prop kind "network") GIWA_SEPOLIA_CAIP2)
     || negb (is_str (prop extra "assetTransferMethod") "erc7710") then None
  else Some (
    match prop extra "facilitatorAddresses" with
    | JArr addresses =>
        if negb (addresses_ok addresses) then None
        else
          let known := map (λ a, getAddress (text_of a)) addresses in
          match prop extra "delegationManager" with
          | JUndefined => Some {| facilitatorAddresses := known; fk_manager := None |}
          | JStr m => if isAddress m
                      then Some {| facilitatorAddresses := known; fk_manager := Some (getAddress m) |}
                      else None
          | _ => None
          end
    | _ => None
    end).
Fixpoint first_kind (kinds : list jsval) : option FacilitatorKind :=
  match kinds with
  | [] => None
  | k :: kinds => match read_kind k with Some verdict => verdict | None => first_kind kinds end
  end.
Definition readSupportedKind (body : jsval) : option FacilitatorKind :=
  match prop body "kinds" with JArr kinds => first_kind kinds | _ => None end.

(** ** The cache of the advertised kind

    [FacilitatorClient.kind]: [#cached], and whether a discovery is in flight ([#discovering]). *)
Record KindCache := { cached : option (FacilitatorKind * Z); discovering : bool }.
Definition new_cache : KindCache := {| cached := None; discovering := false |}.

Inductive KindAnswer :=
  | Known (kind : FacilitatorKind)   (* resolved at once *)
  | Awaiting (asked : bool).         (* the discovery's promise; [asked] when this call began it *)

Definition kind (now : Z) (c : KindCache) : KindAnswer * KindCache :=
  let ask := (Awaiting (negb (discovering c)), {| cached := cached c; discovering := true |}) in
  match cached c with
  | Some (k, expiresAt) => if now <? expiresAt then (Known k, c) else ask
  | None => ask
  end.

(** The end of a discovery: what every call that awaits it is given. *)
Definition discover (answer : Response) (now : Z) (c : KindCache) : option FacilitatorKind * KindCache :=
  match (if reachable answer then readSupportedKind (body answer) else None) with
  | Some k => (Some k, {| cached := Some (k, now + SUPPORTED_TTL_MS); discovering := false |})
  | None =>
      match cached c with
      | Some (k, _) => (Some k, {| cached := Some (k, now + SUPPORTED_RETRY_MS); discovering := false |})
      | None => (None, {| cached := None; discovering := false |})
      end
  end.
(** The cache over time, with the kinds the facilitator has advertised so far, newest last:
    calls, and the ends of discoveries with whatever was answered. *)
Inductive kind_step : KindCache * list FacilitatorKind → KindCache * list FacilitatorKind → Prop :=
  | step_kind now c heard : kind_step (c, heard) ((kind now c).2, heard)
  | step_discover answer now c heard :
      discovering c = true →
      kind_step (c, heard)
        ((discover answer now c).2,
         heard ++ option_list (if reachable answer then readSupportedKind (body answer) else None))%list.

(** ** The fingerprint of a request *)
Definition FINGERPRINT_VERSION : string := "mapae.x402.payment-identifier.fingerprint.v2".
Definition newline : string := String "010" "".
Definition upper_char (c : ascii) : ascii := if is_lower c then ascii_of_N (N_of_ascii c - 32) else c.
Definition toUpperCase (s : string) : string := string_of_list_ascii (map upper_char (chars s)).

Definition canonical_request (requirements : jsval) (resource method : string) : string :=
  String.concat newline
    [FINGERPRINT_VERSION; text_of (prop requirements "scheme"); text_of (prop requirements "network");
     text_of (prop requirements "asset"); text_of (prop requirements "amount");
     text_of (prop requirements "payTo"); resource; toUpperCase method].
(** [sha256(stringToBytes(canonical)).slice(2)] *)
Definition requestFingerprint (sha256 : string → string) (requirements : jsval) (resource method : string)
    : string :=
  string_of_list_ascii (drop 2 (chars (sha256 (canonical_request requirements resource method)))).

(** ** The manifest *)
Record PaywallDescriptor := { pd_price : string; pd_description : string; pd_payTo : string }.
(** A value Hono holds as a handler: what a paywall says about itself, and the handler a
    sub-app's wrapper keeps. *)
Inductive Handler :=
  | not_function
  | function (own : option PaywallDescriptor) (composed : Handler).
Fixpoint paywallDescriptor (h : Handler) : option PaywallDescriptor :=
  match h with
  | not_function => None
  | function (Some own) _ => Some own
  | function None composed => paywallDescriptor composed
  end.

Record Route := { rt_method : string; rt_path : string; rt_handler : Handler }.
Record Endpoint := { ep_method : string; ep_path : string; ep_descriptor : PaywallDescriptor }.

Definition text_compare (a b : string) : Z :=
  if String.eqb a b then 0 else if String.leb a b then -1 else 1.
Definition compareEndpoints (a b : Endpoint) : Z :=
  if negb (String.eqb (ep_path a) (ep_path b)) then text_compare (ep_path a) (ep_path b)
  else text_compare (ep_method a) (ep_method b).

(** [endpoints.sort(compareEndpoints)], which is stable. *)
Fixpoint insert_endpoint (e : Endpoint) (l : list Endpoint) : list Endpoint :=
  match l with
  | [] => [e]
  | x :: l' => if compareEndpoints e x <=? 0 then e :: l else x :: insert_endpoint e l'
  end.
Definition sort_endpoints (l : list Endpoint) : list Endpoint := foldr insert_endpoint [] l.

Definition endpoint_of (r : Route) : option Endpoint :=
  match paywallDescriptor (rt_handler r) with
  | Some d => Some {| ep_method := rt_method r; ep_path := rt_path r; ep_descriptor := d |}
  | None => None
  end.
Definition describeRoutes (routes : list Route) : list Endpoint := sort_endpoints (omap endpoint_of routes).

Definition endpoint_json (e : Endpoint) : jsval :=
  JObj [("method", JStr (ep_method e)); ("path", JStr (ep_path e));
        ("price", JStr (pd_price (ep_descriptor e)));
        ("description", JStr (pd_description (ep_descriptor e)));
        ("payTo", JStr (pd_payTo (ep_descriptor e)))].
Definition manifest_name (name : string) : result string :=
  throws String.eqb (trim name) "" with Error "manifest name must not be empty"; Ok (trim name).
(** The handler: the document of the first request is the document of every request. *)
Definition serve_manifest (name facilitator : string) (routes : list Route) (document : option jsval)
    : jsval * option jsval :=
  let doc := match document with
             | Some d => d
             | None =>
                 JObj [("version", JNum 1); ("name", JStr name); ("chain", JStr GIWA_SEPOLIA_CAIP2);
                       ("asset", JStr MOCK_USDC_address); ("facilitator", JStr facilitator);
                       ("endpoints", JArr (map endpoint_json (describeRoutes routes)))]
             end in (doc, Some doc).
End seller.

(** ** The kind that is offered *)

Definition cache_ok (s : KindCache * list FacilitatorKind) : Prop :=
  fst <$> cached s.1 = last s.2.

Lemma kind_step_ok `{Toolkit} s s' : kind_step s s' → cache_ok s → cache_ok s'.
Proof.
  unfold cache_ok. intros [now c heard|answer now c heard _]; cbn [fst snd]; intros Hc.
  - rewrite <- Hc. unfold kind. destruct (cached c) as [[k e]|] eqn:Hk; [|done].
    destruct (now <? e); cbn; [by rewrite Hk|done].
  - unfold discover. destruct (if reachable answer then _ else _) as [k|]; cbn [option_list option_rect].
    + by rewrite last_snoc.
    + rewrite app_nil_r, <- Hc. destruct (cached c) as [[k e]|]; done.
Qed.

(** A facilitator that has answered once is never forgotten, and one that has not is
    never remembered as down. After any calls and discoveries, in any order and at any
    times, whatever a call resolves to is the kind the facilitator advertised last: at once
    from the cache before it expires, and otherwise at the end of the one discovery all
    waiting calls share; it is nothing only when no usable kind was ever heard, and that
    answer is not kept. *)
Theorem kind_never_forgotten `{Toolkit} c heard now :
  star kind_step (new_cache, []) (c, heard) →
  match kind now c with
  | (Known k, c') => last heard = Some k ∧ c' = c ∧ ∃ e, cached c = Some (k, e) ∧ now < e
  | (Awaiting asked, c') =>
      asked = negb (discovering c) ∧ discovering c' = true ∧ cached c' = cached c
      ∧ ∀ answer later,
          let '(k, c'') := discover answer later c' in
          k = last (heard ++ option_list (if reachable answer then readSupportedKind (body answer) else None))%list
          ∧ fst <$> cached c'' = k ∧ discovering c'' = false
          ∧ ∀ e, snd <$> cached c'' = Some e → e <= later + SUPPORTED_TTL_MS
  end.
Proof.
  intros Hs. assert (Hok : cache_ok (c, heard)).
  { revert Hs. apply (star_invariant kind_step cache_ok); [|done]. intros s s' H1 H2. by eapply kind_step_ok. }
  unfold cache_ok in Hok. cbn [fst snd] in Hok. unfold kind.
  assert (Hask : ∀ answer later, let '(k, c'') := discover answer later {| cached := cached c; discovering := true |} in
          k = last (heard ++ option_list (if reachable answer then readSupportedKind (body answer) else None))%list
          ∧ fst <$> cached c'' = k ∧ discovering c'' = false
          ∧ ∀ e, snd <$> cached c'' = Some e → e <= later + SUPPORTED_TTL_MS).
  { intros answer later. unfold discover. destruct (if reachable answer then _ else _) as [k|]; cbn [option_list option_rect].
    - rewrite last_snoc. split_and!; [done..|]. intros e [= <-]. lia.
    - rewrite app_nil_r, <- Hok. cbn [cached]. destruct (cached c) as [[k e]|]; cbn; [|split_and!; try done].
      split_and!; [done..|]. intros e' [= <-]. unfold SUPPORTED_RETRY_MS, SUPPORTED_TTL_MS. lia. }
  destruct (cached c) as [[k e]|] eqn:Hk.
  - destruct (Z.ltb_spec now e); [|by split_and!]. split_and!; [by rewrite <- Hok|done|by exists e].
  - by split_and!.
Qed.

(** ** What a fingerprint binds *)
Definition one_line (s : string) : Prop := has_char "010" (chars s) = false.

Lemma chars_inj s t : chars s = chars t → s = t.
Proof. intros H. apply (f_equal string_of_list_ascii) in H. by rewrite !string_of_list_ascii_of_string in H. Qed.

#[local] Instance chars_injective : Inj (=) (=) chars.
Proof. intros s t. apply chars_inj. Qed.

Lemma chars_concat l : chars (String.concat newline l) = join ["010"%char] (map chars l).
Proof.
  induction l as [|s l IH]; [done|]. destruct l as [|t l]; [done|].
  change (String.concat newline (s :: t :: l)) with (s ++ newline ++ String.concat newline (t :: l)).
  rewrite !chars_append, IH. done.
Qed.

Lemma concat_lines_inj l l' :
  l ≠ [] → l' ≠ [] → Forall one_line l → Forall one_line l' →
  String.concat newline l = String.concat newline l' → l = l'.
Proof.
  intros Hne Hne' Hl Hl' He. apply (f_equal (λ s, split_on "010" (chars s))) in He. rewrite !chars_concat in He.
  change (map chars) with (fmap (M:=list) chars) in He.
  assert (Hsplit : ∀ q, q ≠ [] → Forall one_line q → split_on "010" (join ["010"%char] (chars <$> q)) = chars <$> q).
  { intros q Hq Hf. apply split_on_join; [by destruct q|by apply Forall_fmap]. }
  rewrite !Hsplit in He by done.
  revert He. apply (inj (fmap chars)).
Qed.

Lemma one_line_chars s : one_line s ↔ forallb (λ c, negb (Ascii.eqb "010" c)) (chars s) = true.
Proof.
  unfold one_line, has_char. induction (chars s) as [|c l IH]; [done|]. cbn [existsb forallb].
  destruct (Ascii.eqb "010" c); cbn [negb orb andb]; [done|exact IH].
Qed.

Lemma upper_one_line s : one_line s → one_line (toUpperCase s).
Proof.
  rewrite !one_line_chars. unfold toUpperCase, chars. rewrite list_ascii_of_string_of_list_ascii.
  fold (chars s). induction (chars s) as [|c l IH]; [done|]. cbn [map forallb].
  intros [Hc Hl]%andb_true_iff. rewrite (IH Hl), andb_true_r. by destruct c as [[][][][][][][][]].
Qed.

Lemma show_one_line z : one_line (show_Z z).
Proof.
  assert (Hn : ∀ n, 0 <= n → one_line (show_Z n)).
  { intros n Hn. destruct (show_nonneg n Hn) as (Hd & _ & _). rewrite one_line_chars.
    rewrite forallb_forall in Hd |- *. intros c Hc. specialize (Hd c Hc).
    by destruct c as [[][][][][][][][]]. }
  destruct (decide (z < 0)) as [Hz|Hz]; [|apply Hn; lia]. unfold one_line. rewrite show_neg by done.
  apply (Hn (- z)). lia.
Qed.

(** C15: A fingerprint is of one request. Two requests whose canonical texts agree, under any
    two paywalls, ask for the same amount to the same payee, for the same resource by the
    same method: no value can run into its neighbour, for none of them holds the separator.
    So one payment identifier cannot be replayed for another resource, price or payee
    without the fingerprint changing, as far as the hash tells texts apart. *)
Theorem fingerprint_is_of_one_request payTo payTo' amount amount' addresses addresses' manager manager'
    timeout timeout' resource resource' method method' :
  one_line payTo → one_line payTo' → one_line resource → one_line resource' →
  one_line method → one_line method' →
  canonical_request (buildErc7710PaymentRequirements payTo amount addresses manager timeout) resource method
  = canonical_request (buildErc7710PaymentRequirements payTo' amount' addresses' manager' timeout') resource' method'
  ↔ amount = amount' ∧ payTo = payTo' ∧ resource = resource' ∧ toUpperCase method = toUpperCase method'.
Proof.
  intros Hp Hp' Hr Hr' Hm Hm'. unfold canonical_request. cbn [prop buildErc7710PaymentRequirements].
  split; [|by intros (-> & -> & -> & ->)].
  intros He. apply concat_lines_inj in He; [|done|done|..].
  - cbn in He. injection He as Ha Hpay Hres Hmeth. split_and!; try done.
    apply (f_equal read_Z) in Ha. rewrite !read_show_Z in Ha. congruence.
  - repeat (constructor; [first [done|apply show_one_line|by apply upper_one_line]|]). constructor.
  - repeat (constructor; [first [done|apply show_one_line|by apply upper_one_line]|]). constructor.
Qed.

(** ** The manifest *)
Definition ep_le (a b : Endpoint) : Prop := compareEndpoints a b <= 0.

Lemma text_compare_le a b : text_compare a b <= 0 ↔ String.leb a b = true.
Proof.
  unfold text_compare. destruct (String.eqb_spec a b) as [->|Hne].
  - split; [intros _|lia]. destruct (String.leb_total b b); done.
  - destruct (String.leb a b); split; try done; lia.
Qed.

Lemma ep_le_spec a b : ep_le a b ↔
  (ep_path a ≠ ep_path b ∧ String.leb (ep_path a) (ep_path b) = true)
  ∨ (ep_path a = ep_path b ∧ String.leb (ep_method a) (ep_method b) = true).
Proof.
  unfold ep_le, compareEndpoints. destruct (String.eqb_spec (ep_path a) (ep_path b)); cbn [negb];
    rewrite text_compare_le; naive_solver.
Qed.

#[export] Instance ep_le_total : Total ep_le.
Proof.
  intros a b. rewrite !ep_le_spec. destruct (String.eqb_spec (ep_path a) (ep_path b)) as [He|He].
  - destruct (String.leb_total (ep_method a) (ep_method b)); [left|right]; right; split; congruence.
  - destruct (String.leb_total (ep_path a) (ep_path b)); [left|right]; left; split; congruence.
Qed.

#[export] Instance ep_le_trans : Transitive ep_le.
Proof.
  intros a b c. rewrite !ep_le_spec. intros [[Hn1 H1]|[He1 H1]] [[Hn2 H2]|[He2 H2]].
  - left. split; [|by eapply leb_trans]. intros He. rewrite He in H1. apply Hn2. by apply String.leb_antisym.
  - left. rewrite <- He2. by split.
  - left. rewrite He1. by split.
  - right. split; [congruence|by eapply leb_trans].
Qed.

Lemma insert_endpoint_perm e l : insert_endpoint e l ≡ₚ e :: l.
Proof.
  induction l as [|x l IH]; cbn [insert_endpoint]; [done|]. case_match; [done|]. rewrite IH. apply Permutation_swap.
Qed.

Lemma sort_endpoints_perm l : sort_endpoints l ≡ₚ l.
Proof. induction l as [|e l IH]; cbn; [done|]. by rewrite insert_endpoint_perm, IH. Qed.

Lemma insert_endpoint_sorted e l : StronglySorted ep_le l → StronglySorted ep_le (insert_endpoint e l).
Proof.
  induction 1 as [|x l Hl IH Hx]; cbn [insert_endpoint]; [repeat constructor|].
  destruct (compareEndpoints e x <=? 0) eqn:Hc.
  - apply Z.leb_le in Hc. constructor; [by constructor|]. constructor; [done|].
    eapply Forall_impl; [exact Hx|]. intros y Hy. by trans x.
  - constructor; [done|]. rewrite insert_endpoint_perm. constructor; [|done].
    apply Z.leb_gt in Hc. destruct (total ep_le e x) as [H|H]; [unfold ep_le in H; lia|done].
Qed.

Lemma sort_endpoints_sorted l : StronglySorted ep_le (sort_endpoints l).
Proof. induction l as [|e l IH]; [constructor|]. by apply insert_endpoint_sorted. Qed.

(** What a paywall says of itself, however deeply a sub-app has wrapped it. *)
Fixpoint wrapped (n : nat) (d : PaywallDescriptor) (inner : Handler) : Handler :=
  match n with O => function (Some d) inner | S n => function None (wrapped n d inner) end.

(** The manifest is what is mounted. Its endpoints are, each as often as it is mounted,
    exactly the routes whose handler is a paywall, directly or under any number of sub-app
    wrappers, with the method, path and terms of that paywall, sorted by path and then by
    method; and the first request fixes the document for all later ones. *)
Theorem manifest_is_what_is_mounted routes name facilitator :
  StronglySorted ep_le (describeRoutes routes)
  ∧ describeRoutes routes ≡ₚ omap endpoint_of routes
  ∧ (∀ e, e ∈ describeRoutes routes ↔ ∃ r n inner, r ∈ routes ∧ rt_handler r = wrapped n (ep_descriptor e) inner
        ∧ ep_method e = rt_method r ∧ ep_path e = rt_path r)
  ∧ ∀ later doc, (serve_manifest name facilitator later
        (serve_manifest name facilitator routes doc).2).1 = (serve_manifest name facilitator routes doc).1.
Proof.
  split; [apply sort_endpoints_sorted|]. split; [apply sort_endpoints_perm|]. split; [|by intros later [doc|]].
  intros e. unfold describeRoutes. rewrite sort_endpoints_perm, list_elem_of_omap. unfold endpoint_of.
  assert (Hd : ∀ h d, paywallDescriptor h = Some d ↔ ∃ n inner, h = wrapped n d inner).
  { intros h d. split.
    - induction h as [|[own|] h IH]; cbn [paywallDescriptor]; [done| |].
      + intros [= ->]. by exists 0%nat, h.
      + intros (n & inner & ->)%IH. by exists (S n), inner.
    - intros (n & inner & ->). by induction n. }
  split.
  - intros (r & Hr & He). destruct (paywallDescriptor (rt_handler r)) as [d|] eqn:Hp; [|done].
    injection He as <-. apply Hd in Hp as (n & inner & Hp). by exists r, n, inner.
  - intros (r & n & inner & Hr & Hh & Hm & Hpath). exists r. split; [done|].
    rewrite (proj2 (Hd _ (ep_descriptor e))) by eauto. by destruct e; cbn in *; subst.
Qed.

(** ** Fuel *)
Lemma unbracket_length l : (length (unbracket l) <= length l)%nat.
Proof.
  unfold unbracket. repeat case_match; try lia. subst. cbn [length].
  match goal with H : rev _ = _ |- _ => apply (f_equal (@length _)) in H; rewrite length_rev in H end.
  cbn [length] in *. rewrite length_rev. lia.
Qed.

Lemma mapped_length l m : mapped_part l = Some m → (length m < length l)%nat.
Proof.
  unfold mapped_part. destruct (strip_word _ l) as [[|c r]|] eqn:Hs; [done| |done].
  apply strip_word_split in Hs as ->. destruct (existsb _ _); [done|]. intros [= <-].
  rewrite length_app. cbn [length chars list_ascii_of_string]. lia.
Qed.

(** More fuel than the name has characters changes nothing. *)
Lemma loopback_fuel f : ∀ f' l, (length l < f)%nat → (length l < f')%nat → loopback f l = loopback f' l.
Proof.
  induction f as [|f IH]; intros [|f'] l Hl Hl'; try lia. cbn [loopback].
  destruct (String.eqb _ _ || _); [done|]. case_bool_decide; [done|].
  destruct (mapped_part _) as [m|] eqn:Hm; [|done]. apply mapped_length in Hm.
  pose proof (unbracket_length (map lower_char l)) as Hu. rewrite length_map in Hu. apply IH; lia.
Qed.

Example loopback_names :
  map isLoopbackHost ["LocalHost"; "api.localhost"; "[::1]"; "[::FFFF:127.0.0.9]"; "127.9.9.9"; "0.0.0.0";
                      "127.example.com"; "::ffff:7f00:1"; "256.0.0.1"; "10.0.0.1"]
  = [true; true; true; true; true; true; false; false; false; false].
Proof. vm_compute. reflexivity. Qed.

(** ** Witnesses *)
Definition ex_kind : FacilitatorKind :=
  {| facilitatorAddresses := ["0x00000000000000000000000000000000000000ff"]; fk_manager := None |}.
Definition ex_supported : Response :=
  {| reachable := true;
     body := buildErc7710SupportedPayload ["0x00000000000000000000000000000000000000FF"] None |}.
Definition ex_cache : KindCache := {| cached := Some (ex_kind, 300010); discovering := false |}.

Lemma kind_never_forgotten_witness :
  kind 20 ex_cache = (Known ex_kind, ex_cache) ∧ last [ex_kind] = Some ex_kind.
Proof.
  assert (Hs : star kind_step (new_cache, []) (ex_cache, [ex_kind])).
  { eapply star_step; [eapply star_step; [apply star_refl|apply (step_kind 5)]|].
    assert (Hc : (discover ex_supported 10 (kind 5 new_cache).2).2 = ex_cache) by (vm_compute; reflexivity).
    assert (Hk : readSupportedKind (body ex_supported) = Some ex_kind) by (vm_compute; reflexivity).
    pose proof (step_discover ex_supported 10 (kind 5 new_cache).2 [] eq_refl) as Hd.
    rewrite Hc, Hk in Hd. exact Hd. }
  split; [reflexivity|]. exact (proj1 (kind_never_forgotten ex_cache [ex_kind] 20 Hs)).
Defined.

Lemma fingerprint_is_of_one_request_witness :
  canonical_request (buildErc7710PaymentRequirements "0xab" 1500000 None None None) "https://shop.example/a?x=1" "get"
  ≠ canonical_request (buildErc7710PaymentRequirements "0xab" 1500000 None None None) "https://shop.example/a?x=2" "get".
Proof.
  intros He. apply (fingerprint_is_of_one_request "0xab" "0xab" 1500000 1500000 None None None None None None
    "https://shop.example/a?x=1" "https://shop.example/a?x=2" "get" "get") in He; try reflexivity.
  destruct He as (_ & _ & He & _). discriminate He.
Defined.
