(* ===== verification/Paywall.v ===== *)
(** * The seller's paywall

    [buildPaywall] of [packages/seller/src/index.ts]: the middleware that answers 402 with an
    offer, has a payment verified and settled, and only then lets the handler run.  The
    world it runs in is any state [W]: the facilitator, the advertised kind, the binding of
    payment identifiers, the seller's callback and the handler are operations [meth W] of
    it.  A log of the questions it asked says what it did. *)

From Stdlib Require Import ZArith Lia Ascii String.
From stdpp Require Import base gmap strings list.
From S2P Require Import Prelude Token Json Toolkit Bootstrap Contract X402 Status Gate Codec Redact.
From S2P Require Import Errors Identifiers PaymentClient Seller.
Open Scope string_scope.
Open Scope Z_scope.

(** ** What a paywall is made with *)
Record PaywallOptions := {
  po_payTo : string; po_price : string; po_description : string;
  po_extensions : option jsval; po_identifiers : bool;
}.
(** What [buildPaywall] keeps of them. *)
Record Terms := {
  payTo : string; amount : Z; description : string;
  advertised : option jsval; descriptor : PaywallDescriptor;
}.

(** What [onSettled] and the handler are given. *)
Record SettlementReceipt := {
  intent : string; payer : string; rc_amount : string; asset : string; rc_payTo : string;
  network : string; transaction : option string; replayed : bool;
}.

(** [Response], with the headers the answer carries. *)
Record Reply := { rp_status : Z; rp_headers : gmap string string; rp_body : jsval }.

(** What the middleware reads of a request: [new URL(c.req.url)] included, and whether it is
    the last matched route. *)
Record Request := {
  rq_header : string → option string; rq_url : string; rq_parts : Url; rq_method : string;
  rq_last : bool;
}.

Record PaymentIdentifierBinding (W : Type) := {
  bind : string → string → string → meth W BindResult;
  record : string → string → option string → meth W unit;
}.
Arguments bind {W}. Arguments record {W}.

(** Everything outside: the kind the facilitator client resolves to, its [fetch] (path, and
    for a payment the document it posts and the buyer's address), and the seller's parts. *)
Record Shop (W : Type) := {
  terms : Terms; baseUrl : option string; namesBuyer : bool;
  paymentIdentifiers : option (PaymentIdentifierBinding W);
  onSettled : option (SettlementReceipt → meth W unit);
  resolve_kind : W → option FacilitatorKind * W;
  fetch : string → option (jsval * option string) → meth W HttpResponse;
  next : SettlementReceipt → gmap string string → meth W Reply;
}.
Arguments terms {W}. Arguments baseUrl {W}. Arguments namesBuyer {W}. Arguments paymentIdentifiers {W}.
Arguments onSettled {W}. Arguments resolve_kind {W}. Arguments fetch {W}. Arguments next {W}.

Section paywall.
Context `{Toolkit}.
Variable sha256 : string → string.

(** ** Boot *)
Definition own_fields (v : option jsval) : list (string * jsval) :=
  match v with Some (JObj l) => l | _ => [] end.
Definition buildPaywall (o : PaywallOptions) : result Terms :=
  let? payTo := parsePayTo (po_payTo o) in
  let? amount := parsePrice (po_price o) in
  throws String.eqb (trim (po_description o)) "" with Error "description must not be empty";
  let? _ := match po_extensions o with Some e => (let? _ := stringify e in Ok tt) | None => Ok tt end in
  throws match po_extensions o with Some e => has_key e PAYMENT_IDENTIFIER_EXTENSION | None => false end with
    Error (PAYMENT_IDENTIFIER_EXTENSION
           ++ " is published by the paywall itself - pass paymentIdentifiers instead of declaring it");
  Ok {| payTo := payTo; amount := amount; description := po_description o;
        advertised :=
          if po_identifiers o
          then Some (JObj (own_fields (po_extensions o)
                           ++ [(PAYMENT_IDENTIFIER_EXTENSION, buildPaymentIdentifierOffer)]))
          else po_extensions o;
        descriptor := {| pd_price := trim (po_price o); pd_description := po_description o;
                         pd_payTo := payTo |} |}.

(** ** Reading the payment *)
Definition truthy (v : jsval) : bool :=
  match v with
  | JUndefined | JNull | JBool false | JNum 0 | JBig 0 | JStr "" => false
  | _ => true
  end.
Definition readDelegatedPayment (header : string) : jsval + string :=
  match decodePaymentHeader header with
  | Throw _ => inr "invalid base64 JSON"
  | Ok candidate =>
      let extra := prop (prop candidate "accepted") "extra" in
      if negb (is_object extra) || negb (is_str (prop extra "assetTransferMethod") "erc7710")
      then inr "not an ERC-7710 payment"
      else
        let payload := prop candidate "payload" in
        if negb (truthy payload) || negb (is_addr (prop payload "delegationManager"))
           || negb (is_addr (prop payload "delegator"))
           || negb (match prop payload "permissionContext" with
                    | JStr context => isHex context && (2 <? slen context)
                    | _ => false
                    end)
        then inr "invalid delegation payload"
        else inl candidate
  end.

(** ** Answers *)
Definition base_headers : gmap string string :=
  <["Cache-Control" := "no-store"]> (<["Vary" := PAYMENT_SIGNATURE_HEADER]> ∅).

Definition failure_receipt (errorReason : string) (payer : option string) (transaction : string) : jsval :=
  JObj ([("success", JBool false); ("errorReason", JStr errorReason); ("network", JStr GIWA_SEPOLIA_CAIP2)]
        ++ optional "payer" (JStr <$> payer) ++ [("transaction", JStr transaction)]).
Definition writeFailureReceipt (errorReason : string) (payer : option string) (transaction : string)
    (h : gmap string string) : result (gmap string string) :=
  let? text := encodePaymentResponseHeader (failure_receipt errorReason payer transaction) in
  Ok (<[PAYMENT_RESPONSE_HEADER := text]> h).

Definition error_json (error : string) (detail : option string) : jsval :=
  JObj (("error", JStr error) :: optional "detail" (JStr <$> detail)).

(** A failure receipt and a JSON body. *)
Definition refuse (errorReason : string) (payer : option string) (transaction : string)
    (status : Z) (body : jsval) : result Reply :=
  let? h := writeFailureReceipt errorReason payer transaction base_headers in
  Ok {| rp_status := status; rp_headers := h; rp_body := body |}.

(** A payment the header carried, as far as it is read before anyone is asked. *)
Record Presented := { payload : jsval; claimed : string; identifier : option string }.

Definition malformed_payment (payer : option string) (detail : string) : result Reply :=
  refuse INVALID_PAYLOAD payer "" 400 (error_json "malformed_payment" (Some detail)).

Definition read_header (binds : bool) (header : option string) : result Reply + option Presented :=
  match header with
  | None => inr None
  | Some header =>
      if MAX_PAYMENT_HEADER_LENGTH <? slen header then inl (malformed_payment None "header too large")
      else match readDelegatedPayment header with
      | inr detail => inl (malformed_payment None detail)
      | inl payload =>
          let payer := getAddress (text_of (prop (prop payload "payload") "delegator")) in
          let presented id := inr (Some {| payload := payload; claimed := payer; identifier := id |}) in
          if binds then
            match readPaymentIdentifier payload with
            | malformed => inl (malformed_payment (Some payer)
                (PAYMENT_IDENTIFIER_EXTENSION ++ " must be 16-128 characters of [A-Za-z0-9_-]"))
            | present id => presented (Some id)
            | absent => presented None
            end
          else presented None
      end
  end.

(** The 402 and its offer, in a header and a body alike. *)
Definition offer_document (t : Terms) (base : option string) (req : Request) (requirements : jsval) : jsval :=
  let url := match base with
             | Some b => if String.eqb b "" then rq_url req else b ++ pathname (rq_parts req)
             | None => rq_url req
             end in
  JObj ([("x402Version", JNum X402_VERSION);
         ("resource", JObj [("url", JStr url); ("description", JStr (description t))]);
         ("accepts", JArr [requirements])]
        ++ optional "extensions" (advertised t)).
Definition offer (t : Terms) (base : option string) (req : Request) (requirements : jsval)
    (h : gmap string string) : result Reply :=
  let body := offer_document t base req requirements in
  let? text := encodePaymentRequiredHeader body in
  Ok {| rp_status := 402; rp_headers := <[PAYMENT_REQUIRED_HEADER := text]> h; rp_body := body |}.

Definition requirements_of (t : Terms) (k : FacilitatorKind) : jsval :=
  buildErc7710PaymentRequirements (payTo t) (amount t) (Some (facilitatorAddresses k)) (fk_manager k) None.

(** ** The facilitator's end *)
Definition response_of (answer : result HttpResponse) : Response :=
  let unreachable := {| reachable := false; body := JUndefined |} in
  match answer with
  | Throw _ => unreachable
  | Ok r => if http_ok r
            then match json_body r with Ok b => {| reachable := true; body := b |} | Throw _ => unreachable end
            else unreachable
  end.

Definition facilitator_request (t : Terms) (k : FacilitatorKind) (p : Presented) : jsval :=
  JObj [("x402Version", JNum X402_VERSION); ("paymentPayload", payload p);
        ("paymentRequirements", requirements_of t k)].

Definition payment_intent (t : Terms) (p : Presented) : result string :=
  derivePaymentIntentId
    {| Contract.network := GIWA_SEPOLIA_CAIP2; Contract.asset := MOCK_USDC_address;
       Contract.amount := amount t; Contract.payTo := payTo t;
       delegationManager := getAddress (text_of (prop (prop (payload p) "payload") "delegationManager"));
       permissionContext := text_of (prop (prop (payload p) "payload") "permissionContext") |}.

(** The resource the identifier is bound to: origin, path and query. *)
Definition bound_resource (base : option string) (req : Request) : string :=
  (match base with Some b => b | None => origin (rq_parts req) end)
  ++ pathname (rq_parts req) ++ search (rq_parts req).

Section serve.
Context {W : Type}.
Variable shop : Shop W.
Variable req : Request.

Notation t := (terms shop).

Definition call (path : string) (post : option (jsval * option string)) : W → Response * W := λ w,
  let '(answer, w) := fetch shop path post w in (response_of answer, w).

(** The address Cloudflare wrote, for a facilitator that reads it. *)
Definition buyer_address : option string :=
  if namesBuyer shop then rq_header req "cf-connecting-ip" else None.

Definition success_receipt (r : SettlementReceipt) : jsval :=
  JObj [("success", JBool true); ("network", JStr GIWA_SEPOLIA_CAIP2); ("payer", JStr (payer r));
        ("transaction", JStr (default "" (transaction r)))].
(** What the paywall writes over the handler's answer. *)
Definition stamp (r : SettlementReceipt) (reply : Reply) : result Reply :=
  let? text := encodePaymentResponseHeader (success_receipt r) in
  Ok {| rp_status := rp_status reply;
        rp_headers := <[PAYMENT_RESPONSE_HEADER := text]> (base_headers ∪ rp_headers reply);
        rp_body := rp_body reply |}.

Definition serve_handler (r : SettlementReceipt) : meth W Reply := λ w,
  match next shop r base_headers w with
  | (Throw e, w) => (Throw e, w)
  | (Ok reply, w) => (stamp r reply, w)
  end.
Definition deliver (r : SettlementReceipt) : meth W Reply := λ w,
  match onSettled shop with
  | Some callback => let '(_, w) := callback r w in serve_handler r w
  | None => serve_handler r w
  end.

Definition receipt_of (intent payer : string) (transaction : option string) (replayed : bool)
    : SettlementReceipt :=
  {| intent := intent; payer := payer; rc_amount := fromTokenAmount (amount t); asset := MOCK_USDC_address;
     rc_payTo := payTo t; network := GIWA_SEPOLIA_CAIP2; transaction := transaction; replayed := replayed |}.

Definition unavailable_reply (reason payer : string) : result Reply :=
  refuse reason (Some payer) "" 503 (error_json "facilitator_unavailable" None).
(** A refusal that charged nobody goes out with the offer. *)
Definition pay_again (k : FacilitatorKind) (reason payer transaction : string) : result Reply :=
  let? h := writeFailureReceipt reason (Some payer) transaction base_headers in
  offer t (baseUrl shop) req (requirements_of t k) h.

Definition conflict_reply (p : Presented) (reason : PaymentIdentifierConflict)
    (prior : option RecordedPayment) : result Reply :=
  let '(reason_text, charged) := match reason with
                                 | conflict_payment_intent => ("payment_intent", prior)
                                 | conflict_fingerprint => ("fingerprint", None)
                                 end in
  let word := match charged with
              | Some _ => PAYMENT_IDENTIFIER_SETTLED
              | None => PAYMENT_IDENTIFIER_CONFLICT
              end in
  refuse word
    (Some (match charged with Some c => rp_payer c | None => claimed p end))
    (match charged with Some c => default "" (rp_txHash c) | None => "" end)
    409 (error_json word (Some reason_text)).

(** The settlement is remembered under its identifier; a lost record is only logged. *)
Definition remember (p : Presented) (tx : option string) : W → W := λ w,
  match paymentIdentifiers shop, identifier p with
  | Some b, Some id => (record b id (claimed p) tx w).2
  | _, _ => w
  end.

Definition settle_payment (k : FacilitatorKind) (p : Presented) (intent : string) : meth W Reply := λ w,
  let '(answer, w) := call "/settle" (Some (facilitator_request t k p, buyer_address)) w in
  match decideSettlement answer (claimed p) with
  | unavailable reason => (unavailable_reply reason (claimed p), w)
  | unknown tx =>
      (refuse SETTLEMENT_PENDING (Some (claimed p)) (default "" tx) 504 (error_json "settlement_unknown" None), w)
  | failed reason tx =>
      if String.eqb reason VENDOR_NOT_CREDITED
      then (refuse reason (Some (claimed p)) (default "" tx) 502 (error_json "settlement_misdirected" None), w)
      else (pay_again k reason (claimed p) (default "" tx), w)
  | settled tx replayed => deliver (receipt_of intent (claimed p) tx replayed) (remember p tx w)
  end.

Definition charge (k : FacilitatorKind) (p : Presented) (intent : string) : meth W Reply := λ w,
  let '(answer, w) := call "/verify" (Some (facilitator_request t k p, buyer_address)) w in
  match decideVerification answer (claimed p) with
  | v_unavailable reason => (unavailable_reply reason (claimed p), w)
  | v_rejected reason => (pay_again k reason (claimed p) "", w)
  | v_accepted _ => settle_payment k p intent w
  end.

Definition fingerprint (k : FacilitatorKind) : string :=
  requestFingerprint sha256 (requirements_of t k) (bound_resource (baseUrl shop) req) (rq_method req).

Definition take_payment (k : FacilitatorKind) (p : Presented) : meth W Reply := λ w,
  match payment_intent t p with
  | Throw e => (Throw e, w)
  | Ok intent =>
      match paymentIdentifiers shop, identifier p with
      | Some b, Some id =>
          match bind b id (fingerprint k) intent w with
          | (Throw e, w) => (Throw e, w)
          | (Ok (bind_conflict reason prior), w) => (conflict_reply p reason prior, w)
          | (Ok (bind_settled s), w) => deliver (receipt_of intent (rp_payer s) (rp_txHash s) true) w
          | (Ok bind_new, w) => charge k p intent w
          end
      | _, _ => charge k p intent w
      end
  end.

Definition kind_missing (presented : option Presented) : result Reply :=
  let body := error_json "facilitator_unavailable" None in
  match presented with
  | Some p => refuse FACILITATOR_NOT_READY (Some (claimed p)) "" 503 body
  | None => Ok {| rp_status := 503; rp_headers := base_headers; rp_body := body |}
  end.
Definition not_found : Reply :=
  {| rp_status := 404; rp_headers := base_headers; rp_body := JStr "404 Not Found" |}.

Definition paywall : meth W Reply := λ w,
  if rq_last req then (Ok not_found, w)
  else match read_header (if paymentIdentifiers shop is Some _ then true else false)
               (rq_header req PAYMENT_SIGNATURE_HEADER) with
  | inl reply => (reply, w)
  | inr presented =>
      let '(k, w) := resolve_kind shop w in
      match k, presented with
      | None, _ => (kind_missing presented, w)
      | Some k, None => (offer t (baseUrl shop) req (requirements_of t k) base_headers, w)
      | Some k, Some p => take_payment k p w
      end
  end.

(** ** What the paywall did

    Every question to the outside, with its answer, in order. *)
Inductive Event :=
  | Resolved (k : option FacilitatorKind)
  | Asked (path : string) (post : option (jsval * option string)) (answer : result HttpResponse)
  | Bound (id fingerprint intent : string) (answer : result BindResult)
  | Recorded (id payer : string) (tx : option string) (answer : result unit)
  | Notified (receipt : SettlementReceipt) (answer : result unit)
  | Served (receipt : SettlementReceipt) (answer : result Reply).

Definition noted {A} (m : meth W A) (e : result A → Event) : meth (W * list Event) A := λ s,
  let '(r, w) := m s.1 in (r, (w, (s.2 ++ [e r])%list)).
Definition logged : Shop (W * list Event) :=
  {| terms := terms shop; baseUrl := baseUrl shop; namesBuyer := namesBuyer shop;
     paymentIdentifiers :=
       match paymentIdentifiers shop with
       | Some b => Some {| bind := λ id print intent, noted (bind b id print intent) (Bound id print intent);
                           record := λ id payer tx, noted (record b id payer tx) (Recorded id payer tx) |}
       | None => None
       end;
     onSettled := match onSettled shop with
                  | Some callback => Some (λ r, noted (callback r) (Notified r))
                  | None => None
                  end;
     resolve_kind := λ s, let '(k, w) := resolve_kind shop s.1 in (k, (w, (s.2 ++ [Resolved k])%list));
     fetch := λ path post, noted (fetch shop path post) (Asked path post);
     next := λ r h, noted (next shop r h) (Served r) |}.

(** *** Every way a request can go *)
Definition served (r : SettlementReceipt) (answer : result Reply) : result Reply :=
  match answer with Throw e => Throw e | Ok reply => stamp r reply end.

Inductive delivery (r : SettlementReceipt) : list Event → result Reply → Prop :=
  | d_quiet a : onSettled shop = None → delivery r [Served r a] (served r a)
  | d_told n a : is_Some (onSettled shop) → delivery r [Notified r n; Served r a] (served r a).

Inductive remembering (p : Presented) (tx : option string) : list Event → Prop :=
  | r_nothing : paymentIdentifiers shop = None ∨ identifier p = None → remembering p tx []
  | r_record id a : is_Some (paymentIdentifiers shop) → identifier p = Some id →
      remembering p tx [Recorded id (claimed p) tx a].

Definition posted (k : FacilitatorKind) (p : Presented) : option (jsval * option string) :=
  Some (facilitator_request t k p, buyer_address).

Inductive settling (k : FacilitatorKind) (p : Presented) (intent : string) : list Event → result Reply → Prop :=
  | s_unavailable a reason :
      decideSettlement (response_of a) (claimed p) = unavailable reason →
      settling k p intent [Asked "/settle" (posted k p) a] (unavailable_reply reason (claimed p))
  | s_unknown a tx :
      decideSettlement (response_of a) (claimed p) = unknown tx →
      settling k p intent [Asked "/settle" (posted k p) a]
        (refuse SETTLEMENT_PENDING (Some (claimed p)) (default "" tx) 504 (error_json "settlement_unknown" None))
  | s_misdirected a tx :
      decideSettlement (response_of a) (claimed p) = failed VENDOR_NOT_CREDITED tx →
      settling k p intent [Asked "/settle" (posted k p) a]
        (refuse VENDOR_NOT_CREDITED (Some (claimed p)) (default "" tx) 502
           (error_json "settlement_misdirected" None))
  | s_failed a reason tx :
      decideSettlement (response_of a) (claimed p) = failed reason tx → reason ≠ VENDOR_NOT_CREDITED →
      settling k p intent [Asked "/settle" (posted k p) a] (pay_again k reason (claimed p) (default "" tx))
  | s_settled a tx again recs log r :
      decideSettlement (response_of a) (claimed p) = settled tx again →
      remembering p tx recs → delivery (receipt_of intent (claimed p) tx again) log r →
      settling k p intent (Asked "/settle" (posted k p) a :: recs ++ log)%list r.

Inductive charging (k : FacilitatorKind) (p : Presented) (intent : string) : list Event → result Reply → Prop :=
  | c_unavailable a reason :
      decideVerification (response_of a) (claimed p) = v_unavailable reason →
      charging k p intent [Asked "/verify" (posted k p) a] (unavailable_reply reason (claimed p))
  | c_rejected a reason :
      decideVerification (response_of a) (claimed p) = v_rejected reason →
      charging k p intent [Asked "/verify" (posted k p) a] (pay_again k reason (claimed p) "")
  | c_accepted a who log r :
      decideVerification (response_of a) (claimed p) = v_accepted who → settling k p intent log r →
      charging k p intent (Asked "/verify" (posted k p) a :: log) r.

Inductive taking (k : FacilitatorKind) (p : Presented) : list Event → result Reply → Prop :=
  | t_no_intent e : payment_intent t p = Throw e → taking k p [] (Throw e)
  | t_unnamed intent log r :
      payment_intent t p = Ok intent → paymentIdentifiers shop = None ∨ identifier p = None →
      charging k p intent log r → taking k p log r
  | t_unbound intent id e :
      payment_intent t p = Ok intent → identifier p = Some id →
      taking k p [Bound id (fingerprint k) intent (Throw e)] (Throw e)
  | t_conflict intent id reason prior :
      payment_intent t p = Ok intent → identifier p = Some id →
      taking k p [Bound id (fingerprint k) intent (Ok (bind_conflict reason prior))] (conflict_reply p reason prior)
  | t_settled intent id s log r :
      payment_intent t p = Ok intent → identifier p = Some id →
      delivery (receipt_of intent (rp_payer s) (rp_txHash s) true) log r →
      taking k p (Bound id (fingerprint k) intent (Ok (bind_settled s)) :: log) r
  | t_new intent id log r :
      payment_intent t p = Ok intent → identifier p = Some id → charging k p intent log r →
      taking k p (Bound id (fingerprint k) intent (Ok bind_new) :: log) r.

Definition header_read : result Reply + option Presented :=
  read_header (if paymentIdentifiers shop is Some _ then true else false) (rq_header req PAYMENT_SIGNATURE_HEADER).

Inductive history : list Event → result Reply → Prop :=
  | h_last : rq_last req = true → history [] (Ok not_found)
  | h_unread r : rq_last req = false → header_read = inl r → history [] r
  | h_no_kind presented : rq_last req = false → header_read = inr presented →
      history [Resolved None] (kind_missing presented)
  | h_offer k : rq_last req = false → header_read = inr None →
      history [Resolved (Some k)] (offer t (baseUrl shop) req (requirements_of t k) base_headers)
  | h_taken k p log r : rq_last req = false → header_read = inr (Some p) → taking k p log r →
      history (Resolved (Some k) :: log) r.
End serve.

(** *** The log tells the run *)
Section told.
Context {W : Type}.
Variable shop : Shop W.
Variable req : Request.

Lemma deliver_told r w l :
  ∃ log o w', deliver (logged shop) r (w, l) = (o, (w', l ++ log)%list) ∧ deliver shop r w = (o, w')
    ∧ delivery shop r log o.
Proof.
  assert (Hserve : ∀ w l, ∃ a w', serve_handler (logged shop) r (w, l) = (served r a, (w', l ++ [Served r a])%list)
    ∧ serve_handler shop r w = (served r a, w')).
  { intros w0 l0. unfold serve_handler. cbn [next logged]. unfold noted. cbn [fst snd].
    destruct (next shop r base_headers w0) as [a w1]. exists a, w1. by destruct a. }
  unfold deliver. cbn [onSettled logged]. destruct (onSettled shop) as [callback|] eqn:Hc.
  - unfold noted. cbn [fst snd]. destruct (callback r w) as [n w1].
    destruct (Hserve w1 (l ++ [Notified r n])%list) as (a & w2 & -> & ->).
    exists [Notified r n; Served r a], (served r a), w2. rewrite <- app_assoc. split_and!; [reflexivity..|]. by constructor.
  - destruct (Hserve w l) as (a & w2 & -> & ->).
    exists [Served r a], (served r a), w2. split_and!; [reflexivity..|]. by constructor.
Qed.

Lemma remember_told p tx w l :
  ∃ log w', remember (logged shop) p tx (w, l) = (w', l ++ log)%list ∧ remember shop p tx w = w'
    ∧ remembering shop p tx log.
Proof.
  unfold remember. cbn [paymentIdentifiers logged]. destruct (paymentIdentifiers shop) as [b|] eqn:Hb.
  - destruct (identifier p) as [id|] eqn:Hid.
    + unfold noted. cbn [record fst snd]. destruct (record b id (claimed p) tx w) as [a w1].
      exists [Recorded id (claimed p) tx a], w1. split_and!; [reflexivity..|]. by constructor.
    + exists [], w. rewrite app_nil_r. split_and!; [reflexivity..|]. constructor. by right.
  - exists [], w. rewrite app_nil_r. split_and!; [reflexivity..|]. constructor. by left.
Qed.

Lemma settle_told k p intent w l :
  ∃ log o w', settle_payment (logged shop) req k p intent (w, l) = (o, (w', l ++ log)%list)
    ∧ settle_payment shop req k p intent w = (o, w') ∧ settling shop req k p intent log o.
Proof.
  unfold settle_payment, call. cbn [fetch logged]. unfold noted. cbn [fst snd].
  change (facilitator_request (terms (logged shop)) k p) with (facilitator_request (terms shop) k p).
  change (buyer_address (logged shop) req) with (buyer_address shop req).
  change (pay_again (logged shop) req) with (pay_again shop req).
  fold (posted shop req k p). destruct (fetch shop "/settle" (posted shop req k p) w) as [a w1].
  destruct (decideSettlement (response_of a) (claimed p)) as [reason|tx|reason tx|tx again] eqn:Hd.
  - eexists _, _, w1. split_and!; [reflexivity..|]. by apply s_unavailable.
  - eexists _, _, w1. split_and!; [reflexivity..|]. by apply s_unknown.
  - destruct (String.eqb_spec reason VENDOR_NOT_CREDITED) as [->|Hne];
      (eexists _, _, w1; split_and!; [reflexivity..|]); [by apply s_misdirected|by apply s_failed].
  - destruct (remember_told p tx w1 (l ++ [Asked "/settle" (posted shop req k p) a])%list) as (recs & w2 & -> & -> & Hrec).
    change (receipt_of (logged shop)) with (receipt_of shop).
    destruct (deliver_told (receipt_of shop intent (claimed p) tx again) w2
      ((l ++ [Asked "/settle" (posted shop req k p) a]) ++ recs)%list) as (log & o & w3 & -> & -> & Hdel).
    exists (Asked "/settle" (posted shop req k p) a :: recs ++ log)%list, o, w3.
    rewrite <- !app_assoc. split_and!; [reflexivity..|]. by eapply s_settled.
Qed.

Lemma charge_told k p intent w l :
  ∃ log o w', charge (logged shop) req k p intent (w, l) = (o, (w', l ++ log)%list)
    ∧ charge shop req k p intent w = (o, w') ∧ charging shop req k p intent log o.
Proof.
  unfold charge, call. cbn [fetch logged]. unfold noted. cbn [fst snd].
  change (facilitator_request (terms (logged shop)) k p) with (facilitator_request (terms shop) k p).
  change (buyer_address (logged shop) req) with (buyer_address shop req).
  change (pay_again (logged shop) req) with (pay_again shop req).
  fold (posted shop req k p). destruct (fetch shop "/verify" (posted shop req k p) w) as [a w1].
  destruct (decideVerification (response_of a) (claimed p)) as [reason|reason|who] eqn:Hd.
  - eexists _, _, w1. split_and!; [reflexivity..|]. by apply c_unavailable.
  - eexists _, _, w1. split_and!; [reflexivity..|]. by apply c_rejected.
  - destruct (settle_told k p intent w1 (l ++ [Asked "/verify" (posted shop req k p) a])%list)
      as (log & o & w2 & -> & -> & Hs).
    exists (Asked "/verify" (posted shop req k p) a :: log), o, w2. rewrite <- app_assoc.
    split_and!; [reflexivity..|]. by eapply c_accepted.
Qed.

Lemma take_told k p w l :
  ∃ log o w', take_payment (logged shop) req k p (w, l) = (o, (w', l ++ log)%list)
    ∧ take_payment shop req k p w = (o, w') ∧ taking shop req k p log o.
Proof.
  unfold take_payment. change (terms (logged shop)) with (terms shop).
  destruct (payment_intent (terms shop) p) as [intent|e] eqn:Hi.
  2:{ exists [], (Throw e), w. rewrite app_nil_r. split_and!; [reflexivity..|]. by apply t_no_intent. }
  cbn [paymentIdentifiers logged]. change (fingerprint (logged shop)) with (fingerprint shop).
  destruct (paymentIdentifiers shop) as [b|] eqn:Hb.
  2:{ destruct (charge_told k p intent w l) as (log & o & w1 & -> & -> & Hc).
      exists log, o, w1. split_and!; [reflexivity..|]. eapply t_unnamed; [done|by left|done]. }
  destruct (identifier p) as [id|] eqn:Hid.
  2:{ destruct (charge_told k p intent w l) as (log & o & w1 & -> & -> & Hc).
      exists log, o, w1. split_and!; [reflexivity..|]. eapply t_unnamed; [done|by right|done]. }
  unfold noted. cbn [bind fst snd].
  destruct (bind b id (fingerprint shop req k) intent w) as [[[|s|reason prior]|e] w1].
  - destruct (charge_told k p intent w1 (l ++ [Bound id (fingerprint shop req k) intent (Ok bind_new)])%list)
      as (log & o & w2 & -> & -> & Hc).
    eexists _, o, w2. rewrite <- app_assoc. split_and!; [reflexivity..|]. by eapply t_new.
  - change (receipt_of (logged shop)) with (receipt_of shop).
    destruct (deliver_told (receipt_of shop intent (rp_payer s) (rp_txHash s) true) w1
      (l ++ [Bound id (fingerprint shop req k) intent (Ok (bind_settled s))])%list) as (log & o & w2 & -> & -> & Hdel).
    eexists _, o, w2. rewrite <- app_assoc. split_and!; [reflexivity..|]. by eapply t_settled.
  - eexists _, _, w1. split_and!; [reflexivity..|]. by apply (t_conflict _ _ _ _ intent).
  - eexists _, _, w1. split_and!; [reflexivity..|]. by apply (t_unbound _ _ _ _ intent).
Qed.

Lemma paywall_told w :
  ∃ log o w', paywall (logged shop) req (w, []) = (o, (w', log)) ∧ paywall shop req w = (o, w')
    ∧ history shop req log o.
Proof.
  unfold paywall. destruct (rq_last req) eqn:Hl.
  { eexists [], _, w. split_and!; [reflexivity..|]. by apply h_last. }
  assert (Hh : read_header (if paymentIdentifiers (logged shop) is Some _ then true else false)
      (rq_header req PAYMENT_SIGNATURE_HEADER) = header_read shop req).
  { unfold header_read. cbn [paymentIdentifiers logged]. by destruct (paymentIdentifiers shop). }
  rewrite Hh. fold (header_read shop req). destruct (header_read shop req) as [r|presented] eqn:Hr.
  { eexists [], _, w. split_and!; [reflexivity..|]. by apply h_unread. }
  change (terms (logged shop)) with (terms shop). change (baseUrl (logged shop)) with (baseUrl shop).
  cbn [resolve_kind logged fst snd]. destruct (resolve_kind shop w) as [[k|] w1].
  - destruct presented as [p|].
    + destruct (take_told k p w1 ([] ++ [Resolved (Some k)])%list) as (log & o & w2 & -> & -> & Ht).
      eexists _, o, w2. split_and!; [reflexivity..|]. by eapply h_taken.
    + eexists _, _, w1. split_and!; [reflexivity..|]. by apply h_offer.
  - eexists _, _, w1. split_and!; [reflexivity..|]. by apply h_no_kind.
Qed.

Definition log_of (w : W) : list Event := (paywall (logged shop) req (w, [])).2.2.
Definition reply_of (w : W) : result Reply := (paywall shop req w).1.

Lemma request_history w : history shop req (log_of w) (reply_of w).
Proof.
  destruct (paywall_told w) as (log & o & w' & H1 & H2 & Hh). unfold log_of, reply_of. by rewrite H1, H2.
Qed.
End told.
End paywall.

(** ** What was asked, and what was served *)
Definition is_question (e : Event) : bool := match e with Asked _ _ _ => true | _ => false end.
Definition questions (log : list Event) : list Event := List.filter is_question log.

Lemma questions_app l l' : questions (l ++ l') = (questions l ++ questions l')%list.
Proof. apply List.filter_app. Qed.

Section asked.
Context `{Toolkit} {W : Type}.
Variable shop : Shop W.
Variable req : Request.

(** An event that is none of the listed ones. *)
Ltac absent Hin := repeat (apply elem_of_cons in Hin as [Hin|Hin]; [discriminate Hin|]); by apply elem_of_nil in Hin.
Ltac nothing := split; intros; match goal with Hin : _ ∈ _ |- _ => absent Hin end.

Lemma delivery_served r log o : delivery shop r log o →
  questions log = [] ∧ (∀ id print i b, Bound id print i b ∉ log)
  ∧ ∃ a, Served r a ∈ log ∧ o = served r a ∧ ∀ r' a', Served r' a' ∈ log → r' = r.
Proof.
  intros [a _|n a _]; (split_and!; [done|set_solver|]); exists a; (split_and!; [set_solver|done|set_solver]).
Qed.

Lemma remembering_quiet p tx log : remembering shop p tx log →
  questions log = [] ∧ (∀ r a, Served r a ∉ log) ∧ (∀ id print i b, Bound id print i b ∉ log).
Proof. intros [_|id a _ _]; (split_and!; [done|set_solver|set_solver]). Qed.

Lemma settling_shape k p i log o : settling shop req k p i log o →
  (∀ id print j b, Bound id print j b ∉ log)
  ∧ ∃ s, questions log = [Asked "/settle" (posted shop req k p) s]
    ∧ ∀ r a, Served r a ∈ log → ∃ tx again, decideSettlement (response_of s) (claimed p) = settled tx again
        ∧ r = receipt_of shop i (claimed p) tx again.
Proof.
  intros [a ? Hd|a ? Hd|a ? Hd|a ? ? Hd ?|a tx again recs log' o' Hd Hrec Hdel];
    try (split; [set_solver|exists a; split; [done|set_solver]]).
  destruct (remembering_quiet _ _ _ Hrec) as (Hq & Hs & Hb).
  destruct (delivery_served _ _ _ Hdel) as (Hq' & Hb' & a' & _ & _ & Hr). split; [set_solver|].
  exists a. split.
  - change (Asked ?x ?y ?z :: ?l) with ([Asked x y z] ++ l)%list. rewrite !questions_app, Hq, Hq'. done.
  - intros r a'' [?|[?|Hin]%elem_of_app]%elem_of_cons; [done|set_solver|]. exists tx, again. split; [done|].
    by eapply Hr.
Qed.

Lemma charging_shape k p i log o : charging shop req k p i log o →
  (∀ id print j b, Bound id print j b ∉ log)
  ∧ ∃ v, let verify := Asked "/verify" (posted shop req k p) v in
    (questions log = [verify] ∧ ∀ r a, Served r a ∉ log)
    ∨ ∃ s who, questions log = [verify; Asked "/settle" (posted shop req k p) s]
        ∧ decideVerification (response_of v) (claimed p) = v_accepted who
        ∧ ∀ r a, Served r a ∈ log → ∃ tx again, decideSettlement (response_of s) (claimed p) = settled tx again
            ∧ r = receipt_of shop i (claimed p) tx again.
Proof.
  intros [a ? Hd|a ? Hd|a who log' o' Hd Hs];
    try (split; [set_solver|exists a; left; split; [done|set_solver]]).
  destruct (settling_shape _ _ _ _ _ Hs) as (Hb & s & Hq & Hr). split; [set_solver|].
  exists a. right. exists s, who. split_and!; [|done|].
  - change (Asked ?x ?y ?z :: ?l) with ([Asked x y z] ++ l)%list. by rewrite questions_app, Hq.
  - intros r a' [?|Hin]%elem_of_cons; [done|]. by eapply Hr.
Qed.

Variable sha256 : string → string.

(** What a request with a payment did, in terms of that payment. *)
Record asked_for (k : FacilitatorKind) (p : Presented) (i : string) (log : list Event) : Prop := {
  af_kind : Resolved (Some k) ∈ log;
  af_header : header_read shop req = inr (Some p);
  af_intent : payment_intent (terms shop) p = Ok i;
}.

(** C16: Nothing is served that was not paid for, and nothing is charged that was not offered.
    Whatever the facilitator, the binding and the handler do: the handler runs only for a
    payment of this paywall's price to this paywall's address, and only when either the
    facilitator verified and then settled the very document the paywall built for it, or the
    binding remembers a settlement under the payment's identifier for this request and this
    payment; the receipt the handler and the ledger are given says which. A settlement is
    asked for at most once per request, only after the verification of the same document was
    accepted for the payer the header names, and, when the payment carries an identifier the
    seller binds, only after it was bound to this request and payment as a new one. *)
Theorem served_only_if_paid w :
  let log := log_of sha256 shop req w in
  (∀ r a, Served r a ∈ log → ∃ k p i, asked_for k p i log
     ∧ intent r = i ∧ rc_amount r = fromTokenAmount (amount (terms shop)) ∧ rc_payTo r = payTo (terms shop)
     ∧ ((∃ id s, identifier p = Some id ∧ questions log = []
           ∧ Bound id (fingerprint sha256 shop req k) i (Ok (bind_settled s)) ∈ log
           ∧ payer r = rp_payer s ∧ transaction r = rp_txHash s ∧ replayed r = true)
        ∨ ∃ s, Asked "/settle" (posted shop req k p) s ∈ log ∧ payer r = claimed p
           ∧ decideSettlement (response_of s) (claimed p) = settled (transaction r) (replayed r)))
  ∧ (∀ post s, Asked "/settle" post s ∈ log → ∃ k p i v who, asked_for k p i log
     ∧ post = posted shop req k p
     ∧ questions log = [Asked "/verify" post v; Asked "/settle" post s]
     ∧ decideVerification (response_of v) (claimed p) = v_accepted who
     ∧ (paymentIdentifiers shop = None ∨ identifier p = None
        ∨ ∃ id, identifier p = Some id ∧ Bound id (fingerprint sha256 shop req k) i (Ok bind_new) ∈ log)).
Proof.
  intros log.
  assert (Hq : ∀ post s, Asked "/settle" post s ∈ log → Asked "/settle" post s ∈ questions log).
  { intros post s Hin. apply list_elem_of_In, filter_In. split; [by apply list_elem_of_In|done]. }
  pose proof (request_history sha256 shop req w) as Hh. fold log in Hh.
  clearbody log. revert Hh. generalize (reply_of sha256 shop req w). intros reply Hh.
  assert (Hcharge : ∀ k p i pre log', log = (pre ++ log')%list → questions pre = [] →
      (∀ r a, Served r a ∉ pre) → asked_for k p i log → charging shop req k p i log' reply →
      (paymentIdentifiers shop = None ∨ identifier p = None
        ∨ ∃ id, identifier p = Some id ∧ Bound id (fingerprint sha256 shop req k) i (Ok bind_new) ∈ log) →
      (∀ r a, Served r a ∈ log → ∃ s, Asked "/settle" (posted shop req k p) s ∈ log ∧ payer r = claimed p
         ∧ intent r = i ∧ rc_amount r = fromTokenAmount (amount (terms shop)) ∧ rc_payTo r = payTo (terms shop)
         ∧ decideSettlement (response_of s) (claimed p) = settled (transaction r) (replayed r))
      ∧ (∀ post s, Asked "/settle" post s ∈ log → ∃ v who,
           post = posted shop req k p ∧ questions log = [Asked "/verify" post v; Asked "/settle" post s]
           ∧ decideVerification (response_of v) (claimed p) = v_accepted who)).
  { intros k p i pre log' Hlog Hpre Hns Haf Hc Hid.
    destruct (charging_shape _ _ _ _ _ Hc) as (_ & v & Hv). rewrite Hlog in *.
    destruct Hv as [[Hql Hnone]|(s & who & Hql & Hacc & Hs)].
    - split; [set_solver|]. intros post s Hin. apply Hq in Hin. rewrite questions_app, Hpre, Hql in Hin. set_solver.
    - assert (Hset : Asked "/settle" (posted shop req k p) s ∈ (pre ++ log')%list).
      { apply elem_of_app. right. apply list_elem_of_In.
        apply (proj1 (filter_In is_question _ _)). fold (questions log'). rewrite Hql. right. by left. }
      split.
      + intros r a [?|Hin]%elem_of_app; [set_solver|].
        destruct (Hs _ _ Hin) as (tx & again & Hd & ->). by exists s.
      + intros post s' Hin. apply Hq in Hin. rewrite questions_app, Hpre, Hql in *. exists v, who. set_solver. }
  remember log as l0 eqn:Hlog in Hh.
  destruct Hh as [Hl|r Hl Hr|presented Hl Hr|k Hl Hr|k p log' o Hl Hr Ht]; try (subst log; nothing).
  assert (Hk : Resolved (Some k) ∈ log) by (rewrite <- Hlog; set_solver).
  destruct Ht as [e Hi|i log'' o Hi Hno Hc|i id e Hi Hid|i id reason prior Hi Hid|i id s log'' o Hi Hid Hdel|i id log'' o Hi Hid Hc];
    try (subst log; nothing).
  - assert (Haf : asked_for k p i log) by done.
    destruct (Hcharge k p i [Resolved (Some k)] log'' (eq_sym Hlog) eq_refl ltac:(set_solver) Haf Hc ltac:(tauto)) as [H1 H2].
    split.
    + intros r a Hin. destruct (H1 _ _ Hin) as (s & ? & ? & ? & ? & ? & ?). exists k, p, i. split_and!; try done.
      right. by exists s.
    + intros post s Hin. destruct (H2 _ _ Hin) as (v & who & ? & ? & ?). exists k, p, i, v, who. split_and!; try done. tauto.
  - assert (Haf : asked_for k p i log) by done.
    destruct (delivery_served _ _ _ Hdel) as (Hq' & _ & a' & _ & _ & Hone).
    assert (Hnil : questions log = []) by (rewrite <- Hlog; exact Hq'). split.
    + intros r a Hin. assert (Hr' : r = receipt_of shop i (rp_payer s) (rp_txHash s) true).
      { apply (Hone r a). rewrite <- Hlog in Hin. set_solver. }
      subst r. exists k, p, i. split_and!; try done. left. exists id, s. split_and!; try done. rewrite <- Hlog. set_solver.
    + intros post s' Hin. apply Hq in Hin. rewrite Hnil in Hin. set_solver.
  - assert (Haf : asked_for k p i log) by done.
    set (b := Bound id (fingerprint sha256 shop req k) i (Ok bind_new)) in *.
    assert (Hb : b ∈ log) by (rewrite <- Hlog; set_solver).
    destruct (Hcharge k p i [Resolved (Some k); b] log'' (eq_sym Hlog) eq_refl ltac:(set_solver) Haf Hc) as [H1 H2];
      [by eauto|]. split.
    + intros r a Hin. destruct (H1 _ _ Hin) as (s & ? & ? & ? & ? & ? & ?). exists k, p, i. split_and!; try done.
      right. by exists s.
    + intros post s Hin. destruct (H2 _ _ Hin) as (v & who & ? & ? & ?). exists k, p, i, v, who. split_and!; try done.
      right. right. by exists id.
Qed.
End asked.
