(* ===== verification/PaywallTell.v ===== *)
(** * What the buyer's agent makes of the paywall's answer

    The two ends of the wire together: the answer of [Paywall] read by [PaymentClient]. *)

From Stdlib Require Import ZArith Lia Ascii String.
From stdpp Require Import base gmap strings list.
From S2P Require Import Prelude Token Json Toolkit Bootstrap Contract X402 Status Gate Codec Redact.
From S2P Require Import Errors Identifiers PaymentClient Seller Paywall.
Open Scope string_scope.
Open Scope Z_scope.

(** The reply as the buyer's fetch shows it. *)
Definition as_response (reply : Reply) : HttpResponse :=
  {| http_status := rp_status reply; header := λ k, rp_headers reply !! k;
     json_body := Ok (rp_body reply); text_body := Ok "" |}.

(** A receipt the reply carries. *)
Definition carries (reply : Reply) (receipt : jsval) : Prop :=
  ∃ h, rp_headers reply !! PAYMENT_RESPONSE_HEADER = Some h ∧ encodePaymentResponseHeader receipt = Ok h.

Lemma receipt_heard reply receipt :
  carries reply receipt → json_ok receipt = true →
  decoded (header (as_response reply) PAYMENT_RESPONSE_HEADER) = Some receipt.
Proof.
  intros (h & Hh & He) Hok. cbn [header as_response]. rewrite Hh. unfold decoded.
  destruct (header_decodes receipt Hok) as (h' & He' & Hd).
  assert (h' = h) as -> by (unfold encodePaymentResponseHeader in He; congruence).
  unfold decodePaymentResponseHeader. by rewrite Hd.
Qed.

Section tell.
Context `{Toolkit} {W : Type}.
Variable sha256 : string → string.

(** A refusal, as the paywall writes it. *)
Record tells (reply : Reply) (word : string) (payer : option string) (tx : string) (status : Z) : Prop := {
  tl_status : rp_status reply = status;
  tl_receipt : carries reply (failure_receipt word payer tx);
}.

Lemma refuse_tells word payer tx status body reply :
  refuse word payer tx status body = Ok reply → tells reply word payer tx status.
Proof.
  unfold refuse, writeFailureReceipt. intros (h & (text & Ht & [= <-])%rbind_ok & [= <-])%rbind_ok.
  split; [done|]. exists text. split; [apply lookup_insert_eq|done].
Qed.

Lemma pay_again_tells (shop : Shop W) req k word payer tx reply :
  pay_again shop req k word payer tx = Ok reply → tells reply word (Some payer) tx 402.
Proof.
  unfold pay_again, writeFailureReceipt, offer.
  intros (h & (text & Ht & [= <-])%rbind_ok & (o & Ho & [= <-])%rbind_ok)%rbind_ok.
  split; [done|]. exists text. split; [|done]. cbn [rp_headers].
  rewrite lookup_insert_ne by done. apply lookup_insert_eq.
Qed.

Lemma failure_receipt_ok word payer tx :
  is_ascii (chars word) = true → (∀ p, payer = Some p → utf8_valid (chars p) = true) →
  utf8_valid (chars tx) = true → json_ok (failure_receipt word payer tx) = true.
Proof.
  intros Hw Hp Ht. unfold failure_receipt. apply ascii_utf8 in Hw.
  destruct payer as [p|]; cbn [json_ok optional fmap option_fmap option_map app map fst snd forallb];
    rewrite ?Hw, ?Ht, ?(Hp _ eq_refl); vm_compute; reflexivity.
Qed.

Lemma failure_fields word payer tx :
  prop (failure_receipt word payer tx) "errorReason" = JStr word
  ∧ prop (failure_receipt word payer tx) "transaction" = JStr tx.
Proof. by destruct payer. Qed.

(** What the agent concludes from a refusal. *)
Lemma tells_doubt reply word payer tx status id :
  tells reply word payer tx status → between 200 299 status = false →
  is_ascii (chars word) = true → (∀ p, payer = Some p → utf8_valid (chars p) = true) →
  utf8_valid (chars tx) = true →
  code_of (refusal_result (as_response reply) id) = Some SETTLEMENT_UNKNOWN ↔
  status ∈ SETTLEMENT_UNKNOWN_STATUSES ∨ TRANSACTION_HASH tx = true ∨ word ∈ doubt_words.
Proof.
  intros [Hs Hc] Hb Hw Hp Ht. destruct (failure_fields word payer tx) as [He Htx].
  assert (Hok : http_ok (as_response reply) = false) by (unfold http_ok; cbn; by rewrite Hs).
  destruct (refusal_code (λ _, None) (as_response reply) id Hok) as [-> _]. unfold in_doubt. rewrite Hok.
  unfold named_hash, named_word. rewrite (receipt_heard _ _ Hc) by (by apply failure_receipt_ok).
  rewrite He, Htx. cbn [http_status as_response readTransaction]. rewrite Hs.
  destruct (TRANSACTION_HASH tx) eqn:Hh.
  - split; [intros _; tauto|]. intros _. split; [done|]. right. left. by eexists.
  - split.
    + intros [_ [?|[[? ?]|(w & [= <-] & ?)]]]; [tauto|done|tauto].
    + intros [?|[?|?]]; [|done|]; (split; [done|]); [tauto|]. right. right. by eexists.
Qed.

(** A reply without a receipt. *)
Lemma silent_doubt reply id :
  rp_headers reply !! PAYMENT_RESPONSE_HEADER = None → between 200 299 (rp_status reply) = false →
  code_of (refusal_result (as_response reply) id) = Some SETTLEMENT_UNKNOWN ↔
  rp_status reply ∈ SETTLEMENT_UNKNOWN_STATUSES.
Proof.
  intros Hn Hb. destruct (refusal_code (λ _, None) (as_response reply) id Hb) as [-> _].
  unfold in_doubt, named_hash, named_word. cbn [header as_response http_status]. rewrite Hn. cbn [decoded].
  unfold http_ok. cbn [http_status as_response]. rewrite Hb. split.
  - intros [_ [?|[[? ?]|(w & ? & _)]]]; done.
  - intros. split; [done|tauto].
Qed.
Lemma hex_utf8 n s : re_0x is_hex n s = true → utf8_valid (chars s) = true.
Proof.
  unfold re_0x. destruct (strip_0x s) as [q|] eqn:Hs; [|done]. apply strip_0x_Some in Hs as ->.
  unfold re_class. intros [_ Hf]%andb_true_iff. apply ascii_utf8.
  change (is_ascii (chars ("0x" ++ q)) = true). rewrite chars_append. cbn. by apply hex_ascii.
Qed.

(** Hashes and words of a settlement's reading. *)
Lemma decided_hash r who :
  match decideSettlement r who with
  | unavailable w => w ∈ [RATE_LIMITED; FACILITATOR_NOT_READY]
  | unknown tx | settled tx _ => ∀ t, tx = Some t → TRANSACTION_HASH t = true
  | failed w tx => w ∈ KNOWN_REFUSAL_REASONS ∧ ∀ t, tx = Some t → TRANSACTION_HASH t = true
  end.
Proof.
  assert (Hr : ∀ v t, readTransaction v = Some t → TRANSACTION_HASH t = true) by (intros v t; apply readTransaction_hash).
  unfold decideSettlement. destruct (_ || _); [done|]. destruct (is_str _ _); [by left|].
  destruct (is_str _ _); [by right; left|]. destruct (_ || _); [intros t; apply Hr|].
  destruct (negb _).
  - destruct (readTransaction _) as [t|] eqn:Ht.
    + apply Hr in Ht. destruct (has _ _); [split; [apply fold_known|]|]; by intros ? [= <-].
    + split; [apply fold_known|done].
  - destruct (negb _); intros t; apply Hr.
Qed.

Lemma verdict_words r who :
  match decideVerification r who with
  | v_unavailable w => w ∈ [RATE_LIMITED; FACILITATOR_NOT_READY]
  | v_rejected w => w ∈ KNOWN_REFUSAL_REASONS
  | v_accepted _ => True
  end.
Proof.
  unfold decideVerification. destruct (_ || _); [by right; left|]. destruct (is_str _ _); [by left|].
  destruct (_ || _); [by right; left|]. destruct (negb _); [apply fold_known|done].
Qed.

Lemma known_words w : w ∈ KNOWN_REFUSAL_REASONS → is_ascii (chars w) = true ∧ w ∉ doubt_words.
Proof.
  assert (Hall : forallb (λ w, is_ascii (chars w) && bool_decide (w ∉ doubt_words)) KNOWN_REFUSAL_REASONS = true)
    by (vm_compute; reflexivity).
  rewrite forallb_forall in Hall. intros Hin%list_elem_of_In. specialize (Hall w Hin). by bools.
Qed.

Lemma unavailable_words w : w ∈ [RATE_LIMITED; FACILITATOR_NOT_READY] → is_ascii (chars w) = true ∧ w ∉ doubt_words.
Proof.
  assert (Hall : forallb (λ w, is_ascii (chars w) && bool_decide (w ∉ doubt_words)) [RATE_LIMITED; FACILITATOR_NOT_READY] = true)
    by (vm_compute; reflexivity).
  rewrite forallb_forall in Hall. intros Hin%list_elem_of_In. specialize (Hall w Hin). by bools.
Qed.

Lemma hash_utf8 t : TRANSACTION_HASH t = true → utf8_valid (chars t) = true.
Proof. apply hex_utf8. Qed.
Lemma hash_or_empty tx : (∀ t, tx = Some t → TRANSACTION_HASH t = true) →
  utf8_valid (chars (default "" tx)) = true ∧ (TRANSACTION_HASH (default "" tx) = true ↔ is_Some tx).
Proof.
  intros Ht. destruct tx as [t|]; cbn [default from_option].
  - specialize (Ht t eq_refl). split; [by apply hash_utf8|]. split; [by eexists|done].
  - split; [done|]. split; [done|by intros [? ?]].
Qed.
(** ** Charged, as far as the log knows *)
Definition settlement_doubt (o : SettlementOutcome) : Prop :=
  match o with
  | unavailable _ => False
  | unknown _ | settled _ _ => True
  | failed w tx => w = VENDOR_NOT_CREDITED ∨ is_Some tx
  end.
(** The payer of this request may be charged: for it, or under its identifier. *)
Definition may_be_charged (shop : Shop W) (req : Request) (log : list Event) : Prop :=
  ∃ p, header_read shop req = inr (Some p)
  ∧ ((∃ post a, Asked "/settle" post a ∈ log ∧ settlement_doubt (decideSettlement (response_of a) (claimed p)))
     ∨ ∃ id print i s, Bound id print i (Ok (bind_settled s)) ∈ log
         ∨ Bound id print i (Ok (bind_conflict conflict_payment_intent (Some s))) ∈ log).

(** What the binding hands out was stored from a settlement. *)
Definition bound_ok (b : BindResult) : Prop :=
  match b with
  | bind_settled s | bind_conflict _ (Some s) =>
      utf8_valid (chars (rp_payer s)) = true ∧ ∀ h, rp_txHash s = Some h → TRANSACTION_HASH h = true
  | _ => True
  end.

(** The agent reads the reply as doubt exactly when [doubt]. *)
Definition heard (reply : Reply) (doubt : Prop) : Prop :=
  between 200 299 (rp_status reply) = false →
  ∀ id, code_of (refusal_result (as_response reply) id) = Some SETTLEMENT_UNKNOWN ↔ doubt.

Lemma tells_heard reply word payer tx status doubt :
  tells reply word payer tx status → is_ascii (chars word) = true →
  (∀ p, payer = Some p → utf8_valid (chars p) = true) → utf8_valid (chars tx) = true →
  (status ∈ SETTLEMENT_UNKNOWN_STATUSES ∨ TRANSACTION_HASH tx = true ∨ word ∈ doubt_words ↔ doubt) →
  heard reply doubt.
Proof.
  intros Ht Hw Hp Hx Hd Hb id. rewrite <- Hd. eapply tells_doubt; try done. by rewrite <- (tl_status _ _ _ _ _ Ht).
Qed.

Lemma served_heard (shop : Shop W) r log reply :
  delivery shop r log (Ok reply) → utf8_valid (chars (payer r)) = true →
  (∃ t, transaction r = Some t ∧ TRANSACTION_HASH t = true) → heard reply True.
Proof.
  intros Hdel Hp (t & Ht & Hh) Hb id. destruct (delivery_served _ _ _ _ Hdel) as (_ & _ & a & _ & Ha & _).
  destruct a as [inner|e]; [|done]. symmetry in Ha. cbn [served] in Ha. unfold stamp in Ha.
  apply rbind_ok in Ha as (text & Htext & [= Hr]).
  assert (Hc : carries reply (success_receipt r)).
  { exists text. split; [|done]. rewrite <- Hr. apply lookup_insert_eq. }
  assert (Hok : json_ok (success_receipt r) = true).
  { unfold success_receipt. rewrite Ht. cbn [json_ok default from_option map fst snd forallb].
    change (Datatypes.id t) with t. rewrite Hp, (hash_utf8 _ Hh). vm_compute. reflexivity. }
  destruct (refusal_code (λ _, None) (as_response reply) id Hb) as [-> _]. unfold in_doubt, http_ok.
  cbn [http_status as_response]. rewrite Hb. split; [done|]. intros _. split; [done|]. right. left.
  unfold named_hash. rewrite (receipt_heard _ _ Hc Hok). unfold success_receipt. rewrite Ht.
  cbn [prop assoc_last String.eqb Ascii.eqb Bool.eqb default from_option]. exists t.
  change (readTransaction (JStr t) = Some t). unfold readTransaction. by rewrite Hh.
Qed.

Lemma settling_heard (shop : Shop W) req k p i log reply :
  settling shop req k p i log (Ok reply) → utf8_valid (chars (claimed p)) = true →
  (∀ r a, Served r a ∈ log → is_Some (transaction r)) →
  ∃ a, questions log = [Asked "/settle" (posted shop req k p) a]
    ∧ heard reply (settlement_doubt (decideSettlement (response_of a) (claimed p))).
Proof.
  intros Hs Hp Hhash.
  assert (Hpay : ∀ q, Some (claimed p) = Some q → utf8_valid (chars q) = true) by (by intros q [= <-]).
  remember (Ok reply) as o eqn:Hr. revert Hr Hhash.
  destruct Hs as [a reason Hd|a tx Hd|a tx Hd|a reason tx Hd Hne|a tx again recs log' o Hd Hrec Hdel]; intros Hr Hhash.
  1-4: exists a; (split; [done|]); rewrite Hd; pose proof (decided_hash (response_of a) (claimed p)) as Hx; rewrite Hd in Hx.
  - destruct (unavailable_words _ Hx) as [Hw Hno]. apply refuse_tells in Hr.
    eapply tells_heard; [exact Hr|done..|]. cbn [settlement_doubt]. split; [|done].
    intros [Hst|[?|?]]; [|done|done]. by vm_compute in Hst; repeat (apply elem_of_cons in Hst as [?|Hst]; [done|]); apply elem_of_nil in Hst.
  - destruct (hash_or_empty tx Hx) as [Hu _]. apply refuse_tells in Hr.
    eapply tells_heard; [exact Hr|done..|]. cbn [settlement_doubt]. split; [done|]. intros _. left.
    by apply in_statuses_iff.
  - destruct Hx as [_ Hx]. destruct (hash_or_empty tx Hx) as [Hu _]. apply refuse_tells in Hr.
    eapply tells_heard; [exact Hr|done..|]. cbn [settlement_doubt]. split; [tauto|]. intros _. left.
    by apply in_statuses_iff.
  - destruct Hx as [Hk Hx]. destruct (hash_or_empty tx Hx) as [Hu Hh]. destruct (known_words _ Hk) as [Hw Hno].
    apply pay_again_tells in Hr. eapply tells_heard; [exact Hr|done..|].
    rewrite Hh. cbn [settlement_doubt]. rewrite <- in_statuses_iff. naive_solver.
  - subst o. destruct (remembering_quiet _ _ _ _ Hrec) as (Hq & _ & _).
    destruct (delivery_served _ _ _ _ Hdel) as (Hq' & _ & x & Hin & _ & _). exists a. split.
    { change (Asked ?x ?y ?z :: ?l) with ([Asked x y z] ++ l)%list. by rewrite !questions_app, Hq, Hq'. }
    rewrite Hd. cbn [settlement_doubt]. eapply served_heard; [exact Hdel|done|].
    destruct (Hhash (receipt_of shop i (claimed p) tx again) x) as [t Ht]; [set_solver|].
    exists t. split; [done|]. pose proof (decided_hash (response_of a) (claimed p)) as Hx. rewrite Hd in Hx.
    by apply Hx.
Qed.

(** Answers that say nobody was charged. *)
Lemma tells_quiet reply word payer tx status :
  tells reply word payer tx status → is_ascii (chars word) = true →
  (∀ p, payer = Some p → utf8_valid (chars p) = true) →
  utf8_valid (chars tx) = true → TRANSACTION_HASH tx = false → word ∉ doubt_words →
  status ∉ SETTLEMENT_UNKNOWN_STATUSES → heard reply False.
Proof.
  intros Ht Hw Hp Hu Hx Hd Hs. eapply tells_heard; [done..|]. rewrite Hx. split; [|done].
  intros [?|[?|?]]; done.
Qed.
Lemma silent_quiet reply :
  rp_headers reply !! PAYMENT_RESPONSE_HEADER = None → rp_status reply ∉ SETTLEMENT_UNKNOWN_STATUSES →
  heard reply False.
Proof. intros Hn Hs Hb id. rewrite silent_doubt by done. tauto. Qed.
Lemma heard_iff reply P Q : heard reply P → (P ↔ Q) → heard reply Q.
Proof. intros HP HQ Hb id. by rewrite (HP Hb id). Qed.

Lemma plain s : in_statuses SETTLEMENT_UNKNOWN_STATUSES s = false → s ∉ SETTLEMENT_UNKNOWN_STATUSES.
Proof. intros Hs Hin%in_statuses_iff. congruence. Qed.

Lemma addr_utf8 `{!ToolkitLaws _} v : is_addr v = true → utf8_valid (chars (getAddress (text_of v))) = true.
Proof. destruct v; try done. intros Hv. eapply hex_utf8, isAddress_shape, getAddress_address, Hv. Qed.

(** What is known of a payment that was read. *)
Lemma delegated_parties h c :
  readDelegatedPayment h = inl c →
  is_addr (prop (prop c "payload") "delegator") = true
  ∧ is_addr (prop (prop c "payload") "delegationManager") = true.
Proof.
  unfold readDelegatedPayment. destruct (decodePaymentHeader h) as [c'|e]; [|done].
  destruct (_ || _); [done|]. destruct (_ || _ || _ || _) eqn:Hbad; [done|]. intros [= ->]. by bools.
Qed.
Lemma presented_payment (shop : Shop W) req p :
  header_read shop req = inr (Some p) →
  ∃ h, readDelegatedPayment h = inl (payload p)
    ∧ claimed p = getAddress (text_of (prop (prop (payload p) "payload") "delegator")).
Proof.
  unfold header_read, read_header. destruct (rq_header req _) as [h|]; [|done]. destruct (_ <? _); [done|].
  destruct (readDelegatedPayment h) as [c|e] eqn:Hc; [|done].
  intros Hp. exists h. destruct (paymentIdentifiers shop); [destruct (readPaymentIdentifier c)|];
    revert Hp; try done; by intros [= <-].
Qed.

Lemma claimed_address `{!ToolkitLaws _} (shop : Shop W) req p :
  header_read shop req = inr (Some p) → utf8_valid (chars (claimed p)) = true.
Proof. intros (h & Hc & ->)%presented_payment. by apply addr_utf8, (delegated_parties h). Qed.

Lemma header_unread_heard `{!ToolkitLaws _} (shop : Shop W) req reply :
  header_read shop req = inl (Ok reply) → heard reply False.
Proof.
  assert (Hm : ∀ payer detail, malformed_payment payer detail = Ok reply →
      (∀ p, payer = Some p → utf8_valid (chars p) = true) → heard reply False).
  { intros payer detail Hr%refuse_tells Hp. eapply tells_quiet; [exact Hr|done..| |by apply plain].
    by apply (bool_decide_eq_true_1 (INVALID_PAYLOAD ∉ doubt_words)). }
  unfold header_read, read_header. destruct (rq_header req _) as [h|]; [|done].
  destruct (_ <? _); [intros Hr%(inj inl); by eapply Hm|].
  destruct (readDelegatedPayment h) as [c|e] eqn:Hc; [|intros Hr%(inj inl); by eapply Hm].
  apply delegated_parties in Hc as [Hc _]. destruct (paymentIdentifiers shop); [|done].
  destruct (readPaymentIdentifier c); try done. intros Hr%(inj inl). eapply Hm; [done|].
  intros q [= <-]. by apply addr_utf8.
Qed.

(** Whether a payment that went to the facilitator was charged is in the settlement's answer. *)
Lemma charging_heard (shop : Shop W) req k p i log reply :
  charging shop req k p i log (Ok reply) → utf8_valid (chars (claimed p)) = true →
  (∀ r a, Served r a ∈ log → is_Some (transaction r)) →
  heard reply (∃ post a, Asked "/settle" post a ∈ log
    ∧ settlement_doubt (decideSettlement (response_of a) (claimed p))).
Proof.
  intros Hc Hp Hhash.
  assert (Hpay : ∀ q, Some (claimed p) = Some q → utf8_valid (chars q) = true) by (by intros q [= <-]).
  remember (Ok reply) as o eqn:Hr. revert Hr Hhash.
  destruct Hc as [a reason Hd|a reason Hd|a who log' o Hd Hs]; intros Hr Hhash;
    pose proof (verdict_words (response_of a) (claimed p)) as Hx; rewrite Hd in Hx.
  - destruct (unavailable_words _ Hx) as [Hw Hno]. apply refuse_tells in Hr.
    eapply heard_iff; [eapply tells_quiet; [exact Hr|done..|by apply plain]|set_solver].
  - destruct (known_words _ Hx) as [Hw Hno]. apply pay_again_tells in Hr.
    eapply heard_iff; [eapply tells_quiet; [exact Hr|done..|by apply plain]|set_solver].
  - subst o. destruct (settling_heard _ _ _ _ _ _ _ Hs Hp) as (s & Hq & Hh); [set_solver|].
    eapply heard_iff; [exact Hh|]. split.
    + intros Hdoubt. exists (posted shop req k p), s. split; [|done]. right.
      apply list_elem_of_In, (proj1 (filter_In is_question _ _)). fold (questions log'). rewrite Hq. by left.
    + intros (post & s' & [?|Hin]%elem_of_cons & Hdoubt); [done|].
      assert (Hin' : Asked "/settle" post s' ∈ questions log').
      { apply list_elem_of_In, filter_In. split; [by apply list_elem_of_In|done]. }
      rewrite Hq in Hin'. set_solver.
Qed.

(** What the binding answered about an earlier charge. *)
Definition remembered_charge (log : list Event) : Prop :=
  ∃ id print i s, Bound id print i (Ok (bind_settled s)) ∈ log
    ∨ Bound id print i (Ok (bind_conflict conflict_payment_intent (Some s))) ∈ log.
Definition asked_charge (p : Presented) (log : list Event) : Prop :=
  ∃ post a, Asked "/settle" post a ∈ log ∧ settlement_doubt (decideSettlement (response_of a) (claimed p)).

Lemma conflict_heard p reason prior reply :
  conflict_reply p reason prior = Ok reply → utf8_valid (chars (claimed p)) = true →
  bound_ok (bind_conflict reason prior) →
  heard reply (reason = conflict_payment_intent ∧ is_Some prior).
Proof.
  intros Hr Hp Hok.
  assert (Hquiet : refuse PAYMENT_IDENTIFIER_CONFLICT (Some (claimed p)) "" 409 (rp_body reply) = Ok reply →
      heard reply False).
  { intros Ht%refuse_tells. eapply tells_quiet; [exact Ht|done|by intros ? [= <-]|done|done| |by apply plain].
    by apply (bool_decide_eq_true_1 (PAYMENT_IDENTIFIER_CONFLICT ∉ doubt_words)). }
  assert (Hbody : ∀ w q x s b, refuse w q x s b = Ok reply → rp_body reply = b).
  { intros w q x s b. unfold refuse. by intros (h & _ & [= <-])%rbind_ok. }
  unfold conflict_reply in Hr. destruct reason, prior as [s|];
    try (pose proof (Hbody _ _ _ _ _ Hr) as Hb; rewrite <- Hb in Hr;
         eapply heard_iff; [by apply Hquiet|]; split; [done|]; by intros [? [? ?]]).
  destruct Hok as [Hpay Hhash]. destruct (hash_or_empty (rp_txHash s) Hhash) as [Hu _].
  apply refuse_tells in Hr. eapply tells_heard; [exact Hr|done|by intros ? [= <-]|done|].
  split; [by eauto|]. intros _. right. right.
  by apply (bool_decide_eq_true_1 (PAYMENT_IDENTIFIER_SETTLED ∈ doubt_words)).
Qed.

Lemma taking_heard (shop : Shop W) req k p log reply :
  taking sha256 shop req k p log (Ok reply) → utf8_valid (chars (claimed p)) = true →
  (∀ id print i b, Bound id print i (Ok b) ∈ log → bound_ok b) →
  (∀ r a, Served r a ∈ log → is_Some (transaction r)) →
  heard reply (asked_charge p log ∨ remembered_charge log).
Proof.
  intros Ht Hp Hok Hhash. remember (Ok reply) as o eqn:Hr. revert Hr Hok Hhash.
  destruct Ht as [e Hi|i log' o Hi Hno Hc|i id e Hi Hid|i id reason prior Hi Hid|i id s log' o Hi Hid Hdel|i id log' o Hi Hid Hc];
    intros Hr Hok Hhash; try done; try subst o.
  - destruct (charging_shape _ _ _ _ _ _ _ Hc) as [Hb _].
    eapply heard_iff; [by eapply charging_heard|]. split; [by left|]. intros [?|(?&?&?&?&[?|?])]; [done|set_solver..].
  - eapply heard_iff; [eapply conflict_heard; [done..|]; eapply Hok; by left|]. split.
    + intros [-> [s ->]]. right. eexists _, _, _, s. right. by left.
    + intros [(post & a & Hin & _)|(? & ? & ? & s & [Hin|Hin])].
      * set_solver.
      * set_solver.
      * apply list_elem_of_singleton in Hin as [= _ _ _ <- <-]. by eauto.
  - assert (Hb : bound_ok (bind_settled s)) by (eapply Hok; by left). destruct Hb as [Hpay Htx].
    eapply heard_iff; [eapply served_heard; [exact Hdel|done|]|].
    + destruct (delivery_served _ _ _ _ Hdel) as (_ & _ & a & Hin & _ & _).
      destruct (Hhash (receipt_of shop i (rp_payer s) (rp_txHash s) true) a) as [t Ht]; [by right|].
      exists t. split; [done|]. by apply Htx.
    + split; [|done]. intros _. right. eexists _, _, _, s. left. by left.
  - destruct (charging_shape _ _ _ _ _ _ _ Hc) as [Hb _].
    eapply heard_iff; [eapply charging_heard; [done..|set_solver]|]. unfold asked_charge, remembered_charge. set_solver.
Qed.

End tell.

(** ** Every request is answered *)
Lemma map_result_total {A B} (f : A → result B) l :
  Forall (λ a, is_ok (f a) = true) l → is_ok (map_result f l) = true.
Proof.
  induction 1 as [|a l Ha Hl IH]; [done|]. cbn [map_result].
  destruct (f a); [|done]. by destruct (map_result f l).
Qed.
Lemma map_result_parts {A B} (f : A → result B) l a :
  is_ok (map_result f l) = true → a ∈ l → is_ok (f a) = true.
Proof.
  induction l as [|x l IH]; cbn [map_result]; intros Hok; [by intros ?%elem_of_nil|].
  destruct (f x) eqn:Hx; [|done]. destruct (map_result f l); [|done].
  intros [->|Hin]%elem_of_cons; [by rewrite Hx|by apply IH].
Qed.

(** What JSON text exists for. *)
Definition prints (v : jsval) : Prop := is_ok (stringify v) = true.
Lemma prints_object fields : Forall (λ e, prints e.2) fields → prints (JObj fields).
Proof.
  intros Hf. unfold prints. cbn [stringify].
  match goal with |- context [map_result ?f ?l] => assert (Hm : is_ok (map_result f l) = true) end.
  { apply map_result_total, Forall_forall. intros e He%own_entries_incl.
    apply list_elem_of_In, in_map_iff in He as (x & <- & Hx%list_elem_of_In).
    rewrite Forall_forall in Hf. specialize (Hf x Hx). unfold prints in Hf. cbn [snd].
    by destruct (stringify x.2). }
  by destruct (map_result _ _).
Qed.
Lemma prints_list l : Forall prints l → prints (JArr l).
Proof.
  intros Hf. unfold prints. cbn [stringify].
  match goal with |- context [map_result ?f ?l] => assert (Hm : is_ok (map_result f l) = true) end.
  { apply map_result_total. eapply Forall_impl; [exact Hf|]. intros x Hx. unfold prints in Hx.
    cbn beta. by destruct (stringify x). }
  by destruct (map_result _ _).
Qed.
Lemma prints_fields fields e :
  NoDup (map fst fields) → prints (JObj fields) → e ∈ fields → prints e.2.
Proof.
  intros Hn Hp He. unfold prints in *. cbn [stringify] in Hp.
  match type of Hp with context [map_result ?f ?l] => assert (Hm : is_ok (map_result f l) = true) end.
  { by destruct (map_result _ _). }
  apply (map_result_parts _ _ (e.1, stringify e.2)) in Hm.
  - cbn [snd] in Hm. by destruct (stringify e.2).
  - apply own_entries_elem; [by rewrite map_map|]. apply list_elem_of_In, (in_map (λ e, (e.1, stringify e.2))).
    by apply list_elem_of_In.
Qed.
Lemma prints_strings l : prints (strings l).
Proof. apply prints_list, Forall_forall. intros x Hx. by apply list_elem_of_In, in_map_iff in Hx as (s & <- & _). Qed.
Lemma prints_header v : prints v → ∃ h, encodeBase64Json v = Ok h.
Proof. unfold prints, encodeBase64Json. destruct (stringify v); [eauto|done]. Qed.

Section answers.
Context `{ToolkitLaws} {W : Type}.
Variable sha256 : string → string.

Lemma prints_failure word payer tx : prints (failure_receipt word payer tx).
Proof. apply prints_object. destruct payer; repeat constructor. Qed.
Lemma prints_success r : prints (success_receipt r).
Proof. apply prints_object. repeat constructor. Qed.
Lemma prints_requirements t k : prints (requirements_of t k).
Proof.
  apply prints_object. repeat (apply Forall_cons; split; [done|]). apply Forall_singleton. apply prints_object.
  destruct (fk_manager k); repeat (apply Forall_cons; split; [first [done|apply prints_strings]|]); constructor.
Qed.

(** The answers that carry the two headers no cache and no proxy may miss. *)
Definition proper (o : result Reply) : Prop :=
  ∃ reply, o = Ok reply ∧ rp_headers reply !! "Cache-Control" = Some "no-store"
    ∧ rp_headers reply !! "Vary" = Some PAYMENT_SIGNATURE_HEADER.

Lemma refuse_proper word payer tx status body : proper (refuse word payer tx status body).
Proof.
  unfold refuse, writeFailureReceipt. destruct (prints_header _ (prints_failure word payer tx)) as [h Hh].
  unfold encodePaymentResponseHeader. rewrite Hh. cbn [rbind]. by eexists.
Qed.
Lemma stamp_proper r reply : proper (stamp r reply).
Proof.
  unfold stamp. destruct (prints_header _ (prints_success r)) as [h Hh].
  unfold encodePaymentResponseHeader. rewrite Hh. cbn [rbind]. eexists. split; [done|]. cbn [rp_headers].
  split; (rewrite lookup_insert_ne by done; by apply lookup_union_Some_l).
Qed.

(** The terms a paywall starts with. *)
Definition sound_terms (t : Terms) : Prop :=
  isAddress (payTo t) = true ∧ 0 < amount t ∧ ∀ e, advertised t = Some e → prints e.

Lemma terms_sound o t :
  buildPaywall o = Ok t → (∀ l, po_extensions o = Some (JObj l) → NoDup (map fst l)) → sound_terms t.
Proof.
  unfold buildPaywall. intros Hb Hn. apply rbind_ok in Hb as (to & Hto & Hb).
  apply rbind_ok in Hb as (price & Hprice & Hb). apply throws_ok in Hb as [_ Hb].
  apply rbind_ok in Hb as ([] & Hext & Hb). apply throws_ok in Hb as [_ [= <-]].
  split_and!; cbn [payTo amount advertised].
  - unfold parsePayTo in Hto. apply throws_ok in Hto as [Ha Hto]. apply throws_ok in Hto as [_ [= <-]].
    apply getAddress_address. by bools.
  - unfold parsePrice in Hprice. apply rbind_ok in Hprice as (z & _ & Hz). apply throws_ok in Hz as [Hz [= <-]]. bools; lia.
  - assert (Hp : ∀ e, po_extensions o = Some e → prints e).
    { intros e He. rewrite He in Hext. unfold prints. by destruct (stringify e). }
    destruct (po_identifiers o); [|exact Hp]. intros e [= <-]. apply prints_object, Forall_app. split.
    + destruct (po_extensions o) as [[]|] eqn:He; try constructor. apply Forall_forall. intros x Hx.
      eapply prints_fields; [by eapply Hn|by apply Hp|done].
    + by constructor.
Qed.

Lemma offer_proper t base req k h :
  sound_terms t → (h !! "Cache-Control" = Some "no-store") → h !! "Vary" = Some PAYMENT_SIGNATURE_HEADER →
  proper (offer t base req (requirements_of t k) h).
Proof.
  intros (_ & _ & Hadv) Hc Hv. unfold offer.
  assert (Hp : prints (offer_document t base req (requirements_of t k))).
  { apply prints_object. repeat (apply Forall_cons; split; [try done|]).
    - apply prints_list, Forall_singleton, prints_requirements.
    - destruct (advertised t) as [e|]; [|constructor]. apply Forall_singleton. by apply Hadv. }
  destruct (prints_header _ Hp) as [text Ht]. unfold encodePaymentRequiredHeader. rewrite Ht. cbn [rbind].
  eexists. split; [done|]. cbn [rp_headers]. by rewrite !lookup_insert_ne by done.
Qed.
Lemma pay_again_proper (shop : Shop W) req k word payer tx :
  sound_terms (terms shop) → proper (pay_again shop req k word payer tx).
Proof.
  intros Hs. unfold pay_again, writeFailureReceipt. destruct (prints_header _ (prints_failure word (Some payer) tx)) as [h Hh].
  unfold encodePaymentResponseHeader. rewrite Hh. cbn [rbind]. by apply offer_proper.
Qed.
Lemma conflict_proper p reason prior : proper (conflict_reply p reason prior).
Proof. unfold conflict_reply. destruct reason; apply refuse_proper. Qed.

(** Neither the seller's binding nor its handler threw. *)
Definition nothing_thrown (log : list Event) : Prop :=
  ∀ e, (∀ id print i, Bound id print i (Throw e) ∉ log) ∧ ∀ r, Served r (Throw e) ∉ log.

Lemma delivery_proper (shop : Shop W) r log o : delivery shop r log o → nothing_thrown log → proper o.
Proof.
  intros Hdel Hn. destruct (delivery_served _ _ _ _ Hdel) as (_ & _ & a & Hin & -> & _).
  destruct a as [reply|e]; [apply stamp_proper|]. by destruct (proj2 (Hn e) r).
Qed.

Lemma charging_proper (shop : Shop W) req k p i log o :
  charging shop req k p i log o → sound_terms (terms shop) → nothing_thrown log → proper o.
Proof.
  intros [a ? Hd|a ? Hd|a who log' o' Hd Hs] Ht Hn; [apply refuse_proper|by apply pay_again_proper|].
  destruct Hs as [b ? ?|b ? ?|b ? ?|b ? ? ? ?|b tx again recs log2 o2 Hb Hrec Hdel];
    try apply refuse_proper; [by apply pay_again_proper|].
  eapply delivery_proper; [exact Hdel|]. intros e. destruct (Hn e) as [H1 H2]. set_solver.
Qed.

(** The payment's own facts never stop the intent from being derived. *)
Lemma intent_derived (shop : Shop W) req p :
  isAddress MOCK_USDC_address = true → sound_terms (terms shop) → amount (terms shop) < 2 ^ 256 →
  header_read shop req = inr (Some p) → ∃ i, payment_intent (terms shop) p = Ok i.
Proof.
  intros Hu (Hto & Hpos & _) Hmax Hp.
  assert (Hm : isAddress (getAddress (text_of (prop (prop (payload p) "payload") "delegationManager"))) = true).
  { apply presented_payment in Hp as (h & [_ Ha]%delegated_parties & _).
    destruct (prop _ _); try done. by apply getAddress_address. }
  unfold payment_intent, derivePaymentIntentId. cbn [Contract.network Contract.asset Contract.amount Contract.payTo delegationManager permissionContext].
  pose proof (encodeIntent_fits (toBytes "mapae.erc7710.payment-intent.v1") GIWA_SEPOLIA_CAIP2 _ (amount (terms shop)) _ _
    (text_of (prop (prop (payload p) "payload") "permissionContext")) Hu Hto Hm ltac:(lia)) as Hf.
  unfold PAYMENT_INTENT_DOMAIN. destruct (encodeIntent _ _ _ _ _ _ _); [eauto|done].
Qed.

(** C18: Every request is answered. A paywall that booted on a price that fits a token transfer
    answers every request it gets, whatever the header holds and whatever the facilitator
    sends back, garbage and silence included, unless the seller's own binding or handler
    throws; and the answer says that no cache may keep it and that it varies with the payment. *)
Theorem always_answers (shop : Shop W) req o w :
  buildPaywall o = Ok (terms shop) → (∀ l, po_extensions o = Some (JObj l) → NoDup (map fst l)) →
  amount (terms shop) < 2 ^ 256 → isAddress MOCK_USDC_address = true →
  nothing_thrown (log_of sha256 shop req w) →
  ∃ reply, reply_of sha256 shop req w = Ok reply
    ∧ rp_headers reply !! "Cache-Control" = Some "no-store"
    ∧ rp_headers reply !! "Vary" = Some PAYMENT_SIGNATURE_HEADER.
Proof.
  intros Ho Hn Hmax Hu Hthrown. pose proof (terms_sound _ _ Ho Hn) as Ht.
  pose proof (request_history sha256 shop req w) as Hh. revert Hh Hthrown.
  generalize (log_of sha256 shop req w), (reply_of sha256 shop req w). intros log reply Hh Hthrown.
  change (proper reply). destruct Hh as [Hl|r Hl Hr|presented Hl Hr|k Hl Hr|k p log' r Hl Hr Htk].
  - by eexists.
  - revert Hr. unfold header_read, read_header, malformed_payment. destruct (rq_header req _) as [h|]; [|done].
    destruct (_ <? _); [intros [= <-]; apply refuse_proper|].
    destruct (readDelegatedPayment h) as [c|e]; [|intros [= <-]; apply refuse_proper].
    destruct (paymentIdentifiers shop); [|done].
    destruct (readPaymentIdentifier c); try done; intros [= <-]; apply refuse_proper.
  - destruct presented as [p|]; [apply refuse_proper|by eexists].
  - by apply offer_proper.
  - destruct (intent_derived _ _ _ Hu Ht Hmax Hr) as [i Hi].
    assert (Hn' : nothing_thrown log') by (intros e; destruct (Hthrown e) as [H1 H2]; set_solver).
    destruct Htk as [e Hi'|i' log'' o' Hi' Hno Hc|i' id e Hi' Hid|i' id reason prior Hi' Hid|i' id s log'' o' Hi' Hid Hdel|i' id log'' o' Hi' Hid Hc].
    + congruence.
    + by eapply charging_proper.
    + destruct (Hn' e) as [Hb _]. exfalso. eapply Hb. by left.
    + apply conflict_proper.
    + eapply delivery_proper; [exact Hdel|]. intros e. destruct (Hn' e). set_solver.
    + eapply charging_proper; [exact Hc|done|]. intros e. destruct (Hn' e). set_solver.
Qed.
End answers.

(** ** Witnesses

    A paywall whose facilitator verifies and then answers that the settlement is pending. *)
Definition ex_payer : string := "0x00000000000000000000000000000000000000ab".
Definition ex_payment : jsval :=
  JObj [("x402Version", JNum X402_VERSION);
        ("accepted", JObj [("extra", JObj [("assetTransferMethod", JStr "erc7710")])]);
        ("payload", JObj [("delegationManager", JStr "0x00000000000000000000000000000000000000cd");
                          ("delegator", JStr ex_payer); ("permissionContext", JStr "0x01")])].
Definition ex_terms : PaywallOptions :=
  {| po_payTo := "0x00000000000000000000000000000000000000ef"; po_price := "0.05";
     po_description := "one report"; po_extensions := None; po_identifiers := false |}.
Definition ex_answer (b : jsval) : result HttpResponse :=
  Ok {| http_status := 200; header := λ _, None; json_body := Ok b; text_body := Ok "" |}.
Definition ex_shop (settle : jsval) : Shop unit :=
  {| terms := match buildPaywall ex_terms with
              | Ok t => t
              | Throw _ => {| payTo := ""; amount := 0; description := ""; advertised := None;
                              descriptor := {| pd_price := ""; pd_description := ""; pd_payTo := "" |} |}
              end;
     baseUrl := None; namesBuyer := false; paymentIdentifiers := None; onSettled := None;
     resolve_kind := λ w, (Some ex_kind, w);
     fetch := λ path _ w,
       (ex_answer (if String.eqb path "/verify" then JObj [("isValid", JBool true); ("payer", JStr ex_payer)] else settle), w);
     next := λ _ _ w, (Ok {| rp_status := 200; rp_headers := ∅; rp_body := JStr "report" |}, w) |}.
Definition ex_request : Request :=
  {| rq_header := λ name, if String.eqb name PAYMENT_SIGNATURE_HEADER
                          then match encodePaymentHeader ex_payment with Ok h => Some h | Throw _ => None end
                          else None;
     rq_url := "https://shop.test/report";
     rq_parts := {| protocol := "https:"; username := ""; password := ""; hostname := "shop.test";
                    origin := "https://shop.test"; pathname := "/report"; search := ""; hash := ""; href := "" |};
     rq_method := "GET"; rq_last := false |}.
Definition ex_pending : jsval := JObj [("success", JBool false); ("errorReason", JStr SETTLEMENT_PENDING)].

Definition unbound (log : list Event) : bool :=
  forallb (λ e, match e with Bound _ _ _ _ | Served _ _ => false | _ => true end) log.
Lemma unbound_log log : unbound log = true →
  (∀ id print i b, Bound id print i b ∉ log) ∧ ∀ r a, Served r a ∉ log.
Proof.
  unfold unbound. rewrite forallb_forall. intros Hl.
  split; intros; by intros Hin%list_elem_of_In%Hl.
Qed.


Lemma always_answers_witness :
  ∃ reply, reply_of test_hash (ex_shop JNull) ex_request tt = Ok reply
    ∧ rp_headers reply !! "Cache-Control" = Some "no-store"
    ∧ rp_headers reply !! "Vary" = Some PAYMENT_SIGNATURE_HEADER.
Proof.
  assert (Hun : unbound (log_of test_hash (ex_shop JNull) ex_request tt) = true) by (vm_compute; reflexivity).
  apply unbound_log in Hun as [Hb Hs].
  apply (always_answers test_hash (ex_shop JNull) ex_request ex_terms tt).
  - vm_compute. reflexivity.
  - done.
  - vm_compute. reflexivity.
  - vm_compute. reflexivity.
  - intros e. split; [intros; apply Hb|intros; apply Hs].
Defined.
