(* ===== verification/Revocation.v ===== *)
(** * Revoking a delegation

    [packages/delegation/src/revocation.ts] and [revocation-submission.ts]: the operation an
    owner signs to revoke a permission, its wire form, what a submitter accepts and carries,
    and which browsers may call it.  The kit's and viem's encoders are the class
    [RevocationKit], with the laws of the ABI as [RevocationLaws]. *)

From Stdlib Require Import ZArith Lia Ascii String.
From stdpp Require Import base gmap strings list.
From S2P Require Import Prelude Token Toolkit Bootstrap Guards X402 Json Codec.
Open Scope string_scope.
Open Scope Z_scope.

(** ** The operation *)
Record RevocationGas := {
  callGasLimit : Z; verificationGasLimit : Z; preVerificationGas : Z;
  maxFeePerGas : Z; maxPriorityFeePerGas : Z;
}.
Definition DEFAULT_REVOCATION_GAS : RevocationGas :=
  {| callGasLimit := 300000; verificationGasLimit := 300000; preVerificationGas := 100000;
     maxFeePerGas := 1000000000; maxPriorityFeePerGas := 1000000000 |}.
Definition SPONSORED_REVOCATION_GAS : RevocationGas :=
  {| callGasLimit := 300000; verificationGasLimit := 300000; preVerificationGas := 100000;
     maxFeePerGas := 10000000; maxPriorityFeePerGas := 10000000 |}.
Definition revocationPrefund (gas : RevocationGas) : Z :=
  (verificationGasLimit gas + callGasLimit gas + preVerificationGas gas) * maxFeePerGas gas.

Record UserOperation := {
  op_sender : string; op_nonce : Z; op_callData : string; op_gas : RevocationGas; op_signature : string;
}.
Record PackedUserOperation := {
  pk_sender : string; pk_nonce : Z; initCode : string; callData : string;
  accountGasLimits : string; pk_preVerificationGas : Z; gasFees : string;
  paymasterAndData : string; pk_signature : string;
}.

Class RevocationKit := {
  encode_disableDelegation : Delegation → string;
  hashDelegation : Delegation → string;
  encode_depositTo : string → string;
  (** It throws on a gas value of more than sixteen bytes. *)
  toPackedUserOperation : UserOperation → result PackedUserOperation;
}.

(** A gas value fits the half word it is packed into. *)
Definition half_word (z : Z) : Prop := 0 <= z < 2 ^ 128.
Definition gas_fits (g : RevocationGas) : Prop :=
  half_word (callGasLimit g) ∧ half_word (verificationGasLimit g)
  ∧ half_word (maxFeePerGas g) ∧ half_word (maxPriorityFeePerGas g).

(** [0x] and an even number of hex digits. *)
Definition whole_bytes (s : string) : bool :=
  match strip_0x s with Some t => forallb is_hex (chars t) && Nat.even (String.length t) | None => false end.

Class RevocationLaws (T : Toolkit) (K : RevocationKit) := {
  (** An operation that deploys nothing and names no paymaster, packed: the first half of
      each word is the verification limit, or the priority fee. *)
  packed_fields op : gas_fits (op_gas op) →
    ∃ limits fees, toPackedUserOperation op = Ok
        {| pk_sender := op_sender op; pk_nonce := op_nonce op; initCode := "0x"; callData := op_callData op;
           accountGasLimits := limits; pk_preVerificationGas := preVerificationGas (op_gas op);
           gasFees := fees; paymasterAndData := "0x"; pk_signature := op_signature op |}
      ∧ re_0x is_hex 64 limits = true ∧ re_0x is_hex 64 fees = true
      ∧ hexToBigInt_slice limits 0 16 = verificationGasLimit (op_gas op)
      ∧ hexToBigInt_slice limits 16 32 = callGasLimit (op_gas op)
      ∧ hexToBigInt_slice fees 0 16 = maxPriorityFeePerGas (op_gas op)
      ∧ hexToBigInt_slice fees 16 32 = maxFeePerGas (op_gas op);
  slice_nonneg s lo hi : whole_bytes s = true → 0 <= lo → 0 <= hexToBigInt_slice s lo hi;
}.

Record RevocationCall := { rc_to : string; rc_value : Z; rc_data : string }.
Record TypedDomain := { dom_name : string; dom_version : string; dom_chainId : Z; verifyingContract : string }.
Record RevocationUserOpMessage := {
  ms_sender : string; ms_nonce : Z; ms_initCode : string; ms_callData : string;
  ms_accountGasLimits : string; ms_preVerificationGas : Z; ms_gasFees : string;
  ms_paymasterAndData : string; ms_entryPoint : string;
}.
Definition REVOCATION_USER_OP_TYPES : list (string * string) :=
  [("sender", "address"); ("nonce", "uint256"); ("initCode", "bytes"); ("callData", "bytes");
   ("accountGasLimits", "bytes32"); ("preVerificationGas", "uint256"); ("gasFees", "bytes32");
   ("paymasterAndData", "bytes"); ("entryPoint", "address")].
Record TypedData := {
  domain : TypedDomain; types : list (string * string); primaryType : string;
  message : RevocationUserOpMessage;
}.
Record RevocationUserOperation := {
  ru_entryPoint : string; ru_sender : string; userOperation : UserOperation;
  packed : PackedUserOperation; typedData : TypedData; ru_requiredPrefund : Z;
}.

Section revocation.
Context `{Toolkit} `{RevocationKit}.

Definition buildRevocationCall (delegation : Delegation) : RevocationCall :=
  {| rc_to := getAddress (delegator delegation); rc_value := 0;
     rc_data := encode_disableDelegation delegation |}.

Definition buildRevocationUserOperation (delegation : Delegation) (entryPoint : string) (chainId nonce : Z)
    (gas : RevocationGas) (accountDomainName : option string) : result RevocationUserOperation :=
  throws maxFeePerGas gas =? 0 with
    Error ("maxFeePerGas must be non-zero: a zero-fee UserOperation has requiredPrefund 0, "
           ++ "which makes the EntryPoint prefund check dead code and lets handleOps succeed "
           ++ "on a completely unfunded account");
  throws maxFeePerGas gas <? maxPriorityFeePerGas gas with
    Error "maxPriorityFeePerGas must not exceed maxFeePerGas";
  let sender := getAddress (delegator delegation) in
  let entryPoint := getAddress entryPoint in
  let op := {| op_sender := sender; op_nonce := nonce;
               op_callData := rc_data (buildRevocationCall delegation); op_gas := gas; op_signature := "0x" |} in
  let? packed := toPackedUserOperation op in
  Ok {| ru_entryPoint := entryPoint; ru_sender := sender; userOperation := op; packed := packed;
        typedData :=
          {| domain := {| dom_name := default "HybridDeleGator" accountDomainName; dom_version := "1";
                          dom_chainId := chainId; verifyingContract := sender |};
             types := REVOCATION_USER_OP_TYPES; primaryType := "PackedUserOperation";
             message := {| ms_sender := pk_sender packed; ms_nonce := pk_nonce packed;
                           ms_initCode := initCode packed; ms_callData := callData packed;
                           ms_accountGasLimits := accountGasLimits packed;
                           ms_preVerificationGas := pk_preVerificationGas packed;
                           ms_gasFees := gasFees packed; ms_paymasterAndData := paymasterAndData packed;
                           ms_entryPoint := entryPoint |} |};
        ru_requiredPrefund := revocationPrefund gas |}.

Definition with_signature (signature : string) (p : PackedUserOperation) : PackedUserOperation :=
  {| pk_sender := pk_sender p; pk_nonce := pk_nonce p; initCode := initCode p; callData := callData p;
     accountGasLimits := accountGasLimits p; pk_preVerificationGas := pk_preVerificationGas p;
     gasFees := gasFees p; paymasterAndData := paymasterAndData p; pk_signature := signature |}.
Definition finalizeRevocationUserOperation (built : RevocationUserOperation) (signature : string)
    : string * PackedUserOperation :=
  (ru_entryPoint built, with_signature signature (packed built)).

(** ** What the chain says of an account *)
Record RevocationPrefundState := { deposit : Z; nativeBalance : Z; shortfall : Z; ready : bool }.
Definition readRevocationPrefundState (deposit nativeBalance requiredPrefund : Z) : RevocationPrefundState :=
  let shortfall := if requiredPrefund <=? deposit then 0 else requiredPrefund - deposit in
  {| deposit := deposit; nativeBalance := nativeBalance; shortfall := shortfall; ready := shortfall =? 0 |}.

Definition buildPrefundDepositCall (entryPoint sender : string) (amount : Z) : result RevocationCall :=
  throws amount <=? 0 with Error "deposit amount must be positive";
  Ok {| rc_to := getAddress entryPoint; rc_value := amount; rc_data := encode_depositTo (getAddress sender) |}.

Definition ERC1271_MAGIC_VALUE : string := "0x1626ba7e".

(** [error instanceof BaseError] *)
Definition is_viem (c : error_class) : bool :=
  match c with
  | Guards.ContractFunctionRevertedError | ExecutionRevertedError | HttpRequestError | TimeoutError
  | LimitExceededRpcError | ContractFunctionExecutionError => true
  | _ => false
  end.
(** [error.walk(e => e instanceof ContractFunctionRevertedError) !== null] *)
Fixpoint walks_to_revert (e : thrown) : bool :=
  match e with
  | NotAnError => false
  | AnError Guards.ContractFunctionRevertedError _ _ _ => true
  | AnError _ _ _ cause => walks_to_revert cause
  end.
(** The errors [rethrowUnlessContractRefusal] swallows. *)
Definition contract_refusal (e : thrown) : bool :=
  match e with
  | NotAnError => false
  | AnError ContractFunctionExecutionError _ _ _ | AnError Guards.ContractFunctionRevertedError _ _ _ => true
  | AnError c _ _ _ => is_viem c && walks_to_revert e
  end.
(** The answer of the account, from its two reads: the second is made with the hash. *)
Definition verifyRevocationSignature (hash : string + thrown) (magic : string → string + thrown) : bool + thrown :=
  let refused e := if contract_refusal e then inl false else inr e in
  match hash with
  | inr e => refused e
  | inl h => match magic h with
             | inr e => refused e
             | inl m => inl (String.eqb (toLowerCase m) ERC1271_MAGIC_VALUE)
             end
  end.

(** ** What a submitter accepts *)
Definition buildSponsoredRevocationApproval (chainId compositionId : string) : string :=
  "sponsored-revocation-chain-" ++ chainId ++ "-" ++ compositionId.

Record RevocationSubmissionPolicy := {
  po_payer : option string; maxCallGasLimit : Z; maxVerificationGasLimit : Z; maxPreVerificationGas : Z;
  po_maxFeePerGas : Z; minFeePerGas : option Z;
}.
Record ValidatedRevocationSubmission := {
  vs_packed : PackedUserOperation; vs_sender : string; vs_delegation : Delegation;
  delegationHash : string; vs_gas : RevocationGas; requiredPrefund : Z;
}.

Definition MAX_HEX_CHARACTERS : Z := 20000.
(** A decimal without leading zeros. *)
Definition UINT_STRING (s : string) : bool := whole_part (chars s).

Definition readHex (value : jsval) (field : string) : result string :=
  throws negb (match value with JStr s => whole_bytes s | _ => false end) with
    Error (field ++ " must be 0x-prefixed hex of whole bytes");
  throws MAX_HEX_CHARACTERS <? slen (text_of value) with Error (field ++ " is too large");
  Ok (text_of value).
Definition readBytes32 (value : jsval) (field : string) : result string :=
  let? hex := readHex value field in
  throws negb (slen hex =? 66) with Error (field ++ " must be exactly 32 bytes");
  Ok hex.
Definition readUint (value : jsval) (field : string) : result Z :=
  throws negb (match value with JStr s => UINT_STRING s | _ => false end) with
    Error (field ++ " must be an unsigned integer string");
  Ok (BigInt (text_of value)).
Definition cap (value limit : Z) (field : string) : result unit :=
  throws limit <? value with
    Error (field ++ " " ++ show_Z value ++ " exceeds the configured cap " ++ show_Z limit);
  Ok tt.

Definition buildRevocationSubmissionBody (permissionContext : string) (p : PackedUserOperation) : jsval :=
  JObj [("permissionContext", JStr permissionContext);
        ("userOperation", JObj
          [("sender", JStr (getAddress (pk_sender p))); ("nonce", JStr (show_Z (pk_nonce p)));
           ("initCode", JStr (initCode p)); ("callData", JStr (callData p));
           ("accountGasLimits", JStr (accountGasLimits p));
           ("preVerificationGas", JStr (show_Z (pk_preVerificationGas p)));
           ("gasFees", JStr (gasFees p)); ("paymasterAndData", JStr (paymasterAndData p));
           ("signature", JStr (pk_signature p))])].

Definition at_least (floor : option Z) (value : Z) (field why : string) : result unit :=
  throws match floor with Some m => value <? m | None => false end with
    Error (field ++ " " ++ show_Z value ++ " is below the required " ++ show_Z (default 0 floor) ++ "; " ++ why);
  Ok tt.

Definition read_sender (value : jsval) (policy : RevocationSubmissionPolicy) (delegation : Delegation)
    : result string :=
  throws negb (is_addr value) with Error "userOperation.sender must be an address";
  let sender := getAddress (text_of value) in
  throws match po_payer policy with Some p => negb (String.eqb sender (getAddress p)) | None => false end with
    Error "userOperation.sender is not the account this submitter serves";
  throws negb (String.eqb (getAddress (delegator delegation)) sender) with
    Error "the root permission was not granted by the sender account";
  Ok sender.

Definition check_gas (policy : RevocationSubmissionPolicy) (g : RevocationGas) : result unit :=
  let? _ := cap (callGasLimit g) (maxCallGasLimit policy) "callGasLimit" in
  let? _ := cap (verificationGasLimit g) (maxVerificationGasLimit policy) "verificationGasLimit" in
  let? _ := cap (preVerificationGas g) (maxPreVerificationGas policy) "preVerificationGas" in
  let? _ := cap (maxFeePerGas g) (po_maxFeePerGas policy) "maxFeePerGas" in
  throws maxFeePerGas g <? maxPriorityFeePerGas g with
    Error "maxPriorityFeePerGas must not exceed maxFeePerGas";
  throws maxFeePerGas g =? 0 with Error "maxFeePerGas must be non-zero";
  let? _ := at_least (minFeePerGas policy) (maxFeePerGas g) "maxFeePerGas"
              "the relayer cannot recover what it fronts at that price" in
  at_least (minFeePerGas policy) (maxPriorityFeePerGas g) "maxPriorityFeePerGas"
    ("the EntryPoint reimburses at min(maxFeePerGas, maxPriorityFeePerGas + baseFee), "
     ++ "so the relayer cannot recover what it fronts at that tip").

Definition validateRevocationSubmission (input : jsval) (policy : RevocationSubmissionPolicy)
    : result ValidatedRevocationSubmission :=
  throws negb (is_object input) with Error "request must be an object";
  let? permissionContext := readHex (prop input "permissionContext") "permissionContext" in
  let? chain := catch_as (decodeDelegations permissionContext)
    (λ e, Error ("permissionContext is not a delegation chain: " ++ err_message e)) in
  let? delegation := match last chain with
                     | Some d => Ok d
                     | None => Throw (Error "permissionContext contains no delegations")
                     end in
  let op := prop input "userOperation" in
  throws negb (is_object op) with Error "userOperation must be an object";
  let? sender := read_sender (prop op "sender") policy delegation in
  let? initCode := readHex (prop op "initCode") "userOperation.initCode" in
  throws negb (String.eqb initCode "0x") with Error "userOperation.initCode must be empty";
  let? paymasterAndData := readHex (prop op "paymasterAndData") "userOperation.paymasterAndData" in
  throws negb (String.eqb paymasterAndData "0x") with Error "userOperation.paymasterAndData must be empty";
  let? callData := readHex (prop op "callData") "userOperation.callData" in
  throws negb (String.eqb (toLowerCase callData) (toLowerCase (encode_disableDelegation delegation))) with
    Error "userOperation.callData is not disableDelegation for this permission";
  let? accountGasLimits := readBytes32 (prop op "accountGasLimits") "userOperation.accountGasLimits" in
  let? gasFees := readBytes32 (prop op "gasFees") "userOperation.gasFees" in
  let? preVerificationGas := readUint (prop op "preVerificationGas") "userOperation.preVerificationGas" in
  let gas := {| verificationGasLimit := hexToBigInt_slice accountGasLimits 0 16;
                callGasLimit := hexToBigInt_slice accountGasLimits 16 32;
                maxPriorityFeePerGas := hexToBigInt_slice gasFees 0 16;
                maxFeePerGas := hexToBigInt_slice gasFees 16 32;
                preVerificationGas := preVerificationGas |} in
  let? _ := check_gas policy gas in
  let? nonce := readUint (prop op "nonce") "userOperation.nonce" in
  let? signature := readHex (prop op "signature") "userOperation.signature" in
  throws String.eqb signature "0x" with Error "userOperation.signature is empty";
  Ok {| vs_packed := {| pk_sender := sender; pk_nonce := nonce; initCode := initCode; callData := callData;
                        accountGasLimits := accountGasLimits; pk_preVerificationGas := preVerificationGas;
                        gasFees := gasFees; paymasterAndData := paymasterAndData; pk_signature := signature |};
        vs_sender := sender; vs_delegation := delegation; delegationHash := hashDelegation delegation;
        vs_gas := gas; requiredPrefund := revocationPrefund gas |}.
End revocation.

(** ** Whether a submission can be carried now *)
Inductive RevocationSubmissionRefusal :=
  | prefund_short (deposit requiredPrefund shortfall : Z)
  | base_fee_unreadable (maxFeePerGas : Z)
  | fee_below_basefee (maxFeePerGas baseFeePerGas : Z)
  | relayer_unfunded (relayerBalance needed : Z).
(** [None] is [{ok: true}]. *)
Definition judgeSubmissionReadiness (deposit requiredPrefund : Z) (baseFeePerGas : option Z)
    (maxFeePerGas relayerBalance : Z) : option RevocationSubmissionRefusal :=
  if deposit <? requiredPrefund then Some (prefund_short deposit requiredPrefund (requiredPrefund - deposit))
  else match baseFeePerGas with
  | None => Some (base_fee_unreadable maxFeePerGas)
  | Some baseFee =>
      if maxFeePerGas <? baseFee then Some (fee_below_basefee maxFeePerGas baseFee)
      else if relayerBalance <? requiredPrefund then Some (relayer_unfunded relayerBalance requiredPrefund)
      else None
  end.

(** ** Browsers *)
Inductive CorsDecision := cors_refused | cors_allowed (headers : list (string * string)).
Definition judgeCorsRequest (origin : option string) (allowedOrigins : list string) (preflight : bool)
    : CorsDecision :=
  match origin with
  | None | Some "" => cors_allowed []
  | Some origin =>
      if negb (existsb (String.eqb origin) allowedOrigins) then cors_refused
      else cors_allowed
        ([("Access-Control-Allow-Origin", origin); ("Vary", "Origin")]
         ++ if preflight
            then [("Access-Control-Allow-Methods", "POST, OPTIONS");
                  ("Access-Control-Allow-Headers", "content-type"); ("Access-Control-Max-Age", "600")]
            else [])
  end.

(** [URL] is what [new URL(entry)] gives: protocol, hostname, origin. *)
Definition parse_console_origin (URL : string → option (string * string * string))
    (isLoopback : string → bool) (entry : string) : result string :=
  throws String.eqb entry "*" with
    Error "REVOCATION_CONSOLE_ORIGINS must not be '*' - this submitter fronts a funded relayer key";
  match URL entry with
  | None => Throw (Error ("REVOCATION_CONSOLE_ORIGINS entry is not a URL: " ++ entry))
  | Some (protocol, hostname, origin) =>
      throws negb (existsb (String.eqb protocol) ["http:"; "https:"]) with
        Error ("REVOCATION_CONSOLE_ORIGINS entry must be HTTP(S): " ++ entry);
      throws negb (isLoopback hostname) with
        Error ("REVOCATION_CONSOLE_ORIGINS must be loopback, got " ++ dquote ++ hostname ++ dquote ++ " - "
               ++ "put a TLS reverse proxy with real authentication in front before this is reachable remotely");
      Ok origin
  end.
Definition parseCorsAllowlist (URL : string → option (string * string * string)) (value : option string)
    (isLoopback : string → bool) (fallback : list string) : result (list string) :=
  let raw := trim (default "" value) in
  if String.eqb raw "" then Ok fallback
  else
    let entries := List.filter (λ s, negb (String.eqb s ""))
                     ((λ w, trim (string_of_list_ascii w)) <$> split_comma (chars raw)) in
    match entries with
    | [] => Ok fallback
    | _ => map_result (parse_console_origin URL isLoopback) entries
    end.

(** ** What was admitted *)
Lemma readHex_ok v f s : readHex v f = Ok s ↔ v = JStr s ∧ whole_bytes s = true ∧ slen s <= MAX_HEX_CHARACTERS.
Proof.
  unfold readHex. rewrite !throws_ok, negb_false_iff, Z.ltb_ge. split.
  - intros (Hv & Hl & [= <-]). destruct v; try done.
  - by intros (-> & Hw & Hl).
Qed.
Lemma readBytes32_ok v f s : readBytes32 v f = Ok s ↔ v = JStr s ∧ whole_bytes s = true ∧ slen s = 66.
Proof.
  unfold readBytes32. rewrite rbind_ok. unfold MAX_HEX_CHARACTERS. split.
  - intros (h & (-> & Hw & _)%readHex_ok & [Hl [= <-]]%throws_ok). by bools.
  - intros (-> & Hw & Hl). exists s. rewrite readHex_ok, throws_ok, Hl. unfold MAX_HEX_CHARACTERS.
    split_and!; done || lia.
Qed.
Lemma readUint_ok v f n : readUint v f = Ok n ↔ ∃ s, v = JStr s ∧ UINT_STRING s = true ∧ n = BigInt s.
Proof.
  unfold readUint. rewrite throws_ok, negb_false_iff. split.
  - intros [Hv [= <-]]. destruct v; try done. eauto.
  - by intros (s & -> & Hu & ->).
Qed.
Lemma uint_nonneg s : UINT_STRING s = true → 0 <= BigInt s.
Proof.
  intros Hu. apply whole_digits in Hu as [Hne Hd].
  rewrite <- (string_of_list_ascii_of_string s). fold (chars s). rewrite BigInt_digits by done.
  by destruct (dec_number_bounds (chars s) Hd).
Qed.
Lemma uint_printed n : 0 <= n → UINT_STRING (show_Z n) = true ∧ BigInt (show_Z n) = n.
Proof.
  intros (Hd & Hw & Hn)%show_nonneg. split; [done|].
  rewrite <- (string_of_list_ascii_of_string (show_Z n)) at 1. fold (chars (show_Z n)).
  rewrite BigInt_digits; [done| |done]. by apply whole_digits in Hw as [? _].
Qed.

(** The gas an operator carries, and no more. *)
Record within (policy : RevocationSubmissionPolicy) (g : RevocationGas) : Prop := {
  wi_call : callGasLimit g <= maxCallGasLimit policy;
  wi_verification : verificationGasLimit g <= maxVerificationGasLimit policy;
  wi_pre : preVerificationGas g <= maxPreVerificationGas policy;
  wi_fee : maxFeePerGas g <= po_maxFeePerGas policy;
  wi_tip : maxPriorityFeePerGas g <= maxFeePerGas g;
  wi_nonzero : maxFeePerGas g ≠ 0;
  wi_floor : ∀ m, minFeePerGas policy = Some m → m <= maxPriorityFeePerGas g;
}.
Lemma cap_ok v l f u : cap v l f = Ok u ↔ v <= l.
Proof. unfold cap. rewrite throws_ok, Z.ltb_ge. destruct u. naive_solver. Qed.
Lemma at_least_ok floor v f w u : at_least floor v f w = Ok u ↔ ∀ m, floor = Some m → m <= v.
Proof.
  unfold at_least. rewrite throws_ok. destruct u, floor as [m|]; [|naive_solver].
  rewrite Z.ltb_ge. naive_solver.
Qed.
Lemma check_gas_ok policy g u : check_gas policy g = Ok u ↔ within policy g.
Proof.
  unfold check_gas. split.
  - intros Hc. repeat (apply rbind_ok in Hc as (? & ?%cap_ok & Hc)).
    apply throws_ok in Hc as [Htip%Z.ltb_ge Hc]. apply throws_ok in Hc as [Hz%Z.eqb_neq Hc].
    apply rbind_ok in Hc as (? & _ & Hf). rewrite at_least_ok in Hf. by split.
  - intros [H1 H2 H3 H4 Htip Hz Hf]. apply Z.ltb_ge in Htip as Htip'. apply Z.eqb_neq in Hz.
    assert (Hfee : ∀ m, minFeePerGas policy = Some m → m <= maxFeePerGas g) by (intros m Hm; specialize (Hf m Hm); lia).
    rewrite !rbind_ok. exists tt. split; [by apply cap_ok|]. rewrite rbind_ok. exists tt. split; [by apply cap_ok|].
    rewrite rbind_ok. exists tt. split; [by apply cap_ok|]. rewrite rbind_ok. exists tt. split; [by apply cap_ok|].
    rewrite !throws_ok, rbind_ok. split_and!; [done..|]. exists tt. split; by apply at_least_ok.
Qed.

Section admission.
Context `{ToolkitLaws} `{K : !RevocationKit} `{!RevocationLaws _ K}.

(** What an admitted operation is. *)
Record admitted (input : jsval) (policy : RevocationSubmissionPolicy) (v : ValidatedRevocationSubmission) : Prop := {
  ad_chain : ∃ context chain, prop input "permissionContext" = JStr context
    ∧ decodeDelegations context = Ok chain ∧ last chain = Some (vs_delegation v)
    ∧ delegationHash v = hashDelegation (vs_delegation v);
  ad_sender : ∃ claimed, prop (prop input "userOperation") "sender" = JStr claimed ∧ isAddress claimed = true
    ∧ vs_sender v = getAddress claimed ∧ pk_sender (vs_packed v) = vs_sender v
    ∧ getAddress (delegator (vs_delegation v)) = vs_sender v
    ∧ ∀ p, po_payer policy = Some p → vs_sender v = getAddress p;
  ad_alone : initCode (vs_packed v) = "0x" ∧ paymasterAndData (vs_packed v) = "0x";
  ad_call : toLowerCase (callData (vs_packed v)) = toLowerCase (encode_disableDelegation (vs_delegation v));
  ad_signed : prop (prop input "userOperation") "signature" = JStr (pk_signature (vs_packed v))
    ∧ pk_signature (vs_packed v) ≠ "0x";
  ad_gas : verificationGasLimit (vs_gas v) = hexToBigInt_slice (accountGasLimits (vs_packed v)) 0 16
    ∧ callGasLimit (vs_gas v) = hexToBigInt_slice (accountGasLimits (vs_packed v)) 16 32
    ∧ maxPriorityFeePerGas (vs_gas v) = hexToBigInt_slice (gasFees (vs_packed v)) 0 16
    ∧ maxFeePerGas (vs_gas v) = hexToBigInt_slice (gasFees (vs_packed v)) 16 32
    ∧ preVerificationGas (vs_gas v) = pk_preVerificationGas (vs_packed v);
  ad_within : within policy (vs_gas v);
  ad_positive : 0 < maxFeePerGas (vs_gas v) ∧ 0 <= pk_nonce (vs_packed v)
    ∧ 0 <= callGasLimit (vs_gas v) ∧ 0 <= verificationGasLimit (vs_gas v) ∧ 0 <= preVerificationGas (vs_gas v)
    ∧ 0 <= maxPriorityFeePerGas (vs_gas v);
  ad_prefund : requiredPrefund v = revocationPrefund (vs_gas v);
}.

Lemma read_sender_ok value policy d s :
  read_sender value policy d = Ok s ↔
  (∃ claimed, value = JStr claimed ∧ isAddress claimed = true ∧ s = getAddress claimed)
  ∧ (∀ p, po_payer policy = Some p → s = getAddress p) ∧ getAddress (delegator d) = s.
Proof.
  unfold read_sender. rewrite !throws_ok, !negb_false_iff. split.
  - intros (Ha & Hp & Hd & [= <-]). destruct value as [| | | | | |claimed| |]; try done. split_and!.
    + by exists claimed.
    + intros p Hpol. rewrite Hpol in Hp. by apply negb_false_iff, String.eqb_eq in Hp.
    + by apply String.eqb_eq.
  - intros ((claimed & -> & Ha & ->) & Hp & Hd). split_and!; [done| |by apply String.eqb_eq|done].
    destruct (po_payer policy) as [p|]; [|done]. apply negb_false_iff, String.eqb_eq. by apply Hp.
Qed.

Lemma submission_admitted input policy v :
  validateRevocationSubmission input policy = Ok v → admitted input policy v.
Proof.
  unfold validateRevocationSubmission. intros Hv.
  apply throws_ok in Hv as [Hin Hv]. apply rbind_ok in Hv as (context & (Hc & _ & _)%readHex_ok & Hv).
  apply rbind_ok in Hv as (chain & Hchain%catch_as_ok & Hv). apply rbind_ok in Hv as (d & Hd & Hv).
  apply throws_ok in Hv as [Hop Hv]. apply rbind_ok in Hv as (s & Hs%read_sender_ok & Hv).
  apply rbind_ok in Hv as (init & _ & Hv). apply throws_ok in Hv as [Hinit%negb_false_iff%String.eqb_eq Hv].
  apply rbind_ok in Hv as (pm & _ & Hv). apply throws_ok in Hv as [Hpm%negb_false_iff%String.eqb_eq Hv].
  apply rbind_ok in Hv as (call & _ & Hv). apply throws_ok in Hv as [Hcall%negb_false_iff%String.eqb_eq Hv].
  apply rbind_ok in Hv as (limits & (_ & Hl & _)%readBytes32_ok & Hv).
  apply rbind_ok in Hv as (fees & (_ & Hf & _)%readBytes32_ok & Hv).
  apply rbind_ok in Hv as (pre & (pt & _ & Hpre & ->)%readUint_ok & Hv).
  apply rbind_ok in Hv as (? & Hg%check_gas_ok & Hv).
  apply rbind_ok in Hv as (nonce & (nt & _ & Hn & ->)%readUint_ok & Hv).
  apply rbind_ok in Hv as (sig & (Hsig & _ & _)%readHex_ok & Hv).
  apply throws_ok in Hv as [Hsz%String.eqb_neq [= <-]].
  destruct Hs as ((claimed & Hcl & Ha & ->) & Hp & Hdel). subst init pm.
  assert (Hlast : last chain = Some d) by (destruct (last chain); [by injection Hd as ->|done]).
  pose proof (slice_nonneg fees 16 32 Hf ltac:(lia)) as Hfee. pose proof (wi_nonzero _ _ Hg) as Hz. cbn [maxFeePerGas] in Hz.
  split; cbn [vs_packed vs_sender vs_delegation delegationHash vs_gas requiredPrefund pk_sender initCode callData
              accountGasLimits pk_preVerificationGas gasFees paymasterAndData pk_signature pk_nonce
              callGasLimit verificationGasLimit preVerificationGas maxFeePerGas maxPriorityFeePerGas]; try done.
  - by exists context, chain.
  - by exists claimed.
  - pose proof (slice_nonneg fees 0 16 Hf ltac:(lia)). pose proof (slice_nonneg limits 0 16 Hl ltac:(lia)).
    pose proof (slice_nonneg limits 16 32 Hl ltac:(lia)). pose proof (uint_nonneg pt Hpre). pose proof (uint_nonneg nt Hn). lia.
Qed.

(** C21: A submitter carries an account's own revocation and nothing else. Whatever JSON is
    sent, what it admits is an operation whose call is the one this repository builds to
    disable the root of the permission it names, sent by the account that granted that root
    (the pinned account, where one is pinned), deploying nothing, naming no paymaster and
    signed; its five gas numbers, read back from the packed words, are within the operator's
    ceilings and above its floor, so the deposit it needs is positive-priced and at most the
    ceilings' product. *)
Theorem admitted_is_own_revocation input policy v :
  validateRevocationSubmission input policy = Ok v →
  admitted input policy v
  ∧ 0 <= requiredPrefund v
      <= (maxVerificationGasLimit policy + maxCallGasLimit policy + maxPreVerificationGas policy) * po_maxFeePerGas policy.
Proof.
  intros Hv%submission_admitted. split; [done|]. rewrite (ad_prefund _ _ _ Hv). unfold revocationPrefund.
  destruct (ad_within _ _ _ Hv). destruct (ad_positive _ _ _ Hv) as (? & _ & ? & ? & ? & _). split.
  - apply Z.mul_nonneg_nonneg; lia.
  - apply Z.mul_le_mono_nonneg; lia.
Qed.

(** *** What is built is admitted *)
Definition readable (s : string) : Prop := whole_bytes s = true ∧ slen s <= MAX_HEX_CHARACTERS.

Lemma whole_utf8 s : whole_bytes s = true → utf8_valid (chars s) = true.
Proof.
  unfold whole_bytes. destruct (strip_0x s) as [t|] eqn:Hs; [|done]. apply strip_0x_Some in Hs as ->.
  intros [Hh _]%andb_true_iff. apply ascii_utf8.
  change (is_ascii (chars ("0x" ++ t)) = true). rewrite chars_append. cbn. by apply hex_ascii.
Qed.
Lemma address_bytes a : isAddress a = true → whole_bytes a = true.
Proof.
  intros Ha%isAddress_shape. revert Ha. unfold re_0x, whole_bytes, re_class, slen.
  destruct (strip_0x a); [|done]. intros [[H1 H2]%andb_true_iff ->]%andb_true_iff.
  assert (String.length s = 40%nat) as -> by lia. done.
Qed.
Lemma word_bytes s : re_0x is_hex 64 s = true → whole_bytes s = true ∧ slen s = 66.
Proof.
  unfold re_0x, whole_bytes, re_class, slen. destruct (strip_0x s) as [t|] eqn:Hs; [|done].
  apply strip_0x_Some in Hs as ->. intros [[H1 H2]%andb_true_iff ->]%andb_true_iff.
  assert (Hl : String.length t = 64%nat) by lia. cbn [String.length]. by rewrite Hl.
Qed.
Lemma printed_utf8 n : 0 <= n → utf8_valid (chars (show_Z n)) = true.
Proof. intros (Hd & _ & _)%show_nonneg. by apply ascii_utf8, digits_ascii. Qed.

Lemma body_ok context p :
  whole_bytes context = true → isAddress (getAddress (pk_sender p)) = true → 0 <= pk_nonce p →
  0 <= pk_preVerificationGas p →
  Forall (λ s, whole_bytes s = true)
    [initCode p; callData p; accountGasLimits p; gasFees p; paymasterAndData p; pk_signature p] →
  json_ok (buildRevocationSubmissionBody context p) = true.
Proof.
  intros Hc Hs Hn Hg Hall. rewrite !Forall_cons in Hall.
  destruct Hall as (H1 & H2 & H3 & H4 & H5 & H6 & _).
  unfold buildRevocationSubmissionBody. cbn [json_ok map fst snd forallb].
  rewrite (whole_utf8 _ Hc), (whole_utf8 _ (address_bytes _ Hs)), (printed_utf8 _ Hn), (printed_utf8 _ Hg),
    (whole_utf8 _ H1), (whole_utf8 _ H2), (whole_utf8 _ H3), (whole_utf8 _ H4), (whole_utf8 _ H5), (whole_utf8 _ H6).
  vm_compute. reflexivity.
Qed.

(** The server's reading of a body this repository wrote. *)
Lemma body_admitted policy context chain d p gas :
  readable context → decodeDelegations context = Ok chain → last chain = Some d →
  isAddress (delegator d) = true → pk_sender p = getAddress (delegator d) →
  (∀ a, po_payer policy = Some a → getAddress (delegator d) = getAddress a) →
  initCode p = "0x" → paymasterAndData p = "0x" → callData p = encode_disableDelegation d →
  readable (callData p) → readable (pk_signature p) → pk_signature p ≠ "0x" → 0 <= pk_nonce p →
  re_0x is_hex 64 (accountGasLimits p) = true → re_0x is_hex 64 (gasFees p) = true →
  0 <= pk_preVerificationGas p → within policy gas →
  gas = {| verificationGasLimit := hexToBigInt_slice (accountGasLimits p) 0 16;
           callGasLimit := hexToBigInt_slice (accountGasLimits p) 16 32;
           maxPriorityFeePerGas := hexToBigInt_slice (gasFees p) 0 16;
           maxFeePerGas := hexToBigInt_slice (gasFees p) 16 32;
           preVerificationGas := pk_preVerificationGas p |} →
  validateRevocationSubmission (buildRevocationSubmissionBody context p) policy = Ok
    {| vs_packed := p; vs_sender := pk_sender p; vs_delegation := d; delegationHash := hashDelegation d;
       vs_gas := gas; requiredPrefund := revocationPrefund gas |}.
Proof.
  intros [Hc1 Hc2] Hdec Hlast Ha Hs Hpay Hinit Hpm Hcall [Hd1 Hd2] [Hg1 Hg2] Hsig Hn Hl Hf Hpre Hin ->.
  apply word_bytes in Hl as [Hl1 Hl2]. apply word_bytes in Hf as [Hf1 Hf2].
  destruct (uint_printed _ Hn) as [Hn1 Hn2]. destruct (uint_printed _ Hpre) as [Hp1 Hp2].
  assert (Hgs : getAddress (pk_sender p) = pk_sender p) by (rewrite Hs; by apply getAddress_idem).
  unfold validateRevocationSubmission. rewrite throws_ok. split; [done|].
  rewrite rbind_ok. exists context. split; [by apply readHex_ok|].
  rewrite rbind_ok. exists chain. split; [by apply catch_as_ok|].
  rewrite rbind_ok. exists d. split; [by rewrite Hlast|]. rewrite throws_ok. split; [done|].
  rewrite rbind_ok. exists (pk_sender p). split.
  { apply read_sender_ok. split_and!; [|rewrite Hs; done|done]. exists (pk_sender p).
    split_and!; [by cbn; rewrite Hgs|rewrite Hs; by apply getAddress_address|done]. }
  rewrite rbind_ok. exists "0x". split; [apply readHex_ok; cbn; by rewrite Hinit|].
  rewrite throws_ok. split; [done|].
  rewrite rbind_ok. exists "0x". split; [apply readHex_ok; cbn; by rewrite Hpm|].
  rewrite throws_ok. split; [done|]. rewrite rbind_ok. exists (callData p). split; [by apply readHex_ok|].
  rewrite throws_ok, Hcall, String.eqb_refl. split; [done|].
  rewrite rbind_ok. exists (accountGasLimits p). split; [by apply readBytes32_ok|].
  rewrite rbind_ok. exists (gasFees p). split; [by apply readBytes32_ok|].
  rewrite rbind_ok. exists (pk_preVerificationGas p). split; [apply readUint_ok; by eexists|].
  rewrite rbind_ok. exists tt. split; [by apply check_gas_ok|].
  rewrite rbind_ok. exists (pk_nonce p). split; [apply readUint_ok; by eexists|].
  rewrite rbind_ok. exists (pk_signature p). split; [by apply readHex_ok|].
  rewrite throws_ok. split; [by apply String.eqb_neq|].
  rewrite <- Hcall. destruct p. cbn in *. by rewrite Hinit, Hpm.
Qed.

(** C20: The two ends of the revocation wire agree. The operation this repository builds for
    a delegation, signed by any wallet, written as JSON and read back by the submitter, is
    admitted as exactly the struct that was signed, with the gas it was built with and the
    prefund that was shown - provided its gas is within the operator's bounds, the texts
    are not over-long and the account is the one the submitter serves. *)
Theorem built_revocation_is_admitted policy context chain d entryPoint chainId nonce gas name built sig :
  buildRevocationUserOperation d entryPoint chainId nonce gas name = Ok built →
  readable context → decodeDelegations context = Ok chain → last chain = Some d →
  isAddress (delegator d) = true → readable (encode_disableDelegation d) →
  (∀ a, po_payer policy = Some a → getAddress (delegator d) = getAddress a) →
  readable sig → sig ≠ "0x" → 0 <= nonce → gas_fits gas → 0 <= preVerificationGas gas → within policy gas →
  let signed := (finalizeRevocationUserOperation built sig).2 in
  ∃ text doc, stringify (buildRevocationSubmissionBody context signed) = Ok (Some text) ∧ parse text = Ok doc
  ∧ validateRevocationSubmission doc policy = Ok
      {| vs_packed := signed; vs_sender := ru_sender built; vs_delegation := d;
         delegationHash := hashDelegation d; vs_gas := gas; requiredPrefund := ru_requiredPrefund built |}.
Proof.
  intros Hb Hctx Hdec Hlast Ha Henc Hpay Hsig Hne Hn Hfit Hpre Hin signed.
  unfold buildRevocationUserOperation in Hb. apply throws_ok in Hb as [_ Hb]. apply throws_ok in Hb as [_ Hb].
  apply rbind_ok in Hb as (p & Hp & [= <-]).
  match type of Hp with toPackedUserOperation ?op = _ =>
    destruct (packed_fields op Hfit) as (limits & fees & Hpk & Hl & Hf & H1 & H2 & H3 & H4) end.
  cbn [op_gas op_sender op_nonce op_callData op_signature] in *.
  rewrite Hpk in Hp. injection Hp as <-.
  subst signed. cbn [finalizeRevocationUserOperation snd packed with_signature pk_sender pk_nonce initCode callData
    accountGasLimits pk_preVerificationGas gasFees paymasterAndData ru_sender ru_requiredPrefund rc_data buildRevocationCall].
  match goal with |- context [buildRevocationSubmissionBody context ?p] => set (q := p) end.
  destruct (parse_stringify (buildRevocationSubmissionBody context q)) as (text & Ht & Hparse).
  { apply body_ok; subst q; cbn; try done; [by destruct Hctx| |].
    - rewrite getAddress_idem by done. by apply getAddress_address.
    - destruct Henc, Hsig. apply word_bytes in Hl as [? _]. apply word_bytes in Hf as [? _]. by repeat constructor. }
  exists text, (buildRevocationSubmissionBody context q). split_and!; [done..|].
  change (getAddress (delegator d)) with (pk_sender q). eapply body_admitted; subst q; cbn; try done.
  rewrite H1, H2, H3, H4. by destruct gas.
Qed.
End admission.

(** ** A concrete kit *)
Definition hex_be (w : nat) (z : Z) : string := string_of_list_ascii (rev (chars (hex_digits w z))).
Definition packed_word (high low : Z) : string := "0x" ++ hex_be 32 high ++ hex_be 32 low.

Lemma chars_hex_be w z : chars (hex_be w z) = rev (chars (hex_digits w z)).
Proof. unfold hex_be, chars. by rewrite list_ascii_of_string_of_list_ascii. Qed.
Lemma hex_be_value w : ∀ z, 0 <= z < 16 ^ Z.of_nat w → hex_number (chars (hex_be w z)) = z.
Proof.
  induction w as [|w IH]; intros z Hz; [cbn in *; lia|]. rewrite chars_hex_be in *. cbn [hex_digits].
  match goal with |- context [String ?c ?s] => change (chars (String c s)) with (c :: chars s) end.
  cbn [rev]. unfold hex_number. rewrite foldl_snoc.
  specialize (IH (z / 16)). rewrite chars_hex_be in IH. unfold hex_number in IH.
  rewrite Nat2Z.inj_succ, Z.pow_succ_r in Hz by lia. rewrite IH by (split; [apply Z.div_pos; lia|apply Z.div_lt_upper_bound; lia]).
  pose proof (Z.mod_pos_bound z 16 ltac:(lia)) as Hm. rewrite (Z.div_mod z 16) at 3 by lia.
  assert (Hd : ∀ n, (n < 16)%nat → hex_value (nth n (chars "0123456789abcdef") "0"%char) = Z.of_nat n).
  { intros n Hn. do 16 (destruct n as [|n]; [done|]). lia. }
  rewrite Hd by lia. lia.
Qed.
Lemma hex_be_class w z : forallb is_hex (chars (hex_be w z)) = true ∧ length (chars (hex_be w z)) = w.
Proof.
  rewrite chars_hex_be. destruct (hex_digits_class w z) as [Hl Hc]. rewrite slen_chars in Hl. split.
  - rewrite forallb_forall in Hc |- *. intros c Hin%in_rev. unfold is_hex. by rewrite (Hc c Hin).
  - rewrite length_rev. unfold chars in *. lia.
Qed.
Lemma packed_chars high low :
  chars (packed_word high low) = ("0"%char :: "x"%char :: chars (hex_be 32 high) ++ chars (hex_be 32 low))%list.
Proof. unfold packed_word. by rewrite !chars_append. Qed.

#[export] Instance test_kit : RevocationKit := {
  encode_disableDelegation d := "0xabcdef";
  hashDelegation d := test_hash (delegator d ++ salt d);
  encode_depositTo a := "0xb760faf9" ++ a;
  toPackedUserOperation op := Ok
    {| pk_sender := op_sender op; pk_nonce := op_nonce op; initCode := "0x"; callData := op_callData op;
       accountGasLimits := packed_word (verificationGasLimit (op_gas op)) (callGasLimit (op_gas op));
       pk_preVerificationGas := preVerificationGas (op_gas op);
       gasFees := packed_word (maxPriorityFeePerGas (op_gas op)) (maxFeePerGas (op_gas op));
       paymasterAndData := "0x"; pk_signature := op_signature op |};
}.
Lemma packed_word_shape high low : re_0x is_hex 64 (packed_word high low) = true.
Proof.
  destruct (hex_be_class 32 high) as [H1 H2], (hex_be_class 32 low) as [H3 H4].
  change (re_class is_hex 64 64 (hex_be 32 high ++ hex_be 32 low) = true).
  unfold re_class. rewrite slen_chars. change (list_ascii_of_string ?x) with (chars x).
  fold (chars (hex_be 32 high ++ hex_be 32 low)).
  rewrite chars_append, length_app, forallb_app, H1, H2, H3, H4. done.
Qed.
Lemma packed_halves high low :
  half_word high → half_word low →
  hexToBigInt_slice (packed_word high low) 0 16 = high ∧ hexToBigInt_slice (packed_word high low) 16 32 = low.
Proof.
  intros H1 H2. destruct (hex_be_class 32 high) as [_ L1], (hex_be_class 32 low) as [_ L2].
  cbn [hexToBigInt_slice test_toolkit]. rewrite packed_chars.
  change (Z.to_nat (2 + 2 * 0)) with 2%nat. change (Z.to_nat (2 + 2 * 16)) with 34%nat.
  change (Z.to_nat (2 * (16 - 0))) with 32%nat. change (Z.to_nat (2 * (32 - 16))) with 32%nat.
  set (A := chars (hex_be 32 high)) in *. set (B := chars (hex_be 32 low)) in *.
  change (drop 2 ("0"%char :: "x"%char :: A ++ B)%list) with (A ++ B)%list.
  change (drop 34 ("0"%char :: "x"%char :: A ++ B)%list) with (drop 32 (A ++ B)%list). split.
  - rewrite take_app_length' by done. by apply hex_be_value.
  - rewrite drop_app_length' by done. rewrite take_ge by lia. by apply hex_be_value.
Qed.
#[export] Instance test_kit_laws : RevocationLaws test_toolkit test_kit.
Proof.
  split.
  - intros op (H1 & H2 & H3 & H4). eexists _, _. split; [reflexivity|].
    destruct (packed_halves _ _ H2 H1) as [-> ->], (packed_halves _ _ H4 H3) as [-> ->].
    split_and!; try done; apply packed_word_shape.
  - intros s lo hi Hw Hlo. cbn [hexToBigInt_slice test_toolkit]. apply hex_number_nonneg; [|done].
    unfold whole_bytes in Hw. destruct (strip_0x s) as [t|] eqn:Hs; [|done]. apply strip_0x_Some in Hs as ->.
    apply andb_true_iff in Hw as [Hh _].
    replace (Z.to_nat (2 + 2 * lo)) with (2 + Z.to_nat (2 * lo))%nat by lia.
    change (drop (2 + ?n) (chars (String "0" (String "x" t)))) with (drop n (chars t)).
    change (forallb is_hex (take (Z.to_nat (2 * (hi - lo))) (drop (Z.to_nat (2 * lo)) (chars t))) = true).
    rewrite forallb_forall in Hh |- *. intros c Hc. apply Hh. rewrite <- list_elem_of_In in *.
    rewrite <- (take_drop (Z.to_nat (2 * lo)) (chars t)). apply elem_of_app. right.
    rewrite <- (take_drop (Z.to_nat (2 * (hi - lo))) (drop _ _)). apply elem_of_app. by left.
Qed.

(** ** Witnesses *)
Definition ex_account : string := "0x00000000000000000000000000000000000000ab".
Definition ex_root : Delegation := test_root "0x00000000000000000000000000000000000000AB" "0x".
Definition ex_policy : RevocationSubmissionPolicy :=
  {| po_payer := None; maxCallGasLimit := 300000; maxVerificationGasLimit := 300000;
     maxPreVerificationGas := 100000; po_maxFeePerGas := 10000000; minFeePerGas := Some 10000000 |}.
Definition ex_built : RevocationUserOperation :=
  match buildRevocationUserOperation ex_root ex_account 91342 5 SPONSORED_REVOCATION_GAS None with
  | Ok b => b
  | Throw _ => {| ru_entryPoint := ""; ru_sender := ""; userOperation := Build_UserOperation "" 0 "" SPONSORED_REVOCATION_GAS "";
                  packed := Build_PackedUserOperation "" 0 "" "" "" 0 "" "" "";
                  typedData := {| domain := Build_TypedDomain "" "" 0 ""; types := []; primaryType := "";
                                  message := Build_RevocationUserOpMessage "" 0 "" "" "" 0 "" "" "" |};
                  ru_requiredPrefund := 0 |}
  end.
Definition ex_signed : PackedUserOperation := (finalizeRevocationUserOperation ex_built "0xbeef").2.
Definition ex_submission : ValidatedRevocationSubmission :=
  {| vs_packed := ex_signed; vs_sender := ru_sender ex_built; vs_delegation := ex_root;
     delegationHash := hashDelegation ex_root; vs_gas := SPONSORED_REVOCATION_GAS;
     requiredPrefund := 7000000000000 |}.

Lemma built_revocation_is_admitted_witness :
  ∃ text doc, stringify (buildRevocationSubmissionBody "0x01" ex_signed) = Ok (Some text) ∧ parse text = Ok doc
  ∧ validateRevocationSubmission doc ex_policy = Ok ex_submission.
Proof.
  apply (built_revocation_is_admitted ex_policy "0x01" [ex_root] ex_root ex_account 91342 5 SPONSORED_REVOCATION_GAS
           None ex_built "0xbeef"); try (vm_compute; reflexivity).
  - split; [reflexivity|vm_compute; discriminate].
  - split; [reflexivity|vm_compute; discriminate].
  - intros a [=].
  - split; [reflexivity|vm_compute; discriminate].
  - discriminate.
  - lia.
  - unfold gas_fits, half_word. cbn. lia.
  - cbn. lia.
  - split; cbn; try lia. intros m [= <-]. lia.
Defined.

Lemma admitted_is_own_revocation_witness :
  admitted (buildRevocationSubmissionBody "0x01" ex_signed) ex_policy ex_submission
  ∧ 0 <= 7000000000000 <= (300000 + 300000 + 100000) * 10000000.
Proof.
  apply (admitted_is_own_revocation (buildRevocationSubmissionBody "0x01" ex_signed) ex_policy ex_submission).
  vm_compute. reflexivity.
Defined.

(** viem's [readContract] throws every failure as a [ContractFunctionExecutionError]: behind
    it, a transport failure reads as the account's refusal of the signature. *)
Lemma unreachable_reads_as_invalid m m' details details' magic :
  verifyRevocationSignature
    (inr (AnError ContractFunctionExecutionError m details (AnError HttpRequestError m' details' NotAnError))) magic
  = inl false.
Proof. done. Qed.
(** Thrown by itself, it is rethrown. *)
Lemma unreachable_alone m details magic :
  verifyRevocationSignature (inr (AnError HttpRequestError m details NotAnError)) magic
  = inr (AnError HttpRequestError m details NotAnError).
Proof. done. Qed.
