(* ===== verification/Submitter.v ===== *)
(** * The revocation submitter

    [apps/revocation-submitter/index.ts]: the service that carries a signed revocation to
    the EntryPoint and, in its sponsored mode, first deposits what the account is short of.
    A request is a tree of questions ([prog]) to the chain and to the state the requests
    share; what may be asked, in what order and with which arguments, is the automaton
    [allowed]/[next]; [server_step] interleaves any number of requests over one limiter, one
    budget and one set of busy senders. *)

From Stdlib Require Import ZArith Lia Ascii String.
From stdpp Require Import base gmap strings list sets.
From S2P Require Import Prelude Ledger Toolkit Budget Guards X402 Net Json Codec Errors Revocation.
Open Scope string_scope.
Open Scope Z_scope.

(** ** What a request asks *)
Record OpReceipt := {
  succeeded : bool; gasUsed : Z; effectiveGasPrice : Z; l1Fee : jsval;
  (** [success] of its [UserOperationEvent]s. *)
  operations : list bool;
}.
(** Deposit, native balance, base fee and the relayer's balance, read together. *)
Record ChainState := { st_deposit : Z; st_native : Z; st_baseFee : option Z; st_relayer : Z }.

Inductive ask :=
  | now
  | read_revoked (d : Delegation) | read_nonce (sender : string) | read_state (sender : string)
  | read_hash (p : PackedUserOperation) | read_magic (sender hash signature : string)
  | read_balance
  | consume (key : string) (time : Z)
  | hold (amount time : Z) | settle_hold (h : BudgetHold) (charged time : Z)
  | send_deposit (call : RevocationCall) (gas maxFee tip : Z)
  | read_receipt (hash : string)
  | simulate (p : PackedUserOperation) | send_ops (p : PackedUserOperation) (maxFee tip : Z)
  | enter (sender : string) | leave (sender : string).

(** [name: message], the text of an error; of the account's own reads the causes are kept,
    and the text of something thrown that is no error is left out. *)
Definition raw_text (e : js_error) : string := err_name e ++ ": " ++ err_message e.
Definition class_name (c : error_class) : string :=
  match c with
  | PlainError => "Error"
  | RpcUnreachableBeforeBroadcast => "RpcUnreachableBeforeBroadcast"
  | SettlementStorageUnavailable => "SettlementStorageUnavailable"
  | Guards.SettlementPending _ => "SettlementPending"
  | Guards.ValidationError _ => "ValidationError"
  | Guards.BudgetExceeded _ => "BudgetExceeded"
  | RedemptionRejected => "RedemptionRejected"
  | Guards.ContractFunctionRevertedError => "ContractFunctionRevertedError"
  | ExecutionRevertedError => "ExecutionRevertedError"
  | HttpRequestError => "HttpRequestError"
  | TimeoutError => "TimeoutError"
  | LimitExceededRpcError => "LimitExceededRpcError"
  | ContractFunctionExecutionError => "ContractFunctionExecutionError"
  end.
Definition thrown_text (e : thrown) : string :=
  match e with NotAnError => "" | AnError c m _ _ => class_name c ++ ": " ++ m end.

(** [inr] is a throw, with its text. *)
Definition answer (q : ask) : Type :=
  match q with
  | now => Z
  | read_revoked _ => bool + string
  | read_nonce _ | read_balance => Z + string
  | read_state _ => ChainState + string
  | read_hash _ | read_magic _ _ _ => string + thrown
  | consume _ _ => bool
  | hold _ _ => option BudgetHold + string
  | settle_hold _ _ _ => unit + string
  | send_deposit _ _ _ _ | send_ops _ _ _ => string + string
  | read_receipt _ => OpReceipt + string
  | simulate _ => unit + string
  | enter _ => bool   (* whether the sender was busy *)
  | leave _ => unit
  end.

Inductive failure :=
  | SubmissionRefused (reason : string) (detail : list (string * string)) (httpStatus : Z)
  | Broke (message : string).
Inductive prog (A : Type) :=
  | Done (r : A + failure)
  | Ask (q : ask) (k : answer q → prog A).
Arguments Done {A}. Arguments Ask {A}.

Fixpoint pbind {A B} (p : prog A) (f : A + failure → prog B) : prog B :=
  match p with
  | Done r => f r
  | Ask q k => Ask q (λ a, pbind (k a) f)
  end.
Notation refuse_with reason detail status := (Done (inr (SubmissionRefused reason detail status))).
Notation "'get!' x := q 'in' k" :=
  (Ask q (λ r, match r with inr e => Done (inr (Broke e)) | inl x => k end))
  (at level 200, x pattern, q at level 100, k at level 200, right associativity).
Notation "'ask!' x := q 'in' k" := (Ask q (λ x, k))
  (at level 200, x name, q at level 100, k at level 200, right associativity).

(** ** How it is configured *)
Record SponsorConfig := {
  depositGas : Z; sc_maxFeePerGas : Z; sc_priorityFeePerGas : Z; minBalance : Z;
}.
Record SubmitterConfig := {
  sponsorConfig : option SponsorConfig;   (* [None] is the pinned mode *)
  cf_entryPoint : string; RELAYER_PRIORITY_FEE_WEI : Z;
}.
Record RevokeResponse := { rr_transaction : string; rr_delegationHash : string }.

Definition refusal_reply (r : RevocationSubmissionRefusal) : string * list (string * string) :=
  match r with
  | prefund_short deposit required shortfall =>
      ("prefund_short", [("deposit", show_Z deposit); ("requiredPrefund", show_Z required);
                         ("shortfall", show_Z shortfall)])
  | base_fee_unreadable fee => ("base_fee_unreadable", [("maxFeePerGas", show_Z fee)])
  | fee_below_basefee fee base =>
      ("fee_below_basefee", [("maxFeePerGas", show_Z fee); ("baseFeePerGas", show_Z base)])
  | relayer_unfunded balance needed =>
      ("relayer_unfunded", [("relayerBalance", show_Z balance); ("needed", show_Z needed)])
  end.

Section submitter.
Context `{Toolkit} `{RevocationKit}.
(** [String(n)] of a Number that is not an integer. *)
Variable show : Z → string.
Variable config : SubmitterConfig.
Variable s : ValidatedRevocationSubmission.

Definition relayer_tip : Z :=
  if RELAYER_PRIORITY_FEE_WEI config <? maxFeePerGas (vs_gas s)
  then RELAYER_PRIORITY_FEE_WEI config else maxFeePerGas (vs_gas s).

(** Simulate, broadcast, and prove the revocation executed. *)
Definition carry : prog RevokeResponse :=
  get! _ := simulate (vs_packed s) in
  get! transaction := send_ops (vs_packed s) (maxFeePerGas (vs_gas s)) relayer_tip in
  get! receipt := read_receipt transaction in
  if negb (succeeded receipt) then Done (inr (Broke "Error: handleOps transaction reverted"))
  else match operations receipt with
  | [] => Done (inr (Broke "Error: no UserOperationEvent - the operation never executed"))
  | false :: _ =>
      Done (inr (Broke "Error: UserOperationEvent.success is false - disableDelegation reverted inside"))
  | true :: _ => Done (inl {| rr_transaction := transaction; rr_delegationHash := delegationHash s |})
  end.

Definition refuse_unready {A} (r : RevocationSubmissionRefusal) : prog A :=
  refuse_with (refusal_reply r).1 (refusal_reply r).2 409.

Definition submitPinned : prog RevokeResponse :=
  get! state := read_state (vs_sender s) in
  match judgeSubmissionReadiness (st_deposit state) (requiredPrefund s) (st_baseFee state)
          (maxFeePerGas (vs_gas s)) (st_relayer state) with
  | Some refusal => refuse_unready refusal
  | None => carry
  end.

(** The account's own answer, by two reads. *)
Definition account_accepts (k : bool → prog RevokeResponse) : prog RevokeResponse :=
  ask! hash := read_hash (vs_packed s) in
  match hash with
  | inr e => if contract_refusal e then k false else Done (inr (Broke (thrown_text e)))
  | inl h =>
      ask! magic := read_magic (vs_sender s) h (pk_signature (vs_packed s)) in
      match verifyRevocationSignature (inl h) (λ _, magic) with
      | inl verdict => k verdict
      | inr e => Done (inr (Broke (thrown_text e)))
      end
  end.

Definition gas_reservation (c : SponsorConfig) : Z := depositGas c * sc_maxFeePerGas c.

(** The [try] of the deposit: what it has charged, and whether it fell through. *)
Definition deposit_leg (c : SponsorConfig) (shortfall : Z) : prog (Z * option string) :=
  let reservation := shortfall + gas_reservation c in
  match buildPrefundDepositCall (cf_entryPoint config) (vs_sender s) shortfall with
  | Throw e => Done (inl (0, Some (raw_text e)))
  | Ok call =>
      ask! sent := send_deposit call (depositGas c) (sc_maxFeePerGas c) (sc_priorityFeePerGas c) in
      match sent with
      | inr e => Done (inl (0, Some e))
      | inl hash =>
          ask! mined := read_receipt hash in
          match mined with
          | inr e => Done (inl (reservation, Some e))
          | inl receipt =>
              let cost := costOfReceipt show (gasUsed receipt) (effectiveGasPrice receipt) (l1Fee receipt)
                            (gas_reservation c) in
              if negb (succeeded receipt) then Done (inl (cost, Some "Error: sponsor depositTo reverted"))
              else Done (inl (shortfall + cost, None))
          end
      end
  end.

(** Steps 3 and 4 of the sponsored flow, for an account that is short. *)
Definition arm_deposit (c : SponsorConfig) (shortfall : Z) : prog RevokeResponse :=
  account_accepts (λ accepted,
    if negb accepted then refuse_with "invalid_account_signature" [("sender", vs_sender s)] 403
    else
      ask! time := now in
      ask! granted := consume ("sender:" ++ vs_sender s) time in
      if negb granted then refuse_with "rate_limited" [] 429
      else
        let reservation := shortfall + gas_reservation c in
        get! balance := read_balance in
        if balance <? minBalance c + reservation then refuse_with "sponsor_unfunded" [] 503
        else
          get! held := hold reservation time in
          match held with
          | None => refuse_with "budget_exhausted" [] 503
          | Some h =>
              pbind (deposit_leg c shortfall) (λ leg,
                match leg with
                | inr e => Done (inr e)
                | inl (charged, thrown) =>
                    ask! time := now in
                    get! _ := settle_hold h charged time in
                    match thrown with
                    | Some e => Done (inr (Broke e))
                    | None => carry
                    end
                end)
          end).

Definition submitSponsored (c : SponsorConfig) : prog RevokeResponse :=
  get! revoked := read_revoked (vs_delegation s) in
  if revoked then refuse_with "already_revoked" [("delegationHash", delegationHash s)] 409
  else
    get! currentNonce := read_nonce (vs_sender s) in
    if negb (pk_nonce (vs_packed s) =? currentNonce) then refuse_with "stale_nonce" [] 409
    else
      get! state := read_state (vs_sender s) in
      match judgeSubmissionReadiness (requiredPrefund s) (requiredPrefund s) (st_baseFee state)
              (maxFeePerGas (vs_gas s)) (st_relayer state) with
      | Some refusal => refuse_unready refusal
      | None =>
          let short := shortfall (readRevocationPrefundState (st_deposit state) (st_native state) (requiredPrefund s)) in
          if 0 <? short then arm_deposit c short else carry
      end.

Definition submit : prog RevokeResponse :=
  match sponsorConfig config with
  | None => submitPinned
  | Some c =>
      ask! busy := enter (vs_sender s) in
      if busy then refuse_with "sender_busy" [("sender", vs_sender s)] 409
      else pbind (submitSponsored c) (λ r, ask! _ := leave (vs_sender s) in Done r)
  end.

(** With the operator's floor above its own tip, the relayer never pays more for gas than
    the EntryPoint gives back, at any base fee. *)
Lemma relayer_recovers policy floor base :
  within policy (vs_gas s) → minFeePerGas policy = Some floor → RELAYER_PRIORITY_FEE_WEI config <= floor →
  Z.min (maxFeePerGas (vs_gas s)) (base + relayer_tip)
  <= Z.min (maxFeePerGas (vs_gas s)) (base + maxPriorityFeePerGas (vs_gas s)).
Proof.
  intros Hw Hf Hle. pose proof (wi_floor _ _ Hw floor Hf). pose proof (wi_tip _ _ Hw). unfold relayer_tip.
  destruct (Z.ltb_spec (RELAYER_PRIORITY_FEE_WEI config) (maxFeePerGas (vs_gas s))); lia.
Qed.
End submitter.

(** ** What a request may do

    The specification: an automaton over questions and answers.  A [leg] is where the money
    of the sponsored deposit is. *)
Inductive leg :=
  | no_leg
  | holding (h : BudgetHold)                        (* reserved, nothing sent *)
  | unsent (h : BudgetHold)                         (* the node did not take it *)
  | broadcast (h : BudgetHold) (hash : string)      (* taken, its receipt not asked yet *)
  | silent (h : BudgetHold)                         (* taken, its receipt unreadable *)
  | bounced (h : BudgetHold) (cost : Z)             (* reverted: the value came back *)
  | landed (h : BudgetHold) (cost : Z)
  | armed                                           (* landed and charged *)
  | lost.                                           (* charged, and the request fails *)
Record phase := {
  inside : bool; not_revoked : bool; nonce_current : bool; seen : option ChainState;
  asked_hash : option string; accepted : bool; token : bool; funds : option Z;
  money : leg; simulated : bool; carried : option string; executed : bool;
}.
Definition start : phase :=
  {| inside := false; not_revoked := false; nonce_current := false; seen := None; asked_hash := None;
     accepted := false; token := false; funds := None; money := no_leg; simulated := false;
     carried := None; executed := false |}.

Definition ran (r : OpReceipt) : bool :=
  succeeded r && match operations r with success :: _ => success | [] => false end.

(** Every refusal a submission can end in, with its status. *)
Definition REFUSALS : list (string * Z) :=
  [("already_revoked", 409); ("stale_nonce", 409); ("sender_busy", 409); ("prefund_short", 409);
   ("base_fee_unreadable", 409); ("fee_below_basefee", 409); ("relayer_unfunded", 409);
   ("invalid_account_signature", 403); ("rate_limited", 429); ("sponsor_unfunded", 503);
   ("budget_exhausted", 503)].
Definition known (f : failure) : bool :=
  match f with
  | SubmissionRefused reason _ status => existsb (λ e, String.eqb e.1 reason && (e.2 =? status)) REFUSALS
  | Broke _ => true
  end.
Lemma unready_known r : known (SubmissionRefused (refusal_reply r).1 (refusal_reply r).2 409) = true.
Proof. by destruct r. Qed.

Section protocol.
Context `{Toolkit} `{RevocationKit}.
Variable show : Z → string.
Variable config : SubmitterConfig.
Variable s : ValidatedRevocationSubmission.

Definition receipt_cost (c : SponsorConfig) (r : OpReceipt) : Z :=
  costOfReceipt show (gasUsed r) (effectiveGasPrice r) (l1Fee r) (gas_reservation c).
Definition mined_leg (h : BudgetHold) (r : OpReceipt + string) : leg :=
  match sponsorConfig config, r with
  | Some c, inl r => if succeeded r then landed h (receipt_cost c r) else bounced h (receipt_cost c r)
  | _, _ => silent h
  end.

Definition next (ph : phase) (q : ask) (a : answer q) : phase :=
  {| inside := match q return answer q → bool with
               | enter _ => λ busy, negb busy | leave _ => λ _, false | _ => λ _, inside ph end a;
     not_revoked := match q return answer q → bool with
                    | read_revoked _ => λ r, match r with inl false => true | _ => false end
                    | _ => λ _, not_revoked ph end a;
     nonce_current := match q return answer q → bool with
                      | read_nonce _ => λ r, match r with inl n => pk_nonce (vs_packed s) =? n | _ => false end
                      | _ => λ _, nonce_current ph end a;
     seen := match q return answer q → option ChainState with
             | read_state _ => λ r, match r with inl st => Some st | _ => None end
             | _ => λ _, seen ph end a;
     asked_hash := match q return answer q → option string with
                   | read_hash _ => λ r, match r with inl h => Some h | _ => None end
                   | _ => λ _, asked_hash ph end a;
     accepted := match q return answer q → bool with
                 | read_magic _ _ _ => λ r, match r with inl m => String.eqb (toLowerCase m) ERC1271_MAGIC_VALUE
                                            | _ => false end
                 | _ => λ _, accepted ph end a;
     token := match q return answer q → bool with consume _ _ => λ ok, ok | _ => λ _, token ph end a;
     funds := match q return answer q → option Z with
              | read_balance => λ r, match r with inl b => Some b | _ => None end
              | _ => λ _, funds ph end a;
     money := match q return answer q → leg with
              | hold _ _ => λ r, match r with inl (Some h) => holding h | _ => money ph end
              | send_deposit _ _ _ _ => λ r, match money ph, r with
                                             | holding h, inl hash => broadcast h hash
                                             | holding h, inr _ => unsent h
                                             | l, _ => l end
              | read_receipt _ => λ r, match money ph with broadcast h _ => mined_leg h r | l => l end
              | settle_hold _ _ _ => λ r, match money ph, r with landed _ _, inl _ => armed | _, _ => lost end
              | _ => λ _, money ph end a;
     simulated := match q return answer q → bool with
                  | simulate _ => λ r, match r with inl _ => true | _ => false end
                  | _ => λ _, simulated ph end a;
     carried := match q return answer q → option string with
                | send_ops _ _ _ => λ r, match r with inl h => Some h | _ => None end
                | _ => λ _, carried ph end a;
     executed := match q return answer q → bool with
                 | read_receipt hash => λ r,
                     match carried ph, r with
                     | Some _, inl r => ran r
                     | _, _ => executed ph
                     end
                 | _ => λ _, executed ph end a |}.

Definition short_of (st : ChainState) : Z :=
  shortfall (readRevocationPrefundState (st_deposit st) (st_native st) (requiredPrefund s)).
(** Nothing but the deposit stands in the way. *)
Definition carriable (st : ChainState) : Prop :=
  ∃ base, st_baseFee st = Some base ∧ base <= maxFeePerGas (vs_gas s) ∧ requiredPrefund s <= st_relayer st.

(** What the money may be charged, by what became of it. *)
Definition charge_due (ph : phase) (h : BudgetHold) (charged : Z) : Prop :=
  match money ph with
  | unsent h' => h = h' ∧ charged = 0
  | silent h' => h = h' ∧ charged = hold_amount h
  | bounced h' cost => h = h' ∧ charged = cost
  | landed h' cost => h = h' ∧ ∃ st, seen ph = Some st ∧ charged = short_of st + cost
  | _ => False
  end.

Definition allowed (ph : phase) (q : ask) : Prop :=
  match q with
  | now | read_balance => True
  | read_revoked d => d = vs_delegation s
  | read_nonce a => a = vs_sender s
  | read_state a => a = vs_sender s ∧ money ph = no_leg
  | read_hash p => p = vs_packed s
  | read_magic a h g => a = vs_sender s ∧ asked_hash ph = Some h ∧ g = pk_signature (vs_packed s)
  | consume key _ => key = "sender:" ++ vs_sender s ∧ accepted ph = true
  | hold amount _ => ∃ c st b,
      sponsorConfig config = Some c ∧ inside ph = true ∧ not_revoked ph = true ∧ nonce_current ph = true
      ∧ seen ph = Some st ∧ carriable st ∧ 0 < short_of st
      ∧ accepted ph = true ∧ token ph = true
      ∧ amount = short_of st + gas_reservation c ∧ funds ph = Some b ∧ minBalance c + amount <= b
      ∧ money ph = no_leg
  | send_deposit call gas maxFee tip => ∃ c st h,
      sponsorConfig config = Some c ∧ seen ph = Some st ∧ money ph = holding h
      ∧ buildPrefundDepositCall (cf_entryPoint config) (vs_sender s) (short_of st) = Ok call
      ∧ gas = depositGas c ∧ maxFee = sc_maxFeePerGas c ∧ tip = sc_priorityFeePerGas c
      ∧ hold_amount h = rc_value call + gas * maxFee
  | settle_hold h charged _ => charge_due ph h charged
  | read_receipt hash => (∃ h, money ph = broadcast h hash ∧ carried ph = None) ∨ (carried ph = Some hash ∧ money ph ∈ [no_leg; armed])
  | simulate p => p = vs_packed s ∧ ∃ st, seen ph = Some st ∧ carriable st
      ∧ (requiredPrefund s <= st_deposit st ∧ money ph = no_leg ∨ money ph = armed)
  | send_ops p maxFee tip => p = vs_packed s ∧ simulated ph = true ∧ maxFee = maxFeePerGas (vs_gas s)
      ∧ tip = Z.min (RELAYER_PRIORITY_FEE_WEI config) maxFee ∧ money ph ∈ [no_leg; armed]
  | enter a => a = vs_sender s ∧ ph = start
  | leave a => a = vs_sender s ∧ inside ph = true ∧ money ph ∈ [no_leg; armed; lost]
  end.

(** A hold is of what was asked for. *)
Definition possible (q : ask) : answer q → Prop :=
  match q return answer q → Prop with
  | hold amount _ => λ r, ∀ h, r = inl (Some h) → hold_amount h = amount
  | _ => λ _, True
  end.

(** Whatever is answered, every question is allowed and the end is as [Q] says. *)
Fixpoint obeys {A} (Q : phase → A + failure → Prop) (ph : phase) (p : prog A) : Prop :=
  match p with
  | Done r => Q ph r
  | Ask q k => allowed ph q ∧ ∀ a, possible q a → obeys Q (next ph q a) (k a)
  end.
(** The end of a request: the sender is free, no hold is open, a refusal is one of the list,
    and a success names the transaction in which the operation itself succeeded. *)
Definition ended (busy : bool) (ph : phase) (r : RevokeResponse + failure) : Prop :=
  inside ph = busy ∧ money ph ∈ [no_leg; armed; lost] ∧ (∀ f, r = inr f → known f = true)
  ∧ ∀ response, r = inl response → carried ph = Some (rr_transaction response) ∧ executed ph = true
      ∧ simulated ph = true ∧ rr_delegationHash response = delegationHash s.
Definition finished : phase → RevokeResponse + failure → Prop := ended false.

Lemma obeys_bind {A B} (Q : phase → A + failure → Prop) (Q' : phase → B + failure → Prop) p f : ∀ ph,
  obeys Q ph p → (∀ ph r, Q ph r → obeys Q' ph (f r)) → obeys Q' ph (pbind p f).
Proof.
  induction p as [r|q k IH]; intros ph Hp Hf; cbn [obeys pbind] in *; [by apply Hf|].
  destruct Hp as [Ha Hk]. split; [done|]. intros a Hpos. apply IH; [by apply Hk|done].
Qed.
Lemma obeys_weaken {A} (Q Q' : phase → A + failure → Prop) p : ∀ ph,
  obeys Q ph p → (∀ ph r, Q ph r → Q' ph r) → obeys Q' ph p.
Proof.
  induction p as [r|q k IH]; intros ph Hp Hq; cbn [obeys] in *; [by apply Hq|].
  destruct Hp as [Ha Hk]. split; [done|]. intros a Hpos. apply IH; [by apply Hk|done].
Qed.

(** *** The service obeys *)
Lemma fails_ended busy ph f :
  inside ph = busy → money ph ∈ [no_leg; armed; lost] → known f = true → ended busy ph (inr f).
Proof. intros. split_and!; [done|done|by intros ? [= <-]|done]. Qed.

Lemma carry_obeys busy ph st :
  inside ph = busy → seen ph = Some st → carriable st → carried ph = None →
  (requiredPrefund s <= st_deposit st ∧ money ph = no_leg ∨ money ph = armed) →
  obeys (ended busy) ph (carry config s).
Proof.
  intros <- Hseen Hc Hno Hm.
  assert (Hm' : money ph ∈ [no_leg; armed]) by (destruct Hm as [[_ ->]| ->]; set_solver).
  assert (Hm3 : money ph ∈ [no_leg; armed; lost]) by set_solver.
  cbn [carry obeys]. split; [by split; [|exists st]|]. intros [[]|e] _; [|by apply fails_ended].
  cbn [obeys]. split.
  { cbn. split_and!; try done. unfold relayer_tip. destruct (Z.ltb_spec (RELAYER_PRIORITY_FEE_WEI config) (maxFeePerGas (vs_gas s))); lia. }
  intros [hash|e] _; [|by apply fails_ended]. cbn [obeys]. split; [by right|].
  assert (Hkeep : ∀ r ph', money ph' = money ph → money (next ph' (read_receipt hash) r) = money ph).
  { intros r ph' E. cbn. rewrite E. by destruct Hm as [[_ ->]| ->]. }
  intros [r|e] _; [|by apply fails_ended; [|rewrite Hkeep|]].
  assert (Hend : ∀ m, obeys (ended (inside ph)) (next (next (next ph (simulate (vs_packed s)) (inl ()))
      (send_ops (vs_packed s) (maxFeePerGas (vs_gas s)) (relayer_tip config s)) (inl hash)) (read_receipt hash) (inl r))
      (Done (inr (Broke m)))) by (intros m; apply fails_ended; [done|by rewrite Hkeep|done]).
  destruct (succeeded r) eqn:Hs; cbn [negb]; [|apply Hend].
  destruct (operations r) as [|[] l] eqn:Hops; [apply Hend| |apply Hend].
  split; [done|]. split; [by rewrite Hkeep|]. split; [done|]. intros response [= <-].
  split_and!; try done. cbn. unfold ran. by rewrite Hs, Hops.
Qed.

(** What the deposit leaves behind: the charge that is due, and the rest as it was. *)
Record deposited (ph : phase) (h : BudgetHold) (ph' : phase) (charged : Z) (thrown : option string) : Prop := {
  dp_due : charge_due ph' h charged;
  dp_same : inside ph' = inside ph ∧ seen ph' = seen ph ∧ carried ph' = None;
  dp_landed : thrown = None → ∃ cost, money ph' = landed h cost;
}.

Lemma deposit_obeys ph c st h :
  sponsorConfig config = Some c → seen ph = Some st → money ph = holding h → 0 < short_of st →
  hold_amount h = short_of st + gas_reservation c → carried ph = None →
  obeys (λ ph' r, ∃ charged thrown, r = inl (charged, thrown) ∧ deposited ph h ph' charged thrown)
    ph (deposit_leg show config s c (short_of st)).
Proof.
  intros Hcf Hseen Hm Hpos Hamt Hno. unfold deposit_leg.
  destruct (buildPrefundDepositCall (cf_entryPoint config) (vs_sender s) (short_of st)) as [call|e] eqn:Hcall.
  2:{ unfold buildPrefundDepositCall in Hcall. rewrite (proj2 (Z.leb_gt _ _) Hpos) in Hcall. done. }
  assert (Hv : rc_value call = short_of st).
  { unfold buildPrefundDepositCall in Hcall. by apply throws_ok in Hcall as [_ [= <-]]. }
  cbn [obeys]. split; [by exists c, st, h; rewrite Hv|]. intros [hash|e] _.
  2:{ exists 0, (Some e). split; [done|]. split; [|by split_and!|done]. unfold charge_due. cbn. by rewrite Hm. }
  cbn [obeys]. split; [left; exists h; cbn; by rewrite Hm, Hno|]. intros [r|e] _.
  2:{ eexists _, (Some e). split; [done|]. split; [|by split_and!|done]. unfold charge_due. cbn. rewrite Hm. unfold mined_leg.
      rewrite Hcf. split; [done|]. by rewrite Hamt. }
  destruct (succeeded r) eqn:Hs; cbn [negb].
  - eexists _, None. split; [done|]. split; [|by split_and!|].
    + unfold charge_due. cbn. rewrite Hm. unfold mined_leg. rewrite Hcf, Hs. split; [done|]. by exists st.
    + intros _. cbn. rewrite Hm. unfold mined_leg. rewrite Hcf, Hs. by eexists.
  - eexists _, (Some _). split; [done|]. split; [|by split_and!|done].
    unfold charge_due. cbn. rewrite Hm. unfold mined_leg. by rewrite Hcf, Hs.
Qed.

Lemma judged_carriable st deposit :
  judgeSubmissionReadiness deposit (requiredPrefund s) (st_baseFee st) (maxFeePerGas (vs_gas s)) (st_relayer st) = None →
  requiredPrefund s <= deposit ∧ carriable st.
Proof.
  unfold judgeSubmissionReadiness. destruct (_ <? _) eqn:H1; [done|]. destruct (st_baseFee st) as [base|] eqn:Hb; [|done].
  destruct (_ <? base) eqn:H2; [done|]. destruct (st_relayer st <? _) eqn:H3; [done|]. intros _. bools.
  split; [done|]. by exists base.
Qed.

(** The account's verdict, and nothing else changed. *)
Lemma accepts_obeys Q ph k :
  money ph ∈ [no_leg; armed; lost] →
  (∀ ph' verdict, inside ph' = inside ph → not_revoked ph' = not_revoked ph → nonce_current ph' = nonce_current ph →
     seen ph' = seen ph → money ph' = money ph → carried ph' = carried ph → (verdict = true → accepted ph' = true) →
     obeys Q ph' (k verdict)) →
  (∀ ph' m, inside ph' = inside ph → money ph' = money ph → Q ph' (inr (Broke m))) →
  obeys Q ph (account_accepts s k).
Proof.
  intros Hm Hk Hf. unfold account_accepts. cbn [obeys]. split; [done|]. intros [h|e] _.
  2:{ destruct (contract_refusal e); [by apply Hk|by apply Hf]. }
  cbn [obeys]. split; [by split_and!|]. intros [m|e] _; cbn [verifyRevocationSignature].
  - by apply Hk.
  - destruct (contract_refusal e); [by apply Hk|by apply Hf].
Qed.

Lemma arm_obeys ph c st :
  sponsorConfig config = Some c → inside ph = true → not_revoked ph = true → nonce_current ph = true →
  seen ph = Some st → carriable st → 0 < short_of st → money ph = no_leg → carried ph = None →
  obeys (ended true) ph (arm_deposit show config s c (short_of st)).
Proof.
  intros Hcf Hin Hrev Hnonce Hseen Hcar Hpos Hm Hno. unfold arm_deposit.
  assert (Hm3 : money ph ∈ [no_leg; armed; lost]) by (rewrite Hm; set_solver).
  apply accepts_obeys; [done| |intros ph' m E1 E2; apply fails_ended; [congruence..|done]].
  intros ph1 verdict E1 E2 E3 E4 E5 E6 Hv. destruct verdict; cbn [negb]; [|apply fails_ended; [congruence..|done]].
  specialize (Hv eq_refl). cbn [obeys]. split; [done|]. intros time _. cbn [obeys]. split; [done|].
  intros granted _. destruct granted; cbn [negb]; [|apply fails_ended; [cbn; congruence..|done]].
  cbn [obeys]. split; [done|]. intros [b|e] _; [|apply fails_ended; [cbn; congruence..|done]].
  destruct (b <? _) eqn:Hb; [apply fails_ended; [cbn; congruence..|done]|]. apply Z.ltb_ge in Hb.
  cbn [obeys]. split.
  { exists c, st, b. cbn. split_and!; try congruence; done. }
  intros [[h|]|e] Hpossible; [|apply fails_ended; [cbn; congruence..|done]..].
  cbn in Hpossible. specialize (Hpossible h eq_refl).
  eapply obeys_bind.
  { apply deposit_obeys; try done; cbn; congruence. }
  intros ph2 r (charged & thrown & -> & [Hdue (F1 & F2 & F3) Hland]). cbn [obeys]. split; [done|]. intros time2 _.
  cbn [inside seen next] in F1, F2. cbn [obeys]. split; [done|].
  intros a _. set (ph3 := next (next ph2 now time2) (settle_hold h charged time2) a).
  assert (G1 : inside ph3 = true) by (subst ph3; cbn; congruence).
  assert (G2 : money ph3 ∈ [armed; lost]) by (subst ph3; cbn; destruct (money ph2), a; set_solver).
  assert (G3 : money ph3 ∈ [no_leg; armed; lost]) by set_solver.
  destruct a as [[]|e]; [|by apply fails_ended]. destruct thrown as [e|]; [by apply fails_ended|].
  destruct (Hland eq_refl) as [cost Hcost]. apply (carry_obeys _ _ st); try done.
  - subst ph3. cbn. congruence.
  - right. subst ph3. cbn. by rewrite Hcost.
Qed.

Ltac quit := apply fails_ended; [done|apply elem_of_cons; by left|first [done|apply unready_known]].

Lemma submit_obeys : obeys finished start (submit show config s).
Proof.
  unfold submit. destruct (sponsorConfig config) as [c|] eqn:Hcf.
  - cbn [obeys]. split; [done|]. intros [] _; [quit|].
    eapply obeys_bind; [eapply (obeys_weaken (ended true)); [|intros ph r He; exact He]|].
    + unfold submitSponsored. set (ph := next start (enter (vs_sender s)) false). cbn [obeys].
      split; [done|]. intros [[]|e] _; [quit| |quit]. cbn [obeys]. split; [done|].
      intros [n|e] _; [|quit]. destruct (pk_nonce _ =? n) eqn:Hn; cbn [negb]; [|quit].
      cbn [obeys]. split; [done|]. intros [st|e] _; [|quit].
      destruct (judgeSubmissionReadiness _ _ _ _ _) as [refusal|] eqn:Hj; [quit|].
      apply judged_carriable in Hj as [_ Hcar]. fold (short_of st).
      destruct (0 <? short_of st) eqn:Hshort.
      * apply arm_obeys; try done. by apply Z.ltb_lt.
      * apply (carry_obeys _ _ st); try done. left. split; [|done]. apply Z.ltb_ge in Hshort.
        unfold short_of in Hshort. cbn in Hshort. destruct (Z.leb_spec (requiredPrefund s) (st_deposit st)); lia.
    + intros ph r (Hin & Hm & Hknown & Hsuccess). cbn [obeys]. split; [done|]. intros [] _. by split_and!.
  - unfold submitPinned. cbn [obeys]. split; [done|]. intros [st|e] _; [|quit].
    destruct (judgeSubmissionReadiness _ _ _ _ _) as [refusal|] eqn:Hj; [quit|].
    apply judged_carriable in Hj as [Hdep Hcar]. apply (carry_obeys _ _ st); try done. by left.
Qed.

(** The sponsor's money moves only for the owner, and a success is a revocation. Whatever
    the chain, the node and the account answer, in the sponsored mode and in the pinned one,
    a request asks only what the protocol allows where it stands: it reserves only after the
    chain said the permission is still in force, the nonce is current, the base fee and the
    relayer would carry the operation, the account itself accepted the signature, a token was
    taken and the sponsor's balance covers the deposit and its gas; it deposits exactly what
    the account is short of, inside that reservation; the reservation is charged once, with
    nothing if the node refused, with all of it if the receipt cannot be read, and with what
    the receipt says otherwise; nothing is broadcast to the EntryPoint that was not simulated,
    at a tip the operation pays for; a refusal is one of a closed list; and a success names the transaction
    whose UserOperationEvent says that the operation itself succeeded. *)
Theorem submitter_obeys_protocol : obeys finished start (submit show config s).
Proof. apply submit_obeys. Qed.
End protocol.
