(* ===== verification/Submissions.v ===== *)
(** * Many revocations at once

    The shared state of [apps/revocation-submitter/index.ts] - the limiter, the sponsor's
    daily budget and the senders in flight - under any number of requests whose questions
    interleave, with restarts; and the route around them. *)

From Stdlib Require Import ZArith Lia Ascii String.
From stdpp Require Import base gmap strings list sets fin_maps.
From S2P Require Import Prelude Dates Validate Ledger Toolkit Budget Flights Bootstrap Guards X402 Net Json Codec Errors Revocation Submitter.
Open Scope string_scope.
Open Scope Z_scope.

(** ** The state the requests share *)
Record Shared (S : Type) := { limiter_ : FixedWindowLimiter; inFlightSenders : gset string; ledger : Run S }.
Arguments limiter_ {S}. Arguments inFlightSenders {S}. Arguments ledger {S}.

Section server.
Context `{Toolkit} `{RevocationKit} {S : Type} `{StoreLaws S}.
Variable show : Z → string.
Variable config : SubmitterConfig.
Variable policy : RevocationSubmissionPolicy.

(** The answers the shared state gives; the rest comes from outside. *)
Definition serves (sh : Shared S) (q : ask) : answer q → Shared S → Prop :=
  match q return answer q → Shared S → Prop with
  | now => λ _ sh', sh' = sh
  | consume key t => λ ok sh', ∃ l, tryConsume key t (limiter_ sh) = (ok, l)
      ∧ sh' = {| limiter_ := l; inFlightSenders := inFlightSenders sh; ledger := ledger sh |}
  | hold amount t => λ r sh', clock t ∧ ∃ o b, reserve amount t (bud (ledger sh)) = (o, b)
      ∧ r = match o with Ok h => inl h | Throw e => inr (raw_text e) end
      ∧ sh' = {| limiter_ := limiter_ sh; inFlightSenders := inFlightSenders sh;
                 ledger := {| bud := b; overrun := overrun (ledger sh);
                   holds := match o with Ok (Some h) => h :: holds (ledger sh) | _ => holds (ledger sh) end |} |}
  | settle_hold h charged t => λ r sh', clock t ∧ ∃ o b, Budget.settle h (JBig charged) t (bud (ledger sh)) = (o, b)
      ∧ r = match o with Ok _ => inl tt | Throw e => inr (raw_text e) end
      ∧ sh' = {| limiter_ := limiter_ sh; inFlightSenders := inFlightSenders sh;
                 ledger := {| bud := b; holds := take_off h (holds (ledger sh));
                              overrun := overran (overrun (ledger sh)) h charged |} |}
  | enter a => λ r sh', r = bool_decide (a ∈ inFlightSenders sh)
      ∧ sh' = {| limiter_ := limiter_ sh; inFlightSenders := {[a]} ∪ inFlightSenders sh; ledger := ledger sh |}
  | leave a => λ _ sh', sh' = {| limiter_ := limiter_ sh; inFlightSenders := inFlightSenders sh ∖ {[a]};
                                 ledger := ledger sh |}
  | read_receipt _ => λ r sh', sh' = sh ∧ ∀ rc, r = inl rc → 0 <= gasUsed rc ∧ 0 <= effectiveGasPrice rc
  | _ => λ _ sh', sh' = sh
  end.

(** ** Requests in flight

    [singleFlight] keeps one computation per key; a request whose key is in flight awaits
    it and starts nothing. *)
Record Flight := { fl_sub : ValidatedRevocationSubmission; fl_phase : phase; fl_prog : prog RevokeResponse }.

(** What a deposit has out: broadcast, not known to have bounced, not charged yet. *)
Definition out_of (s : ValidatedRevocationSubmission) (ph : phase) (d : string) : Z :=
  match money ph, seen ph with
  | (broadcast h _ | silent h | landed h _), Some st => if String.eqb (hold_day h) d then short_of s st else 0
  | _, _ => 0
  end.
Definition out (f : Flight) : string → Z := out_of (fl_sub f) (fl_phase f).
Definition is_settle (q : ask) : bool := match q with settle_hold _ _ _ => true | _ => false end.

(** The server, and two accounts it does not keep: what the sponsor has deposited that did
    not come back, by the day it was reserved on, and what was in flight at a restart. *)
Record Server := {
  shared : Shared S; flights : gmap string Flight; deposits : string → Z; forgotten : string → Z;
}.
Notation outs m d := (weight (λ f, out f d) m).

Definition advanced (f : Flight) (q : ask) (a : answer q) (k : answer q → prog RevokeResponse) : Flight :=
  {| fl_sub := fl_sub f; fl_phase := next show config (fl_sub f) (fl_phase f) q a; fl_prog := k a |}.

Inductive server_step : Server → Server → Prop :=
  | request_counted srv key t :
      server_step srv
        {| shared := {| limiter_ := (tryConsume key t (sweep t (limiter_ (shared srv)))).2;
                        inFlightSenders := inFlightSenders (shared srv); ledger := ledger (shared srv) |};
           flights := flights srv; deposits := deposits srv; forgotten := forgotten srv |}
  | request_started srv key input s :
      flights srv !! key = None → validateRevocationSubmission input policy = Ok s →
      server_step srv
        {| shared := shared srv; deposits := deposits srv; forgotten := forgotten srv;
           flights := <[key := {| fl_sub := s; fl_phase := start; fl_prog := submit show config s |}]> (flights srv) |}
  | request_answered srv key f q k a sh' :
      flights srv !! key = Some f → fl_prog f = Ask q k → serves (shared srv) q a sh' →
      server_step srv
        {| shared := sh'; flights := <[key := advanced f q a k]> (flights srv); forgotten := forgotten srv;
           deposits := if is_settle q then deposits srv
                       else λ d, deposits srv d + out (advanced f q a k) d - out f d |}
  | request_ended srv key f r :
      flights srv !! key = Some f → fl_prog f = Done r →
      server_step srv
        {| shared := shared srv; flights := delete key (flights srv); deposits := deposits srv;
           forgotten := forgotten srv |}
  | restarted srv l t b :
      clock t → new_budget (dailyLimitWei (bud (ledger (shared srv)))) t (store (bud (ledger (shared srv)))) = Ok b →
      server_step srv
        {| shared := {| limiter_ := l; inFlightSenders := ∅;
                        ledger := {| bud := b; holds := []; overrun := overrun (ledger (shared srv)) |} |};
           flights := ∅; deposits := deposits srv; forgotten := λ d, forgotten srv d + outs (flights srv) d |}.

Definition booted (l : FixedWindowLimiter) (b : SpendBudget S) : Server :=
  {| shared := {| limiter_ := l; inFlightSenders := ∅; ledger := {| bud := b; holds := []; overrun := ∅ |} |};
     flights := ∅; deposits := λ _, 0; forgotten := λ _, 0 |}.

(** ** What holds of every request *)
Definition open_hold (ph : phase) : option BudgetHold :=
  match money ph with
  | holding h | unsent h | broadcast h _ | silent h | bounced h _ | landed h _ => Some h
  | no_leg | armed | lost => None
  end.
Record phase_ok (s : ValidatedRevocationSubmission) (ph : phase) : Prop := {
  pk_hold : ∀ h, open_hold ph = Some h → inside ph = true
    ∧ ∃ c st, sponsorConfig config = Some c ∧ seen ph = Some st ∧ 0 < short_of s st
        ∧ hold_amount h = short_of s st + gas_reservation c;
  pk_cost : match money ph with bounced _ cost | landed _ cost => 0 <= cost | _ => True end;
}.
(** Receipts report quantities that are not negative. *)
Definition sane (q : ask) : answer q → Prop :=
  match q return answer q → Prop with
  | read_receipt _ => λ r, ∀ rc, r = inl rc → 0 <= gasUsed rc ∧ 0 <= effectiveGasPrice rc
  | _ => λ _, True
  end.
Definition config_ok : Prop :=
  ∀ c, sponsorConfig config = Some c → 0 <= depositGas c ∧ 0 <= sc_maxFeePerGas c.

Lemma cost_nonneg c rc :
  config_ok → sponsorConfig config = Some c → 0 <= gasUsed rc → 0 <= effectiveGasPrice rc →
  0 <= receipt_cost show c rc.
Proof.
  intros Hc Hcf Hg Hp. destruct (Hc c Hcf). unfold receipt_cost, costOfReceipt.
  destruct (readReceiptFeeField show (l1Fee rc)) eqn:Hf; [apply fee_nonneg in Hf; nia|].
  unfold gas_reservation. nia.
Qed.

Lemma closed_ok s ph : money ph ∈ [no_leg; armed; lost] → open_hold ph = None ∧ phase_ok s ph.
Proof.
  intros Hm. unfold open_hold. repeat (apply elem_of_cons in Hm as [Hm|Hm]); [..|by apply elem_of_nil in Hm];
    (split; [by rewrite Hm|]); split; unfold open_hold; rewrite Hm; done.
Qed.
Lemma start_phase_ok s : phase_ok s start.
Proof. apply closed_ok. set_solver. Qed.

Lemma next_ok s ph q a :
  config_ok → phase_ok s ph → allowed config s ph q → possible q a → sane q a →
  phase_ok s (next show config s ph q a).
Proof.
  intros Hc [Hh Hcost] Hal Hpos Hsane.
  destruct q; try (split; [exact Hh|exact Hcost]); cbn [allowed] in Hal.
  - apply closed_ok. cbn. destruct Hal as [_ ->]. set_solver.
  - destruct Hal as (c & st & b & Hcf & Hin & _ & _ & Hseen & _ & Hshort & _ & _ & Hamt & _ & _ & Hm).
    destruct a as [[h|]|e]; [|apply closed_ok; cbn; rewrite Hm; set_solver..].
    cbn in Hpos. specialize (Hpos h eq_refl). split; [|done]. intros h' [= <-]. split; [done|].
    exists c, st. split_and!; try done. by rewrite Hpos.
  - apply closed_ok. cbn. destruct (money ph), a; set_solver.
  - destruct Hal as (c & st & h & Hcf & Hseen & Hm & _).
    assert (Hop : open_hold ph = Some h) by (unfold open_hold; by rewrite Hm).
    destruct a as [hash|e]; (split; [|cbn; by rewrite Hm]); unfold open_hold; cbn; rewrite Hm; by intros h' [= <-]; apply Hh.
  - destruct Hal as [(h & Hm & _)|[_ Hm]].
    + assert (Hop : open_hold ph = Some h) by (unfold open_hold; by rewrite Hm).
      destruct (Hh h Hop) as (Hin & c & st & Hcf & Hrest).
      assert (Hleg : open_hold (next show config s ph (read_receipt hash) a) = Some h).
      { unfold open_hold. cbn. rewrite Hm. unfold mined_leg. rewrite Hcf. destruct a as [r|e]; [by destruct (succeeded r)|done]. }
      split; [intros h'; rewrite Hleg; intros [= <-]; split; [done|by exists c, st]|].
      cbn. rewrite Hm. unfold mined_leg. rewrite Hcf. destruct a as [r|e]; [|done].
      destruct (Hsane r eq_refl). destruct (succeeded r); by apply cost_nonneg.
    + apply closed_ok. cbn. repeat (apply elem_of_cons in Hm as [Hm|Hm]; [rewrite Hm; set_solver|]). by apply elem_of_nil in Hm.
  - destruct Hal as [_ ->]. apply closed_ok. cbn. set_solver.
  - apply closed_ok. cbn. by destruct Hal as (_ & _ & Hm).
Qed.

(** *** The requests obey *)
Definition flights_ok (srv : Server) : Prop :=
  ∀ k f, flights srv !! k = Some f →
    obeys show config (fl_sub f) (finished (fl_sub f)) (fl_phase f) (fl_prog f) ∧ phase_ok (fl_sub f) (fl_phase f).

Lemma serves_possible sh q a sh' : run_live (ledger sh) → serves sh q a sh' → possible q a ∧ sane q a.
Proof.
  intros Hl Hs. destruct q; try done.
  - split; [|done]. cbn in *. destruct Hs as (Hc & o & b & Hres & -> & _).
    destruct (reserve_live _ _ _ _ _ Hl Hc Hres) as (h & -> & _ & Hx). intros h' [= ->]. by apply Hx.
  - by destruct Hs.
Qed.

Lemma answered_ok srv key f q k a sh' :
  config_ok → flights_ok srv → run_live (ledger (shared srv)) →
  flights srv !! key = Some f → fl_prog f = Ask q k → serves (shared srv) q a sh' →
  allowed config (fl_sub f) (fl_phase f) q ∧ phase_ok (fl_sub f) (fl_phase f) ∧ possible q a ∧ sane q a
  ∧ obeys show config (fl_sub f) (finished (fl_sub f)) (fl_phase (advanced f q a k)) (k a)
  ∧ phase_ok (fl_sub f) (fl_phase (advanced f q a k)).
Proof.
  intros Hcf Hok Hl Hf Hq Hs. destruct (Hok _ _ Hf) as [Hob Hph]. rewrite Hq in Hob. destruct Hob as [Hal Hk].
  destruct (serves_possible _ _ _ _ Hl Hs) as [Hpos Hsane]. split_and!; try done; [by apply Hk|by apply next_ok].
Qed.

Lemma flights_step srv srv' :
  config_ok → run_live (ledger (shared srv)) → server_step srv srv' → flights_ok srv → flights_ok srv'.
Proof.
  intros Hcf Hl Hstep Hok. destruct Hstep as
    [srv key t|srv key input s Hn Hv|srv key f q k a sh' Hf Hq Hs|srv key f r Hf Hq|srv l t b Hc Hb];
    intros k' f'; cbn [flights].
  - apply Hok.
  - intros [[<- <-]|[_ Hf']]%lookup_insert_Some; [|by eapply Hok]. split; [apply submit_obeys|apply start_phase_ok].
  - intros [[<- <-]|[_ Hf']]%lookup_insert_Some; [|by eapply Hok].
    by destruct (answered_ok _ _ _ _ _ _ _ Hcf Hok Hl Hf Hq Hs) as (_ & _ & _ & _ & ? & ?).
  - intros [_ Hf']%lookup_delete_Some. by eapply Hok.
  - intros Hf'. by rewrite lookup_empty in Hf'.
Qed.

(** *** One request per sender *)
Definition within_senders (m : gmap string Flight) (a : string) : Prop :=
  ∃ k f, m !! k = Some f ∧ inside (fl_phase f) = true ∧ vs_sender (fl_sub f) = a.
Record senders_ok (srv : Server) : Prop := {
  se_busy : ∀ a, a ∈ inFlightSenders (shared srv) ↔ within_senders (flights srv) a;
  se_alone : ∀ k k' f f', flights srv !! k = Some f → flights srv !! k' = Some f' →
    inside (fl_phase f) = true → inside (fl_phase f') = true →
    vs_sender (fl_sub f) = vs_sender (fl_sub f') → k = k';
}.

(** A flight moves on and its sender stays in, or out. *)
Lemma senders_same srv key f f' sh' dep fg :
  senders_ok srv → flights srv !! key = Some f → inside (fl_phase f') = inside (fl_phase f) →
  vs_sender (fl_sub f') = vs_sender (fl_sub f) → inFlightSenders sh' = inFlightSenders (shared srv) →
  senders_ok {| shared := sh'; flights := <[key := f']> (flights srv); deposits := dep; forgotten := fg |}.
Proof.
  intros [Hb Ha] Hf Hin Hsub Hsh. split; cbn [shared flights].
  - intros a. rewrite Hsh, Hb. unfold within_senders. split.
    + intros (k & g & Hg & Hi & Hs). destruct (decide (k = key)) as [->|Hne].
      * assert (g = f) as -> by congruence. exists key, f'. rewrite lookup_insert_eq. split_and!; congruence.
      * exists k, g. by rewrite lookup_insert_ne.
    + intros (k & g & [[<- <-]|[Hne Hg]]%lookup_insert_Some & Hi & Hs).
      * exists key, f. split_and!; congruence.
      * by exists k, g.
  - intros k k' g g' [[<- <-]|[Hne Hg]]%lookup_insert_Some [[<- <-]|[Hne' Hg']]%lookup_insert_Some Hi Hi' Hs; try done.
    + apply (Ha _ _ f g'); congruence.
    + apply (Ha _ _ g f); congruence.
    + by apply (Ha _ _ g g').
Qed.

Lemma senders_enter srv key f f' sh' dep fg :
  senders_ok srv → flights srv !! key = Some f → inside (fl_phase f) = false →
  vs_sender (fl_sub f') = vs_sender (fl_sub f) →
  vs_sender (fl_sub f) ∉ inFlightSenders (shared srv) → inside (fl_phase f') = true →
  inFlightSenders sh' = {[vs_sender (fl_sub f)]} ∪ inFlightSenders (shared srv) →
  senders_ok {| shared := sh'; flights := <[key := f']> (flights srv); deposits := dep; forgotten := fg |}.
Proof.
  intros [Hb Ha] Hf Hout Hsub Hfree Hin Hsh.
  assert (Hnone : ∀ k g, flights srv !! k = Some g → inside (fl_phase g) = true →
      vs_sender (fl_sub g) ≠ vs_sender (fl_sub f)).
  { intros k g Hg Hi Hs. apply Hfree, Hb. by exists k, g. }
  split; cbn [shared flights].
  - intros a. rewrite Hsh, elem_of_union, elem_of_singleton, Hb. split.
    + intros [->|(k & g & Hg & Hi & Hs)]; [exists key, f'; by rewrite lookup_insert_eq|].
      exists k, g. rewrite lookup_insert_ne; [done|]. intros <-. congruence.
    + intros (k & g & [[<- <-]|[Hne Hg]]%lookup_insert_Some & Hi & Hs); [left; congruence|right; by exists k, g].
  - intros k k' g g' [[<- <-]|[Hne Hg]]%lookup_insert_Some [[<- <-]|[Hne' Hg']]%lookup_insert_Some Hi Hi' Hs; try done.
    + exfalso. eapply Hnone; [exact Hg'|done|congruence].
    + exfalso. eapply Hnone; [exact Hg|done|congruence].
    + by apply (Ha _ _ g g').
Qed.

Lemma senders_leave srv key f f' sh' dep fg :
  senders_ok srv → flights srv !! key = Some f → inside (fl_phase f) = true → inside (fl_phase f') = false →
  inFlightSenders sh' = inFlightSenders (shared srv) ∖ {[vs_sender (fl_sub f)]} →
  senders_ok {| shared := sh'; flights := <[key := f']> (flights srv); deposits := dep; forgotten := fg |}.
Proof.
  intros [Hb Ha] Hf Hin Hout Hsh. split; cbn [shared flights].
  - intros a. rewrite Hsh, elem_of_difference, elem_of_singleton, Hb. split.
    + intros [(k & g & Hg & Hi & Hs) Hne]. exists k, g. rewrite lookup_insert_ne; [done|]. intros <-. congruence.
    + intros (k & g & [[<- <-]|[Hne Hg]]%lookup_insert_Some & Hi & Hs); [congruence|]. split; [by exists k, g|].
      intros E. apply Hne. symmetry. apply (Ha k key g f); congruence.
  - intros k k' g g' [[<- <-]|[Hne Hg]]%lookup_insert_Some [[<- <-]|[Hne' Hg']]%lookup_insert_Some Hi Hi' Hs; try congruence.
    by apply (Ha _ _ g g').
Qed.

Lemma senders_step srv srv' :
  config_ok → flights_ok srv → run_live (ledger (shared srv)) →
  server_step srv srv' → senders_ok srv → senders_ok srv'.
Proof.
  intros Hcf Hok Hl Hstep Hse. destruct Hstep as
    [srv key t|srv key input s Hn Hv|srv key f q k a sh' Hf Hq Hs|srv key f r Hf Hq|srv l t b Hc Hb].
  - destruct Hse as [Hb Ha]. by split.
  - destruct Hse as [Hb Ha]. split; cbn [shared flights].
    + intros a. rewrite Hb. split.
      * intros (k & f & Hf & Hi & Hs). exists k, f. rewrite lookup_insert_ne; [done|congruence].
      * intros (k & f & [[<- <-]|[Hne Hf]]%lookup_insert_Some & Hi & Hs); [done|by exists k, f].
    + intros k k' f f' [[<- <-]|[_ Hf]]%lookup_insert_Some [[<- <-]|[_ Hf']]%lookup_insert_Some Hi Hi' Hs; try done.
      by apply (Ha _ _ f f').
  - destruct (answered_ok _ _ _ _ _ _ _ Hcf Hok Hl Hf Hq Hs) as (Hal & _ & _ & _ & _ & _).
    destruct q; try (eapply senders_same; [done..|]; cbn in Hs; first [by subst sh'|by destruct Hs as [-> _]
      |by destruct Hs as (? & _ & ->)|by destruct Hs as (? & ? & ? & _ & _ & ->)]).
    + destruct Hal as [-> Hst]. cbn in Hs. destruct Hs as [-> ->]. case_bool_decide as Hbusy.
      * eapply senders_same; [done..| |done|]; [cbn; by rewrite Hst|]. cbn. set_solver.
      * eapply senders_enter; [done..|by rewrite Hst|done|done|done|done].
    + destruct Hal as (-> & Hin & _). cbn in Hs. subst sh'. by eapply senders_leave.
  - destruct (Hok _ _ Hf) as [Hob _]. rewrite Hq in Hob. cbn in Hob. destruct Hob as (Hout & _).
    destruct Hse as [Hb Ha]. split; cbn [shared flights].
    + intros a. rewrite Hb. split.
      * intros (k & g & Hg & Hi & Hs). exists k, g. rewrite lookup_delete_ne; [done|congruence].
      * intros (k & g & [_ Hg]%lookup_delete_Some & Hi & Hs). by exists k, g.
    + intros k k' g g' [_ Hg]%lookup_delete_Some [_ Hg']%lookup_delete_Some. by apply Ha.
  - split; cbn [shared flights inFlightSenders]; [|intros k k' f f' Hf; by rewrite lookup_empty in Hf].
    intros a. split; [set_solver|]. intros (k & f & Hf & _). by rewrite lookup_empty in Hf.
Qed.

(** *** The money *)
Notation opens := (opens (λ f, open_hold (fl_phase f))).

Lemma closed_out s ph d : money ph ∈ [no_leg; armed; lost] → out_of s ph d = 0.
Proof.
  intros Hm. unfold out_of. repeat (apply elem_of_cons in Hm as [->|Hm]; [done|]). by apply elem_of_nil in Hm.
Qed.

(** A charge that is due covers what the deposit has out. *)
Lemma due_covers s ph h charged :
  config_ok → phase_ok s ph → charge_due s ph h charged →
  open_hold ph = Some h ∧ 0 <= charged
  ∧ ∀ d, out_of s ph d <= if String.eqb (hold_day h) d then charged else 0.
Proof.
  intros Hc [Hh Hcost] Hdue. unfold charge_due in Hdue.
  assert (Hop : ∀ h', open_hold ph = Some h' → hold_amount h' >= 0 ∧ ∀ st, seen ph = Some st →
      0 < short_of s st ∧ short_of s st <= hold_amount h').
  { intros h' Ho. destruct (Hh h' Ho) as (_ & c & st & Hcf & Hseen & Hpos & Ha).
    destruct (Hc c Hcf). unfold gas_reservation in Ha. split; [nia|]. intros st' Hst'. assert (st' = st) as -> by congruence. nia. }
  unfold open_hold, out_of in *.
  destruct (money ph) as [|h'|h'|h' hash|h'|h' cost|h' cost| |]; try done.
  - destruct Hdue as [-> ->]. split_and!; [done|done|]. intros d. by destruct (String.eqb _ _).
  - destruct Hdue as [-> ->]. destruct (Hop h' eq_refl) as [G1 G2]. split_and!; [done|lia|]. intros d.
    destruct (seen ph) as [st|]; [|destruct (String.eqb _ _); lia]. destruct (G2 st eq_refl). destruct (String.eqb _ _); lia.
  - destruct Hdue as [-> ->]. split_and!; [done|done|]. intros d. by destruct (String.eqb _ _).
  - destruct Hdue as (-> & st & Hst & ->). destruct (Hop h' eq_refl) as [G1 G2]. destruct (G2 st Hst).
    split_and!; [done|lia|]. intros d. rewrite Hst. destruct (String.eqb _ _); lia.
Qed.

Record money_ok (lim : Z) (s0 : S) (srv : Server) : Prop := {
  mo_run : run_ok lim s0 (ledger (shared srv));
  mo_holds : holds (ledger (shared srv)) ≡ₚ opens (flights srv);
  mo_deposits : ∀ st, store (bud (ledger (shared srv))) = Some st → ∀ d, DAY d = true →
    deposits srv d <= total_of d st - total_of d s0 + outs (flights srv) d + forgotten srv d;
}.

(** Questions that move no hold. *)
Lemma money_quiet lim s0 srv key f f' sh' :
  money_ok lim s0 srv → flights srv !! key = Some f →
  open_hold (fl_phase f') = open_hold (fl_phase f) → ledger sh' = ledger (shared srv) →
  money_ok lim s0 {| shared := sh'; flights := <[key := f']> (flights srv); forgotten := forgotten srv;
                     deposits := λ d, deposits srv d + out f' d - out f d |}.
Proof.
  intros [Hr Hh Hd] Hf Ho Hsh. split; cbn [shared flights deposits forgotten]; rewrite Hsh; [done| |].
  - rewrite Hh, opens_moved, Ho. exact (opens_at (λ f, open_hold (fl_phase f)) _ _ _ Hf).
  - intros st Hst d HD. specialize (Hd st Hst d HD). rewrite (weight_at _ _ _ _ Hf) in Hd. rewrite weight_moved. lia.
Qed.

Lemma money_reserved lim s0 srv key f q k a sh' amount t :
  config_ok → q = hold amount t → money_ok lim s0 srv → flights srv !! key = Some f →
  phase_ok (fl_sub f) (fl_phase f) → allowed config (fl_sub f) (fl_phase f) q → serves (shared srv) q a sh' →
  money_ok lim s0 {| shared := sh'; flights := <[key := advanced f q a k]> (flights srv); forgotten := forgotten srv;
                     deposits := λ d, deposits srv d + out (advanced f q a k) d - out f d |}.
Proof.
  intros Hcf -> [Hr Hh Hd] Hf Hph Hal Hs. cbn in Hs. destruct Hs as (Hc & o & b & Hres & -> & ->).
  destruct Hal as (c & st & bal & Hcfg & _ & _ & _ & _ & _ & Hpos & _ & _ & Hamt & _ & _ & Hm).
  assert (Ha : 0 <= amount) by (destruct (Hcf c Hcfg); unfold gas_reservation in Hamt; nia).
  assert (Ho : open_hold (fl_phase f) = None) by (unfold open_hold; by rewrite Hm).
  destruct (reserve_taken _ _ _ _ _ _ _ Hr Ha Hc Hres) as (h & -> & Hrun & Hst & _).
  assert (Hout : ∀ d, out f d = 0) by (intros d; apply closed_out; rewrite Hm; set_solver).
  assert (Hout' : ∀ d, out (advanced f (hold amount t) (inl h) k) d = 0).
  { intros d. unfold out, out_of. cbn. destruct h; [done|]. by rewrite Hm. }
  split; cbn [shared flights deposits forgotten ledger].
  - destruct h; exact Hrun.
  - cbn [holds]. rewrite opens_moved. pose proof (opens_at (λ f, open_hold (fl_phase f)) _ _ _ Hf) as Hat.
    cbn beta in Hat. rewrite Ho in Hat. cbn [option_list app] in Hat.
    unfold open_hold at 1. cbn. destruct h as [h|]; cbn; [by rewrite Hh, Hat|by rewrite Hm, Hh, Hat].
  - cbn [bud]. rewrite Hst. intros st' Hst' d HD. specialize (Hd st' Hst' d HD).
    rewrite (weight_at _ _ _ _ Hf) in Hd. rewrite weight_moved, Hout', Hout in *. lia.
Qed.

Lemma money_settled lim s0 srv key f q k a sh' h charged t :
  config_ok → q = settle_hold h charged t → money_ok lim s0 srv → flights srv !! key = Some f →
  phase_ok (fl_sub f) (fl_phase f) → allowed config (fl_sub f) (fl_phase f) q → serves (shared srv) q a sh' →
  money_ok lim s0 {| shared := sh'; flights := <[key := advanced f q a k]> (flights srv); forgotten := forgotten srv;
                     deposits := deposits srv |}.
Proof.
  intros Hcf -> [Hr Hh Hd] Hf Hph Hal Hs. cbn [serves allowed] in Hs, Hal. destruct Hs as (Hc & o & b & Hset & -> & ->).
  destruct (due_covers _ _ _ _ Hcf Hph Hal) as (Ho & Hch & Hcov).
  pose proof (opens_at (λ f, open_hold (fl_phase f)) _ _ _ Hf) as Hat. cbn beta in Hat.
  rewrite Ho in Hat. cbn [option_list app] in Hat.
  assert (Hin : h ∈ holds (ledger (shared srv))) by (rewrite Hh, Hat; by left).
  destruct (run_ok_live _ _ _ Hr) as [st [Hst _]].
  destruct (settle_taken _ _ _ _ _ _ _ _ _ Hr Hc Hin Hch Hst Hset) as (-> & Hrun & Htake & st2 & Hst2 & Htot).
  assert (Hnext : money (next show config (fl_sub f) (fl_phase f) (settle_hold h charged t) (inl ())) ∈ [no_leg; armed; lost]).
  { cbn. destruct (money (fl_phase f)); set_solver. }
  split; cbn [shared flights deposits forgotten ledger].
  - exact Hrun.
  - cbn [holds]. rewrite opens_moved. destruct (closed_ok (fl_sub f) _ Hnext) as [Hn _].
    cbn [fl_phase advanced]. rewrite Hn. cbn [option_list app].
    apply (Permutation_cons_inv (a := h)). by rewrite <- Hat, <- Hh, <- Htake.
  - cbn [bud]. intros st' Hst' d HD. assert (st' = st2) as -> by congruence. specialize (Hd st Hst d HD).
    rewrite (Htot d HD). rewrite (weight_at _ _ _ _ Hf) in Hd. rewrite weight_moved. unfold out at 1. cbn [fl_phase advanced fl_sub].
    rewrite (closed_out _ _ d Hnext). specialize (Hcov d). fold (out f d) in Hcov. rewrite String.eqb_sym.
    destruct (String.eqb (hold_day h) d); lia.
Qed.

Lemma money_step lim s0 srv srv' :
  config_ok → 0 < lim → flights_ok srv → server_step srv srv' → money_ok lim s0 srv → money_ok lim s0 srv'.
Proof.
  intros Hcf Hpos Hok Hstep Hmo.
  assert (Hl : run_live (ledger (shared srv))) by (destruct (mo_run _ _ _ Hmo) as (_ & _ & _ & _ & s1 & ? & _); by exists s1).
  destruct Hstep as
    [srv key t|srv key input s Hn Hv|srv key f q k a sh' Hf Hq Hs|srv key f r Hf Hq|srv l t b Hc Hb].
  - destruct Hmo. by split.
  - destruct Hmo as [Hr Hh Hd]. split; cbn [shared flights deposits forgotten]; [done|by rewrite opens_new|].
    intros st Hst d HD. rewrite weight_new by done. by apply Hd.
  - destruct (answered_ok _ _ _ _ _ _ _ Hcf Hok Hl Hf Hq Hs) as (Hal & Hph & _ & _ & _ & Hph').
    destruct q; try (by eapply money_quiet; [done..|cbn [serves] in Hs;
      first [by subst sh'|by destruct Hs as (-> & _)|by destruct Hs as (? & _ & ->)|by destruct Hs as (_ & ->)]]).
    + by eapply money_reserved.
    + by eapply money_settled.
    + eapply money_quiet; [done..| |by cbn [serves] in Hs; subst sh'].
      destruct Hal as (c & st & h & _ & _ & Hm & _). unfold open_hold. cbn. rewrite Hm. by destruct a.
    + eapply money_quiet; [done..| |by destruct Hs as (-> & _)].
      unfold open_hold. cbn. destruct (money (fl_phase f)) eqn:Hm; try done.
      unfold mined_leg. destruct (sponsorConfig config), a as [rc|e]; try done. by destruct (succeeded rc).
  - destruct (Hok _ _ Hf) as [Hob _]. rewrite Hq in Hob. cbn in Hob. destruct Hob as (_ & Hm & _).
    destruct Hmo as [Hr Hh Hd]. destruct (closed_ok (fl_sub f) _ Hm) as [Ho _].
    split; cbn [shared flights deposits forgotten]; [done| |].
    + rewrite Hh, (opens_at _ _ _ _ Hf). by rewrite Ho.
    + intros st Hst d HD. specialize (Hd st Hst d HD). rewrite (weight_at _ _ _ _ Hf) in Hd.
      unfold out at 1 in Hd. rewrite (closed_out _ _ _ Hm) in Hd. lia.
  - destruct Hmo as [Hr Hh Hd]. split; cbn [shared flights deposits forgotten ledger].
    + eapply budget_step_ok; [exact Hpos|exact Hr|]. by eapply step_restart.
    + done.
    + intros st Hst d HD. cbn [bud] in Hst.
      assert (Hsame : store b = store (bud (ledger (shared srv)))).
      { unfold new_budget in Hb. by inv_tx. }
      rewrite Hsame in Hst. specialize (Hd st Hst d HD). change (outs ∅ d) with 0. lia.
Qed.

(** Where the money of every request stands, at any time. *)
Definition server_ok (lim : Z) (s0 : S) (srv : Server) : Prop :=
  flights_ok srv ∧ senders_ok srv ∧ money_ok lim s0 srv.

Lemma booted_ok lim s0 l b t :
  store_ok s0 → clock t → new_budget lim t (Some s0) = Ok b → 0 < lim ∧ server_ok lim s0 (booted l b).
Proof.
  intros Hs Hc Hb. destruct (new_budget_ok _ _ _ _ Hs Hc Hb) as [Hpos Hr]. split; [done|].
  split_and!; [intros k f; cbn; by rewrite lookup_empty| |].
  - split; cbn [shared flights booted inFlightSenders].
    + intros a. split; [set_solver|]. intros (k & f & Hf & _). by rewrite lookup_empty in Hf.
    + intros k k' f f'. by rewrite lookup_empty.
  - split; cbn [shared flights deposits forgotten booted ledger holds]; [done|done|].
    intros st Hst d HD. assert (st = s0) as ->.
    { unfold new_budget in Hb. inv_tx. cbn in Hst. congruence. }
    change (outs ∅ d) with 0. lia.
Qed.

Lemma outs_held m d :
  config_ok → (∀ k f, m !! k = Some f → phase_ok (fl_sub f) (fl_phase f)) → outs m d <= held_on d (opens m).
Proof.
  intros Hcf Hm. apply weight_held. intros k f Hk. destruct (Hm k f Hk) as [Hh _].
  assert (Hle : ∀ h, open_hold (fl_phase f) = Some h → 0 <= hold_amount h ∧ ∀ st, seen (fl_phase f) = Some st →
      short_of (fl_sub f) st <= hold_amount h).
  { intros h Ho. destruct (Hh h Ho) as (_ & c & st & Hcfg & Hst & Hpos & Ha).
    destruct (Hcf c Hcfg). unfold gas_reservation in Ha. split; [nia|]. intros st' Hst'.
    assert (st' = st) as -> by congruence. nia. }
  unfold out, out_of, open_hold in *. destruct (money (fl_phase f)); try done;
    destruct (Hle _ eq_refl) as [H0' H1']; destruct (seen (fl_phase f)) as [st|]; try specialize (H1' st eq_refl);
    destruct (String.eqb _ _); lia.
Qed.


(** *** A run of one request

    The same steps as a function, over a world that answers what the shared state does not. *)
#[local] Instance clock_dec u : Decision (clock u).
Proof. unfold clock, four_digit_year. apply _. Defined.
Definition clocked (q : ask) : bool :=
  match q with hold _ u | settle_hold _ _ u => bool_decide (clock u) | _ => true end.

Definition serve (world : ∀ q, answer q) (sh : Shared S) (q : ask) : answer q * Shared S :=
  let same (a : answer q) := (a, sh) in
  let with_ledger l := {| limiter_ := limiter_ sh; inFlightSenders := inFlightSenders sh; ledger := l |} in
  let with_senders b := {| limiter_ := limiter_ sh; inFlightSenders := b; ledger := ledger sh |} in
  match q return (answer q → answer q * Shared S) → answer q * Shared S with
  | consume key u => λ _, let '(ok, l) := tryConsume key u (limiter_ sh) in
      (ok, {| limiter_ := l; inFlightSenders := inFlightSenders sh; ledger := ledger sh |})
  | hold amount u => λ _, let '(o, b) := reserve amount u (bud (ledger sh)) in
      (match o with Ok h => inl h | Throw e => inr (raw_text e) end,
       with_ledger {| bud := b; overrun := overrun (ledger sh);
                      holds := match o with Ok (Some h) => h :: holds (ledger sh) | _ => holds (ledger sh) end |})
  | settle_hold h charged u => λ _, let '(o, b) := Budget.settle h (JBig charged) u (bud (ledger sh)) in
      (match o with Ok _ => inl tt | Throw e => inr (raw_text e) end,
       with_ledger {| bud := b; holds := take_off h (holds (ledger sh));
                      overrun := overran (overrun (ledger sh)) h charged |})
  | enter a => λ _, (bool_decide (a ∈ inFlightSenders sh), with_senders ({[a]} ∪ inFlightSenders sh))
  | leave a => λ _, (tt, with_senders (inFlightSenders sh ∖ {[a]}))
  | q => λ same, same (world q)
  end same.

Lemma serve_serves world sh q :
  (∀ h, sane (read_receipt h) (world (read_receipt h))) → clocked q = true →
  serves sh q (serve world sh q).1 (serve world sh q).2.
Proof.
  intros Hw Hc. destruct q; try done; cbn [serve serves clocked] in *.
  - destruct (tryConsume _ _ _) as [ok l] eqn:E. by exists l.
  - destruct (reserve _ _ _) as [o b] eqn:E. split; [by apply bool_decide_eq_true in Hc|]. by exists o, b.
  - destruct (Budget.settle _ _ _ _) as [o b] eqn:E. split; [by apply bool_decide_eq_true in Hc|]. by exists o, b.
  - by split; [|apply Hw].
Qed.

Definition move (world : ∀ q, answer q) (key : string) (srv : Server) : option Server :=
  match flights srv !! key with
  | None => None
  | Some f =>
      match fl_prog f with
      | Done _ => None
      | Ask q k =>
          if clocked q then
            let '(a, sh') := serve world (shared srv) q in
            Some {| shared := sh'; flights := <[key := advanced f q a k]> (flights srv); forgotten := forgotten srv;
                    deposits := if is_settle q then deposits srv
                                else λ d, deposits srv d + out (advanced f q a k) d - out f d |}
          else None
      end
  end.
Fixpoint moves (n : nat) (world : ∀ q, answer q) (key : string) (srv : Server) : option Server :=
  match n with
  | O => Some srv
  | Datatypes.S n => match move world key srv with Some srv' => moves n world key srv' | None => None end
  end.

Lemma moves_star n world key : (∀ h, sane (read_receipt h) (world (read_receipt h))) →
  ∀ srv srv', moves n world key srv = Some srv' → star server_step srv srv'.
Proof.
  intros Hw. induction n as [|n IH]; intros srv srv' Hm; cbn [moves] in Hm; [injection Hm as ->; constructor|].
  destruct (move world key srv) as [srv1|] eqn:E; [|done].
  eapply star_trans; [|by apply IH]. eapply star_step; [constructor|].
  unfold move in E. destruct (flights srv !! key) as [f|] eqn:Hf; [|done]. destruct (fl_prog f) as [r|q k] eqn:Hq; [done|].
  destruct (clocked q) eqn:Hc; [|done]. pose proof (serve_serves world (shared srv) q Hw Hc) as Hs.
  destruct (serve world (shared srv) q) as [a sh']. injection E as <-. by eapply request_answered.
Qed.
End server.

(** ** The route

    [POST /revoke]: counted, read, validated; what remains is joined or started under its
    key, and its end is the answer of every request that waits for it. *)
Definition MAX_BODY_CHARACTERS : Z := 150000.
Record RevokeRequest := { connecting_ip : option string; content_type : option string; body_text : result string }.
Record RevokeReply := { status : Z; json : jsval }.

Section route.
Context `{Toolkit} `{RevocationKit}.
(** [encodeAbiParameters] on the seven signed fields; the origin of a URL, for redaction. *)
Variable encodeSubmission : string → Z → string → string → Z → string → string → string.
Variable url_origin : string → option string.
Variable sponsored : bool.
Variable policy : RevocationSubmissionPolicy.

Definition submissionKey (s : ValidatedRevocationSubmission) : string :=
  let p := vs_packed s in
  keccak256 (encodeSubmission (pk_sender p) (pk_nonce p) (callData p) (accountGasLimits p)
               (pk_preVerificationGas p) (gasFees p) (pk_signature p)).

Definition failed_json (reason : string) (detail : option (list (string * string))) : jsval :=
  JObj ([("success", JBool false); ("network", JStr GIWA_SEPOLIA_CAIP2); ("reason", JStr reason)]
        ++ optional "detail" ((λ l, JObj (map (λ e, (e.1, JStr e.2)) l)) <$> detail)).
Definition refuse (reason : string) (status : Z) : RevokeReply :=
  {| status := status; json := failed_json reason None |}.
(** The message goes out on loopback only. *)
Definition opaque (reason raw : string) (code : Z) : RevokeReply :=
  if sponsored then refuse reason code
  else {| status := code; json := failed_json reason (Some [("message", redactForLog url_origin raw 200)]) |}.

Definition request_bucket (r : RevokeRequest) : string :=
  "ip:" ++ match connecting_ip r with None => "loopback" | Some ip => ipBucket ip end.
Definition readJson (r : RevokeRequest) : result jsval :=
  throws negb (startsWith "application/json" (toLowerCase (default "" (content_type r)))) with
    Error "content-type must be JSON";
  let? text := body_text r in
  throws (slen text =? 0) || (MAX_BODY_CHARACTERS <? slen text) with
    Error "request body is empty or too large";
  parse (chars text).

(** The synchronous head of the route: [inr] is the submission to run, under its key. *)
Definition count_request (r : RevokeRequest) (time : Z) (l : FixedWindowLimiter) : bool * FixedWindowLimiter :=
  if sponsored then tryConsume (request_bucket r) time (sweep time l) else (true, l).
Definition admit_request (r : RevokeRequest) (counted : bool) : RevokeReply + (string * ValidatedRevocationSubmission) :=
  if negb counted then inl (refuse "rate_limited" 429)
  else match (let? doc := readJson r in validateRevocationSubmission doc policy) with
       | Throw e => inl (opaque "invalid_submission" (raw_text e) 400)
       | Ok s => inr (submissionKey s, s)
       end.
Definition reply_of (r : RevokeResponse + failure) : RevokeReply :=
  match r with
  | inl response =>
      {| status := 200;
         json := JObj [("success", JBool true); ("transaction", JStr (rr_transaction response));
                       ("delegationHash", JStr (rr_delegationHash response));
                       ("network", JStr GIWA_SEPOLIA_CAIP2)] |}
  | inr (SubmissionRefused reason detail status) => {| status := status; json := failed_json reason (Some detail) |}
  | inr (Broke raw) => opaque "submission_failed" raw 502
  end.

(** Where a run can end. *)
Inductive ends {A} : prog A → A + failure → Prop :=
  | ends_done r : ends (Done r) r
  | ends_ask q k a r : possible q a → ends (k a) r → ends (Ask q k) r.
Lemma obeys_ends {A} show config s (Q : phase → A + failure → Prop) p r : ∀ ph,
  obeys show config s Q ph p → ends p r → ∃ ph', Q ph' r.
Proof.
  intros ph Hp He. revert ph Hp. induction He as [r|q k a r Hpos _ IH]; cbn [obeys]; intros ph Hp; [by exists ph|].
  destruct Hp as [_ Hk]. by eapply IH, Hk.
Qed.
End route.

(** What the sponsored service answers: its closed list, and the two words of the route. *)
Definition ANSWERS : list (string * Z) :=
  REFUSALS ++ [("rate_limited", 429); ("invalid_submission", 400); ("submission_failed", 502)].

(** The public service answers from a closed list. In the sponsored mode, whatever is
    posted and whatever the chain, the node and the account answer, the reply is a success
    naming a transaction, or one of the words of the list with that word's status; no reply
    carries an error's message. *)
Theorem sponsored_answers_are_closed `{Toolkit} `{RevocationKit} encodeSubmission url_origin policy show config r counted :
  let closed reply := (∃ tx hash, status reply = 200 ∧ prop (json reply) "transaction" = JStr tx
                         ∧ prop (json reply) "delegationHash" = JStr hash ∧ prop (json reply) "success" = JBool true)
    ∨ ∃ word, (word, status reply) ∈ ANSWERS ∧ prop (json reply) "reason" = JStr word
        ∧ prop (json reply) "success" = JBool false in
  match admit_request encodeSubmission url_origin true policy r counted with
  | inl reply => closed reply ∧ prop (json reply) "detail" = JUndefined
  | inr (key, s) => key = submissionKey encodeSubmission s ∧ ∀ result, ends (submit show config s) result →
      closed (reply_of url_origin true result)
      ∧ (∀ m, result = inr (Broke m) → prop (json (reply_of url_origin true result)) "detail" = JUndefined)
  end.
Proof.
  intros closed. unfold admit_request. destruct counted; cbn [negb].
  2:{ split; [|done]. right. exists "rate_limited". split; [|done]. set_solver. }
  destruct (let? doc := readJson r in validateRevocationSubmission doc policy) as [s|e].
  2:{ split; [|done]. right. exists "invalid_submission". split; [|done]. unfold ANSWERS. set_solver. }
  split; [done|]. intros result He.
  destruct (obeys_ends _ _ _ _ _ _ _ (submit_obeys show config s) He) as (ph & _ & _ & Hknown & _).
  destruct result as [response|[reason detail code|raw]]; (split; [|by intros m [= <-]]).
  - left. by exists (rr_transaction response), (rr_delegationHash response).
  - right. exists reason. split; [|done]. specialize (Hknown _ eq_refl). cbn [known] in Hknown.
    apply existsb_exists in Hknown as ([word st] & Hin & [E1%String.eqb_eq E2%Z.eqb_eq]%andb_true_iff).
    cbn in E1, E2. subst word st. apply elem_of_app. left. by apply list_elem_of_In.
  - right. exists "submission_failed". split; [|done]. unfold ANSWERS. set_solver.
Qed.

(** ** Witnesses *)
#[local] Instance ex_store : BudgetStore budgets := series_store "revocation-sponsor".
#[local] Instance ex_store_laws : StoreLaws budgets := series_laws "revocation-sponsor".
Definition ex_config : SubmitterConfig :=
  {| sponsorConfig := Some {| depositGas := 60000; sc_maxFeePerGas := 50000000; sc_priorityFeePerGas := 1000000;
                              minBalance := 1000000000000 |};
     cf_entryPoint := ex_account; RELAYER_PRIORITY_FEE_WEI := 1000000 |}.
Definition ex_budget_700 : SpendBudget budgets :=
  {| dailyLimitWei := 700000000000000; spent := 0; reserved := 0; day := "2024-02-29"; store := Some ∅ |}.
Definition ex_limiter_2 : FixedWindowLimiter := {| limit := 2; windowMs := 3600000; hits := ∅ |}.

(** An account without a deposit, whose signature is good, on a chain that mines nothing. *)
Definition ex_world (q : ask) : answer q :=
  match q with
  | now => 1709164800000
  | read_revoked _ => inl false
  | read_nonce _ => inl 5
  | read_balance => inl 1000000000000000000
  | read_state _ => inl {| st_deposit := 0; st_native := 0; st_baseFee := Some 267; st_relayer := 1000000000000000000 |}
  | read_hash _ => inl "0x01"
  | read_magic _ _ _ => inl ERC1271_MAGIC_VALUE
  | consume _ _ => true
  | hold _ _ => inl None
  | settle_hold _ _ _ => inl tt
  | send_deposit _ _ _ _ => inl "0xaa"
  | send_ops _ _ _ => inl "0xbb"
  | read_receipt _ => inr "TimeoutError: no receipt"
  | simulate _ => inl tt
  | enter _ => false
  | leave _ => tt
  end.
Definition ex_started : Server :=
  let s := booted (S := budgets) ex_limiter_2 ex_budget_700 in
  {| shared := shared s; deposits := deposits s; forgotten := forgotten s;
     flights := <["k" := {| fl_sub := ex_submission; fl_phase := start;
                            fl_prog := submit show_Z ex_config ex_submission |}]> (flights s) |}.

Definition ex_total (srv : Server (S := budgets)) : Z :=
  match store (bud (ledger (shared srv))) with Some st => total_of "2024-02-29" st | None => -1 end.
Lemma ex_reached srv : moves show_Z ex_config 11 ex_world "k" ex_started = Some srv →
  star (server_step show_Z ex_config ex_policy) (booted ex_limiter_2 ex_budget_700) srv.
Proof.
  intros E. eapply star_trans; [|eapply (moves_star show_Z ex_config ex_policy 11 ex_world "k"); [|exact E]; done].
  eapply star_step; [constructor|]. unfold ex_started.
  eapply (request_started show_Z ex_config ex_policy (booted (S := budgets) ex_limiter_2 ex_budget_700) "k"
    (buildRevocationSubmissionBody "0x01" ex_signed) ex_submission); [done|vm_compute; reflexivity].
Qed.


(** What was in flight at a restart is not on the day's account: the deposit is with the
    node, and the store, the holds and so the ceiling know nothing of it. *)
Lemma restart_forgets_deposit :
  ∃ srv, star (server_step show_Z ex_config ex_policy) (booted ex_limiter_2 ex_budget_700) srv
    ∧ deposits srv "2024-02-29" = 7000000000000 ∧ ex_total srv = 0 ∧ holds (ledger (shared srv)) = [].
Proof.
  assert (Hrun : match moves show_Z ex_config 11 ex_world "k" ex_started with
                 | Some srv => deposits srv "2024-02-29" = 7000000000000 ∧ bud (ledger (shared srv)) = with_reserved 10000000000000 ex_budget_700
                 | None => False end) by (vm_compute; split; reflexivity).
  revert Hrun. destruct (moves show_Z ex_config 11 ex_world "k" ex_started) as [srv|] eqn:E; [|intros []].
  intros [Hd Hb]. eexists. split_and!.
  - eapply star_step; [by apply ex_reached|].
    apply (restarted show_Z ex_config ex_policy srv ex_limiter_2 1709164800000 ex_budget_700).
    + vm_compute. split; discriminate.
    + rewrite Hb. vm_compute. reflexivity.
  - exact Hd.
  - vm_compute. reflexivity.
  - reflexivity.
Qed.
