(* ===== verification/Environment.v ===== *)
(** * Reading the environment

    What the services read at boot: [Number] of a text, the readers each
    [apps/*/index.ts] declares for its variables (they are the same functions, copied), and
    the RPC endpoint of [packages/shared/src/chain.ts].  The environment is a function from
    names to texts; the URL parser and the address of a private key are arguments. *)

From Stdlib Require Import ZArith Lia Ascii String DecimalString.
From stdpp Require Import base strings list.
From S2P Require Import Prelude Toolkit Json Token Bootstrap Budget PaymentClient Seller Runner.
Open Scope string_scope.
Open Scope Z_scope.

(** [process.env] *)
Definition variables := string → option string.

(** ** [Number(text)] *)
Definition NaN : jsval := JFloat (2047 * 2 ^ 52 + 2 ^ 51).
(** The Number nearest to a nonnegative integer. *)
Definition number_of (z : Z) : jsval := if z =? 0 then JNum 0 else number false (double z 1).

Fixpoint span_digits (l : text) : text * text :=
  match l with
  | c :: l' => if is_digit c then let '(ds, rest) := span_digits l' in (c :: ds, rest)%list else ([], l)
  | [] => ([], [])
  end.
(** [None] when there is no digit, or something that is none. *)
Definition exponent (l : text) : option Z :=
  match l with
  | "+"%char :: l' => radix_value 10 l'
  | "-"%char :: l' => Z.opp <$> radix_value 10 l'
  | _ => radix_value 10 l
  end.
Definition unsigned_literal (neg : bool) (l : text) : jsval :=
  if bool_decide (l = chars "Infinity") then JFloat (infinity_bits neg)
  else
    let '(whole, rest) := span_digits l in
    let '(part, rest) := match rest with "."%char :: l' => span_digits l' | _ => ([], rest) end in
    match radix_value 10 (whole ++ part) with
    | None => NaN
    | Some m =>
        match rest with
        | [] => decimal neg m (- Z.of_nat (length part))
        | c :: l' =>
            if Ascii.eqb (lower_char c) "e" then
              match exponent l' with
              | Some e => decimal neg m (e - Z.of_nat (length part))
              | None => NaN
              end
            else NaN
        end
    end.
Definition StringToNumber (s : string) : jsval :=
  let of_radix r l := match radix_value r l with Some z => number_of z | None => NaN end in
  match chars (trim s) with
  | [] => JNum 0
  | ("0"%char :: c :: l) as all =>
      if Ascii.eqb (lower_char c) "x" then of_radix 16 l
      else if Ascii.eqb (lower_char c) "o" then of_radix 8 l
      else if Ascii.eqb (lower_char c) "b" then of_radix 2 l
      else unsigned_literal false all
  | "-"%char :: l => unsigned_literal true l
  | "+"%char :: l => unsigned_literal false l
  | l => unsigned_literal false l
  end.

Example numbers :
  map StringToNumber ["8083"; " 8083 "; "0x1F93"; "8.083e3"; ""; "80 83"; "8083.5"; "1e400"]
  = [JNum 8083; JNum 8083; JNum 8083; JNum 8083; JNum 0; NaN; JFloat 4665609916944220160; JFloat (infinity_bits false)].
Proof. vm_compute. reflexivity. Qed.

(** ** The readers *)
(** [process.env[name]?.trim() ?? ""] and [process.env[name]?.trim() || fallback] *)
Definition trimmed (e : variables) (name : string) : string := default "" (trim <$> e name).
Definition or_else (e : variables) (name fallback : string) : string :=
  let value := trimmed e name in if String.eqb value "" then fallback else value.
(** An unset variable and a blank one are the same. *)
Definition is_set (e : variables) (name : string) : bool := negb (String.eqb (trimmed e name) "").

Definition readPort (e : variables) (fallback : Z) : result Z :=
  match match e "PORT" with Some s => StringToNumber s | None => JNum fallback end with
  | JNum value =>
      throws (value <? 1) || (65535 <? value) with Error "PORT must be an integer between 1 and 65535";
      Ok value
  | _ => Throw (Error "PORT must be an integer between 1 and 65535")
  end.
Definition BIND_HOSTS : list string := ["127.0.0.1"; "localhost"; "::1"].
Definition readHost (e : variables) (why : string) : result string :=
  let value := or_else e "HOST" "127.0.0.1" in
  throws negb (existsb (String.eqb value) BIND_HOSTS) with Error ("HOST must be loopback; " ++ why);
  Ok value.

Definition readPositiveInteger (e : variables) (name : string) (fallback : Z) : result Z :=
  let raw := or_else e name (show_Z fallback) in
  throws negb (positive_text raw) with Error (name ++ " must be a positive integer");
  Ok (BigInt raw).

(** [readFlag] takes anything but [true] for off; [readSwitch] refuses what it does not know. *)
Definition readFlag (e : variables) (name : string) : bool :=
  String.eqb (default "false" ((λ s, toLowerCase (trim s)) <$> e name)) "true".
Definition readSwitch (e : variables) (name : string) : result bool :=
  let raw := toLowerCase (trimmed e name) in
  if String.eqb raw "" || String.eqb raw "false" then Ok false
  else if String.eqb raw "true" then Ok true
  else Throw (Error (name ++ " must be " ++ dquote ++ "true" ++ dquote ++ " or " ++ dquote ++ "false" ++ dquote)).

Definition readKeyEnv (e : variables) (name : string) : result string :=
  let value := trimmed e name in
  throws negb (re_0x is_hex 64 value) with Error (name ++ " must be a 32-byte hex private key");
  Ok value.

(** [for (const name of names) if (process.env[name]?.trim()) throw] *)
Fixpoint refuse_set (e : variables) (names : list string) (why : string → string) : result unit :=
  match names with
  | [] => Ok tt
  | name :: rest =>
      throws is_set e name with Error (why name);
      refuse_set e rest why
  end.

Section addresses.
Context `{Toolkit}.

Definition readOptionalAddressEnv (e : variables) (name : string) : result (option string) :=
  let value := trimmed e name in
  if String.eqb value "" then Ok None
  else
    throws negb (isAddress value) with Error (name ++ " must be an address");
    Ok (Some (getAddress value)).
Definition readAddressEnv (e : variables) (name : string) : result string :=
  let value := trimmed e name in
  throws negb (isAddress value) with Error (name ++ " must be an address");
  throws String.eqb (getAddress value) zeroAddress with Error (name ++ " must not be zero");
  Ok (getAddress value).
End addresses.

(** *** The RPC endpoint *)
Section rpc.
Variable new_URL : string → result Url.

Definition DEFAULT_RPC : string := "https://sepolia-rpc.giwa.io".
Definition parseNodeRpcUrl (value : string) : result string :=
  let? url := new_URL value in
  throws negb (is_web url) || has_credentials url with
    Error "RPC URL must be HTTP(S) without embedded credentials";
  throws negb (String.eqb (protocol url) "https:") && negb (isLoopbackHost (hostname url)) with
    Error "RPC URL must use HTTPS unless it is loopback";
  Ok (href url).
Definition readRpcUrl (e : variables) : result string :=
  parseNodeRpcUrl (or_else e "GIWA_SEPOLIA_RPC_URL" DEFAULT_RPC).

Inductive RpcTarget := target_loopback | target_live.
Definition assertRpcTarget (value : string) (expect : RpcTarget) (because : string) : result string :=
  let? normalized := parseNodeRpcUrl value in
  let? url := new_URL normalized in
  let loopback := isLoopbackHost (hostname url) in
  match expect with
  | target_loopback =>
      throws negb loopback with
        Error ("refusing to run: " ++ hostname url ++ " is not loopback — " ++ because);
      Ok normalized
  | target_live =>
      throws loopback with
        Error ("refusing to run: " ++ hostname url ++ " is loopback — " ++ because);
      Ok normalized
  end.

(** No endpoint serves both purposes: a run that must never broadcast and a run whose
    product is evidence of the live chain refuse one another's node. *)
Lemma targets_disjoint value b b' :
  is_ok (assertRpcTarget value target_loopback b) = true →
  is_ok (assertRpcTarget value target_live b') = false.
Proof.
  unfold assertRpcTarget. destruct (parseNodeRpcUrl value) as [n|]; [|done]. cbn [rbind].
  destruct (new_URL n) as [u|]; [|done]. cbn [rbind]. by destruct (isLoopbackHost (hostname u)).
Qed.
End rpc.

(** ** What a reader that returns has read *)
Lemma readPort_ok e fallback p : readPort e fallback = Ok p → 1 <= p <= 65535.
Proof.
  unfold readPort. destruct (match e "PORT" with Some _ => _ | None => _ end); try done.
  intros [Hb Hp]%throws_ok. injection Hp as <-. apply orb_false_iff in Hb as [H1 H2].
  apply Z.ltb_ge in H1, H2. lia.
Qed.

Lemma all_digits_read s : forallb is_digit (chars s) = true → ∃ d, NilEmpty.uint_of_string s = Some d.
Proof.
  induction s as [|c s IH]; [by eexists|]. change (chars (String c s)) with (c :: chars s).
  intros [Hc [d Hd]%IH]%andb_true_iff. cbn [NilEmpty.uint_of_string]. rewrite Hd.
  destruct c as [[][][][][][][][]]; first [discriminate Hc | by eexists].
Qed.
Lemma positive_BigInt s : positive_text s = true → 0 < BigInt s.
Proof.
  unfold positive_text. destruct s as [|c s]; [done|]. change (chars (String c s)) with (c :: chars s).
  intros [Hc Hs]%andb_true_iff. destruct (all_digits_read s Hs) as [d Hd].
  destruct c as [[][][][][][][][]]; try discriminate Hc;
    (unfold BigInt; cbn; destruct s; [reflexivity|]; unfold read_Z; cbn in Hd |- *; rewrite Hd; reflexivity).
Qed.
Lemma readPositiveInteger_ok e name fallback z : readPositiveInteger e name fallback = Ok z → 0 < z.
Proof.
  unfold readPositiveInteger. rewrite throws_ok. intros [Hp [= <-]]. by apply positive_BigInt, negb_false_iff.
Qed.
Lemma refuse_set_ok e names why : refuse_set e names why = Ok tt ↔ Forall (λ n, is_set e n = false) names.
Proof.
  induction names as [|n names IH]; cbn [refuse_set]; [by split|]. by rewrite throws_ok, IH, Forall_cons.
Qed.

Section read.
Context `{ToolkitLaws}.
Lemma readAddressEnv_ok e name a : readAddressEnv e name = Ok a →
  isAddress (trimmed e name) = true ∧ a = getAddress (trimmed e name) ∧ a ≠ zeroAddress.
Proof.
  unfold readAddressEnv. rewrite !throws_ok. intros (Ha & Hz & [= <-]). bools. by split_and!.
Qed.
(** The same variable, read as required by one service and as a reference by another. *)
Lemma readAddressEnv_optional e name a :
  readAddressEnv e name = Ok a → readOptionalAddressEnv e name = Ok (Some a).
Proof.
  intros (Ha & -> & _)%readAddressEnv_ok. unfold readOptionalAddressEnv.
  destruct (String.eqb_spec (trimmed e name) "") as [He|_]; [|by rewrite Ha].
  apply isAddress_shape in Ha. by rewrite He in Ha.
Qed.
End read.
