(* ===== verification/Boot.v ===== *)
(** * What boots, and with which wallets

    The boot of the four services that hold a funded key: [apps/account-bootstrap],
    [apps/revocation-submitter], [apps/faucet] and [apps/facilitator-erc7710] (each its
    index.ts), from the environment to a configuration or the error that stops the process,
    in the order the module evaluates.  The deployment artifact, the address of a key, the
    code at an address and the opened store are answers from outside. *)

From Stdlib Require Import ZArith Lia Ascii String.
From stdpp Require Import base gmap strings list.
From S2P Require Import Prelude Toolkit Json Token Ledger FaucetPolicy Bootstrap Budget Net Seller X402 Revocation Submitter Submissions Environment.
Open Scope string_scope.
Open Scope Z_scope.

(** What [parseActiveDeploymentArtifactJson] gives, as far as it is used. *)
Record Deployment := { dp_environment : SmartAccountsEnvironment; EntryPoint : string; dp_chainId : Z }.

Definition RATE_WINDOW_MS : Z := 3600000.

Section boot.
Context `{Toolkit} {S : Type} `{BudgetStore S}.
Variable new_URL : string → result Url.
(** [new URL(entry)] as the browser-origin reader takes it: protocol, hostname, origin. *)
Variable URL_origin : string → option (string * string * string).
(** [privateKeyToAccount(key).address] *)
Variable address_of : string → result string.
(** [FRAMEWORK_COMPOSITION_ID] *)
Variable composition : string.

Definition GIWA_ID : string := "91342".
Definition buildSponsoredBootstrapApproval (compositionId : string) : string :=
  "sponsored-bootstrap-chain-" ++ GIWA_ID ++ "-" ++ compositionId.

(** The wallet of a service: its key, and the address that key must have. *)
Definition read_wallet (e : variables) (prefix : string) : result string :=
  let? key := readKeyEnv e (prefix ++ "_PRIVATE_KEY") in
  let? account := address_of key in
  let? expected := readAddressEnv e (prefix ++ "_ADDRESS") in
  throws negb (String.eqb account expected) with
    Error (prefix ++ "_PRIVATE_KEY resolves to " ++ account ++ ", expected " ++ expected);
  Ok account.

(** The roles that are only named, for the separation check. *)
Fixpoint references (e : variables) (names : list string) : result (list (string * option string)) :=
  match names with
  | [] => Ok []
  | name :: rest =>
      let? a := readOptionalAddressEnv e name in
      let? l := references e rest in
      Ok ((name, a) :: l)
  end.

(** [Math.ceil(ms / 1000)] of the receipt wait; [None] when no idle timeout can hold it. *)
Definition wait_seconds (ms : Z) : option Z :=
  match number_of ms with JNum z => Some ((z + 999) / 1000) | _ => None end.
Definition idle_timeout (e : variables) (name : string) (fallback waits margin : Z) (why : string) : result (Z * Z) :=
  let? ms := readPositiveInteger e name fallback in
  match wait_seconds ms with
  | None => Throw (Error (name ++ why))
  | Some seconds =>
      let idle := waits * seconds + margin in
      throws 255 <? idle with Error (name ++ why);
      Ok (ms, idle)
  end.

Definition TUNNEL_ONLY : string := "the Cloudflare Tunnel is the only public path".
Definition bound_to (e : variables) (port : Z) (why : string) : result (string * Z * string) :=
  let? host := readHost e why in
  let? port := readPort e port in
  let? rpc := readRpcUrl new_URL e in
  Ok (host, port, rpc).

(** ** apps/account-bootstrap *)
Record DeployerConfig := {
  dc_bound : string * Z * string; ENABLED : bool; dc_sponsor : string; dc_policy : AccountBootstrapPolicy;
  MAX_DEPLOY_GAS : Z; MAX_FEE_PER_GAS : Z; PRIORITY_FEE_PER_GAS : Z; MIN_SPONSOR_BALANCE : Z; DAILY_BUDGET : Z;
  RECEIPT_TIMEOUT_MS : Z; dc_idleTimeout : Z; dc_store : string;
  dc_budget : SpendBudget S; dc_limiter : FixedWindowLimiter; allowedOrigins : list string;
}.

Definition obsolete_signer (name : string) : string := name ++ " is obsolete; use FACILITATOR_SIGNER_*".
Definition bootDeployer (e : variables) (deployment : result Deployment) (openStore : string → result S) (now : Z)
    : result DeployerConfig :=
  let? _ := refuse_set e ["RELAYER_ADDRESS"; "RELAYER_PRIVATE_KEY"] obsolete_signer in
  let? _ := refuse_set e ["BOOTSTRAP_FAUCET_ENABLED"; "BOOTSTRAP_FAUCET_TARGET_BASE"; "MAX_BOOTSTRAP_MINT_GAS"]
              (λ name, name ++ " is obsolete; the testnet top-up is apps/faucet") in
  let? bound := bound_to e 8083 TUNNEL_ONLY in
  let enabled := readFlag e "BOOTSTRAP_ENABLED" in
  let expected := buildSponsoredBootstrapApproval composition in
  throws enabled && negb (bool_decide (trim <$> e "BOOTSTRAP_APPROVAL" = Some expected)) with
    Error ("BOOTSTRAP_ENABLED is true but BOOTSTRAP_APPROVAL does not match this composition; expected " ++ expected);
  let? sponsor := read_wallet e "BOOTSTRAP" in
  let? named := references e ["FACILITATOR_SIGNER_ADDRESS"; "DEPLOYER_ADDRESS"; "REVOCATION_SPONSOR_ADDRESS"] in
  let? _ := assertFundedKeySeparation (("BOOTSTRAP_ADDRESS", Some sponsor) :: named) in
  let? deployment := deployment in
  let? deployGas := readPositiveInteger e "MAX_BOOTSTRAP_GAS" 250000 in
  let? fee := readPositiveInteger e "MAX_BOOTSTRAP_FEE_PER_GAS" 50000000 in
  let? tip := readPositiveInteger e "BOOTSTRAP_PRIORITY_FEE_WEI" 1000000 in
  throws fee <? tip with
    Error ("BOOTSTRAP_PRIORITY_FEE_WEI must not exceed MAX_BOOTSTRAP_FEE_PER_GAS; "
           ++ "the node would refuse every broadcast");
  let? floor := readPositiveInteger e "BOOTSTRAP_MIN_BALANCE_WEI" 1000000000000 in
  let? daily := readPositiveInteger e "BOOTSTRAP_DAILY_WEI" 500000000000000 in
  let? rate := readPositiveInteger e "BOOTSTRAP_RATE_PER_HOUR" 30 in
  let? wait := idle_timeout e "BOOTSTRAP_RECEIPT_TIMEOUT_MS" 60000 1 15
                 " must leave the receipt wait under Bun's 255 s idle timeout" in
  let path := or_else e "STORE_PATH" "./data/bootstrap.sqlite" in
  throws enabled && String.eqb path ":memory:" with Error "enabled bootstrap requires a persistent STORE_PATH";
  let? store := openStore path in
  let? budget := new_budget daily now (Some store) in
  let? limiter := new_limiter (number_of rate) (JNum RATE_WINDOW_MS) in
  let? origins := parseBootstrapOrigins URL_origin (e "BOOTSTRAP_ALLOWED_ORIGINS") SPONSORED_BROWSER_ORIGINS
                    "BOOTSTRAP_ALLOWED_ORIGINS" in
  Ok {| dc_bound := bound; ENABLED := enabled; dc_sponsor := sponsor;
        dc_policy := {| environment := dp_environment deployment; approval := expected |};
        MAX_DEPLOY_GAS := deployGas; MAX_FEE_PER_GAS := fee; PRIORITY_FEE_PER_GAS := tip;
        MIN_SPONSOR_BALANCE := floor; DAILY_BUDGET := daily; RECEIPT_TIMEOUT_MS := wait.1;
        dc_idleTimeout := wait.2; dc_store := path; dc_budget := budget; dc_limiter := limiter;
        allowedOrigins := origins |}.

(** ** apps/revocation-submitter *)
Record SponsorBoot := {
  sb_account : string; sb_config : SponsorConfig; sb_limiter : FixedWindowLimiter; sb_budget : SpendBudget S;
}.
Record SubmitterBoot := {
  sv_bound : string * Z * string; sv_relayer : string; sv_manager : string; sv_policy : RevocationSubmissionPolicy;
  sv_config : SubmitterConfig; sv_sponsor : option SponsorBoot; sv_receiptTimeout : Z; sv_idleTimeout : Z;
}.

Definition LEGACY : list string := ["RELAYER_ADDRESS"; "RELAYER_PRIVATE_KEY"; "RELAYER_PRIORITY_FEE_WEI"].
Definition legacy_refused (name : string) : string :=
  name ++ " is not a variable of this service — its own sender is REVOCATION_" ++ name
  ++ ". In the bootstrap and facilitator .env files the RELAYER_* spelling names the settlement signer, which this "
  ++ "service must never broadcast from; a copied .env would assert exactly that. Rename or remove the variable.".

(** [None] when the address is a clean account. *)
Definition refuse_code (code_of : string → result (option string)) (a why : string) : result unit :=
  let? code := code_of a in
  throws bool_decide (is_Some code) with Error why;
  Ok tt.

Record SponsorReading := { sr_account : string; sr_config : SponsorConfig; dailyBudget : Z; ratePerHour : Z }.
Definition readSponsorConfig (e : variables) (relayer : string) : result SponsorReading :=
  throws negb (readFlag e "REVOCATION_SPONSOR_ENABLED") with
    Error ("PAYER_ACCOUNT_ADDRESS is unset, which selects sponsored mode — it requires "
           ++ "REVOCATION_SPONSOR_ENABLED=true (or set PAYER_ACCOUNT_ADDRESS for the pinned mode)");
  let expected := buildSponsoredRevocationApproval GIWA_ID composition in
  throws negb (bool_decide (trim <$> e "REVOCATION_SPONSOR_APPROVAL" = Some expected)) with
    Error ("sponsored mode requires REVOCATION_SPONSOR_APPROVAL to match this composition; expected " ++ expected);
  let? account := read_wallet e "REVOCATION_SPONSOR" in
  let? named := references e ["FACILITATOR_SIGNER_ADDRESS"; "DEPLOYER_ADDRESS"; "BOOTSTRAP_ADDRESS"] in
  let? _ := assertFundedKeySeparation (("REVOCATION_SPONSOR_ADDRESS", Some account)
                                       :: ("REVOCATION_RELAYER_ADDRESS", Some relayer) :: named) in
  let? gas := readPositiveInteger e "REVOCATION_DEPOSIT_GAS" 60000 in
  let? fee := readPositiveInteger e "REVOCATION_SPONSOR_FEE_PER_GAS" 50000000 in
  let? tip := readPositiveInteger e "REVOCATION_SPONSOR_PRIORITY_FEE_WEI" 1000000 in
  let? floor := readPositiveInteger e "REVOCATION_MIN_SPONSOR_BALANCE_WEI" 1000000000000 in
  let? daily := readPositiveInteger e "REVOCATION_DAILY_WEI" 700000000000000 in
  let? rate := readPositiveInteger e "REVOCATION_RATE_PER_HOUR" 2 in
  Ok {| sr_account := account; dailyBudget := daily; ratePerHour := rate;
        sr_config := {| depositGas := gas; sc_maxFeePerGas := fee; sc_priorityFeePerGas := tip; minBalance := floor |} |}.

Definition read_policy (e : variables) (payer : option string) : result RevocationSubmissionPolicy :=
  let? call := readPositiveInteger e "MAX_CALL_GAS_LIMIT" 300000 in
  let? verification := readPositiveInteger e "MAX_VERIFICATION_GAS_LIMIT" 300000 in
  let? pre := readPositiveInteger e "MAX_PRE_VERIFICATION_GAS" 100000 in
  let? fee := readPositiveInteger e "MAX_FEE_PER_GAS" (match payer with None => 10000000 | Some _ => 1000000000 end) in
  let? floor := match payer with
                | None => let? m := readPositiveInteger e "MIN_FEE_PER_GAS" 10000000 in Ok (Some m)
                | Some _ => Ok None
                end in
  Ok {| po_payer := payer; maxCallGasLimit := call; maxVerificationGasLimit := verification;
        maxPreVerificationGas := pre; po_maxFeePerGas := fee; minFeePerGas := floor |}.

(** Sponsored mode: a persistent store, and a tip under the cap. *)
Definition boot_sponsor (e : variables) (relayer : string) (code_of : string → result (option string))
    (openStore : string → result S) (now : Z) : result SponsorBoot :=
  let? read := readSponsorConfig e relayer in
  let c := sr_config read in
  throws sc_maxFeePerGas c <? sc_priorityFeePerGas c with
    Error ("REVOCATION_SPONSOR_PRIORITY_FEE_WEI must not exceed REVOCATION_SPONSOR_FEE_PER_GAS; "
           ++ "the node would refuse every broadcast");
  let? _ := refuse_code code_of (sr_account read)
              "sponsor address carries code (EIP-7702 designator?) — use a clean, dedicated EOA" in
  let? limiter := new_limiter (number_of (ratePerHour read)) (JNum 3600000) in
  let path := or_else e "STORE_PATH" "./data/revocation.sqlite" in
  throws String.eqb path ":memory:" with Error "sponsored revocation requires a persistent STORE_PATH";
  let? store := openStore path in
  let? budget := new_budget (dailyBudget read) now (Some store) in
  Ok {| sb_account := sr_account read; sb_config := c; sb_limiter := limiter; sb_budget := budget |}.

Definition bootSubmitter (e : variables) (deployment : result Deployment)
    (code_of : string → result (option string)) (openStore : string → result S) (now : Z) : result SubmitterBoot :=
  let? bound := bound_to e 8082 TUNNEL_ONLY in
  let? wait := idle_timeout e "REVOCATION_RECEIPT_TIMEOUT_MS" 60000 2 15
                 " must leave two receipt waits under Bun's 255 s idle timeout" in
  let? tip := readPositiveInteger e "REVOCATION_RELAYER_PRIORITY_FEE_WEI" 1000000 in
  let? _ := refuse_set e LEGACY legacy_refused in
  let? relayer := read_wallet e "REVOCATION_RELAYER" in
  let? named := references e ["FACILITATOR_SIGNER_ADDRESS"; "DEPLOYER_ADDRESS"; "BOOTSTRAP_ADDRESS"] in
  let? _ := assertFundedKeySeparation (("REVOCATION_RELAYER_ADDRESS", Some relayer) :: named) in
  let? deployment := deployment in
  let? payer := readOptionalAddressEnv e "PAYER_ACCOUNT_ADDRESS" in
  let? policy := read_policy e payer in
  let? _ := refuse_code code_of relayer
              ("relayer address carries code (EIP-7702 designator?) — handleOps would compensate into it; "
               ++ "use a clean EOA") in
  let? sponsor := match payer with
                  | Some _ => Ok None
                  | None => let? b := boot_sponsor e relayer code_of openStore now in Ok (Some b)
                  end in
  Ok {| sv_bound := bound; sv_relayer := relayer;
        sv_manager := getAddress (DelegationManager (dp_environment deployment)); sv_policy := policy;
        sv_config := {| sponsorConfig := sb_config <$> sponsor;
                        cf_entryPoint := getAddress (EntryPoint deployment); RELAYER_PRIORITY_FEE_WEI := tip |};
        sv_sponsor := sponsor; sv_receiptTimeout := wait.1; sv_idleTimeout := wait.2 |}.

(** ** apps/faucet *)
Record FaucetBoot := {
  fb_bound : string * Z * string; fb_enabled : bool; TOKEN : string; ETH_MISSIONS : list string;
  ETH_DAILY_WEI : Z; MIN_BALANCE_WEI : Z; fb_store : string; fb_account : string;
}.
Definition bootFaucet (e : variables) (deployment : result Deployment) : result FaucetBoot :=
  let? host := readHost e TUNNEL_ONLY in
  let? port := readPort e 8084 in
  let? enabled := readSwitch e "FAUCET_ENABLED" in
  let token := trimmed e "FAUCET_SERVICE_TOKEN" in
  throws slen token <? 32 with
    Error "FAUCET_SERVICE_TOKEN must be at least 32 characters; the Worker sends the same value";
  let? rpc := readRpcUrl new_URL e in
  let? missions := parseFaucetMissionList (e "FAUCET_ETH_MISSIONS") in
  let? daily := readPositiveInteger e "FAUCET_ETH_DAILY_WEI" 50000000000000000 in
  let? floor := readPositiveInteger e "FAUCET_MIN_BALANCE_WEI" 20000000000000000 in
  let path := or_else e "STORE_PATH" "./data/faucet.sqlite" in
  throws enabled && String.eqb path ":memory:" with
    Error "an enabled faucet requires a persistent STORE_PATH; a restart must not reset every window";
  let? key := readKeyEnv e "FAUCET_PRIVATE_KEY" in
  let? account := address_of key in
  let? expected := readOptionalAddressEnv e "FAUCET_ADDRESS" in
  match expected with
  | None => Throw (Error "FAUCET_ADDRESS must be the faucet wallet's address")
  | Some expected =>
      throws String.eqb expected zeroAddress with Error "FAUCET_ADDRESS must be the faucet wallet's address";
      throws negb (String.eqb account expected) with
        Error ("FAUCET_PRIVATE_KEY resolves to " ++ account ++ ", expected " ++ expected);
      let? named := references e ["BOOTSTRAP_ADDRESS"; "FACILITATOR_SIGNER_ADDRESS"; "DEPLOYER_ADDRESS";
                                  "REVOCATION_SPONSOR_ADDRESS"] in
      let? _ := assertFundedKeySeparation (("FAUCET_ADDRESS", Some account) :: named) in
      let? deployment := deployment in
      throws negb (dp_chainId deployment =? 91342) with Error "the faucet runs on GIWA Sepolia only";
      Ok {| fb_bound := (host, port, rpc); fb_enabled := enabled; TOKEN := token; ETH_MISSIONS := missions;
            ETH_DAILY_WEI := daily; MIN_BALANCE_WEI := floor; fb_store := path; fb_account := account |}
  end.

(** ** apps/facilitator-erc7710 *)
Record FacilitatorBoot := {
  fc_bound : string * Z * string; MAX_AMOUNT : Z; fc_store : string; METRICS_TOKEN : option string;
  MAX_REDEMPTION_GAS : Z; fc_receiptTimeout : Z; fc_idleTimeout : Z; RELAYER_DAILY_WEI : Z;
  RELAYER_PAYER_DAILY_WEI : Z; fc_relayer : string; frameworkAdmin : string; fc_manager : string;
  fc_limiter : FixedWindowLimiter;
}.

(** metrics.ts *)
Definition readMetricsToken (value : option string) : result (option string) :=
  match trim <$> value with
  | None => Ok None
  | Some token =>
      if String.eqb token "" then Ok None
      else
        throws slen token <? 16 with Error "METRICS_TOKEN must be at least 16 characters";
        Ok (Some token)
  end.
Definition readPayerShare (e : variables) (dailyWei : Z) : result Z :=
  let tenth := dailyWei / 10 in
  throws (tenth =? 0) && negb (is_set e "RELAYER_PAYER_DAILY_WEI") with
    Error "RELAYER_DAILY_WEI under 10 wei leaves no default payer share; set RELAYER_PAYER_DAILY_WEI";
  let? share := readPositiveInteger e "RELAYER_PAYER_DAILY_WEI" tenth in
  throws dailyWei <? share with Error "RELAYER_PAYER_DAILY_WEI must not exceed RELAYER_DAILY_WEI";
  Ok share.

(** [verified] is what reading the deployment on the chain says, [opened] what opening the
    store does. *)
Definition bootFacilitator (e : variables) (deployment : result Deployment) (manifest opened verified : result unit)
    : result FacilitatorBoot :=
  let? _ := refuse_set e ["RELAYER_ADDRESS"; "RELAYER_PRIVATE_KEY"] obsolete_signer in
  let? bound := bound_to e 8081 "put a TLS reverse proxy in front for remote access" in
  let? amount := toTokenAmount (default "10.00" (e "MAX_SETTLEMENT_AMOUNT")) in
  let path := or_else e "STORE_PATH" "./data/facilitator.sqlite" in
  let? token := readMetricsToken (e "METRICS_TOKEN") in
  let? gas := readPositiveInteger e "MAX_REDEMPTION_GAS" 1500000 in
  let? wait := idle_timeout e "SETTLEMENT_RECEIPT_TIMEOUT_MS" 25000 1 5 " must fit Bun's 255 s idle timeout" in
  let? daily := readPositiveInteger e "RELAYER_DAILY_WEI" 500000000000000 in
  let? share := readPayerShare e daily in
  let? rate := readPositiveInteger e "FACILITATOR_RATE_PER_HOUR" 600 in
  let? relayer := read_wallet e "FACILITATOR_SIGNER" in
  let? deployment := deployment in
  let? _ := manifest in
  let? admin := readAddressEnv e "FRAMEWORK_ADMIN_ADDRESS" in
  let? _ := opened in
  let? limiter := new_limiter (number_of rate) (JNum RATE_WINDOW_MS) in
  let? _ := verified in
  Ok {| fc_bound := bound; MAX_AMOUNT := amount; fc_store := path; METRICS_TOKEN := token;
        MAX_REDEMPTION_GAS := gas; fc_receiptTimeout := wait.1; fc_idleTimeout := wait.2;
        RELAYER_DAILY_WEI := daily; RELAYER_PAYER_DAILY_WEI := share; fc_relayer := relayer;
        frameworkAdmin := admin; fc_manager := getAddress (DelegationManager (dp_environment deployment));
        fc_limiter := limiter |}.

(** ** What a service that boots has read *)
Context `{!ToolkitLaws _}.

Lemma read_wallet_ok e prefix a : read_wallet e prefix = Ok a →
  readOptionalAddressEnv e (prefix ++ "_ADDRESS") = Ok (Some a).
Proof.
  unfold read_wallet. intros Hr. inv_tx. apply readAddressEnv_optional.
  match goal with H : negb (String.eqb _ _) = false |- _ =>
    apply negb_false_iff, String.eqb_eq in H; subst end. done.
Qed.
Lemma idle_timeout_ok e name fallback waits margin why ms idle :
  0 <= waits → idle_timeout e name fallback waits margin why = Ok (ms, idle) →
  0 < ms ∧ idle <= 255 ∧ ∃ seconds, wait_seconds ms = Some seconds ∧ idle = waits * seconds + margin.
Proof.
  unfold idle_timeout. intros Hw Hi. apply rbind_ok in Hi as (z & Hz%readPositiveInteger_ok & Hi).
  destruct (wait_seconds z) as [seconds|] eqn:Hs; [|done]. apply throws_ok in Hi as [Hlt [= <- <-]].
  apply Z.ltb_ge in Hlt. split_and!; [done|done|by exists seconds].
Qed.

(** A reference reads the variable and nothing else. *)
Definition wallet (e : variables) (name : string) : option string :=
  match readOptionalAddressEnv e name with Ok a => a | Throw _ => None end.
Lemma references_ok e names l : references e names = Ok l → l = (λ n, (n, wallet e n)) <$> names.
Proof.
  revert l. induction names as [|n names IH]; intros l; cbn [references]; [by intros [= <-]|].
  intros (a & Ha & (l' & Hl & [= <-])%rbind_ok)%rbind_ok. apply IH in Hl as ->.
  cbn. unfold wallet at 2. by rewrite Ha.
Qed.
Lemma wallet_read e prefix a : read_wallet e prefix = Ok a → wallet e (prefix ++ "_ADDRESS") = Some a.
Proof. intros Hr%read_wallet_ok. unfold wallet. by rewrite Hr. Qed.

(** The accounts of a list of wallets, the unset ones left out. *)
Definition keys (l : list (option string)) : list string := toLowerCase <$> omap id l.
Lemma separate_keys e own names l :
  references e names = Ok l → assertFundedKeySeparation (own ++ l) = Ok tt →
  NoDup (keys ((snd <$> own) ++ (wallet e <$> names))%list).
Proof.
  intros ->%references_ok [Hs _]%assert_separate_ok. revert Hs. unfold role_keys, keys.
  assert (Ho : ∀ l : list (string * option string), omap snd l = omap id (snd <$> l)).
  { intros l. induction l as [|[n a] l IH]; [done|]. cbn [fmap list_fmap omap list_omap snd id]. by rewrite IH. }
  rewrite Ho, fmap_app, <- list_fmap_compose. done.
Qed.

(** Closes a goal on the wallets with the separation check of the boot at hand. *)
Ltac separated :=
  match goal with
  | Hr : references _ _ = Ok ?l, Hs : assertFundedKeySeparation (?a :: ?l) = Ok tt |- _ =>
      exact (separate_keys _ [a] _ _ Hr Hs)
  | Hr : references _ _ = Ok ?l, Hs : assertFundedKeySeparation (?a :: ?b :: ?l) = Ok tt |- _ =>
      exact (separate_keys _ [a; b] _ _ Hr Hs)
  end.

Lemma deployer_keys e deployment openStore now d : bootDeployer e deployment openStore now = Ok d →
  wallet e "BOOTSTRAP_ADDRESS" = Some (dc_sponsor d)
  ∧ NoDup (keys (Some (dc_sponsor d)
      :: (wallet e <$> ["FACILITATOR_SIGNER_ADDRESS"; "DEPLOYER_ADDRESS"; "REVOCATION_SPONSOR_ADDRESS"])))
  ∧ (ENABLED d = true → trim <$> e "BOOTSTRAP_APPROVAL" = Some (buildSponsoredBootstrapApproval composition)
       ∧ dc_store d ≠ ":memory:")
  ∧ PRIORITY_FEE_PER_GAS d <= MAX_FEE_PER_GAS d ∧ 0 < MAX_DEPLOY_GAS d ∧ 0 < PRIORITY_FEE_PER_GAS d
  ∧ 0 < MIN_SPONSOR_BALANCE d.
Proof.
  unfold bootDeployer. intros Hb. inv_tx. bools. split; [by apply (wallet_read e "BOOTSTRAP")|].
  split; [separated|]. cbn [ENABLED PRIORITY_FEE_PER_GAS MAX_FEE_PER_GAS MAX_DEPLOY_GAS MIN_SPONSOR_BALANCE dc_store].
  repeat match goal with H : readPositiveInteger _ _ _ = Ok _ |- _ => apply readPositiveInteger_ok in H end.
  split; [|done]. intros He. rewrite He in *. cbn [andb] in *. bools. done.
Qed.

Lemma sponsor_reading_keys e relayer r : readSponsorConfig e relayer = Ok r →
  wallet e "REVOCATION_SPONSOR_ADDRESS" = Some (sr_account r)
  ∧ NoDup (keys (Some (sr_account r) :: Some relayer
      :: (wallet e <$> ["FACILITATOR_SIGNER_ADDRESS"; "DEPLOYER_ADDRESS"; "BOOTSTRAP_ADDRESS"])))
  ∧ readFlag e "REVOCATION_SPONSOR_ENABLED" = true
  ∧ trim <$> e "REVOCATION_SPONSOR_APPROVAL" = Some (buildSponsoredRevocationApproval GIWA_ID composition)
  ∧ 0 < depositGas (sr_config r) ∧ 0 < sc_maxFeePerGas (sr_config r).
Proof.
  unfold readSponsorConfig. intros Hb. inv_tx. bools.
  repeat match goal with H : readPositiveInteger _ _ _ = Ok _ |- _ => apply readPositiveInteger_ok in H end.
  split; [by apply (wallet_read e "REVOCATION_SPONSOR")|]. split; [|done].
  separated.
Qed.

Lemma read_policy_payer e payer p : read_policy e payer = Ok p → po_payer p = payer.
Proof. unfold read_policy. intros Hp. by inv_tx. Qed.
Lemma refuse_code_ok code_of a why : refuse_code code_of a why = Ok tt → code_of a = Ok None.
Proof.
  unfold refuse_code. intros (code & -> & [Hc _]%throws_ok)%rbind_ok. by destruct code.
Qed.
Lemma boot_sponsor_ok e relayer code_of openStore now b : boot_sponsor e relayer code_of openStore now = Ok b →
  (∃ r, readSponsorConfig e relayer = Ok r ∧ sr_account r = sb_account b ∧ sr_config r = sb_config b)
  ∧ sc_priorityFeePerGas (sb_config b) <= sc_maxFeePerGas (sb_config b)
  ∧ code_of (sb_account b) = Ok None ∧ or_else e "STORE_PATH" "./data/revocation.sqlite" ≠ ":memory:".
Proof.
  unfold boot_sponsor. intros Hb. inv_tx. bools. cbn [sb_account sb_config].
  match goal with H : refuse_code _ _ _ = Ok _ |- _ => apply refuse_code_ok in H end.
  split_and!; try done. by eexists.
Qed.

Lemma submitter_keys e deployment code_of openStore now s : bootSubmitter e deployment code_of openStore now = Ok s →
  wallet e "REVOCATION_RELAYER_ADDRESS" = Some (sv_relayer s)
  ∧ NoDup (keys (Some (sv_relayer s)
      :: (wallet e <$> ["FACILITATOR_SIGNER_ADDRESS"; "DEPLOYER_ADDRESS"; "BOOTSTRAP_ADDRESS"])))
  ∧ code_of (sv_relayer s) = Ok None
  ∧ match sv_sponsor s with
    | None => sponsorConfig (sv_config s) = None ∧ is_Some (po_payer (sv_policy s))
    | Some b => sponsorConfig (sv_config s) = Some (sb_config b) ∧ po_payer (sv_policy s) = None
        ∧ boot_sponsor e (sv_relayer s) code_of openStore now = Ok b
    end.
Proof.
  unfold bootSubmitter. intros Hb. inv_tx. cbn [sv_relayer sv_config sv_sponsor sv_policy].
  split; [by apply (wallet_read e "REVOCATION_RELAYER")|]. split; [separated|].
  match goal with H : read_policy _ _ = Ok _ |- _ => apply read_policy_payer in H; rewrite H end.
  match goal with H : refuse_code _ _ _ = Ok _ |- _ => apply refuse_code_ok in H; split; [exact H|] end.
  match goal with H : match ?p with Some _ => _ | None => _ end = Ok _ |- _ => destruct p end; inv_tx; [by split|].
  by split_and!.
Qed.

Lemma faucet_keys e deployment f : bootFaucet e deployment = Ok f →
  wallet e "FAUCET_ADDRESS" = Some (fb_account f)
  ∧ NoDup (keys (Some (fb_account f)
      :: (wallet e <$> ["BOOTSTRAP_ADDRESS"; "FACILITATOR_SIGNER_ADDRESS"; "DEPLOYER_ADDRESS";
                        "REVOCATION_SPONSOR_ADDRESS"])))
  ∧ (fb_enabled f = true → fb_store f ≠ ":memory:").
Proof.
  unfold bootFaucet. intros Hb. inv_tx.
  match goal with H : match ?o with Some _ => _ | None => _ end = Ok _ |- _ => destruct o eqn:Ho; [|done] end.
  inv_tx. bools. cbn [fb_account fb_enabled fb_store]. split; [|split; [separated|]].
  - unfold wallet. match goal with H : readOptionalAddressEnv _ "FAUCET_ADDRESS" = _ |- _ => rewrite H end. by subst.
  - intros He. rewrite He in *. cbn [andb] in *. by bools.
Qed.
Lemma facilitator_keys e deployment manifest opened verified c :
  bootFacilitator e deployment manifest opened verified = Ok c →
  wallet e "FACILITATOR_SIGNER_ADDRESS" = Some (fc_relayer c)
  ∧ 0 < RELAYER_PAYER_DAILY_WEI c <= RELAYER_DAILY_WEI c ∧ 0 < MAX_REDEMPTION_GAS c.
Proof.
  unfold bootFacilitator, readPayerShare. intros Hb. inv_tx. bools.
  split; [by apply (wallet_read e "FACILITATOR_SIGNER")|].
  repeat match goal with H : readPositiveInteger _ _ _ = Ok _ |- _ => apply readPositiveInteger_ok in H end.
  done.
Qed.

(** ** One wallet, one name

    Each service has its own environment, but the names of wallets are global: a name that a
    service's environment sets, it sets to what the registry [w] says. *)
Definition WALLETS : list string :=
  ["BOOTSTRAP_ADDRESS"; "FACILITATOR_SIGNER_ADDRESS"; "DEPLOYER_ADDRESS"; "REVOCATION_SPONSOR_ADDRESS";
   "REVOCATION_RELAYER_ADDRESS"; "FAUCET_ADDRESS"].
Definition registered (w e : variables) : Prop := Forall (λ n, e n = w n) WALLETS.

Lemma registered_wallet w e n : registered w e → n ∈ WALLETS → wallet e n = wallet w n.
Proof.
  intros Hr Hn. unfold registered in Hr. rewrite Forall_forall in Hr. unfold wallet, readOptionalAddressEnv, trimmed. by rewrite (Hr n Hn).
Qed.

(** No two services spend from one wallet. When the four services boot from environments
    that name each wallet alike, the accounts they broadcast from - the facilitator's signer,
    the bootstrap sponsor, the faucet, the revocation sponsor - and the deployer's are
    pairwise different, whatever the case they are written in; so are the facilitator's
    signer, the bootstrap sponsor, the revocation relayer, the revocation sponsor and the
    deployer.  (The one pair no service compares is the faucet and the revocation relayer.) *)
Theorem no_shared_wallet w ed es ef ec dd ds df dc code_of open_d open_s td ts m o v d s f c :
  registered w ed → registered w es → registered w ef → registered w ec →
  bootDeployer ed dd open_d td = Ok d → bootSubmitter es ds code_of open_s ts = Ok s →
  bootFaucet ef df = Ok f → bootFacilitator ec dc m o v = Ok c →
  NoDup (keys [Some (fc_relayer c); Some (dc_sponsor d); Some (fb_account f); sb_account <$> sv_sponsor s;
               wallet w "DEPLOYER_ADDRESS"])
  ∧ NoDup (keys [Some (fc_relayer c); Some (dc_sponsor d); Some (sv_relayer s); sb_account <$> sv_sponsor s;
                 wallet w "DEPLOYER_ADDRESS"]).
Proof.
  intros Rd Rs Rf Rc (Wd & Kd & _)%deployer_keys (Ws & Ks & _ & Hs)%submitter_keys (Wf & Kf & _)%faucet_keys
    (Wc & _)%facilitator_keys.
  rewrite (registered_wallet w) in Wd, Ws, Wf, Wc by (done || unfold WALLETS; set_solver).
  cbn [fmap list_fmap] in Kd, Ks, Kf.
  rewrite !(registered_wallet w ed) in Kd by (done || unfold WALLETS; set_solver).
  rewrite !(registered_wallet w es) in Ks by (done || unfold WALLETS; set_solver).
  rewrite !(registered_wallet w ef) in Kf by (done || unfold WALLETS; set_solver).
  rewrite Wc in *. rewrite Wd in *.
  assert (Hsp : ∀ b, sv_sponsor s = Some b → wallet w "REVOCATION_SPONSOR_ADDRESS" = Some (sb_account b)
      ∧ NoDup (keys [Some (sb_account b); Some (sv_relayer s); Some (fc_relayer c); wallet w "DEPLOYER_ADDRESS";
                     Some (dc_sponsor d)])).
  { intros b Hb. rewrite Hb in Hs. destruct Hs as (_ & _ & ((r & Hr & Ha & _) & _)%boot_sponsor_ok).
    apply sponsor_reading_keys in Hr as (Wr & Kr & _). cbn [fmap list_fmap] in Kr.
    rewrite !(registered_wallet w es) in Wr by (done || unfold WALLETS; set_solver).
    rewrite !(registered_wallet w es) in Kr by (done || unfold WALLETS; set_solver).
    rewrite Ha, Wc, Wd in Kr. by rewrite Ha in Wr. }
  destruct (sv_sponsor s) as [b|] eqn:Eb.
  - destruct (Hsp b eq_refl) as [Wb Kb]. rewrite Wb in *. clear - Kd Ks Kf Kb.
    unfold keys in *. destruct (wallet w "DEPLOYER_ADDRESS"); cbn [fmap list_fmap omap list_omap id option_fmap option_map] in *;
      rewrite !NoDup_cons in *; set_solver.
  - clear - Kd Ks Kf. unfold keys in *.
    destruct (wallet w "DEPLOYER_ADDRESS"), (wallet w "REVOCATION_SPONSOR_ADDRESS");
      cbn [fmap list_fmap omap list_omap id option_fmap option_map] in *; rewrite !NoDup_cons in *; set_solver.
Qed.

(** Nobody sponsors strangers by accident. An enabled bootstrap service, and a submitter in
    its sponsored mode, have the operator's approval for this very composition and a store
    that survives a restart; the node can take what they broadcast; the submitter's wallets
    carry no code; and a pinned submitter has no sponsor at all. *)
Theorem sponsorship_is_approved e deployment code_of openStore now :
  (∀ d, bootDeployer e deployment openStore now = Ok d → ENABLED d = true →
     trim <$> e "BOOTSTRAP_APPROVAL" = Some (buildSponsoredBootstrapApproval composition)
     ∧ dc_store d ≠ ":memory:" ∧ PRIORITY_FEE_PER_GAS d <= MAX_FEE_PER_GAS d)
  ∧ (∀ s, bootSubmitter e deployment code_of openStore now = Ok s →
       code_of (sv_relayer s) = Ok None ∧ config_ok (sv_config s)
       ∧ match sv_sponsor s with
         | None => is_Some (po_payer (sv_policy s)) ∧ sponsorConfig (sv_config s) = None
         | Some b => po_payer (sv_policy s) = None ∧ readFlag e "REVOCATION_SPONSOR_ENABLED" = true
             ∧ trim <$> e "REVOCATION_SPONSOR_APPROVAL" = Some (buildSponsoredRevocationApproval GIWA_ID composition)
             ∧ or_else e "STORE_PATH" "./data/revocation.sqlite" ≠ ":memory:"
             ∧ code_of (sb_account b) = Ok None
             ∧ sc_priorityFeePerGas (sb_config b) <= sc_maxFeePerGas (sb_config b)
         end).
Proof.
  split.
  - intros d (_ & _ & Ha & Ht & _)%deployer_keys He. destruct (Ha He). by split_and!.
  - intros s (_ & _ & Hc & Hs)%submitter_keys. split; [done|]. destruct (sv_sponsor s) as [b|].
    + destruct Hs as (Hcf & Hp & ((r & Hr & _ & Hsame) & Htip & Hcode & Hstore)%boot_sponsor_ok).
      apply sponsor_reading_keys in Hr as (_ & _ & Hf & Ha & Hg & Hm). rewrite Hsame in *. split; [|by split_and!].
      intros c. rewrite Hcf. intros [= <-]. lia.
    + destruct Hs as [Hcf Hp]. split; [|done]. intros c. by rewrite Hcf.
Qed.
End boot.

(** ** Four environments *)
Definition ex_address (n : Z) : string := "0x" ++ hex_digits 40 n.
Definition ex_key (n : Z) : string := "0x" ++ hex_digits 64 n.
Definition ex_address_of (key : string) : result string := Ok ("0x" ++ String.substring 2 40 key).
Definition ex_URL (_ : string) : result Url :=
  Ok {| protocol := "https:"; username := ""; password := ""; hostname := "rpc"; pathname := "/"; search := "";
        hash := ""; origin := "https://rpc"; href := "https://rpc/" |}.
Definition of_list (l : list (string * string)) : variables := λ n, snd <$> List.find (λ p, String.eqb p.1 n) l.
Definition ex_registry (faucet : Z) : list (string * string) :=
  [("BOOTSTRAP_ADDRESS", ex_address 1); ("FACILITATOR_SIGNER_ADDRESS", ex_address 2);
   ("DEPLOYER_ADDRESS", ex_address 3); ("REVOCATION_SPONSOR_ADDRESS", ex_address 4);
   ("REVOCATION_RELAYER_ADDRESS", ex_address 5); ("FAUCET_ADDRESS", ex_address faucet)].
Definition ex_env (faucet : Z) (own : list (string * string)) : variables := of_list (own ++ ex_registry faucet)%list.
Definition ex_deployment : result Deployment :=
  Ok {| dp_environment := {| DelegationManager := ex_address 10; SimpleFactory := ex_address 11; caveatEnforcers := [] |};
        EntryPoint := ex_address 12; dp_chainId := 91342 |}.
Definition ex_deployer_env (faucet : Z) : variables := ex_env faucet [("BOOTSTRAP_PRIVATE_KEY", ex_key 1)].
Definition ex_submitter_env (faucet : Z) : variables :=
  ex_env faucet [("REVOCATION_RELAYER_PRIVATE_KEY", ex_key 5); ("REVOCATION_SPONSOR_PRIVATE_KEY", ex_key 4);
                 ("REVOCATION_SPONSOR_ENABLED", " TRUE ");
                 ("REVOCATION_SPONSOR_APPROVAL", "sponsored-revocation-chain-91342-c")].
Definition ex_faucet_env (faucet : Z) : variables :=
  ex_env faucet [("FAUCET_PRIVATE_KEY", ex_key faucet); ("FAUCET_SERVICE_TOKEN", "0123456789abcdef0123456789abcdef")].
Definition ex_facilitator_env (faucet : Z) : variables :=
  ex_env faucet [("FACILITATOR_SIGNER_PRIVATE_KEY", ex_key 2); ("FRAMEWORK_ADMIN_ADDRESS", ex_address 13)].
#[local] Instance ex_boot_store : BudgetStore budgets := series_store "sponsor".
Definition ex_open (_ : string) : result budgets := Ok ∅.

Definition ex_deployer (faucet : Z) : result (DeployerConfig (S := budgets)) :=
  bootDeployer ex_URL (λ _, None) ex_address_of "c" (ex_deployer_env faucet) ex_deployment ex_open 1709164800000.
Definition ex_submitter (faucet : Z) : result (SubmitterBoot (S := budgets)) :=
  bootSubmitter ex_URL ex_address_of "c" (ex_submitter_env faucet) ex_deployment (λ _, Ok None) ex_open 1709164800000.
Definition ex_faucet (faucet : Z) : result FaucetBoot :=
  bootFaucet ex_URL ex_address_of (ex_faucet_env faucet) ex_deployment.
Definition ex_facilitator (faucet : Z) : result FacilitatorBoot :=
  bootFacilitator ex_URL ex_address_of (ex_facilitator_env faucet) ex_deployment (Ok tt) (Ok tt) (Ok tt).
Definition all_boot (faucet : Z) : bool :=
  is_ok (ex_deployer faucet) && is_ok (ex_submitter faucet) && is_ok (ex_faucet faucet) && is_ok (ex_facilitator faucet).

Example four_boot : all_boot 6 = true.
Proof. vm_compute. reflexivity. Qed.

Lemma no_shared_wallet_witness :
  ∃ d s f c, ex_deployer 6 = Ok d ∧ ex_submitter 6 = Ok s ∧ ex_faucet 6 = Ok f ∧ ex_facilitator 6 = Ok c
    ∧ NoDup (keys [Some (fc_relayer c); Some (dc_sponsor d); Some (fb_account f); sb_account <$> sv_sponsor s;
                   wallet (of_list (ex_registry 6)) "DEPLOYER_ADDRESS"])
    ∧ NoDup (keys [Some (fc_relayer c); Some (dc_sponsor d); Some (sv_relayer s); sb_account <$> sv_sponsor s;
                   wallet (of_list (ex_registry 6)) "DEPLOYER_ADDRESS"]).
Proof.
  pose proof four_boot as Hall. unfold all_boot in Hall. apply andb_true_iff in Hall as [[[Hd Hs]%andb_true_iff Hf]%andb_true_iff Hc].
  destruct (ex_deployer 6) as [d|] eqn:Ed; [|discriminate Hd]. destruct (ex_submitter 6) as [s|] eqn:Es; [|discriminate Hs].
  destruct (ex_faucet 6) as [f|] eqn:Ef; [|discriminate Hf]. destruct (ex_facilitator 6) as [c|] eqn:Ec; [|discriminate Hc].
  exists d, s, f, c. do 4 (split; [reflexivity|]).
  apply (no_shared_wallet (S := budgets) ex_URL (λ _, None) ex_address_of "c" (of_list (ex_registry 6))
    (ex_deployer_env 6) (ex_submitter_env 6) (ex_faucet_env 6) (ex_facilitator_env 6) ex_deployment ex_deployment
    ex_deployment ex_deployment (λ _, Ok None) ex_open ex_open 1709164800000 1709164800000 (Ok tt) (Ok tt) (Ok tt) d s f c);
    [repeat constructor..|exact Ed|exact Es|exact Ef|exact Ec].
Defined.

(** The faucet and the revocation relayer: no boot compares them, so both run on one key. *)
Lemma faucet_shares_relayer_key :
  all_boot 5 = true
  ∧ match ex_submitter 5, ex_faucet 5 with Ok s, Ok f => fb_account f = sv_relayer s | _, _ => False end.
Proof. vm_compute. split; reflexivity. Qed.
