(* ===== verification/Deployer.v ===== *)
(** * The sponsored bootstrap service

    [apps/account-bootstrap/index.ts]: the service that deploys an owner's account at the
    operator's expense.  A request waits at one of five [await]s ([stage]); [resume] is the
    code between two of them, and the steps of the service interleave any number of requests
    over one budget and one limiter, with restarts, lost replies and transactions that mine
    though nobody saw their receipt.  The route around it, and its closed list of answers. *)

From Stdlib Require Import ZArith Lia Ascii String.
From stdpp Require Import base gmap strings list fin_maps.
From S2P Require Import Prelude Dates Validate Ledger Toolkit Bootstrap Budget Flights X402 Codec Net Json Errors Revocation Submitter Environment Boot.
Open Scope string_scope.
Open Scope Z_scope.

Record DeployReceipt := { dr_success : bool; dr_gasUsed : Z; dr_price : Z; dr_l1Fee : jsval }.
Inductive BootstrapResponse := deployed (transaction : string) | already_deployed.

(** What a bootstrap waits for: the code at the account; the sponsor's balance and the base
    fee; the gas estimate; the node's word on the broadcast; the receipt. *)
Inductive stage :=
  | reading_code
  | reading_funds
  | estimating (balance : Z)
  | sending (h : BudgetHold) (gas : Z)
  | receiving (h : BudgetHold) (hash : string).
(** [inr] is a throw, with its text. *)
Definition told (w : stage) : Type :=
  match w with
  | reading_code => option string + string
  | reading_funds => (Z * option Z) + string
  | estimating _ => Z + string
  | sending _ _ => string + string
  | receiving _ _ => DeployReceipt + string
  end.
Inductive deploy_failure := Refused (refusal : string) (httpStatus : Z) | Raised (text : string).
Inductive progress :=
  | Await (w : stage)
  | Return (r : BootstrapResponse)
  | Fail (f : deploy_failure).

Section service.
Context `{Toolkit} {S : Type} `{StoreLaws S}.
(** [String(n)] of a Number that is not an integer. *)
Variable show : Z → string.
Variable config : DeployerConfig (S := S).

(** ** One bootstrap *)
Definition refused (refusal : string) (status : Z) : meth (SpendBudget S) progress :=
  meth_ret (Fail (Refused refusal status)).
Definition raised (text : string) : meth (SpendBudget S) progress := meth_ret (Fail (Raised text)).

(** [existing && existing !== "0x"] *)
Definition has_code (existing : option string) : bool :=
  match existing with Some code => negb (String.eqb code "") && negb (String.eqb code "0x") | None => false end.

(** The code from one [await] to the next; [t] is [Date.now()]. *)
Definition resume (w : stage) (t : Z) : told w → meth (SpendBudget S) progress :=
  match w with
  | reading_code => λ a,
      match a with
      | inr e => raised e
      | inl existing => meth_ret (if has_code existing then Return already_deployed else Await reading_funds)
      end
  | reading_funds => λ a,
      match a with
      | inr e => raised e
      | inl (balance, baseFee) =>
          if balance <? MIN_SPONSOR_BALANCE config then refused "sponsor_unfunded" 503
          else match baseFee with
          | None => refused "bootstrap_unavailable" 503
          | Some fee =>
              if MAX_FEE_PER_GAS config <? fee then refused "fee_too_high" 503
              else meth_ret (Await (estimating balance))
          end
      end
  | estimating balance => λ a,
      match a with
      | inr _ => refused "gas_estimate_rejected" 400
      | inl deployGas =>
          if MAX_DEPLOY_GAS config <? deployGas then refused "gas_estimate_rejected" 400
          else
            let reservation := deployGas * MAX_FEE_PER_GAS config in
            if balance <? MIN_SPONSOR_BALANCE config + reservation then refused "sponsor_unfunded" 503
            else
              do! held := reserve reservation t in
              match held with
              | None => refused "budget_exhausted" 503
              | Some h => meth_ret (Await (sending h deployGas))
              end
      end
  | sending h _ => λ a,
      match a with
      | inr e => do! _ := Budget.settle h (JBig 0) t in raised e
      | inl hash => meth_ret (Await (receiving h hash))
      end
  | receiving h hash => λ a,
      match a with
      | inr e => do! _ := Budget.settle h (JBig (hold_amount h)) t in raised e
      | inl receipt =>
          let charged := costOfReceipt show (dr_gasUsed receipt) (dr_price receipt) (dr_l1Fee receipt) (hold_amount h) in
          do! _ := Budget.settle h (JBig charged) t in
          if dr_success receipt then meth_ret (Return (deployed hash)) else refused "bootstrap_unavailable" 502
      end
  end.

(** A throw of the budget's store ends the request like any other error. *)
Definition caught (r : result progress) : progress :=
  match r with Ok p => p | Throw e => Fail (Raised (raw_text e)) end.

(** ** The service *)

(** What goes to the node, and what the chain takes for it. *)
Record Tx := { tx_to : string; tx_data : string; tx_gas : Z; tx_maxFee : Z; tx_tip : Z; tx_day : string; tx_cost : Z }.
Definition deployment_tx (v : ValidatedAccountBootstrap) (h : BudgetHold) (gas cost : Z) : Tx :=
  {| tx_to := factoryTarget v; tx_data := factoryData v; tx_gas := gas; tx_maxFee := MAX_FEE_PER_GAS config;
     tx_tip := PRIORITY_FEE_PER_GAS config; tx_day := hold_day h; tx_cost := cost |}.

Record Deploy := { dy_request : ValidatedAccountBootstrap; dy_stage : stage; dy_tx : option Tx }.
(** The state of the process; and two accounts it does not keep: the transactions it charged
    to the budget, and those the node took without the budget ever hearing of it. *)
Record Service := {
  sv_limiter : FixedWindowLimiter; sv_ledger : Run S; sv_flights : gmap string Deploy;
  charged : list Tx; unheard : list Tx;
}.
Definition hold_at (w : stage) : option BudgetHold :=
  match w with sending h _ | receiving h _ => Some h | _ => None end.
Definition deploy_hold (f : Deploy) : option BudgetHold := hold_at (dy_stage f).

(** The gas the code charges when the receipt says so; the L1 part is in no estimate. *)
Definition reports (r : DeployReceipt) (cost : Z) : Prop :=
  0 <= dr_gasUsed r ∧ 0 <= dr_price r
  ∧ ∀ fee, readReceiptFeeField show (dr_l1Fee r) = Ok fee → cost = dr_gasUsed r * dr_price r + fee.
(** The answers that the world may give, and the transaction that is then on the wire. *)
Definition world_says (v : ValidatedAccountBootstrap) (w : stage) (tx : option Tx) : told w → option Tx → Prop :=
  match w return told w → option Tx → Prop with
  | sending h gas => λ a tx',
      match a with
      | inl _ => ∃ cost, 0 <= cost ∧ tx' = Some (deployment_tx v h gas cost)
      | inr _ => tx' = None ∨ ∃ cost, 0 <= cost ∧ tx' = Some (deployment_tx v h gas cost)
      end
  | receiving _ _ => λ a tx',
      tx' = tx ∧ match a with inl r => ∀ x, tx = Some x → reports r (tx_cost x) | inr _ => True end
  | estimating _ => λ a tx', tx' = tx ∧ match a with inl gas => 0 <= gas | inr _ => True end
  | _ => λ _ tx', tx' = tx
  end.

(** Where a request's transaction goes when the request ends: to the budget's account once a
    receipt was waited for, to the unheard when the broadcast's reply was lost. *)
Definition told_hash (w : stage) : bool := match w with receiving _ _ => true | _ => false end.

(** The budget after a step, with its open holds. *)
Definition ledger_after (r : Run S) (w : stage) (a : told w) (o : result progress) (b : SpendBudget S) : Run S :=
  match w return told w → Run S with
  | estimating _ => λ _, reserved_in r b (match o with Ok (Await (sending h _)) => Some h | _ => None end)
  | sending h _ => λ a, match a with inl _ => r | inr _ => settled_in r b h 0 end
  | receiving h _ => λ a, settled_in r b h
      (match a with
       | inl rc => costOfReceipt show (dr_gasUsed rc) (dr_price rc) (dr_l1Fee rc) (hold_amount h)
       | inr _ => hold_amount h
       end)
  | _ => λ _, r
  end a.

Inductive service_step : Service → Service → Prop :=
  | request_counted s key t :
      service_step s
        {| sv_limiter := (tryConsume key t (sweep t (sv_limiter s))).2; sv_ledger := sv_ledger s;
           sv_flights := sv_flights s; charged := charged s; unheard := unheard s |}
  | request_started s input v :
      ENABLED config = true → validateAccountBootstrap input (dc_policy config) = Ok v →
      sv_flights s !! account v = None →
      service_step s
        {| sv_limiter := sv_limiter s; sv_ledger := sv_ledger s; charged := charged s; unheard := unheard s;
           sv_flights := <[account v := {| dy_request := v; dy_stage := reading_code; dy_tx := None |}]> (sv_flights s) |}
  | request_resumed s key f t a tx o b w :
      sv_flights s !! key = Some f → clock t → world_says (dy_request f) (dy_stage f) (dy_tx f) a tx →
      resume (dy_stage f) t a (bud (sv_ledger s)) = (o, b) → caught o = Await w →
      service_step s
        {| sv_limiter := sv_limiter s; sv_ledger := ledger_after (sv_ledger s) (dy_stage f) a o b;
           charged := charged s; unheard := unheard s;
           sv_flights := <[key := {| dy_request := dy_request f; dy_stage := w; dy_tx := tx |}]> (sv_flights s) |}
  | request_ended s key f t a tx o b :
      sv_flights s !! key = Some f → clock t → world_says (dy_request f) (dy_stage f) (dy_tx f) a tx →
      resume (dy_stage f) t a (bud (sv_ledger s)) = (o, b) → (∀ w, caught o ≠ Await w) →
      service_step s
        {| sv_limiter := sv_limiter s; sv_ledger := ledger_after (sv_ledger s) (dy_stage f) a o b;
           sv_flights := delete key (sv_flights s);
           charged := if told_hash (dy_stage f) then (option_list tx ++ charged s)%list else charged s;
           unheard := if told_hash (dy_stage f) then unheard s else (option_list tx ++ unheard s)%list |}
  | restarted s l t b :
      clock t → new_budget (DAILY_BUDGET config) t (store (bud (sv_ledger s))) = Ok b →
      service_step s
        {| sv_limiter := l; sv_ledger := {| bud := b; holds := []; overrun := overrun (sv_ledger s) |};
           sv_flights := ∅; charged := charged s;
           unheard := (omap (λ kf, dy_tx kf.2) (map_to_list (sv_flights s)) ++ unheard s)%list |}.
Definition service_booted : Service :=
  {| sv_limiter := dc_limiter config; sv_ledger := {| bud := dc_budget config; holds := []; overrun := ∅ |};
     sv_flights := ∅; charged := []; unheard := [] |}.

(** ** What holds of every request *)
Definition genuine (tx : Tx) : Prop := ∃ input v h gas cost,
  validateAccountBootstrap input (dc_policy config) = Ok v ∧ tx = deployment_tx v h gas cost
  ∧ 0 <= gas <= MAX_DEPLOY_GAS config.
Definition estimated (h : BudgetHold) (gas : Z) : Prop :=
  0 <= gas <= MAX_DEPLOY_GAS config ∧ hold_amount h = gas * MAX_FEE_PER_GAS config.
(** The stage of a request, its hold and its transaction belong together. *)
Definition stage_ok (v : ValidatedAccountBootstrap) (w : stage) (tx : option Tx) : Prop :=
  match w with
  | sending h gas => tx = None ∧ estimated h gas
  | receiving h _ => ∃ gas cost, tx = Some (deployment_tx v h gas cost) ∧ 0 <= cost ∧ estimated h gas
  | _ => tx = None
  end.
Definition hold_after (p : progress) : option BudgetHold := match p with Await w => hold_at w | _ => None end.

(** What the budget knows of a transaction: its cost, up to what was reserved for it. *)
Definition known_cost (tx : Tx) : Z := Z.min (tx_cost tx) (tx_gas tx * tx_maxFee tx).
Definition on_day (d : string) (l : list Tx) : Z :=
  Zsum ((λ tx, if String.eqb (tx_day tx) d then known_cost tx else 0) <$> l).
Lemma on_day_app d l l' : on_day d (l ++ l')%list = on_day d l + on_day d l'.
Proof. unfold on_day. by rewrite fmap_app, Zsum_app. Qed.
Lemma on_day_one d tx : on_day d (option_list (Some tx)) = if String.eqb (tx_day tx) d then known_cost tx else 0.
Proof. unfold on_day, Zsum. cbn. destruct (String.eqb _ _); lia. Qed.

(** The days' totals beyond the callers' overruns grow by at least [z] on the hold's day. *)
Definition charged_at_least (r r' : Run S) (day : string) (z : Z) : Prop :=
  ∀ st, store (bud r) = Some st → ∃ st', store (bud r') = Some st'
    ∧ ∀ d, DAY d = true →
        total_of d st - at_day (overrun r) d + (if String.eqb day d then z else 0)
        <= total_of d st' - at_day (overrun r') d.

Lemma settled_charges lim s0 r h charged t o b z :
  run_ok lim s0 r → clock t → h ∈ holds r → 0 <= charged → z <= Z.min charged (hold_amount h) →
  Budget.settle h (JBig charged) t (bud r) = (o, b) →
  o = Ok tt ∧ run_ok lim s0 (settled_in r b h charged) ∧ holds r ≡ₚ h :: take_off h (holds r)
  ∧ charged_at_least r (settled_in r b h charged) (hold_day h) z.
Proof.
  intros Hr Hc Hin Hch Hz Hset. destruct (run_ok_live _ _ _ Hr) as [st [Hst _]].
  destruct (settle_taken _ _ _ _ _ _ _ _ _ Hr Hc Hin Hch Hst Hset) as (-> & Hrun & Hp & st2 & Hst2 & Htot).
  split_and!; try done. intros st1 Hst1. assert (st1 = st) as -> by congruence. exists st2. split; [done|].
  intros d HD. rewrite (Htot d HD). unfold settled_in, overran. cbn [overrun bud]. rewrite at_day_insert, (String.eqb_sym (hold_day h)).
  destruct (String.eqb_spec d (hold_day h)) as [->|_]; lia.
Qed.

Lemma receipt_charge rc cost h : 0 <= hold_amount h → reports rc cost →
  let c := costOfReceipt show (dr_gasUsed rc) (dr_price rc) (dr_l1Fee rc) (hold_amount h) in
  0 <= c ∧ Z.min cost (hold_amount h) <= Z.min c (hold_amount h).
Proof.
  intros Hh (Hg & Hp & Hc). unfold costOfReceipt. destruct (readReceiptFeeField show (dr_l1Fee rc)) as [fee|] eqn:Hf.
  - rewrite (Hc fee eq_refl). apply fee_nonneg in Hf. cbn. split; [nia|lia].
  - cbn. lia.
Qed.

Lemma charged_same r r' day : bud r' = bud r ∨ store (bud r') = store (bud r) → overrun r' = overrun r → charged_at_least r r' day 0.
Proof.
  intros Hb Ho st Hst. exists st. assert (store (bud r') = Some st) by (destruct Hb as [-> | ->]; done).
  split; [done|]. intros d _. rewrite Ho. destruct (String.eqb _ _); lia.
Qed.

Definition sent_tx (v : ValidatedAccountBootstrap) (tx : option Tx) : Prop :=
  ∀ x, tx = Some x → ∃ h gas cost, x = deployment_tx v h gas cost ∧ 0 <= gas <= MAX_DEPLOY_GAS config.
Lemma stage_sent v w tx : stage_ok v w tx → sent_tx v tx.
Proof.
  intros Hs x ->. destruct w; try done; [by destruct Hs|].
  destruct Hs as (gas & cost & [= ->] & _ & Hg & _). by exists h, gas, cost.
Qed.

(** What one segment leaves: the invariant of the budget, the holds of the requests, the
    next stage or the last transaction, and what was charged. *)
Record segment_ok (lim : Z) (s0 : S) (r r' : Run S) (rest : list BudgetHold) (v : ValidatedAccountBootstrap)
    (w : stage) (tx tx' : option Tx) (p : progress) : Prop := {
  sg_run : run_ok lim s0 r';
  sg_holds : holds r' ≡ₚ (option_list (hold_after p) ++ rest)%list;
  sg_stage : ∀ w', p = Await w' → stage_ok v w' tx' ∧ told_hash w = false;
  sg_sent : sent_tx v tx';
  sg_charged : ∀ d, charged_at_least r r' d 0;
  sg_paid : told_hash w = true → tx' = tx ∧ ∀ x, tx = Some x → charged_at_least r r' (tx_day x) (known_cost x);
}.

Lemma quiet_segment lim s0 r rest v w tx p :
  run_ok lim s0 r → holds r ≡ₚ (option_list (hold_after p) ++ rest)%list → sent_tx v tx → told_hash w = false →
  (∀ w', p = Await w' → stage_ok v w' tx) → segment_ok lim s0 r r rest v w tx tx p.
Proof.
  intros Hr Hh Hs Hw Hst. split; try done.
  - intros w' E. by split; [apply Hst|].
  - intros d. apply charged_same; [by left|done].
  - by rewrite Hw.
Qed.

Lemma estimating_ok lim s0 r rest v balance tx t a tx' o b :
  0 <= MAX_FEE_PER_GAS config → run_ok lim s0 r → holds r ≡ₚ rest → tx = None → clock t →
  world_says v (estimating balance) tx a tx' → resume (estimating balance) t a (bud r) = (o, b) →
  segment_ok lim s0 r (ledger_after r (estimating balance) a o b) rest v (estimating balance) tx tx' (caught o).
Proof.
  intros Hfee Hr Hh -> Hc Hw Hrun. cbn [world_says told resume ledger_after] in *. destruct Hw as [-> Hgas].
  assert (Hsame : reserved_in r (bud r) None = r) by by destruct r.
  assert (Hno : ∀ f, segment_ok lim s0 r r rest v (estimating balance) None None (Fail f))
    by (intros f; apply quiet_segment; done).
  destruct a as [gas|e]; [|injection Hrun as <- <-; rewrite Hsame; apply Hno].
  destruct (Z.ltb_spec (MAX_DEPLOY_GAS config) gas); [injection Hrun as <- <-; rewrite Hsame; apply Hno|].
  destruct (Z.ltb_spec balance (MIN_SPONSOR_BALANCE config + gas * MAX_FEE_PER_GAS config));
    [injection Hrun as <- <-; rewrite Hsame; apply Hno|].
  unfold meth_bind in Hrun. destruct (reserve (gas * MAX_FEE_PER_GAS config) t (bud r)) as [o1 b1] eqn:Hres.
  destruct (reserve_taken _ _ _ _ _ _ _ Hr ltac:(apply Z.mul_nonneg_nonneg; [exact Hgas|exact Hfee]) Hc Hres) as (h & -> & Hrun' & Hst & Hamt).
  destruct h as [h|]; injection Hrun as <- <-; (split; try done).
  - cbn. by rewrite Hh.
  - intros w' [= <-]. split; [|done]. split; [done|]. split; [done|]. by apply Hamt.
  - intros d. apply charged_same; [by right|done].
  - intros d. apply charged_same; [by right|done].
Qed.

(** The charge of a transaction, whether or not its receipt was seen. *)
Lemma settled_segment lim s0 r rest v w tx tx' h charge t o b p :
  run_ok lim s0 r → holds r ≡ₚ (h :: rest)%list → clock t → 0 <= charge →
  Budget.settle h (JBig charge) t (bud r) = (o, b) → sent_tx v tx' → hold_after p = None → (∀ w', p ≠ Await w') →
  (told_hash w = true → tx' = tx ∧ ∀ x, tx = Some x → tx_day x = hold_day h ∧ known_cost x <= Z.min charge (hold_amount h)) →
  segment_ok lim s0 r (settled_in r b h charge) rest v w tx tx' p.
Proof.
  intros Hr Hh Hc Hch Hset Hs Hp Hno Hpaid.
  assert (Hin : h ∈ holds r) by (rewrite Hh; by left).
  assert (Hha : 0 <= hold_amount h) by (destruct Hr as (_ & Hall & _); rewrite Forall_forall in Hall; by apply Hall).
  destruct (settled_charges _ _ _ _ _ _ _ _ 0 Hr Hc Hin Hch ltac:(lia) Hset) as (_ & Hrun & Htake & Hz).
  split; try done.
  - rewrite Hp. apply (Permutation_cons_inv (a := h)). by rewrite <- Htake.
  - intros w' E. by destruct (Hno w').
  - intros d st Hst. destruct (Hz st Hst) as (st' & Hst' & Hle). exists st'. split; [done|].
    intros d' HD. specialize (Hle d' HD). destruct (String.eqb _ d'), (String.eqb d d'); lia.
  - intros Hw. destruct (Hpaid Hw) as [-> Hx]. split; [done|]. intros x E. destruct (Hx x E) as [-> Hle].
    by destruct (settled_charges _ _ _ _ _ _ _ _ _ Hr Hc Hin Hch Hle Hset) as (_ & _ & _ & ?).
Qed.

Lemma resume_ok lim s0 r rest v w tx t a tx' o b :
  0 <= MAX_FEE_PER_GAS config → run_ok lim s0 r → holds r ≡ₚ (option_list (hold_at w) ++ rest)%list →
  stage_ok v w tx → clock t → world_says v w tx a tx' → resume w t a (bud r) = (o, b) →
  segment_ok lim s0 r (ledger_after r w a o b) rest v w tx tx' (caught o).
Proof.
  intros Hfee Hr Hh Hst Hc Hw Hrun. destruct w as [| |balance|h gas|h hash].
  - cbn in Hst, Hw, Hh. subst. cbn [resume told ledger_after] in *.
    destruct a as [code|e]; injection Hrun as <- <-; apply quiet_segment; try done;
      (destruct (has_code _); [done|first [done | by intros w' [= <-]]]).
  - cbn in Hst, Hw, Hh. subst. cbn [resume told ledger_after] in *.
    assert (Hno : ∀ f, segment_ok lim s0 r r rest v reading_funds None None (Fail f)) by (intros f; by apply quiet_segment).
    destruct a as [[balance baseFee]|e]; [|injection Hrun as <- <-; apply Hno].
    destruct (balance <? _); [injection Hrun as <- <-; apply Hno|].
    destruct baseFee as [fee|]; [|injection Hrun as <- <-; apply Hno].
    destruct (_ <? fee); injection Hrun as <- <-; [apply Hno|]. apply quiet_segment; try done. by intros w' [= <-].
  - by apply (estimating_ok lim s0 r rest v balance tx t a tx' o b).
  - destruct Hst as [-> [Hg Hamt]]. cbn [resume told ledger_after world_says hold_at option_list app] in *.
    assert (Hs : sent_tx v tx').
    { intros x ->. destruct a; [destruct Hw as (cost & _ & [= ->])|destruct Hw as [?|(cost & _ & [= ->])]; [done|]];
        by exists h, gas, cost. }
    destruct a as [hash|e].
    + injection Hrun as <- <-. destruct Hw as (cost & Hcost & ->). split; try done.
      * intros w' [= <-]. split; [|done]. by exists gas, cost.
      * intros d. apply charged_same; [by left|done].
    + unfold meth_bind in Hrun. destruct (Budget.settle h (JBig 0) t (bud r)) as [o1 b1] eqn:Hset.
      assert (Hb : b = b1 ∧ hold_after (caught o) = None ∧ ∀ w', caught o ≠ Await w').
      { by destruct o1; injection Hrun as <- <-. }
      destruct Hb as (-> & Hn & Hna). by eapply settled_segment.
  - destruct Hst as (gas & cost & -> & Hcost & Hg & Hamt). cbn [resume told ledger_after world_says hold_at option_list app] in *.
    destruct Hw as [-> Hrep].
    assert (Hs : sent_tx v (Some (deployment_tx v h gas cost))) by (intros x [= <-]; by exists h, gas, cost).
    assert (Hha : 0 <= hold_amount h) by (rewrite Hamt; apply Z.mul_nonneg_nonneg; [apply Hg|done]).
    set (charge := match a with
                   | inl rc => costOfReceipt show (dr_gasUsed rc) (dr_price rc) (dr_l1Fee rc) (hold_amount h)
                   | inr _ => hold_amount h end).
    assert (Hch : 0 <= charge ∧ Z.min cost (hold_amount h) <= Z.min charge (hold_amount h)).
    { subst charge. destruct a as [rc|e]; [|lia]. by apply receipt_charge, (Hrep _ eq_refl). }
    destruct Hch as [Hch Hle].
    assert (Hset : ∃ o1, Budget.settle h (JBig charge) t (bud r) = (o1, b)
        ∧ hold_after (caught o) = None ∧ ∀ w', caught o ≠ Await w').
    { subst charge. unfold meth_bind in Hrun. destruct a as [rc|e];
        (destruct (Budget.settle h _ t (bud r)) as [o1 b1] eqn:E; exists o1; destruct o1; [|by injection Hrun as <- <-]).
      - destruct (dr_success rc); by injection Hrun as <- <-.
      - by injection Hrun as <- <-. }
    destruct Hset as (o1 & Hset & Hn & Hna). eapply settled_segment; try done.
    intros _. split; [done|]. intros x [= <-]. split; [done|]. unfold known_cost. cbn. by rewrite <- Hamt.
Qed.

(** ** What holds of the service *)
Definition in_flight_txs (m : gmap string Deploy) : list Tx := omap (λ kf, dy_tx kf.2) (map_to_list m).
(** Whatever the node took. *)
Definition broadcast_txs (s : Service) : list Tx := (charged s ++ unheard s ++ in_flight_txs (sv_flights s))%list.

Record service_ok (s0 : S) (s : Service) : Prop := {
  so_run : run_ok (DAILY_BUDGET config) s0 (sv_ledger s);
  so_holds : holds (sv_ledger s) ≡ₚ opens deploy_hold (sv_flights s);
  so_flights : ∀ k f, sv_flights s !! k = Some f →
    k = account (dy_request f) ∧ (∃ input, validateAccountBootstrap input (dc_policy config) = Ok (dy_request f))
    ∧ stage_ok (dy_request f) (dy_stage f) (dy_tx f);
  so_genuine : Forall genuine (charged s ++ unheard s)%list;
  so_days : ∀ st, store (bud (sv_ledger s)) = Some st → ∀ d, DAY d = true →
    total_of d s0 + on_day d (charged s) <= total_of d st - at_day (overrun (sv_ledger s)) d;
}.

Lemma sent_genuine v tx input :
  validateAccountBootstrap input (dc_policy config) = Ok v → sent_tx v tx → Forall genuine (option_list tx).
Proof.
  intros Hv Hs. destruct tx as [x|]; [|constructor]. constructor; [|constructor].
  destruct (Hs x eq_refl) as (h & gas & cost & -> & Hg). by exists input, v, h, gas, cost.
Qed.
Lemma days_kept s0 r r' l d0 :
  charged_at_least r r' d0 0 →
  (∃ st, store (bud r) = Some st) →
  (∀ st, store (bud r) = Some st → ∀ d, DAY d = true → total_of d s0 + on_day d l <= total_of d st - at_day (overrun r) d) →
  ∀ st, store (bud r') = Some st → ∀ d, DAY d = true → total_of d s0 + on_day d l <= total_of d st - at_day (overrun r') d.
Proof.
  intros Hch [st Hst] Hd st' Hst' d HD. destruct (Hch st Hst) as (st1 & E & Hle). assert (st1 = st') as -> by congruence.
  specialize (Hle d HD). specialize (Hd st Hst d HD). destruct (String.eqb d0 d); lia.
Qed.

Lemma answered_segment s0 s key f t a tx o b :
  0 <= MAX_FEE_PER_GAS config → service_ok s0 s → sv_flights s !! key = Some f → clock t →
  world_says (dy_request f) (dy_stage f) (dy_tx f) a tx → resume (dy_stage f) t a (bud (sv_ledger s)) = (o, b) →
  segment_ok (DAILY_BUDGET config) s0 (sv_ledger s) (ledger_after (sv_ledger s) (dy_stage f) a o b)
    (opens deploy_hold (delete key (sv_flights s))) (dy_request f) (dy_stage f) (dy_tx f) tx (caught o).
Proof.
  intros Hfee [Hr Hh Hf _ _] Hk Hc Hw Hrun. destruct (Hf key f Hk) as (_ & _ & Hst).
  eapply resume_ok; try done. rewrite Hh. exact (opens_at deploy_hold _ _ _ Hk).
Qed.

Lemma paid_days s0 r r' w tx tx' l (p : progress) rest v lim :
  segment_ok lim s0 r r' rest v w tx tx' p → told_hash w = true → (∃ st, store (bud r) = Some st) →
  (∀ st, store (bud r) = Some st → ∀ d, DAY d = true → total_of d s0 + on_day d l <= total_of d st - at_day (overrun r) d) →
  ∀ st, store (bud r') = Some st → ∀ d, DAY d = true →
    total_of d s0 + on_day d (option_list tx' ++ l)%list <= total_of d st - at_day (overrun r') d.
Proof.
  intros Hsg Hw [st Hst] Hd. destruct (sg_paid _ _ _ _ _ _ _ _ _ _ Hsg Hw) as [-> Hpaid].
  destruct tx as [x|]; [|eapply days_kept; [exact (sg_charged _ _ _ _ _ _ _ _ _ _ Hsg "")|by exists st|done]].
  intros st' Hst' d HD. destruct (Hpaid x eq_refl st Hst) as (st1 & E & Hle). assert (st1 = st') as -> by congruence.
  specialize (Hle d HD). specialize (Hd st Hst d HD). rewrite on_day_app, on_day_one. lia.
Qed.

Lemma service_step_ok s0 s s' :
  0 <= MAX_FEE_PER_GAS config → 0 < DAILY_BUDGET config → service_step s s' → service_ok s0 s → service_ok s0 s'.
Proof.
  intros Hfee Hpos Hstep Hok.
  assert (Hlive : ∃ st, store (bud (sv_ledger s)) = Some st).
  { destruct (run_ok_live _ _ _ (so_run _ _ Hok)) as [st [Hst _]]. by exists st. }
  destruct Hstep as [s key t|s input v He Hv Hn|s key f t a tx o b w Hk Hc Hw Hrun Ho|s key f t a tx o b Hk Hc Hw Hrun Ho|s l t b Hc Hb].
  - by destruct Hok.
  - destruct Hok as [Hr Hh Hf Hg Hd]. split; cbn [sv_ledger sv_flights charged unheard]; try done.
    + by rewrite opens_new.
    + intros k f [[<- <-]|[_ Hf']]%lookup_insert_Some; [|by apply Hf]. split_and!; [done|by exists input|done].
  - pose proof (answered_segment _ _ _ _ _ _ _ _ _ Hfee Hok Hk Hc Hw Hrun) as Hsg.
    destruct Hok as [Hr Hh Hf Hg Hd]. destruct (Hf _ _ Hk) as (Hkey & Hin & _).
    destruct (sg_stage _ _ _ _ _ _ _ _ _ _ Hsg w Ho) as [Hst _].
    split; cbn [sv_ledger sv_flights charged unheard]; [by destruct Hsg| | |done|].
    + rewrite (sg_holds _ _ _ _ _ _ _ _ _ _ Hsg), Ho. by rewrite opens_moved.
    + intros k f' [[<- <-]|[_ Hf']]%lookup_insert_Some; [|by apply Hf]. by split_and!.
    + eapply days_kept; [exact (sg_charged _ _ _ _ _ _ _ _ _ _ Hsg "")|done..].
  - pose proof (answered_segment _ _ _ _ _ _ _ _ _ Hfee Hok Hk Hc Hw Hrun) as Hsg.
    destruct Hok as [Hr Hh Hf Hg Hd]. destruct (Hf _ _ Hk) as (Hkey & [input Hin] & _).
    pose proof (sent_genuine _ _ _ Hin (sg_sent _ _ _ _ _ _ _ _ _ _ Hsg)) as Htx.
    assert (Hn : hold_after (caught o) = None) by (destruct (caught o) as [w| |]; [by destruct (Ho w)|done..]).
    split; cbn [sv_ledger sv_flights charged unheard]; [by destruct Hsg| | | |].
    + rewrite (sg_holds _ _ _ _ _ _ _ _ _ _ Hsg), Hn. done.
    + intros k f' [_ Hf']%lookup_delete_Some. by apply Hf.
    + destruct (told_hash (dy_stage f)); rewrite ?Forall_app in *; naive_solver.
    + destruct (told_hash (dy_stage f)) eqn:Ht; [by eapply paid_days|].
      eapply days_kept; [exact (sg_charged _ _ _ _ _ _ _ _ _ _ Hsg "")|done..].
  - destruct Hok as [Hr Hh Hf Hg Hd]. split; cbn [sv_ledger sv_flights charged unheard bud overrun holds].
    + eapply budget_step_ok; [exact Hpos|exact Hr|]. eapply step_restart; [done|].
      destruct Hr as [-> _]. exact Hb.
    + done.
    + intros k f Hk. by rewrite lookup_empty in Hk.
    + rewrite Forall_app in *. destruct Hg as [Hg1 Hg2]. split; [done|]. apply Forall_app. split; [|done].
      apply Forall_forall. intros x ([k f] & Hkf & Hx)%list_elem_of_omap. apply elem_of_map_to_list in Hkf.
      destruct (Hf k f Hkf) as (_ & [input Hin] & Hst). pose proof (sent_genuine _ _ _ Hin (stage_sent _ _ _ Hst)) as Hgen.
      cbn [snd] in Hx. rewrite Hx in Hgen. by apply Forall_cons in Hgen as [? _].
    + intros st Hst. apply Hd. unfold new_budget in Hb. inv_tx. exact Hst.
Qed.

Lemma service_booted_ok s0 t :
  store_ok s0 → clock t → new_budget (DAILY_BUDGET config) t (Some s0) = Ok (dc_budget config) →
  0 < DAILY_BUDGET config ∧ service_ok s0 service_booted.
Proof.
  intros Hs Hc Hb. destruct (new_budget_ok _ _ _ _ Hs Hc Hb) as [Hpos Hr]. split; [done|].
  assert (E : store (dc_budget config) = Some s0).
  { unfold new_budget in Hb. inv_tx. match goal with H : _ = dc_budget config |- _ => by rewrite <- H end. }
  split; cbn; try done. intros st Hst d HD. rewrite E in Hst. injection Hst as ->. change (on_day d []) with 0. unfold at_day. rewrite lookup_empty. cbn. lia.
Qed.

Lemma service_reachable_ok s0 t s :
  0 <= MAX_FEE_PER_GAS config → store_ok s0 → clock t →
  new_budget (DAILY_BUDGET config) t (Some s0) = Ok (dc_budget config) →
  star service_step service_booted s → service_ok s0 s.
Proof.
  intros Hfee Hs Hc Hb. destruct (service_booted_ok _ _ Hs Hc Hb) as [Hpos Hinit]. revert Hinit.
  apply star_invariant. intros x y Hx Hxy. by apply (service_step_ok s0 x y).
Qed.

Lemma in_flight_weight d m : on_day d (in_flight_txs m) = weight (λ f, on_day d (option_list (dy_tx f))) m.
Proof.
  unfold in_flight_txs, weight. induction (map_to_list m) as [|[k f] l IH]; [done|].
  cbn [omap list_omap fmap list_fmap snd] in *. rewrite Zsum_cons, <- IH. destruct (dy_tx f) as [x|]; [|done].
  by rewrite <- on_day_app.
Qed.
Lemma in_flight_held s0 s d : 0 <= MAX_FEE_PER_GAS config → service_ok s0 s →
  on_day d (in_flight_txs (sv_flights s)) <= held_on d (holds (sv_ledger s)).
Proof.
  intros Hfee [_ Hh Hf _ _]. rewrite in_flight_weight, (held_on_perm d _ _ Hh). apply weight_held. intros k f Hk.
  destruct (Hf k f Hk) as (_ & _ & Hst). unfold deploy_hold.
  destruct (dy_stage f) as [| |balance|h gas|h hash]; cbn [stage_ok hold_at] in *; try (by rewrite Hst).
  - destruct Hst as [-> [Hg ->]]. change (on_day d (option_list None)) with 0.
    pose proof (Z.mul_nonneg_nonneg gas _ (proj1 Hg) Hfee). destruct (String.eqb _ _); lia.
  - destruct Hst as (gas & cost & -> & Hcost & Hg & ->). rewrite on_day_one. unfold known_cost. cbn.
    destruct (String.eqb _ _); lia.
Qed.


(** The service deploys for owners only. Over every history, each transaction the node
    took - charged, in flight, or never heard of again - is the factory call that deploys
    the account of an owner whose own signature over a root delegation was in a request, sent
    to the factory of the pinned deployment, within the configured gas and fee; requests for
    one account share one run. *)
Theorem only_owners_deploys s0 t s :
  0 <= MAX_FEE_PER_GAS config → store_ok s0 → clock t →
  new_budget (DAILY_BUDGET config) t (Some s0) = Ok (dc_budget config) →
  star service_step service_booted s →
  (∀ tx, tx ∈ broadcast_txs s → ∃ ctx d o,
     proves (dc_policy config) ctx d o
     ∧ tx_to tx = getAddress (SimpleFactory (environment (dc_policy config)))
     ∧ tx_data tx = (counterfactual (getAddress o)).2
     ∧ getAddress (counterfactual (getAddress o)).1 = getAddress (delegator d)
     ∧ 0 <= tx_gas tx <= MAX_DEPLOY_GAS config ∧ tx_maxFee tx = MAX_FEE_PER_GAS config
     ∧ tx_tip tx = PRIORITY_FEE_PER_GAS config)
  ∧ ∀ k f, sv_flights s !! k = Some f → account (dy_request f) = k.
Proof.
  intros Hfee Hs Hc Hb Hstar. pose proof (service_reachable_ok _ _ _ Hfee Hs Hc Hb Hstar) as Hok.
  destruct Hok as [_ _ Hf Hg _]. split; [|intros k f Hk; by destruct (Hf k f Hk) as [-> _]].
  intros tx Htx. assert (Hgen : genuine tx).
  { unfold broadcast_txs in Htx. rewrite app_assoc, elem_of_app in Htx. destruct Htx as [Htx|Htx].
    - rewrite Forall_forall in Hg. by apply Hg.
    - apply list_elem_of_omap in Htx as ([k f] & Hkf & Hx). apply elem_of_map_to_list in Hkf.
      destruct (Hf k f Hkf) as (_ & [input Hin] & Hst). pose proof (sent_genuine _ _ _ Hin (stage_sent _ _ _ Hst)) as Hgen.
      cbn [snd] in Hx. rewrite Hx in Hgen. by apply Forall_cons in Hgen as [? _]. }
  destruct Hgen as (input & v & h & gas & cost & Hv & -> & Hgas).
  apply bootstrap_only_for_owner in Hv as (ctx & o & _ & _ & Hp & Hv). exists ctx, (delegation v), o.
  split; [exact Hp|]. rewrite Hv. cbn. split_and!; try done; try apply Hgas. apply Hp.
Qed.

(** A run ends: five answers are enough, whatever they are. *)
Definition stages_left (w : stage) : nat :=
  match w with reading_code => 5 | reading_funds => 4 | estimating _ => 3 | sending _ _ => 2 | receiving _ _ => 1 end.
Ltac destruct_settle :=
  match goal with |- context [Budget.settle ?h ?z ?t ?b] => destruct (Budget.settle h z t b) as [[u|e'] b'] end.
Lemma resume_ends w t a b : match caught (resume w t a b).1 with
                            | Await w' => (stages_left w' < stages_left w)%nat
                            | _ => True end.
Proof.
  destruct w as [| |balance|h gas|h hash]; cbn [resume told] in *.
  - destruct a as [code|e]; [|done]. cbn. destruct (has_code code); cbn; [done|lia].
  - destruct a as [[balance [fee|]]|e]; cbn; [|by destruct (_ <? _)|done].
    destruct (_ <? _); [done|]. destruct (_ <? _); cbn; [done|lia].
  - destruct a as [gas|e]; [|done]. cbn. destruct (_ <? _); [done|]. destruct (_ <? _); [done|].
    unfold meth_bind. destruct (reserve _ _ b) as [[[h|]|e] b']; cbn; [lia|done|done].
  - destruct a as [hash|e]; [cbn; lia|]. unfold meth_bind. destruct_settle; done.
  - destruct a as [rc|e]; unfold meth_bind; destruct_settle; try done. by destruct (dr_success rc).
Qed.

(** ** The route *)
Definition MAX_BODY_CHARACTERS : Z := 150000.
Record BootstrapRequest := {
  rq_origin : option string; connecting_ip : option string; content_type : option string; body_text : result string;
}.
Record BootstrapReply := { status : Z; headers : list (string * string); json : jsval }.

Definition refuse (reason : string) (status : Z) : BootstrapReply :=
  {| status := status; headers := []; json := JObj [("network", JStr GIWA_SEPOLIA_CAIP2); ("reason", JStr reason)] |}.
Definition readJson (r : BootstrapRequest) : result jsval :=
  throws negb (startsWith "application/json" (toLowerCase (default "" (content_type r)))) with
    Error "content-type must be JSON";
  let? text := body_text r in
  throws (slen text =? 0) || (MAX_BODY_CHARACTERS <? slen text) with
    Error "request body is empty or too large";
  parse (chars text).

(** Loopback is not counted: a request without [CF-Connecting-IP] did not cross the tunnel. *)
Definition count_request (r : BootstrapRequest) (time : Z) (l : FixedWindowLimiter) : bool * FixedWindowLimiter :=
  match connecting_ip r with
  | None => (true, sweep time l)
  | Some ip => tryConsume ("ip:" ++ ipBucket ip) time (sweep time l)
  end.
(** The head of [POST /bootstrap]: the request to run under its account, or the refusal. *)
Definition admit_request (r : BootstrapRequest) (counted : bool) : BootstrapReply + ValidatedAccountBootstrap :=
  if negb (ENABLED config) then inl (refuse "bootstrap_disabled" 503)
  else if negb counted then inl (refuse "rate_limited" 429)
  else match (let? doc := readJson r in validateAccountBootstrap doc (dc_policy config)) with
       | Throw _ => inl (refuse "malformed_request" 400)
       | Ok v => inr v
       end.
Definition reply_of (v : ValidatedAccountBootstrap) (p : BootstrapResponse + deploy_failure) : BootstrapReply :=
  match p with
  | inl r =>
      {| status := 200; headers := [];
         json := JObj ([("status", JStr (match r with deployed _ => "deployed" | already_deployed => "already_deployed" end));
                        ("account", JStr (account v))]
                       ++ match r with deployed tx => [("transaction", JStr tx)] | already_deployed => [] end
                       ++ [("network", JStr GIWA_SEPOLIA_CAIP2)]) |}
  | inr (Refused refusal status) => refuse refusal status
  | inr (Raised _) => refuse "bootstrap_unavailable" 502
  end.
(** The middleware around every route; [OPTIONS /bootstrap] has its own answer inside it. *)
Definition with_headers (h : list (string * string)) (r : BootstrapReply) : BootstrapReply :=
  {| status := status r; headers := (headers r ++ h)%list; json := json r |}.
Definition cors (origin : option string) (reply : BootstrapReply) : BootstrapReply :=
  match judgeCorsRequest origin (allowedOrigins config) false with
  | cors_refused => refuse "origin_refused" 403
  | cors_allowed h =>
      with_headers ([("Cache-Control", "no-store"); ("X-Content-Type-Options", "nosniff")] ++ h)%list reply
  end.
Definition preflight (origin : option string) : BootstrapReply :=
  match judgeCorsRequest origin (allowedOrigins config) true with
  | cors_refused => {| status := 403; headers := []; json := JNull |}
  | cors_allowed h => {| status := 204; headers := h; json := JNull |}
  end.
Definition health (now : Z) (l : FixedWindowLimiter) : meth (SpendBudget S) jsval :=
  do! remaining := remaining now in
  do! spent := spentToday now in
  meth_ret (JObj [("ok", JBool (ENABLED config)); ("enabled", JBool (ENABLED config));
    ("network", JStr GIWA_SEPOLIA_CAIP2); ("sponsor", JStr (dc_sponsor config));
    ("rateLimiterKeys", JNum (limiter_size (sweep now l)));
    ("budgetRemainingWei", JStr (show_Z remaining)); ("spentTodayWei", JStr (show_Z spent))]).

(** [BootstrapRefusal], each word with the statuses it is sent with. *)
Definition BOOTSTRAP_ANSWERS : list (string * Z) :=
  [("origin_refused", 403); ("bootstrap_disabled", 503); ("malformed_request", 400); ("rate_limited", 429);
   ("budget_exhausted", 503); ("sponsor_unfunded", 503); ("fee_too_high", 503); ("gas_estimate_rejected", 400);
   ("bootstrap_unavailable", 502); ("bootstrap_unavailable", 503)].
Definition closed (r : BootstrapReply) : Prop :=
  ∃ word, (word, status r) ∈ BOOTSTRAP_ANSWERS
    ∧ json r = JObj [("network", JStr GIWA_SEPOLIA_CAIP2); ("reason", JStr word)].
Definition ended_as (p : progress) : option (BootstrapResponse + deploy_failure) :=
  match p with Await _ => None | Return r => Some (inl r) | Fail f => Some (inr f) end.

Lemma refuse_closed word status : (word, status) ∈ BOOTSTRAP_ANSWERS → closed (refuse word status).
Proof. intros Hin. by exists word. Qed.
Lemma cors_closed origin r : closed r → closed (cors origin r).
Proof.
  intros Hr. unfold cors. destruct (judgeCorsRequest _ _ _); [|exact Hr]. apply refuse_closed. cbv. set_solver.
Qed.
Definition listed (p : progress) : Prop :=
  match p with Fail (Refused word status) => (word, status) ∈ BOOTSTRAP_ANSWERS | _ => True end.
Lemma resume_listed w t a b : listed (caught (resume w t a b).1).
Proof.
  destruct w as [| |balance|h gas|h hash]; cbn [resume told] in *.
  - destruct a as [code|e]; [|done]. cbn. by destruct (has_code code).
  - destruct a as [[balance [fee|]]|e]; cbn; [| |done];
      repeat (destruct (_ <? _); [by repeat constructor|]); by repeat constructor.
  - destruct a as [gas|e]; cbn; [|by repeat constructor]. repeat (destruct (_ <? _); [by repeat constructor|]).
    unfold meth_bind. destruct (reserve _ _ b) as [[[h|]|e] b']; [done|by repeat constructor|done].
  - destruct a as [hash|e]; [done|]. unfold meth_bind. by destruct_settle.
  - destruct a as [rc|e]; unfold meth_bind; destruct_settle; try done. destruct (dr_success rc); [done|by repeat constructor].
Qed.

(** The service answers from a closed list. Whatever is posted and whatever the chain, the
    node and the store answer, a reply is a success naming the account that was asked for, or
    a body of the network and one word of the list, with that word's status: no reply carries
    an error's message, and a success says so only at the end of a run. *)
Theorem deployer_answers_are_closed r counted :
  match admit_request r counted with
  | inl reply => closed (cors (rq_origin r) reply)
  | inr v => ENABLED config = true ∧ counted = true ∧ ∀ w t a b,
      match ended_as (caught (resume w t a b).1) with
      | None => True
      | Some (inr f) => closed (cors (rq_origin r) (reply_of v (inr f)))
      | Some (inl response) =>
          let reply := cors (rq_origin r) (reply_of v (inl response)) in
          closed reply
          ∨ status reply = 200 ∧ prop (json reply) "account" = JStr (account v)
            ∧ prop (json reply) "transaction"
              = match response with deployed tx => JStr tx | already_deployed => JUndefined end
            ∧ ("Cache-Control", "no-store") ∈ headers reply
      end
  end.
Proof.
  unfold admit_request. destruct (ENABLED config); cbn [negb]; [|by apply cors_closed, refuse_closed; repeat constructor].
  destruct counted; cbn [negb]; [|by apply cors_closed, refuse_closed; repeat constructor].
  destruct (rbind _ _) as [v|e]; [|by apply cors_closed, refuse_closed; repeat constructor].
  split_and!; [done|done|]. intros w t a b. pose proof (resume_listed w t a b) as Hl.
  destruct (caught (resume w t a b).1) as [w'|response|f]; cbn [ended_as]; [done| |].
  - unfold cors. destruct (judgeCorsRequest _ _ _) as [|h]; [left; apply refuse_closed; repeat constructor|].
    right. split; [done|]. destruct response; cbn; (split_and!; [done|done|]); by left.
  - apply cors_closed. destruct f as [word st|e]; [by apply refuse_closed|apply refuse_closed; by repeat constructor].
Qed.

(** *** A run, as a function *)
Definition takes (f : Deploy) (world : ∀ w, told w) (cost : Z) : option Tx :=
  match dy_stage f with
  | sending h gas => match world (sending h gas) with
                     | inl _ => Some (deployment_tx (dy_request f) h gas cost)
                     | inr _ => None
                     end
  | _ => dy_tx f
  end.
(** The chain takes one price for a transaction. *)
Definition same_cost (f : Deploy) (cost : Z) : bool :=
  match dy_tx f with Some x => tx_cost x =? cost | None => true end.
Definition advance (world : ∀ w, told w) (cost t : Z) (key : string) (s : Service) : option Service :=
  match sv_flights s !! key with
  | None => None
  | Some f =>
      let w := dy_stage f in
      let tx := takes f world cost in
      if negb (same_cost f cost) then None else
      let '(o, b) := resume w t (world w) (bud (sv_ledger s)) in
      let after flights paid lost :=
        {| sv_limiter := sv_limiter s; sv_ledger := ledger_after (sv_ledger s) w (world w) o b;
           sv_flights := flights; charged := paid; unheard := lost |} in
      Some match caught o with
           | Await w' => after (<[key := {| dy_request := dy_request f; dy_stage := w'; dy_tx := tx |}]> (sv_flights s))
                           (charged s) (unheard s)
           | _ => after (delete key (sv_flights s))
                    (if told_hash w then (option_list tx ++ charged s)%list else charged s)
                    (if told_hash w then unheard s else (option_list tx ++ unheard s)%list)
           end
  end.
Lemma advance_step (world : ∀ w, told w) cost t key s s' :
  clock t → 0 <= cost → (∀ balance gas, world (estimating balance) = inl gas → 0 <= gas) →
  (∀ h hash (rc : DeployReceipt), world (receiving h hash) = inl rc → reports rc cost) →
  advance world cost t key s = Some s' → service_step s s'.
Proof.
  intros Hc Hcost Hgas Hrep. unfold advance. destruct (sv_flights s !! key) as [f|] eqn:Hf; [|done].
  destruct (same_cost f cost) eqn:Hsame; [|done]. cbn [negb].
  assert (Hw : world_says (dy_request f) (dy_stage f) (dy_tx f) (world (dy_stage f)) (takes f world cost)).
  { unfold takes. destruct (dy_stage f) as [| |balance|h gas|h hash]; cbn; try done.
    - split; [done|]. destruct (world (estimating balance)) eqn:E; [by eapply Hgas|done].
    - destruct (world (sending h gas)); [by exists cost|by left].
    - split; [done|]. destruct (world (receiving h hash)) eqn:E; [|done]. intros x Hx.
      unfold same_cost in Hsame. rewrite Hx in Hsame. apply Z.eqb_eq in Hsame as ->. by eapply Hrep. }
  destruct (resume _ _ _ _) as [o b] eqn:Hrun. intros [= <-].
  destruct (caught o) as [w'| |] eqn:Ho; [by eapply request_resumed|..];
    (eapply request_ended; [done..|intros w'; by rewrite Ho]).
Qed.
End service.

(** ** Witnesses *)
#[local] Instance ex_deploy_toolkit : Toolkit := Bootstrap.ex_toolkit (Bootstrap.ex_signature "005" "1b").
#[local] Instance ex_deploy_store : BudgetStore budgets := series_store "sponsor".
#[local] Instance ex_deploy_laws : StoreLaws budgets := series_laws "sponsor".
Definition ex_deploy_budget : SpendBudget budgets :=
  {| dailyLimitWei := 500000000000000; spent := 0; reserved := 0; day := "2024-02-29"; store := Some ∅ |}.
Definition ex_deploy_config : DeployerConfig (S := budgets) :=
  {| dc_bound := ("127.0.0.1", 8083, "https://rpc/"); ENABLED := true; dc_sponsor := "0x01"; dc_policy := Bootstrap.ex_policy;
     MAX_DEPLOY_GAS := 250000; MAX_FEE_PER_GAS := 50000000; PRIORITY_FEE_PER_GAS := 1000000;
     MIN_SPONSOR_BALANCE := 1000000000000; DAILY_BUDGET := 500000000000000; RECEIPT_TIMEOUT_MS := 60000;
     dc_idleTimeout := 75; dc_store := "./data/bootstrap.sqlite"; dc_budget := ex_deploy_budget;
     dc_limiter := {| limit := 30; windowMs := 3600000; hits := ∅ |}; allowedOrigins := SPONSORED_BROWSER_ORIGINS |}.
Definition ex_now_ms : Z := 1709164800000.

(** A chain on which the deployment costs 189374 gas at 1000266 wei. *)
Definition ex_chain (w : stage) : told w :=
  match w with
  | reading_code => inl None
  | reading_funds => inl (1000000000000000000, Some 267)
  | estimating _ => inl 189374
  | sending _ _ => inl "0xaa"
  | receiving _ _ => inl {| dr_success := true; dr_gasUsed := 189374; dr_price := 1000266; dr_l1Fee := JUndefined |}
  end.
Definition ex_cost : Z := 189374 * 1000266.
Definition ex_asked (v : ValidatedAccountBootstrap) : Service :=
  let s := service_booted ex_deploy_config in
  {| sv_limiter := sv_limiter s; sv_ledger := sv_ledger s; charged := []; unheard := [];
     sv_flights := <[account v := {| dy_request := v; dy_stage := reading_code; dy_tx := None |}]> (sv_flights s) |}.
Fixpoint advances (n : nat) (key : string) (s : Service (S := budgets)) : option Service :=
  match n with
  | O => Some s
  | Datatypes.S n =>
      match advance show_Z ex_deploy_config ex_chain ex_cost ex_now_ms key s with
      | Some s' => advances n key s'
      | None => None
      end
  end.
Lemma ex_clock_now : clock ex_now_ms.
Proof. vm_compute. split; discriminate. Qed.
Lemma advances_star n key s s' : advances n key s = Some s' →
  star (service_step show_Z ex_deploy_config) s s'.
Proof.
  revert s. induction n as [|n IH]; intros s; cbn [advances]; [intros [= <-]; constructor|].
  destruct (advance _ _ _ _ _ _ _) as [s1|] eqn:E; [|done]. intros Hn.
  eapply star_trans; [eapply star_step; [constructor|]|by apply IH].
  apply (advance_step show_Z ex_deploy_config ex_chain ex_cost ex_now_ms key s s1); [apply ex_clock_now|done| | |exact E].
  - by intros balance gas [= <-].
  - intros h hash rc [= <-]. split_and!; try done. by intros fee [= <-].
Qed.

Definition ex_validated : result ValidatedAccountBootstrap :=
  validateAccountBootstrap Bootstrap.ex_request (dc_policy ex_deploy_config).
Definition ex_deployed : option Service :=
  match ex_validated with Ok v => advances 5 (account v) (ex_asked v) | Throw _ => None end.
Lemma ex_deployed_reached s : ex_deployed = Some s →
  star (service_step show_Z ex_deploy_config) (service_booted ex_deploy_config) s.
Proof.
  unfold ex_deployed. destruct ex_validated as [v|] eqn:Hv; [|done]. intros Hs%advances_star.
  eapply star_trans; [|exact Hs]. eapply star_step; [constructor|].
  by apply (request_started show_Z ex_deploy_config (service_booted ex_deploy_config) Bootstrap.ex_request v).
Qed.
Lemma ex_booted : new_budget (DAILY_BUDGET ex_deploy_config) ex_now_ms (Some ∅) = Ok (dc_budget ex_deploy_config).
Proof. vm_compute. reflexivity. Qed.
Lemma ex_empty_ok : store_ok (∅ : budgets).
Proof. intros k v Hk. by rewrite lookup_empty in Hk. Qed.
Lemma ex_one_charged :
  match ex_deployed with
  | Some s => on_day "2024-02-29" (charged s) = ex_cost ∧ Datatypes.length (charged s) = 1%nat
  | None => False
  end.
Proof. vm_compute. split; reflexivity. Qed.


Lemma only_owners_deploys_witness :
  ∃ s tx, ex_deployed = Some s ∧ tx ∈ broadcast_txs s ∧ tx_data tx = "0xfac"
    ∧ ∃ ctx d o, proves Bootstrap.ex_policy ctx d o ∧ tx_data tx = (counterfactual (getAddress o)).2.
Proof.
  assert (Hd : match ex_deployed with Some s => match charged s with [tx] => tx_data tx = "0xfac" | _ => False end
               | None => False end) by (vm_compute; reflexivity).
  destruct ex_deployed as [s|] eqn:Hs; [|exact (False_ind _ Hd)].
  destruct (charged s) as [|tx [|]] eqn:Hc; [exact (False_ind _ Hd)| |exact (False_ind _ Hd)].
  assert (Hin : tx ∈ broadcast_txs s) by (unfold broadcast_txs; rewrite Hc; apply elem_of_app; left; by left).
  exists s, tx. split; [reflexivity|]. split; [exact Hin|]. split; [exact Hd|].
  destruct (proj1 (only_owners_deploys show_Z ex_deploy_config ∅ ex_now_ms s ltac:(vm_compute; discriminate) ex_empty_ok
    ex_clock_now ex_booted (ex_deployed_reached s Hs)) tx Hin) as (ctx & d & o & Hp & _ & Ht & _).
  exists ctx, d, o. split; [exact Hp|exact Ht].
Defined.

(** A broadcast whose reply is lost costs the budget nothing: the node took it, the chain
    takes its price, and the day's total, the ceiling and the open holds know nothing of it. *)
Definition ex_sending : option Service := match ex_validated with Ok v => advances 3 (account v) (ex_asked v) | Throw _ => None end.
Definition ex_lost (s : Service (S := budgets)) (key : string) (f : Deploy) (h : BudgetHold) (gas : Z) : Service (S := budgets) :=
  let b := (Budget.settle h (JBig 0) ex_now_ms (bud (sv_ledger s))).2 in
  {| sv_limiter := sv_limiter s; sv_ledger := settled_in (sv_ledger s) b h 0;
     sv_flights := delete key (sv_flights s); charged := charged s;
     unheard := deployment_tx ex_deploy_config (dy_request f) h gas ex_cost :: unheard s |}.
Lemma lost_reply_is_free :
  ∃ s, star (service_step show_Z ex_deploy_config) (service_booted ex_deploy_config) s
    ∧ on_day "2024-02-29" (unheard s) = ex_cost ∧ holds (sv_ledger s) = []
    ∧ match store (bud (sv_ledger s)) with Some st => total_of "2024-02-29" st = 0 | None => False end.
Proof.
  assert (Hd : match ex_sending with
    | Some s => match sv_flights s !! ex_payer with
                | Some f => match dy_stage f with
                    | sending h gas => let s' := ex_lost s ex_payer f h gas in
                        (Budget.settle h (JBig 0) ex_now_ms (bud (sv_ledger s))).1 = Ok tt
                        ∧ on_day "2024-02-29" (unheard s') = ex_cost ∧ holds (sv_ledger s') = []
                        ∧ match store (bud (sv_ledger s')) with Some st => total_of "2024-02-29" st = 0 | None => False end
                    | _ => False end
                | None => False end
    | None => False end) by (vm_compute; repeat split).
  unfold ex_sending in Hd. destruct ex_validated as [v|] eqn:Hv; [|done].
  destruct (advances 3 (account v) (ex_asked v)) as [s|] eqn:Hs; [|done].
  destruct (sv_flights s !! _) as [f|] eqn:Hf; [|done]. destruct (dy_stage f) as [| | |h gas|] eqn:Hst; try done.
  destruct Hd as (Hset & Hrest). eexists. split; [|exact Hrest].
  eapply star_step; [eapply star_trans; [|by eapply advances_star]|].
  { eapply star_step; [constructor|].
    by apply (request_started show_Z ex_deploy_config (service_booted ex_deploy_config) Bootstrap.ex_request v). }
  pose proof (request_ended show_Z ex_deploy_config s ex_payer f ex_now_ms) as Hend. rewrite Hst in Hend.
  destruct (Budget.settle h (JBig 0) ex_now_ms (bud (sv_ledger s))) as [o b] eqn:Hrun. cbn [fst] in Hset. subst o.
  specialize (Hend (inr "timeout") (Some (deployment_tx ex_deploy_config (dy_request f) h gas ex_cost)) (Ok (Fail (Raised "timeout"))) b Hf
    ex_clock_now). unfold ex_lost. rewrite Hrun. apply Hend.
  - right. by exists ex_cost.
  - cbn [resume]. unfold meth_bind. by rewrite Hrun.
  - done.
Qed.
