(* ===== verification/Purchases.v ===== *)
(** * Buying a game ticket

    [createPayments] of apps/arcade-service/payments.ts: the purchase of a ticket over the
    admissions ([Admissions]), the orders ([Catalog]) and the settlement journal
    ([Settlement]), through the payment client ([PaymentClient]) and the service's own
    paywall ([Paywall]).  A purchase is a function over an arbitrary world [W]: its effects
    are arguments, so other purchases may move the tables at every [await]. *)

From Stdlib Require Import ZArith Lia Ascii String.
From stdpp Require Import base gmap strings list fin_maps.
From S2P Require Import Prelude Validate Ledger Settlement Catalog Identifiers Admissions Token Toolkit Contract X402 Json Codec Errors Redact Gate PaymentClient Seller Paywall Runner.
Open Scope string_scope.
Open Scope Z_scope.

Definition ARCADE_TICKET_PRICE : string := "1.00".
Definition ARCADE_TICKET_AMOUNT : Z := 1000000.
Example ticket_amount : toTokenAmount ARCADE_TICKET_PRICE = Ok ARCADE_TICKET_AMOUNT.
Proof. vm_compute. reflexivity. Qed.

Definition SLUG : string := "mapae-arcade".
Definition BASE : string := "http://127.0.0.1:3004".
Definition game_name (g : ArcadeGame) : string :=
  match g with Admissions.stamp => "stamp" | Admissions.race => "race" | Admissions.shop => "shop" end.

(** What a purchase throws: an [ArcadeError] of model.ts, or anything else. *)
Inductive fault := ArcadeError (code : string) (status : Z) | thrown (e : js_error).

Inductive Mode := simulation | fork.
Definition mode_name (m : Mode) : string := match m with simulation => "simulation" | fork => "fork" end.
Record Ticket := {
  tk_source : string; tk_id : string; tk_game : ArcadeGame; tk_status : Admissions.AdmissionStatus;
  tk_runId : option string; tk_amount : string; tk_unit : string;
  tk_transaction : option string; tk_payer : string;
}.
(** [ticket] is null only when [ready] read back nothing. *)
Definition ticketBody (ticket : option Admission) (order : Order) (m : Mode) : Ticket + fault :=
  match ticket with
  | None => inr (thrown (TypeError "null is not an object"))
  | Some t =>
      inl {| tk_source := "mapae-" ++ mode_name m; tk_id := adm_id t; tk_game := Admissions.game t;
             tk_status := Admissions.status t; tk_runId := Admissions.runId t; tk_amount := ARCADE_TICKET_PRICE;
             tk_unit := MOCK_USDC_symbol; tk_transaction := order_txHash order;
             tk_payer := order_payer order |}
  end.

(** The tables and the language's own sources of data. *)
Record Desk (W : Type) := {
  adm : W → ArcadeDb; put_adm : ArcadeDb → W → W;
  cat : W → CatalogDb; put_cat : CatalogDb → W → W;
  journal : W → JournalDb;
  randomUUID : W → string * W;
  clock : W → Z * W;
  randomBytes : W → list Z * W;
}.
Arguments adm {W}. Arguments put_adm {W}. Arguments cat {W}. Arguments put_cat {W}. Arguments journal {W}.
Arguments randomUUID {W}. Arguments clock {W}. Arguments randomBytes {W}.

(** [client]'s own [fetchImpl] is not used: the purchase puts the service's paywall there. *)
Record PaymentOptions (W : Type) := {
  op_mode : Mode; op_payTo : string; client : DelegatedPaymentConfig W;
  reconcile : option (string → meth W unit);
}.
Arguments op_mode {W}. Arguments op_payTo {W}. Arguments client {W}. Arguments reconcile {W}.

Definition ticket_intent `{Toolkit} (payTo : string) (leaf : Leaf) : result string :=
  derivePaymentIntentId
    {| Contract.network := GIWA_SEPOLIA_CAIP2; Contract.asset := MOCK_USDC_address;
       Contract.amount := ARCADE_TICKET_AMOUNT; Contract.payTo := payTo;
       Contract.delegationManager := lf_manager leaf;
       Contract.permissionContext := lf_context leaf |}.

Section purchases.
Context `{Toolkit} {W : Type}.
Variable url_origin : string → option string.
Variable desk : Desk W.
Variable options : option (PaymentOptions W).
(** [seller.request(url, init)] for the game's route, with the payment header of [init]. *)
Variable seller : ArcadeGame → option string → meth W HttpResponse.

Definition on_adm {A} (t : tx ArcadeDb A) : meth W A := λ w,
  match t (adm desk w) with
  | Ok (a, s) => (Ok a, put_adm desk s w)
  | Throw e => (Throw e, w)
  end.
Definition on_cat {A} (t : tx CatalogDb A) : meth W A := λ w,
  match t (cat desk w) with
  | Ok (a, s) => (Ok a, put_cat desk s w)
  | Throw e => (Throw e, w)
  end.
Definition or_thrown {A} (m : meth W A) : W → (A + fault) * W := λ w,
  match m w with (Ok a, w) => (inl a, w) | (Throw e, w) => (inr (thrown e), w) end.

Definition payment_conflict := ArcadeError "payment_conflict" 409.
Definition payments_disabled := ArcadeError "payments_disabled" 503.
Definition payment_unresolved := ArcadeError "payment_unresolved" 409.
Definition payment_rejected := ArcadeError "payment_rejected" 409.

(** The order the journal stands for, when the seller's callback never ran. *)
Definition journal_order (payTo : string) (ticket : Admission) (j : SettlementRecord) : option OrderInput :=
  match terminal j with
  | Some e =>
      if bool_decide (ev_outcome e = Ledger.settled)
         && String.eqb (toLowerCase (Settlement.payTo (rec_input j))) (toLowerCase payTo)
         && (Settlement.amountBase (rec_input j) =? ARCADE_TICKET_AMOUNT)
      then Some {| oi_sellerSlug := SLUG; oi_itemKey := game_name (Admissions.game ticket);
                   oi_paymentIntentId := Settlement.paymentIntentId (rec_input j);
                   oi_payer := Settlement.payer (rec_input j);
                   oi_amountBase := Settlement.amountBase (rec_input j);
                   oi_txHash := Some (Settlement.txHash (rec_input j)); oi_status := "paid";
                   oi_createdAt := ev_at e |}
      else None
  | None => None
  end.

(** [recover]: finish the delivery of a payment that is already confirmed. *)
Definition recover (o : PaymentOptions W) (ticket : Admission)
    : W → (option (option Admission * Order) + fault) * W := λ w,
  match Admissions.intent ticket with
  | None => (inl None, w)
  | Some i =>
      let found := getByIntent i (cat desk w) in
      match Settlement.read i (journal desk w) with
      | Throw e => (inr (thrown e), w)
      | Ok (j, _) =>
          let '(order, w) :=
            match found with
            | Some order => (Ok (Some order), w)
            | None =>
                match j ≫= journal_order (op_payTo o) ticket with
                | None => (Ok None, w)
                | Some input =>
                    let '(bytes, w) := randomBytes desk w in
                    let '(r, w) := on_cat (createOnce input bytes) w in
                    ((let? order := r in Ok (Some order)), w)
                end
            end in
          match order with
          | Throw e => (inr (thrown e), w)
          | Ok None => (inl None, w)
          | Ok (Some order) =>
              if negb (String.eqb (order_seller order) SLUG)
                 || negb (String.eqb (order_item order) (game_name (Admissions.game ticket)))
                 || negb (order_amountBase order =? ARCADE_TICKET_AMOUNT)
              then (inr payment_conflict, w)
              else let '(r, w) := or_thrown (on_adm (ready (adm_id ticket) (order_intent order))) w in
                   (match r with inl t => inl (Some (t, order)) | inr f => inr f end, w)
          end
      end
  end.

(** The provider of a purchase: sign, then bind the intent, before anything is sent. *)
Definition bound_provider (o : PaymentOptions W) (ticket : Admission) (offer : jsval) : meth W Leaf :=
  do! leaf := provider (client o) offer in
  do! i := meth_lift (ticket_intent (op_payTo o) leaf) in
  do! _ := on_adm (bindIntent (adm_id ticket) i) in
  meth_ret leaf.
Definition purchase_config (o : PaymentOptions W) (g : ArcadeGame) (ticket : Admission)
    : DelegatedPaymentConfig W :=
  {| provider := bound_provider o ticket; cf_manager := cf_manager (client o);
     trustedFacilitators := trustedFacilitators (client o); cf_preflight := cf_preflight (client o);
     fetchImpl := seller g; getRandomValues := getRandomValues (client o) |}.

Definition leaves_doubt (c : DelegatedPaymentFailureCode) : bool :=
  bool_decide (c = SETTLEMENT_UNKNOWN) || bool_decide (c = MALFORMED_RESOURCE).

(** After the client answered: a confirmed order, or the reason there is none. *)
Definition conclude (o : PaymentOptions W) (ticket : Admission) (result : DelegatedPaymentResult)
    : W → (Ticket + fault) * W := λ w,
  match or_thrown (on_adm (let! i := tlift (Admissions.uuid (adm_id ticket)) in
                           tgets (λ s, byId i (admissions s)))) w with
  | (inr f, w) => (inr f, w)
  | (inl None, w) => (inr (thrown (TypeError "null is not an object")), w)
  | (inl (Some t), w) =>
      match recover o t w with
      | (inr f, w) => (inr f, w)
      | (inl (Some (t, order)), w) => (ticketBody t order (op_mode o), w)
      | (inl None, w) =>
          let '(refused, name, f) :=
            match result with
            | Refused code _ _ _ _ =>
                if leaves_doubt code then (false, failure_name code, payment_unresolved)
                else (true, failure_name code, payment_rejected)
            | Delivered _ _ _ _ _ _ => (false, "ORDER_MISSING", payment_unresolved)
            end in
          match on_adm (fail_ (adm_id ticket) refused name) w with
          | (Throw e, w) => (inr (thrown e), w)
          | (Ok _, w) => (inr f, w)
          end
      end
  end.

(** [try {...} catch]: whatever else went wrong leaves the ticket unresolved. *)
Definition pay (o : PaymentOptions W) (g : ArcadeGame) (ticket : Admission) : W → (Ticket + fault) * W := λ w,
  let '(r, w) :=
    match payForDelegatedResource url_origin (purchase_config o g ticket) w with
    | (Throw e, w) => (inr (thrown e), w)
    | (Ok result, w) => conclude o ticket result w
    end in
  match r with
  | inr (thrown _) =>
      match on_adm (fail_ (adm_id ticket) false "PAYMENT_INTERRUPTED") w with
      | (Throw e, w) => (inr (thrown e), w)
      | (Ok _, w) => (inr payment_unresolved, w)
      end
  | _ => (r, w)
  end.

(** The original receipt is looked for before anything else; only of a bound ticket. *)
Definition reconcile_first (o : PaymentOptions W) (ticket : Admission) : W → option fault * W := λ w,
  match Admissions.intent ticket, reconcile o with
  | Some i, Some read_receipt =>
      if unresolved ticket then
        match read_receipt i w with
        | (Ok _, w) => (None, w)
        | (Throw _, w) => (Some payment_unresolved, w)
        end
      else (None, w)
  | _, _ => (None, w)
  end.

(** The row of a request: the one on file, or a new one. *)
Definition take_ticket (requestId : string) (g : ArcadeGame) : meth W (Admission * bool) := λ w,
  let '(newId, w) := randomUUID desk w in
  let '(now, w) := clock desk w in
  on_adm (let! r := tlift (Admissions.uuid requestId) in reserve r g newId now) w.

(** What follows the reservation. *)
Definition proceed (o : PaymentOptions W) (g : ArcadeGame) (ticket : Admission) (created : bool)
    : W → (Ticket + fault) * W := λ w,
  match reconcile_first o ticket w with
  | (Some f, w) => (inr f, w)
  | (None, w) =>
      match recover o ticket w with
      | (inr f, w) => (inr f, w)
      | (inl (Some (t, order)), w) => (ticketBody t order (op_mode o), w)
      | (inl None, w) =>
          if bool_decide (Admissions.status ticket = Admissions.rejected) then (inr payment_rejected, w)
          else if negb created then (inr payment_unresolved, w)
          else pay o g ticket w
      end
  end.

Definition buy (g : ArcadeGame) (requestId : string) : W → (Ticket + fault) * W := λ w,
  match options with
  | None => (inr payments_disabled, w)
  | Some o =>
      match take_ticket requestId g w with
      | (Throw e, w) => (inr (thrown e), w)
      | (Ok (ticket, created), w) => proceed o g ticket created w
      end
  end.

Definition get (id : string) : W → (Ticket + fault) * W := λ w,
  match options with
  | None => (inr payments_disabled, w)
  | Some o =>
      match or_thrown (on_adm (let! i := tlift (Admissions.uuid id) in
                               tgets (λ s, byId i (admissions s)))) w with
      | (inr f, w) => (inr f, w)
      | (inl None, w) => (inr (thrown (AdmissionError "ticket_not_found")), w)
      | (inl (Some t), w) =>
          match recover o t w with
          | (inr f, w) => (inr f, w)
          | (inl None, w) => (inr payment_unresolved, w)
          | (inl (Some (t, order)), w) => (ticketBody t order (op_mode o), w)
          end
      end
  end.

Definition consume (id runId : string) : W → (Ticket + fault) * W := λ w,
  match get id w with
  | (inr f, w) => (inr f, w)
  | (inl _, w) =>
      match on_adm (Admissions.consume id runId) w with
      | (Throw e, w) => (inr (thrown e), w)
      | (Ok _, w) => get id w
      end
  end.

(** ** The seller's side of a purchase *)
(** [onSettled]: the order of a settled payment. *)
Definition on_settled (g : ArcadeGame) (r : SettlementReceipt) : meth W unit := λ w,
  let '(bytes, w) := randomBytes desk w in
  let '(now, w) := clock desk w in
  match toTokenAmount (rc_amount r) with
  | Throw e => (Throw e, w)
  | Ok amount =>
      let '(o, w) := on_cat (createOnce
        {| oi_sellerSlug := SLUG; oi_itemKey := game_name g; oi_paymentIntentId := Paywall.intent r;
           oi_payer := Paywall.payer r; oi_amountBase := amount; oi_txHash := Paywall.transaction r;
           oi_status := "paid"; oi_createdAt := now |} bytes) w in
      ((let? _ := o in Ok tt), w)
  end.
Definition receipt_json (r : SettlementReceipt) : jsval :=
  JObj ([("intent", JStr (Paywall.intent r)); ("payer", JStr (Paywall.payer r));
         ("amount", JStr (rc_amount r)); ("asset", JStr (Paywall.asset r)); ("payTo", JStr (rc_payTo r));
         ("network", JStr (Paywall.network r))]
        ++ optional "transaction" (JStr <$> Paywall.transaction r) ++ [("replayed", JBool (Paywall.replayed r))]).
(** The handler behind the paywall. *)
Definition serve_order (r : SettlementReceipt) (h : gmap string string) : meth W Reply := λ w,
  match getByIntent (Paywall.intent r) (cat desk w) with
  | None => (Ok {| rp_status := 500; rp_headers := h;
                   rp_body := JObj [("error", JStr "order_not_recorded")] |}, w)
  | Some order =>
      (Ok {| rp_status := 200; rp_headers := h;
             rp_body := JObj [("order", JObj [("intent", JStr (order_intent order)); ("item", JStr (order_item order))]);
                              ("receipt", receipt_json r)] |}, w)
  end.
(** How the store's binding reaches the paywall: payers are checksummed. *)
Definition bound_answer (b : BindResult) : BindResult :=
  let receipt p := {| rp_payer := getAddress (rp_payer p); rp_txHash := rp_txHash p |} in
  match b with
  | bind_new => bind_new
  | bind_settled s => bind_settled (receipt s)
  | bind_conflict reason s => bind_conflict reason (receipt <$> s)
  end.

(** ** The tables move by their own operations *)
Definition moved (w w' : W) : Prop := star arcade_step (adm desk w) (adm desk w').
Lemma moved_refl w : moved w w.
Proof. apply star_refl. Qed.
Lemma moved_trans w1 w2 w3 : moved w1 w2 → moved w2 w3 → moved w1 w3.
Proof. apply star_trans. Qed.

(** The desk keeps what is put on it, and its identifiers are identifiers. *)
Record sound_desk : Prop := {
  sd_adm : ∀ s w, adm desk (put_adm desk s w) = s ∧ cat desk (put_adm desk s w) = cat desk w;
  sd_put : ∀ w, put_adm desk (adm desk w) w = w;
  sd_cat : ∀ c w, cat desk (put_cat desk c w) = c ∧ adm desk (put_cat desk c w) = adm desk w;
  sd_uuid : ∀ w, UUID (randomUUID desk w).1 = true ∧ toLowerCase (randomUUID desk w).1 = (randomUUID desk w).1;
  sd_draw : ∀ w, adm desk (randomUUID desk w).2 = adm desk w ∧ adm desk (clock desk w).2 = adm desk w
                 ∧ adm desk (randomBytes desk w).2 = adm desk w;
}.
(** Whatever else runs meanwhile moves the admissions by their own operations only. *)
Record sound_outside (o : PaymentOptions W) : Prop := {
  so_seller : ∀ g h w, moved w (seller g h w).2;
  so_provider : ∀ offer w, moved w (provider (client o) offer w).2;
  so_preflight : ∀ p offer w, cf_preflight (client o) = Some p → moved w (p offer w).2;
  so_random : ∀ w, moved w (getRandomValues (client o) w).2;
  so_reconcile : ∀ r i w, reconcile o = Some r → moved w (r i w).2;
}.

Section sound.
Context (Hdesk : sound_desk).

(** *** A statement on the admissions is a step *)
Lemma on_adm_moved {A} (t : tx ArcadeDb A) w :
  (∀ a s, t (adm desk w) = Ok (a, s) → star arcade_step (adm desk w) s) → moved w (on_adm t w).2.
Proof.
  intros Ht. unfold on_adm, moved. destruct (t (adm desk w)) as [[a s]|e] eqn:Hr; [|apply star_refl].
  cbn [snd]. rewrite (proj1 (sd_adm Hdesk s w)). by eapply Ht.
Qed.
Lemma one_step s s' : arcade_step s s' → star arcade_step s s'.
Proof. intros Hs. eapply star_step; [apply star_refl|done]. Qed.
Lemma on_adm_step {A} (t : tx ArcadeDb A) w :
  (∀ a s, t (adm desk w) = Ok (a, s) → arcade_step (adm desk w) s) → moved w (on_adm t w).2.
Proof. intros Ht. apply on_adm_moved. intros a s Ha. by eapply one_step, Ht. Qed.

Lemma on_cat_adm {A} (t : tx CatalogDb A) w : adm desk (on_cat t w).2 = adm desk w.
Proof.
  unfold on_cat. destruct (t (cat desk w)) as [[a c]|e]; [|done]. apply (proj2 (sd_cat Hdesk c w)).
Qed.

Lemma reserve_unchanged r g i now s a s' : reserve r g i now s = Ok ((a, false), s') → s' = s.
Proof.
  unfold reserve. intros Hr. inv_tx. by destruct (byRequest _ _); inv_tx.
Qed.

(** What [take_ticket] did to the row of its request. *)
Lemma take_ticket_spec rq g w ticket created w' :
  take_ticket rq g w = (Ok (ticket, created), w') →
  moved w w' ∧ requestId ticket = toLowerCase rq ∧ Admissions.game ticket = g ∧ ticket ∈ admissions (adm desk w')
  ∧ (created = false → ticket ∈ admissions (adm desk w) ∧ adm desk w' = adm desk w)
  ∧ (created = true → byRequest (toLowerCase rq) (admissions (adm desk w)) = None
      ∧ existsb unresolved (admissions (adm desk w)) = false
      ∧ Admissions.status ticket = pending ∧ Admissions.intent ticket = None).
Proof.
  unfold take_ticket. destruct (sd_uuid Hdesk w) as [Hu Hl]. destruct (sd_draw Hdesk w) as (Hd & _ & _).
  destruct (randomUUID desk w) as [newId w1]. cbn [fst snd] in *.
  destruct (sd_draw Hdesk w1) as (_ & Hd1 & _). destruct (clock desk w1) as [now w2]. cbn [snd] in *.
  intros Ht. unfold on_adm in Ht.
  assert (E2 : adm desk w2 = adm desk w) by congruence. rewrite E2 in Ht.
  destruct (tbind _ _ (adm desk w)) as [[a s]|e] eqn:Hr; [|done]. injection Ht as -> <-.
  inv_tx. inv_ids. rewrite !(proj1 (sd_adm Hdesk _ _)).
  match goal with H : UUID rq = true |- _ => rename H into Hrq end.
  assert (Hst : moved w (put_adm desk s w2)).
  { unfold moved. rewrite (proj1 (sd_adm Hdesk _ _)). apply one_step. eapply step_reserve; [exact Hu|exact Hl|exact Hr]. }
  split; [exact Hst|]. unfold reserve in Hr. inv_tx. inv_ids. rewrite toLowerCase_idem in Hr.
  destruct (byRequest (toLowerCase rq) (admissions (adm desk w))) as [a|] eqn:Hb; inv_tx; bools.
  - unfold byRequest in Hb. pose proof (find_some _ _ Hb) as [Hin Heq]. apply list_elem_of_In in Hin. cbv beta in Heq. bools.
    split_and!; try done.
  - cbn [requestId Admissions.game]. split_and!; try done. cbn [admissions set_admissions].
    apply elem_of_app. right. by left.
Qed.

(** What handing out a ticket means: the row stands for this order, which is paid in full. *)
Record stands_for (w : W) (row : Admission) (order : Order) : Prop := {
  sf_row : byId (adm_id row) (admissions (adm desk w)) = Some row;
  sf_status : Admissions.status row = ready_ ∨ Admissions.status row = consumed;
  sf_intent : Admissions.intent row = Some (toLowerCase (order_intent order));
  sf_order : order ∈ orders (cat desk w);
  sf_seller : order_seller order = SLUG;
  sf_item : order_item order = game_name (Admissions.game row);
  sf_amount : order_amountBase order = ARCADE_TICKET_AMOUNT;
}.

Lemma ready_hands s i h o s' : arcade_ok s → toLowerCase i = i → ready i h s = Ok (o, s') →
  ∃ t row, byId i (admissions s) = Some t ∧ o = Some row ∧ byId i (admissions s') = Some row
    ∧ adm_id row = i ∧ Admissions.game row = Admissions.game t ∧ requestId row = requestId t
    ∧ (Admissions.status row = ready_ ∨ Admissions.status row = consumed)
    ∧ Admissions.intent row = Some (toLowerCase h).
Proof.
  intros Hok Hi (_ & _ & t & Ht & Hint & Hc)%ready_spec. rewrite Hi in Ht.
  destruct (byId_Some _ _ _ Ht) as [Hin Hid]. exists t.
  destruct Hc as [(Hst & -> & ->)|(Hu & -> & ->)]; [by exists t|]. exists (with_status ready_ None t).
  assert (Hb : byId i (admissions (set_admissions (update_where i (λ _, true) (with_status ready_ None)) s))
               = Some (with_status ready_ None t)).
  { destruct (update_ids i (λ _, true) (with_status ready_ None) (admissions s)) as [Hids _]; [done|].
    replace i with (adm_id (with_status ready_ None t)) at 1 by done. unfold byId. apply (find_key adm_id).
    - cbn [admissions set_admissions]. rewrite Hids. apply (ao_ids _ Hok).
    - apply list_elem_of_fmap. exists t. split; [|done]. by rewrite Hid, String.eqb_refl. }
  split_and!; try done. by left.
Qed.

(** The order a recovery settled on, if any; only the orders may have moved. *)
Definition recovered_order (w w1 : W) (order : Order) : Prop :=
  adm desk w1 = adm desk w ∧ order ∈ orders (cat desk w1).

Lemma createOnce_in c input bytes order c' : createOnce input bytes c = Ok (order, c') → order ∈ orders c'.
Proof.
  intros (_ & _ & _ & _ & [[Hb ->]|(_ & -> & _)])%createOnce_spec.
  - unfold by_intent in Hb. apply find_some in Hb as [Hin _]. by apply list_elem_of_In.
  - cbn [orders set_orders]. apply elem_of_app. right. by left.
Qed.

(** What a recovery throws is never a refusal of the payment. *)
Definition recovery_fault (f : fault) : Prop := f = payment_conflict ∨ ∃ e, f = thrown e.
Local Hint Unfold recovery_fault : core.

(** Every way a recovery goes: no order, an order of something else, or the ticket's order. *)
Lemma recover_cases o ticket w : 
  let '(r, w') := recover o ticket w in
  (adm desk w' = adm desk w ∧ (r = inl None ∨ ∃ f, r = inr f ∧ recovery_fault f))
  ∨ ∃ w1 order t s, recovered_order w w1 order ∧ order_seller order = SLUG
      ∧ order_item order = game_name (Admissions.game ticket) ∧ order_amountBase order = ARCADE_TICKET_AMOUNT
      ∧ ready (adm_id ticket) (order_intent order) (adm desk w) = Ok (t, s)
      ∧ w' = put_adm desk s w1 ∧ r = inl (Some (t, order)).
Proof.
  unfold recover. destruct (Admissions.intent ticket) as [i|]; [|left; split; [done|by left]].
  destruct (Settlement.read i (journal desk w)) as [[j jdb]|e]; [|left; eauto 8].
  assert (Hend : ∀ w1 order, adm desk w1 = adm desk w → order ∈ orders (cat desk w1) →
    let '(r, w') := (if negb (String.eqb (order_seller order) SLUG)
                 || negb (String.eqb (order_item order) (game_name (Admissions.game ticket)))
                 || negb (order_amountBase order =? ARCADE_TICKET_AMOUNT)
              then (inr payment_conflict, w1)
              else let '(r, w) := or_thrown (on_adm (ready (adm_id ticket) (order_intent order))) w1 in
                   (match r with inl t => inl (Some (t, order)) | inr f => inr f end, w)) in
    (adm desk w' = adm desk w ∧ (r = inl None ∨ ∃ f, r = inr f ∧ recovery_fault f))
    ∨ ∃ w1 order t s, recovered_order w w1 order ∧ order_seller order = SLUG
      ∧ order_item order = game_name (Admissions.game ticket) ∧ order_amountBase order = ARCADE_TICKET_AMOUNT
      ∧ ready (adm_id ticket) (order_intent order) (adm desk w) = Ok (t, s)
      ∧ w' = put_adm desk s w1 ∧ r = inl (Some (t, order))).
  { intros w1 order Hw1 Hin. destruct (negb _ || _ || _) eqn:Hg; [left; eauto 8|].
    apply orb_false_iff in Hg as [Hg Ha]. apply orb_false_iff in Hg as [Hs Hi].
    apply negb_false_iff in Ha, Hs, Hi. apply String.eqb_eq in Hs, Hi. apply Z.eqb_eq in Ha.
    unfold or_thrown, on_adm. rewrite Hw1. destruct (ready _ _ _) as [[t s]|e] eqn:Hr; [|left; eauto 8].
    right. by exists w1, order, t, s. }
  destruct (getByIntent i (cat desk w)) as [order|] eqn:Hf.
  { apply Hend; [done|]. unfold getByIntent, by_intent in Hf. apply find_some in Hf as [Hin _]. by apply list_elem_of_In. }
  destruct (j ≫= journal_order (op_payTo o) ticket) as [input|]; [|left; split; [done|by left]].
  destruct (sd_draw Hdesk w) as (_ & _ & Hd). destruct (randomBytes desk w) as [bytes w1]. cbn [snd] in Hd.
  pose proof (on_cat_adm (createOnce input bytes) w1) as Hc. unfold on_cat in *.
  destruct (createOnce input bytes (cat desk w1)) as [[order c]|e] eqn:Hr; cbn [rbind snd] in *.
  - apply Hend; [congruence|]. rewrite (proj1 (sd_cat Hdesk _ _)). by eapply createOnce_in.
  - left. split; [congruence|]. eauto 8.
Qed.

Lemma recover_moved o ticket w : moved w (recover o ticket w).2.
Proof.
  pose proof (recover_cases o ticket w) as Hc. destruct (recover o ticket w) as [r w']. cbn [snd].
  destruct Hc as [[He _]|(w1 & order & t & s & _ & _ & _ & _ & Hr & -> & _)]; unfold moved.
  - rewrite He. apply star_refl.
  - rewrite (proj1 (sd_adm Hdesk _ _)). apply one_step. by eapply step_ready.
Qed.

Lemma recover_hands o ticket w t order w' b :
  arcade_ok (adm desk w) → byId (adm_id ticket) (admissions (adm desk w)) = Some b →
  Admissions.game b = Admissions.game ticket → requestId b = requestId ticket →
  recover o ticket w = (inl (Some (t, order)), w') →
  ∃ row, t = Some row ∧ adm_id row = adm_id ticket ∧ Admissions.game row = Admissions.game ticket
    ∧ requestId row = requestId ticket ∧ stands_for w' row order.
Proof.
  intros Hok Hb Hg Hq Hrec. pose proof (recover_cases o ticket w) as Hc. rewrite Hrec in Hc.
  destruct Hc as [[_ [Hc|(f & Hc & _)]]|(w1 & order' & t' & s & [Hadm Hin] & Hs & Hi & Ha & Hr & -> & [= <- <-])]; [done..|].
  assert (Hl : toLowerCase (adm_id ticket) = adm_id ticket) by (by eapply byId_lower).
  destruct (ready_hands _ _ _ _ _ Hok Hl Hr) as (t0 & row & Ht0 & -> & Hrow & Hid & Hgame & Hreq & Hst & Hint).
  rewrite Hb in Ht0. injection Ht0 as <-. exists row. split_and!; try done; [congruence..|].
  constructor; try done.
  - by rewrite (proj1 (sd_adm Hdesk _ _)), Hid.
  - by rewrite (proj2 (sd_adm Hdesk _ _)).
  - by rewrite Hgame, Hg.
Qed.

(** *** A call of the client moves the tables as its effects do *)
Lemma pay_moved (c : DelegatedPaymentConfig W) w :
  (∀ h w, moved w (fetchImpl c h w).2) → (∀ offer w, moved w (provider c offer w).2) →
  (∀ p offer w, cf_preflight c = Some p → moved w (p offer w).2) → (∀ w, moved w (getRandomValues c w).2) →
  moved w (payForDelegatedResource url_origin c w).2.
Proof.
  intros Hf Hp Hc Hr.
  assert (Hpresent : ∀ offer leaf w, moved w (present_payment url_origin c offer leaf w).2).
  { intros offer leaf v. unfold present_payment. specialize (Hr v). destruct (getRandomValues c v) as [bytes v1].
    destruct (encodePaymentHeader _) as [h|e]; [|done]. specialize (Hf (Some h) v1).
    destruct (fetchImpl c (Some h) v1) as [[second|e] v2]; cbn [snd] in *; [|by eapply moved_trans].
    destruct (http_ok second); by eapply moved_trans. }
  assert (Hsign : ∀ offer w, moved w (sign_and_present url_origin c offer w).2).
  { intros offer v. unfold sign_and_present. specialize (Hp offer v).
    destruct (provider c offer v) as [[leaf|e] v1]; cbn [snd] in *; [|done].
    destruct (leaf_ok _ leaf); cbn [negb snd]; [|done]. eapply moved_trans; [exact Hp|apply Hpresent]. }
  unfold payForDelegatedResource. specialize (Hf None w) as H1.
  destruct (fetchImpl c None w) as [[first|e] w1]; cbn [snd] in *; [|done].
  destruct (select_offer_of _ _ _ first) as [[accepted|r]|e]; [|done..]. cbn [snd].
  eapply moved_trans; [exact H1|]. unfold check_and_sign. destruct (cf_preflight c) as [p|]; [|apply Hsign].
  specialize (Hc p accepted w1 eq_refl). destruct (p accepted w1) as [[[|code detail]|e] w2]; cbn [snd] in *;
    [|done..]. by eapply moved_trans, Hsign.
Qed.

Lemma bound_provider_moved o ticket offer w : sound_outside o → moved w (bound_provider o ticket offer w).2.
Proof.
  intros Ho. unfold bound_provider, meth_bind, meth_lift. pose proof (so_provider _ Ho offer w) as Hp.
  destruct (provider (client o) offer w) as [[leaf|e] w1]; cbn [snd] in *; [|done].
  destruct (ticket_intent _ leaf) as [i|e]; [|done].
  pose proof (on_adm_step (bindIntent (adm_id ticket) i) w1) as Hb.
  assert (Hm : moved w1 (on_adm (bindIntent (adm_id ticket) i) w1).2) by (apply Hb; intros [] s Hs; by eapply step_bind).
  destruct (on_adm _ w1) as [[[]|e] w2]; cbn [snd] in *; by eapply moved_trans.
Qed.
Lemma purchase_moved o g ticket w : sound_outside o →
  moved w (payForDelegatedResource url_origin (purchase_config o g ticket) w).2.
Proof.
  intros Ho. apply pay_moved; cbn; [apply (so_seller _ Ho)|intros; by apply bound_provider_moved|
    apply (so_preflight _ Ho)|apply (so_random _ Ho)].
Qed.

(** A read of one row. *)
Lemma row_read i (w : W) : let '(r, w') := or_thrown (on_adm (let! i := tlift (Admissions.uuid i) in
    tgets (λ s, byId i (admissions s)))) w in
  w' = w ∧ (r = inl (byId (toLowerCase i) (admissions (adm desk w))) ∧ UUID i = true ∨ ∃ f, r = inr f ∧ UUID i = false).
Proof.
  unfold or_thrown, on_adm, tbind, tlift, tgets, Admissions.uuid, throw_when, rbind. destruct (UUID i); cbn [negb]; [|eauto 8].
  rewrite (sd_put Hdesk). split; [done|]. by left.
Qed.

Lemma fail_moved i b c w : moved w (on_adm (fail_ i b c) w).2.
Proof. apply on_adm_step. intros [] s Hs. by eapply step_fail. Qed.

(** *** Over a history of the admissions *)
Definition reachable_arcade (w : W) : Prop := star arcade_step empty_arcade (adm desk w).
Lemma reachable_moved w w' : reachable_arcade w → moved w w' → reachable_arcade w'.
Proof. apply star_trans. Qed.

Lemma later_row ticket w w' : reachable_arcade w → ticket ∈ admissions (adm desk w) → moved w w' →
  ∃ b, byId (adm_id ticket) (admissions (adm desk w')) = Some b ∧ evolves ticket b.
Proof.
  intros Hr%arcade_reachable Hin Hm. destruct (star_evolves _ _ Hr Hm) as [Hok Hev]. by eapply evolved_row.
Qed.

(** A bound intent is a hash in lower case. *)
Definition hashes_ok (s : ArcadeDb) : Prop := ∀ a i, a ∈ admissions s → Admissions.intent a = Some i →
  re_0x is_hex 64 i = true ∧ toLowerCase i = i.
Lemma hashes_update s i gd f : (∀ a, Admissions.intent (f a) = Admissions.intent a) →
  hashes_ok s → hashes_ok (set_admissions (update_where i gd f) s).
Proof.
  intros Hf Hs a j (a0 & Ha & ->)%update_elem. intros Hi. apply (Hs a0); [done|]. revert Hi.
  destruct (_ && _); [by rewrite Hf|done].
Qed.
Lemma hashes_step s s' : hashes_ok s → arcade_step s s' → hashes_ok s'.
Proof.
  intros Hs [r g i now a _ _ H1|i h H1|i h o H1|i b c H1|i r a H1|d l b H1].
  - unfold reserve in H1. inv_tx. destruct (byRequest _ _); inv_tx; [done|]. cbn [admissions set_admissions].
    intros xa j [Hx| ->%list_elem_of_singleton]%elem_of_app; [by apply Hs|done].
  - unfold bindIntent in H1. inv_tx. inv_ids. intros xa j (x0 & Hx & ->)%update_elem.
    destruct (String.eqb _ _ && bindable _ _); [|by apply Hs]. cbn. intros [= <-].
    by rewrite toLowerCase_idem, re_0x_hex_lower.
  - apply ready_spec in H1 as (_ & _ & t & _ & _ & [(_ & _ & ->)|(_ & -> & _)]); [done|]. by apply hashes_update.
  - unfold fail_ in H1. inv_tx. by apply hashes_update.
  - unfold Admissions.consume in H1. inv_tx. destruct (byId _ _) as [t|]; inv_tx. case_bool_decide; inv_tx; [done|].
    destruct (byId _ _); inv_tx. by apply hashes_update.
  - unfold reserveModelCall in H1. inv_tx.
    destruct (model_calls s !! d) as [z|]; [destruct (z <? l)|]; inv_tx;
    repeat match goal with H : tput _ _ = Ok _ |- _ => unfold tput in H; inv_tx end; done.
Qed.
Lemma reachable_hash w a i : reachable_arcade w → a ∈ admissions (adm desk w) → Admissions.intent a = Some i →
  re_0x is_hex 64 i = true ∧ toLowerCase i = i.
Proof.
  intros Hr. assert (Hs : hashes_ok (adm desk w)); [|apply Hs].
  apply (star_invariant arcade_step hashes_ok empty_arcade); [|intros x j Hx; by apply not_elem_of_nil in Hx|exact Hr].
  intros x y Hx Hst. by eapply hashes_step.
Qed.

(** The UNIQUE constraint on [intent], over every history. *)
Definition intents_ok (s : ArcadeDb) : Prop := ∀ a b, a ∈ admissions s → b ∈ admissions s →
  is_Some (Admissions.intent a) → Admissions.intent a = Admissions.intent b → adm_id a = adm_id b.
Lemma intents_update s i gd f : (∀ a, Admissions.intent (f a) = Admissions.intent a ∧ adm_id (f a) = adm_id a) →
  intents_ok s → intents_ok (set_admissions (update_where i gd f) s).
Proof.
  intros Hf Hs a b (a0 & Ha & ->)%update_elem (b0 & Hb & ->)%update_elem.
  assert (Hk : ∀ x, Admissions.intent (if String.eqb (adm_id x) i && gd x then f x else x) = Admissions.intent x
                    ∧ adm_id (if String.eqb (adm_id x) i && gd x then f x else x) = adm_id x)
    by (intros x; destruct (_ && _); [apply Hf|done]).
  destruct (Hk a0) as [-> ->], (Hk b0) as [-> ->]. by apply Hs.
Qed.
Lemma intents_step s s' : intents_ok s → arcade_step s s' → intents_ok s'.
Proof.
  intros Hs [r g i now a _ _ H1|i h H1|i h o H1|i b c H1|i r a H1|d l b H1].
  - unfold reserve in H1. inv_tx. destruct (byRequest _ _); inv_tx; [done|]. cbn [admissions set_admissions].
    intros xa ya [Hx|Hx%list_elem_of_singleton]%elem_of_app [Hy|Hy%list_elem_of_singleton]%elem_of_app Hi He;
      [by apply Hs|subst ya; cbn in He; rewrite He in Hi; by destruct Hi|subst xa; by destruct Hi..].
  - unfold bindIntent in H1. inv_tx. inv_ids. bools.
    match goal with Hx : _ && existsb _ _ = false |- _ => rename Hx into Hno end.
    match goal with Hx : matches _ _ _ = true |- _ => rewrite Hx in Hno end. cbn [andb] in Hno.
    assert (Hfree : ∀ x, x ∈ admissions s → Admissions.intent x = Some (toLowerCase h) → adm_id x = toLowerCase i).
    { intros z Hx Hi. destruct (String.eqb_spec (adm_id z) (toLowerCase i)) as [|Hne]; [done|]. exfalso.
      apply not_true_iff_false in Hno. apply Hno, existsb_exists. exists z. split; [by apply list_elem_of_In|].
      apply andb_true_iff. split; [by apply negb_true_iff, String.eqb_neq|by apply bool_decide_eq_true]. }
    intros xa ya (x0 & Hx & ->)%update_elem (y0 & Hy & ->)%update_elem.
    destruct (String.eqb_spec (adm_id x0) (toLowerCase i)) as [Ex|Ex], (String.eqb_spec (adm_id y0) (toLowerCase i)) as [Ey|Ey];
      cbn [andb]; try destruct (bindable _ x0); try destruct (bindable _ y0); cbn [with_intent Admissions.intent adm_id];
      intros Hi He; try congruence; try by apply Hs.
    + symmetry in He. rewrite (Hfree y0) in Ey by done. done.
    + rewrite (Hfree x0) in Ex by done. done.
  - apply ready_spec in H1 as (_ & _ & t & _ & _ & [(_ & _ & ->)|(_ & -> & _)]); [done|]. by apply intents_update.
  - unfold fail_ in H1. inv_tx. by apply intents_update.
  - unfold Admissions.consume in H1. inv_tx. destruct (byId _ _) as [t|]; inv_tx. case_bool_decide; inv_tx; [done|].
    destruct (byId _ _); inv_tx. by apply intents_update.
  - unfold reserveModelCall in H1. inv_tx.
    destruct (model_calls s !! d) as [z|]; [destruct (z <? l)|]; inv_tx;
    repeat match goal with H : tput _ _ = Ok _ |- _ => unfold tput in H; inv_tx end; done.
Qed.
Lemma reachable_intents w a b : reachable_arcade w → a ∈ admissions (adm desk w) → b ∈ admissions (adm desk w) →
  is_Some (Admissions.intent a) → Admissions.intent a = Admissions.intent b → a = b.
Proof.
  intros Hr Ha Hb Hi He. pose proof (arcade_reachable _ Hr) as Hok. eapply id_inj; [done..|].
  assert (Hs : intents_ok (adm desk w)).
  { apply (star_invariant arcade_step intents_ok empty_arcade); [|intros x y Hx; by apply not_elem_of_nil in Hx|exact Hr].
    intros x y Hx Hst. by eapply intents_step. }
  by apply Hs.
Qed.

Lemma stands_in w row order : stands_for w row order → row ∈ admissions (adm desk w).
Proof. intros Hs. by destruct (byId_Some _ _ _ (sf_row _ _ _ Hs)). Qed.

(** A recovery of a row of the past hands out that row as it is now. *)
Lemma recover_later o ticket w t order w' :
  reachable_arcade w → (∃ b, byId (adm_id ticket) (admissions (adm desk w)) = Some b ∧ evolves ticket b) →
  recover o ticket w = (inl (Some (t, order)), w') →
  ∃ row, t = Some row ∧ Admissions.game row = Admissions.game ticket ∧ requestId row = requestId ticket
    ∧ stands_for w' row order.
Proof.
  intros Hr (b & Hb & He) Hrec. destruct (ev_same _ _ He) as (_ & Hq & Hg & _).
  destruct (recover_hands _ _ _ _ _ _ _ (arcade_reachable _ Hr) Hb Hg Hq Hrec) as (row & ? & _ & ? & ? & ?).
  by exists row.
Qed.

(** What a purchase promises of the ticket it hands out. *)
Definition hands_out (o : PaymentOptions W) (g : ArcadeGame) (rq : string) (tk : Ticket) (w' : W) : Prop :=
  ∃ row order, ticketBody (Some row) order (op_mode o) = inl tk ∧ Admissions.game row = g
    ∧ requestId row = toLowerCase rq ∧ stands_for w' row order.

Lemma conclude_hands o ticket result w tk w' :
  reachable_arcade w → (∃ b, byId (adm_id ticket) (admissions (adm desk w)) = Some b ∧ evolves ticket b) →
  UUID (adm_id ticket) = true → toLowerCase (adm_id ticket) = adm_id ticket →
  conclude o ticket result w = (inl tk, w') →
  ∃ row order, ticketBody (Some row) order (op_mode o) = inl tk ∧ Admissions.game row = Admissions.game ticket
    ∧ requestId row = requestId ticket ∧ stands_for w' row order.
Proof.
  intros Hr (b & Hb & He) Hu Hl. unfold conclude. pose proof (row_read (adm_id ticket) w) as Hread.
  destruct (or_thrown _ w) as [r w1]. destruct Hread as (-> & [[-> _]|(f & -> & _)]); [|done].
  rewrite Hl, Hb. intros Hc. destruct (recover o b w) as [[[[t order]|]|f] w2] eqn:Hrec; [| |done].
  - destruct (ev_same _ _ He) as (Hid & Hq & Hg & _).
    destruct (recover_later o b w t order w2) as (row & -> & Hg' & Hq' & Hs); [done| |done|].
    { exists b. split; [by rewrite Hid|apply evolves_refl]. }
    apply pair_equal_spec in Hc as [Htk <-]. exists row, order. split_and!; [done|congruence..|done].
  - destruct result as [|code ? ? ? ?]; [|destruct (leaves_doubt code)];
      (destruct (on_adm _ w2) as [[[]|e] w3]; discriminate Hc).
Qed.

Lemma conclude_moved o ticket result w : moved w (conclude o ticket result w).2.
Proof.
  unfold conclude. pose proof (row_read (adm_id ticket) w) as Hread.
  destruct (or_thrown _ w) as [r w1]. destruct Hread as (-> & _).
  pose proof (moved_refl w) as Hm.
  destruct r as [[t|]|f]; [|done..]. pose proof (recover_moved o t w) as Hrec.
  destruct (recover o t w) as [[[[t' order]|]|f] w2]; cbn [snd] in *; [done| |done].
  assert (Hend : ∀ b c f, moved w (match on_adm (fail_ (adm_id ticket) b c) w2 with
      (Throw e, w) => (inr (thrown e), w) | (Ok _, w) => (inr f : Ticket + fault, w) end).2).
  { intros b c f. pose proof (fail_moved (adm_id ticket) b c w2) as Hf.
    destruct (on_adm _ w2) as [[[]|e] w3]; cbn [snd] in *; by eapply moved_trans. }
  destruct result as [|code ? ? ? ?]; [|destruct (leaves_doubt code)]; apply Hend.
Qed.

Lemma pay_hands o g ticket w tk w' :
  sound_outside o → reachable_arcade w → ticket ∈ admissions (adm desk w) →
  pay o g ticket w = (inl tk, w') →
  ∃ row order, ticketBody (Some row) order (op_mode o) = inl tk ∧ Admissions.game row = Admissions.game ticket
    ∧ requestId row = requestId ticket ∧ stands_for w' row order.
Proof.
  intros Ho Hr Hin. destruct (ao_lower _ (arcade_reachable _ Hr) _ Hin) as [Hu Hl].
  unfold pay. pose proof (purchase_moved o g ticket w Ho) as Hm.
  destruct (payForDelegatedResource _ _ w) as [[result|e] w1]; cbn [snd] in Hm.
  - destruct (conclude o ticket result w1) as [[tk'|[code status|e]] w2] eqn:Hc;
      [|done|by destruct (on_adm _ w2) as [[[]|?] w3]].
    intros [= <- <-]. eapply conclude_hands; [by eapply reachable_moved| |done..]. by eapply later_row.
  - destruct (on_adm _ w1) as [[[]|?] w3]; discriminate.
Qed.
Lemma pay_moves o g ticket w : sound_outside o → moved w (pay o g ticket w).2.
Proof.
  intros Ho. unfold pay. pose proof (purchase_moved o g ticket w Ho) as Hm.
  assert (Hend : ∀ (r : Ticket + fault) w1, moved w w1 → moved w (match r with
      | inr (thrown _) => match on_adm (fail_ (adm_id ticket) false "PAYMENT_INTERRUPTED") w1 with
                          | (Throw e, w) => (inr (thrown e), w) | (Ok _, w) => (inr payment_unresolved, w) end
      | _ => (r, w1) end).2).
  { intros r w1 H1. destruct r as [tk|[code status|e]]; [done..|].
    pose proof (fail_moved (adm_id ticket) false "PAYMENT_INTERRUPTED" w1) as Hf.
    destruct (on_adm _ w1) as [[[]|e'] w3]; cbn [snd] in *; by eapply moved_trans. }
  destruct (payForDelegatedResource _ _ w) as [[result|e] w1]; cbn [snd] in Hm; [|by apply (Hend (inr (thrown e)))].
  pose proof (conclude_moved o ticket result w1) as Hc. destruct (conclude o ticket result w1) as [r w2].
  apply Hend. by eapply moved_trans.
Qed.

Lemma reconcile_moved o ticket w : sound_outside o → moved w (reconcile_first o ticket w).2.
Proof.
  intros Ho. unfold reconcile_first. destruct (Admissions.intent ticket) as [i|]; [|apply moved_refl].
  destruct (reconcile o) as [r|] eqn:Hr; [|apply moved_refl]. destruct (unresolved ticket); [|apply moved_refl].
  pose proof (so_reconcile _ Ho r i w Hr) as Hm. by destruct (r i w) as [[[]|e] w1].
Qed.

(** A new ticket has no intent: there is nothing to reconcile or to recover. *)
Lemma proceed_unbound o g ticket created w : Admissions.intent ticket = None →
  proceed o g ticket created w =
    if bool_decide (Admissions.status ticket = Admissions.rejected) then (inr payment_rejected, w)
    else if negb created then (inr payment_unresolved, w) else pay o g ticket w.
Proof. intros Hi. unfold proceed, reconcile_first, recover. by rewrite Hi. Qed.

Lemma buy_hands o g rq w tk w' : sound_outside o → reachable_arcade w → options = Some o →
  buy g rq w = (inl tk, w') → hands_out o g rq tk w' ∧ reachable_arcade w'.
Proof.
  intros Ho Hr Hopt. unfold buy. rewrite Hopt.
  destruct (take_ticket rq g w) as [[[ticket created]|e] w1] eqn:Ht; [|done].
  destruct (take_ticket_spec _ _ _ _ _ _ Ht) as (Hm1 & Hq & Hg & Hin & _ & Hnew).
  pose proof (reachable_moved _ _ Hr Hm1) as Hr1. destruct created.
  { destruct (Hnew eq_refl) as (_ & _ & Hst & Hi). rewrite proceed_unbound, Hst by done.
    rewrite bool_decide_eq_false_2 by done. cbn [negb]. intros Hp.
    destruct (pay_hands o g ticket w1 tk w' Ho Hr1 Hin Hp) as (row & order & Htk & Hg' & Hq' & Hs).
    pose proof (pay_moves o g ticket w1 Ho) as Hm. rewrite Hp in Hm.
    split; [exists row, order; split_and!; [done|congruence..|done]|by eapply reachable_moved]. }
  unfold proceed. pose proof (reconcile_moved o ticket w1 Ho) as Hm2.
  destruct (reconcile_first o ticket w1) as [[f|] w2]; cbn [snd] in Hm2; [done|].
  pose proof (reachable_moved _ _ Hr1 Hm2) as Hr2. pose proof (recover_moved o ticket w2) as Hm3.
  pose proof (recover_later o ticket w2) as Hl.
  destruct (recover o ticket w2) as [[[[t order]|]|f] w3]; cbn [snd] in *; [| |done].
  - intros He. destruct (Hl t order w3 Hr2 (later_row _ _ _ Hr1 Hin Hm2) eq_refl) as (row & -> & Hg' & Hq' & Hs).
    apply pair_equal_spec in He as [Htk <-].
    split; [exists row, order; split_and!; [done|congruence..|done]|by eapply reachable_moved].
  - by case_bool_decide.
Qed.

(** *** What is confirmed can be delivered *)
Definition ticket_order (t : Admission) (i : string) (order : Order) : Prop :=
  order_intent order = i ∧ order_seller order = SLUG ∧ order_item order = game_name (Admissions.game t)
  ∧ order_amountBase order = ARCADE_TICKET_AMOUNT.
(** The payment of an intent is confirmed: its order is on file, or only the journal has it. *)
Inductive confirmed (o : PaymentOptions W) (w : W) (t : Admission) (i : string) : Order → Prop :=
  | on_file order : getByIntent i (cat desk w) = Some order → ticket_order t i order → confirmed o w t i order
  | journalled j input order c : getByIntent i (cat desk w) = None →
      journal_ok (journal desk w) → read_row i (journal desk w) = Some j → journal_order (op_payTo o) t j = Some input →
      createOnce input (randomBytes desk w).1 (cat desk (randomBytes desk w).2) = Ok (order, c) →
      cat desk (randomBytes desk w).2 = cat desk w → confirmed o w t i order.

Lemma journal_order_spec (o : PaymentOptions W) t j input i w : journal_ok (journal desk w) → read_row i (journal desk w) = Some j →
  journal_order (op_payTo o) t j = Some input →
  oi_paymentIntentId input = i ∧ oi_sellerSlug input = SLUG ∧ oi_itemKey input = game_name (Admissions.game t)
  ∧ oi_amountBase input = ARCADE_TICKET_AMOUNT.
Proof.
  intros Hj Hrow. unfold journal_order. destruct (terminal j); [|done].
  destruct (_ && _) eqn:Hg; [|done]. intros [= <-]. cbn. rewrite !andb_true_iff in Hg.
  destruct Hg as [_ Ha%Z.eqb_eq]. unfold read_row in Hrow. destruct (settlement_intents _ !! i) as [r|] eqn:Hr; [|done].
  injection Hrow as <-. destruct (jok_key _ Hj _ _ Hr) as [Hk _]. split_and!; try done.
Qed.

Lemma recover_confirmed o t i order w :
  reachable_arcade w → t ∈ admissions (adm desk w) → Admissions.intent t = Some i →
  Admissions.status t ≠ Admissions.rejected → confirmed o w t i order →
  ∃ row w', recover o t w = (inl (Some (Some row, order)), w') ∧ adm_id row = adm_id t
    ∧ (Admissions.status row = ready_ ∨ Admissions.status row = consumed).
Proof.
  intros Hr Hin Hi Hst Hc. destruct (reachable_hash _ _ _ Hr Hin Hi) as [Hh Hlow].
  pose proof (arcade_reachable _ Hr) as Hok. destruct (ao_lower _ Hok _ Hin) as [Hu Hl].
  assert (Hread : Settlement.read i (journal desk w) = Ok (read_row i (journal desk w), journal desk w)).
  { unfold Settlement.read, hex, matching, tlift, tbind. cbn -[re_0x]. change (32 * 2) with 64. rewrite Hh. cbn. by rewrite Hlow. }
  assert (Hready : ∀ w1, adm desk w1 = adm desk w → order_intent order = i → ∃ row s,
    ready (adm_id t) (order_intent order) (adm desk w1) = Ok (Some row, s) ∧ adm_id row = adm_id t
    ∧ (Admissions.status row = ready_ ∨ Admissions.status row = consumed)).
  { intros w1 -> ->. pose proof (find_key adm_id _ t (ao_ids _ Hok) Hin) as Hf. fold (byId (adm_id t) (admissions (adm desk w))) in Hf.
    assert (Hok1 : is_ok (ready (adm_id t) i (adm desk w)) = true).
    { unfold ready, Admissions.uuid, Admissions.hash, tlift, tbind, tget, tret, tmodify, tgets, throw_when.
      rewrite Hu. cbn -[byId UUID re_0x toLowerCase]. rewrite Hl, Hf, Hh. cbn -[byId UUID re_0x toLowerCase].
      rewrite Hlow, bool_decide_eq_true_2 by done. cbn -[byId]. by destruct (Admissions.status t). }
    destruct (returns_value _ Hok1) as (oo & s & Hrd).
    destruct (ready_hands _ _ _ _ _ Hok Hl Hrd) as (t0 & row & _ & -> & _ & Hid & _ & _ & Hst' & _).
    by exists row, s. }
  assert (Hend : ∀ w1, adm desk w1 = adm desk w → ticket_order t i order → ∃ row w',
    (if negb (String.eqb (order_seller order) SLUG)
        || negb (String.eqb (order_item order) (game_name (Admissions.game t)))
        || negb (order_amountBase order =? ARCADE_TICKET_AMOUNT)
     then (inr payment_conflict, w1)
     else let '(r, w) := or_thrown (on_adm (ready (adm_id t) (order_intent order))) w1 in
          (match r with inl x => inl (Some (x, order)) | inr f => inr f end, w))
    = (inl (Some (Some row, order)), w') ∧ adm_id row = adm_id t
    ∧ (Admissions.status row = ready_ ∨ Admissions.status row = consumed)).
  { intros w1 Hw1 (Hoi & -> & -> & ->). rewrite !String.eqb_refl, Z.eqb_refl. cbn [negb orb].
    unfold or_thrown, on_adm. destruct (Hready w1 Hw1 Hoi) as (row & s & -> & Hid & Hs). by exists row, (put_adm desk s w1). }
  unfold recover. rewrite Hi, Hread. destruct Hc as [order Hf Ho|j input order c Hf Hj Hrow Hjo Hcr Hcat]; rewrite Hf.
  - by apply Hend.
  - rewrite Hrow. cbn [mbind option_bind]. rewrite Hjo. destruct (sd_draw Hdesk w) as (_ & _ & Hd).
    destruct (randomBytes desk w) as [bytes w1]. cbn [fst snd] in *.
    pose proof (on_cat_adm (createOnce input bytes) w1) as Hadm. unfold on_cat in *. rewrite Hcr in *. cbn [rbind snd] in *.
    destruct (journal_order_spec _ _ _ _ _ _ Hj Hrow Hjo) as (Hji & Hjs & Hjk & Hja).
    apply Hend; [congruence|]. apply createOnce_spec in Hcr as (_ & _ & _ & _ & [[Hb _]|(_ & _ & _ & _ & H1 & _ & H2 & H3 & _ & H4)]).
    + unfold getByIntent in Hf. rewrite Hji, Hcat in Hb. congruence.
    + unfold ticket_order. by rewrite H1, H2, H3, H4.
Qed.

(** *** A row that nothing is bound to *)
Definition stuck (t : Admission) (w : W) : Prop :=
  reachable_arcade w ∧ t ∈ admissions (adm desk w) ∧ unresolved t = true ∧ Admissions.intent t = None.

Lemma stuck_same t w w' : stuck t w → adm desk w' = adm desk w → stuck t w'.
Proof. unfold stuck, reachable_arcade. by intros Hs ->. Qed.

Lemma recover_stuck t o ticket w : stuck t w → ticket ∈ admissions (adm desk w) → stuck t (recover o ticket w).2.
Proof.
  intros Hs Hin. pose proof (recover_cases o ticket w) as Hc. pose proof (recover_moved o ticket w) as Hm.
  destruct (recover o ticket w) as [r w']. cbn [snd] in *.
  destruct Hc as [[He _]|(w1 & order & t' & s & _ & _ & _ & _ & Hr & -> & _)]; [by eapply stuck_same|].
  destruct Hs as (Hra & Ht & Hu & Hi). split_and!; try done; [by eapply reachable_moved|].
  rewrite (proj1 (sd_adm Hdesk _ _)). pose proof (arcade_reachable _ Hra) as Hok.
  destruct (ao_lower _ Hok _ Hin) as [_ Hl].
  apply ready_spec in Hr as (_ & _ & x & Hx & Hint & [(_ & _ & ->)|(_ & -> & _)]); [done|].
  destruct (byId_Some _ _ _ Hx) as [Hinx Hidx]. apply list_elem_of_fmap. exists t. split; [|done].
  destruct (String.eqb_spec (adm_id t) (adm_id ticket)) as [He|]; [|done]. exfalso.
  assert (x = t) by (eapply id_inj; [done..|congruence]). congruence.
Qed.

Lemma get_stuck t i w : stuck t w →
  stuck t (get i w).2 ∧ (toLowerCase i = adm_id t → ∃ f, (get i w).1 = inr f).
Proof.
  intros Hs. unfold get. destruct options as [o|]; [|by split; [|eexists]]. pose proof (row_read i w) as Hread.
  destruct (or_thrown _ w) as [r w1]. destruct Hread as (-> & [[-> _]|(f & -> & _)]); [|by split; [|eexists]].
  destruct (byId _ _) as [t'|] eqn:Hb; [|by split; [|eexists]]. destruct (byId_Some _ _ _ Hb) as [Hin Hid].
  pose proof (recover_stuck t o t' w Hs Hin) as Hrs. split.
  - destruct (recover o t' w) as [[[[x order]|]|f] w2]; done.
  - intros He. destruct Hs as (Hra & Ht & _ & Hi).
    assert (t' = t) as -> by (eapply id_inj; [by apply arcade_reachable|done..|congruence]).
    unfold recover. rewrite Hi. by eexists.
Qed.
Lemma consume_stuck t i rn w : stuck t w → stuck t (consume i rn w).2.
Proof.
  intros Hs. unfold consume. destruct (get_stuck t i w Hs) as [Hg Hself].
  destruct (get i w) as [[tk|f] w1]; cbn [fst snd] in *; [|done].
  assert (Hc : stuck t (on_adm (Admissions.consume i rn) w1).2).
  { destruct Hg as (Hra & Ht & Hu & Hi). pose proof (arcade_reachable _ Hra) as Hok.
    assert (Hm : moved w1 (on_adm (Admissions.consume i rn) w1).2)
      by (apply on_adm_step; intros a s Ha; by eapply step_consume).
    split_and!; [by eapply reachable_moved| |done..]. unfold on_adm in *.
    destruct (Admissions.consume i rn (adm desk w1)) as [[a s]|e] eqn:Hcon; [|done]. cbn [snd].
    rewrite (proj1 (sd_adm Hdesk _ _)).
    destruct (consume_spec _ _ _ _ _ Hok Hcon) as (x & Hx & [(_ & _ & _ & ->)|(Hst & _ & _ & ->)]); [done|].
    destruct (byId_Some _ _ _ Hx) as [Hinx Hidx]. apply list_elem_of_fmap. exists t. split; [|done].
    destruct (String.eqb_spec (adm_id t) (toLowerCase i)) as [He|]; [|done]. exfalso.
    by destruct (Hself (eq_sym He)). }
  destruct (on_adm _ w1) as [[a|e] w2]; cbn [snd] in Hc; [|done]. by apply get_stuck.
Qed.

(** No receipt can be looked for either: [reconcile] leaves the admissions alone. *)
Definition quiet_reconcile (o : PaymentOptions W) : Prop :=
  ∀ r i w, reconcile o = Some r → adm desk (r i w).2 = adm desk w.
Lemma buy_stuck t o g rq w : options = Some o → quiet_reconcile o → stuck t w → stuck t (buy g rq w).2
  ∧ (byRequest (toLowerCase rq) (admissions (adm desk w)) = None ∨ requestId t = toLowerCase rq →
     ∃ f, (buy g rq w).1 = inr f).
Proof.
  intros Hopt Hq Hs. unfold buy. rewrite Hopt. pose proof (take_ticket_spec rq g w) as Ht.
  destruct Hs as (Hra & Hin & Hu & Hi).
  assert (Hun : existsb unresolved (admissions (adm desk w)) = true)
    by (apply existsb_exists; exists t; split; [by apply list_elem_of_In|done]).
  assert (Hthrow : ∀ e w1, take_ticket rq g w = (Throw e, w1) → adm desk w1 = adm desk w).
  { unfold take_ticket. destruct (sd_draw Hdesk w) as (E1 & _ & _). destruct (randomUUID desk w) as [n w2].
    destruct (sd_draw Hdesk w2) as (_ & E2 & _). destruct (clock desk w2) as [now w3]. cbn [snd] in *.
    intros e w1. unfold on_adm. destruct (tbind _ _ _) as [[? ?]|?]; [done|]. intros [= <- <-]. congruence. }
  destruct (take_ticket rq g w) as [[[ticket created]|e] w1].
  2:{ specialize (Hthrow e w1 eq_refl). split; [by apply (stuck_same t w)|by eexists]. }
  destruct (Ht ticket created w1 eq_refl) as (_ & Hrq & _ & _ & Hold & Hnew).
  destruct created; [destruct (Hnew eq_refl) as (_ & Hno & _); congruence|].
  destruct (Hold eq_refl) as [Hin0 Hsame]. assert (Hs1 : stuck t w1) by (by apply (stuck_same t w)).
  unfold proceed.
  assert (Hs2 : stuck t (reconcile_first o ticket w1).2 ∧ adm desk (reconcile_first o ticket w1).2 = adm desk w1).
  { assert (He : adm desk (reconcile_first o ticket w1).2 = adm desk w1).
    { unfold reconcile_first. destruct (Admissions.intent ticket) as [i|]; [|done].
      destruct (reconcile o) as [r|] eqn:Hr; [|done]. destruct (unresolved ticket); [|done].
      specialize (Hq r i w1 Hr). by destruct (r i w1) as [[[]|e] w2]. }
    split; [by apply (stuck_same t w1)|done]. }
  destruct (reconcile_first o ticket w1) as [[f|] w2] eqn:Hrec; cbn [snd] in Hs2; destruct Hs2 as [Hs2 Hadm2];
    [by split; [|eexists]|].
  assert (Hin2 : ticket ∈ admissions (adm desk w2)) by (rewrite Hadm2; congruence).
  pose proof (recover_stuck t o ticket w2 Hs2 Hin2) as Hs3.
  split.
  - destruct (recover o ticket w2) as [[[[x order]|]|f] w3]; [done| |done]. by case_bool_decide.
  - intros [Hnone|Hown].
    + exfalso. pose proof (find_key requestId _ ticket (ao_requests _ (arcade_reachable _ Hra)) Hin0) as Hf.
      rewrite Hrq in Hf. unfold byRequest in Hnone. congruence.
    + assert (ticket = t) as ->.
      { pose proof (ao_requests _ (arcade_reachable _ Hra)) as Hnd.
        pose proof (find_key requestId _ ticket Hnd Hin0) as H1. pose proof (find_key requestId _ t Hnd Hin) as H2.
        rewrite Hrq, <- Hown in H1. congruence. }
      unfold recover. rewrite Hi. case_bool_decide; by eexists.
Qed.

(** *** One payment for one request *)

(** A request that is on file, or behind an unresolved ticket, is never paid for. *)
Definition settled_request (rq : string) (s : ArcadeDb) : Prop :=
  is_Some (byRequest (toLowerCase rq) (admissions s)) ∨ existsb unresolved (admissions s) = true.

Lemma take_ticket_settled rq g w : settled_request rq (adm desk w) →
  match take_ticket rq g w with (Ok (_, created), _) => created = false | _ => True end.
Proof.
  intros Hs. pose proof (take_ticket_spec rq g w) as Ht.
  destruct (take_ticket rq g w) as [[[ticket []]|e] w1]; [|done..].
  destruct (Ht ticket true w1 eq_refl) as (_ & _ & _ & _ & _ & Hnew).
  destruct (Hnew eq_refl) as (Hn & Hu & _). destruct Hs as [[a Ha]|Hs]; congruence.
Qed.

Lemma settled_by_row s s' a rq : arcade_ok s → star arcade_step s s' → a ∈ admissions s →
  requestId a = toLowerCase rq → settled_request rq s'.
Proof.
  intros Hok Hst Hin Hq. destruct (star_evolves _ _ Hok Hst) as [Hok' Hev].
  destruct (evolved_row _ _ _ Hok' Hev Hin) as (b & [Hb _]%byId_Some & Heb). left.
  destruct (ev_same _ _ Heb) as (_ & Hqb & _). exists b. unfold byRequest.
  pose proof (find_key requestId _ b (ao_requests _ Hok') Hb) as Hf. by rewrite Hqb, Hq in Hf.
Qed.

Lemma recover_faults o ticket w f w' : recover o ticket w = (inr f, w') → recovery_fault f.
Proof.
  intros Hr. pose proof (recover_cases o ticket w) as Hc. rewrite Hr in Hc.
  by destruct Hc as [[_ [?|(f' & [= <-] & ?)]]|(? & ? & ? & ? & _ & _ & _ & _ & _ & _ & ?)].
Qed.

End sound.
End purchases.

(** ** What a purchase does *)
Section theorems.
Context `{T : Toolkit} `{!ToolkitLaws T} {W : Type}.
Variable url_origin : string → option string.
Variable desk : Desk W.
Context (Hdesk : sound_desk desk).

Notation buy o seller := (buy url_origin desk (Some o) seller).
Notation sound o seller := (sound_outside desk seller o).

(** The purchase asks neither the seller nor the signer, nor anything else of the client:
    whatever these would answer or change, it ends the same way. *)
Definition unpaid (o : PaymentOptions W) seller g rq (w : W) : Prop :=
  ∀ client' seller', buy {| op_mode := op_mode o; op_payTo := op_payTo o; client := client';
                           reconcile := reconcile o |} seller' g rq w = buy o seller g rq w.

Lemma settled_unpaid o seller g rq w : settled_request rq (adm desk w) → unpaid o seller g rq w.
Proof.
  intros Hs client' seller'. unfold Purchases.buy.
  pose proof (take_ticket_settled desk Hdesk rq g w Hs) as Hc.
  destruct (take_ticket desk rq g w) as [[[ticket created]|e] w1]; [|done]. subst created. reflexivity.
Qed.


(** C24: A ticket stands for a payment of its own. When a purchase hands out a ticket, its row
    is ready or consumed, of the asked game and request, and bound to the intent of an order
    on file: this shop's, of this game, paid in full; the answer shows that order's payer
    and transaction; and no other ticket has that intent, so an order lets in once. *)
Theorem ticket_has_its_order o seller g rq w tk w' :
  sound o seller → reachable_arcade desk w → buy o seller g rq w = (inl tk, w') →
  ∃ row order, ticketBody (Some row) order (op_mode o) = inl tk
    ∧ Admissions.game row = g ∧ requestId row = toLowerCase rq ∧ stands_for desk w' row order
    ∧ ∀ other, other ∈ admissions (adm desk w') → Admissions.intent other = Admissions.intent row → other = row.
Proof.
  intros Ho Hr Hb.
  destruct (buy_hands url_origin desk (Some o) seller Hdesk o g rq w tk w' Ho Hr eq_refl Hb)
    as [(row & order & Htk & Hg & Hq & Hs) Hr'].
  exists row, order. split_and!; [done..|]. intros other Hin He. symmetry.
  eapply (reachable_intents desk w'); [done| |done| |done]; [by eapply stands_in|].
  rewrite (sf_intent _ _ _ _ Hs). by eexists.
Qed.

(** A refused ticket was not charged. When a purchase that took its own row ends as
    [payment_rejected], the client refused with a code that leaves no doubt; so if a
    payment was sent at all, the seller answered it, with a failure that names no
    transaction, no status of a lost answer and no word of a settlement that may have
    happened.  Money in doubt therefore never frees the ticket. *)
Theorem refused_ticket_was_not_charged o seller g rq w ticket w1 w' :
  let c := purchase_config desk seller o g ticket in
  take_ticket desk rq g w = (Ok (ticket, true), w1) →
  buy o seller g rq w = (inr payment_rejected, w') →
  (∃ code status detail id tx, outcome_of url_origin c w1 = Ok (Refused code status detail id tx)
     ∧ leaves_doubt code = false)
  ∧ ∀ h second, PaymentClient.Asked (Some h) second ∈ PaymentClient.log_of url_origin c w1 →
      ¬ in_doubt second ∧ ∃ s, second = Ok s ∧ http_ok s = false.
Proof.
  intros c Ht. unfold Purchases.buy. rewrite Ht.
  destruct (take_ticket_spec desk Hdesk _ _ _ _ _ _ Ht) as (_ & _ & _ & _ & _ & Hnew).
  destruct (Hnew eq_refl) as (_ & _ & Hst & Hi). rewrite proceed_unbound, Hst by done.
  rewrite bool_decide_eq_false_2 by done. cbn [negb]. unfold pay. fold c.
  destruct (payForDelegatedResource url_origin c w1) as [[r|e] w2] eqn:Hp.
  2:{ by destruct (on_adm desk _ w2) as [[[]|?] ?]. }
  intros Hc. assert (Hr : ∃ code s d i t, r = Refused code s d i t ∧ leaves_doubt code = false).
  { destruct (conclude desk o ticket r w2) as [[tk|[cd st|e]] w3] eqn:Hcon; [done| |by destruct (on_adm desk _ w3) as [[[]|?] ?]].
    assert (Hpr : (inr (ArcadeError cd st) : Ticket + fault) = inr payment_rejected) by congruence. clear Hc.
    injection Hpr as -> ->. unfold payment_unresolved, payment_conflict in *.
    unfold conclude in Hcon. destruct (or_thrown _ w2) as [[[t|]|f] w4] eqn:Hor; [|congruence|].
    2:{ unfold or_thrown in Hor. destruct (on_adm desk _ w2) as [[?|?] ?]; congruence. }
    destruct (recover desk o t w4) as [[[[t' order]|]|f] w5] eqn:Hrec.
    - unfold ticketBody in Hcon. destruct t'; congruence.
    - destruct r as [|code s d i t0]; [by destruct (on_adm desk _ w5) as [[[]|?] ?]|].
      exists code, s, d, i, t0. split; [done|]. destruct (leaves_doubt code); [|done].
      by destruct (on_adm desk _ w5) as [[[]|?] ?].
    - by apply recover_faults in Hrec as [->|[e ->]]. }
  destruct Hr as (code & s & d & i & t & -> & Hd). unfold outcome_of. rewrite Hp. split; [by exists code, s, d, i, t|].
  intros h second Hin. destruct (presented_outcome url_origin c w1 h second Hin) as (offer & leaf & id & Ho & _).
  unfold outcome_of in Ho. rewrite Hp in Ho. cbn [fst] in Ho. symmetry in Ho.
  destruct (answer_doubt url_origin second offer leaf h id _ Ho) as [Hdoubt _]. split.
  - intros Hin'. apply (proj2 Hdoubt) in Hin'. cbn [code_of] in Hin'. injection Hin' as ->. discriminate Hd.
  - destruct second as [s'|e]; [|cbn in Ho; injection Ho as <- _; discriminate Hd]. exists s'. split; [done|].
    destruct (http_ok s') eqn:Hok; [|done]. cbn [answer_result] in Ho. rewrite Hok in Ho. cbn [negb] in Ho.
    unfold delivered_result in Ho. apply rbind_ok in Ho as (ct & _ & Hk).
    match type of Hk with match ?b with _ => _ end = _ => destruct b as [resource|e] end;
      [by apply rbind_ok in Hk as (clean & _ & Hk)|injection Hk as <- _; discriminate Hd].
Qed.

Lemma drop_space_none l : forallb (λ c, negb (is_space c)) l = true → drop_space l = l.
Proof. destruct l as [|c l]; [done|]. intros [Hc _]%andb_true_iff. cbn. by apply negb_true_iff in Hc as ->. Qed.
Lemma trim_none s : forallb (λ c, negb (is_space c)) (chars s) = true → trim s = s.
Proof.
  intros Hs. unfold trim. rewrite (drop_space_none (chars s)) by done.
  assert (Hr : forallb (λ c, negb (is_space c)) (rev (chars s)) = true).
  { rewrite forallb_forall in *. intros c Hc%in_rev. by apply Hs. }
  by rewrite drop_space_none, rev_involutive, string_chars.
Qed.
Lemma trim_address a : isAddress a = true → trim a = a.
Proof.
  intros Ha%isAddress_shape. apply trim_none. unfold re_0x in Ha. destruct (strip_0x a) as [t|] eqn:Ht; [|done].
  apply strip_0x_Some in Ht as ->. change (forallb (λ c, negb (is_space c)) (chars t) = true). unfold re_class in Ha. rewrite !andb_true_iff in Ha. destruct Ha as [_ Hh].
  rewrite forallb_forall in *. intros c Hin. apply Hh in Hin. clear - Hin. destruct c as [[][][][][][][][]]; vm_compute in *; congruence.
Qed.

(** The intent a purchase binds before it sends anything is the one its payment settles
    under: the seller's paywall, built for the same receiving address and the ticket's
    price, derives it from the presented payload. *)
Theorem bound_intent_is_settled po (o : PaymentOptions W) terms leaf offer id manager p :
  isAddress (op_payTo o) = true →
  buildPaywall po = Ok terms → po_payTo po = op_payTo o → po_price po = ARCADE_TICKET_PRICE →
  leaf_ok manager leaf = true → Paywall.payload p = payload_of offer leaf id →
  Paywall.payment_intent terms p = ticket_intent (op_payTo o) leaf.
Proof.
  intros Haddr Hb Hpay Hprice Hleaf Hp. unfold buildPaywall in Hb.
  apply rbind_ok in Hb as (payTo & Hpt & Hb). apply rbind_ok in Hb as (amount & Ham & Hb).
  rewrite Hpay in Hpt. rewrite Hprice in Ham. vm_compute in Ham. injection Ham as <-.
  unfold parsePayTo in Hpt. rewrite (trim_address _ Haddr) in Hpt. apply throws_ok in Hpt as [_ Hpt].
  apply throws_ok in Hpt as [_ [= <-]]. apply throws_ok in Hb as [_ Hb]. apply rbind_ok in Hb as (u & _ & Hb).
  apply throws_ok in Hb as [_ [= <-]].
  unfold leaf_ok in Hleaf. rewrite !andb_true_iff in Hleaf. destruct Hleaf as [[Hm _] _].
  unfold Paywall.payment_intent, ticket_intent, derivePaymentIntentId. rewrite Hp. cbn.
  erewrite (encodeIntent_bytes PAYMENT_INTENT_DOMAIN GIWA_SEPOLIA_CAIP2); [reflexivity|reflexivity|by apply getAddress_lower|].
  rewrite getAddress_lower by (by apply getAddress_address). by apply getAddress_lower.
Qed.


(** A confirmed payment's ticket can be delivered, whatever was lost on the way: while
    its row is not refused and its intent's order is on file - or, after a crash before the
    order was written, only the journal has the settlement of this shop and price - [get]
    hands out the ticket with that order's payer and transaction, without a new payment. *)
Theorem confirmed_ticket_is_delivered o w t i order :
  reachable_arcade desk w → t ∈ admissions (adm desk w) → Admissions.intent t = Some i →
  Admissions.status t ≠ Admissions.rejected → confirmed desk o w t i order →
  ∃ tk w', get desk (Some o) (adm_id t) w = (inl tk, w') ∧ tk_id tk = adm_id t
    ∧ (tk_status tk = ready_ ∨ tk_status tk = consumed)
    ∧ tk_transaction tk = order_txHash order ∧ tk_payer tk = order_payer order.
Proof.
  intros Hr Hin Hi Hst Hc. unfold get. pose proof (row_read desk Hdesk (adm_id t) w) as Hread.
  destruct (ao_lower _ (arcade_reachable _ Hr) _ Hin) as [Hu Hl].
  destruct (or_thrown _ w) as [r w1]. destruct Hread as (-> & [[-> _]|(f & _ & Hf)]); [|congruence].
  rewrite Hl. unfold byId. rewrite (find_key adm_id _ t (ao_ids _ (arcade_reachable _ Hr)) Hin).
  destruct (recover_confirmed desk Hdesk o t i order w Hr Hin Hi Hst Hc) as (row & w2 & -> & Hid & Hs).
  eexists _, w2. split; [reflexivity|]. cbn. by rewrite Hid.
Qed.

(** A ticket that was reserved but never bound - the process ended before its payment was
    signed, so nothing can have been charged - jams the shop: it stays as it is through
    every purchase, [get] and [consume], no purchase of a new request and no repetition of
    its own is ever served, and its intent being null no receipt is ever looked for. *)
Theorem unbound_ticket_jams o seller t w :
  quiet_reconcile desk o → stuck desk t w →
  (∀ g rq, stuck desk t (buy o seller g rq w).2
     ∧ (byRequest (toLowerCase rq) (admissions (adm desk w)) = None ∨ requestId t = toLowerCase rq →
        ∃ f, (buy o seller g rq w).1 = inr f))
  ∧ (∀ i, stuck desk t (get desk (Some o) i w).2)
  ∧ (∀ i rn, stuck desk t (consume desk (Some o) i rn w).2).
Proof.
  intros Hq Hs. split_and!.
  - intros g rq. by apply (buy_stuck url_origin desk (Some o) seller Hdesk t o).
  - intros i. by apply get_stuck.
  - intros i rn. by apply consume_stuck.
Qed.
End theorems.

(** ** Witnesses: a shop with its three games, a buyer, and what the seller answers *)
Record ExWorld := { ew_adm : ArcadeDb; ew_cat : CatalogDb; ew_journal : JournalDb }.
Definition ex_desk : Desk ExWorld :=
  {| adm := ew_adm; put_adm := λ s w, {| ew_adm := s; ew_cat := ew_cat w; ew_journal := ew_journal w |};
     cat := ew_cat; put_cat := λ c w, {| ew_adm := ew_adm w; ew_cat := c; ew_journal := ew_journal w |};
     journal := ew_journal; randomUUID := λ w, (ex_uuid "9", w); clock := λ w, (1000, w);
     randomBytes := λ w, (Catalog.ex_bytes, w) |}.
Lemma ex_desk_sound : sound_desk ex_desk.
Proof. by constructor; repeat intros []. Qed.

Definition ex_payTo : string := "0x00000000000000000000000000000000000000de".
Definition ex_stall : SellerInput :=
  {| si_slug := SLUG; si_kind := hosted; si_name := "Mapae Arcade"; si_payTo := ex_payTo;
     si_baseUrl := None; si_manageTokenHash := None; si_contact := None; si_internal := true; si_createdAt := 1 |}.
Definition ex_item (g : ArcadeGame) : ItemInput :=
  {| ii_sellerSlug := SLUG; ii_key := game_name g; ii_name := game_name g; ii_description := "One game ticket";
     ii_priceBase := ARCADE_TICKET_AMOUNT; ii_resourceUrl := None; ii_createdAt := 1 |}.
Definition ex_market : CatalogDb :=
  catalog_of (upsert_item (ex_item Admissions.race) (catalog_of (upsert_seller ex_stall empty_catalog))).
Definition ex_world (s : ArcadeDb) : ExWorld := {| ew_adm := s; ew_cat := ex_market; ew_journal := empty_journal |}.
Definition ex_bound : string := ok_or "" (ticket_intent ex_payTo PaymentClient.ex_leaf).
Definition ex_paid_receipt : SettlementReceipt :=
  {| Paywall.intent := ex_bound; Paywall.payer := "0x00000000000000000000000000000000000000aa"; rc_amount := "1.0";
     Paywall.asset := MOCK_USDC_address; rc_payTo := ex_payTo; Paywall.network := GIWA_SEPOLIA_CAIP2;
     Paywall.transaction := Some PaymentClient.ex_hash; Paywall.replayed := false |}.
Definition ex_options : PaymentOptions ExWorld :=
  {| op_mode := simulation; op_payTo := ex_payTo; reconcile := None;
     client := {| provider := λ _ w, (Ok PaymentClient.ex_leaf, w); cf_manager := ex_manager;
                  trustedFacilitators := ["0x00000000000000000000000000000000000000ff"]; cf_preflight := None;
                  fetchImpl := λ _ w, (Throw (Error "unused"), w); getRandomValues := λ w, (Codec.ex_bytes, w) |} |}.
(** The paywall offers, then settles and writes the order; or refuses the delegation. *)
Definition ex_seller (g : ArcadeGame) (h : option string) : meth ExWorld HttpResponse := λ w,
  match h with
  | None => (Ok (ex_first PaymentClient.ex_shop), w)
  | Some h => (Ok (PaymentClient.ex_second 200 [] h), (on_settled ex_desk g ex_paid_receipt w).2)
  end.
Definition ex_refuser (g : ArcadeGame) (h : option string) : meth ExWorld HttpResponse := λ w,
  (Ok (match h with
       | None => ex_first PaymentClient.ex_shop
       | Some h => PaymentClient.ex_second 402 [("success", JBool false); ("errorReason", JStr DELEGATION_REJECTED)] h
       end), w).
Lemma ex_seller_sound s : s = ex_seller ∨ s = ex_refuser → sound_outside ex_desk s ex_options.
Proof.
  intros Hs. constructor; [|intros; try discriminate; apply moved_refl..].
  intros g h w. destruct Hs as [->| ->]; [|apply moved_refl]. destruct h as [h|]; [|apply moved_refl].
  unfold moved, ex_seller. cbn [snd]. unfold on_settled. cbn -[createOnce toTokenAmount].
  destruct (toTokenAmount _) as [a|e]; [|apply star_refl].
  match goal with |- context [on_cat ex_desk ?t w] =>
    pose proof (on_cat_adm ex_desk ex_desk_sound t w) as Hc; destruct (on_cat ex_desk t w) as [o w1] end.
  cbn [snd] in *. cbn in Hc. rewrite Hc. apply star_refl.
Qed.
Notation ex_buy seller := (buy ex_no_origin ex_desk (Some ex_options) seller Admissions.race).

Example ex_bought : ∃ tk w', ex_buy ex_seller (ex_uuid "1") (ex_world empty_arcade) = (inl tk, w')
  ∧ tk_status tk = ready_ ∧ tk_transaction tk = Some PaymentClient.ex_hash.
Proof. eexists _, _. split; [vm_compute; reflexivity|]. by split. Qed.


Lemma ticket_has_its_order_witness :
  ∃ tk w', ex_buy ex_seller (ex_uuid "1") (ex_world empty_arcade) = (inl tk, w')
    ∧ ∃ row order, ticketBody (Some row) order simulation = inl tk ∧ stands_for ex_desk w' row order.
Proof.
  destruct ex_bought as (tk & w' & Hb & _). exists tk, w'. split; [exact Hb|].
  destruct (ticket_has_its_order ex_no_origin ex_desk ex_desk_sound ex_options ex_seller Admissions.race (ex_uuid "1")
    (ex_world empty_arcade) tk w') as (row & order & Htk & _ & _ & Hs & _);
    [apply ex_seller_sound; by left|apply star_refl|exact Hb|].
  exists row, order. split; [exact Htk|exact Hs].
Defined.

Definition ex_row : Admission :=
  {| adm_id := ex_uuid "9"; requestId := ex_uuid "1"; Admissions.game := Admissions.race; Admissions.status := pending;
     Admissions.intent := None; Admissions.runId := None; adm_error := None; Admissions.createdAt := 1000 |}.
Definition ex_stuck : ExWorld := (take_ticket ex_desk (ex_uuid "1") Admissions.race (ex_world empty_arcade)).2.
Lemma ex_row_stuck : stuck ex_desk ex_row ex_stuck.
Proof.
  split_and!; [|vm_compute; left|reflexivity..]. eapply star_step; [apply star_refl|].
  eapply (step_reserve _ _ (ex_uuid "1") Admissions.race (ex_uuid "9") 1000); vm_compute; reflexivity.
Qed.

Lemma refused_ticket_was_not_charged_witness :
  ∃ w', ex_buy ex_refuser (ex_uuid "1") (ex_world empty_arcade) = (inr payment_rejected, w')
    ∧ ∃ code status detail id tx, outcome_of ex_no_origin
        (purchase_config ex_desk ex_refuser ex_options Admissions.race ex_row) ex_stuck = Ok (Refused code status detail id tx)
        ∧ leaves_doubt code = false.
Proof.
  eexists. split; [vm_compute; reflexivity|].
  eapply (refused_ticket_was_not_charged ex_no_origin ex_desk ex_desk_sound ex_options ex_refuser Admissions.race
    (ex_uuid "1") (ex_world empty_arcade) ex_row ex_stuck); vm_compute; reflexivity.
Defined.

Definition ex_paywall : PaywallOptions :=
  {| po_payTo := ex_payTo; po_price := ARCADE_TICKET_PRICE; po_description := "Mapae Arcade race ticket";
     po_extensions := None; po_identifiers := true |}.
Definition ex_presented : Presented :=
  {| payload := payload_of ex_wire_offer PaymentClient.ex_leaf "a-payment-identifier"; claimed := ""; identifier := None |}.
Lemma bound_intent_is_settled_witness :
  ∃ terms, buildPaywall ex_paywall = Ok terms
    ∧ Paywall.payment_intent terms ex_presented = ticket_intent ex_payTo PaymentClient.ex_leaf.
Proof.
  eexists. split; [vm_compute; reflexivity|].
  eapply (bound_intent_is_settled ex_paywall ex_options _ PaymentClient.ex_leaf ex_wire_offer "a-payment-identifier" ex_manager);
    vm_compute; reflexivity.
Defined.

(** The payment is under way: its intent is bound, its order written, its answer lost. *)
Definition ex_pending : Admission := with_intent ex_bound ex_row.
Definition ex_lost : ExWorld :=
  let s := arcade_of (bindIntent (ex_uuid "9") ex_bound (ew_adm ex_stuck)) in
  (on_settled ex_desk Admissions.race ex_paid_receipt (ex_world s)).2.
Definition ex_no_order : Order :=
  {| order_id := 0; order_seller := ""; order_item := ""; order_intent := ""; order_ticket := ""; order_payer := "";
     order_amountBase := 0; order_txHash := None; order_status := ""; order_createdAt := 0 |}.
Definition ex_sale : Order := default ex_no_order (getByIntent ex_bound (ew_cat ex_lost)).

Lemma confirmed_ticket_is_delivered_witness :
  ∃ tk w', get ex_desk (Some ex_options) (ex_uuid "9") ex_lost = (inl tk, w')
    ∧ tk_transaction tk = Some PaymentClient.ex_hash.
Proof.
  destruct (confirmed_ticket_is_delivered ex_desk ex_desk_sound ex_options ex_lost ex_pending ex_bound ex_sale)
    as (tk & w' & Hg & _ & _ & Ht & _).
  - eapply star_step; [apply (proj1 ex_row_stuck)|]. eapply (step_bind _ _ (ex_uuid "9") ex_bound). vm_compute. reflexivity.
  - vm_compute. left.
  - reflexivity.
  - discriminate.
  - apply on_file; vm_compute; [reflexivity|repeat split].
  - exists tk, w'. split; [exact Hg|]. rewrite Ht. vm_compute. reflexivity.
Defined.

Lemma unbound_ticket_jams_witness :
  ∃ f, (ex_buy ex_seller (ex_uuid "7") ex_stuck).1 = inr f.
Proof.
  destruct (unbound_ticket_jams ex_no_origin ex_desk ex_desk_sound ex_options ex_seller ex_row ex_stuck) as (Hb & _);
    [by intros r i w Hr|exact ex_row_stuck|].
  destruct (Hb Admissions.race (ex_uuid "7")) as [_ Hf]. apply Hf. left. vm_compute. reflexivity.
Defined.
