(* ===== verification/Calendar.v ===== *)
(** * Korean calendar days

    The day texts of packages/arcade/src/ranking.ts: every board, challenge and streak of
    the arcade turns over at 00:00 KST, and a day is the text [YYYY-MM-DD], compared as
    text.  [day_text] writes the day number of [Dates]; the operations on texts are then
    operations on numbers. *)

From Stdlib Require Import ZArith Lia Ascii String.
From stdpp Require Import base strings list.
From S2P Require Import Prelude Dates Validate Ledger Budget Token.
Open Scope string_scope.
Open Scope Z_scope.

Definition KST_OFFSET : Z := 9 * 60 * 60 * 1000.
Definition DAY_MS : Z := 24 * 60 * 60 * 1000.
(** Monday of ranking week 0. *)
Definition WEEK_ZERO : string := "1970-01-05".
Definition HONOR_GRACE_MS : Z := DAY_MS.

(** [Date.parse(`${day}T00:00:00Z`)] of a text of the shape [DAY], in days since 1970: a day
    the month does not have is carried over, as engines that accept it do. *)
Definition parse_day (s : string) : option Z :=
  match chars s with
  | [a; b; c; d; _; e; f; _; g; h] =>
      let month := dec_number [e; f] in
      let day := dec_number [g; h] in
      if (1 <=? month) && (month <=? 12) && (1 <=? day) && (day <=? 31)
      then Some (days_from_civil (dec_number [a; b; c; d], month, day)) else None
  | _ => None
  end.

Definition isRankingDay (value : string) : bool :=
  DAY value
  && match parse_day value with
     | None => false
     | Some n => match isoDay (n * DAY_MS) with Ok s => String.eqb s value | Throw _ => false end
     end.
Definition dayStart (day : string) : result Z :=
  throws negb (isRankingDay day) with Error "Invalid ranking day";
  match parse_day day with Some n => Ok (n * DAY_MS) | None => Throw (Error "Invalid ranking day") end.

Definition kstDay (at_ : Z) : result string := isoDay (at_ + KST_OFFSET).
Definition addDays (day : string) (n : Z) : result string :=
  let? start := dayStart day in isoDay (start + n * DAY_MS).
(** [Math.round] of a whole number of days. *)
Definition daysBetween (from to : string) : result Z :=
  let? b := dayStart to in let? a := dayStart from in Ok ((b - a) / DAY_MS).
(** [getUTCDay]: 1970-01-01 was a Thursday. *)
Definition getUTCDay (ms : Z) : Z := (ms / DAY_MS + 4) mod 7.
Definition kstWeek (day : string) : result string :=
  let? start := dayStart day in addDays day (- ((getUTCDay start + 6) mod 7)).

Inductive Period := day_ | week_.
Definition nextReset (at_ : Z) (period : Period) : result Z :=
  let? today := kstDay at_ in
  let? next := match period with
               | day_ => addDays today 1
               | week_ => let? w := kstWeek today in addDays w 7
               end in
  let? start := dayStart next in Ok (start - KST_OFFSET).

Definition rankingWeekIndex (week : string) : result Z :=
  let? monday := kstWeek week in
  throws negb (String.eqb monday week) || String.ltb week WEEK_ZERO with Error "Invalid ranking week";
  let? a := dayStart week in let? z := dayStart WEEK_ZERO in
  Ok ((a - z) / DAY_MS / 7).
Definition rankingWeekOf (index : Z) : result string :=
  throws negb (isSafeInteger index) || (index <? 0) with Error "Invalid ranking week";
  addDays WEEK_ZERO (index * 7).
Definition weekCutoff (week : string) : result Z :=
  let? _ := rankingWeekIndex week in
  let? next := addDays week 7 in
  let? start := dayStart next in
  Ok (start - KST_OFFSET + HONOR_GRACE_MS).
Definition sealedWeek (at_ : Z) : result (option string) :=
  let? today := kstDay (at_ - HONOR_GRACE_MS) in
  let? this := kstWeek today in
  let? week := addDays this (-7) in
  Ok (if String.ltb WEEK_ZERO week then Some week else None).

(** MapaeGuardians.sol's [_honor]: the honor of a week is refused before its seal; [timestamp] is
    the block's, in seconds. *)
Definition honor_week_refused (week timestamp : Z) : bool :=
  (week =? 0) || (timestamp <? (week * 7 + 11) * 86400 - 9 * 3600 + 86400).

Example sealed_monday : sealedWeek 1791817199999 = Ok (Some "2026-09-28").
Proof. vm_compute. reflexivity. Qed.
Example sealed_tuesday : sealedWeek 1791817200000 = Ok (Some "2026-10-05").
Proof. vm_compute. reflexivity. Qed.
Example cutoff_tuesday : weekCutoff "2026-10-05" = Ok 1791817200000.
Proof. vm_compute. reflexivity. Qed.
Example no_thirtieth : isRankingDay "2026-02-30" = false ∧ isRankingDay "2026-02-28" = true.
Proof. vm_compute. by split. Qed.

(** ** Day numbers as texts *)
Definition day_text (n : Z) : string := string_of_list_ascii (iso_date (civil_from_days n)).

Lemma dec_digit k : 0 <= k < 10 → code (ascii_of_N (Z.to_N (48 + k))) - 48 = k.
Proof. intros Hk. unfold code. rewrite N_ascii_embedding by lia. lia. Qed.
Lemma dec_digits w z : 0 <= z < 10 ^ Z.of_nat w → dec_number (digits w z) = z.
Proof.
  revert z. induction w as [|w IH]; intros z Hz; [cbn in *; unfold dec_number; cbn; lia|].
  rewrite Nat2Z.inj_succ, Z.pow_succ_r in Hz by lia. cbn [digits].
  rewrite dec_number_app, IH by (split; [apply Z.div_pos; lia|apply Z.div_lt_upper_bound; lia]).
  assert (H1 : dec_number [ascii_of_N (Z.to_N (48 + z mod 10))] = z mod 10)
    by (unfold dec_number; cbn [foldl]; rewrite dec_digit by (apply Z.mod_pos_bound; lia); lia).
  rewrite H1. cbn [length]. pose proof (Z.div_mod z 10). lia.
Qed.

(** The parts of a text of four-digit years. *)
Lemma four_parts n : four_digit_year n →
  ∃ y m d, civil_from_days n = (y, m, d) ∧ 0 <= y <= 9999 ∧ 1 <= m <= 12 ∧ 1 <= d <= 31
    ∧ day_text n = string_of_list_ascii (digits 4 y ++ "-"%char :: digits 2 m ++ "-"%char :: digits 2 d).
Proof.
  intros Hn%civil_from_days_bounds. unfold day_text. destruct (civil_from_days n) as [[y m] d].
  exists y, m, d. split_and!; try lia; [done|]. unfold iso_date.
  by rewrite (proj2 (Z.leb_le 0 y)), (proj2 (Z.leb_le y 9999)) by lia.
Qed.

Lemma parse_day_text n : four_digit_year n → parse_day (day_text n) = Some n.
Proof.
  intros Hn. destruct (four_parts n Hn) as (y & m & d & Hc & Hy & Hm & Hd & ->).
  unfold parse_day, chars. rewrite list_ascii_of_string_of_list_ascii.
  pose proof (dec_digits 4 y) as Ey. pose proof (dec_digits 2 m) as Em. pose proof (dec_digits 2 d) as Ed.
  specialize (Ey ltac:(simpl; lia)). specialize (Em ltac:(simpl; lia)). specialize (Ed ltac:(simpl; lia)).
  pose proof (digits_length 4 y) as Ly. pose proof (digits_length 2 m) as Lm. pose proof (digits_length 2 d) as Ld.
  destruct (digits 4 y) as [|y1 [|y2 [|y3 [|y4 [|]]]]]; try discriminate Ly.
  destruct (digits 2 m) as [|m1 [|m2 [|]]]; try discriminate Lm.
  destruct (digits 2 d) as [|d1 [|d2 [|]]]; try discriminate Ld.
  cbn [app]. rewrite Ey, Em, Ed. rewrite !(proj2 (Z.leb_le _ _)) by lia. cbn [andb].
  by rewrite <- Hc, days_from_civil_from_days.
Qed.

Lemma isoDay_text ms : four_digit_year (ms / DAY_MS) → isoDay ms = Ok (day_text (ms / DAY_MS)).
Proof.
  intros Hn. unfold isoDay. change MS_PER_DAY with DAY_MS.
  assert (Hm : Z.abs ms <= MAX_TIME).
  { unfold four_digit_year, DAY_MS, MAX_TIME in *. Z.to_euclidean_division_equations. lia. }
  rewrite (proj2 (Z.leb_le _ _) Hm). unfold day_text. do 2 f_equal.
  destruct (four_parts _ Hn) as (y & m & d & Hc & Hy & _). rewrite Hc. unfold iso_date.
  rewrite (proj2 (Z.leb_le 0 y)), (proj2 (Z.leb_le y 9999)) by lia. cbn [andb].
  apply take_ge. rewrite !length_app, !length_cons, length_app, !length_cons, !digits_length. lia.
Qed.

Lemma day_ms n : n * DAY_MS / DAY_MS = n.
Proof. apply Z.div_mul. done. Qed.
Lemma isoDay_day n : four_digit_year n → isoDay (n * DAY_MS) = Ok (day_text n).
Proof. intros Hn. rewrite isoDay_text; rewrite day_ms; done. Qed.

(** The days of four-digit years, and only they, have their text. *)
Lemma ranking_day_text n : four_digit_year n → isRankingDay (day_text n) = true.
Proof.
  intros Hn. unfold isRankingDay. rewrite parse_day_text, isoDay_day, String.eqb_refl by done.
  destruct (four_parts n Hn) as (y & m & d & _ & _ & _ & _ & ->). by rewrite DAY_of_parts.
Qed.
Lemma civil_bounds y m d : 0 <= y <= 9999 → 1 <= m <= 12 → 1 <= d <= 31 → four_digit_year (days_from_civil (y, m, d)).
Proof.
  intros Hy Hm Hd. unfold four_digit_year, days_from_civil. destruct (m <=? 2) eqn:E1; bools;
    destruct (2 <? m) eqn:E2; bools; try lia; Z.to_euclidean_division_equations; lia.
Qed.
Lemma ranking_day_iff s : isRankingDay s = true ↔ ∃ n, four_digit_year n ∧ s = day_text n.
Proof.
  split; [|by intros (n & Hn & ->); apply ranking_day_text]. unfold isRankingDay.
  intros [HD Hp]%andb_true_iff. destruct (parse_day s) as [n|] eqn:Hs; [|done].
  assert (Hn : four_digit_year n).
  { unfold parse_day, DAY in *. destruct (chars s) as [|a [|b [|c [|d [|h1 [|e [|f [|h2 [|g [|h [|]]]]]]]]]]]; try done.
    rewrite !andb_true_iff in HD. destruct HD as [[Hd _] _]. cbn [forallb] in Hd. rewrite !andb_true_iff in Hd.
    destruct (_ && _) eqn:Hr in Hs; [|done]. injection Hs as <-. bools. apply civil_bounds; [|lia..].
    destruct (dec_number_bounds [a; b; c; d]) as [Hlo Hhi]; [cbn [forallb]; rewrite !andb_true_iff; tauto|]. simpl in Hhi. lia. }
  rewrite isoDay_day in Hp by done. apply String.eqb_eq in Hp as <-. by exists n.
Qed.

Lemma dayStart_text n : four_digit_year n → dayStart (day_text n) = Ok (n * DAY_MS).
Proof. intros Hn. unfold dayStart. by rewrite ranking_day_text, parse_day_text. Qed.
Lemma kstDay_text at_ : four_digit_year ((at_ + KST_OFFSET) / DAY_MS) →
  kstDay at_ = Ok (day_text ((at_ + KST_OFFSET) / DAY_MS)).
Proof. apply isoDay_text. Qed.
Lemma addDays_text n k : four_digit_year n → four_digit_year (n + k) → addDays (day_text n) k = Ok (day_text (n + k)).
Proof.
  intros Hn Hk. unfold addDays. rewrite dayStart_text by done. cbn [rbind].
  rewrite <- Z.mul_add_distr_r. by apply isoDay_day.
Qed.
Lemma daysBetween_text a b : four_digit_year a → four_digit_year b → daysBetween (day_text a) (day_text b) = Ok (b - a).
Proof.
  intros Ha Hb. unfold daysBetween. rewrite !dayStart_text by done. cbn [rbind].
  by rewrite <- Z.mul_sub_distr_r, day_ms.
Qed.

(** The Monday at or before a day. *)
Definition monday (n : Z) : Z := n - (n + 3) mod 7.
Lemma monday_spec n : monday n <= n < monday n + 7 ∧ (monday n + 3) mod 7 = 0.
Proof. unfold monday. Z.to_euclidean_division_equations. lia. Qed.
Lemma monday_fixed n : (n + 3) mod 7 = 0 → monday n = n.
Proof. unfold monday. lia. Qed.
Lemma kstWeek_text n : four_digit_year n → four_digit_year (monday n) → kstWeek (day_text n) = Ok (day_text (monday n)).
Proof.
  intros Hn Hm. unfold kstWeek. rewrite dayStart_text by done. cbn [rbind]. unfold getUTCDay. rewrite day_ms.
  assert (E : n + - (((n + 4) mod 7 + 6) mod 7) = monday n) by (unfold monday; Z.to_euclidean_division_equations; lia).
  rewrite addDays_text by (try done; by rewrite E). by rewrite E.
Qed.

(** ** Texts are ordered as their days are *)
Definition text_compare (a b : list ascii) : comparison :=
  String.compare (string_of_list_ascii a) (string_of_list_ascii b).
Lemma text_compare_cons c a c' b : text_compare (c :: a) (c' :: b)
  = match N.compare (N_of_ascii c) (N_of_ascii c') with Eq => text_compare a b | o => o end.
Proof. reflexivity. Qed.
(** Texts of one length compare at their first difference. *)
Lemma text_compare_app a a' : length a = length a' → ∀ b b',
  text_compare (a ++ b) (a' ++ b') = match text_compare a a' with Eq => text_compare b b' | o => o end.
Proof.
  revert a'. induction a as [|c a IH]; intros [|c' a'] Hl b b'; try discriminate Hl; [done|].
  cbn [app]. rewrite !text_compare_cons. destruct (N.compare _ _); try done. apply IH. by injection Hl.
Qed.
Lemma digit_compare a b : 0 <= a < 10 → 0 <= b < 10 →
  text_compare [ascii_of_N (Z.to_N (48 + a))] [ascii_of_N (Z.to_N (48 + b))] = (a ?= b)%Z.
Proof.
  intros Ha Hb. rewrite text_compare_cons, !N_ascii_embedding by lia.
  assert (E : (Z.to_N (48 + a) ?= Z.to_N (48 + b))%N = (a ?= b)%Z).
  { destruct (N.compare_spec (Z.to_N (48 + a)) (Z.to_N (48 + b))), (Z.compare_spec a b); lia || done. }
  rewrite E. by destruct (a ?= b)%Z.
Qed.
Lemma digits_compare w : ∀ a b, 0 <= a < 10 ^ Z.of_nat w → 0 <= b < 10 ^ Z.of_nat w →
  text_compare (digits w a) (digits w b) = (a ?= b)%Z.
Proof.
  induction w as [|w IH]; intros a b Ha Hb.
  { cbn in Ha, Hb. assert (a = b) as -> by lia. by rewrite Z.compare_refl. }
  rewrite Nat2Z.inj_succ, Z.pow_succ_r in Ha, Hb by lia. cbn [digits].
  rewrite text_compare_app by (by rewrite !digits_length).
  rewrite IH, digit_compare by (first [apply Z.mod_pos_bound; lia|split; [apply Z.div_pos; lia|apply Z.div_lt_upper_bound; lia]]).
  pose proof (Z.div_mod a 10). pose proof (Z.div_mod b 10).
  pose proof (Z.mod_pos_bound a 10). pose proof (Z.mod_pos_bound b 10).
  destruct (Z.compare_spec (a / 10) (b / 10)), (Z.compare_spec (a mod 10) (b mod 10)), (Z.compare_spec a b); lia || done.
Qed.

(** One number for a date: month and day take less than 372. *)
Definition date_key (n : Z) : Z := let '(y, m, d) := civil_from_days n in y * 372 + m * 31 + d.
(** A year of the 400-year cycle, its March-based month and its day. *)
Definition cycle_year (doe : Z) : Z := (doe - doe / 1460 + doe / 36524 - doe / 146096) / 365.
Definition year_key (doy : Z) : Z := (5 * doy + 2) / 153 * 31 + (doy - (153 * ((5 * doy + 2) / 153) + 2) / 5 + 1).
Lemma year_key_mono doy doy' : 0 <= doy < doy' → year_key doy < year_key doy'.
Proof. unfold year_key. intros Hd. Z.to_euclidean_division_equations. lia. Qed.
Lemma year_key_bounds doy : 0 <= doy <= 365 → 1 <= year_key doy <= 372.
Proof. unfold year_key. intros Hd. Z.to_euclidean_division_equations. lia. Qed.
Lemma cycle_year_mono doe doe' : 0 <= doe <= doe' → doe' < 146097 → cycle_year doe <= cycle_year doe'.
Proof.
  unfold cycle_year. intros Hd Hd'. apply Z.div_le_mono; [lia|]. Z.to_euclidean_division_equations. lia.
Qed.

Definition cycle_start (yoe : Z) : Z := 365 * yoe + yoe / 4 - yoe / 100.
Lemma date_key_cycle n : let doe := (n + 719468) mod 146097 in
  date_key n = (cycle_year doe + (n + 719468) / 146097 * 400) * 372 + 93 + year_key (doe - cycle_start (cycle_year doe)).
Proof.
  intros doe. unfold date_key, civil_from_days. fold doe. fold (cycle_year doe). fold (cycle_start (cycle_year doe)).
  set (doy := doe - cycle_start (cycle_year doe)). unfold year_key. set (mp := (5 * doy + 2) / 153).
  destruct (mp <? 10) eqn:E; bools.
  - rewrite (proj2 (Z.leb_gt (mp + 3) 2)) by (subst mp doy; destruct (yoe_bounds doe) as [_ Hd];
      [apply Z.mod_pos_bound; lia|fold (cycle_year doe) in Hd; fold (cycle_start (cycle_year doe)) in Hd;
       Z.to_euclidean_division_equations; lia]). lia.
  - rewrite (proj2 (Z.leb_le (mp - 9) 2)) by (subst mp doy; destruct (yoe_bounds doe) as [_ Hd];
      [apply Z.mod_pos_bound; lia|fold (cycle_year doe) in Hd; fold (cycle_start (cycle_year doe)) in Hd;
       Z.to_euclidean_division_equations; lia]). lia.
Qed.

Lemma date_key_mono a b : a < b → date_key a < date_key b.
Proof.
  intros Hab. rewrite !date_key_cycle. set (da := (a + 719468) mod 146097). set (db := (b + 719468) mod 146097).
  assert (Hda : 0 <= da < 146097) by (apply Z.mod_pos_bound; lia).
  assert (Hdb : 0 <= db < 146097) by (apply Z.mod_pos_bound; lia).
  assert (Ea : a + 719468 = 146097 * ((a + 719468) / 146097) + da) by (apply Z.div_mod; lia).
  assert (Eb : b + 719468 = 146097 * ((b + 719468) / 146097) + db) by (apply Z.div_mod; lia).
  set (ea := (a + 719468) / 146097) in *. set (eb := (b + 719468) / 146097) in *.
  destruct (yoe_bounds da Hda) as [Hya Hoa], (yoe_bounds db Hdb) as [Hyb Hob].
  fold (cycle_year da) in Hya, Hoa. fold (cycle_year db) in Hyb, Hob.
  fold (cycle_start (cycle_year da)) in Hoa. fold (cycle_start (cycle_year db)) in Hob.
  pose proof (year_key_bounds _ Hoa). pose proof (year_key_bounds _ Hob).
  assert (Hera : ea < eb ∨ ea = eb ∧ da < db) by lia. destruct Hera as [He|[He Hd]]; [nia|].
  pose proof (cycle_year_mono da db ltac:(lia) ltac:(lia)) as Hy.
  destruct (Z.eq_dec (cycle_year da) (cycle_year db)) as [E|E]; [|lia].
  rewrite <- E in *. pose proof (year_key_mono (da - cycle_start (cycle_year da)) (db - cycle_start (cycle_year da)) ltac:(lia)). lia.
Qed.

(** The text of a four-digit day compares as its number. *)
Lemma text_order a b : four_digit_year a → four_digit_year b → String.compare (day_text a) (day_text b) = (a ?= b).
Proof.
  intros Ha Hb. assert (E : String.compare (day_text a) (day_text b) = (date_key a ?= date_key b)).
  { unfold date_key. destruct (four_parts a Ha) as (y & m & d & Hc & Hy & Hm & Hd & ->).
    destruct (four_parts b Hb) as (y' & m' & d' & Hc' & Hy' & Hm' & Hd' & ->). rewrite Hc, Hc'.
    match goal with |- String.compare (string_of_list_ascii ?x) (string_of_list_ascii ?z) = _ =>
      change (text_compare x z = (y * 372 + m * 31 + d ?= y' * 372 + m' * 31 + d')) end.
    rewrite text_compare_app by (by rewrite !digits_length). rewrite digits_compare by (simpl; lia).
    rewrite text_compare_cons, N.compare_refl.
    rewrite text_compare_app by (by rewrite !digits_length). rewrite digits_compare by (simpl; lia).
    rewrite text_compare_cons, N.compare_refl. rewrite digits_compare by (simpl; lia).
    destruct (Z.compare_spec y y'), (Z.compare_spec m m'), (Z.compare_spec d d'),
      (Z.compare_spec (y * 372 + m * 31 + d) (y' * 372 + m' * 31 + d')); lia || done. }
  rewrite E. destruct (Z.compare_spec a b) as [->|Hl|Hl].
  - apply Z.compare_refl.
  - apply Z.compare_lt_iff. by apply date_key_mono.
  - apply Z.compare_gt_iff. by apply date_key_mono.
Qed.
Lemma text_ltb a b : four_digit_year a → four_digit_year b → String.ltb (day_text a) (day_text b) = (a <? b).
Proof. intros Ha Hb. unfold String.ltb, Z.ltb. by rewrite text_order. Qed.
Lemma text_leb a b : four_digit_year a → four_digit_year b → String.leb (day_text a) (day_text b) = (a <=? b).
Proof. intros Ha Hb. unfold String.leb, Z.leb. by rewrite text_order. Qed.
Lemma text_eqb a b : four_digit_year a → four_digit_year b → String.eqb (day_text a) (day_text b) = (a =? b).
Proof.
  intros Ha Hb. destruct (String.eqb_spec (day_text a) (day_text b)) as [E|E]; symmetry.
  - apply Z.eqb_eq. apply (f_equal parse_day) in E. rewrite !parse_day_text in E by done. congruence.
  - apply Z.eqb_neq. by intros ->.
Qed.

(** ** Weeks *)
(** The instants whose days, and the weeks around them, have four-digit years. *)
Definition calendar_time (at_ : Z) : Prop :=
  -719500 * DAY_MS <= at_ /\ at_ <= 2932870 * DAY_MS.
Definition kst_number (at_ : Z) : Z := (at_ + KST_OFFSET) / DAY_MS.
Lemma kst_bounds at_ n : kst_number at_ = n ↔ n * DAY_MS <= at_ + KST_OFFSET < (n + 1) * DAY_MS.
Proof. unfold kst_number, DAY_MS. split; intros H; Z.to_euclidean_division_equations; lia. Qed.
Lemma calendar_day at_ : calendar_time at_ → -719501 <= kst_number at_ <= 2932871.
Proof. unfold calendar_time, kst_number, DAY_MS, KST_OFFSET. intros [H1 H2]. Z.to_euclidean_division_equations. lia. Qed.
Lemma week_zero_text : WEEK_ZERO = day_text 4.
Proof. by vm_compute. Qed.
Lemma week_monday i : monday (4 + i * 7) = 4 + i * 7.
Proof. apply monday_fixed. replace (4 + i * 7 + 3) with ((i + 1) * 7) by lia. by apply Z.mod_mul. Qed.

Lemma rankingWeekOf_text i : 0 <= i → four_digit_year (4 + i * 7) → rankingWeekOf i = Ok (day_text (4 + i * 7)).
Proof.
  intros Hi Hy. unfold rankingWeekOf, isSafeInteger.
  rewrite (proj2 (Z.leb_le (Z.abs i) _)), (proj2 (Z.ltb_ge i 0))
    by (unfold four_digit_year, MAX_SAFE_INTEGER in *; lia).
  cbn [negb orb throw_when rbind]. rewrite week_zero_text. by apply addDays_text.
Qed.
Lemma rankingWeekIndex_text i : 0 <= i → four_digit_year (4 + i * 7) → rankingWeekIndex (day_text (4 + i * 7)) = Ok i.
Proof.
  intros Hi Hy. assert (H4 : four_digit_year 4) by by vm_compute. unfold rankingWeekIndex.
  rewrite kstWeek_text, week_monday by (rewrite ?week_monday; done). cbn [rbind].
  rewrite week_zero_text, String.eqb_refl, text_ltb, (proj2 (Z.ltb_ge _ _)) by (lia || done). cbn [negb orb throw_when rbind].
  rewrite !dayStart_text by done. cbn [rbind]. f_equal. rewrite <- Z.mul_sub_distr_r, day_ms.
  replace (4 + i * 7 - 4) with (i * 7) by lia. by apply Z.div_mul.
Qed.
(** A text that names a week is the Monday of its index. *)
Lemma rankingWeekIndex_inv w i : rankingWeekIndex w = Ok i →
  0 <= i ∧ four_digit_year (4 + i * 7) ∧ w = day_text (4 + i * 7).
Proof.
  intros H. assert (Hw : isRankingDay w = true).
  { unfold rankingWeekIndex, kstWeek, dayStart in H. by destruct (isRankingDay w). }
  apply ranking_day_iff in Hw as (n & Hn & ->).
  assert (H4 : four_digit_year 4) by by vm_compute.
  unfold rankingWeekIndex in H. destruct (kstWeek (day_text n)) as [m|] eqn:Hk; [|done]. cbn [rbind] in H.
  destruct (String.eqb_spec m (day_text n)) as [->|]; [|done]. cbn [negb orb throw_when rbind] in H.
  rewrite week_zero_text, text_ltb in H by done. destruct (n <? 4) eqn:E; [done|]. bools.
  rewrite kstWeek_text in Hk by (try done; destruct (monday_spec n); unfold four_digit_year in *; lia).
  assert (Hm : monday n = n).
  { apply Z.eqb_eq. rewrite <- text_eqb; [|destruct (monday_spec n); unfold four_digit_year in *; lia|done].
    injection Hk as ->. apply String.eqb_refl. }
  rewrite !dayStart_text in H by done. cbn [rbind] in H. rewrite <- Z.mul_sub_distr_r, day_ms in H. injection H as <-.
  destruct (monday_spec n) as [_ Hmod]. rewrite Hm in Hmod.
  assert (En : 4 + (n - 4) / 7 * 7 = n) by (Z.to_euclidean_division_equations; lia).
  rewrite En. split; [|done]. apply Z.div_pos; lia.
Qed.
Lemma weekCutoff_text i : 0 <= i → four_digit_year (11 + i * 7) →
  weekCutoff (day_text (4 + i * 7)) = Ok ((12 + i * 7) * DAY_MS - KST_OFFSET).
Proof.
  intros Hi Hy. unfold weekCutoff.
  assert (Hy' : four_digit_year (4 + i * 7)) by (unfold four_digit_year in *; lia).
  rewrite rankingWeekIndex_text by done. cbn [rbind].
  rewrite addDays_text by (try done; replace (4 + i * 7 + 7) with (11 + i * 7) by lia; done). cbn [rbind].
  replace (4 + i * 7 + 7) with (11 + i * 7) by lia. rewrite dayStart_text by done. cbn [rbind].
  f_equal. unfold HONOR_GRACE_MS. lia.
Qed.
Lemma monday_of_week i : 0 <= i → monday (4 + i * 7) = 4 + i * 7.
Proof. intros _. apply week_monday. Qed.
Lemma monday_ge i n : 4 + i * 7 <= monday n ↔ 4 + i * 7 <= n.
Proof. unfold monday. split; intros H; Z.to_euclidean_division_equations; lia. Qed.

Lemma sealedWeek_number at_ : calendar_time at_ →
  sealedWeek at_ = Ok (let n := monday (kst_number at_ - 1) - 7 in
                       if 4 <? n then Some (day_text n) else None).
Proof.
  intros Hat. pose proof (calendar_day _ Hat) as Hd. destruct (monday_spec (kst_number at_ - 1)) as [Hm _].
  assert (E : (at_ - HONOR_GRACE_MS + KST_OFFSET) / DAY_MS = kst_number at_ - 1)
    by (unfold kst_number, HONOR_GRACE_MS, DAY_MS; Z.to_euclidean_division_equations; lia).
  unfold sealedWeek. rewrite kstDay_text by (rewrite E; unfold four_digit_year; lia). rewrite E. cbn [rbind].
  rewrite kstWeek_text by (unfold four_digit_year; lia). cbn [rbind].
  rewrite addDays_text by (unfold four_digit_year; lia). cbn [rbind].
  rewrite week_zero_text, text_ltb by (unfold four_digit_year; lia). done.
Qed.

(** C25: [sealedWeek] names the weeks whose boards can no longer change: at every instant, a week from week 1
    on has passed its [weekCutoff] exactly when a week is sealed and it is not a later one;
    and the sealed week is itself one of those weeks. *)
Theorem sealed_week_is_the_latest (at_ : Z) (Hat : calendar_time at_) :
  ∃ r, sealedWeek at_ = Ok r
    ∧ (∀ s, r = Some s → ∃ i c, 1 <= i ∧ rankingWeekOf i = Ok s ∧ weekCutoff s = Ok c ∧ c <= at_)
    ∧ ∀ w i c, rankingWeekIndex w = Ok i → 1 <= i → weekCutoff w = Ok c →
        (c <= at_ ↔ ∃ s, r = Some s ∧ String.leb w s = true).
Proof.
  rewrite sealedWeek_number by done. eexists. split; [done|]. cbn zeta.
  pose proof (calendar_day _ Hat) as Hd. destruct (monday_spec (kst_number at_ - 1)) as [Hm Hmod].
  assert (Hkst : ∀ k, k * DAY_MS - KST_OFFSET <= at_ ↔ k <= kst_number at_).
  { intros k. unfold kst_number, DAY_MS. split; intros H; Z.to_euclidean_division_equations; lia. }
  set (n := monday (kst_number at_ - 1) - 7) in *. split.
  - intros s Hs. destruct (4 <? n) eqn:E; [|done]. bools. injection Hs as <-.
    assert (En : n = 4 + (n - 4) / 7 * 7) by (subst n; Z.to_euclidean_division_equations; lia).
    exists ((n - 4) / 7), ((12 + (n - 4) / 7 * 7) * DAY_MS - KST_OFFSET).
    split; [Z.to_euclidean_division_equations; lia|]. rewrite En at 2 3.
    rewrite rankingWeekOf_text, weekCutoff_text by (unfold four_digit_year; lia). rewrite Hkst. split_and!; lia || done.
  - intros w i c (Hi & Hy & ->)%rankingWeekIndex_inv Hi1 Hc.
    assert (Hle : 4 + i * 7 <= n ↔ 12 + i * 7 <= kst_number at_).
    { pose proof (monday_ge (i + 1) (kst_number at_ - 1)). subst n. lia. }
    destruct (Z.le_gt_cases (11 + i * 7) 2932896) as [Hlast|Hlast].
    + rewrite weekCutoff_text in Hc by (unfold four_digit_year in *; lia). injection Hc as <-. rewrite Hkst, <- Hle.
      destruct (4 <? n) eqn:E; bools.
      * split.
        -- intros Hn. eexists. split; [done|]. rewrite text_leb by (unfold four_digit_year in *; lia). lia.
        -- intros (s & [= <-] & Hl). rewrite text_leb in Hl by (unfold four_digit_year in *; lia). lia.
      * split; [lia|]. by intros (s & ? & _).
    + exfalso. unfold four_digit_year in Hy. assert (i = 418984) as -> by lia.
      vm_compute in Hc. discriminate Hc.
Qed.
Lemma sealed_week_is_the_latest_witness : ∃ r, sealedWeek 1791817200000 = Ok r
  ∧ (∀ s, r = Some s → ∃ i c, 1 <= i ∧ rankingWeekOf i = Ok s ∧ weekCutoff s = Ok c ∧ c <= 1791817200000)
  ∧ ∀ w i c, rankingWeekIndex w = Ok i → 1 <= i → weekCutoff w = Ok c →
      (c <= 1791817200000 ↔ ∃ s, r = Some s ∧ String.leb w s = true).
Proof. apply sealed_week_is_the_latest. vm_compute. split; discriminate. Defined.

(** Theorem: the index of a week, which an on-chain honor carries, names that week and no other. *)
Theorem week_index_round_trip (w : string) (i : Z) :
  rankingWeekIndex w = Ok i ↔ 0 <= i <= 418984 ∧ rankingWeekOf i = Ok w.
Proof.
  split.
  - intros (Hi & Hy & ->)%rankingWeekIndex_inv. rewrite rankingWeekOf_text by done.
    unfold four_digit_year in Hy. split; [lia|done].
  - intros [Hi Hw]. rewrite rankingWeekOf_text in Hw by (unfold four_digit_year; lia). injection Hw as <-.
    apply rankingWeekIndex_text; unfold four_digit_year; lia.
Qed.

(** ** The next reset *)
Lemma kst_reset at_ d : kst_number at_ < d ↔ at_ < d * DAY_MS - KST_OFFSET.
Proof. unfold kst_number, DAY_MS. split; intros H; Z.to_euclidean_division_equations; lia. Qed.
Lemma nextReset_number at_ p : calendar_time at_ →
  nextReset at_ p = Ok (match p with
                        | day_ => kst_number at_ + 1
                        | week_ => monday (kst_number at_) + 7
                        end * DAY_MS - KST_OFFSET).
Proof.
  intros Hat. pose proof (calendar_day _ Hat) as Hd. destruct (monday_spec (kst_number at_)) as [Hm _].
  unfold nextReset. rewrite kstDay_text by (change ((at_ + KST_OFFSET) / DAY_MS) with (kst_number at_); unfold four_digit_year; lia).
  change ((at_ + KST_OFFSET) / DAY_MS) with (kst_number at_). cbn [rbind]. destruct p.
  - rewrite addDays_text by (unfold four_digit_year; lia). cbn [rbind]. rewrite dayStart_text by (unfold four_digit_year; lia). done.
  - rewrite kstWeek_text by (unfold four_digit_year; lia). cbn [rbind]. rewrite addDays_text by (unfold four_digit_year; lia).
    cbn [rbind]. rewrite dayStart_text by (unfold four_digit_year; lia). done.
Qed.

(** The day, or the week, an instant belongs to. *)
Definition window (p : Period) (at_ : Z) : result string :=
  match p with day_ => kstDay at_ | week_ => let? today := kstDay at_ in kstWeek today end.
Lemma window_number p at_ : calendar_time at_ →
  window p at_ = Ok (day_text (match p with day_ => kst_number at_ | week_ => monday (kst_number at_) end)).
Proof.
  intros Hat. pose proof (calendar_day _ Hat) as Hd. destruct (monday_spec (kst_number at_)) as [Hm _].
  assert (Hk : kstDay at_ = Ok (day_text (kst_number at_)))
    by (apply kstDay_text; change ((at_ + KST_OFFSET) / DAY_MS) with (kst_number at_); unfold four_digit_year; lia).
  destruct p; cbn [window]; rewrite Hk; [done|]. cbn [rbind]. apply kstWeek_text; unfold four_digit_year; lia.
Qed.
Lemma monday_lt a b : a <= b → monday a = monday b ↔ b < monday a + 7.
Proof. unfold monday. intros Hab. split; intros H; Z.to_euclidean_division_equations; lia. Qed.

(** Theorem: [nextReset] is the end of the running day or week: it lies ahead, and an instant from now on is
    still in the same day or week exactly when it is before the reset. *)
Theorem reset_ends_the_window (p : Period) (at_ : Z) (Hat : calendar_time at_) :
  ∃ r, nextReset at_ p = Ok r ∧ at_ < r
    ∧ ∀ later, at_ <= later → calendar_time later → (window p later = window p at_ ↔ later < r).
Proof.
  rewrite nextReset_number by done. eexists. split; [done|]. split.
  { apply kst_reset. destruct p; [lia|]. destruct (monday_spec (kst_number at_)). lia. }
  intros later Hl Hlater. rewrite !window_number, <- kst_reset by done.
  pose proof (calendar_day _ Hat) as Hd. pose proof (calendar_day _ Hlater) as Hd'.
  assert (Hmono : kst_number at_ <= kst_number later) by (apply Z.div_le_mono; [done|lia]).
  assert (Hinj : ∀ a b, four_digit_year a → four_digit_year b → (@Ok string (day_text a) = Ok (day_text b) ↔ a = b)).
  { intros a b Ha Hb. split; [|by intros ->]. intros [= E]. apply Z.eqb_eq. rewrite <- text_eqb by done.
    rewrite E. apply String.eqb_refl. }
  destruct p.
  - rewrite Hinj by (unfold four_digit_year; lia). lia.
  - destruct (monday_spec (kst_number at_)), (monday_spec (kst_number later)).
    rewrite Hinj by (unfold four_digit_year; lia). rewrite <- (monday_lt _ _ Hmono). done.
Qed.
Lemma reset_ends_the_window_witness : ∃ r, nextReset 1791817200000 week_ = Ok r ∧ 1791817200000 < r
  ∧ ∀ later, 1791817200000 <= later → calendar_time later → (window week_ later = window week_ 1791817200000 ↔ later < r).
Proof. apply (reset_ends_the_window week_). vm_compute. split; discriminate. Defined.

(** Theorem: the seller and the contract seal a week at the same instant: an honor of the week passes the contract's
    check in a block of that second exactly when the week's cutoff has passed. *)
Theorem contract_agrees_on_the_seal (w : string) (i c at_ : Z)
    (Hi : rankingWeekIndex w = Ok i) (H1 : 1 <= i) (Hc : weekCutoff w = Ok c) :
  c <= at_ ↔ honor_week_refused i (at_ / 1000) = false.
Proof.
  apply rankingWeekIndex_inv in Hi as (Hi & Hy & ->).
  destruct (Z.le_gt_cases (11 + i * 7) 2932896) as [Hlast|Hlast].
  - rewrite weekCutoff_text in Hc by (unfold four_digit_year in *; lia). injection Hc as <-.
    unfold honor_week_refused. rewrite (proj2 (Z.eqb_neq i 0)) by lia. cbn [orb]. rewrite Z.ltb_ge.
    unfold DAY_MS, KST_OFFSET. split; intros H; Z.to_euclidean_division_equations; lia.
  - exfalso. unfold four_digit_year in Hy. assert (i = 418984) as -> by lia. vm_compute in Hc. discriminate Hc.
Qed.
Lemma contract_agrees_on_the_seal_witness :
  1791817200000 <= 1791817199999 ↔ honor_week_refused 2961 (1791817199999 / 1000) = false.
Proof. apply (contract_agrees_on_the_seal "2026-10-05"); [reflexivity|lia|reflexivity]. Defined.
