(* ===== verification/Guardians.v ===== *)
(** * Guardians

    packages/arcade/src/guardians.ts: the traits a birth seed gives a guardian, its display
    name, the signed results and honors of the collection, and the packing of weekly titles
    into the word the contract stores; [honor_apply] is the word update of
    MapaeGuardians.sol's [_honor], which the client's [honorAdvances] anticipates.

    The hash of a seed and an index (viem) is the parameter [word], a 256-bit number. *)

From Stdlib Require Import ZArith Lia Ascii String.
From stdpp Require Import base strings list.
From S2P Require Import Prelude Validate Token.
Open Scope string_scope.
Open Scope Z_scope.

Definition GUARDIAN_CHAIN_ID : Z := 91342.
Definition GUARDIAN_TRAITS_VERSION : Z := 1.
Definition GUARDIAN_MAX_SUPPLY : Z := 10000.

Inductive GuardianZodiac :=
  | rat | ox | tiger | rabbit | dragon | snake | horse | goat | monkey | rooster | dog | pig.
#[export] Instance zodiac_eq_dec : EqDecision GuardianZodiac.
Proof. solve_decision. Defined.
Definition GUARDIAN_ZODIACS : list GuardianZodiac :=
  [rat; ox; tiger; rabbit; dragon; snake; horse; goat; monkey; rooster; dog; pig].
Definition GUARDIAN_HATS : list string :=
  ["none"; "topknot"; "gat"; "satgat"; "samo"; "ikseongwan"; "jeonrip"; "paeraengi"; "headwrap"].
Definition GUARDIAN_OUTFITS : list string :=
  ["gonryongpo"; "minister"; "official"; "military"; "scholar"; "artisan"; "hemp"; "performer"].
Definition GUARDIAN_SHOES : list string := ["jipsin"; "namaksin"; "taesahye"; "heukhwa"; "beoseon"].
Definition GUARDIAN_BACKDROPS : list string := ["dawn"; "moon"; "jade"; "ember"].
Definition GUARDIAN_CHARMS : list string := ["mapae"; "scroll"; "pouch"; "none"].
Definition GUARDIAN_COLORS : list string := ["red"; "jade"; "ink"].
Definition GUARDIAN_TEMPERAMENTS : list string := ["curious"; "bold"; "calm"].
(** Stamp, race, shop. *)
Definition GUARDIAN_APTITUDES : list (Z * Z * Z) :=
  [(4, 5, 6); (4, 6, 5); (5, 4, 6); (5, 6, 4); (6, 4, 5); (6, 5, 4)].

(** ** Names *)
Inductive Locale := ko | en.
Definition GUARDIAN_NAME_MODIFIERS (l : Locale) : list string := match l with
| ko =>
  ["졸린"; "배고픈"; "수줍은"; "덤벙대는"; "꼼꼼한"; "콧노래 부르는"; "엽전 세는"; "신난";
   "느긋한"; "부지런한"; "호기심 많은"; "용감한"; "씩씩한"; "얌전한"; "장난스러운";
   "깜찍한"; "꾀 많은"; "춤추는"; "노래하는"; "낮잠 자는"; "하품하는"; "재채기하는";
   "딸꾹질하는"; "떡 먹는"; "엿 파는"; "연 날리는"; "팽이 돌리는"; "제기 차는";
   "윷 던지는"; "그네 타는"; "별 세는"; "달 보는"; "구름 쫓는"; "나비 쫓는";
   "개구리 잡는"; "붓 든"; "북 치는"; "피리 부는"; "장구 치는"; "꽹과리 치는";
   "휘파람 부는"; "꿈꾸는"; "웃음 많은"; "상냥한"; "똑똑한"; "엉뚱한"; "명랑한"; "의젓한";
   "발 빠른"; "손 큰"; "눈치 빠른"; "코 고는"; "반짝이는"; "보송보송한"; "말랑말랑한";
   "뒹구는"; "깡충깡충 뛰는"; "뒤뚱거리는"; "살금살금 걷는"; "두리번거리는";
   "수다스러운"; "과묵한"; "고집 센"; "깜빡깜빡하는"; "바쁜"; "들뜬"; "설레는"; "뿌듯한";
   "꾸벅꾸벅 조는"; "이불 덮은"; "밥 짓는"; "국수 삶는"; "감자 굽는"; "군밤 까는";
   "곶감 숨긴"; "송편 빚는"; "빨래하는"; "물 긷는"; "장작 패는"; "짚신 삼는"; "새끼 꼬는";
   "보따리 멘"; "장터 가는"; "편지 쓰는"; "글 읽는"; "수수께끼 내는"; "숨바꼭질하는";
   "술래잡기하는"; "도깨비 만난"; "호랑이 놀린"; "까치 반기는"; "무지개 찾는";
   "눈사람 만드는"; "꽃 따는"; "도토리 모으는"; "꼬리 흔드는"; "늠름한"; "다정한";
   "꿋꿋한"; "쌩쌩한"]
| en =>
  ["Sleepy"; "Hungry"; "Shy"; "Clumsy"; "Meticulous"; "Humming"; "Coin-Counting"; "Excited"; "Easygoing"; "Diligent";
   "Curious"; "Brave"; "Plucky"; "Gentle"; "Playful"; "Adorable"; "Clever"; "Dancing"; "Singing"; "Napping";
   "Yawning"; "Sneezing"; "Hiccuping"; "Rice-Cake-Munching"; "Taffy-Selling"; "Kite-Flying"; "Top-Spinning";
   "Shuttlecock-Kicking"; "Yut-Tossing"; "Swinging"; "Star-Counting"; "Moon-Watching"; "Cloud-Chasing";
   "Butterfly-Chasing"; "Frog-Catching"; "Brush-Wielding"; "Drumming"; "Flute-Playing"; "Janggu-Playing";
   "Gong-Ringing"; "Whistling"; "Dreaming"; "Giggly"; "Kind"; "Bright"; "Quirky"; "Cheerful"; "Poised";
   "Swift-Footed"; "Generous"; "Quick-Witted"; "Snoring"; "Sparkling"; "Fluffy"; "Squishy"; "Tumbling"; "Hopping";
   "Waddling"; "Tiptoeing"; "Glancing"; "Chatty"; "Quiet"; "Stubborn"; "Forgetful"; "Busy"; "Giddy"; "Eager";
   "Beaming"; "Nodding-Off"; "Cozy"; "Rice-Cooking"; "Noodle-Boiling"; "Potato-Roasting"; "Chestnut-Peeling";
   "Persimmon-Hiding"; "Songpyeon-Making"; "Laundry-Doing"; "Water-Fetching"; "Wood-Chopping"; "Sandal-Weaving";
   "Rope-Twisting"; "Bundle-Carrying"; "Market-Bound"; "Letter-Writing"; "Book-Reading"; "Riddling";
   "Hide-and-Seeking"; "Tag-Playing"; "Dokkaebi-Spotting"; "Tiger-Teasing"; "Magpie-Greeting"; "Rainbow-Seeking";
   "Snowman-Building"; "Flower-Picking"; "Acorn-Gathering"; "Tail-Wagging"; "Gallant"; "Affectionate"; "Steadfast";
   "Lively"]
end.
Definition GUARDIAN_GIVEN_NAMES (l : Locale) : list string := match l with
| ko =>
  ["돌쇠"; "마당쇠"; "꽃분이"; "복실이"; "개똥이"; "삼월이"; "덕구"; "칠복이"; "막동이";
   "억쇠"; "바우"; "똘이"; "점순이"; "쇠돌이"; "갑돌이"; "갑순이"; "복동이"; "복순이";
   "순돌이"; "삼돌이"; "칠득이"; "만복이"; "만석이"; "천석이"; "금동이"; "은동이";
   "옥분이"; "옥동이"; "봉순이"; "봉구"; "달래"; "달님이"; "별님이"; "초롱이"; "방울이";
   "꽃님이"; "순이"; "영이"; "철이"; "삽살이"; "누렁이"; "바둑이"; "춘삼이"; "마돌이";
   "장쇠"; "먹쇠"; "판쇠"; "꽃돌이"; "보리"; "콩이"; "팥쇠"; "감돌이"; "밤톨이"; "도토리";
   "대길이"; "수동이"; "귀동이"; "귀남이"; "귀분이"; "옥이"; "연이"; "아롱이"; "다롱이";
   "몽실이"; "봉실이"; "복돌이"; "오복이"; "칠성이"; "팔봉이"; "구슬이"; "백돌이";
   "천둥이"; "번개"; "우뚝이"; "막쇠"; "삼순이"; "봄이"; "여름이"; "가을이"; "겨울이";
   "꽃순이"; "매화"; "솔이"; "차돌이"; "뭉치"; "똘똘이"; "알밤이"; "꼬물이"; "복댕이";
   "복남이"; "쌀분이"; "금순이"; "은순이"; "덕순이"; "덕배"; "만득이"; "상돌이"; "얼쑤";
   "덩실이"; "까꿍이"]
| en =>
  ["Dolsoe"; "Madangsoe"; "Kkotbuni"; "Boksiri"; "Gaettongi"; "Samwori"; "Deokgu"; "Chilbogi"; "Makdongi"; "Eoksoe";
   "Bau"; "Ttori"; "Jeomsuni"; "Soedori"; "Gapdori"; "Gapsuni"; "Bokdongi"; "Boksuni"; "Sundori"; "Samdori";
   "Childeugi"; "Manbogi"; "Manseogi"; "Cheonseogi"; "Geumdongi"; "Eundongi"; "Okbuni"; "Okdongi"; "Bongsuni";
   "Bonggu"; "Dallae"; "Dallimi"; "Byeollimi"; "Chorongi"; "Banguri"; "Kkonnimi"; "Suni"; "Yeongi"; "Cheori";
   "Sapsari"; "Nureongi"; "Badugi"; "Chunsami"; "Madori"; "Jangsoe"; "Meoksoe"; "Pansoe"; "Kkotdori"; "Bori";
   "Kongi"; "Patsoe"; "Gamdori"; "Bamtori"; "Dotori"; "Daegiri"; "Sudongi"; "Gwidongi"; "Gwinami"; "Gwibuni"; "Ogi";
   "Yeoni"; "Arongi"; "Darongi"; "Mongsiri"; "Bongsiri"; "Bokdori"; "Obogi"; "Chilseongi"; "Palbongi"; "Guseuri";
   "Baekdori"; "Cheondungi"; "Beongae"; "Uttugi"; "Maksoe"; "Samsuni"; "Bomi"; "Yeoreumi"; "Gaeuri"; "Gyeouri";
   "Kkotsuni"; "Maehwa"; "Sori"; "Chadori"; "Mungchi"; "Ttolttori"; "Albami"; "Kkomuri"; "Bokdaengi"; "Bongnami";
   "Ssalbuni"; "Geumsuni"; "Eunsuni"; "Deoksuni"; "Deokbae"; "Mandeugi"; "Sangdori"; "Eolssu"; "Deongsiri";
   "Kkakkungi"]
end.

(** A token ID as text, bigint or integer Number. *)
Inductive TokenRef := IdText (s : string) | IdBig (z : Z) | IdNumber (z : Z).
(** [/^[1-9][0-9]{0,n}$/] *)
Definition re_positive (n : nat) (s : string) : bool :=
  match chars s with
  | c :: l => in_range "1" "9" c && forallb is_digit l && (length l <=? n)%nat
  | [] => false
  end.
Definition token_number (t : TokenRef) : Z :=
  match t with
  | IdText s => if re_positive 4 s then dec_number (chars s) else 0
  | IdBig z => if z <=? GUARDIAN_MAX_SUPPLY then z else 0
  | IdNumber z => if isSafeInteger z then z else 0
  end.
Definition name_index (id : Z) : Z := ((id - 1) * 7919) mod GUARDIAN_MAX_SUPPLY.
Definition guardianName (tokenId : TokenRef) (locale : Locale) : result string :=
  let id := token_number tokenId in
  throws (id <? 1) || (GUARDIAN_MAX_SUPPLY <? id) with Error "Invalid guardian token ID";
  let index := name_index id in
  Ok (nth (Z.to_nat (index mod 100)) (GUARDIAN_NAME_MODIFIERS locale) "undefined" ++ " "
      ++ nth (Z.to_nat (index / 100)) (GUARDIAN_GIVEN_NAMES locale) "undefined").

(** ** Traits *)
Section Traits.
(** viem's [isHash], and the number that [keccak256] of the packed seed and index is. *)
Variable isHash : string → bool.
Variable word : string → Z → Z.

Definition pickTrait {T} (seed : string) (index : Z) (values : list T) : option T :=
  values !! Z.to_nat (word seed index mod Z.of_nat (length values)).

Record GuardianTraits := {
  gt_version : Z; gt_seed : string; gt_zodiac : option GuardianZodiac; gt_hat : option string; gt_outfit : option string;
  gt_shoes : option string; gt_backdrop : option string; gt_charm : option string; gt_color : option string;
  gt_temperament : option string; gt_aptitudes : option (Z * Z * Z) }.
Definition guardianTraits (seed : string) : result GuardianTraits :=
  throws negb (isHash seed) with Error "Invalid guardian birth seed";
  Ok {| gt_version := GUARDIAN_TRAITS_VERSION; gt_seed := seed;
        gt_zodiac := pickTrait seed 0 GUARDIAN_ZODIACS; gt_hat := pickTrait seed 1 GUARDIAN_HATS;
        gt_outfit := pickTrait seed 2 GUARDIAN_OUTFITS; gt_shoes := pickTrait seed 3 GUARDIAN_SHOES;
        gt_backdrop := pickTrait seed 4 GUARDIAN_BACKDROPS; gt_charm := pickTrait seed 5 GUARDIAN_CHARMS;
        gt_color := pickTrait seed 6 GUARDIAN_COLORS; gt_temperament := pickTrait seed 7 GUARDIAN_TEMPERAMENTS;
        gt_aptitudes := pickTrait seed 8 GUARDIAN_APTITUDES |}.
Definition guardianZodiac (seed : string) : result (option GuardianZodiac) :=
  throws negb (isHash seed) with Error "Invalid guardian birth seed";
  Ok (pickTrait seed 0 GUARDIAN_ZODIACS).

(** A pick is always a member of its list. *)
Lemma pick_total {T} seed i (values : list T) : values ≠ [] → is_Some (pickTrait seed i values).
Proof.
  intros Hne. apply lookup_lt_is_Some. destruct values as [|v vs]; [done|].
  pose proof (Z.mod_pos_bound (word seed i) (Z.of_nat (length (v :: vs))) ltac:(cbn [length]; lia)). lia.
Qed.
End Traits.

(** ** Values from outside *)
(** [Object.keys(v)]: each key once. *)
Definition object_keys (v : jsval) : list string :=
  match v with JObj l => remove_dups l.*1 | _ => [] end.
Definition is_record (v : jsval) : bool := match v with JObj _ => true | _ => false end.
Definition is_num (v : jsval) (z : Z) : bool := match v with JNum n => n =? z | _ => false end.
Definition validGuardianAptitudes (v : jsval) : bool :=
  is_record v && (length (object_keys v) =? 3)%nat
  && existsb (λ '(stamp, race, shop), is_num (prop v "stamp") stamp && is_num (prop v "race") race && is_num (prop v "shop") shop)
       GUARDIAN_APTITUDES.
Definition guardianTokenId (v : jsval) : bool :=
  match v with JStr s => re_positive 77 s && (dec_number (chars s) <? 2 ^ 256) | _ => false end.

Record GuardianResult := {
  resultId : string; gr_tokenId : Z; actor : string; ownershipEpoch : Z; paymentTx : string; traitsHash : string;
  inputsHash : string; ruleset : Z; gr_seed : Z; game : Z; score : Z; victory : bool }.
Record GuardianResultJson := {
  j_resultId : string; j_tokenId : string; j_actor : string; j_ownershipEpoch : string; j_paymentTx : string;
  j_traitsHash : string; j_inputsHash : string; j_ruleset : Z; j_seed : Z; j_game : Z; j_score : Z; j_victory : bool }.
Definition guardianResultFromJson (value : GuardianResultJson) : result GuardianResult :=
  throws negb (guardianTokenId (JStr (j_tokenId value))) || negb (guardianTokenId (JStr (j_ownershipEpoch value)))
         || (2 ^ 64 <=? dec_number (chars (j_ownershipEpoch value))) with Error "Invalid guardian result identity";
  Ok {| resultId := j_resultId value; gr_tokenId := dec_number (chars (j_tokenId value)); actor := j_actor value;
        ownershipEpoch := dec_number (chars (j_ownershipEpoch value)); paymentTx := j_paymentTx value;
        traitsHash := j_traitsHash value; inputsHash := j_inputsHash value; ruleset := j_ruleset value;
        gr_seed := j_seed value; game := j_game value; score := j_score value; victory := j_victory value |}.

(** ** Honors *)
Record GuardianTitleCounts := { champion : Z; podium : Z; top10 : Z }.
Record GuardianHonors := { week : Z; longestStreak : Z; titles : list GuardianTitleCounts }.
Definition no_titles : GuardianTitleCounts := {| champion := 0; podium := 0; top10 := 0 |}.
Definition emptyHonors : GuardianHonors := {| week := 0; longestStreak := 0; titles := [no_titles; no_titles; no_titles] |}.
Record GuardianHonor := { h_tokenId : Z; h_week : Z; h_longestStreak : Z; h_titles : Z }.
Record GuardianHonorJson := { hj_tokenId : string; hj_week : jsval; hj_longestStreak : jsval; hj_titles : jsval }.

(** The values of [GUARDIAN_TITLE_TIERS], in order. *)
Definition tiers (g : GuardianTitleCounts) : list Z := [champion g; podium g; top10 g].
Definition lane (v : jsval) : bool := match v with JNum z => (0 <=? z) && (z <=? 65535) | _ => false end.

Definition pack_tier (g t v packed : Z) : result Z :=
  throws negb (lane (JNum v)) with Error "Invalid guardian titles";
  Ok (Z.lor packed (Z.shiftl v (16 * (g * 3 + t)))).
Definition pack_game (g : Z) (game : GuardianTitleCounts) (packed : Z) : result Z :=
  let? p0 := pack_tier g 0 (champion game) packed in
  let? p1 := pack_tier g 1 (podium game) p0 in
  pack_tier g 2 (top10 game) p1.
Fixpoint pack_games (g : Z) (games : list GuardianTitleCounts) (packed : Z) : result Z :=
  match games with
  | [] => Ok packed
  | game :: rest => let? p := pack_game g game packed in pack_games (g + 1) rest p
  end.
Definition packGuardianTitles (titles : list GuardianTitleCounts) : result Z :=
  throws negb (length titles =? 3)%nat with Error "Invalid guardian titles";
  pack_games 0 titles 0.
Definition lane_at (packed l : Z) : Z := Z.land (Z.shiftr packed (16 * l)) 65535.
Definition unpackGuardianTitles (packed : Z) : result (list GuardianTitleCounts) :=
  throws (packed <? 0) || (2 ^ 144 <=? packed) with Error "Invalid guardian titles";
  Ok (map (λ g, {| champion := lane_at packed (g * 3); podium := lane_at packed (g * 3 + 1); top10 := lane_at packed (g * 3 + 2) |})
        [0; 1; 2]).

Definition validGuardianHonors (v : jsval) : bool :=
  is_record v && lane (prop v "week") && lane (prop v "longestStreak")
  && match prop v "titles" with
     | JArr l => (length l =? 3)%nat
                 && forallb (λ t, is_object t && lane (prop t "champion") && lane (prop t "podium") && lane (prop t "top10")) l
     | _ => false
     end.
(** Every game of [next] has one in [stored]: both have three. *)
Definition honorAdvances (stored next : GuardianHonors) : bool :=
  (week stored <? week next)
  && ((longestStreak stored <? longestStreak next)
      || existsb (λ '(game, old), (champion old <? champion game) || (podium old <? podium game) || (top10 old <? top10 game))
           (combine (titles next) (titles stored))).
Definition guardianHonorJson (tokenId : string) (honors : GuardianHonors) : result GuardianHonorJson :=
  let? packed := packGuardianTitles (titles honors) in
  Ok {| hj_tokenId := tokenId; hj_week := JNum (week honors); hj_longestStreak := JNum (longestStreak honors);
        hj_titles := JStr (show_Z packed) |}.
(** [/^(0|[1-9][0-9]{0,43})$/] *)
Definition re_titles (s : string) : bool := String.eqb s "0" || re_positive 43 s.
Definition guardianHonorFromJson (value : GuardianHonorJson) : result GuardianHonor :=
  let bad := Error "Invalid guardian honor" in
  throws negb (guardianTokenId (JStr (hj_tokenId value))) with bad;
  match hj_week value, hj_longestStreak value, hj_titles value with
  | JNum w, JNum l, JStr t =>
      throws negb (lane (JNum w)) || (w <? 1) || negb (lane (JNum l)) || negb (re_titles t)
             || (2 ^ 144 <=? dec_number (chars t)) with bad;
      Ok {| h_tokenId := dec_number (chars (hj_tokenId value)); h_week := w; h_longestStreak := l;
            h_titles := dec_number (chars t) |}
  | _, _, _ => Throw bad
  end.
Definition guardianHonorsOf (honor : GuardianHonor) : result GuardianHonors :=
  let? t := unpackGuardianTitles (h_titles honor) in
  Ok {| week := h_week honor; longestStreak := h_longestStreak honor; titles := t |}.

(** ** The contract's honor word *)
(** One pass of [_honor]'s loop, lane by lane. *)
Fixpoint honor_lanes (stored incoming : Z) (shifts : list Z) (next : Z) : Z :=
  match shifts with
  | [] => next
  | shift :: rest =>
      let a := Z.land (Z.shiftr stored shift) 65535 in
      let b := Z.land (Z.shiftr incoming shift) 65535 in
      honor_lanes stored incoming rest (Z.lor next (Z.shiftl (if b <? a then a else b) shift))
  end.
(** [uint256 shift = 16; shift < 176; shift += 16] *)
Definition honor_shifts : list Z := [16; 32; 48; 64; 80; 96; 112; 128; 144; 160].
(** The stored word after a well signed honor of a sealed week; [None] when it is not newer. *)
Definition honor_apply (stored : Z) (honor : GuardianHonor) : option Z :=
  if h_week honor <=? Z.land stored 65535 then None
  else Some (honor_lanes stored (Z.lor (Z.shiftl (h_longestStreak honor) 16) (Z.shiftl (h_titles honor) 32))
               honor_shifts (h_week honor)).
(** [_progress] reads the word back; the client's honors are these lanes. *)
Definition honor_progress (honors : Z) : GuardianHonors :=
  {| week := lane_at honors 0; longestStreak := lane_at honors 1;
     titles := map (λ game, let t := Z.shiftr honors (32 + game * 48) in
                            {| champion := Z.land t 65535; podium := Z.land (Z.shiftr t 16) 65535;
                               top10 := Z.land (Z.shiftr t 32) 65535 |}) [0; 1; 2] |}.

Example titles_packed : packGuardianTitles [{| champion := 1; podium := 2; top10 := 3 |}; no_titles; {| champion := 0; podium := 0; top10 := 65535 |}]
  = Ok (1 + 2 * 2 ^ 16 + 3 * 2 ^ 32 + 65535 * 2 ^ 128).
Proof. by vm_compute. Qed.
Example first_name : guardianName (IdText "1") en = Ok "Sleepy Dolsoe".
Proof. by vm_compute. Qed.

(** ** Lanes of a word *)
Definition lane_value (x : Z) : Prop := 0 <= x <= 65535.
Lemma lane_spec x : lane (JNum x) = true ↔ lane_value x.
Proof. unfold lane_value. cbn [lane]. rewrite andb_true_iff, !Z.leb_le. done. Qed.
Lemma lane_mod w l : 0 <= l → lane_at w l = w / 2 ^ (16 * l) mod 65536.
Proof. intros Hl. unfold lane_at. rewrite Z.shiftr_div_pow2 by lia. by apply (Z.land_ones _ 16). Qed.
Lemma lane_bounds w l : 0 <= l → lane_value (lane_at w l).
Proof. intros Hl. rewrite lane_mod by done. unfold lane_value. pose proof (Z.mod_pos_bound (w / 2 ^ (16 * l)) 65536). lia. Qed.
Lemma lane_testbit w l n : 0 <= l → 0 <= n → Z.testbit (lane_at w l) n = Z.testbit w (n + 16 * l) && (n <? 16).
Proof.
  intros Hl Hn. unfold lane_at. change 65535 with (Z.ones 16).
  rewrite Z.land_spec, Z.shiftr_spec, Z.testbit_ones_nonneg by lia. done.
Qed.
Lemma small_testbit x n : lane_value x → 16 <= n → Z.testbit x n = false.
Proof.
  intros Hx Hn. destruct (Z.eq_dec x 0) as [->|]; [apply Z.bits_0|].
  apply Z.bits_above_log2; [unfold lane_value in Hx; lia|].
  assert (Z.log2 x < 16) by (apply Z.log2_lt_pow2; unfold lane_value in Hx; lia). lia.
Qed.
(** Writing one lane leaves the others. *)
Lemma lane_write w x k l : lane_value x → 0 <= k → 0 <= l →
  lane_at (Z.lor w (Z.shiftl x (16 * k))) l = if l =? k then Z.lor (lane_at w l) x else lane_at w l.
Proof.
  intros Hx Hk Hl. apply Z.bits_inj'. intros n Hn. rewrite lane_testbit, Z.lor_spec, Z.shiftl_spec by lia.
  destruct (l =? k) eqn:E; bools.
  - rewrite Z.lor_spec, lane_testbit by lia. replace (n + 16 * l - 16 * k) with n by lia.
    destruct (Z.ltb_spec n 16); [by rewrite !andb_true_r|]. rewrite (small_testbit x n) by done. by rewrite !andb_false_r.
  - rewrite lane_testbit by lia. destruct (Z.ltb_spec n 16); [|by rewrite !andb_false_r].
    rewrite !andb_true_r. destruct (Z.lt_ge_cases l k).
    + rewrite (Z.testbit_neg_r x) by lia. by rewrite orb_false_r.
    + rewrite (small_testbit x) by (done || lia). by rewrite orb_false_r.
Qed.
Lemma lane_write_empty w x k l : lane_value x → 0 <= k → 0 <= l → lane_at w k = 0 →
  lane_at (Z.lor w (Z.shiftl x (16 * k))) l = if l =? k then x else lane_at w l.
Proof.
  intros Hx Hk Hl Hw. rewrite lane_write by done. destruct (Z.eqb_spec l k) as [->|]; [|done]. by rewrite Hw, Z.lor_0_l.
Qed.
(** A non-negative word is its lanes. *)
Lemma lanes_ext a b : 0 <= a → 0 <= b → (∀ l, 0 <= l → lane_at a l = lane_at b l) → a = b.
Proof.
  intros Ha Hb Hl. apply Z.bits_inj'. intros n Hn.
  assert (E : n = n mod 16 + 16 * (n / 16)) by (pose proof (Z.div_mod n 16); lia).
  pose proof (Z.mod_pos_bound n 16 ltac:(lia)). assert (0 <= n / 16) by (apply Z.div_pos; lia).
  pose proof (lane_testbit a (n / 16) (n mod 16)) as H1. pose proof (lane_testbit b (n / 16) (n mod 16)) as H2.
  rewrite (proj2 (Z.ltb_lt _ _)), andb_true_r, <- E in H1, H2 by lia. rewrite <- H1, <- H2 by lia. by rewrite Hl.
Qed.
Lemma lane_above w k l : 0 <= w < 2 ^ (16 * k) → 0 <= k <= l → lane_at w l = 0.
Proof.
  intros Hw Hk. rewrite lane_mod by lia. rewrite Z.div_small; [done|].
  split; [lia|]. eapply Z.lt_le_trans; [apply Hw|]. apply Z.pow_le_mono_r; lia.
Qed.
Lemma word_bound w k : 0 <= w → 0 <= k → (∀ l, k <= l → lane_at w l = 0) → w < 2 ^ (16 * k).
Proof.
  intros Hw Hk Hl. assert (E : w = w mod 2 ^ (16 * k)).
  { apply lanes_ext; [done|apply Z.mod_pos_bound; lia|]. intros l Hl0. apply Z.bits_inj'. intros n Hn.
    rewrite !lane_testbit by lia. destruct (Z.ltb_spec n 16); [|by rewrite !andb_false_r]. rewrite !andb_true_r.
    destruct (Z.lt_ge_cases l k).
    - by rewrite Z.mod_pow2_bits_low by lia.
    - rewrite Z.mod_pow2_bits_high by lia. pose proof (lane_testbit w l n) as H1. rewrite (Hl l), Z.bits_0 in H1 by lia.
      rewrite (proj2 (Z.ltb_lt n 16)), andb_true_r in H1 by lia. symmetry. apply H1; lia. }
  rewrite E. apply Z.mod_pos_bound. lia.
Qed.

(** Lanes written one after the other, from lane [k] up. *)
Fixpoint write_lanes (k : Z) (xs : list Z) (w : Z) : Z :=
  match xs with [] => w | x :: rest => write_lanes (k + 1) rest (Z.lor w (Z.shiftl x (16 * k))) end.
Lemma write_lanes_at xs : ∀ k w, Forall lane_value xs → 0 <= k → (∀ l, k <= l → lane_at w l = 0) → ∀ l, 0 <= l →
  lane_at (write_lanes k xs w) l = if l <? k then lane_at w l else nth (Z.to_nat (l - k)) xs 0.
Proof.
  induction xs as [|x xs IH]; intros k w Hxs Hk Hw l Hl; cbn [write_lanes].
  { destruct (Z.ltb_spec l k); [done|]. rewrite Hw by done. by destruct (Z.to_nat (l - k)). }
  apply Forall_cons in Hxs as [Hx Hxs]. rewrite IH; [|done|lia| |done].
  2: { intros l' Hl'. rewrite lane_write_empty by (done || lia || (apply Hw; lia)).
       rewrite (proj2 (Z.eqb_neq l' k)) by lia. apply Hw. lia. }
  rewrite lane_write_empty by (done || lia || (apply Hw; lia)).
  destruct (Z.ltb_spec l k), (Z.ltb_spec l (k + 1)), (Z.eqb_spec l k); try lia.
  - subst l. by rewrite Z.sub_diag.
  - replace (Z.to_nat (l - k)) with (S (Z.to_nat (l - (k + 1)))) by lia. done.
Qed.
Lemma write_lanes_nonneg xs : ∀ k w, Forall lane_value xs → 0 <= w → 0 <= write_lanes k xs w.
Proof.
  induction xs as [|x xs IH]; intros k w Hxs Hw; cbn [write_lanes]; [done|].
  apply Forall_cons in Hxs as [[Hx _] Hxs]. apply IH; [done|]. apply Z.lor_nonneg. split; [done|]. by apply Z.shiftl_nonneg.
Qed.

(** ** Titles *)
Definition counts_ok (g : GuardianTitleCounts) : Prop := Forall lane_value (tiers g).
Record titles_ok (ts : list GuardianTitleCounts) : Prop := {
  to_length : length ts = 3%nat; to_counts : Forall counts_ok ts }.
Definition all_lanes (ts : list GuardianTitleCounts) : list Z := ts ≫= tiers.

Lemma titles_three ts : titles_ok ts → ∃ a b c, ts = [a; b; c] ∧ counts_ok a ∧ counts_ok b ∧ counts_ok c.
Proof.
  intros [Hl Hc]. destruct ts as [|a [|b [|c [|]]]]; try discriminate Hl. exists a, b, c.
  rewrite !Forall_cons in Hc. tauto.
Qed.
Lemma all_lanes_ok ts : titles_ok ts → Forall lane_value (all_lanes ts).
Proof. intros [_ Hc]. apply Forall_bind. exact Hc. Qed.

Lemma packGuardianTitles_lanes ts : titles_ok ts → packGuardianTitles ts = Ok (write_lanes 0 (all_lanes ts) 0).
Proof.
  intros (a & b & c & -> & Ha & Hb & Hc)%titles_three. unfold counts_ok, tiers in *. rewrite !Forall_cons in Ha, Hb, Hc.
  unfold packGuardianTitles, pack_games, pack_game, pack_tier.
  rewrite !(λ x, proj2 (lane_spec x)) by tauto. reflexivity.
Qed.
Lemma packGuardianTitles_inv ts p : packGuardianTitles ts = Ok p → titles_ok ts.
Proof.
  unfold packGuardianTitles. rewrite throws_ok. intros [Hl H]. apply negb_false_iff, Nat.eqb_eq in Hl. split; [done|].
  destruct ts as [|a [|b [|c [|]]]]; try discriminate Hl. unfold pack_games, pack_game, pack_tier in H. inv_tx.
  repeat match goal with
  | H : negb (lane _) = false |- _ => apply negb_false_iff in H; rewrite lane_spec in H
  end. repeat apply Forall_cons_2 || apply Forall_nil_2; done.
Qed.

Lemma pack_word ts p : packGuardianTitles ts = Ok p →
  0 <= p < 2 ^ 144 ∧ ∀ l, 0 <= l → lane_at p l = nth (Z.to_nat l) (all_lanes ts) 0.
Proof.
  intros Hp. pose proof (packGuardianTitles_inv _ _ Hp) as Hts. rewrite packGuardianTitles_lanes in Hp by done.
  injection Hp as <-. pose proof (all_lanes_ok _ Hts) as Hlanes.
  assert (Hat : ∀ l, 0 <= l → lane_at (write_lanes 0 (all_lanes ts) 0) l = nth (Z.to_nat l) (all_lanes ts) 0).
  { intros l Hl. rewrite write_lanes_at; [|done|lia| |done].
    - rewrite (proj2 (Z.ltb_ge l 0)) by lia. by rewrite Z.sub_0_r.
    - intros l' _. unfold lane_at. by rewrite Z.shiftr_0_l. }
  split; [|done]. pose proof (write_lanes_nonneg _ 0 0 Hlanes ltac:(lia)) as H0. split; [done|].
  apply (word_bound _ 9); [done|lia|]. intros l Hl. rewrite Hat by lia. apply nth_overflow.
  destruct (titles_three _ Hts) as (a & b & c & -> & _). cbn. lia.
Qed.

Lemma unpack_pack ts p : packGuardianTitles ts = Ok p → unpackGuardianTitles p = Ok ts.
Proof.
  intros Hp. pose proof (packGuardianTitles_inv _ _ Hp) as Hts. destruct (pack_word _ _ Hp) as [[H0 H1] Hat].
  unfold unpackGuardianTitles. rewrite (proj2 (Z.ltb_ge _ _)), (proj2 (Z.leb_gt _ _)) by done. cbn [orb throw_when rbind map].
  rewrite !Hat by lia. by destruct (titles_three _ Hts) as ([] & [] & [] & -> & _).
Qed.
Lemma pack_unpack p ts : unpackGuardianTitles p = Ok ts → packGuardianTitles ts = Ok p.
Proof.
  unfold unpackGuardianTitles. rewrite throws_ok. intros [Hr [= <-]]. apply orb_false_iff in Hr as [H0 H1]. bools.
  match goal with |- packGuardianTitles ?x = _ => set (ts := x) end. assert (Hts : titles_ok ts).
  { split; [done|]. repeat apply Forall_cons_2 || apply Forall_nil_2; apply lane_bounds; lia. }
  destruct (packGuardianTitles ts) as [q|] eqn:Hq; [|by rewrite packGuardianTitles_lanes in Hq].
  destruct (pack_word _ _ Hq) as [[Hq0 Hq1] Hat]. f_equal. apply lanes_ext; [done|done|]. intros l Hl. rewrite Hat by done.
  destruct (Z.lt_ge_cases l 9) as [Hlt|Hge].
  - assert (Hc : l = 0 ∨ l = 1 ∨ l = 2 ∨ l = 3 ∨ l = 4 ∨ l = 5 ∨ l = 6 ∨ l = 7 ∨ l = 8) by lia.
    destruct Hc as [->|[->|[->|[->|[->|[->|[->|[->| ->]]]]]]]]; reflexivity.
  - rewrite (lane_above p 9) by (lia || (change (16 * 9) with 144; lia)). apply nth_overflow. cbn. lia.
Qed.

(** Theorem: the titles word holds exactly the titles: three games of 16-bit counts pack into a
    uint144 and read back as they were, and every uint144 reads as titles that pack back into it. *)
Theorem titles_round_trip (ts : list GuardianTitleCounts) (packed : Z) :
  (packGuardianTitles ts = Ok packed ↔ unpackGuardianTitles packed = Ok ts)
  ∧ (titles_ok ts ↔ ∃ p, packGuardianTitles ts = Ok p)
  ∧ (0 <= packed < 2 ^ 144 ↔ ∃ t, unpackGuardianTitles packed = Ok t).
Proof.
  split_and!.
  - split; [apply unpack_pack|apply pack_unpack].
  - split; [|intros [p Hp]; by apply packGuardianTitles_inv in Hp].
    intros Hts. eexists. by apply packGuardianTitles_lanes.
  - unfold unpackGuardianTitles. split.
    + intros [H0 H1]. rewrite (proj2 (Z.ltb_ge _ _)), (proj2 (Z.leb_gt _ _)) by done. eauto.
    + intros [t Ht]. apply throws_ok in Ht as [Hr _]. apply orb_false_iff in Hr as [H0 H1]. bools. done.
Qed.

(** ** Honors *)
(** Lanes that fit, over three games. *)
Record honors_ok (h : GuardianHonors) : Prop := {
  ho_week : lane_value (week h); ho_streak : lane_value (longestStreak h); ho_titles : titles_ok (titles h) }.
Definition ten_lanes (h : GuardianHonors) : list Z := longestStreak h :: all_lanes (titles h).

Lemma positive_length n s : re_positive n s = true → (1 <= length (chars s) <= S n)%nat.
Proof.
  unfold re_positive. destruct (chars s) as [|c l]; [done|]. rewrite !andb_true_iff, Nat.leb_le. cbn [length]. lia.
Qed.
Lemma positive_shown n z : 0 < z < 10 ^ Z.of_nat (S n) → re_positive n (show_Z z) = true.
Proof.
  intros Hz. destruct (show_nonneg z ltac:(lia)) as (Hd & Hw & Hn).
  pose proof (digits_short z (S n) ltac:(lia) ltac:(lia)) as Hl. unfold re_positive.
  destruct (chars (show_Z z)) as [|c l] eqn:E; [vm_compute in Hn; lia|]. cbn [forallb length] in *.
  apply andb_true_iff in Hd as [Hc Hd]. rewrite Hd, (proj2 (Nat.leb_le _ _)), !andb_true_r by lia.
  assert (Hc0 : c ≠ "0"%char) by (intros ->; destruct l as [|c' l]; [vm_compute in Hn; lia|discriminate Hw]).
  unfold is_digit, in_range in *. destruct c as [[] [] [] [] [] [] [] []]; try done.
Qed.
Lemma titles_shown p : 0 <= p < 2 ^ 144 → re_titles (show_Z p) = true ∧ dec_number (chars (show_Z p)) = p.
Proof.
  intros Hp. split; [|apply show_nonneg; lia]. unfold re_titles.
  destruct (Z.eq_dec p 0) as [->|]; [reflexivity|]. rewrite (positive_shown 43), orb_true_r; [done|].
  split; [lia|]. eapply Z.lt_trans; [apply Hp|reflexivity].
Qed.

(** Theorem: the honor the seller signs is the honor the client reads: valid honors of a sealed week survive
    the JSON form, the decimal titles word and its unpacking. *)
Theorem honor_json_round_trip (tokenId : string) (h : GuardianHonors)
    (Ht : guardianTokenId (JStr tokenId) = true) (Hh : honors_ok h) (Hw : 1 <= week h) :
  ∃ json honor, guardianHonorJson tokenId h = Ok json ∧ guardianHonorFromJson json = Ok honor
    ∧ h_tokenId honor = dec_number (chars tokenId) ∧ guardianHonorsOf honor = Ok h.
Proof.
  destruct Hh as [Hwk Hst Hti]. unfold guardianHonorJson.
  destruct (packGuardianTitles (titles h)) as [p|] eqn:Hp; [|by rewrite packGuardianTitles_lanes in Hp].
  destruct (pack_word _ _ Hp) as [Hpb _]. destruct (titles_shown p Hpb) as [Hre Hdec].
  eexists _, _. split; [done|]. split.
  - unfold guardianHonorFromJson. cbn [hj_tokenId hj_week hj_longestStreak hj_titles]. rewrite Ht. cbn [negb throw_when rbind].
    rewrite !(λ x, proj2 (lane_spec x)), (proj2 (Z.ltb_ge _ _)), Hre, Hdec, (proj2 (Z.leb_gt _ _)) by (done || lia). done.
  - split; [done|]. unfold guardianHonorsOf. cbn [h_titles h_week h_longestStreak]. rewrite (unpack_pack _ _ Hp). by destruct h.
Qed.
Definition ex_honors : GuardianHonors :=
  {| week := 2961; longestStreak := 31; titles := [{| champion := 2; podium := 3; top10 := 5 |}; no_titles; no_titles] |}.
Lemma ex_honors_ok : honors_ok ex_honors.
Proof. repeat split; try (vm_compute; congruence). repeat apply Forall_cons_2 || apply Forall_nil_2; vm_compute; split; congruence. Defined.
Lemma honor_json_round_trip_witness : ∃ json honor,
  guardianHonorJson "777" ex_honors = Ok json ∧ guardianHonorFromJson json = Ok honor
  ∧ h_tokenId honor = dec_number (chars "777") ∧ guardianHonorsOf honor = Ok ex_honors.
Proof. apply (honor_json_round_trip "777" ex_honors); [reflexivity|exact ex_honors_ok|vm_compute; congruence]. Defined.

(** ** The contract keeps the lane-wise maximum *)
Definition max_counts (a b : GuardianTitleCounts) : GuardianTitleCounts :=
  {| champion := Z.max (champion a) (champion b); podium := Z.max (podium a) (podium b); top10 := Z.max (top10 a) (top10 b) |}.
Definition merge_honors (stored next : GuardianHonors) : GuardianHonors :=
  {| week := week next; longestStreak := Z.max (longestStreak stored) (longestStreak next);
     titles := zip_with max_counts (titles stored) (titles next) |}.

Lemma lane_of w l s : 0 <= l → s = 16 * l → Z.land (Z.shiftr w s) 65535 = lane_at w l.
Proof. by intros _ ->. Qed.
Lemma progress_lanes w : honor_progress w =
  {| week := lane_at w 0; longestStreak := lane_at w 1;
     titles := map (λ g, {| champion := lane_at w (2 + g * 3); podium := lane_at w (3 + g * 3); top10 := lane_at w (4 + g * 3) |}) [0; 1; 2] |}.
Proof.
  unfold honor_progress. cbn [map]. rewrite !Z.shiftr_shiftr by lia. repeat f_equal; apply lane_of; lia.
Qed.
Definition lane_max (stored incoming l : Z) : Z :=
  let a := lane_at stored l in let b := lane_at incoming l in if b <? a then a else b.
Lemma lane_max_max a b l : lane_max a b l = Z.max (lane_at a l) (lane_at b l).
Proof. unfold lane_max. destruct (Z.ltb_spec (lane_at b l) (lane_at a l)); lia. Qed.
Lemma lane_max_ok a b l : 0 <= l → lane_value (lane_max a b l).
Proof. intros Hl. unfold lane_max. destruct (_ <? _); by apply lane_bounds. Qed.
Lemma honor_lanes_write stored incoming w :
  honor_lanes stored incoming honor_shifts w
  = write_lanes 1 (lane_max stored incoming <$> [1; 2; 3; 4; 5; 6; 7; 8; 9; 10]) w.
Proof. reflexivity. Qed.

(** The lanes of the word an honor brings. *)
Lemma incoming_lane streak ts p l : lane_value streak → packGuardianTitles ts = Ok p → 0 <= l →
  lane_at (Z.lor (Z.shiftl streak 16) (Z.shiftl p 32)) l
  = if l =? 0 then 0 else nth (Z.to_nat (l - 1)) (streak :: all_lanes ts) 0.
Proof.
  intros Hs Hp Hl. destruct (pack_word _ _ Hp) as [[H0 H1] Hat].
  assert (E : lane_at (Z.lor (Z.shiftl streak 16) (Z.shiftl p 32)) l
              = if l <? 2 then lane_at (Z.shiftl streak 16) l else Z.lor (lane_at (Z.shiftl streak 16) l) (lane_at p (l - 2))).
  { apply Z.bits_inj'. intros n Hn. rewrite lane_testbit, Z.lor_spec, !Z.shiftl_spec by lia.
    destruct (Z.ltb_spec l 2).
    - rewrite lane_testbit, Z.shiftl_spec by lia. destruct (Z.ltb_spec n 16); [|by rewrite !andb_false_r].
      rewrite (Z.testbit_neg_r p) by lia. by rewrite orb_false_r.
    - rewrite Z.lor_spec, !lane_testbit, Z.shiftl_spec by lia. replace (n + 16 * (l - 2)) with (n + 16 * l - 32) by lia.
      destruct (n <? 16); [by rewrite !andb_true_r|by rewrite !andb_false_r]. }
  assert (Es : lane_at (Z.shiftl streak 16) l = if l =? 1 then streak else 0).
  { pose proof (lane_write_empty 0 streak 1 l Hs ltac:(lia) Hl eq_refl) as H. rewrite Z.lor_0_l in H. change (16 * 1) with 16 in H. rewrite H.
    destruct (l =? 1); [done|]. unfold lane_at. by rewrite Z.shiftr_0_l. }
  rewrite E, Es. destruct (Z.ltb_spec l 2), (Z.eqb_spec l 0), (Z.eqb_spec l 1); subst; try lia; try done.
  rewrite Z.lor_0_l, Hat by lia. replace (Z.to_nat (l - 1)) with (S (Z.to_nat (l - 2))) by lia. done.
Qed.

Lemma applied_lane stored honor w l : lane_value (h_week honor) → honor_apply stored honor = Some w → 0 <= l <= 10 →
  lane_at w l = if l =? 0 then h_week honor
                else Z.max (lane_at stored l) (lane_at (Z.lor (Z.shiftl (h_longestStreak honor) 16) (Z.shiftl (h_titles honor) 32)) l).
Proof.
  intros Hwk Hw Hl. unfold honor_apply in Hw. destruct (_ <=? _); [done|]. apply (inj Some) in Hw. subst w.
  assert (Hz : ∀ l, 1 <= l → lane_at (h_week honor) l = 0)
    by (intros l' Hl'; apply (lane_above _ 1); unfold lane_value in Hwk; [change (2 ^ (16 * 1)) with 65536|]; lia).
  rewrite honor_lanes_write, write_lanes_at; [|repeat (apply Forall_cons_2; [apply lane_max_ok; lia|]); apply Forall_nil_2|lia|done|lia].
  destruct (Z.ltb_spec l 1), (Z.eqb_spec l 0); try lia.
  - subst l. unfold lane_at. rewrite Z.shiftr_0_r, (Z.land_ones _ 16) by lia. apply Z.mod_small. unfold lane_value in Hwk. lia.
  - rewrite <- lane_max_max.
    assert (Hc : l = 1 ∨ l = 2 ∨ l = 3 ∨ l = 4 ∨ l = 5 ∨ l = 6 ∨ l = 7 ∨ l = 8 ∨ l = 9 ∨ l = 10) by lia.
    destruct Hc as [->|[->|[->|[->|[->|[->|[->|[->|[->| ->]]]]]]]]]; reflexivity.
Qed.

Lemma applied_progress stored honor next w : guardianHonorsOf honor = Ok next → honors_ok next →
  honor_apply stored honor = Some w → honor_progress w = merge_honors (honor_progress stored) next.
Proof.
  intros Hn [Hwk Hst Hti] Hw. unfold guardianHonorsOf in Hn. apply rbind_ok in Hn as (ts & Hts & [= <-]).
  apply pack_unpack in Hts. cbn [week longestStreak titles] in *.
  pose proof (λ l, applied_lane stored honor w l Hwk Hw) as Hat.
  pose proof (λ l, incoming_lane _ _ _ l Hst Hts) as Hin.
  rewrite !progress_lanes. unfold merge_honors. cbn [map week longestStreak titles].
  destruct (titles_three _ Hti) as (a & b & c & -> & _). cbn [zip_with].
  unfold max_counts. cbn [champion podium top10].
  rewrite !Hat, !Hin by lia. reflexivity.
Qed.
Lemma counts_eq a b : champion a = champion b → podium a = podium b → top10 a = top10 b → a = b.
Proof. destruct a, b. cbn. by intros -> -> ->. Qed.
Lemma honorAdvances_merge stored next : length (titles stored) = 3%nat → length (titles next) = 3%nat →
  honorAdvances stored next = true
  ↔ week stored < week next ∧ (longestStreak (merge_honors stored next), titles (merge_honors stored next))
                              ≠ (longestStreak stored, titles stored).
Proof.
  intros Hs Hn. unfold honorAdvances, merge_honors. cbn [longestStreak titles].
  destruct (titles stored) as [|a [|b [|c [|]]]]; try discriminate Hs.
  destruct (titles next) as [|a' [|b' [|c' [|]]]]; try discriminate Hn.
  cbn [zip_with combine existsb]. rewrite andb_true_iff, Z.ltb_lt. apply and_iff_compat_l.
  rewrite orb_false_r, !orb_true_iff, !Z.ltb_lt. unfold max_counts. split.
  - intros Hlt [= H1 Ha Hb Hc]. destruct a, b, c. cbn in *.
    repeat match goal with H : Build_GuardianTitleCounts _ _ _ = _ |- _ => injection H as ? ? ? end. lia.
  - intros Hne. destruct (decide (longestStreak stored < longestStreak next)); [tauto|].
    assert (Hl : ∀ x y, {x < y} + {y <= x}) by (intros x y; destruct (Z_lt_le_dec x y); auto).
    destruct (Hl (champion a) (champion a')); [tauto|]. destruct (Hl (podium a) (podium a')); [tauto|].
    destruct (Hl (top10 a) (top10 a')); [tauto|]. destruct (Hl (champion b) (champion b')); [tauto|].
    destruct (Hl (podium b) (podium b')); [tauto|]. destruct (Hl (top10 b) (top10 b')); [tauto|].
    destruct (Hl (champion c) (champion c')); [tauto|]. destruct (Hl (podium c) (podium c')); [tauto|].
    destruct (Hl (top10 c) (top10 c')); [tauto|]. exfalso. apply Hne.
    f_equal; [lia|]. repeat f_equal; apply counts_eq; cbn; lia.
Qed.

(** the contract keeps what the client expects: an honor of valid lanes is applied exactly when
    its week is newer than the stored one; reading the new word back gives the honor's week and the lane-wise
    maximum of both; and the client claims ([honorAdvances]) exactly when the contract would apply the
    honor and some streak or title would then change. *)
Theorem contract_keeps_the_maximum (stored : Z) (honor : GuardianHonor) (next : GuardianHonors)
    (Hn : guardianHonorsOf honor = Ok next) (Hok : honors_ok next) :
  (honor_apply stored honor = None ↔ h_week honor <= week (honor_progress stored))
  ∧ (∀ w, honor_apply stored honor = Some w → honor_progress w = merge_honors (honor_progress stored) next)
  ∧ (honorAdvances (honor_progress stored) next = true
     ↔ ∃ w, honor_apply stored honor = Some w
         ∧ (longestStreak (honor_progress w), titles (honor_progress w))
           ≠ (longestStreak (honor_progress stored), titles (honor_progress stored))).
Proof.
  assert (Hnone : honor_apply stored honor = None ↔ h_week honor <= week (honor_progress stored)).
  { unfold honor_apply. rewrite progress_lanes. cbn [week]. unfold lane_at. rewrite Z.mul_0_r, Z.shiftr_0_r.
    destruct (Z.leb_spec (h_week honor) (Z.land stored 65535)); split; (lia || done). }
  assert (Hwk : week next = h_week honor) by (unfold guardianHonorsOf in Hn; apply rbind_ok in Hn as (ts & _ & [= <-]); done).
  split_and!; [done|by intros w; apply applied_progress|].
  rewrite honorAdvances_merge by (done || apply Hok). rewrite Hwk. split.
  - intros [Hlt Hne]. destruct (honor_apply stored honor) as [w|] eqn:Hw; [|pose proof (proj1 Hnone eq_refl); lia].
    exists w. split; [done|]. by rewrite (applied_progress _ _ _ _ Hn Hok Hw).
  - intros (w & Hw & Hne). rewrite (applied_progress _ _ _ _ Hn Hok Hw) in Hne. split; [|done].
    destruct (Z.lt_ge_cases (week (honor_progress stored)) (h_week honor)); [done|].
    apply Hnone in H. congruence.
Qed.
Definition ex_honor : GuardianHonor := {| h_tokenId := 777; h_week := 2961; h_longestStreak := 31; h_titles := 2 + 3 * 2 ^ 16 + 5 * 2 ^ 32 |}.
Lemma contract_keeps_the_maximum_witness :
  (honor_apply 0 ex_honor = None ↔ h_week ex_honor <= week (honor_progress 0))
  ∧ (∀ w, honor_apply 0 ex_honor = Some w → honor_progress w = merge_honors (honor_progress 0) ex_honors)
  ∧ (honorAdvances (honor_progress 0) ex_honors = true
     ↔ ∃ w, honor_apply 0 ex_honor = Some w
         ∧ (longestStreak (honor_progress w), titles (honor_progress w))
           ≠ (longestStreak (honor_progress 0), titles (honor_progress 0))).
Proof. apply (contract_keeps_the_maximum 0 ex_honor ex_honors); [reflexivity|exact ex_honors_ok]. Defined.

(** ** Names are distinct *)
(** The walk reaches every index once. *)
Lemma name_index_inj a b : 1 <= a <= GUARDIAN_MAX_SUPPLY → 1 <= b <= GUARDIAN_MAX_SUPPLY → name_index a = name_index b → a = b.
Proof.
  unfold name_index, GUARDIAN_MAX_SUPPLY. intros Ha Hb E.
  assert (Hd : (10000 | (a - b) * 7919)).
  { apply Z.mod_divide; [lia|]. replace ((a - b) * 7919) with ((a - 1) * 7919 - (b - 1) * 7919) by lia.
    rewrite Zminus_mod, E, Z.sub_diag. done. }
  rewrite Z.mul_comm in Hd. apply Z.gauss in Hd as [k Hk]; [|reflexivity]. nia.
Qed.
Lemma name_index_bounds a : 0 <= name_index a < 10000.
Proof. apply Z.mod_pos_bound. done. Qed.

Definition no_space (s : string) : bool := forallb (λ c, negb (Ascii.eqb c " ")) (chars s).
(** What stands before the first mark of a text is determined by it. *)
Lemma before_mark (c : ascii) x : ∀ y u v, forallb (λ d, negb (Ascii.eqb d c)) x = true → forallb (λ d, negb (Ascii.eqb d c)) y = true →
  (x ++ c :: u)%list = (y ++ c :: v)%list → x = y ∧ u = v.
Proof.
  induction x as [|h x IH]; intros [|k y] u v Hx Hy E; cbn in *.
  - by injection E.
  - injection E as <- _. by rewrite Ascii.eqb_refl in Hy.
  - injection E as -> _. by rewrite Ascii.eqb_refl in Hx.
  - injection E as -> E. apply andb_true_iff in Hx as [_ Hx], Hy as [_ Hy].
    destruct (IH y u v Hx Hy E) as [-> ->]. done.
Qed.
Lemma chars_app x y : chars (x ++ y) = (chars x ++ chars y)%list.
Proof.
  induction x as [|h x IH]; [done|]. change (h :: chars (x ++ y) = h :: (chars x ++ chars y)%list). by rewrite IH.
Qed.
Lemma chars_determine s t : chars s = chars t → s = t.
Proof.
  intros H. apply (f_equal string_of_list_ascii) in H. unfold chars in H. by rewrite !string_of_list_ascii_of_string in H.
Qed.
(** A given name has no space, so the last space of a name ends its modifier. *)
Lemma last_space a b c d : no_space b = true → no_space d = true → a ++ " " ++ b = c ++ " " ++ d → a = c ∧ b = d.
Proof.
  unfold no_space. intros Hb Hd E. apply (f_equal (λ s, rev (chars s))) in E.
  rewrite !chars_app, !rev_app_distr in E. change (chars " ") with [" "%char] in E. cbn [rev app] in E.
  rewrite <- !app_assoc in E. apply before_mark in E as [E1 E2].
  - apply (f_equal (@rev ascii)) in E1, E2. rewrite !rev_involutive in E1, E2. split; by apply chars_determine.
  - rewrite forallb_forall in *. intros x Hx. apply Hb. by apply in_rev.
  - rewrite forallb_forall in *. intros x Hx. apply Hd. by apply in_rev.
Qed.

Lemma names_tables l : length (GUARDIAN_NAME_MODIFIERS l) = 100%nat ∧ length (GUARDIAN_GIVEN_NAMES l) = 100%nat
  ∧ base.NoDup (GUARDIAN_NAME_MODIFIERS l) ∧ base.NoDup (GUARDIAN_GIVEN_NAMES l)
  ∧ forallb no_space (GUARDIAN_GIVEN_NAMES l) = true.
Proof.
  destruct l; (split_and!; [vm_compute; reflexivity|vm_compute; reflexivity| | |vm_compute; reflexivity]);
    match goal with |- base.NoDup ?x => apply (bool_decide_unpack (base.NoDup x)); vm_compute; exact I end.
Qed.
Lemma nth_inj (l : list string) i j : base.NoDup l → (i < length l)%nat → (j < length l)%nat →
  nth i l "undefined" = nth j l "undefined" → i = j.
Proof.
  intros Hnd Hi Hj E. apply (NoDup_lookup l i j (nth i l "undefined")); [done| |].
  - destruct (nth_lookup_or_length l i "undefined"); [done|lia].
  - rewrite E. destruct (nth_lookup_or_length l j "undefined"); [done|lia].
Qed.

(** Theorem: every mintable guardian has a display name, in either language, and no two guardians share one. *)
Theorem guardian_names_are_distinct (l : Locale) :
  (∀ t, 1 <= token_number t <= GUARDIAN_MAX_SUPPLY ↔ ∃ name, guardianName t l = Ok name)
  ∧ ∀ a b name, guardianName a l = Ok name → guardianName b l = Ok name → token_number a = token_number b.
Proof.
  assert (Hok : ∀ t name, guardianName t l = Ok name → 1 <= token_number t <= GUARDIAN_MAX_SUPPLY).
  { intros t name H. unfold guardianName in H. apply throws_ok in H as [[H1 H2]%orb_false_iff _]. bools. lia. }
  split.
  - intros t. split; [|intros [name H]; by eapply Hok]. intros Ht. unfold guardianName.
    rewrite !(proj2 (Z.ltb_ge _ _)) by lia. cbn [orb throw_when rbind]. eauto.
  - intros a b name Ha Hb. apply name_index_inj; [by eapply Hok|by eapply Hok|].
    unfold guardianName in Ha, Hb. apply throws_ok in Ha as [_ [= Ha]], Hb as [_ [= Hb]]. rewrite <- Hb in Ha.
    destruct (names_tables l) as (Lm & Lg & Dm & Dg & Hs). rewrite forallb_forall in Hs.
    pose proof (name_index_bounds (token_number a)). pose proof (name_index_bounds (token_number b)).
    assert (Hidx : ∀ i, 0 <= i < 10000 → (Z.to_nat (i mod 100) < 100)%nat ∧ (Z.to_nat (i / 100) < 100)%nat).
    { intros i Hi. split; Z.to_euclidean_division_equations; lia. }
    destruct (Hidx (name_index (token_number a))) as [Ma Ga]; [done|].
    destruct (Hidx (name_index (token_number b))) as [Mb Gb]; [done|].
    apply last_space in Ha as [E1 E2]; [|apply Hs, nth_In; lia..].
    apply nth_inj in E1; [|done|lia..]. apply nth_inj in E2; [|done|lia..].
    apply Z2Nat.inj in E1; [|Z.to_euclidean_division_equations; lia..].
    apply Z2Nat.inj in E2; [|Z.to_euclidean_division_equations; lia..].
    rewrite (Z.div_mod (name_index (token_number a)) 100), (Z.div_mod (name_index (token_number b)) 100) by lia. lia.
Qed.
