(* ===== verification/Ranking.v ===== *)
(** * Ranked play

    packages/arcade/src/ranking.ts beyond its calendar: the seed of a ranked attempt, the
    shapes a ranking request may have, and the attendance streak. *)

From Stdlib Require Import ZArith Lia Ascii String.
From stdpp Require Import base strings list sets.
From S2P Require Import Prelude Dates Validate Token Budget Calendar Guardians.
Open Scope string_scope.
Open Scope Z_scope.

Definition RANKED_ATTEMPTS : Z := 3.
Definition STREAK_FREEZE_EVERY : Z := 7.
Definition STREAK_FREEZE_MAX : Z := 2.
Definition STREAK_MILESTONES : list Z := [3; 7; 14; 30; 100].
Definition BOARD_ROWS : Z := 10.
Definition RANKING_PAGE_ROWS : Z := 50.
Definition ARCADE_RULESET_VERSION : Z := 3.
Inductive GameId := stamp | race | shop.
#[export] Instance game_eq_dec : EqDecision GameId.
Proof. solve_decision. Defined.
Definition RANKED_GAMES : list GameId := [stamp; race; shop].
Definition game_text (g : GameId) : string := match g with stamp => "stamp" | race => "race" | shop => "shop" end.
Definition GAME_PERIODS : list string := ["today"; "week"; "yesterday"; "lastweek"].

(** ** The scenario hash *)
(** JavaScript's conversions to 32 bits: [x | 0], [x >>> 0], [Math.imul]. *)
Definition ToUint32 (x : Z) : Z := x mod 2 ^ 32.
Definition ToInt32 (x : Z) : Z := let u := ToUint32 x in if u <? 2 ^ 31 then u else u - 2 ^ 32.
Definition imul (a b : Z) : Z := ToInt32 (ToUint32 a * ToUint32 b).
Definition js_xor (a b : Z) : Z := Z.lxor (ToInt32 a) (ToInt32 b).
(** The keys are ASCII, so each character is its code. *)
Definition fnv1a (key : string) : Z :=
  foldl (λ seed char, ToUint32 (imul (js_xor seed (code char)) 16777619)) 2166136261 (chars key).

Definition validRankingTokenId (v : jsval) : bool :=
  match v with JStr s => re_positive 4 s && (dec_number (chars s) <=? GUARDIAN_MAX_SUPPLY) | _ => false end.
Definition ranked_key (game : GameId) (day : string) (attempt : Z) (tokenId : string) (ruleset : Z) : string :=
  show_Z ruleset ++ ":ranked:" ++ day ++ ":" ++ game_text game ++ ":" ++ show_Z attempt ++ ":" ++ tokenId.
Definition rankedSeed (game : GameId) (day : string) (attempt : Z) (tokenId : string) (ruleset : Z) : result Z :=
  throws negb (bool_decide (game ∈ RANKED_GAMES)) || negb (isRankingDay day) || (attempt <? 1) || (RANKED_ATTEMPTS <? attempt)
         || negb (validRankingTokenId (JStr tokenId)) || negb (isSafeInteger ruleset) || (ruleset <? 1)
    with Error "Invalid ranked attempt";
  Ok (fnv1a (ranked_key game day attempt tokenId ruleset)).

(** ** Requests *)
Definition is_day (v : jsval) : bool := match v with JStr s => isRankingDay s | _ => false end.
Definition validRankedAttempt (v : jsval) : bool :=
  is_record v && (length (object_keys v) =? 2)%nat && is_day (prop v "day")
  && match prop v "attempt" with JNum a => (1 <=? a) && (a <=? RANKED_ATTEMPTS) | _ => false end.
Definition season_text (id : Z) : string := "s" ++ show_Z id.
Definition validRankingBoard (board period : string) (season_id : Z) : bool :=
  if String.eqb board "season" then String.eqb period (season_text season_id)
  else if String.eqb board "devotion" then String.eqb period "28d"
  else bool_decide (board ∈ map game_text RANKED_GAMES) && bool_decide (period ∈ GAME_PERIODS).
Definition rankingPageOffset (index : Z) : Z :=
  BOARD_ROWS + Z.max 0 (index - BOARD_ROWS) / RANKING_PAGE_ROWS * RANKING_PAGE_ROWS.
(** [/^[1-9]\d{1,4}$/] *)
Definition parseRankingPageOffset (value : string) : option Z :=
  if negb (re_positive 4 value && (2 <=? length (chars value))%nat) then None
  else let offset := dec_number (chars value) in
       if (offset <? GUARDIAN_MAX_SUPPLY) && (rankingPageOffset offset =? offset) then Some offset else None.
Definition ids_of (value : string) : list string := string_of_list_ascii <$> split_comma (chars value).
(** Each guardian number above the one before. *)
Fixpoint ascending (ids : list string) : bool :=
  match ids with
  | a :: (b :: _) as rest => (dec_number (chars a) <? dec_number (chars b)) && ascending rest
  | _ => true
  end.
(** [/^[1-9]\d{0,4}(,[1-9]\d{0,4}){0,2}$/]: one to three numbers. *)
Definition parseRankingIds (value : string) : option (list string) :=
  let ids := ids_of value in
  if negb (forallb (re_positive 4) ids && (length ids <=? 3)%nat) then None
  else if forallb (λ id, validRankingTokenId (JStr id)) ids && ascending ids then Some ids else None.

(** ** Attendance *)
Record Run := { current : Z; best : Z; freezes : Z; completed : Z }.
Record GuardianStreak := { gs_run : Run; playedToday : bool }.
Definition no_run : Run := {| current := 0; best := 0; freezes := 0; completed := 0 |}.
(** A played day, and a missed one. *)
Definition play (s : Run) : Run :=
  let current' := current s + 1 in
  let earned := current' mod STREAK_FREEZE_EVERY =? 0 in
  {| current := current'; best := Z.max (best s) current';
     freezes := if earned then Z.min STREAK_FREEZE_MAX (freezes s + 1) else freezes s;
     completed := if earned then completed s + 1 else completed s |}.
Definition rest (s : Run) : Run :=
  if 0 <? freezes s then {| current := current s; best := best s; freezes := freezes s - 1; completed := completed s |}
  else {| current := 0; best := best s; freezes := 0; completed := completed s |}.
(** The loop from [day] to [today]; [None] when the fuel does not reach. *)
Fixpoint streak_loop (fuel : nat) (played : list string) (today day : string) (s : Run) : option (result Run) :=
  match fuel with
  | O => None
  | S fuel =>
      if String.leb day today then
        if bool_decide (day ∈ played) then
          match addDays day 1 with Ok next => streak_loop fuel played today next (play s) | Throw e => Some (Throw e) end
        else if String.eqb day today then Some (Ok s)
        else match addDays day 1 with Ok next => streak_loop fuel played today next (rest s) | Throw e => Some (Throw e) end
      else Some (Ok s)
  end.
(** The first of the sorted texts. *)
Definition first_text (l : list string) : option string :=
  match l with [] => None | d :: l' => Some (foldl (λ a b, if String.ltb b a then b else a) d l') end.
Definition played_days (days : list string) (today : string) : list string :=
  filter (λ day, isRankingDay day && String.leb day today) days.
Definition streakProgress (fuel : nat) (days : list string) (today : string) : option (result GuardianStreak) :=
  let played := played_days days today in
  match first_text played with
  | None => Some (Ok {| gs_run := no_run; playedToday := false |})
  | Some first =>
      match streak_loop fuel played today first no_run with
      | None => None
      | Some (Ok s) => Some (Ok {| gs_run := s; playedToday := bool_decide (today ∈ played) |})
      | Some (Throw e) => Some (Throw e)
      end
  end.
(** The highest milestone not above [best], 0 if none. *)
Definition streakMilestone (best : Z) : Z := default 0 (last (filter (λ m, m <=? best) STREAK_MILESTONES)).
Inductive Title := champion_ | podium_ | top10_.
Definition titlePlace (place : Z) : option Title :=
  if (place <? 1) || (BOARD_ROWS <? place) then None
  else Some (if place =? 1 then champion_ else if place <=? 3 then podium_ else top10_).

Example fnv_a : fnv1a "a" = 3826002220.
Proof. vm_compute. reflexivity. Qed.
Example streak_week : streakProgress 20 ["2026-10-01"; "2026-10-02"; "2026-10-03"; "2026-10-04"; "2026-10-05"; "2026-10-06"; "2026-10-07"] "2026-10-09"
  = Some (Ok {| gs_run := {| current := 7; best := 7; freezes := 0; completed := 1 |}; playedToday := false |}).
Proof. vm_compute. reflexivity. Qed.

(** ** The hash is FNV-1a *)
Definition fnv_step (h c : Z) : Z := (Z.lxor h c * 16777619) mod 2 ^ 32.
Lemma ToInt32_mod x : ToInt32 x mod 2 ^ 32 = x mod 2 ^ 32.
Proof.
  unfold ToInt32, ToUint32. destruct (_ <? _); [by rewrite Z.mod_mod|].
  rewrite Zminus_mod, Z.mod_same, Z.sub_0_r, !Z.mod_mod; done.
Qed.
Lemma ToInt32_code c : ToInt32 (code c) = code c.
Proof. by destruct c as [[][][][][][][][]]. Qed.
Lemma lxor_mod a b k : 0 <= k → Z.lxor a b mod 2 ^ k = Z.lxor (a mod 2 ^ k) (b mod 2 ^ k).
Proof.
  intros Hk. apply Z.bits_inj'. intros n Hn. destruct (Z.lt_ge_cases n k).
  - by rewrite Z.lxor_spec, !Z.mod_pow2_bits_low, Z.lxor_spec by lia.
  - by rewrite Z.lxor_spec, !Z.mod_pow2_bits_high by lia.
Qed.
Lemma step_reference h c : 0 <= h < 2 ^ 32 →
  ToUint32 (imul (js_xor h (code c)) 16777619) = fnv_step h (code c).
Proof.
  intros Hh. unfold imul, fnv_step. unfold ToUint32 at 1. rewrite ToInt32_mod. unfold ToUint32, js_xor.
  rewrite ToInt32_code. rewrite <- Z.mul_mod by lia. rewrite <- (Z.mul_mod_idemp_l (Z.lxor h (code c))) by lia.
  rewrite <- (Z.mul_mod_idemp_l (Z.lxor (ToInt32 h) (code c))) by lia.
  by rewrite !lxor_mod, ToInt32_mod by lia.
Qed.
Lemma fnv_step_bounds h c : 0 <= fnv_step h c < 2 ^ 32.
Proof. by apply Z.mod_pos_bound. Qed.

(** Theorem: the hash of the shared scenarios is 32-bit FNV-1a: JavaScript's signed 32-bit
    operators give the same 32-bit number as arithmetic on unsigned ones, at every step. *)
Theorem fnv1a_is_the_reference (key : string) :
  fnv1a key = foldl (λ h c, fnv_step h (code c)) 2166136261 (chars key) ∧ 0 <= fnv1a key < 2 ^ 32.
Proof.
  unfold fnv1a. assert (Hh : 0 <= 2166136261 < 2 ^ 32) by lia. revert Hh. generalize 2166136261.
  induction (chars key) as [|c l IH]; intros h Hh; cbn [foldl]; [done|].
  rewrite step_reference by done. apply IH, fnv_step_bounds.
Qed.

(** ** Canonical numbers *)
Lemma dec_cons c l : dec_number (c :: l) = (code c - 48) * 10 ^ Z.of_nat (length l) + dec_number l.
Proof. unfold dec_number at 1. cbn [foldl]. by rewrite dec_fold. Qed.
Lemma digit_value c : is_digit c = true → 0 <= code c - 48 < 10 ∧ ascii_of_N (Z.to_N (code c)) = c.
Proof. unfold is_digit, in_range. destruct c as [[][][][][][][][]]; vm_compute; try done; by split. Qed.
Lemma dec_inj_length l : ∀ m, length l = length m → forallb is_digit l = true → forallb is_digit m = true →
  dec_number l = dec_number m → l = m.
Proof.
  induction l as [|c l IH]; intros [|d m] Hl Hdl Hdm E; try discriminate Hl; [done|].
  injection Hl as Hl. cbn [forallb] in *. apply andb_true_iff in Hdl as [Hc Hdl], Hdm as [Hd Hdm].
  rewrite !dec_cons, <- Hl in E. pose proof (dec_number_bounds l Hdl). pose proof (dec_number_bounds m Hdm).
  rewrite <- Hl in *. destruct (digit_value c Hc) as [Bc Ec], (digit_value d Hd) as [Bd Ed].
  assert (Hv : code c = code d) by nia. f_equal; [by rewrite <- Ec, <- Ed, Hv|]. apply IH; try done. rewrite Hv in E. lia.
Qed.
(** A number without a leading zero has its own length. *)
Definition leads (l : list ascii) : bool := match l with c :: l' => in_range "1" "9" c && forallb is_digit l' | [] => false end.
Lemma leads_digits l : leads l = true → forallb is_digit l = true.
Proof.
  destruct l as [|c l]; [done|]. cbn. intros [Hc Hl]%andb_true_iff. rewrite Hl, andb_true_r.
  clear Hl. unfold is_digit, in_range in *. destruct c as [[][][][][][][][]]; vm_compute in Hc |- *; congruence.
Qed.
Lemma leads_bounds l : leads l = true → 10 ^ (Z.of_nat (length l) - 1) <= dec_number l < 10 ^ Z.of_nat (length l).
Proof.
  intros Hl. destruct (dec_number_bounds l (leads_digits _ Hl)) as [_ Hhi]. split; [|done].
  destruct l as [|c l]; [done|]. cbn in Hl. apply andb_true_iff in Hl as [Hc Hl]. rewrite dec_cons.
  destruct (dec_number_bounds l Hl) as [Hlo _]. cbn [length]. rewrite Nat2Z.inj_succ, <- Z.add_1_r, Z.add_simpl_r.
  assert (1 <= code c - 48) by (unfold in_range in Hc; destruct c as [[][][][][][][][]]; vm_compute in Hc |- *; congruence). nia.
Qed.
Lemma dec_inj l m : leads l = true → leads m = true → dec_number l = dec_number m → l = m.
Proof.
  intros Hl Hm E. apply dec_inj_length; [|by apply leads_digits..|done].
  pose proof (leads_bounds l Hl) as Bl. pose proof (leads_bounds m Hm) as Bm. rewrite E in Bl.
  assert (H1 : Z.of_nat (length l) - 1 < Z.of_nat (length m)) by (apply (Z.pow_lt_mono_r_iff 10); lia).
  assert (H2 : Z.of_nat (length m) - 1 < Z.of_nat (length l)) by (apply (Z.pow_lt_mono_r_iff 10); lia). lia.
Qed.
Lemma re_positive_leads n s : re_positive n s = true ↔ leads (chars s) = true ∧ (length (chars s) <= S n)%nat.
Proof.
  unfold re_positive, leads. destruct (chars s) as [|c l]; [split; [done|by intros []]|]. rewrite !andb_true_iff, Nat.leb_le. cbn [length].
  split; [intros [[? ?] ?]|intros [[? ?] ?]]; split_and!; try done; lia.
Qed.
(** A number the patterns accept is the decimal text of its value. *)
Lemma positive_canonical n s : re_positive n s = true ↔
  ∃ z, 0 < z < 10 ^ Z.of_nat (S n) ∧ s = show_Z z ∧ dec_number (chars s) = z.
Proof.
  split.
  - rewrite re_positive_leads. intros [Hl Hn]. pose proof (leads_bounds _ Hl) as Hb. exists (dec_number (chars s)).
    assert (H0 : 0 < 10 ^ (Z.of_nat (length (chars s)) - 1)).
    { apply Z.pow_pos_nonneg; [lia|]. destruct (chars s); [done|]. cbn [length]. lia. }
    assert (Hz : 0 < dec_number (chars s) < 10 ^ Z.of_nat (S n)).
    { split; [lia|]. eapply Z.lt_le_trans; [apply Hb|]. apply Z.pow_le_mono_r; lia. }
    split; [done|]. split; [|done].
    destruct (show_nonneg (dec_number (chars s)) ltac:(lia)) as (_ & _ & Hd).
    pose proof (positive_shown n _ Hz) as [Hs _]%re_positive_leads.
    apply chars_determine, dec_inj; [done|done|]. symmetry. exact Hd.
  - intros (z & Hz & -> & _). by apply positive_shown.
Qed.

(** ** Pages *)
(** Theorem: the pages below the top rows partition them: every place from the tenth on lies on exactly one
    page, and a path names a page exactly when it is the decimal text of a page's first place inside the largest board. *)
Theorem pages_partition_the_board :
  (∀ index, BOARD_ROWS <= index →
     rankingPageOffset index <= index < rankingPageOffset index + RANKING_PAGE_ROWS
     ∧ rankingPageOffset (rankingPageOffset index) = rankingPageOffset index
     ∧ ∀ o, rankingPageOffset o = o → o <= index < o + RANKING_PAGE_ROWS → o = rankingPageOffset index)
  ∧ ∀ value o, parseRankingPageOffset value = Some o
      ↔ value = show_Z o ∧ BOARD_ROWS <= o < GUARDIAN_MAX_SUPPLY ∧ rankingPageOffset o = o.
Proof.
  split.
  - unfold rankingPageOffset, BOARD_ROWS, RANKING_PAGE_ROWS. intros index Hi. split_and!.
    1-3: Z.to_euclidean_division_equations; lia.
    intros o Ho Hr. Z.to_euclidean_division_equations; lia.
  - intros value o. unfold parseRankingPageOffset. split.
    + destruct (re_positive 4 value) eqn:Hre; [|done]. destruct (2 <=? _)%nat eqn:Hl; [|done]. cbn [andb negb].
      destruct (_ && _) eqn:E; [|done]. intros [= <-]. apply andb_true_iff in E as [E1 E2]. bools.
      pose proof Hre as (z & Hz & -> & Hd)%positive_canonical. rewrite Hd in *. split_and!; [done| |done|done].
      apply re_positive_leads in Hre as [Hlead _]. apply leads_bounds in Hlead as [Hlo _]. rewrite Hd in Hlo.
      apply Nat.leb_le in Hl. unfold BOARD_ROWS. etransitivity; [|exact Hlo]. change 10 with (10 ^ 1) at 1. apply Z.pow_le_mono_r; lia.
    + intros (-> & Ho & Hp). unfold BOARD_ROWS, GUARDIAN_MAX_SUPPLY in Ho.
      rewrite (positive_shown 4) by lia. destruct (show_nonneg o ltac:(lia)) as (_ & _ & Hd).
      assert (Hl : (2 <= length (chars (show_Z o)))%nat).
      { pose proof (positive_shown 4 o ltac:(lia)) as [Hlead _]%re_positive_leads. apply leads_bounds in Hlead as [_ Hhi].
        rewrite Hd in Hhi. destruct (chars (show_Z o)) as [|c [|c' l]]; cbn [length] in *; lia. }
      rewrite (proj2 (Nat.leb_le _ _) Hl), Hd, (proj2 (Z.ltb_lt _ _)), (proj2 (Z.eqb_eq _ _) Hp) by (unfold GUARDIAN_MAX_SUPPLY; lia).
      done.
Qed.

(** ** Standings requests *)
Lemma token_id_canonical s : validRankingTokenId (JStr s) = true ↔ ∃ z, 1 <= z <= GUARDIAN_MAX_SUPPLY ∧ s = show_Z z.
Proof.
  cbn [validRankingTokenId]. rewrite andb_true_iff, Z.leb_le, positive_canonical. unfold GUARDIAN_MAX_SUPPLY. split.
  - intros [(z & Hz & -> & Hd) Hm]. exists z. split; [lia|done].
  - intros (z & Hz & ->). destruct (show_nonneg z ltac:(lia)) as (_ & _ & Hd). split; [|lia]. exists z. split_and!; [lia|lia|done|done].
Qed.
Definition joined (ids : list Z) : string := String.concat "," (show_Z <$> ids).
Lemma ascending_sorted zs : Forall (λ z, 0 <= z) zs → ascending (show_Z <$> zs) = true ↔ Sorted.Sorted Z.lt zs.
Proof.
  induction zs as [|a [|b zs] IH]; intros Hzs; [split; [constructor|done]|split; [repeat constructor|done]|].
  change (ascending (show_Z <$> a :: b :: zs)) with
    ((dec_number (chars (show_Z a)) <? dec_number (chars (show_Z b))) && ascending (show_Z <$> b :: zs)).
  rewrite !Forall_cons in Hzs. destruct Hzs as (Ha & Hb & Hzs).
  destruct (show_nonneg a Ha) as (_ & _ & ->), (show_nonneg b Hb) as (_ & _ & ->).
  rewrite andb_true_iff, Z.ltb_lt, IH by (by apply Forall_cons). split.
  - intros [Hab Hs]. constructor; [done|by constructor].
  - intros Hs. inversion Hs as [|? ? Hs' Hr]; subst. inversion Hr; subst. done.
Qed.
Lemma split_no_comma l : ","%char ∉ l → split_comma l = [l].
Proof.
  induction l as [|c l IH]; intros Hc; [done|]. apply not_elem_of_cons in Hc as [Hc Hl]. cbn [split_comma].
  destruct (Ascii.eqb_spec c ","%char); [by subst|]. by rewrite IH.
Qed.
Lemma split_joined l rest : ","%char ∉ l → split_comma (l ++ ","%char :: rest) = l :: split_comma rest.
Proof.
  induction l as [|c l IH]; intros Hc; cbn [app split_comma]; [done|]. apply not_elem_of_cons in Hc as [Hc Hl].
  destruct (Ascii.eqb_spec c ","%char); [by subst|]. by rewrite IH.
Qed.
Fixpoint join_comma (ws : list (list ascii)) : list ascii :=
  match ws with [] => [] | [w] => w | w :: rest => (w ++ ","%char :: join_comma rest)%list end.
Lemma split_comma_cons l : ∃ w ws, split_comma l = w :: ws.
Proof. induction l as [|c l (w & ws & IH)]; cbn [split_comma]; [eauto|]. destruct (Ascii.eqb c ","); [eauto|]. rewrite IH. eauto. Qed.
Lemma join_split l : join_comma (split_comma l) = l.
Proof.
  induction l as [|c l IH]; [done|]. cbn [split_comma]. destruct (split_comma_cons l) as (w & ws & E). rewrite E in *.
  destruct (Ascii.eqb_spec c ",") as [->|_].
  - change (","%char :: join_comma (w :: ws) = ","%char :: l). by rewrite IH.
  - destruct ws as [|w' ws]; cbn [join_comma] in *; [by rewrite IH|]. cbn [app]. by rewrite IH.
Qed.
Lemma split_join ws : ws ≠ [] → Forall (λ w, ","%char ∉ w) ws → split_comma (join_comma ws) = ws.
Proof.
  induction ws as [|w [|w' ws] IH]; intros Hne Hws; [done| |].
  - apply Forall_cons in Hws as [Hw _]. by apply split_no_comma.
  - apply Forall_cons in Hws as [Hw Hws]. change (split_comma (w ++ ","%char :: join_comma (w' :: ws)) = w :: w' :: ws).
    rewrite split_joined by done. by rewrite IH.
Qed.
Lemma string_app a b : string_of_list_ascii (a ++ b) = string_of_list_ascii a ++ string_of_list_ascii b.
Proof. induction a as [|c a IH]; [done|]. change (String c (string_of_list_ascii (a ++ b)) = String c (string_of_list_ascii a ++ string_of_list_ascii b)).
  by rewrite IH. Qed.
Lemma concat_join ws : String.concat "," (string_of_list_ascii <$> ws) = string_of_list_ascii (join_comma ws).
Proof.
  induction ws as [|w [|w' ws] IH]; [done|done|].
  change (string_of_list_ascii w ++ "," ++ String.concat "," (string_of_list_ascii <$> w' :: ws)
          = string_of_list_ascii (w ++ ","%char :: join_comma (w' :: ws))).
  by rewrite IH, string_app.
Qed.
Lemma ids_of_joined zs : zs ≠ [] → Forall (λ z, 0 <= z) zs → ids_of (joined zs) = show_Z <$> zs.
Proof.
  intros Hne Hzs. unfold ids_of, joined.
  assert (E : show_Z <$> zs = string_of_list_ascii <$> ((λ z, chars (show_Z z)) <$> zs)).
  { rewrite <- list_fmap_compose. apply list_fmap_ext. intros i z _. symmetry. apply string_of_list_ascii_of_string. }
  rewrite E, concat_join. unfold chars. rewrite list_ascii_of_string_of_list_ascii. rewrite split_join; [done| |].
  - by destruct zs.
  - apply Forall_fmap. eapply Forall_impl; [exact Hzs|]. intros z Hz Hc. cbn in Hc.
    destruct (show_nonneg z Hz) as [Hd _]. rewrite forallb_forall in Hd. apply list_elem_of_In in Hc. apply Hd in Hc. done.
Qed.

(** Theorem: a standings request is accepted exactly when it is the comma-separated decimal list of one to three
    guardian numbers of the collection, ascending; the numbers read are those written. *)
Theorem standings_request_round_trip (value : string) (ids : list string) :
  parseRankingIds value = Some ids
  ↔ ∃ zs, value = joined zs ∧ ids = show_Z <$> zs ∧ (1 <= length zs <= 3)%nat
      ∧ Forall (λ z, 1 <= z <= GUARDIAN_MAX_SUPPLY) zs ∧ Sorted.Sorted Z.lt zs.
Proof.
  unfold parseRankingIds. split.
  - destruct (_ && _) eqn:E in |- *; [|done]. cbn [negb]. destruct (_ && ascending _) eqn:E2; [|done]. intros [= <-].
    apply andb_true_iff in E as [_ Hl], E2 as [Hid Has]. apply Nat.leb_le in Hl.
    assert (Hz : ∃ zs, ids_of value = show_Z <$> zs ∧ Forall (λ z, 1 <= z <= GUARDIAN_MAX_SUPPLY) zs).
    { clear Hl Has. induction (ids_of value) as [|s l IH]; [by exists []|]. cbn [forallb] in Hid.
      apply andb_true_iff in Hid as [Hs Hid]. apply token_id_canonical in Hs as (z & Hz & ->).
      destruct (IH Hid) as (zs & -> & Hzs). exists (z :: zs). split; [done|by constructor]. }
    destruct Hz as (zs & Ez & Hzs). exists zs. rewrite Ez in *.
    assert (Hne : zs ≠ []).
    { intros ->. unfold ids_of in Ez. destruct (split_comma_cons (chars value)) as (w & ws & Ew). by rewrite Ew in Ez. }
    rewrite length_fmap in Hl. split_and!; [|done|destruct zs; [done|cbn [length]; lia]|done|done|].
    + unfold joined. rewrite <- Ez. unfold ids_of. rewrite concat_join, join_split. symmetry. apply string_of_list_ascii_of_string.
    + apply (ascending_sorted zs); [|done]. eapply Forall_impl; [exact Hzs|]. cbn. lia.
  - intros (zs & -> & -> & Hl & Hzs & Hs).
    assert (H0 : Forall (λ z, 0 <= z) zs) by (eapply Forall_impl; [exact Hzs|]; cbn; lia).
    assert (Hne : zs ≠ []) by (intros ->; cbn in Hl; lia). rewrite ids_of_joined by done. rewrite length_fmap, (proj2 (Nat.leb_le _ 3)) by lia.
    rewrite (proj2 (ascending_sorted zs H0) Hs).
    assert (Hid : forallb (λ id, validRankingTokenId (JStr id)) (show_Z <$> zs) = true).
    { apply forallb_forall. intros s (z & <- & Hz%list_elem_of_In)%in_map_iff. rewrite Forall_forall in Hzs.
      apply token_id_canonical. exists z. split; [by apply Hzs|done]. }
    rewrite Hid. assert (Hre : forallb (re_positive 4) (show_Z <$> zs) = true).
    { rewrite forallb_forall in *. intros s Hin. apply Hid in Hin. cbn in Hin. by apply andb_true_iff in Hin as [? _]. }
    by rewrite Hre.
Qed.

(** ** Attempts *)
Definition no_colon (s : string) : bool := forallb (λ c, negb (Ascii.eqb c ":")) (chars s).
Lemma digits_no_colon l : forallb is_digit l = true → forallb (λ c, negb (Ascii.eqb c ":")) l = true.
Proof. rewrite !forallb_forall. intros H c Hc%H. destruct c as [[][][][][][][][]]; vm_compute in Hc |- *; congruence. Qed.
Lemma show_without_colon z : 0 <= z → no_colon (show_Z z) = true.
Proof. intros Hz. apply digits_no_colon. by apply show_nonneg. Qed.
Lemma day_no_colon s : isRankingDay s = true → no_colon s = true.
Proof.
  intros (n & Hn & ->)%ranking_day_iff. destruct (four_parts n Hn) as (y & m & d & _ & _ & _ & _ & ->).
  unfold no_colon, chars. rewrite list_ascii_of_string_of_list_ascii, forallb_app. cbn [forallb]. rewrite forallb_app. cbn [forallb].
  by rewrite !digits_no_colon by apply digits_digits.
Qed.
Lemma before_colon a b c d : no_colon a = true → no_colon c = true → a ++ ":" ++ b = c ++ ":" ++ d → a = c ∧ b = d.
Proof.
  intros Ha Hc E. apply (f_equal chars) in E. rewrite !chars_app in E.
  apply before_mark in E as [E1 E2]; [|done|done]. split; by apply chars_determine.
Qed.
Lemma ranked_key_split g d a t r :
  ranked_key g d a t r = show_Z r ++ ":" ++ "ranked" ++ ":" ++ d ++ ":" ++ game_text g ++ ":" ++ show_Z a ++ ":" ++ t.
Proof. reflexivity. Qed.

(** Theorem: each ranked attempt is seeded from its own key: two accepted attempts that hash
    the same text are the same game, day, attempt, guardian and ruleset, so the attempts of a guardian never share a course by construction. *)
Theorem ranked_attempts_have_their_key (g g' : GameId) (d d' t t' : string) (a a' r r' s s' : Z)
    (Hs : rankedSeed g d a t r = Ok s) (Hs' : rankedSeed g' d' a' t' r' = Ok s')
    (Hk : ranked_key g d a t r = ranked_key g' d' a' t' r') :
  g = g' ∧ d = d' ∧ a = a' ∧ t = t' ∧ r = r' ∧ s = s'.
Proof.
  assert (Hok : ∀ g d a t r s, rankedSeed g d a t r = Ok s →
    no_colon (show_Z r) = true ∧ no_colon d = true ∧ no_colon (show_Z a) = true ∧ s = fnv1a (ranked_key g d a t r)).
  { clear. intros g d a t r s. unfold rankedSeed. rewrite throws_ok. intros [H [= <-]]. rewrite !orb_false_iff in H.
    destruct H as [[[[[[_ Hd] Ha] _] _] _] Hr]. apply negb_false_iff in Hd. bools.
    split_and!; [apply show_without_colon; lia|by apply day_no_colon|apply show_without_colon; lia|done]. }
  destruct (Hok _ _ _ _ _ _ Hs) as (Hr & Hd & Ha & ->), (Hok _ _ _ _ _ _ Hs') as (Hr' & Hd' & Ha' & ->).
  rewrite Hk. rewrite !ranked_key_split in Hk.
  apply before_colon in Hk as [Er Hk]; [|done|done]. apply before_colon in Hk as [_ Hk]; [|done|done].
  apply before_colon in Hk as [Ed Hk]; [|done|done]. apply before_colon in Hk as [Eg Hk]; [|by destruct g|by destruct g'].
  apply before_colon in Hk as [Ea Et]; [|done|done]. apply show_Z_inj in Er, Ea. split_and!; try done. by destruct g, g'.
Qed.
Lemma ranked_attempts_have_their_key_witness :
  race = race ∧ "2026-10-05" = "2026-10-05" ∧ 2 = 2 ∧ "777" = "777" ∧ 3 = 3 ∧ 3294601343 = 3294601343.
Proof. apply ranked_attempts_have_their_key; reflexivity. Defined.

(** ** Attendance, day by day *)
(** A run of days from [lo] on that are over, and the run as it shows today. *)
Definition close_day (P : Z → bool) (s : Run) (n : Z) : Run := if P n then play s else rest s.
Definition closed (P : Z → bool) (s : Run) (lo : Z) (k : nat) : Run := foldl (close_day P) s (seqZ lo (Z.of_nat k)).
Definition showing (P : Z → bool) (n : Z) (c : Run) : Run := if P n then play c else c.

Lemma closed_succ P s lo k : closed P s lo (S k) = closed P (close_day P s lo) (lo + 1) k.
Proof.
  unfold closed. rewrite seqZ_cons by lia. cbn [foldl]. replace (Z.pred (Z.of_nat (S k))) with (Z.of_nat k) by lia.
  by rewrite <- Z.add_1_r.
Qed.
Lemma closed_snoc P s lo k : closed P s lo (S k) = close_day P (closed P s lo k) (lo + Z.of_nat k).
Proof.
  revert s lo. induction k as [|k IH]; intros s lo; [by rewrite closed_succ, Z.add_0_r|].
  rewrite closed_succ, IH, <- closed_succ. f_equal. lia.
Qed.
Lemma closed_app P s lo j k : closed P s lo (j + k) = closed P (closed P s lo j) (lo + Z.of_nat j) k.
Proof.
  revert s lo. induction j as [|j IH]; intros s lo; [by rewrite Z.add_0_r|].
  cbn [Nat.add]. rewrite closed_succ, IH, <- closed_succ. f_equal. lia.
Qed.
(** Nothing is lost before the first day. *)
Lemma closed_idle P lo k : (∀ n, lo <= n < lo + Z.of_nat k → P n = false) → closed P no_run lo k = no_run.
Proof.
  induction k as [|k IH]; intros HP; [done|]. rewrite closed_snoc, IH by (intros n Hn; apply HP; lia).
  unfold close_day. by rewrite HP by lia.
Qed.

(** The days a list names. *)
Definition played_on (days : list string) (n : Z) : bool := bool_decide (day_text n ∈ days).

Lemma loop_closed played today k : ∀ fuel n s, four_digit_year n → today = n + Z.of_nat k → four_digit_year (today + 1) →
  (k + 2 <= fuel)%nat →
  streak_loop fuel played (day_text today) (day_text n) s
  = Some (Ok (showing (played_on played) today (closed (played_on played) s n k))).
Proof.
  assert (Hstep : ∀ n, four_digit_year n → four_digit_year (n + 1) → addDays (day_text n) 1 = Ok (day_text (n + 1)))
    by (intros n ? ?; by apply addDays_text).
  induction k as [|k IH]; intros fuel n s Hn Ht Hy Hf.
  - destruct fuel as [|[|fuel]]; [lia..|]. rewrite Z.add_0_r in Ht. subst today. cbn [streak_loop].
    rewrite text_leb, Z.leb_refl by done. unfold showing, played_on at 1, closed. cbn [foldl].
    destruct (bool_decide _); [|by rewrite String.eqb_refl].
    rewrite Hstep by done. by rewrite text_leb, (proj2 (Z.leb_gt _ _)) by (done || lia).
  - destruct fuel as [|fuel]; [lia|]. cbn [streak_loop].
    rewrite text_leb, (proj2 (Z.leb_le _ _)), Hstep by (unfold four_digit_year in *; lia).
    rewrite text_eqb, (proj2 (Z.eqb_neq _ _)) by (unfold four_digit_year in *; lia).
    rewrite closed_succ. unfold close_day, played_on at 3.
    destruct (bool_decide _); apply IH; unfold four_digit_year in *; lia.
Qed.

Lemma played_days_elem days today n : four_digit_year n → four_digit_year today →
  played_on (played_days days (day_text today)) n = played_on days n && (n <=? today).
Proof.
  intros Hn Ht. unfold played_on, played_days. apply eq_bool_prop_intro. rewrite andb_True, !bool_decide_spec, list_elem_of_filter.
  rewrite ranking_day_text, text_leb by done. cbn [andb]. tauto.
Qed.
Lemma played_days_ranking days today s : s ∈ played_days days today → isRankingDay s = true.
Proof. unfold played_days. rewrite list_elem_of_filter. intros [[? _]%andb_True _]. by apply Is_true_true. Qed.

(** The first text of ranking days is that of the first day. *)
Lemma first_text_first l : Forall (λ s, isRankingDay s = true) l → l ≠ [] →
  ∃ n, first_text l = Some (day_text n) ∧ four_digit_year n ∧ day_text n ∈ l
    ∧ ∀ m, four_digit_year m → day_text m ∈ l → n <= m.
Proof.
  destruct l as [|d l]; [done|]. intros [Hd Hl]%Forall_cons _. cbn [first_text].
  apply ranking_day_iff in Hd as (n & Hn & ->). revert n Hn. induction Hl as [|x l Hx Hl IH]; intros n Hn; cbn [foldl].
  - exists n. split_and!; [done|done|by apply elem_of_cons; left|]. intros m Hm Hin.
    apply list_elem_of_singleton in Hin. apply Z.eq_le_incl, Z.eqb_eq. rewrite <- text_eqb by done. rewrite Hin. apply String.eqb_refl.
  - apply ranking_day_iff in Hx as (x' & Hx' & ->). rewrite text_ltb by done.
    destruct (IH (if x' <? n then x' else n)) as (k & Ek & Hk & Hin & Hmin); [by destruct (x' <? n)|].
    exists k. split_and!; [|done| |].
    + rewrite <- Ek. cbn [first_text]. by destruct (x' <? n).
    + apply elem_of_cons in Hin as [->|Hin]; [|set_solver]. destruct (x' <? n); set_solver.
    + intros m Hm Hm'. assert (Hcase : day_text m ∈ day_text (if x' <? n then x' else n) :: l ∨ (if x' <? n then x' else n) <= m).
      { rewrite !elem_of_cons in Hm'. rewrite elem_of_cons.
        assert (Hd : ∀ q, four_digit_year q → day_text m = day_text q → m = q)
          by (intros q Hq E; apply Z.eqb_eq; rewrite <- text_eqb by done; rewrite E; apply String.eqb_refl).
        destruct Hm' as [E|[E|E]]; [apply Hd in E; [|done]; right; destruct (Z.ltb_spec x' n); lia| |tauto].
        apply Hd in E; [|done]. right. destruct (Z.ltb_spec x' n); lia. }
      destruct Hcase as [?|Hle]; [by apply Hmin|]. etransitivity; [|exact Hle]. apply Hmin; [by destruct (x' <? n)|by left].
Qed.

Lemma closed_ext P Q s lo k : (∀ n, lo <= n < lo + Z.of_nat k → P n = Q n) → closed P s lo k = closed Q s lo k.
Proof.
  revert s lo. induction k as [|k IH]; intros s lo H; [done|]. rewrite !closed_succ.
  assert (E : close_day P s lo = close_day Q s lo) by (unfold close_day; by rewrite H by lia). rewrite E. apply IH. intros n Hn. apply H. lia.
Qed.
(** The loop computes the run of the days that are over, from any day no later than the first. *)
Lemma streakProgress_closed fuel days today lo : four_digit_year lo → lo <= today → four_digit_year (today + 1) →
  (∀ n, four_digit_year n → day_text n ∈ days → lo <= n) → (Z.to_nat (today - lo) + 2 <= fuel)%nat →
  streakProgress fuel days (day_text today)
  = Some (Ok {| gs_run := showing (played_on days) today (closed (played_on days) no_run lo (Z.to_nat (today - lo)));
                playedToday := played_on days today |}).
Proof.
  intros Hlo Hle Hy Hmin Hfuel. assert (Ht : four_digit_year today) by (unfold four_digit_year in *; lia).
  unfold streakProgress. set (played := played_days days (day_text today)).
  assert (Hp : ∀ n, four_digit_year n → n <= today → played_on played n = played_on days n).
  { intros n Hn Hnt. unfold played. rewrite played_days_elem, (proj2 (Z.leb_le n today)), andb_true_r by done. done. }
  destruct (decide (played = [])) as [E|E].
  - rewrite E. cbn [first_text].
    assert (Hnone : ∀ n, lo <= n <= today → played_on days n = false).
    { intros n Hn. rewrite <- Hp by (unfold four_digit_year in *; lia). rewrite E. apply bool_decide_eq_false. apply not_elem_of_nil. }
    rewrite closed_idle by (intros n Hn; apply Hnone; lia). unfold showing. by rewrite !Hnone by lia.
  - destruct (first_text_first played) as (n & -> & Hn & Hin & Hfirst); [|done|].
    { apply Forall_forall. intros s Hs. by eapply played_days_ranking. }
    assert (Hin' : played_on days n && (n <=? today) = true).
    { rewrite <- played_days_elem by done. by apply bool_decide_eq_true. }
    apply andb_true_iff in Hin' as [Hin' Hnt]. apply bool_decide_eq_true in Hin'. bools.
    pose proof (Hmin n Hn Hin').
    rewrite (loop_closed played today (Z.to_nat (today - n))) by (done || lia).
    change (bool_decide (day_text today ∈ played)) with (played_on played today). rewrite Hp by (done || lia).
    do 2 f_equal. f_equal. unfold showing. rewrite Hp by (done || lia).
    rewrite (closed_ext _ (played_on days)) by (intros m Hm; apply Hp; unfold four_digit_year in *; lia).
    replace (Z.to_nat (today - lo)) with (Z.to_nat (n - lo) + Z.to_nat (today - n))%nat by lia.
    rewrite closed_app, (closed_idle _ lo); [by replace (lo + Z.of_nat (Z.to_nat (n - lo))) with n by lia|].
    intros m Hm. destruct (played_on days m) eqn:Em; [|done]. exfalso.
    assert (Hm4 : four_digit_year m) by (unfold four_digit_year in *; lia).
    assert (Hmin' : day_text m ∈ played).
    { apply (bool_decide_eq_true (day_text m ∈ played)). change (played_on played m = true). by rewrite Hp by (done || lia). }
    pose proof (Hfirst m Hm4 Hmin'). lia.
Qed.


(** ** Bounds *)
Record run_ok (m : nat) (s : Run) : Prop := {
  ro_current : 0 <= current s <= best s; ro_best : best s <= Z.of_nat m;
  ro_freezes : 0 <= freezes s <= STREAK_FREEZE_MAX; ro_completed : 0 <= completed s;
  ro_earned : STREAK_FREEZE_EVERY * completed s + current s mod STREAK_FREEZE_EVERY <= Z.of_nat m }.
Lemma no_run_ok : run_ok 0 no_run.
Proof. by split. Qed.
Lemma play_ok m s : run_ok m s → run_ok (S m) (play s).
Proof.
  unfold STREAK_FREEZE_MAX, STREAK_FREEZE_EVERY. intros [Hc Hb Hf Hk He]. unfold play, STREAK_FREEZE_EVERY, STREAK_FREEZE_MAX in *.
  destruct (Z.eqb_spec ((current s + 1) mod 7) 0); split; unfold STREAK_FREEZE_EVERY, STREAK_FREEZE_MAX;
    cbn [current best freezes completed]; try lia; Z.to_euclidean_division_equations; lia.
Qed.
Lemma rest_ok m s : run_ok m s → run_ok m (rest s).
Proof.
  intros [Hc Hb Hf Hk He]. unfold rest. destruct (Z.ltb_spec 0 (freezes s)); split;
    unfold STREAK_FREEZE_EVERY, STREAK_FREEZE_MAX in *; cbn [current best freezes completed]; try lia.
  rewrite Z.mod_0_l by lia. pose proof (Z.mod_pos_bound (current s) 7). lia.
Qed.
(** How many of the days were played. *)
Definition count_played (P : Z → bool) (lo : Z) (k : nat) : nat := length (List.filter P (seqZ lo (Z.of_nat k))).
Lemma count_succ P lo k : count_played P lo (S k) = (count_played P lo k + if P (lo + Z.of_nat k)%Z then 1 else 0)%nat.
Proof.
  unfold count_played. rewrite seqZ_S. rewrite List.filter_app, length_app. cbn [List.filter].
  by destruct (P _).
Qed.
Lemma closed_run_ok P lo k : run_ok (count_played P lo k) (closed P no_run lo k).
Proof.
  induction k as [|k IH]; [apply no_run_ok|]. rewrite closed_snoc, count_succ. unfold close_day.
  destruct (P _); [rewrite Nat.add_1_r; by apply play_ok|rewrite Nat.add_0_r; by apply rest_ok].
Qed.
Lemma day_text_inj a b : four_digit_year a → four_digit_year b → day_text a = day_text b → a = b.
Proof. intros Ha Hb E. apply Z.eqb_eq. rewrite <- text_eqb by done. rewrite E. apply String.eqb_refl. Qed.
Lemma count_distinct days lo k : four_digit_year lo → four_digit_year (lo + Z.of_nat k - 1) →
  (count_played (played_on days) lo k <= length (remove_dups days))%nat.
Proof.
  intros Hlo Hhi. unfold count_played. rewrite <- (length_fmap day_text). apply submseteq_length, NoDup_submseteq.
  - apply NoDup_fmap_2_strong; [|apply NoDup_ListNoDup, List.NoDup_filter, NoDup_ListNoDup, NoDup_seqZ].
    intros a b Ha Hb. rewrite list_elem_of_In, List.filter_In, <- list_elem_of_In, elem_of_seqZ in Ha, Hb.
    apply day_text_inj; unfold four_digit_year in *; lia.
  - intros s (n & -> & Hn)%list_elem_of_fmap. rewrite list_elem_of_In, List.filter_In in Hn. destruct Hn as [_ Hn].
    apply elem_of_remove_dups. by apply bool_decide_eq_true in Hn.
Qed.

(** Theorem: attendance is never overstated: for every list of days and every day the streak is
    computed, and it ends; the current run is at most the longest, the longest at most the distinct days played, at most two rest
    days are held, and each completed run of seven spent seven played days of its own. *)
Theorem streak_is_bounded (days : list string) (today : Z) (Hy : four_digit_year (today + 1)) (Hy0 : four_digit_year today) :
  ∃ s, (∀ fuel, (Z.to_nat (today + 719530) <= fuel)%nat → streakProgress fuel days (day_text today) = Some (Ok s))
    ∧ run_ok (length (remove_dups days)) (gs_run s).
Proof.
  assert (Hlo : four_digit_year (-719528)) by (vm_compute; split; congruence).
  eexists. split.
  { intros fuel Hf. apply (streakProgress_closed fuel days today (-719528)); [done| |done| |];
      try (intros n Hn _); unfold four_digit_year in *; lia. }
  cbn [gs_run]. set (k := Z.to_nat (today - -719528)).
  assert (Hrun : run_ok (count_played (played_on days) (-719528) (S k)) (showing (played_on days) today (closed (played_on days) no_run (-719528) k))).
  { rewrite count_succ. replace (-719528 + Z.of_nat k) with today by (unfold four_digit_year in *; lia). unfold showing.
    pose proof (closed_run_ok (played_on days) (-719528) k). destruct (played_on days today);
      [rewrite Nat.add_1_r; by apply play_ok|by rewrite Nat.add_0_r]. }
  pose proof (count_distinct days (-719528) (S k) Hlo ltac:(unfold four_digit_year in *; lia)).
  destruct Hrun. split; try done; lia.
Qed.
Definition ex_days : list string := ["2026-10-01"; "2026-10-02"; "2026-10-04"].
Lemma ex_days_from n : four_digit_year n → day_text n ∈ ex_days → 20727 <= n.
Proof.
  intros Hn Hin. unfold ex_days in Hin. rewrite !elem_of_cons in Hin.
  assert (H : ∀ m, four_digit_year m → day_text n = day_text m → n = m) by (intros m Hm; by apply day_text_inj).
  destruct Hin as [E|[E|[E|E]]]; [apply (H 20727) in E|apply (H 20728) in E|apply (H 20730) in E|by apply not_elem_of_nil in E];
    try lia; vm_compute; split; congruence.
Qed.
Lemma streak_is_bounded_witness :
  ∃ s, (∀ fuel, (Z.to_nat (20731 + 719530) <= fuel)%nat → streakProgress fuel ex_days (day_text 20731) = Some (Ok s))
    ∧ run_ok (length (remove_dups ex_days)) (gs_run s).
Proof. apply (streak_is_bounded ex_days 20731); vm_compute; split; congruence. Defined.
