(* ===== verification/Teams.v ===== *)
(** * The zodiac team race

    packages/arcade/src/team.ts: the twelve rows of a team board from its members' points. *)

From Stdlib Require Import ZArith Lia Ascii String.
From stdpp Require Import base strings list sets sorting.
From S2P Require Import Prelude Token Guardians Ranking.
Open Scope string_scope.
Open Scope Z_scope.

Record TeamMember := { tm_tokenId : string; tm_seed : string; tm_points : Z }.
Record TeamRow := { tr_rank : Z; tr_zodiac : GuardianZodiac; tr_points : Z; tr_members : Z; tr_top : option TeamMember }.
Definition validTeamPeriod (period : string) (season_id : Z) : bool :=
  String.eqb period "week" || String.eqb period (season_text season_id).
Definition zodiac_index (z : GuardianZodiac) : Z :=
  match list_find (λ y, y = z) GUARDIAN_ZODIACS with Some (i, _) => Z.of_nat i | None => -1 end.

Record Team := { points : Z; members : Z; top : option TeamMember }.
Definition no_team : Team := {| points := 0; members := 0; top := None |}.
(** The map of teams has every zodiac as a key. *)
Definition Teams := GuardianZodiac → Team.
Definition Number_id (tokenId : string) : Z := dec_number (chars tokenId).
Definition better_top (top : option TeamMember) (m : TeamMember) : bool :=
  match top with
  | None => true
  | Some t => (tm_points t <? tm_points m)
              || ((tm_points m =? tm_points t) && (Number_id (tm_tokenId m) <? Number_id (tm_tokenId t)))
  end.
Definition join_team (teams : Teams) (zm : GuardianZodiac * TeamMember) : Teams :=
  let (zodiac, m) := zm in
  let team := teams zodiac in
  let team' := {| points := points team + tm_points m; members := members team + 1;
                  top := if better_top (top team) m then Some m else top team |} in
  λ z, if decide (z = zodiac) then team' else teams z.
(** [b.points - a.points || indexOf(a) - indexOf(b)], as an order. *)
Definition row_le (a b : TeamRow) : Prop :=
  tr_points b < tr_points a ∨ (tr_points b = tr_points a ∧ zodiac_index (tr_zodiac a) <= zodiac_index (tr_zodiac b)).
#[export] Instance row_le_dec : RelDecision row_le.
Proof. intros a b. unfold row_le. apply _. Defined.
(** The places, in order: [rank] is the place of the row before, [i] its index. *)
Fixpoint place_rows (prev : option Z) (rank i : Z) (rows : list TeamRow) : list TeamRow :=
  match rows with
  | [] => []
  | row :: rest =>
      let same := match prev with Some p => p =? tr_points row | None => false end in
      let rank' := if same then rank else i + 1 in
      {| tr_rank := rank'; tr_zodiac := tr_zodiac row; tr_points := tr_points row; tr_members := tr_members row; tr_top := tr_top row |}
        :: place_rows (Some (tr_points row)) rank' (i + 1) rest
  end.
Definition team_row (teams : Teams) (z : GuardianZodiac) : TeamRow :=
  {| tr_rank := 0; tr_zodiac := z; tr_points := points (teams z); tr_members := members (teams z); tr_top := top (teams z) |}.
Definition teamBoardRows (members : list (GuardianZodiac * TeamMember)) : list TeamRow :=
  let teams := foldl join_team (λ _, no_team) members in
  place_rows None 0 0 (merge_sort row_le (team_row teams <$> GUARDIAN_ZODIACS)).

Record TeamGap := { g_rank : Z; toFirst : Z; lead : Z }.
Definition teamGap (rows : list TeamRow) (zodiac : GuardianZodiac) : result TeamGap :=
  match list_find (λ r, tr_zodiac r = zodiac) rows, head rows with
  | Some (_, mine), Some first =>
      Ok {| g_rank := tr_rank mine; toFirst := tr_points first - tr_points mine;
            lead := match list_find (λ r, tr_zodiac r ≠ zodiac) rows with
                    | Some (_, other) => if tr_rank mine =? 1 then tr_points mine - tr_points other else 0
                    | None => 0
                    end |}
  | _, _ => Throw (Error "Unknown team")
  end.

(** ** Sums *)
Definition of_team (z : GuardianZodiac) (ms : list (GuardianZodiac * TeamMember)) : list TeamMember :=
  snd <$> filter (λ m, m.1 = z) ms.
Definition sum_points (ms : list TeamMember) : Z := foldr (λ m acc, tm_points m + acc) 0 ms.
Lemma sum_app a b : sum_points (a ++ b) = sum_points a + sum_points b.
Proof. induction a as [|m a IH]; cbn [sum_points foldr app]; [done|]. fold (sum_points (a ++ b)). fold (sum_points a). lia. Qed.
(** The member a team's top is: none has more points, nor as many with a lower number. *)
Definition is_top (ms : list TeamMember) (t : option TeamMember) : Prop :=
  match t with
  | None => ms = []
  | Some m => m ∈ ms ∧ ∀ x, x ∈ ms → tm_points x < tm_points m
                           ∨ (tm_points x = tm_points m ∧ Number_id (tm_tokenId m) <= Number_id (tm_tokenId x))
  end.
Record team_of (ms : list TeamMember) (t : Team) : Prop := {
  to_points : points t = sum_points ms; to_members : members t = Z.of_nat (length ms); to_top : is_top ms (top t) }.

Lemma is_top_snoc ms t m : is_top ms t → is_top (ms ++ [m]) (if better_top t m then Some m else t).
Proof.
  unfold is_top, better_top. destruct t as [t|].
  - intros [Hin Hmax]. destruct (_ || _) eqn:E.
    + split; [apply elem_of_app; right; by apply list_elem_of_singleton|].
      rewrite orb_true_iff, andb_true_iff, !Z.ltb_lt, Z.eqb_eq in E.
      intros x [Hx|Hx]%elem_of_app; [|apply list_elem_of_singleton in Hx as ->; lia]. apply Hmax in Hx. lia.
    + split; [apply elem_of_app; by left|]. rewrite orb_false_iff, andb_false_iff, !Z.ltb_ge, Z.eqb_neq in E.
      intros x [Hx|Hx]%elem_of_app; [by apply Hmax|]. apply list_elem_of_singleton in Hx as ->. lia.
  - intros ->. cbn [app]. split; [by apply list_elem_of_singleton|]. intros x ->%list_elem_of_singleton. lia.
Qed.
Lemma teams_of ms z : team_of (of_team z ms) (foldl join_team (λ _, no_team) ms z).
Proof.
  induction ms as [|[z' m] ms IH] using rev_ind; [by split|]. rewrite foldl_app. cbn [foldl join_team].
  unfold of_team in *. rewrite filter_app, fmap_app. destruct (decide (z = z')) as [<-|Hne].
  - rewrite filter_cons_True, filter_nil by done. cbn [fmap list_fmap snd]. destruct IH as [Hp Hm Ht]. split; cbn [points members top].
    + rewrite sum_app, Hp. cbn. lia.
    + rewrite length_app, Hm. cbn [length]. lia.
    + by apply is_top_snoc.
  - rewrite filter_cons_False, filter_nil by (cbn; congruence). cbn [fmap list_fmap]. by rewrite app_nil_r.
Qed.

(** ** Places *)
Definition unplaced (r : TeamRow) : TeamRow :=
  {| tr_rank := 0; tr_zodiac := tr_zodiac r; tr_points := tr_points r; tr_members := tr_members r; tr_top := tr_top r |}.
(** How many rows have more points: one less than the place a competition gives. *)
Definition ahead (p : Z) (rows : list TeamRow) : Z := Z.of_nat (length (filter (λ r, p < tr_points r) rows)).
Definition placed (rank : Z) (r : TeamRow) : TeamRow :=
  {| tr_rank := rank; tr_zodiac := tr_zodiac r; tr_points := tr_points r; tr_members := tr_members r; tr_top := tr_top r |}.
Lemma ahead_app p a b : ahead p (a ++ b) = ahead p a + ahead p b.
Proof. unfold ahead. rewrite filter_app, length_app. lia. Qed.
Lemma ahead_all p l : (∀ r, r ∈ l → p < tr_points r) → ahead p l = Z.of_nat (length l).
Proof.
  unfold ahead. induction l as [|r l IH]; intros H; [done|].
  rewrite filter_cons_True by (apply H; by left). cbn [length]. rewrite !Nat2Z.inj_succ, IH; [done|].
  intros r' Hr'. apply H. by right.
Qed.
Lemma ahead_none p l : (∀ r, r ∈ l → tr_points r <= p) → ahead p l = 0.
Proof.
  unfold ahead. induction l as [|r l IH]; intros H; [done|].
  assert (tr_points r <= p) by (apply H; by left). rewrite filter_cons_False by lia. apply IH. intros r' Hr'. apply H. by right.
Qed.

(** The loop gives each row of a descending list one more than the rows ahead of it. *)
Lemma place_rows_spec whole : ∀ rest pre rank, whole = (pre ++ rest)%list →
  (∀ a b c l, whole = (a ++ b :: l)%list → c ∈ a → tr_points b <= tr_points c) →
  (∀ p, last pre = Some p → rank = 1 + ahead (tr_points p) whole) →
  place_rows (tr_points <$> last pre) rank (Z.of_nat (length pre)) rest
  = (λ r, placed (1 + ahead (tr_points r) whole) r) <$> rest.
Proof.
  induction rest as [|row rest IH]; intros pre rank Hw Hs Hr; [done|]. cbn [place_rows fmap list_fmap].
  assert (Hpre : ∀ c, c ∈ pre → tr_points row <= tr_points c) by (intros c; by apply (Hs pre row c rest)).
  assert (Hrest : ahead (tr_points row) (row :: rest) = 0).
  { apply ahead_none. intros r [->|Hin]%elem_of_cons; [done|]. apply list_elem_of_split in Hin as (l1 & l2 & ->).
    apply (Hs (pre ++ row :: l1)%list r row l2); [by rewrite Hw, <- app_assoc|]. apply elem_of_app. right. by left. }
  set (rank' := if match tr_points <$> last pre with Some p => p =? tr_points row | None => false end then rank else Z.of_nat (length pre) + 1).
  assert (Hrank : rank' = 1 + ahead (tr_points row) whole).
  { subst rank'. destruct (last pre) as [p|] eqn:Hl; cbn [fmap option_fmap option_map].
    - destruct (Z.eqb_spec (tr_points p) (tr_points row)) as [E|E]; [rewrite <- E; by apply Hr|].
      rewrite Hw, ahead_app, Hrest, (ahead_all _ pre); [lia|]. intros r Hin.
      apply last_Some in Hl as (pre' & Hp). assert (Hlast : tr_points row <= tr_points p) by (apply Hpre; rewrite Hp; set_solver).
      rewrite Hp in Hin. apply elem_of_app in Hin as [Hin| ->%list_elem_of_singleton]; [|lia].
      pose proof (Hs pre' p r (row :: rest)) as H. rewrite Hw, Hp, <- app_assoc in H. specialize (H eq_refl Hin). lia.
    - apply last_None in Hl. rewrite Hw, Hl in *. cbn [app length]. lia. }
  f_equal; [unfold placed; by rewrite Hrank|].
  specialize (IH (pre ++ [row])%list rank'). rewrite last_snoc, length_app in IH. cbn [fmap option_fmap option_map length] in IH.
  rewrite Nat2Z.inj_add in IH. apply IH; [by rewrite Hw, <- app_assoc|done|]. intros p [= <-]. exact Hrank.
Qed.

#[export] Instance row_le_trans : Transitive row_le.
Proof. unfold row_le. intros a b c Hab Hbc. lia. Qed.
#[export] Instance row_le_total : Total row_le.
Proof. unfold Total, row_le. intros a b. lia. Qed.

Definition sorted_rows (teams : Teams) : list TeamRow := merge_sort row_le (team_row teams <$> GUARDIAN_ZODIACS).
Lemma sorted_rows_descend teams a b c l : sorted_rows teams = (a ++ b :: l)%list → c ∈ a → tr_points b <= tr_points c.
Proof.
  intros E Hc. assert (Hs : StronglySorted row_le (a ++ b :: l)) by (rewrite <- E; apply StronglySorted_merge_sort; apply _).
  assert (row_le c b) as H by (eapply StronglySorted_app_1_elem_of; [exact Hs|done|by left]). unfold row_le in H. lia.
Qed.
Lemma board_placed ms : let whole := sorted_rows (foldl join_team (λ _, no_team) ms) in
  teamBoardRows ms = (λ r, placed (1 + ahead (tr_points r) whole) r) <$> whole.
Proof.
  intros whole. apply (place_rows_spec whole whole [] 0); [done|apply sorted_rows_descend|done].
Qed.
Lemma ahead_placed f l p : ahead p ((λ r, placed (f r) r) <$> l) = ahead p l.
Proof.
  unfold ahead. induction l as [|r l IH]; [done|]. cbn [fmap list_fmap].
  destruct (decide (p < tr_points r)).
  - rewrite !filter_cons_True by done. cbn [length]. rewrite !Nat2Z.inj_succ. by rewrite IH.
  - by rewrite !filter_cons_False.
Qed.
Lemma sorted_placed f l : StronglySorted row_le l → StronglySorted row_le ((λ r, placed (f r) r) <$> l).
Proof.
  intros Hs. induction Hs as [|r l Hs IH Hr]; [constructor|]. cbn [fmap list_fmap]. constructor; [exact IH|].
  apply Forall_fmap. eapply Forall_impl; [exact Hr|]. done.
Qed.
Lemma sum_placed f l : foldr (λ r acc, tr_points r + acc) 0 ((λ r, placed (f r) r) <$> l) = foldr (λ r acc, tr_points r + acc) 0 l.
Proof. induction l as [|r l IH]; [done|]. cbn [fmap list_fmap foldr]. by rewrite IH. Qed.
Lemma sum_teams (ms : list (GuardianZodiac * TeamMember)) :
  foldr (λ z acc, sum_points (of_team z ms) + acc) 0 GUARDIAN_ZODIACS = sum_points (ms.*2).
Proof.
  induction ms as [|[z m] ms IH]; [done|]. cbn [fmap list_fmap snd]. change (sum_points (m :: ms.*2)) with (tm_points m + sum_points (ms.*2)).
  rewrite <- IH.
  assert (Hof : ∀ y, sum_points (of_team y ((z, m) :: ms)) = (if decide (z = y) then tm_points m else 0) + sum_points (of_team y ms)).
  { intros y. unfold of_team. destruct (decide (z = y)) as [->|Hne].
    - by rewrite filter_cons_True.
    - by rewrite filter_cons_False. }
  cbn [GUARDIAN_ZODIACS foldr]. rewrite !Hof. destruct z; cbn [decide]; repeat (destruct (decide _); [try done|try done]); lia.
Qed.
Lemma sum_permutation (f : TeamRow → Z) a b : a ≡ₚ b → foldr (λ r acc, f r + acc) 0 a = foldr (λ r acc, f r + acc) 0 b.
Proof. induction 1; cbn [foldr]; lia. Qed.

Lemma board_zodiacs ms : tr_zodiac <$> teamBoardRows ms ≡ₚ GUARDIAN_ZODIACS.
Proof.
  rewrite board_placed. cbn zeta. rewrite <- list_fmap_compose. change (tr_zodiac <$> sorted_rows (foldl join_team (λ _, no_team) ms) ≡ₚ GUARDIAN_ZODIACS).
  unfold sorted_rows. rewrite merge_sort_Permutation. reflexivity.
Qed.
Lemma board_row ms r : r ∈ teamBoardRows ms →
  team_of (of_team (tr_zodiac r) ms) {| points := tr_points r; members := tr_members r; top := tr_top r |}
  ∧ tr_rank r = 1 + ahead (tr_points r) (teamBoardRows ms).
Proof.
  rewrite board_placed. cbn zeta. intros (r' & -> & Hin)%list_elem_of_fmap. rewrite ahead_placed.
  cbn [placed tr_zodiac tr_points tr_members tr_top tr_rank]. split; [|done].
  unfold sorted_rows in Hin. rewrite merge_sort_Permutation in Hin. apply list_elem_of_fmap in Hin as (z & -> & _).
  destruct (teams_of ms z) as [Hp Hm Ht]. split; [exact Hp|exact Hm|exact Ht].
Qed.
Lemma board_sorted ms : StronglySorted row_le (teamBoardRows ms).
Proof.
  rewrite board_placed. cbn zeta.
  apply (sorted_placed (λ r, 1 + ahead (tr_points r) (sorted_rows (foldl join_team (λ _, no_team) ms)))), StronglySorted_merge_sort; apply _.
Qed.
Lemma board_sum ms : foldr (λ r acc, tr_points r + acc) 0 (teamBoardRows ms) = sum_points (ms.*2).
Proof.
  rewrite board_placed. cbn zeta. set (whole := sorted_rows _).
  etransitivity; [apply (sum_placed (λ r, 1 + ahead (tr_points r) whole))|]. rewrite <- (sum_teams ms).
  assert (Hperm : whole ≡ₚ team_row (foldl join_team (λ _, no_team) ms) <$> GUARDIAN_ZODIACS) by apply merge_sort_Permutation.
  rewrite (sum_permutation tr_points _ _ Hperm). cbn [GUARDIAN_ZODIACS fmap list_fmap foldr team_row tr_points].
  by rewrite !(to_points _ _ (teams_of ms _)).
Qed.

(** C28: a team board is right for every list of members: it has each of the twelve teams once; a
    team's row sums its own members' points, counts them, and names the one with the most (the lower guardian number on a tie);
    its place is one more than the number of teams with more points; and no member's points are lost or counted twice. *)
Theorem team_board_is_right (ms : list (GuardianZodiac * TeamMember)) :
  let rows := teamBoardRows ms in
  tr_zodiac <$> rows ≡ₚ GUARDIAN_ZODIACS
  ∧ (∀ r, r ∈ rows → team_of (of_team (tr_zodiac r) ms) {| points := tr_points r; members := tr_members r; top := tr_top r |}
                   ∧ tr_rank r = 1 + ahead (tr_points r) rows)
  ∧ StronglySorted row_le rows
  ∧ foldr (λ r acc, tr_points r + acc) 0 rows = sum_points (ms.*2).
Proof. split_and!; [apply board_zodiacs|apply board_row|apply board_sorted|apply board_sum]. Qed.

(** ** Where a team stands *)
Lemma ahead_zero p rows : ahead p rows = 0 → ∀ r, r ∈ rows → tr_points r <= p.
Proof.
  unfold ahead. intros H r Hr. destruct (Z.le_gt_cases (tr_points r) p) as [|Hlt]; [done|].
  assert (Hin : r ∈ filter (λ r, p < tr_points r) rows) by (apply list_elem_of_filter; split; [lia|done]).
  destruct (filter _ _); [by apply not_elem_of_nil in Hin|cbn [length] in H; lia].
Qed.
Lemma board_head ms : ∃ first rest, teamBoardRows ms = first :: rest ∧ ∀ r, r ∈ teamBoardRows ms → tr_points r <= tr_points first.
Proof.
  pose proof (board_zodiacs ms) as Hz. pose proof (board_sorted ms) as Hs. destruct (teamBoardRows ms) as [|first rest].
  { by apply Permutation_length in Hz. }
  exists first, rest. split; [done|]. apply StronglySorted_cons in Hs as [Hf Hs]. rewrite Forall_forall in Hf.
  intros r [->|Hr]%elem_of_cons; [done|]. apply Hf in Hr. unfold row_le in Hr. lia.
Qed.

(** Theorem: on a board every team has a gap: its distance to the first is never negative and is zero exactly in
    first place; a positive lead means the team is alone in first place, and is its margin over the best of the rest. *)
Theorem team_gap_is_fair (ms : list (GuardianZodiac * TeamMember)) (z : GuardianZodiac) :
  ∃ g mine, teamGap (teamBoardRows ms) z = Ok g ∧ mine ∈ teamBoardRows ms ∧ tr_zodiac mine = z
    ∧ g_rank g = tr_rank mine ∧ 0 <= toFirst g ∧ (toFirst g = 0 ↔ g_rank g = 1) ∧ 0 <= lead g
    ∧ (0 < lead g → g_rank g = 1
        ∧ (∀ r, r ∈ teamBoardRows ms → tr_zodiac r ≠ z → tr_points r + lead g <= tr_points mine)
        ∧ ∃ r, r ∈ teamBoardRows ms ∧ tr_zodiac r ≠ z ∧ tr_points r + lead g = tr_points mine).
Proof.
  destruct (board_head ms) as (first & rest & Erows & Hfirst). unfold teamGap.
  destruct (list_find (λ r, tr_zodiac r = z) (teamBoardRows ms)) as [[i mine]|] eqn:Hm.
  2: { exfalso. apply list_find_None in Hm. rewrite Forall_forall in Hm.
       assert (Hz : z ∈ tr_zodiac <$> teamBoardRows ms) by (rewrite board_zodiacs; destruct z; cbn; set_solver).
       apply list_elem_of_fmap in Hz as (r & -> & Hr). by apply Hm in Hr. }
  apply list_find_Some in Hm as (Hi & Hz & _). apply list_elem_of_lookup_2 in Hi.
  destruct (board_row ms mine Hi) as [_ Hrank].
  assert (Hle : tr_points mine <= tr_points first) by (by apply Hfirst).
  assert (Hone : tr_points first - tr_points mine = 0 ↔ tr_rank mine = 1).
  { rewrite Hrank. split.
    - intros H. rewrite ahead_none; [done|]. intros r Hr%Hfirst. lia.
    - intros H. assert (H0 : ahead (tr_points mine) (teamBoardRows ms) = 0) by lia.
      pose proof (ahead_zero _ _ H0 first ltac:(rewrite Erows; by left)). lia. }
  assert (Hhead : head (teamBoardRows ms) = Some first) by (by rewrite Erows). rewrite Hhead. eexists _, mine. split; [done|]. cbn [g_rank toFirst lead].
  split_and!; [done|done|done|lia|done| |].
  - destruct (list_find _ _) as [[j other]|] eqn:Ho; [|done]. destruct (Z.eqb_spec (tr_rank mine) 1) as [E|E]; [|done].
    apply list_find_Some in Ho as (Hj & _). apply list_elem_of_lookup_2, Hfirst in Hj. apply Hone in E. lia.
  - destruct (list_find _ _) as [[j other]|] eqn:Ho; [|lia]. destruct (Z.eqb_spec (tr_rank mine) 1) as [E|E]; [|lia].
    intros _. apply list_find_Some in Ho as (Hj & Hne & Hbefore). split; [done|]. split.
    + intros r Hr Hrz. enough (tr_points r <= tr_points other) by lia.
      apply list_elem_of_lookup_1 in Hr as [k Hk]. destruct (Nat.lt_ge_cases k j) as [Hkj|Hkj].
      { exfalso. apply Hrz. specialize (Hbefore k r Hk Hkj). by apply dec_stable in Hbefore. }
      destruct (Nat.eq_dec k j) as [->|Hkne]; [by rewrite Hj in Hk; injection Hk as ->|].
      pose proof (board_sorted ms) as Hs.
      rewrite <- (take_drop k (teamBoardRows ms)), (drop_S _ r k Hk) in Hs.
      assert (row_le other r) as H.
      { eapply StronglySorted_app_1_elem_of; [exact Hs| |by left]. apply list_elem_of_lookup. exists j.
        rewrite lookup_take_lt by lia. done. }
      unfold row_le in H. lia.
    + exists other. split; [by eapply list_elem_of_lookup_2|]. split; [done|]. lia.
Qed.
