(* ===== verification/Season.v ===== *)
(** * Seasons and the hall of fame

    packages/arcade/src/season.ts: a season's phases, window, countdown and points; and
    packages/arcade/src/hall.ts: when a season seals, its marks, the raffle anyone can
    recompute and the search for the block that seeds it.

    Parameters: the number that [keccak256] of the seed and a draw's index is, and the
    chain's blocks ([getBlock] of viem).  Block times never decrease with the number. *)

From Stdlib Require Import ZArith Lia Ascii String.
From stdpp Require Import base strings list sets sorting.
From S2P Require Import Prelude Dates Token Budget Calendar Guardians Ranking Teams.
Open Scope string_scope.
Open Scope Z_scope.

(** ** Seasons *)
Record Season := { s_id : Z; s_start : option string; s_end : option string }.
Definition SEASON : Season := {| s_id := 1; s_start := None; s_end := None |}.
Definition SEASON_RANK_POINTS : list Z := [10; 7; 5].
Definition SEASON_TOP10_POINTS : Z := 3.
Definition SEASON_ENTRY_POINTS : Z := 1.
Definition SEASON_MAX_DAY_POINTS : Z := 10 * Z.of_nat (length RANKED_GAMES).
Definition SEASON_STREAK_DAYS : Z := STREAK_FREEZE_EVERY.
Definition SEASON_STREAK_BONUS : Z := 10.
Inductive SeasonPhase := pending | announced | open_ | closed_.
Record SeasonStatus := { ss_season : Season; ss_today : string; ss_phase : SeasonPhase }.

Definition seasonPeriod (season : Season) : string := season_text (s_id season).
Definition validSeason (season : Season) : bool :=
  if s_id season <? 1 then false
  else match s_start season, s_end season with
       | Some start, Some end_ => isRankingDay start && isRankingDay end_ && String.leb start end_
       | None, None => true
       | _, _ => false
       end.
Definition seasonPhase (season : Season) (today : string) : SeasonPhase :=
  match s_start season, s_end season with
  | Some start, Some end_ =>
      if String.ltb today start then announced else if String.leb today end_ then open_ else closed_
  | _, _ => pending
  end.
Definition seasonStatus (season : Season) (at_ : Z) : result SeasonStatus :=
  let? today := kstDay at_ in
  Ok {| ss_season := season; ss_today := today; ss_phase := seasonPhase season today |}.
Definition seasonWindow (season : Season) (today : string) : option (string * string) :=
  match seasonPhase season today, s_start season, s_end season with
  | open_, Some start, Some end_ | closed_, Some start, Some end_ =>
      Some (start, if String.ltb today end_ then today else end_)
  | _, _, _ => None
  end.
(** [Date.parse] of the day after the end, read as [dayStart] reads a day;
    a day after the year 9999 is not modelled ([None]). *)
Definition seasonEndsAt (season : Season) : result (option Z) :=
  match s_end season with
  | None => Ok None
  | Some end_ => let? next := addDays end_ 1 in
                 Ok (match parse_day next with Some n => Some (n * DAY_MS - KST_OFFSET) | None => None end)
  end.
Definition seasonClosesAt (season : Season) (today : string) : result (option Z) :=
  match seasonPhase season today with open_ => seasonEndsAt season | _ => Ok None end.
Definition seasonDaysLeft (season : Season) (today : string) : result Z :=
  match seasonPhase season today, s_end season with
  | open_, Some end_ => let? n := daysBetween today end_ in Ok (n + 1)
  | _, _ => Ok 0
  end.
Definition seasonCountdown (season : Season) (today : string) : result Z :=
  match seasonPhase season today, s_start season with
  | announced, Some start => daysBetween today start
  | _, _ => Ok 0
  end.
Definition seasonDayPoints (rank : Z) : Z :=
  match (if 1 <=? rank then SEASON_RANK_POINTS !! Z.to_nat (rank - 1) else None) with
  | Some p => p
  | None => if rank <=? BOARD_ROWS then SEASON_TOP10_POINTS else SEASON_ENTRY_POINTS
  end.
Record SeasonStreak := { st_current : Z; st_completed : Z; st_bonus : Z }.
Definition seasonStreak (fuel : nat) (days : list string) (today : string) : option (result SeasonStreak) :=
  match streakProgress fuel days today with
  | None => None
  | Some (Throw e) => Some (Throw e)
  | Some (Ok s) =>
      Some (Ok {| st_current := current (gs_run s); st_completed := completed (gs_run s);
                  st_bonus := completed (gs_run s) * SEASON_STREAK_BONUS |})
  end.

(** ** The hall *)
Definition RAFFLE_WINNERS : nat := 5.
Definition HALL_PODIUM : Z := 3.
Record HallRow := { hr_rank : Z; hr_tokenId : string; hr_seed : string; hr_points : Z; hr_days : Z }.
Inductive SeasonMark := MPodium (season place : Z) | MTeam (season : Z) (zodiac : option GuardianZodiac) | MEntrant (season : Z).
(** The parts of a sealed hall that its marks read. *)
Record SealedHall := { sh_season : Z; sh_podium : list HallRow; sh_teams : list TeamRow; sh_participants : list string }.
Inductive SeasonHall := Unsealed (season sealsAt : Z) | Sealed (hall : SealedHall).

Definition hallSealsAt (season : Season) : result (option Z) :=
  match s_end season with
  | None => Ok None
  | Some end_ => let? w := kstWeek end_ in let? c := weekCutoff w in Ok (Some c)
  end.
Definition hallPodium (rows : list HallRow) : list HallRow := filter (λ row, hr_rank row <= HALL_PODIUM) rows.
Definition hallTeams (rows : list TeamRow) : list TeamRow := filter (λ row, tr_rank row = 1 ∧ 0 < tr_members row) rows.

Section Marks.
Variable isHash : string → bool.
Variable word : string → Z → Z.

Definition seasonMarks (hall : option SeasonHall) (tokenId seed : string) : result (list SeasonMark) :=
  match hall with
  | Some (Sealed h) =>
      if negb (bool_decide (tokenId ∈ sh_participants h)) then Ok []
      else
        let place := (λ p : nat * HallRow, hr_rank p.2) <$> list_find (λ row, hr_tokenId row = tokenId) (sh_podium h) in
        let? zodiac := guardianZodiac isHash word seed in
        Ok ((match place with
             | Some p => if (p =? 1) || (p =? 2) || (p =? 3) then [MPodium (sh_season h) p] else []
             | None => []
             end)
            ++ (if existsb (λ t, bool_decide (Some (tr_zodiac t) = zodiac)) (sh_teams h) then [MTeam (sh_season h) zodiac] else [])
            ++ [MEntrant (sh_season h)])%list
  | _ => Ok []
  end.
End Marks.

(** ** The raffle *)
Definition id_le (a b : string) : Prop := Number_id a <= Number_id b.
#[export] Instance id_le_dec : RelDecision id_le.
Proof. intros a b. unfold id_le. apply _. Defined.
Section Raffle.
(** [keccak256(seed ‖ uint256(i))]. *)
Variable draw : Z → Z.
(** [for (i = 0; i < count && remaining.length; i++)] *)
Fixpoint raffle_loop (count : nat) (i : Z) (remaining winners : list string) : list string :=
  match count with
  | O => winners
  | S count =>
      match remaining with
      | [] => winners
      | _ =>
          let k := Z.to_nat (draw i mod Z.of_nat (length remaining)) in
          raffle_loop count (i + 1) (delete k remaining) (winners ++ option_list (remaining !! k))%list
      end
  end.
Definition raffleDraw (pool : list string) (count : nat) : list string :=
  raffle_loop count 0 (merge_sort id_le (remove_dups pool)) [].
End Raffle.

(** ** The closing block *)
Record Block := { b_number : option Z; b_hash : option string; b_timestamp : Z }.
Section Search.
Variable getBlock : Z → Block.
(** [None] when the fuel does not reach. *)
Fixpoint search (fuel : nat) (second low high : Z) : option Z :=
  match fuel with
  | O => None
  | S fuel =>
      if low <? high then
        let mid := (low + high) / 2 in
        if second <=? b_timestamp (getBlock mid) then search fuel second low mid else search fuel second (mid + 1) high
      else Some low
  end.
(** [Math.ceil(at / 1000)] *)
Definition ceil_seconds (at_ : Z) : Z := - (- at_ / 1000).
Definition findCloseBlock (fuel : nat) (latest : Block) (at_ : Z) : option (result (string * string)) :=
  let second := ceil_seconds at_ in
  match b_number latest with
  | None => Some (Throw (Error "Chain has not reached the season close"))
  | Some number =>
      if b_timestamp latest <? second then Some (Throw (Error "Chain has not reached the season close"))
      else
        match search fuel second 0 number with
        | None => None
        | Some low =>
            let block := if low =? number then latest else getBlock low in
            match b_hash block, b_number block with
            | None, _ => Some (Throw (Error "Close block has no hash"))
            | Some hash, Some n => Some (Ok (show_Z n, hash))
            | Some hash, None => Some (Throw (TypeError "null"))
            end
        end
  end.
End Search.

Example first_place : map seasonDayPoints [1; 2; 3; 4; 10; 11] = [10; 7; 5; 3; 3; 1].
Proof. reflexivity. Qed.

(** ** The clock of a season *)
(** A season of two days, in order, with a day to follow. *)
Record dated (season : Season) (a b : Z) : Prop := {
  da_start : s_start season = Some (day_text a); da_end : s_end season = Some (day_text b);
  da_first : four_digit_year a; da_last : four_digit_year (b + 8); da_order : a <= b }.
Lemma valid_dated season start end_ : validSeason season = true → s_start season = Some start → s_end season = Some end_ →
  ∃ a b, start = day_text a ∧ end_ = day_text b ∧ four_digit_year a ∧ four_digit_year b ∧ a <= b.
Proof.
  unfold validSeason. intros H Hs He. rewrite Hs, He in H. destruct (_ <? _); [done|].
  apply andb_true_iff in H as [[Ha Hb]%andb_true_iff Hle].
  apply ranking_day_iff in Ha as (a & Ha & ->). apply ranking_day_iff in Hb as (b & Hb & ->).
  exists a, b. rewrite text_leb in Hle by done. bools. done.
Qed.
Lemma kst_day at_ : calendar_time at_ → four_digit_year (kst_number at_) ∧ kstDay at_ = Ok (day_text (kst_number at_)).
Proof.
  intros Hat. assert (Hf : four_digit_year (kst_number at_)) by (pose proof (calendar_day _ Hat); unfold four_digit_year; lia).
  split; [done|]. by apply kstDay_text.
Qed.
Lemma phase_number season a b n : dated season a b → four_digit_year n →
  seasonPhase season (day_text n) = if n <? a then announced else if n <=? b then open_ else closed_.
Proof.
  intros [Hs He Ha Hb Hab] Hn. unfold seasonPhase. rewrite Hs, He. rewrite text_ltb, text_leb; try done; unfold four_digit_year in *; lia.
Qed.
Lemma ends_number season a b : dated season a b → seasonEndsAt season = Ok (Some ((b + 1) * DAY_MS - KST_OFFSET)).
Proof.
  intros [Hs He Ha Hb Hab]. unfold seasonEndsAt. rewrite He. rewrite addDays_text by (unfold four_digit_year in *; lia). cbn [rbind].
  by rewrite parse_day_text by (unfold four_digit_year in *; lia).
Qed.

(** Theorem: a season follows the clock: it is announced until 00:00 KST of its first day, closed from the very
    instant [seasonEndsAt] gives, and open in between; and the D-n it shows counts the resets: the season starts (or ends)
    at the n-th coming 00:00 KST. *)
Theorem season_follows_the_clock (season : Season) (a b at_ : Z) (Hs : dated season a b) (Hat : calendar_time at_) :
  ∃ st e r, seasonStatus season at_ = Ok st ∧ seasonEndsAt season = Ok (Some e) ∧ nextReset at_ day_ = Ok r
    ∧ (ss_phase st = announced ↔ at_ < a * DAY_MS - KST_OFFSET)
    ∧ (ss_phase st = closed_ ↔ e <= at_)
    ∧ (ss_phase st = announced → ∃ n, seasonCountdown season (ss_today st) = Ok n ∧ 1 <= n
                                    ∧ a * DAY_MS - KST_OFFSET = r + (n - 1) * DAY_MS)
    ∧ (ss_phase st = open_ → ∃ n, seasonDaysLeft season (ss_today st) = Ok n ∧ 1 <= n <= b - a + 1 ∧ e = r + (n - 1) * DAY_MS).
Proof.
  destruct (kst_day _ Hat) as [Hn Hk]. unfold seasonStatus. rewrite Hk. cbn [rbind].
  rewrite (ends_number _ _ _ Hs), nextReset_number by done. eexists _, _, _. do 3 (split; [done|]).
  cbn [ss_phase ss_today]. rewrite (phase_number _ _ _ _ Hs Hn). pose proof Hs as [Es Ee Ha Hb Hab].
  set (n := kst_number at_) in *.
  assert (Hsta : n < a ↔ at_ < a * DAY_MS - KST_OFFSET) by apply kst_reset.
  assert (Hend : b < n ↔ (b + 1) * DAY_MS - KST_OFFSET <= at_) by (pose proof (kst_reset at_ (b + 1)); fold n in H; lia).
  rewrite <- Hsta, <- Hend. destruct (Z.ltb_spec n a); [|destruct (Z.leb_spec n b)]; split_and!; try (split; [done|lia]); try done; try lia.
  - intros _. unfold seasonCountdown. rewrite (phase_number _ _ _ _ Hs Hn), Es, (proj2 (Z.ltb_lt n a)) by done.
    rewrite daysBetween_text by done. eexists. split; [done|]. split; lia.
  - intros _. unfold seasonDaysLeft. rewrite (phase_number _ _ _ _ Hs Hn), Ee, (proj2 (Z.ltb_ge n a)), (proj2 (Z.leb_le n b)) by done.
    rewrite daysBetween_text by (done || unfold four_digit_year in *; lia). cbn [rbind]. eexists. split; [done|]. split; lia.
Qed.

(** Theorem: the hall of fame seals only after the season: at its instant the season has been closed for at least the grace
    day, and every week that holds a day of the season is sealed.  Weeks are counted from 1970-01-05, day 4. *)
Theorem hall_seals_after_the_season (season : Season) (a b : Z) (Hs : dated season a b) (Ha : 4 <= a) :
  ∃ e s, seasonEndsAt season = Ok (Some e) ∧ hallSealsAt season = Ok (Some s) ∧ e + HONOR_GRACE_MS <= s
    ∧ ∀ d, a <= d <= b → ∃ w c, kstWeek (day_text d) = Ok w ∧ weekCutoff w = Ok c ∧ c <= s.
Proof.
  pose proof Hs as [Es Ee Ha4 Hb Hab]. rewrite (ends_number _ _ _ Hs). unfold hallSealsAt. rewrite Ee.
  assert (Hweek : ∀ d, a <= d <= b → ∃ i, 0 <= i ∧ monday d = 4 + i * 7 ∧ d < 11 + i * 7 ∧ 4 + i * 7 <= d
            ∧ kstWeek (day_text d) = Ok (day_text (4 + i * 7))
            ∧ weekCutoff (day_text (4 + i * 7)) = Ok ((12 + i * 7) * DAY_MS - KST_OFFSET)).
  { intros d Hd. destruct (monday_spec d) as [Hm Hmod]. exists ((monday d - 4) / 7).
    assert (Em : monday d = 4 + (monday d - 4) / 7 * 7) by (Z.to_euclidean_division_equations; lia).
    assert (0 <= (monday d - 4) / 7) by (apply Z.div_pos; lia). split_and!; try lia.
    - rewrite kstWeek_text by (unfold four_digit_year in *; lia). by rewrite <- Em.
    - apply weekCutoff_text; unfold four_digit_year in *; lia. }
  destruct (Hweek b ltac:(lia)) as (ib & Hib & Emb & Hb1 & Hb2 & Hkb & Hcb). rewrite Hkb. cbn [rbind]. rewrite Hcb. cbn [rbind].
  eexists _, _. do 2 (split; [done|]). split; [unfold HONOR_GRACE_MS, DAY_MS; lia|].
  intros d Hd. destruct (Hweek d Hd) as (i & Hi & Em & H1 & H2 & Hk & Hc). eexists _, _. split; [exact Hk|]. split; [exact Hc|].
  unfold DAY_MS. lia.
Qed.

Definition ex_season : Season := {| s_id := 1; s_start := Some "2026-10-05"; s_end := Some "2026-11-01" |}.
Lemma ex_dated : dated ex_season 20731 20758.
Proof. split; [reflexivity|reflexivity|vm_compute; split; congruence|vm_compute; split; congruence|lia]. Defined.
Lemma season_follows_the_clock_witness : ∃ st e r, seasonStatus ex_season 1791817200000 = Ok st
  ∧ seasonEndsAt ex_season = Ok (Some e) ∧ nextReset 1791817200000 day_ = Ok r
  ∧ (ss_phase st = announced ↔ 1791817200000 < 20731 * DAY_MS - KST_OFFSET)
  ∧ (ss_phase st = closed_ ↔ e <= 1791817200000)
  ∧ (ss_phase st = announced → ∃ n, seasonCountdown ex_season (ss_today st) = Ok n ∧ 1 <= n
                                  ∧ 20731 * DAY_MS - KST_OFFSET = r + (n - 1) * DAY_MS)
  ∧ (ss_phase st = open_ → ∃ n, seasonDaysLeft ex_season (ss_today st) = Ok n ∧ 1 <= n <= 20758 - 20731 + 1 ∧ e = r + (n - 1) * DAY_MS).
Proof. apply season_follows_the_clock; [exact ex_dated|vm_compute; split; congruence]. Defined.
Lemma hall_seals_after_the_season_witness : ∃ e s, seasonEndsAt ex_season = Ok (Some e) ∧ hallSealsAt ex_season = Ok (Some s)
  ∧ e + HONOR_GRACE_MS <= s
  ∧ ∀ d, 20731 <= d <= 20758 → ∃ w c, kstWeek (day_text d) = Ok w ∧ weekCutoff w = Ok c ∧ c <= s.
Proof. apply hall_seals_after_the_season; [exact ex_dated|lia]. Defined.

(** ** The raffle is a fair deck *)
#[export] Instance id_le_trans : Transitive id_le.
Proof. unfold id_le. intros a b c. lia. Qed.
#[export] Instance id_le_total : Total id_le.
Proof. unfold Total, id_le. intros a b. lia. Qed.

Lemma delete_perm {A} (l : list A) k x : l !! k = Some x → l ≡ₚ x :: delete k l.
Proof. apply delete_Permutation. Qed.
Lemma raffle_winners draw count : ∀ i remaining winners,
  ∃ won, raffle_loop draw count i remaining winners = (winners ++ won)%list
    ∧ length won = Nat.min count (length remaining) ∧ won ⊆+ remaining.
Proof.
  induction count as [|count IH]; intros i remaining winners; cbn [raffle_loop].
  { exists []. rewrite app_nil_r. split_and!; [done|done|apply submseteq_nil_l]. }
  destruct remaining as [|r rest] eqn:E.
  { exists []. rewrite app_nil_r. split_and!; [done|done|apply submseteq_nil_l]. }
  rewrite <- E. set (k := Z.to_nat (draw i mod Z.of_nat (length remaining))).
  assert (Hk : (k < length remaining)%nat).
  { subst k. pose proof (Z.mod_pos_bound (draw i) (Z.of_nat (length remaining)) ltac:(rewrite E; cbn [length]; lia)). lia. }
  destruct (lookup_lt_is_Some_2 _ _ Hk) as [x Hx]. rewrite Hx. change (option_list (Some x)) with [x].
  destruct (IH (i + 1) (delete k remaining) (winners ++ [x])%list) as (won & -> & Hl & Hsub).
  exists (x :: won). split_and!.
  - by rewrite <- app_assoc.
  - cbn [length]. rewrite Hl, length_delete by done. lia.
  - rewrite (delete_perm _ _ _ Hx). by apply submseteq_skip.
Qed.

(** The order of guardian numbers puts a pool of guardians into one order. *)
Definition guardian_ids (l : list string) : Prop := Forall (λ id, validRankingTokenId (JStr id) = true) l.
Lemma id_antisym a b : validRankingTokenId (JStr a) = true → validRankingTokenId (JStr b) = true →
  id_le a b → id_le b a → a = b.
Proof.
  intros (x & Hx & ->)%token_id_canonical (y & Hy & ->)%token_id_canonical. unfold id_le, Number_id.
  destruct (show_nonneg x ltac:(lia)) as (_ & _ & ->), (show_nonneg y ltac:(lia)) as (_ & _ & ->).
  intros. by assert (x = y) as -> by lia.
Qed.
Lemma sorted_pool_unique p q : guardian_ids p → (∀ id, id ∈ p ↔ id ∈ q) →
  merge_sort id_le (remove_dups p) = merge_sort id_le (remove_dups q).
Proof.
  intros Hp Hpq.
  assert (Hperm : merge_sort id_le (remove_dups p) ≡ₚ merge_sort id_le (remove_dups q)).
  { rewrite !merge_sort_Permutation. apply NoDup_Permutation; [apply NoDup_remove_dups..|].
    intros id. by rewrite !elem_of_remove_dups. }
  apply (StronglySorted_unique_strong id_le); [|apply StronglySorted_merge_sort; apply _..|exact Hperm].
  intros a b Ha Hb. apply id_antisym.
  - rewrite merge_sort_Permutation, elem_of_remove_dups in Ha. unfold guardian_ids in Hp. rewrite Forall_forall in Hp. by apply Hp.
  - rewrite merge_sort_Permutation, elem_of_remove_dups in Hb. unfold guardian_ids in Hp. rewrite Forall_forall in Hp.
    apply Hp. by apply Hpq.
Qed.

(** Theorem: the raffle draws without replacement and anyone can recompute it: whatever the hash says, it draws
    as many winners as were asked for or the pool holds, all different and all from the pool; and the draw depends on which
    guardians are in the pool, not on their order or on repetitions. *)
Theorem raffle_is_fair (draw : Z → Z) (pool : list string) (count : nat) :
  base.NoDup (raffleDraw draw pool count)
  ∧ (∀ w, w ∈ raffleDraw draw pool count → w ∈ pool)
  ∧ length (raffleDraw draw pool count) = Nat.min count (length (remove_dups pool))
  ∧ ∀ pool', guardian_ids pool → (∀ id, id ∈ pool ↔ id ∈ pool') → raffleDraw draw pool' count = raffleDraw draw pool count.
Proof.
  unfold raffleDraw. destruct (raffle_winners draw count 0 (merge_sort id_le (remove_dups pool)) []) as (won & Heq & Hl & Hsub).
  rewrite Heq. cbn [app]. rewrite merge_sort_Permutation in Hl. rewrite merge_sort_Permutation in Hsub. split_and!.
  - apply submseteq_Permutation in Hsub as [l' Hl']. pose proof (NoDup_remove_dups pool) as Hnd. rewrite Hl' in Hnd.
    by apply NoDup_app in Hnd as [? _].
  - intros w Hw. apply elem_of_remove_dups. by eapply elem_of_submseteq.
  - done.
  - intros pool' Hp Hpp. rewrite <- (sorted_pool_unique pool pool') by done. exact Heq.
Qed.

(** ** The search finds the first block *)
(** A chain up to block [last]: each block carries its number, and time does not run back. *)
Record chain (getBlock : Z → Block) (last : Z) : Prop := {
  ch_last : 0 <= last;
  ch_number : ∀ n, 0 <= n <= last → b_number (getBlock n) = Some n;
  ch_time : ∀ m n, 0 <= m → m <= n → n <= last → b_timestamp (getBlock m) <= b_timestamp (getBlock n) }.
Lemma ceil_spec at_ t : ceil_seconds at_ <= t ↔ at_ <= t * 1000.
Proof. unfold ceil_seconds. split; intros H; Z.to_euclidean_division_equations; lia. Qed.

Lemma search_first getBlock last second f : chain getBlock last → ∀ low high, 0 <= low <= high → high <= last →
  high - low < 2 ^ Z.of_nat f → second <= b_timestamp (getBlock high) →
  (∀ n, 0 <= n < low → b_timestamp (getBlock n) < second) →
  ∃ n, search getBlock (S f) second low high = Some n ∧ low <= n <= high ∧ second <= b_timestamp (getBlock n)
    ∧ ∀ m, 0 <= m < n → b_timestamp (getBlock m) < second.
Proof.
  intros [Hlast Hnum Htime]. induction f as [|f IH]; intros low high Hl Hh Hw Hhigh Hlow.
  - cbn in Hw. assert (low = high) as <- by lia. exists low. cbn [search]. rewrite Z.ltb_irrefl. done.
  - rewrite Nat2Z.inj_succ, Z.pow_succ_r in Hw by lia.
    change (search getBlock (S (S f)) second low high) with
      (if low <? high then let mid := (low + high) / 2 in
         if second <=? b_timestamp (getBlock mid) then search getBlock (S f) second low mid
         else search getBlock (S f) second (mid + 1) high
       else Some low).
    destruct (Z.ltb_spec low high) as [Hlt|Hge]; [|by assert (low = high) as <- by lia; exists low].
    cbn zeta. set (mid := (low + high) / 2). assert (Hmid : low <= mid < high ∧ high - low - 1 <= 2 * (mid - low) <= high - low).
    { subst mid. Z.to_euclidean_division_equations. lia. }
    destruct (Z.leb_spec second (b_timestamp (getBlock mid))).
    + destruct (IH low mid) as (n & Hn & Hb & Hrest); [lia|lia|lia|done|done|]. exists n. split; [done|]. split; [lia|done].
    + destruct (IH (mid + 1) high) as (n & Hn & Hb & Hrest); [lia|lia|lia|done| |].
      { intros m Hm. pose proof (Htime m mid ltac:(lia) ltac:(lia) ltac:(lia)). lia. }
      exists n. split; [done|]. split; [lia|done].
Qed.

(** C27: the block that seeds the raffle is the first at or after the season's close: once the chain has
    reached the instant, the search finds the least block whose time is not before it, within one read per binary digit of the
    chain's height; until then it refuses. *)
Theorem close_block_is_the_first (getBlock : Z → Block) (last at_ : Z) (f : nat)
    (Hc : chain getBlock last) (Hf : last < 2 ^ Z.of_nat f) :
  (at_ <= b_timestamp (getBlock last) * 1000 →
     ∃ n, 0 <= n <= last ∧ at_ <= b_timestamp (getBlock n) * 1000 ∧ (∀ m, 0 <= m < n → b_timestamp (getBlock m) * 1000 < at_)
       ∧ findCloseBlock getBlock (S f) (getBlock last) at_
         = Some (match b_hash (getBlock n) with Some hash => Ok (show_Z n, hash) | None => Throw (Error "Close block has no hash") end))
  ∧ (b_timestamp (getBlock last) * 1000 < at_ →
     findCloseBlock getBlock (S f) (getBlock last) at_ = Some (Throw (Error "Chain has not reached the season close"))).
Proof.
  pose proof Hc as [Hlast Hnum Htime]. unfold findCloseBlock. rewrite (Hnum last) by lia. split; intros Hat.
  - apply ceil_spec in Hat. rewrite (proj2 (Z.ltb_ge _ _)) by done.
    destruct (search_first getBlock last (ceil_seconds at_) f Hc 0 last) as (n & -> & Hb & Hn & Hfirst); try lia.
    exists n. split; [done|]. split; [by apply ceil_spec|]. split.
    { intros m Hm. specialize (Hfirst m Hm). pose proof (ceil_spec at_ (b_timestamp (getBlock m))). lia. }
    assert (E : (if n =? last then getBlock last else getBlock n) = getBlock n) by (by destruct (Z.eqb_spec n last) as [->|]).
    rewrite E, (Hnum n) by lia. by destruct (b_hash _).
  - pose proof (ceil_spec at_ (b_timestamp (getBlock last))). by rewrite (proj2 (Z.ltb_lt _ _)) by lia.
Qed.
Definition ex_chain (n : Z) : Block := {| b_number := Some n; b_hash := Some "0xab"; b_timestamp := 1790000000 + n * 2 |}.
Lemma ex_chain_ok : chain ex_chain 1000.
Proof. split; [lia|done|cbn; lia]. Defined.
Lemma close_block_is_the_first_witness :
  (1790000123000 <= b_timestamp (ex_chain 1000) * 1000 →
     ∃ n, 0 <= n <= 1000 ∧ 1790000123000 <= b_timestamp (ex_chain n) * 1000
       ∧ (∀ m, 0 <= m < n → b_timestamp (ex_chain m) * 1000 < 1790000123000)
       ∧ findCloseBlock ex_chain 11 (ex_chain 1000) 1790000123000
         = Some (match b_hash (ex_chain n) with Some hash => Ok (show_Z n, hash) | None => Throw (Error "Close block has no hash") end))
  ∧ (b_timestamp (ex_chain 1000) * 1000 < 1790000123000 →
     findCloseBlock ex_chain 11 (ex_chain 1000) 1790000123000 = Some (Throw (Error "Chain has not reached the season close"))).
Proof. apply (close_block_is_the_first ex_chain 1000 1790000123000 10); [exact ex_chain_ok|reflexivity]. Defined.
Example close_block_found : findCloseBlock ex_chain 11 (ex_chain 1000) 1790000123000 = Some (Ok ("62", "0xab")).
Proof. reflexivity. Qed.

(** Theorem: marks are earned: only a participant of a sealed season has any, and then exactly one entrant stamp; a podium mark
    is the place of a row of that guardian on the podium, and a team mark is its own birth team, one of the winners. *)
Theorem marks_are_earned (isHash : string → bool) (word : string → Z → Z) (hall : option SeasonHall) (tokenId seed : string) (ms : list SeasonMark)
    (Hm : seasonMarks isHash word hall tokenId seed = Ok ms) :
  (ms = [] ↔ ∀ h, hall = Some (Sealed h) → tokenId ∉ sh_participants h)
  ∧ ∀ m, m ∈ ms → ∃ h, hall = Some (Sealed h) ∧ tokenId ∈ sh_participants h
      ∧ match m with
        | MEntrant s => s = sh_season h
        | MPodium s p => s = sh_season h ∧ 1 <= p <= HALL_PODIUM ∧ ∃ row, row ∈ sh_podium h ∧ hr_tokenId row = tokenId ∧ hr_rank row = p
        | MTeam s z => s = sh_season h ∧ guardianZodiac isHash word seed = Ok z ∧ ∃ t, t ∈ sh_teams h ∧ Some (tr_zodiac t) = z
        end.
Proof.
  unfold seasonMarks in Hm. destruct hall as [[|h]|].
  1, 3: injection Hm as <-; split; [naive_solver|intros m Hin; by apply not_elem_of_nil in Hin].
  destruct (bool_decide (tokenId ∈ sh_participants h)) eqn:Hp; cbn [negb] in Hm.
  2: { apply bool_decide_eq_false in Hp. injection Hm as <-. split; [naive_solver|intros m Hin; by apply not_elem_of_nil in Hin]. }
  apply bool_decide_eq_true in Hp. apply rbind_ok in Hm as (z & Hz & [= <-]). split.
  { split; [|intros H; by apply (H h) in Hp]. intros E. apply (f_equal length) in E. rewrite !length_app in E. cbn in E. lia. }
  intros m Hin. exists h. split; [done|]. split; [done|]. rewrite !elem_of_app in Hin. destruct Hin as [Hin|[Hin|Hin]].
  - destruct (list_find _ _) as [[i row]|] eqn:Hrow; [|by apply not_elem_of_nil in Hin]. cbn [fmap option_fmap option_map snd] in Hin.
    destruct (_ || _) eqn:E in Hin; [|by apply not_elem_of_nil in Hin]. apply list_elem_of_singleton in Hin as ->.
    apply list_find_Some in Hrow as (Hi & Ht & _). split; [done|]. split; [unfold HALL_PODIUM; bools; lia|].
    exists row. split; [by eapply list_elem_of_lookup_2|done].
  - destruct (existsb _ _) eqn:E; [|by apply not_elem_of_nil in Hin]. apply list_elem_of_singleton in Hin as ->.
    apply existsb_exists in E as (t & Ht & Hd). apply bool_decide_eq_true in Hd. split; [done|]. split; [done|].
    exists t. split; [by apply list_elem_of_In|done].
  - apply list_elem_of_singleton in Hin as ->. done.
Qed.
Definition ex_hall : SealedHall :=
  {| sh_season := 1; sh_podium := [{| hr_rank := 1; hr_tokenId := "777"; hr_seed := "0x01"; hr_points := 90; hr_days := 20 |}];
     sh_teams := []; sh_participants := ["777"] |}.
Lemma marks_are_earned_witness :
  ([MPodium 1 1; MEntrant 1] = [] ↔ ∀ h, Some (Sealed ex_hall) = Some (Sealed h) → "777" ∉ sh_participants h)
  ∧ ∀ m, m ∈ [MPodium 1 1; MEntrant 1] → ∃ h, Some (Sealed ex_hall) = Some (Sealed h) ∧ "777" ∈ sh_participants h
      ∧ match m with
        | MEntrant s => s = sh_season h
        | MPodium s p => s = sh_season h ∧ 1 <= p <= HALL_PODIUM ∧ ∃ row, row ∈ sh_podium h ∧ hr_tokenId row = "777" ∧ hr_rank row = p
        | MTeam s z => s = sh_season h ∧ guardianZodiac (λ _, true) (λ _ _, 0) "0x01" = Ok z ∧ ∃ t, t ∈ sh_teams h ∧ Some (tr_zodiac t) = z
        end.
Proof. apply (marks_are_earned (λ _, true) (λ _ _, 0) (Some (Sealed ex_hall)) "777" "0x01"). reflexivity. Defined.
