(* ===== verification/Outings.v ===== *)
(** * Outings: the jobs an agent plays for an owner

    apps/delegated-seller/outings/store.ts and guardians/ledger.ts: the table of outings, the
    lease of the one worker that may spend, and the ledger of results an admission earns;
    with the choice of a game from packages/arcade/src/simulation.ts.

    A job is stored as JSON and read back whole, so a row is the job; its [state] and
    [updated_at] columns are written with it.  The hashes are parameters: [sha256] and
    [keccak] of a text (JSON.stringify of the named fields), the word of a seed and an index,
    and viem's [isHash]; [resultInputs] is text that is only hashed and stored. *)

From Stdlib Require Import ZArith Lia Ascii String.
From stdpp Require Import base gmap strings list sets sorting.
From S2P Require Import Prelude Dates Token Json Calendar Guardians Ranking.
Open Scope string_scope.
Open Scope Z_scope.

Definition OutingError (code : string) : js_error := JsError "OutingError" code.

Inductive Goal := goal_score | goal_save | goal_explore.
Definition goal_text (g : Goal) : string := match g with goal_score => "score" | goal_save => "save" | goal_explore => "explore" end.
(** [None] is [auto]. *)
Definition Choice := option GameId.
Definition choice_text (c : Choice) : string := match c with None => "auto" | Some g => game_text g end.
Definition locale_text (l : Locale) : string := match l with ko => "ko" | en => "en" end.

Record GuardianSnapshot := {
  chainId : Z; collection : string; g_tokenId : string; g_owner : string; g_epoch : string;
  g_seed : string; g_traitsHash : string; g_ruleset : Z }.
Record Profile := { pf_name : string; pf_color : option string; pf_temperament : option string; pf_goal : Goal;
                    pf_aptitudes : option (Z * Z * Z) }.
Record RankedAttempt := { ra_day : string; ra_attempt : Z }.
#[export] Instance ranked_eq_dec : EqDecision RankedAttempt.
Proof. solve_decision. Defined.
Record Pending := { p_game : GameId; p_gameseed : Z; p_header : option string; p_tx : option string; p_ranked : option RankedAttempt }.
(** The fields of an [ActivityOutcome] the ledger reads; the score is [None] when it is no safe
    integer.  The shop memory is its JSON text. *)
Record Outcome := { oc_game : GameId; oc_score : option Z; oc_version : option Z; oc_seed : option Z;
                    oc_victory : option bool; oc_memory : option string; oc_rest : string }.
#[export] Instance outcome_eq_dec : EqDecision Outcome.
Proof. solve_decision. Defined.
Record OutingResult := { r_id : string; r_game : GameId; r_seed : Z; r_at : Z; r_tx : string; r_outcome : Outcome; r_ranked : option RankedAttempt }.
#[export] Instance oresult_eq_dec : EqDecision OutingResult.
Proof. solve_decision. Defined.
Inductive JobStatus := queued | running | paused | stopped | complete.
#[export] Instance jstatus_eq_dec : EqDecision JobStatus.
Proof. solve_decision. Defined.
Definition active (s : JobStatus) : bool := match s with queued | running | paused => true | _ => false end.

Record Job := {
  j_id : string; j_owner : string; payer : string; agent : string; context : string; j_contextHash : string;
  j_fingerprint : string; characterId : string; guardian : GuardianSnapshot; profile : Profile; locale : Locale; choice : Choice;
  admissions : Z; spent : Z; status : JobStatus; createdAt : Z; updatedAt : Z; expiresAt : Z; error : option string;
  stopRequested : bool; pending : option Pending; j_results : list OutingResult; shopMemory : option string }.
Record OutingStart := { os_id : string; os_tokenId : string; os_goal : Goal; os_locale : Locale; os_choice : Choice;
                        os_admissions : Z; os_context : string }.
Record ValidatedPermission := { vp_payer : string; vp_expiresAt : Z; vp_contextHash : string }.

(** The receipt a signature rests on: its block's number and hash. *)
Record Evidence := { ev_block : Z; ev_hash : string }.
(** A row of arcade_guardian_results with its [data]; the actor is as the data has it (its
    column is in lower case).  [sr_attested] is the evidence, the signer
    and the signature, which are set together. *)
Record ResultRow := {
  sr_id : string; sr_token : string; sr_collection : string; sr_actor : string; sr_outing : string; sr_admission : Z;
  sr_tx : string; sr_at : Z; sr_result : OutingResult; sr_epoch : string; sr_ruleset : Z; sr_traitsHash : string; sr_inputs : string;
  sr_payer : string; sr_attested : option (Evidence * string * string); sr_claimed : bool }.
Record RankedRow := {
  rr_id : string; rr_collection : string; rr_token : string; rr_seed : string; rr_ruleset : Z; rr_game : GameId;
  rr_day : string; rr_week : string; rr_attempt : Z; rr_score : Z; rr_victory : bool; rr_at : Z }.
(** The UNIQUE columns of a ranked row. *)
Definition rank_key (r : RankedRow) := (rr_collection r, rr_token r, rr_game r, rr_day r, rr_attempt r).
Record Db := { jobs : gmap string Job; results : list ResultRow; ranked : list RankedRow; lease_row : option (string * Z) }.
Definition set_jobs (j : gmap string Job) (d : Db) : Db := {| jobs := j; results := results d; ranked := ranked d; lease_row := lease_row d |}.
Definition set_lease (l : option (string * Z)) (d : Db) : Db := {| jobs := jobs d; results := results d; ranked := ranked d; lease_row := l |}.
(** [UPDATE arcade_outings ... WHERE id=?]. *)
Definition save (j : Job) (d : Db) : Db := set_jobs (alter (λ _, j) (j_id j) (jobs d)) d.

(** Spreads of a job, one per group of fields that change together. *)
Definition with_status (s : JobStatus) (now : Z) (j : Job) : Job :=
  {| j_id := j_id j; j_owner := j_owner j; payer := payer j; agent := agent j; context := context j; j_contextHash := j_contextHash j;
     j_fingerprint := j_fingerprint j; characterId := characterId j; guardian := guardian j; profile := profile j; locale := locale j;
     choice := choice j; admissions := admissions j; spent := spent j; status := s; createdAt := createdAt j; updatedAt := now;
     expiresAt := expiresAt j; error := error j; stopRequested := stopRequested j; pending := pending j; j_results := j_results j;
     shopMemory := shopMemory j |}.
Definition with_error (e : option string) (j : Job) : Job :=
  {| j_id := j_id j; j_owner := j_owner j; payer := payer j; agent := agent j; context := context j; j_contextHash := j_contextHash j;
     j_fingerprint := j_fingerprint j; characterId := characterId j; guardian := guardian j; profile := profile j; locale := locale j;
     choice := choice j; admissions := admissions j; spent := spent j; status := status j; createdAt := createdAt j; updatedAt := updatedAt j;
     expiresAt := expiresAt j; error := e; stopRequested := stopRequested j; pending := pending j; j_results := j_results j;
     shopMemory := shopMemory j |}.
Definition with_context (c : string) (j : Job) : Job :=
  {| j_id := j_id j; j_owner := j_owner j; payer := payer j; agent := agent j; context := c; j_contextHash := j_contextHash j;
     j_fingerprint := j_fingerprint j; characterId := characterId j; guardian := guardian j; profile := profile j; locale := locale j;
     choice := choice j; admissions := admissions j; spent := spent j; status := status j; createdAt := createdAt j; updatedAt := updatedAt j;
     expiresAt := expiresAt j; error := error j; stopRequested := stopRequested j; pending := pending j; j_results := j_results j;
     shopMemory := shopMemory j |}.
Definition with_pending (p : option Pending) (j : Job) : Job :=
  {| j_id := j_id j; j_owner := j_owner j; payer := payer j; agent := agent j; context := context j; j_contextHash := j_contextHash j;
     j_fingerprint := j_fingerprint j; characterId := characterId j; guardian := guardian j; profile := profile j; locale := locale j;
     choice := choice j; admissions := admissions j; spent := spent j; status := status j; createdAt := createdAt j; updatedAt := updatedAt j;
     expiresAt := expiresAt j; error := error j; stopRequested := stopRequested j; pending := p; j_results := j_results j;
     shopMemory := shopMemory j |}.
Definition with_stop (j : Job) : Job :=
  {| j_id := j_id j; j_owner := j_owner j; payer := payer j; agent := agent j; context := context j; j_contextHash := j_contextHash j;
     j_fingerprint := j_fingerprint j; characterId := characterId j; guardian := guardian j; profile := profile j; locale := locale j;
     choice := choice j; admissions := admissions j; spent := spent j; status := status j; createdAt := createdAt j; updatedAt := updatedAt j;
     expiresAt := expiresAt j; error := error j; stopRequested := true; pending := pending j; j_results := j_results j;
     shopMemory := shopMemory j |}.
(** [job.results.push(result)], the memory it leaves, and [spent = results.length]. *)
Definition with_result (r : OutingResult) (j : Job) : Job :=
  let rs := (j_results j ++ [r])%list in
  {| j_id := j_id j; j_owner := j_owner j; payer := payer j; agent := agent j; context := context j; j_contextHash := j_contextHash j;
     j_fingerprint := j_fingerprint j; characterId := characterId j; guardian := guardian j; profile := profile j; locale := locale j;
     choice := choice j; admissions := admissions j; spent := Z.of_nat (length rs); status := status j; createdAt := createdAt j;
     updatedAt := updatedAt j; expiresAt := expiresAt j; error := error j; stopRequested := stopRequested j; pending := pending j;
     j_results := rs; shopMemory := match oc_memory (r_outcome r) with Some m => Some m | None => shopMemory j end |}.

(** [job.pending?.header], [job.pending?.transaction]. *)
Definition header_of (j : Job) : option string := pending j ≫= p_header.
Definition tx_of (j : Job) : option string := pending j ≫= p_tx.
(** [!job.pending?.header && !job.pending?.transaction]; neither text is ever empty. *)
Definition unsent (j : Job) : bool := match header_of j, tx_of j with None, None => true | _, _ => false end.

(** ** What the owner sees *)
Record OutingView := { v_spent : Z; v_reserved : Z; v_job : Job }.
Definition publicJob (j : Job) : OutingView :=
  let charged := spent j + (if tx_of j then 1 else 0) in
  let reserved :=
    match status j with
    | complete | stopped => 0
    | _ => if stopRequested j then (match header_of j, tx_of j with Some _, None => 1 | _, _ => 0 end)
           else admissions j - charged
    end in
  {| v_spent := charged; v_reserved := reserved; v_job := j |}.

(** ** Which game is next *)
Definition aptitude (a : Z * Z * Z) (g : GameId) : Z :=
  let '(s, r, h) := a in match g with stamp => s | race => r | shop => h end.
Definition chooseOutingGame (p : Profile) (c : Choice) (visited : list GameId) : GameId :=
  match c with
  | Some g => g
  | None =>
      match pf_goal p with
      | goal_score =>
          match pf_aptitudes p with
          | Some a => foldl (λ best game, if aptitude a best <? aptitude a game then game else best) stamp [stamp; race; shop]
          | None => race
          end
      | goal_save => shop
      | goal_explore => default race (snd <$> list_find (λ g, g ∉ visited) [race; shop; stamp])
      end
  end.

(** ** Reads *)
(** ORDER BY updated_at, id. *)
Definition job_le (a b : Job) : Prop :=
  updatedAt a < updatedAt b ∨ (updatedAt a = updatedAt b ∧ String.leb (j_id a) (j_id b) = true).
#[export] Instance job_le_dec : RelDecision job_le.
Proof. intros a b. unfold job_le. apply _. Defined.
Definition all_jobs (d : Db) : list Job := snd <$> map_to_list (jobs d).
Definition next (d : Db) : option Job :=
  head (merge_sort job_le (filter (λ j, status j = running ∨ status j = queued) (all_jobs d))).
(** The attempts a guardian has taken of a game on a day, ascending. *)
Definition rankedAttemptsTaken (d : Db) (coll token day : string) (excludeJobId : string) (g : GameId) : list Z :=
  let settled := (λ r, rr_attempt r) <$>
    filter (λ r, rr_collection r = toLowerCase coll ∧ rr_token r = token ∧ rr_day r = day ∧ rr_game r = g) (ranked d) in
  let open_ := omap (λ j, match pending j with
      | Some p => match p_ranked p with
                  | Some r => if active (status j) && String.eqb (toLowerCase (collection (guardian j))) (toLowerCase coll)
                                && String.eqb (g_tokenId (guardian j)) token && negb (String.eqb (j_id j) excludeJobId)
                                && String.eqb (ra_day r) day && bool_decide (p_game p = g) then Some (ra_attempt r) else None
                  | None => None
                  end
      | None => None
      end) (all_jobs d) in
  merge_sort Z.le (remove_dups (settled ++ open_)).
(** The shop memory of the token's last shop result, by rowid. *)
Definition memory (d : Db) (coll token : string) : option string :=
  last (filter (λ r, sr_collection r = toLowerCase coll ∧ sr_token r = token ∧ r_game (sr_result r) = shop) (results d))
    ≫= λ r, oc_memory (r_outcome (sr_result r)).

(** ** Writes *)
Definition expired_stop (now : Z) (j : Job) : Job :=
  with_pending None (with_context "0x" (with_error (Some "permission_expired") (with_status stopped now j))).
(** At most 64 rows, the oldest first. *)
Definition expireUnsubmitted (now : Z) (d : Db) : Db :=
  let due := take 64 (merge_sort job_le
    (filter (λ j, (status j = queued ∨ status j = paused) ∧ expiresAt j <= now ∧ unsent j = true) (all_jobs d))) in
  set_jobs (foldr (λ j m, <[j_id j := expired_stop now j]> m) (jobs d) due) d.

Definition LEASE_MS : Z := 120000.
(** The upsert, and whether the row is now the worker's. *)
Definition lease (worker : string) (now : Z) (d : Db) : bool * Db :=
  let row := match lease_row d with
             | Some (w, until) => if (until <=? now) || String.eqb w worker then (worker, now + LEASE_MS) else (w, until)
             | None => (worker, now + LEASE_MS)
             end in
  (String.eqb row.1 worker, set_lease (Some row) d).
Definition release (worker : string) (d : Db) : Db :=
  match lease_row d with
  | Some (w, _) => if String.eqb w worker then set_lease None d else d
  | None => d
  end.

(** What an older owner's job becomes when the guardian has a new epoch. *)
Definition displaced (now : Z) (j : Job) : Job :=
  let j := with_stop j in
  let j := if unsent j then with_pending None (with_context "0x" (with_status stopped now j)) else j in
  with_error (Some "owner_changed") (with_status (status j) now j).

Definition MAX_ACTIVE_PER_OWNER : nat := 3.
Definition MAX_ACTIVE : nat := 256.
Definition json_text (v : jsval) : string := match stringify v with Ok (Some t) => string_of_list_ascii t | _ => "" end.

Section Outings.
Variable sha256 keccak : string → string.
Variable isHash : string → bool.
Variable word : string → Z → Z.
(** viem's [keccak256] of the 32 bytes of a seed. *)
Variable seed_hash : string → string.
Variable resultInputs : Job → string.

Definition fingerprint (owner : string) (s : OutingStart) : string :=
  sha256 (json_text (JArr [JStr (toLowerCase owner); JStr (os_tokenId s); JStr (goal_text (os_goal s)); JStr (locale_text (os_locale s));
                           JStr (choice_text (os_choice s)); JNum (os_admissions s); JStr (toLowerCase (os_context s))])).
Definition resultId (j : Job) : string :=
  keccak (json_text (JArr [JNum (chainId (guardian j)); JStr (toLowerCase (collection (guardian j))); JStr (j_id j); JNum (spent j + 1)])).
Definition guardianTraitsHash (seed : string) : result string :=
  throws negb (isHash seed) with Error "Invalid guardian birth seed"; Ok (seed_hash seed).

Definition same_guardian (g : GuardianSnapshot) (j : Job) : bool :=
  active (status j) && String.eqb (toLowerCase (collection (guardian j))) (toLowerCase (collection g))
  && String.eqb (g_tokenId (guardian j)) (g_tokenId g).
Definition insert (owner : string) (start : OutingStart) (permission : ValidatedPermission) (agent_ : string) (now : Z)
    (g : GuardianSnapshot) : tx Db Job := λ d,
  let hash := fingerprint owner start in
  match jobs d !! os_id start with
  | Some prior => if String.eqb (j_fingerprint prior) hash then Ok (prior, d) else Throw (OutingError "conflict")
  | None =>
      throws negb (String.eqb (toLowerCase (g_owner g)) (toLowerCase owner)) || negb (String.eqb (g_tokenId g) (os_tokenId start))
        with OutingError "owner_changed";
      let? traits_hash := (if g_ruleset g =? ARCADE_RULESET_VERSION then guardianTraitsHash (g_seed g) else Throw (OutingError "guardian_unavailable")) in
      throws negb (String.eqb (g_traitsHash g) traits_hash) with OutingError "guardian_unavailable";
      let? traits := guardianTraits isHash word (g_seed g) in
      let? name := guardianName (IdText (os_tokenId start)) ko in
      let p := {| pf_name := name; pf_color := gt_color traits; pf_temperament := gt_temperament traits; pf_goal := os_goal start;
                  pf_aptitudes := gt_aptitudes traits |} in
      let d := expireUnsubmitted now d in
      let tokenJobs := filter (λ j, same_guardian g j = true) (all_jobs d) in
      throws existsb (λ j, BigInt (g_epoch g) <? BigInt (g_epoch (guardian j))) tokenJobs with OutingError "owner_changed";
      throws existsb (λ j, String.eqb (g_epoch (guardian j)) (g_epoch g)) tokenJobs with OutingError "busy";
      let d := foldl (λ d j, save (displaced now j) d) d tokenJobs in
      let live := filter (λ j, active (status j) = true) (all_jobs d) in
      let own := filter (λ j, toLowerCase (j_owner j) = toLowerCase owner ∧ stopRequested j = false) live in
      throws (MAX_ACTIVE_PER_OWNER <=? length own)%nat || (MAX_ACTIVE <=? length live)%nat with OutingError "busy";
      throws existsb (λ j, String.eqb (j_contextHash j) (vp_contextHash permission)) (all_jobs d) with OutingError "conflict";
      let job := {| j_id := os_id start; j_owner := owner; payer := vp_payer permission; agent := agent_; context := os_context start;
        j_contextHash := vp_contextHash permission; j_fingerprint := hash; characterId := "nft-" ++ os_tokenId start; guardian := g;
        profile := p; locale := os_locale start; choice := os_choice start; admissions := os_admissions start; spent := 0;
        status := queued; createdAt := now; updatedAt := now; expiresAt := vp_expiresAt permission; error := None; stopRequested := false;
        pending := None; j_results := []; shopMemory := memory d (collection g) (g_tokenId g) |} in
      Ok (job, set_jobs (<[os_id start := job]> (jobs d)) d)
  end.

(** ** The ledger of results *)
(** [JSON.stringify] of the two ranked attempts agrees: the same day and attempt, or neither. *)
Definition ledger_refuses (j : Job) (p : Pending) (r : OutingResult) : result bool :=
  let? seed_wrong := match r_ranked r with
    | Some a => let? s := rankedSeed (r_game r) (ra_day a) (ra_attempt a) (g_tokenId (guardian j)) (g_ruleset (guardian j)) in Ok (negb (r_seed r =? s))
    | None => Ok false
    end in
  let o := r_outcome r in
  Ok (seed_wrong || negb (bool_decide (r_game r = p_game p)) || negb (String.eqb (r_id r) (resultId j))
      || negb (bool_decide (oc_game o = r_game r)) || negb (bool_decide (oc_version o = Some (g_ruleset (guardian j))))
      || negb (bool_decide (oc_seed o = Some (r_seed r))) || negb (bool_decide (is_Some (oc_victory o)))
      || match oc_score o with Some s => (s <? 0) || (1000000000 <? s) | None => true end).
(** The row constraints of arcade_guardian_results and arcade_guardian_ranked. *)
Definition result_constraint (row : ResultRow) (r : ResultRow) : bool :=
  String.eqb (sr_id r) (sr_id row) || String.eqb (sr_tx r) (sr_tx row)
  || (String.eqb (sr_outing r) (sr_outing row) && (sr_admission r =? sr_admission row)).
Definition ranked_constraint (row : RankedRow) (r : RankedRow) : bool :=
  String.eqb (rr_id r) (rr_id row)
  || (String.eqb (rr_collection r) (rr_collection row) && String.eqb (rr_token r) (rr_token row)
      && bool_decide (rr_game r = rr_game row) && String.eqb (rr_day r) (rr_day row) && (rr_attempt r =? rr_attempt row)).
Definition ledger_insert (j : Job) (r : OutingResult) : tx Db unit := λ d,
  match pending j with
  | None => Throw (OutingError "result_unavailable")
  | Some p =>
      throws negb (bool_decide (p_tx p = Some (r_tx r))) || negb (r_seed r =? p_gameseed p) || negb (bool_decide (r_ranked r = p_ranked p))
        with OutingError "result_unavailable";
      let? refused := ledger_refuses j p r in
      throws refused with OutingError "result_unavailable";
      let id := toLowerCase (r_id r) in
      let row := {| sr_id := id; sr_token := g_tokenId (guardian j); sr_collection := toLowerCase (collection (guardian j));
        sr_actor := j_owner j; sr_outing := j_id j; sr_admission := spent j + 1; sr_tx := toLowerCase (r_tx r); sr_at := r_at r;
        sr_result := r; sr_epoch := g_epoch (guardian j); sr_ruleset := g_ruleset (guardian j);
        sr_traitsHash := g_traitsHash (guardian j); sr_inputs := keccak (resultInputs j); sr_payer := payer j; sr_attested := None;
        sr_claimed := false |} in
      throws existsb (result_constraint row) (results d) with SQLiteError "arcade_guardian_results";
      let d := {| jobs := jobs d; results := (results d ++ [row])%list; ranked := ranked d; lease_row := lease_row d |} in
      match r_ranked r with
      | None => Ok (tt, d)
      | Some a =>
          let? wk := kstWeek (ra_day a) in
          let rr := {| rr_id := id; rr_collection := toLowerCase (collection (guardian j)); rr_token := g_tokenId (guardian j);
            rr_seed := toLowerCase (g_seed (guardian j)); rr_ruleset := g_ruleset (guardian j); rr_game := r_game r; rr_day := ra_day a;
            rr_week := wk; rr_attempt := ra_attempt a; rr_score := default 0 (oc_score (r_outcome r));
            rr_victory := default false (oc_victory (r_outcome r)); rr_at := r_at r |} in
          throws existsb (ranked_constraint rr) (ranked d) with SQLiteError "arcade_guardian_ranked";
          Ok (tt, {| jobs := jobs d; results := results d; ranked := (ranked d ++ [rr])%list; lease_row := lease_row d |})
      end
  end.

(** The transaction that counts an admission. *)
Definition record_result (jobId : string) (r : OutingResult) (now : Z) : tx Db unit := λ d,
  match jobs d !! jobId with
  | None => Throw (TypeError "null is not an object")
  | Some j =>
      match list_find (λ x, r_id x = r_id r) (j_results j) with
      | Some (_, existing) => if decide (existing = r) then Ok (tt, d) else Throw (OutingError "conflict")
      | None =>
          match ledger_insert j r d with
          | Throw e => Throw e
          | Ok (_, d) =>
              let j := with_error None (with_pending None (with_result r j)) in
              let s := if stopRequested j then stopped else if admissions j <=? spent j then complete else queued in
              let j := with_status s now j in
              let j := match s with complete | stopped => with_context "0x" j | _ => j end in
              Ok (tt, save j d)
          end
      end
  end.
End Outings.
