(* ===== verification/OutingRunner.v ===== *)
(** * The outing runner

    apps/delegated-seller/outings/runner.ts: one tick of the worker that spends an owner's
    permission, the owner's stop and resume, and every interleaving of workers, owners,
    crashes and new outings.  A tick is a process whose segments lie between its awaits (the
    guardian's state, the payment); a segment reads the clock once.

    [simulate], its size in bytes, the payment client and the random seed are arguments, as
    they are in the constructor; [sent] logs every signed header that leaves the worker, with
    the outing and the admission it pays. *)

From Stdlib Require Import ZArith Lia Ascii String.
From stdpp Require Import base gmap strings list sets sorting.
From S2P Require Import Prelude Dates Token Calendar Guardians Ranking Outings.
Open Scope string_scope.
Open Scope Z_scope.

(** A tick waits for the guardian or for the payment; both know the worker's agent address
    and the job as it was read. *)
Inductive Tick := Inspecting (self : string) (j : Job) | Paying (self : string) (j : Job).
Record World := { db : Db; ticks : gmap string Tick; sent : list (string * Z * string) }.
Definition on_db (d : Db) (W : World) : World := {| db := d; ticks := ticks W; sent := sent W |}.
Definition park (w : string) (t : Tick) (W : World) : World := {| db := db W; ticks := <[w := t]> (ticks W); sent := sent W |}.
Definition dispatch (id : string) (n : Z) (h : string) (W : World) : World :=
  {| db := db W; ticks := ticks W; sent := (sent W ++ [(id, n, h)])%list |}.
(** [finally]: the lease is released and the worker is no longer busy. *)
Definition finish (w : string) (W : World) : World :=
  {| db := release w (db W); ticks := delete w (ticks W); sent := sent W |}.
Inductive Action := Stop | Resume.
Definition OUTCOME_BYTES : Z := 16384.

Definition control (self owner id : string) (action : Action) (now : Z) : tx Db unit := λ d,
  match jobs d !! id with
  | None => Throw (OutingError "not_found")
  | Some j =>
      throws negb (String.eqb (toLowerCase (j_owner j)) (toLowerCase owner)) with OutingError "not_found";
      match status j, action with
      | complete, _ | stopped, _ => Ok (tt, d)
      | s, Stop =>
          let j := with_stop j in
          Ok (tt, save (match s with
                        | running => with_status running now j
                        | _ => if unsent j then with_context "0x" (with_status stopped now j) else with_status queued now j
                        end) d)
      | s, Resume =>
          throws negb (String.eqb (agent j) self) && negb (bool_decide (is_Some (tx_of j))) with OutingError "invalid_permission";
          throws unsent j && (expiresAt j <=? now) with OutingError "invalid_permission";
          Ok (tt, save (match s with paused => with_error None (with_status queued now j) | s => with_status s now j end) d)
      end
  end.

(** [pause], on the job as it is now stored. *)
Definition pause (id why : string) (now : Z) (d : Db) : Db :=
  match jobs d !! id with
  | None => d
  | Some j =>
      match status j with
      | complete | stopped => d
      | _ => save (with_error (Some why)
                     (if stopRequested j && unsent j then with_pending None (with_context "0x" (with_status stopped now j))
                      else with_status paused now j)) d
      end
  end.
(** The job [j], as read, ended without an admission. *)
Definition stop_read (why : option string) (j : Job) (now : Z) (d : Db) : Db :=
  save (with_pending None (with_error why (with_context "0x" (with_status stopped now j)))) d.

Section Runner.
Variable sha256 keccak : string → string.
Variable isHash : string → bool.
Variable word : string → Z → Z.
Variable seed_hash : string → string.
Variable resultInputs : Job → string.
(** [runArcadeSimulation]; [None] when it throws. *)
Variable simulate : GameId → Z → Profile → Locale → option string → option Outcome.
Variable outcome_bytes : Outcome → Z.

Definition admission (d : Db) (j : Job) (now random : Z) : result Pending :=
  let game := chooseOutingGame (profile j) (choice j) (r_game <$> j_results j) in
  let? day := kstDay now in
  let taken := rankedAttemptsTaken d (collection (guardian j)) (g_tokenId (guardian j)) day (j_id j) game in
  match list_find (λ n, n ∉ taken) [1; 2; 3] with
  | Some (_, attempt) =>
      let? seed := rankedSeed game day attempt (g_tokenId (guardian j)) ARCADE_RULESET_VERSION in
      Ok {| p_game := game; p_gameseed := seed; p_header := None; p_tx := None; p_ranked := Some {| ra_day := day; ra_attempt := attempt |} |}
  | None => Ok {| p_game := game; p_gameseed := random; p_header := None; p_tx := None; p_ranked := None |}
  end.

(** The [catch] around the payment and the simulation. *)
Definition failed (id : string) (now : Z) (d : Db) : Db :=
  match jobs d !! id with
  | None => d
  | Some j =>
      match status j with
      | complete | stopped => d
      | _ => if unsent j && (stopRequested j || (expiresAt j <=? now))
             then save (with_error (if expiresAt j <=? now then Some "permission_expired" else None)
                          (with_pending None (with_context "0x" (with_status stopped now j)))) d
             else pause id (if tx_of j then "simulation_failed" else "payment_unresolved") now d
      end
  end.

(** From the paid ticket to the result: the stored job is read again. *)
Definition settle (id : string) (now : Z) (d : Db) : Db :=
  match jobs d !! id with
  | Some latest =>
      match pending latest, tx_of latest with
      | Some p, Some t =>
          match simulate (p_game p) (p_gameseed p) (profile latest) (locale latest) (shopMemory latest) with
          | Some o =>
              if OUTCOME_BYTES <? outcome_bytes o then failed id now d
              else
                let r := {| r_id := resultId keccak latest; r_game := p_game p; r_seed := p_gameseed p; r_at := now; r_tx := t;
                            r_outcome := o; r_ranked := p_ranked p |} in
                match record_result keccak resultInputs id r now d with
                | Ok (_, d') => d'
                | Throw _ => failed id now d
                end
          | None => failed id now d
          end
      | _, _ => failed id now d
      end
  | None => d
  end.

(** From the checks of the job to its payment.  The admission of a job that has none may
    throw, which only the [finally] sees. *)
Definition proceed (w self : string) (now random : Z) (j : Job) (W : World) : World :=
  let d := db W in
  if unsent j && match jobs d !! j_id j with Some c => stopRequested c | None => false end then finish w W
  else if negb (g_ruleset (guardian j) =? ARCADE_RULESET_VERSION) then finish w (on_db (pause (j_id j) "ruleset_changed" now d) W)
  else
    match (match pending j with Some p => Ok p | None => admission d j now random end) with
    | Throw _ => finish w W
    | Ok p =>
        let j := with_status running now (with_pending (Some p) j) in
        let d := save j d in
        match p_tx p with
        | Some _ => finish w (on_db (settle (j_id j) now d) W)
        | None =>
            let (mine, d) := lease w now d in
            if negb mine then finish w (on_db d W)
            else
              let W := park w (Paying self j) (on_db d W) in
              match p_header p with Some h => dispatch (j_id j) (spent j + 1) h W | None => W end
        end
    end.

Definition tick (w self : string) (now random : Z) (W : World) : World :=
  match ticks W !! w with
  | Some _ => W
  | None =>
      let (mine, d) := lease w now (db W) in
      if negb mine then finish w (on_db d W)
      else
        let d := expireUnsubmitted now d in
        match next d with
        | None => finish w (on_db d W)
        | Some j =>
            if unsent j && (expiresAt j <=? now) then finish w (on_db (stop_read (Some "permission_expired") j now d) W)
            else if bool_decide (status j = running) then finish w (on_db (pause (j_id j) "payment_unresolved" now d) W)
            else if negb (String.eqb (agent j) self) && negb (bool_decide (is_Some (tx_of j)))
            then finish w (on_db (pause (j_id j) "key_changed" now d) W)
            else if stopRequested j && unsent j then finish w (on_db (save (with_context "0x" (with_status stopped now j)) d) W)
            else if unsent j then park w (Inspecting self j) (on_db d W)
            else proceed w self now random j (on_db d W)
        end
  end.

(** The guardian as the chain reports it, [None] when it could not be read. *)
Definition same_owner (j : Job) (g : GuardianSnapshot) : bool :=
  String.eqb (toLowerCase (g_owner g)) (toLowerCase (j_owner j)) && String.eqb (g_epoch g) (g_epoch (guardian j))
  && String.eqb (toLowerCase (collection g)) (toLowerCase (collection (guardian j))) && String.eqb (g_seed g) (g_seed (guardian j)).
Definition inspected (w : string) (reply : option GuardianSnapshot) (now random : Z) (W : World) : World :=
  match ticks W !! w with
  | Some (Inspecting self j) =>
      match reply with
      | None => finish w (on_db (pause (j_id j) "guardian_unavailable" now (db W)) W)
      | Some g => if same_owner j g then proceed w self now random j W
                  else finish w (on_db (stop_read (Some "owner_changed") j now (db W)) W)
      end
  | _ => W
  end.

(** The payment client hands over a signed header; only a stored one may leave. *)
Definition persist (w header : string) (now : Z) (W : World) : World :=
  match ticks W !! w with
  | Some (Paying self j) =>
      match jobs (db W) !! j_id j with
      | None => W
      | Some c =>
          let (mine, d) := lease w now (db W) in
          if negb mine || negb (bool_decide (status c = running)) || negb (String.eqb (agent c) self) || stopRequested c || (expiresAt c <=? now)
          then on_db d W
          else if match header_of c with Some h => negb (String.eqb h header) | None => false end then on_db d W
          else match pending c with
               | None => on_db d W
               | Some p =>
                   let p := {| p_game := p_game p; p_gameseed := p_gameseed p; p_header := Some header; p_tx := p_tx p; p_ranked := p_ranked p |} in
                   dispatch (j_id c) (spent c + 1) header (on_db (save (with_status (status c) now (with_pending (Some p) c)) d) W)
               end
      end
  | _ => W
  end.

(** The payment ends with a transaction, or it fails. *)
Definition paid (w : string) (transaction : option string) (now : Z) (W : World) : World :=
  match ticks W !! w with
  | Some (Paying _ j) =>
      let d := db W in
      let d := match transaction with
               | None => failed (j_id j) now d
               | Some t =>
                   match jobs d !! j_id j with
                   | None => d
                   | Some c =>
                       match pending c with
                       | None => failed (j_id j) now d
                       | Some p =>
                           let p := {| p_game := p_game p; p_gameseed := p_gameseed p; p_header := p_header p; p_tx := Some t; p_ranked := p_ranked p |} in
                           settle (j_id j) now (save (with_status (status c) now (with_pending (Some p) c)) d)
                       end
                   end
               end in
      finish w (on_db d W)
  | _ => W
  end.
Definition heartbeat (w : string) (now : Z) (W : World) : World :=
  match ticks W !! w with Some _ => on_db (lease w now (db W)).2 W | None => W end.
(** A crash leaves the lease row. *)
Definition crash (w : string) (W : World) : World := {| db := db W; ticks := delete w (ticks W); sent := sent W |}.

(** One step of the service at the instant [now], where [ok] allows it. *)
Inductive step (ok : World → Z → Prop) : World → World → Prop :=
  | step_insert W owner start permission self now g j d :
      ok W now → 1 <= os_admissions start → insert sha256 isHash word seed_hash owner start permission self now g (db W) = Ok (j, d) →
      step ok W (on_db d W)
  | step_control W self owner id action now d :
      ok W now → control self owner id action now (db W) = Ok (tt, d) → step ok W (on_db d W)
  | step_tick W w self now random : ok W now → step ok W (tick w self now random W)
  | step_inspected W w reply now random : ok W now → step ok W (inspected w reply now random W)
  | step_persist W w header now : ok W now → step ok W (persist w header now W)
  | step_paid W w transaction now : ok W now → step ok W (paid w transaction now W)
  | step_heartbeat W w now : ok W now → step ok W (heartbeat w now W)
  | step_crash W w : step ok W (crash w W).
Definition opened : World :=
  {| db := {| jobs := ∅; results := []; ranked := []; lease_row := None |}; ticks := ∅; sent := [] |}.
(** No step comes so late that a live tick's lease has run out. *)
Definition timely (W : World) (now : Z) : Prop :=
  ∀ w u, lease_row (db W) = Some (w, u) → is_Some (ticks W !! w) → now < u.

(** ** Changes that touch no admission *)
(** [quiet]: the change leaves a payment under way alone. *)
Variable quiet : bool.
(** What every change but a payment's leaves of a job. *)
Record kept (c c' : Job) : Prop := {
  ke_id : j_id c' = j_id c; ke_spent : spent c' = spent c; ke_results : j_results c' = j_results c;
  ke_admissions : admissions c' = admissions c;
  ke_pending : pending c' = pending c ∨ (unsent c = true ∧ pending c' = None);
  ke_active : active (status c') = true → active (status c) = true;
  ke_sent : unsent c' = false → active (status c') = true ∨ active (status c) = false;
  ke_wiped : active (status c') = false → context c' = "0x" ∨ (active (status c) = false ∧ context c' = context c);
  ke_quiet : quiet = true → status c = running ∨ pending c = None → status c' = running ∨ pending c' = None }.
Lemma kept_refl c : kept c c.
Proof. split; try done; [by left|destruct (active (status c)); [by left|by right]|intros H; right; done]. Qed.
Lemma unsent_pending c : pending c = None → unsent c = true.
Proof. unfold unsent, header_of, tx_of. by intros ->. Qed.
Lemma unsent_same c c' : pending c' = pending c → unsent c' = unsent c.
Proof. unfold unsent, header_of, tx_of. by intros ->. Qed.
Lemma kept_unsent c c' : kept c c' → unsent c = true → unsent c' = true.
Proof. intros [_ _ _ _ [Hp|[_ Hp]] _ _ _ _] Hu; [by rewrite (unsent_same _ _ Hp)|by apply unsent_pending]. Qed.
Lemma kept_trans a b c : kept a b → kept b c → kept a c.
Proof.
  intros Hab Hbc. pose proof (kept_unsent _ _ Hab) as Hu. destruct Hab, Hbc. split; try congruence; try tauto.
  - destruct ke_pending1 as [E1|[E1 E2]].
    + destruct ke_pending0 as [E0|[E0 E0']]; [left; congruence|right; split; [done|congruence]].
    + destruct ke_pending0 as [E0|[E0 E0']]; [right; split; [by rewrite <- (unsent_same _ _ E0)|done]|by right].
  - intros H. destruct (ke_sent1 H) as [|Hb]; [by left|]. destruct (unsent b) eqn:Eb.
    + exfalso. destruct ke_pending1 as [E1|[_ E1]]; [by rewrite (unsent_same _ _ E1) in H; congruence|].
      apply unsent_pending in E1. congruence.
    + destruct (ke_sent0 eq_refl) as [|]; [congruence|by right].
  - intros H. destruct (ke_wiped1 H) as [|[Hb Hc]]; [by left|]. destruct (ke_wiped0 Hb) as [E|[Ha E]]; [left; congruence|].
    right. split; [done|congruence].
Qed.

(** The tables between two such steps: rows stay, a new row is an outing that has not begun. *)
Definition row_kept (o o' : option Job) : Prop :=
  match o, o' with
  | Some c, Some c' => kept c c'
  | None, None => True
  | None, Some c => spent c = 0 ∧ j_results c = [] ∧ pending c = None ∧ 1 <= admissions c
              ∧ (active (status c) = false → context c = "0x")
  | Some _, None => False
  end.
Record calm (d d' : Db) : Prop := {
  ca_jobs : ∀ id, row_kept (jobs d !! id) (jobs d' !! id);
  ca_results : results d' = results d; ca_ranked : ranked d' = ranked d }.
Lemma outing_calm_refl d : calm d d.
Proof. split; [|done..]. intros id. destruct (jobs d !! id); [apply kept_refl|done]. Qed.
Lemma outing_calm_trans a b c : calm a b → calm b c → calm a c.
Proof.
  intros [Hab ? ?] [Hbc ? ?]. split; [|congruence..]. intros id. specialize (Hab id). specialize (Hbc id).
  destruct (jobs a !! id) as [x|], (jobs b !! id) as [y|], (jobs c !! id) as [z|]; cbn [row_kept] in *; try done.
  - by eapply kept_trans.
  - destruct Hab as (Es & Er & Ep & Ea & Ew), Hbc as [_ Hs Hr Ha Hp Hact _ Hw _]. rewrite Hs, Hr, Ha. split_and!; try done.
    + destruct Hp as [->|[_ ->]]; done.
    + intros Hz. destruct (Hw Hz) as [|[Hy ->]]; [done|by apply Ew].
Qed.
Lemma calm_save c c' d : jobs d !! j_id c' = Some c → kept c c' → calm d (save c' d).
Proof.
  intros Hc Hk. split; [|done..]. intros id. unfold save. cbn [jobs set_jobs].
  destruct (decide (id = j_id c')) as [->|Hne].
  - by rewrite lookup_alter_eq, Hc.
  - rewrite lookup_alter_ne by done. destruct (jobs d !! id); [apply kept_refl|done].
Qed.
Lemma calm_lease d d' r : calm d d' → calm d (set_lease r d').
Proof. intros [? ? ?]. by split. Qed.
Lemma calm_same d d' : jobs d' = jobs d → results d' = results d → ranked d' = ranked d → calm d d'.
Proof. intros Hj Hr Hk. split; [|done..]. intros id. rewrite Hj. destruct (jobs d !! id); [apply kept_refl|done]. Qed.

(** Every change of a stored job below is [kept] by its fields. *)
Ltac keep_fields := split; try done; try (by left); try (by right); try (intros; discriminate); try (intros; by left); try (intros; by right).

(** A table keyed by its jobs' ids. *)
Definition keyed (d : Db) : Prop := ∀ id j, jobs d !! id = Some j → j_id j = id.
Lemma all_jobs_elem d j : keyed d → j ∈ all_jobs d → jobs d !! j_id j = Some j.
Proof.
  intros Hk. unfold all_jobs. intros ([id j'] & -> & Hin)%list_elem_of_fmap. apply elem_of_map_to_list in Hin.
  cbn [snd]. by rewrite (Hk _ _ Hin).
Qed.
Lemma calm_keyed d d' : keyed d → calm d d' → (∀ id j, jobs d !! id = None → jobs d' !! id = Some j → j_id j = id) → keyed d'.
Proof.
  intros Hk [Hj _ _] Hnew id j Hid. specialize (Hj id). rewrite Hid in Hj. destruct (jobs d !! id) as [c|] eqn:Hc; [|by apply Hnew].
  cbn [row_kept] in Hj. rewrite (ke_id _ _ Hj). by apply Hk.
Qed.
(** Writes of [f j] over the rows of jobs read before. *)
Lemma writes_calm (f : Job → Job) (l : list Job) : ∀ d d0, keyed d0 →
  (∀ j, j ∈ l → jobs d0 !! j_id j = Some j ∧ kept j (f j)) →
  (∀ id, jobs d !! id = jobs d0 !! id ∨ ∃ c, jobs d0 !! id = Some c ∧ kept c (f c) ∧ jobs d !! id = Some (f c)) →
  results d = results d0 → ranked d = ranked d0 →
  let d' := set_jobs (foldr (λ j m, <[j_id j := f j]> m) (jobs d) l) d in calm d0 d' ∧ keyed d'.
Proof.
  intros d d0 Hk Hl Hd Hr Hrk. cbn zeta.
  assert (Hall : ∀ id, foldr (λ j m, <[j_id j := f j]> m) (jobs d) l !! id = jobs d0 !! id
    ∨ ∃ c, jobs d0 !! id = Some c ∧ kept c (f c) ∧ foldr (λ j m, <[j_id j := f j]> m) (jobs d) l !! id = Some (f c)).
  { clear Hr Hrk. induction l as [|j l IH]; [apply Hd|]. cbn [foldr]. intros id.
    destruct (Hl j ltac:(by left)) as [Hj Hkept]. destruct (decide (id = j_id j)) as [->|Hne].
    - right. exists j. rewrite lookup_insert_eq. done.
    - rewrite lookup_insert_ne by done. apply IH. intros j' Hj'. apply Hl. by right. }
  assert (Hcalm : calm d0 (set_jobs (foldr (λ j m, <[j_id j := f j]> m) (jobs d) l) d)).
  { split; [|done..]. intros id. cbn [jobs set_jobs]. destruct (Hall id) as [->|(c & Hc & Hkc & ->)].
    - destruct (jobs d0 !! id); [apply kept_refl|done].
    - by rewrite Hc. }
  split; [done|]. apply (calm_keyed d0); [done|done|]. intros id j Hn Hs. cbn [jobs set_jobs] in Hs.
  destruct (Hall id) as [E|(c & Hc & _)]; congruence.
Qed.

Lemma kept_expired now c : unsent c = true → kept c (expired_stop now c).
Proof. intros Hu. keep_fields. Qed.
Lemma expire_calm now d : keyed d → calm d (expireUnsubmitted now d) ∧ keyed (expireUnsubmitted now d).
Proof.
  intros Hk. unfold expireUnsubmitted. apply (writes_calm (expired_stop now)); [done| |by left|done|done].
  intros j Hj. apply taken_elem in Hj. rewrite merge_sort_Permutation, list_elem_of_filter in Hj.
  destruct Hj as [(_ & _ & Hu) Hin]. split; [by apply all_jobs_elem|by apply kept_expired].
Qed.
Lemma kept_displaced now c : kept c (displaced now c).
Proof.
  unfold displaced. assert (Hu : unsent (with_stop c) = unsent c) by done. rewrite Hu. destruct (unsent c) eqn:E.
  - keep_fields.
  - keep_fields. cbn. intros _. destruct (active (status c)); [by left|by right].
Qed.

Lemma displace_calm now d l : keyed d → (∀ j, j ∈ l → jobs d !! j_id j = Some j) →
  calm d (foldl (λ d j, save (displaced now j) d) d l) ∧ keyed (foldl (λ d j, save (displaced now j) d) d l)
  ∧ ∀ id, jobs d !! id = None → jobs (foldl (λ d j, save (displaced now j) d) d l) !! id = None.
Proof.
  intros Hk Hl.
  assert (Hid : ∀ j, j_id (displaced now j) = j_id j) by (intros j; unfold displaced; by destruct (unsent (with_stop j))).
  assert (Hgen : ∀ l e, (∀ j, j ∈ l → jobs d !! j_id j = Some j) →
    (∀ id, jobs e !! id = jobs d !! id ∨ ∃ c, jobs d !! id = Some c ∧ jobs e !! id = Some (displaced now c)) →
    results e = results d → ranked e = ranked d →
    let e' := foldl (λ d j, save (displaced now j) d) e l in
    (∀ id, jobs e' !! id = jobs d !! id ∨ ∃ c, jobs d !! id = Some c ∧ jobs e' !! id = Some (displaced now c))
    ∧ results e' = results d ∧ ranked e' = ranked d).
  { clear l Hl. induction l as [|j l IH]; intros e Hl He Hr Hrk; [done|]. cbn [foldl]. apply IH.
    - intros j' Hj'. apply Hl. by right.
    - intros id. unfold save. cbn [jobs set_jobs]. rewrite Hid. pose proof (Hl j ltac:(by left)) as Hj.
      destruct (decide (id = j_id j)) as [->|Hne].
      + right. exists j. split; [done|]. rewrite lookup_alter_eq. destruct (He (j_id j)) as [->|(c & Hc & ->)]; [by rewrite Hj|done].
      + rewrite lookup_alter_ne by done. apply He.
    - done.
    - done. }
  destruct (Hgen l d Hl ltac:(by left) eq_refl eq_refl) as (Hj & Hr & Hrk).
  assert (Hnone : ∀ id, jobs d !! id = None → jobs (foldl (λ d j, save (displaced now j) d) d l) !! id = None).
  { intros id Hn. destruct (Hj id) as [->|(c & Hc & _)]; [done|congruence]. }
  assert (Hcalm : calm d (foldl (λ d j, save (displaced now j) d) d l)).
  { split; [|done..]. intros id. destruct (Hj id) as [->|(c & Hc & ->)].
    - destruct (jobs d !! id); [apply kept_refl|done].
    - rewrite Hc. apply kept_displaced. }
  split; [done|]. split; [|done]. apply (calm_keyed d); [done|done|]. intros id j Hn Hs. rewrite Hnone in Hs; done.
Qed.

Lemma insert_calm owner start permission self now g d j d' : keyed d → 1 <= os_admissions start →
  insert sha256 isHash word seed_hash owner start permission self now g d = Ok (j, d') → calm d d' ∧ keyed d' ∧ lease_row d' = lease_row d.
Proof.
  intros Hk Hadm. unfold insert. destruct (jobs d !! os_id start) as [prior|] eqn:Hp.
  { destruct (String.eqb _ _); [|done]. intros [= <- <-]. split; [apply outing_calm_refl|done]. }
  intros H. repeat (apply rbind_ok in H as (? & _ & H)). injection H as <- <-.
  destruct (expire_calm now d Hk) as [Hc1 Hk1]. set (d1 := expireUnsubmitted now d) in *.
  destruct (displace_calm now d1 (filter (λ j0, same_guardian g j0 = true) (all_jobs d1)) Hk1) as (Hc2 & Hk2 & Hn2).
  { intros c Hc. apply list_elem_of_filter in Hc as [_ Hc]. by apply all_jobs_elem. }
  set (d2 := foldl _ _ _) in *.
  assert (Hn : jobs d2 !! os_id start = None).
  { apply Hn2. destruct Hc1 as [Hj _ _]. specialize (Hj (os_id start)). rewrite Hp in Hj.
    unfold d1, expireUnsubmitted. cbn [jobs set_jobs]. apply eq_None_not_Some. intros [c Hc].
    assert (Hall : ∀ l, (∀ x, x ∈ l → is_Some (jobs d !! j_id x)) →
      foldr (λ j m, <[j_id j := expired_stop now j]> m) (jobs d) l !! os_id start = None).
    { intros l. induction l as [|y l IH]; intros Hl; [done|]. cbn [foldr]. rewrite lookup_insert_ne; [apply IH; intros z Hz; apply Hl; by right|].
      cbn. intros E. destruct (Hl y ltac:(by left)) as [z Hz]. congruence. }
    rewrite Hall in Hc; [done|]. intros y Hy. apply taken_elem in Hy. rewrite merge_sort_Permutation, list_elem_of_filter in Hy.
    destruct Hy as [_ Hy]. rewrite (all_jobs_elem d y Hk Hy). done. }
  assert (Hlease : lease_row d2 = lease_row d).
  { unfold d2. assert (Hl : ∀ l e, lease_row (foldl (λ d j, save (displaced now j) d) e l) = lease_row e) by (intros l; induction l as [|y l IH]; intros e; [done|]; cbn [foldl]; by rewrite IH).
    by rewrite Hl. }
  split; [|split; [|exact Hlease]].
  - apply (outing_calm_trans _ d2); [by eapply outing_calm_trans|]. split; [|done..]. intros id. cbn [jobs set_jobs].
    destruct (decide (id = os_id start)) as [->|Hne].
    + rewrite lookup_insert_eq, Hn. cbn. split_and!; try done.
    + rewrite lookup_insert_ne by done. destruct (jobs d2 !! id); [apply kept_refl|done].
  - intros id c Hc. cbn [jobs set_jobs] in Hc. destruct (decide (id = os_id start)) as [->|Hne].
    + rewrite lookup_insert_eq in Hc. by injection Hc as <-.
    + rewrite lookup_insert_ne in Hc by done. by apply Hk2.
Qed.

Lemma save_keyed c d : keyed d → keyed (save c d).
Proof.
  intros Hk id j. unfold save. cbn [jobs set_jobs]. destruct (decide (id = j_id c)) as [->|Hne].
  - rewrite lookup_alter_eq. destruct (jobs d !! j_id c); [|done]. by intros [= <-].
  - rewrite lookup_alter_ne by done. apply Hk.
Qed.
Lemma save_lease c d : lease_row (save c d) = lease_row d.
Proof. done. Qed.

(** A job stopped before anything was signed. *)
Lemma kept_wiped c c' : j_id c' = j_id c → spent c' = spent c → j_results c' = j_results c → admissions c' = admissions c →
  unsent c = true → pending c' = pending c ∨ pending c' = None → status c' = stopped → context c' = "0x" →
  (quiet = true → status c = running → pending c' = None) → kept c c'.
Proof.
  intros. assert (Hu : unsent c' = true).
  { destruct H4 as [E|E]; [by rewrite (unsent_same _ _ E)|by apply unsent_pending]. }
  split; try done; try (by left).
  - destruct H4; [by left|by right].
  - rewrite H5. done.
  - rewrite Hu. done.
  - intros Hq [Hr|Hn]; [right; by apply H7|]. right. destruct H4; congruence.
Qed.
(** A job that stays or becomes active with all it has. *)
Lemma kept_same c c' : j_id c' = j_id c → spent c' = spent c → j_results c' = j_results c → admissions c' = admissions c →
  pending c' = pending c → active (status c) = true → active (status c') = true →
  (quiet = true → status c = running → status c' = running) → kept c c'.
Proof.
  intros. split; try done; try (by left); [intros Hw; congruence|]. intros Hq [Hr|Hn]; [left; auto|right; congruence].
Qed.

Ltac by_fields Hs :=
  first [solve [apply kept_same; rewrite ?Hs; first [done | cbn; intros; congruence]]
        |solve [apply kept_wiped; try done; auto; cbn; intros; congruence]].
Lemma control_calm self owner id action now d d' : keyed d → control self owner id action now d = Ok (tt, d') → calm d d' ∧ keyed d' ∧ lease_row d' = lease_row d.
Proof.
  intros Hk. unfold control. destruct (jobs d !! id) as [c|] eqn:Hc; [|done]. intros H. apply rbind_ok in H as (_ & _ & H).
  pose proof (Hk _ _ Hc) as Hid.
  assert (Hgo : ∀ c', j_id c' = j_id c → kept c c' → calm d (save c' d) ∧ keyed (save c' d) ∧ lease_row (save c' d) = lease_row d).
  { intros c' E Hkept. split; [|split; [by apply save_keyed|done]]. eapply calm_save; [|exact Hkept]. rewrite E, Hid. done. }
  assert (Hsame : Ok (tt, d) = Ok (tt, d') → calm d d' ∧ keyed d' ∧ lease_row d' = lease_row d) by (intros [= <-]; split; [apply outing_calm_refl|done]).
  destruct (status c) eqn:Hs, action; try (by apply Hsame);
    repeat (apply rbind_ok in H as (_ & _ & H)); injection H as <-; try destruct (unsent (with_stop c)) eqn:Hu;
    apply Hgo; try done; by_fields Hs.
Qed.

Lemma pause_calm id why now d : quiet = false → keyed d → calm d (pause id why now d) ∧ keyed (pause id why now d) ∧ lease_row (pause id why now d) = lease_row d.
Proof.
  intros Hq Hk. unfold pause. destruct (jobs d !! id) as [c|] eqn:Hc; [|split; [apply outing_calm_refl|done]]. pose proof (Hk _ _ Hc) as Hid.
  destruct (status c) eqn:Hs; try (split; [apply outing_calm_refl|done]); (split; [|split; [by apply save_keyed|done]]).
  all: destruct (stopRequested c && unsent c) eqn:Hu; [apply andb_true_iff in Hu as [_ Hu]|].
  all: eapply calm_save; [cbn; rewrite Hid; exact Hc|].
  all: by_fields Hs.
Qed.
Lemma failed_calm id now d : quiet = false → keyed d → calm d (failed id now d) ∧ keyed (failed id now d) ∧ lease_row (failed id now d) = lease_row d.
Proof.
  intros Hq Hk. unfold failed. destruct (jobs d !! id) as [c|] eqn:Hc; [|split; [apply outing_calm_refl|done]]. pose proof (Hk _ _ Hc) as Hid.
  destruct (status c) eqn:Hs; try (split; [apply outing_calm_refl|done]).
  all: destruct (unsent c && _) eqn:Hu; [apply andb_true_iff in Hu as [Hu _]|by apply pause_calm].
  all: split; [|split; [by apply save_keyed|done]]; eapply calm_save; [cbn; rewrite Hid; exact Hc|].
  all: by_fields Hs.
Qed.
End Runner.
