(* ===== verification/OutingSafety.v ===== *)
(** * Outings spend at most what was delegated

    What every reachable state of the outing service satisfies, while workers act within
    their lease: one signed header per admission, at most the delegated admissions, one
    ledger row and one transaction for each that is counted, no permission kept after the
    end, and at most three ranked rounds of a game per guardian and day.  The last section
    runs a worker that outlives its lease. *)

From Stdlib Require Import ZArith Lia Ascii String.
From stdpp Require Import base gmap strings list sets sorting relations.
From S2P Require Import Prelude Dates Token Calendar Guardians Ranking Outings OutingRunner.
Open Scope string_scope.
Open Scope Z_scope.

(** An attempt of a pending admission is one of the day's three. *)
Definition fair (p : option Pending) : Prop :=
  match p ≫= p_ranked with Some a => 1 <= ra_attempt a <= 3 | None => True end.
Record job_ok (c : Job) : Prop := {
  jo_spent : spent c = Z.of_nat (length (j_results c));
  jo_bound : spent c <= admissions c;
  jo_active : active (status c) = true → spent c < admissions c;
  jo_sent : unsent c = false → active (status c) = true;
  jo_wiped : active (status c) = false → context c = "0x";
  jo_fair : fair (pending c) }.
Definition rows_of (id : string) (d : Db) : list ResultRow := filter (λ r, sr_outing r = id) (results d).

(** The invariant of the tables and of the headers that left. *)
Record sound (d : Db) (s : list (string * Z * string)) : Prop := {
  so_keyed : keyed d;
  so_jobs : ∀ id c, jobs d !! id = Some c → job_ok c;
  so_ledger : ∀ id, sr_admission <$> rows_of id d = match jobs d !! id with Some c => seqZ 1 (spent c) | None => [] end;
  so_txs : NoDup (sr_tx <$> results d);
  so_ranks : NoDup (rank_key <$> ranked d);
  so_three : Forall (λ r, 1 <= rr_attempt r <= 3) (ranked d);
  so_log : ∀ id n h, (id, n, h) ∈ s → ∃ c, jobs d !! id = Some c ∧ 1 <= n <= spent c + 1 ∧ (n = spent c + 1 → header_of c = Some h);
  so_one : ∀ id n h h', (id, n, h) ∈ s → (id, n, h') ∈ s → h = h' }.

Lemma header_not_unsent c h : header_of c = Some h → unsent c = false.
Proof. unfold unsent. by intros ->. Qed.
Lemma kept_header q c c' h : kept q c c' → header_of c = Some h → header_of c' = Some h.
Proof.
  intros Hk Hh. destruct (ke_pending _ _ _ Hk) as [E|[E _]].
  - unfold header_of in *. by rewrite E.
  - apply header_not_unsent in Hh. congruence.
Qed.
Lemma kept_ok q c c' : kept q c c' → job_ok c → job_ok c'.
Proof.
  intros [? Hs Hr Ha Hp Hact Hsent Hw _] [Jspent Jbound Jact Jsent Jwiped Jfair]. split.
  - congruence.
  - congruence.
  - intros H. rewrite Hs, Ha. auto.
  - intros H. destruct (Hsent H) as [|Hi]; [done|]. destruct Hp as [E|[_ E]].
    + rewrite (unsent_same _ _ E) in H. apply Jsent in H. congruence.
    + apply unsent_pending in E. congruence.
  - intros H. destruct (Hw H) as [|[Hi ->]]; auto.
  - destruct Hp as [->|[_ ->]]; done.
Qed.

Lemma calm_sound q d d' s : sound d s → calm q d d' → keyed d' → sound d' s.
Proof.
  intros [Hk Hj Hl Ht Hrk H3 Hlog Hone] [Cj Cr Ck] Hk'. split; try done; try congruence.
  - intros id c Hc. specialize (Cj id). rewrite Hc in Cj. destruct (jobs d !! id) as [c0|] eqn:E.
    + eapply kept_ok; [exact Cj|by eapply Hj].
    + destruct Cj as (Es & Er & Ep & Ea & Ew).
      split; rewrite ?Es, ?Er; try done; try lia; [by rewrite unsent_pending|by rewrite Ep].
  - intros id. unfold rows_of in *. rewrite Cr, (Hl id). specialize (Cj id).
    destruct (jobs d !! id) as [c|], (jobs d' !! id) as [c'|]; cbn [row_kept] in Cj; try done.
    + by rewrite (ke_spent _ _ _ Cj).
    + destruct Cj as (-> & _). done.
  - intros id n h Hin. destruct (Hlog _ _ _ Hin) as (c & Hc & Hn & Hh). specialize (Cj id). rewrite Hc in Cj.
    destruct (jobs d' !! id) as [c'|]; [|done]. cbn [row_kept] in Cj. exists c'. rewrite (ke_spent _ _ _ Cj).
    split_and!; [done|lia|lia|]. intros E. eapply kept_header; eauto.
Qed.
Lemma lease_sound l d s : sound d s → sound (set_lease l d) s.
Proof. intros Hs. apply (calm_sound true d); [done|by apply calm_lease, outing_calm_refl|]. apply Hs. Qed.

(** A stored job replaced by one with the same count, that loses no header. *)
Record replaces (c c' : Job) : Prop := {
  re_spent : spent c' = spent c; re_results : j_results c' = j_results c;
  re_admissions : admissions c' = admissions c; re_header : ∀ h, header_of c = Some h → header_of c' = Some h;
  re_active : active (status c') = true → spent c < admissions c;
  re_sent : unsent c' = false → active (status c') = true;
  re_wiped : active (status c') = false → context c' = "0x"; re_fair : fair (pending c') }.
Lemma replace_sound d s c c' : sound d s → jobs d !! j_id c' = Some c → replaces c c' → sound (save c' d) s.
Proof.
  intros [Hk Hj Hl Ht Hrk H3 Hlog Hone] Hc [Es Er Ea Eh Eact Esent Ew Ef].
  assert (Hlook : ∀ id, jobs (save c' d) !! id = if decide (id = j_id c') then Some c' else jobs d !! id).
  { intros id. unfold save. cbn [jobs set_jobs]. case_decide as E; [subst; by rewrite lookup_alter_eq, Hc|by rewrite lookup_alter_ne]. }
  split; try done.
  - by apply save_keyed.
  - intros id x. rewrite Hlook. case_decide; [|apply Hj]. intros [= <-]. destruct (Hj _ _ Hc).
    split; try done; try congruence. rewrite Es, Ea. auto.
  - intros id. change (rows_of id (save c' d)) with (rows_of id d). rewrite Hl, Hlook. case_decide; [|done]. subst. by rewrite Hc, Es.
  - intros id n h Hin. destruct (Hlog _ _ _ Hin) as (x & Hx & Hn & Hh). rewrite Hlook. case_decide as E.
    + subst. rewrite Hc in Hx. injection Hx as <-. exists c'. rewrite Es. split_and!; [done|lia|lia|]. auto.
    + exists x. done.
Qed.
Lemma dispatch_sound d s id c h : sound d s → jobs d !! id = Some c → header_of c = Some h → sound d (s ++ [(id, spent c + 1, h)])%list.
Proof.
  intros [Hk Hj Hl Ht Hrk H3 Hlog Hone] Hc Hh. split; try done.
  - intros i n k [Hin|[= -> -> ->]%list_elem_of_singleton]%elem_of_app; [by apply Hlog|]. exists c.
    destruct (Hj _ _ Hc). split_and!; [done|lia|lia|done].
  - assert (Hnew : ∀ n k, (id, n, k) ∈ s → n = spent c + 1 → k = h).
    { intros n k Hin ->. destruct (Hlog _ _ _ Hin) as (x & Hx & _ & Hhx). specialize (Hhx ltac:(congruence)). congruence. }
    intros i n k k' [H1|[= -> -> ->]%list_elem_of_singleton]%elem_of_app [H2|E2%list_elem_of_singleton]%elem_of_app.
    + by eapply Hone.
    + injection E2 as -> -> ->. by eapply Hnew.
    + symmetry. by eapply Hnew.
    + by injection E2 as ->.
Qed.

Section Safety.
Variable sha256 keccak : string → string.
Variable isHash : string → bool.
Variable word : string → Z → Z.
Variable seed_hash : string → string.
Variable resultInputs : Job → string.
Variable simulate : GameId → Z → Profile → Locale → option string → option Outcome.
Variable outcome_bytes : Outcome → Z.
Local Notation settle := (settle keccak resultInputs simulate outcome_bytes).
Local Notation proceed := (proceed keccak resultInputs simulate outcome_bytes).
Local Notation tick := (tick keccak resultInputs simulate outcome_bytes).
Local Notation inspected := (inspected keccak resultInputs simulate outcome_bytes).
Local Notation paid := (paid keccak resultInputs simulate outcome_bytes).
Local Notation ledger_insert := (ledger_insert keccak resultInputs).
Local Notation record_result := (record_result keccak resultInputs).
Local Notation step := (step sha256 keccak isHash word seed_hash resultInputs simulate outcome_bytes).

(** What the ledger adds for a paid admission: the next row of the outing, unique in its
    transaction, and at most one ranked row under a key of its own. *)
Record ledger_adds (c : Job) (p : Pending) (t : string) (d d' : Db) : Prop := {
  la_jobs : jobs d' = jobs d; la_lease : lease_row d' = lease_row d;
  la_rows : ∃ row, results d' = (results d ++ [row])%list ∧ sr_outing row = j_id c ∧ sr_admission row = spent c + 1
              ∧ sr_tx row = toLowerCase t ∧ sr_tx row ∉ (sr_tx <$> results d);
  la_ranked : ranked d' = ranked d ∨ ∃ row a, ranked d' = (ranked d ++ [row])%list ∧ p_ranked p = Some a
              ∧ rr_attempt row = ra_attempt a ∧ rank_key row ∉ (rank_key <$> ranked d) }.
Lemma ledger_insert_adds c r d d' : ledger_insert c r d = Ok (tt, d') →
  ∃ p, pending c = Some p ∧ p_tx p = Some (r_tx r) ∧ ledger_adds c p (r_tx r) d d'.
Proof.
  unfold Outings.ledger_insert. destruct (pending c) as [p|] eqn:Hp; [|done]. intros H. exists p.
  apply rbind_ok in H as (? & Hg%throw_when_ok & H). apply rbind_ok in H as (refused & _ & H).
  apply rbind_ok in H as (_ & _ & H). apply rbind_ok in H as (? & Hu%throw_when_ok & H).
  rewrite !orb_false_iff, !negb_false_iff, !bool_decide_eq_true in Hg. destruct Hg as [[Ht _] Hr].
  split; [done|]. split; [done|].
  assert (Hfresh : toLowerCase (r_tx r) ∉ (sr_tx <$> results d)).
  { intros (row & Etx & Hrow)%list_elem_of_fmap. eapply existsb_none in Hu; [|exact Hrow]. unfold result_constraint in Hu. cbn in Hu.
    rewrite !orb_false_iff in Hu. destruct Hu as [[_ Hu] _]. rewrite <- Etx, String.eqb_refl in Hu. done. }
  destruct (r_ranked r) as [a|].
  - apply rbind_ok in H as (wk & _ & H). apply rbind_ok in H as (? & Hk%throw_when_ok & H). injection H as <-.
    split; [done|done|eexists; split; [done|]; done|]. right. eexists _, a. split_and!; [done|done|done|].
    intros (row & Ekey & Hrow)%list_elem_of_fmap. cbn [ranked] in Hrow. eapply existsb_none in Hk; [|exact Hrow]. unfold ranked_constraint in Hk. cbn in Hk.
    unfold rank_key in Ekey. cbn in Ekey. injection Ekey as E1 E2 E3 E4 E5. rewrite <- E1, <- E2, <- E3, <- E4, <- E5 in Hk.
    rewrite !String.eqb_refl, Z.eqb_refl, bool_decide_eq_true_2, !orb_true_r in Hk by done. done.
  - injection H as <-. split; [done|done|eexists; split; [done|]; done|by left].
Qed.

(** The stored job as [record_result] leaves it. *)
Definition counted (r : OutingResult) (now : Z) (j : Job) : Job :=
  let j := with_error None (with_pending None (with_result r j)) in
  let s := if stopRequested j then stopped else if admissions j <=? spent j then complete else queued in
  let j := with_status s now j in
  match s with complete | stopped => with_context "0x" j | _ => j end.
Lemma counted_ok r now c : job_ok c → spent c < admissions c →
  job_ok (counted r now c) ∧ j_id (counted r now c) = j_id c ∧ spent (counted r now c) = spent c + 1.
Proof.
  intros [Js _ _ _ _ _] Hlt. unfold counted.
  assert (Hn : Z.of_nat (length (j_results c ++ [r])%list) = spent c + 1) by (rewrite length_app; cbn; lia).
  destruct (stopRequested _); [|destruct (_ <=? _) eqn:E];
    (split; [|split; [done|exact Hn]]); split; cbn in *; try done; try lia.
Qed.
Lemma record_sound d d' s id c r now : sound d s → jobs d !! id = Some c →
  record_result id r now d = Ok (tt, d') → sound d' s ∧ lease_row d' = lease_row d.
Proof.
  intros Hs Hc. unfold Outings.record_result. rewrite Hc. destruct (list_find _ _) as [[? existing]|].
  { case_decide; [|done]. by intros [= <-]. }
  destruct (ledger_insert c r d) as [[[] d1]|] eqn:Hi; [|done].
  apply ledger_insert_adds in Hi as (p & Hp & Ht & [Aj Al (row & Ar & Aid & Aad & Atx & Afresh) Ark]).
  fold (counted r now c). intros [= <-]. destruct Hs as [Hk Hj Hl Htx Hrk H3 Hlog Hone].
  pose proof (Hj _ _ Hc) as Hok. pose proof (Hk _ _ Hc) as Hid.
  assert (Hlt : spent c < admissions c).
  { destruct Hok. apply jo_active0, jo_sent0. unfold unsent, tx_of, header_of. rewrite Hp. cbn. rewrite Ht. by destruct (p_header p). }
  destruct (counted_ok r now c Hok Hlt) as (Hok' & Hid' & Hsp'). set (c' := counted r now c) in *.
  assert (Hlook : ∀ i, jobs (save c' d1) !! i = if decide (i = id) then Some c' else jobs d !! i).
  { intros i. unfold save. cbn [jobs set_jobs]. rewrite Hid', Hid, Aj.
    case_decide as E; [subst; by rewrite lookup_alter_eq, Hc|by rewrite lookup_alter_ne]. }
  split; [|done]. split.
  - intros i x. rewrite Hlook. case_decide as E; [intros [= <-]; congruence|apply Hk].
  - intros i x. rewrite Hlook. case_decide as E; [by intros [= <-]|apply Hj].
  - intros i. unfold rows_of. cbn [results save set_jobs]. rewrite Ar, filter_app, fmap_app, Hlook. fold (rows_of i d). rewrite (Hl i), filter_cons.
    rewrite Aid, Hid. destruct (decide (i = id)) as [->|Hne].
    + rewrite Hc, decide_True by done. cbn. rewrite Aad, Hsp'.
      replace (seqZ 1 (spent c + 1)) with (seqZ 1 (spent c) ++ seqZ (1 + spent c) 1)%list by (destruct Hok; rewrite <- seqZ_app; [done|lia|lia]).
      f_equal. rewrite (Z.add_comm 1), seqZ_cons by lia. done.
    + rewrite decide_False by done. cbn. by rewrite app_nil_r.
  - cbn [results save set_jobs]. rewrite Ar, fmap_app. by apply NoDup_snoc.
  - cbn [ranked save set_jobs]. destruct Ark as [->|(k & a & -> & _ & _ & Hf)]; [done|]. rewrite fmap_app. by apply NoDup_snoc.
  - cbn [ranked save set_jobs]. destruct Ark as [->|(k & a & -> & Ha & Hat & _)]; [done|]. apply Forall_app. split; [done|].
    apply Forall_singleton. rewrite Hat. destruct Hok. unfold fair in jo_fair0. rewrite Hp in jo_fair0. cbn in jo_fair0. by rewrite Ha in jo_fair0.
  - intros i n h Hin. destruct (Hlog _ _ _ Hin) as (x & Hx & Hn & Hh). rewrite Hlook. case_decide as E; [|by exists x].
    subst. rewrite Hc in Hx. injection Hx as <-. exists c'. rewrite Hsp'. split_and!; [done|lia|lia|lia].
  - done.
Qed.
Lemma failed_sound d s id now : sound d s → sound (failed id now d) s ∧ lease_row (failed id now d) = lease_row d.
Proof. intros Hs. destruct (failed_calm false id now d eq_refl (so_keyed _ _ Hs)) as (? & ? & ?). split; [by eapply calm_sound|done]. Qed.
Lemma pause_sound d s id why now : sound d s → sound (pause id why now d) s ∧ lease_row (pause id why now d) = lease_row d.
Proof. intros Hs. destruct (pause_calm false id why now d eq_refl (so_keyed _ _ Hs)) as (? & ? & ?). split; [by eapply calm_sound|done]. Qed.
Lemma settle_sound d s id now : sound d s → sound (settle id now d) s ∧ lease_row (settle id now d) = lease_row d.
Proof.
  intros Hs. unfold OutingRunner.settle. destruct (jobs d !! id) as [c|] eqn:Hc; [|done].
  destruct (pending c) as [p|]; [|by apply failed_sound]. destruct (tx_of c) as [t|]; [|by apply failed_sound].
  destruct (simulate _ _ _ _ _) as [o|]; [|by apply failed_sound]. destruct (_ <? _); [by apply failed_sound|].
  destruct (record_result _ _ _ d) as [[[] d']|] eqn:Hr; [|by apply failed_sound]. by eapply record_sound.
Qed.

(** ** Ticks *)
(** What a tick that waits knows of its job's row. *)
Record agrees (c j : Job) : Prop := {
  ag_spent : spent j = spent c; ag_results : j_results j = j_results c; ag_admissions : admissions j = admissions c;
  ag_header : ∀ h, header_of c = Some h → header_of j = Some h; ag_room : spent j < admissions j; ag_fair : fair (pending j) }.
Definition tick_ok (d : Db) (t : Tick) : Prop :=
  match t with
  | Inspecting _ j => unsent j = true ∧ ∃ c, jobs d !! j_id j = Some c ∧ unsent c = true ∧ agrees c j
  | Paying _ j => ∃ c, jobs d !! j_id j = Some c ∧ (status c = running ∨ pending c = None)
  end.
Record inv (W : World) : Prop := {
  in_sound : sound (db W) (sent W);
  in_live : ∀ w t, ticks W !! w = Some t → (∃ u, lease_row (db W) = Some (w, u)) ∧ tick_ok (db W) t }.
(** No other worker is in a tick. *)
Definition alone (w : string) (W : World) : Prop := ∀ w' t, ticks W !! w' = Some t → w' = w.

Lemma tick_ok_calm d d' t : calm true d d' → tick_ok d t → tick_ok d' t.
Proof.
  intros [Cj _ _]. destruct t as [self j|self j]; cbn [tick_ok].
  - intros (Hu & c & Hc & Huc & [A1 A2 A3 A4 A5 A6]). split; [done|]. specialize (Cj (j_id j)). rewrite Hc in Cj.
    destruct (jobs d' !! j_id j) as [c'|]; [|done]. cbn [row_kept] in Cj. exists c'. split; [done|].
    pose proof (kept_unsent _ _ _ Cj Huc) as Hu'. split; [done|]. destruct Cj. split; try congruence.
    intros h Hh. apply header_not_unsent in Hh. congruence.
  - intros (c & Hc & Hr). specialize (Cj (j_id j)). rewrite Hc in Cj. destruct (jobs d' !! j_id j) as [c'|]; [|done].
    exists c'. split; [done|]. by apply (ke_quiet _ _ _ Cj).
Qed.
Lemma inv_calm d W : inv W → calm true (db W) d → keyed d → lease_row d = lease_row (db W) → inv (on_db d W).
Proof.
  intros [Hs Hl] Hc Hk Hr. split; [by eapply calm_sound|]. intros w t Ht. cbn [db on_db]. rewrite Hr.
  destruct (Hl w t Ht) as [? Hok]. split; [done|]. by eapply tick_ok_calm.
Qed.
Lemma release_sound w d s : sound d s → sound (release w d) s.
Proof. intros Hs. unfold release. destruct (lease_row d) as [[w' u]|]; [|done]. destruct (String.eqb _ _); [by apply lease_sound|done]. Qed.
Lemma finish_inv w W : alone w W → sound (db W) (sent W) → inv (finish w W).
Proof.
  intros Ha Hs. split; [by apply release_sound|]. intros w' t. cbn [ticks finish]. intros [Hne Ht]%lookup_delete_Some.
  apply Ha in Ht. congruence.
Qed.
Lemma park_inv w t u W : alone w W → sound (db W) (sent W) → lease_row (db W) = Some (w, u) → tick_ok (db W) t → inv (park w t W).
Proof.
  intros Ha Hs Hr Ht. split; [done|]. intros w' t'. cbn [ticks park db]. destruct (decide (w' = w)) as [->|Hne].
  - rewrite lookup_insert_eq. intros [= <-]. eauto.
  - rewrite lookup_insert_ne by done. intros Hw. apply Ha in Hw. done.
Qed.
Lemma dispatch_inv W id c h : inv W → jobs (db W) !! id = Some c → header_of c = Some h → inv (dispatch id (spent c + 1) h W).
Proof. intros [Hs Hl] Hc Hh. split; [by apply dispatch_sound|done]. Qed.
Lemma live_alone w t W : inv W → ticks W !! w = Some t → alone w W.
Proof.
  intros [_ Hl] Ht w' t' Ht'. destruct (Hl _ _ Ht) as [[u Hu] _], (Hl _ _ Ht') as [[u' Hu'] _]. congruence.
Qed.

Lemma lease_mine w now d b d' : lease w now d = (b, d') →
  ∃ l, d' = set_lease (Some l) d ∧ (if b then l.1 = w else l.1 ≠ w ∧ lease_row d = Some l).
Proof.
  unfold lease. intros [= <- <-]. eexists. split; [done|]. destruct (lease_row d) as [[w' u]|]; [|cbn; by rewrite String.eqb_refl].
  destruct ((u <=? now) || String.eqb w' w) eqn:E; cbn; [by rewrite String.eqb_refl|].
  apply orb_false_iff in E as [_ E]. rewrite E. split; [|done]. by apply String.eqb_neq.
Qed.
Lemma lease_owned w u now d : lease_row d = Some (w, u) → lease w now d = (true, set_lease (Some (w, now + LEASE_MS)) d).
Proof. intros Hr. unfold lease. rewrite Hr, String.eqb_refl, orb_true_r. cbn. by rewrite String.eqb_refl. Qed.

Lemma admission_fair d j now random p : admission d j now random = Ok p → fair (Some p).
Proof.
  unfold admission. intros H. apply rbind_ok in H as (day & _ & H). destruct (list_find _ _) as [[i a]|] eqn:Hf.
  - apply rbind_ok in H as (seed & _ & H). injection H as <-. cbn. apply list_find_Some in Hf as (Hf & _).
    apply list_elem_of_lookup_2 in Hf. set_unfold. lia.
  - by injection H as <-.
Qed.
Lemma proceed_inv w self now random j u c W : alone w W → sound (db W) (sent W) → lease_row (db W) = Some (w, u) →
  jobs (db W) !! j_id j = Some c → agrees c j → inv (proceed w self now random j W).
Proof.
  intros Ha Hs Hr Hc [A1 A2 A3 A4 A5 A6]. unfold OutingRunner.proceed.
  destruct (_ && _); [by apply finish_inv|]. destruct (negb _).
  { apply finish_inv; [done|]. by apply pause_sound. }
  destruct (match pending j with Some p => Ok p | None => _ end) as [p|] eqn:Hp; [|by apply finish_inv].
  assert (Hpp : (∀ h, header_of j = Some h → p_header p = Some h) ∧ fair (Some p)).
  { unfold header_of. destruct (pending j) as [q|]; [injection Hp as ->; done|]. split; [done|]. by eapply admission_fair. }
  destruct Hpp as [Hph Hfair]. set (j1 := with_status running now (with_pending (Some p) j)).
  assert (Hs1 : sound (save j1 (db W)) (sent W)).
  { eapply replace_sound; [done|exact Hc|]. split; cbn; try done; [by intros h Hh; apply Hph, A4|lia]. }
  assert (Hc1 : jobs (save j1 (db W)) !! j_id j = Some j1).
  { unfold save. cbn [jobs set_jobs]. change (j_id j1) with (j_id j). by rewrite lookup_alter_eq, Hc. }
  destruct (p_tx p) as [t|]; [apply finish_inv; [done|by apply settle_sound]|].
  rewrite (lease_owned w u) by done. cbn [negb].
  assert (Hpark : inv (park w (Paying self j1) (on_db (set_lease (Some (w, now + LEASE_MS)) (save j1 (db W))) W))).
  { eapply park_inv; [done|by apply lease_sound|done|]. exists j1. split; [exact Hc1|by left]. }
  destruct (p_header p) as [h|] eqn:Hh; [|exact Hpark].
  apply (dispatch_inv _ (j_id j1) j1); [exact Hpark|exact Hc1|exact Hh].
Qed.

Lemma next_some d j : keyed d → next d = Some j → jobs d !! j_id j = Some j ∧ active (status j) = true.
Proof.
  intros Hk. unfold next. intros Hh. assert (Hin : j ∈ filter (λ j, status j = running ∨ status j = queued) (all_jobs d)).
  { rewrite <- (merge_sort_Permutation job_le). destruct (merge_sort _ _); [done|]. injection Hh as ->. by left. }
  apply list_elem_of_filter in Hin as [Hst Hin]. split; [by apply all_jobs_elem|]. by destruct Hst as [-> | ->].
Qed.
Lemma stopped_sound c c' d s : sound d s → jobs d !! j_id c' = Some c → unsent c = true →
  spent c' = spent c → j_results c' = j_results c → admissions c' = admissions c → status c' = stopped → context c' = "0x" →
  unsent c' = true → fair (pending c') → sound (save c' d) s.
Proof.
  intros Hs Hc Hu E1 E2 E3 E4 E5 Hu' Hf. eapply replace_sound; [done|exact Hc|]. split; try done.
  - intros h Hh. apply header_not_unsent in Hh. congruence.
  - by rewrite E4.
  - by rewrite Hu'.
Qed.
Lemma agrees_refl d s c : sound d s → jobs d !! j_id c = Some c → active (status c) = true → agrees c c.
Proof. intros Hs Hc Ha. destruct (so_jobs _ _ Hs _ _ Hc). split; auto. Qed.

Lemma tick_inv w self now random W : inv W → timely W now → inv (tick w self now random W).
Proof.
  intros Hinv Ht. pose proof Hinv as [Hs Hl]. unfold OutingRunner.tick. destruct (ticks W !! w) eqn:Hw; [done|].
  destruct (lease w now (db W)) as [mine d] eqn:Hlease. pose proof Hlease as (l & -> & Hmine)%lease_mine.
  assert (Hother : ∀ w' t, ticks W !! w' = Some t → mine = false).
  { intros w' t Hw'. destruct (Hl _ _ Hw') as [[u Hu] _]. specialize (Ht w' u Hu (mk_is_Some _ _ Hw')).
    assert (w' ≠ w) by congruence. unfold lease in Hlease. rewrite Hu in Hlease.
    rewrite (proj2 (Z.leb_gt _ _)), (proj2 (String.eqb_neq w' w)) in Hlease by done. cbn in Hlease.
    rewrite (proj2 (String.eqb_neq w' w)) in Hlease by done. by injection Hlease. }
  destruct mine; cbn [negb].
  2: { destruct Hmine as [Hne Hrow]. split; [apply release_sound; cbn; by apply lease_sound|].
       intros w' t. cbn [ticks finish on_db db]. intros [_ Hw']%lookup_delete_Some. destruct (Hl _ _ Hw') as [[u Hu] Hok].
       assert (Hrel : release w (set_lease (Some l) (db W)) = set_lease (Some l) (db W)).
       { unfold release. cbn. destruct l as [lw lu]. cbn in Hne. by rewrite (proj2 (String.eqb_neq _ _)). }
       rewrite Hrel. split; [exists u; cbn; congruence|]. destruct t; exact Hok. }
  assert (Ha : alone w W) by (intros w' t Hw'; specialize (Hother _ _ Hw'); done).
  set (d0 := set_lease (Some l) (db W)) in *. assert (Hs0 : sound d0 (sent W)) by by apply lease_sound.
  destruct (expire_calm false now d0 (so_keyed _ _ Hs0)) as [Hce Hke].
  set (d := expireUnsubmitted now d0) in *. assert (Hsd : sound d (sent W)) by by eapply calm_sound.
  assert (Hrow : lease_row d = Some (w, l.2)) by (cbn; rewrite <- Hmine; by destruct l).
  destruct (next d) as [j|] eqn:Hn; [|by apply finish_inv].
  destruct (next_some d j Hke Hn) as [Hj Hact]. pose proof (so_jobs _ _ Hsd _ _ Hj) as Hok.
  pose proof (agrees_refl _ _ _ Hsd Hj Hact) as Hag.
  assert (Hfin : ∀ e, sound e (sent W) → inv (finish w (on_db e W))) by (intros e He; by apply finish_inv).
  destruct (unsent j && (expiresAt j <=? now)) eqn:E1.
  { apply andb_true_iff in E1 as [Hu _]. apply Hfin. by eapply (stopped_sound j). }
  destruct (bool_decide (status j = running)); [apply Hfin; by apply pause_sound|].
  destruct (negb (String.eqb (agent j) self) && _); [apply Hfin; by apply pause_sound|].
  destruct (stopRequested j && unsent j) eqn:E2.
  { apply andb_true_iff in E2 as [_ Hu]. apply Hfin. eapply (stopped_sound j); try done. by destruct Hok. }
  destruct (unsent j) eqn:Hu.
  - eapply park_inv; [done|done|exact Hrow|]. split; [done|]. by exists j.
  - by eapply (proceed_inv _ _ _ _ _ l.2 j).
Qed.
Lemma inspected_inv w reply now random W : inv W → inv (inspected w reply now random W).
Proof.
  intros Hinv. unfold OutingRunner.inspected. destruct (ticks W !! w) as [[self j|]|] eqn:Hw; try done.
  pose proof (live_alone _ _ _ Hinv Hw) as Ha. destruct Hinv as [Hs Hl]. destruct (Hl _ _ Hw) as [[u Hu] (Huj & c & Hc & Huc & Hag)].
  destruct reply as [g|]; [|apply finish_inv; [done|by apply pause_sound]].
  destruct (same_owner j g); [by eapply proceed_inv|]. apply finish_inv; [done|].
  destruct Hag. by eapply (stopped_sound c).
Qed.
Lemma relet_inv w now t W : inv W → ticks W !! w = Some t → inv (on_db (set_lease (Some (w, now + LEASE_MS)) (db W)) W).
Proof.
  intros Hinv Hw. pose proof (live_alone _ _ _ Hinv Hw) as Ha. destruct Hinv as [Hs Hl]. split; [by apply lease_sound|].
  intros w' t' Hw'. rewrite (Ha _ _ Hw'). split; [by eexists|]. destruct (Hl _ _ Hw') as [_ Hok]. destruct t'; exact Hok.
Qed.
Lemma heartbeat_inv w now W : inv W → inv (heartbeat w now W).
Proof.
  intros Hinv. unfold heartbeat. destruct (ticks W !! w) as [t|] eqn:Hw; [|done]. destruct (in_live _ Hinv _ _ Hw) as [[u Hu] _].
  rewrite (lease_owned w u) by done. by eapply relet_inv.
Qed.
Lemma persist_inv w header now W : inv W → inv (persist w header now W).
Proof.
  intros Hinv. unfold persist. destruct (ticks W !! w) as [[|self j]|] eqn:Hw; try done.
  destruct (jobs (db W) !! j_id j) as [c|] eqn:Hc; [|done]. destruct (in_live _ Hinv _ _ Hw) as [[u Hu] _].
  rewrite (lease_owned w u) by done. pose proof (relet_inv w now _ W Hinv Hw) as Hre. cbn [negb orb].
  destruct (_ || (expiresAt c <=? now)) eqn:Hg; [done|]. rewrite !orb_false_iff, negb_false_iff, bool_decide_eq_true in Hg.
  destruct Hg as [[[Hrun _] _] _]. destruct (match header_of c with Some _ => _ | None => _ end) eqn:Hh; [done|].
  destruct (pending c) as [p|] eqn:Hp; [|done]. destruct Hinv as [Hs _]. pose proof (so_keyed _ _ Hs _ _ Hc) as Hid.
  pose proof (so_jobs _ _ Hs _ _ Hc) as Hok. set (c' := with_status _ _ _).
  assert (Hc' : jobs (save c' (set_lease (Some (w, now + LEASE_MS)) (db W))) !! j_id c = Some c').
  { unfold save. cbn [jobs set_jobs set_lease]. change (j_id c') with (j_id c). by rewrite lookup_alter_eq, Hid, Hc. }
  assert (Hhead : ∀ h, header_of c = Some h → h = header).
  { intros h Eh. rewrite Eh in Hh. apply negb_false_iff in Hh. by apply String.eqb_eq. }
  apply (dispatch_inv _ (j_id c) c'); [|exact Hc'|done].
  assert (Hs' : sound (save c' (set_lease (Some (w, now + LEASE_MS)) (db W))) (sent W)).
  { eapply replace_sound; [by apply lease_sound|cbn [jobs set_lease]; change (j_id c') with (j_id c); rewrite Hid; exact Hc|].
    destruct Hok. split; cbn; try done; try (rewrite Hrun; done).
    - intros h Eh. by rewrite (Hhead h Eh).
    - unfold fair in *. by rewrite Hp in jo_fair0. }
  split; [exact Hs'|]. intros w' t' Hw'. destruct Hre as [_ Hl]. destruct (Hl _ _ Hw') as [Hrow _]. split; [exact Hrow|].
  assert (w' = w) as -> by (destruct Hrow as [u' E]; cbn in E; congruence). cbn in Hw'. rewrite Hw in Hw'. injection Hw' as <-.
  exists c'. split; [by rewrite Hid in Hc'|]. by left.
Qed.
Lemma paid_inv w transaction now W : inv W → inv (paid w transaction now W).
Proof.
  intros Hinv. unfold OutingRunner.paid. destruct (ticks W !! w) as [[|self j]|] eqn:Hw; try done.
  pose proof (live_alone _ _ _ Hinv Hw) as Ha. destruct Hinv as [Hs Hl]. destruct (Hl _ _ Hw) as [_ (c & Hc & Hst)].
  apply finish_inv; [done|]. cbn [db sent on_db]. destruct transaction as [t|]; [|by apply failed_sound]. rewrite Hc.
  destruct (pending c) as [p|] eqn:Hp; [|by apply failed_sound]. destruct Hst as [Hst|]; [|done].
  pose proof (so_keyed _ _ Hs _ _ Hc) as Hid. destruct (so_jobs _ _ Hs _ _ Hc).
  apply settle_sound. eapply replace_sound; [done|cbn; rewrite Hid; exact Hc|]. split; cbn; try done; try (rewrite Hst; done).
  - unfold header_of. by rewrite Hp.
  - unfold fair in *. by rewrite Hp in jo_fair0.
Qed.
Lemma crash_inv w W : inv W → inv (crash w W).
Proof. intros [Hs Hl]. split; [done|]. intros w' t. cbn [ticks crash]. intros [_ Hw']%lookup_delete_Some. by apply Hl. Qed.
Lemma step_inv W W' : step timely W W' → inv W → inv W'.
Proof.
  intros Hstep Hinv. destruct Hstep.
  - destruct (insert_calm sha256 keccak isHash word seed_hash resultInputs true _ _ _ _ _ _ _ _ _ (so_keyed _ _ (in_sound _ Hinv)) H0 H1) as (? & ? & ?). by apply inv_calm.
  - destruct (control_calm true _ _ _ _ _ _ _ (so_keyed _ _ (in_sound _ Hinv)) H0) as (? & ? & ?). by apply inv_calm.
  - by apply tick_inv.
  - by apply inspected_inv.
  - by apply persist_inv.
  - by apply paid_inv.
  - by apply heartbeat_inv.
  - by apply crash_inv.
Qed.
Lemma opened_inv : inv opened.
Proof.
  split; [|by intros w t Ht]. split; try done; try (by constructor).
  - by intros id n h Hin%elem_of_nil.
  - by intros id n h h' Hin%elem_of_nil.
Qed.
Lemma run_inv W : rtc (step timely) opened W → inv W.
Proof. apply (rtc_ind_r (R:=step timely) inv opened); [apply opened_inv|]. intros V V' _ Hstep Hi. by eapply step_inv. Qed.

(** The signed headers of an outing that left, one per admission. *)
Definition signed (id : string) (W : World) : list (string * Z * string) := remove_dups (filter (λ e, e.1.1 = id) (sent W)).

(** C29: An agent never signs twice for an admission: whatever the interleaving of workers
    that act within their lease, owners, crashes and payment answers, the headers that leave
    for an outing are one per admission, for admissions the owner delegated, and so at most
    as many as were delegated. *)
Theorem outing_signs_once W id c : rtc (step timely) opened W → jobs (db W) !! id = Some c →
  (∀ n h, (id, n, h) ∈ sent W → 1 <= n <= admissions c)
  ∧ (∀ n h h', (id, n, h) ∈ sent W → (id, n, h') ∈ sent W → h = h')
  ∧ Z.of_nat (length (signed id W)) <= admissions c.
Proof.
  intros Hrun Hc. destruct (in_sound _ (run_inv _ Hrun)) as [_ Hj _ _ _ _ Hlog Hone]. destruct (Hj _ _ Hc) as [Hs Hb Ha Hu _ _].
  assert (Hin : ∀ n h, (id, n, h) ∈ sent W → 1 <= n <= admissions c).
  { intros n h H. destruct (Hlog _ _ _ H) as (x & Hx & Hn & Hh). rewrite Hc in Hx. injection Hx as <-. split; [lia|].
    destruct (decide (n = spent c + 1)) as [E|]; [|lia]. pose proof (Ha (Hu (header_not_unsent _ _ (Hh E)))). lia. }
  split_and!; [done|intros n h h'; apply Hone|].
  assert (Hnd : NoDup ((λ e, e.1.2) <$> signed id W)).
  { apply NoDup_fmap_2_strong; [|apply NoDup_remove_dups]. intros [[i n] h] [[i' n'] h'] H H' E. cbn in E. subst n'.
    unfold signed in H, H'. rewrite elem_of_remove_dups, list_elem_of_filter in H, H'. cbn in H, H'. destruct H as [-> H], H' as [-> H'].
    by rewrite (Hone _ _ _ _ H H'). }
  assert (Hsub : ((λ e, e.1.2) <$> signed id W) ⊆+ seqZ 1 (admissions c)).
  { apply NoDup_submseteq; [done|]. intros n ([[i n'] h] & -> & H)%list_elem_of_fmap. unfold signed in H.
    rewrite elem_of_remove_dups, list_elem_of_filter in H. cbn in *. destruct H as [-> H]. apply elem_of_seqZ. pose proof (Hin _ _ H). lia. }
  apply submseteq_length in Hsub. rewrite length_fmap, length_seqZ in Hsub. lia.
Qed.
(** C31: A guardian has at most three ranked rounds of a game on a day, over all its outings
    and owners. *)
Theorem three_ranked_rounds_a_day W coll token g day : rtc (step timely) opened W →
  (length (filter (λ r, rr_collection r = coll ∧ rr_token r = token ∧ rr_game r = g ∧ rr_day r = day) (ranked (db W))) <= 3)%nat.
Proof.
  intros Hrun. destruct (in_sound _ (run_inv _ Hrun)) as [_ _ _ _ Hk H3 _ _]. set (l := filter _ _).
  assert (Hnd : NoDup (rr_attempt <$> l)).
  { apply NoDup_fmap_2_strong; [|apply NoDup_filter; by eapply NoDup_fmap_1].
    intros x y Hx Hy E. unfold l in *. rewrite list_elem_of_filter in Hx, Hy. destruct Hx as [(<- & <- & <- & <-) Hx], Hy as [(E1 & E2 & E3 & E4) Hy].
    apply list_elem_of_lookup in Hx as [i Hi], Hy as [k Hy]. assert (i = k) as ->; [|congruence].
    eapply (NoDup_lookup (rank_key <$> ranked (db W))); [done|by rewrite list_lookup_fmap, Hi|].
    rewrite list_lookup_fmap, Hy. cbn. unfold rank_key. by rewrite E, E1, E2, E3, E4. }
  assert (Hsub : (rr_attempt <$> l) ⊆+ [1; 2; 3]).
  { apply NoDup_submseteq; [done|]. intros n (r & -> & Hr)%list_elem_of_fmap. unfold l in Hr. apply list_elem_of_filter in Hr as [_ Hr].
    rewrite Forall_forall in H3. specialize (H3 _ Hr). cbn in H3. assert (rr_attempt r = 1 ∨ rr_attempt r = 2 ∨ rr_attempt r = 3) by lia. set_solver. }
  apply submseteq_length in Hsub. by rewrite length_fmap in Hsub.
Qed.
End Safety.

(** ** Runs *)
Section Runs.
Definition same_text (s : string) : string := s.
Definition any_hash (s : string) : bool := true.
Definition zero_word (s : string) (i : Z) : Z := 0.
Definition no_inputs (j : Job) : string := "".
Definition plain_outcome (g : GameId) (seed : Z) (p : Profile) (l : Locale) (m : option string) : option Outcome :=
  Some {| oc_game := g; oc_score := Some 10; oc_version := Some ARCADE_RULESET_VERSION; oc_seed := Some seed; oc_victory := Some true;
          oc_memory := None; oc_rest := "" |}.
Definition small (o : Outcome) : Z := 100.
Local Notation run_tick := (tick same_text no_inputs plain_outcome small).
Local Notation run_inspected := (inspected same_text no_inputs plain_outcome small).
Local Notation run_paid := (paid same_text no_inputs plain_outcome small).
Local Notation run_step := (step same_text same_text any_hash zero_word same_text no_inputs plain_outcome small).
Definition guardian7 : GuardianSnapshot :=
  {| chainId := 11155111; collection := "0xC0"; g_tokenId := "7"; g_owner := "0xaa"; g_epoch := "1"; g_seed := "0x5eed"; g_traitsHash := "0x5eed";
     g_ruleset := ARCADE_RULESET_VERSION |}.
Definition two_rounds : OutingStart :=
  {| os_id := "o1"; os_tokenId := "7"; os_goal := goal_explore; os_locale := ko; os_choice := None; os_admissions := 2; os_context := "0xfeed" |}.
Definition noon : Z := 1780000000000.
Definition inserted : result (Job * Db) :=
  insert same_text any_hash zero_word same_text "0xAA" two_rounds {| vp_payer := "0xAA"; vp_expiresAt := noon + 86400000; vp_contextHash := "0xc" |}
    "0xa9" noon guardian7 (db opened).
Definition begun : World := match inserted with Ok (_, d) => on_db d opened | Throw _ => opened end.

Definition timely_b (W : World) (now : Z) : bool :=
  match lease_row (db W) with
  | Some (w, u) => match ticks W !! w with Some _ => now <? u | None => true end
  | None => true
  end.
Lemma timely_b_ok W now : timely_b W now = true → timely W now.
Proof.
  unfold timely_b, timely. intros H w u Hr [t Ht]. rewrite Hr, Ht in H. by apply Z.ltb_lt.
Qed.

(** One round played and counted, a second one signed. *)
Definition round (w header : string) (now : Z) (W : World) : World :=
  persist w header (now + 2) (run_inspected w (Some guardian7) (now + 1) 0 (run_tick w "0xa9" now 0 W)).
Definition twice : World := round "w1" "h2" (noon + 2000) (run_paid "w1" (Some "0xT1") (noon + 1000) (round "w1" "h1" noon begun)).
(** The first worker waits for the guardian so long that a second one plays the round. *)
Definition late : World :=
  let W := run_tick "w1" "0xa9" noon 0 begun in
  let W := run_paid "w2" (Some "0xT1") (noon + 201000) (round "w2" "h1" (noon + 200000) W) in
  let W := run_inspected "w1" (Some guardian7) (noon + 202000) 0 W in
  run_paid "w1" (Some "0xT2") (noon + 204000) (persist "w1" "h2" (noon + 203000) W).
Definition shown (W : World) := ((λ j, (spent j, status j, error j, header_of j, tx_of j)) <$> jobs (db W) !! "o1", sent W,
  (λ r, (sr_admission r, sr_tx r)) <$> results (db W)).

Ltac in_time := apply timely_b_ok; vm_compute; reflexivity.
Lemma begun_step (ok : World → Z → Prop) : ok opened noon → run_step ok opened begun.
Proof.
  intros Hok. unfold begun. destruct inserted as [[j d]|] eqn:E; [|vm_compute in E; discriminate].
  eapply step_insert; [exact Hok| |exact E]. cbn. lia.
Qed.
Lemma round_run (ok : World → Z → Prop) w header now W :
  ok W now → ok (run_tick w "0xa9" now 0 W) (now + 1) → ok (run_inspected w (Some guardian7) (now + 1) 0 (run_tick w "0xa9" now 0 W)) (now + 2) →
  rtc (run_step ok) W (round w header now W).
Proof.
  intros H1 H2 H3. eapply rtc_l; [by apply step_tick|]. eapply rtc_l; [by apply step_inspected|]. apply rtc_once. by apply step_persist.
Qed.
Lemma twice_run : rtc (run_step timely) opened twice.
Proof.
  eapply rtc_l; [apply begun_step; in_time|]. etransitivity; [apply (round_run _ "w1" "h1" noon); in_time|].
  eapply rtc_l; [apply (step_paid _ _ _ _ _ _ _ _ _ _ "w1" (Some "0xT1") (noon + 1000)); in_time|]. apply (round_run _ "w1" "h2"); in_time.
Qed.
Lemma two_jobs : ∃ c, jobs (db twice) !! "o1" = Some c ∧ spent c = 1 ∧ admissions c = 2.
Proof.
  destruct (jobs (db twice) !! "o1") as [c|] eqn:E; [|vm_compute in E; discriminate]. exists c. split; [done|].
  assert (H : (λ c, (spent c, admissions c)) <$> jobs (db twice) !! "o1" = Some (1, 2)) by (vm_compute; reflexivity).
  rewrite E in H. cbn in H. apply (inj Some) in H. split; congruence.
Qed.
Lemma outing_signs_once_witness : ∃ c, Z.of_nat (length (signed "o1" twice)) <= admissions c ∧ length (signed "o1" twice) = 2%nat.
Proof.
  destruct two_jobs as (c & Hc & _). exists c. split; [|vm_compute; reflexivity].
  exact (proj2 (proj2 (outing_signs_once _ _ _ _ _ _ _ _ twice "o1" c twice_run Hc))).
Defined.
Lemma three_ranked_rounds_a_day_witness :
  (length (filter (λ r, rr_collection r = "0xc0" ∧ rr_token r = "7" ∧ rr_game r = race ∧ rr_day r = "2026-05-29") (ranked (db twice))) <= 3)%nat
  ∧ length (ranked (db twice)) = 1%nat.
Proof. split; [exact (three_ranked_rounds_a_day _ _ _ _ _ _ _ _ twice "0xc0" "7" race "2026-05-29" twice_run)|vm_compute; reflexivity]. Defined.

(** Theorem: A worker that outlives its lease while it waits for the guardian writes back the
    job as it read it: the admission another worker has counted is forgotten, and a second
    header is signed, sent and paid for it; its result cannot enter the ledger. *)
Theorem late_worker_forgets_admission :
  rtc (run_step (λ _ _, True)) opened late
  ∧ sent late = [("o1", 1, "h1"); ("o1", 1, "h2")]
  ∧ sr_admission <$> results (db late) = [1]
  ∧ (λ j, (spent j, status j, tx_of j)) <$> jobs (db late) !! "o1" = Some (0, paused, Some "0xT2").
Proof.
  split; [|vm_compute; done].
  eapply rtc_l; [by apply begun_step|]. eapply rtc_l; [by apply (step_tick _ _ _ _ _ _ _ _ _ _ "w1" "0xa9" noon 0)|].
  etransitivity; [by apply (round_run _ "w2" "h1" (noon + 200000))|].
  eapply rtc_l; [by apply (step_paid _ _ _ _ _ _ _ _ _ _ "w2" (Some "0xT1") (noon + 201000))|].
  eapply rtc_l; [by apply (step_inspected _ _ _ _ _ _ _ _ _ _ "w1" (Some guardian7) (noon + 202000) 0)|].
  eapply rtc_l; [by apply (step_persist _ _ _ _ _ _ _ _ _ _ "w1" "h2" (noon + 203000))|].
  apply rtc_once. by apply (step_paid _ _ _ _ _ _ _ _ _ _ "w1" (Some "0xT2") (noon + 204000)).
Qed.
End Runs.
