(* ===== verification/Boards.v ===== *)
(** * Leaderboards

    apps/delegated-seller/ranking/board.ts: the boards read from ranked rows.  An SQL query is
    its relational meaning on the list of rows: a window function numbers a partition by an
    order, and [before] is that order.  Where a query does not order its groups, they come
    here by first appearance. *)

From Stdlib Require Import ZArith Lia Ascii String.
From stdpp Require Import base gmap strings list sets sorting.
From S2P Require Import Prelude Dates Token Budget Calendar Guardians Ranking Teams Season Outings.
Open Scope string_scope.
Open Scope Z_scope.

(** ** Orders *)
Definition Order (A : Type) : Type := A → A → comparison.
Definition asc {A} (f : A → Z) : Order A := λ a b, f a ?= f b.
Definition desc {A} (f : A → Z) : Order A := λ a b, f b ?= f a.
Definition asc_text {A} (f : A → string) : Order A := λ a b, String.compare (f a) (f b).
Definition then_ {A} (o p : Order A) : Order A := λ a b, match o a b with Eq => p a b | c => c end.
Definition before {A} (o : Order A) (a b : A) : bool := match o a b with Lt => true | _ => false end.
Definition not_after {A} (o : Order A) (a b : A) : Prop := o a b ≠ Gt.
#[export] Instance not_after_dec {A} (o : Order A) : RelDecision (not_after o).
Proof. intros a b. unfold not_after. apply _. Defined.
(** How many rows of the partition of [r] come before it: [ROW_NUMBER() - 1], when the order
    has no ties in a partition, and [RANK() - 1] always. *)
Definition ahead_of {A} (same : A → A → bool) (o : Order A) (l : list A) (r : A) : Z :=
  Z.of_nat (length (filter (λ s, same s r && before o s r = true) l)).
Definition everyone {A} (_ _ : A) : bool := true.
(** MAX of a text column. *)
Definition max_text (l : list string) : string :=
  match l with [] => "" | s :: l => foldl (λ a b, if String.ltb a b then b else a) s l end.

(** ** Rows *)
Record RankingRow := { rw_rank : Z; rw_token : string; rw_seed : string; rw_score : Z; rw_days : option Z; rw_streak : option Z }.
#[export] Instance rrow_eq_dec : EqDecision RankingRow.
Proof. solve_decision. Defined.
Definition plain_row (rank : Z) (token seed : string) (score : Z) : RankingRow :=
  {| rw_rank := rank; rw_token := token; rw_seed := seed; rw_score := score; rw_days := None; rw_streak := None |}.

(** A guardian's best first: the highest score, the earliest of its settlements, its attempt. *)
Definition best_first : Order RankedRow := then_ (desc rr_score) (then_ (asc rr_at) (asc rr_attempt)).
Definition by_token (a b : RankedRow) : bool := String.eqb (rr_token a) (rr_token b).
Definition by_token_day (a b : RankedRow) : bool := by_token a b && String.eqb (rr_day a) (rr_day b).
Definition by_token_game_day (a b : RankedRow) : bool := by_token_day a b && bool_decide (rr_game a = rr_game b).
(** [WHERE n=1] of each partition. *)
Definition firsts (same : RankedRow → RankedRow → bool) (l : list RankedRow) : list RankedRow :=
  filter (λ r, ahead_of same best_first l r = 0) l.
(** The board order of a day: score, then who reached it first, then the lower guardian. *)
Definition day_order : Order RankedRow := then_ (desc rr_score) (then_ (asc rr_at) (asc (λ r, Number_id (rr_token r)))).
Definition DAY_BOARD (rows : list RankedRow) (coll : string) (ruleset : Z) (game : GameId) (day : string) : list RankingRow :=
  let mine := filter (λ r, rr_collection r = coll ∧ rr_ruleset r = ruleset ∧ rr_game r = game ∧ rr_day r = day) rows in
  imap (λ i r, plain_row (Z.of_nat i + 1) (rr_token r) (rr_seed r) (rr_score r)) (merge_sort (not_after day_order) (firsts by_token mine)).

(** A sum per guardian. *)
Record WeekTotal := { to_token : string; to_seed : string; to_score : Z; to_reached : Z }.
Definition total_of (l : list RankedRow) (token : string) : WeekTotal :=
  let own := filter (λ r, rr_token r = token) l in
  {| to_token := token; to_seed := max_text (rr_seed <$> own); to_score := foldr (λ r s, rr_score r + s) 0 own;
     to_reached := foldr (λ r s, Z.max (rr_at r) s) 0 own |}.
Definition WEEKLY_COUNTED_DAYS : Z := 5.
Definition total_order : Order WeekTotal := then_ (desc to_score) (then_ (asc to_reached) (asc (λ t, Number_id (to_token t)))).
Definition week_rows (rows : list RankedRow) (coll : string) (ruleset : Z) (game : GameId) (week : string) (cutoff : Z) : list RankedRow :=
  filter (λ r, rr_collection r = coll ∧ rr_ruleset r = ruleset ∧ rr_game r = game ∧ rr_week r = week ∧ rr_at r < cutoff) rows.
Definition counted_days (l : list RankedRow) : list RankedRow :=
  let daily := firsts by_token_day l in
  filter (λ r, ahead_of by_token (then_ (desc rr_score) (asc_text rr_day)) daily r < WEEKLY_COUNTED_DAYS) daily.
Definition WEEK_BOARD (rows : list RankedRow) (coll : string) (ruleset : Z) (game : GameId) (week : string) (cutoff : Z) : list RankingRow :=
  let counted := counted_days (week_rows rows coll ruleset game week cutoff) in
  imap (λ i t, plain_row (Z.of_nat i + 1) (to_token t) (to_seed t) (to_score t))
    (merge_sort (not_after total_order) (total_of counted <$> remove_dups (rr_token <$> counted))).

Definition DEVOTION_DAYS : Z := 28.
Definition DEVOTION_BOARD (rows : list RankedRow) (coll from to : string) : list RankingRow :=
  let mine := filter (λ r, rr_collection r = coll ∧ String.leb from (rr_day r) = true ∧ String.leb (rr_day r) to = true) rows in
  let days := (λ token, let own := filter (λ r, rr_token r = token) mine in
                 {| to_token := token; to_seed := max_text (rr_seed <$> own); to_score := Z.of_nat (length (remove_dups (rr_day <$> own))); to_reached := 0 |})
              <$> remove_dups (rr_token <$> mine) in
  let ranked := (λ t, plain_row (ahead_of everyone (desc to_score) days t + 1) (to_token t) (to_seed t) (to_score t)) <$> days in
  merge_sort (not_after (then_ (asc rw_rank) (asc (λ r, Number_id (rw_token r))))) ranked.

(** MAX over the rows, [None] for none. *)
Definition max_ruleset (l : list RankedRow) : option Z :=
  match l with [] => None | r :: l => Some (foldr (λ r m, Z.max (rr_ruleset r) m) (rr_ruleset r) l) end.
Definition WEEK_RULESET (rows : list RankedRow) (coll week : string) (cutoff : Z) : option Z :=
  max_ruleset (filter (λ r, rr_collection r = coll ∧ rr_week r = week ∧ rr_at r < cutoff) rows).
Definition weekBoard (rows : list RankedRow) (collection : string) (game : GameId) (week : string) (at_ : Z) : result (Z * list RankingRow) :=
  let c := toLowerCase collection in
  let? cutoff := weekCutoff week in
  let? today := kstDay at_ in
  let? this := kstWeek today in
  let ruleset := if String.ltb week this then default ARCADE_RULESET_VERSION (WEEK_RULESET rows c week cutoff) else ARCADE_RULESET_VERSION in
  Ok (ruleset, WEEK_BOARD rows c ruleset game week cutoff).

(** ** Season points *)
(** [(strftime('%s', week, '+8 days') - 32400) * 1000]; NULL for no day, which no row is before. *)
Definition settled_in_time (r : RankedRow) : bool :=
  match (let? next := addDays (rr_week r) 8 in dayStart next) with
  | Ok start => rr_at r <? start - 32400 * 1000
  | Throw _ => false
  end.
Record PointTotals := { pt_token : string; pt_seed : string; pt_points : Z; pt_before : Z; pt_today : Z; pt_days : list string }.
(** A guardian's points of a day. *)
Record DayPoints := { dp_token : string; dp_seed : string; dp_day : string; dp_points : Z }.
Definition day_ruleset (l : list RankedRow) (game : GameId) (day : string) : option Z :=
  max_ruleset (filter (λ r, rr_game r = game ∧ rr_day r = day) l).
(** The place of [r] among the best of its game's day. *)
Definition placed_rank (best : list RankedRow) (r : RankedRow) : Z :=
  ahead_of (λ a b, bool_decide (rr_game a = rr_game b) && String.eqb (rr_day a) (rr_day b)) day_order best r + 1.
Definition sum_points_of (l : list DayPoints) : Z := foldr (λ p s, dp_points p + s) 0 l.
Definition season_rows (rows : list RankedRow) (coll from to : string) : list RankedRow :=
  let mine := filter (λ r, rr_collection r = coll ∧ String.leb from (rr_day r) = true ∧ String.leb (rr_day r) to = true
                           ∧ settled_in_time r = true) rows in
  firsts by_token_game_day (filter (λ r, day_ruleset mine (rr_game r) (rr_day r) = Some (rr_ruleset r)) mine).
Definition daily_points (best : list RankedRow) : list DayPoints :=
  (λ td, let own := filter (λ r, rr_token r = td.1 ∧ rr_day r = td.2) best in
     {| dp_token := td.1; dp_seed := max_text (rr_seed <$> own); dp_day := td.2;
        dp_points := foldr (λ r s, seasonDayPoints (placed_rank best r) + s) 0 own |})
  <$> remove_dups ((λ r, (rr_token r, rr_day r)) <$> best).
Definition SEASON_TOTALS (rows : list RankedRow) (coll from to yesterday today : string) : list PointTotals :=
  let daily := daily_points (season_rows rows coll from to) in
  (λ token, let own := filter (λ p, dp_token p = token) daily in
     {| pt_token := token; pt_seed := max_text (dp_seed <$> own); pt_points := sum_points_of own;
        pt_before := sum_points_of (filter (λ p, String.leb (dp_day p) yesterday = true) own);
        pt_today := sum_points_of (filter (λ p, dp_day p = today) own); pt_days := dp_day <$> own |})
  <$> remove_dups (dp_token <$> daily).

(** ** Windows *)
Record Window := { w_from : string; w_to : string; w_closesAt : option Z; w_ruleset : option Z; w_rows : list RankingRow }.
(** Ranks on the earlier board by guardian, [None] for no comparison. *)
Definition Moves := option (gmap string Z).
Definition previousRanks (current earlier : Window) : Moves :=
  if (0 <? length (w_rows earlier))%nat && bool_decide (w_ruleset earlier = w_ruleset current)
  then Some (list_to_map (reverse ((λ r, (rw_token r, rw_rank r)) <$> w_rows earlier))) else None.
Definition prev_rank (m : Moves) (token : string) : option Z := m ≫= λ g, g !! token.
Definition placed (rows : list RankingRow) (offset count : Z) (m : Moves) : list (RankingRow * option Z) :=
  (λ row, (row, prev_rank m (rw_token row))) <$> take (Z.to_nat count) (drop (Z.to_nat offset) rows).
(** Equal scores share a place; [i] is the index, [prev] the score before, [rank] its place. *)
Fixpoint share_places (prev : option Z) (rank i : Z) (rows : list RankingRow) : list RankingRow :=
  match rows with
  | [] => []
  | row :: rest =>
      let rank' := if bool_decide (prev = Some (rw_score row)) then rank else i + 1 in
      {| rw_rank := rank'; rw_token := rw_token row; rw_seed := rw_seed row; rw_score := rw_score row; rw_days := rw_days row;
         rw_streak := rw_streak row |} :: share_places (Some (rw_score row)) rank' (i + 1) rest
  end.
Definition sharedRanks (rows : list RankingRow) : list RankingRow :=
  share_places None 0 0 (merge_sort (not_after (then_ (desc rw_score) (asc (λ r, Number_id (rw_token r))))) rows).
Inductive BoardId := game_board (g : GameId) | devotion | season_board.
Inductive RankingPeriod := p_today | p_yesterday | p_week | p_lastweek | p_28d | p_season.
(** Enough of the streak's loop for every day from the first played one. *)
Definition streak_fuel (days : list string) (today : string) : nat :=
  match first_text (played_days days today) with
  | Some first => match daysBetween first today with Ok n => Z.to_nat n + 3 | Throw _ => 1 end
  | None => 1
  end%nat.
Definition no_fuel : js_error := Error "streak".
Definition season_streak (days : list string) (today : string) : result SeasonStreak :=
  default (Throw no_fuel) (seasonStreak (streak_fuel days today) days today).
Definition guardianStreak (days : list string) (today : string) : result GuardianStreak :=
  default (Throw no_fuel) (streakProgress (streak_fuel days today) days today).

(** ** The reader *)
Record SeasonWindows := { sw_current : Window; sw_earlier : Window; sw_totals : gmap string (Z * Z) }.
(** Of the answers, what the request does not already say. *)
Record RankingBoard := { rb_from : string; rb_to : string; rb_closesAt : option Z; rb_entrants : Z; rb_moves : bool;
                         rb_rows : list (RankingRow * option Z) }.
Record RankingPage := { rp_from : string; rp_to : string; rp_entrants : Z; rp_moves : bool; rp_offset : Z; rp_focus : option string;
                        rp_rows : list (RankingRow * option Z) }.
Inductive PageAt := Offset (n : Z) | Around (ids : list string).
(** A move: whether there is a comparison, and the earlier rank. *)
Definition move (m : Moves) (token : string) : bool * option Z := (bool_decide (is_Some m), prev_rank m token).
Definition NEARBY_SPAN : Z := 2.
Record RankingStanding := { rs_rank : Z; rs_score : Z; rs_move : bool * option Z; rs_entrants : Z; rs_leader : Z; rs_above : option RankingRow;
                            rs_nearby : list RankingRow }.
Definition standing (rows : list RankingRow) (token : string) (m : Moves) : option RankingStanding :=
  match list_find (λ r, rw_token r = token) rows, head rows with
  | Some (i, row), Some first =>
      let lo := Z.max 0 (Z.of_nat i - NEARBY_SPAN) in
      Some {| rs_rank := rw_rank row; rs_score := rw_score row; rs_move := move m token; rs_entrants := Z.of_nat (length rows);
              rs_leader := rw_score first; rs_above := match i with O => None | S k => rows !! k end;
              rs_nearby := take (Z.to_nat (Z.of_nat i + NEARBY_SPAN + 1 - lo)) (drop (Z.to_nat lo) rows) |}
  | _, _ => None
  end.
Record SeasonStanding := { sst_move : bool * option Z; sst_points : Z; sst_rank : Z; sst_entrants : Z; sst_days : Z; sst_streak : Z; sst_bonus : Z;
                           sst_today : Z }.
Definition seasonStanding (row : RankingRow) (s : SeasonWindows) (m : Moves) : result SeasonStanding :=
  match sw_totals s !! rw_token row with
  | None => Throw (TypeError "undefined")
  | Some (bonus, today) =>
      Ok {| sst_move := move m (rw_token row); sst_points := rw_score row; sst_rank := rw_rank row; sst_entrants := Z.of_nat (length (w_rows (sw_current s)));
            sst_days := default 0 (rw_days row); sst_streak := default 0 (rw_streak row); sst_bonus := bonus; sst_today := today |}
  end.
Definition find_row (token : string) (rows : list RankingRow) : option RankingRow := snd <$> list_find (λ r, rw_token r = token) rows.

Section Reader.
Variable collection : string.
Variable season : Season.
Variable isHash : string → bool.
Variable word : string → Z → Z.

Definition pointTotals (rows : list RankedRow) (from to : string) : result (list PointTotals) :=
  let? yesterday := addDays to (-1) in
  Ok (SEASON_TOTALS rows (toLowerCase collection) from to yesterday to).
Definition season_row (to : string) (p : PointTotals) : result (RankingRow * (string * (Z * Z))) :=
  let? run := season_streak (pt_days p) to in
  Ok ({| rw_rank := 0; rw_token := pt_token p; rw_seed := pt_seed p; rw_score := pt_points p + st_bonus run;
         rw_days := Some (Z.of_nat (length (pt_days p))); rw_streak := Some (st_current run) |},
      (pt_token p, (st_bonus run, pt_today p))).
Definition earlier_row (yesterday : string) (closed : bool) (p : PointTotals) : result (option RankingRow) :=
  let before_days := if closed then [] else filter (λ d, String.leb d yesterday = true) (pt_days p) in
  match before_days with
  | [] => Ok None
  | _ => let? run := season_streak before_days yesterday in
         Ok (Some (plain_row 0 (pt_token p) (pt_seed p) (pt_before p + st_bonus run)))
  end.
Definition mapr {A B} (f : A → result B) : list A → result (list B) :=
  fix go l := match l with [] => Ok [] | x :: l => let? y := f x in let? ys := go l in Ok (y :: ys) end.
Definition seasonWindows (rows : list RankedRow) (today : string) : result (option SeasonWindows) :=
  match seasonWindow season today with
  | None => Ok None
  | Some (from, to) =>
      let? yesterday := addDays to (-1) in
      let? totals := pointTotals rows from to in
      let? current := mapr (season_row to) totals in
      let? earlier := mapr (earlier_row yesterday (String.ltb to today)) totals in
      let? closesAt := seasonClosesAt season today in
      Ok (Some {| sw_current := {| w_from := from; w_to := to; w_closesAt := closesAt; w_ruleset := None; w_rows := sharedRanks (current.*1) |};
                  sw_earlier := {| w_from := from; w_to := yesterday; w_closesAt := None; w_ruleset := None;
                                   w_rows := sharedRanks (omap id earlier) |};
                  sw_totals := list_to_map (reverse (current.*2)) |})
  end.

(** [closes ? nextReset(at, period) : null]. *)
Definition closes_when (closes : bool) (at_ : Z) (period : Period) : result (option Z) :=
  if closes then let? t := nextReset at_ period in Ok (Some t) else Ok None.
Definition window_of (rows : list RankedRow) (board : BoardId) (period : RankingPeriod) (at_ back : Z) : result Window :=
  let c := toLowerCase collection in
  let? today := kstDay at_ in
  let? week := kstWeek today in
  match board with
  | season_board => Throw (Error "season windows read in pairs")
  | devotion =>
      let? to := addDays today (- back) in
      let? from := addDays to (1 - DEVOTION_DAYS) in
      let? closes := closes_when (back =? 0) at_ day_ in
      Ok {| w_from := from; w_to := to; w_closesAt := closes; w_ruleset := None; w_rows := DEVOTION_BOARD rows c from to |}
  | game_board g =>
      match period with
      | p_today | p_yesterday =>
          let is_today := match period with p_today => true | _ => false end in
          let? day := addDays today ((if is_today then 0 else -1) - back) in
          let? closes := closes_when (is_today && (back =? 0)) at_ day_ in
          Ok {| w_from := day; w_to := day; w_closesAt := closes;
                w_ruleset := Some ARCADE_RULESET_VERSION; w_rows := DAY_BOARD rows c ARCADE_RULESET_VERSION g day |}
      | _ =>
          let is_week := match period with p_week => true | _ => false end in
          let? start := addDays week ((if is_week then 0 else -7) - 7 * back) in
          let? board := weekBoard rows collection g start at_ in
          let? to := addDays start 6 in
          let? closes := closes_when (is_week && (back =? 0)) at_ week_ in
          Ok {| w_from := start; w_to := to; w_closesAt := closes; w_ruleset := Some board.1; w_rows := board.2 |}
      end
  end.
Definition windows (rows : list RankedRow) (board : BoardId) (period : RankingPeriod) (at_ : Z) : result (Window * Window) :=
  match board with
  | season_board =>
      let? today := kstDay at_ in
      let? s := seasonWindows rows today in
      match s with Some s => Ok (sw_current s, sw_earlier s) | None => Throw (OutingError "invalid_request") end
  | _ =>
      let? now := window_of rows board period at_ 0 in
      let? earlier := window_of rows board period at_ 1 in
      Ok (now, earlier)
  end.
Definition read_board (rows : list RankedRow) (board : BoardId) (period : RankingPeriod) (at_ : Z) : result RankingBoard :=
  let? w := windows rows board period at_ in
  let moves := previousRanks w.1 w.2 in
  Ok {| rb_from := w_from w.1; rb_to := w_to w.1; rb_closesAt := w_closesAt w.1; rb_entrants := Z.of_nat (length (w_rows w.1));
        rb_moves := bool_decide (is_Some moves); rb_rows := placed (w_rows w.1) 0 BOARD_ROWS moves |}.
Definition page (rows : list RankedRow) (board : BoardId) (period : RankingPeriod) (where_ : PageAt) (at_ : Z) : result RankingPage :=
  let? w := windows rows board period at_ in
  let moves := previousRanks w.1 w.2 in
  let found := match where_ with
    | Around ids => (λ p : nat * (Z * RankingRow), p.2) <$> list_find (λ ir, BOARD_ROWS <= ir.1 ∧ rw_token ir.2 ∈ ids) (imap (λ i r, (Z.of_nat i, r)) (w_rows w.1))
    | Offset _ => None
    end in
  let offset := match where_ with Offset n => n | Around _ => rankingPageOffset (match found with Some (i, _) => i | None => -1 end) end in
  Ok {| rp_from := w_from w.1; rp_to := w_to w.1; rp_entrants := Z.of_nat (length (w_rows w.1)); rp_moves := bool_decide (is_Some moves);
        rp_offset := offset; rp_focus := (λ ir, rw_token ir.2) <$> found; rp_rows := placed (w_rows w.1) offset RANKING_PAGE_ROWS moves |}.

(** The days of the last year a guardian played. *)
Definition playedDays (rows : list RankedRow) (token today : string) : result (list string) :=
  let? first := addDays today (-364) in
  Ok (merge_sort (not_after (asc_text (λ s, s))) (remove_dups (rr_day <$>
    filter (λ r, rr_collection r = toLowerCase collection ∧ rr_token r = token ∧ String.leb first (rr_day r) = true ∧ String.leb (rr_day r) today = true) rows))).
Record GameStanding := { gst_used : Z; gst_today : option RankingStanding; gst_week : option RankingStanding }.
Record GuardianStanding := {
  gs_token : string; gs_streak : GuardianStreak; gs_devotion : option Z * Z; gs_season : option SeasonStanding; gs_weekPoints : Z;
  gs_titles : list (GameId * Z); gs_games : list (GameId * GameStanding) }.
Record RankingStandings := { rss_day : string; rss_week : string; rss_closes_day : Z; rss_closes_week : Z; rss_leaders : list (GameId * option Z);
                             rss_guardians : list GuardianStanding }.
Record GameBoards := { bs_game : GameId; bs_today : list RankingRow; bs_week : list RankingRow; bs_lastweek : list RankingRow; bs_todayMoves : Moves;
                       bs_weekMoves : Moves }.
Definition game_boards (rows : list RankedRow) (at_ : Z) (g : GameId) : result GameBoards :=
  let? t := window_of rows (game_board g) p_today at_ 0 in
  let? y := window_of rows (game_board g) p_yesterday at_ 0 in
  let? w := window_of rows (game_board g) p_week at_ 0 in
  let? l := window_of rows (game_board g) p_lastweek at_ 0 in
  Ok {| bs_game := g; bs_today := w_rows t; bs_week := w_rows w; bs_lastweek := w_rows l; bs_todayMoves := previousRanks t y;
        bs_weekMoves := previousRanks w l |}.
Definition guardian_standing (d : Db) (today : string) (boards : list GameBoards) (devoted : list RankingRow) (s : option SeasonWindows)
    (weekPoints : list PointTotals) (token : string) : result GuardianStanding :=
  let mine := find_row token devoted in
  let? days := playedDays (ranked d) token today in
  let? streak := guardianStreak days today in
  let? raced := match s with
    | Some s => match find_row token (w_rows (sw_current s)) with
                | Some row => let? x := seasonStanding row s (previousRanks (sw_current s) (sw_earlier s)) in Ok (Some x)
                | None => Ok None
                end
    | None => Ok None
    end in
  Ok {| gs_token := token; gs_streak := streak; gs_devotion := (rw_rank <$> mine, match mine with Some r => rw_score r | None => 0 end); gs_season := raced;
        gs_weekPoints := match list_find (λ p, pt_token p = token) (reverse weekPoints) with Some (_, p) => pt_points p | None => 0 end;
        gs_titles := omap (λ b, match find_row token (bs_lastweek b) with
                                | Some row => if rw_rank row <=? BOARD_ROWS then Some (bs_game b, rw_rank row) else None
                                | None => None
                                end) boards;
        gs_games := (λ b, (bs_game b, {| gst_used := Z.of_nat (length (rankedAttemptsTaken d collection token today "" (bs_game b)));
                                          gst_today := standing (bs_today b) token (bs_todayMoves b);
                                          gst_week := standing (bs_week b) token (bs_weekMoves b) |})) <$> boards |}.
Definition standings (d : Db) (ids : list string) (at_ : Z) : result RankingStandings :=
  let? today := kstDay at_ in
  let? week := kstWeek today in
  let? boards := mapr (game_boards (ranked d) at_) RANKED_GAMES in
  let? devoted := window_of (ranked d) devotion p_28d at_ 0 in
  let? s := seasonWindows (ranked d) today in
  let? sunday := addDays week 6 in
  let? weekPoints := pointTotals (ranked d) week sunday in
  let? guardians := mapr (guardian_standing d today boards (w_rows devoted) s weekPoints) ids in
  let? day_end := nextReset at_ day_ in
  let? week_end := nextReset at_ week_ in
  Ok {| rss_day := today; rss_week := week; rss_closes_day := day_end; rss_closes_week := week_end;
        rss_leaders := (λ b, (bs_game b, rw_score <$> head (bs_today b))) <$> boards; rss_guardians := guardians |}.

Definition CARD_DAYS_BACK : Z := 365.
Record RankedCard := { rc_row : RankingRow; rc_entrants : Z; rc_leader : Z; rc_final : bool; rc_season : option SeasonStanding }.
Definition card (rows : list RankedRow) (g : GameId) (day token : string) (at_ : Z) : result RankedCard :=
  let? today := kstDay at_ in
  let? back := daysBetween day today in
  throws (back <? 0) || (CARD_DAYS_BACK <? back) with OutingError "invalid_request";
  let? w := window_of rows (game_board g) p_today at_ back in
  match find_row token (w_rows w), head (w_rows w) with
  | Some row, Some first =>
      let? s := seasonWindows rows today in
      let? raced := match s with
        | Some s => match find_row token (w_rows (sw_current s)) with
                    | Some r => let? x := seasonStanding r s (previousRanks (sw_current s) (sw_earlier s)) in Ok (Some x)
                    | None => Ok None
                    end
        | None => Ok None
        end in
      Ok {| rc_row := row; rc_entrants := Z.of_nat (length (w_rows w)); rc_leader := rw_score first; rc_final := 0 <? back; rc_season := raced |}
  | _, _ => Throw (OutingError "not_found")
  end.

(** ** Teams *)
Record TeamBoard := { tb_from : string; tb_to : string; tb_closesAt : option Z; tb_entrants : Z; tb_rows : list TeamRow }.
Definition zodiac_of (m : TeamMember) : result (GuardianZodiac * TeamMember) :=
  let? z := guardianZodiac isHash word (tm_seed m) in
  match z with Some z => Ok (z, m) | None => Throw (TypeError "undefined") end.
Definition teams (from to : string) (closesAt : option Z) (members : list TeamMember) : result TeamBoard :=
  let? zs := mapr zodiac_of members in
  Ok {| tb_from := from; tb_to := to; tb_closesAt := closesAt; tb_entrants := Z.of_nat (length members); tb_rows := teamBoardRows zs |}.
Definition teamBoard (rows : list RankedRow) (period : string) (at_ : Z) : result TeamBoard :=
  let? today := kstDay at_ in
  if String.eqb period "week" then
    let? from := kstWeek today in
    let? to := addDays from 6 in
    let? closes := nextReset at_ week_ in
    let? totals := pointTotals rows from to in
    teams from to (Some closes) ((λ p, {| tm_tokenId := pt_token p; tm_seed := pt_seed p; tm_points := pt_points p |}) <$> totals)
  else
    let? s := (if String.eqb period (seasonPeriod season) then seasonWindows rows today else Ok None) in
    match s with
    | None => Throw (OutingError "invalid_request")
    | Some s =>
        let w := sw_current s in
        teams (w_from w) (w_to w) (w_closesAt w) ((λ r, {| tm_tokenId := rw_token r; tm_seed := rw_seed r; tm_points := rw_score r |}) <$> w_rows w)
    end.

(** ** The hall of fame *)
Record HallChampion := { hc_week : string; hc_game : GameId; hc_token : string; hc_seed : string; hc_score : Z }.
Record HallStreak := { hs_token : string; hs_seed : string; hs_runs : Z }.
(** A sealed hall: the parts its marks read, and the rest. *)
Record Hall := { ha_parts : SealedHall; ha_sealedAt : Z; ha_start : string; ha_end : string; ha_entrants : Z; ha_champions : list HallChampion;
                 ha_streakPool : list HallStreak; ha_closeBlock : string * string; ha_raffle : list string }.
(** [keccak256] of the block's hash and a draw's index. *)
Variable draw : string → Z → Z.

(** The first of every game's board, week by week to the season's end; [None] when the fuel does not reach. *)
Fixpoint champions_of (fuel : nat) (rows : list RankedRow) (at_ : Z) (end_ week : string) : option (result (list HallChampion)) :=
  match fuel with
  | O => None
  | S fuel =>
      if String.leb week end_ then
        match mapr (λ g, let? b := weekBoard rows collection g week at_ in
                         Ok ((λ r, {| hc_week := week; hc_game := g; hc_token := rw_token r; hc_seed := rw_seed r; hc_score := rw_score r |}) <$> head b.2))
                RANKED_GAMES, addDays week 7 with
        | Ok firsts, Ok next =>
            match champions_of fuel rows at_ end_ next with
            | Some (Ok rest) => Some (Ok (omap id firsts ++ rest)%list)
            | r => r
            end
        | Throw e, _ | _, Throw e => Some (Throw e)
        end
      else Some (Ok [])
  end.
Definition week_fuel (from to : string) : nat := match daysBetween from to with Ok n => Z.to_nat n + 2 | Throw _ => 1 end%nat.
Definition streak_pool (totals : list PointTotals) (end_ : string) : result (list HallStreak) :=
  let? pool := mapr (λ p, let? run := season_streak (pt_days p) end_ in
    Ok (if st_completed run =? 0 then None else Some {| hs_token := pt_token p; hs_seed := pt_seed p; hs_runs := st_completed run |})) totals in
  Ok (merge_sort (not_after (asc (λ s, Number_id (hs_token s)))) (omap id pool)).
Definition buildHall (rows : list RankedRow) (closeBlock : string * string) (sealedAt : Z) : result Hall :=
  match s_start season, s_end season with
  | Some start, Some end_ =>
      let? s := seasonWindows rows end_ in
      match s with
      | None => Throw (TypeError "null")
      | Some s =>
          let board := w_rows (sw_current s) in
          let? first := kstWeek start in
          let? champions := default (Throw no_fuel) (champions_of (week_fuel first end_) rows sealedAt end_ first) in
          let? totals := pointTotals rows start end_ in
          let? pool := streak_pool totals end_ in
          let? team := teamBoard rows (seasonPeriod season) sealedAt in
          Ok {| ha_parts := {| sh_season := s_id season;
                  sh_podium := hallPodium ((λ r, {| hr_rank := rw_rank r; hr_tokenId := rw_token r; hr_seed := rw_seed r; hr_points := rw_score r;
                                                     hr_days := default 0 (rw_days r) |}) <$> board);
                  sh_teams := hallTeams (tb_rows team); sh_participants := merge_sort id_le (rw_token <$> board) |};
                ha_sealedAt := sealedAt; ha_start := start; ha_end := end_; ha_entrants := Z.of_nat (length board); ha_champions := champions;
                ha_streakPool := pool; ha_closeBlock := closeBlock;
                ha_raffle := raffleDraw (draw closeBlock.2) (hs_token <$> pool) RAFFLE_WINNERS |}
      end
  | _, _ => Throw (TypeError "null")
  end.

(** The book of this collection: one sealed hall per season. *)
Definition Book := gmap Z Hall.
Inductive HallAnswer := Held (h : Hall) | NotSealed (season_id sealsAt : Z).
(** [s] and a number without leading zeros. *)
Definition hall_id (period : string) : option Z :=
  match chars period with
  | "s"%char :: ((c :: rest) as ds) =>
      if (49 <=? code c) && (code c <=? 57) && forallb (λ d, (48 <=? code d) && (code d <=? 57)) rest then Some (dec_number ds) else None
  | _ => None
  end.
(** [hall] up to its await: an answer, or the instant whose block is read next. *)
Definition hall_read (book : Book) (period : string) (at_ : Z) : result (HallAnswer + (Z * Z)) :=
  match hall_id period with
  | None => Throw (OutingError "invalid_request")
  | Some id =>
      match book !! id with
      | Some h => Ok (inl (Held h))
      | None =>
          throws negb (id =? s_id season) with OutingError "not_found";
          let? sealsAt := hallSealsAt season in
          let? today := kstDay at_ in
          match sealsAt, seasonPhase season today with
          | Some seals, closed_ =>
              if at_ <? seals then Ok (inl (NotSealed id seals))
              else let? e := seasonEndsAt season in
                   match e with Some e => Ok (inr (seals, e)) | None => Throw (TypeError "null") end
          | _, _ => Throw (OutingError "invalid_request")
          end
      end
  end.
(** [seal]: the hall on record, else the one computed now is recorded. *)
Definition hall_seal (book : Book) (rows : list RankedRow) (closeBlock : option (string * string)) (seals now : Z) : result (HallAnswer * Book) :=
  match closeBlock with
  | None => Ok (NotSealed (s_id season) seals, book)
  | Some block =>
      match book !! s_id season with
      | Some h => Ok (Held h, book)
      | None => let? h := buildHall rows block now in Ok (Held h, <[s_id season := h]> book)
      end
  end.
Record SeasonCard := { sc_seed : string; sc_status : SeasonStatus; sc_season : SeasonStanding; sc_marks : list SeasonMark }.
(** [seasonCard], with the hall as it was answered ([None] unless the season is closed). *)
Definition seasonCard (rows : list RankedRow) (token : string) (hall : option SeasonHall) (at_ : Z) : result SeasonCard :=
  let? today := kstDay at_ in
  let? s := seasonWindows rows today in
  match s with
  | None => Throw (OutingError "invalid_request")
  | Some s =>
      match find_row token (w_rows (sw_current s)) with
      | None => Throw (OutingError "not_found")
      | Some raced =>
          let? status := seasonStatus season at_ in
          let? mine := seasonStanding raced s (previousRanks (sw_current s) (sw_earlier s)) in
          let? marks := seasonMarks isHash word hall token (rw_seed raced) in
          Ok {| sc_seed := rw_seed raced; sc_status := status; sc_season := mine; sc_marks := marks |}
      end
  end.
End Reader.
