(* ===== verification/BoardFacts.v ===== *)
(** * Boards are right, and sealed ones are final

    What the queries of [Boards] promise: a day's board has every guardian once, with its
    best attempt, in order; and what is read after a seal is what will always be read,
    however late further rows settle. *)

From Stdlib Require Import ZArith Lia Ascii String.
From stdpp Require Import base gmap strings list sets sorting.
From S2P Require Import Prelude Dates Token Budget Calendar Guardians Ranking Teams Season Outings Boards.
Open Scope string_scope.
Open Scope Z_scope.

(** ** Orders *)
Class GoodOrder {A} (o : Order A) : Prop := {
  go_sym : ∀ a b, o b a = CompOpp (o a b);
  go_lt : ∀ a b c, o a b = Lt → o b c = Lt → o a c = Lt;
  go_eq : ∀ a b c, o a b = Eq → o a c = o b c }.
#[export] Instance asc_good {A} (f : A → Z) : GoodOrder (asc f).
Proof.
  split; unfold asc; intros.
  - by rewrite Z.compare_antisym.
  - rewrite Z.compare_lt_iff in *. lia.
  - apply Z.compare_eq_iff in H. by rewrite H.
Qed.
#[export] Instance desc_good {A} (f : A → Z) : GoodOrder (desc f).
Proof.
  split; unfold desc; intros.
  - by rewrite Z.compare_antisym.
  - rewrite Z.compare_lt_iff in *. lia.
  - apply Z.compare_eq_iff in H. by rewrite H.
Qed.
Lemma go_eq_r {A} (o : Order A) `{!GoodOrder o} a b c : o b c = Eq → o a b = o a c.
Proof. intros H. rewrite (go_sym (o:=o) b a), (go_sym (o:=o) c a). by rewrite (go_eq (o:=o) b c a H). Qed.
#[export] Instance then_good {A} (o p : Order A) `{!GoodOrder o} `{!GoodOrder p} : GoodOrder (then_ o p).
Proof.
  split; unfold then_.
  - intros a b. rewrite (go_sym (o:=o) a b). destruct (o a b); cbn; [apply go_sym|done..].
  - intros a b c. destruct (o a b) eqn:E1; try done.
    + rewrite (go_eq (o:=o) a b c E1). destruct (o b c); [apply go_lt|done..].
    + intros _. destruct (o b c) eqn:E2; try done.
      * by rewrite <- (go_eq_r o a b c E2), E1.
      * by rewrite (go_lt (o:=o) a b c E1 E2).
  - intros a b c. destruct (o a b) eqn:E1; try done. intros E2. rewrite (go_eq (o:=o) a b c E1). by rewrite (go_eq (o:=p) a b c E2).
Qed.
#[export] Instance not_after_total {A} (o : Order A) `{!GoodOrder o} : Total (not_after o).
Proof. intros a b. unfold not_after. rewrite (go_sym (o:=o) a b). destruct (o a b); cbn; auto. Qed.
#[export] Instance not_after_trans {A} (o : Order A) `{!GoodOrder o} : Transitive (not_after o).
Proof.
  intros a b c. unfold not_after. intros H1 H2. destruct (o a b) eqn:E1; [by rewrite (go_eq (o:=o) a b c E1)| |done].
  destruct (o b c) eqn:E2; [by rewrite <- (go_eq_r o a b c E2), E1|by rewrite (go_lt (o:=o) a b c E1 E2)|done].
Qed.
(** A non-empty list has a row that none comes before. *)
Lemma some_first {A} (o : Order A) `{!GoodOrder o} (l : list A) : l ≠ [] → ∃ m, m ∈ l ∧ ∀ s, s ∈ l → before o s m = false.
Proof.
  induction l as [|x l IH]; [done|]. intros _. destruct (decide (l = [])) as [->|Hne].
  - exists x. split; [by left|]. intros s ->%list_elem_of_singleton. unfold before.
    pose proof (go_sym (o:=o) x x). destruct (o x x); done.
  - destruct (IH Hne) as (m & Hm & Hf). destruct (o x m) eqn:E.
    + exists m. split; [by right|]. intros s [->|Hs]%elem_of_cons; [unfold before; by rewrite E|by apply Hf].
    + exists x. split; [by left|]. intros s [->|Hs]%elem_of_cons.
      * unfold before. pose proof (go_sym (o:=o) x x). destruct (o x x); done.
      * unfold before. destruct (o s x) eqn:E2; [done| |done]. specialize (Hf s Hs). unfold before in Hf.
        by rewrite (go_lt (o:=o) s x m E2 E) in Hf.
    + exists m. split; [by right|]. intros s [->|Hs]%elem_of_cons; [unfold before; by rewrite E|by apply Hf].
Qed.
Lemma ahead_zero_iff {A} (same : A → A → bool) (o : Order A) l r :
  ahead_of same o l r = 0 ↔ ∀ s, s ∈ l → same s r = true → before o s r = false.
Proof.
  unfold ahead_of. split.
  - intros H s Hs Hsame. destruct (before o s r) eqn:E; [|done].
    assert (Hin : s ∈ filter (λ s, same s r && before o s r = true) l) by (apply list_elem_of_filter; by rewrite Hsame, E).
    destruct (filter _ l); [by apply elem_of_nil in Hin|cbn in H; lia].
  - intros H. assert (E : filter (λ s, same s r && before o s r = true) l = []); [|by rewrite E].
    apply elem_of_nil_inv. intros s [Hb Hs]%list_elem_of_filter. apply andb_true_iff in Hb as [Hb1 Hb2]. rewrite (H s Hs Hb1) in Hb2. done.
Qed.

(** ** The board of a day *)
Definition day_rows (rows : list RankedRow) (coll : string) (ruleset : Z) (g : GameId) (day : string) : list RankedRow :=
  filter (λ r, rr_collection r = coll ∧ rr_ruleset r = ruleset ∧ rr_game r = g ∧ rr_day r = day) rows.
Lemma firsts_elem l r : r ∈ firsts by_token l ↔ r ∈ l ∧ ∀ s, s ∈ l → rr_token s = rr_token r → before best_first s r = false.
Proof.
  unfold firsts. rewrite list_elem_of_filter, ahead_zero_iff. unfold by_token. split.
  - intros [H Hr]. split; [done|]. intros s Hs E. apply H; [done|]. by apply String.eqb_eq.
  - intros [Hr H]. split; [|done]. intros s Hs E. apply H; [done|]. by apply String.eqb_eq.
Qed.
Section Day.
Variable rows : list RankedRow.
Variable coll : string.
Variable ruleset : Z.
Variable g : GameId.
Variable day : string.
Hypothesis Hkeys : NoDup (rank_key <$> rows).
Local Notation mine := (day_rows rows coll ruleset g day).
Local Notation board := (DAY_BOARD rows coll ruleset g day).
Local Notation best := (merge_sort (not_after day_order) (firsts by_token mine)).

Lemma best_once : NoDup (rr_token <$> best).
Proof.
  rewrite (merge_sort_Permutation (not_after day_order)). apply NoDup_fmap_2_strong.
  - intros r s [Hr Hrf]%firsts_elem [Hs Hsf]%firsts_elem E. specialize (Hrf s Hs (eq_sym E)). specialize (Hsf r Hr E).
    assert (Heq : best_first r s = Eq).
    { unfold before in *. pose proof (go_sym (o:=best_first) r s) as Hsym. destruct (best_first r s); [done|done|]. by rewrite Hsym in Hrf. }
    unfold best_first, then_, asc, desc in Heq. destruct (rr_score s ?= rr_score r); try done. destruct (rr_at r ?= rr_at s); try done.
    apply Z.compare_eq_iff in Heq. unfold day_rows in Hr, Hs. rewrite list_elem_of_filter in Hr, Hs.
    destruct Hr as ((E1 & _ & E3 & E4) & Hr), Hs as ((E1' & _ & E3' & E4') & Hs). apply (fmap_once rank_key rows); [done..|].
    unfold rank_key. congruence.
  - apply NoDup_filter, NoDup_filter. by eapply NoDup_fmap_1.
Qed.
Lemma board_row_at i row : board !! i = Some row ↔ ∃ r, best !! i = Some r ∧ row = plain_row (Z.of_nat i + 1) (rr_token r) (rr_seed r) (rr_score r).
Proof. unfold DAY_BOARD. rewrite list_lookup_imap. fold mine. destruct (best !! i) as [r|]; cbn; naive_solver. Qed.
Lemma best_elem r : r ∈ best ↔ r ∈ mine ∧ ∀ s, s ∈ mine → rr_token s = rr_token r → before best_first s r = false.
Proof. rewrite (merge_sort_Permutation (not_after day_order)). apply firsts_elem. Qed.
Lemma best_score r s : r ∈ best → s ∈ mine → rr_token s = rr_token r → rr_score s <= rr_score r.
Proof.
  intros [_ Hf]%best_elem Hs E. specialize (Hf s Hs E). unfold before, best_first, then_, desc in Hf.
  destruct (rr_score r ?= rr_score s) eqn:C; [apply Z.compare_eq_iff in C; lia|done|apply Z.compare_gt_iff in C; lia].
Qed.

End Day.

(** ** After the seal *)
Lemma filter_late {A} (P : A → Prop) `{∀ x, Decision (P x)} (l late : list A) : Forall (λ x, ¬ P x) late → filter P (l ++ late)%list = filter P l.
Proof.
  intros H0. rewrite filter_app. assert (E : filter P late = []); [|by rewrite E, app_nil_r].
  apply elem_of_nil_inv. intros x [Hx Hin]%list_elem_of_filter. rewrite Forall_forall in H0. by apply (H0 x).
Qed.
(** A board of week [i] once it is sealed. *)
Definition seal_time (i : Z) : Z := (12 + i * 7) * DAY_MS - KST_OFFSET.
Definition week_text (i : Z) : string := day_text (4 + i * 7).
Definition sealed_board (rows : list RankedRow) (c : string) (g : GameId) (i : Z) : Z * list RankingRow :=
  let ruleset := default ARCADE_RULESET_VERSION (WEEK_RULESET rows c (week_text i) (seal_time i)) in
  (ruleset, WEEK_BOARD rows c ruleset g (week_text i) (seal_time i)).
Lemma sealed_by i at_ : seal_time i <= at_ ↔ 12 + i * 7 <= kst_number at_.
Proof. unfold seal_time, kst_number, DAY_MS. split; intros H; Z.to_euclidean_division_equations; lia. Qed.
Lemma sealed_year i at_ : calendar_time at_ → 0 <= i → seal_time i <= at_ → four_digit_year (11 + i * 7) ∧ four_digit_year (4 + i * 7).
Proof. intros Hat Hi Hs%sealed_by. pose proof (calendar_day _ Hat). unfold four_digit_year. lia. Qed.
Lemma weekBoard_sealed rows coll g i at_ : calendar_time at_ → 0 <= i → seal_time i <= at_ →
  weekBoard rows coll g (week_text i) at_ = Ok (sealed_board rows (toLowerCase coll) g i).
Proof.
  intros Hat Hi Hs. destruct (sealed_year i at_ Hat Hi Hs) as [Hy Hy4]. pose proof (calendar_day _ Hat) as Hd.
  destruct (kst_day _ Hat) as [Hk Hday]. unfold weekBoard, week_text. rewrite weekCutoff_text by done. cbn [rbind]. rewrite Hday. cbn [rbind].
  apply sealed_by in Hs. destruct (monday_spec (kst_number at_)) as [Hm _].
  rewrite kstWeek_text by (unfold four_digit_year in *; lia). cbn [rbind].
  pose proof (proj2 (monday_ge (i + 1) (kst_number at_)) ltac:(lia)).
  rewrite text_ltb by (unfold four_digit_year in *; lia). rewrite (proj2 (Z.ltb_lt _ _)) by lia. done.
Qed.
(** Rows that settle after a week's seal are on none of its boards. *)
Lemma sealed_board_final rows late c g i : Forall (λ r, seal_time i <= rr_at r) late → sealed_board (rows ++ late)%list c g i = sealed_board rows c g i.
Proof.
  intros Hl. unfold sealed_board, WEEK_RULESET, WEEK_BOARD, week_rows.
  rewrite !filter_late; [done|..]; (eapply Forall_impl; [exact Hl|]; cbn; intros r Hr Hin; destruct_and!; lia).
Qed.

(** A ranked row's week is that of its day. *)
Definition dated_row (r : RankedRow) : Prop := ∃ n, four_digit_year n ∧ four_digit_year (monday n) ∧ rr_day r = day_text n ∧ rr_week r = day_text (monday n).
Lemma late_not_counted r b : dated_row r → four_digit_year (b + 8) → 4 <= b → String.leb (rr_day r) (day_text b) = true →
  (monday b + 8) * DAY_MS - KST_OFFSET <= rr_at r → settled_in_time r = false.
Proof.
  intros (n & Hn & Hm & Ed & Ew) Hb Hb4 Hle Hat. rewrite Ed, text_leb in Hle by (done || unfold four_digit_year in *; lia). bools.
  destruct (monday_spec n) as [H1 _], (monday_spec b) as [H2 _].
  assert (Hmono : monday n <= monday b) by (unfold monday in *; Z.to_euclidean_division_equations; lia).
  unfold settled_in_time. rewrite Ew, addDays_text by (done || unfold four_digit_year in *; lia). cbn [rbind].
  rewrite dayStart_text by (unfold four_digit_year in *; lia). apply Z.ltb_ge. unfold KST_OFFSET in Hat. unfold DAY_MS in *. lia.
Qed.

Lemma mapr_ext {A B} (f g : A → result B) l : (∀ x, f x = g x) → mapr f l = mapr g l.
Proof. intros H. induction l as [|x l IH]; [done|]. cbn [mapr]. by rewrite H, IH. Qed.

(** ** The loops end *)
(** Theorem: the fuel of the streak's loop is enough: every list of days has a streak on every
    calendar day, and more fuel does not change it. *)
Theorem streak_runs days today (Hy : four_digit_year (today + 1)) (Ht : four_digit_year today) :
  ∃ s, guardianStreak days (day_text today) = Ok s
    ∧ ∀ fuel, (streak_fuel days (day_text today) <= fuel)%nat → streakProgress fuel days (day_text today) = Some (Ok s).
Proof.
  assert (Hex : ∃ s, ∀ fuel, (streak_fuel days (day_text today) <= fuel)%nat → streakProgress fuel days (day_text today) = Some (Ok s)).
  { unfold streak_fuel, streakProgress. set (played := played_days days (day_text today)). destruct (decide (played = [])) as [->|Hne].
    { eexists. by intros. }
    destruct (first_text_first played) as (n & -> & Hn & Hin & _); [|done|].
    { apply Forall_forall. intros s Hs. by eapply played_days_ranking. }
    assert (Hin' : played_on days n && (n <=? today) = true) by (rewrite <- played_days_elem by done; by apply bool_decide_eq_true).
    bools. rewrite daysBetween_text by done. eexists. intros fuel Hf.
    rewrite (loop_closed played today (Z.to_nat (today - n))) by (done || lia). reflexivity. }
  destruct Hex as [s Hs]. exists s. split; [|done]. unfold guardianStreak. by rewrite Hs.
Qed.
Lemma streak_runs_witness : ∃ s, guardianStreak ["2026-06-02"] (day_text 20607) = Ok s
  ∧ ∀ fuel, (streak_fuel ["2026-06-02"] (day_text 20607) <= fuel)%nat → streakProgress fuel ["2026-06-02"] (day_text 20607) = Some (Ok s).
Proof. apply streak_runs; split; vm_compute; congruence. Defined.
(** Theorem: the weeks of a season run out within the fuel of its hall. *)
Theorem champions_run collection rows at_ b i (Hb : four_digit_year (b + 8)) : 0 <= i → 4 + i * 7 <= b →
  ∃ r, champions_of collection (week_fuel (week_text i) (day_text b)) rows at_ (day_text b) (week_text i) = Some r.
Proof.
  intros Hi Hib. assert (Hgo : ∀ fuel j, 0 <= j → 4 + j * 7 <= b + 7 → (Z.to_nat (b - (4 + j * 7)) + (if (4 + j * 7 <=? b)%Z then 2 else 1) <= fuel)%nat →
    ∃ r, champions_of collection fuel rows at_ (day_text b) (week_text j) = Some r).
  { induction fuel as [|fuel IH]; intros j Hj Hjb Hf; [destruct (_ <=? _); lia|]. cbn [champions_of].
    assert (Hleb : String.leb (week_text j) (day_text b) = (4 + j * 7 <=? b)) by (unfold week_text; apply text_leb; unfold four_digit_year in *; lia).
    rewrite Hleb. destruct (4 + j * 7 <=? b) eqn:E; bools; [|by eexists]. destruct (mapr _ _); [|by eexists].
    unfold week_text at 1. rewrite addDays_text by (unfold four_digit_year in *; lia).
    change (day_text (4 + j * 7 + 7)) with (day_text (4 + j * 7 + 7)). replace (4 + j * 7 + 7) with (4 + (j + 1) * 7) by lia.
    fold (week_text (j + 1)). destruct (IH (j + 1)) as [[r|] ->]; [lia|lia| |by eexists|by eexists].
    destruct (4 + (j + 1) * 7 <=? b) eqn:E2; bools; lia. }
  apply Hgo; [done|lia|]. unfold week_fuel, week_text. rewrite daysBetween_text by (unfold four_digit_year in *; lia).
  rewrite (proj2 (Z.leb_le _ _)) by done. lia.
Qed.
Lemma champions_run_witness : ∃ r, champions_of "0xC0" (week_fuel (week_text 2943) (day_text 20611)) [] 0 (day_text 20611) (week_text 2943) = Some r.
Proof. apply champions_run; [split; vm_compute; congruence|lia|lia]. Defined.

Section Final.
Variable collection : string.
Variable season : Season.
Variable isHash : string → bool.
Variable word : string → Z → Z.
Variable draw : string → Z → Z.
Variables a b : Z.
Hypothesis Hseason : dated season a b.
Hypothesis Ha : 4 <= monday a.
Definition hall_time : Z := (monday b + 8) * DAY_MS - KST_OFFSET.
Variables rows late : list RankedRow.
Hypothesis Hlate : Forall (λ r, dated_row r ∧ hall_time <= rr_at r) late.

Lemma season_bounds : 4 <= a <= b ∧ four_digit_year b ∧ four_digit_year a ∧ four_digit_year (monday a).
Proof.
  destruct Hseason. destruct (monday_spec a) as [Hm _]. unfold four_digit_year in *. lia.
Qed.
Lemma totals_final from to yesterday today : String.leb to (day_text b) = true → (∃ n, four_digit_year n ∧ to = day_text n) →
  SEASON_TOTALS (rows ++ late)%list (toLowerCase collection) from to yesterday today = SEASON_TOTALS rows (toLowerCase collection) from to yesterday today.
Proof.
  intros Hto (n & Hn & ->). destruct season_bounds as (Hab & Hb & _). rewrite text_leb in Hto by done. bools.
  unfold SEASON_TOTALS, season_rows. rewrite filter_late; [done|].
  eapply Forall_impl; [exact Hlate|]. cbv beta. intros r [Hr Hat] (_ & _ & Hle & Hin).
  rewrite (late_not_counted r b) in Hin; [done|done|by destruct Hseason|lia| |done].
  destruct Hr as (m & Hm & _ & Ed & _). rewrite Ed in *. rewrite text_leb in Hle by done. rewrite text_leb by done. bools. apply Z.leb_le. lia.
Qed.
(** The season's windows on or after its last day. *)
Lemma seasonWindow_last n : four_digit_year n → b <= n → seasonWindow season (day_text n) = Some (day_text a, day_text b).
Proof.
  intros Hn Hbn. destruct season_bounds as (Hab & Hb & Hya & _). destruct Hseason as [Hs He _ _ _].
  unfold seasonWindow, seasonPhase. rewrite Hs, He, text_ltb, text_leb, text_ltb by done. rewrite (proj2 (Z.ltb_ge n a)) by lia.
  destruct (n <=? b) eqn:E; bools; [assert (n = b) as -> by lia; by rewrite Z.ltb_irrefl|]. by rewrite (proj2 (Z.ltb_ge n b)) by lia.
Qed.
Lemma pointTotals_final from : pointTotals collection (rows ++ late)%list from (day_text b) = pointTotals collection rows from (day_text b).
Proof.
  destruct season_bounds as (Hab & Hb & _). unfold pointTotals. rewrite addDays_text by (done || unfold four_digit_year in *; lia). cbn [rbind].
  rewrite totals_final; [done|by rewrite text_leb, Z.leb_refl by done|by eexists].
Qed.
Lemma seasonWindows_final n : four_digit_year n → b <= n →
  seasonWindows collection season (rows ++ late)%list (day_text n) = seasonWindows collection season rows (day_text n).
Proof. intros Hn Hbn. unfold seasonWindows. rewrite seasonWindow_last by done. by rewrite pointTotals_final. Qed.
Lemma seasonWindows_closed l n n' : four_digit_year n → b < n → four_digit_year n' → b < n' →
  seasonWindows collection season l (day_text n) = seasonWindows collection season l (day_text n').
Proof.
  intros Hn Hbn Hn' Hbn'. destruct season_bounds as (Hab & Hb & Hya & _). unfold seasonWindows. rewrite !seasonWindow_last by (done || lia).
  destruct Hseason as [Hs He _ _ _]. rewrite !text_ltb by done. rewrite (proj2 (Z.ltb_lt b n)), (proj2 (Z.ltb_lt b n')) by done.
  assert (Hclose : ∀ m, four_digit_year m → b < m → seasonClosesAt season (day_text m) = Ok None).
  { intros m Hm Hbm. unfold seasonClosesAt, seasonPhase. rewrite Hs, He, text_ltb, text_leb by done.
    by rewrite (proj2 (Z.ltb_ge m a)), (proj2 (Z.leb_gt m b)) by lia. }
  by rewrite !Hclose by done.
Qed.
Lemma weeks_final now now' i : calendar_time now → calendar_time now' → hall_time <= now → hall_time <= now' → 0 <= i → 4 + i * 7 <= b →
  ∀ g, weekBoard (rows ++ late)%list collection g (week_text i) now' = weekBoard rows collection g (week_text i) now.
Proof.
  intros Hn Hn' H1 H2 Hi Hb g. assert (Hseal : seal_time i <= hall_time).
  { unfold seal_time, hall_time. pose proof (proj2 (monday_ge i b) Hb). unfold DAY_MS. lia. }
  rewrite !weekBoard_sealed by (done || lia). rewrite sealed_board_final; [done|].
  eapply Forall_impl; [exact Hlate|]. cbn. intros r [_ Hr]. lia.
Qed.
Lemma champions_final now now' fuel : calendar_time now → calendar_time now' → hall_time <= now → hall_time <= now' → ∀ i, 0 <= i → 4 + i * 7 <= b + 7 →
  champions_of collection fuel (rows ++ late)%list now' (day_text b) (week_text i) = champions_of collection fuel rows now (day_text b) (week_text i).
Proof.
  intros Hn Hn' H1 H2. destruct season_bounds as (Hab & Hb & Hya & _). assert (Hb8 : four_digit_year (b + 8)) by by destruct Hseason.
  induction fuel as [|fuel IH]; intros i Hi Hbi; [done|]. cbn [champions_of].
  assert (Hleb : String.leb (week_text i) (day_text b) = (4 + i * 7 <=? b)) by (unfold week_text; apply text_leb; [unfold four_digit_year in *; lia|done]).
  rewrite Hleb. destruct (4 + i * 7 <=? b) eqn:E; [|done]. bools.
  assert (Hmap : ∀ gs, mapr (λ g, let? b0 := weekBoard (rows ++ late)%list collection g (week_text i) now' in
                         Ok ((λ r, {| hc_week := week_text i; hc_game := g; hc_token := rw_token r; hc_seed := rw_seed r; hc_score := rw_score r |}) <$> head b0.2)) gs
     = mapr (λ g, let? b0 := weekBoard rows collection g (week_text i) now in
                         Ok ((λ r, {| hc_week := week_text i; hc_game := g; hc_token := rw_token r; hc_seed := rw_seed r; hc_score := rw_score r |}) <$> head b0.2)) gs).
  { intros gs. apply mapr_ext. intros g. by rewrite (weeks_final now now'). }
  rewrite Hmap. assert (Hnext : addDays (week_text i) 7 = Ok (week_text (i + 1))).
  { unfold week_text. rewrite addDays_text by (unfold four_digit_year in *; lia). do 2 f_equal. lia. }
  rewrite Hnext. destruct (mapr _ _); [|done]. rewrite IH by lia. done.
Qed.

Definition with_sealedAt (t : Z) (h : Hall) : Hall :=
  {| ha_parts := ha_parts h; ha_sealedAt := t; ha_start := ha_start h; ha_end := ha_end h; ha_entrants := ha_entrants h; ha_champions := ha_champions h;
     ha_streakPool := ha_streakPool h; ha_closeBlock := ha_closeBlock h; ha_raffle := ha_raffle h |}.
(** C33: A sealed hall is a fact: computed at any instant from the seal on, whatever rows
    settle after the seal, it is the same podium, teams, champions, streak pool, raffle and
    participants. *)
Theorem sealed_hall_is_final (block : string * string) (now now' : Z) : calendar_time now → calendar_time now' → hall_time <= now → hall_time <= now' →
  hallSealsAt season = Ok (Some hall_time)
  ∧ buildHall collection season isHash word draw (rows ++ late)%list block now'
    = match buildHall collection season isHash word draw rows block now with Ok h => Ok (with_sealedAt now' h) | Throw e => Throw e end.
Proof.
  intros Hn Hn' H1 H2. destruct season_bounds as (Hab & Hb & Hya & Hym). assert (Hb8 : four_digit_year (b + 8)) by by destruct Hseason.
  destruct (monday_spec b) as [Hmb _]. destruct (monday_spec a) as [Hma Hmod].
  assert (Hmono : monday a <= monday b) by (unfold monday in *; Z.to_euclidean_division_equations; lia).
  assert (Hi : ∀ m, (m + 3) mod 7 = 0 → 4 + (m - 4) / 7 * 7 = m) by (intros; Z.to_euclidean_division_equations; lia).
  pose proof Hseason as [Hs He _ _ _]. split.
  - unfold hallSealsAt. rewrite He, kstWeek_text by (done || unfold four_digit_year in *; lia). cbn [rbind].
    rewrite <- (Hi (monday b)) by apply monday_spec. rewrite weekCutoff_text; [cbn [rbind]|apply Z.div_pos; lia|].
    + unfold hall_time. rewrite <- (Hi (monday b)) at 2 by apply monday_spec. do 2 f_equal. unfold DAY_MS. lia.
    + pose proof (Hi (monday b) (proj2 (monday_spec b))). unfold four_digit_year in *. lia.
  - assert (Hlast : ∀ t, calendar_time t → hall_time <= t → four_digit_year (kst_number t) ∧ b < kst_number t).
    { intros t Ht Hh. split; [by apply kst_day|]. assert (monday b + 8 <= kst_number t); [|lia].
      unfold hall_time, kst_number, DAY_MS in *. Z.to_euclidean_division_equations; lia. }
    destruct (Hlast now Hn H1) as [Hy Hbn], (Hlast now' Hn' H2) as [Hy' Hbn'].
    assert (Hteam : teamBoard collection season isHash word (rows ++ late)%list (seasonPeriod season) now'
                    = teamBoard collection season isHash word rows (seasonPeriod season) now).
    { unfold teamBoard. destruct (kst_day _ Hn) as [_ ->], (kst_day _ Hn') as [_ ->]. cbn [rbind]. rewrite String.eqb_refl. cbn [String.eqb seasonPeriod season_text String.append Ascii.eqb].
      rewrite seasonWindows_final by (done || lia). by rewrite (seasonWindows_closed rows (kst_number now') (kst_number now)) by done. }
    unfold buildHall. rewrite Hs, He, seasonWindows_final by (done || lia). destruct (seasonWindows _ _ _ _) as [[sw|]|]; cbn [rbind]; [|done..].
    rewrite kstWeek_text by done. cbn [rbind]. rewrite <- (Hi (monday a)) by done. fold (week_text ((monday a - 4) / 7)).
    rewrite (champions_final now now') by (done || (apply Z.div_pos; lia) || (rewrite Hi by done; lia)).
    destruct (default _ _) as [champions|]; cbn [rbind]; [|done]. rewrite pointTotals_final. destruct (pointTotals _ _ _ _) as [totals|]; cbn [rbind]; [|done].
    destruct (streak_pool _ _) as [pool|]; cbn [rbind]; [|done]. rewrite Hteam. clear Hteam.
    destruct (teamBoard collection season isHash word rows (seasonPeriod season) now) as [team|]; cbn [rbind]; done.
Qed.
End Final.

(** ** Concrete boards *)
Section Cases.
Definition case_row (token : string) (score : Z) (day : string) (i attempt at_ : Z) : RankedRow :=
  {| rr_id := show_Z at_; rr_collection := "0xc0"; rr_token := token; rr_seed := "0x5eed"; rr_ruleset := ARCADE_RULESET_VERSION; rr_game := race;
     rr_day := day; rr_week := week_text i; rr_attempt := attempt; rr_score := score; rr_victory := true; rr_at := at_ |}.
Definition case_rows : list RankedRow :=
  [case_row "7" 50 "2026-06-02" 2943 1 1780401600000; case_row "8" 90 "2026-06-02" 2943 1 1780401700000; case_row "7" 120 "2026-06-02" 2943 2 1780401800000].
Lemma case_keys : NoDup (rank_key <$> case_rows).
Proof. apply (bool_decide_unpack _). vm_compute. exact I. Defined.

Definition case_season : Season := {| s_id := 1; s_start := Some "2026-06-01"; s_end := Some "2026-06-07" |}.
(** A first place, and a round of the season that settles after its seal. *)
Definition case_late : RankedRow := case_row "8" 900 "2026-06-07" 2943 1 1780931000000.
Lemma case_dated : dated case_season 20605 20611.
Proof. split; vm_compute; try reflexivity; try (split; congruence); congruence. Defined.
Lemma case_late_row : dated_row case_late.
Proof. exists 20611. split; [vm_compute; split; congruence|]. split; [vm_compute; split; congruence|]. split; vm_compute; reflexivity. Defined.
Definition case_hash (s : string) : bool := true.
Definition case_word (s : string) (i : Z) : Z := i.
Definition case_draw (s : string) (i : Z) : Z := i.
Lemma sealed_hall_is_final_witness :
  buildHall "0xC0" case_season case_hash case_word case_draw (case_rows ++ [case_late])%list ("1", "0xab") 1781000000000
  = match buildHall "0xC0" case_season case_hash case_word case_draw case_rows ("1", "0xab") 1780930800000 with
    | Ok h => Ok (with_sealedAt 1781000000000 h) | Throw e => Throw e end
  ∧ match buildHall "0xC0" case_season case_hash case_word case_draw case_rows ("1", "0xab") 1780930800000 with
    | Ok h => sh_participants (ha_parts h) = ["7"; "8"] ∧ hc_token <$> ha_champions h = ["7"] | Throw _ => False end.
Proof.
  split; [|vm_compute; split; reflexivity].
  assert (Hw : 4 <= monday 20605) by (vm_compute; congruence).
  assert (Hl : Forall (λ r, dated_row r ∧ hall_time 20611 <= rr_at r) [case_late])
    by (apply Forall_singleton; split; [exact case_late_row|vm_compute; congruence]).
  assert (Hc : ∀ t, 0 <= t <= 1790000000000 → calendar_time t) by (unfold calendar_time, DAY_MS; lia).
  assert (Hh : hall_time 20611 = 1780930800000) by (vm_compute; reflexivity).
  apply (sealed_hall_is_final "0xC0" case_season case_hash case_word case_draw 20605 20611 case_dated Hw case_rows [case_late] Hl ("1", "0xab")
    1780930800000 1781000000000); try (apply Hc; lia); rewrite Hh; lia.
Defined.
End Cases.
