(* ===== verification/Honors.v ===== *)
(** * Ranking honors

    apps/delegated-seller/ranking/honors.ts: the titles of sealed weeks, memoised once per
    week, and the honor an NFT may carry.  The book of one collection; the refinement at the
    end shows that the memo is a pure cache: in every history of settlements and reads the
    honor is the one computed afresh from the rows. *)

From Stdlib Require Import ZArith Lia Ascii String.
From stdpp Require Import base gmap strings list sets sorting relations.
From S2P Require Import Prelude Dates Token Budget Calendar Guardians Ranking Teams Season Outings Boards BoardFacts.
Open Scope string_scope.
Open Scope Z_scope.

Definition LANE_MAX : Z := 65535.
Record TitleRow := { t_week : string; t_game : GameId; t_token : string; t_place : Z }.
(** The book of a collection: the titles, and the weeks that are memoised. *)
Record TitleBook := { memo : list TitleRow; marked : list string }.
Definition empty_book : TitleBook := {| memo := []; marked := [] |}.

Section Book.
Variable collection : string.
Local Notation c := (toLowerCase collection).

(** The title holders of a week: the top ten of each game's board. *)
Definition week_titles (rows : list RankedRow) (week : string) (at_ : Z) : result (list TitleRow) :=
  let? boards := mapr (λ g, let? b := weekBoard rows collection g week at_ in
    Ok ((λ r, {| t_week := week; t_game := g; t_token := rw_token r; t_place := rw_rank r |}) <$> take (Z.to_nat BOARD_ROWS) b.2)) RANKED_GAMES in
  Ok (mjoin boards).
(** PRIMARY KEY (collection, week, game, token_id). *)
Definition title_key (t : TitleRow) : string * GameId * string := (t_week t, t_game t, t_token t).
Fixpoint insert_titles (ts memo_ : list TitleRow) : result (list TitleRow) :=
  match ts with
  | [] => Ok memo_
  | t :: ts => if existsb (λ s, bool_decide (title_key s = title_key t)) memo_ then Throw (SQLiteError "arcade_guardian_titles")
               else insert_titles ts (memo_ ++ [t])%list
  end.
(** The loop from [week] to the sealed week; [done_] is what was marked before it began.
    [None] when the fuel does not reach. *)
Fixpoint seal_loop (fuel : nat) (rows : list RankedRow) (at_ : Z) (sealed : string) (done_ : list string) (week : string) (b : TitleBook)
    : option (result TitleBook) :=
  match fuel with
  | O => None
  | S fuel =>
      if String.leb week sealed then
        match addDays week 7 with
        | Throw e => Some (Throw e)
        | Ok next =>
            if bool_decide (week ∈ done_) then seal_loop fuel rows at_ sealed done_ next b
            else
              match (let? ts := week_titles rows week at_ in
                     let? m := insert_titles ts (memo b) in
                     throws bool_decide (week ∈ marked b) with SQLiteError "arcade_guardian_title_weeks";
                     Ok {| memo := m; marked := (marked b ++ [week])%list |}) with
              | Ok b => seal_loop fuel rows at_ sealed done_ next b
              | Throw e => Some (Throw e)
              end
        end
      else Some (Ok b)
  end.
Definition seal_fuel (from to : string) : nat := match daysBetween from to with Ok n => Z.to_nat (n / 7) + 2 | Throw _ => 2 end%nat.
Definition seal (rows : list RankedRow) (at_ : Z) (b : TitleBook) : result (option string * TitleBook) :=
  let? sealed := sealedWeek at_ in
  match sealed with
  | None => Ok (None, b)
  | Some s =>
      match first_text (rr_week <$> filter (λ r, rr_collection r = c) rows) with
      | None => Ok (Some s, b)
      | Some first => let? b := default (Throw no_fuel) (seal_loop (seal_fuel first s) rows at_ s (marked b) first b) in Ok (Some s, b)
      end
  end.

(** [game[tier] = Math.min(LANE_MAX, game[tier] + 1)]. *)
Definition bump (tier : Title) (g : GuardianTitleCounts) : GuardianTitleCounts :=
  match tier with
  | champion_ => {| champion := Z.min LANE_MAX (champion g + 1); podium := podium g; top10 := top10 g |}
  | podium_ => {| champion := champion g; podium := Z.min LANE_MAX (podium g + 1); top10 := top10 g |}
  | top10_ => {| champion := champion g; podium := podium g; top10 := Z.min LANE_MAX (top10 g + 1) |}
  end.
Definition game_index (g : GameId) : nat := match list_find (λ h, h = g) RANKED_GAMES with Some (i, _) => i | None => 3%nat end.
Definition add_title (ts : list GuardianTitleCounts) (t : TitleRow) : list GuardianTitleCounts :=
  match titlePlace (t_place t) with Some tier => alter (bump tier) (game_index (t_game t)) ts | None => ts end.
(** The honor of the titles [ts] and of the attendance up to the sealed week. *)
Definition honor_of (rows : list RankedRow) (token sealed : string) (ts : list TitleRow) : result (option GuardianHonors) :=
  let titles := foldl add_title (titles emptyHonors) ts in
  let? last := addDays sealed 6 in
  let? cutoff := weekCutoff sealed in
  let days := remove_dups (rr_day <$> filter (λ r, rr_collection r = c ∧ rr_token r = token ∧ String.leb (rr_day r) last = true ∧ rr_at r < cutoff) rows) in
  let? streak := guardianStreak days last in
  let longest := Z.min LANE_MAX (best (gs_run streak)) in
  if (longest =? 0) && forallb (λ t, (champion t =? 0) && (podium t =? 0) && (top10 t =? 0)) titles then Ok None
  else let? w := rankingWeekIndex sealed in Ok (Some {| week := w; longestStreak := longest; titles := titles |}).
Definition honor (rows : list RankedRow) (token : string) (at_ : Z) (b : TitleBook) : result (option GuardianHonors * TitleBook) :=
  let? sb := seal rows at_ b in
  match sb.1 with
  | None => Ok (None, sb.2)
  | Some s => let? h := honor_of rows token s (filter (λ t, t_token t = token ∧ String.leb (t_week t) s = true) (memo sb.2)) in Ok (h, sb.2)
  end.

(** ** Without a memo *)
(** Every title up to week [n], from the boards of the rows. *)
Definition fresh_week (rows : list RankedRow) (i : Z) : list TitleRow :=
  RANKED_GAMES ≫= λ g, (λ r, {| t_week := week_text i; t_game := g; t_token := rw_token r; t_place := rw_rank r |}) <$>
    take (Z.to_nat BOARD_ROWS) (sealed_board rows c g i).2.
Definition fresh_titles (rows : list RankedRow) (n : Z) : list TitleRow := seqZ 0 (n + 1) ≫= fresh_week rows.
Definition fresh_honor (rows : list RankedRow) (token : string) (at_ : Z) : result (option GuardianHonors) :=
  let? sealed := sealedWeek at_ in
  match sealed with
  | None => Ok None
  | Some s => let? i := rankingWeekIndex s in honor_of rows token s (filter (λ t, t_token t = token) (fresh_titles rows i))
  end.

(** ** Titles of a sealed week *)
Lemma week_titles_sealed rows i at_ : calendar_time at_ → 0 <= i → seal_time i <= at_ → week_titles rows (week_text i) at_ = Ok (fresh_week rows i).
Proof.
  intros Hat Hi Hs. unfold week_titles, fresh_week.
  assert (Hm : ∀ gs, mapr (λ g, let? b := weekBoard rows collection g (week_text i) at_ in
      Ok ((λ r, {| t_week := week_text i; t_game := g; t_token := rw_token r; t_place := rw_rank r |}) <$> take (Z.to_nat BOARD_ROWS) b.2)) gs
    = Ok ((λ g, (λ r, {| t_week := week_text i; t_game := g; t_token := rw_token r; t_place := rw_rank r |}) <$>
        take (Z.to_nat BOARD_ROWS) (sealed_board rows c g i).2) <$> gs)).
  { induction gs as [|g gs IH]; [done|]. cbn [mapr]. rewrite weekBoard_sealed by done. cbn [rbind]. by rewrite IH. }
  rewrite Hm. cbn [rbind]. by rewrite list_bind_fmap_mjoin || done.
Qed.
Lemma board_tokens rows coll ruleset g w cutoff : NoDup (rw_token <$> WEEK_BOARD rows coll ruleset g w cutoff).
Proof.
  unfold WEEK_BOARD. set (l := counted_days _).
  set (ts := merge_sort _ _). assert (E : rw_token <$> imap (λ i t, plain_row (Z.of_nat i + 1) (to_token t) (to_seed t) (to_score t)) ts = to_token <$> ts).
  { apply list_eq. intros i. rewrite !list_lookup_fmap, list_lookup_imap. by destruct (ts !! i). }
  rewrite E. unfold ts. rewrite (merge_sort_Permutation (not_after total_order)), <- list_fmap_compose.
  assert (Hid : to_token ∘ total_of l <$> remove_dups (rr_token <$> l) = remove_dups (rr_token <$> l)) by (etransitivity; [|apply list_fmap_id]; by apply list_fmap_ext).
  rewrite Hid. apply NoDup_remove_dups.
Qed.
Lemma fresh_week_elem rows i t : t ∈ fresh_week rows i → t_week t = week_text i.
Proof. unfold fresh_week. intros (g & Hin & _)%list_elem_of_bind. by apply list_elem_of_fmap in Hin as (r & -> & _). Qed.
Lemma fresh_week_keys rows i : NoDup (title_key <$> fresh_week rows i).
Proof.
  assert (Hone : ∀ g, NoDup (title_key <$> ((λ r, {| t_week := week_text i; t_game := g; t_token := rw_token r; t_place := rw_rank r |}) <$>
      take (Z.to_nat BOARD_ROWS) (sealed_board rows c g i).2))).
  { intros g. rewrite <- list_fmap_compose. apply NoDup_fmap_2_strong.
    - intros x y Hx Hy E. unfold compose, title_key in E. cbn in E. assert (Et : rw_token x = rw_token y) by congruence. pose proof (board_tokens rows c (sealed_board rows c g i).1 g (week_text i) (seal_time i)) as Hnd.
      assert (Hb : WEEK_BOARD rows c (sealed_board rows c g i).1 g (week_text i) (seal_time i) = (sealed_board rows c g i).2) by done.
      rewrite Hb in Hnd. apply (taken_elem _ _) in Hx, Hy. by eapply fmap_once.
    - eapply (NoDup_fmap_1 rw_token). rewrite fmap_take.
      pose proof (board_tokens rows c (sealed_board rows c g i).1 g (week_text i) (seal_time i)) as Hnd.
      change (WEEK_BOARD rows c (sealed_board rows c g i).1 g (week_text i) (seal_time i)) with (sealed_board rows c g i).2 in Hnd.
      rewrite <- (take_drop (Z.to_nat BOARD_ROWS)) in Hnd. by apply NoDup_app in Hnd as [? _]. }
  unfold fresh_week, RANKED_GAMES. cbn [mbind list_bind]. rewrite app_nil_r, !fmap_app.
  assert (Hsep : ∀ g h k, g ≠ h → k ∈ (title_key <$> ((λ r, {| t_week := week_text i; t_game := g; t_token := rw_token r; t_place := rw_rank r |}) <$>
      take (Z.to_nat BOARD_ROWS) (sealed_board rows c g i).2)) → k ∉ (title_key <$> ((λ r, {| t_week := week_text i; t_game := h; t_token := rw_token r; t_place := rw_rank r |}) <$>
      take (Z.to_nat BOARD_ROWS) (sealed_board rows c h i).2))).
  { intros g h k Hne H1 H2. rewrite <- list_fmap_compose in H1, H2. apply list_elem_of_fmap in H1 as (x & -> & _), H2 as (y & E & _).
    unfold title_key in E. cbn in E. congruence. }
  rewrite !NoDup_app. split_and!; try apply Hone.
  - intros k Hk. apply not_elem_of_app. split; (eapply Hsep; [|exact Hk]; done).
  - intros k Hk. (eapply Hsep; [|exact Hk]; done).
Qed.
Lemma insert_titles_ok ts : ∀ m, NoDup (title_key <$> ts) → (∀ t s, t ∈ ts → s ∈ m → title_key s ≠ title_key t) → insert_titles ts m = Ok (m ++ ts)%list.
Proof.
  induction ts as [|t ts IH]; intros m Hnd Hm; cbn [insert_titles]; [by rewrite app_nil_r|].
  apply NoDup_cons in Hnd as [Hnt Hnd]. destruct (existsb _ m) eqn:E.
  - apply existsb_exists in E as (s & Hs & Hk). apply list_elem_of_In in Hs. apply bool_decide_eq_true in Hk.
    exfalso. apply (Hm t s); [by left|done|done].
  - rewrite IH; [by rewrite <- app_assoc|done|]. intros t' s Ht' [Hs| ->%list_elem_of_singleton]%elem_of_app.
    + apply Hm; [by right|done].
    + intros Ek. apply Hnt. rewrite Ek. by apply list_elem_of_fmap_2.
Qed.

(** ** The memo *)
(** At the instant [t] the book holds exactly the titles of the weeks it marked, all sealed. *)
Record book_ok (rows : list RankedRow) (t : Z) (b : TitleBook) : Prop := {
  bk_sealed : ∀ w, w ∈ marked b → ∃ i, 0 <= i ∧ w = week_text i ∧ four_digit_year (11 + i * 7) ∧ seal_time i <= t;
  bk_titles : ∀ i, 0 <= i → four_digit_year (11 + i * 7) → week_text i ∈ marked b → filter (λ t, t_week t = week_text i) (memo b) = fresh_week rows i;
  bk_marked : ∀ t, t ∈ memo b → t_week t ∈ marked b }.
Lemma week_text_inj i j : four_digit_year (4 + i * 7) → four_digit_year (4 + j * 7) → week_text i = week_text j → i = j.
Proof. unfold week_text. intros Hi Hj E. apply day_text_inj in E; [lia|done..]. Qed.
Lemma fresh_week_final rows late i : Forall (λ r, seal_time i <= rr_at r) late → fresh_week (rows ++ late)%list i = fresh_week rows i.
Proof. intros Hl. unfold fresh_week, RANKED_GAMES. cbn [mbind list_bind]. by rewrite !sealed_board_final. Qed.
Lemma marked_seal rows t b i : book_ok rows t b → four_digit_year (11 + i * 7) → 0 <= i → week_text i ∈ marked b → seal_time i <= t.
Proof.
  intros [Hs _ _] Hy Hi Hw. destruct (Hs _ Hw) as (j & Hj & E & Hyj & Hst).
  apply week_text_inj in E; [by subst|unfold four_digit_year in *; lia..].
Qed.
Lemma settle_book rows t t' b r : book_ok rows t b → t <= t' → t <= rr_at r → book_ok (rows ++ [r])%list t' b.
Proof.
  intros Hb Htt Hr. pose proof Hb as [Hs Ht Hm]. split; [|intros i Hi Hy Hw|done].
  - intros w Hw. destruct (Hs w Hw) as (i & ? & ? & ? & ?). exists i. split_and!; [done..|lia].
  - rewrite fresh_week_final; [by apply Ht|]. apply Forall_singleton. pose proof (marked_seal _ _ _ i Hb Hy Hi Hw). lia.
Qed.
Lemma later_book rows t t' b : book_ok rows t b → t <= t' → book_ok rows t' b.
Proof. intros [Hs Ht Hm] Htt. split; [|done..]. intros w Hw. destruct (Hs w Hw) as (i & ? & ? & ? & ?). exists i. split_and!; [done..|lia]. Qed.

Lemma filter_all {A} (P : A → Prop) `{∀ x, Decision (P x)} (l : list A) : Forall P l → filter P l = l.
Proof. induction 1 as [|x l Hx _ IH]; [done|]. by rewrite filter_cons_True, IH. Qed.
(** One week more in the book. *)
Lemma mark_week rows t b i : book_ok rows t b → 0 <= i → four_digit_year (11 + i * 7) → seal_time i <= t → week_text i ∉ marked b →
  insert_titles (fresh_week rows i) (memo b) = Ok (memo b ++ fresh_week rows i)%list
  ∧ book_ok rows t {| memo := memo b ++ fresh_week rows i; marked := marked b ++ [week_text i] |}%list.
Proof.
  intros [Hs Ht Hm] Hi Hy Hst Hnew. split.
  - apply insert_titles_ok; [apply fresh_week_keys|]. intros x s Hx Hsm E. apply fresh_week_elem in Hx. apply Hm in Hsm.
    unfold title_key in E. assert (t_week s = t_week x) by congruence. congruence.
  - split; cbn [marked memo].
    + intros w [Hw| ->%list_elem_of_singleton]%elem_of_app; [by apply Hs|]. exists i. done.
    + intros j Hj Hyj Hw. rewrite filter_app. destruct (decide (i = j)) as [->|Hne].
      * assert (E1 : filter (λ x, t_week x = week_text j) (memo b) = []).
        { apply elem_of_nil_inv. intros x [Hx Hin]%list_elem_of_filter. apply Hm in Hin. congruence. }
        rewrite E1. cbn [app]. apply filter_all. apply Forall_forall. intros x Hx. by apply fresh_week_elem in Hx.
      * assert (E2 : filter (λ x, t_week x = week_text j) (fresh_week rows i) = []).
        { apply elem_of_nil_inv. intros x [Hx Hin]%list_elem_of_filter. apply fresh_week_elem in Hin. apply Hne.
          apply week_text_inj; [unfold four_digit_year in *; lia..|congruence]. }
        rewrite E2, app_nil_r. apply Ht; [done|done|]. apply elem_of_app in Hw as [Hw|E%list_elem_of_singleton]; [done|].
        exfalso. apply Hne. symmetry. apply week_text_inj; [unfold four_digit_year in *; lia..|done].
    + intros x [Hx|Hx]%elem_of_app; apply elem_of_app; [left; by apply Hm|right]. apply fresh_week_elem in Hx. rewrite Hx. by left.
Qed.
Lemma seal_loop_ok rows at_ t n done_ fuel : calendar_time at_ → at_ <= t → seal_time n <= at_ → ∀ i b, 0 <= i → i <= n + 1 →
  (Z.to_nat (n + 1 - i) < fuel)%nat → book_ok rows t b → (∀ w, w ∈ marked b → w ∈ done_ ∨ ∃ j, 0 <= j < i ∧ w = week_text j) → (∀ w, w ∈ done_ → w ∈ marked b) →
  ∃ b', seal_loop fuel rows at_ (week_text n) done_ (week_text i) b = Some (Ok b') ∧ book_ok rows t b'
    ∧ (∀ w, w ∈ marked b → w ∈ marked b') ∧ ∀ j, i <= j <= n → week_text j ∈ marked b'.
Proof.
  intros Hat Htt Hn. induction fuel as [|fuel IH]; intros i b Hi Hin Hf Hb Hmk Hdone; [lia|]. cbn [seal_loop].
  destruct (decide (0 <= n)) as [Hn0|Hneg].
  2: { assert (i = 0 ∧ n = -1) as [-> ->] by lia. exists b. split_and!; try done; lia. }
  destruct (sealed_year n at_ Hat Hn0 Hn) as [Hy Hy4].
  assert (Hleb : String.leb (week_text i) (week_text n) = (i <=? n)).
  { unfold week_text. rewrite text_leb by (unfold four_digit_year in *; lia). destruct (Z.leb_spec i n), (Z.leb_spec (4 + i * 7) (4 + n * 7)); lia || done. }
  rewrite Hleb. destruct (i <=? n) eqn:E; bools; [|exists b; split_and!; try done; lia].
  assert (Hnext : addDays (week_text i) 7 = Ok (week_text (i + 1))).
  { unfold week_text. rewrite addDays_text by (unfold four_digit_year in *; lia). do 2 f_equal. lia. }
  rewrite Hnext. destruct (bool_decide (week_text i ∈ done_)) eqn:Ed.
  - apply bool_decide_eq_true in Ed. destruct (IH (i + 1) b) as (b' & Hloop & Hok & Hsub & Hall); [lia|lia|lia|done| |done|].
    { intros w Hw. destruct (Hmk w Hw) as [|(j & Hj & ->)]; [by left|right]. exists j. split; [lia|done]. }
    exists b'. split_and!; [done..|]. intros j Hj. destruct (decide (j = i)) as [->|]; [by apply Hsub, Hdone|apply Hall; lia].
  - apply bool_decide_eq_false in Ed.
    assert (Hyi : four_digit_year (11 + i * 7)) by (unfold four_digit_year in *; lia).
    assert (Hsi : seal_time i <= at_) by (unfold seal_time, DAY_MS in *; lia).
    assert (Hnew : week_text i ∉ marked b).
    { intros Hw. destruct (Hmk _ Hw) as [|(j & Hj & Ej)]; [done|]. apply week_text_inj in Ej; [lia|unfold four_digit_year in *; lia..]. }
    destruct (mark_week rows t b i Hb Hi Hyi ltac:(lia) Hnew) as [Hins Hb1].
    rewrite week_titles_sealed by done. cbn [rbind]. rewrite Hins. cbn [rbind]. rewrite bool_decide_eq_false_2 by done. cbn [throw_when rbind].
    destruct (IH (i + 1) _ ltac:(lia) ltac:(lia) ltac:(lia) Hb1) as (b' & Hloop & Hok & Hsub & Hall).
    { cbn [marked]. intros w [Hw|Hw%list_elem_of_singleton]%elem_of_app.
      - destruct (Hmk w Hw) as [|(j & Hj & ->)]; [by left|right]. exists j. split; [lia|done].
      - right. exists i. split; [lia|done]. }
    { intros w Hw. apply elem_of_app. left. by apply Hdone. }
    exists b'. split_and!; [done|done| |].
    + intros w Hw. apply Hsub, elem_of_app. by left.
    + intros j Hj. destruct (decide (j = i)) as [->|]; [|apply Hall; lia]. apply Hsub, elem_of_app. right. by left.
Qed.

(** Rows of weeks from week 0 on. *)
Definition ranked_row (r : RankedRow) : Prop := ∃ i, 0 <= i ∧ four_digit_year (4 + i * 7) ∧ rr_week r = week_text i.
Lemma no_week_rows rows i : (∀ r, r ∈ rows → rr_collection r = c → rr_week r ≠ week_text i) → fresh_week rows i = [].
Proof.
  intros H. unfold fresh_week, RANKED_GAMES, sealed_board, WEEK_BOARD, week_rows. cbn [mbind list_bind snd].
  assert (E : ∀ k g cut, filter (λ r, rr_collection r = c ∧ rr_ruleset r = k ∧ rr_game r = g ∧ rr_week r = week_text i ∧ rr_at r < cut) rows = []).
  { intros k g cut. apply elem_of_nil_inv. intros r [(Hc & _ & _ & Hw & _) Hin]%list_elem_of_filter. by eapply H. }
  rewrite !E. done.
Qed.
(** After the seal the memo has every sealed week. *)
Lemma seal_ok rows at_ t b : calendar_time at_ → at_ <= t → Forall ranked_row rows → book_ok rows t b →
  ∃ sealed b', sealedWeek at_ = Ok sealed ∧ seal rows at_ b = Ok (sealed, b') ∧ book_ok rows t b'
    ∧ ∀ s, sealed = Some s → ∃ n, 0 <= n ∧ s = week_text n ∧ four_digit_year (11 + n * 7)
        ∧ ∀ j, 0 <= j <= n → filter (λ x, t_week x = week_text j) (memo b') = fresh_week rows j.
Proof.
  intros Hat Htt Hrows Hb. pose proof (calendar_day _ Hat) as Hd. destruct (monday_spec (kst_number at_ - 1)) as [Hm Hmod].
  unfold seal. rewrite sealedWeek_number by done. cbn zeta. set (m := monday (kst_number at_ - 1) - 7) in *. cbn [rbind].
  destruct (4 <? m) eqn:E; bools; [|exists None, b; split_and!; done].
  assert (Hex : ∃ n, m = 4 + n * 7 ∧ 0 <= n ∧ seal_time n <= at_).
  { exists ((m - 4) / 7). assert (m = 4 + (m - 4) / 7 * 7) by (subst m; Z.to_euclidean_division_equations; lia).
    split_and!; [done|lia|]. apply sealed_by. lia. }
  destruct Hex as (n & Em & Hn & Hseal). clearbody m. subst m.
  destruct (sealed_year n at_ Hat Hn Hseal) as [Hy Hy4]. change (day_text (4 + n * 7)) with (week_text n).
  (** Either way the marked weeks are right and the others have no rows. *)
  assert (Hrest : ∀ b', book_ok rows t b' → (∀ j, 0 <= j <= n → week_text j ∈ marked b' ∨ (∀ r, r ∈ rows → rr_collection r = c → rr_week r ≠ week_text j)) →
    ∀ j, 0 <= j <= n → filter (λ x, t_week x = week_text j) (memo b') = fresh_week rows j).
  { intros b' [Hs' Ht' Hm'] Hall j Hj. assert (Hyj : four_digit_year (11 + j * 7)) by (unfold four_digit_year in *; lia).
    destruct (decide (week_text j ∈ marked b')) as [Hw|Hw]; [apply Ht'; [lia|exact Hyj|exact Hw]|].
    destruct (Hall j Hj) as [|Hno]; [done|]. rewrite no_week_rows by done. apply elem_of_nil_inv.
    intros x [Hx Hin]%list_elem_of_filter. apply Hm' in Hin. congruence. }
  set (ws := rr_week <$> filter (λ r, rr_collection r = c) rows).
  assert (Hws : ∀ w, w ∈ ws ↔ ∃ r, w = rr_week r ∧ rr_collection r = c ∧ r ∈ rows).
  { intros w. unfold ws. rewrite list_elem_of_fmap. setoid_rewrite list_elem_of_filter. naive_solver. }
  destruct (decide (ws = [])) as [E0|Hne].
  - rewrite E0. cbn [first_text]. exists (Some (week_text n)), b. split_and!; [done..|]. intros s [= <-]. exists n. split_and!; [done..|].
    apply Hrest; [done|]. intros j Hj. right. intros r Hr Hc _. assert (Hin : rr_week r ∈ ws) by (apply Hws; eauto). rewrite E0 in Hin. by apply elem_of_nil in Hin.
  - destruct (first_text_first ws) as (k & -> & Hk & Hin & Hmin); [|done|].
    { apply Forall_forall. intros w (r & -> & _ & Hr)%Hws. rewrite Forall_forall in Hrows. destruct (Hrows r Hr) as (i & _ & Hi & ->). by apply ranking_day_text. }
    apply Hws in Hin as (r & Er & Hc & Hr). pose proof Hrows as Hrows'. rewrite Forall_forall in Hrows'. destruct (Hrows' r Hr) as (i & Hi & Hyi & Ew).
    assert (Ek : k = 4 + i * 7) by (apply day_text_inj; [done..|]; rewrite Er, Ew; done). rewrite Ek. change (day_text (4 + i * 7)) with (week_text i).
    assert (Hbefore : ∀ j, 0 <= j < i → ∀ r, r ∈ rows → rr_collection r = c → rr_week r ≠ week_text j).
    { intros j Hj r' Hr' Hc' Ej. assert (Hyj : four_digit_year (4 + j * 7)) by (unfold four_digit_year in *; lia).
      assert (Hle : k <= 4 + j * 7); [|lia]. apply Hmin; [done|]. apply Hws. exists r'. done. }
    assert (Hfuel : (Z.to_nat (n + 1 - i) < seal_fuel (week_text i) (week_text n))%nat).
    { unfold seal_fuel, week_text. rewrite daysBetween_text by done. replace (4 + n * 7 - (4 + i * 7)) with ((n - i) * 7) by lia.
      rewrite Z.div_mul by done. lia. }
    destruct (decide (i <= n + 1)) as [Hin|Hlater].
    + destruct (seal_loop_ok rows at_ t n (marked b) (seal_fuel (week_text i) (week_text n)) Hat Htt Hseal i b Hi Hin Hfuel Hb ltac:(by left) ltac:(done))
        as (b' & Hloop & Hok & Hsub & Hall).
      rewrite Hloop. cbn [default rbind]. exists (Some (week_text n)), b'. split_and!; [done..|]. intros s [= <-]. exists n. split_and!; [done..|].
      apply Hrest; [done|]. intros j Hj. destruct (decide (j < i)); [right; apply Hbefore; lia|left; apply Hall; lia].
    + assert (Hloop : seal_loop (seal_fuel (week_text i) (week_text n)) rows at_ (week_text n) (marked b) (week_text i) b = Some (Ok b)).
      { assert (Hf : (0 < seal_fuel (week_text i) (week_text n))%nat) by (unfold seal_fuel; destruct (daysBetween _ _); lia).
        destruct (seal_fuel (week_text i) (week_text n)) as [|f]; [lia|]. cbn [seal_loop]. unfold week_text at 1 2. rewrite text_leb by done. by rewrite (proj2 (Z.leb_gt _ _)) by lia. }
      rewrite Hloop. cbn [default rbind]. exists (Some (week_text n)), b. split_and!; [done..|]. intros s [= <-]. exists n. split_and!; [done..|].
      apply Hrest; [done|]. intros j Hj. right. apply Hbefore. lia.
Qed.

(** The order of the titles does not matter. *)
Lemma bump_comm a b g : bump a (bump b g) = bump b (bump a g).
Proof. by destruct a, b. Qed.
Lemma add_title_comm ts a b : add_title (add_title ts a) b = add_title (add_title ts b) a.
Proof.
  unfold add_title. destruct (titlePlace (t_place a)) as [x|], (titlePlace (t_place b)) as [y|]; try done.
  destruct (decide (game_index (t_game a) = game_index (t_game b))) as [->|Hne].
  - rewrite !list_alter_alter_eq. apply list_alter_ext; [|done]. intros g _. apply bump_comm.
  - by rewrite list_alter_alter_ne.
Qed.
Lemma titles_perm ts l l' : l ≡ₚ l' → foldl add_title ts l = foldl add_title ts l'.
Proof.
  intros H. revert ts. induction H as [|x l l' _ IH|x y l|l l' l'' _ IH1 _ IH2]; intros ts; cbn [foldl].
  - done.
  - apply IH.
  - by rewrite add_title_comm.
  - by rewrite IH1.
Qed.
Lemma part_perm {A} (P : A → Prop) `{∀ x, Decision (P x)} (l : list A) : filter P l ++ filter (λ x, ¬ P x) l ≡ₚ l.
Proof.
  induction l as [|x l IH]; [done|]. rewrite !filter_cons. destruct (decide (P x)).
  - rewrite decide_False by tauto. cbn. by rewrite IH.
  - rewrite decide_True by done. by rewrite <- Permutation_middle, IH.
Qed.
(** A list is its parts by week. *)
Lemma by_week_perm (ks : list Z) : ∀ l : list TitleRow, NoDup ks → (∀ k, k ∈ ks → four_digit_year (4 + k * 7)) →
  (∀ x, x ∈ l → ∃ k, k ∈ ks ∧ t_week x = week_text k) → l ≡ₚ ks ≫= λ k, filter (λ x, t_week x = week_text k) l.
Proof.
  induction ks as [|k ks IH]; intros l Hnd Hy Hl.
  - destruct l as [|x l]; [done|]. destruct (Hl x) as (k & Hk & _); [by left|]. by apply elem_of_nil in Hk.
  - apply NoDup_cons in Hnd as [Hk Hnd]. cbn [mbind list_bind].
    rewrite <- (part_perm (λ x, t_week x = week_text k) l) at 1. apply Permutation_app_head.
    rewrite (IH (filter (λ x, ¬ t_week x = week_text k) l)); [|done|intros j Hj; apply Hy; by right|].
    + apply reflexive_eq. apply Forall_bind_ext. apply Forall_forall. intros j Hj. rewrite list_filter_filter. apply list_filter_iff.
      intros x. split; [tauto|]. intros Ex. split; [done|]. intros Ex'. assert (j = k) as ->; [|done].
      apply week_text_inj; [apply Hy; by right|apply Hy; by left|congruence].
    + intros x [Hx Hin]%list_elem_of_filter. destruct (Hl x Hin) as (j & [->|Hj]%elem_of_cons & Ej); [done|]. by exists j.
Qed.

Lemma honor_of_perm rows token s l l' : l ≡ₚ l' → honor_of rows token s l = honor_of rows token s l'.
Proof. intros H. unfold honor_of. by rewrite (titles_perm _ _ _ H). Qed.
Lemma honor_fresh rows at_ t b token : calendar_time at_ → at_ <= t → Forall ranked_row rows → book_ok rows t b →
  ∃ b', book_ok rows t b' ∧ honor rows token at_ b = (let? h := fresh_honor rows token at_ in Ok (h, b')).
Proof.
  intros Hat Htt Hrows Hb. destruct (seal_ok rows at_ t b Hat Htt Hrows Hb) as (sealed & b' & Hsw & Hseal & Hb' & Hmemo).
  exists b'. split; [done|]. unfold honor, fresh_honor. rewrite Hseal, Hsw. cbn [rbind fst snd]. destruct sealed as [s|]; [|done].
  destruct (Hmemo s eq_refl) as (n & Hn & -> & Hy & Hall). assert (Hy4 : four_digit_year (4 + n * 7)) by (unfold four_digit_year in *; lia).
  assert (Hidx : rankingWeekIndex (week_text n) = Ok n) by by apply rankingWeekIndex_text.
  rewrite Hidx. cbn [rbind].
  rewrite (honor_of_perm rows token (week_text n) _ (filter (λ t, t_token t = token) (fresh_titles rows n))); [done|].
  assert (Hle : ∀ k, 0 <= k → four_digit_year (4 + k * 7) → String.leb (week_text k) (week_text n) = (k <=? n)).
  { intros k Hk Hyk. unfold week_text. rewrite text_leb by done. destruct (Z.leb_spec k n), (Z.leb_spec (4 + k * 7) (4 + n * 7)); lia || done. }
  rewrite <- list_filter_filter. apply filter_Permutation.
  rewrite (by_week_perm (seqZ 0 (n + 1)) (filter (λ x, String.leb (t_week x) (week_text n) = true) (memo b'))).
  - unfold fresh_titles. apply reflexive_eq, Forall_bind_ext. apply Forall_forall. intros j Hj%elem_of_seqZ. rewrite <- (Hall j) by lia.
    rewrite list_filter_filter. apply list_filter_iff. intros x. split; [tauto|]. intros Ex. split; [done|]. rewrite Ex, Hle; [apply Z.leb_le; lia|lia|].
    unfold four_digit_year in *; lia.
  - apply NoDup_seqZ.
  - intros k Hk%elem_of_seqZ. unfold four_digit_year in *; lia.
  - intros x [Hx Hin]%list_elem_of_filter. apply (bk_marked _ _ _ Hb') in Hin. destruct (bk_sealed _ _ _ Hb' _ Hin) as (k & Hk & Ek & Hyk & _).
    exists k. split; [|done]. rewrite Ek, Hle in Hx by (done || unfold four_digit_year in *; lia). bools. apply elem_of_seqZ. lia.
Qed.

(** ** Histories *)
Record HonorWorld := { hw_rows : list RankedRow; hw_book : TitleBook; hw_clock : Z }.
(** A round settles at its instant, or an honor is read at an instant no later than now. *)
Inductive hstep : HonorWorld → HonorWorld → Prop :=
  | hs_settle W r : hw_clock W <= rr_at r → ranked_row r →
      hstep W {| hw_rows := (hw_rows W ++ [r])%list; hw_book := hw_book W; hw_clock := rr_at r |}
  | hs_read W token at_ now h b : hw_clock W <= now → at_ <= now → calendar_time at_ → honor (hw_rows W) token at_ (hw_book W) = Ok (h, b) →
      hstep W {| hw_rows := hw_rows W; hw_book := b; hw_clock := now |}.
Definition honor_start (t : Z) : HonorWorld := {| hw_rows := []; hw_book := empty_book; hw_clock := t |}.
Definition honor_inv (W : HonorWorld) : Prop := Forall ranked_row (hw_rows W) ∧ book_ok (hw_rows W) (hw_clock W) (hw_book W).
Lemma hstep_inv W W' : hstep W W' → honor_inv W → honor_inv W'.
Proof.
  intros Hstep [Hr Hb]. destruct Hstep as [W r Ht Hrow|W token at_ now h b Ht Hat Hcal Hh].
  - split; [by apply Forall_app_2; [|apply Forall_singleton]|]. cbn. by eapply settle_book.
  - split; [done|]. cbn in *. destruct (honor_fresh (hw_rows W) at_ now (hw_book W) token Hcal Hat Hr (later_book _ _ _ _ Hb Ht)) as (b' & Hb' & E).
    rewrite E in Hh. apply rbind_ok in Hh as (x & _ & [= _ <-]). done.
Qed.
Lemma honor_history t W : rtc hstep (honor_start t) W → honor_inv W.
Proof.
  apply (rtc_ind_r (R:=hstep) honor_inv); [|intros V V' _ Hs Hi; by eapply hstep_inv].
  split; [by constructor|]. split; cbn.
  - intros w Hw. by apply elem_of_nil in Hw.
  - intros i _ _ Hw. by apply elem_of_nil in Hw.
  - intros x Hx. by apply elem_of_nil in Hx.
Qed.

(** C34: The memo of titles is a pure cache: in every history of settled rounds and read
    honors, an honor read at any instant up to now is the one computed from the rows alone,
    over every sealed week, and reading it is never refused by the memo's keys. *)
Theorem memo_is_a_cache t W token at_ : rtc hstep (honor_start t) W → calendar_time at_ → at_ <= hw_clock W →
  ∃ b, honor (hw_rows W) token at_ (hw_book W) = (let? h := fresh_honor (hw_rows W) token at_ in Ok (h, b)).
Proof.
  intros [Hr Hb]%honor_history Hat Hle. destruct (honor_fresh (hw_rows W) at_ (hw_clock W) (hw_book W) token Hat Hle Hr Hb) as (b & _ & E).
  by exists b.
Qed.

(** Lanes only grow. *)
Definition counts_le (a b : GuardianTitleCounts) : Prop := champion a <= champion b ∧ podium a <= podium b ∧ top10 a <= top10 b.
Definition lanes_fit (g : GuardianTitleCounts) : Prop := champion g <= LANE_MAX ∧ podium g <= LANE_MAX ∧ top10 g <= LANE_MAX.
#[local] Instance counts_le_trans : Transitive counts_le.
Proof. intros a b d. unfold counts_le. lia. Qed.
Lemma counts_le_refl ts : Forall2 counts_le ts ts.
Proof. apply Forall2_same_length_lookup_2; [done|]. intros i x y Hx Hy. assert (x = y) as -> by congruence. unfold counts_le. lia. Qed.
Lemma add_title_grows ts t : Forall lanes_fit ts → Forall2 counts_le ts (add_title ts t) ∧ Forall lanes_fit (add_title ts t).
Proof.
  intros Hfit. unfold add_title. destruct (titlePlace (t_place t)) as [tier|]; [|split; [apply counts_le_refl|done]].
  assert (Hbump : ∀ g, lanes_fit g → counts_le g (bump tier g) ∧ lanes_fit (bump tier g)).
  { unfold lanes_fit, counts_le, bump, LANE_MAX. intros g Hg. destruct tier; cbn; lia. }
  revert Hfit. generalize (game_index (t_game t)). induction ts as [|g ts IH]; intros k Hfit; [by destruct k|].
  apply Forall_cons in Hfit as [Hg Hts].
  destruct k as [|k]; cbn.
  - destruct (Hbump g Hg). split; [constructor; [done|apply counts_le_refl]|by constructor].
  - destruct (IH k Hts). split; constructor; try done; unfold counts_le; lia.
Qed.
Lemma titles_grow l : ∀ ts, Forall lanes_fit ts → Forall2 counts_le ts (foldl add_title ts l) ∧ Forall lanes_fit (foldl add_title ts l).
Proof.
  induction l as [|t l IH]; intros ts Hfit; cbn [foldl]; [split; [apply counts_le_refl|done]|].
  destruct (add_title_grows ts t Hfit) as [H1 H2]. destruct (IH _ H2) as [H3 H4]. split; [|done].
  by etransitivity.
Qed.
Lemma emptyHonors_fit : Forall lanes_fit (titles emptyHonors).
Proof. repeat constructor; vm_compute; congruence. Qed.
Lemma fresh_honor_inv rows token at_ h : calendar_time at_ → fresh_honor rows token at_ = Ok (Some h) →
  ∃ n, 0 <= n ∧ seal_time n <= at_ ∧ (monday (kst_number at_ - 1) = 11 + n * 7) ∧ week h = n
    ∧ titles h = foldl add_title (titles emptyHonors) (filter (λ t, t_token t = token) (fresh_titles rows n)).
Proof.
  intros Hat H. unfold fresh_honor in H. pose proof (calendar_day _ Hat) as Hd. destruct (monday_spec (kst_number at_ - 1)) as [Hm Hmod].
  rewrite sealedWeek_number in H by done. cbn zeta in H. set (m := monday (kst_number at_ - 1) - 7) in *. cbn [rbind] in H.
  destruct (4 <? m) eqn:E; bools; [|done].
  assert (Hex : ∃ n, m = 4 + n * 7 ∧ 0 <= n ∧ seal_time n <= at_ ∧ four_digit_year (4 + n * 7)).
  { exists ((m - 4) / 7). assert (m = 4 + (m - 4) / 7 * 7) by (subst m; Z.to_euclidean_division_equations; lia).
    split_and!; [done|lia|apply sealed_by; lia|unfold four_digit_year; lia]. }
  destruct Hex as (n & Em & Hn & Hseal & Hy). rewrite Em in H. change (day_text (4 + n * 7)) with (week_text n) in H.
  assert (Hidx : rankingWeekIndex (week_text n) = Ok n) by by apply rankingWeekIndex_text.
  rewrite Hidx in H. cbn [rbind] in H. unfold honor_of in H. repeat (apply rbind_ok in H as (? & ? & H)).
  destruct (_ && _); [done|]. rewrite Hidx in H. cbn [rbind] in H. injection H as <-. exists n. split_and!; try done. lia.
Qed.

(** Theorem: an honor never shrinks: read later, over rows that settled since, its week is no
    earlier and none of its title counts is lower, so what an NFT carries stays true. *)
Theorem honors_only_grow rows late token at_ at' h h' : calendar_time at_ → calendar_time at' → at_ <= at' → Forall (λ r, at_ <= rr_at r) late →
  fresh_honor rows token at_ = Ok (Some h) → fresh_honor (rows ++ late)%list token at' = Ok (Some h') →
  week h <= week h' ∧ Forall2 counts_le (titles h) (titles h').
Proof.
  intros Hat Hat' Hle Hlate (n & Hn & Hs & Hmn & -> & ->)%fresh_honor_inv (n' & Hn' & Hs' & Hmn' & -> & ->)%fresh_honor_inv; [|done..].
  assert (Hnn : n <= n').
  { assert (kst_number at_ <= kst_number at') by (apply Z.div_le_mono; unfold DAY_MS, KST_OFFSET; lia).
    unfold monday in *. Z.to_euclidean_division_equations. lia. }
  split; [done|]. assert (E : ∃ more, fresh_titles (rows ++ late)%list n' = (fresh_titles rows n ++ more)%list).
  { unfold fresh_titles. replace (n' + 1) with ((n + 1) + (n' - n)) by lia. rewrite seqZ_app, bind_app by lia. eexists. f_equal.
    apply Forall_bind_ext, Forall_forall. intros i Hi%elem_of_seqZ. apply fresh_week_final. eapply Forall_impl; [exact Hlate|]. cbn. intros r Hr.
    unfold seal_time, DAY_MS in *. lia. }
  destruct E as [more ->]. rewrite filter_app, foldl_app. apply titles_grow. apply titles_grow. apply emptyHonors_fit.
Qed.
End Book.

(** ** A history *)
Section Runs.
Definition ex_row (token : string) (score : Z) (day : string) (i attempt at_ : Z) : RankedRow :=
  {| rr_id := show_Z at_; rr_collection := "0xc0"; rr_token := token; rr_seed := "0x5eed"; rr_ruleset := ARCADE_RULESET_VERSION; rr_game := race;
     rr_day := day; rr_week := week_text i; rr_attempt := attempt; rr_score := score; rr_victory := true; rr_at := at_ |}.
(** Monday 2026-06-01 opens week 2943, which is sealed from Tuesday 2026-06-09. *)
Definition ex_first : RankedRow := ex_row "7" 120 "2026-06-02" 2943 1 1780401600000.
Definition ex_second : RankedRow := ex_row "8" 90 "2026-06-02" 2943 1 1780401700000.
Definition ex_late : RankedRow := ex_row "8" 900 "2026-06-07" 2943 1 1780999000000.
Definition ex_sealed : Z := 1780930800000.
Definition ex_played : HonorWorld := {| hw_rows := [ex_first; ex_second]; hw_book := empty_book; hw_clock := 1780401700000 |}.
Definition ex_read : HonorWorld :=
  {| hw_rows := hw_rows ex_played;
     hw_book := match honor "0xC0" (hw_rows ex_played) "7" ex_sealed (hw_book ex_played) with Ok (_, b) => b | Throw _ => empty_book end;
     hw_clock := ex_sealed |}.
Definition ex_history : HonorWorld := {| hw_rows := (hw_rows ex_read ++ [ex_late])%list; hw_book := hw_book ex_read; hw_clock := rr_at ex_late |}.
Lemma ex_ranked token score day attempt at_ : ranked_row (ex_row token score day 2943 attempt at_).
Proof. exists 2943. split; [lia|]. split; [split; vm_compute; congruence|done]. Qed.
Lemma ex_reads : ∃ h, honor "0xC0" (hw_rows ex_played) "7" ex_sealed (hw_book ex_played) = Ok (h, hw_book ex_read).
Proof. eexists. vm_compute. reflexivity. Qed.
Lemma ex_history_run : rtc (hstep "0xC0") (honor_start 1780401600000) ex_history.
Proof.
  eapply rtc_l; [apply (hs_settle _ (honor_start 1780401600000) ex_first); [vm_compute; congruence|apply ex_ranked]|].
  eapply rtc_l; [apply (hs_settle _ _ ex_second); [vm_compute; congruence|apply ex_ranked]|].
  change (rtc (hstep "0xC0") ex_played ex_history). eapply (rtc_l _ _ ex_read).
  - destruct ex_reads as [h E]. eapply hs_read; [| | |exact E]; try (vm_compute; congruence). split; vm_compute; congruence.
  - apply rtc_once. apply hs_settle; [vm_compute; congruence|apply ex_ranked].
Qed.
Lemma ex_calendar at_ : 0 <= at_ <= 1790000000000 → calendar_time at_.
Proof. unfold calendar_time, DAY_MS. lia. Qed.
Lemma memo_is_a_cache_witness :
  (∃ b, honor "0xC0" (hw_rows ex_history) "7" ex_sealed (hw_book ex_history) = (let? h := fresh_honor "0xC0" (hw_rows ex_history) "7" ex_sealed in Ok (h, b)))
  ∧ match fresh_honor "0xC0" (hw_rows ex_history) "7" ex_sealed with Ok (Some h) => champion <$> titles h = [0; 1; 0] | _ => False end.
Proof.
  split; [|vm_compute; reflexivity].
  apply (memo_is_a_cache "0xC0" 1780401600000 ex_history "7" ex_sealed ex_history_run); [apply ex_calendar; vm_compute; split; congruence|vm_compute; congruence].
Defined.
Lemma ex_fresh : ∃ h, fresh_honor "0xC0" [ex_first; ex_second] "7" ex_sealed = Ok (Some h).
Proof. eexists. vm_compute. reflexivity. Qed.
Lemma ex_fresh_later : ∃ h, fresh_honor "0xC0" ([ex_first; ex_second] ++ [ex_late])%list "7" (ex_sealed + 1000) = Ok (Some h).
Proof. eexists. vm_compute. reflexivity. Qed.
Lemma honors_only_grow_witness : ∃ h h', week h <= week h' ∧ Forall2 counts_le (titles h) (titles h').
Proof.
  destruct ex_fresh as [h E], ex_fresh_later as [h' E']. exists h, h'.
  apply (honors_only_grow "0xC0" [ex_first; ex_second] [ex_late] "7" ex_sealed (ex_sealed + 1000)); [| | | |exact E|exact E'].
  - apply ex_calendar. vm_compute. split; congruence.
  - apply ex_calendar. vm_compute. split; congruence.
  - vm_compute. congruence.
  - apply Forall_singleton. vm_compute. congruence.
Defined.
End Runs.
