(* ===== verification/Claims.v ===== *)
(** * Claiming what a guardian earned

    apps/delegated-seller/guardians: what ledger.ts tells of the results it keeps, the reader
    of the guardian contract and the claim batches of runtime.ts.  A batch is a process: the
    tree of its questions to the chain, the clock and the store, each answered atomically, so
    that other batches, workers and reads move the store in between. *)

From Stdlib Require Import ZArith Lia Ascii String.
From stdpp Require Import base gmap strings list sets sorting relations.
From S2P Require Import Prelude Toolkit X402 Evidence Purchases Dates Token Calendar Guardians Ranking Season Outings Boards Honors.
Open Scope string_scope.
Open Scope Z_scope.

Definition ARCADE_PAY_TO : string := "0x550e9180fD747f218Aff714F37Df816Ea1BB2A55".
Definition GUARDIAN_CLAIM_BATCH : Z := 32.
Definition HONOR_CLOCK_MARGIN_MS : Z := 10 * 60000.

(** ** The ledger's reads *)
Definition game_number (g : GameId) : Z := match g with stamp => 0 | race => 1 | shop => 2 end.
Definition row_score (r : ResultRow) : Z := default 0 (oc_score (r_outcome (sr_result r))).
Definition row_victory (r : ResultRow) : bool := default false (oc_victory (r_outcome (sr_result r))).
(** [data.result] of a row. *)
Definition result_json (r : ResultRow) : GuardianResultJson :=
  {| j_resultId := r_id (sr_result r); j_tokenId := sr_token r; j_actor := sr_actor r; j_ownershipEpoch := sr_epoch r; j_paymentTx := sr_tx r;
     j_traitsHash := sr_traitsHash r; j_inputsHash := sr_inputs r; j_ruleset := sr_ruleset r; j_seed := r_seed (sr_result r);
     j_game := game_number (r_game (sr_result r)); j_score := row_score r; j_victory := row_victory r |}.
Definition of_token (coll token : string) (r : ResultRow) : bool := String.eqb (sr_collection r) (toLowerCase coll) && String.eqb (sr_token r) token.
Definition ledger_get (d : Db) (id : string) : option ResultRow := snd <$> list_find (λ r, sr_id r = toLowerCase id) (results d).
(** The rows of an id rewritten; the id is the primary key. *)
Definition update_row (id : string) (f : ResultRow → ResultRow) (d : Db) : Db :=
  {| jobs := jobs d; results := (λ r, if String.eqb (sr_id r) (toLowerCase id) then f r else r) <$> results d; ranked := ranked d; lease_row := lease_row d |}.
Definition with_attestation (a : Evidence * string * string) (r : ResultRow) : ResultRow :=
  {| sr_id := sr_id r; sr_token := sr_token r; sr_collection := sr_collection r; sr_actor := sr_actor r; sr_outing := sr_outing r;
     sr_admission := sr_admission r; sr_tx := sr_tx r; sr_at := sr_at r; sr_result := sr_result r; sr_epoch := sr_epoch r; sr_ruleset := sr_ruleset r;
     sr_traitsHash := sr_traitsHash r; sr_inputs := sr_inputs r; sr_payer := sr_payer r; sr_attested := Some a; sr_claimed := sr_claimed r |}.
Definition with_claimed (r : ResultRow) : ResultRow :=
  {| sr_id := sr_id r; sr_token := sr_token r; sr_collection := sr_collection r; sr_actor := sr_actor r; sr_outing := sr_outing r;
     sr_admission := sr_admission r; sr_tx := sr_tx r; sr_at := sr_at r; sr_result := sr_result r; sr_epoch := sr_epoch r; sr_ruleset := sr_ruleset r;
     sr_traitsHash := sr_traitsHash r; sr_inputs := sr_inputs r; sr_payer := sr_payer r; sr_attested := sr_attested r; sr_claimed := true |}.
Definition attest (id : string) (evidence : Evidence) (signer signature : string) : tx Db unit := λ d,
  match ledger_get d id with
  | None => Throw (OutingError "not_found")
  | Some _ => Ok (tt, update_row id (with_attestation (evidence, signer, signature)) d)
  end.
Definition markClaimed (id : string) (d : Db) : Db :=
  match ledger_get d id with
  | Some r => if sr_claimed r then d else update_row id with_claimed d
  | None => d
  end.
Definition UNCLAIMED_ROWS : nat := 96.
Definition unclaimed (d : Db) (coll token : string) : list ResultRow :=
  take UNCLAIMED_ROWS (filter (λ r, of_token coll token r && negb (sr_claimed r) = true) (results d)).
Definition LIST_ROWS : nat := 40.
Definition rowids (d : Db) : list (Z * ResultRow) := imap (λ i r, (Z.of_nat i + 1, r)) (results d).
(** [before] is the number its text denotes. *)
Definition list_results (d : Db) (coll token : string) (before : option Z) : result (list ResultRow) :=
  let cursor := default MAX_SAFE_INTEGER before in
  throws (MAX_SAFE_INTEGER <? cursor) || (cursor <=? 0) with OutingError "invalid_request";
  Ok (take LIST_ROWS (snd <$> reverse (filter (λ ir : Z * ResultRow, of_token coll token ir.2 && (ir.1 <? cursor) = true) (rowids d)))).
Definition cursor (d : Db) (id : string) : result string :=
  match list_find (λ ir : Z * ResultRow, sr_id ir.2 = toLowerCase id) (rowids d) with
  | Some (_, (i, _)) => Ok (show_Z i)
  | None => Throw (TypeError "null is not an object")
  end.

Record GameProgress := { gp_plays : Z; gp_victories : Z; gp_best : Z }.
Record Progress := { po_plays : Z; po_victories : Z; po_experience : Z; po_level : Z; po_games : list GameProgress }.
Definition game_progress (l : list ResultRow) : GameProgress :=
  {| gp_plays := Z.of_nat (length l); gp_victories := Z.of_nat (length (filter (λ r, row_victory r = true) l));
     gp_best := foldr (λ r b, Z.max (row_score r) b) 0 l |}.
(** A game without rows keeps the zeros of [emptyProgress]. *)
Definition progress (d : Db) (coll token : string) : Progress :=
  let mine := filter (λ r, of_token coll token r = true) (results d) in
  let games := (λ g, game_progress (filter (λ r, r_game (sr_result r) = g) mine)) <$> [stamp; race; shop] in
  let plays := foldr (λ g s, gp_plays g + s) 0 games in
  let victories := foldr (λ g s, gp_victories g + s) 0 games in
  let experience := plays * 10 + victories * 5 in
  {| po_plays := plays; po_victories := victories; po_experience := experience; po_level := 1 + experience / 100; po_games := games |}.
Record Metrics := { operators : Z; completedAdmissions : Z; paymentTransactions : Z; me_victories : Z }.
Definition metrics (d : Db) (since : Z) : Metrics :=
  let l := filter (λ r, since <= sr_at r) (results d) in
  {| operators := Z.of_nat (length (remove_dups ((λ r, toLowerCase (sr_actor r)) <$> l))); completedAdmissions := Z.of_nat (length l);
     paymentTransactions := Z.of_nat (length (remove_dups (sr_tx <$> l))); me_victories := Z.of_nat (length (filter (λ r, row_victory r = true) l)) |}.
(** The outing's result, its transaction replaced, with the rest of a verified result. *)
Record VerifiedResult := {
  vr_id : string; vr_game : GameId; vr_seed : Z; vr_at : Z; vr_outcome : Outcome; vr_ranked : option RankedAttempt; vr_tx : option string;
  vr_tokenId : string; vr_actor : option string; vr_epoch : string; vr_ruleset : Z; vr_score : Z; vr_victory : bool; vr_claimed : bool }.
Definition resultView (row : ResultRow) (viewer : string) (claimed : bool) : VerifiedResult :=
  let own := String.eqb (toLowerCase viewer) (toLowerCase (sr_actor row)) in
  let r := sr_result row in
  {| vr_id := r_id r; vr_game := r_game r; vr_seed := r_seed r; vr_at := r_at r; vr_outcome := r_outcome r; vr_ranked := r_ranked r;
     vr_tx := if own then Some (r_tx r) else None; vr_tokenId := sr_token row; vr_actor := if own then Some (sr_actor row) else None;
     vr_epoch := sr_epoch row; vr_ruleset := sr_ruleset row; vr_score := row_score row; vr_victory := row_victory row; vr_claimed := claimed |}.

(** ** Questions *)
(** [birth] and [progress] of the contract; the ABI's arrays have three elements. *)
Record Birth := { bi_seed : string; bi_sequence : Z; bi_revealed : bool }.
Record ProgressReading := {
  pr_plays : Z; pr_victories : Z; pr_experience : Z; pr_gamePlays : list Z; pr_gameVictories : list Z; pr_bestScores : list Z;
  pr_honorWeek : Z; pr_longestStreak : Z; pr_champion : list Z; pr_podium : list Z; pr_top10 : list Z }.
Record TxReceipt := { rc_success : bool; rc_logs : list ReceiptLog; rc_block : Z; rc_blockHash : string }.
(** [NoReceipt] is TransactionReceiptNotFoundError. *)
Inductive ReceiptAnswer := Receipt (r : TxReceipt) | NoReceipt | ReceiptFailed (e : js_error).

Inductive ask :=
  | Now | ChainId | LatestBlock | SafeBlock | BlockHash (number : Z)
  | OwnerOf (id at_ : Z) | OwnershipEpoch (id at_ : Z) | BirthOf (id at_ : Z) | ProgressOf (id at_ : Z)
  | TokensOfOwner (owner : string) (at_ : Z) | MintedBy (owner : string) (at_ : Z) | PendingMint (owner : string) (at_ : Z) | MintFee (at_ : Z)
  | ResultSigner (at_ : option Z) | ClaimedPayments (tx : string) | ReceiptOf (tx : string)
  | ReadHonor (token : string) (at_ : Z) | ReadUnclaimed (coll token : string)
  | MarkClaimed (id : string) | Attest (id : string) (evidence : Evidence) (signer signature : string).
Definition answer (q : ask) : Type :=
  match q with
  | Now => Z
  | ChainId | OwnershipEpoch _ _ | MintedBy _ _ | PendingMint _ _ | MintFee _ => result Z
  | LatestBlock | SafeBlock => result (option Z)
  | BlockHash _ => result (option string)
  | OwnerOf _ _ | ResultSigner _ => result string
  | BirthOf _ _ => result Birth
  | ProgressOf _ _ => result ProgressReading
  | TokensOfOwner _ _ => result (list Z)
  | ClaimedPayments _ => result bool
  | ReceiptOf _ => ReceiptAnswer
  | ReadHonor _ _ => result (option GuardianHonors)
  | ReadUnclaimed _ _ => list ResultRow
  | MarkClaimed _ => unit
  | Attest _ _ _ _ => result unit
  end.
Inductive prog (A : Type) :=
  | Done (r : result A)
  | Ask (q : ask) (k : answer q → prog A).
Arguments Done {A}. Arguments Ask {A}.
Fixpoint pbind {A B} (p : prog A) (f : result A → prog B) : prog B :=
  match p with Done r => f r | Ask q k => Ask q (λ a, pbind (k a) f) end.
Notation "'rpc!' x := q 'in' k" :=
  (Ask q (λ r, match r with Throw e => Done (Throw e) | Ok x => k end))
  (at level 200, x pattern, q at level 100, k at level 200, right associativity).
Notation "'run!' x := p 'in' k" :=
  (pbind p (λ r, match r with Throw e => Done (Throw e) | Ok x => k end))
  (at level 200, x pattern, p at level 100, k at level 200, right associativity).
Notation "'stop_when' c e ; k" := (if c then Done (Throw e) else k) (at level 200, c at level 9, e at level 9, k at level 200, right associativity).

(** ** The reader *)
Record GuardianToken := { gk_tokenId : string; gk_owner : string; gk_epoch : string; gk_seed : string; gk_sequence : string; gk_revealed : bool;
                          gk_progress : Progress; gk_honors : GuardianHonors }.
Record GuardianRoster := { go_signer : string; go_mintFee : string; go_minted : Z; go_pending : option string; go_guardians : list GuardianToken }.
Record Claim := { cl_result : GuardianResultJson; cl_signature : string }.
Record ClaimBatch := { cb_signer : string; cb_claims : list Claim; cb_honor : option (GuardianHonorJson * string) }.
(** What [readGuardianConfig] leaves: the collection and the account that signs results. *)
Record GuardianConfig := { gc_collection : string; gc_signer : string }.
Definition unavailable : js_error := OutingError "guardian_unavailable".
Definition unconfirmed : js_error := OutingError "receipt_unconfirmed".
(** Number of a bigint lane of a reading. *)
Definition reading (l : list Z) (i : nat) : Z := nth i l 0.
Definition growth (p : ProgressReading) : Progress :=
  {| po_plays := pr_plays p; po_victories := pr_victories p; po_experience := pr_experience p; po_level := 1 + pr_experience p / 100;
     po_games := (λ i, {| gp_plays := reading (pr_gamePlays p) i; gp_victories := reading (pr_gameVictories p) i; gp_best := reading (pr_bestScores p) i |})
                 <$> [0; 1; 2]%nat |}.
Definition honors_read (p : ProgressReading) : GuardianHonors :=
  {| week := pr_honorWeek p; longestStreak := pr_longestStreak p;
     titles := (λ i, {| champion := reading (pr_champion p) i; podium := reading (pr_podium p) i; top10 := reading (pr_top10 p) i |}) <$> [0; 1; 2]%nat |}.

Section Claims.
Context `{Toolkit}.
Variable config : GuardianConfig.
(** The account's signature of typed data for the collection. *)
Variable sign_result : GuardianResult → string.
Variable sign_honor : GuardianHonor → string.
Variable isHash : string → bool.
Variable seed_hash : string → string.
Local Notation collection := (gc_collection config).

Definition block : prog Z :=
  rpc! c := ChainId in
  stop_when (negb (c =? GUARDIAN_CHAIN_ID)) unavailable;
  rpc! b := LatestBlock in
  match b with None => Done (Throw unavailable) | Some n => Done (Ok n) end.
(** The four reads of a token, at one block. *)
Definition token (tokenId : string) (at_ : option Z) : prog GuardianToken :=
  stop_when (negb (validRankingTokenId (JStr tokenId))) (OutingError "invalid_request");
  run! n := match at_ with Some n => Done (Ok n) | None => block end in
  let id := BigInt tokenId in
  rpc! owner := OwnerOf id n in
  rpc! epoch := OwnershipEpoch id n in
  rpc! birth := BirthOf id n in
  rpc! p := ProgressOf id n in
  Done (Ok {| gk_tokenId := tokenId; gk_owner := getAddress owner; gk_epoch := show_Z epoch; gk_seed := bi_seed birth;
              gk_sequence := show_Z (bi_sequence birth); gk_revealed := bi_revealed birth; gk_progress := growth p; gk_honors := honors_read p |}).
Definition inspect (tokenId : string) : prog GuardianSnapshot :=
  run! t := token tokenId None in
  stop_when (negb (gk_revealed t)) unavailable;
  match guardianTraitsHash isHash seed_hash (gk_seed t) with
  | Throw e => Done (Throw e)
  | Ok h => Done (Ok {| chainId := GUARDIAN_CHAIN_ID; Outings.collection := collection; g_tokenId := tokenId; g_owner := gk_owner t; g_epoch := gk_epoch t;
                        g_seed := gk_seed t; g_traitsHash := h; g_ruleset := ARCADE_RULESET_VERSION |})
  end.
Fixpoint tokens_at (ids : list Z) (n : Z) : prog (list GuardianToken) :=
  match ids with
  | [] => Done (Ok [])
  | id :: ids => run! t := token (show_Z id) (Some n) in run! ts := tokens_at ids n in Done (Ok (t :: ts))
  end.
Definition roster (owner : string) : prog GuardianRoster :=
  run! n := block in
  rpc! owned := TokensOfOwner owner n in
  rpc! minted := MintedBy owner n in
  rpc! pending := PendingMint owner n in
  rpc! fee := MintFee n in
  rpc! signer := ResultSigner (Some n) in
  stop_when ((3 <? length owned)%nat || negb (String.eqb (getAddress signer) (gc_signer config))) unavailable;
  run! guardians := tokens_at owned n in
  Done (Ok {| go_signer := gc_signer config; go_mintFee := show_Z fee; go_minted := minted;
              go_pending := if pending =? 0 then None else Some (show_Z pending); go_guardians := guardians |}).

(** ** A batch of claims *)
Definition paid (row : ResultRow) (r : TxReceipt) : bool :=
  rc_success r && bool_decide (reconcileSettlementReceipt (rc_logs r) MOCK_USDC_address (sr_payer row) ARCADE_PAY_TO ARCADE_TICKET_AMOUNT = []).
Definition safeReceipt (row : ResultRow) (safe : Z) : prog Evidence :=
  Ask (ReceiptOf (sr_tx row)) (λ a,
    match a with
    | NoReceipt => Done (Throw unconfirmed)
    | ReceiptFailed e => Done (Throw e)
    | Receipt r =>
        stop_when (negb (paid row r)) unconfirmed;
        stop_when (safe <? rc_block r) unconfirmed;
        rpc! canonical := BlockHash (rc_block r) in
        match canonical with
        | Some h => stop_when (negb (String.eqb (toLowerCase h) (toLowerCase (rc_blockHash r)))) unconfirmed;
                    Done (Ok {| ev_block := rc_block r; ev_hash := rc_blockHash r |})
        | None => Done (Throw unconfirmed)
        end
    end).
(** The lane-wise maxima the contract will store. *)
Definition signed_honors (stored sealed : GuardianHonors) : GuardianHonors :=
  {| week := week sealed; longestStreak := Z.max (longestStreak sealed) (longestStreak stored);
     titles := zip_with (λ game old, {| champion := Z.max (champion game) (champion old); podium := Z.max (podium game) (podium old);
                                        top10 := Z.max (top10 game) (top10 old) |}) (titles sealed) (titles stored) |}.
Definition honor_claim (tokenId : string) (stored : GuardianHonors) (sealed : option GuardianHonors) : result (option (GuardianHonorJson * string)) :=
  match sealed with
  | Some sealed =>
      if honorAdvances stored sealed then
        let? json := guardianHonorJson tokenId (signed_honors stored sealed) in
        let? message := guardianHonorFromJson json in
        Ok (Some (json, sign_honor message))
      else Ok None
  | None => Ok None
  end.
(** The rows in turn; [signed] is the batch so far. *)
Fixpoint claim_rows (deadline safe cap : Z) (honor : bool) (rows : list ResultRow) (signed : list Claim) : prog (list Claim) :=
  match rows with
  | [] => Done (Ok signed)
  | row :: rest =>
      if Z.of_nat (length signed) =? cap then Done (Ok signed)
      else
        let next :=
          rpc! claimed := ClaimedPayments (sr_tx row) in
          if claimed then Ask (MarkClaimed (r_id (sr_result row))) (λ _, claim_rows deadline safe cap honor rest signed)
          else pbind (safeReceipt row safe) (λ r,
            match r with
            | Throw e => if decide (e = unconfirmed) then claim_rows deadline safe cap honor rest signed else Done (Throw e)
            | Ok evidence =>
                match guardianResultFromJson (result_json row) with
                | Throw e => Done (Throw e)
                | Ok message =>
                    let signature := sign_result message in
                    rpc! _ := Attest (r_id (sr_result row)) evidence (gc_signer config) signature in
                    claim_rows deadline safe cap honor rest (signed ++ [{| cl_result := result_json row; cl_signature := signature |}])%list
                end
            end) in
        if (0 <? length signed)%nat || honor then Ask Now (λ t, if deadline <=? t then Done (Ok signed) else next) else next
  end.
(** From the honor on. *)
Definition sign_batch (deadline safe : Z) (tokenId : string) (t : GuardianToken) (sealed : option GuardianHonors) : prog ClaimBatch :=
  match honor_claim tokenId (gk_honors t) sealed with
  | Throw e => Done (Throw e)
  | Ok honor =>
      let signing := bool_decide (is_Some honor) in
      Ask (ReadUnclaimed collection tokenId) (λ rows,
      run! claims := claim_rows deadline safe (GUARDIAN_CLAIM_BATCH - (if signing then 1 else 0)) signing rows [] in
      Done (Ok {| cb_signer := gc_signer config; cb_claims := claims; cb_honor := honor |}))
  end.
Definition claim_batch (budgetMs : Z) (owner tokenId : string) : prog ClaimBatch :=
  Ask Now (λ t0,
  let deadline := t0 + budgetMs in
  run! t := token tokenId None in
  stop_when (negb (String.eqb (toLowerCase (gk_owner t)) (toLowerCase owner))) (OutingError "not_found");
  rpc! signer := ResultSigner None in
  stop_when (negb (String.eqb (getAddress signer) (gc_signer config))) unavailable;
  rpc! c := ChainId in
  stop_when (negb (c =? GUARDIAN_CHAIN_ID)) unconfirmed;
  rpc! b := SafeBlock in
  match b with
  | None => Done (Throw unconfirmed)
  | Some safe =>
      if gk_revealed t then Ask Now (λ t1, rpc! sealed := ReadHonor tokenId (t1 - HONOR_CLOCK_MARGIN_MS) in sign_batch deadline safe tokenId t sealed)
      else sign_batch deadline safe tokenId t None
  end).

(** ** The store and the processes over it *)
Record Store := { st_db : Db; st_book : TitleBook }.
Definition with_db (d : Db) (s : Store) : Store := {| st_db := d; st_book := st_book s |}.
Definition with_book (b : TitleBook) (s : Store) : Store := {| st_db := st_db s; st_book := b |}.
(** An answer and the store after it, while [chain] holds the payments claimed so far: the
    store's own answers are computed, a [true] of the contract is so, and nothing else is
    assumed of the outside. *)
Definition answers (chain : gset string) (q : ask) : answer q → Store → Store → Prop :=
  match q with
  | ReadHonor tok at_ => λ a s s', match honor collection (ranked (st_db s)) tok at_ (st_book s) with
                                   | Ok (h, b) => a = Ok h ∧ s' = with_book b s
                                   | Throw e => a = Throw e ∧ st_db s' = st_db s
                                   end
  | ReadUnclaimed coll tok => λ a s s', a = unclaimed (st_db s) coll tok ∧ s' = s
  | MarkClaimed id => λ _ s s', s' = with_db (markClaimed id (st_db s)) s
  | Attest id ev signer sg => λ a s s', match attest id ev signer sg (st_db s) with
                                        | Ok (_, d) => a = Ok tt ∧ s' = with_db d s
                                        | Throw e => a = Throw e ∧ s' = s
                                        end
  | ClaimedPayments tx => λ a s s', s' = s ∧ (a = Ok true → tx ∈ chain)
  | _ => λ _ s s', s' = s
  end.
End Claims.
