(* ===== verification/ClaimFacts.v ===== *)
(** * What a claim batch holds

    Batches, workers and reads interleave over one store ([cstep]).  A logic of questions
    ([keeps]) shows once what a batch asked before it writes or answers; rule induction over
    the histories turns that into facts about the ledger: its marks are true, its signatures
    are of its rows, and a batch holds only what the contract can accept. *)

From Stdlib Require Import ZArith Lia Ascii String.
From stdpp Require Import base gmap strings list sets sorting relations fin_maps.
From S2P Require Import Prelude Toolkit X402 Evidence Purchases Dates Token Calendar Guardians Ranking Season Outings Boards Honors Claims.
Open Scope string_scope.
Open Scope Z_scope.

(** ** Questions and answers so far *)
Definition event : Type := {q : ask & answer q}.
Definition known (tr : list event) (q : ask) (a : answer q) : Prop := existT q a ∈ tr.
Arguments known : clear implicits.
Lemma known_app tr more q a : known tr q a → known (tr ++ more)%list q a.
Proof. unfold known. rewrite elem_of_app. by left. Qed.
Lemma known_last tr q a : known (tr ++ [existT q a])%list q a.
Proof. unfold known. rewrite elem_of_app. right. by left. Qed.
Lemma known_prefix tr tr' q a : tr `prefix_of` tr' → known tr q a → known tr' q a.
Proof. intros [more ->]. apply known_app. Qed.
Create HintDb asked.
#[export] Hint Resolve known_app known_last : asked.

(** [keeps permitted tr p Q]: asked from the trace [tr] on, [p] asks only what is permitted after
    what it has heard, and ends with [Q]. *)
Section Logic.
Variable permitted : list event → ask → Prop.
Fixpoint keeps {A} (tr : list event) (p : prog A) (Q : list event → result A → Prop) : Prop :=
  match p with
  | Done r => Q tr r
  | Ask q k => permitted tr q ∧ ∀ a, keeps (tr ++ [existT q a])%list (k a) Q
  end.
Lemma keeps_mono {A} (p : prog A) (Q Q' : list event → result A → Prop) : ∀ tr, keeps tr p Q →
  (∀ tr' r, tr `prefix_of` tr' → Q tr' r → Q' tr' r) → keeps tr p Q'.
Proof.
  induction p as [r|q k IH]; intros tr Hk HQ; cbn [keeps] in *; [by apply HQ|].
  destruct Hk as [Hp Hk]. split; [done|]. intros a. apply (IH a); [done|]. intros tr' r Hpre. apply HQ. etransitivity; [|done]. by apply prefix_app_r.
Qed.
Lemma keeps_bind {A B} (p : prog A) (f : result A → prog B) Q : ∀ tr, keeps tr p (λ tr' r, keeps tr' (f r) Q) → keeps tr (pbind p f) Q.
Proof. induction p as [r|q k IH]; intros tr Hk; cbn [keeps pbind] in *; [done|]. destruct Hk as [Hp Hk]. split; [done|]. intros a. by apply IH. Qed.
(** Sequencing with what the first part gives. *)
Lemma keeps_seq {A B} (p : prog A) (f : result A → prog B) P Q tr : keeps tr p P →
  (∀ tr' r, tr `prefix_of` tr' → P tr' r → keeps tr' (f r) Q) → keeps tr (pbind p f) Q.
Proof. intros Hp Hf. apply keeps_bind. by eapply keeps_mono. Qed.
End Logic.

(** ** What a batch may write *)
Section Facts.
Context `{Toolkit}.
Variable config : GuardianConfig.
Variable sign_result : GuardianResult → string.
Variable sign_honor : GuardianHonor → string.
Variable budgetMs : Z.
Local Notation coll := (gc_collection config).

(** A row of an answer of the store. *)
Definition read (tr : list event) (row : ResultRow) : Prop := ∃ tok rows, known tr (ReadUnclaimed coll tok) rows ∧ row ∈ rows.
Definition signs (row : ResultRow) (signature : string) : Prop := ∃ m, guardianResultFromJson (result_json row) = Ok m ∧ signature = sign_result m.
(** The chain paid the row in full, in a block that is safe and canonical. *)
Definition payable (tr : list event) (safe : Z) (row : ResultRow) : Prop :=
  known tr (ClaimedPayments (sr_tx row)) (Ok false)
  ∧ ∃ r h, known tr (ReceiptOf (sr_tx row)) (Receipt r) ∧ rc_success r = true
      ∧ reconcileSettlementReceipt (rc_logs r) MOCK_USDC_address (sr_payer row) ARCADE_PAY_TO ARCADE_TICKET_AMOUNT = []
      ∧ rc_block r <= safe ∧ known tr (BlockHash (rc_block r)) (Ok (Some h)) ∧ toLowerCase h = toLowerCase (rc_blockHash r).
Definition permitted (tr : list event) (q : ask) : Prop :=
  match q with
  | MarkClaimed id => ∃ row, read tr row ∧ id = r_id (sr_result row) ∧ known tr (ClaimedPayments (sr_tx row)) (Ok true)
  | Attest id e signer sg => ∃ row safe, read tr row ∧ id = r_id (sr_result row) ∧ payable tr safe row ∧ signer = gc_signer config ∧ signs row sg
  | _ => True
  end.
Local Notation keeps := (keeps permitted).

Lemma read_prefix tr tr' row : tr `prefix_of` tr' → read tr row → read tr' row.
Proof. intros Hp (tok & rows & Hk & Hin). exists tok, rows. split; [by eapply known_prefix|done]. Qed.
Lemma payable_prefix tr tr' safe row : tr `prefix_of` tr' → payable tr safe row → payable tr' safe row.
Proof. intros Hp (H1 & r & h & H2 & H3 & H4 & H5 & H6 & H7). split; [by eapply known_prefix|]. exists r, h. split_and!; try done; by eapply known_prefix. Qed.

(** ** The parts of a batch *)
Lemma block_keeps tr : keeps tr block (λ _ _, True).
Proof. unfold block. cbn. split; [done|]. intros [c|e]; [|done]. destruct (negb _); [done|]. cbn. split; [done|]. by intros [[n|]|e]. Qed.
Definition token_post (tokenId : string) (tr : list event) (r : result GuardianToken) : Prop :=
  match r with
  | Ok t => ∃ n o p, known tr (OwnerOf (BigInt tokenId) n) (Ok o) ∧ gk_owner t = getAddress o
              ∧ known tr (ProgressOf (BigInt tokenId) n) (Ok p) ∧ gk_honors t = honors_read p
  | Throw _ => True
  end.
Lemma token_keeps tokenId at_ tr : keeps tr (token tokenId at_) (token_post tokenId).
Proof.
  unfold token. destruct (negb _); [done|]. eapply (keeps_seq _ _ _ (λ _ _, True)); [destruct at_; [done|apply block_keeps]|].
  intros tr' [n|e] _ _; [|done]. cbn [keeps]. split; [done|]. intros [o|e]; [|done]. cbn [keeps]. split; [done|]. intros [epoch|e]; [|done].
  cbn [keeps]. split; [done|]. intros [birth|e]; [|done]. cbn [keeps]. split; [done|]. intros [p|e]; [|done]. cbn [keeps token_post].
  exists n, o, p. split_and!; auto 6 with asked.
Qed.
Lemma safeReceipt_keeps row safe tr : known tr (ClaimedPayments (sr_tx row)) (Ok false) →
  keeps tr (safeReceipt row safe) (λ tr' r, match r with Ok _ => payable tr' safe row | Throw _ => True end).
Proof.
  intros Hc. unfold safeReceipt. cbn [keeps]. split; [done|]. intros [r| |e]; [|done..].
  destruct (paid row r) eqn:Hp; [|done]. cbn [negb]. destruct (safe <? rc_block r) eqn:Hs; [done|]. cbn [keeps]. split; [done|].
  intros [[h|]|e]; [|done..]. destruct (String.eqb _ _) eqn:Hh; [|done]. cbn [negb keeps].
  unfold paid in Hp. bools. split; [auto with asked|]. exists r, h. split_and!; auto with asked; lia.
Qed.
(** A claim of a row. *)
Definition claims_row (row : ResultRow) (c : Claim) : Prop := cl_result c = result_json row ∧ signs row (cl_signature c).
Definition rows_post (safe cap : Z) (rows : list ResultRow) (signed : list Claim) (tr : list event) (r : result (list Claim)) : Prop :=
  match r with
  | Ok claims => ∃ chosen more, claims = (signed ++ more)%list ∧ chosen `sublist_of` rows ∧ Forall2 claims_row chosen more
                   ∧ Forall (payable tr safe) chosen ∧ Z.of_nat (length claims) <= cap
  | Throw _ => True
  end.
Lemma rows_skip safe cap row rows signed tr r : rows_post safe cap rows signed tr r → rows_post safe cap (row :: rows) signed tr r.
Proof. destruct r as [claims|e]; [|done]. intros (chosen & more & H1 & H2 & H3). exists chosen, more. split_and!; [done|by apply sublist_cons|tauto..]. Qed.
Lemma rows_stop safe cap rows signed tr : Z.of_nat (length signed) <= cap → rows_post safe cap rows signed tr (Ok signed).
Proof. intros Hl. exists [], []. split_and!; [by rewrite app_nil_r|apply sublist_nil_l|constructor|constructor|done]. Qed.
Lemma claim_rows_keeps deadline safe cap honor rows : ∀ signed tr, Z.of_nat (length signed) <= cap → Forall (read tr) rows →
  keeps tr (claim_rows config sign_result deadline safe cap honor rows signed) (rows_post safe cap rows signed).
Proof.
  induction rows as [|row rows IH]; intros signed tr Hl Hr; cbn [claim_rows]; [by apply rows_stop|].
  destruct (Z.eqb_spec (Z.of_nat (length signed)) cap) as [|Hne]; [by apply rows_stop|].
  apply Forall_cons in Hr as [Hrow Hrows].
  set (next := Ask (ClaimedPayments (sr_tx row)) _).
  assert (Hnext : ∀ tr', tr `prefix_of` tr' → keeps tr' next (rows_post safe cap (row :: rows) signed)).
  { intros tr' Hpre. subst next. cbn [keeps]. split; [done|]. intros [[|]|e]; [| |done].
    - cbn [keeps]. assert (Hrow' : read (tr' ++ [existT (ClaimedPayments (sr_tx row)) (Ok true)])%list row)
        by (eapply read_prefix; [|exact Hrow]; etransitivity; [exact Hpre|by apply prefix_app_r]).
      split; [exists row; auto with asked|]. intros u. eapply keeps_mono; [apply IH; [done|]|intros; by apply rows_skip].
      eapply Forall_impl; [exact Hrows|]. intros x. apply read_prefix. rewrite <- app_assoc. etransitivity; [exact Hpre|by apply prefix_app_r].
    - eapply keeps_seq; [apply safeReceipt_keeps; auto with asked|]. intros tr2 r Hpre2 Hpay.
      assert (Hall : tr `prefix_of` tr2) by (etransitivity; [exact Hpre|]; etransitivity; [|exact Hpre2]; by apply prefix_app_r).
      destruct r as [e|e].
      + destruct (guardianResultFromJson (result_json row)) as [m|e'] eqn:Hm; [|done]. cbn [keeps]. split.
        { exists row, safe. split_and!; [by eapply read_prefix|done|done|done|]. by exists m. }
        intros [u|e']; [|done]. eapply keeps_mono; [apply IH; [rewrite length_app; cbn; lia|]|].
        { eapply Forall_impl; [exact Hrows|]. intros x. apply read_prefix. etransitivity; [exact Hall|by apply prefix_app_r]. }
        intros tr3 [claims|e']; [|done]. intros Hpre3 (chosen & more & -> & Hsub & Hf2 & Hfa & Hlen). exists (row :: chosen).
        eexists. split_and!; [by rewrite <- app_assoc| | |constructor; [|done]|done].
        * by apply sublist_skip.
        * constructor; [|done]. split; [done|]. by exists m.
        * eapply payable_prefix; [|exact Hpay]. etransitivity; [|exact Hpre3]. by apply prefix_app_r.
      + destruct (decide _); [|done]. eapply keeps_mono; [apply IH; [done|]|intros; by apply rows_skip].
        eapply Forall_impl; [exact Hrows|]. intros x. by apply read_prefix. }
  destruct (_ || honor); [|by apply Hnext]. cbn [keeps]. split; [done|]. intros t. destruct (deadline <=? t); [by apply rows_stop|].
  apply Hnext. by apply prefix_app_r.
Qed.

(** ** The whole batch *)
Record batch_facts (owner tokenId : string) (tr : list event) (b : ClaimBatch) (rows chosen : list ResultRow) (safe n : Z) (o s : string)
    (p : ProgressReading) : Prop := {
  bf_owner : known tr (OwnerOf (BigInt tokenId) n) (Ok o) ∧ toLowerCase (getAddress o) = toLowerCase owner;
  bf_signer : known tr (ResultSigner None) (Ok s) ∧ getAddress s = gc_signer config ∧ cb_signer b = gc_signer config;
  bf_chain : known tr ChainId (Ok GUARDIAN_CHAIN_ID);
  bf_safe : known tr SafeBlock (Ok (Some safe));
  bf_rows : known tr (ReadUnclaimed coll tokenId) rows ∧ chosen `sublist_of` rows;
  bf_claims : Forall2 claims_row chosen (cb_claims b);
  bf_payable : Forall (payable tr safe) chosen;
  bf_size : Z.of_nat (length (cb_claims b)) + (if cb_honor b then 1 else 0) <= GUARDIAN_CLAIM_BATCH;
  bf_progress : known tr (ProgressOf (BigInt tokenId) n) (Ok p);
  bf_honor : ∀ h, cb_honor b = Some h → ∃ sealed t1, known tr Now t1 ∧ known tr (ReadHonor tokenId (t1 - HONOR_CLOCK_MARGIN_MS)) (Ok (Some sealed))
    ∧ honor_claim sign_honor tokenId (honors_read p) (Some sealed) = Ok (Some h) }.
Definition batch_post (owner tokenId : string) (tr : list event) (r : result ClaimBatch) : Prop :=
  match r with Ok b => ∃ rows chosen safe n o s p, batch_facts owner tokenId tr b rows chosen safe n o s p | Throw _ => True end.
Lemma batch_keeps owner tokenId tr :
  keeps tr (claim_batch config sign_result sign_honor budgetMs owner tokenId) (batch_post owner tokenId).
Proof.
  unfold claim_batch. cbn [keeps]. split; [done|]. intros t0. eapply keeps_seq; [apply token_keeps|]. intros tr1 [t|e] _; [|done].
  intros (n & o & p & Ho & Eo & Hp & Eh). destruct (String.eqb _ _) eqn:Eown; [|done]. cbn [negb keeps]. split; [done|].
  intros [s|e]; [|done]. destruct (String.eqb (getAddress s) _) eqn:Es; [|done]. cbn [negb keeps]. split; [done|]. intros [c|e]; [|done].
  destruct (Z.eqb_spec c GUARDIAN_CHAIN_ID) as [->|]; [|done]. cbn [negb keeps]. split; [done|]. intros [[safe|]|e]; [|done..]. bools.
  rewrite Eo in Eown.
  match goal with |- keeps ?tr0 _ _ => set (tr2 := tr0) end.
  assert (K : known tr2 (OwnerOf (BigInt tokenId) n) (Ok o) ∧ known tr2 (ProgressOf (BigInt tokenId) n) (Ok p) ∧ known tr2 (ResultSigner None) (Ok s)
    ∧ known tr2 ChainId (Ok GUARDIAN_CHAIN_ID) ∧ known tr2 SafeBlock (Ok (Some safe))) by (subst tr2; split_and!; auto 8 with asked).
  destruct K as (K1 & K2 & K3 & K4 & K5). clearbody tr2. clear Ho Hp.
  assert (Hgo : ∀ sealed tr3, tr2 `prefix_of` tr3 →
    (∀ h, sealed = Some h → ∃ t1, known tr3 Now t1 ∧ known tr3 (ReadHonor tokenId (t1 - HONOR_CLOCK_MARGIN_MS)) (Ok (Some h))) →
    keeps tr3 (sign_batch config sign_result sign_honor (t0 + budgetMs) safe tokenId t sealed) (batch_post owner tokenId)).
  { intros sealed tr3 Hpre Hsealed. unfold sign_batch. destruct (honor_claim _ _ _ sealed) as [honor|e] eqn:Eclaim; [|done].
    cbn [keeps]. split; [done|]. intros rows. eapply keeps_seq.
    { apply claim_rows_keeps; [cbn; destruct (bool_decide _); vm_compute; congruence|].
      apply Forall_forall. intros row Hin. exists tokenId, rows. split; [apply known_last|done]. }
    intros tr4 [claims|e] Hpre4; [|done]. intros (chosen & more & -> & Hsub & Hf2 & Hfa & Hlen). cbn [keeps batch_post app].
    assert (P4 : tr2 `prefix_of` tr4) by (etransitivity; [exact Hpre|]; etransitivity; [|exact Hpre4]; by apply prefix_app_r).
    assert (P3 : tr3 `prefix_of` tr4) by (etransitivity; [|exact Hpre4]; by apply prefix_app_r).
    assert (Hsize : Z.of_nat (length more) + (if honor then 1 else 0) <= GUARDIAN_CLAIM_BATCH).
    { cbn [app] in Hlen. destruct honor as [h|]; cbn in Hlen; lia. }
    assert (Hold : ∀ q a, known tr2 q a → known tr4 q a) by (intros q a; by apply known_prefix).
    exists rows, chosen, safe, n, o, s, p. split; cbn [cb_signer cb_claims cb_honor]; auto.
    - split; [|done]. eapply known_prefix; [exact Hpre4|apply known_last].
    - intros h ->. rewrite Eh in Eclaim. destruct sealed as [h'|]; [|done]. destruct (Hsealed h' eq_refl) as (t1 & Ht1 & Hr).
      exists h', t1. split_and!; [by eapply known_prefix..|done]. }
  destruct (gk_revealed t); [|by apply Hgo]. cbn [keeps]. split; [done|]. intros t1. split; [done|]. intros [sealed|e]; [|done].
  apply Hgo; [by rewrite <- app_assoc; apply prefix_app_r|]. intros h ->. exists t1. split; [auto with asked|apply known_last].
Qed.

(** ** Many processes over one store *)
Variable keccak : string → string.
Variable resultInputs : Job → string.
Record Run := { ru_owner : string; ru_token : string; ru_prog : prog ClaimBatch; ru_trace : list event }.
Record Sys := { sy_store : Store; sy_chain : gset string; sy_runs : gmap nat Run }.
Local Notation db S := (st_db (sy_store S)).
Local Notation batch_prog := (claim_batch config sign_result sign_honor budgetMs).
Inductive cstep : Sys → Sys → Prop :=
  | c_open S pid owner tok : sy_runs S !! pid = None →
      cstep S {| sy_store := sy_store S; sy_chain := sy_chain S;
                 sy_runs := <[pid := {| ru_owner := owner; ru_token := tok; ru_prog := batch_prog owner tok; ru_trace := [] |}]> (sy_runs S) |}
  | c_answer S pid r q k a s' : sy_runs S !! pid = Some r → ru_prog r = Ask q k → answers config (sy_chain S) q a (sy_store S) s' →
      cstep S {| sy_store := s'; sy_chain := sy_chain S;
                 sy_runs := <[pid := {| ru_owner := ru_owner r; ru_token := ru_token r; ru_prog := k a; ru_trace := (ru_trace r ++ [existT q a])%list |}]> (sy_runs S) |}
  (** A worker counts an admission, or writes elsewhere. *)
  | c_settle S j r d' : ledger_insert keccak resultInputs j r (db S) = Ok (tt, d') →
      cstep S {| sy_store := with_db d' (sy_store S); sy_chain := sy_chain S; sy_runs := sy_runs S |}
  | c_work S d' : results d' = results (db S) →
      cstep S {| sy_store := with_db d' (sy_store S); sy_chain := sy_chain S; sy_runs := sy_runs S |}
  (** The page of a guardian reads its honors, and marks what it has seen claimed. *)
  | c_honor S b : cstep S {| sy_store := with_book b (sy_store S); sy_chain := sy_chain S; sy_runs := sy_runs S |}
  | c_seen S row : row ∈ results (db S) → sr_tx row ∈ sy_chain S →
      cstep S {| sy_store := with_db (markClaimed (r_id (sr_result row)) (db S)) (sy_store S); sy_chain := sy_chain S; sy_runs := sy_runs S |}
  | c_chain S tx : cstep S {| sy_store := sy_store S; sy_chain := {[tx]} ∪ sy_chain S; sy_runs := sy_runs S |}
  | c_crash S pid : cstep S {| sy_store := sy_store S; sy_chain := sy_chain S; sy_runs := delete pid (sy_runs S) |}.
Definition c_start (S : Sys) : Prop := results (db S) = [] ∧ sy_runs S = ∅.

(** A row without what a claim writes to it. *)
Definition bare (r : ResultRow) : ResultRow :=
  {| sr_id := sr_id r; sr_token := sr_token r; sr_collection := sr_collection r; sr_actor := sr_actor r; sr_outing := sr_outing r;
     sr_admission := sr_admission r; sr_tx := sr_tx r; sr_at := sr_at r; sr_result := sr_result r; sr_epoch := sr_epoch r; sr_ruleset := sr_ruleset r;
     sr_traitsHash := sr_traitsHash r; sr_inputs := sr_inputs r; sr_payer := sr_payer r; sr_attested := None; sr_claimed := false |}.
Definition in_ledger (d : Db) (r : ResultRow) : Prop := bare r ∈ bare <$> results d.
(** What the ledger keeps true of itself, while [chain] holds the claimed payments. *)
Record true_ledger (chain : gset string) (d : Db) : Prop := {
  tl_ids : NoDup (sr_id <$> results d);
  tl_txs : NoDup (sr_tx <$> results d);
  tl_low : ∀ r, r ∈ results d → sr_id r = toLowerCase (r_id (sr_result r));
  tl_marks : ∀ r, r ∈ results d → sr_claimed r = true → sr_tx r ∈ chain;
  tl_signed : ∀ r e signer sg, r ∈ results d → sr_attested r = Some (e, signer, sg) → signer = gc_signer config ∧ signs r sg }.
Definition event_ok (chain : gset string) (d : Db) (e : event) : Prop :=
  match projT1 e as q return answer q → Prop with
  | ReadUnclaimed c tok => λ rows, NoDup (sr_tx <$> rows) ∧ Forall (λ r, of_token c tok r = true ∧ in_ledger d r) rows
  | ClaimedPayments tx => λ a, a = Ok true → tx ∈ chain
  | _ => λ _, True
  end (projT2 e).
Record inv (S : Sys) : Prop := {
  in_true : true_ledger (sy_chain S) (db S);
  in_runs : ∀ pid r, sy_runs S !! pid = Some r →
    keeps (ru_trace r) (ru_prog r) (batch_post (ru_owner r) (ru_token r)) ∧ Forall (event_ok (sy_chain S) (db S)) (ru_trace r) }.

Lemma update_bare id f d : (∀ r, bare (f r) = bare r) → bare <$> results (update_row id f d) = bare <$> results d.
Proof. intros Hf. cbn [results update_row]. rewrite <- list_fmap_compose. apply list_fmap_ext. intros i r _. cbn. destruct (String.eqb _ _); [apply Hf|done]. Qed.
Lemma same_column {B} (g : ResultRow → B) d d' : (∀ r, g r = g (bare r)) → bare <$> results d' = bare <$> results d → g <$> results d' = g <$> results d.
Proof.
  intros Hg E. assert (Hc : ∀ l, g <$> l = g <$> (bare <$> l)) by (intros l; rewrite <- list_fmap_compose; apply list_fmap_ext; intros; apply Hg).
  by rewrite (Hc (results d')), E, <- Hc.
Qed.
Lemma event_mono chain chain' d d' e : chain ⊆ chain' → (∀ r, in_ledger d r → in_ledger d' r) → event_ok chain d e → event_ok chain' d' e.
Proof.
  intros Hc Hd. destruct e as [q a]. unfold event_ok. cbn [projT1 projT2]. destruct q; try done.
  - intros Ha ->. by apply Hc, Ha.
  - intros [Hn Hf]. split; [done|]. eapply Forall_impl; [exact Hf|]. cbn. intros r [? ?]. auto.
Qed.
(** A row of the ledger with the name of a row that was read. *)
Lemma ledger_row chain d row r' : true_ledger chain d → in_ledger d row → r' ∈ results d → sr_id r' = toLowerCase (r_id (sr_result row)) → bare r' = bare row.
Proof.
  intros Ht Hin Hr' Hid. apply list_elem_of_fmap in Hin as (r & Er & Hr). assert (r = r') as ->; [|done].
  apply (fmap_once sr_id (results d)); [apply Ht|done|done|]. rewrite Hid, (tl_low _ _ Ht r Hr).
  assert (Es : sr_result r = sr_result row) by (change (sr_result (bare r) = sr_result (bare row)); by rewrite Er). by rewrite Es.
Qed.
Lemma bare_signs r r' sg : bare r = bare r' → signs r sg → signs r' sg.
Proof.
  intros E. unfold signs. assert (Ej : result_json r = result_json r') by (change (result_json (bare r) = result_json (bare r')); by rewrite E).
  by rewrite Ej.
Qed.
(** Rewriting the row of an id keeps the ledger true when it does for that row. *)
Lemma update_true chain d id f : true_ledger chain d → (∀ r, bare (f r) = bare r) →
  (∀ r, r ∈ results d → sr_id r = toLowerCase id → (sr_claimed (f r) = true → sr_tx r ∈ chain)
     ∧ ∀ e signer sg, sr_attested (f r) = Some (e, signer, sg) → signer = gc_signer config ∧ signs r sg) →
  true_ledger chain (update_row id f d).
Proof.
  intros Ht Hf Hrow. pose proof (update_bare id f d Hf) as Eb.
  assert (Hcase : ∀ r', r' ∈ results (update_row id f d) → ∃ r, r ∈ results d ∧ bare r' = bare r ∧ (r' = r ∨ (r' = f r ∧ sr_id r = toLowerCase id))).
  { intros r' (r & -> & Hr)%list_elem_of_fmap. exists r. split; [done|]. destruct (String.eqb_spec (sr_id r) (toLowerCase id)); [split; [apply Hf|by right]|by split; [|left]]. }
  split.
  - rewrite (same_column sr_id d) by done. apply Ht.
  - rewrite (same_column sr_tx d) by done. apply Ht.
  - intros r' (r & Hr & Er & _)%Hcase. change (sr_id (bare r') = toLowerCase (r_id (sr_result (bare r')))). rewrite Er. exact (tl_low _ _ Ht r Hr).
  - intros r' (r & Hr & Er & Hor)%Hcase Hc. change (sr_tx (bare r') ∈ chain). rewrite Er. cbn [bare sr_tx].
    destruct Hor as [->|[-> Hid]]; [by apply (tl_marks _ _ Ht r)|by apply (Hrow r)].
  - intros r' e signer sg (r & Hr & Er & Hor)%Hcase Ha. assert (Hs : signer = gc_signer config ∧ signs r sg).
    { destruct Hor as [->|[-> Hid]]; [by apply (tl_signed _ _ Ht r e)|by apply (Hrow r Hr Hid) in Ha]. }
    destruct Hs as [-> Hs]. split; [done|]. by apply (bare_signs r).
Qed.
Lemma markClaimed_cases id d : markClaimed id d = d ∨ markClaimed id d = update_row id with_claimed d.
Proof. unfold markClaimed. destruct (ledger_get d id) as [r|]; [destruct (sr_claimed r)|]; auto. Qed.
Lemma markClaimed_bare id d : bare <$> results (markClaimed id d) = bare <$> results d.
Proof. destruct (markClaimed_cases id d) as [->| ->]; [done|by apply update_bare]. Qed.
Lemma markClaimed_true chain d row : true_ledger chain d → in_ledger d row → sr_tx row ∈ chain → true_ledger chain (markClaimed (r_id (sr_result row)) d).
Proof.
  intros Ht Hin Htx. destruct (markClaimed_cases (r_id (sr_result row)) d) as [->| ->]; [done|]. apply update_true; [done|done|].
  intros r Hr Hid. pose proof (ledger_row _ _ _ _ Ht Hin Hr Hid) as Eb. split.
  - intros _. change (sr_tx (bare r) ∈ chain). by rewrite Eb.
  - intros e signer sg Ha. by apply (tl_signed _ _ Ht r e).
Qed.
Lemma attest_true chain d row e sg : true_ledger chain d → in_ledger d row → signs row sg →
  true_ledger chain (update_row (r_id (sr_result row)) (with_attestation (e, gc_signer config, sg)) d).
Proof.
  intros Ht Hin Hs. apply update_true; [done|done|]. intros r Hr Hid. pose proof (ledger_row _ _ _ _ Ht Hin Hr Hid) as Eb. split.
  - exact (tl_marks _ _ Ht r Hr).
  - intros e' signer sg' [= <- <- <-]. split; [done|]. by apply (bare_signs row).
Qed.
Lemma insert_true chain j r d d' : true_ledger chain d → ledger_insert keccak resultInputs j r d = Ok (tt, d') →
  true_ledger chain d' ∧ ∀ x, in_ledger d x → in_ledger d' x.
Proof.
  intros Ht H0. assert (Hex : ∃ row, results d' = (results d ++ [row])%list ∧ existsb (result_constraint row) (results d) = false
    ∧ sr_id row = toLowerCase (r_id (sr_result row)) ∧ sr_claimed row = false ∧ sr_attested row = None).
  { unfold ledger_insert in H0. destruct (pending j) as [p|]; [|done]. repeat (apply rbind_ok in H0 as (? & ? & H0)).
    match goal with Hu : throw_when _ (SQLiteError _) = Ok _ |- _ => apply throw_when_ok in Hu; rename Hu into Hfree end.
    destruct (r_ranked r); [repeat (apply rbind_ok in H0 as (? & ? & H0))|]; injection H0 as <-; eexists; by split_and!. }
  destruct Hex as (row & Er & Hfree & Hlow & Hc & Ha).
  assert (Hnew : ∀ x, x ∈ results d → sr_id x ≠ sr_id row ∧ sr_tx x ≠ sr_tx row).
  { intros x Hx. apply (existsb_none _ _ _ Hfree) in Hx. unfold result_constraint in Hx. rewrite !orb_false_iff, !String.eqb_neq in Hx. tauto. }
  split.
  - split; rewrite Er.
    + rewrite fmap_app. apply NoDup_snoc; [apply Ht|]. intros (x & E & Hx)%list_elem_of_fmap. destruct (Hnew x Hx); congruence.
    + rewrite fmap_app. apply NoDup_snoc; [apply Ht|]. intros (x & E & Hx)%list_elem_of_fmap. destruct (Hnew x Hx); congruence.
    + intros x [Hx| ->%list_elem_of_singleton]%elem_of_app; [by apply (tl_low _ _ Ht)|done].
    + intros x [Hx| ->%list_elem_of_singleton]%elem_of_app; [by apply (tl_marks _ _ Ht)|congruence].
    + intros x e signer sg [Hx| ->%list_elem_of_singleton]%elem_of_app; [by apply (tl_signed _ _ Ht)|congruence].
  - intros x Hx. unfold in_ledger. rewrite Er, fmap_app. apply elem_of_app. by left.
Qed.
Lemma unclaimed_ok chain d c tok : true_ledger chain d →
  NoDup (sr_tx <$> unclaimed d c tok) ∧ Forall (λ r, of_token c tok r = true ∧ in_ledger d r) (unclaimed d c tok).
Proof.
  intros Ht. split.
  - unfold unclaimed. set (l := filter _ _). assert (Hl : NoDup (sr_tx <$> l)).
    { apply (sublist_NoDup _ (sr_tx <$> results d)); [apply Ht|]. apply fmap_sublist,  sublist_filter. }
    apply (sublist_NoDup _ (sr_tx <$> l)); [done|]. apply fmap_sublist,  sublist_take.
  - apply Forall_forall. intros r Hr%taken_elem. apply list_elem_of_filter in Hr as [[Hc _]%andb_true_iff Hr]. split; [done|].
    apply list_elem_of_fmap. by exists r.
Qed.

Lemma bare_in_ledger d d' x : bare <$> results d' = bare <$> results d → in_ledger d x → in_ledger d' x.
Proof. unfold in_ledger. by intros ->. Qed.
Lemma inv_moves S s chain : inv S → true_ledger chain (st_db s) → sy_chain S ⊆ chain → (∀ x, in_ledger (db S) x → in_ledger (st_db s) x) →
  inv {| sy_store := s; sy_chain := chain; sy_runs := sy_runs S |}.
Proof.
  intros [_ Hr] Ht Hc Hl. split; [done|]. cbn. intros pid r Hpid. destruct (Hr _ _ Hpid) as [Hk He]. split; [done|].
  eapply Forall_impl; [exact He|]. intros e. by apply event_mono.
Qed.
Lemma inv_run S pid r : inv S → keeps (ru_trace r) (ru_prog r) (batch_post (ru_owner r) (ru_token r)) →
  Forall (event_ok (sy_chain S) (db S)) (ru_trace r) →
  inv {| sy_store := sy_store S; sy_chain := sy_chain S; sy_runs := <[pid := r]> (sy_runs S) |}.
Proof.
  intros [Ht Hr] Hk He. split; [done|]. cbn. intros pid' r' [[<- <-]|[_ Hin]]%lookup_insert_Some; [done|exact (Hr pid' r' Hin)].
Qed.
(** What a permitted question does to the store, and that its answer is as good as the trace. *)
Lemma answer_sound S q a s' tr : true_ledger (sy_chain S) (db S) → Forall (event_ok (sy_chain S) (db S)) tr → permitted tr q →
  answers config (sy_chain S) q a (sy_store S) s' →
  true_ledger (sy_chain S) (st_db s') ∧ (∀ x, in_ledger (db S) x → in_ledger (st_db s') x) ∧ event_ok (sy_chain S) (st_db s') (existT q a).
Proof.
  intros Ht He Hp Ha. assert (Hread : ∀ row, read tr row → in_ledger (db S) row).
  { intros row (tok & rows & Hk & Hin). rewrite Forall_forall in He. destruct (He _ Hk) as [_ Hf]. cbn in Hf. rewrite Forall_forall in Hf.
    by destruct (Hf _ Hin). }
  destruct q; cbn [answers] in Ha; try (subst s'; by split_and!).
  - destruct Ha as [-> Ha]. by split_and!.
  - destruct (honor _ _ _ _ _) as [[h b]|e]; destruct Ha as [-> Es]; [subst s'; by split_and!|]. rewrite Es. by split_and!.
  - destruct Ha as [-> ->]. split_and!; [done|done|]. by apply (unclaimed_ok (sy_chain S)).
  - subst s'. destruct Hp as (row & Hr & -> & Hk). cbn [st_db with_db]. split_and!; [|intros x; apply bare_in_ledger, markClaimed_bare|done].
    apply markClaimed_true; [done|by apply Hread|]. rewrite Forall_forall in He. by apply (He _ Hk).
  - destruct Hp as (row & safe & Hr & -> & Hpay & -> & Hs). unfold attest in Ha. destruct (ledger_get _ _); destruct Ha as [-> ->]; [|by split_and!].
    cbn [st_db with_db]. split_and!; [by apply attest_true, Hs; auto|intros x; by apply bare_in_ledger, update_bare|done].
Qed.
Lemma claim_step_inv S S' : inv S → cstep S S' → inv S'.
Proof.
  intros Hi Hstep. pose proof Hi as [Ht Hr]. destruct Hstep.
  - apply inv_run; [done|apply batch_keeps|constructor].
  - destruct (Hr _ _ ltac:(eassumption)) as [Hk He]. rewrite H1 in Hk. destruct Hk as [Hp Hk].
    destruct (answer_sound S q a s' _ Ht He Hp H2) as (Ht' & Hl & Ho).
    pose proof (inv_moves S s' (sy_chain S) Hi Ht' ltac:(done) Hl) as Hi'. apply (inv_run _ pid _ Hi'); [by apply Hk|]. cbn.
    apply Forall_app. split; [|by apply Forall_singleton]. eapply Forall_impl; [exact He|]. intros e. by apply event_mono.
  - destruct (insert_true _ _ _ _ _ Ht H0) as [Ht' Hl]. by apply inv_moves.
  - apply inv_moves; [done| |done|]; cbn [st_db with_db].
    + destruct Ht. split; by rewrite H0.
    + intros x. apply bare_in_ledger. by rewrite H0.
  - by apply inv_moves.
  - apply inv_moves; [done| |done|intros x; apply bare_in_ledger, markClaimed_bare]. apply markClaimed_true; [done| |done].
    apply list_elem_of_fmap. by exists row.
  - apply inv_moves; [done| |set_solver|done]. destruct Ht as [? ? ? Hm ?]. split; try done. intros r Hin Hcl. specialize (Hm r Hin Hcl). set_solver.
  - split; [done|]. cbn. intros pid' r [_ Hin]%lookup_delete_Some. exact (Hr pid' r Hin).
Qed.
Lemma reached_inv S0 S : c_start S0 → rtc cstep S0 S → inv S.
Proof.
  intros [Hres Hruns] Hr. assert (Hi : inv S0).
  { split; [|intros pid r Hl; by rewrite Hruns, lookup_empty in Hl]. split; rewrite Hres; [apply NoDup_nil_2|apply NoDup_nil_2|by intros r ?%elem_of_nil..|by intros r e signer sg ?%elem_of_nil]. }
  clear Hres Hruns. induction Hr as [|S1 S2 S3 Hs _ IH]; [done|]. apply IH. by eapply claim_step_inv.
Qed.

(** C35: What a guardian's owner is handed can be claimed: in every history of batches, workers
    and reads over one ledger, a finished batch is of its owner's guardian and by the signer
    the contract trusts; it holds at most the contract's batch size, every payment once; and
    each claim is a row of the ledger, signed, that the chain reported unclaimed and paid in
    full to the arcade, in a canonical block that is safe. *)
Theorem batch_is_claimable S0 S pid r b (Hstart : c_start S0) (Hrun : rtc cstep S0 S)
    (Hr : sy_runs S !! pid = Some r) (Hb : ru_prog r = Done (Ok b)) :
  let tr := ru_trace r in
  (∃ n o s, known tr (OwnerOf (BigInt (ru_token r)) n) (Ok o) ∧ toLowerCase (getAddress o) = toLowerCase (ru_owner r)
     ∧ known tr (ResultSigner None) (Ok s) ∧ getAddress s = cb_signer b)
  ∧ Z.of_nat (length (cb_claims b)) + (if cb_honor b then 1 else 0) <= GUARDIAN_CLAIM_BATCH
  ∧ NoDup ((λ c, j_paymentTx (cl_result c)) <$> cb_claims b)
  ∧ ∃ safe, known tr SafeBlock (Ok (Some safe)) ∧ ∀ c, c ∈ cb_claims b →
      ∃ row, in_ledger (db S) row ∧ of_token coll (ru_token r) row = true ∧ cl_result c = result_json row ∧ signs row (cl_signature c)
        ∧ payable tr safe row.
Proof.
  destruct (in_runs _ (reached_inv _ _ Hstart Hrun) _ _ Hr) as [Hk He]. rewrite Hb in Hk.
  destruct Hk as (rows & chosen & safe & n & o & s & p & [[? ?] (? & ? & Es) _ ? [Hrows Hsub] Hcl Hpay ? _ _]).
  rewrite Forall_forall in He. destruct (He _ Hrows) as [Hnd Hf]. cbn zeta. split_and!.
  - exists n, o, s. split_and!; try done. congruence.
  - done.
  - assert (E : (λ c, j_paymentTx (cl_result c)) <$> cb_claims b = sr_tx <$> chosen).
    { clear -Hcl. induction Hcl as [|row c chosen l [Ec _] _ IH]; [done|]. cbn. rewrite Ec. by f_equal. }
    rewrite E. eapply sublist_NoDup; [exact Hnd|]. by apply fmap_sublist.
  - exists safe. split; [done|]. intros c [i Hc]%list_elem_of_lookup. destruct (Forall2_lookup_r _ _ _ _ _ Hcl Hc) as (row & Hi & Ec & Hs).
    apply list_elem_of_lookup_2 in Hi. rewrite Forall_forall in Hpay. assert (Hrow : row ∈ rows) by by eapply elem_of_sublist.
    rewrite Forall_forall in Hf. destruct (Hf _ Hrow). exists row. split_and!; auto.
Qed.
(** The ledger's marks are true: in every such history a row marked claimed has its payment
    claimed on the chain, so no admission is lost to its owner; and a row that carries a
    signature carries one of its own result, by the signer. *)
Theorem ledger_marks_are_true S0 S (Hstart : c_start S0) (Hrun : rtc cstep S0 S) row :
  row ∈ results (db S) →
  (sr_claimed row = true → sr_tx row ∈ sy_chain S)
  ∧ ∀ e signer sg, sr_attested row = Some (e, signer, sg) → signer = gc_signer config ∧ signs row sg.
Proof.
  intros Hrow. destruct (in_true _ (reached_inv _ _ Hstart Hrun)) as [_ _ _ Hm Hs]. split; [by apply Hm|]. intros e signer sg. by apply Hs.
Qed.
End Facts.

(** ** The signed honor is the stored one *)
Lemma signed_merge stored sealed : signed_honors stored sealed = merge_honors stored sealed.
Proof.
  unfold signed_honors, merge_honors. f_equal; [lia|]. generalize (titles stored). induction (titles sealed) as [|g l IH]; intros [|o ls]; try done.
  cbn. rewrite IH. f_equal. unfold max_counts. f_equal; lia.
Qed.
Lemma merge_absorbs stored sealed : merge_honors stored (merge_honors stored sealed) = merge_honors stored sealed.
Proof.
  unfold merge_honors. cbn. f_equal; [lia|]. generalize (titles sealed). induction (titles stored) as [|o l IH]; intros [|g ls]; try done.
  cbn. rewrite IH. f_equal. unfold max_counts. cbn. f_equal; lia.
Qed.
Lemma honor_json_ok tokenId h json message : guardianHonorJson tokenId h = Ok json → guardianHonorFromJson json = Ok message →
  honors_ok h ∧ 1 <= week h ∧ guardianTokenId (JStr tokenId) = true.
Proof.
  unfold guardianHonorJson. intros Hj Hm. apply rbind_ok in Hj as (p & Hp%packGuardianTitles_inv & [= <-]). unfold guardianHonorFromJson in Hm.
  cbn [hj_tokenId hj_week hj_longestStreak hj_titles] in Hm. apply rbind_ok in Hm as (? & Ht%throw_when_ok & Hm).
  apply rbind_ok in Hm as (? & Hl%throw_when_ok & _). rewrite !orb_false_iff, !negb_false_iff, !lane_spec in Hl.
  apply negb_false_iff in Ht. destruct Hl as [[[[Hw Hw1] Hs] _] _]. bools. split_and!; [by split|lia|done].
Qed.
Lemma honor_applies stored honor : week (honor_progress stored) < h_week honor → ∃ w, honor_apply stored honor = Some w.
Proof.
  rewrite progress_lanes. unfold honor_apply. cbn [week]. unfold lane_at. rewrite Z.mul_0_r, Z.shiftr_0_r. intros Hlt.
  destruct (Z.leb_spec (h_week honor) (Z.land stored 65535)); [lia|by eexists].
Qed.
(** C36: The honor on the NFT is the honor that was signed: a signed honor is newer than the
    guardian's word, the contract applies it, and what the contract then reads back is, lane
    for lane, the message of the signature: the greater of the sealed totals and of what the
    NFT had. *)
Theorem honor_is_stored_as_signed (sign : GuardianHonor → string) tokenId stored sealed json signature
    (Hc : honor_claim sign tokenId (honor_progress stored) (Some sealed) = Ok (Some (json, signature))) :
  ∃ message w, guardianHonorFromJson json = Ok message ∧ signature = sign message ∧ h_tokenId message = dec_number (chars tokenId)
    ∧ honor_apply stored message = Some w ∧ guardianHonorsOf message = Ok (honor_progress w)
    ∧ honor_progress w = merge_honors (honor_progress stored) sealed.
Proof.
  unfold honor_claim in Hc. destruct (honorAdvances _ _) eqn:Hadv; [|done]. rewrite signed_merge in Hc.
  apply rbind_ok in Hc as (j & Hj & Hc). apply rbind_ok in Hc as (message & Hm & [= -> <-]).
  destruct (honor_json_ok _ _ _ _ Hj Hm) as (Hok & Hw1 & Ht).
  destruct (honor_json_round_trip tokenId _ Ht Hok Hw1) as (j' & m' & Hj' & Hm' & Hid & Hof).
  assert (j' = json) as -> by congruence. assert (m' = message) as -> by congruence.
  assert (Hweek : week (merge_honors (honor_progress stored) sealed) = h_week message)
    by (unfold guardianHonorsOf in Hof; apply rbind_ok in Hof as (ts & _ & E); by injection E).
  unfold honorAdvances in Hadv. bools. destruct (honor_applies stored message) as [w Hw]; [cbn [merge_honors week] in Hweek; lia|].
  pose proof (applied_progress _ _ _ _ Hof Hok Hw) as Hp. rewrite merge_absorbs in Hp. exists message, w. by rewrite Hp.
Qed.

(** ** What the ledger tells *)
(** Theorem: the earned progress counts every admission once: counting one adds its play, its
    victory and its score to its own guardian, and leaves every other guardian's progress. *)
Theorem progress_counts_each_round keccak resultInputs j r d d' c tok : ledger_insert keccak resultInputs j r d = Ok (tt, d') →
  let p := progress d c tok in let p' := progress d' c tok in
  if String.eqb (toLowerCase (Outings.collection (guardian j))) (toLowerCase c) && String.eqb (g_tokenId (guardian j)) tok then
    let won := default false (oc_victory (r_outcome r)) in
    po_plays p' = po_plays p + 1 ∧ po_victories p' = po_victories p + (if won then 1 else 0)
    ∧ po_experience p' = po_experience p + (if won then 15 else 10)
  else p' = p.
Proof.
  intros Hi. assert (Hex : ∃ row, results d' = (results d ++ [row])%list ∧ sr_collection row = toLowerCase (Outings.collection (guardian j))
    ∧ sr_token row = g_tokenId (guardian j) ∧ sr_result row = r).
  { unfold ledger_insert in Hi. destruct (pending j) as [p|]; [|done]. repeat (apply rbind_ok in Hi as (? & ? & Hi)).
    destruct (r_ranked r); [repeat (apply rbind_ok in Hi as (? & ? & Hi))|]; injection Hi as <-; eexists; by split_and!. }
  destruct Hex as (row & Er & Ec & Et & Eres). cbn zeta. rewrite <- Ec, <- Et. change (String.eqb _ _ && String.eqb _ _) with (of_token c tok row).
  unfold progress. rewrite Er, filter_app. destruct (of_token c tok row) eqn:Eo.
  - rewrite filter_cons_True, filter_nil by done. rewrite <- Eres. fold (row_victory row). cbn [fmap list_fmap foldr po_plays po_victories po_experience].
    unfold game_progress. cbn [gp_plays gp_victories]. rewrite !filter_app, !filter_cons, !filter_nil.
    destruct (r_game (sr_result row)); repeat case_decide; try done; rewrite ?length_app, ?app_nil_r, ?filter_app, ?filter_cons, ?filter_nil;
      destruct (row_victory row) eqn:Ev; repeat case_decide; try congruence; rewrite ?length_app; cbn [length]; split_and!; lia.
  - rewrite filter_cons_False, filter_nil, app_nil_r; [done|congruence].
Qed.
(** Theorem: to anyone but its actor a result reads the same whoever played and paid it. *)
Theorem view_hides_the_player row row' viewer claimed :
  toLowerCase viewer ≠ toLowerCase (sr_actor row) → toLowerCase viewer ≠ toLowerCase (sr_actor row') →
  (sr_token row, sr_epoch row, sr_ruleset row) = (sr_token row', sr_epoch row', sr_ruleset row') →
  (r_id (sr_result row), r_game (sr_result row), r_seed (sr_result row), r_at (sr_result row), r_outcome (sr_result row), r_ranked (sr_result row))
  = (r_id (sr_result row'), r_game (sr_result row'), r_seed (sr_result row'), r_at (sr_result row'), r_outcome (sr_result row'), r_ranked (sr_result row')) →
  resultView row viewer claimed = resultView row' viewer claimed.
Proof.
  intros Hv%String.eqb_neq Hv'%String.eqb_neq E1 E2. injection E1 as ? ? ?. injection E2 as ? ? ? ? ? ?.
  unfold resultView, row_score, row_victory. rewrite Hv, Hv'. congruence.
Qed.

(** ** A batch ends *)
Definition fits (q : ask) : answer q → Prop := match q with ReadUnclaimed _ _ => λ rows, (length rows <= UNCLAIMED_ROWS)%nat | _ => λ _, True end.
Fixpoint within {A} (n : nat) (p : prog A) {struct p} : Prop :=
  match p, n with
  | Done _, _ => True
  | Ask _ _, O => False
  | Ask q k, S n => ∀ a, fits q a → within n (k a)
  end.
Lemma within_more {A} (p : prog A) : ∀ n m, (n <= m)%nat → within n p → within m p.
Proof. induction p as [r|q k IH]; intros [|n] [|m] Hnm Hw; cbn in *; try done; try lia. intros a Ha. apply (IH a n); [lia|by apply Hw]. Qed.
Lemma within_bind {A B} (p : prog A) (f : result A → prog B) m : (∀ r, within m (f r)) → ∀ n, within n p → within (n + m) (pbind p f).
Proof.
  intros Hf. induction p as [r|q k IH]; intros n Hn; cbn [pbind].
  - apply (within_more _ m); [lia|done].
  - destruct n as [|n]; [done|]. cbn in *. intros a Ha. by apply IH, Hn.
Qed.
Lemma within_ask {A} q (k : answer q → prog A) n : (∀ a, fits q a → within n (k a)) → within (S n) (Ask q k).
Proof. done. Qed.
Lemma claim_rows_within `{Toolkit} config sign_result deadline safe cap honor rows : ∀ signed,
  within (5 * length rows) (claim_rows config sign_result deadline safe cap honor rows signed).
Proof.
  induction rows as [|row rows IH]; intros signed; [done|]. cbn [claim_rows]. destruct (_ =? cap); [done|].
  replace (5 * length (row :: rows))%nat with (S (S (3 + 5 * length rows))) by (cbn [length]; lia).
  set (next := Ask (ClaimedPayments (sr_tx row)) _).
  assert (Hnext : within (S (3 + 5 * length rows)) next).
  { apply within_ask. intros [[|]|e] _; [| |done].
    - apply (within_ask (MarkClaimed _) _ (2 + 5 * length rows)). intros u _. apply (within_more _ (5 * length rows)); [lia|apply IH].
    - replace (3 + 5 * length rows)%nat with (2 + S (5 * length rows))%nat by lia. apply within_bind.
      + intros [e|e]; [|destruct (decide _); [apply (within_more _ (5 * length rows)); [lia|apply IH]|done]].
        destruct (guardianResultFromJson _); [|done]. apply within_ask. intros [u|e'] _; [apply IH|done].
      + unfold safeReceipt. apply within_ask. intros [r| |e] _; [|done..]. destruct (negb _); [done|]. destruct (safe <? _); [done|].
        apply within_ask. intros [[h|]|e] _; [|done..]. by destruct (negb _). }
  destruct (_ || honor); [|apply (within_more _ (S (3 + 5 * length rows))); [lia|done]].
  apply within_ask. intros t _. by destruct (deadline <=? t).
Qed.
Definition BATCH_QUESTIONS : nat := 13 + 5 * UNCLAIMED_ROWS.
(** C37: A request for a batch ends: whatever the outside answers, it asks at most thirteen
    questions and five for each row it may read, and then answers. *)
Theorem batch_ends `{Toolkit} config sign_result sign_honor budgetMs owner tokenId :
  within BATCH_QUESTIONS (claim_batch config sign_result sign_honor budgetMs owner tokenId).
Proof.
  unfold claim_batch, BATCH_QUESTIONS. change (13 + 5 * UNCLAIMED_ROWS)%nat with (S (6 + (6 + 5 * UNCLAIMED_ROWS))). apply within_ask. intros t0 _.
  apply within_bind.
  - intros [t|e]; [|done]. destruct (negb _); [done|]. apply within_ask. intros [s|e] _; [|done]. destruct (negb _); [done|].
    apply within_ask. intros [c|e] _; [|done]. destruct (negb _); [done|]. apply within_ask. intros [[safe|]|e] _; [|done..].
    assert (Hsign : ∀ sealed, within (1 + 5 * UNCLAIMED_ROWS) (sign_batch config sign_result sign_honor (t0 + budgetMs) safe tokenId t sealed)).
    { intros sealed. unfold sign_batch. destruct (honor_claim _ _ _ _) as [honor|e]; [|done]. apply within_ask. intros rows Hrows. cbn [fits] in Hrows.
      rewrite <- (Nat.add_0_r (5 * UNCLAIMED_ROWS)). apply within_bind; [intros [claims|e]; exact I|].
      apply (within_more _ (5 * length rows)); [lia|apply claim_rows_within]. }
    destruct (gk_revealed t); [|apply (within_more _ (1 + 5 * UNCLAIMED_ROWS)); [lia|apply Hsign]].
    apply within_ask. intros t1 _. apply within_ask. intros [sealed|e] _; [|done]. apply Hsign.
  - unfold token. destruct (negb _); [done|]. change 6%nat with (2 + 4)%nat. apply within_bind.
    + intros [n|e]; [|exact I]. do 4 (apply within_ask; intros [?|?] _; [|done]). done.
    + unfold block. apply within_ask. intros [c|e] _; [|done]. destruct (negb _); [done|]. apply within_ask. by intros [[n|]|e] _.
Qed.

(** ** A history *)
Section Runs.
Definition c7_same (s : string) : string := s.
Definition c7_inputs (j : Job) : string := "".
Definition c7_config : GuardianConfig := {| gc_collection := "0xC0"; gc_signer := "0x00000000000000000000000000000000000000aa" |}.
Definition c7_sign (m : GuardianResult) : string := "signed " ++ Guardians.resultId m.
Definition c7_sign_honor (m : GuardianHonor) : string := "honored " ++ show_Z (h_tokenId m).
Definition c7_owner : string := "0x00000000000000000000000000000000000000bb".
Definition c7_job : Job :=
  {| j_id := "o1"; j_owner := c7_owner; payer := c7_owner; agent := "0xa9"; context := "0xfeed"; j_contextHash := "0xc"; j_fingerprint := ""; characterId := "nft-7";
     guardian := {| chainId := GUARDIAN_CHAIN_ID; collection := "0xC0"; g_tokenId := "7"; g_owner := c7_owner; g_epoch := "1"; g_seed := "0x5eed";
                    g_traitsHash := "0x7a"; g_ruleset := ARCADE_RULESET_VERSION |};
     profile := {| pf_name := ""; pf_color := None; pf_temperament := None; pf_goal := goal_score; pf_aptitudes := None |}; locale := en; choice := None;
     admissions := 1; spent := 0; status := running; createdAt := 0; updatedAt := 0; expiresAt := 9000000; error := None; stopRequested := false;
     pending := Some {| p_game := race; p_gameseed := 5; p_header := Some "h"; p_tx := Some "0xT1"; p_ranked := None |}; j_results := []; shopMemory := None |}.
Definition c7_result : OutingResult :=
  {| r_id := resultId c7_same c7_job; r_game := race; r_seed := 5; r_at := 1000; r_tx := "0xT1"; r_ranked := None;
     r_outcome := {| oc_game := race; oc_score := Some 120; oc_version := Some ARCADE_RULESET_VERSION; oc_seed := Some 5; oc_victory := Some true;
                     oc_memory := None; oc_rest := "" |} |}.
Definition c7_empty : Db := {| jobs := ∅; results := []; ranked := []; lease_row := None |}.
Definition c7_settled : Db := match ledger_insert c7_same c7_inputs c7_job c7_result c7_empty with Ok (_, d) => d | Throw _ => c7_empty end.
Definition c7_receipt : TxReceipt :=
  {| rc_success := true; rc_block := 90; rc_blockHash := "0xB1";
     rc_logs := [{| address := MOCK_USDC_address; topics := [TRANSFER_EVENT_TOPIC; padTopicAddress c7_owner; padTopicAddress ARCADE_PAY_TO];
                    data := "0x00000000000000000000000000000000000000000000000000000000000f4240" |}] |}.
Definition c7_progress : ProgressReading :=
  {| pr_plays := 0; pr_victories := 0; pr_experience := 0; pr_gamePlays := [0; 0; 0]; pr_gameVictories := [0; 0; 0]; pr_bestScores := [0; 0; 0];
     pr_honorWeek := 0; pr_longestStreak := 0; pr_champion := [0; 0; 0]; pr_podium := [0; 0; 0]; pr_top10 := [0; 0; 0] |}.
(** What the outside answers, and the store after it. *)
Definition c7_reply (q : ask) : Store → answer q * Store :=
  match q with
  | Now => λ s, (1790000000000, s)
  | ChainId => λ s, (Ok GUARDIAN_CHAIN_ID, s)
  | LatestBlock | SafeBlock => λ s, (Ok (Some 100), s)
  | BlockHash _ => λ s, (Ok (Some "0xb1"), s)
  | OwnerOf _ _ => λ s, (Ok c7_owner, s)
  | ResultSigner _ => λ s, (Ok (gc_signer c7_config), s)
  | OwnershipEpoch _ _ | MintedBy _ _ | PendingMint _ _ | MintFee _ => λ s, (Ok 1, s)
  | BirthOf _ _ => λ s, (Ok {| bi_seed := "0x5eed"; bi_sequence := 1; bi_revealed := true |}, s)
  | ProgressOf _ _ => λ s, (Ok c7_progress, s)
  | TokensOfOwner _ _ => λ s, (Ok [7], s)
  | ClaimedPayments _ => λ s, (Ok false, s)
  | ReceiptOf _ => λ s, (Receipt c7_receipt, s)
  | ReadHonor tok at_ => λ s, match honor "0xC0" (ranked (st_db s)) tok at_ (st_book s) with
                              | Ok (h, b) => (Ok h, with_book b s) | Throw e => (Throw e, s) end
  | ReadUnclaimed coll tok => λ s, (unclaimed (st_db s) coll tok, s)
  | MarkClaimed id => λ s, (tt, with_db (markClaimed id (st_db s)) s)
  | Attest id e signer sg => λ s, match attest id e signer sg (st_db s) with Ok (_, d) => (Ok tt, with_db d s) | Throw e => (Throw e, s) end
  end.
Lemma c7_reply_answers chain q s : answers c7_config chain q (c7_reply q s).1 s (c7_reply q s).2.
Proof.
  destruct q; cbn [answers c7_reply fst snd]; try done.
  - change (gc_collection c7_config) with "0xC0". by destruct (honor _ _ _ _ _) as [[h b]|e].
  - by destruct (attest _ _ _ _ _) as [[[] d]|e].
Qed.
Fixpoint c7_drive (n : nat) (s : Store) (p : prog ClaimBatch) (tr : list event) : Store * prog ClaimBatch * list event :=
  match n, p with
  | S n, Ask q k => let '(a, s) := c7_reply q s in c7_drive n s (k a) (tr ++ [existT q a])%list
  | _, _ => (s, p, tr)
  end.
Local Notation c7_step := (cstep c7_config c7_sign c7_sign_honor 10000 c7_same c7_inputs).
Definition c7_sys (x : Store * prog ClaimBatch * list event) : Sys :=
  {| sy_store := x.1.1; sy_chain := ∅; sy_runs := {[0%nat := {| ru_owner := c7_owner; ru_token := "7"; ru_prog := x.1.2; ru_trace := x.2 |}]} |}.
Lemma c7_drive_run n : ∀ s p tr, rtc c7_step (c7_sys (s, p, tr)) (c7_sys (c7_drive n s p tr)).
Proof.
  induction n as [|n IH]; intros s p tr; [constructor|]. destruct p as [r|q k]; [constructor|]. cbn [c7_drive].
  pose proof (c7_reply_answers ∅ q s) as Ha. destruct (c7_reply q s) as [a s'].
  set (r := {| ru_owner := c7_owner; ru_token := "7"; ru_prog := Ask q k; ru_trace := tr |}).
  eapply rtc_l; [|apply IH]. pose proof (c_answer c7_config c7_sign c7_sign_honor 10000 c7_same c7_inputs (c7_sys (s, Ask q k, tr)) 0%nat r q k a s') as Hstep.
  cbn [c7_sys sy_runs sy_store sy_chain fst snd] in Hstep. rewrite insert_singleton_eq in Hstep. apply Hstep; [apply lookup_singleton_eq|done|done].
Qed.
Definition c7_start : Sys := {| sy_store := {| st_db := c7_empty; st_book := empty_book |}; sy_chain := ∅; sy_runs := ∅ |}.
Definition c7_end : Store * prog ClaimBatch * list event :=
  c7_drive 40 {| st_db := c7_settled; st_book := empty_book |} (claim_batch c7_config c7_sign c7_sign_honor 10000 c7_owner "7") [].
Lemma c7_inserted : ledger_insert c7_same c7_inputs c7_job c7_result c7_empty = Ok (tt, c7_settled).
Proof. vm_compute. reflexivity. Qed.
Lemma c7_run : rtc c7_step c7_start (c7_sys c7_end).
Proof.
  eapply rtc_l; [apply (c_settle _ _ _ _ _ _ c7_start c7_job c7_result _ c7_inserted)|].
  eapply rtc_l; [apply (c_open _ _ _ _ _ _ _ 0%nat c7_owner "7"); apply lookup_empty|]. apply c7_drive_run.
Qed.
Lemma c7_batch : ∃ b, c7_end.1.2 = Done (Ok b) ∧ length (cb_claims b) = 1%nat.
Proof. eexists. split; vm_compute; reflexivity. Qed.
Lemma c7_from : c_start c7_start.
Proof. split; reflexivity. Qed.
Definition c7_last : Run := {| ru_owner := c7_owner; ru_token := "7"; ru_prog := c7_end.1.2; ru_trace := c7_end.2 |}.
Lemma c7_there : sy_runs (c7_sys c7_end) !! 0%nat = Some c7_last.
Proof. apply lookup_singleton_eq. Qed.
Lemma batch_is_claimable_witness : ∃ b, length (cb_claims b) = 1%nat
  ∧ Z.of_nat (length (cb_claims b)) + (if cb_honor b then 1 else 0) <= GUARDIAN_CLAIM_BATCH
  ∧ NoDup ((λ c, j_paymentTx (cl_result c)) <$> cb_claims b).
Proof.
  destruct c7_batch as (b & Hb & Hl). exists b. split; [exact Hl|].
  destruct (batch_is_claimable c7_config c7_sign c7_sign_honor 10000 c7_same c7_inputs _ _ 0%nat c7_last b c7_from c7_run c7_there Hb) as (_ & H1 & H2 & _).
  exact (conj H1 H2).
Defined.
Lemma c7_row : ∃ row e, row ∈ results (st_db (sy_store (c7_sys c7_end))) ∧ sr_attested row = Some (e, gc_signer c7_config, "signed " ++ resultId c7_same c7_job).
Proof. eexists _, _. split; [apply list_elem_of_lookup_2 with (i := 0%nat); vm_compute; reflexivity|vm_compute; reflexivity]. Qed.
Lemma ledger_marks_are_true_witness : ∃ row sg, (sr_claimed row = true → sr_tx row ∈ sy_chain (c7_sys c7_end)) ∧ signs c7_sign row sg.
Proof.
  destruct c7_row as (row & e & Hin & Ha). exists row, ("signed " ++ resultId c7_same c7_job).
  destruct (ledger_marks_are_true c7_config c7_sign c7_sign_honor 10000 c7_same c7_inputs _ _ c7_from c7_run row Hin) as [H1 H2].
  split; [exact H1|exact (proj2 (H2 _ _ _ Ha))].
Defined.
Lemma c7_honor : ∃ json signature, honor_claim c7_sign_honor "777" (honor_progress 0) (Some ex_honors) = Ok (Some (json, signature)).
Proof. eexists _, _. vm_compute. reflexivity. Qed.
Lemma honor_is_stored_as_signed_witness : ∃ message w, honor_apply 0 message = Some w ∧ guardianHonorsOf message = Ok (honor_progress w)
  ∧ honor_progress w = merge_honors (honor_progress 0) ex_honors.
Proof.
  destruct c7_honor as (json & signature & E).
  destruct (honor_is_stored_as_signed c7_sign_honor "777" 0 ex_honors json signature E) as (message & w & _ & _ & _ & H1 & H2 & H3).
  exists message, w. exact (conj H1 (conj H2 H3)).
Defined.
Lemma progress_counts_each_round_witness : po_plays (progress c7_settled "0xc0" "7") = po_plays (progress c7_empty "0xc0" "7") + 1.
Proof. exact (proj1 (progress_counts_each_round c7_same c7_inputs c7_job c7_result c7_empty c7_settled "0xc0" "7" c7_inserted)). Defined.
End Runs.
