(* ===== verification/GuardianBoot.v ===== *)
(** * The result signer's configuration

    readGuardianConfig of apps/delegated-seller/guardians/runtime.ts: the guardian collection
    and the account that signs results, which no other role may hold. *)

From Stdlib Require Import ZArith Lia Ascii String.
From stdpp Require Import base strings list.
From S2P Require Import Prelude Toolkit Seller Environment Claims.
Open Scope string_scope.
Open Scope Z_scope.

Definition ARCADE_REDEEMER : string := "0x5eA109EDC7E89b6A752032Aa2B6F1092e081E7eC".
Definition ROLE_KEYS : list string :=
  ["ARCADE_AGENT_PRIVATE_KEY"; "PRIVATE_KEY"; "DEPLOYER_PRIVATE_KEY"; "GUARDIAN_DEPLOYER_PRIVATE_KEY"; "FRAMEWORK_ADMIN_PRIVATE_KEY";
   "GUARDIAN_ADMIN_PRIVATE_KEY"; "FACILITATOR_SIGNER_PRIVATE_KEY"; "BOOTSTRAP_PRIVATE_KEY"; "REVOCATION_RELAYER_PRIVATE_KEY";
   "REVOCATION_SPONSOR_PRIVATE_KEY"].
Definition ROLE_ADDRESSES : list string :=
  ["DEPLOYER_ADDRESS"; "GUARDIAN_DEPLOYER_ADDRESS"; "FRAMEWORK_ADMIN_ADDRESS"; "GUARDIAN_ADMIN_ADDRESS"; "FACILITATOR_SIGNER_ADDRESS";
   "BOOTSTRAP_ADDRESS"; "REVOCATION_RELAYER_ADDRESS"; "REVOCATION_SPONSOR_ADDRESS"].

Section GuardianBoot.
Context `{Toolkit}.
Variable new_URL : string → result Url.
(** [privateKeyToAccount(key).address] *)
Variable address_of : string → result string.

Definition or_error {A} (r : result A) (message : string) : result A := match r with Ok a => Ok a | Throw _ => Throw (Error message) end.
Fixpoint other_keys (e : variables) (signer : string) (names : list string) : result unit :=
  match names with
  | [] => Ok tt
  | name :: rest =>
      if String.eqb (trimmed e name) "" then other_keys e signer rest
      else let? other := or_error (address_of (trimmed e name)) (name ++ " invalid") in
           throws String.eqb other signer with Error "Result signer must be a separate unfunded role";
           other_keys e signer rest
  end.
Definition conflicts (e : variables) (signer name : string) : bool :=
  let value := trimmed e name in
  negb (String.eqb value "") && (negb (isAddress value) || String.eqb (getAddress value) signer).
(** [None] when outings are off. *)
Definition readGuardianConfig (e : variables) : result (option (GuardianConfig * string)) :=
  if negb (bool_decide (e "ARCADE_OUTINGS_ENABLED" = Some "true")) then Ok None
  else
    let address := trimmed e "ARCADE_GUARDIAN_ADDRESS" in
    let key := trimmed e "ARCADE_RESULT_PRIVATE_KEY" in
    throws String.eqb address "" || negb (isAddress address) || String.eqb (toLowerCase address) zeroAddress with Error "ARCADE_GUARDIAN_ADDRESS required";
    throws String.eqb key "" || negb (re_0x is_hex 64 key) with Error "ARCADE_RESULT_PRIVATE_KEY required";
    let? signer := or_error (address_of key) "ARCADE_RESULT_PRIVATE_KEY invalid" in
    let? _ := other_keys e signer ROLE_KEYS in
    throws existsb (conflicts e signer) ROLE_ADDRESSES with Error "Result signer role conflict";
    throws String.eqb signer ARCADE_PAY_TO || String.eqb signer ARCADE_REDEEMER with Error "Result signer role conflict";
    let? rpcUrl := readRpcUrl new_URL e in
    Ok (Some ({| gc_collection := getAddress address; gc_signer := signer |}, rpcUrl)).

Lemma other_keys_ok e signer names : other_keys e signer names = Ok tt →
  ∀ name, name ∈ names → trimmed e name ≠ "" → ∃ other, address_of (trimmed e name) = Ok other ∧ other ≠ signer.
Proof.
  induction names as [|n names IH]; intros Ho name Hin Hv; [by apply elem_of_nil in Hin|]. cbn [other_keys] in Ho.
  destruct (String.eqb_spec (trimmed e n) "") as [He|He].
  - apply elem_of_cons in Hin as [->|Hin]; [done|by apply IH].
  - apply rbind_ok in Ho as (other & Ha & Ho). apply rbind_ok in Ho as (? & Hne%throw_when_ok & Ho).
    apply elem_of_cons in Hin as [->|Hin]; [|by apply IH]. exists other. apply String.eqb_neq in Hne. split; [|done].
    unfold or_error in Ha. by destruct (address_of _); simplify_eq.
Qed.
(** Theorem: the account that signs results is nobody else: no key and no address that the
    environment names for another role is its own, and it is neither the arcade's payee nor its
    redeemer. *)
Theorem result_signer_is_separate e c url (Hb : readGuardianConfig e = Ok (Some (c, url))) :
  (∀ name, name ∈ ROLE_KEYS → trimmed e name ≠ "" → ∃ other, address_of (trimmed e name) = Ok other ∧ other ≠ gc_signer c)
  ∧ (∀ name, name ∈ ROLE_ADDRESSES → trimmed e name ≠ "" → isAddress (trimmed e name) = true ∧ getAddress (trimmed e name) ≠ gc_signer c)
  ∧ gc_signer c ≠ ARCADE_PAY_TO ∧ gc_signer c ≠ ARCADE_REDEEMER
  ∧ address_of (trimmed e "ARCADE_RESULT_PRIVATE_KEY") = Ok (gc_signer c).
Proof.
  unfold readGuardianConfig in Hb. destruct (negb _); [done|]. repeat (apply rbind_ok in Hb as (? & ?%throw_when_ok & Hb)).
  apply rbind_ok in Hb as (signer & Hs & Hb). apply rbind_ok in Hb as ([] & Hk & Hb). apply rbind_ok in Hb as (? & Hc%throw_when_ok & Hb).
  apply rbind_ok in Hb as (? & Hp%throw_when_ok & Hb). apply rbind_ok in Hb as (u & _ & [= <- <-]). cbn [gc_signer].
  apply orb_false_iff in Hp as [Hp1%String.eqb_neq Hp2%String.eqb_neq]. split_and!; try done.
  - by apply other_keys_ok.
  - intros name Hin Hv. apply (existsb_none _ _ _ Hc) in Hin. unfold conflicts in Hin. apply String.eqb_neq in Hv. rewrite Hv in Hin. cbn in Hin.
    apply orb_false_iff in Hin as [?%negb_false_iff ?%String.eqb_neq]. done.
  - unfold or_error in Hs. by destruct (address_of _); simplify_eq.
Qed.
End GuardianBoot.
