(* ===== verification/Permission.v ===== *)
(** * What an outing may spend

    apps/delegated-seller/outings/validation.ts: the request that starts an outing, and the
    permission in it, which is admitted only when it is, caveat for caveat, the delegation the
    arcade would have drawn up for these admissions.  The kit's encoders and hashes are
    arguments, the deployment is the parsed artifact. *)

From Stdlib Require Import ZArith Lia Ascii String.
From stdpp Require Import base gmap strings list.
From S2P Require Import Prelude Toolkit Bootstrap Policy Status X402 Purchases Guardians Ranking Season Outings Claims.
Open Scope string_scope.
Open Scope Z_scope.

Definition MAX_OUTING_ADMISSIONS : Z := 36.
Definition OUTING_PERMISSION_SECONDS : Z := 7200.

(** ** The request *)
(** [/^[A-Za-z0-9_-]{8,80}$/] *)
Definition is_id_char (c : ascii) : bool :=
  let n := code c in ((48 <=? n) && (n <=? 57)) || ((65 <=? n) && (n <=? 90)) || ((97 <=? n) && (n <=? 122)) || (n =? 95) || (n =? 45).
Definition ID (s : string) : bool := (8 <=? slen s) && (slen s <=? 80) && forallb is_id_char (chars s).
Definition START_KEYS : list string := ["id"; "tokenId"; "goal"; "locale"; "choice"; "admissions"; "permissionContext"].
Definition read_goal (v : jsval) : option Goal :=
  match v with JStr s => if String.eqb s "score" then Some goal_score else if String.eqb s "save" then Some goal_save
                         else if String.eqb s "explore" then Some goal_explore else None | _ => None end.
Definition read_locale (v : jsval) : option Locale :=
  match v with JStr s => if String.eqb s "ko" then Some ko else if String.eqb s "en" then Some en else None | _ => None end.
Definition read_choice (v : jsval) : option Choice :=
  match v with JStr s => if String.eqb s "auto" then Some None else if String.eqb s "stamp" then Some (Some Ranking.stamp)
                         else if String.eqb s "race" then Some (Some Ranking.race) else if String.eqb s "shop" then Some (Some Ranking.shop) else None | _ => None end.

Section Permission.
Context `{Toolkit}.
Definition parseStart (input : jsval) : result OutingStart :=
  let refused := Throw (OutingError "invalid_request") in
  if negb (is_record input) || existsb (λ k, negb (bool_decide (k ∈ START_KEYS))) (object_keys input) then refused
  else
    match prop input "id", prop input "tokenId", read_goal (prop input "goal"), read_locale (prop input "locale"), read_choice (prop input "choice"),
          prop input "admissions", prop input "permissionContext" with
    | JStr id, JStr tok, Some goal, Some locale, Some choice, JNum n, JStr ctx =>
        if negb (ID id) || negb (validRankingTokenId (JStr tok)) || negb (isSafeInteger n) || (n <? 1) || (MAX_OUTING_ADMISSIONS <? n)
           || negb (isHex ctx) || negb (Z.even (slen ctx)) || (slen ctx <? 4) || (MAX_PERMISSION_CONTEXT_HEX_LENGTH <? slen ctx)
        then refused
        else Ok {| os_id := id; os_tokenId := tok; os_goal := goal; os_locale := locale; os_choice := choice; os_admissions := n; os_context := ctx |}
    | _, _, _, _, _, _, _ => refused
    end.

(** ** The permission *)
Variable env : SmartAccountsEnvironment.
(** [deployment.environment.caveatEnforcers.TimestampEnforcer] *)
Variable TimestampEnforcer : string.
Variable pad32 : string → string.
Variable createDelegation : KitRequest → result Delegation.
(** [hashTypedData] of the root delegation's typed data for the manager. *)
Variable permission_hash : string → Delegation → string.

Definition ticket_policy (admissions : Z) : PeriodPolicy :=
  {| role := vendor_agent; Policy.token := MOCK_USDC_address; periodAmount := admissions * ARCADE_TICKET_AMOUNT;
     lifetimeTotalAmount := Some (admissions * ARCADE_TICKET_AMOUNT); periodDurationSeconds := 60;
     expiresAfterSeconds := OUTING_PERMISSION_SECONDS; recipient := Some ARCADE_PAY_TO |}.
Definition expected_request (account agent : string) (start : OutingStart) (startDate : Z) (salt : string) : PrepareParams :=
  {| pp_delegator := account; pp_delegate := agent; pp_policy := ticket_policy (os_admissions start); pp_startDate := startDate;
     pp_salt := Some salt; pp_parent := None |}.
Definition same_text_caveat (c e : Caveat) : bool :=
  String.eqb (toLowerCase (enforcer c)) (toLowerCase (enforcer e)) && String.eqb (toLowerCase (terms c)) (toLowerCase (terms e))
  && String.eqb (toLowerCase (args c)) (toLowerCase (args e)).
Definition same_grant (grant expected : Delegation) : bool :=
  String.eqb (authority grant) (authority expected) && (length (caveats grant) =? length (caveats expected))%nat
  && forallb (λ '(c, e), same_text_caveat c e) (combine (caveats grant) (caveats expected)).
(** The dates: not yet 30 seconds from the end, begun within the last 5 minutes or the next
    30 seconds, two hours long.  Numbers are exact for the dates that pass. *)
Definition dates_refused (w : ValidityWindow) (now : Z) : bool :=
  negb (isSafeInteger (notBefore w)) || (now + 30000 <? notBefore w * 1000) || (notAfter w * 1000 <=? now + 30000)
  || negb (notAfter w - notBefore w =? OUTING_PERMISSION_SECONDS) || (notBefore w * 1000 <? now - 300000).
Definition permission_of (owner_ : string) (start : OutingStart) (agent : string) (now : Z) : result ValidatedPermission :=
  let no := Error "" in
  let? verified := validateAccountBootstrap (JObj [("permissionContext", JStr (os_context start))]) {| environment := env; approval := "" |} in
  let grant := delegation verified in
  throws negb (String.eqb (getAddress (Bootstrap.owner verified)) (getAddress owner_)) || negb (String.eqb (getAddress (delegate grant)) agent) with no;
  match List.find (λ c, String.eqb (getAddress (enforcer c)) (getAddress TimestampEnforcer)) (caveats grant) with
  | None => Throw no
  | Some timestamp =>
      let? w := decodeTimestampTerms (terms timestamp) in
      throws dates_refused w now with no;
      let? expected := preparePeriodDelegation pad32 createDelegation
                         (expected_request (account verified) agent start (notBefore w) (salt grant)) in
      throws negb (same_grant grant expected) with no;
      Ok {| vp_payer := account verified; vp_expiresAt := notAfter w * 1000; vp_contextHash := permission_hash (Bootstrap.DelegationManager env) grant |}
  end.
Definition validatePermission (owner_ : string) (start : OutingStart) (agent : string) (now : Z) : result ValidatedPermission :=
  catch_as (permission_of owner_ start agent now) (λ _, OutingError "invalid_permission").

(** ** What is admitted *)
Lemma ID_ok s : ID s = true ↔ 8 <= slen s <= 80 ∧ Forall (λ c, is_id_char c = true) (chars s).
Proof. unfold ID. rewrite !andb_true_iff, !Z.leb_le, forallb_forall, Forall_forall. setoid_rewrite <- list_elem_of_In. tauto. Qed.
(** Theorem: the start of an outing that is read has an id of 8 to 80 plain characters, a guardian
    the contract can mint, 1 to 36 admissions and a permission context of whole bytes. *)
Theorem start_is_bounded input s (Hs : parseStart input = Ok s) :
  8 <= slen (os_id s) <= 80 ∧ (∃ z, 1 <= z <= GUARDIAN_MAX_SUPPLY ∧ os_tokenId s = show_Z z) ∧ 1 <= os_admissions s <= MAX_OUTING_ADMISSIONS
  ∧ isHex (os_context s) = true ∧ Z.even (slen (os_context s)) = true ∧ 4 <= slen (os_context s) <= MAX_PERMISSION_CONTEXT_HEX_LENGTH.
Proof.
  unfold parseStart in Hs. destruct (_ || _); [done|]. repeat (case_match; try done). injection Hs as <-. cbn [os_id os_tokenId os_admissions os_context].
  bools. match goal with Hid : ID _ = true |- _ => apply ID_ok in Hid as [Hid _] end.
  match goal with Ht : validRankingTokenId _ = true |- _ => apply token_id_canonical in Ht end. split_and!; try done; lia.
Qed.

(** The request the kit builds an outing's delegation from: two hours from [startDate], in all
    and per minute at most the price of the admissions, to the arcade alone. *)
Definition outing_request (account agent : string) (admissions startDate : Z) (salt : string) : KitRequest :=
  {| kr_from := account; kr_to := agent; kr_salt := Some salt;
     kr_caveats := [TimestampCaveat startDate (startDate + OUTING_PERMISSION_SECONDS);
                    Erc20TransferAmount MOCK_USDC_address (admissions * ARCADE_TICKET_AMOUNT);
                    AllowedCalldata 4 (pad32 ARCADE_PAY_TO)];
     kr_scope := {| sc_tokenAddress := MOCK_USDC_address; sc_periodAmount := admissions * ARCADE_TICKET_AMOUNT; sc_periodDuration := 60;
                    sc_startDate := startDate |};
     kr_parent := None |}.
Lemma same_grant_ok d e : same_grant d e = true ↔
  authority d = authority e ∧ Forall2 (λ c c', same_text_caveat c c' = true) (caveats d) (caveats e).
Proof.
  unfold same_grant. rewrite !andb_true_iff, String.eqb_eq, Nat.eqb_eq. generalize (caveats e). induction (caveats d) as [|c l IH]; intros [|c' l'].
  - split; [by intros [[? _] _]|by intros [? _]].
  - split; [by intros [[_ ?] _]|by intros [_ ?%Forall2_nil_inv_l]].
  - split; [by intros [[_ ?] _]|by intros [_ ?%Forall2_nil_inv_r]].
  - cbn [length combine forallb]. rewrite andb_true_iff, Forall2_cons. specialize (IH l'). split.
    + intros [[Ha Hl] [Hc Hf]]. split; [done|]. split; [done|]. apply IH. split_and!; [done|lia|done].
    + intros (Ha & Hc & Hf). destruct (proj2 IH (conj Ha Hf)) as [[_ Hl] Hf']. split_and!; [done|lia|done|done].
Qed.
(** Theorem: every refusal of a permission reads the same. *)
Theorem refused_permission owner_ start agent now e : validatePermission owner_ start agent now = Throw e → e = OutingError "invalid_permission".
Proof. unfold validatePermission. destruct (permission_of _ _ _ _); by intros [=]. Qed.
End Permission.

(** ** An owner asks for three admissions *)
Section Case.
Definition ask_enforcer : string := "0x00000000000000000000000000000000000000e1".
Definition ask_limit : string := "0x00000000000000000000000000000000000000e2".
Definition ask_agent : string := "0x00000000000000000000000000000000000000a9".
Definition ask_terms : string := "0x0000000000000000000000006ab13b800000000000000000000000006ab157a0".
Definition ask_caveats (total : Z) : list Caveat :=
  [{| enforcer := ask_enforcer; terms := ask_terms; args := "0x" |}; {| enforcer := ask_limit; terms := "0x" ++ show_Z total; args := "0x" |}].
Definition ask_grant : Delegation :=
  {| delegate := ask_agent; delegator := ex_payer; authority := "0xff"; caveats := ask_caveats 3000000; salt := "0x05"; signature := ex_signature "005" "1b" |}.
Definition ask_toolkit : Toolkit := {|
  isAddress := @isAddress test_toolkit; getAddress := @getAddress test_toolkit; isHex := @isHex test_toolkit; size := @size test_toolkit;
  hexToBigInt_slice := @hexToBigInt_slice test_toolkit; keccak256 := @keccak256 test_toolkit; toBytes := @toBytes test_toolkit;
  encodeIntent := @encodeIntent test_toolkit; decodeDelegations _ := Ok [ask_grant]; recoverDelegator _ _ := Ok ex_owner;
  counterfactual o := (if String.eqb o ex_owner then ex_payer else o, "0xfac") |}.
Definition ask_env : SmartAccountsEnvironment :=
  {| Bootstrap.DelegationManager := "0x01"; SimpleFactory := ex_payer; caveatEnforcers := [ask_enforcer; ask_limit] |}.
(** The kit writes the lifetime limit into the second caveat. *)
Definition ask_create (r : KitRequest) : result Delegation :=
  match kr_caveats r with
  | [TimestampCaveat _ _; Erc20TransferAmount _ total; AllowedCalldata _ _] =>
      Ok {| delegate := kr_to r; delegator := kr_from r; authority := "0xff"; caveats := ask_caveats total; salt := default "0x" (kr_salt r); signature := "0x" |}
  | _ => Throw (Error "caveats")
  end.
Definition ask_start : OutingStart :=
  {| os_id := "outing-01"; os_tokenId := "7"; os_goal := goal_score; os_locale := en; os_choice := None; os_admissions := 3; os_context := "0x0102" |}.
Definition ask_hash (m : string) (d : Delegation) : string := "0xc" ++ salt d.
Definition ask_now : Z := 1790000010000.
Lemma ask_admitted : ∃ vp, @validatePermission ask_toolkit ask_env ask_enforcer (λ s, s) ask_create ask_hash ex_owner ask_start ask_agent ask_now = Ok vp.
Proof. eexists. vm_compute. reflexivity. Qed.
End Case.
