(* ===== verification/OutingPayment.v ===== *)
(** * The payment of a round

    apps/delegated-seller/outings/runtime.ts: the session key an outing pays with, the receipt
    the seller answers with, and [createOutingPayment], which pays one ticket through the
    payment client, files the header before it leaves, and believes only the chain.  A payment
    runs over an arbitrary world: its effects are arguments. *)

From Stdlib Require Import ZArith Lia Ascii String.
From stdpp Require Import base gmap strings list.
From S2P Require Import Prelude Toolkit Json Token Evidence Contract X402 Codec Errors Redact Gate PaymentClient Budget Seller Environment Purchases Guardians Ranking Outings Claims ClaimFacts GuardianBoot Permission.
Open Scope string_scope.
Open Scope Z_scope.

(** ** The session key *)
Definition AGENT_ROLE_KEYS : list string :=
  ["ARCADE_RESULT_PRIVATE_KEY"; "PRIVATE_KEY"; "DEPLOYER_PRIVATE_KEY"; "GUARDIAN_DEPLOYER_PRIVATE_KEY"; "FRAMEWORK_ADMIN_PRIVATE_KEY";
   "GUARDIAN_ADMIN_PRIVATE_KEY"; "FACILITATOR_SIGNER_PRIVATE_KEY"; "BOOTSTRAP_PRIVATE_KEY"; "REVOCATION_RELAYER_PRIVATE_KEY";
   "REVOCATION_SPONSOR_PRIVATE_KEY"].
Record OutingConfig := { ou_account : string; ou_token : string; ou_rpcUrl : string }.
Section SessionKey.
Context `{Toolkit}.
Variable new_URL : string → result Url.
(** [privateKeyToAccount(key).address] *)
Variable address_of : string → result string.

(** The accounts of the keys that are set, by name. *)
Fixpoint role_accounts (e : variables) (names : list string) : result (list (string * string)) :=
  match names with
  | [] => Ok []
  | name :: rest =>
      if String.eqb (trimmed e name) "" then role_accounts e rest
      else let? a := or_error (address_of (trimmed e name)) (name ++ " invalid") in
           let? l := role_accounts e rest in Ok ((name, a) :: l)
  end.
Fixpoint address_roles (e : variables) (agent : string) (names : list string) : result unit :=
  match names with
  | [] => Ok tt
  | name :: rest =>
      let value := trimmed e name in
      if String.eqb value "" then address_roles e agent rest
      else
        throws negb (isAddress value) with Error (name ++ " must be an address");
        throws String.eqb (getAddress value) agent with Error "ARCADE_AGENT_PRIVATE_KEY must not be a funded service key";
        address_roles e agent rest
  end.
(** Only the new role is compared, one sibling at a time. *)
Fixpoint separate_from (agent : string) (roles : list (string * string)) : result unit :=
  match roles with
  | [] => Ok tt
  | (name, a) :: rest =>
      let? _ := assertFundedKeySeparation [("ARCADE_AGENT", Some agent); (name, Some a)] in
      separate_from agent rest
  end.
Definition readOutingConfig (e : variables) : result (option OutingConfig) :=
  match e "ARCADE_OUTINGS_ENABLED" with
  | Some "true" =>
      throws negb (bool_decide (32 <= slen (trimmed e "ARCADE_RECEIPT_TOKEN"))) with Error "ARCADE_RECEIPT_TOKEN required for outings";
      let key := trimmed e "ARCADE_AGENT_PRIVATE_KEY" in
      throws String.eqb key "" || negb (re_0x is_hex 64 key) with Error "ARCADE_AGENT_PRIVATE_KEY must be a dedicated session key";
      let? account := or_error (address_of key) "ARCADE_AGENT_PRIVATE_KEY is invalid" in
      let? roles := role_accounts e AGENT_ROLE_KEYS in
      let? _ := address_roles e account ROLE_ADDRESSES in
      let? _ := separate_from account roles in
      throws String.eqb account ARCADE_REDEEMER || String.eqb account ARCADE_PAY_TO with
        Error "ARCADE_AGENT_PRIVATE_KEY must be separate from settlement roles";
      let? rpcUrl := readRpcUrl new_URL e in
      Ok (Some {| ou_account := account; ou_token := trimmed e "ARCADE_RECEIPT_TOKEN"; ou_rpcUrl := rpcUrl |})
  | Some "false" | None => Ok None
  | Some _ => Throw (Error "ARCADE_OUTINGS_ENABLED must be true or false")
  end.

Lemma role_accounts_ok e names roles : role_accounts e names = Ok roles →
  ∀ name, name ∈ names → trimmed e name ≠ "" → ∃ a, address_of (trimmed e name) = Ok a ∧ (name, a) ∈ roles.
Proof.
  revert roles. induction names as [|n names IH]; intros roles Hr name Hin Hv; [by apply elem_of_nil in Hin|]. cbn [role_accounts] in Hr.
  destruct (String.eqb_spec (trimmed e n) "") as [He|He].
  - apply elem_of_cons in Hin as [->|Hin]; [done|by apply IH].
  - apply rbind_ok in Hr as (a & Ha & Hr). apply rbind_ok in Hr as (l & Hl & [= <-]).
    apply elem_of_cons in Hin as [->|Hin].
    + exists a. split; [unfold or_error in Ha; by destruct (address_of _); simplify_eq|by left].
    + destruct (IH l Hl name Hin Hv) as (b & Hb & Hbin). exists b. split; [done|by right].
Qed.
Lemma separate_from_ok agent roles : separate_from agent roles = Ok tt → ∀ name a, (name, a) ∈ roles → toLowerCase a ≠ toLowerCase agent.
Proof.
  induction roles as [|[n b] roles IH]; intros Hs name a Hin; [by apply elem_of_nil in Hin|]. cbn [separate_from] in Hs.
  apply rbind_ok in Hs as ([] & Hn%funded_keys_separate & Hs). apply elem_of_cons in Hin as [[= -> ->]|Hin]; [|by apply (IH Hs name)].
  change (NoDup [toLowerCase agent; toLowerCase b]) in Hn. intros E. rewrite E in Hn. apply NoDup_cons in Hn as [Hn _]. apply Hn. by left.
Qed.
Lemma address_roles_ok e agent names : address_roles e agent names = Ok tt →
  ∀ name, name ∈ names → trimmed e name ≠ "" → isAddress (trimmed e name) = true ∧ getAddress (trimmed e name) ≠ agent.
Proof.
  induction names as [|n names IH]; intros Ha name Hin Hv; [by apply elem_of_nil in Hin|]. cbn [address_roles] in Ha.
  destruct (String.eqb_spec (trimmed e n) "") as [He|He].
  - apply elem_of_cons in Hin as [->|Hin]; [done|by apply IH].
  - apply rbind_ok in Ha as (? & Hi%throw_when_ok%negb_false_iff & Ha). apply rbind_ok in Ha as (? & Hne%throw_when_ok%String.eqb_neq & Ha).
    apply elem_of_cons in Hin as [->|Hin]; [done|by apply IH].
Qed.
(** Theorem: the session key is nobody else: in whatever case its address is written, no other key
    of the environment has its account, no address named for a role is it, nor are the arcade's
    payee and redeemer; and when the same environment boots the result signer, that is another
    account still. *)
Theorem session_key_is_separate e c (Hb : readOutingConfig e = Ok (Some c)) :
  (∀ name, name ∈ AGENT_ROLE_KEYS → trimmed e name ≠ "" → ∃ a, address_of (trimmed e name) = Ok a ∧ toLowerCase a ≠ toLowerCase (ou_account c))
  ∧ (∀ name, name ∈ ROLE_ADDRESSES → trimmed e name ≠ "" → isAddress (trimmed e name) = true ∧ getAddress (trimmed e name) ≠ ou_account c)
  ∧ ou_account c ≠ ARCADE_PAY_TO ∧ ou_account c ≠ ARCADE_REDEEMER
  ∧ ∀ g url, readGuardianConfig new_URL address_of e = Ok (Some (g, url)) → gc_signer g ≠ ou_account c.
Proof.
  assert (Hb' : ∃ account roles, or_error (address_of (trimmed e "ARCADE_AGENT_PRIVATE_KEY")) "ARCADE_AGENT_PRIVATE_KEY is invalid" = Ok account
    ∧ trimmed e "ARCADE_AGENT_PRIVATE_KEY" ≠ "" ∧ role_accounts e AGENT_ROLE_KEYS = Ok roles ∧ address_roles e account ROLE_ADDRESSES = Ok tt
    ∧ separate_from account roles = Ok tt ∧ account ≠ ARCADE_REDEEMER ∧ account ≠ ARCADE_PAY_TO ∧ ou_account c = account).
  { unfold readOutingConfig in Hb. repeat (case_match; try done).
    apply rbind_ok in Hb as (? & _ & Hb). apply rbind_ok in Hb as (? & Hk%throw_when_ok & Hb). apply rbind_ok in Hb as (account & Ha & Hb).
    apply rbind_ok in Hb as (roles & Hr & Hb). apply rbind_ok in Hb as ([] & Had & Hb). apply rbind_ok in Hb as ([] & Hs & Hb).
    apply rbind_ok in Hb as (? & Hp%throw_when_ok & Hb). apply rbind_ok in Hb as (u & _ & [= <-]). apply orb_false_iff in Hk as [Hk%String.eqb_neq _].
    apply orb_false_iff in Hp as [Hp1%String.eqb_neq Hp2%String.eqb_neq]. by exists account, roles. }
  clear Hb. destruct Hb' as (account & roles & Ha & Hk & Hr & Had & Hs & Hp1 & Hp2 & ->). split_and!; try done.
  - intros name Hin Hv. destruct (role_accounts_ok _ _ _ Hr name Hin Hv) as (a & Hda & Hina). exists a. split; [done|]. by apply (separate_from_ok _ _ Hs name).
  - by apply address_roles_ok.
  - intros g url Hg. assert (Hin : "ARCADE_AGENT_PRIVATE_KEY" ∈ ROLE_KEYS) by by left.
    destruct (result_signer_is_separate new_URL address_of e g url Hg) as [Hkeys _]. destruct (Hkeys _ Hin Hk) as (other & Ho & Hne).
    unfold or_error in Ha. rewrite Ho in Ha. injection Ha as ->. by intros <-.
Qed.
End SessionKey.

(** ** The seller's receipt *)
(** [/^[A-Za-z0-9_-]{8,100}$/] *)
Definition is_ticket_code (s : string) : bool := (8 <=? slen s) && (slen s <=? 100) && forallb is_id_char (chars s).
Definition is_text (v : jsval) : bool := match v with JStr _ => true | _ => false end.

Section Payment.
Context `{Toolkit}.
Variable url_origin : string → option string.
(** viem's [isHash]. *)
Variable isHash : string → bool.

Definition addr_is (v : jsval) (a : string) : bool := is_addr v && String.eqb (getAddress (text_of v)) a.
Definition invalid_receipt : js_error := Error "invalid_receipt".
(** The checks before the amount, and the ones after it. *)
Definition receipt_named (t r : jsval) (j : Job) (p : Pending) : bool :=
  is_record (prop t "shop") && is_str (prop (prop t "shop") "slug") SLUG && is_record (prop t "item")
  && is_str (prop (prop t "item") "key") (game_text (p_game p)) && is_text (prop t "code") && is_ticket_code (text_of (prop t "code"))
  && is_text (prop t "transaction") && isHash (text_of (prop t "transaction")) && is_str (prop r "transaction") (text_of (prop t "transaction"))
  && addr_is (prop r "payer") (payer j) && is_str (prop r "method") "erc7710" && is_str (prop r "network") GIWA_SEPOLIA_CAIP2 && is_text (prop r "amount").
Definition receipt_pays (r : jsval) : bool := addr_is (prop r "asset") MOCK_USDC_address && addr_is (prop r "payTo") ARCADE_PAY_TO.
Definition receiptTransaction (value : jsval) (j : Job) (p : Pending) : result string :=
  throws negb (is_record value) || negb (is_record (prop value "ticket")) || negb (is_record (prop value "receipt")) with invalid_receipt;
  let t := prop value "ticket" in
  let r := prop value "receipt" in
  throws negb (receipt_named t r j p) with invalid_receipt;
  let? amount := toTokenAmount (text_of (prop r "amount")) in
  throws negb (amount =? ARCADE_TICKET_AMOUNT) || negb (receipt_pays r) with invalid_receipt;
  Ok (text_of (prop t "transaction")).

(** ** Paying *)
(** What the payment reaches outside: the leaf it has signed for the job's permission, the
    seller (with a payment header or without), the row the header is filed in, the chain, and
    random bytes. *)
Record OutingDesk (W : Type) := {
  od_provider : Job → jsval → meth W Leaf; od_seller : GameId → option string → meth W HttpResponse; od_persist : string → meth W unit;
  od_receipt : string → meth W TxReceipt; od_random : W → list Z * W }.
Arguments od_provider {W}. Arguments od_seller {W}. Arguments od_persist {W}. Arguments od_receipt {W}. Arguments od_random {W}.
Variable manager : string.

(** The pre-flight: the fixed ticket, by the text of its amount.  The offer it is asked about has
    a payee and a timeout of at most 300 seconds, or was refused before. *)
Definition ticket_preflight (offer : jsval) : result PreflightVerdict :=
  if negb (is_str (prop offer "amount") (show_Z ARCADE_TICKET_AMOUNT)) then Ok (Stop "SPEND_POLICY_REFUSED" "fixed arcade ticket required")
  else
    let? payee := checked_getAddress (prop offer "payTo") in
    if String.eqb payee ARCADE_PAY_TO && (match prop offer "maxTimeoutSeconds" with JNum n => n <=? 300 | _ => false end) then Ok Clear
    else Ok (Stop "SPEND_POLICY_REFUSED" "fixed arcade ticket required").
(** A header is presented when it has a character. *)
Definition given (header : option string) : option string :=
  match header with Some text => if String.eqb text "" then None else Some text | None => None end.
Definition payment_config {W} (d : OutingDesk W) (j : Job) (p : Pending) : DelegatedPaymentConfig W :=
  {| provider := od_provider d j; cf_manager := getAddress manager; trustedFacilitators := [ARCADE_REDEEMER];
     cf_preflight := Some (λ offer, meth_lift (ticket_preflight offer));
     fetchImpl := λ h, match given h with
       | Some header => do! _ := od_persist d header in od_seller d (p_game p) (Some header)
       | None => od_seller d (p_game p) None
       end;
     getRandomValues := od_random d |}.
Definition payment_unresolved_error : js_error := Error "payment_unresolved".
(** A filed header is presented again; otherwise a new payment is made. *)
Definition paid_resource {W} (d : OutingDesk W) (j : Job) (p : Pending) : meth W jsval :=
  match given (p_header p) with
  | Some header =>
      do! response := od_seller d (p_game p) (Some header) in
      if http_ok response then meth_lift (json_body response) else meth_throw payment_unresolved_error
  | None =>
      do! r := payForDelegatedResource url_origin (payment_config d j p) in
      match r with
      | Delivered _ _ _ _ resource _ => meth_ret resource
      | Refused _ _ _ _ _ => meth_throw payment_unresolved_error
      end
  end.
Definition receipt_settles (j : Job) (r : TxReceipt) : bool :=
  Claims.rc_success r && bool_decide (reconcileSettlementReceipt (rc_logs r) MOCK_USDC_address (payer j) ARCADE_PAY_TO ARCADE_TICKET_AMOUNT = []).
Definition pay {W} (d : OutingDesk W) (j : Job) (p : Pending) : meth W string :=
  do! resource := paid_resource d j p in
  do! transaction := meth_lift (receiptTransaction resource j p) in
  do! receipt := od_receipt d transaction in
  if receipt_settles j receipt then meth_ret transaction else meth_throw (Error "receipt_unconfirmed").

(** ** What left, and in which order *)
Inductive Note := Sought | Signing (offer : jsval) | Filed (header : string) (answer : result unit) | Presented (header : string).
Definition note {W A} (m : meth W A) (n : result A → Note) : meth (W * list Note) A := λ s,
  let '(r, w) := m s.1 in (r, (w, (s.2 ++ [n r])%list)).
Definition noted {W} (d : OutingDesk W) : OutingDesk (W * list Note) :=
  {| od_provider := λ j offer, note (od_provider d j offer) (λ _, Signing offer);
     od_seller := λ g h, note (od_seller d g h) (λ _, match h with Some header => Presented header | None => Sought end);
     od_persist := λ header, note (od_persist d header) (Filed header);
     od_receipt := λ t s, let '(r, w) := od_receipt d t s.1 in (r, (w, s.2));
     od_random := λ s, let '(b, w) := od_random d s.1 in (b, (w, s.2)) |}.
(** A ticket's offer: its price, to the arcade. *)
Definition ticket_offer (offer : jsval) : Prop :=
  prop offer "amount" = JStr (show_Z ARCADE_TICKET_AMOUNT) ∧ addr_is (prop offer "payTo") ARCADE_PAY_TO = true.
(** The runs of a payment: a filed header is only presented; a new one is signed for a ticket's
    offer, filed, and presented when the filing returned. *)
Inductive payment_notes : option string → list Note → Prop :=
  | pn_again h : payment_notes (Some h) [Presented h]
  | pn_none : payment_notes None [Sought]
  | pn_unsigned offer : ticket_offer offer → payment_notes None [Sought; Signing offer]
  | pn_unfiled offer h e : ticket_offer offer → payment_notes None [Sought; Signing offer; Filed h (Throw e)]
  | pn_presented offer h : ticket_offer offer → payment_notes None [Sought; Signing offer; Filed h (Ok tt); Presented h].
Lemma preflight_clear offer : ticket_preflight offer = Ok Clear → ticket_offer offer.
Proof.
  unfold ticket_preflight, ticket_offer. destruct (is_str _ _) eqn:Ea; [|done]. cbn [negb]. intros Hp. apply rbind_ok in Hp as (payee & Hpay & Hp).
  destruct (_ && _) eqn:E; [|done]. apply andb_true_iff in E as [<-%String.eqb_eq _]. unfold checked_getAddress in Hpay.
  apply rbind_ok in Hpay as (? & Ha%throw_when_ok%negb_false_iff & [= Hpay]). unfold addr_is. rewrite Ha, Hpay, String.eqb_refl.
  split; [|done]. destruct (prop offer "amount"); try done. unfold is_str in Ea. apply String.eqb_eq in Ea. by f_equal.
Qed.
(** An encoded header is never the empty text. *)
Lemma encoded_given offer leaf bytes h : encodePaymentHeader (payload_of offer leaf (newPaymentIdentifier bytes)) = Ok h → given (Some h) = Some h.
Proof. intros Hl. apply (header_long url_origin) in Hl; [|apply minted_utf8]. unfold given. by destruct (String.eqb_spec h "") as [->|]. Qed.
Lemma new_payment_notes {W} (d : OutingDesk W) j p w :
  payment_notes None (payForDelegatedResource url_origin (payment_config (noted d) j p) (w, [])).2.2.
Proof.
  unfold payForDelegatedResource. cbn [fetchImpl payment_config given noted od_seller]. unfold note. cbn [fst snd app].
  destruct (od_seller d (p_game p) None w) as [[first|e] w1]; [|constructor]. destruct (select_offer_of _ _ _ first) as [[accepted|r]|e]; [|constructor..].
  unfold check_and_sign. cbn [cf_preflight payment_config]. unfold meth_lift. destruct (ticket_preflight accepted) as [[|code detail]|e] eqn:Hpre; [|constructor..].
  apply preflight_clear in Hpre. unfold sign_and_present. cbn [provider payment_config noted od_provider]. unfold note. cbn [fst snd app].
  destruct (od_provider d j accepted w1) as [[leaf|e] w2]; [|by constructor]. destruct (leaf_ok _ leaf); [|by constructor]. cbn [negb].
  unfold present_payment. cbn [getRandomValues payment_config noted od_random fst snd]. destruct (od_random d w2) as [bytes w3].
  destruct (encodePaymentHeader _) as [h|e] eqn:Hh; [|by constructor]. apply encoded_given in Hh.
  cbn [fetchImpl payment_config noted od_persist od_seller]. rewrite Hh. unfold meth_bind, note. cbn [fst snd app].
  destruct (od_persist d h w3) as [[[]|e] w4]; [|by constructor]. cbn [fst snd app]. destruct (od_seller d (p_game p) (Some h) w4) as [[second|e] w5]; [|by constructor].
  destruct (http_ok second); by constructor.
Qed.
Lemma noted_receipt {W} (d : OutingDesk W) t s : (od_receipt (noted d) t s).2.2 = s.2.
Proof. cbn. by destruct (od_receipt d t s.1). Qed.
Lemma resource_notes {W} (d : OutingDesk W) j p w : payment_notes (given (p_header p)) (paid_resource (noted d) j p (w, [])).2.2.
Proof.
  unfold paid_resource. destruct (given (p_header p)) as [h|].
  - unfold meth_bind. cbn [noted od_seller]. unfold note. cbn [fst snd app]. destruct (od_seller d (p_game p) (Some h) w) as [[response|e] w1]; [|constructor].
    cbn [fst snd]. destruct (http_ok response); constructor.
  - pose proof (new_payment_notes d j p w) as Hn. unfold meth_bind. destruct (payForDelegatedResource _ _ _) as [[r|e] s]; [|done]. by destruct r.
Qed.
(** C39: A round pays with one header, filed before it is presented: if the row has a header, that
    one is presented again and nothing is signed; otherwise at most one leaf is signed, for an
    offer of exactly the ticket's price to the arcade, and its header is presented only after
    the filing returned. *)
Theorem header_is_filed_first {W} (d : OutingDesk W) j p w : payment_notes (given (p_header p)) (pay (noted d) j p (w, [])).2.2.
Proof.
  pose proof (resource_notes d j p w) as Hn. unfold pay, meth_bind. destruct (paid_resource _ _ _ _) as [[resource|e] s]; [|done].
  unfold meth_lift. destruct (receiptTransaction resource j p) as [t|e]; [|done]. pose proof (noted_receipt d t s) as Hr.
  destruct (od_receipt (noted d) t s) as [[r|e] s']; cbn [fst snd] in *; [destruct (receipt_settles j r)|]; cbn; by rewrite Hr.
Qed.
(** C40: A round is counted as paid only on the chain's word: the transaction is the one that the
    seller's ticket for this game and this payer names, and its receipt succeeded with exactly
    one transfer of the ticket's price from the payer to the arcade. *)
Theorem paid_on_the_chain {W} (d : OutingDesk W) j p w transaction w' (Hp : pay d j p w = (Ok transaction, w')) :
  ∃ resource r w1, receiptTransaction resource j p = Ok transaction ∧ od_receipt d transaction w1 = (Ok r, w')
    ∧ Claims.rc_success r = true
    ∧ reconcileSettlementReceipt (rc_logs r) MOCK_USDC_address (payer j) ARCADE_PAY_TO ARCADE_TICKET_AMOUNT = []
    ∧ addr_is (prop (prop resource "receipt") "payer") (payer j) = true ∧ is_str (prop (prop (prop resource "ticket") "item") "key") (game_text (p_game p)) = true.
Proof.
  unfold pay in Hp. apply meth_bind_ok in Hp as (resource & w0 & _ & Hp). apply meth_bind_ok in Hp as (t & w1 & Ht & Hp).
  unfold meth_lift in Ht. injection Ht as Ht <-. apply meth_bind_ok in Hp as (r & w2 & Hr & Hp). destruct (receipt_settles j r) eqn:Es; [|done].
  injection Hp as <- <-. unfold receipt_settles in Es. bools. exists resource, r, w0. split_and!; try done.
  - unfold receiptTransaction in Ht. apply rbind_ok in Ht as (? & _ & Ht). apply rbind_ok in Ht as (? & Hn%throw_when_ok & _).
    apply negb_false_iff in Hn. unfold receipt_named in Hn. bools. done.
  - unfold receiptTransaction in Ht. apply rbind_ok in Ht as (? & _ & Ht). apply rbind_ok in Ht as (? & Hn%throw_when_ok & _).
    apply negb_false_iff in Hn. unfold receipt_named in Hn. bools. done.
Qed.
End Payment.

(** ** A filed round is paid *)
Section Case.
#[local] Instance od_toolkit : Toolkit := {|
  isAddress := λ s, slen s =? 42; getAddress := λ s, s; isHex := @isHex test_toolkit; size := @size test_toolkit;
  hexToBigInt_slice := @hexToBigInt_slice test_toolkit; keccak256 := @keccak256 test_toolkit; toBytes := @toBytes test_toolkit;
  encodeIntent := @encodeIntent test_toolkit; decodeDelegations := @decodeDelegations test_toolkit;
  recoverDelegator := @recoverDelegator test_toolkit; counterfactual := @counterfactual test_toolkit |}.
Definition od_job (p : Pending) : Job := with_pending (Some p) c7_job.
Definition od_pending : Pending := {| p_game := Ranking.race; p_gameseed := 5; p_header := Some "h1"; p_tx := None; p_ranked := None |}.
Definition od_body : jsval :=
  JObj [("ticket", JObj [("shop", JObj [("slug", JStr "mapae-arcade")]); ("item", JObj [("key", JStr "race")]); ("code", JStr "CODE-0001"); ("transaction", JStr "0xT1")]);
        ("receipt", JObj [("transaction", JStr "0xT1"); ("payer", JStr (payer (od_job od_pending))); ("method", JStr "erc7710"); ("network", JStr GIWA_SEPOLIA_CAIP2);
                          ("amount", JStr "1.00"); ("asset", JStr MOCK_USDC_address); ("payTo", JStr ARCADE_PAY_TO)])].
Definition od_receipt_ok : TxReceipt :=
  {| Claims.rc_success := true; rc_block := 90; rc_blockHash := "0xb1";
     rc_logs := [{| address := MOCK_USDC_address;
                    topics := [TRANSFER_EVENT_TOPIC; padTopicAddress (payer (od_job od_pending)); padTopicAddress ARCADE_PAY_TO];
                    data := "0x00000000000000000000000000000000000000000000000000000000000f4240" |}] |}.
Definition od_desk : OutingDesk unit :=
  {| od_provider := λ _ _ w, (Throw (Error "unused"), w);
     od_seller := λ _ _ w, (Ok {| http_status := 200; header := λ _, None; json_body := Ok od_body; text_body := Ok "" |}, w);
     od_persist := λ _ w, (Ok tt, w); od_receipt := λ _ w, (Ok od_receipt_ok, w); od_random := λ w, ([], w) |}.
Definition od_paid : result string * unit := pay (λ _, None) (λ s, String.eqb s "0xT1") "0x01" od_desk (od_job od_pending) od_pending tt.
Lemma od_pays : od_paid = (Ok "0xT1", tt).
Proof. vm_compute. reflexivity. Qed.
Lemma paid_on_the_chain_witness : ∃ r, Claims.rc_success r = true
  ∧ reconcileSettlementReceipt (rc_logs r) MOCK_USDC_address (payer (od_job od_pending)) ARCADE_PAY_TO ARCADE_TICKET_AMOUNT = [].
Proof.
  destruct (paid_on_the_chain (λ _, None) (λ s, String.eqb s "0xT1") "0x01" od_desk (od_job od_pending) od_pending tt "0xT1" tt od_pays)
    as (resource & r & w1 & _ & _ & H1 & H2 & _). exists r. exact (conj H1 H2).
Defined.
End Case.
